(* ===== verification/_CoqProject ===== *)
-Q . S2P
Prelude.v
JsMap.v
BigInt.v
JsNumber.v
FeeEngine.v
FeeLedger.v
IntentTypes.v
StateMachine.v
IntentsRepo.v
PartialFillMath.v
Prog.v
Budget.v
FillsRepo.v
SolverFills.v
IntentsService.v
ServiceSafety.v
IntentCreation.v
PartialFillService.v
KillSwitch.v
Sweeper.v
Outbox.v
OutboxRelay.v
CircuitBreaker.v
HttpEgress.v
Solvers.v
PendingSlashes.v
SlashingPipeline.v
SlashingSafety.v
SignerPolicy.v
Auctions.v
IntentIndex.v
SlidingWindow.v
JobQueue.v
JobQueueSafety.v
Auth.v
Sessions.v
RateLimit.v
Feed.v
FeedSafety.v
ChannelPool.v
CursorCodec.v
LeaderElection.v
LeaderSafety.v
IpAllowlist.v
IpAllowlistExact.v
MinDst.v
RpcPool.v
DualWrite.v
EventIngestion.v
EventDecoders.v
Backfill.v
Guardian.v
RegistryProjection.v
Reconciler.v
Disputes.v
Flags.v
GovernanceParams.v
Treasury.v
TtlKeeper.v
Preflight.v
SourceDeposits.v
FillVerifier.v
TxTracking.v
Allowlist.v
AbuseRules.v
AbuseScore.v
Griefing.v
Archival.v
Connections.v
Credentials.v
ApiKeys.v
Shadow.v
Gateway.v
GatewaySafety.v
