(* ===== verification/Prelude.v ===== *)
(** Verification of the Vortex backend, an intent relay for Stellar and EVM
    chains: users post intents, solvers accept and fill them, the backend keeps
    their lifecycle, mirrors it on a Soroban contract, and pays and slashes
    solvers.  The library models the TypeScript of [src/src/]: each file opens
    with the sources it translates, definitions keep the source's names, and
    what leaves the repository (databases, Redis, the Stellar SDK, sockets,
    signatures, clocks) is a parameter of the definitions that use it.

    * How code becomes Rocq

    Pure functions are functions; BigInt is [Z] with its parser and printer
    ([BigInt]), a [Map] or object used as one is an association list in
    insertion order ([JsMap]), 32-bit arithmetic is written out where the code
    relies on it ([HttpEgress]).  A function that throws returns [outcome].
    Classes are records, their methods state-passing functions.  Code that
    awaits between reads and writes is either a program of [Prog], whose steps
    other programs interleave with, or a set of events with one definition per
    stretch between two awaits ([JobQueue], [Feed], [ChannelPool]).  Loops that
    are not structural take fuel: [drain_loop] the number of waiting jobs plus
    one (each round takes a job; [drain_leaves_none_startable] shows the loop
    ended by itself), the retry loops of the services their attempt limit,
    [makeRequest] its redirect limit, [print_nat] the bit length of the number,
    [page_loop] of the backfill one page per ledger of its range ([Backfill]
    shows that it never runs out), [reconcile_from] one round per tracked intent,
    [batches] one per key or connection, [groups_of] one per due intent,
    [scan_pages] the source's page limit, [flush_loop] one round per queued
    message, and the loops of [Archival] one round per row, which
    [archive_completes] shows to be enough.  [Promise.all] is [together], which
    takes the order of its calls' steps as an argument.

    * Parts, and what is shown of them

    Foundations: [Prelude] (outcomes, lists, strings, tactics), [JsMap],
    [BigInt], [JsNumber] (doubles as the code compares and prints them),
    [Prog] (interleaved programs; what each step keeps, and the rely/guarantee
    rule [rg]), [Budget] (what a program spends of a shared pool),
    [SlidingWindow].

    Fees: [FeeEngine] (fees/fee-engine.ts) - the quoted fee is the ceiling of the
    selected rate, within its caps, split between treasury and integrator, and
    every malformed input is an error; [FeeLedger] (fees/fee-ledger.ts,
    fees.service.ts) - postings balance and the totals are the fees charged;
    [Treasury] (treasury/) - a reconciliation reports the difference between the
    account and the ledgers as they were, whatever is written meanwhile.

    Intents: [IntentTypes]; [StateMachine] (intents/state-machine.ts) - the table
    refines the lifecycle of formal/IntentLifecycle.tla and agrees with the
    database trigger; [IntentsRepo] (intents.repository.ts) - versions, at most
    one winner among racing transitions, well-formedness; the repository's
    promises are a typeclass, against which [IntentsService] (every lifecycle
    write, with its retries and bookkeeping), [ServiceSafety] and
    [IntentCreation] (idempotent and batched creation) are proved.
    [PartialFillMath], [FillsRepo], [PartialFillService] (partial-fills/) -
    tranches never exceed the intent and always add up to its minimum.
    [Sweeper] - overdue intents are settled.  [IntentIndex]
    (solver-intent-matcher.ts) - the index answers as the predicate.
    [Auctions] (auctions/) - the price curve and its ticker.  [DualWrite]
    (dual-write-intents.repository.ts) - the mirrored repository refines the one
    in memory, and a row of the mirror never goes back to an older version.
    [MinDst] (common/amount.ts, min-dst-amount.validation.ts) - which minimum
    amounts are let through, and which checks fail open.

    Feed: [Feed], [FeedSafety] (intents/feed/, event-ring-buffer.ts,
    backplane/memory.backplane.ts, intents-sse.controller.ts) - order,
    resumption without gaps, connection limits, verified quotes.  [Gateway],
    [GatewaySafety] (intents/intents.gateway.ts, ws-protocol.ts,
    backplane/*replay*.ts) - under every interleaving of the handlers a sequence
    number names one event, connections are sent only what their filters admit,
    a replay closes the gap or says that it cannot, silent connections are
    reaped and a drain closes everyone; the replay stores are instances of one
    interface.  [Connections] (intents/ws/) - token buckets, client addresses
    behind proxies, and outbound queues that are bounded and drain.

    Solvers: [SolverFills], [Solvers], [PendingSlashes], [SlashingPipeline],
    [SlashingSafety] (solvers/, intents/slashing-pipeline.service.ts) - a slash
    is submitted only after its challenge window, and a cancelled one is
    compensated once.  [Disputes] (disputes/) - refunds go to disputes of real
    slashes, and one at a time they are decided once.  [Griefing]
    (solver-griefing.service.ts) - the enforcement ladder, and that a suspension
    is lifted only by an operator.  [Shadow] (soroban/shadow*.ts) - every
    observation of the shadow monitor is accounted for, and its queue drains.

    Deposits and fills: [SourceDeposits] (chains/,
    source-deposit-verification.service.ts) - an intent is flagged verified only
    after a tick found its deposit, with bounded retries; [FillVerifier] - what
    counts as the fill of an intent on the chain.

    Chain: [Outbox], [OutboxRelay] (soroban/outbox*.ts, parts of
    stellar-tx.service.ts and tx-confirmation.service.ts) - per-intent order,
    fencing, every claim settles; [ChannelPool] (soroban/channel-pool.service.ts)
    - exclusive leases and unique sequence numbers; [SignerPolicy]
    (soroban/signer-policy/policy.ts) - what an allowed transaction may call, and
    the budget; [RpcPool] (soroban/rpc-pool.ts) - healthy endpoints first, every
    endpoint tried before a call fails, when an endpoint is shunned;
    [EventIngestion], [EventDecoders] (soroban/event-ingestion.service.ts,
    soroban/events/) - polling handles every event of the chain once and in
    order, decoders accept exactly the documented shapes; [Backfill]
    (soroban/backfill.service.ts) - a backfill ends and records its range;
    [RegistryProjection] (solver-registry-events.service.ts) - replaying the
    registry's events changes nothing; [Reconciler] (soroban/reconciler.service.ts)
    - repairs only follow what the contract reports; [TtlKeeper]
    (soroban/ttl-keeper.service.ts) - the daily budget, urgent keys first;
    [Preflight] (soroban/destination-preflight.service.ts) - a check answers from
    what Horizon said, no older than its cache allows; [TxTracking] - pending
    transactions are confirmed, and their fee bumps stay within bounds.

    Governance: [Guardian] (governance/guardian*.ts) - the policy state mirrors
    the active guardian actions; [GovernanceParams] (governance/params.service.ts)
    - adopted parameters are numbered, bounded and kept; [Flags] (flags/) - the
    dry-run flag is turned off by two admins or not at all, versions count
    changes, rollouts only grow.

    Operations: [KillSwitch] (killswitch/), [CircuitBreaker], [HttpEgress]
    (common/http-egress/), [JobQueue], [JobQueueSafety]
    (jobs/memory-job-queue.driver.ts) - an accepted job is in exactly one place,
    concurrency and rate limits hold, nothing startable waits; [LeaderElection],
    [LeaderSafety] (leader election over a lock server) - under every
    interleaving of heartbeats at most one replica believes it leads while the
    server backs it, and fencing tokens are never reused.

    Access: [Auth] (signature nonces, signed self-service requests), [Sessions]
    (SEP-10 challenges, revocation, the session guard), [RateLimit]
    (auth/rate-limit/), [CursorCodec] (common/pagination/cursor-codec.ts),
    [IpAllowlist], [IpAllowlistExact] (ip-allowlist.ts) - the addresses an
    allowlist admits are exactly those of its entries' blocks.  [Allowlist],
    [AbuseRules], [AbuseScore] (abuse/) - rule changes are kept, scores follow the
    rules, the guard follows the ladder of actions.  [Credentials]
    (auth/solver-credentials/) - a request is let in only with a secret of a row,
    and a delivered revocation holds on every replica; [ApiKeys]
    (auth/api-keys/) - resolution, usage totals, one key per signup token.

    Archives: [Archival] (archival/) - no run deletes a row that cannot be read
    back from the bucket, a run without failures archives its day, and a restore
    brings back what was archived.

    Interfaces between components are typeclasses with laws: the intents
    repository towards its service, the nonce stores towards the requests that
    consume them, the lock server towards the replicas that elect a leader, and
    the replay stores towards the gateway.
    Invariants are stated over reachable states - folds of the step function or
    interleavings from the initial state - and the refinements relate the code's
    transitions to smaller machines.  Behaviours that differ from what
    comments promise are theorems of their own, with a run that exhibits them.

    * Not modelled

    HTTP controllers, DTO validation and module wiring (transport: they decode
    requests and call what is modelled here); Prisma adapters, BullMQ and the
    Redis backplane, whose meaning is that of the database or broker; metrics,
    logging and tracing, which no other code reads; configuration, beyond the
    settings that the modelled code consults; generated API types; signatures,
    key storage and XDR, left to libraries; reputation and price aggregation,
    whose floating-point results depend on rounding; the token registry,
    webhooks, datasets and analytics. *)
From stdpp Require Export base option list strings numbers gmap sorting.
From Stdlib Require Export ZArith Lia.

#[export] Set Default Goal Selector "!".

(** * Results of fallible code *)

(** A call either returns a value or throws; [E] is the error the component
    can throw. *)
Inductive outcome (E A : Type) : Type :=
  | Ok (a : A)
  | Err (e : E).
Arguments Ok {E A} _.
Arguments Err {E A} _.

#[export] Instance outcome_ret {E} : MRet (outcome E) := fun _ a => Ok a.
#[export] Instance outcome_bind {E} : MBind (outcome E) := fun _ _ f m =>
  match m with Ok a => f a | Err e => Err e end.
#[export] Instance outcome_fmap {E} : FMap (outcome E) := fun _ _ f m =>
  match m with Ok a => Ok (f a) | Err e => Err e end.

(** [guard_err b e]: throw [e] unless [b]. *)
Definition guard_err {E} (b : bool) (e : E) : outcome E unit :=
  if b then Ok tt else Err e.

(** A missing value is the given error. *)
Definition of_option {E A} (e : E) (o : option A) : outcome E A :=
  match o with Some a => Ok a | None => Err e end.

Lemma of_option_ok {E A} (e : E) (o : option A) a :
  of_option e o = Ok a <-> o = Some a.
Proof. destruct o; simpl; naive_solver. Qed.

Definition is_ok {E A} (m : outcome E A) : bool :=
  match m with Ok _ => true | Err _ => false end.

(** [mapM]-style loops over lists that stop at the first error. *)
Fixpoint outcome_foldl {E A B} (f : B -> A -> outcome E B) (b : B) (l : list A) : outcome E B :=
  match l with
  | [] => Ok b
  | a :: l => match f b a with Ok b' => outcome_foldl f b' l | Err e => Err e end
  end.

(** * Tactics *)

(** Case analysis on the scrutinee of the first match found in [H]. *)
Ltac case_match_in H :=
  match type of H with
  | context [match ?x with _ => _ end] => destruct x eqn:?; simplify_eq/=
  end.

(** Boolean tests to propositions, everywhere. *)
Ltac bool_norm :=
  repeat match goal with
  | H : _ && _ = true |- _ => apply andb_prop in H; destruct H
  | H : _ && _ = false |- _ => apply andb_false_iff in H
  | H : _ || _ = false |- _ => apply orb_false_iff in H; destruct H
  | H : _ || _ = true |- _ => apply orb_true_iff in H
  | H : negb _ = true |- _ => apply negb_true_iff in H
  | H : negb _ = false |- _ => apply negb_false_iff in H
  | H : (_ <? _)%Z = true |- _ => apply Z.ltb_lt in H
  | H : (_ <? _)%Z = false |- _ => apply Z.ltb_ge in H
  | H : (_ <=? _)%Z = true |- _ => apply Z.leb_le in H
  | H : (_ <=? _)%Z = false |- _ => apply Z.leb_gt in H
  | H : (_ =? _)%Z = true |- _ => apply Z.eqb_eq in H
  | H : (_ =? _)%Z = false |- _ => apply Z.eqb_neq in H
  | H : bool_decide _ = true |- _ => apply bool_decide_eq_true in H
  | H : bool_decide _ = false |- _ => apply bool_decide_eq_false in H
  | |- context [bool_decide ?P] =>
      first [ rewrite (bool_decide_eq_true_2 P) by assumption
            | rewrite (bool_decide_eq_false_2 P) by assumption ]
  end.

(** Split every match of a hypothesis, discarding the impossible cases. *)
Ltac split_matches H :=
  repeat (case_match_in H; try discriminate; try congruence); bool_norm.

(** The cases of membership in a literal list. *)
Ltac in_list H :=
  repeat (apply elem_of_cons in H as [H|H]; [try discriminate H|]); [..|by apply not_elem_of_nil in H].

Create HintDb vortex.

(** * Sums over lists *)

Section sums.
Context {A : Type}.
Local Open Scope Z_scope.
Implicit Types (f g : A -> Z) (l : list A).

Fixpoint sumZ f l : Z :=
  match l with [] => 0 | a :: l => f a + sumZ f l end.

Lemma sumZ_app f l1 l2 : sumZ f (l1 ++ l2) = sumZ f l1 + sumZ f l2.
Proof. induction l1; simpl; lia. Qed.

Lemma sumZ_snoc f l a : sumZ f (l ++ [a]) = sumZ f l + f a.
Proof. rewrite sumZ_app. simpl. lia. Qed.

Lemma sumZ_ext f g l : (forall a, a ∈ l -> f a = g a) -> sumZ f l = sumZ g l.
Proof. induction l; simpl; intros H; [done|]. rewrite H, IHl; set_solver. Qed.

Lemma sumZ_nonneg f l : (forall a, a ∈ l -> 0 <= f a) -> 0 <= sumZ f l.
Proof.
  induction l as [|a l IH]; simpl; intros H; [lia|].
  pose proof (H a ltac:(set_solver)). pose proof (IH ltac:(set_solver)). lia.
Qed.

Lemma sumZ_le f g l : (forall a, a ∈ l -> f a <= g a) -> sumZ f l <= sumZ g l.
Proof.
  induction l as [|a l IH]; simpl; intros H; [lia|].
  pose proof (H a ltac:(set_solver)). pose proof (IH ltac:(set_solver)). lia.
Qed.

Lemma sumZ_elem f l a :
  (forall b, b ∈ l -> 0 <= f b) -> a ∈ l -> f a <= sumZ f l.
Proof.
  induction l as [|b l IH]; simpl; intros H Ha; [set_solver|].
  assert (0 <= f b) by (apply H; left).
  assert (Hl : forall c, c ∈ l -> 0 <= f c) by (intros c Hc; apply H; by right).
  pose proof (sumZ_nonneg f l Hl).
  apply elem_of_cons in Ha as [->|Ha]; [lia|]. specialize (IH Hl Ha). lia.
Qed.

(** A left fold that adds is the sum. *)
Lemma foldl_add f l z : foldl (fun acc a => acc + f a) z l = z + sumZ f l.
Proof. revert z. induction l; simpl; intros z; [lia|]. rewrite IHl. lia. Qed.
End sums.

Lemma sumZ_map {A B} (h : A -> B) (f : B -> Z) l :
  sumZ f (h <$> l) = sumZ (fun a => f (h a)) l.
Proof. induction l as [|a l IH]; csimpl; [done|]. by rewrite IH. Qed.

(** * Filters and keys *)

(** A key that is unique in a list names one element of it. *)
Lemma nodup_inj {A B} (f : A -> B) (l : list A) x y : NoDup (f <$> l) -> x ∈ l -> y ∈ l -> f x = f y -> x = y.
Proof.
  induction l as [|a l IH]; intros Hnd Hx Hy Heq; [by apply elem_of_nil in Hx|]. cbn [fmap list_fmap] in Hnd. apply NoDup_cons in Hnd as [Ha Hnd].
  apply elem_of_cons in Hx as [->|Hx], Hy as [->|Hy]; [done| | |by apply IH]; exfalso; apply Ha; [rewrite Heq|rewrite <-Heq]; by apply list_elem_of_fmap_2.
Qed.

(** Filters that agree on the list, and the keys of a filtered table. *)
Lemma filter_iff_on {A} (P Q : A -> Prop) `{forall x, Decision (P x), forall x, Decision (Q x)} (l : list A) :
  (forall x, x ∈ l -> P x <-> Q x) -> filter P l = filter Q l.
Proof.
  induction l as [|x l IH]; intros HPQ; [done|]. rewrite !filter_cons, IH by (intros; apply HPQ; by right).
  pose proof (HPQ x (list_elem_of_here x l)). destruct (decide (P x)), (decide (Q x)); tauto.
Qed.

Lemma nodup_filter_fmap {A B} (f : A -> B) (P : A -> Prop) `{forall x, Decision (P x)} (l : list A) : NoDup (f <$> l) -> NoDup (f <$> filter P l).
Proof. intros Hnd. eapply sublist_NoDup; [exact Hnd|]. apply fmap_sublist, sublist_filter. Qed.

Lemma filter_none_excluded {A} (f : A -> string) (l : list A) : filter (fun x => f x ∉ []) l = l.
Proof. induction l as [|x l IH]; [done|]. rewrite filter_cons_True by apply not_elem_of_nil. by rewrite IH. Qed.

Lemma filter_split {A} (f : A -> string) (ids : list string) (l : list A) n :
  filter (fun x => f x ∉ drop n ids) (filter (fun x => f x ∉ take n ids) l) = filter (fun x => f x ∉ ids) l.
Proof.
  rewrite list_filter_filter. apply list_filter_iff. intros x. rewrite <-(take_drop n ids) at 3. rewrite not_elem_of_app. tauto.
Qed.

Lemma Forall_and_impl {A} (P Q R : A -> Prop) (l : list A) : Forall P l -> Forall Q l -> (forall x, P x -> Q x -> R x) -> Forall R l.
Proof. rewrite !Forall_forall. auto. Qed.

(** * Stable sorting *)

(** [Array.prototype.sort] is stable; [cmp a b <= 0] keeps [a] before [b]. *)
Section sorting.
Context {A : Type} (cmp : A -> A -> Z).
Local Open Scope Z_scope.

Fixpoint insert_sorted (x : A) (l : list A) : list A :=
  match l with
  | [] => [x]
  | y :: l' => if cmp x y <=? 0 then x :: l else y :: insert_sorted x l'
  end.

Definition sort_by (l : list A) : list A := foldr insert_sorted [] l.

Lemma insert_sorted_perm x l : insert_sorted x l ≡ₚ x :: l.
Proof.
  induction l as [|y l IH]; simpl; [done|].
  destruct (cmp x y <=? 0); [done|]. rewrite IH. by constructor.
Qed.

Lemma sort_by_perm l : sort_by l ≡ₚ l.
Proof. induction l as [|x l IH]; simpl; [done|]. by rewrite insert_sorted_perm, IH. Qed.

Lemma elem_of_sort_by x l : x ∈ sort_by l <-> x ∈ l.
Proof. by rewrite sort_by_perm. Qed.

Lemma length_sort_by l : length (sort_by l) = length l.
Proof. apply Permutation_length, sort_by_perm. Qed.

(** Comparators of a total preorder. *)
Lemma sort_by_total (R : A -> A -> Prop) l : (forall a b, cmp a b <= 0 -> R a b) -> (forall a b, 0 < cmp a b -> R b a) ->
  (forall a b c, R a b -> R b c -> R a c) -> StronglySorted R (sort_by l).
Proof.
  intros Hle Hgt Htr. induction l as [|x l IH]; simpl; [constructor|].
  assert (H : forall s, StronglySorted R s -> StronglySorted R (insert_sorted x s)); [|by apply H].
  induction 1 as [|y s Hs IHs Hy]; simpl; [repeat constructor|]. destruct (Z.leb_spec (cmp x y) 0) as [Hc|Hc].
  - apply Hle in Hc. constructor; [by constructor|]. constructor; [done|]. eapply Forall_impl; [exact Hy|]. intros z Hz. by eapply Htr.
  - constructor; [done|]. rewrite insert_sorted_perm. constructor; [by apply Hgt|done].
Qed.

(** Comparators that order by a key, whatever they answer on equal keys. *)
Context (key : A -> Z).
Hypothesis Hlt : forall a b, key a < key b -> cmp a b <= 0.
Hypothesis Hle : forall a b, cmp a b <= 0 -> key a <= key b.

Lemma insert_sorted_sorted x l :
  StronglySorted (fun a b => key a <= key b) l ->
  StronglySorted (fun a b => key a <= key b) (insert_sorted x l).
Proof.
  induction 1 as [|y l Hs IH Hy]; simpl; [repeat constructor|].
  destruct (Z.leb_spec (cmp x y) 0) as [Hc|Hgt].
  - apply Hle in Hc. constructor; [by constructor|].
    constructor; [done|]. eapply Forall_impl; [exact Hy|]. simpl. lia.
  - constructor; [done|].
    assert (key y <= key x) by (destruct (Z.lt_ge_cases (key x) (key y)) as [H'|]; [apply Hlt in H'|]; lia).
    rewrite insert_sorted_perm. by constructor.
Qed.

Lemma sort_by_sorted l : StronglySorted (fun a b => key a <= key b) (sort_by l).
Proof. induction l; simpl; [constructor|]. by apply insert_sorted_sorted. Qed.
End sorting.

(** * Strings *)

(** Strings are sequences of 8-bit code units. *)
Section chars.
Local Open Scope Z_scope.

Definition code (c : Ascii.ascii) : Z := Z.of_N (Ascii.N_of_ascii c).

(** [String.prototype.toLowerCase] on code units below 256. *)
Definition lower_char (c : Ascii.ascii) : Ascii.ascii :=
  let n := code c in
  if ((65 <=? n) && (n <=? 90)) || ((192 <=? n) && (n <=? 222) && negb (n =? 215))
  then Ascii.ascii_of_N (Z.to_N (n + 32)) else c.
End chars.

Fixpoint toLowerCase (s : string) : string :=
  match s with
  | EmptyString => EmptyString
  | String c s => String (lower_char c) (toLowerCase s)
  end.

Lemma lower_char_idem c : lower_char (lower_char c) = lower_char c.
Proof. destruct c as [[] [] [] [] [] [] [] []]; reflexivity. Qed.

Lemma toLowerCase_idem s : toLowerCase (toLowerCase s) = toLowerCase s.
Proof. induction s as [|c s IH]; simpl; [done|]. by rewrite lower_char_idem, IH. Qed.

(** A JS string is truthy when it is not empty. *)
Definition truthy_str (o : option string) : bool :=
  match o with Some s => negb (bool_decide (s = EmptyString)) | None => false end.

(** * Arrays *)

(** [arr.slice(start, end)]: negative positions count from the end. *)
Section slice.
Local Open Scope Z_scope.
Definition slice_pos (len p : Z) : Z := if p <? 0 then Z.max (len + p) 0 else Z.min p len.
Definition slice {A} (start stop : Z) (l : list A) : list A :=
  let len := Z.of_nat (length l) in
  let s := slice_pos len start in
  take (Z.to_nat (slice_pos len stop - s)) (drop (Z.to_nat s) l).

Lemma slice_page {A} (offset limit : Z) (l : list A) :
  0 <= offset -> 0 <= limit ->
  slice offset (offset + limit) l = take (Z.to_nat limit) (drop (Z.to_nat offset) l).
Proof.
  intros Ho Hl. unfold slice, slice_pos.
  rewrite (proj2 (Z.ltb_ge offset 0)), (proj2 (Z.ltb_ge (offset + limit) 0)) by lia.
  destruct (Z.le_gt_cases (Z.of_nat (length l)) offset).
  - rewrite !drop_ge by lia. by rewrite !take_nil.
  - rewrite (Z.min_l offset) by lia.
    destruct (Z.le_gt_cases (offset + limit) (Z.of_nat (length l))).
    + rewrite Z.min_l by lia. f_equal. lia.
    + rewrite Z.min_r by lia. rewrite !take_ge; [done|rewrite length_drop; lia..].
Qed.
End slice.

(** [[...new Set(l)]]: first occurrences, in order. *)
Fixpoint uniq_from {A} `{EqDecision A} (seen l : list A) : list A :=
  match l with
  | [] => []
  | x :: l => if decide (x ∈ seen) then uniq_from seen l else x :: uniq_from (x :: seen) l
  end.
Definition uniq {A} `{EqDecision A} (l : list A) : list A := uniq_from [] l.

Lemma elem_of_uniq_from {A} `{EqDecision A} (seen l : list A) x :
  x ∈ uniq_from seen l <-> x ∈ l /\ x ∉ seen.
Proof.
  revert seen. induction l as [|y l IH]; simpl; intros seen.
  { pose proof (not_elem_of_nil x). naive_solver. }
  case_decide; [rewrite IH, elem_of_cons|rewrite !elem_of_cons, IH, elem_of_cons];
    destruct (decide (x = y)); naive_solver.
Qed.

Lemma elem_of_uniq {A} `{EqDecision A} (l : list A) x : x ∈ uniq l <-> x ∈ l.
Proof. unfold uniq. rewrite elem_of_uniq_from. pose proof (not_elem_of_nil x). naive_solver. Qed.

(** [s.split(c)] *)
Fixpoint split_on (c : Ascii.ascii) (s : string) : list string :=
  match s with
  | EmptyString => [EmptyString]
  | String d s =>
      if bool_decide (c = d) then EmptyString :: split_on c s
      else match split_on c s with
           | [] => [String d EmptyString]
           | w :: ws => String d w :: ws
           end
  end.

Lemma str_app_nil (s : string) : s +:+ EmptyString = s.
Proof. induction s as [|c s IH]; [done|]. change (String c (s +:+ EmptyString) = String c s). by rewrite IH. Qed.

Lemma substring_all s : String.substring 0 (String.length s) s = s.
Proof. induction s as [|c s IH]; simpl; [done|]. by f_equal. Qed.

Lemma filter_none {A} (P : A -> Prop) `{forall x, Decision (P x)} l : (forall x, x ∈ l -> ~ P x) -> filter P l = [].
Proof. intros HP. induction l as [|a l IH]; [done|]. rewrite filter_cons, decide_False by (apply HP; set_solver). apply IH. set_solver. Qed.

(** The last [n] elements. *)
Definition lastn {A} (n : nat) (l : list A) : list A := drop (length l - n) l.

Lemma length_lastn {A} n (l : list A) : length (lastn n l) = (length l `min` n)%nat.
Proof. unfold lastn. rewrite length_drop. lia. Qed.

Lemma lastn_snoc {A} n (l : list A) x : (0 < n)%nat ->
  lastn n (l ++ [x]) = let l' := lastn n l ++ [x] in if (n <? length l')%nat then tail l' else l'.
Proof.
  intros Hn. simpl. rewrite length_app, length_lastn. simpl. unfold lastn. rewrite length_app. simpl.
  destruct (Nat.ltb_spec n (length l `min` n + 1)) as [Hlt|Hge].
  - replace (length l + 1 - n)%nat with (length l - n + 1)%nat by lia. rewrite <- drop_drop, drop_app_le by lia.
    by destruct (drop _ l ++ [x]) eqn:E.
  - replace (length l - n)%nat with 0%nat by lia. by replace (length l + 1 - n)%nat with 0%nat by lia.
Qed.


Lemma filter_sorted {A} (R : A -> A -> Prop) (P : A -> Prop) `{forall x, Decision (P x)} l :
  StronglySorted R l -> StronglySorted R (filter P l).
Proof.
  induction 1 as [|x l Hs IH Hx]; [constructor|]. destruct (decide (P x)).
  - rewrite filter_cons_True by done. constructor; [done|]. rewrite Forall_forall in Hx |- *.
    intros y [_ Hy]%list_elem_of_filter. by apply Hx.
  - by rewrite filter_cons_False.
Qed.

(** * Bit fields *)

Local Open Scope Z_scope.

(** Below the shift, nothing overlaps. *)
Lemma lor_shiftl_add (h n l : Z) : 0 <= n -> 0 <= l < 2 ^ n -> Z.lor (Z.shiftl h n) l = h * 2 ^ n + l.
Proof.
  intros Hn Hl. rewrite <- Z.shiftl_mul_pow2 by lia. symmetry. apply Z.add_nocarry_lor. apply Z.bits_inj'. intros i Hi.
  rewrite Z.land_spec, Z.bits_0. destruct (decide (i < n)); [by rewrite Z.shiftl_spec_low|].
  destruct (decide (l = 0)) as [->|]; [by rewrite Z.bits_0, andb_false_r|].
  rewrite (Z.bits_above_log2 l i); [by rewrite andb_false_r|lia|].
  apply Z.log2_lt_pow2; [lia|]. pose proof (Z.pow_le_mono_r 2 n i ltac:(lia) ltac:(lia)). lia.
Qed.

(** A mask of the [p] high bits of [w] rounds down. *)
Lemma land_high (x p w : Z) : 0 <= x < 2 ^ w -> 0 <= p <= w -> Z.land x (2 ^ w - 2 ^ (w - p)) = x / 2 ^ (w - p) * 2 ^ (w - p).
Proof.
  intros Hx Hp. assert (Hm : 2 ^ w - 2 ^ (w - p) = Z.shiftl (Z.ones p) (w - p)).
  { rewrite Z.shiftl_mul_pow2, Z.ones_equiv by lia. replace w with (p + (w - p)) at 1 by lia. rewrite Z.pow_add_r by lia. lia. }
  rewrite Hm, <- Z.shiftr_div_pow2, <- Z.shiftl_mul_pow2 by lia. apply Z.bits_inj'. intros i Hi.
  rewrite Z.land_spec. destruct (decide (i < w - p)); [by rewrite !Z.shiftl_spec_low, andb_false_r by done|].
  rewrite !Z.shiftl_spec, Z.shiftr_spec by lia. replace (i - (w - p) + (w - p)) with i by lia.
  destruct (decide (i - (w - p) < p)); [rewrite Z.ones_spec_low by lia; apply andb_true_r|].
  rewrite Z.ones_spec_high, andb_false_r by lia. symmetry. destruct (decide (x = 0)) as [->|]; [apply Z.bits_0|].
  apply Z.bits_above_log2; [lia|]. apply Z.log2_lt_pow2; [lia|]. pose proof (Z.pow_le_mono_r 2 w i ltac:(lia) ltac:(lia)). lia.
Qed.
