(* ===== verification/JsMap.v ===== *)
(** The JavaScript [Map] with string keys.

    Iteration order is insertion order, and re-setting an existing key keeps
    its position, so the map is an association list rather than a finite map:
    the repositories iterate over [values()] and the order is observable. *)
From S2P Require Import Prelude.

Definition jsmap (V : Type) : Type := list (string * V).

Section jsmap.
Context {V : Type}.
Implicit Types (m : jsmap V) (k : string) (v : V).

(** [map.get(k)] *)
Fixpoint get (k : string) (m : jsmap V) : option V :=
  match m with
  | [] => None
  | (k', v) :: m => if bool_decide (k' = k) then Some v else get k m
  end.

(** [map.has(k)] *)
Definition has (k : string) (m : jsmap V) : bool :=
  match get k m with Some _ => true | None => false end.

(** [map.set(k, v)]: in place when [k] is present, at the end otherwise. *)
Fixpoint set (k : string) (v : V) (m : jsmap V) : jsmap V :=
  match m with
  | [] => [(k, v)]
  | (k', v') :: m => if bool_decide (k' = k) then (k', v) :: m else (k', v') :: set k v m
  end.

(** [map.delete(k)] *)
Fixpoint del (k : string) (m : jsmap V) : jsmap V :=
  match m with
  | [] => []
  | (k', v') :: m => if bool_decide (k' = k) then m else (k', v') :: del k m
  end.

Definition keys (m : jsmap V) : list string := m.*1.
Definition values (m : jsmap V) : list V := m.*2.

(** Keys are unique in every map the operations build. *)
Definition wf (m : jsmap V) : Prop := NoDup (keys m).

Lemma get_set_eq k v m : get k (set k v m) = Some v.
Proof.
  induction m as [|[k' v'] m IH]; simpl; [by rewrite bool_decide_eq_true_2|].
  destruct (decide (k' = k)) as [->|Hne].
  - rewrite bool_decide_eq_true_2 by done. simpl. by rewrite bool_decide_eq_true_2.
  - rewrite bool_decide_eq_false_2 by done. simpl. by rewrite bool_decide_eq_false_2.
Qed.

Lemma get_set_ne k k' v m : k <> k' -> get k' (set k v m) = get k' m.
Proof.
  intros Hne. induction m as [|[k1 v1] m IH]; simpl; [by rewrite bool_decide_eq_false_2|].
  destruct (decide (k1 = k)) as [->|Hne1].
  - rewrite (bool_decide_eq_true_2 (k = k)) by done. simpl. by rewrite bool_decide_eq_false_2.
  - rewrite (bool_decide_eq_false_2 (k1 = k)) by done. simpl.
    destruct (bool_decide (k1 = k')); [done|apply IH].
Qed.

Lemma get_set k k' v m :
  get k' (set k v m) = if decide (k = k') then Some v else get k' m.
Proof. case_decide; subst; auto using get_set_eq, get_set_ne. Qed.

Lemma set_set k v1 v2 m : set k v2 (set k v1 m) = set k v2 m.
Proof.
  induction m as [|[k' v'] m IH]; simpl; [by rewrite bool_decide_eq_true_2|].
  destruct (decide (k' = k)) as [->|Hne].
  - rewrite bool_decide_eq_true_2 by done. simpl. by rewrite bool_decide_eq_true_2.
  - rewrite bool_decide_eq_false_2 by done. simpl. rewrite bool_decide_eq_false_2 by done. by rewrite IH.
Qed.

Lemma get_elem_of k v m : get k m = Some v -> (k, v) ∈ m.
Proof.
  induction m as [|[k' v'] m IH]; simpl; [done|].
  destruct (decide (k' = k)) as [->|Hne].
  - rewrite bool_decide_eq_true_2 by done. intros [= ->]. by left.
  - rewrite bool_decide_eq_false_2 by done. intros H. right. auto.
Qed.

Lemma get_values k v m : get k m = Some v -> v ∈ values m.
Proof. intros H%get_elem_of. apply list_elem_of_fmap. by exists (k, v). Qed.

Lemma elem_of_get k v m : wf m -> (k, v) ∈ m -> get k m = Some v.
Proof.
  unfold wf, keys. induction m as [|[k' v'] m IH]; csimpl; intros Hnd Hin; [set_solver|].
  apply NoDup_cons in Hnd as [Hni Hnd]. apply elem_of_cons in Hin as [[= <- <-]|Hin].
  - by rewrite bool_decide_eq_true_2.
  - rewrite bool_decide_eq_false_2; [auto|]. intros ->.
    apply Hni, list_elem_of_fmap. by exists (k, v).
Qed.

Lemma keys_set k v m : keys (set k v m) = if has k m then keys m else keys m ++ [k].
Proof.
  unfold has, keys. induction m as [|[k' v'] m IH]; csimpl; [done|].
  destruct (bool_decide (k' = k)) eqn:E; csimpl; [done|]. rewrite IH. by destruct (get k m).
Qed.

Lemma get_None_keys k m : get k m = None <-> k ∉ keys m.
Proof.
  unfold keys. induction m as [|[k' v'] m IH]; csimpl; [set_solver|].
  destruct (decide (k' = k)) as [->|Hne].
  - rewrite bool_decide_eq_true_2 by done. split; [done|]. intros []. by left.
  - rewrite bool_decide_eq_false_2 by done. rewrite IH. set_solver.
Qed.

Lemma set_wf k v m : wf m -> wf (set k v m).
Proof.
  unfold wf. rewrite keys_set. unfold has. destruct (get k m) eqn:E; [done|].
  apply get_None_keys in E. intros H. apply NoDup_app. split; [done|].
  split; [set_solver|]. apply NoDup_singleton.
Qed.

Lemma empty_wf : wf [].
Proof. apply NoDup_nil_2. Qed.

Lemma get_del_ne k k' m : k <> k' -> get k' (del k m) = get k' m.
Proof.
  intros Hne. induction m as [|[k1 v1] m IH]; simpl; [done|].
  destruct (decide (k1 = k)) as [->|Hne1].
  - rewrite (bool_decide_eq_true_2 (k = k)) by done. by rewrite (bool_decide_eq_false_2 (k = k')).
  - rewrite (bool_decide_eq_false_2 (k1 = k)) by done. simpl.
    destruct (bool_decide (k1 = k')); [done|apply IH].
Qed.

Lemma get_del_eq k m : wf m -> get k (del k m) = None.
Proof.
  unfold wf, keys. induction m as [|[k1 v1] m IH]; csimpl; intros Hnd; [done|].
  apply NoDup_cons in Hnd as [Hni Hnd]. destruct (decide (k1 = k)) as [->|Hne].
  - rewrite bool_decide_eq_true_2 by done. by apply get_None_keys.
  - rewrite bool_decide_eq_false_2 by done. simpl.
    rewrite bool_decide_eq_false_2 by done. auto.
Qed.

Lemma keys_del_sublist k m : keys (del k m) `sublist_of` keys m.
Proof.
  unfold keys. induction m as [|[k1 v1] m IH]; csimpl; [done|].
  destruct (bool_decide (k1 = k)); csimpl; by constructor.
Qed.

Lemma del_wf k m : wf m -> wf (del k m).
Proof. intros H. eapply sublist_NoDup; [exact H|apply keys_del_sublist]. Qed.

(** Dropping the entries whose value fails a test. *)
Lemma get_filter (P : V -> Prop) `{forall v, Decision (P v)} k m : wf m ->
  get k (filter (fun kv => P kv.2) m) = v ← get k m; if decide (P v) then Some v else None.
Proof.
  unfold jsmap in *. induction m as [|[k' v'] m IH]; intros Hnd; [done|]. unfold wf, keys in Hnd. rewrite fmap_cons in Hnd.
  apply NoDup_cons in Hnd as [Hni Hnd]. specialize (IH Hnd). rewrite filter_cons. cbn [get snd].
  destruct (bool_decide_reflect (k' = k)) as [->|Hne]; cbn [mbind option_bind].
  - destruct (decide (P v')); cbn [get]; [by rewrite bool_decide_eq_true_2|]. rewrite IH.
    destruct (get k m) as [v|] eqn:E; [|done]. apply get_elem_of in E. destruct Hni. apply list_elem_of_fmap. by exists (k, v).
  - destruct (decide (P v')); cbn [get]; [by rewrite bool_decide_eq_false_2|done].
Qed.

Lemma filter_wf (P : string * V -> Prop) `{forall x, Decision (P x)} m : wf m -> wf (filter P m).
Proof. intros H'. eapply sublist_NoDup; [exact H'|]. unfold keys. apply fmap_sublist, sublist_filter. Qed.

(** Replacing the value at a present key, seen through a sum over values. *)
Lemma sumZ_values_set_present (f : V -> Z) k v v0 m :
  wf m -> get k m = Some v0 ->
  sumZ f (values (set k v m)) = (sumZ f (values m) - f v0 + f v)%Z.
Proof.
  unfold wf, keys, values. induction m as [|[k' v'] m IH]; csimpl; intros Hnd Hg; [done|].
  apply NoDup_cons in Hnd as [_ Hnd].
  destruct (bool_decide (k' = k)) eqn:E; csimpl.
  - simplify_eq. lia.
  - rewrite IH by done. lia.
Qed.

Lemma set_absent k v m : get k m = None -> set k v m = m ++ [(k, v)].
Proof.
  induction m as [|[k' v'] m IH]; simpl; [done|].
  destruct (bool_decide (k' = k)); [done|]. intros H. by rewrite IH.
Qed.

(** Every value of [set k v m] is [v] or was there before. *)
Lemma elem_of_values_set x k v m : x ∈ values (set k v m) -> x = v \/ x ∈ values m.
Proof.
  unfold values. induction m as [|[k' v'] m IH]; csimpl; [set_solver|].
  destruct (bool_decide (k' = k)); csimpl; set_solver.
Qed.

Lemma elem_of_values_del x k m : x ∈ values (del k m) -> x ∈ values m.
Proof.
  unfold values. induction m as [|[k' v'] m IH]; csimpl; [set_solver|].
  destruct (bool_decide (k' = k)); csimpl; set_solver.
Qed.

(** A value of a well-formed map sits at exactly one key. *)
Lemma values_get m v : wf m -> v ∈ values m -> exists k, get k m = Some v.
Proof.
  intros Hwf ([k v'] & -> & Hin)%list_elem_of_fmap. exists k. by apply elem_of_get.
Qed.
End jsmap.

#[export] Hint Resolve set_wf del_wf empty_wf : vortex.
