(* ===== verification/BigInt.v ===== *)
(** JavaScript [BigInt] and the decimal strings the API carries amounts in.

    Amounts travel as strings ("bigint as string" in the sources) and are
    converted at every use, so the conversions are part of the model:
    [BigInt] is the constructor on strings (ECMAScript StringToBigInt; [None]
    is the [SyntaxError] it throws), [toString] prints, and
    [BigInt_toString] is the round trip. *)
From S2P Require Import Prelude.
Local Open Scope Z_scope.

(** * Whitespace *)

Definition is_ws (c : Ascii.ascii) : bool :=
  let n := code c in ((9 <=? n) && (n <=? 13)) || (n =? 32) || (n =? 160).

Fixpoint trim_start (s : string) : string :=
  match s with
  | String c s' => if is_ws c then trim_start s' else s
  | EmptyString => s
  end.

(** Drop trailing whitespace. *)
Fixpoint trim_end (s : string) : string :=
  match s with
  | EmptyString => EmptyString
  | String c s' =>
      match trim_end s' with
      | EmptyString => if is_ws c then EmptyString else String c EmptyString
      | t => String c t
      end
  end.

(** [String.prototype.trim] *)
Definition trim (s : string) : string := trim_end (trim_start s).

(** * Parsing *)

Definition digit_val (c : Ascii.ascii) : option Z :=
  let n := code c in
  if (48 <=? n) && (n <=? 57) then Some (n - 48)
  else if (97 <=? n) && (n <=? 122) then Some (n - 87)
  else if (65 <=? n) && (n <=? 90) then Some (n - 55)
  else None.

Fixpoint parse_digits (radix acc : Z) (s : string) : option Z :=
  match s with
  | EmptyString => Some acc
  | String c s' =>
      match digit_val c with
      | Some d => if d <? radix then parse_digits radix (acc * radix + d) s' else None
      | None => None
      end
  end.

(** At least one digit. *)
Definition parse_nat (radix : Z) (s : string) : option Z :=
  match s with EmptyString => None | _ => parse_digits radix 0 s end.

Definition radix_prefix (c : Ascii.ascii) : option Z :=
  let n := code c in
  if (n =? 120) || (n =? 88) then Some 16          (* x X *)
  else if (n =? 111) || (n =? 79) then Some 8      (* o O *)
  else if (n =? 98) || (n =? 66) then Some 2       (* b B *)
  else None.

Definition parse_signed (s : string) : option Z :=
  match s with
  | String c r =>
      if code c =? 45 then Z.opp <$> parse_nat 10 r
      else if code c =? 43 then parse_nat 10 r
      else parse_nat 10 s
  | EmptyString => None
  end.

(** [BigInt(s)] *)
Definition BigInt (s : string) : option Z :=
  match trim s with
  | EmptyString => Some 0
  | String c1 (String c2 r) as t =>
      if code c1 =? 48 then
        match radix_prefix c2 with
        | Some radix => parse_nat radix r
        | None => parse_signed t
        end
      else parse_signed t
  | t => parse_signed t
  end.

(** The regular expression [/^\d+$/]. *)
Definition is_digit (c : Ascii.ascii) : bool := (48 <=? code c) && (code c <=? 57).

Fixpoint all_chars (p : Ascii.ascii -> bool) (s : string) : bool :=
  match s with EmptyString => true | String c s => p c && all_chars p s end.

Definition digits_only (s : string) : bool :=
  negb (bool_decide (s = EmptyString)) && all_chars is_digit s.

(** * Printing *)

Definition digit_char (d : Z) : Ascii.ascii := Ascii.ascii_of_N (Z.to_N (d + 48)).

(** Least significant digit last; [fuel] bounds the number of digits. *)
Fixpoint print_digits (fuel : nat) (n : Z) (acc : string) : string :=
  match fuel with
  | O => acc
  | S f =>
      let acc' := String (digit_char (n mod 10)) acc in
      if n <? 10 then acc' else print_digits f (n / 10) acc'
  end.

(** A number has at most as many decimal digits as binary ones. *)
Definition print_nat (n : Z) : string := print_digits (S (Z.to_nat (Z.log2 n))) n EmptyString.

(** [z.toString()] *)
Definition toString (z : Z) : string :=
  if z <? 0 then String (Ascii.ascii_of_N 45) (print_nat (- z)) else print_nat z.

#[global] Arguments BigInt : simpl never.
#[global] Arguments toString : simpl never.

(** * Lemmas *)

Lemma digit_char_spec d : 0 <= d < 10 ->
  digit_val (digit_char d) = Some d /\ is_digit (digit_char d) = true.
Proof.
  intros H.
  assert (d = 0 \/ d = 1 \/ d = 2 \/ d = 3 \/ d = 4 \/ d = 5 \/ d = 6 \/ d = 7 \/ d = 8 \/ d = 9) by lia.
  naive_solver.
Qed.

Lemma parse_print_digits fuel n acc :
  0 <= n < 10 ^ Z.of_nat fuel ->
  parse_digits 10 0 (print_digits fuel n acc) = parse_digits 10 n acc.
Proof.
  revert n acc. induction fuel as [|f IH]; intros n acc Hn.
  { simpl. assert (n = 0) by (simpl in Hn; lia). by subst. }
  rewrite Nat2Z.inj_succ, Z.pow_succ_r in Hn by lia.
  assert (Hd : 0 <= n mod 10 < 10) by (apply Z.mod_pos_bound; lia).
  destruct (digit_char_spec _ Hd) as [Hv _]. cbn [print_digits].
  destruct (Z.ltb_spec n 10).
  - cbn [parse_digits]. rewrite Hv. rewrite (proj2 (Z.ltb_lt _ _)) by lia.
    f_equal. rewrite Z.mod_small; lia.
  - rewrite IH by (split; [apply Z.div_pos; lia | apply Z.div_lt_upper_bound; lia]).
    cbn [parse_digits]. rewrite Hv. rewrite (proj2 (Z.ltb_lt _ _)) by lia.
    f_equal. pose proof (Z.div_mod n 10). lia.
Qed.

Lemma print_digits_all fuel n acc :
  0 <= n -> all_chars is_digit acc = true -> all_chars is_digit (print_digits fuel n acc) = true.
Proof.
  revert n acc. induction fuel as [|f IH]; intros n acc Hn Hacc; [done|]. cbn [print_digits].
  assert (Hd : 0 <= n mod 10 < 10) by (apply Z.mod_pos_bound; lia).
  destruct (digit_char_spec _ Hd) as [_ Hi].
  assert (all_chars is_digit (String (digit_char (n mod 10)) acc) = true) by (simpl; by rewrite Hi).
  destruct (n <? 10); [done|]. apply IH; [apply Z.div_pos; lia|done].
Qed.

Lemma print_digits_nonempty fuel n acc :
  acc <> EmptyString -> print_digits fuel n acc <> EmptyString.
Proof.
  revert n acc. induction fuel as [|f IH]; intros n acc Hacc; [done|]. cbn [print_digits].
  destruct (n <? 10); [done|]. by apply IH.
Qed.

Lemma print_nat_nonempty n : print_nat n <> EmptyString.
Proof. unfold print_nat. cbn [print_digits]. destruct (n <? 10); [done|]. by apply print_digits_nonempty. Qed.

Lemma print_nat_digits n : 0 <= n -> digits_only (print_nat n) = true.
Proof.
  intros Hn. unfold digits_only. rewrite bool_decide_eq_false_2 by apply print_nat_nonempty.
  by apply print_digits_all.
Qed.

Lemma pow2_le_pow10 k : 2 ^ Z.of_nat k <= 10 ^ Z.of_nat k.
Proof. apply Z.pow_le_mono_l. lia. Qed.

Lemma print_nat_fuel n : 0 <= n -> n < 10 ^ Z.of_nat (S (Z.to_nat (Z.log2 n))).
Proof.
  intros Hn. pose proof (pow2_le_pow10 (S (Z.to_nat (Z.log2 n)))).
  pose proof (Z.log2_nonneg n).
  rewrite !Nat2Z.inj_succ, Z2Nat.id in * by lia.
  destruct (Z.eq_dec n 0) as [->|]; [apply Z.pow_pos_nonneg; simpl; lia|].
  pose proof (Z.log2_spec n). lia.
Qed.

Lemma parse_nat_print n : 0 <= n -> parse_nat 10 (print_nat n) = Some n.
Proof.
  intros Hn. pose proof (parse_print_digits _ n EmptyString (conj Hn (print_nat_fuel n Hn))) as H.
  pose proof (print_nat_nonempty n). unfold parse_nat, print_nat in *.
  by destruct (print_digits _ _ _).
Qed.

(** No whitespace to drop. *)
Lemma trim_id s : all_chars (fun c => negb (is_ws c)) s = true -> trim s = s.
Proof.
  unfold trim. intros H. assert (trim_start s = s) as ->.
  { destruct s as [|c s]; simpl in *; [done|]. bool_norm. by destruct (is_ws c). }
  induction s as [|c s IH]; simpl in *; [done|]. bool_norm. rewrite IH by done.
  by destruct s, (is_ws c).
Qed.

Lemma all_chars_impl (p q : Ascii.ascii -> bool) s :
  (forall c, p c = true -> q c = true) -> all_chars p s = true -> all_chars q s = true.
Proof. intros H. induction s; simpl; [done|]. intros. bool_norm. rewrite H, IHs; done. Qed.

Lemma is_digit_not_ws c : is_digit c = true -> negb (is_ws c) = true.
Proof.
  unfold is_digit, is_ws. intros. bool_norm.
  rewrite negb_true_iff, !orb_false_iff, andb_false_iff, Z.leb_gt, Z.leb_gt, !Z.eqb_neq. lia.
Qed.

Lemma is_digit_no_prefix c : is_digit c = true -> radix_prefix c = None.
Proof.
  unfold is_digit, radix_prefix. intros. bool_norm.
  rewrite !(proj2 (Z.eqb_neq _ _)) by lia. done.
Qed.

(** On digit strings [BigInt] is the decimal reading. *)
Lemma BigInt_digits s : digits_only s = true -> BigInt s = parse_digits 10 0 s.
Proof.
  unfold digits_only, BigInt. intros H. bool_norm.
  rewrite trim_id by (eapply all_chars_impl; [apply is_digit_not_ws|done]).
  assert (Hs : parse_signed s = parse_digits 10 0 s).
  { destruct s as [|c s]; [done|]. simpl in H0. bool_norm. unfold parse_signed, is_digit in *. bool_norm.
    rewrite !(proj2 (Z.eqb_neq _ _)) by lia. done. }
  destruct s as [|c1 [|c2 r]]; [done| |]; rewrite <- Hs; [done|].
  destruct (code c1 =? 48); [|done]. simpl in H0. bool_norm. by rewrite is_digit_no_prefix.
Qed.

Lemma parse_digits_total acc s :
  0 <= acc -> all_chars is_digit s = true -> exists z, parse_digits 10 acc s = Some z /\ 0 <= z.
Proof.
  revert acc. induction s as [|c s IH]; simpl; intros acc Hacc H; [eauto|]. bool_norm.
  unfold digit_val, is_digit in *. rewrite H. bool_norm.
  rewrite (proj2 (Z.ltb_lt _ _)) by lia. apply IH; [lia|done].
Qed.

(** A digit string always converts, to a non-negative number. *)
Lemma BigInt_digits_total s : digits_only s = true -> exists z, BigInt s = Some z /\ 0 <= z.
Proof.
  intros H. rewrite BigInt_digits by done. unfold digits_only in H. bool_norm.
  by apply parse_digits_total.
Qed.

(** Printing then reading is the identity, for every integer. *)
Theorem BigInt_toString z : BigInt (toString z) = Some z.
Proof.
  unfold toString. destruct (Z.ltb_spec z 0).
  - unfold BigInt.
    assert (Hd : digits_only (print_nat (- z)) = true) by (apply print_nat_digits; lia).
    unfold digits_only in Hd. bool_norm.
    rewrite trim_id; [|simpl; eapply all_chars_impl; [apply is_digit_not_ws|done]].
    pose proof (parse_nat_print (- z)) as Hp.
    pose proof (print_nat_nonempty (- z)).
    destruct (print_nat (- z)) as [|c r]; [done|].
    unfold parse_signed.
    change (code (Ascii.ascii_of_N 45)) with 45. cbn [Z.eqb Pos.eqb].
    rewrite Hp by lia. simpl. f_equal. lia.
  - rewrite BigInt_digits by (apply print_nat_digits; lia).
    pose proof (parse_nat_print z ltac:(lia)) as Hp. unfold parse_nat in Hp.
    pose proof (print_nat_nonempty z). by destruct (print_nat z).
Qed.

Lemma toString_inj z1 z2 : toString z1 = toString z2 -> z1 = z2.
Proof. intros H. pose proof (BigInt_toString z1). pose proof (BigInt_toString z2). congruence. Qed.

Lemma toString_digits z : 0 <= z -> digits_only (toString z) = true.
Proof. intros. unfold toString. rewrite (proj2 (Z.ltb_ge _ _)) by lia. by apply print_nat_digits. Qed.

Lemma toString_nonempty z : toString z <> EmptyString.
Proof. unfold toString. destruct (z <? 0); [done|apply print_nat_nonempty]. Qed.

#[export] Hint Rewrite BigInt_toString : vortex.

(** * Splitting numerals at dots *)

Definition dot_char : Ascii.ascii := Ascii.ascii_of_N 46.

Lemma all_chars_app p s1 s2 : all_chars p (s1 +:+ s2) = all_chars p s1 && all_chars p s2.
Proof. induction s1 as [|c s1 IH]; simpl; [done|]. by rewrite IH, andb_assoc. Qed.

Lemma split_on_none c s : all_chars (fun d => negb (bool_decide (c = d))) s = true -> split_on c s = [s].
Proof.
  induction s as [|d s IH]; simpl; [done|]. intros H. bool_norm.
  by rewrite IH.
Qed.

Lemma split_on_one c s1 s2 :
  all_chars (fun d => negb (bool_decide (c = d))) s1 = true ->
  split_on c (s1 +:+ String c s2) = s1 :: split_on c s2.
Proof.
  induction s1 as [|d s1 IH]; simpl; intros H.
  - by rewrite bool_decide_eq_true_2.
  - bool_norm. by rewrite IH.
Qed.

Lemma digit_not_dot c : is_digit c = true -> negb (bool_decide (dot_char = c)) = true.
Proof. destruct c as [[] [] [] [] [] [] [] []]; vm_compute; done. Qed.

(** Concrete behaviour of the conversion. *)
Example BigInt_examples :
  (BigInt "", BigInt "  42 ", BigInt "-7", BigInt "+7", BigInt "0x1F", BigInt "1.5", BigInt "-", BigInt "12a")
  = (Some 0, Some 42, Some (-7), Some 7, Some 31, None, None, None).
Proof. vm_compute. reflexivity. Qed.

Example toString_examples :
  (toString 0, toString 1234567890123456789012, toString (-50)) = ("0", "1234567890123456789012", "-50")%string.
Proof. vm_compute. reflexivity. Qed.
