(* ===== verification/JsNumber.v ===== *)
(** [Number(s)] on strings (ECMAScript StringToNumber): whitespace is trimmed,
    the empty string is zero, integers may carry a radix prefix, decimals a
    fraction and an exponent.  A finite result is the rational the text
    denotes; rounding to a double is not modelled, so the result is exact on
    integers below 2^53. *)
From Stdlib Require Export QArith Qcanon.
From S2P Require Import Prelude BigInt.
Local Open Scope Z_scope.

Inductive number := Fin (q : Qc) | Inf (negative : bool) | NaN.

#[export] Instance number_eq : EqDecision number.
Proof. solve_decision. Defined.

Definition of_Z (z : Z) : Qc := Q2Qc (inject_Z z).

(** Text before and after the exponent sign. *)
Fixpoint split_exponent (s : string) : string * option string :=
  match s with
  | EmptyString => (EmptyString, None)
  | String c s => if (code c =? 101) || (code c =? 69) then (EmptyString, Some s) else let '(m, e) := split_exponent s in (String c m, e)
  end.

(** [12.5], [12.], [.5] and [12] *)
Definition mantissa (s : string) : option Q :=
  match split_on dot_char s with
  | [i] => inject_Z <$> parse_nat 10 i
  | [i; f] =>
      if bool_decide (i = EmptyString) && bool_decide (f = EmptyString) then None
      else n ← parse_digits 10 0 (i +:+ f); Some (n # Z.to_pos (10 ^ Z.of_nat (String.length f)))%Q
  | _ => None
  end.

Definition unsigned_decimal (s : string) : option Q :=
  let '(m, e) := split_exponent s in
  q ← mantissa m;
  match e with
  | None => Some q
  | Some e => n ← parse_signed e; Some (q * Qpower (inject_Z 10) n)%Q
  end.

Definition decimal (s : string) : number :=
  let '(negative, body) :=
    match s with
    | String c r => if code c =? 45 then (true, r) else if code c =? 43 then (false, r) else (false, s)
    | EmptyString => (false, s)
    end in
  if bool_decide (body = "Infinity"%string) then Inf negative
  else match unsigned_decimal body with
       | Some q => Fin (Q2Qc (if negative then Qopp q else q))
       | None => NaN
       end.

Definition Number (s : string) : number := match BigInt s with Some z => Fin (of_Z z) | None => decimal (trim s) end.

Definition isFinite (x : number) : bool := match x with Fin _ => true | _ => false end.

Lemma of_Z_inj a b : of_Z a = of_Z b -> a = b.
Proof. unfold of_Z. intros H%Q2Qc_eq_iff. by apply inject_Z_injective. Qed.

(** Comparisons, and arithmetic on whole numbers. *)
Definition q_le (a b : Qc) : bool := Qle_bool a b.
Definition q_lt (a b : Qc) : bool := negb (q_le b a).

Lemma q_le_of_Z a b : q_le (of_Z a) (of_Z b) = (a <=? b).
Proof.
  apply eq_true_iff_eq. unfold q_le. rewrite Qle_bool_iff, Z.leb_le. unfold of_Z. cbn [this Q2Qc]. rewrite !Qred_correct. rewrite <-Zle_Qle. done.
Qed.
Lemma this_of_Z a : this (of_Z a) = inject_Z a.
Proof. unfold of_Z. cbn [this Q2Qc]. apply Qred_identity. cbn. apply Z.gcd_1_r. Qed.
Lemma of_Z_sub a b : (of_Z a - of_Z b)%Qc = of_Z (a - b).
Proof.
  apply Qc_is_canon. unfold Qcminus, Qcplus, Qcopp. cbn [this Q2Qc]. rewrite !Qred_correct, !this_of_Z, <-inject_Z_opp, <-inject_Z_plus. reflexivity.
Qed.
Lemma of_Z_mul a b : (of_Z a * of_Z b)%Qc = of_Z (a * b).
Proof. apply Qc_is_canon. unfold Qcmult. cbn [this Q2Qc]. rewrite !Qred_correct, !this_of_Z, <-inject_Z_mult. reflexivity. Qed.
Lemma Number_toString z : Number (toString z) = Fin (of_Z z).
Proof. unfold Number. by rewrite BigInt_toString. Qed.

Example number_values :
  Number "0000000042" = Fin (of_Z 42) /\ Number "" = Fin (of_Z 0) /\ Number "0x10" = Fin (of_Z 16) /\
  Number "-1.5e3" = Fin (of_Z (-1500)) /\ Number ".25" = Fin (Q2Qc (1 # 4)) /\ Number "abc" = NaN /\ Number "." = NaN /\
  Number "-Infinity" = Inf true /\ Number "1e" = NaN /\ Number "1_0" = NaN.
Proof. split_and!; try reflexivity; vm_compute; try reflexivity. all: f_equal; by apply Qc_is_canon. Qed.

(** * Prefix parsers *)

(** The digits at the start of a text, and the rest. *)
Fixpoint take_digits (s : string) : string * string :=
  match s with
  | String c r => if is_digit c then let '(d, r') := take_digits r in (String c d, r') else (EmptyString, s)
  | EmptyString => (EmptyString, EmptyString)
  end.

Definition take_sign (s : string) : bool * string :=
  match s with
  | String c r => if code c =? 45 then (true, r) else if code c =? 43 then (false, r) else (false, s)
  | EmptyString => (false, s)
  end.

Definition signed (negative : bool) (q : Q) : Q := if negative then Qopp q else q.

(** From half way between the largest double and 2^1024 on, a number is infinite. *)
Definition as_double (q : Q) : number :=
  let limit := inject_Z (2 ^ 1024 - 2 ^ 970) in
  if Qle_bool limit q then Inf false else if Qle_bool q (Qopp limit) then Inf true else Fin (Q2Qc q).

(** [parseInt(s, 10)] *)
Definition parseInt10 (s : string) : number :=
  let '(negative, body) := take_sign (trim_start s) in
  match parse_nat 10 (take_digits body).1 with
  | Some z => as_double (signed negative (inject_Z z))
  | None => NaN
  end.

(** The longest decimal literal: digits with an optional fraction, and an
    exponent if it has a digit. *)
Definition take_mantissa (s : string) : option Q * string :=
  let '(i, r) := take_digits s in
  match r with
  | String c r1 =>
      if bool_decide (c = dot_char) then
        let '(f, r2) := take_digits r1 in
        if bool_decide (i = EmptyString) && bool_decide (f = EmptyString) then (None, s)
        else (mantissa (i +:+ String dot_char f), r2)
      else (mantissa i, r)
  | EmptyString => (mantissa i, r)
  end.

Definition take_exponent (s : string) : Z :=
  match s with
  | String c r =>
      if (code c =? 101) || (code c =? 69) then
        let '(negative, body) := take_sign r in
        match parse_nat 10 (take_digits body).1 with Some n => if negative then - n else n | None => 0 end
      else 0
  | EmptyString => 0
  end.

Definition parseFloat (s : string) : number :=
  let '(negative, body) := take_sign (trim_start s) in
  if String.prefix "Infinity" body then Inf negative
  else match take_mantissa body with
       | (Some q, rest) => as_double (signed negative (q * Qpower (inject_Z 10) (take_exponent rest))%Q)
       | (None, _) => NaN
       end.

Example prefix_values :
  parseInt10 " 42px" = Fin (of_Z 42) /\ parseInt10 "-7.9" = Fin (of_Z (-7)) /\ parseInt10 "0x10" = Fin (of_Z 0) /\ parseInt10 "x" = NaN /\
  parseFloat "0.05abc" = Fin (Q2Qc (1 # 20)) /\ parseFloat ".5e1e" = Fin (of_Z 5) /\ parseFloat "1e" = Fin (of_Z 1) /\ parseFloat "." = NaN /\
  parseFloat "-Infinity" = Inf true /\ parseFloat "1e400" = Inf false.
Proof. split_and!; try reflexivity; vm_compute; try reflexivity. all: f_equal; by apply Qc_is_canon. Qed.
