(* ===== verification/FeeEngine.v ===== *)
(** Versioned protocol-fee rules: [src/fees/fee-engine.ts].

    Rule selection, volume tiers, the ceiling/floor basis-point arithmetic, the
    min/max caps and the treasury/integrator split of [quoteFee].  Basis points
    and versions are JS numbers and are taken to be integers (a fractional
    [bps] makes [BigInt(bps)] throw in the source). *)
From S2P Require Import Prelude BigInt.
Local Open Scope Z_scope.

(** * Data *)

Inductive FeeScope := ScopePair | ScopeChain | ScopeDefault.

#[export] Instance FeeScope_eq_dec : EqDecision FeeScope.
Proof. solve_decision. Defined.

Record FeeTier := { tier_minVolume : string; tier_bps : Z }.

Record FeeRule := {
  rule_id : string;
  rule_version : Z;
  rule_scope : FeeScope;
  rule_srcChain : option string;
  rule_dstChain : option string;
  rule_srcToken : option string;
  rule_dstToken : option string;
  rule_bps : Z;
  rule_minFee : string;
  rule_maxFee : string;
  rule_tiers : list FeeTier;
  rule_integratorShareBps : Z;
}.

Record ReferralCode := { ref_code : string; ref_integratorId : string; ref_shareBps : Z }.

(** [string | bigint] *)
Inductive units := UStr (s : string) | UBig (z : Z).

Record FeeInput := {
  in_amount : units;
  in_srcChain : string;
  in_dstChain : string;
  in_srcToken : option string;
  in_dstToken : option string;
  in_volume : option units;
  in_referralCode : option string;
}.

Record FeeQuote := {
  q_amount : string;
  q_fee : string;
  q_treasuryFee : string;
  q_integratorFee : string;
  q_integratorId : option string;
  q_referralCode : option string;
  q_ruleId : string;
  q_ruleVersion : Z;
  q_bps : Z;
}.

Inductive FeeError :=
  | DenominatorNotPositive
  | BpsOutOfRange (bps : Z)
  | AmountNegative
  | LabelNegative (label : string)
  | NotBaseUnits (label : string)
  | MinAboveMax (ruleId : string).

Definition DEFAULT_FEE_RULE : FeeRule := {|
  rule_id := "default"; rule_version := 1; rule_scope := ScopeDefault;
  rule_srcChain := None; rule_dstChain := None; rule_srcToken := None; rule_dstToken := None;
  rule_bps := 5; rule_minFee := "0"; rule_maxFee := "0"; rule_tiers := [];
  rule_integratorShareBps := 0 |}.

Definition BPS_DENOMINATOR : Z := 10000.

(** * Arithmetic *)

(** BigInt division truncates towards zero: [Z.quot]. *)
Definition ceilDiv (numerator denominator : Z) : outcome FeeError Z :=
  if denominator <=? 0 then Err DenominatorNotPositive
  else if numerator <=? 0 then Ok 0
  else Ok (Z.quot (numerator + denominator - 1) denominator).

Definition applyBpsCeil (amount bps : Z) : outcome FeeError Z :=
  if (bps <? 0) || (10000 <? bps) then Err (BpsOutOfRange bps)
  else if amount <? 0 then Err AmountNegative
  else ceilDiv (amount * bps) BPS_DENOMINATOR.

Definition floorBps (amount bps : Z) : outcome FeeError Z :=
  if (bps <? 0) || (10000 <? bps) then Err (BpsOutOfRange bps)
  else if amount <? 0 then Err AmountNegative
  else Ok (Z.quot (amount * bps) BPS_DENOMINATOR).

Definition parseUnits (value : units) (label : string) : outcome FeeError Z :=
  match value with
  | UBig z => if z <? 0 then Err (LabelNegative label) else Ok z
  | UStr s => if digits_only s then of_option (NotBaseUnits label) (BigInt s) else Err (NotBaseUnits label)
  end.

#[global] Arguments parseUnits : simpl never.

(** * Rule selection *)

Definition specificity (rule : FeeRule) : Z :=
  match rule_scope rule with ScopePair => 3 | ScopeChain => 2 | ScopeDefault => 1 end.

(** [!o || o === x]: an absent or empty column is a wildcard. *)
Definition wildcard_or (o : option string) (x : option string) : bool :=
  negb (truthy_str o) || bool_decide (o = x).

Definition matches (rule : FeeRule) (input : FeeInput) : bool :=
  match rule_scope rule with
  | ScopeDefault => true
  | ScopeChain =>
      bool_decide (rule_srcChain rule = Some (in_srcChain input))
      && wildcard_or (rule_dstChain rule) (Some (in_dstChain input))
  | ScopePair =>
      bool_decide (rule_srcChain rule = Some (in_srcChain input))
      && bool_decide (rule_dstChain rule = Some (in_dstChain input))
      && wildcard_or (rule_srcToken rule) (in_srcToken input)
      && wildcard_or (rule_dstToken rule) (in_dstToken input)
  end.

(** The reducer of [selectRule]. *)
Definition better (best rule : FeeRule) : FeeRule :=
  let score := specificity rule - specificity best in
  if negb (score =? 0) then (if 0 <? score then rule else best)
  else if rule_version best <=? rule_version rule then rule else best.

Definition selectRule (rules : list FeeRule) (input : FeeInput) : FeeRule :=
  match filter (fun rule => matches rule input) rules with
  | [] => DEFAULT_FEE_RULE
  | r :: rs => foldl better r rs
  end.

(** One iteration of the tier loop; the state is [(bps, floor)]. *)
Definition tier_step (volume : Z) (st : Z * Z) (tier : FeeTier) : outcome FeeError (Z * Z) :=
  match parseUnits (UStr (tier_minVolume tier)) "tier.minVolume" with
  | Ok min => Ok (if (min <=? volume) && (st.2 <=? min) then (tier_bps tier, min) else st)
  | Err e => Err e
  end.

Definition tierBps (rule : FeeRule) (volume : Z) : outcome FeeError Z :=
  fst <$> outcome_foldl (tier_step volume) (rule_bps rule, -1) (rule_tiers rule).

Definition clamp (fee : Z) (rule : FeeRule) : outcome FeeError Z :=
  min ← parseUnits (UStr (rule_minFee rule)) "minFee";
  max ← parseUnits (UStr (rule_maxFee rule)) "maxFee";
  if (0 <? max) && (max <? min) then Err (MinAboveMax (rule_id rule))
  else
    let next := if (0 <? min) && (fee <? min) then min else fee in
    Ok (if (0 <? max) && (max <? next) then max else next).

Definition find_referral (referrals : list ReferralCode) (input : FeeInput) : option ReferralCode :=
  if truthy_str (in_referralCode input)
  then List.find (fun item => bool_decide (Some (ref_code item) = in_referralCode input)) referrals
  else None.

Definition quoteFee (rules : list FeeRule) (referrals : list ReferralCode) (input : FeeInput)
    : outcome FeeError FeeQuote :=
  amount ← parseUnits (in_amount input) "amount";
  volume ← match in_volume input with None => Ok amount | Some v => parseUnits v "volume" end;
  let rule := selectRule (match rules with [] => [DEFAULT_FEE_RULE] | _ => rules end) input in
  bps ← tierBps rule volume;
  raw ← applyBpsCeil amount bps;
  fee ← clamp raw rule;
  let referral := find_referral referrals input in
  let shareBps := match referral with Some r => ref_shareBps r | None => 0 end in
  integratorFee ← floorBps fee shareBps;
  let treasuryFee := fee - integratorFee in
  Ok {| q_amount := toString amount;
        q_fee := toString fee;
        q_treasuryFee := toString treasuryFee;
        q_integratorFee := toString integratorFee;
        q_integratorId := ref_integratorId <$> referral;
        q_referralCode := ref_code <$> referral;
        q_ruleId := rule_id rule;
        q_ruleVersion := rule_version rule;
        q_bps := bps |}.

(** * Arithmetic lemmas *)

Lemma quot_ceil n d : 0 < n -> 0 < d ->
  let q := Z.quot (n + d - 1) d in d * (q - 1) < n <= d * q.
Proof.
  intros Hn Hd. cbn. rewrite Z.quot_div_nonneg by lia.
  pose proof (Z.div_mod (n + d - 1) d ltac:(lia)).
  pose proof (Z.mod_pos_bound (n + d - 1) d Hd). nia.
Qed.

Lemma ceilDiv_spec n d q : ceilDiv n d = Ok q -> 0 <= n ->
  0 < d /\ 0 <= q /\ d * q - d < n <= d * q.
Proof.
  unfold ceilDiv. destruct (Z.leb_spec d 0); [done|]. destruct (Z.leb_spec n 0); intros [= <-] Hn.
  - lia.
  - pose proof (quot_ceil n d ltac:(lia) ltac:(lia)) as Hq. cbn in Hq. nia.
Qed.

Lemma applyBpsCeil_total amount bps :
  0 <= bps <= 10000 -> 0 <= amount -> exists q, applyBpsCeil amount bps = Ok q.
Proof.
  intros Hb Ha. unfold applyBpsCeil, ceilDiv, BPS_DENOMINATOR.
  rewrite (proj2 (Z.ltb_ge bps 0)), (proj2 (Z.ltb_ge 10000 bps)), (proj2 (Z.ltb_ge amount 0)) by lia.
  simpl. destruct (amount * bps <=? 0); eauto.
Qed.

Lemma applyBpsCeil_bounds amount bps q :
  applyBpsCeil amount bps = Ok q ->
  0 <= q <= amount /\ 10000 * q - 10000 < amount * bps <= 10000 * q.
Proof.
  unfold applyBpsCeil, BPS_DENOMINATOR. intros H. split_matches H.
  pose proof (ceilDiv_spec _ _ _ H ltac:(nia)). nia.
Qed.

Lemma floorBps_bounds amount bps q :
  floorBps amount bps = Ok q ->
  0 <= q <= amount /\ 10000 * q <= amount * bps < 10000 * q + 10000.
Proof.
  unfold floorBps, BPS_DENOMINATOR. intros H. split_matches H.
  rewrite Z.quot_div_nonneg by nia.
  pose proof (Z.div_mod (amount * bps) 10000 ltac:(lia)).
  pose proof (Z.mod_pos_bound (amount * bps) 10000 ltac:(lia)). nia.
Qed.

Lemma parseUnits_nonneg u label z : parseUnits u label = Ok z -> 0 <= z.
Proof.
  unfold parseUnits. intros H. split_matches H.
  - apply of_option_ok in H. destruct (BigInt_digits_total s) as (z' & Hz & ?); [done|]. congruence.
  - lia.
Qed.

(** * Rule selection lemmas *)

(** Lexicographic precedence: specificity first, then version. *)
Definition outranked (r best : FeeRule) : Prop :=
  specificity r < specificity best \/
  (specificity r = specificity best /\ rule_version r <= rule_version best).

#[export] Instance outranked_trans : Transitive outranked.
Proof. unfold outranked. intros a b c. lia. Qed.

Lemma better_left a b : outranked a (better a b).
Proof.
  unfold better, outranked. destruct (Z.eqb_spec (specificity b - specificity a) 0); simpl.
  - destruct (Z.leb_spec (rule_version a) (rule_version b)); lia.
  - destruct (Z.ltb_spec 0 (specificity b - specificity a)); lia.
Qed.

Lemma better_right a b : outranked b (better a b).
Proof.
  unfold better, outranked. destruct (Z.eqb_spec (specificity b - specificity a) 0); simpl.
  - destruct (Z.leb_spec (rule_version a) (rule_version b)); lia.
  - destruct (Z.ltb_spec 0 (specificity b - specificity a)); lia.
Qed.

Lemma better_choice a b : better a b = a \/ better a b = b.
Proof. unfold better. repeat case_match; auto. Qed.

Lemma foldl_better r rs :
  foldl better r rs ∈ r :: rs /\ forall x, x ∈ r :: rs -> outranked x (foldl better r rs).
Proof.
  revert r. induction rs as [|r' rs IH]; intros r; simpl.
  { split; [by left|]. intros x ->%list_elem_of_singleton. unfold outranked. lia. }
  destruct (IH (better r r')) as [Hin Hmax]. split.
  - apply elem_of_cons in Hin as [->|Hin]; [|set_solver].
    destruct (better_choice r r') as [-> | ->]; set_solver.
  - pose proof (Hmax (better r r') ltac:(left)) as Hb.
    intros x [->|[->|Hx]%elem_of_cons]%elem_of_cons.
    + etrans; [apply better_left|exact Hb].
    + etrans; [apply better_right|exact Hb].
    + apply Hmax. by right.
Qed.

Lemma selectRule_elem rules input :
  selectRule rules input ∈ DEFAULT_FEE_RULE :: rules.
Proof.
  unfold selectRule. destruct (filter _ rules) as [|r0 rs] eqn:E; [by left|]. right.
  destruct (foldl_better r0 rs) as [Hin _]. rewrite <- E in Hin.
  by apply list_elem_of_filter in Hin as [_ Hin].
Qed.

(** * Tier lemmas *)

(** The tiers as the loop reads them: thresholds parsed. *)
Definition tier_min (t : FeeTier) : option Z :=
  match parseUnits (UStr (tier_minVolume t)) "" with Ok z => Some z | Err _ => None end.

Lemma parseUnits_label u l1 l2 z : parseUnits u l1 = Ok z -> parseUnits u l2 = Ok z.
Proof.
  unfold parseUnits. destruct u; intros H; split_matches H.
  apply of_option_ok in H. by rewrite H.
Qed.

Lemma tier_step_ok volume st t st' :
  tier_step volume st t = Ok st' ->
  exists m, tier_min t = Some m /\ 0 <= m /\
    st' = if bool_decide (m <= volume /\ st.2 <= m) then (tier_bps t, m) else st.
Proof.
  unfold tier_step, tier_min. destruct (parseUnits (UStr (tier_minVolume t)) "tier.minVolume") as [m|] eqn:E;
    intros [= <-].
  exists m. rewrite (parseUnits_label _ _ "" _ E). split; [done|].
  split; [by eapply parseUnits_nonneg|].
  destruct (Z.leb_spec m volume), (Z.leb_spec st.2 m); simpl; case_bool_decide; naive_solver lia.
Qed.

(** The loop invariant: the state is the base rate with no tier reached, or
    the rate of the highest reached tier. *)
Definition tier_inv (rule : FeeRule) (volume : Z) (seen : list FeeTier) (st : Z * Z) : Prop :=
  (st = (rule_bps rule, -1) /\
     (forall t, t ∈ seen -> exists m, tier_min t = Some m /\ volume < m))
  \/ (exists t, t ∈ seen /\ tier_min t = Some st.2 /\ st.1 = tier_bps t /\ st.2 <= volume /\
     (forall t', t' ∈ seen -> exists m, tier_min t' = Some m /\ (m <= volume -> m <= st.2))).

Lemma tier_inv_step rule volume seen st t st' :
  tier_inv rule volume seen st -> tier_step volume st t = Ok st' ->
  tier_inv rule volume (seen ++ [t]) st'.
Proof.
  intros Hinv (m & Hm & Hm0 & ->)%tier_step_ok.
  assert (Hsplit : forall x, x ∈ seen ++ [t] -> x ∈ seen \/ x = t) by set_solver.
  case_bool_decide as Hc.
  - right. exists t. simpl. split; [set_solver|]. repeat split; [done|lia|].
    intros x [Hx| ->]%Hsplit; [|by exists m].
    destruct Hinv as [[_ Hseen]|(u & _ & _ & _ & Hu & Hseen)];
      destruct (Hseen x Hx) as (mx & ? & ?); exists mx; split; auto; lia.
  - destruct Hinv as [[-> Hseen]|(u & Hu & Hmu & Hb & Hle & Hseen)].
    + left. split; [done|]. simpl in Hc. intros x [Hx| ->]%Hsplit; [by apply Hseen|].
      exists m. split; [done|lia].
    + right. exists u. split; [set_solver|]. repeat split; [done|done|done|].
      intros x [Hx| ->]%Hsplit; [by apply Hseen|]. exists m. split; [done|lia].
Qed.

Lemma tier_fold_inv rule volume tiers seen st st' :
  tier_inv rule volume seen st ->
  outcome_foldl (tier_step volume) st tiers = Ok st' ->
  tier_inv rule volume (seen ++ tiers) st'.
Proof.
  revert seen st. induction tiers as [|t tiers IH]; simpl; intros seen st Hinv H.
  { injection H as <-. by rewrite app_nil_r. }
  destruct (tier_step volume st t) as [st1|] eqn:E; [|done].
  replace (seen ++ t :: tiers) with ((seen ++ [t]) ++ tiers) by (by rewrite <- app_assoc).
  eapply IH; [|done]. by eapply tier_inv_step.
Qed.

(** * Properties *)

(** Rule precedence: with no matching rule the default rule is used;
    otherwise the selected rule is one of the matching rules and every other
    matching rule has a lower specificity (pair > chain > default) or the same
    specificity and a version that is not higher. *)
Theorem selectRule_highest rules input :
  (selectRule rules input = DEFAULT_FEE_RULE /\ forall r, r ∈ rules -> matches r input = false)
  \/ (selectRule rules input ∈ rules /\ matches (selectRule rules input) input = true /\
      forall r, r ∈ rules -> matches r input = true -> outranked r (selectRule rules input)).
Proof.
  unfold selectRule. destruct (filter _ rules) as [|r0 rs] eqn:E.
  - left. split; [done|]. intros r Hr. destruct (matches r input) eqn:M; [|done].
    assert (r ∈ ([] : list FeeRule)) as []%not_elem_of_nil.
    rewrite <- E. apply list_elem_of_filter. by rewrite M.
  - right. destruct (foldl_better r0 rs) as [Hin Hmax].
    rewrite <- E in Hin. apply list_elem_of_filter in Hin as [Hm Hin].
    split; [done|]. split; [by apply Is_true_true|]. intros r Hr Mr. apply Hmax.
    rewrite <- E. apply list_elem_of_filter. by rewrite Mr.
Qed.

(** Volume tiers: the rate is the base rate when the volume reaches no
    tier; otherwise it is the rate of a tier the volume reaches, and no reached
    tier has a higher threshold, whatever the order the tiers are listed in. *)
Theorem tierBps_highest_reached rule volume bps
    (H : tierBps rule volume = Ok bps) :
  (bps = rule_bps rule /\
     forall t, t ∈ rule_tiers rule -> exists m, tier_min t = Some m /\ volume < m)
  \/ (exists t m, t ∈ rule_tiers rule /\ tier_min t = Some m /\ m <= volume /\ bps = tier_bps t /\
     forall t', t' ∈ rule_tiers rule -> exists m', tier_min t' = Some m' /\ (m' <= volume -> m' <= m)).
Proof.
  unfold tierBps in H.
  destruct (outcome_foldl (tier_step volume) (rule_bps rule, -1) (rule_tiers rule)) as [st|] eqn:E;
    [|done].
  injection H as <-.
  destruct (tier_fold_inv rule volume (rule_tiers rule) [] _ _ ltac:(left; split; [done|set_solver]) E)
    as [[-> H]|(t & ? & ? & ? & ? & ?)]; [by left|].
  right. by exists t, st.2.
Qed.

Definition two_tier_rule : FeeRule := {|
  rule_id := "vip"; rule_version := 3; rule_scope := ScopeChain;
  rule_srcChain := Some "ethereum"; rule_dstChain := None; rule_srcToken := None; rule_dstToken := None;
  rule_bps := 30; rule_minFee := "2"; rule_maxFee := "500";
  rule_tiers := [ {| tier_minVolume := "100000"; tier_bps := 10 |};
                  {| tier_minVolume := "1000"; tier_bps := 20 |} ];
  rule_integratorShareBps := 0 |}.

Lemma tierBps_highest_reached_witness :
  tierBps two_tier_rule 5000 = Ok 20 /\
  ((20 = rule_bps two_tier_rule /\
     forall t, t ∈ rule_tiers two_tier_rule -> exists m, tier_min t = Some m /\ 5000 < m)
  \/ (exists t m, t ∈ rule_tiers two_tier_rule /\ tier_min t = Some m /\ m <= 5000 /\ 20 = tier_bps t /\
     forall t', t' ∈ rule_tiers two_tier_rule ->
       exists m', tier_min t' = Some m' /\ (m' <= 5000 -> m' <= m))).
Proof. split; [reflexivity|]. apply tierBps_highest_reached. reflexivity. Defined.

Lemma clamp_spec fee rule next :
  clamp fee rule = Ok next ->
  exists min max,
    parseUnits (UStr (rule_minFee rule)) "minFee" = Ok min /\
    parseUnits (UStr (rule_maxFee rule)) "maxFee" = Ok max /\
    (0 < max -> next <= max) /\ (0 < min -> min <= next) /\
    (min <= fee -> (max = 0 \/ fee <= max) -> next = fee) /\ (0 <= fee -> 0 <= next).
Proof.
  unfold clamp. destruct (parseUnits (UStr (rule_minFee rule)) "minFee") as [min|] eqn:Emin; simpl; [|done].
  destruct (parseUnits (UStr (rule_maxFee rule)) "maxFee") as [max|] eqn:Emax; simpl; [|done].
  pose proof (parseUnits_nonneg _ _ _ Emin). pose proof (parseUnits_nonneg _ _ _ Emax).
  intros Hc. exists min, max.
  destruct (Z.ltb_spec 0 max), (Z.ltb_spec max min), (Z.ltb_spec 0 min), (Z.ltb_spec fee min);
    simpl in Hc; try discriminate; injection Hc as <-; repeat split;
    repeat match goal with |- context [?a <? ?b] => destruct (Z.ltb_spec a b) end; lia.
Qed.

(** C4. A quote is exact: the treasury and integrator parts are non-negative
    and add up to the fee, the fee honours the rule's caps, and without an
    active cap it is the least integer at or above [amount * bps / 10000], at
    most one base unit above truncating division and never above the amount. *)
Theorem quoteFee_exact rules referrals input q
    (H : quoteFee rules referrals input = Ok q) :
  exists amount fee integrator min max,
    let rule := selectRule (match rules with [] => [DEFAULT_FEE_RULE] | _ => rules end) input in
    parseUnits (in_amount input) "amount" = Ok amount /\
    parseUnits (UStr (rule_minFee rule)) "minFee" = Ok min /\
    parseUnits (UStr (rule_maxFee rule)) "maxFee" = Ok max /\
    q_fee q = toString fee /\ q_integratorFee q = toString integrator /\
    q_treasuryFee q = toString (fee - integrator) /\ 0 <= integrator <= fee /\
    (0 < max -> fee <= max) /\ (0 < min -> min <= fee) /\
    (min = 0 -> max = 0 ->
       10000 * fee - 10000 < amount * q_bps q <= 10000 * fee /\
       fee <= amount * q_bps q / 10000 + 1 /\ fee <= amount).
Proof.
  unfold quoteFee in H.
  destruct (parseUnits (in_amount input) "amount") as [amount|] eqn:Ea; simpl in H; [|done].
  destruct (match in_volume input with None => Ok amount | Some v => parseUnits v "volume" end)
    as [volume|]; simpl in H; [|done].
  set (rule := selectRule _ input) in *.
  destruct (tierBps rule volume) as [bps|]; simpl in H; [|done].
  destruct (applyBpsCeil amount bps) as [raw|] eqn:Er; simpl in H; [|done].
  destruct (clamp raw rule) as [fee|] eqn:Ec; simpl in H; [|done].
  destruct (floorBps fee _) as [integ|] eqn:Ef; simpl in H; [|done].
  injection H as <-. simpl.
  apply applyBpsCeil_bounds in Er. apply floorBps_bounds in Ef.
  destruct (clamp_spec _ _ _ Ec) as (min & max & ? & ? & Hmax & Hmin & Hid & ?).
  exists amount, fee, integ, min, max.
  do 6 (split; [done|]). split; [lia|]. do 2 (split; [done|]). intros -> ->.
  rewrite Hid in * by lia.
  pose proof (Z.div_mod (amount * bps) 10000 ltac:(lia)).
  pose proof (Z.mod_pos_bound (amount * bps) 10000 ltac:(lia)). lia.
Qed.

Definition sample_input : FeeInput := {|
  in_amount := UStr "1234567"; in_srcChain := "ethereum"; in_dstChain := "stellar";
  in_srcToken := Some "USDC"; in_dstToken := None; in_volume := None;
  in_referralCode := Some "acme" |}.

Definition sample_referrals : list ReferralCode :=
  [ {| ref_code := "acme"; ref_integratorId := "int-1"; ref_shareBps := 2500 |} ].

Definition sample_quote : FeeQuote := {|
  q_amount := "1234567"; q_fee := "618"; q_treasuryFee := "464"; q_integratorFee := "154";
  q_integratorId := Some "int-1"; q_referralCode := Some "acme"; q_ruleId := "default";
  q_ruleVersion := 1; q_bps := 5 |}.

Lemma quoteFee_exact_witness :
  quoteFee [] sample_referrals sample_input = Ok sample_quote /\
  exists amount fee integrator min max,
    let rule := selectRule [DEFAULT_FEE_RULE] sample_input in
    parseUnits (in_amount sample_input) "amount" = Ok amount /\
    parseUnits (UStr (rule_minFee rule)) "minFee" = Ok min /\
    parseUnits (UStr (rule_maxFee rule)) "maxFee" = Ok max /\
    q_fee sample_quote = toString fee /\ q_integratorFee sample_quote = toString integrator /\
    q_treasuryFee sample_quote = toString (fee - integrator) /\ 0 <= integrator <= fee /\
    (0 < max -> fee <= max) /\ (0 < min -> min <= fee) /\
    (min = 0 -> max = 0 ->
       10000 * fee - 10000 < amount * q_bps sample_quote <= 10000 * fee /\
       fee <= amount * q_bps sample_quote / 10000 + 1 /\ fee <= amount).
Proof.
  split; [vm_compute; reflexivity|].
  apply (quoteFee_exact [] sample_referrals sample_input sample_quote). vm_compute. reflexivity.
Defined.

(** Configuration checks under which no call of [quoteFee] throws. *)
Definition bps_ok (b : Z) : bool := (0 <=? b) && (b <=? 10000).

Definition rule_ok (r : FeeRule) : bool :=
  bps_ok (rule_bps r)
  && forallb (fun t => digits_only (tier_minVolume t) && bps_ok (tier_bps t)) (rule_tiers r)
  && match parseUnits (UStr (rule_minFee r)) "", parseUnits (UStr (rule_maxFee r)) "" with
     | Ok min, Ok max => (max =? 0) || (min <=? max)
     | _, _ => false
     end.

Lemma parseUnits_digits s label : digits_only s = true -> exists z, parseUnits (UStr s) label = Ok z.
Proof.
  intros H. unfold parseUnits. rewrite H. destruct (BigInt_digits_total s H) as (z & -> & _). by exists z.
Qed.

Lemma tier_fold_total volume tiers st :
  forallb (fun t => digits_only (tier_minVolume t) && bps_ok (tier_bps t)) tiers = true ->
  bps_ok st.1 = true ->
  exists st', outcome_foldl (tier_step volume) st tiers = Ok st' /\ bps_ok st'.1 = true.
Proof.
  revert st. induction tiers as [|t tiers IH]; simpl; intros st Ht Hst; [by exists st|].
  bool_norm. destruct (parseUnits_digits (tier_minVolume t) "tier.minVolume") as [m Hm]; [done|].
  unfold tier_step at 1. rewrite Hm. apply IH; [done|]. by destruct (_ && _).
Qed.

Lemma tierBps_total rule volume :
  rule_ok rule = true -> exists bps, tierBps rule volume = Ok bps /\ bps_ok bps = true.
Proof.
  unfold rule_ok. intros H. bool_norm.
  destruct (tier_fold_total volume (rule_tiers rule) (rule_bps rule, -1)) as (st & Hst & ?); [done..|].
  exists st.1. unfold tierBps. rewrite Hst. done.
Qed.

Lemma clamp_total fee rule : rule_ok rule = true -> exists next, clamp fee rule = Ok next.
Proof.
  unfold rule_ok, clamp. intros H. bool_norm.
  destruct (parseUnits (UStr (rule_minFee rule)) "") as [min|] eqn:E1; [|done].
  destruct (parseUnits (UStr (rule_maxFee rule)) "") as [max|] eqn:E2; [|done].
  rewrite (parseUnits_label _ _ "minFee" _ E1), (parseUnits_label _ _ "maxFee" _ E2). simpl.
  apply parseUnits_nonneg in E1. apply parseUnits_nonneg in E2.
  destruct (Z.ltb_spec 0 max), (Z.ltb_spec max min); simpl; [|by eauto..].
  bool_norm. destruct H0; bool_norm; lia.
Qed.

Lemma default_rule_ok : rule_ok DEFAULT_FEE_RULE = true.
Proof. reflexivity. Qed.

Lemma selectRule_ok rules input :
  forallb rule_ok rules = true -> rule_ok (selectRule rules input) = true.
Proof.
  intros H. pose proof (selectRule_elem rules input) as [->|Hin]%elem_of_cons; [apply default_rule_ok|].
  rewrite forallb_forall in H. apply H. by apply list_elem_of_In.
Qed.

Lemma find_referral_elem referrals input r :
  find_referral referrals input = Some r -> r ∈ referrals.
Proof.
  unfold find_referral. destruct (truthy_str _); [|done].
  intros [H _]%List.find_some. by apply list_elem_of_In.
Qed.

(** No call of [quoteFee] throws on a sane configuration: if the rates lie
    in [0, 10000], the thresholds and caps are digit strings with min below
    max, and the referral shares lie in [0, 10000], then every digit-string
    amount is quoted. *)
Theorem quoteFee_total rules referrals input s
    (Hrules : forallb rule_ok rules = true)
    (Hrefs : forallb (fun r => bps_ok (ref_shareBps r)) referrals = true)
    (Hamount : in_amount input = UStr s) (Hs : digits_only s = true)
    (Hvol : in_volume input = None) :
  exists q, quoteFee rules referrals input = Ok q.
Proof.
  unfold quoteFee. rewrite Hamount, Hvol.
  destruct (parseUnits_digits s "amount" Hs) as [amount Ha]. rewrite Ha. simpl.
  apply parseUnits_nonneg in Ha.
  set (rule := selectRule _ input).
  assert (Hr : rule_ok rule = true) by (apply selectRule_ok; by destruct rules).
  destruct (tierBps_total rule amount Hr) as (bps & -> & Hb). simpl.
  unfold bps_ok in Hb. bool_norm.
  destruct (applyBpsCeil_total amount bps) as [raw Hraw]; [lia..|]. rewrite Hraw. simpl.
  apply applyBpsCeil_bounds in Hraw.
  destruct (clamp_total raw rule Hr) as [fee Hfee]. rewrite Hfee. simpl.
  destruct (clamp_spec _ _ _ Hfee) as (? & ? & _ & _ & _ & _ & _ & Hfee0).
  set (share := match find_referral referrals input with Some r => ref_shareBps r | None => 0 end).
  assert (Hshare : 0 <= share <= 10000).
  { unfold share. destruct (find_referral referrals input) as [r|] eqn:E; [|lia].
    apply find_referral_elem, list_elem_of_In in E. rewrite forallb_forall in Hrefs.
    specialize (Hrefs r E). unfold bps_ok in Hrefs. bool_norm. lia. }
  unfold floorBps. rewrite (proj2 (Z.ltb_ge share 0)), (proj2 (Z.ltb_ge 10000 share)) by lia.
  rewrite (proj2 (Z.ltb_ge fee 0)) by lia. simpl. eauto.
Qed.

Lemma quoteFee_total_witness :
  forallb rule_ok [two_tier_rule] = true /\
  exists q, quoteFee [two_tier_rule] sample_referrals sample_input = Ok q.
Proof.
  split; [reflexivity|].
  apply (quoteFee_total _ _ _ "1234567"); reflexivity.
Defined.
