(* ===== verification/FeeLedger.v ===== *)
(** The double-entry fee ledger and the fees service:
    [src/fees/fee-ledger.ts] and [src/fees/fees.service.ts].

    Amounts are the decimal strings of the source; reading one that is not a
    number is the [SyntaxError] of [BigInt]. *)
From S2P Require Import Prelude BigInt FeeEngine.
Local Open Scope Z_scope.

(** * Data *)

Inductive LedgerSide := Debit | Credit.
Inductive LedgerAccount := AccUser | AccTreasury | AccIntegrator.

#[export] Instance LedgerSide_eq_dec : EqDecision LedgerSide.
Proof. solve_decision. Defined.
#[export] Instance LedgerAccount_eq_dec : EqDecision LedgerAccount.
Proof. solve_decision. Defined.

Record LedgerEntry := {
  le_id : string;
  le_intentId : string;
  le_ruleId : string;
  le_ruleVersion : Z;
  le_side : LedgerSide;
  le_account : LedgerAccount;
  le_accountId : string;
  le_amount : string;
  le_createdAt : Z;
}.

Inductive LedgerError :=
  | AmountSyntax
  | Unbalanced (debits credits : Z)
  | QuoteFailed (e : FeeError).

(** [BigInt(s)] as a throwing call. *)
Definition big (s : string) : outcome LedgerError Z := of_option AmountSyntax (BigInt s).

(** * Operations *)

Definition sumSide (entries : list LedgerEntry) (side : LedgerSide) : outcome LedgerError Z :=
  outcome_foldl
    (fun sum entry =>
       if bool_decide (le_side entry = side) then Z.add sum <$> big (le_amount entry) else Ok sum)
    0 entries.

Definition assertBalanced (entries : list LedgerEntry) : outcome LedgerError unit :=
  debits ← sumSide entries Debit;
  credits ← sumSide entries Credit;
  guard_err (debits =? credits) (Unbalanced debits credits).

Definition posting (quote : FeeQuote) (intentId suffix : string) (side : LedgerSide)
    (account : LedgerAccount) (accountId amount : string) (createdAt : Z) : LedgerEntry :=
  {| le_id := intentId +:+ suffix; le_intentId := intentId;
     le_ruleId := q_ruleId quote; le_ruleVersion := q_ruleVersion quote;
     le_side := side; le_account := account; le_accountId := accountId;
     le_amount := amount; le_createdAt := createdAt |}.

Definition postingsForFill (quote : FeeQuote) (intentId userId : string) (createdAt : Z)
    : outcome LedgerError (list LedgerEntry) :=
  fee ← big (q_fee quote);
  if fee =? 0 then Ok []
  else
    integ ← big (q_integratorFee quote);
    let base :=
      [ posting quote intentId ":debit:user" Debit AccUser userId (q_fee quote) createdAt;
        posting quote intentId ":credit:treasury" Credit AccTreasury "treasury" (q_treasuryFee quote) createdAt ] in
    let entries :=
      if (0 <? integ) && truthy_str (q_integratorId quote)
      then base ++ [posting quote intentId ":credit:integrator" Credit AccIntegrator
                      (default "" (q_integratorId quote)) (q_integratorFee quote) createdAt]
      else base in
    _ ← assertBalanced entries;
    Ok entries.

(** [MemoryFeeLedger.append]: the ledger is its list of entries. *)
Definition append (ledger batch : list LedgerEntry) : outcome LedgerError (list LedgerEntry) :=
  _ ← assertBalanced batch;
  _ ← assertBalanced (ledger ++ batch);
  Ok (ledger ++ batch).

Record LedgerTotals := {
  entryCount : Z;
  totalFees : string;
  treasuryFees : string;
  integratorFees : string;
  last24hFees : string;
}.

(** [entries.filter(p).reduce((sum, e) => sum + BigInt(e.amount), 0n)] *)
Definition sumWhere (p : LedgerEntry -> bool) (entries : list LedgerEntry) : outcome LedgerError Z :=
  outcome_foldl (fun sum entry => Z.add sum <$> big (le_amount entry)) 0 (filter (fun e => p e) entries).

Definition totals (ledger : list LedgerEntry) (now windowSec : Z) : outcome LedgerError LedgerTotals :=
  _ ← assertBalanced ledger;
  treasury ← sumWhere (fun e => bool_decide (le_side e = Credit) && bool_decide (le_account e = AccTreasury)) ledger;
  integrator ← sumWhere (fun e => bool_decide (le_side e = Credit) && bool_decide (le_account e = AccIntegrator)) ledger;
  last24h ← sumWhere (fun e => bool_decide (le_side e = Debit) && bool_decide (le_account e = AccUser)
                               && (now - windowSec <=? le_createdAt e)) ledger;
  Ok {| entryCount := Z.of_nat (length ledger);
        totalFees := toString (treasury + integrator);
        treasuryFees := toString treasury;
        integratorFees := toString integrator;
        last24hFees := toString last24h |}.

(** [FeesService]: configuration plus the ledger. *)
Record FeesService := {
  fs_rules : list FeeRule;
  fs_referrals : list ReferralCode;
  fs_ledger : list LedgerEntry;
}.

Definition fs_with_ledger (s : FeesService) (l : list LedgerEntry) : FeesService :=
  {| fs_rules := fs_rules s; fs_referrals := fs_referrals s; fs_ledger := l |}.

Definition quote (s : FeesService) (input : FeeInput) : outcome FeeError FeeQuote :=
  quoteFee (fs_rules s) (fs_referrals s) input.

Definition post (s : FeesService) (q : FeeQuote) (intentId userId : string) (now : Z)
    : outcome LedgerError FeesService :=
  batch ← postingsForFill q intentId userId now;
  match batch with
  | [] => Ok s
  | _ => fs_with_ledger s <$> append (fs_ledger s) batch
  end.

(** [recordFill]: the quote that was posted and the service after it. *)
Definition recordFill (s : FeesService) (input : FeeInput) (intentId userId : string) (now : Z)
    : outcome LedgerError (FeeQuote * FeesService) :=
  match quote s input with
  | Err e => Err (QuoteFailed e)
  | Ok q => s' ← post s q intentId userId now; Ok (q, s')
  end.

(** * Sums over entries whose amounts are printed integers *)

(** Value of an entry; entries of the ledger always parse. *)
Definition amount_of (e : LedgerEntry) : Z := default 0 (BigInt (le_amount e)).

Definition readable (e : LedgerEntry) : Prop := BigInt (le_amount e) = Some (amount_of e).

Definition side_amount (side : LedgerSide) (e : LedgerEntry) : Z :=
  if bool_decide (le_side e = side) then amount_of e else 0.

Definition balance (l : list LedgerEntry) : Z :=
  sumZ (side_amount Debit) l - sumZ (side_amount Credit) l.

Lemma fold_big_sum (g : LedgerEntry -> bool) (l : list LedgerEntry) z :
  Forall readable l ->
  outcome_foldl (fun sum e => if g e then Z.add sum <$> big (le_amount e) else Ok sum) z l
  = Ok (z + sumZ (fun e => if g e then amount_of e else 0) l).
Proof.
  intros Hl. revert z. induction Hl as [|e l He Hl IH]; intros z; simpl; [by rewrite Z.add_0_r|].
  unfold readable in He. destruct (g e).
  - unfold big. rewrite He. simpl. rewrite IH; f_equal; lia.
  - simpl. rewrite IH; f_equal; lia.
Qed.

Lemma sumSide_readable l side :
  Forall readable l -> sumSide l side = Ok (sumZ (side_amount side) l).
Proof.
  intros Hl. unfold sumSide.
  by rewrite (fold_big_sum (fun e => bool_decide (le_side e = side))).
Qed.

Lemma assertBalanced_readable l :
  Forall readable l -> (assertBalanced l = Ok tt <-> balance l = 0).
Proof.
  intros Hl. unfold assertBalanced, balance. rewrite !sumSide_readable by done. simpl.
  unfold guard_err. destruct (Z.eqb_spec (sumZ (side_amount Debit) l) (sumZ (side_amount Credit) l));
    split; intros; try done; lia.
Qed.

Lemma balance_app l1 l2 : balance (l1 ++ l2) = balance l1 + balance l2.
Proof. unfold balance. rewrite !sumZ_app. lia. Qed.

(** The ledger invariant. *)
Definition ledger_ok (l : list LedgerEntry) : Prop := Forall readable l /\ balance l = 0.

Lemma append_ok l batch :
  ledger_ok l -> ledger_ok batch -> append l batch = Ok (l ++ batch) /\ ledger_ok (l ++ batch).
Proof.
  intros [Hl Hbl] [Hb Hbb]. assert (ledger_ok (l ++ batch)) as [Hr Hbal].
  { split; [by apply Forall_app|]. rewrite balance_app. lia. }
  split; [|by split]. unfold append.
  rewrite (proj2 (assertBalanced_readable batch Hb) Hbb). simpl.
  by rewrite (proj2 (assertBalanced_readable _ Hr) Hbal).
Qed.

(** Contents of a quote, as [quoteFee] produces it. *)
Definition quote_ok (q : FeeQuote) (fee integ : Z) : Prop :=
  q_fee q = toString fee /\ q_integratorFee q = toString integ /\
  q_treasuryFee q = toString (fee - integ) /\ 0 <= integ <= fee.

Lemma quoteFee_quote_ok rules referrals input q :
  quoteFee rules referrals input = Ok q -> exists fee integ, quote_ok q fee integ /\
    (0 < integ -> exists r, r ∈ referrals /\ q_integratorId q = Some (ref_integratorId r)).
Proof.
  unfold quoteFee. intros H.
  destruct (parseUnits (in_amount input) "amount") as [amount|]; simpl in H; [|done].
  destruct (match in_volume input with None => Ok amount | Some v => parseUnits v "volume" end)
    as [volume|]; simpl in H; [|done].
  destruct (tierBps _ volume) as [bps|]; simpl in H; [|done].
  destruct (applyBpsCeil amount bps) as [raw|]; simpl in H; [|done].
  destruct (clamp raw _) as [fee|]; simpl in H; [|done].
  destruct (floorBps fee _) as [integ|] eqn:Ef; simpl in H; [|done]. injection H as <-.
  pose proof (floorBps_bounds _ _ _ Ef).
  exists fee, integ. unfold quote_ok; simpl. split; [repeat split; lia|]. intros Hpos.
  destruct (find_referral referrals input) as [r|] eqn:Er.
  - exists r. split; [by eapply find_referral_elem|done].
  - lia.
Qed.

Lemma readable_print e z : le_amount e = toString z -> readable e /\ amount_of e = z.
Proof. unfold readable, amount_of. intros ->. by rewrite BigInt_toString. Qed.

(** What a fill posts, in each case. *)
Definition posts_integrator (q : FeeQuote) (integ : Z) : bool :=
  (0 <? integ) && truthy_str (q_integratorId q).

Section postings.
Context (q : FeeQuote) (intentId userId : string) (createdAt fee integ : Z).
Context (Hq : quote_ok q fee integ).

Let du := posting q intentId ":debit:user" Debit AccUser userId (q_fee q) createdAt.
Let ct := posting q intentId ":credit:treasury" Credit AccTreasury "treasury" (q_treasuryFee q) createdAt.
Let ci := posting q intentId ":credit:integrator" Credit AccIntegrator
            (default "" (q_integratorId q)) (q_integratorFee q) createdAt.

Lemma posting_amounts :
  (readable du /\ amount_of du = fee) /\ (readable ct /\ amount_of ct = fee - integ) /\
  (readable ci /\ amount_of ci = integ).
Proof. destruct Hq as (Hf & Hi & Ht & _). auto using readable_print. Qed.

Lemma postings_unfold :
  postingsForFill q intentId userId createdAt =
  if fee =? 0 then Ok [] else
    let entries := if posts_integrator q integ then [du; ct; ci] else [du; ct] in
    _ ← assertBalanced entries; Ok entries.
Proof.
  destruct Hq as (Hf & Hi & _ & _). unfold postingsForFill, posts_integrator, big.
  replace (BigInt (q_fee q)) with (Some fee) by (by rewrite Hf, BigInt_toString).
  replace (BigInt (q_integratorFee q)) with (Some integ) by (by rewrite Hi, BigInt_toString). simpl.
  destruct (fee =? 0); [done|]. by destruct (_ && _).
Qed.

(** A zero fee posts nothing. *)
Lemma postings_zero : fee = 0 -> postingsForFill q intentId userId createdAt = Ok [].
Proof. intros H0. rewrite postings_unfold. by rewrite H0. Qed.

(** A positive fee whose integrator part, if any, has an integrator posts a
    balanced batch. *)
Lemma postings_balanced :
  0 < fee -> (0 < integ -> posts_integrator q integ = true) ->
  exists entries, postingsForFill q intentId userId createdAt = Ok entries /\ entries <> [] /\
    ledger_ok entries /\ sumZ (side_amount Debit) entries = fee /\
    Forall (fun e => le_side e = Debit <-> le_account e = AccUser) entries.
Proof.
  intros Hfee Hint. rewrite postings_unfold. rewrite (proj2 (Z.eqb_neq fee 0)) by lia. cbv zeta.
  destruct posting_amounts as ([Hdu Adu] & [Hct Act] & [Hci Aci]).
  set (entries := if posts_integrator q integ then _ else _).
  assert (Hok : ledger_ok entries /\ sumZ (side_amount Debit) entries = fee).
  { unfold entries. destruct (posts_integrator q integ).
    - split; [split|]; [repeat constructor; done|unfold balance, side_amount; simpl; lia..].
    - assert (integ = 0) by (pose proof Hq as (_ & _ & _ & ?); destruct (Z.eq_dec integ 0); [done|]; specialize (Hint ltac:(lia)); done).
      split; [split|]; [repeat constructor; done|unfold balance, side_amount; simpl; lia..]. }
  destruct Hok as [[Hr Hb] Hd]. exists entries.
  rewrite (proj2 (assertBalanced_readable _ Hr) Hb). simpl.
  repeat split; try done; unfold entries; destruct (posts_integrator q integ); repeat constructor; done.
Qed.

(** A positive integrator part with no integrator to credit is refused. *)
Lemma postings_unattributed :
  0 < integ -> posts_integrator q integ = false ->
  postingsForFill q intentId userId createdAt = Err (Unbalanced fee (fee - integ)).
Proof.
  intros Hi Hno. pose proof Hq as (_ & _ & _ & ?). rewrite postings_unfold, Hno.
  rewrite (proj2 (Z.eqb_neq fee 0)) by lia. cbv zeta.
  destruct posting_amounts as ([Hdu Adu] & [Hct Act] & _).
  unfold assertBalanced. rewrite !sumSide_readable by (repeat constructor; done).
  unfold side_amount; simpl. rewrite Adu, Act, Z.add_0_r. unfold guard_err.
  rewrite (proj2 (Z.eqb_neq _ _)) by lia. simpl. by rewrite Z.add_0_r.
Qed.
End postings.

(** * Properties *)

(** Referral codes always name an integrator. *)
Definition referrals_named (refs : list ReferralCode) : bool :=
  forallb (fun r => negb (bool_decide (ref_integratorId r = EmptyString))) refs.

Lemma quote_posts_integrator refs q integ :
  referrals_named refs = true ->
  (0 < integ -> exists r, r ∈ refs /\ q_integratorId q = Some (ref_integratorId r)) ->
  0 < integ -> posts_integrator q integ = true.
Proof.
  intros Hn Hr Hp. unfold posts_integrator. rewrite (proj2 (Z.ltb_lt 0 integ)) by lia.
  destruct (Hr Hp) as (r & Hin & ->). apply list_elem_of_In in Hin.
  unfold referrals_named in Hn. rewrite forallb_forall in Hn. by specialize (Hn r Hin).
Qed.

(** Users are debited and nobody else. *)
Definition user_debits (l : list LedgerEntry) : Prop :=
  Forall (fun e => le_side e = Debit <-> le_account e = AccUser) l.

Lemma post_step s q intentId userId now fee integ :
  ledger_ok (fs_ledger s) -> user_debits (fs_ledger s) -> quote_ok q fee integ ->
  (0 < integ -> posts_integrator q integ = true) ->
  exists l', post s q intentId userId now = Ok (fs_with_ledger s l') /\
    ledger_ok l' /\ user_debits l' /\
    sumZ (side_amount Debit) l' = sumZ (side_amount Debit) (fs_ledger s) + fee.
Proof.
  intros Hl Hu Hq Hint. unfold post.
  destruct (Z.eq_dec fee 0) as [->|Hne].
  - rewrite (postings_zero q intentId userId now 0 integ Hq) by done. simpl.
    exists (fs_ledger s). destruct s; simpl in *. split; [done|]. repeat split; try apply Hl; [done|lia].
  - assert (0 < fee) by (destruct Hq as (_ & _ & _ & ?); lia).
    destruct (postings_balanced q intentId userId now fee integ Hq) as (b & -> & Hb & Hok & Hd & Hub); [done..|].
    simpl. destruct b as [|e b]; [done|].
    destruct (append_ok (fs_ledger s) (e :: b)) as [-> Hok']; [done..|]. simpl.
    exists (fs_ledger s ++ e :: b). split; [done|]. split; [done|].
    split; [by apply Forall_app|]. rewrite sumZ_app, Hd. done.
Qed.

(** A run of fills on the service, in order: the quotes that were posted and
    the service after them. *)
Fixpoint recordFills (s : FeesService) (fills : list (FeeInput * string * string * Z))
    : outcome LedgerError (list FeeQuote * FeesService) :=
  match fills with
  | [] => Ok ([], s)
  | (input, intentId, userId, now) :: fills =>
      '(q, s1) ← recordFill s input intentId userId now;
      '(qs, s2) ← recordFills s1 fills;
      Ok (q :: qs, s2)
  end.

Definition fee_of (q : FeeQuote) : Z := default 0 (BigInt (q_fee q)).

Lemma recordFill_step s input intentId userId now q s' :
  referrals_named (fs_referrals s) = true -> ledger_ok (fs_ledger s) -> user_debits (fs_ledger s) ->
  recordFill s input intentId userId now = Ok (q, s') ->
  fs_referrals s' = fs_referrals s /\ ledger_ok (fs_ledger s') /\ user_debits (fs_ledger s') /\
  sumZ (side_amount Debit) (fs_ledger s') = sumZ (side_amount Debit) (fs_ledger s) + fee_of q.
Proof.
  intros Hn Hl Hu H. unfold recordFill in H.
  destruct (quote s input) as [q0|] eqn:Eq; [|done].
  destruct (quoteFee_quote_ok _ _ _ _ Eq) as (fee & integ & Hq & Hr).
  destruct (post_step s q0 intentId userId now fee integ) as (l' & Hp & ? & ? & Hs);
    [done..|by eapply quote_posts_integrator|].
  rewrite Hp in H. simpl in H. injection H as <- <-. simpl.
  repeat split; try done; try apply H0. rewrite Hs. unfold fee_of. destruct Hq as (-> & _).
  by rewrite BigInt_toString.
Qed.

Lemma recordFills_step s fills qs s' :
  referrals_named (fs_referrals s) = true -> ledger_ok (fs_ledger s) -> user_debits (fs_ledger s) ->
  recordFills s fills = Ok (qs, s') ->
  ledger_ok (fs_ledger s') /\ user_debits (fs_ledger s') /\
  sumZ (side_amount Debit) (fs_ledger s') = sumZ (side_amount Debit) (fs_ledger s) + sumZ fee_of qs.
Proof.
  revert s qs. induction fills as [|[[[input iid] uid] now] fills IH]; simpl; intros s qs Hn Hl Hu H.
  { injection H as <- <-. simpl. repeat split; try apply Hl; [done|lia]. }
  destruct (recordFill s input iid uid now) as [[q s1]|] eqn:E1; simpl in H; [|done].
  destruct (recordFills s1 fills) as [[qs1 s2]|] eqn:E2; simpl in H; [|done].
  injection H as <- <-.
  destruct (recordFill_step _ _ _ _ _ _ _ Hn Hl Hu E1) as (Hr & Hl1 & Hu1 & Hs1).
  rewrite <- Hr in Hn. destruct (IH s1 qs1 Hn Hl1 Hu1 E2) as (? & ? & Hs2).
  split; [done|]. split; [done|]. simpl. lia.
Qed.

Lemma sumWhere_readable p l :
  Forall readable l -> sumWhere p l = Ok (sumZ (fun e => if p e then amount_of e else 0) l).
Proof.
  intros Hl. unfold sumWhere.
  assert (Hf : Forall readable (filter (fun e => p e) l)) 
    by (apply Forall_forall; intros e [_ He]%list_elem_of_filter; by rewrite Forall_forall in Hl; apply Hl).
  pose proof (fold_big_sum (fun _ => true) _ 0 Hf) as H. simpl in H. rewrite H. f_equal.
  clear. induction l as [|e l IH]; [done|]. rewrite filter_cons. simpl.
  case_decide as Hp; destruct (p e); simpl; try done; lia.
Qed.

(** C5. Conservation over any run of fills from an empty ledger: the ledger
    stays balanced, the totals report can be computed, and the total it
    reports (treasury plus integrator credits) is exactly the sum of the fees
    quoted for the fills. *)
Theorem ledger_conserves_fees rules refs fills qs s now windowSec
    (Hnamed : referrals_named refs = true)
    (H : recordFills {| fs_rules := rules; fs_referrals := refs; fs_ledger := [] |} fills = Ok (qs, s)) :
  assertBalanced (fs_ledger s) = Ok tt /\
  exists t, totals (fs_ledger s) now windowSec = Ok t /\ totalFees t = toString (sumZ fee_of qs).
Proof.
  destruct (recordFills_step {| fs_rules := rules; fs_referrals := refs; fs_ledger := [] |} _ _ _ Hnamed ltac:(split; [constructor|done]) ltac:(constructor) H)
    as ([Hr Hb] & Hu & Hs).
  assert (Hbal : assertBalanced (fs_ledger s) = Ok tt) by (by apply assertBalanced_readable).
  split; [done|]. unfold totals. rewrite Hbal. simpl. rewrite !sumWhere_readable by done. simpl.
  eexists. split; [reflexivity|]. simpl. f_equal. cbn [fs_ledger sumZ] in Hs. rewrite Z.add_0_l in Hs.
  rewrite <- Hs. unfold balance in Hb.
  enough (sumZ (side_amount Credit) (fs_ledger s) =
    sumZ (fun e => if bool_decide (le_side e = Credit) && bool_decide (le_account e = AccTreasury) then amount_of e else 0) (fs_ledger s)
    + sumZ (fun e => if bool_decide (le_side e = Credit) && bool_decide (le_account e = AccIntegrator) then amount_of e else 0) (fs_ledger s)) by lia.
  clear -Hu. induction Hu as [|e l He Hu IH]; simpl; [done|]. rewrite IH. unfold side_amount.
  destruct (le_side e), (le_account e); simpl; try lia; exfalso; naive_solver.
Qed.

Definition sample_run : outcome LedgerError (list FeeQuote * FeesService) :=
  recordFills {| fs_rules := [two_tier_rule]; fs_referrals := sample_referrals; fs_ledger := [] |}
    [(sample_input, "i1", "u1", 1000); (sample_input, "i2", "u2", 1010)].

Lemma ledger_conserves_fees_witness :
  match sample_run with
  | Ok (qs, s) =>
      length (fs_ledger s) = 6%nat /\ assertBalanced (fs_ledger s) = Ok tt /\
      exists t, totals (fs_ledger s) 2000 86400 = Ok t /\ totalFees t = toString (sumZ fee_of qs)
  | Err _ => False
  end.
Proof.
  destruct sample_run as [[qs s]|e] eqn:E; [|vm_compute in E; discriminate].
  split; [vm_compute in E; by injection E as <- <-|].
  exact (ledger_conserves_fees _ sample_referrals _ qs s 2000 86400 eq_refl E).
Defined.


