(* ===== verification/IntentTypes.v ===== *)
(** The intent data model: [src/intents/intents.types.ts],
    [src/auctions/dutch.ts] (data) and the fill-window constants of
    [src/config/configuration.ts].

    Optional fields are options; a field present with value [undefined] and an
    absent field are both [None], which no modelled operation distinguishes.
    Times are unix seconds ([Z]).  USD prices are carried in units of 1e-8 USD,
    the fixed-point form in which the modelled code uses them. *)
From S2P Require Import Prelude JsMap BigInt.
Local Open Scope Z_scope.

(** * Enumerations *)

Inductive SupportedChain :=
  | stellar | ethereum | base_chain | polygon | arbitrum | optimism | avalanche.

#[export] Instance SupportedChain_eq_dec : EqDecision SupportedChain.
Proof. solve_decision. Defined.

Definition SUPPORTED_CHAINS : list SupportedChain :=
  [stellar; ethereum; base_chain; polygon; arbitrum; optimism; avalanche].

Definition chain_name (c : SupportedChain) : string :=
  match c with
  | stellar => "stellar" | ethereum => "ethereum" | base_chain => "base" | polygon => "polygon"
  | arbitrum => "arbitrum" | optimism => "optimism" | avalanche => "avalanche"
  end.

Inductive IntentState :=
  | open | accepted | filled | cancelled | expired | slashed
  | pending_open | pending_accepted | pending_filled | pending_cancelled.

#[export] Instance IntentState_eq_dec : EqDecision IntentState.
Proof. solve_decision. Defined.

Definition INTENT_STATES : list IntentState :=
  [open; accepted; filled; cancelled; expired; slashed;
   pending_open; pending_accepted; pending_filled; pending_cancelled].

Definition state_name (s : IntentState) : string :=
  match s with
  | open => "open" | accepted => "accepted" | filled => "filled" | cancelled => "cancelled"
  | expired => "expired" | slashed => "slashed" | pending_open => "pending_open"
  | pending_accepted => "pending_accepted" | pending_filled => "pending_filled"
  | pending_cancelled => "pending_cancelled"
  end.

Lemma state_name_inj s1 s2 : state_name s1 = state_name s2 -> s1 = s2.
Proof. destruct s1, s2; done. Qed.

Lemma INTENT_STATES_complete s : s ∈ INTENT_STATES.
Proof. destruct s; unfold INTENT_STATES; set_solver. Qed.

Inductive PendingIntentOp := op_create | op_accept | op_fill | op_cancel.

#[export] Instance PendingIntentOp_eq_dec : EqDecision PendingIntentOp.
Proof. solve_decision. Defined.

Definition op_name (op : PendingIntentOp) : string :=
  match op with
  | op_create => "create" | op_accept => "accept" | op_fill => "fill" | op_cancel => "cancel"
  end.

Inductive FillVerificationState := fv_pending | fv_verified | fv_rejected.

Inductive SrcVerificationStatus :=
  | sv_pending | sv_verified | sv_not_found | sv_mismatch | sv_reorged | sv_skipped | sv_grandfathered.

Inductive IntentFillStatus := fs_reserved | fs_filled | fs_slashed | fs_released.

#[export] Instance IntentFillStatus_eq_dec : EqDecision IntentFillStatus.
Proof. solve_decision. Defined.

(** * Records *)

Record TokenInfo := {
  tok_address : string;
  tok_symbol : string;
  tok_name : string;
  tok_decimals : Z;
  tok_chain : SupportedChain;
  tok_priceUSD : option Z;
}.

Record StellarToken := {
  st_contract : string;
  st_symbol : string;
  st_decimals : Z;
  st_priceUSD : option Z;
}.

Record PriceLockSnapshot := {
  pl_fairValue : option string;
  pl_slippageBps : option Z;
  pl_premiumBps : option Z;
  pl_asOfMs : Z;
}.

Record DutchAuction := {
  startDstAmount : string;
  decayStart : Z;
  decayEnd : Z;
  exclusiveSolver : option string;
  exclusivityEnd : option Z;
}.

Record SrcVerification := {
  sv_status : SrcVerificationStatus;
  sv_checkedAt : Z;
  sv_blockNumber : option string;
  sv_blockHash : option string;
  sv_receivedAmount : option string;
  sv_detail : option string;
}.

Inductive FillStatus := fp_none | fp_partially_filled | fp_filled.

Record FillProgress := {
  fp_status : FillStatus;
  fp_srcAmount : string;
  fp_reservedAmount : string;
  fp_filledAmount : string;
  fp_remainingAmount : string;
  fp_dstFilledAmount : string;
  fp_fillCount : Z;
  fp_activeReservations : Z;
  fp_remainderCancelled : option bool;
}.

Record Intent := {
  intentId : string;
  user : string;
  srcChain : SupportedChain;
  srcToken : TokenInfo;
  srcAmount : string;
  dstToken : StellarToken;
  minDstAmount : string;
  auction : option DutchAuction;
  acceptedDstAmount : option string;
  quotedDstAmount : option string;
  solver : option string;
  state : IntentState;
  createdAt : Z;
  deadline : Z;
  filledAt : option Z;
  fillAmount : option string;
  feeAmount : option string;
  txHash : option string;
  fillVerificationState : option FillVerificationState;
  fillVerificationReason : option string;
  fillVerifiedAt : option string;
  slashedAt : option Z;
  slashReason : option string;
  paramsVersion : option Z;
  usdValueAtCreate : option Z;
  priceLock : option PriceLockSnapshot;
  version : option Z;
  srcVerified : option bool;
  srcTxHash : option string;
  srcVerification : option SrcVerification;
  pendingTxHash : option string;
  pendingOp : option PendingIntentOp;
  srcTokenId : option string;
  dstTokenId : option string;
  srcDecimals : option Z;
  dstDecimals : option Z;
  allowPartialFill : option bool;
  minFillAmount : option string;
  fillProgress : option FillProgress;
}.

(** Fields a patch may set ([IntentPatch]: everything but identity, creation
    time and version); a patch is the list of the fields present in the object,
    and a field set to [undefined] is present with [None]. *)
Inductive PatchField :=
  | P_user (v : string)
  | P_srcChain (v : SupportedChain)
  | P_srcToken (v : TokenInfo)
  | P_srcAmount (v : string)
  | P_dstToken (v : StellarToken)
  | P_minDstAmount (v : string)
  | P_auction (v : option DutchAuction)
  | P_acceptedDstAmount (v : option string)
  | P_quotedDstAmount (v : option string)
  | P_solver (v : option string)
  | P_state (v : IntentState)
  | P_deadline (v : Z)
  | P_filledAt (v : option Z)
  | P_fillAmount (v : option string)
  | P_feeAmount (v : option string)
  | P_txHash (v : option string)
  | P_fillVerificationState (v : option FillVerificationState)
  | P_fillVerificationReason (v : option string)
  | P_fillVerifiedAt (v : option string)
  | P_slashedAt (v : option Z)
  | P_slashReason (v : option string)
  | P_paramsVersion (v : option Z)
  | P_usdValueAtCreate (v : option Z)
  | P_priceLock (v : option PriceLockSnapshot)
  | P_srcVerified (v : option bool)
  | P_srcTxHash (v : option string)
  | P_srcVerification (v : option SrcVerification)
  | P_pendingTxHash (v : option string)
  | P_pendingOp (v : option PendingIntentOp)
  | P_srcTokenId (v : option string)
  | P_dstTokenId (v : option string)
  | P_srcDecimals (v : option Z)
  | P_dstDecimals (v : option Z)
  | P_allowPartialFill (v : option bool)
  | P_minFillAmount (v : option string)
  | P_fillProgress (v : option FillProgress).

Definition IntentPatch := list PatchField.

(** Setting one field in an object spread. *)
Definition apply_field (i : Intent) (p : PatchField) : Intent := {|
  intentId := intentId i;
  user := match p with P_user v => v | _ => user i end;
  srcChain := match p with P_srcChain v => v | _ => srcChain i end;
  srcToken := match p with P_srcToken v => v | _ => srcToken i end;
  srcAmount := match p with P_srcAmount v => v | _ => srcAmount i end;
  dstToken := match p with P_dstToken v => v | _ => dstToken i end;
  minDstAmount := match p with P_minDstAmount v => v | _ => minDstAmount i end;
  auction := match p with P_auction v => v | _ => auction i end;
  acceptedDstAmount := match p with P_acceptedDstAmount v => v | _ => acceptedDstAmount i end;
  quotedDstAmount := match p with P_quotedDstAmount v => v | _ => quotedDstAmount i end;
  solver := match p with P_solver v => v | _ => solver i end;
  state := match p with P_state v => v | _ => state i end;
  createdAt := createdAt i;
  deadline := match p with P_deadline v => v | _ => deadline i end;
  filledAt := match p with P_filledAt v => v | _ => filledAt i end;
  fillAmount := match p with P_fillAmount v => v | _ => fillAmount i end;
  feeAmount := match p with P_feeAmount v => v | _ => feeAmount i end;
  txHash := match p with P_txHash v => v | _ => txHash i end;
  fillVerificationState := match p with P_fillVerificationState v => v | _ => fillVerificationState i end;
  fillVerificationReason := match p with P_fillVerificationReason v => v | _ => fillVerificationReason i end;
  fillVerifiedAt := match p with P_fillVerifiedAt v => v | _ => fillVerifiedAt i end;
  slashedAt := match p with P_slashedAt v => v | _ => slashedAt i end;
  slashReason := match p with P_slashReason v => v | _ => slashReason i end;
  paramsVersion := match p with P_paramsVersion v => v | _ => paramsVersion i end;
  usdValueAtCreate := match p with P_usdValueAtCreate v => v | _ => usdValueAtCreate i end;
  priceLock := match p with P_priceLock v => v | _ => priceLock i end;
  version := version i;
  srcVerified := match p with P_srcVerified v => v | _ => srcVerified i end;
  srcTxHash := match p with P_srcTxHash v => v | _ => srcTxHash i end;
  srcVerification := match p with P_srcVerification v => v | _ => srcVerification i end;
  pendingTxHash := match p with P_pendingTxHash v => v | _ => pendingTxHash i end;
  pendingOp := match p with P_pendingOp v => v | _ => pendingOp i end;
  srcTokenId := match p with P_srcTokenId v => v | _ => srcTokenId i end;
  dstTokenId := match p with P_dstTokenId v => v | _ => dstTokenId i end;
  srcDecimals := match p with P_srcDecimals v => v | _ => srcDecimals i end;
  dstDecimals := match p with P_dstDecimals v => v | _ => dstDecimals i end;
  allowPartialFill := match p with P_allowPartialFill v => v | _ => allowPartialFill i end;
  minFillAmount := match p with P_minFillAmount v => v | _ => minFillAmount i end;
  fillProgress := match p with P_fillProgress v => v | _ => fillProgress i end;
|}.

(** [{ ...i, intentId: id, version: v }] *)
Definition stamp (id : string) (v : Z) (i : Intent) : Intent := {|
  intentId := id;
  user := user i;
  srcChain := srcChain i;
  srcToken := srcToken i;
  srcAmount := srcAmount i;
  dstToken := dstToken i;
  minDstAmount := minDstAmount i;
  auction := auction i;
  acceptedDstAmount := acceptedDstAmount i;
  quotedDstAmount := quotedDstAmount i;
  solver := solver i;
  state := state i;
  createdAt := createdAt i;
  deadline := deadline i;
  filledAt := filledAt i;
  fillAmount := fillAmount i;
  feeAmount := feeAmount i;
  txHash := txHash i;
  fillVerificationState := fillVerificationState i;
  fillVerificationReason := fillVerificationReason i;
  fillVerifiedAt := fillVerifiedAt i;
  slashedAt := slashedAt i;
  slashReason := slashReason i;
  paramsVersion := paramsVersion i;
  usdValueAtCreate := usdValueAtCreate i;
  priceLock := priceLock i;
  version := Some v;
  srcVerified := srcVerified i;
  srcTxHash := srcTxHash i;
  srcVerification := srcVerification i;
  pendingTxHash := pendingTxHash i;
  pendingOp := pendingOp i;
  srcTokenId := srcTokenId i;
  dstTokenId := dstTokenId i;
  srcDecimals := srcDecimals i;
  dstDecimals := dstDecimals i;
  allowPartialFill := allowPartialFill i;
  minFillAmount := minFillAmount i;
  fillProgress := fillProgress i;
|}.

(** [{ ...i, ...patch }] *)
Definition apply_patch (p : IntentPatch) (i : Intent) : Intent := foldl apply_field i p.

Lemma apply_patch_frame p i :
  intentId (apply_patch p i) = intentId i /\ createdAt (apply_patch p i) = createdAt i /\
  version (apply_patch p i) = version i.
Proof.
  unfold apply_patch. revert i. induction p as [|f p IH]; intros i; [done|]. simpl.
  destruct (IH (apply_field i f)) as (-> & -> & ->). by destruct f.
Qed.

(** The state a patch sets, if any. *)
Definition patch_state (p : IntentPatch) : option IntentState :=
  foldl (fun o f => match f with P_state s => Some s | _ => o end) None p.

Lemma apply_patch_state p i : state (apply_patch p i) = default (state i) (patch_state p).
Proof.
  unfold apply_patch, patch_state.
  enough (H : forall o j, state j = default (state i) o ->
    state (foldl apply_field j p) = default (state i) (foldl (fun o f => match f with P_state s => Some s | _ => o end) o p))
    by (by apply H).
  induction p as [|f p IH]; intros o j Hj; [done|]. simpl. apply IH. by destruct f.
Qed.

Record IntentFill := {
  if_fillId : string;
  if_intentId : string;
  if_solver : string;
  if_reservedAmount : string;
  if_minDstAmount : string;
  if_status : IntentFillStatus;
  if_reservedAt : Z;
  if_deadline : Z;
  if_dstAmount : option string;
  if_feeAmount : option string;
  if_txHash : option string;
  if_filledAt : option Z;
  if_slashedAt : option Z;
  if_releasedAt : option Z;
}.

(** Values of the audit entry's [metadata] object. *)
Inductive MetaValue := MStr (s : string) | MNum (n : Z) | MBool (b : bool) | MNull.

(** The timestamp is the [Date] (epoch milliseconds) the ISO string prints. *)
Record IntentAuditEntry := {
  ae_timestamp : Z;
  ae_toState : IntentState;
  ae_actor : string;
  ae_reason : string;
  ae_metadata : option (jsmap MetaValue);
}.

(** * Fill windows *)

(** [CHAIN_FILL_WINDOW_DEFAULTS]; every chain of the tuple has an entry, so the
    [?? DEFAULT_FILL_WINDOW_SECONDS] fallback is never taken. *)
Definition CHAIN_FILL_WINDOW_DEFAULTS (c : SupportedChain) : option Z :=
  match c with
  | stellar => Some 120 | base_chain => Some 600 | optimism => Some 600 | arbitrum => Some 600
  | ethereum => Some 1800 | polygon => Some 900 | avalanche => Some 600
  end.

Definition DEFAULT_FILL_WINDOW_SECONDS : Z := 600.

Definition fill_window (c : SupportedChain) : Z :=
  default DEFAULT_FILL_WINDOW_SECONDS (CHAIN_FILL_WINDOW_DEFAULTS c).

Lemma fill_window_pos c : 0 < fill_window c.
Proof. destruct c; reflexivity. Qed.
