(* ===== verification/StateMachine.v ===== *)
(** The intent lifecycle state machine: [src/intents/state-machine.ts], the
    database trigger seeded from it
    ([prisma/migrations/20261020000000_intent_state_transition_trigger]) and
    the abstract lifecycle of [formal/IntentLifecycle.tla]. *)
From S2P Require Import Prelude JsMap BigInt IntentTypes.
From stdpp Require Import relations.
Local Open Scope Z_scope.

(** * The transition table *)

Inductive TransitionKind := lifecycle | park | confirm | compensation.

#[export] Instance TransitionKind_eq_dec : EqDecision TransitionKind.
Proof. solve_decision. Defined.

Definition kind_name (k : TransitionKind) : string :=
  match k with
  | lifecycle => "lifecycle" | park => "park" | confirm => "confirm" | compensation => "compensation"
  end.

Inductive TransitionSideEffect :=
  | metric | audit_effect | schedule_fill_window | shadow | onchain_broadcast | rollback_penalty.

Record TransitionRule := {
  r_from : IntentState;
  r_to : IntentState;
  r_kind : TransitionKind;
  r_guard : string;
  r_sideEffects : list TransitionSideEffect;
  r_defaultReason : string;
}.

Definition ALWAYS : list TransitionSideEffect := [metric; audit_effect].

Definition rule (from to : IntentState) (kind : TransitionKind) (guard defaultReason : string)
    (extra : list TransitionSideEffect) : TransitionRule :=
  {| r_from := from; r_to := to; r_kind := kind; r_guard := guard;
     r_sideEffects := ALWAYS ++ extra; r_defaultReason := defaultReason |}.

Definition TRANSITION_TABLE : list TransitionRule := [
  (* lifecycle *)
  rule open accepted lifecycle "state = open AND deadline > now" "solver accepted"
    [schedule_fill_window; shadow; onchain_broadcast];
  rule open cancelled lifecycle "state = open" "user cancelled" [shadow; onchain_broadcast];
  rule open expired lifecycle "state = open" "deadline passed" [shadow];
  rule accepted filled lifecycle "state = accepted AND solver = caller AND deadline > now" "solver filled"
    [shadow; onchain_broadcast];
  rule accepted slashed lifecycle "state = accepted" "accepted intent not filled before deadline" [shadow];
  (* park *)
  rule open pending_open park "state = open" "create broadcast pending confirmation" [];
  rule open pending_accepted park "state = open" "accept broadcast pending confirmation" [];
  rule open pending_cancelled park "state = open" "cancel broadcast pending confirmation" [];
  rule accepted pending_accepted park "state = accepted" "accept broadcast pending confirmation" [];
  rule accepted pending_filled park "state = accepted" "fill broadcast pending confirmation" [];
  rule accepted pending_cancelled park "state = accepted" "cancel broadcast pending confirmation" [];
  rule filled pending_filled park "state = filled" "fill broadcast pending confirmation" [];
  rule cancelled pending_cancelled park "state = cancelled" "cancel broadcast pending confirmation" [];
  (* confirm *)
  rule pending_open open confirm "state = pending_open" "create confirmed on-chain" [];
  rule pending_accepted accepted confirm "state = pending_accepted" "accept confirmed on-chain" [];
  rule pending_filled filled confirm "state = pending_filled" "fill confirmed on-chain" [];
  rule pending_cancelled cancelled confirm "state = pending_cancelled" "cancel confirmed on-chain" [];
  (* compensation *)
  rule slashed filled compensation "state = slashed AND override" "slash cancelled: fill_landed"
    [rollback_penalty];
  rule slashed expired compensation "state = slashed AND override" "slash cancelled" [rollback_penalty]
].

Definition rule_key (from to : IntentState) : string := state_name from +:+ "->" +:+ state_name to.

(** [new Map(TRANSITION_TABLE.map(...))] *)
Definition RULE_INDEX : jsmap TransitionRule :=
  foldl (fun m r => set (rule_key (r_from r) (r_to r)) r m) [] TRANSITION_TABLE.

Definition findRule (from to : IntentState) : option TransitionRule := get (rule_key from to) RULE_INDEX.

Definition requiresOverride (r : TransitionRule) : bool := bool_decide (r_kind r = compensation).

Definition TERMINAL_STATES : list IntentState := [filled; cancelled; expired; slashed].

Definition isTerminalState (s : IntentState) : bool := bool_decide (s ∈ TERMINAL_STATES).

Definition TRANSITIONS (from : IntentState) : list IntentState :=
  r_to <$> filter (fun r => bool_decide (r_from r = from) && negb (requiresOverride r)
                            && negb (isTerminalState (r_from r))) TRANSITION_TABLE.

Definition canTransition (from to : IntentState) : bool := bool_decide (to ∈ TRANSITIONS from).

(** [assertTransition] throws an [Error] carrying the pair. *)
Definition assertTransition (from to : IntentState) : outcome (IntentState * IntentState) unit :=
  guard_err (canTransition from to) (from, to).

(** * Planning a transition *)

Record TransitionContext := {
  tc_actor : string;
  tc_reason : option string;
  tc_metadata : option (jsmap MetaValue);
  tc_override : option bool;
  tc_at : option Z;
}.

Record TransitionPlan := {
  p_intentId : string;
  p_from : IntentState;
  p_to : IntentState;
  p_rule : TransitionRule;
  p_audit : IntentAuditEntry;
}.

Inductive IllegalTransition :=
  | NoSuchEdge (intentId : string) (from to : IntentState)
  | OverrideRequired (intentId : string) (from to : IntentState).

(** [clock] is [new Date()]. *)
Definition transition (clock : Z) (id : string) (from to : IntentState) (ctx : TransitionContext)
    : outcome IllegalTransition TransitionPlan :=
  match findRule from to with
  | None => Err (NoSuchEdge id from to)
  | Some found =>
      if requiresOverride found && negb (bool_decide (tc_override ctx = Some true))
      then Err (OverrideRequired id from to)
      else Ok {|
        p_intentId := id; p_from := from; p_to := to; p_rule := found;
        p_audit := {|
          ae_timestamp := default clock (tc_at ctx);
          ae_toState := to;
          ae_actor := tc_actor ctx;
          ae_reason := default (r_defaultReason found) (tc_reason ctx);
          ae_metadata := Some (set "fromState" (MStr (state_name from)) (default [] (tc_metadata ctx)))
        |}
      |}
  end.

(** * The database side *)

Definition DB_ALLOWED_TRANSITIONS : list TransitionRule :=
  filter (fun r => negb (requiresOverride r)) TRANSITION_TABLE.

Definition state_order (s : IntentState) : Z :=
  match list_find (fun x => x = s) INTENT_STATES with Some (i, _) => Z.of_nat i | None => -1 end.

Definition SQL_SEED_BEGIN : string :=
  "-- BEGIN GENERATED: intent_state_transitions (src/intents/state-machine.ts)".
Definition SQL_SEED_END : string := "-- END GENERATED: intent_state_transitions".

(** The double quote character. *)
Definition dq : string := String (Ascii.ascii_of_nat 34) EmptyString.
Definition nl : string := String (Ascii.ascii_of_nat 10) EmptyString.

Definition sql_row (r : TransitionRule) : string :=
  "  ('" +:+ state_name (r_from r) +:+ "', '" +:+ state_name (r_to r) +:+ "', '" +:+ kind_name (r_kind r) +:+ "')".

(** [||] of two comparator results: the second when the first is 0. *)
Definition rule_cmp (a b : TransitionRule) : Z :=
  let c := state_order (r_from a) - state_order (r_from b) in
  if c =? 0 then state_order (r_to a) - state_order (r_to b) else c.

Definition insert_header : string :=
  "INSERT INTO " +:+ dq +:+ "intent_state_transitions" +:+ dq +:+ " (" +:+ dq +:+ "from_state" +:+ dq +:+ ", "
  +:+ dq +:+ "to_state" +:+ dq +:+ ", " +:+ dq +:+ "kind" +:+ dq +:+ ") VALUES".

Definition renderAllowedPairsSql : string :=
  String.concat nl [
    SQL_SEED_BEGIN;
    insert_header;
    String.concat ("," +:+ nl) (sql_row <$> sort_by rule_cmp DB_ALLOWED_TRANSITIONS);
    "ON CONFLICT DO NOTHING;";
    SQL_SEED_END ].

(** The rows of the generated block of [migration.sql]. *)
Definition migration_seed : list (string * string * string) := [
  ("open", "accepted", "lifecycle");
  ("open", "cancelled", "lifecycle");
  ("open", "expired", "lifecycle");
  ("open", "pending_open", "park");
  ("open", "pending_accepted", "park");
  ("open", "pending_cancelled", "park");
  ("accepted", "filled", "lifecycle");
  ("accepted", "slashed", "lifecycle");
  ("accepted", "pending_accepted", "park");
  ("accepted", "pending_filled", "park");
  ("accepted", "pending_cancelled", "park");
  ("filled", "pending_filled", "park");
  ("cancelled", "pending_cancelled", "park");
  ("pending_open", "open", "confirm");
  ("pending_accepted", "accepted", "confirm");
  ("pending_filled", "filled", "confirm");
  ("pending_cancelled", "cancelled", "confirm") ]%string.

(** The text of that block. *)
Definition migration_seed_text : string :=
  String.concat nl [
    SQL_SEED_BEGIN; insert_header;
    String.concat ("," +:+ nl)
      ((fun '(f, t, k) => "  ('" +:+ f +:+ "', '" +:+ t +:+ "', '" +:+ k +:+ "')") <$> migration_seed);
    "ON CONFLICT DO NOTHING;"; SQL_SEED_END ].

(** The trigger [intents_enforce_state_transition]: fires only when the state
    changes; [override] is the transaction-local setting. *)
Definition trigger_allows (override : bool) (old new : IntentState) : bool :=
  if decide (old = new) then true
  else if override then true
  else existsb (fun '(f, t, _) => bool_decide (f = state_name old) && bool_decide (t = state_name new)) migration_seed.

(** * The abstract lifecycle of the TLA+ model *)

(** The six states of the model; a pending marker counts as the state it
    confirms to. *)
Definition settled (s : IntentState) : IntentState :=
  match s with
  | pending_open => open | pending_accepted => accepted
  | pending_filled => filled | pending_cancelled => cancelled
  | s => s
  end.

(** Next-state relation of [IntentLifecycle.tla] on states:
    Accept, Cancel, SweeperExpire, ConfirmFill, SweeperSlash. *)
Inductive tla_step : IntentState -> IntentState -> Prop :=
  | tla_accept : tla_step open accepted
  | tla_cancel : tla_step open cancelled
  | tla_expire : tla_step open expired
  | tla_confirm_fill : tla_step accepted filled
  | tla_slash : tla_step accepted slashed.

(** One planned change of state by the application, without the override. *)
Definition app_step (from to : IntentState) : Prop :=
  exists clock id ctx plan, tc_override ctx <> Some true /\ transition clock id from to ctx = Ok plan.

(** * Lemmas *)

Lemma transition_ok clock id from to ctx plan :
  transition clock id from to ctx = Ok plan ->
  exists r, findRule from to = Some r /\ p_rule plan = r /\ p_from plan = from /\ p_to plan = to /\
    p_intentId plan = id /\ (r_kind r = compensation -> tc_override ctx = Some true).
Proof.
  unfold transition, requiresOverride. destruct (findRule from to) as [r|]; [|done].
  intros H. exists r. split_matches H; repeat split; intros; try done; destruct_or?; bool_norm; done.
Qed.

Lemma findRule_edge from to r : findRule from to = Some r -> r_from r = from /\ r_to r = to.
Proof. destruct from, to; intros H; vm_compute in H; inversion H; done. Qed.

(** Decidable form of [app_step]. *)
Definition app_stepb (from to : IntentState) : bool :=
  match findRule from to with Some r => negb (requiresOverride r) | None => false end.

Lemma app_step_spec from to : app_step from to <-> app_stepb from to = true.
Proof.
  unfold app_step, app_stepb. split.
  - intros (clock & id & ctx & plan & Hno & H). unfold transition in H.
    destruct (findRule from to) as [r|]; [|done]. destruct (requiresOverride r); [|done].
    simpl in H. case_bool_decide; done.
  - intros H. exists 0, ""%string, {| tc_actor := ""; tc_reason := None; tc_metadata := None; tc_override := None; tc_at := None |}.
    unfold transition. destruct (findRule from to) as [r|]; [|done].
    apply negb_true_iff in H. rewrite H. simpl. eexists. done.
Qed.

Lemma app_step_terminal from to :
  app_step from to -> isTerminalState (settled from) = true -> settled to = settled from.
Proof. rewrite app_step_spec. destruct from, to; vm_compute; done. Qed.

(** * Properties *)

Definition plain_ctx (override : option bool) : TransitionContext :=
  {| tc_actor := "system"; tc_reason := None; tc_metadata := None; tc_override := override; tc_at := None |}.

(** [transition] plans exactly the edges of the table: it succeeds iff some
    row has that pair and, for a compensation row, the caller passed
    [override = true]; the plan carries that row and an audit entry that
    records the target state, the actor, the caller's reason or else the row's
    default one, and the state left. *)
Theorem transition_exact clock id from to ctx :
  match transition clock id from to ctx with
  | Ok plan =>
      p_rule plan ∈ TRANSITION_TABLE /\ r_from (p_rule plan) = from /\ r_to (p_rule plan) = to /\
      (r_kind (p_rule plan) = compensation -> tc_override ctx = Some true) /\
      p_intentId plan = id /\ p_from plan = from /\ p_to plan = to /\
      ae_toState (p_audit plan) = to /\ ae_actor (p_audit plan) = tc_actor ctx /\
      ae_reason (p_audit plan) = default (r_defaultReason (p_rule plan)) (tc_reason ctx) /\
      (ae_metadata (p_audit plan) ≫= get "fromState") = Some (MStr (state_name from))
  | Err (NoSuchEdge _ _ _) => forall r, r ∈ TRANSITION_TABLE -> ~ (r_from r = from /\ r_to r = to)
  | Err (OverrideRequired _ _ _) =>
      tc_override ctx <> Some true /\
      exists r, r ∈ TRANSITION_TABLE /\ r_from r = from /\ r_to r = to /\ r_kind r = compensation
  end.
Proof.
  assert (Hin : forall r, findRule from to = Some r -> r ∈ TRANSITION_TABLE).
  { intros r H. destruct from, to; vm_compute in H; inversion H; subst; unfold TRANSITION_TABLE; repeat (left || right). }
  assert (Hnone : findRule from to = None -> forall r, r ∈ TRANSITION_TABLE -> ~ (r_from r = from /\ r_to r = to)).
  { intros H r Hr [Hf Ht].
    assert (Hall : Forall (fun r => is_Some (findRule (r_from r) (r_to r))) TRANSITION_TABLE)
      by (repeat constructor; eexists; reflexivity).
    rewrite Forall_forall in Hall. destruct (Hall r Hr). congruence. }
  unfold transition. destruct (findRule from to) as [r|] eqn:E; [|by apply Hnone].
  destruct (findRule_edge _ _ _ E). unfold requiresOverride.
  destruct (bool_decide (r_kind r = compensation)) eqn:Ek, (bool_decide (tc_override ctx = Some true)) eqn:Eo;
    bool_norm; simpl; try (exists r || idtac); repeat split; auto; try done; try (apply get_set_eq);
    exists r; auto.
Qed.

(** The application and the database agree: without the override,
    [transition] plans a change of state exactly when the Postgres trigger
    (seeded by the migration) lets the corresponding UPDATE through, and every
    plan at all (override included) is let through when the transaction sets
    the override exactly for compensation rows. *)
Theorem planner_agrees_with_trigger clock id from to override
    (Hne : from <> to) :
  is_ok (transition clock id from to (plain_ctx override)) =
  (trigger_allows false from to || (bool_decide (override = Some true) &&
     match findRule from to with Some r => requiresOverride r | None => false end)).
Proof.
  unfold transition. simpl.
  destruct from, to, override as [[]|]; try done; vm_compute; reflexivity.
Qed.

Lemma planner_agrees_with_trigger_witness :
  slashed <> filled /\
  is_ok (transition 0 "i" slashed filled (plain_ctx (Some true))) =
  (trigger_allows false slashed filled || (bool_decide (Some true = Some true) &&
     match findRule slashed filled with Some r => requiresOverride r | None => false end)).
Proof. split; [done|]. apply planner_agrees_with_trigger. done. Defined.

(** No drift: the SQL the application renders from its table is, character
    for character, the seed block of the migration, and the row set it seeds is
    the table without its compensation rows. *)
Theorem sql_seed_in_sync :
  renderAllowedPairsSql = migration_seed_text /\
  (forall from to, (exists k, (state_name from, state_name to, k) ∈ migration_seed) <->
     exists r, r ∈ TRANSITION_TABLE /\ r_from r = from /\ r_to r = to /\ r_kind r <> compensation).
Proof.
  split; [vm_compute; reflexivity|]. intros from to.
  transitivity (app_stepb from to = true).
  - assert (Hd : existsb (fun '(f, t, _) => bool_decide (f = state_name from) && bool_decide (t = state_name to)) migration_seed
                 = app_stepb from to) by (destruct from, to; vm_compute; reflexivity).
    rewrite <- Hd, existsb_exists. split.
    + intros [k Hk]. exists (state_name from, state_name to, k). split; [by apply list_elem_of_In|].
      by rewrite !bool_decide_eq_true_2.
    + intros ([[f t] k] & Hin & Hb). bool_norm. subst. exists k. by apply list_elem_of_In.
  - split.
    + intros H. unfold app_stepb in H. destruct (findRule from to) as [r|] eqn:E; [|done].
      destruct (findRule_edge _ _ _ E). exists r. unfold requiresOverride in H. bool_norm.
      split; [|done]. destruct from, to; vm_compute in E; inversion E; subst; unfold TRANSITION_TABLE; repeat (left || right).
    + intros (r & Hr & <- & <- & Hk).
      assert (Hall : Forall (fun r => r_kind r <> compensation -> app_stepb (r_from r) (r_to r) = true) TRANSITION_TABLE)
        by (repeat constructor; intros; done).
      rewrite Forall_forall in Hall. by apply Hall.
Qed.


(** Outcomes are final: along any sequence of changes the application
    plans without the override, an intent that has been filled, cancelled,
    expired or slashed keeps that outcome (it may only sit in the marker that
    confirms to it); in particular a filled intent is never slashed. *)
Theorem outcome_is_final s s'
    (Hpath : rtc app_step s s') (Hterm : isTerminalState (settled s) = true) :
  settled s' = settled s.
Proof.
  induction Hpath as [|s1 s2 s3 Hstep Hpath IH]; [done|].
  pose proof (app_step_terminal _ _ Hstep Hterm) as E.
  rewrite IH; [done|]. by rewrite E.
Qed.

Lemma outcome_is_final_witness :
  rtc app_step filled pending_filled /\ settled pending_filled = settled filled.
Proof.
  assert (H : rtc app_step filled pending_filled) by (apply rtc_once, app_step_spec; reflexivity).
  split; [exact H|]. apply (outcome_is_final filled pending_filled H). reflexivity.
Defined.
