(* ===== verification/IntentsRepo.v ===== *)
(** The intents repository: [src/intents/intents.repository.ts].

    [InMemoryIntentsRepository] as functions on its two maps, the conditional
    writes as one shared check-and-write ([mutate]), and the contract the
    service relies on as a class ([IntentsRepository]) with the in-memory
    adapter as its instance. *)
From S2P Require Import Prelude JsMap BigInt IntentTypes StateMachine.
Local Open Scope Z_scope.

(** * Results *)

Record VersionConflict := { vc_intentId : string; vc_expected : Z; vc_actual : Z }.

(** [Intent | null | VersionConflict] *)
Inductive MutationResult :=
  | Written (i : Intent)
  | NotWritten
  | Conflict (c : VersionConflict).

(** [written(result)] of the service: a conflict counts as no match. *)
Definition written (r : MutationResult) : option Intent :=
  match r with Written i => Some i | _ => None end.

(** * State *)

Record InMemoryRepo := {
  store : jsmap Intent;
  idempotencyKeys : jsmap string;
}.

Definition with_store (r : InMemoryRepo) (s : jsmap Intent) : InMemoryRepo :=
  {| store := s; idempotencyKeys := idempotencyKeys r |}.

Definition empty_repo : InMemoryRepo := {| store := []; idempotencyKeys := [] |}.

(** * Reads *)

Definition findById (id : string) (r : InMemoryRepo) : option Intent := get id (store r).

Definition findManyByIds (ids : list string) (r : InMemoryRepo) : list Intent :=
  omap (fun id => get id (store r)) (uniq ids).

Definition findAll (r : InMemoryRepo) : list Intent :=
  sort_by (fun a b => createdAt b - createdAt a) (values (store r)).

Definition findByState (s : IntentState) (r : InMemoryRepo) : list Intent :=
  filter (fun i => state i = s) (findAll r).

Definition findByUser (u : string) (r : InMemoryRepo) : list Intent :=
  filter (fun i => toLowerCase (user i) = toLowerCase u) (findAll r).

Definition countAcceptedBySolver (s : string) (r : InMemoryRepo) : Z :=
  Z.of_nat (length (filter (fun i => state i = accepted /\ solver i = Some s) (values (store r)))).

Definition countActiveByUser (u : string) (r : InMemoryRepo) : Z :=
  Z.of_nat (length (filter (fun i => (state i = open \/ state i = accepted) /\
                                     toLowerCase (user i) = toLowerCase u) (values (store r)))).

(** * Search *)

Record IntentSearchQuery := {
  sq_state : option IntentState;
  sq_user : option string;
  sq_chain : option SupportedChain;
  sq_minAmountUsd : option Z;
  sq_maxAmountUsd : option Z;
  sq_createdFrom : option Z;
  sq_createdTo : option Z;
  sq_srcToken : option string;
  sq_dstToken : option string;
  sq_solver : option string;
  sq_sort : option string;
  sq_limit : option Z;
  sq_offset : option Z;
}.

(** One optional filter: absent means no restriction. *)
Definition filter_opt {A} (o : option A) (p : A -> Intent -> bool) (l : list Intent) : list Intent :=
  match o with None => l | Some a => filter (fun i => p a i) l end.

Definition search_cmp (dimension : string) (dir : Z) (a b : Intent) : Z :=
  if bool_decide (dimension = "deadline"%string) then (deadline a - deadline b) * dir
  else if bool_decide (dimension = "usd"%string)
       then (default 0 (usdValueAtCreate a) - default 0 (usdValueAtCreate b)) * dir
       else (createdAt a - createdAt b) * dir.

Definition search_filtered (q : IntentSearchQuery) (r : InMemoryRepo) : list Intent :=
  let l := findAll r in
  let l := filter_opt (sq_state q) (fun s i => bool_decide (state i = s)) l in
  let l := filter_opt (sq_user q) (fun u i => bool_decide (toLowerCase (user i) = toLowerCase u)) l in
  let l := filter_opt (sq_chain q) (fun c i => bool_decide (srcChain i = c)) l in
  let l := filter_opt (sq_solver q) (fun s i =>
             match solver i with Some x => bool_decide (toLowerCase x = toLowerCase s) | None => false end) l in
  let l := filter_opt (sq_minAmountUsd q) (fun m i =>
             match usdValueAtCreate i with Some x => m <=? x | None => false end) l in
  let l := filter_opt (sq_maxAmountUsd q) (fun m i =>
             match usdValueAtCreate i with Some x => x <=? m | None => false end) l in
  let l := filter_opt (sq_createdFrom q) (fun t i => t <=? createdAt i) l in
  let l := filter_opt (sq_createdTo q) (fun t i => createdAt i <=? t) l in
  let l := filter_opt (sq_srcToken q) (fun t i => bool_decide (toLowerCase (tok_symbol (srcToken i)) = toLowerCase t)) l in
  filter_opt (sq_dstToken q) (fun t i => bool_decide (toLowerCase (st_symbol (dstToken i)) = toLowerCase t)) l.

Definition search (q : IntentSearchQuery) (r : InMemoryRepo) : list Intent * Z :=
  let parts := split_on (Ascii.ascii_of_nat 58) (default "created:desc"%string (sq_sort q)) in
  let dimension := default EmptyString (parts !! 0%nat) in
  let dir := if bool_decide (parts !! 1%nat = Some "asc"%string) then 1 else -1 in
  let results := sort_by (search_cmp dimension dir) (search_filtered q r) in
  let offset := default 0 (sq_offset q) in
  let limit := default 20 (sq_limit q) in
  (slice offset (offset + limit) results, Z.of_nat (length results)).

(** * Writes *)

(** The shared check-and-write. *)
Definition mutate (id : string) (expectedVersion : option Z) (guard : Intent -> bool)
    (apply : Intent -> Intent) (r : InMemoryRepo) : MutationResult * InMemoryRepo :=
  match get id (store r) with
  | None => (NotWritten, r)
  | Some existing =>
      let existingVersion := default 0 (version existing) in
      if match expectedVersion with Some v => negb (existingVersion =? v) | None => false end
      then (Conflict {| vc_intentId := id; vc_expected := default 0 expectedVersion;
                        vc_actual := existingVersion |}, r)
      else if negb (guard existing) then (NotWritten, r)
      else
        let updated := stamp id (existingVersion + 1) (apply existing) in
        (Written updated, with_store r (set id updated (store r)))
  end.

Definition save (i : Intent) (r : InMemoryRepo) : InMemoryRepo :=
  with_store r (set (intentId i) i (store r)).

(** Drops the key when it is stale, as the source does. *)
Definition findByIdempotencyKey (key : string) (minCreatedAt : Z) (r : InMemoryRepo)
    : option Intent * InMemoryRepo :=
  let id := get key (idempotencyKeys r) in
  if negb (truthy_str id) then (None, r)
  else
    let drop_key := {| store := store r; idempotencyKeys := del key (idempotencyKeys r) |} in
    match get (default EmptyString id) (store r) with
    | None => (None, drop_key)
    | Some i => if createdAt i <? minCreatedAt then (None, drop_key) else (Some i, r)
    end.

Record IdempotentCreateResult := { icr_intent : Intent; icr_created : bool }.

Definition createIdempotent (i : Intent) (key : string) (minCreatedAt : Z) (r : InMemoryRepo)
    : IdempotentCreateResult * InMemoryRepo :=
  match findByIdempotencyKey key minCreatedAt r with
  | (Some existing, r1) => ({| icr_intent := existing; icr_created := false |}, r1)
  | (None, r1) =>
      ({| icr_intent := i; icr_created := true |},
       {| store := set (intentId i) i (store r1);
          idempotencyKeys := set key (intentId i) (idempotencyKeys r1) |})
  end.

Definition update (id : string) (patch : IntentPatch) (expectedVersion : option Z) :=
  mutate id expectedVersion (fun _ => true) (apply_patch patch).

(** No version check and no version increment. *)
Definition amendIfOpen (id : string) (minDst : string) (newDeadline now : Z) (r : InMemoryRepo)
    : option Intent * InMemoryRepo :=
  match get id (store r) with
  | None => (None, r)
  | Some existing =>
      if negb (bool_decide (state existing = open)) || (deadline existing <=? now) || (newDeadline <=? now)
      then (None, r)
      else
        let updated := apply_patch [P_minDstAmount minDst; P_deadline newDeadline] existing in
        (Some updated, with_store r (set id updated (store r)))
  end.

Definition delete (id : string) (r : InMemoryRepo) : bool * InMemoryRepo :=
  (has id (store r), with_store r (del id (store r))).

Definition acceptIfOpen (id sol : string) (newDeadline now : Z) (expectedVersion : option Z) :=
  mutate id expectedVersion
    (fun i => bool_decide (state i = open) && (now <? deadline i))
    (apply_patch [P_state accepted; P_solver (Some sol); P_deadline newDeadline]).

Definition fillIfAccepted (id sol : string) (patch : IntentPatch) (now : Z) (expectedVersion : option Z) :=
  mutate id expectedVersion
    (fun i => bool_decide (state i = accepted) && bool_decide (solver i = Some sol) && (now <? deadline i))
    (fun i => apply_patch [P_state filled] (apply_patch patch i)).

Definition extendDeadlineIfAccepted (id : string) (newDeadline : Z) (expectedVersion : option Z) :=
  mutate id expectedVersion
    (fun i => bool_decide (state i = accepted) && (deadline i <? newDeadline))
    (apply_patch [P_deadline newDeadline]).

Definition cancelIfOpen (id : string) (expectedVersion : option Z) :=
  mutate id expectedVersion (fun i => bool_decide (state i = open)) (apply_patch [P_state cancelled]).

Definition expireIfOpen (id : string) (expectedVersion : option Z) :=
  mutate id expectedVersion (fun i => bool_decide (state i = open)) (apply_patch [P_state expired]).

Definition slashIfAccepted (id : string) (at_ : Z) (reason : string) (expectedVersion : option Z) :=
  mutate id expectedVersion (fun i => bool_decide (state i = accepted))
    (apply_patch [P_slashedAt (Some at_); P_slashReason (Some reason); P_state slashed]).

Definition transitionIf (id : string) (from : IntentState) (patch : IntentPatch) (to : IntentState) :=
  mutate id None (fun i => bool_decide (state i = from)) (apply_patch (patch ++ [P_state to])).

(** * The contract *)

(** What a conditional write answers, from the record it finds: a version
    mismatch is reported before the state guard is consulted. *)
Definition verdict (id : string) (expectedVersion : option Z) (guard : Intent -> bool)
    (apply : Intent -> Intent) (found : option Intent) : MutationResult :=
  match found with
  | None => NotWritten
  | Some i =>
      let v := default 0 (version i) in
      match expectedVersion with
      | Some e => if v =? e then (if guard i then Written (stamp id (v + 1) (apply i)) else NotWritten)
                  else Conflict {| vc_intentId := id; vc_expected := e; vc_actual := v |}
      | None => if guard i then Written (stamp id (v + 1) (apply i)) else NotWritten
      end
  end.

(** A conditional write answers the verdict and changes only what it reports. *)
Definition cond_write {R} (find : string -> R -> option Intent) (id : string) (expectedVersion : option Z)
    (guard : Intent -> bool) (apply : Intent -> Intent) (r : R) (out : MutationResult * R) : Prop :=
  out.1 = verdict id expectedVersion guard apply (find id r) /\
  forall k, find k out.2 =
    match written out.1 with Some i => if decide (k = id) then Some i else find k r | None => find k r end.

(** An amendment changes the terms of an open intent, unless it is too late. *)
Definition amend_write {R} (find : string -> R -> option Intent) (id md : string) (d now : Z) (r : R)
    (out : option Intent * R) : Prop :=
  out.1 = match find id r with
          | Some i => if bool_decide (state i = open) && (now <? deadline i) && (now <? d)
                      then Some (apply_patch [P_minDstAmount md; P_deadline d] i) else None
          | None => None
          end /\
  forall k, find k out.2 =
    match out.1 with Some i => if decide (k = id) then Some i else find k r | None => find k r end.

(** [IIntentsRepository], the part the service and the sweeper use. *)
Class IntentsRepository (R : Type) := {
  repo_find : string -> R -> option Intent;
  repo_list : R -> list Intent;
  repo_save : Intent -> R -> R;
  repo_accept : string -> string -> Z -> Z -> option Z -> R -> MutationResult * R;
  repo_fill : string -> string -> IntentPatch -> Z -> option Z -> R -> MutationResult * R;
  repo_extend : string -> Z -> option Z -> R -> MutationResult * R;
  repo_cancel : string -> option Z -> R -> MutationResult * R;
  repo_expire : string -> option Z -> R -> MutationResult * R;
  repo_slash : string -> Z -> string -> option Z -> R -> MutationResult * R;
  repo_transition : string -> IntentState -> IntentPatch -> IntentState -> R -> MutationResult * R;
  repo_update : string -> IntentPatch -> option Z -> R -> MutationResult * R;
  repo_amend : string -> string -> Z -> Z -> R -> option Intent * R;
  repo_delete : string -> R -> bool * R;
  repo_find_save i r k : repo_find k (repo_save i r) = if decide (k = intentId i) then Some i else repo_find k r;
  repo_accept_spec id sol d now ev r :
    cond_write repo_find id ev (fun i => bool_decide (state i = open) && (now <? deadline i))
      (apply_patch [P_state accepted; P_solver (Some sol); P_deadline d]) r (repo_accept id sol d now ev r);
  repo_fill_spec id sol p now ev r :
    cond_write repo_find id ev
      (fun i => bool_decide (state i = accepted) && bool_decide (solver i = Some sol) && (now <? deadline i))
      (fun i => apply_patch [P_state filled] (apply_patch p i)) r (repo_fill id sol p now ev r);
  repo_extend_spec id d ev r :
    cond_write repo_find id ev (fun i => bool_decide (state i = accepted) && (deadline i <? d))
      (apply_patch [P_deadline d]) r (repo_extend id d ev r);
  repo_cancel_spec id ev r :
    cond_write repo_find id ev (fun i => bool_decide (state i = open)) (apply_patch [P_state cancelled]) r
      (repo_cancel id ev r);
  repo_expire_spec id ev r :
    cond_write repo_find id ev (fun i => bool_decide (state i = open)) (apply_patch [P_state expired]) r
      (repo_expire id ev r);
  repo_slash_spec id t reason ev r :
    cond_write repo_find id ev (fun i => bool_decide (state i = accepted))
      (apply_patch [P_slashedAt (Some t); P_slashReason (Some reason); P_state slashed]) r
      (repo_slash id t reason ev r);
  repo_transition_spec id from p to r :
    cond_write repo_find id None (fun i => bool_decide (state i = from)) (apply_patch (p ++ [P_state to])) r
      (repo_transition id from p to r);
  repo_update_spec id p ev r :
    cond_write repo_find id ev (fun _ => true) (apply_patch p) r (repo_update id p ev r);
  repo_amend_spec id md d now r : amend_write repo_find id md d now r (repo_amend id md d now r);
  repo_delete_spec id r k : k <> id -> repo_find k (repo_delete id r).2 = repo_find k r;
}.

(** ** The in-memory adapter meets it *)

Lemma mutate_cond_write id ev guard apply r :
  cond_write findById id ev guard apply r (mutate id ev guard apply r).
Proof.
  unfold cond_write, mutate, verdict, findById.
  destruct (get id (store r)) as [i|] eqn:E; [|done].
  assert (Hset : forall u k, get k (store (with_store r (set id u (store r))))
    = if decide (k = id) then Some u else get k (store r)).
  { intros u k. simpl. rewrite get_set. repeat case_decide; congruence. }
  destruct ev as [e|]; simpl.
  - destruct (default 0 (version i) =? e); simpl; [|done]. destruct (guard i); simpl; split; done || apply Hset.
  - destruct (guard i); simpl; split; done || apply Hset.
Qed.

Lemma amendIfOpen_amend_write id md d now r : amend_write findById id md d now r (amendIfOpen id md d now r).
Proof.
  unfold amend_write, amendIfOpen, findById. destruct (get id (store r)) as [i|]; [|done].
  rewrite (Z.ltb_antisym (deadline i) now), (Z.ltb_antisym d now).
  destruct (bool_decide (state i = open)), (deadline i <=? now), (d <=? now); simpl; try done.
  split; [done|]. intros k. rewrite get_set. repeat case_decide; congruence.
Qed.

Lemma mutate_unchanged id ev guard apply r res r' :
  mutate id ev guard apply r = (res, r') -> written res = None -> r' = r.
Proof. unfold mutate. intros H Hn. split_matches H; congruence. Qed.

#[export] Program Instance in_memory_repository : IntentsRepository InMemoryRepo := {|
  repo_find := findById;
  repo_list := findAll;
  repo_save := save;
  repo_accept := acceptIfOpen;
  repo_fill := fillIfAccepted;
  repo_extend := extendDeadlineIfAccepted;
  repo_cancel := cancelIfOpen;
  repo_expire := expireIfOpen;
  repo_slash := slashIfAccepted;
  repo_transition := transitionIf;
  repo_update := update;
  repo_amend := amendIfOpen;
  repo_delete := delete;
|}.
Next Obligation. intros i r k. unfold findById, save. simpl. rewrite get_set. repeat case_decide; congruence. Qed.
Solve All Obligations with
  (intros; first [apply mutate_cond_write | apply amendIfOpen_amend_write | by apply get_del_ne; congruence]).

(** * Versioned mutations as data *)

Inductive RepoOp :=
  | OpUpdate (id : string) (patch : IntentPatch) (ev : option Z)
  | OpAccept (id sol : string) (newDeadline now : Z) (ev : option Z)
  | OpFill (id sol : string) (patch : IntentPatch) (now : Z) (ev : option Z)
  | OpExtend (id : string) (newDeadline : Z) (ev : option Z)
  | OpCancel (id : string) (ev : option Z)
  | OpExpire (id : string) (ev : option Z)
  | OpSlash (id : string) (at_ : Z) (reason : string) (ev : option Z)
  | OpTransition (id : string) (from : IntentState) (patch : IntentPatch) (to : IntentState).

Definition run_op (op : RepoOp) : InMemoryRepo -> MutationResult * InMemoryRepo :=
  match op with
  | OpUpdate id p ev => update id p ev
  | OpAccept id s d now ev => acceptIfOpen id s d now ev
  | OpFill id s p now ev => fillIfAccepted id s p now ev
  | OpExtend id d ev => extendDeadlineIfAccepted id d ev
  | OpCancel id ev => cancelIfOpen id ev
  | OpExpire id ev => expireIfOpen id ev
  | OpSlash id t reason ev => slashIfAccepted id t reason ev
  | OpTransition id from p to => transitionIf id from p to
  end.

Definition op_id (op : RepoOp) : string :=
  match op with
  | OpUpdate id _ _ | OpAccept id _ _ _ _ | OpFill id _ _ _ _ | OpExtend id _ _ | OpCancel id _
  | OpExpire id _ | OpSlash id _ _ _ | OpTransition id _ _ _ => id
  end.

Definition op_expected (op : RepoOp) : option Z :=
  match op with
  | OpUpdate _ _ ev | OpAccept _ _ _ _ ev | OpFill _ _ _ _ ev | OpExtend _ _ ev | OpCancel _ ev
  | OpExpire _ ev | OpSlash _ _ _ ev => ev
  | OpTransition _ _ _ _ => None
  end.

(** The operations with a built-in state guard of the lifecycle. *)
Definition op_guarded (op : RepoOp) : bool :=
  match op with OpUpdate _ _ _ | OpTransition _ _ _ _ => false | _ => true end.

Definition op_guard (op : RepoOp) : Intent -> bool :=
  match op with
  | OpUpdate _ _ _ => fun _ => true
  | OpAccept _ _ _ now _ => fun i => bool_decide (state i = open) && (now <? deadline i)
  | OpFill _ s _ now _ => fun i => bool_decide (state i = accepted) && bool_decide (solver i = Some s) && (now <? deadline i)
  | OpExtend _ d _ => fun i => bool_decide (state i = accepted) && (deadline i <? d)
  | OpCancel _ _ | OpExpire _ _ => fun i => bool_decide (state i = open)
  | OpSlash _ _ _ _ => fun i => bool_decide (state i = accepted)
  | OpTransition _ from _ _ => fun i => bool_decide (state i = from)
  end.

Definition op_apply (op : RepoOp) : Intent -> Intent :=
  match op with
  | OpUpdate _ p _ => apply_patch p
  | OpAccept _ s d _ _ => apply_patch [P_state accepted; P_solver (Some s); P_deadline d]
  | OpFill _ _ p _ _ => fun i => apply_patch [P_state filled] (apply_patch p i)
  | OpExtend _ d _ => apply_patch [P_deadline d]
  | OpCancel _ _ => apply_patch [P_state cancelled]
  | OpExpire _ _ => apply_patch [P_state expired]
  | OpSlash _ t reason _ => apply_patch [P_slashedAt (Some t); P_slashReason (Some reason); P_state slashed]
  | OpTransition _ _ p to => apply_patch (p ++ [P_state to])
  end.

Lemma run_op_mutate op r : run_op op r = mutate (op_id op) (op_expected op) (op_guard op) (op_apply op) r.
Proof. by destruct op. Qed.

Lemma run_op_spec op r res r' :
  run_op op r = (res, r') ->
  res = verdict (op_id op) (op_expected op) (op_guard op) (op_apply op) (findById (op_id op) r) /\
  (forall k, findById k r' = match written res with
     Some i => if decide (k = op_id op) then Some i else findById k r | None => findById k r end) /\
  (written res = None -> r' = r).
Proof.
  rewrite run_op_mutate. intros H. pose proof (mutate_cond_write (op_id op) (op_expected op) (op_guard op) (op_apply op) r) as [H1 H2].
  rewrite H in *. split; [done|]. split; [done|]. by eapply mutate_unchanged.
Qed.

Lemma op_apply_frame op i :
  createdAt (op_apply op i) = createdAt i /\ version (op_apply op i) = version i.
Proof.
  destruct op; simpl;
    repeat match goal with |- context [apply_patch ?p ?i] =>
      destruct (apply_patch_frame p i) as (_ & ? & ?); generalize dependent (apply_patch p i); intros end;
    split; congruence || done.
Qed.

Lemma verdict_written id ev guard apply found i :
  verdict id ev guard apply found = Written i ->
  exists old, found = Some old /\ guard old = true /\ i = stamp id (default 0 (version old) + 1) (apply old) /\
    (forall e, ev = Some e -> default 0 (version old) = e).
Proof.
  unfold verdict. intros H. destruct found as [old|]; [|done]. exists old.
  destruct ev as [e|]; split_matches H; repeat split; congruence.
Qed.

(** * Repository invariant *)

(** Every record is stored under its own id, keys are unique and versions are
    not negative. *)
Definition repo_wf (r : InMemoryRepo) : Prop :=
  wf (store r) /\
  forall k i, get k (store r) = Some i -> intentId i = k /\ 0 <= default 0 (version i).

Lemma with_store_wf r id u :
  repo_wf r -> intentId u = id -> 0 <= default 0 (version u) ->
  repo_wf (with_store r (set id u (store r))).
Proof.
  intros [Hwf Hr] Hid Hv. split; simpl; [by apply set_wf|].
  intros k i. rewrite get_set. case_decide; [intros [= <-]; by subst|apply Hr].
Qed.

Lemma run_op_wf op r res r' : repo_wf r -> run_op op r = (res, r') -> repo_wf r'.
Proof.
  rewrite run_op_mutate. intros Hwf H. unfold mutate in H.
  destruct (get (op_id op) (store r)) as [i|] eqn:E; [|by simplify_eq].
  split_matches H; auto; apply with_store_wf; simpl; auto; destruct (proj2 Hwf _ _ E); lia.
Qed.

(** Operations that insert, amend or drop records. *)
Inductive RepoCall :=
  | CallOp (op : RepoOp)
  | CallSave (i : Intent)
  | CallCreate (i : Intent) (key : string) (minCreatedAt : Z)
  | CallFindByKey (key : string) (minCreatedAt : Z)
  | CallAmend (id minDst : string) (newDeadline now : Z)
  | CallDelete (id : string).

Definition run_call (c : RepoCall) (r : InMemoryRepo) : InMemoryRepo :=
  match c with
  | CallOp op => (run_op op r).2
  | CallSave i => save i r
  | CallCreate i key m => (createIdempotent i key m r).2
  | CallFindByKey key m => (findByIdempotencyKey key m r).2
  | CallAmend id md d now => (amendIfOpen id md d now r).2
  | CallDelete id => (delete id r).2
  end.

(** Callers save and create records with a non-negative version. *)
Definition call_ok (c : RepoCall) : Prop :=
  match c with
  | CallSave i | CallCreate i _ _ => 0 <= default 0 (version i)
  | _ => True
  end.

Lemma findByIdempotencyKey_store key m r : store (findByIdempotencyKey key m r).2 = store r.
Proof. unfold findByIdempotencyKey. repeat case_match; simplify_eq/=; done. Qed.

Lemma amendIfOpen_some id md d now r i r' :
  amendIfOpen id md d now r = (Some i, r') ->
  exists old, findById id r = Some old /\ state old = open /\ now < deadline old /\ now < d /\
    i = apply_patch [P_minDstAmount md; P_deadline d] old /\ r' = with_store r (set id i (store r)).
Proof.
  unfold amendIfOpen, findById. intros H. destruct (get id (store r)) as [old|]; [|done].
  exists old. split_matches H; destruct_and?; bool_norm; simplify_eq/=; try done; repeat split; try done; lia.
Qed.

Lemma amendIfOpen_none id md d now r r' : amendIfOpen id md d now r = (None, r') -> r' = r.
Proof. unfold amendIfOpen. intros H. split_matches H; congruence. Qed.

(** * Properties *)


(** Optimistic concurrency: a mutation that wins raises the stored version
    by exactly one, keeps id and creation time, and touches no other record; a
    mutation that does not win changes nothing; and one that carries an
    expected version is reported as a conflict exactly when the stored version
    differs, before its state guard is looked at. *)
Theorem mutations_are_versioned op r res r'
    (H : run_op op r = (res, r')) :
  match res with
  | Written i => exists old, findById (op_id op) r = Some old /\
      version i = Some (default 0 (version old) + 1) /\ intentId i = op_id op /\
      createdAt i = createdAt old /\ findById (op_id op) r' = Some i /\
      forall k, k <> op_id op -> findById k r' = findById k r
  | NotWritten => r' = r
  | Conflict c => r' = r /\ op_expected op = Some (vc_expected c) /\
      exists old, findById (op_id op) r = Some old /\ default 0 (version old) = vc_actual c /\
        vc_actual c <> vc_expected c
  end.
Proof.
  destruct (run_op_spec _ _ _ _ H) as (Hv & Hfind & Hsame).
  destruct res as [i| |c]; [|by apply Hsame|].
  - symmetry in Hv. apply verdict_written in Hv as (old & Hold & _ & -> & _).
    destruct (op_apply_frame op old) as [Hc _]. exists old. simpl in *. repeat split; try done.
    + rewrite Hfind. by rewrite decide_True.
    + intros k Hk. rewrite Hfind. by rewrite decide_False.
  - split; [by apply Hsame|]. unfold verdict in Hv.
    destruct (findById (op_id op) r) as [old|]; [|done].
    destruct (op_expected op) as [e|]; [|by destruct (op_guard op old)].
    destruct (Z.eqb_spec (default 0 (version old)) e); [by destruct (op_guard op old)|].
    injection Hv as ->. split; [done|]. by exists old.
Qed.

(** An intent for the witnesses. *)
Definition demo_intent : Intent := {|
  intentId := "i1"; user := "GUSER"; srcChain := ethereum;
  srcToken := {| tok_address := "0xA"; tok_symbol := "USDC"; tok_name := "USD Coin"; tok_decimals := 6;
                 tok_chain := ethereum; tok_priceUSD := Some 100000000 |};
  srcAmount := "1000"; dstToken := {| st_contract := "C1"; st_symbol := "XLM"; st_decimals := 7; st_priceUSD := None |};
  minDstAmount := "900"; auction := None; acceptedDstAmount := None; quotedDstAmount := None; solver := None;
  state := open; createdAt := 1000; deadline := 5000; filledAt := None; fillAmount := None; feeAmount := None;
  txHash := None; fillVerificationState := None; fillVerificationReason := None; fillVerifiedAt := None;
  slashedAt := None; slashReason := None; paramsVersion := None; usdValueAtCreate := None; priceLock := None;
  version := Some 0; srcVerified := Some true; srcTxHash := None; srcVerification := None; pendingTxHash := None;
  pendingOp := None; srcTokenId := None; dstTokenId := None; srcDecimals := None; dstDecimals := None;
  allowPartialFill := None; minFillAmount := None; fillProgress := None |}.

Definition demo_repo : InMemoryRepo := save demo_intent empty_repo.


Lemma mutations_are_versioned_witness :
  match run_op (OpAccept "i1" "S" 6000 2000 (Some 0)) demo_repo with
  | (Written i, r') => version i = Some 1 /\ exists old, findById "i1" demo_repo = Some old /\
      version i = Some (default 0 (version old) + 1) /\ intentId i = "i1" /\
      createdAt i = createdAt old /\ findById "i1" r' = Some i /\
      forall k, k <> "i1"%string -> findById k r' = findById k demo_repo
  | _ => False
  end.
Proof.
  split; [reflexivity|].
  exact (mutations_are_versioned (OpAccept "i1" "S" 6000 2000 (Some 0)) demo_repo _ _ eq_refl).
Defined.

(** No lost updates among versioned writers: once a mutation that expected
    version [v] has won, every later mutation of that intent that still
    expects [v] is refused with a conflict naming [v + 1] as the stored
    version. *)
Theorem stale_writers_conflict op1 op2 r v i r1
    (H1 : run_op op1 r = (Written i, r1))
    (Hv1 : op_expected op1 = Some v) (Hv2 : op_expected op2 = Some v)
    (Hid : op_id op2 = op_id op1) :
  run_op op2 r1 =
    (Conflict {| vc_intentId := op_id op1; vc_expected := v; vc_actual := v + 1 |}, r1).
Proof.
  destruct (run_op_spec _ _ _ _ H1) as (Hv & Hfind & _). symmetry in Hv.
  apply verdict_written in Hv as (old & Hold & _ & Hi & He). specialize (He v Hv1).
  destruct (run_op op2 r1) as [res2 r2] eqn:E2.
  destruct (run_op_spec _ _ _ _ E2) as (Hv' & _ & Hsame). simpl in Hfind.
  rewrite Hid, Hfind, decide_True, Hv2, Hi in Hv' by done. simpl in Hv'.
  rewrite He, (proj2 (Z.eqb_neq (v + 1) v)) in Hv' by lia. subst res2. by rewrite Hsame.
Qed.

Lemma stale_writers_conflict_witness :
  match run_op (OpCancel "i1" (Some 0)) demo_repo with
  | (Written _, r1) =>
      run_op (OpAccept "i1" "S" 6000 2000 (Some 0)) r1 =
      (Conflict {| vc_intentId := "i1"; vc_expected := 0; vc_actual := 0 + 1 |}, r1)
  | _ => False
  end.
Proof.
  exact (stale_writers_conflict (OpCancel "i1" (Some 0)) (OpAccept "i1" "S" 6000 2000 (Some 0))
    demo_repo 0 _ _ eq_refl eq_refl eq_refl eq_refl).
Defined.

(** An amendment is invisible to the version check: a successful
    [amendIfOpen] leaves the version as it was, so a writer that read the
    record before the amendment and sends back the version it read is not
    refused - its [update] wins and can put back the old terms. *)
Theorem amend_evades_version_check id md d now r i r1 patch
    (H : amendIfOpen id md d now r = (Some i, r1)) :
  exists old, findById id r = Some old /\ version i = version old /\
  exists i2 r2, update id patch (Some (default 0 (version old))) r1 = (Written i2, r2) /\
    findById id r2 = Some i2 /\
    (patch = [P_deadline (deadline old); P_minDstAmount (minDstAmount old)] ->
       deadline i2 = deadline old /\ minDstAmount i2 = minDstAmount old).
Proof.
  apply amendIfOpen_some in H as (old & Hold & _ & _ & _ & -> & ->).
  exists old. split; [done|]. split; [done|].
  unfold update, mutate. cbn [store with_store]. rewrite get_set_eq. simpl.
  rewrite Z.eqb_refl. simpl. eexists _, _. split; [reflexivity|]. split; [apply get_set_eq|].
  intros ->. done.
Qed.

Lemma amend_evades_version_check_witness :
  match amendIfOpen "i1" "950" 7000 2000 demo_repo with
  | (Some i, r1) =>
      exists old, findById "i1" demo_repo = Some old /\ version i = version old /\
      exists i2 r2, update "i1" [P_deadline (deadline old); P_minDstAmount (minDstAmount old)]
          (Some (default 0 (version old))) r1 = (Written i2, r2) /\
        findById "i1" r2 = Some i2 /\
        ([P_deadline (deadline demo_intent); P_minDstAmount (minDstAmount demo_intent)] =
           [P_deadline (deadline old); P_minDstAmount (minDstAmount old)] ->
           deadline i2 = deadline old /\ minDstAmount i2 = minDstAmount old)
  | _ => False
  end.
Proof.
  destruct (amend_evades_version_check "i1" "950" 7000 2000 demo_repo _ _
    [P_deadline (deadline demo_intent); P_minDstAmount (minDstAmount demo_intent)] eq_refl)
    as (old & Ho & Hv & i2 & r2 & Hu & Hf & Hp).
  assert (old = demo_intent) as -> by (by injection Ho).
  exists demo_intent. split; [done|]. split; [done|]. by exists i2, r2.
Defined.

Lemma fill_patch_state p i : state (apply_patch [P_state filled] (apply_patch p i)) = filled.
Proof. done. Qed.

(** Guarded writes walk the lifecycle: a guarded operation that wins found
    the intent in the state its guard names (with a future deadline for accept
    and fill, and the recorded solver for fill), and either moved it along an
    edge the state machine plans without an override or, for the deadline
    extension, kept its state and moved the deadline later. *)
Theorem guarded_writes_walk_lifecycle op r i r'
    (H : run_op op r = (Written i, r')) (Hg : op_guarded op = true) :
  exists old, findById (op_id op) r = Some old /\ op_guard op old = true /\
    match op with
    | OpExtend _ d _ => state old = accepted /\ state i = accepted /\ deadline i = d /\ deadline old < d
    | OpAccept _ s d now _ => app_step (state old) (state i) /\ state i = accepted /\ now < deadline old /\
                              solver i = Some s /\ deadline i = d
    | OpFill _ s _ now _ => app_step (state old) (state i) /\ state i = filled /\ solver old = Some s /\
                            now < deadline old
    | _ => app_step (state old) (state i) /\ isTerminalState (state i) = true
    end.
Proof.
  destruct (run_op_spec _ _ _ _ H) as (Hv & _ & _). symmetry in Hv.
  apply verdict_written in Hv as (old & Hold & Hgu & -> & _). exists old. split; [done|]. split; [done|].
  destruct op; simpl in *; try done; bool_norm; simplify_eq/=;
    repeat split; try done; try (rewrite app_step_spec);
    repeat match goal with H : state old = _ |- _ => rewrite H; clear H end; done || reflexivity.
Qed.

Lemma guarded_writes_walk_lifecycle_witness :
  match run_op (OpAccept "i1" "S" 6000 2000 None) demo_repo with
  | (Written i, _) =>
      exists old, findById "i1" demo_repo = Some old /\
        op_guard (OpAccept "i1" "S" 6000 2000 None) old = true /\
        app_step (state old) (state i) /\ state i = accepted /\ 2000 < deadline old /\
        solver i = Some "S"%string /\ deadline i = 6000
  | _ => False
  end.
Proof.
  exact (guarded_writes_walk_lifecycle (OpAccept "i1" "S" 6000 2000 None) demo_repo _ _ eq_refl eq_refl).
Defined.

(** Runs of operations, in the order the event loop serialises them. *)
Definition run_ops (ops : list RepoOp) (r : InMemoryRepo) : InMemoryRepo :=
  foldl (fun r op => (run_op op r).2) r ops.

Definition results (ops : list RepoOp) (r : InMemoryRepo) : list MutationResult :=
  (fix go ops r := match ops with [] => [] | op :: ops => (run_op op r).1 :: go ops (run_op op r).2 end) ops r.

Lemma guard_needs_live op i : op_guarded op = true -> op_guard op i = true -> isTerminalState (state i) = false.
Proof. destruct op; simpl; intros; bool_norm; try done;
  by repeat match goal with H : state i = _ |- _ => rewrite H; clear H end. Qed.

Lemma run_op_terminal op r k i :
  op_guarded op = true -> findById k r = Some i -> isTerminalState (state i) = true ->
  findById k (run_op op r).2 = Some i.
Proof.
  intros Hg Hk Ht. destruct (run_op op r) as [res r'] eqn:E.
  destruct (run_op_spec _ _ _ _ E) as (Hv & Hfind & _). rewrite Hfind.
  destruct res as [j| |c]; simpl; [|done|done]. case_decide; [|done]. subst k.
  symmetry in Hv. apply verdict_written in Hv as (old & Hold & Hgu & _).
  assert (old = i) as -> by congruence. by rewrite (guard_needs_live op i Hg Hgu) in Ht.
Qed.

(** Terminal records are frozen: no sequence of guarded operations, by any
    number of clients, sweepers and solvers in any order, changes any field of
    an intent that is filled, cancelled, expired or slashed. *)
Theorem terminal_records_frozen ops r k i
    (Hops : Forall (fun op => op_guarded op = true) ops)
    (Hk : findById k r = Some i) (Ht : isTerminalState (state i) = true) :
  findById k (run_ops ops r) = Some i.
Proof.
  revert r Hk. induction Hops as [|op ops Hg Hops IH]; intros r Hk; [done|]. simpl.
  apply IH. by apply run_op_terminal.
Qed.

Lemma terminal_records_frozen_witness :
  match findById "i1" (run_op (OpCancel "i1" None) demo_repo).2 with
  | Some i => findById "i1" (run_ops [OpAccept "i1" "S" 6000 2000 None; OpExpire "i1" None; OpSlash "i1" 1 "r" None]
                (run_op (OpCancel "i1" None) demo_repo).2) = Some i
  | None => False
  end.
Proof. apply terminal_records_frozen; [repeat constructor|reflexivity|reflexivity]. Defined.

(** Operations that compete for an open, respectively accepted, intent. *)
Definition leaves (s : IntentState) (op : RepoOp) : bool :=
  match s, op with
  | open, (OpAccept _ _ _ _ _ | OpCancel _ _ | OpExpire _ _) => true
  | accepted, (OpFill _ _ _ _ _ | OpSlash _ _ _ _) => true
  | _, _ => false
  end.

Definition wins (rs : list MutationResult) : nat :=
  length (filter (fun res => is_Some (written res)) rs).

Lemma leaves_done s op id i r :
  leaves s op = true -> op_id op = id -> findById id r = Some i -> state i <> s -> written (run_op op r).1 = None.
Proof.
  intros Hl <- Hf Hs. destruct (run_op op r) as [res r'] eqn:E. simpl.
  destruct (run_op_spec _ _ _ _ E) as (Hv & _ & _). destruct res as [j| |c]; try done.
  symmetry in Hv. apply verdict_written in Hv as (old & Hold & Hgu & _).
  assert (old = i) as -> by congruence.
  destruct s, op; simpl in *; try done; bool_norm; congruence.
Qed.

Lemma leaves_win s op id j r :
  leaves s op = true -> op_id op = id -> (run_op op r).1 = Written j ->
  state j <> s /\ findById id (run_op op r).2 = Some j.
Proof.
  intros Hl <- H. destruct (run_op op r) as [res r'] eqn:E. simpl in *. subst res.
  destruct (run_op_spec _ _ _ _ E) as (Hv & Hfind & _). rewrite Hfind. simpl.
  rewrite decide_True by done. split; [|done].
  symmetry in Hv. apply verdict_written in Hv as (old & _ & _ & -> & _). by destruct s, op.
Qed.

(** C2. One winner: of any number of concurrent requests that compete to take
    an intent out of [open] (accept, cancel, expire) at most one succeeds, and
    likewise for those that take it out of [accepted] (fill, slash): a fill
    and a slash never both land. *)
Theorem at_most_one_winner s id ops r
    (Hops : Forall (fun op => leaves s op = true /\ op_id op = id) ops) :
  (wins (results ops r) <= 1)%nat.
Proof.
  assert (Hlost : forall ops r i, Forall (fun op => leaves s op = true /\ op_id op = id) ops ->
    findById id r = Some i -> state i <> s -> wins (results ops r) = 0%nat).
  { clear. intros ops. induction ops as [|op ops IH]; intros r i Hops Hf Hs; [done|].
    inversion_clear Hops as [|? ? [Hl Hid] Hops']. unfold wins. simpl.
    pose proof (leaves_done s op id i r Hl Hid Hf Hs) as Hw. rewrite filter_cons_False by (rewrite Hw; by intros []).
    assert ((run_op op r).2 = r) as Hr.
    { destruct (run_op op r) as [res r'] eqn:E. by apply (run_op_spec _ _ _ _ E). }
    rewrite Hr. by apply (IH r i). }
  revert r. induction Hops as [|op ops [Hl Hid] Hops IH]; intros r; [unfold wins; simpl; lia|].
  unfold wins. simpl. rewrite filter_cons. case_decide as Hw.
  - destruct Hw as [j Hw]. destruct (run_op op r).1 as [j'| |] eqn:E; simplify_eq/=.
    destruct (leaves_win s op _ j r Hl eq_refl E) as [Hs Hf].
    pose proof (Hlost ops _ j Hops Hf Hs) as H0. unfold wins in H0. simpl in *. lia.
  - apply IH.
Qed.

Lemma at_most_one_winner_witness :
  (wins (results [OpAccept "i1" "S" 6000 2000 None; OpCancel "i1" None; OpExpire "i1" None] demo_repo) = 1)%nat /\
  (wins (results [OpAccept "i1" "S" 6000 2000 None; OpCancel "i1" None; OpExpire "i1" None] demo_repo) <= 1)%nat.
Proof. split; [reflexivity|]. apply (at_most_one_winner open "i1"). repeat constructor. Defined.

Lemma findByIdempotencyKey_hit key m r id i :
  get key (idempotencyKeys r) = Some id -> id <> EmptyString -> findById id r = Some i ->
  m <= createdAt i -> findByIdempotencyKey key m r = (Some i, r).
Proof.
  intros Hk Hne Hf Hm. unfold findByIdempotencyKey, findById in *. rewrite Hk. simpl.
  rewrite bool_decide_eq_false_2 by done. simpl. rewrite Hf. by rewrite (proj2 (Z.ltb_ge _ _)) by lia.
Qed.

(** What a creation leaves behind: the key points to a live record. *)
Lemma createIdempotent_key i key m r res r1 :
  createIdempotent i key m r = (res, r1) -> intentId i <> EmptyString -> m <= createdAt i ->
  exists id, get key (idempotencyKeys r1) = Some id /\ id <> EmptyString /\
    findById id r1 = Some (icr_intent res) /\ m <= createdAt (icr_intent res).
Proof.
  intros H Hne Hm. unfold createIdempotent, findByIdempotencyKey in H.
  destruct (truthy_str (get key (idempotencyKeys r))) eqn:Et; simpl in H.
  - destruct (get key (idempotencyKeys r)) as [id|] eqn:Ek; [|done]. simpl in *. bool_norm.
    destruct (get id (store r)) as [e|] eqn:Ee.
    + destruct (Z.ltb_spec (createdAt e) m); simplify_eq/=.
      * exists (intentId i). unfold findById; simpl. by rewrite !get_set_eq.
      * by exists id.
    + simplify_eq/=. exists (intentId i). unfold findById; simpl. by rewrite !get_set_eq.
  - simplify_eq/=. exists (intentId i). unfold findById; simpl. by rewrite !get_set_eq.
Qed.

Lemma run_op_live op r k i :
  findById k r = Some i ->
  exists j, findById k (run_op op r).2 = Some j /\ createdAt j = createdAt i.
Proof.
  intros Hk. destruct (run_op op r) as [res r'] eqn:E.
  destruct (run_op_spec _ _ _ _ E) as (Hv & Hfind & _). simpl. rewrite Hfind.
  destruct res as [j| |c]; simpl; [|by exists i..].
  case_decide; [|by exists i]. subst k. exists j. split; [done|].
  symmetry in Hv. apply verdict_written in Hv as (old & Hold & _ & -> & _). simpl.
  assert (old = i) as <- by congruence. apply op_apply_frame.
Qed.

Lemma run_op_keys op r : idempotencyKeys (run_op op r).2 = idempotencyKeys r.
Proof. rewrite run_op_mutate. unfold mutate. repeat case_match; simplify_eq/=; done. Qed.

Lemma run_ops_live ops r k i :
  findById k r = Some i ->
  exists j, findById k (run_ops ops r) = Some j /\ createdAt j = createdAt i.
Proof.
  revert r i. induction ops as [|op ops IH]; intros r i Hk; [by exists i|].
  destruct (run_op_live op r k i Hk) as (j & Hj & Hc).
  destruct (IH _ j Hj) as (j' & ? & ?). exists j'. split; [done|congruence].
Qed.

Lemma run_ops_keys ops r : idempotencyKeys (run_ops ops r) = idempotencyKeys r.
Proof. revert r. induction ops as [|op ops IH]; intros r; [done|]. simpl. etrans; [apply IH|apply run_op_keys]. Qed.

(** Idempotent creation: after a creation under a key, a second creation
    under the same key inside the retention window inserts nothing and returns
    the record the first one created or found, in its current version, however
    many mutations happened in between. *)
Theorem creation_is_idempotent i i2 key m r res r1 ops
    (H : createIdempotent i key m r = (res, r1))
    (Hid : intentId i <> EmptyString) (Hm : m <= createdAt i) :
  exists id j, get key (idempotencyKeys r1) = Some id /\
    findById id r1 = Some (icr_intent res) /\ findById id (run_ops ops r1) = Some j /\
    createIdempotent i2 key m (run_ops ops r1) =
      ({| icr_intent := j; icr_created := false |}, run_ops ops r1).
Proof.
  destruct (createIdempotent_key _ _ _ _ _ _ H Hid Hm) as (id & Hk & Hne & Hf & Hc).
  destruct (run_ops_live ops r1 id _ Hf) as (j & Hj & Hcj).
  exists id, j. repeat split; try done. unfold createIdempotent.
  rewrite (findByIdempotencyKey_hit key m _ id j); [done| |done|done|lia].
  by rewrite run_ops_keys.
Qed.

Lemma creation_is_idempotent_witness :
  match createIdempotent demo_intent "k" 500 empty_repo with
  | (res, r1) =>
      icr_created res = true /\
      exists id j, get "k" (idempotencyKeys r1) = Some id /\
        findById id r1 = Some (icr_intent res) /\
        findById id (run_ops [OpCancel "i1" None] r1) = Some j /\
        createIdempotent demo_intent "k" 500 (run_ops [OpCancel "i1" None] r1) =
          ({| icr_intent := j; icr_created := false |}, run_ops [OpCancel "i1" None] r1)
  end.
Proof.
  split; [reflexivity|].
  apply (creation_is_idempotent demo_intent demo_intent "k" 500 empty_repo); [reflexivity|done|simpl; lia].
Defined.

(** ** Search *)

Definition opt_ok {A} (o : option A) (p : A -> Intent -> bool) (i : Intent) : bool :=
  match o with None => true | Some a => p a i end.

(** The declarative reading of a query. *)
Definition search_match (q : IntentSearchQuery) (i : Intent) : bool :=
  opt_ok (sq_state q) (fun s i => bool_decide (state i = s)) i
  && opt_ok (sq_user q) (fun u i => bool_decide (toLowerCase (user i) = toLowerCase u)) i
  && opt_ok (sq_chain q) (fun c i => bool_decide (srcChain i = c)) i
  && opt_ok (sq_solver q) (fun s i =>
       match solver i with Some x => bool_decide (toLowerCase x = toLowerCase s) | None => false end) i
  && opt_ok (sq_minAmountUsd q) (fun m i => match usdValueAtCreate i with Some x => m <=? x | None => false end) i
  && opt_ok (sq_maxAmountUsd q) (fun m i => match usdValueAtCreate i with Some x => x <=? m | None => false end) i
  && opt_ok (sq_createdFrom q) (fun t i => t <=? createdAt i) i
  && opt_ok (sq_createdTo q) (fun t i => createdAt i <=? t) i
  && opt_ok (sq_srcToken q) (fun t i => bool_decide (toLowerCase (tok_symbol (srcToken i)) = toLowerCase t)) i
  && opt_ok (sq_dstToken q) (fun t i => bool_decide (toLowerCase (st_symbol (dstToken i)) = toLowerCase t)) i.

Lemma filter_opt_filter {A} (o : option A) p (f : Intent -> bool) l :
  filter_opt o p (filter (fun i => f i) l) = filter (fun i => f i && opt_ok o p i) l.
Proof.
  destruct o as [a|]; simpl.
  - rewrite list_filter_filter. apply list_filter_iff. intros i. destruct (f i), (p a i); naive_solver.
  - apply list_filter_iff. intros i. by rewrite andb_true_r.
Qed.

Lemma search_filtered_match q r : search_filtered q r = filter (fun i => search_match q i) (findAll r).
Proof.
  unfold search_filtered. cbv zeta.
  assert (Hstart : findAll r = filter (fun i : Intent => true) (findAll r)).
  { symmetry. induction (findAll r) as [|i l IH]; [done|].
    rewrite filter_cons_True by done. by rewrite IH. }
  rewrite Hstart at 1. rewrite !filter_opt_filter. done.
Qed.

Definition search_key (q : IntentSearchQuery) (i : Intent) : Z :=
  let parts := split_on (Ascii.ascii_of_nat 58) (default "created:desc"%string (sq_sort q)) in
  let dimension := default EmptyString (parts !! 0%nat) in
  (if bool_decide (dimension = "deadline"%string) then deadline i
   else if bool_decide (dimension = "usd"%string) then default 0 (usdValueAtCreate i) else createdAt i)
  * (if bool_decide (parts !! 1%nat = Some "asc"%string) then 1 else -1).

Lemma search_cmp_key q a b :
  let parts := split_on (Ascii.ascii_of_nat 58) (default "created:desc"%string (sq_sort q)) in
  search_cmp (default EmptyString (parts !! 0%nat))
    (if bool_decide (parts !! 1%nat = Some "asc"%string) then 1 else -1) a b <= 0
  <-> search_key q a <= search_key q b.
Proof. cbv zeta. unfold search_cmp, search_key. cbv zeta. repeat case_bool_decide; lia. Qed.

(** Search is exact: the ranked list is a permutation of the stored intents
    that satisfy every supplied filter, sorted by the requested key and
    direction (newest first by default); the total counts all of them and the
    page is the requested window of that list. *)
Theorem search_exact q r :
  exists full,
    full ≡ₚ filter (fun i => search_match q i) (values (store r)) /\
    StronglySorted (fun a b => search_key q a <= search_key q b) full /\
    (search q r).2 = Z.of_nat (length full) /\
    (search q r).1 = slice (default 0 (sq_offset q)) (default 0 (sq_offset q) + default 20 (sq_limit q)) full /\
    (0 <= default 0 (sq_offset q) -> 0 <= default 20 (sq_limit q) ->
       (search q r).1 = take (Z.to_nat (default 20 (sq_limit q))) (drop (Z.to_nat (default 0 (sq_offset q))) full)).
Proof.
  eexists. split; [|split; [|split; [reflexivity|split; [reflexivity|]]]].
  - rewrite sort_by_perm, search_filtered_match. unfold findAll. by rewrite sort_by_perm.
  - apply sort_by_sorted; intros a b Hab; apply search_cmp_key; lia.
  - intros Ho Hl. unfold search. simpl. by rewrite slice_page.
Qed.
