(* ===== verification/PartialFillMath.v ===== *)
(** Partial-fill accounting: [src/intents/partial-fills/partial-fill.math.ts].

    Amounts are strings read with [BigInt]; [None] is the [SyntaxError] an
    unreadable amount throws. *)
From S2P Require Import Prelude JsMap BigInt IntentTypes.
Local Open Scope Z_scope.

Definition isHolding (f : IntentFill) : bool :=
  bool_decide (if_status f = fs_reserved) || bool_decide (if_status f = fs_filled).

Record Allocation := { al_srcAmount : Z; al_reserved : Z; al_filled : Z; al_remaining : Z }.

(** The loop of [allocation]: [(reserved, filled)]. *)
Fixpoint alloc_loop (fills : list IntentFill) (acc : Z * Z) : option (Z * Z) :=
  match fills with
  | [] => Some acc
  | f :: fills =>
      match if_status f with
      | fs_reserved => a ← BigInt (if_reservedAmount f); alloc_loop fills (acc.1 + a, acc.2)
      | fs_filled => a ← BigInt (if_reservedAmount f); alloc_loop fills (acc.1, acc.2 + a)
      | _ => alloc_loop fills acc
      end
  end.

Definition allocation (srcAmount : string) (fills : list IntentFill) : option Allocation :=
  total ← BigInt srcAmount;
  '(reserved, filledSum) ← alloc_loop fills (0, 0);
  Some {| al_srcAmount := total; al_reserved := reserved; al_filled := filledSum;
          al_remaining := total - reserved - filledSum |}.

Inductive ReservationRejection := invalid_amount | nothing_remaining | exceeds_remaining | below_min_fill.

Inductive ReservationPlan :=
  | PlanOk (remainingAfter : Z)
  | PlanRejected (reason : ReservationRejection) (remaining : Z).

Definition planReservation (srcAmount : string) (minFillAmount : option string)
    (fills : list IntentFill) (amount : string) : option ReservationPlan :=
  alloc ← allocation srcAmount fills;
  let remaining := al_remaining alloc in
  match BigInt amount with
  | None => Some (PlanRejected invalid_amount remaining)
  | Some a =>
      if a <=? 0 then Some (PlanRejected invalid_amount remaining)
      else if remaining <=? 0 then Some (PlanRejected nothing_remaining remaining)
      else if remaining <? a then Some (PlanRejected exceeds_remaining remaining)
      else
        min ← BigInt (default "1"%string minFillAmount);
        if (a <? min) && negb (a =? remaining) then Some (PlanRejected below_min_fill remaining)
        else Some (PlanOk (remaining - a))
  end.

Definition proRataMinDst (minDstAmount reservedAmount srcAmount : string) : option string :=
  min ← BigInt minDstAmount;
  part ← BigInt reservedAmount;
  total ← BigInt srcAmount;
  if total =? 0 then Some "0"%string
  else Some (toString (Z.quot (min * part + total - 1) total)).

(** The second loop of [computeFillProgress]: [(dstFilled, fillCount, activeReservations)]. *)
Fixpoint progress_loop (fills : list IntentFill) (acc : Z * Z * Z) : option (Z * Z * Z) :=
  match fills with
  | [] => Some acc
  | f :: fills =>
      let '(dst, count, active) := acc in
      match if_status f with
      | fs_filled => d ← BigInt (default "0"%string (if_dstAmount f)); progress_loop fills (dst + d, count + 1, active)
      | fs_reserved => progress_loop fills (dst, count, active + 1)
      | _ => progress_loop fills acc
      end
  end.

Definition computeFillProgress (srcAmount : string) (st : IntentState) (fills : list IntentFill)
    : option FillProgress :=
  alloc ← allocation srcAmount fills;
  '(dstFilled, fillCount, activeReservations) ← progress_loop fills (0, 0, 0);
  let status :=
    if al_filled alloc =? 0 then fp_none
    else if al_srcAmount alloc <=? al_filled alloc then fp_filled else fp_partially_filled in
  let settled := bool_decide (st = filled) || bool_decide (st = pending_filled) in
  Some {| fp_status := status;
          fp_srcAmount := toString (al_srcAmount alloc);
          fp_reservedAmount := toString (al_reserved alloc);
          fp_filledAmount := toString (al_filled alloc);
          fp_remainingAmount := toString (al_remaining alloc);
          fp_dstFilledAmount := toString dstFilled;
          fp_fillCount := fillCount;
          fp_activeReservations := activeReservations;
          fp_remainderCancelled :=
            if settled && (al_filled alloc <? al_srcAmount alloc) && (0 <? al_filled alloc)
            then Some true else None |}.

(** * Lemmas *)

(** Source amount of a tranche, and the amounts it adds to each pool. *)
Definition amt (f : IntentFill) : Z := default 0 (BigInt (if_reservedAmount f)).
Definition in_reserved (f : IntentFill) : Z := if bool_decide (if_status f = fs_reserved) then amt f else 0.
Definition in_filled (f : IntentFill) : Z := if bool_decide (if_status f = fs_filled) then amt f else 0.

(** A stored tranche covers a positive amount. *)
Definition fill_ok (f : IntentFill) : Prop :=
  BigInt (if_reservedAmount f) = Some (amt f) /\ 0 < amt f.

Lemma alloc_loop_sum fills acc :
  Forall fill_ok fills ->
  alloc_loop fills acc = Some (acc.1 + sumZ in_reserved fills, acc.2 + sumZ in_filled fills).
Proof.
  intros H. revert acc. induction H as [|f fills [Hf _] H IH]; intros [x y]; simpl.
  { by rewrite !Z.add_0_r. }
  unfold in_reserved at 1, in_filled at 1.
  destruct (if_status f); simpl; rewrite ?Hf; simpl; rewrite IH; simpl; do 2 f_equal; lia.
Qed.

Lemma allocation_ok src fills total :
  BigInt src = Some total -> Forall fill_ok fills ->
  allocation src fills = Some {| al_srcAmount := total; al_reserved := sumZ in_reserved fills;
    al_filled := sumZ in_filled fills;
    al_remaining := total - sumZ in_reserved fills - sumZ in_filled fills |}.
Proof. intros Hs Hf. unfold allocation. rewrite Hs. simpl. by rewrite alloc_loop_sum. Qed.

Lemma pools_nonneg fills : Forall fill_ok fills -> 0 <= sumZ in_reserved fills /\ 0 <= sumZ in_filled fills.
Proof.
  intros H. rewrite Forall_forall in H.
  split; apply sumZ_nonneg; intros f Hf; destruct (H f Hf);
    unfold in_reserved, in_filled; case_bool_decide; lia.
Qed.

(** Amounts held by live reservations and completed fills. *)
Definition held (fills : list IntentFill) : Z := sumZ in_reserved fills + sumZ in_filled fills.

(** * Properties *)

(** The reservation rule, on every branch: with readable tranches, a
    request is planned iff its amount is a positive integer no larger than what
    is neither reserved nor filled and either reaches the minimum or takes the
    whole remainder (so dust below the minimum can always be cleared); the plan
    reports the exact remainder. *)
Theorem planReservation_exact src minFill fills amount total min
    (Hsrc : BigInt src = Some total) (Hfills : Forall fill_ok fills)
    (Hmin : BigInt (default "1"%string minFill) = Some min) :
  let remaining := total - held fills in
  match planReservation src minFill fills amount with
  | Some (PlanOk rest) => exists a, BigInt amount = Some a /\ 0 < a <= remaining /\
      (min <= a \/ a = remaining) /\ rest = remaining - a
  | Some (PlanRejected reason rem) => rem = remaining /\
      match reason with
      | invalid_amount => forall a, BigInt amount = Some a -> a <= 0
      | nothing_remaining => remaining <= 0
      | exceeds_remaining => exists a, BigInt amount = Some a /\ 0 < remaining < a
      | below_min_fill => exists a, BigInt amount = Some a /\ 0 < a < min /\ a < remaining
      end
  | None => False
  end.
Proof.
  cbv zeta. unfold planReservation, held. rewrite (allocation_ok src fills total) by done. simpl.
  replace (total - (sumZ in_reserved fills + sumZ in_filled fills))
    with (total - sumZ in_reserved fills - sumZ in_filled fills) by lia.
  set (rem := total - sumZ in_reserved fills - sumZ in_filled fills).
  destruct (BigInt amount) as [a|]; [|done]. rewrite Hmin. simpl.
  destruct (Z.leb_spec a 0); [split; [done|]; intros ? [= <-]; done|].
  destruct (Z.leb_spec rem 0); [done|].
  destruct (Z.ltb_spec rem a); [split; [done|]; exists a; split; [done|lia]|].
  destruct (Z.ltb_spec a min), (Z.eqb_spec a rem); simpl; try split; try done; exists a; repeat split; lia.
Qed.

Definition demo_fill (id solver amount : string) (st : IntentFillStatus) : IntentFill :=
  {| if_fillId := id; if_intentId := "i1"; if_solver := solver; if_reservedAmount := amount;
     if_minDstAmount := "0"; if_status := st; if_reservedAt := 0; if_deadline := 100; if_dstAmount := None;
     if_feeAmount := None; if_txHash := None; if_filledAt := None; if_slashedAt := None; if_releasedAt := None |}.

Definition demo_fills : list IntentFill :=
  [demo_fill "f1" "S" "600" fs_filled; demo_fill "f2" "T" "300" fs_slashed; demo_fill "f3" "T" "390" fs_reserved].

Lemma planReservation_exact_witness :
  planReservation "1000" (Some "100"%string) demo_fills "10" = Some (PlanOk 0) /\
  match planReservation "1000" (Some "100"%string) demo_fills "10" with
  | Some (PlanOk rest) => exists a, BigInt "10" = Some a /\ 0 < a <= 1000 - held demo_fills /\
      (100 <= a \/ a = 1000 - held demo_fills) /\ rest = 1000 - held demo_fills - a
  | _ => False
  end.
Proof.
  split; [vm_compute; reflexivity|].
  pose proof (planReservation_exact "1000" (Some "100"%string) demo_fills "10" 1000 100 eq_refl) as H.
  assert (Hf : Forall fill_ok demo_fills) by (repeat constructor; vm_compute; done).
  specialize (H Hf eq_refl). cbv zeta in H.
  assert (E : planReservation "1000" (Some "100"%string) demo_fills "10" = Some (PlanOk 0)) by (vm_compute; reflexivity).
  rewrite E in H |- *. exact H.
Defined.

(** ** Pro-rata minimum *)

Lemma proRata_value min part total s :
  proRataMinDst (toString min) (toString part) (toString total) = Some s ->
  0 <= min -> 0 <= part -> 0 < total ->
  exists q, s = toString q /\ total * q - total < min * part <= total * q.
Proof.
  unfold proRataMinDst. rewrite !BigInt_toString. simpl. intros H ? ? ?.
  rewrite (proj2 (Z.eqb_neq total 0)) in H by lia. injection H as <-.
  eexists. split; [reflexivity|]. rewrite Z.quot_div_nonneg by nia.
  pose proof (Z.div_mod (min * part + total - 1) total ltac:(lia)).
  pose proof (Z.mod_pos_bound (min * part + total - 1) total ltac:(lia)). nia.
Qed.

(** Minimum of one part, as a number. *)
Definition min_share (min total part : Z) : Z :=
  match proRataMinDst (toString min) (toString part) (toString total) with
  | Some s => default 0 (BigInt s)
  | None => 0
  end.

Lemma min_share_bounds min total part :
  0 <= min -> 0 <= part -> 0 < total ->
  total * min_share min total part - total < min * part <= total * min_share min total part.
Proof.
  intros Hm Hp Ht. unfold min_share.
  destruct (proRataMinDst _ _ _) as [s|] eqn:E.
  - destruct (proRata_value min part total s E) as (q & -> & ?); [done..|]. by rewrite BigInt_toString.
  - unfold proRataMinDst in E. rewrite !BigInt_toString in E. simpl in E. by destruct (total =? 0).
Qed.

(** The user is never short-changed by rounding: however the source amount
    is cut into tranches, the pro-rata minimums of the tranches add up to at
    least the intent's minimum, and to less than one base unit per tranche
    above it. *)
Theorem proRata_covers_minimum min total parts
    (Hmin : 0 <= min) (Htotal : 0 < total) (Hparts : Forall (fun p => 0 < p) parts)
    (Hcover : sumZ (fun p => p) parts = total) :
  min <= sumZ (min_share min total) parts < min + Z.of_nat (length parts).
Proof.
  assert (Hgen : forall ps, Forall (fun p => 0 < p) ps ->
    min * sumZ (fun p => p) ps <= total * sumZ (min_share min total) ps /\
    (ps <> [] -> total * sumZ (min_share min total) ps < min * sumZ (fun p => p) ps + total * Z.of_nat (length ps))).
  { induction 1 as [|p ps Hp Hps [IH1 IH2]]; simpl length; cbn [sumZ]; [split; [lia|done]|].
    pose proof (min_share_bounds min total p Hmin ltac:(lia) Htotal) as Hb.
    split; [lia|]. intros _. rewrite Nat2Z.inj_succ.
    destruct ps as [|p' ps']; [simpl in *; lia|]. specialize (IH2 ltac:(done)). lia. }
  destruct (Hgen parts Hparts) as [H1 H2]. rewrite Hcover in *.
  assert (parts <> []) by (intros ->; simpl in Hcover; lia). specialize (H2 ltac:(done)).
  split; nia.
Qed.

Lemma proRata_covers_minimum_witness :
  sumZ (min_share 10 7) [3; 3; 1] = 12 /\
  10 <= sumZ (min_share 10 7) [3; 3; 1] < 10 + Z.of_nat (length [3; 3; 1]).
Proof.
  split; [vm_compute; reflexivity|].
  apply proRata_covers_minimum; [lia|lia|repeat constructor|reflexivity].
Defined.

(** Progress adds up: for readable tranches that hold no more than the
    source amount, the reported reserved, filled and remaining amounts are
    non-negative and sum to it, the intent is reported [filled] exactly when
    the tranches cover the whole amount and [none] exactly when nothing is
    filled, and the remainder is reported cancelled only for a settled,
    partly filled intent. *)
Theorem fillProgress_adds_up src st fills total
    (Hsrc : BigInt src = Some total) (Hpos : 0 < total) (Hfills : Forall fill_ok fills)
    (Hdst : Forall (fun f => is_Some (BigInt (default "0"%string (if_dstAmount f)))) fills)
    (Hheld : held fills <= total) :
  exists p reserved done_ rest, computeFillProgress src st fills = Some p /\
    fp_srcAmount p = toString total /\ fp_reservedAmount p = toString reserved /\
    fp_filledAmount p = toString done_ /\ fp_remainingAmount p = toString rest /\
    0 <= reserved /\ 0 <= done_ /\ 0 <= rest /\ reserved + done_ + rest = total /\
    (fp_status p = fp_filled <-> done_ = total) /\ (fp_status p = fp_none <-> done_ = 0) /\
    (fp_remainderCancelled p = Some true <->
       (st = filled \/ st = pending_filled) /\ 0 < done_ < total).
Proof.
  assert (Hloop : forall acc, exists res, progress_loop fills acc = Some res).
  { clear -Hdst. induction Hdst as [|f fills [d Hd] _ IH]; intros [[x y] z]; simpl; [eauto|].
    destruct (if_status f); try apply IH. rewrite Hd. simpl. apply IH. }
  unfold computeFillProgress. rewrite (allocation_ok src fills total) by done. simpl.
  destruct (Hloop (0, 0, 0)) as [[[dst cnt] act] ->]. simpl.
  destruct (pools_nonneg fills Hfills) as [Hr Hd]. unfold held in Hheld.
  exists {| fp_status := if sumZ in_filled fills =? 0 then fp_none else if total <=? sumZ in_filled fills then fp_filled else fp_partially_filled;
    fp_srcAmount := toString total; fp_reservedAmount := toString (sumZ in_reserved fills);
    fp_filledAmount := toString (sumZ in_filled fills);
    fp_remainingAmount := toString (total - sumZ in_reserved fills - sumZ in_filled fills);
    fp_dstFilledAmount := toString dst; fp_fillCount := cnt; fp_activeReservations := act;
    fp_remainderCancelled := if (bool_decide (st = filled) || bool_decide (st = pending_filled)) && (sumZ in_filled fills <? total) && (0 <? sumZ in_filled fills) then Some true else None |},
    (sumZ in_reserved fills), (sumZ in_filled fills), (total - sumZ in_reserved fills - sumZ in_filled fills).
  cbn [fp_status fp_srcAmount fp_reservedAmount fp_filledAmount fp_remainingAmount fp_remainderCancelled].
  split; [done|]. do 4 (split; [done|]). do 4 (split; [lia|]).
  generalize dependent (sumZ in_filled fills); generalize dependent (sumZ in_reserved fills); intros.
  split; [|split].
  - destruct (Z.eqb_spec z0 0), (Z.leb_spec total z0); split; intros; try done; lia.
  - destruct (Z.eqb_spec z0 0), (Z.leb_spec total z0); split; intros; try done; lia.
  - destruct (Z.ltb_spec z0 total), (Z.ltb_spec 0 z0); repeat case_bool_decide; simpl; naive_solver lia.
Qed.

Lemma fillProgress_adds_up_witness :
  exists p reserved done_ rest, computeFillProgress "1000" open demo_fills = Some p /\
    fp_srcAmount p = toString 1000 /\ fp_reservedAmount p = toString reserved /\
    fp_filledAmount p = toString done_ /\ fp_remainingAmount p = toString rest /\
    0 <= reserved /\ 0 <= done_ /\ 0 <= rest /\ reserved + done_ + rest = 1000 /\
    (fp_status p = fp_filled <-> done_ = 1000) /\ (fp_status p = fp_none <-> done_ = 0) /\
    (fp_remainderCancelled p = Some true <->
       (open = filled \/ open = pending_filled) /\ 0 < done_ < 1000).
Proof.
  apply fillProgress_adds_up.
  - reflexivity.
  - lia.
  - repeat constructor; vm_compute; done.
  - repeat constructor; eexists; reflexivity.
  - vm_compute. discriminate.
Defined.
