(* ===== verification/Prog.v ===== *)
(** Asynchronous code as resumptions.

    An [async] function runs without interruption up to its next [await]: it is
    a tree of atomic steps, and every boundary between two steps is a point
    where other requests may run.  [run] executes one call alone; [pool_step]
    interleaves any number of them. *)
From S2P Require Import Prelude.
From stdpp Require Import relations.

(** [Step upd k]: the state [s] becomes [upd s] and the call goes on as [k s]. *)
Inductive prog (S E A : Type) : Type :=
  | Done (a : A)
  | Throw (e : E)
  | Step (upd : S -> S) (k : S -> prog S E A).
Arguments Done {S E A} _.
Arguments Throw {S E A} _.
Arguments Step {S E A} _ _.

Section prog.
Context {S E : Type}.

Fixpoint pbind {A B} (k : A -> prog S E B) (p : prog S E A) : prog S E B :=
  match p with
  | Done a => k a
  | Throw e => Throw e
  | Step upd k' => Step upd (fun s => pbind k (k' s))
  end.

(** [try { p } catch (e) { h e }] *)
Fixpoint pcatch {A} (h : E -> prog S E A) (p : prog S E A) : prog S E A :=
  match p with
  | Done a => Done a
  | Throw e => h e
  | Step upd k => Step upd (fun s => pcatch h (k s))
  end.

(** One step that reads or writes the state and answers. *)
Definition atomic {A} (f : S -> A * S) : prog S E A := Step (fun s => (f s).2) (fun s => Done (f s).1).
Definition reads {A} (f : S -> A) : prog S E A := Step (fun s => s) (fun s => Done (f s)).
Definition modify (f : S -> S) : prog S E unit := Step f (fun _ => Done tt).

(** [for (const x of l) acc = await body(acc, x)] *)
Fixpoint pfold {A B} (body : B -> A -> prog S E B) (acc : B) (l : list A) : prog S E B :=
  match l with
  | [] => Done acc
  | x :: l => pbind (fun acc => pfold body acc l) (body acc x)
  end.

(** One after the other. *)
Fixpoint in_turn {A} (ps : list (prog S E A)) : prog S E (list A) :=
  match ps with
  | [] => Done []
  | p :: ps => pbind (fun a => pbind (fun l => Done (a :: l)) (in_turn ps)) p
  end.

(** [await Promise.all(ps)]: [order] says whose step is next; once it is used up
    the calls finish in turn. *)
Fixpoint together {A} (order : list nat) (ps : list (prog S E A)) : prog S E (list A) :=
  match order with
  | [] => in_turn ps
  | n :: order =>
      match ps !! n with
      | Some (Step upd k) => Step upd (fun s => together order (<[n := k s]> ps))
      | _ => together order ps
      end
  end.

Fixpoint run {A} (p : prog S E A) (s : S) : outcome E A * S :=
  match p with
  | Done a => (Ok a, s)
  | Throw e => (Err e, s)
  | Step upd k => run (k s) (upd s)
  end.

Lemma run_pbind {A B} (k : A -> prog S E B) p s :
  run (pbind k p) s = match run p s with (Ok a, s') => run (k a) s' | (Err e, s') => (Err e, s') end.
Proof. revert s. induction p as [a|e|upd k' IH]; intros s; simpl; [done|done|apply IH]. Qed.

Lemma run_pcatch {A} (h : E -> prog S E A) p s :
  run (pcatch h p) s = match run p s with (Ok a, s') => (Ok a, s') | (Err e, s') => run (h e) s' end.
Proof. revert s. induction p as [a|e|upd k' IH]; intros s; simpl; [done|done|apply IH]. Qed.

Lemma run_atomic {A} (f : S -> A * S) s : run (atomic f) s = (Ok (f s).1, (f s).2).
Proof. done. Qed.

Lemma run_reads {A} (f : S -> A) s : run (reads f) s = (Ok (f s), s).
Proof. done. Qed.

(** * Interleaving *)

(** Any call of the pool takes its next step. *)
Inductive pool_step {A} : S * list (prog S E A) -> S * list (prog S E A) -> Prop :=
  | pool_one s ps n upd k :
      ps !! n = Some (Step upd k) -> pool_step (s, ps) (upd s, <[n := k s]> ps).

(** Scheduling by thread numbers, for concrete traces: a finished or missing
    call is skipped. *)
Fixpoint schedule {A} (ns : list nat) (s : S) (ps : list (prog S E A)) : S * list (prog S E A) :=
  match ns with
  | [] => (s, ps)
  | n :: ns =>
      match ps !! n with
      | Some (Step upd k) => schedule ns (upd s) (<[n := k s]> ps)
      | _ => schedule ns s ps
      end
  end.

Lemma schedule_steps {A} ns s (ps : list (prog S E A)) : rtc pool_step (s, ps) (schedule ns s ps).
Proof.
  revert s ps. induction ns as [|n ns IH]; intros s ps; simpl; [done|].
  destruct (ps !! n) as [[a|e|upd k]|] eqn:En; [apply IH|apply IH| |apply IH].
  eapply rtc_l; [by constructor|apply IH].
Qed.

(** * Safety: every step of a call satisfies [P], every result [Q] *)

Section safety.
Context (P : S -> S -> Prop).

Inductive safe {A} (Q : A -> Prop) : prog S E A -> Prop :=
  | safe_done a : Q a -> safe Q (Done a)
  | safe_throw e : safe Q (Throw e)
  | safe_step upd k : (forall s, P s (upd s)) -> (forall s, safe Q (k s)) -> safe Q (Step upd k).

Lemma safe_mono {A} (Q1 Q2 : A -> Prop) p : (forall a, Q1 a -> Q2 a) -> safe Q1 p -> safe Q2 p.
Proof. intros H. induction 1; constructor; auto. Qed.

Lemma safe_bind_Q {A B} (Q1 : A -> Prop) (Q2 : B -> Prop) (k : A -> prog S E B) p :
  safe Q1 p -> (forall a, Q1 a -> safe Q2 (k a)) -> safe Q2 (pbind k p).
Proof. intros Hp Hk. induction Hp; simpl; [auto|constructor|]. by constructor. Qed.

Lemma safe_bind {A B} (Q : B -> Prop) (k : A -> prog S E B) p :
  safe (fun _ => True) p -> (forall a, safe Q (k a)) -> safe Q (pbind k p).
Proof. intros Hp Hk. eapply safe_bind_Q; [exact Hp|auto]. Qed.

Lemma safe_catch {A} (Q : A -> Prop) (h : E -> prog S E A) p :
  safe Q p -> (forall e, safe Q (h e)) -> safe Q (pcatch h p).
Proof. intros Hp Hk. induction Hp; simpl; [by constructor|done|]. by constructor. Qed.

Lemma safe_atomic {A} (f : S -> A * S) : (forall s, P s (f s).2) -> safe (fun _ => True) (atomic f).
Proof. intros H. constructor; [done|]. by constructor. Qed.

Lemma safe_modify (f : S -> S) : (forall s, P s (f s)) -> safe (fun _ => True) (modify f).
Proof. intros H. constructor; [done|]. by constructor. Qed.

Lemma safe_reads {A} (f : S -> A) : (forall s, P s s) -> safe (fun _ => True) (reads f).
Proof. intros H. constructor; [done|]. by constructor. Qed.

Lemma safe_fold {A B} (body : B -> A -> prog S E B) l acc :
  (forall b a, a ∈ l -> safe (fun _ => True) (body b a)) -> safe (fun _ => True) (pfold body acc l).
Proof.
  revert acc. induction l as [|x l IH]; intros acc H; simpl; [by constructor|].
  apply safe_bind; [apply H; by left|]. intros a. apply IH. intros b y Hy. apply H. by right.
Qed.

(** Interleaving safe calls yields a chain of [P] steps. *)
Lemma pool_safe {A} (Q : A -> Prop) (c c' : S * list (prog S E A)) :
  rtc pool_step c c' -> Forall (safe Q) c.2 -> rtc P c.1 c'.1 /\ Forall (safe Q) c'.2.
Proof.
  intros H. induction H as [c|c c1 c2 Hst _ IH]; intros Hall; [done|].
  destruct Hst as [s1 ps1 n upd k Hn]. simpl in *.
  pose proof (Forall_lookup_1 _ _ _ _ Hall Hn) as Hs. inversion Hs as [| |upd' k' Hu Hk]; subst.
  destruct IH as [Hr Ha]; [by apply Forall_insert|]. split; [|done]. by eapply rtc_l.
Qed.
End safety.

(** * Invariants: steps may rely on the invariant at their start *)

Section invariant.
Context (I : S -> Prop).

Fixpoint keeps_inv {A} (Q : A -> Prop) (p : prog S E A) : Prop :=
  match p with
  | Done a => Q a
  | Throw _ => True
  | Step upd k => forall s, I s -> I (upd s) /\ keeps_inv Q (k s)
  end.

Lemma inv_mono {A} (Q1 Q2 : A -> Prop) p : (forall a, Q1 a -> Q2 a) -> keeps_inv Q1 p -> keeps_inv Q2 p.
Proof. intros H. induction p as [a|e|upd k IH]; simpl; [auto|done|]. intros Hp s Hs. destruct (Hp s Hs). auto. Qed.

Lemma inv_bind {A B} (Q1 : A -> Prop) (Q2 : B -> Prop) (k : A -> prog S E B) p :
  keeps_inv Q1 p -> (forall a, Q1 a -> keeps_inv Q2 (k a)) -> keeps_inv Q2 (pbind k p).
Proof. intros Hp Hk. induction p as [a|e|upd k' IH]; simpl in *; [auto|done|]. intros s Hs. destruct (Hp s Hs). auto. Qed.

Lemma inv_modify (f : S -> S) : (forall s, I s -> I (f s)) -> keeps_inv (fun _ => True) (modify f).
Proof. intros H s Hs. simpl. auto. Qed.

Lemma inv_reads {A} (f : S -> A) (Q : A -> Prop) : (forall s, I s -> Q (f s)) -> keeps_inv Q (reads f).
Proof. intros H s Hs. simpl. auto. Qed.

Lemma inv_atomic {A} (f : S -> A * S) (Q : A -> Prop) : (forall s, I s -> I (f s).2 /\ Q (f s).1) -> keeps_inv Q (atomic f).
Proof. intros H s Hs. simpl. auto. Qed.

Lemma inv_fold {A B} (body : B -> A -> prog S E B) (Q : B -> Prop) l acc :
  Q acc -> (forall b a, Q b -> a ∈ l -> keeps_inv Q (body b a)) -> keeps_inv Q (pfold body acc l).
Proof.
  revert acc. induction l as [|x l IH]; intros acc Hq H; simpl; [done|].
  eapply inv_bind; [apply H; [done|by left]|]. intros a Ha. apply IH; [done|]. intros b y Hb Hy. apply H; [done|by right].
Qed.

Lemma inv_catch {A} (Q : A -> Prop) (h : E -> prog S E A) p : keeps_inv Q p -> (forall e, keeps_inv Q (h e)) -> keeps_inv Q (pcatch h p).
Proof. intros Hp Hh. induction p as [a|e|upd k IH]; simpl in *; [done|auto|]. intros s Hs. destruct (Hp s Hs). auto. Qed.

Lemma inv_in_turn {A} (Q : A -> Prop) ps : Forall (keeps_inv Q) ps -> keeps_inv (Forall Q) (in_turn ps).
Proof.
  induction 1 as [|p ps Hp _ IH]; simpl; [done|]. eapply inv_bind; [exact Hp|]. intros a Ha.
  eapply inv_bind; [exact IH|]. intros l Hl. by constructor.
Qed.

Lemma inv_together {A} (Q : A -> Prop) order ps : Forall (keeps_inv Q) ps -> keeps_inv (Forall Q) (together order ps).
Proof.
  revert ps. induction order as [|n order IH]; intros ps H; simpl; [by apply inv_in_turn|].
  destruct (ps !! n) as [[a|e|upd k]|] eqn:En; try by apply IH.
  intros s Hs. pose proof (Forall_lookup_1 _ _ _ _ H En) as Hn. destruct (Hn s Hs). split; [done|]. apply IH. by apply Forall_insert.
Qed.

(** Interleaving calls that keep the invariant keeps it. *)
Lemma pool_inv {A} (Q : A -> Prop) (c c' : S * list (prog S E A)) :
  rtc pool_step c c' -> I c.1 -> Forall (keeps_inv Q) c.2 -> I c'.1 /\ Forall (keeps_inv Q) c'.2.
Proof.
  intros H. induction H as [c|c c1 c2 Hst _ IH]; intros Hi Hall; [done|].
  destruct Hst as [s1 ps1 n upd k Hn]. simpl in *.
  pose proof (Forall_lookup_1 _ _ _ _ Hall Hn) as Hs. simpl in Hs. destruct (Hs s1 Hi). apply IH; [done|by apply Forall_insert].
Qed.

(** The same with a postcondition of its own for each call. *)
Lemma pool_inv_each {A B} (Q : B -> A -> Prop) (l : list B) (c c' : S * list (prog S E A)) :
  rtc pool_step c c' -> I c.1 -> Forall2 (fun b => keeps_inv (Q b)) l c.2 -> I c'.1 /\ Forall2 (fun b => keeps_inv (Q b)) l c'.2.
Proof.
  intros H. induction H as [c|c c1 c2 Hst _ IH]; intros Hi Hall; [done|].
  destruct Hst as [s1 ps1 n upd k Hn]. simpl in *.
  destruct (Forall2_lookup_r _ _ _ _ _ Hall Hn) as (b & Hb & Hs). simpl in Hs. destruct (Hs s1 Hi).
  apply IH; [done|]. rewrite <- (list_insert_id l n b Hb). by apply Forall2_insert.
Qed.
End invariant.

(** * Rely and guarantee: what one step learns holds for the rest of the call *)

Section rely.
Context (I : S -> Prop) (R : S -> S -> Prop).

(** [rg Q p s0]: from any state that [R] relates to [s0], the next step keeps [I]
    and is an [R] step, and so on; the result satisfies [Q] in the last state
    the call has seen. *)
Fixpoint rg {A} (Q : A -> S -> Prop) (p : prog S E A) (s0 : S) : Prop :=
  match p with
  | Done a => Q a s0
  | Throw _ => True
  | Step upd k => forall s, R s0 s -> I s -> I (upd s) /\ R s (upd s) /\ rg Q (k s) (upd s)
  end.

Lemma rg_bind {A B} (Q1 : A -> S -> Prop) (Q2 : B -> S -> Prop) (k : A -> prog S E B) p s0 :
  rg Q1 p s0 -> (forall a s, Q1 a s -> rg Q2 (k a) s) -> rg Q2 (pbind k p) s0.
Proof.
  revert s0. induction p as [a|e|upd k' IH]; intros s0 Hp Hk; simpl in *; [auto|done|].
  intros s Hr Hs. destruct (Hp s Hr Hs) as (? & ? & ?). auto.
Qed.

Lemma rg_mono {A} (Q1 Q2 : A -> S -> Prop) p s0 : (forall a s, Q1 a s -> Q2 a s) -> rg Q1 p s0 -> rg Q2 p s0.
Proof.
  intros HQ. revert s0. induction p as [a|e|upd k IH]; intros s0 Hp; simpl in *; [auto|done|].
  intros s Hr Hs. destruct (Hp s Hr Hs) as (? & ? & ?). auto.
Qed.

Lemma rg_later `{!Transitive R} {A} (Q : A -> S -> Prop) p s0 s1 :
  (forall a s s', Q a s -> R s s' -> Q a s') -> R s0 s1 -> rg Q p s0 -> rg Q p s1.
Proof.
  destruct p as [a|e|upd k]; intros HQ Hr Hp; simpl in *; [by eapply HQ|done|].
  intros s Hs. apply Hp. by transitivity s1.
Qed.

(** Interleaving: the invariant is kept and everything changes by [R] steps. *)
Lemma pool_rg `{!Reflexive R, !Transitive R} {A} (c c' : S * list (prog S E A)) :
  rtc pool_step c c' -> I c.1 -> Forall (fun p => rg (fun _ _ => True) p c.1) c.2 -> I c'.1 /\ R c.1 c'.1.
Proof.
  intros H. induction H as [c|c c1 c2 Hst _ IH]; intros Hi Hall; [done|].
  destruct Hst as [s1 ps1 n upd k Hn]. simpl in *.
  pose proof (Forall_lookup_1 _ _ _ _ Hall Hn) as Hs. simpl in Hs. destruct (Hs s1) as (Hi' & Hr & Hk); [done|done|].
  destruct IH as [IH1 IH2]; [done| |split; [done|by transitivity (upd s1)]].
  apply Forall_insert; [|done]. eapply Forall_impl; [exact Hall|]. intros p Hp. by eapply rg_later.
Qed.
(** The same with a postcondition of its own for each call, which [R] keeps. *)
Lemma pool_rg_each `{!Reflexive R, !Transitive R} {A B} (Q : B -> A -> S -> Prop) (l : list B) (c c' : S * list (prog S E A)) :
  (forall b a s s', Q b a s -> R s s' -> Q b a s') -> rtc pool_step c c' -> I c.1 -> Forall2 (fun b p => rg (Q b) p c.1) l c.2 ->
  I c'.1 /\ R c.1 c'.1 /\ Forall2 (fun b p => rg (Q b) p c'.1) l c'.2.
Proof.
  intros HQ H. induction H as [c|c c1 c2 Hst _ IH]; intros Hi Hall; [done|].
  destruct Hst as [s1 ps1 n upd k Hn]. simpl in *.
  destruct (Forall2_lookup_r _ _ _ _ _ Hall Hn) as (b & Hb & Hs). simpl in Hs. destruct (Hs s1) as (Hi' & Hr & Hk); [done|done|].
  destruct IH as (IH1 & IH2 & IH3); [done| |split_and!; [done|by transitivity (upd s1)|done]].
  rewrite <- (list_insert_id l n b Hb). apply Forall2_insert; [|done].
  eapply Forall2_impl; [exact Hall|]. intros b' p Hp. eapply rg_later; [|exact Hr|exact Hp]. apply HQ.
Qed.
Lemma rg_catch {A} (Q : A -> S -> Prop) (h : E -> prog S E A) p s0 : rg Q p s0 -> (forall e s, rg Q (h e) s) -> rg Q (pcatch h p) s0.
Proof.
  intros Hp Hh. revert s0 Hp. induction p as [a|e|upd k IH]; intros s0 Hp; simpl in *; [done|auto|].
  intros s Hr Hs. destruct (Hp s Hr Hs) as (? & ? & ?). auto.
Qed.

(** What every call may do alone, all may do in turn or together. *)
Lemma rg_in_turn `{!Reflexive R, !Transitive R} {A} (ps : list (prog S E A)) s0 :
  Forall (fun p => rg (fun _ _ => True) p s0) ps -> rg (fun _ _ => True) (in_turn ps) s0.
Proof.
  revert s0. induction ps as [|p ps IH]; intros s0 Hall; simpl; [done|]. apply Forall_cons in Hall as [Hp Hps].
  assert (Hb : rg (fun _ s => R s0 s) p s0).
  { assert (Hg : forall s1, R s0 s1 -> rg (fun _ _ => True) p s1 -> rg (fun _ s => R s0 s) p s1); [|by apply Hg].
    clear -Transitive0. induction p as [a|e|upd k IH]; intros s1 Hr Hp; simpl in *; [done|done|].
    intros s Hs Hi. destruct (Hp s Hs Hi) as (H1 & H2 & H3). split_and!; [done|done|]. apply IH; [|done].
    transitivity s1; [done|]. by transitivity s. }
  eapply rg_bind; [exact Hb|]. intros a s Hr. eapply (rg_bind (fun _ _ => True)); [|done]. apply IH.
  eapply Forall_impl; [exact Hps|]. intros q Hq. eapply rg_later; [done|exact Hr|exact Hq].
Qed.
Lemma rg_together `{!Reflexive R, !Transitive R} {A} order : forall (ps : list (prog S E A)) s0,
  Forall (fun p => rg (fun _ _ => True) p s0) ps -> rg (fun _ _ => True) (together order ps) s0.
Proof.
  induction order as [|n order IH]; intros ps s0 Hall; simpl; [by apply rg_in_turn|].
  destruct (ps !! n) as [[a|e|upd k]|] eqn:En; try by apply IH. simpl. intros s Hr Hi.
  pose proof (Forall_lookup_1 _ _ _ _ Hall En) as Hn. simpl in Hn. destruct (Hn s Hr Hi) as (H1 & H2 & H3). split_and!; [done|done|].
  apply IH. apply Forall_insert; [|done]. eapply Forall_impl; [exact Hall|]. intros q Hq. eapply rg_later; [done| |exact Hq]. by transitivity s.
Qed.
End rely.
End prog.

(** Sequencing notation, in a scope of its own. *)
Declare Scope prog_scope.
Delimit Scope prog_scope with prog.
Notation "x '<-' p ; q" := (pbind (fun x => q) p)
  (at level 100, p at level 61, q at level 200, right associativity) : prog_scope.
Notation "p ';;;' q" := (pbind (fun _ => q) p)
  (at level 100, q at level 200, right associativity) : prog_scope.

#[export] Hint Constructors safe : vortex.
