(* ===== verification/Budget.v ===== *)
(** Composing services and counting what they do.

    [zoom] runs a call of one service inside the state of a larger system.
    [paid] is the invariant logic for calls that interleave: it carries a state
    invariant and a budget of tokens, each earned by a state change that can
    happen once and each spent by an effect, so that [pool_paid] bounds the
    effects of any number of concurrent calls by the changes that allowed
    them. *)
From S2P Require Import Prelude Prog.
From stdpp Require Import relations.
Local Open Scope nat_scope.

(** * Focusing *)

Section zoom.
Context {S T E E' : Type} (view : S -> T) (put : T -> S -> S) (lift : E -> E').

Fixpoint zoom {A} (p : prog T E A) : prog S E' A :=
  match p with
  | Done a => Done a
  | Throw e => Throw (lift e)
  | Step upd k => Step (fun s => put (upd (view s)) s) (fun s => zoom (k (view s)))
  end.

Context (view_put : forall t s, view (put t s) = t) (put_put : forall t t' s, put t (put t' s) = put t s)
        (put_view : forall s, put (view s) s = s).

Lemma run_zoom {A} (p : prog T E A) s :
  run (zoom p) s =
    (match (run p (view s)).1 with Ok a => Ok a | Err e => Err (lift e) end, put (run p (view s)).2 s).
Proof using view_put put_put put_view.
  revert s. induction p as [a|e|upd k IH]; intros s; simpl; [by rewrite put_view..|].
  rewrite IH, view_put. by destruct (run (k (view s)) (upd (view s))) as [r t]; simpl; rewrite put_put.
Qed.

(** A call that guarantees [P] on its own part keeps an invariant of the whole
    that changes by [P] preserve. *)
Lemma inv_zoom {A} (I : S -> Prop) (P : T -> T -> Prop) (Q : A -> Prop) (p : prog T E A) :
  (forall s t, I s -> P (view s) t -> I (put t s)) -> safe P Q p -> keeps_inv I Q (zoom p).
Proof. intros H Hp. induction Hp as [a Ha|e|upd k Hu Hk IH]; simpl; [done|done|]. auto. Qed.
End zoom.

(** * Budgets *)

Section budget.
Context {S E : Type} (I : S -> Prop) (later : relation S) `{!PreOrder later} (spent earned : S -> nat).

(** A call that last saw the state [b] and has [n] tokens in hand: at a state
    reached from [b] by any steps of others ([later]), each step keeps the
    invariant, is itself allowed by [later], and pays, from the tokens in hand
    and those it earns, for what it spends; [Q] and [X] hold of the answer or
    error, the tokens left and the last state seen. *)
Fixpoint paid {A} (Q : A -> nat -> S -> Prop) (X : E -> nat -> S -> Prop) (b : S) (n : nat) (p : prog S E A) : Prop :=
  match p with
  | Done a => Q a n b
  | Throw e => X e n b
  | Step upd k => forall s, I s -> later b s -> exists m,
      I (upd s) /\ later s (upd s) /\ m + spent (upd s) + earned s <= n + spent s + earned (upd s) /\
      paid Q X (upd s) m (k s)
  end.

Lemma paid_mono {A} (Q Q' : A -> nat -> S -> Prop) (X X' : E -> nat -> S -> Prop) b n p :
  (forall a m b', later b b' -> Q a m b' -> Q' a m b') -> (forall e m b', later b b' -> X e m b' -> X' e m b') ->
  paid Q X b n p -> paid Q' X' b n p.
Proof.
  revert b n. induction p as [a|e|upd k IH]; intros b n HQ HX; simpl; [by apply HQ|by apply HX|].
  intros H s Hs Hb. destruct (H s Hs Hb) as (m & H1 & H2 & H3 & H4). exists m. split_and!; [done..|].
  assert (Hb' : later b (upd s)) by (by transitivity s).
  eapply IH; [| |exact H4]; intros x m' b' Hl; [apply HQ|apply HX]; by transitivity (upd s).
Qed.

Lemma paid_bind {A B} (Q : B -> nat -> S -> Prop) X b n (k : A -> prog S E B) p :
  paid (fun a m b' => paid Q X b' m (k a)) X b n p -> paid Q X b n (pbind k p).
Proof.
  revert b n. induction p as [a|e|upd k' IH]; intros b n; simpl; [auto..|].
  intros H s Hs Hb. destruct (H s Hs Hb) as (m & H1 & H2 & H3 & H4). exists m. auto.
Qed.

Lemma paid_catch {A} (Q : A -> nat -> S -> Prop) X b n (h : E -> prog S E A) p :
  paid Q (fun e m b' => paid Q X b' m (h e)) b n p -> paid Q X b n (pcatch h p).
Proof.
  revert b n. induction p as [a|e|upd k IH]; intros b n; simpl; [auto..|].
  intros H s Hs Hb. destruct (H s Hs Hb) as (m & H1 & H2 & H3 & H4). exists m. auto.
Qed.

Definition anyhow {A} : A -> nat -> S -> Prop := fun _ _ _ => True.

(** Tokens that are not needed can be ignored. *)
Lemma paid_any {A} b n n' (p : prog S E A) : n <= n' -> paid anyhow anyhow b n p -> paid anyhow anyhow b n' p.
Proof.
  revert b n n'. induction p as [a|e|upd k IH]; intros b n n' Hn; simpl; [done..|].
  intros H s Hs Hb. destruct (H s Hs Hb) as (m & H1 & H2 & H3 & H4). exists m. split_and!; [done|done|lia|done].
Qed.

(** A step that earns and spends nothing. *)
Definition idle (upd : S -> S) : Prop := forall s, I s ->
  I (upd s) /\ later s (upd s) /\ spent (upd s) = spent s /\ earned (upd s) = earned s.

Lemma paid_idle {A} (Q : A -> nat -> S -> Prop) X b n upd k :
  idle upd -> (forall s, I s -> later b s -> paid Q X (upd s) n (k s)) -> paid Q X b n (Step upd k).
Proof.
  intros Hu Hk s Hs Hb. destruct (Hu s Hs) as (H1 & H2 & H3 & H4). exists n. split_and!; [done|done|lia|auto].
Qed.

Lemma paid_reads {A} (Q : A -> nat -> S -> Prop) X b n (f : S -> A) :
  (forall s, I s -> later b s -> Q (f s) n s) -> paid Q X b n (reads f).
Proof. intros H. apply paid_idle; [by intros s Hs|auto]. Qed.

Lemma paid_modify (Q : unit -> nat -> S -> Prop) X b n (f : S -> S) :
  idle f -> (forall s, I s -> later b s -> Q tt n (f s)) -> paid Q X b n (modify f).
Proof. intros Hf HQ. by apply paid_idle. Qed.

(** Sequencing when nothing is carried over. *)
Lemma paid_seq {A B} b n (k : A -> prog S E B) p :
  paid anyhow anyhow b n p -> (forall a b', later b b' -> paid anyhow anyhow b' 0 (k a)) -> paid anyhow anyhow b n (pbind k p).
Proof.
  intros Hp Hk. apply paid_bind. eapply paid_mono; [| |exact Hp]; [|done].
  intros a m b' Hl _. eapply paid_any; [apply Nat.le_0_l|by apply Hk].
Qed.

Lemma paid_fold {A B} (body : B -> A -> prog S E B) l b acc :
  (forall c a b', a ∈ l -> later b b' -> paid anyhow anyhow b' 0 (body c a)) -> paid anyhow anyhow b 0 (pfold body acc l).
Proof.
  revert b acc. induction l as [|a l IH]; intros b acc H; [done|]. simpl.
  apply paid_seq; [apply H; [left|done]|]. intros c b' Hl. apply IH. intros c' a' b'' Ha Hl'.
  apply H; [by right|by transitivity b'].
Qed.

(** A call of another service that does not touch what is counted. *)
Lemma paid_zoom {T E0 A} (view : S -> T) (put : T -> S -> S) (lift : E0 -> E) (Q : A -> nat -> S -> Prop)
    (X : E -> nat -> S -> Prop) b n (p : prog T E0 A) :
  (forall t, idle (put t)) -> (forall a b', later b b' -> Q a n b') -> (forall e b', later b b' -> X (lift e) n b') ->
  paid Q X b n (zoom view put lift p).
Proof.
  intros Hput. revert b. induction p as [a|e|upd k IH]; intros b HQ HX; simpl; [by apply HQ|by apply HX|].
  intros s Hs Hb. destruct (Hput (upd (view s)) s Hs) as (H1 & H2 & H3 & H4). exists n. split_and!; [done|done|lia|].
  assert (Hl : later b (put (upd (view s)) s)) by (by transitivity s).
  apply IH; intros x b' Hx; [apply HQ|apply HX]; by transitivity (put (upd (view s)) s).
Qed.

(** Whatever the interleaving, effects stay within what was earned. *)
Lemma pool_paid {A} (c c' : S * list (prog S E A)) (ts : list (nat * S)) :
  rtc pool_step c c' -> I c.1 -> Forall2 (fun t p => later t.2 c.1 /\ paid anyhow anyhow t.2 t.1 p) ts c.2 ->
  sum_list ts.*1 + spent c.1 <= earned c.1 ->
  I c'.1 /\ spent c'.1 <= earned c'.1.
Proof.
  intros H. revert ts. induction H as [c|c c1 c2 Hst _ IH]; intros ts HI Hall Hsum; [split; [done|lia]|].
  destruct Hst as [s ps i upd k Hi]. simpl in *.
  destruct (Forall2_lookup_r _ _ _ _ _ Hall Hi) as ([n b] & Hn & Hb & Hp). simpl in Hb, Hp.
  destruct (Hp s HI Hb) as (m & HI' & Hlat & Hle & Hk).
  apply (IH (<[i := (m, upd s)]> ts)); [done| |].
  - apply Forall2_insert; [|done]. eapply Forall2_impl; [exact Hall|]. intros t p [Ht Htp]. split; [by transitivity s|done].
  - assert (Hs : sum_list (<[i := (m, upd s)]> ts).*1 + n = sum_list ts.*1 + m); [|lia].
    clear -Hn. revert i Hn. induction ts as [|x ts IHn]; intros [|i] Hn; simplify_eq/=; [lia|]. specialize (IHn i Hn). lia.
Qed.

Lemma pool_bounded {A} (s : S) (ps : list (prog S E A)) s' ps' :
  rtc pool_step (s, ps) (s', ps') -> I s -> spent s <= earned s -> Forall (fun p => forall b, paid anyhow anyhow b 0 p) ps ->
  I s' /\ spent s' <= earned s'.
Proof.
  intros H HI Hle Hall. apply (pool_paid _ _ (replicate (length ps) (0, s)) H); simpl; [done| |].
  - clear -Hall PreOrder0. induction Hall; simpl; constructor; [split; [simpl; reflexivity|auto]|done].
  - rewrite fmap_replicate, sum_list_replicate. simpl. lia.
Qed.
End budget.
