(* ===== verification/FillsRepo.v ===== *)
(** Storage of partial-fill tranches:
    [src/intents/partial-fills/intent-fills.repository.ts].

    The in-memory adapter, with its per-intent promise-chain lock modelled as a
    queue of calls per intent: a call joins the queue of its intent when it is
    made, only the head of a queue runs, and a running [reserve] reads the
    tranches first and inserts only after awaiting [isOpen], with arbitrary
    steps of other intents in between. *)
From S2P Require Import Prelude JsMap BigInt IntentTypes PartialFillMath.
From stdpp Require Import relations.
Local Open Scope Z_scope.

(** * Data *)

Record ReserveRequest := {
  rq_intentId : string;
  rq_srcAmount : string;
  rq_minDstAmount : string;
  rq_minFillAmount : option string;
  rq_solver : string;
  rq_amount : string;
  rq_deadline : Z;
  rq_now : Z;
}.

Inductive ReserveResult :=
  | Reserved (fill : IntentFill)
  | ReserveRejected (reason : ReservationRejection) (remaining : string)
  | IntentNotOpen.

Record FillPatch := { fpt_dstAmount : string; fpt_feeAmount : string; fpt_txHash : option string; fpt_filledAt : Z }.

Record FillsRepo := {
  fills : jsmap IntentFill;
  byIntent : jsmap (list string);
}.

Definition empty_fills : FillsRepo := {| fills := []; byIntent := [] |}.

(** * Operations *)

(** [fillId] is the fresh uuid. *)
Definition newFillRow (fillId : string) (rq : ReserveRequest) : option IntentFill :=
  amount ← BigInt (rq_amount rq);
  minDst ← proRataMinDst (rq_minDstAmount rq) (rq_amount rq) (rq_srcAmount rq);
  Some {| if_fillId := fillId; if_intentId := rq_intentId rq; if_solver := rq_solver rq;
          if_reservedAmount := toString amount; if_minDstAmount := minDst; if_status := fs_reserved;
          if_reservedAt := rq_now rq; if_deadline := rq_deadline rq; if_dstAmount := None;
          if_feeAmount := None; if_txHash := None; if_filledAt := None; if_slashedAt := None;
          if_releasedAt := None |}.

Definition fill_ids (id : string) (r : FillsRepo) : list string := default [] (get id (byIntent r)).

Definition listSync (id : string) (r : FillsRepo) : list IntentFill :=
  omap (fun fid => get fid (fills r)) (fill_ids id r).

Definition find_fill (fid : string) (r : FillsRepo) : option IntentFill := get fid (fills r).

(** The body [reserve] runs under the lock, from the tranches [current] it
    read and the answer of [isOpen]; [None] when an amount cannot be read. *)
Definition reserve_body (fillId : string) (rq : ReserveRequest) (isOpen : bool)
    (current : list IntentFill) (r : FillsRepo) : option (ReserveResult * FillsRepo) :=
  if negb isOpen then Some (IntentNotOpen, r)
  else
    plan ← planReservation (rq_srcAmount rq) (rq_minFillAmount rq) current (rq_amount rq);
    match plan with
    | PlanRejected reason remaining => Some (ReserveRejected reason (toString remaining), r)
    | PlanOk _ =>
        fill ← newFillRow fillId rq;
        Some (Reserved fill,
              {| fills := set (if_fillId fill) fill (fills r);
                 byIntent := set (rq_intentId rq) (fill_ids (rq_intentId rq) r ++ [if_fillId fill]) (byIntent r) |})
    end.

Definition intentIdsWithFills (ids : list string) (r : FillsRepo) : list string :=
  uniq (filter (fun id => fill_ids id r <> []) ids).

(** Scan in insertion order, stopping as soon as [limit] are collected. *)
Fixpoint expired_scan (now limit : Z) (l : list IntentFill) (out : list IntentFill) : list IntentFill :=
  match l with
  | [] => out
  | f :: l =>
      let out := if bool_decide (if_status f = fs_reserved) && (if_deadline f <=? now) then out ++ [f] else out in
      if limit <=? Z.of_nat (length out) then out else expired_scan now limit l out
  end.

Definition findExpiredReservations (now limit : Z) (r : FillsRepo) : list IntentFill :=
  expired_scan now limit (values (fills r)) [].

Definition filled_row (p : FillPatch) (f : IntentFill) : IntentFill :=
  {| if_fillId := if_fillId f; if_intentId := if_intentId f; if_solver := if_solver f;
     if_reservedAmount := if_reservedAmount f; if_minDstAmount := if_minDstAmount f; if_status := fs_filled;
     if_reservedAt := if_reservedAt f; if_deadline := if_deadline f; if_dstAmount := Some (fpt_dstAmount p);
     if_feeAmount := Some (fpt_feeAmount p); if_txHash := fpt_txHash p; if_filledAt := Some (fpt_filledAt p);
     if_slashedAt := if_slashedAt f; if_releasedAt := if_releasedAt f |}.

Definition slashed_row (now : Z) (f : IntentFill) : IntentFill :=
  {| if_fillId := if_fillId f; if_intentId := if_intentId f; if_solver := if_solver f;
     if_reservedAmount := if_reservedAmount f; if_minDstAmount := if_minDstAmount f; if_status := fs_slashed;
     if_reservedAt := if_reservedAt f; if_deadline := if_deadline f; if_dstAmount := if_dstAmount f;
     if_feeAmount := if_feeAmount f; if_txHash := if_txHash f; if_filledAt := if_filledAt f;
     if_slashedAt := Some now; if_releasedAt := if_releasedAt f |}.

Definition released_row (now : Z) (f : IntentFill) : IntentFill :=
  {| if_fillId := if_fillId f; if_intentId := if_intentId f; if_solver := if_solver f;
     if_reservedAmount := if_reservedAmount f; if_minDstAmount := if_minDstAmount f; if_status := fs_released;
     if_reservedAt := if_reservedAt f; if_deadline := if_deadline f; if_dstAmount := if_dstAmount f;
     if_feeAmount := if_feeAmount f; if_txHash := if_txHash f; if_filledAt := if_filledAt f;
     if_slashedAt := if_slashedAt f; if_releasedAt := Some now |}.

(** Check and write on one tranche, as every [mark*] does under the lock. *)
Definition guarded_mark (fid : string) (guard : IntentFill -> bool) (upd : IntentFill -> IntentFill)
    (r : FillsRepo) : option IntentFill * FillsRepo :=
  match get fid (fills r) with
  | None => (None, r)
  | Some current =>
      if guard current
      then (Some (upd current), {| fills := set fid (upd current) (fills r); byIntent := byIntent r |})
      else (None, r)
  end.

Definition can_fill (solver : string) (filledAt : Z) (f : IntentFill) : bool :=
  negb (negb (bool_decide (if_status f = fs_reserved)) || negb (bool_decide (if_solver f = solver))
        || (if_deadline f <=? filledAt)).

Definition markFilled (fid solver : string) (p : FillPatch) : FillsRepo -> option IntentFill * FillsRepo :=
  guarded_mark fid (can_fill solver (fpt_filledAt p)) (filled_row p).

Definition markSlashed (fid : string) (now : Z) : FillsRepo -> option IntentFill * FillsRepo :=
  guarded_mark fid (fun f => bool_decide (if_status f = fs_reserved) && (if_deadline f <=? now)) (slashed_row now).

Definition markReleased (fid : string) (now : Z) : FillsRepo -> option IntentFill * FillsRepo :=
  guarded_mark fid (fun f => bool_decide (if_status f = fs_reserved)) (released_row now).

(** * Concurrent execution under the per-intent lock *)

Inductive FillCall :=
  | CReserve (rq : ReserveRequest) (fillId : string) (isOpen : bool)
  | CFilled (fid solver : string) (p : FillPatch)
  | CSlashed (fid : string) (now : Z)
  | CReleased (fid : string) (now : Z).

(** The intent whose lock a call takes, read when the call is made. *)
Definition call_key (c : FillCall) (r : FillsRepo) : option string :=
  match c with
  | CReserve rq _ _ => Some (rq_intentId rq)
  | CFilled fid _ _ | CSlashed fid _ | CReleased fid _ => if_intentId <$> get fid (fills r)
  end.

(** What the call does to the store when it completes. *)
Definition complete (c : FillCall) (snapshot : list IntentFill) (r : FillsRepo) : FillsRepo :=
  match c with
  | CReserve rq fid isOpen =>
      match reserve_body fid rq isOpen snapshot r with Some (_, r') => r' | None => r end
  | CFilled fid solver p => (markFilled fid solver p r).2
  | CSlashed fid now => (markSlashed fid now r).2
  | CReleased fid now => (markReleased fid now r).2
  end.

(** A queued call has started once it has read its snapshot. *)
Record Sys := { sys_repo : FillsRepo; sys_queue : string -> list (FillCall * option (list IntentFill)) }.

Definition set_queue (id : string) q (s : Sys) : Sys :=
  {| sys_repo := sys_repo s; sys_queue := fun k => if decide (k = id) then q else sys_queue s k |}.

Section execution.
(** Source amounts of the intents: never changed once created. *)
Variable src : string -> Z.

(** A uuid is not the id of an existing tranche. *)
Definition fresh_for (c : FillCall) (r : FillsRepo) : Prop :=
  match c with CReserve _ fid _ => get fid (fills r) = None | _ => True end.

Definition request_ok (c : FillCall) : Prop :=
  match c with CReserve rq _ _ => BigInt (rq_srcAmount rq) = Some (src (rq_intentId rq)) | _ => True end.

Inductive sys_step : Sys -> Sys -> Prop :=
  | step_call s c id :
      call_key c (sys_repo s) = Some id -> request_ok c ->
      sys_step s (set_queue id (sys_queue s id ++ [(c, None)]) s)
  | step_start s id c q :
      sys_queue s id = (c, None) :: q ->
      sys_step s (set_queue id ((c, Some (listSync id (sys_repo s))) :: q) s)
  | step_finish s id c snapshot q :
      sys_queue s id = (c, Some snapshot) :: q -> fresh_for c (sys_repo s) ->
      sys_step s
        {| sys_repo := complete c snapshot (sys_repo s);
           sys_queue := sys_queue (set_queue id q s) |}.

Definition init_sys : Sys := {| sys_repo := empty_fills; sys_queue := fun _ => [] |}.

(** ** Invariant *)

Definition hold (f : IntentFill) : Z := in_reserved f + in_filled f.

Lemma held_hold l : held l = sumZ hold l.
Proof. unfold held, hold. induction l; simpl; lia. Qed.

Definition repo_ok (r : FillsRepo) : Prop :=
  (forall fid f, get fid (fills r) = Some f -> fill_ok f) /\
  (forall id fid, fid ∈ fill_ids id r -> exists f, get fid (fills r) = Some f /\ if_intentId f = id) /\
  (forall id, 0 <= src id -> held (listSync id r) <= src id).

(** [c] belongs in the queue of [id]. *)
Definition call_for (id : string) (c : FillCall) (r : FillsRepo) : Prop :=
  match c with
  | CReserve rq _ _ => rq_intentId rq = id
  | CFilled fid _ _ | CSlashed fid _ | CReleased fid _ =>
      exists f, get fid (fills r) = Some f /\ if_intentId f = id
  end.

Definition queue_ok (s : Sys) (id : string) : Prop :=
  match sys_queue s id with
  | [] => True
  | (c, started) :: q =>
      (forall snap, started = Some snap -> snap = listSync id (sys_repo s)) /\
      Forall (fun e => e.2 = None) q
  end /\
  Forall (fun e => request_ok e.1 /\ call_for id e.1 (sys_repo s)) (sys_queue s id).

Definition sys_ok (s : Sys) : Prop := repo_ok (sys_repo s) /\ forall id, queue_ok s id.

Definition hold_at (m : jsmap IntentFill) (fid : string) : Z :=
  match get fid m with Some f => hold f | None => 0 end.

Lemma held_listSync id r : held (listSync id r) = sumZ (hold_at (fills r)) (fill_ids id r).
Proof.
  rewrite held_hold. unfold listSync, hold_at. induction (fill_ids id r) as [|fid l IH]; csimpl; [done|].
  destruct (get fid (fills r)); csimpl; rewrite IH; lia.
Qed.

Lemma listSync_frame id r r' :
  fill_ids id r' = fill_ids id r ->
  (forall fid, fid ∈ fill_ids id r -> get fid (fills r') = get fid (fills r)) ->
  listSync id r' = listSync id r.
Proof.
  intros Hids Hg. unfold listSync. rewrite Hids. clear Hids. revert Hg.
  induction (fill_ids id r) as [|fid l IH]; intros Hg; csimpl; [done|].
  rewrite (Hg fid) by (by left). rewrite IH; [done|]. intros x Hx. apply Hg. by right.
Qed.

(** ** Preservation *)

Lemma reserve_body_spec fid rq isOpen current r res r' :
  reserve_body fid rq isOpen current r = Some (res, r') ->
  r' = r \/
  exists fill a, newFillRow fid rq = Some fill /\ BigInt (rq_amount rq) = Some a /\
    (exists rest, planReservation (rq_srcAmount rq) (rq_minFillAmount rq) current (rq_amount rq) = Some (PlanOk rest)) /\
    res = Reserved fill /\
    r' = {| fills := set fid fill (fills r);
            byIntent := set (rq_intentId rq) (fill_ids (rq_intentId rq) r ++ [fid]) (byIntent r) |}.
Proof.
  unfold reserve_body. destruct isOpen; simpl; [|intros [= _ <-]; by left].
  destruct (planReservation _ _ _ _) as [[rest|reason rem]|] eqn:Ep; simpl; [|intros [= _ <-]; by left|done].
  destruct (newFillRow fid rq) as [fill|] eqn:Ef; simpl; [|done]. intros [= <- <-]. right.
  exists fill. unfold newFillRow in Ef.
  destruct (BigInt (rq_amount rq)) as [a|] eqn:Ea; simpl in Ef; [|done].
  destruct (proRataMinDst _ _ _) as [md|]; simpl in Ef; [|done]. injection Ef as <-. simpl.
  exists a. repeat split; eauto.
Qed.

Lemma newFillRow_spec fid rq fill a :
  newFillRow fid rq = Some fill -> BigInt (rq_amount rq) = Some a -> 0 < a ->
  if_intentId fill = rq_intentId rq /\ hold fill = a /\ fill_ok fill.
Proof.
  unfold newFillRow. intros H Ha Hpos. rewrite Ha in H. simpl in H.
  destruct (proRataMinDst _ _ _) as [md|]; simpl in H; [|done]. injection H as <-.
  unfold hold, in_reserved, in_filled, fill_ok, amt. simpl. rewrite BigInt_toString. simpl. repeat split; lia.
Qed.

Lemma fill_ids_set id id' ids r m :
  fill_ids id {| fills := m; byIntent := set id' ids (byIntent r) |} =
  if decide (id = id') then ids else fill_ids id r.
Proof.
  unfold fill_ids. simpl. case_decide; subst; [by rewrite get_set_eq|rewrite get_set_ne; [done|congruence]].
Qed.

(** Everything the store holds per intent except the intent of the call. *)
Definition same_elsewhere (id : string) (r r' : FillsRepo) : Prop :=
  forall k, k <> id -> listSync k r' = listSync k r.

Lemma reserve_preserves fid rq fill a rest r :
  repo_ok r -> get fid (fills r) = None -> request_ok (CReserve rq fid true) ->
  newFillRow fid rq = Some fill -> BigInt (rq_amount rq) = Some a ->
  planReservation (rq_srcAmount rq) (rq_minFillAmount rq) (listSync (rq_intentId rq) r) (rq_amount rq)
    = Some (PlanOk rest) ->
  let r' := {| fills := set fid fill (fills r);
               byIntent := set (rq_intentId rq) (fill_ids (rq_intentId rq) r ++ [fid]) (byIntent r) |} in
  repo_ok r' /\ same_elsewhere (rq_intentId rq) r r' /\
  (forall k f, get k (fills r) = Some f -> get k (fills r') = Some f).
Proof.
  intros (Hok & Hids & Hheld) Hfresh Hsrc Hrow Ha Hplan r'. simpl in Hsrc.
  set (id := rq_intentId rq) in *.
  assert (Hne : forall k x, x ∈ fill_ids k r -> x <> fid).
  { intros k x Hx ->. destruct (Hids k fid Hx) as (f & Hf & _). congruence. }
  assert (Hget : forall x, x <> fid -> get x (fills r') = get x (fills r)).
  { intros x Hx. simpl. apply get_set_ne. congruence. }
  assert (Hcur : Forall fill_ok (listSync id r)).
  { apply Forall_forall. intros f (x & _ & Hx)%list_elem_of_omap. by eapply Hok. }
  assert (Hplan' : 0 < a <= src id - held (listSync id r)).
  { unfold planReservation in Hplan. rewrite (allocation_ok _ _ (src id) Hsrc Hcur) in Hplan. simpl in Hplan.
    rewrite Ha in Hplan. unfold held. split_matches Hplan; destruct_or?; lia. }
  destruct (newFillRow_spec fid rq fill a Hrow Ha ltac:(lia)) as (Hid & Hhold & Hfok).
  assert (Hother : same_elsewhere id r r').
  { intros k Hk. apply listSync_frame; [unfold r'; rewrite fill_ids_set; by rewrite decide_False|].
    intros x Hx. apply Hget. by eapply Hne. }
  split; [|split; [done|]].
  - split; [|split].
    + intros k f. simpl. rewrite get_set. case_decide; [by intros [= <-]|apply Hok].
    + intros k x Hx. unfold r' in Hx. rewrite fill_ids_set in Hx. case_decide as Hk.
      * apply elem_of_app in Hx as [Hx|Hx%list_elem_of_singleton].
        -- rewrite Hget by (by eapply Hne). subst k. by apply Hids.
        -- subst x k. exists fill. simpl. by rewrite get_set_eq.
      * rewrite Hget by (by eapply Hne). by apply Hids.
    + intros k Hk. destruct (decide (k = id)) as [->|Hkne]; [|rewrite Hother by done; by apply Hheld].
      rewrite held_listSync. unfold r' at 2. rewrite fill_ids_set, decide_True by done.
      rewrite sumZ_snoc.
      assert (Hs : sumZ (hold_at (fills r')) (fill_ids id r) = held (listSync id r)).
      { rewrite held_listSync. apply sumZ_ext. intros x Hx. unfold hold_at. rewrite Hget; [done|by eapply Hne]. }
      rewrite Hs. unfold hold_at at 1. simpl. rewrite get_set_eq. lia.
  - intros k f Hf. rewrite Hget; [done|]. intros ->. congruence.
Qed.

Lemma mark_preserves fid guard upd r f :
  repo_ok r -> get fid (fills r) = Some f ->
  (forall f, guard f = true -> fill_ok f -> fill_ok (upd f) /\ if_intentId (upd f) = if_intentId f /\ hold (upd f) <= hold f) ->
  let r' := (guarded_mark fid guard upd r).2 in
  repo_ok r' /\ same_elsewhere (if_intentId f) r r' /\
  (forall k g, get k (fills r) = Some g -> exists g', get k (fills r') = Some g' /\ if_intentId g' = if_intentId g).
Proof.
  intros (Hok & Hids & Hheld) Hf Hupd r'. unfold r', guarded_mark. rewrite Hf.
  destruct (guard f) eqn:Eg; simpl; [|split; [done|]; split; [done|]; eauto].
  destruct (Hupd f Eg (Hok _ _ Hf)) as (Hok' & Hid' & Hh').
  set (r1 := {| fills := set fid (upd f) (fills r); byIntent := byIntent r |}).
  assert (Hkeep : forall k g, get k (fills r) = Some g -> exists g', get k (fills r1) = Some g' /\ if_intentId g' = if_intentId g).
  { intros k g Hg. simpl. rewrite get_set. case_decide; [|by exists g]. subst k. exists (upd f).
    split; [done|]. congruence. }
  split; [|split; [|done]].
  - split; [|split].
    + intros k g. simpl. rewrite get_set. case_decide; [by intros [= <-]|apply Hok].
    + intros k x Hx. destruct (Hids k x Hx) as (g & Hg & Hi). destruct (Hkeep x g Hg) as (g' & ? & ?).
      exists g'. split; [done|congruence].
    + intros k Hk. rewrite held_listSync. etrans; [|by apply (Hheld k Hk)]. rewrite held_listSync.
      apply sumZ_le. intros x Hx. unfold hold_at. simpl. rewrite get_set. case_decide; [|done]. subst x.
      by rewrite Hf.
  - intros k Hk. apply listSync_frame; [done|]. intros x Hx. simpl. apply get_set_ne. intros ->.
    destruct (Hids k x Hx) as (g & Hg & Hi). congruence.
Qed.

(** A tranche that stops being reserved holds no more than it did. *)
Lemma leaves_reserved f f' :
  if_status f = fs_reserved -> fill_ok f ->
  if_reservedAmount f' = if_reservedAmount f -> if_intentId f' = if_intentId f -> if_status f' <> fs_reserved ->
  fill_ok f' /\ if_intentId f' = if_intentId f /\ hold f' <= hold f.
Proof.
  unfold hold, in_reserved, in_filled, fill_ok, amt. intros Hst [Hb Hpos] Hamt Hid Hst'.
  rewrite Hst, Hamt. rewrite (bool_decide_eq_false_2 (if_status f' = fs_reserved)) by done.
  repeat split; try done. rewrite (bool_decide_eq_true_2 (fs_reserved = fs_reserved)) by done.
  repeat case_bool_decide; done || lia.
Qed.

Lemma call_for_mono id c r r' :
  (forall k g, get k (fills r) = Some g -> exists g', get k (fills r') = Some g' /\ if_intentId g' = if_intentId g) ->
  call_for id c r -> call_for id c r'.
Proof.
  intros Hkeep. destruct c; simpl; [done|..];
    intros (f & Hf & <-); destruct (Hkeep _ _ Hf) as (f' & ? & ?); eauto.
Qed.

Lemma call_key_for id c r : call_key c r = Some id -> call_for id c r.
Proof.
  destruct c; simpl; [by intros [= <-]|..]; destruct (get fid (fills r)) eqn:E; simpl; naive_solver.
Qed.

Lemma complete_preserves c r id :
  repo_ok r -> fresh_for c r -> request_ok c -> call_for id c r ->
  let r' := complete c (listSync id r) r in
  repo_ok r' /\ same_elsewhere id r r' /\
  (forall k g, get k (fills r) = Some g -> exists g', get k (fills r') = Some g' /\ if_intentId g' = if_intentId g).
Proof.
  intros Hr Hfresh Hreq Hkey. destruct c as [rq fid isOpen|fid solver p|fid now|fid now]; simpl in *.
  - subst id. destruct (reserve_body fid rq isOpen (listSync (rq_intentId rq) r) r) as [[res r']|] eqn:E.
    2:{ split; [done|]. split; [done|eauto]. }
    apply reserve_body_spec in E as [->|(fill & a & Hrow & Ha & [rest Hplan] & _ & ->)].
    { split; [done|]. split; [done|eauto]. }
    destruct (reserve_preserves fid rq fill a rest r Hr Hfresh Hreq Hrow Ha Hplan) as (? & ? & ?).
    split; [done|]. split; [done|]. eauto.
  - destruct Hkey as (f & Hf & <-). apply mark_preserves; [done..|].
    unfold can_fill. intros g Hg Hok. apply leaves_reserved; [by bool_norm|done..].
  - destruct Hkey as (f & Hf & <-). apply mark_preserves; [done..|].
    intros g Hg Hok. apply leaves_reserved; [by bool_norm|done..].
  - destruct Hkey as (f & Hf & <-). apply mark_preserves; [done..|].
    intros g Hg Hok. apply leaves_reserved; [by bool_norm|done..].
Qed.

Lemma same_queue_ok s s' id :
  queue_ok s id -> sys_queue s' id = sys_queue s id -> listSync id (sys_repo s') = listSync id (sys_repo s) ->
  (forall k g, get k (fills (sys_repo s)) = Some g ->
     exists g', get k (fills (sys_repo s')) = Some g' /\ if_intentId g' = if_intentId g) ->
  queue_ok s' id.
Proof.
  intros [Hhd Hall] Hq Hl Hkeep. unfold queue_ok. rewrite Hq, Hl. split; [done|].
  eapply Forall_impl; [exact Hall|]. intros e [He Hc]. split; [done|]. by eapply call_for_mono.
Qed.

Lemma sys_step_ok s s' : sys_step s s' -> sys_ok s -> sys_ok s'.
Proof.
  intros Hstep [Hr Hq]. destruct Hstep as [s c id Hkey Hreq|s id c q Eq|s id c snap q Eq Hfresh].
  - split; [done|]. intros k. destruct (decide (k = id)) as [->|Hk].
    2:{ eapply same_queue_ok; [apply Hq|by simpl; rewrite decide_False|done|eauto]. }
    unfold queue_ok. simpl. rewrite decide_True by done. destruct (Hq id) as [Hhd Hall].
    assert (Hc : call_for id c (sys_repo s)) by (by apply call_key_for).
    split; [|apply Forall_app; split; [done|by repeat constructor]].
    destruct (sys_queue s id) as [|[c0 st] q] eqn:E; simpl; [by split|].
    destruct Hhd as [? ?]. split; [done|]. apply Forall_app. split; [done|by repeat constructor].
  - split; [done|]. intros k. destruct (decide (k = id)) as [->|Hk].
    2:{ eapply same_queue_ok; [apply Hq|by simpl; rewrite decide_False|done|eauto]. }
    unfold queue_ok. simpl. rewrite decide_True by done. destruct (Hq id) as [Hhd Hall].
    rewrite Eq in Hhd, Hall. destruct Hhd as [_ Hnone]. split; [split; [by intros ? [= <-]|done]|].
    inversion_clear Hall as [|? ? H1 H2]. by constructor.
  - destruct (Hq id) as [Hhd Hall]. rewrite Eq in Hhd, Hall. destruct Hhd as [Hsnap Hnone].
    inversion_clear Hall as [|? ? [Hreq Hc] Hall']. simpl in Hreq, Hc.
    rewrite (Hsnap snap eq_refl) in *.
    destruct (complete_preserves c (sys_repo s) id Hr Hfresh Hreq Hc) as (Hr' & Hel & Hkeep).
    split; [done|]. intros k. destruct (decide (k = id)) as [->|Hk].
    2:{ eapply same_queue_ok; [apply Hq|by simpl; rewrite decide_False|by apply Hel|done]. }
    unfold queue_ok. simpl. rewrite decide_True by done. split.
    + destruct q as [|[c' st'] q]; [done|]. inversion_clear Hnone as [|? ? H1 H2]. simpl in H1. by subst st'.
    + eapply Forall_impl; [exact Hall'|]. intros e [He Hce]. split; [done|]. by eapply call_for_mono.
Qed.

Lemma reachable_ok s : rtc sys_step init_sys s -> sys_ok s.
Proof.
  intros H. assert (Hi : sys_ok init_sys).
  { split; [|by intros id; split]. split; [done|]. split; [|done].
    intros id fid Hx. by apply not_elem_of_nil in Hx. }
  induction H as [|x y z Hxy _ IH]; [done|]. apply IH. by eapply sys_step_ok.
Qed.
End execution.

(** * Properties *)

(** C1. No over-allocation, whatever the interleaving: in every state reachable
    by calls of any number of solvers and of the sweeper, queued and run by the
    per-intent lock with awaits inside [reserve], the reserved, filled and
    remaining amounts of every intent are non-negative and sum to its source
    amount. *)
Theorem no_over_allocation src s id
    (Hreach : rtc (sys_step src) init_sys s) (Hsrc : 0 <= src id) :
  exists a, allocation (toString (src id)) (listSync id (sys_repo s)) = Some a /\
    0 <= al_reserved a /\ 0 <= al_filled a /\ 0 <= al_remaining a /\
    al_reserved a + al_filled a + al_remaining a = src id.
Proof.
  destruct (reachable_ok src s Hreach) as [(Hok & Hids & Hheld) _].
  assert (Hl : Forall fill_ok (listSync id (sys_repo s))).
  { apply Forall_forall. intros f (x & _ & Hx)%list_elem_of_omap. by eapply Hok. }
  eexists. split; [apply allocation_ok; [apply BigInt_toString|done]|]. simpl.
  destruct (pools_nonneg _ Hl). specialize (Hheld id Hsrc). unfold held in Hheld. lia.
Qed.

(** Two solvers race for 700 of 1000 each: the calls queue up, the first is
    planned, the second sees it and is rejected. *)
Definition demo_request (solver amount : string) : ReserveRequest :=
  {| rq_intentId := "i1"; rq_srcAmount := "1000"; rq_minDstAmount := "500"; rq_minFillAmount := None;
     rq_solver := solver; rq_amount := amount; rq_deadline := 100; rq_now := 10 |}.

Definition demo_src (_ : string) : Z := 1000.

Definition demo_race : list FillCall :=
  [CReserve (demo_request "S" "700") "f1" true; CReserve (demo_request "T" "700") "f2" true].

(** Run the calls of one intent in queue order. *)
Definition run_queue (id : string) (cs : list FillCall) (r : FillsRepo) : FillsRepo :=
  foldl (fun r c => complete c (listSync id r) r) r cs.

Lemma run_one src id c s :
  sys_queue s id = [] -> call_key c (sys_repo s) = Some id -> request_ok src c -> fresh_for c (sys_repo s) ->
  exists s', rtc (sys_step src) s s' /\ sys_repo s' = complete c (listSync id (sys_repo s)) (sys_repo s) /\
    sys_queue s' id = [].
Proof.
  intros Hq Hk Hr Hf.
  exists {| sys_repo := complete c (listSync id (sys_repo s)) (sys_repo s);
            sys_queue := sys_queue (set_queue id [] (set_queue id [(c, Some (listSync id (sys_repo s)))]
                           (set_queue id (sys_queue s id ++ [(c, None)]) s))) |}.
  split; [|simpl; by rewrite decide_True].
  eapply rtc_l; [by apply (step_call src s c id)|].
  eapply rtc_l; [apply (step_start src _ id c []); simpl; by rewrite decide_True, Hq|].
  eapply rtc_l; [|apply rtc_refl].
  refine (step_finish src (set_queue id [(c, Some (listSync id (sys_repo s)))]
            (set_queue id (sys_queue s id ++ [(c, None)]) s)) id c _ [] _ _); simpl; [by rewrite decide_True|done].
Qed.

Lemma demo_race_reached : exists s, rtc (sys_step demo_src) init_sys s /\
  sys_repo s = run_queue "i1" demo_race empty_fills.
Proof.
  destruct (run_one demo_src "i1" (CReserve (demo_request "S" "700") "f1" true) init_sys) as (s1 & H1 & E1 & Q1);
    [done..|].
  destruct (run_one demo_src "i1" (CReserve (demo_request "T" "700") "f2" true) s1) as (s2 & H2 & E2 & Q2);
    [done|done|done|rewrite E1; done|].
  exists s2. split; [by etrans|]. by rewrite E2, E1.
Qed.

Lemma no_over_allocation_witness :
  exists s a, rtc (sys_step demo_src) init_sys s /\
    allocation (toString 1000) (listSync "i1" (sys_repo s)) = Some a /\
    al_reserved a = 700 /\ al_reserved a + al_filled a + al_remaining a = 1000.
Proof.
  destruct demo_race_reached as (s & Hs & Er).
  destruct (no_over_allocation demo_src s "i1" Hs ltac:(vm_compute; discriminate)) as (a & Ha & _ & _ & _ & Hsum).
  change (demo_src "i1") with 1000 in Ha, Hsum.
  exists s, a. split; [exact Hs|]. split; [exact Ha|]. split; [|exact Hsum].
  rewrite Er in Ha. vm_compute in Ha. injection Ha as <-. reflexivity.
Defined.

(** What may become of a tranche in one step. *)
Inductive tranche_step (f : IntentFill) : IntentFill -> Prop :=
  | tr_same : tranche_step f f
  | tr_fill p : if_status f = fs_reserved -> fpt_filledAt p < if_deadline f -> tranche_step f (filled_row p f)
  | tr_slash now : if_status f = fs_reserved -> if_deadline f <= now -> tranche_step f (slashed_row now f)
  | tr_release now : if_status f = fs_reserved -> tranche_step f (released_row now f).

Lemma guarded_mark_step fid fid' guard upd r f :
  (forall g, guard g = true -> tranche_step g (upd g)) ->
  get fid (fills r) = Some f ->
  exists f', get fid (fills (guarded_mark fid' guard upd r).2) = Some f' /\ tranche_step f f'.
Proof.
  intros Hg Hf. unfold guarded_mark.
  destruct (get fid' (fills r)) as [g|] eqn:E; simpl; [|exists f; split; [done|constructor]].
  destruct (guard g) eqn:Eg; simpl; [|exists f; split; [done|constructor]].
  rewrite get_set. case_decide as Hid; [|exists f; split; [done|constructor]]. subst.
  exists (upd g). split; [done|]. assert (g = f) as <- by congruence. by apply Hg.
Qed.

Lemma complete_step c snap r fid f :
  fresh_for c r -> get fid (fills r) = Some f ->
  exists f', get fid (fills (complete c snap r)) = Some f' /\ tranche_step f f'.
Proof.
  intros Hfresh Hf. destruct c as [rq fid' isOpen|fid' solver p|fid' now|fid' now]; simpl in *.
  - destruct (reserve_body fid' rq isOpen snap r) as [[res r']|] eqn:E; [|exists f; split; [done|constructor]].
    apply reserve_body_spec in E as [->|(fill & a & _ & _ & _ & _ & ->)]; [exists f; split; [done|constructor]|].
    simpl. rewrite get_set_ne by congruence. exists f. split; [done|constructor].
  - apply guarded_mark_step; [|done]. unfold can_fill. intros g Hg. bool_norm. by constructor.
  - apply guarded_mark_step; [|done]. intros g Hg. bool_norm. by constructor.
  - apply guarded_mark_step; [|done]. intros g Hg. bool_norm. by constructor.
Qed.

Lemma tranche_step_final f f' : tranche_step f f' -> if_status f <> fs_reserved -> f' = f.
Proof. by destruct 1. Qed.

Lemma sys_step_tranche src s s' fid f :
  sys_step src s s' -> get fid (fills (sys_repo s)) = Some f ->
  exists f', get fid (fills (sys_repo s')) = Some f' /\ tranche_step f f'.
Proof.
  intros Hstep Hf. destruct Hstep as [s c id|s id c q|s id c snap q Eq Hfresh]; simpl.
  - exists f. split; [done|constructor].
  - exists f. split; [done|constructor].
  - by apply complete_step.
Qed.

(** A fill racing the sweeper's slash has exactly one winner, and the clock
    decides: along any execution a tranche leaves [reserved] at most once, by a
    fill stamped before its deadline, a slash at or after it, or a release, and
    the row never changes again. *)
Theorem tranche_resolved_once src s s' fid f
    (Hrun : rtc (sys_step src) s s') (Hf : get fid (fills (sys_repo s)) = Some f) :
  exists f', get fid (fills (sys_repo s')) = Some f' /\ tranche_step f f' /\
    (if_status f <> fs_reserved -> f' = f).
Proof.
  revert f Hf. induction Hrun as [s|s s1 s2 Hstep _ IH]; intros f Hf.
  { exists f. split; [done|]. split; [constructor|done]. }
  destruct (sys_step_tranche src s s1 fid f Hstep Hf) as (f1 & Hf1 & Ht1).
  destruct (IH f1 Hf1) as (f2 & Hf2 & Ht2 & _). exists f2. split; [done|].
  assert (tranche_step f f2).
  { destruct (decide (if_status f1 = fs_reserved)) as [Hr|Hr].
    - assert (f1 = f) as <-; [|done]. by destruct Ht1.
    - by rewrite (tranche_step_final _ _ Ht2 Hr). }
  split; [done|]. by apply tranche_step_final.
Qed.

(** A fill at 90, then the sweeper's slash at 150 on the same tranche. *)
Definition demo_filled : Sys :=
  {| sys_repo := run_queue "i1" [CReserve (demo_request "S" "700") "f1" true;
       CFilled "f1" "S" {| fpt_dstAmount := "350"; fpt_feeAmount := "0"; fpt_txHash := None; fpt_filledAt := 90 |}]
       empty_fills;
     sys_queue := fun _ => [] |}.

Lemma tranche_resolved_once_witness :
  exists s' f f', rtc (sys_step demo_src) demo_filled s' /\
    sys_repo s' = run_queue "i1" [CSlashed "f1" 150] (sys_repo demo_filled) /\
    get "f1" (fills (sys_repo demo_filled)) = Some f /\ if_status f = fs_filled /\
    get "f1" (fills (sys_repo s')) = Some f' /\ f' = f.
Proof.
  destruct (run_one demo_src "i1" (CSlashed "f1" 150) demo_filled) as (s' & Hs' & E & _); [reflexivity..|exact I|exact I|].
  destruct (get "f1" (fills (sys_repo demo_filled))) as [f|] eqn:Ef; [|vm_compute in Ef; discriminate].
  destruct (tranche_resolved_once demo_src demo_filled s' "f1" f Hs' Ef) as (f' & Hf' & _ & Hfin).
  assert (Hst : if_status f = fs_filled) by (vm_compute in Ef; injection Ef as <-; reflexivity).
  exists s', f, f'. split; [exact Hs'|]. split; [exact E|]. split; [reflexivity|]. split; [exact Hst|].
  split; [exact Hf'|]. apply Hfin. rewrite Hst. discriminate.
Defined.
