(* ===== verification/SolverFills.v ===== *)
(** Per-fill ledger and solver statistics:
    [src/solvers/solver-fills.types.ts], [src/solvers/solver-fills.repository.ts].

    USD values are decimal strings with 8 fractional digits, converted to and
    from integer 1e-8 units.  A price is given in those units (the source
    computes [Math.round(price * 1e8)] from the oracle's number before any
    arithmetic).  The two percentiles are taken at the rational ranks 1/2 and
    95/100, which is what the epsilon of the source recovers from the floating
    point products; the mean is rounded half up like [Math.round]. *)
From S2P Require Import Prelude JsMap BigInt IntentTypes.
Local Open Scope Z_scope.

(** * Data *)

Inductive SolverFillOutcome := fo_filled | fo_failed | fo_reversed.

#[export] Instance SolverFillOutcome_eq_dec : EqDecision SolverFillOutcome.
Proof. solve_decision. Defined.

Definition outcome_name (o : SolverFillOutcome) : string :=
  match o with fo_filled => "filled" | fo_failed => "failed" | fo_reversed => "reversed" end.

Record SolverFillRecord := {
  sf_intentId : string;
  sf_solver : string;
  sf_chain : SupportedChain;
  sf_srcAmount : string;
  sf_dstAmount : option string;
  sf_usdValue : option string;
  sf_fillSeconds : option Z;
  sf_outcome : SolverFillOutcome;
  sf_ledger : option Z;
  sf_createdAt : Z;
}.

Inductive FillWindow := fw_24h | fw_7d | fw_30d | fw_all.

Definition windowStart (w : FillWindow) (now : Z) : option Z :=
  match w with
  | fw_all => None
  | fw_24h => Some (now - 24 * 60 * 60)
  | fw_7d => Some (now - 7 * 24 * 60 * 60)
  | fw_30d => Some (now - 30 * 24 * 60 * 60)
  end.

Record SolverFillAggregate := {
  ag_solver : string;
  ag_fillsCompleted : Z;
  ag_fillsFailed : Z;
  ag_totalVolume : string;
  ag_totalVolumeUsd : option string;
  ag_avgFillTime : Z;
  ag_p50FillTime : option Z;
  ag_p95FillTime : option Z;
}.

Record FillAggregateQuery := { fq_solver : option string; fq_since : option Z }.

(** * USD strings *)

Definition USD_SCALE : nat := 8.
Definition usd_scale : Z := 10 ^ Z.of_nat USD_SCALE.

(** ["0".repeat(n)] *)
Fixpoint zeros (n : nat) : string := match n with O => EmptyString | S n => String (Ascii.ascii_of_N 48) (zeros n) end.

Definition padStart (w : nat) (s : string) : string := zeros (w - String.length s) +:+ s.

Definition minus_char : Ascii.ascii := Ascii.ascii_of_N 45.

Definition startsWith_minus (s : string) : bool :=
  match s with String c _ => bool_decide (c = minus_char) | EmptyString => false end.

Definition or_zero (s : string) : string := if decide (s = EmptyString) then "0" else s.

(** [None] is the [SyntaxError] of a part that is not a number. *)
Definition usdToUnits (value : string) : option Z :=
  let negative := startsWith_minus value in
  let parts := split_on dot_char (if negative then String.substring 1 (String.length value - 1) value else value) in
  let whole := default EmptyString (parts !! 0%nat) in
  let frac := default EmptyString (parts !! 1%nat) in
  w ← BigInt (or_zero whole);
  f ← BigInt (or_zero (String.substring 0 USD_SCALE (frac +:+ zeros USD_SCALE)));
  let units := w * usd_scale + f in
  Some (if negative then - units else units).

Definition unitsToUsd (units : Z) : string :=
  let negative := units <? 0 in
  let abs := if negative then - units else units in
  let whole := abs / usd_scale in
  let frac := padStart USD_SCALE (toString (abs mod usd_scale)) in
  (if negative then "-" else "") +:+ (toString whole +:+ String dot_char frac).

(** [priceUnits] is the oracle price in 1e-8 USD, when it is known and positive. *)
Definition usdValueOf (amount : string) (decimals : Z) (priceUnits : option Z) : option string :=
  match priceUnits with
  | None => None
  | Some p =>
      if negb (digits_only amount) || (decimals <? 0) then None
      else a ← BigInt amount; Some (unitsToUsd (Z.quot (a * p) (10 ^ decimals)))
  end.

(** * Aggregation *)

(** Nearest rank at [num/den]. *)
Definition percentileNearestRank (sortedAsc : list Z) (num den : Z) : option Z :=
  let n := Z.of_nat (length sortedAsc) in
  if n =? 0 then None
  else
    let rank := Z.max 1 ((num * n + den - 1) / den) in
    sortedAsc !! Z.to_nat (Z.min rank n - 1).

Definition row_selected (q : FillAggregateQuery) (row : SolverFillRecord) : bool :=
  negb (match fq_solver q with Some s => negb (bool_decide (sf_solver row = s)) | None => false end) &&
  negb (match fq_since q with Some t => sf_createdAt row <? t | None => false end).

Definition group_rows (q : FillAggregateQuery) (rows : list SolverFillRecord) : jsmap (list SolverFillRecord) :=
  foldl (fun m row =>
    if row_selected q row then set (sf_solver row) (default [] (get (sf_solver row) m) ++ [row]) m else m) [] rows.

Record AggState := {
  as_completed : Z; as_volume : Z; as_usd : Z; as_priced : bool; as_times : list Z; as_failed : Z; as_reversed : Z
}.

Definition agg_row (a : AggState) (row : SolverFillRecord) : option AggState :=
  match sf_outcome row with
  | fo_failed => Some {| as_completed := as_completed a; as_volume := as_volume a; as_usd := as_usd a;
      as_priced := as_priced a; as_times := as_times a; as_failed := as_failed a + 1; as_reversed := as_reversed a |}
  | fo_reversed => Some {| as_completed := as_completed a; as_volume := as_volume a; as_usd := as_usd a;
      as_priced := as_priced a; as_times := as_times a; as_failed := as_failed a; as_reversed := as_reversed a + 1 |}
  | fo_filled =>
      v ← BigInt (default "0"%string (sf_dstAmount row));
      u ← match sf_usdValue row with Some x => usdToUnits x | None => Some 0 end;
      Some {| as_completed := as_completed a + 1; as_volume := as_volume a + v; as_usd := as_usd a + u;
        as_priced := as_priced a || bool_decide (is_Some (sf_usdValue row));
        as_times := as_times a ++ match sf_fillSeconds row with Some t => [t] | None => [] end;
        as_failed := as_failed a; as_reversed := as_reversed a |}
  end.

Definition agg_init : AggState :=
  {| as_completed := 0; as_volume := 0; as_usd := 0; as_priced := false; as_times := []; as_failed := 0; as_reversed := 0 |}.

Fixpoint agg_rows (a : AggState) (l : list SolverFillRecord) : option AggState :=
  match l with [] => Some a | row :: l => a' ← agg_row a row; agg_rows a' l end.

(** [Math.round(sum / n)] *)
Definition round_div (sum n : Z) : Z := (2 * sum + n) / (2 * n).

Definition agg_result (s : string) (a : AggState) : SolverFillAggregate :=
  let times := sort_by (fun x y => x - y) (as_times a) in
  {| ag_solver := s; ag_fillsCompleted := as_completed a; ag_fillsFailed := Z.max (as_failed a - as_reversed a) 0;
     ag_totalVolume := toString (as_volume a);
     ag_totalVolumeUsd := if as_priced a then Some (unitsToUsd (as_usd a)) else None;
     ag_avgFillTime := if bool_decide (times = []) then 0 else round_div (sumZ id times) (Z.of_nat (length times));
     ag_p50FillTime := percentileNearestRank times 1 2;
     ag_p95FillTime := percentileNearestRank times 95 100 |}.

Definition solver_cmp (a b : SolverFillAggregate) : Z :=
  if String.ltb (ag_solver a) (ag_solver b) then -1 else if String.ltb (ag_solver b) (ag_solver a) then 1 else 0.

Definition aggregateFills (rows : list SolverFillRecord) (q : FillAggregateQuery) : option (list SolverFillAggregate) :=
  l ← mapM (fun '(s, rs) => a ← agg_rows agg_init rs; Some (agg_result s a)) (group_rows q rows);
  Some (sort_by solver_cmp l).

(** * The in-memory ledger *)

(** The key set is the set of keys of the stored rows. *)
Record FillLedger := { fl_rows : list SolverFillRecord; fl_keys : list string }.

Definition empty_ledger : FillLedger := {| fl_rows := []; fl_keys := [] |}.

Definition ledger_key (f : SolverFillRecord) : string := sf_intentId f +:+ "|" +:+ outcome_name (sf_outcome f).

Definition record (f : SolverFillRecord) (l : FillLedger) : FillLedger :=
  if decide (ledger_key f ∈ fl_keys l) then l
  else {| fl_rows := fl_rows l ++ [f]; fl_keys := fl_keys l ++ [ledger_key f] |}.

Definition aggregate (q : FillAggregateQuery) (l : FillLedger) := aggregateFills (fl_rows l) q.

Definition findBySolver (s : string) (l : FillLedger) : list SolverFillRecord :=
  sort_by (fun a b => sf_createdAt a - sf_createdAt b) (filter (fun r => sf_solver r = s) (fl_rows l)).

(** * Lemmas *)

Lemma digits_no_minus s : digits_only s = true -> startsWith_minus s = false.
Proof.
  unfold digits_only. destruct s as [|c s]; [done|]. simpl. intros H. bool_norm.
  unfold is_digit in *. apply bool_decide_eq_false_2. intros ->. by vm_compute in H.
Qed.

Lemma zeros_digits n : all_chars is_digit (zeros n) = true.
Proof. by induction n. Qed.

Lemma length_app_str s1 s2 : String.length (s1 +:+ s2) = (String.length s1 + String.length s2)%nat.
Proof. induction s1 as [|c s1 IH]; simpl; [done|]. by rewrite <- IH. Qed.

Lemma length_zeros n : String.length (zeros n) = n.
Proof. induction n; simpl; congruence. Qed.

Lemma parse_zeros n s : parse_digits 10 0 (zeros n +:+ s) = parse_digits 10 0 s.
Proof. by induction n. Qed.

Lemma print_digits_length k : forall fuel n acc, 0 <= n < 10 ^ Z.of_nat (S k) ->
  (String.length (print_digits fuel n acc) <= String.length acc + S k)%nat.
Proof.
  induction k as [|k IH]; intros [|fuel] n acc Hn; simpl; try lia.
  - rewrite (proj2 (Z.ltb_lt n 10)) by (change (10 ^ Z.of_nat 1) with 10 in Hn; lia). simpl. lia.
  - destruct (n <? 10); simpl; [lia|].
    assert (Hb : 0 <= n / 10 < 10 ^ Z.of_nat (S k)).
    { rewrite (Nat2Z.inj_succ (S k)), Z.pow_succ_r in Hn by lia.
      split; [apply Z.div_pos; lia|apply Z.div_lt_upper_bound; lia]. }
    specialize (IH fuel (n / 10) (String (digit_char (n mod 10)) acc) Hb). simpl in IH. lia.
Qed.

Lemma toString_length k n : 0 <= n < 10 ^ Z.of_nat (S k) -> (String.length (toString n) <= S k)%nat.
Proof.
  intros Hn. unfold toString. rewrite (proj2 (Z.ltb_ge _ _)) by lia. by apply (print_digits_length k _ n EmptyString).
Qed.

Lemma substring_prefix s t : String.substring 0 (String.length s) (s +:+ t) = s.
Proof. induction s as [|c s IH]; simpl; [by destruct t|]. by f_equal. Qed.

Lemma padStart_length w s : (String.length s <= w)%nat -> String.length (padStart w s) = w.
Proof.
  intros Hs. unfold padStart. rewrite length_app_str, length_zeros. lia.
Qed.

Lemma padded_digits k f : 0 <= f < 10 ^ Z.of_nat (S k) ->
  let s := padStart (S k) (toString f) in
  String.length s = S k /\ digits_only s = true /\ BigInt s = Some f.
Proof.
  intros Hf s. assert (Hl : String.length s = S k) by (by apply padStart_length, toString_length).
  assert (Hd : digits_only s = true).
  { pose proof (toString_digits f ltac:(lia)) as H. unfold digits_only in *. bool_norm.
    apply andb_true_intro. split.
    - apply negb_true_iff, bool_decide_eq_false_2. intros Hs. rewrite Hs in Hl. done.
    - unfold s, padStart. rewrite all_chars_app, zeros_digits. done. }
  split; [done|]. split; [done|]. rewrite BigInt_digits by done. unfold s, padStart.
  rewrite parse_zeros. rewrite <- BigInt_digits by (apply toString_digits; lia). apply BigInt_toString.
Qed.

Lemma padded_frac f : 0 <= f < usd_scale ->
  let s := padStart USD_SCALE (toString f) in
  String.length s = USD_SCALE /\ digits_only s = true /\ BigInt s = Some f.
Proof. exact (padded_digits 7 f). Qed.

(** Two runs of digits around a dot. *)
Lemma split_decimal w f : digits_only w = true -> digits_only f = true -> split_on dot_char (w +:+ String dot_char f) = [w; f].
Proof.
  intros Hd Hp. unfold digits_only in Hd, Hp. bool_norm.
  rewrite split_on_one by (eapply all_chars_impl; [apply digit_not_dot|done]).
  by rewrite split_on_none by (eapply all_chars_impl; [apply digit_not_dot|done]).
Qed.

(** How Horizon prints a balance: seven decimals. *)
Definition horizon_text (stroops : Z) : string := toString (stroops / 10000000) +:+ String dot_char (padStart 7 (toString (stroops mod 10000000))).

Lemma split_horizon z : 0 <= z -> split_on dot_char (horizon_text z) = [toString (z / 10000000); padStart 7 (toString (z mod 10000000))].
Proof.
  intros Hz. destruct (padded_digits 6 (z mod 10000000)) as (_ & Hd & _); [apply Z.mod_pos_bound; lia|].
  apply split_decimal; [apply toString_digits, Z.div_pos; lia|done].
Qed.

(** Reading an unsigned amount printed with eight decimals. *)
Lemma usd_parts w f : 0 <= w -> 0 <= f < usd_scale ->
  let s := toString w +:+ String dot_char (padStart USD_SCALE (toString f)) in
  startsWith_minus s = false /\
  split_on dot_char s = [toString w; padStart USD_SCALE (toString f)].
Proof.
  intros Hw Hf s. pose proof (toString_digits w Hw) as Hd. destruct (padded_frac f Hf) as (_ & Hp & _). split.
  - subst s. assert (Hm := digits_no_minus (toString w) (toString_digits w Hw)).
    destruct (toString w) as [|c r]; [done|]. exact Hm.
  - by apply split_decimal.
Qed.

Lemma or_zero_nonempty s : s <> EmptyString -> or_zero s = s.
Proof. intros. unfold or_zero. by rewrite decide_False. Qed.

Lemma units_of_parts w f : 0 <= w -> 0 <= f < usd_scale ->
  (a ← BigInt (or_zero (toString w));
   b ← BigInt (or_zero (String.substring 0 USD_SCALE (padStart USD_SCALE (toString f) +:+ zeros USD_SCALE)));
   Some (a * usd_scale + b)) = Some (w * usd_scale + f).
Proof.
  intros Hw Hf. destruct (padded_frac f Hf) as (Hl & Hd & Hb).
  replace (String.substring 0 USD_SCALE (padStart USD_SCALE (toString f) +:+ zeros USD_SCALE))
    with (padStart USD_SCALE (toString f)) by (symmetry; rewrite <- Hl at 1; apply substring_prefix).
  rewrite !or_zero_nonempty; [|apply toString_nonempty|intros Hs; rewrite Hs in Hl; done].
  by rewrite BigInt_toString, Hb.
Qed.

(** USD amounts survive storage: for every integer number of 1e-8 units,
    negative ones included, reading the printed eight-decimal string gives the
    number back. *)
Theorem usd_roundtrip u : usdToUnits (unitsToUsd u) = Some u.
Proof.
  unfold unitsToUsd, usdToUnits.
  set (a := if u <? 0 then - u else u).
  assert (Ha : 0 <= a) by (unfold a; destruct (Z.ltb_spec u 0); lia).
  assert (Hsc : 0 < usd_scale) by reflexivity.
  pose proof (Z.mod_pos_bound a usd_scale Hsc) as Hf.
  assert (Hw : 0 <= a / usd_scale) by (apply Z.div_pos; lia).
  pose proof (units_of_parts _ _ Hw Hf) as Hu.
  destruct (usd_parts _ _ Hw Hf) as [Hm Hsp]. cbv zeta in Hm, Hsp.
  set (body := toString (a / usd_scale) +:+ String dot_char (padStart USD_SCALE (toString (a mod usd_scale)))) in *.
  assert (Hdm : a / usd_scale * usd_scale + a mod usd_scale = a)
    by (pose proof (Z.div_mod a usd_scale ltac:(lia)); lia).
  rewrite Hdm in Hu. destruct (u <? 0) eqn:Eneg.
  - change ("-" +:+ body) with (String minus_char body).
    assert (Hst : startsWith_minus (String minus_char body) = true) by done. rewrite Hst.
    assert (Hsub : String.substring 1 (String.length (String minus_char body) - 1) (String minus_char body) = body).
    { simpl. rewrite Nat.sub_0_r. apply substring_all. }
    rewrite Hsub, Hsp. cbn [lookup list_lookup default]. simpl.
    destruct (BigInt (or_zero (toString (a / usd_scale)))) as [x|]; [|done]. simpl in *.
    destruct (BigInt (or_zero _)) as [y|]; [|done]. simpl in *. injection Hu as Hu. f_equal. unfold a in Hu. lia.
  - change ("" +:+ body) with body. rewrite Hm, Hsp. simpl.
    destruct (BigInt (or_zero (toString (a / usd_scale)))) as [x|]; [|done]. simpl in *.
    destruct (BigInt (or_zero _)) as [y|]; [|done]. simpl in *. by injection Hu as ->.
Qed.

(** ** Percentiles *)

Definition count (p : Z -> bool) (l : list Z) : Z := Z.of_nat (length (filter (fun x => p x) l)).

Lemma count_app p l1 l2 : count p (l1 ++ l2) = count p l1 + count p l2.
Proof. unfold count. rewrite filter_app, length_app. lia. Qed.

Lemma count_all p l : (forall x, x ∈ l -> p x = true) -> count p l = Z.of_nat (length l).
Proof.
  induction l as [|x l IH]; intros H; [done|]. unfold count in *. rewrite filter_cons_True by (rewrite (H x); [done|by left]).
  simpl. rewrite !Nat2Z.inj_succ, IH; [done|]. intros y Hy. apply H. by right.
Qed.

Lemma count_none p l : (forall x, x ∈ l -> p x = false) -> count p l = 0.
Proof.
  induction l as [|x l IH]; intros H; [done|]. unfold count in *. rewrite filter_cons_False by (rewrite (H x); [auto|by left]).
  apply IH. intros y Hy. apply H. by right.
Qed.

Lemma count_bounds p l : 0 <= count p l <= Z.of_nat (length l).
Proof. unfold count. pose proof (length_filter (fun x => p x) l). lia. Qed.

Lemma sorted_lookup_counts l (k : nat) v :
  StronglySorted Z.le l -> l !! k = Some v ->
  Z.of_nat k + 1 <= count (fun x => x <=? v) l /\ count (fun x => x <? v) l <= Z.of_nat k.
Proof.
  intros Hs Hk. pose proof (take_drop_middle l k v Hk) as Hl. rewrite <- Hl in Hs |- *.
  rewrite !count_app. assert (Hlen : length (take k l) = k).
  { apply length_take_le. apply lookup_lt_Some in Hk. lia. }
  assert (Hbefore : forall x, x ∈ take k l -> x <= v).
  { intros x Hx. eapply (StronglySorted_app_1_elem_of Z.le); [exact Hs|done|by left]. }
  assert (Hafter : forall x, x ∈ v :: drop (S k) l -> v <= x).
  { apply StronglySorted_app_1_r in Hs. inversion_clear Hs as [|? ? _ Hall]. rewrite Forall_forall in Hall.
    intros x [->|Hx]%elem_of_cons; [done|by apply Hall]. }
  split.
  - rewrite (count_all _ (take k l)) by (intros x Hx; apply Z.leb_le; auto).
    assert (1 <= count (λ x : Z, x <=? v) (v :: drop (S k) l)).
    { unfold count. rewrite filter_cons_True by (by rewrite Z.leb_refl). simpl. lia. }
    lia.
  - rewrite (count_none _ (v :: _)) by (intros x Hx; apply Z.ltb_ge; auto).
    pose proof (count_bounds (fun x => x <? v) (take k l)). lia.
Qed.

(** Percentiles are nearest-rank: on a non-empty ascending list, the value
    reported at [num/den] is an element such that at least that fraction of the
    list is not above it, and less than that fraction is strictly below it. *)
Theorem percentile_nearest_rank l num den
    (Hs : StronglySorted Z.le l) (Hne : l <> []) (Hp : 0 < num <= den) :
  exists v, percentileNearestRank l num den = Some v /\ v ∈ l /\
    num * Z.of_nat (length l) <= den * count (fun x => x <=? v) l /\
    den * count (fun x => x <? v) l < num * Z.of_nat (length l).
Proof.
  unfold percentileNearestRank. set (n := Z.of_nat (length l)).
  assert (Hn : 0 < n) by (unfold n; destruct l; [done|]; simpl; lia).
  rewrite (proj2 (Z.eqb_neq n 0)) by lia.
  set (rank := Z.max 1 ((num * n + den - 1) / den)).
  pose proof (Z.div_mod (num * n + den - 1) den ltac:(lia)) as Hdm.
  pose proof (Z.mod_pos_bound (num * n + den - 1) den ltac:(lia)) as Hmb.
  set (c := (num * n + den - 1) / den) in *.
  assert (Hc1 : 1 <= c) by nia. assert (Hc2 : c <= n) by nia.
  assert (Hrank : rank = c) by (unfold rank; lia). rewrite Hrank, Z.min_l by lia.
  destruct (lookup_lt_is_Some_2 l (Z.to_nat (c - 1))) as [v Hv]; [unfold n in *; lia|].
  exists v. split; [done|]. split; [by eapply list_elem_of_lookup_2|].
  destruct (sorted_lookup_counts l _ v Hs Hv) as [H1 H2]. rewrite Z2Nat.id in H1, H2 by lia.
  split; nia.
Qed.

Lemma percentile_nearest_rank_witness :
  percentileNearestRank [10; 20; 20; 40] 95 100 = Some 40 /\
  exists v, percentileNearestRank [10; 20; 20; 40] 1 2 = Some v /\ v ∈ [10; 20; 20; 40] /\
    1 * Z.of_nat 4 <= 2 * count (fun x => x <=? v) [10; 20; 20; 40] /\
    2 * count (fun x => x <? v) [10; 20; 20; 40] < 1 * Z.of_nat 4.
Proof.
  split; [reflexivity|]. apply (percentile_nearest_rank [10; 20; 20; 40] 1 2).
  - repeat constructor; lia.
  - discriminate.
  - lia.
Defined.

(** ** The ledger *)

Lemma record_spec f l :
  NoDup (fl_keys l) -> fl_keys l = ledger_key <$> fl_rows l ->
  NoDup (fl_keys (record f l)) /\ fl_keys (record f l) = ledger_key <$> fl_rows (record f l) /\
  ledger_key f ∈ fl_keys (record f l) /\ (exists t, fl_rows (record f l) = fl_rows l ++ t /\ (t = [] \/ t = [f])).
Proof.
  intros Hnd Hk. unfold record. case_decide as Hin; simpl.
  - repeat split; try done. exists []. rewrite app_nil_r. auto.
  - split; [apply NoDup_app; split; [done|]; split; [|apply NoDup_singleton];
      intros x Hx ->%list_elem_of_singleton; done|].
    rewrite fmap_app, Hk. split; [done|]. split; [apply elem_of_app; right; by left|]. exists [f]. auto.
Qed.

(** The ledger never double-counts: after any sequence of writes there is
    at most one row per intent and outcome, every write is covered by a row
    with its key, every row is one of the writes, rows already stored keep
    their place, and replaying a write changes nothing. *)
Theorem ledger_never_double_counts fs l0 f
    (Hnd : NoDup (fl_keys l0)) (Hk : fl_keys l0 = ledger_key <$> fl_rows l0) :
  let l := foldl (fun l f => record f l) l0 fs in
  NoDup ((fun r => (sf_intentId r, outcome_name (sf_outcome r))) <$> fl_rows l) /\
  (forall g, g ∈ fs -> exists r, r ∈ fl_rows l /\ ledger_key r = ledger_key g) /\
  (exists t, fl_rows l = fl_rows l0 ++ t /\ forall r, r ∈ t -> r ∈ fs) /\
  (f ∈ fs -> record f l = l).
Proof.
  assert (Hgen : forall fs l0, NoDup (fl_keys l0) -> fl_keys l0 = ledger_key <$> fl_rows l0 ->
    let l := foldl (fun l f => record f l) l0 fs in
    NoDup (fl_keys l) /\ fl_keys l = ledger_key <$> fl_rows l /\
    (forall g, g ∈ fs -> ledger_key g ∈ fl_keys l) /\
    (exists t, fl_rows l = fl_rows l0 ++ t /\ forall r, r ∈ t -> r ∈ fs)).
  { clear. induction fs as [|g fs IH]; intros l0 Hnd Hk; simpl.
    - repeat split; try done; [intros g Hg; by apply not_elem_of_nil in Hg|].
      exists []. rewrite app_nil_r. split; [done|]. intros r Hr; by apply not_elem_of_nil in Hr.
    - destruct (record_spec g l0 Hnd Hk) as (Hnd1 & Hk1 & Hin1 & t1 & Ht1 & Hc1).
      destruct (IH (record g l0) Hnd1 Hk1) as (H1 & H2 & H3 & t2 & Ht2 & Hs2).
      split; [done|]. split; [done|]. split.
      + intros h [->|Hh]%elem_of_cons; [|by apply H3]. rewrite H2, Ht2, fmap_app, <- Hk1.
        apply elem_of_app. by left.
      + exists (t1 ++ t2). rewrite Ht2, Ht1, app_assoc. split; [done|].
        intros r [Hr|Hr]%elem_of_app; [|by right; apply Hs2].
        destruct Hc1 as [->| ->]; [by apply not_elem_of_nil in Hr|]. apply list_elem_of_singleton in Hr as ->. by left. }
  intros l. destruct (Hgen fs l0 Hnd Hk) as (H1 & H2 & H3 & H4). fold l in H1, H2, H3, H4.
  split; [|split; [|split; [done|]]].
  - apply (NoDup_fmap_1 (fun '(a, b) => a +:+ ("|" +:+ b))). rewrite <- list_fmap_compose.
    assert (E : ((λ '(a, b), a +:+ "|" +:+ b) ∘ (λ r, (sf_intentId r, outcome_name (sf_outcome r))) <$> fl_rows l)
      = ledger_key <$> fl_rows l) by (by apply list_fmap_ext). by rewrite E, <- H2.
  - intros g Hg. specialize (H3 g Hg). rewrite H2 in H3. apply list_elem_of_fmap in H3 as (r & Hr & Hin). eauto.
  - intros Hf. unfold record. by rewrite decide_True by (by apply H3).
Qed.

Definition demo_row (id s : string) (o : SolverFillOutcome) (secs : option Z) : SolverFillRecord :=
  {| sf_intentId := id; sf_solver := s; sf_chain := ethereum; sf_srcAmount := "1000"; sf_dstAmount := Some "500"%string;
     sf_usdValue := Some "1.25000000"%string; sf_fillSeconds := secs; sf_outcome := o; sf_ledger := None; sf_createdAt := 77 |}.

Lemma ledger_never_double_counts_witness :
  let fs := [demo_row "i1" "S" fo_failed None; demo_row "i1" "S" fo_reversed None;
             demo_row "i1" "S" fo_filled (Some 60); demo_row "i1" "S" fo_filled (Some 90)] in
  let l := foldl (fun l f => record f l) empty_ledger fs in
  length (fl_rows l) = 3%nat /\
  NoDup ((fun r => (sf_intentId r, outcome_name (sf_outcome r))) <$> fl_rows l).
Proof.
  intros fs l. split; [reflexivity|].
  exact (proj1 (ledger_never_double_counts fs empty_ledger (demo_row "i1" "S" fo_failed None) (NoDup_nil_2) eq_refl)).
Defined.

(** ** Aggregates *)

(** The rows of one solver that a query selects, in ledger order. *)
Definition rows_of (q : FillAggregateQuery) (s : string) (rows : list SolverFillRecord) : list SolverFillRecord :=
  filter (fun r => row_selected q r && bool_decide (sf_solver r = s)) rows.

Lemma group_rows_spec q rows :
  wf (group_rows q rows) /\
  forall s, get s (group_rows q rows) = (if decide (rows_of q s rows = []) then None else Some (rows_of q s rows)).
Proof.
  unfold group_rows, rows_of. induction rows as [|row rows [IHwf IH]] using rev_ind; [split; [apply empty_wf|done]|].
  rewrite foldl_app. simpl. destruct (row_selected q row) eqn:Es.
  - split; [by apply set_wf|]. intros s. rewrite get_set, filter_app. case_decide as Hs; subst.
    + rewrite filter_cons_True by (rewrite Es; simpl; by case_bool_decide).
      rewrite decide_False by (intros H; apply app_eq_nil in H; naive_solver).
      rewrite IH. by case_decide as Hd; simpl; rewrite ?Hd.
    + rewrite filter_cons_False by (rewrite Es; simpl; rewrite bool_decide_eq_false_2 by done; auto).
      by rewrite app_nil_r.
  - split; [done|]. intros s. rewrite filter_app, filter_cons_False by (rewrite Es; auto). by rewrite app_nil_r.
Qed.

Definition row_volume (r : SolverFillRecord) : Z := default 0 (BigInt (default "0"%string (sf_dstAmount r))).
Definition has_outcome (o : SolverFillOutcome) (r : SolverFillRecord) : Z := if decide (sf_outcome r = o) then 1 else 0.

Lemma agg_rows_spec l a a' :
  agg_rows a l = Some a' ->
  as_completed a' = as_completed a + sumZ (has_outcome fo_filled) l /\
  as_failed a' = as_failed a + sumZ (has_outcome fo_failed) l /\
  as_reversed a' = as_reversed a + sumZ (has_outcome fo_reversed) l /\
  as_volume a' = as_volume a + sumZ (fun r => has_outcome fo_filled r * row_volume r) l.
Proof.
  revert a. induction l as [|r l IH]; simpl; intros a H; [simplify_eq; lia|].
  destruct (agg_row a r) as [b|] eqn:E; simpl in H; [|done]. apply IH in H as (-> & -> & -> & ->).
  assert (Hh : forall o, has_outcome o r = if decide (sf_outcome r = o) then 1 else 0) by done.
  assert (Hv : row_volume r = default 0 (BigInt (default "0"%string (sf_dstAmount r)))) by done.
  rewrite !Hh, Hv. unfold agg_row in E.
  destruct (sf_outcome r); simplify_eq/=; [|lia|lia].
  destruct (BigInt (default _ _)) as [v|]; simpl in E; [|done].
  destruct (match sf_usdValue r with Some _ => _ | None => _ end); simpl in E; [|done]. simplify_eq/=. lia.
Qed.

(** Statistics are exactly what the ledger says: each solver with a
    selected row is reported once, and its completed and failed counts and its
    volume are those of its selected rows - a [reversed] row cancels one
    failure and never makes the count negative. *)
Theorem aggregateFills_exact rows q l
    (H : aggregateFills rows q = Some l) :
  NoDup (ag_solver <$> l) /\
  (forall r, r ∈ rows -> row_selected q r = true -> sf_solver r ∈ ag_solver <$> l) /\
  forall a, a ∈ l ->
    let rs := rows_of q (ag_solver a) rows in
    rs <> [] /\ ag_fillsCompleted a = sumZ (has_outcome fo_filled) rs /\
    ag_fillsFailed a = Z.max (sumZ (has_outcome fo_failed) rs - sumZ (has_outcome fo_reversed) rs) 0 /\
    ag_totalVolume a = toString (sumZ (fun r => has_outcome fo_filled r * row_volume r) rs).
Proof.
  unfold aggregateFills in H. destruct (group_rows_spec q rows) as [Hwf Hget].
  destruct (mapM _ (group_rows q rows)) as [l0|] eqn:Em; simpl in H; [|done]. injection H as <-.
  assert (Hl0 : Forall2 (fun '(s, rs) a => ag_solver a = s /\ exists st, agg_rows agg_init rs = Some st /\ a = agg_result s st)
    (group_rows q rows) l0).
  { apply mapM_Some_1 in Em. eapply Forall2_impl; [exact Em|]. intros [s rs] a Ha. simpl in Ha.
    destruct (agg_rows agg_init rs) as [st|]; simpl in Ha; [|done]. injection Ha as <-. split; [done|]. by exists st. }
  assert (Hkeys : ag_solver <$> l0 = keys (group_rows q rows)).
  { clear -Hl0. induction Hl0 as [|[s rs] a m l0 [Hs _] _ IH]; csimpl; [done|]. by rewrite IH, Hs. }
  split; [|split].
  - rewrite sort_by_perm, Hkeys. exact Hwf.
  - intros r Hr Hsel. rewrite sort_by_perm, Hkeys.
    destruct (decide (sf_solver r ∈ keys (group_rows q rows))) as [|Hn]; [done|].
    apply get_None_keys in Hn. rewrite Hget in Hn. case_decide as Hd; [|done].
    exfalso. apply (not_elem_of_nil r). rewrite <- Hd. apply list_elem_of_filter.
    split; [|done]. rewrite Hsel. simpl. by rewrite bool_decide_eq_true_2.
  - intros a Ha rs. rewrite elem_of_sort_by in Ha. apply list_elem_of_lookup in Ha as [n Hn].
    destruct (Forall2_lookup_r _ _ _ _ _ Hl0 Hn) as ([s rs'] & Hm & Hs & st & Hst & Ea). subst s.
    assert (Hrs : get (ag_solver a) (group_rows q rows) = Some rs')
      by (apply elem_of_get; [done|by eapply list_elem_of_lookup_2]).
    rewrite Hget in Hrs. case_decide as Hd; [done|]. injection Hrs as Hrs. fold rs in Hrs, Hd. rewrite <- Hrs in Hst.
    apply agg_rows_spec in Hst as (H1 & H2 & H3 & H4). rewrite Ea. simpl. rewrite H1, H2, H3, H4. simpl.
    split; [done|]. split; [lia|]. split; [lia|]. f_equal.
Qed.

Lemma aggregateFills_exact_witness :
  let rows := [demo_row "i1" "S" fo_failed None; demo_row "i1" "S" fo_reversed None;
               demo_row "i2" "T" fo_filled (Some 60)] in
  let q := {| fq_solver := None; fq_since := None |} in
  match aggregateFills rows q with
  | Some l => (ag_solver <$> l) = ["S"; "T"]%string /\
      forall a, a ∈ l -> ag_fillsFailed a =
        Z.max (sumZ (has_outcome fo_failed) (rows_of q (ag_solver a) rows)
               - sumZ (has_outcome fo_reversed) (rows_of q (ag_solver a) rows)) 0
  | None => False
  end.
Proof.
  intros rows q. destruct (aggregateFills rows q) as [l|] eqn:E; [|vm_compute in E; discriminate].
  split; [vm_compute in E; injection E as <-; reflexivity|].
  intros a Ha. exact (proj1 (proj2 (proj2 (proj2 (proj2 (aggregateFills_exact rows q l E)) a Ha)))).
Defined.
