(* ===== verification/IntentsService.v ===== *)
(** The intents service: [src/intents/intents.service.ts].

    Every operation is a [prog] over the state the process keeps: the
    repository (any [IntentsRepository]), the in-memory audit log, the funnel
    counters, the cache invalidations, the deadline jobs armed, the fill
    ledger, the outbox and the idempotency cache.  A step boundary is an
    [await].  What the process gets from outside is an [Env]: the rollout flag,
    the answer of the settlement contract, token prices, governance parameters,
    the clock and the fresh uuid.

    Not modelled: log lines, the shadow-mode observer (it only reads), and the
    fire-and-forget database copy of the audit log. *)
From S2P Require Import Prelude JsMap BigInt IntentTypes StateMachine IntentsRepo Prog SolverFills FillsRepo.
From stdpp Require Import relations.
Local Open Scope Z_scope.

(** * State and environment *)

Inductive DeadlineJobKind := expire_intent | fill_window_expired.

Record DeadlineJob := { dj_kind : DeadlineJobKind; dj_intentId : string; dj_deadline : Z }.

(** Exceptions, by HTTP status. *)
Inductive ServiceError :=
  | Illegal (e : IllegalTransition)
  | ServiceUnavailable
  | BadRequest (msg : string)
  | Forbidden (msg : string)
  | NotFound (msg : string)
  | ConflictError (msg : string)
  | Gone (msg : string)
  | BadNumber.

(** Messages pushed to subscribers and calls made to the solver registry,
    recorded in order. *)
Inductive Effect :=
  | Broadcast (type_ : string) (intentId : string) (progress : option FillProgress)
  | RecordSuccessfulFill (solver : string) (amount : option string)
  | RecordFailedFill (solver intentId : string)
  | RecordSlash (solver intentId : string) (at_ : Z)
  | RecordUnfilled (solver intentId : string) (at_ : Z)
  | SlashOnChain (solver intentId : string).

Record World (R : Type) := {
  w_repo : R;
  w_fills : FillsRepo;
  w_audit : jsmap (list IntentAuditEntry);
  w_metrics : list (string * string);
  w_invalidations : Z;
  w_jobs : list DeadlineJob;
  w_ledger : FillLedger;
  w_outbox : list Intent;
  w_idem : jsmap (string * Z);
  w_effects : list Effect;
}.
Arguments w_repo {R} _.
Arguments w_fills {R} _.
Arguments w_audit {R} _.
Arguments w_metrics {R} _.
Arguments w_invalidations {R} _.
Arguments w_jobs {R} _.
Arguments w_ledger {R} _.
Arguments w_outbox {R} _.
Arguments w_idem {R} _.
Arguments w_effects {R} _.

Record Env := {
  e_onchain : Intent -> bool;
  e_contractConfigured : bool;
  e_invoke : PendingIntentOp -> Intent -> option string;
  e_unitOfWork : bool;
  e_encodes : Intent -> bool;
  e_fillLedger : bool;
  e_dstPrice : string -> option Z;
  e_srcPrice : SupportedChain -> string -> option Z;
  e_paramsDeadline : SupportedChain -> Z;
  e_paramsVersion : SupportedChain -> Z;
  e_depositVerification : bool;
  e_clockMs : Z;
}.

Section updates.
Context {R : Type}.
Implicit Types w : World R.

Definition set_repo (r : R) w : World R :=
  {| w_repo := r; w_fills := w_fills w; w_audit := w_audit w; w_metrics := w_metrics w;
     w_invalidations := w_invalidations w; w_jobs := w_jobs w; w_ledger := w_ledger w; w_outbox := w_outbox w;
     w_idem := w_idem w; w_effects := w_effects w |}.
Definition set_fills (f : FillsRepo) w : World R :=
  {| w_repo := w_repo w; w_fills := f; w_audit := w_audit w; w_metrics := w_metrics w;
     w_invalidations := w_invalidations w; w_jobs := w_jobs w; w_ledger := w_ledger w; w_outbox := w_outbox w;
     w_idem := w_idem w; w_effects := w_effects w |}.
Definition add_audit (id : string) (e : IntentAuditEntry) w : World R :=
  {| w_repo := w_repo w; w_fills := w_fills w;
     w_audit := set id (default [] (get id (w_audit w)) ++ [e]) (w_audit w); w_metrics := w_metrics w;
     w_invalidations := w_invalidations w; w_jobs := w_jobs w; w_ledger := w_ledger w; w_outbox := w_outbox w;
     w_idem := w_idem w; w_effects := w_effects w |}.
Definition countTransition (from to : string) w : World R :=
  {| w_repo := w_repo w; w_fills := w_fills w; w_audit := w_audit w; w_metrics := w_metrics w ++ [(from, to)];
     w_invalidations := w_invalidations w; w_jobs := w_jobs w; w_ledger := w_ledger w; w_outbox := w_outbox w;
     w_idem := w_idem w; w_effects := w_effects w |}.
(** [changed()]: drop the cached read models. *)
Definition changed w : World R :=
  {| w_repo := w_repo w; w_fills := w_fills w; w_audit := w_audit w; w_metrics := w_metrics w;
     w_invalidations := w_invalidations w + 1; w_jobs := w_jobs w; w_ledger := w_ledger w; w_outbox := w_outbox w;
     w_idem := w_idem w; w_effects := w_effects w |}.
Definition add_job (j : DeadlineJob) w : World R :=
  {| w_repo := w_repo w; w_fills := w_fills w; w_audit := w_audit w; w_metrics := w_metrics w;
     w_invalidations := w_invalidations w; w_jobs := w_jobs w ++ [j]; w_ledger := w_ledger w; w_outbox := w_outbox w;
     w_idem := w_idem w; w_effects := w_effects w |}.
Definition set_ledger (l : FillLedger) w : World R :=
  {| w_repo := w_repo w; w_fills := w_fills w; w_audit := w_audit w; w_metrics := w_metrics w;
     w_invalidations := w_invalidations w; w_jobs := w_jobs w; w_ledger := l; w_outbox := w_outbox w;
     w_idem := w_idem w; w_effects := w_effects w |}.
Definition add_outbox (i : Intent) w : World R :=
  {| w_repo := w_repo w; w_fills := w_fills w; w_audit := w_audit w; w_metrics := w_metrics w;
     w_invalidations := w_invalidations w; w_jobs := w_jobs w; w_ledger := w_ledger w; w_outbox := w_outbox w ++ [i];
     w_idem := w_idem w; w_effects := w_effects w |}.
Definition set_idem (m : jsmap (string * Z)) w : World R :=
  {| w_repo := w_repo w; w_fills := w_fills w; w_audit := w_audit w; w_metrics := w_metrics w;
     w_invalidations := w_invalidations w; w_jobs := w_jobs w; w_ledger := w_ledger w; w_outbox := w_outbox w;
     w_idem := m; w_effects := w_effects w |}.
Definition add_effect (e : Effect) w : World R :=
  {| w_repo := w_repo w; w_fills := w_fills w; w_audit := w_audit w; w_metrics := w_metrics w;
     w_invalidations := w_invalidations w; w_jobs := w_jobs w; w_ledger := w_ledger w; w_outbox := w_outbox w;
     w_idem := w_idem w; w_effects := w_effects w ++ [e] |}.
End updates.

(** * Pure helpers *)

(** [Partial<TransitionContext>], spread over the defaults of the caller. *)
Record PartialContext := {
  pc_actor : option string;
  pc_reason : option string;
  pc_metadata : option (jsmap MetaValue);
  pc_override : option bool;
  pc_at : option Z;
}.

Definition no_ctx : PartialContext :=
  {| pc_actor := None; pc_reason := None; pc_metadata := None; pc_override := None; pc_at := None |}.

(** [{ actor, reason, ...ctx }] *)
Definition full_ctx (actor : string) (reason : option string) (ctx : PartialContext) : TransitionContext :=
  {| tc_actor := default actor (pc_actor ctx);
     tc_reason := match pc_reason ctx with Some r => Some r | None => reason end;
     tc_metadata := pc_metadata ctx; tc_override := pc_override ctx; tc_at := pc_at ctx |}.

Definition PENDING_STATE_BY_OP (op : PendingIntentOp) : IntentState :=
  match op with
  | op_create => pending_open | op_accept => pending_accepted
  | op_fill => pending_filled | op_cancel => pending_cancelled
  end.

Definition CONFIRMED_STATE_BY_PENDING (s : IntentState) : option IntentState :=
  match s with
  | pending_open => Some open | pending_accepted => Some accepted
  | pending_filled => Some filled | pending_cancelled => Some cancelled
  | _ => None
  end.

Definition IDEMPOTENCY_TTL_SECONDS : Z := 86400.
Definition MAX_OPEN_INTENTS_PER_USER : Z := 50.
Definition MAX_VERSION_RETRIES : nat := 3.
Definition NONE_STATE : string := "none".

(** [priceUnits]: the token price in 1e-8 USD.  A negative number of decimals
    makes [10n ** BigInt(decimals)] throw. *)
Definition computeUsdValue (srcAmount : string) (decimals : Z) (priceUnits : option Z) : option Z :=
  p ← priceUnits;
  a ← BigInt srcAmount;
  if decimals <? 0 then None else Some (Z.quot (a * p) (10 ^ decimals * 100000000)).

(** [{ ...m1, ...m2 }] *)
Definition merge {V} (m1 m2 : jsmap V) : jsmap V := foldl (fun m '(k, v) => set k v m) m1 m2.

(** Drop the undefined entries of an object literal. *)
Definition defined (l : list (string * option MetaValue)) : jsmap MetaValue :=
  merge [] (omap (fun '(k, o) => (fun v => (k, v)) <$> o) l).

Definition buildFillRecord (env : Env) (i : Intent) (o : SolverFillOutcome) (now : Z) : SolverFillRecord :=
  let src := if digits_only (srcAmount i) then srcAmount i else "0"%string in
  match o with
  | fo_filled =>
      let dst := match fillAmount i with
                 | Some a => if digits_only a then a else "0"%string
                 | None => "0"%string end in
      let at_ := default now (filledAt i) in
      {| sf_intentId := intentId i; sf_solver := default EmptyString (solver i); sf_chain := srcChain i;
         sf_srcAmount := src; sf_dstAmount := Some dst;
         sf_usdValue := usdValueOf dst (st_decimals (dstToken i)) (e_dstPrice env (st_contract (dstToken i)));
         sf_fillSeconds := Some (at_ - createdAt i); sf_outcome := fo_filled; sf_ledger := None; sf_createdAt := at_ |}
  | _ =>
      {| sf_intentId := intentId i; sf_solver := default EmptyString (solver i); sf_chain := srcChain i;
         sf_srcAmount := src; sf_dstAmount := None;
         sf_usdValue := usdValueOf src (tok_decimals (srcToken i)) (e_srcPrice env (srcChain i) (tok_address (srcToken i)));
         sf_fillSeconds := None; sf_outcome := o; sf_ledger := None; sf_createdAt := default now (slashedAt i) |}
  end.

(** The patch [{ txHash }] of a compensation, absent by default. *)
Definition tx_patch (tx : option (option string)) : IntentPatch :=
  match tx with Some t => [P_txHash t] | None => [] end.

(** * Operations *)

Section service.
Context {R : Type} `{Hrepo : IntentsRepository R} (env : Env).
Local Abbreviation W := (World R).
Local Abbreviation M := (prog W ServiceError).
Local Open Scope prog_scope.

Definition plan_transition (id : string) (from to : IntentState) (ctx : TransitionContext) : M TransitionPlan :=
  match transition (e_clockMs env) id from to ctx with
  | Ok plan => Done plan
  | Err e => Throw (Illegal e)
  end.

(** A repository write, as one step. *)
Definition repo_write {A} (f : R -> A * R) : M A :=
  atomic (fun w => ((f (w_repo w)).1, set_repo (f (w_repo w)).2 w)).

Definition find_intent (id : string) : M (option Intent) := reads (fun w => repo_find id (w_repo w)).

(** Funnel counter and audit entry of a committed plan; entries of [extra]
    lose to the plan's own metadata on a key clash. *)
Definition recordTransition (plan : TransitionPlan) (extra : jsmap MetaValue) : W -> W :=
  fun w =>
    add_audit (p_intentId plan)
      {| ae_timestamp := ae_timestamp (p_audit plan); ae_toState := ae_toState (p_audit plan);
         ae_actor := ae_actor (p_audit plan); ae_reason := ae_reason (p_audit plan);
         ae_metadata := Some (merge extra (default [] (ae_metadata (p_audit plan)))) |}
      (countTransition (state_name (p_from plan)) (state_name (p_to plan)) w).

Definition appendAuditEntry (id : string) (to : IntentState) (actor reason : string)
    (metadata : option (jsmap MetaValue)) : W -> W :=
  add_audit id {| ae_timestamp := e_clockMs env; ae_toState := to; ae_actor := actor; ae_reason := reason;
                  ae_metadata := metadata |}.

(** Record, then invalidate the caches (a second step). *)
Definition committed (plan : TransitionPlan) (extra : jsmap MetaValue) : M unit :=
  modify (recordTransition plan extra) ;;; modify changed.

Definition scheduleExpire (i : Intent) : W -> W :=
  add_job {| dj_kind := expire_intent; dj_intentId := intentId i; dj_deadline := deadline i |}.
Definition scheduleFillWindow (i : Intent) : W -> W :=
  add_job {| dj_kind := fill_window_expired; dj_intentId := intentId i; dj_deadline := deadline i |}.

(** The write and its ledger row commit together. *)
Definition withFillRecord (o : SolverFillOutcome) (now : Z) (mutate : R -> MutationResult * R) : M MutationResult :=
  atomic (fun w =>
    let '(res, r') := mutate (w_repo w) in
    let w' := set_repo r' w in
    match res with
    | Written i =>
        if e_fillLedger env && truthy_str (solver i)
        then (res, set_ledger (record (buildFillRecord env i o now) (w_ledger w')) w') else (res, w')
    | _ => (res, w')
    end).

Definition transitionToOnChainPending (id : string) (op : PendingIntentOp) (tx : option string)
    (ctx : PartialContext) : M (option Intent) :=
  found <- find_intent id;
  match found with
  | None => Done None
  | Some i =>
      plan <- plan_transition (intentId i) (state i) (PENDING_STATE_BY_OP op) (full_ctx "system" None ctx);
      res <- repo_write (repo_transition id (p_from plan) [P_pendingOp (Some op); P_pendingTxHash tx] (p_to plan));
      match written res with
      | None => Done None
      | Some u =>
          committed plan (defined [("op", Some (MStr (op_name op)));
                                   ("txHash", if truthy_str tx then MStr <$> tx else None)]%string) ;;;
          Done (Some u)
      end
  end.

(** The broadcast is best effort; the write it follows has committed. *)
Definition parkWithBroadcast (i : Intent) (op : PendingIntentOp) : M Intent :=
  tx <- reads (fun _ : W => if e_contractConfigured env then e_invoke env op i else None);
  parked <- transitionToOnChainPending (intentId i) op tx no_ctx;
  Done (default i parked).

Definition finish_write (i : Intent) (op : PendingIntentOp) : M (option Intent) :=
  if e_onchain env i then i' <- parkWithBroadcast i op; Done (Some i') else Done (Some i).

Definition svc_acceptIfOpen (id sol : string) (now : Z) (ctx : PartialContext) : M (option Intent) :=
  found <- find_intent id;
  match found with
  | None => Done None
  | Some i =>
      plan <- plan_transition id open accepted (full_ctx sol None ctx);
      res <- repo_write (repo_accept id sol (now + fill_window (srcChain i)) now None);
      match written res with
      | None => Done None
      | Some u =>
          committed plan (defined [("deadline", Some (MNum (deadline u)))]%string) ;;;
          modify (scheduleFillWindow u) ;;;
          finish_write u op_accept
      end
  end.

Definition patch_fillAmount (p : IntentPatch) : option string :=
  foldl (fun o f => match f with P_fillAmount v => v | _ => o end) None p.
Definition patch_txHash (p : IntentPatch) : option string :=
  foldl (fun o f => match f with P_txHash v => v | _ => o end) None p.

Definition svc_fillIfAccepted (id sol : string) (patch : IntentPatch) (now : Z) (ctx : PartialContext) : M (option Intent) :=
  plan <- plan_transition id accepted filled (full_ctx sol None ctx);
  res <- withFillRecord fo_filled now (repo_fill id sol patch now None);
  match written res with
  | None => Done None
  | Some u =>
      committed plan (defined [("fillAmount", MStr <$> patch_fillAmount patch);
                               ("txHash", MStr <$> patch_txHash patch)]%string) ;;;
      finish_write u op_fill
  end.

Definition settlePartialFill (id sol : string) (patch : IntentPatch) (now : Z) : M (option Intent) :=
  found <- find_intent id;
  match found with
  | None => Done None
  | Some i =>
      res <- repo_write (repo_accept id sol (now + fill_window (srcChain i)) now None);
      match written res with
      | None => Done None
      | Some _ =>
          modify (countTransition "open" "accepted") ;;;
          res2 <- repo_write (repo_fill id sol patch now None);
          match written res2 with
          | None => Done None
          | Some f => modify (countTransition "accepted" "filled") ;;; Done (Some f)
          end
      end
  end.

Definition svc_cancelIfOpen (id : string) (ctx : PartialContext) : M (option Intent) :=
  plan <- plan_transition id open cancelled (full_ctx "system" None ctx);
  res <- repo_write (repo_cancel id None);
  match written res with
  | None => Done None
  | Some u => committed plan [] ;;; finish_write u op_cancel
  end.

Definition confirmIntent (id : string) (ctx : PartialContext) : M (option Intent) :=
  found <- find_intent id;
  match found with
  | None => Done None
  | Some i =>
      match CONFIRMED_STATE_BY_PENDING (state i) with
      | None => Done None
      | Some target =>
          plan <- plan_transition (intentId i) (state i) target (full_ctx "system" None ctx);
          res <- repo_write (repo_transition id (p_from plan) [P_pendingTxHash None; P_pendingOp None] target);
          match written res with
          | None => Done None
          | Some u =>
              committed plan (defined [("txHash", if truthy_str (pendingTxHash i) then MStr <$> pendingTxHash i else None)]%string) ;;;
              Done (Some u)
          end
      end
  end.

(** Ledger rows of a rolled-back slash: [reversed], and [filled] when the
    fill landed. *)
Definition record_compensation (before after : Intent) (to : IntentState) (now : Z) (l : FillLedger) : FillLedger :=
  let l := record (let f := buildFillRecord env before fo_failed now in
             {| sf_intentId := sf_intentId f; sf_solver := sf_solver f; sf_chain := sf_chain f;
                sf_srcAmount := sf_srcAmount f; sf_dstAmount := sf_dstAmount f; sf_usdValue := sf_usdValue f;
                sf_fillSeconds := sf_fillSeconds f; sf_outcome := fo_reversed; sf_ledger := sf_ledger f;
                sf_createdAt := sf_createdAt f |}) l in
  if decide (to = filled) then record (buildFillRecord env after fo_filled now) l else l.

Definition compensateSlash (id : string) (to : IntentState) (ctx : TransitionContext) (tx : option (option string))
    (now : Z) : M (option Intent) :=
  found <- find_intent id;
  match found with
  | None => Done None
  | Some i =>
      if negb (bool_decide (state i = slashed)) then Done None
      else
        plan <- plan_transition (intentId i) (state i) to
          {| tc_actor := tc_actor ctx; tc_reason := tc_reason ctx; tc_metadata := tc_metadata ctx;
             tc_override := Some true; tc_at := tc_at ctx |};
        res <- atomic (fun w : W =>
          let '(res, r') := repo_transition id slashed (tx_patch tx) to (w_repo w) in
          let w' := set_repo r' w in
          match written res with
          | Some u => (res, if e_fillLedger env && truthy_str (solver i)
                            then set_ledger (record_compensation i u to now (w_ledger w')) w' else w')
          | None => (res, w')
          end);
        match written res with
        | None => Done None
        | Some u => committed plan [] ;;; Done (Some u)
        end
  end.

(** Reads the state, then patches it unconditionally. *)
Definition settleCancelledSlash (id : string) (to : IntentState) (tx : option string) (now : Z) : M (option Intent) :=
  found <- find_intent id;
  match found with
  | None => Done None
  | Some i =>
      if negb (bool_decide (state i = slashed)) then Done None
      else
        res <- atomic (fun w : W =>
          let patch := if decide (to = filled) then [P_state filled; P_txHash tx] else [P_state expired] in
          let '(res, r') := repo_update id patch None (w_repo w) in
          let w' := set_repo r' w in
          match written res with
          | Some u => (res, if e_fillLedger env && truthy_str (solver i)
                            then set_ledger (record_compensation i u to now (w_ledger w')) w' else w')
          | None => (res, w')
          end);
        match written res with
        | None => Done None
        | Some u => modify changed ;;; Done (Some u)
        end
  end.

Definition svc_expireIfOpen (id : string) (ctx : PartialContext) : M (option Intent) :=
  plan <- plan_transition id open expired (full_ctx "system" None ctx);
  res <- repo_write (repo_expire id None);
  match written res with
  | None => Done None
  | Some u => committed plan (defined [("deadline", Some (MNum (deadline u)))]%string) ;;; Done (Some u)
  end.

Definition svc_slashIfAccepted (id : string) (at_ : Z) (reason : string) (ctx : PartialContext) : M (option Intent) :=
  plan <- plan_transition id accepted slashed (full_ctx "system" (Some reason) ctx);
  res <- withFillRecord fo_failed at_ (repo_slash id at_ reason None);
  match written res with
  | None => Done None
  | Some u =>
      committed plan (defined [("solver", MStr <$> solver u); ("slashedAt", Some (MNum at_))]%string) ;;;
      Done (Some u)
  end.

Definition svc_extendDeadlineIfAccepted (id : string) (newDeadline : Z) : M (option Intent) :=
  res <- repo_write (repo_extend id newDeadline None);
  match written res with
  | None => Done None
  | Some u => modify (scheduleFillWindow u) ;;; Done (Some u)
  end.

Definition svc_update (id : string) (patch : IntentPatch) (ev : option Z) : M (option Intent) :=
  res <- repo_write (repo_update id patch ev);
  match written res with
  | None => Done None
  | Some u => modify changed ;;; Done (Some u)
  end.

Definition svc_amendIfOpen (id minDst : string) (newDeadline now : Z) : M (option Intent) :=
  amended <- repo_write (repo_amend id minDst newDeadline now);
  match amended with
  | None => Done None
  | Some i => modify changed ;;; Done (Some i)
  end.

(** Read, attempt a versioned write built from what was read, and start over
    on a conflict, at most [attempts] times. *)
Fixpoint mutateWithRetry (id : string) (mutate : Intent -> option (R -> MutationResult * R)) (attempts : nat)
    (last : MutationResult) : M MutationResult :=
  match attempts with
  | O => Done last
  | S n =>
      found <- find_intent id;
      match found with
      | None => Done NotWritten
      | Some current =>
          match mutate current with
          | None => Done NotWritten
          | Some attempt =>
              res <- repo_write attempt;
              match res with
              | Conflict _ => mutateWithRetry id mutate n res
              | Written _ => modify changed ;;; Done res
              | NotWritten => Done res
              end
          end
      end
  end.

(** ** Creation *)

Definition initialSrcVerification (c : SupportedChain) (now : Z) : option bool * SrcVerification :=
  let sv st detail := {| sv_status := st; sv_checkedAt := now; sv_blockNumber := None; sv_blockHash := None;
                         sv_receivedAmount := None; sv_detail := detail |} in
  if negb (e_depositVerification env) then (Some true, sv sv_skipped (Some "deposit verification disabled"%string))
  else if bool_decide (c = stellar) then (Some true, sv sv_skipped (Some "non-EVM source chain"%string))
  else (Some false, sv sv_pending None).

(** The request: every field of an intent but the ones creation sets, with an
    optional deadline. *)
Record NewIntentData := { nd_fields : Intent; nd_deadline : option Z }.

Definition newIntent (uuid : string) (d : NewIntentData) (now : Z) : Intent :=
  let f := nd_fields d in
  let '(verified, verification) := initialSrcVerification (srcChain f) now in
  {| intentId := uuid; user := user f; srcChain := srcChain f; srcToken := srcToken f; srcAmount := srcAmount f;
     dstToken := dstToken f; minDstAmount := minDstAmount f; auction := auction f;
     acceptedDstAmount := acceptedDstAmount f; quotedDstAmount := quotedDstAmount f; solver := solver f;
     state := open; createdAt := now;
     deadline := default (now + e_paramsDeadline env (srcChain f)) (nd_deadline d);
     filledAt := filledAt f; fillAmount := fillAmount f; feeAmount := feeAmount f; txHash := txHash f;
     fillVerificationState := fillVerificationState f; fillVerificationReason := fillVerificationReason f;
     fillVerifiedAt := fillVerifiedAt f; slashedAt := slashedAt f; slashReason := slashReason f;
     paramsVersion := Some (e_paramsVersion env (srcChain f));
     usdValueAtCreate := computeUsdValue (srcAmount f) (tok_decimals (srcToken f)) (tok_priceUSD (srcToken f));
     priceLock := priceLock f; version := version f;
     srcVerified := match srcVerified f with Some b => Some b | None => verified end;
     srcTxHash := srcTxHash f;
     srcVerification := match srcVerification f with Some v => Some v | None => Some verification end;
     pendingTxHash := None; pendingOp := None; srcTokenId := srcTokenId f; dstTokenId := dstTokenId f;
     srcDecimals := srcDecimals f; dstDecimals := dstDecimals f; allowPartialFill := allowPartialFill f;
     minFillAmount := minFillAmount f; fillProgress := fillProgress f |}.

Definition save_intent (i : Intent) : W -> W := fun w => set_repo (repo_save i (w_repo w)) w.

(** [None] when the settlement contract is not configured or refuses. *)
Definition registerOnChain (i : Intent) : M string :=
  if e_contractConfigured env then
    tx <- reads (fun _ : W => e_invoke env op_create i);
    match tx with Some h => Done h | None => Throw ServiceUnavailable end
  else Throw ServiceUnavailable.

Definition persistNewIntent (uuid : string) (d : NewIntentData) (now : Z) : M Intent :=
  let i := newIntent uuid d now in
  created <-
    (if e_onchain env i then
       if e_unitOfWork env then
         if e_contractConfigured env && e_encodes env i then
           let i' := apply_patch [P_state pending_open; P_pendingOp (Some op_create)] i in
           modify (fun w => save_intent i' (add_outbox i' w)) ;;; Done i'
         else Throw ServiceUnavailable
       else
         tx <- registerOnChain i;
         let i' := apply_patch [P_state pending_open; P_pendingOp (Some op_create); P_pendingTxHash (Some tx)] i in
         modify (save_intent i') ;;; Done i'
     else modify (save_intent i) ;;; Done i);
  modify (fun w => countTransition NONE_STATE (state_name (state created)) (scheduleExpire created w)) ;;;
  modify changed ;;;
  Done created.

(** ** Reads *)

Definition getByState (s : IntentState) : M (list Intent) :=
  reads (fun w => filter (fun i => state i = s) (repo_list (w_repo w))).

Definition standing (i : Intent) : bool :=
  bool_decide (state i = open) || bool_decide (state i = accepted) || bool_decide (state i = pending_open)
  || bool_decide (state i = pending_accepted).

Definition countOpen (u : string) (r : R) : Z :=
  Z.of_nat (length (filter (fun i => bool_decide (toLowerCase (user i) = toLowerCase u) && standing i) (repo_list r))).

Definition countOpenByUser (u : string) : M Z := reads (fun w => countOpen u (w_repo w)).

Definition getAuditLog (id : string) (limit offset : option Z) (w : W) : list IntentAuditEntry :=
  let entries := default [] (get id (w_audit w)) in
  match limit, offset with
  | None, None => entries
  | _, _ =>
      let safeLimit := Z.min (default 20 limit) 100 in
      let safeOffset := Z.max 0 (default 0 offset) in
      slice safeOffset (safeOffset + safeLimit) entries
  end.

(** ** Batch creation *)

Inductive BatchError := UserRequired (index : nat) | CapReached (index : nat).

(** One item of the validation loop: errors so far and open counts per user. *)
Definition batch_check (acc : list BatchError * jsmap Z) (item : nat * NewIntentData) : M (list BatchError * jsmap Z) :=
  let '(errors, counts) := acc in
  let '(index, d) := item in
  let u := user (nd_fields d) in
  let key := toLowerCase u in
  if decide (key = EmptyString) then Done (errors ++ [UserRequired index], counts)
  else
    counts <- (if has key counts then Done counts
               else n <- countOpenByUser u; Done (set key n counts));
    let current := default 0 (get key counts) in
    if MAX_OPEN_INTENTS_PER_USER <? current + 1 then Done (errors ++ [CapReached index], counts)
    else Done (errors, set key (current + 1) counts).

(** [uuids]: the fresh ids, one per item. *)
Definition createBatch (items : list (string * NewIntentData)) (now : Z) : M (list Intent * list BatchError) :=
  checked <- pfold batch_check ([], []) (imap (fun n it => (n, it.2)) items);
  if decide (checked.1 = []) then
    created <- pfold (fun acc '(uuid, d) => i <- persistNewIntent uuid d now; Done (acc ++ [i])) [] items;
    Done (created, [])
  else Done ([], checked.1).

(** ** Eviction *)

Definition lastTerminalTs (i : Intent) : Z := default (createdAt i) (filledAt i).

Definition evict_stale (cutoff : Z) (l : list Intent) : list Intent :=
  filter (fun i => isTerminalState (state i) && (lastTerminalTs i <=? cutoff)) l.

(** [memoryBackend]: in-memory persistence and no on-chain rollout. *)
Definition evictTerminalIntents (memoryBackend : bool) (now retentionSeconds : Z) : M Z :=
  if negb memoryBackend then Done 0
  else
    all <- reads (fun w : W => repo_list (w_repo w));
    pfold (fun n i =>
      removed <- repo_write (repo_delete (intentId i));
      Done (if removed : bool then n + 1 else n)) 0 (evict_stale (now - Z.max 0 retentionSeconds) all).
End service.
