(* ===== verification/ServiceSafety.v ===== *)
(** Correctness of the intents service under arbitrary interleaving, and the
    bookkeeping of each of its operations run alone. *)
From S2P Require Import Prelude JsMap BigInt IntentTypes StateMachine IntentsRepo Prog SolverFills FillsRepo IntentsService.
From stdpp Require Import relations.
Local Open Scope Z_scope.

(** * Service calls as data *)

Inductive ServiceCall (R : Type) :=
  | SAccept (id sol : string) (now : Z) (ctx : PartialContext)
  | SFill (id sol : string) (patch : IntentPatch) (now : Z) (ctx : PartialContext)
  | SSettlePartial (id sol : string) (patch : IntentPatch) (now : Z)
  | SCancel (id : string) (ctx : PartialContext)
  | SPark (id : string) (op : PendingIntentOp) (tx : option string) (ctx : PartialContext)
  | SConfirm (id : string) (ctx : PartialContext)
  | SCompensate (id : string) (to : IntentState) (ctx : TransitionContext) (tx : option (option string)) (now : Z)
  | SExpire (id : string) (ctx : PartialContext)
  | SSlash (id : string) (at_ : Z) (reason : string) (ctx : PartialContext)
  | SExtend (id : string) (newDeadline : Z)
  | SUpdate (id : string) (patch : IntentPatch) (ev : option Z)
  | SAmend (id minDst : string) (newDeadline now : Z)
  | SCreate (uuid : string) (d : NewIntentData) (now : Z)
  | SBatch (items : list (string * NewIntentData)) (now : Z).
Arguments SAccept {R}. Arguments SFill {R}. Arguments SSettlePartial {R}. Arguments SCancel {R}.
Arguments SPark {R}. Arguments SConfirm {R}. Arguments SCompensate {R}. Arguments SExpire {R}.
Arguments SSlash {R}. Arguments SExtend {R}. Arguments SUpdate {R}. Arguments SAmend {R}.
Arguments SCreate {R}. Arguments SBatch {R}.

Section calls.
Context {R : Type} `{Hrepo : IntentsRepository R}.
Definition ignore {A} (p : prog (World R) ServiceError A) : prog (World R) ServiceError unit :=
  pbind (fun _ => Done tt) p.

(** The program of a call; the environment may differ from call to call. *)
Definition service_prog (env : Env) (c : ServiceCall R) : prog (World R) ServiceError unit :=
  match c with
  | SAccept id sol now ctx => ignore (svc_acceptIfOpen env id sol now ctx)
  | SFill id sol p now ctx => ignore (svc_fillIfAccepted env id sol p now ctx)
  | SSettlePartial id sol p now => ignore (settlePartialFill id sol p now)
  | SCancel id ctx => ignore (svc_cancelIfOpen env id ctx)
  | SPark id op tx ctx => ignore (transitionToOnChainPending env id op tx ctx)
  | SConfirm id ctx => ignore (confirmIntent env id ctx)
  | SCompensate id to ctx tx now => ignore (compensateSlash env id to ctx tx now)
  | SExpire id ctx => ignore (svc_expireIfOpen env id ctx)
  | SSlash id t reason ctx => ignore (svc_slashIfAccepted env id t reason ctx)
  | SExtend id d => ignore (svc_extendDeadlineIfAccepted id d)
  | SUpdate id p ev => ignore (svc_update id p ev)
  | SAmend id md d now => ignore (svc_amendIfOpen id md d now)
  | SCreate uuid d now => ignore (persistNewIntent env uuid d now)
  | SBatch items now => ignore (createBatch env items now)
  end.

(** Plain updates patch no state (what their callers do), and no caller but a
    compensation asks for the override. *)
Definition call_wf (c : ServiceCall R) : Prop :=
  match c with
  | SUpdate _ p _ => patch_state p = None
  | SAccept _ _ _ ctx | SFill _ _ _ _ ctx | SCancel _ ctx | SPark _ _ _ ctx | SConfirm _ ctx
  | SExpire _ ctx | SSlash _ _ _ ctx => pc_override ctx <> Some true
  | _ => True
  end.

(** Creations use ids other than [id]. *)
Definition creates_other (id : string) (c : ServiceCall R) : Prop :=
  match c with
  | SCreate uuid _ _ => uuid <> id
  | SBatch items _ => id ∉ items.*1
  | _ => True
  end.

(** * Lifecycle edges *)

(** A planned edge, or the roll-back of a slash. *)
Inductive edge : IntentState -> IntentState -> Prop :=
  | edge_app s t : app_step s t -> edge s t
  | edge_slash_filled : edge slashed filled
  | edge_slash_expired : edge slashed expired.

Definition keeps (id : string) (w w' : World R) : Prop :=
  forall i, repo_find id (w_repo w) = Some i ->
  exists i', repo_find id (w_repo w') = Some i' /\ createdAt i' = createdAt i /\
    default 0 (version i) <= default 0 (version i') /\
    (state i' = state i \/ edge (state i) (state i')).

Lemma keeps_repo id w w' : w_repo w' = w_repo w -> keeps id w w'.
Proof. intros H i Hi. exists i. rewrite H. repeat split; auto; lia. Qed.

Lemma keeps_refl id w : keeps id w w.
Proof. by apply keeps_repo. Qed.

(** A conditional write along an edge. *)
Lemma keeps_cond_write id k ev guard apply w out w' :
  cond_write repo_find k ev guard apply (w_repo w) out -> w_repo w' = out.2 ->
  (forall old, guard old = true -> state (apply old) = state old \/ edge (state old) (state (apply old))) ->
  (forall old, createdAt (apply old) = createdAt old) ->
  keeps id w w'.
Proof.
  intros [Hv Hf] Hw Hg Hc i Hi. rewrite Hw, Hf.
  destruct (out.1) as [u| |c]; simpl; [|exists i; repeat split; auto; lia..].
  case_decide as Hk; [|exists i; repeat split; auto; lia]. subst k.
  symmetry in Hv. apply verdict_written in Hv as (old & Ho & Hgu & -> & _). simplify_eq.
  eexists. split; [done|]. simpl. repeat split; [apply Hc|lia|]. by apply Hg.
Qed.

Lemma keeps_amend id k md d now w out w' :
  amend_write repo_find k md d now (w_repo w) out -> w_repo w' = out.2 -> keeps id w w'.
Proof.
  intros [Hv Hf] Hw i Hi. rewrite Hw, Hf. destruct (out.1) as [u|]; [|exists i; repeat split; auto; lia].
  case_decide as Hk; [|exists i; repeat split; auto; lia]. subst k. rewrite Hi in Hv.
  destruct (_ && _) in Hv; [|done]. simplify_eq/=. eexists. split; [done|]. simpl. repeat split; auto; lia.
Qed.

Lemma keeps_save id i w w' :
  intentId i <> id -> w_repo w' = repo_save i (w_repo w) -> keeps id w w'.
Proof.
  intros Hne Hw j Hj. exists j. rewrite Hw, repo_find_save, decide_False by congruence. repeat split; auto; lia.
Qed.

(** The edges of the built-in writes. *)
Lemma edge_of s t : app_stepb s t = true -> edge s t.
Proof. intros. by apply edge_app, app_step_spec. Qed.

Lemma edge_planned clock id from to ctx plan :
  tc_override ctx <> Some true -> transition clock id from to ctx = Ok plan -> edge from to.
Proof. intros Hno H. apply edge_app. exists clock, id, ctx, plan. done. Qed.

Lemma patch_last_state p s i : state (apply_patch (p ++ [P_state s]) i) = s.
Proof. unfold apply_patch. by rewrite foldl_app. Qed.

(** * Every operation keeps every intent *)

#[local] Abbreviation safe_for id p := (safe (E := ServiceError) (keeps id) (fun _ => True) p) (only parsing).

Section ops.
Context (env : Env) (id : string).

Lemma safe_write {A} (f : R -> A * R) :
  (forall w, keeps id w (set_repo (f (w_repo w)).2 w)) -> safe_for id (repo_write f).
Proof. intros H. apply safe_atomic. intros w. apply H. Qed.

Lemma safe_find k : safe_for id (find_intent k).
Proof. apply safe_reads, keeps_refl. Qed.

Lemma safe_plain f : (forall w, w_repo (f w) = w_repo w) -> safe_for id (modify f).
Proof. intros H. apply safe_modify. intros w. by apply keeps_repo. Qed.

Lemma safe_committed plan extra : safe_for id (committed plan extra).
Proof. unfold committed. apply safe_bind; [by apply safe_plain|]. intros _. by apply safe_plain. Qed.

(** With the override the planner only grants the two roll-back edges. *)
Lemma slashed_edges k to ctx plan :
  transition (e_clockMs env) k slashed to ctx = Ok plan -> edge slashed to.
Proof.
  intros H. destruct (transition_ok _ _ _ _ _ _ H) as (r & Hr & _).
  destruct to; vm_compute in Hr; try discriminate; [apply edge_slash_filled|apply edge_slash_expired].
Qed.

(** A planned transition returns a plan for that edge. *)
Lemma safe_plan k from to ctx :
  safe (E := ServiceError) (keeps id) (fun plan => p_from plan = from /\ p_to plan = to /\
    (tc_override ctx <> Some true -> edge from to) /\ (from = slashed -> edge from to)) (plan_transition env k from to ctx).
Proof.
  unfold plan_transition. destruct (transition _ k from to ctx) as [plan|e] eqn:E; constructor.
  destruct (transition_ok _ _ _ _ _ _ E) as (r & _ & _ & ? & ? & _).
  repeat split; try done; [intros Hno; by eapply edge_planned|intros ->; by eapply slashed_edges].
Qed.

Lemma safe_park k op tx ctx :
  pc_override ctx <> Some true -> safe_for id (transitionToOnChainPending env k op tx ctx).
Proof.
  intros Hno. unfold transitionToOnChainPending. apply safe_bind; [apply safe_find|].
  intros [i|]; [|by constructor]. eapply safe_bind_Q; [apply safe_plan|].
  intros plan (Hf & Ht & He & _). apply safe_bind.
  - apply safe_write. intros w. eapply keeps_cond_write; [apply repo_transition_spec|done| |].
    + intros old Hg. cbv beta in Hg. bool_norm. right. rewrite patch_last_state, Hg, Hf, Ht. by apply He.
    + intros old. apply apply_patch_frame.
  - intros res. destruct (written res); [|by constructor]. apply safe_bind; [apply safe_committed|]. by constructor.
Qed.

Lemma safe_finish i op : safe_for id (finish_write env i op).
Proof.
  unfold finish_write, parkWithBroadcast. destruct (e_onchain env i); [|by constructor].
  apply safe_bind; [|by constructor]. apply safe_bind; [apply safe_reads, keeps_refl|].
  intros tx. apply safe_bind; [by apply safe_park|]. by constructor.
Qed.

(** A fixed guarded write. *)
Lemma safe_guarded (f : R -> MutationResult * R) k ev guard apply :
  (forall r, cond_write repo_find k ev guard apply r (f r)) ->
  (forall old, guard old = true -> state (apply old) = state old \/ edge (state old) (state (apply old))) ->
  (forall old, createdAt (apply old) = createdAt old) ->
  safe_for id (repo_write f).
Proof. intros H1 H2 H3. apply safe_write. intros w. by eapply keeps_cond_write. Qed.

Lemma safe_withFillRecord o now (f : R -> MutationResult * R) k ev guard apply :
  (forall r, cond_write repo_find k ev guard apply r (f r)) ->
  (forall old, guard old = true -> state (apply old) = state old \/ edge (state old) (state (apply old))) ->
  (forall old, createdAt (apply old) = createdAt old) ->
  safe_for id (withFillRecord env o now f).
Proof.
  intros H1 H2 H3. apply safe_atomic. intros w.
  apply (keeps_cond_write id k ev guard apply w (f (w_repo w))); [apply H1| |done|done].
  destruct (f (w_repo w)) as [[u| |c] r'] eqn:E; simpl; [|done..].
  by destruct (e_fillLedger env && truthy_str (solver u)).
Qed.

Lemma accept_edge now old :
  bool_decide (state old = open) && (now <? deadline old) = true -> edge (state old) accepted.
Proof. intros H. bool_norm. match goal with H : state old = _ |- _ => rewrite H end. by apply edge_of. Qed.

Lemma fill_edge sol now old :
  bool_decide (state old = accepted) && bool_decide (solver old = Some sol) && (now <? deadline old) = true ->
  edge (state old) filled.
Proof. intros H. bool_norm. match goal with H : state old = _ |- _ => rewrite H end. by apply edge_of. Qed.

Lemma fill_created p old : createdAt (apply_patch [P_state filled] (apply_patch p old)) = createdAt old.
Proof. destruct (apply_patch_frame p old) as (_ & <- & _). done. Qed.

Lemma safe_accept_write k sol d now : safe_for id (repo_write (repo_accept k sol d now None)).
Proof.
  eapply safe_guarded; [intros r; apply repo_accept_spec| |done].
  intros old Hg. right. eapply accept_edge; exact Hg.
Qed.

Lemma safe_fill_write k sol p now : safe_for id (repo_write (repo_fill k sol p now None)).
Proof.
  eapply safe_guarded; [intros r; apply repo_fill_spec| |intros; apply fill_created].
  intros old Hg. right. eapply fill_edge; exact Hg.
Qed.

(** What follows a write: bookkeeping that leaves the repository alone. *)
Lemma safe_after {A} (o : option A) (k : A -> prog (World R) ServiceError (option Intent)) :
  (forall a, safe_for id (k a)) -> safe_for id (match o with Some a => k a | None => Done None end).
Proof. intros H. destruct o; [apply H|by constructor]. Qed.

Lemma safe_accept k sol now ctx : pc_override ctx <> Some true -> safe_for id (svc_acceptIfOpen env k sol now ctx).
Proof.
  intros Hno. unfold svc_acceptIfOpen. apply safe_bind; [apply safe_find|]. intros [i|]; [|by constructor].
  eapply safe_bind_Q; [apply safe_plan|]. intros plan _. apply safe_bind; [apply safe_accept_write|].
  intros res. destruct (written res) as [u|]; [|by constructor].
  apply safe_bind; [apply safe_committed|]. intros _. apply safe_bind; [by apply safe_plain|]. intros _. apply safe_finish.
Qed.

Lemma safe_fill k sol p now ctx : safe_for id (svc_fillIfAccepted env k sol p now ctx).
Proof.
  unfold svc_fillIfAccepted. eapply safe_bind_Q; [apply safe_plan|]. intros plan _. apply safe_bind.
  - eapply safe_withFillRecord; [intros r; apply repo_fill_spec| |intros; apply fill_created].
    intros old Hg. right. eapply fill_edge; exact Hg.
  - intros res. destruct (written res) as [u|]; [|by constructor].
    apply safe_bind; [apply safe_committed|]. intros _. apply safe_finish.
Qed.

Lemma safe_settlePartial k sol p now : safe_for id (settlePartialFill k sol p now).
Proof.
  unfold settlePartialFill. apply safe_bind; [apply safe_find|]. intros [i|]; [|by constructor].
  apply safe_bind; [apply safe_accept_write|]. intros res. destruct (written res); [|by constructor].
  apply safe_bind; [by apply safe_plain|]. intros _. apply safe_bind; [apply safe_fill_write|].
  intros res2. destruct (written res2); [|by constructor].
  apply safe_bind; [by apply safe_plain|]. by constructor.
Qed.

Lemma safe_cancel k ctx : safe_for id (svc_cancelIfOpen env k ctx).
Proof.
  unfold svc_cancelIfOpen. eapply safe_bind_Q; [apply safe_plan|]. intros plan _. apply safe_bind.
  - eapply safe_guarded; [intros r; apply repo_cancel_spec| |done].
    intros old Hg. cbv beta in Hg. bool_norm. right. rewrite Hg. by apply edge_of.
  - intros res. destruct (written res) as [u|]; [|by constructor].
    apply safe_bind; [apply safe_committed|]. intros _. apply safe_finish.
Qed.

Lemma safe_expire k ctx : safe_for id (svc_expireIfOpen env k ctx).
Proof.
  unfold svc_expireIfOpen. eapply safe_bind_Q; [apply safe_plan|]. intros plan _. apply safe_bind.
  - eapply safe_guarded; [intros r; apply repo_expire_spec| |done].
    intros old Hg. cbv beta in Hg. bool_norm. right. rewrite Hg. by apply edge_of.
  - intros res. destruct (written res) as [u|]; [|by constructor].
    apply safe_bind; [apply safe_committed|]. by constructor.
Qed.

Lemma safe_slash k t reason ctx : safe_for id (svc_slashIfAccepted env k t reason ctx).
Proof.
  unfold svc_slashIfAccepted. eapply safe_bind_Q; [apply safe_plan|]. intros plan _. apply safe_bind.
  - eapply safe_withFillRecord; [intros r; apply repo_slash_spec| |done].
    intros old Hg. cbv beta in Hg. bool_norm. right. rewrite Hg. by apply edge_of.
  - intros res. destruct (written res) as [u|]; [|by constructor].
    apply safe_bind; [apply safe_committed|]. by constructor.
Qed.

Lemma safe_confirm k ctx : pc_override ctx <> Some true -> safe_for id (confirmIntent env k ctx).
Proof.
  intros Hno. unfold confirmIntent. apply safe_bind; [apply safe_find|]. intros [i|]; [|by constructor].
  destruct (CONFIRMED_STATE_BY_PENDING (state i)) as [t|]; [|by constructor].
  eapply safe_bind_Q; [apply safe_plan|]. intros plan (Hf & Ht & He & _). apply safe_bind.
  - eapply safe_guarded; [intros r; apply repo_transition_spec| |intros old; apply apply_patch_frame].
    intros old Hg. cbv beta in Hg. bool_norm. right. rewrite patch_last_state, Hg, Hf. by apply He.
  - intros res. destruct (written res) as [u|]; [|by constructor].
    apply safe_bind; [apply safe_committed|]. by constructor.
Qed.

Lemma safe_compensate k to ctx tx now : safe_for id (compensateSlash env k to ctx tx now).
Proof.
  unfold compensateSlash. apply safe_bind; [apply safe_find|]. intros [i|]; [|by constructor].
  destruct (negb (bool_decide (state i = slashed))) eqn:Es; [by constructor|]. bool_norm. rewrite Es.
  eapply safe_bind_Q; [apply safe_plan|]. intros plan (_ & _ & _ & Ep). specialize (Ep eq_refl).
  apply safe_bind.
  - apply safe_atomic. intros w.
    eapply (keeps_cond_write id k None _ _ w (repo_transition k slashed (tx_patch tx) to (w_repo w)));
      [apply repo_transition_spec| | |intros old; apply apply_patch_frame].
    + destruct (repo_transition k slashed (tx_patch tx) to (w_repo w)) as [res r'].
      destruct (written res) as [u|]; cbn [fst snd]; [|reflexivity]. by destruct (e_fillLedger env && truthy_str (solver i)).
    + intros old Hg. cbv beta in Hg. bool_norm. right. by rewrite patch_last_state, Hg.
  - intros res. destruct (written res) as [u|]; [|by constructor].
    apply safe_bind; [apply safe_committed|]. by constructor.
Qed.

Lemma safe_extend k d : safe_for id (svc_extendDeadlineIfAccepted k d).
Proof.
  unfold svc_extendDeadlineIfAccepted. apply safe_bind.
  - eapply safe_guarded; [intros r; apply repo_extend_spec|by left|done].
  - intros res. destruct (written res) as [u|]; [|by constructor]. apply safe_bind; [by apply safe_plain|]. by constructor.
Qed.

Lemma safe_update k p ev : patch_state p = None -> safe_for id (svc_update k p ev).
Proof.
  intros Hp. unfold svc_update. apply safe_bind.
  - eapply safe_guarded; [intros r; apply repo_update_spec| |intros old; apply apply_patch_frame].
    intros old _. left. by rewrite apply_patch_state, Hp.
  - intros res. destruct (written res) as [u|]; [|by constructor]. apply safe_bind; [by apply safe_plain|]. by constructor.
Qed.

Lemma safe_amend k md d now : safe_for id (svc_amendIfOpen k md d now).
Proof.
  unfold svc_amendIfOpen. apply safe_bind.
  - apply safe_write. intros w. eapply keeps_amend; [apply repo_amend_spec|done].
  - intros [i|]; [|by constructor]. apply safe_bind; [by apply safe_plain|]. by constructor.
Qed.

Lemma newIntent_id uuid d now : intentId (newIntent env uuid d now) = uuid.
Proof. unfold newIntent. by destruct (initialSrcVerification _ _ _). Qed.

Lemma safe_save i (f : World R -> World R) :
  intentId i <> id -> (forall w, w_repo (f w) = repo_save i (w_repo w)) -> safe_for id (modify f).
Proof. intros Hne H. apply safe_modify. intros w. by eapply keeps_save. Qed.

Lemma safe_persist uuid d now : uuid <> id -> safe_for id (persistNewIntent env uuid d now).
Proof.
  intros Hne. pose proof (newIntent_id uuid d now) as Hid. unfold persistNewIntent.
  set (i := newIntent env uuid d now) in *.
  assert (Hp : forall p, intentId (apply_patch p i) <> id).
  { intros p. destruct (apply_patch_frame p i) as (-> & _). congruence. }
  apply safe_bind.
  - destruct (e_onchain env i); [destruct (e_unitOfWork env)|].
    + destruct (_ && _); [|constructor]. apply safe_bind; [eapply safe_save; [apply Hp|done]|]. by constructor.
    + apply safe_bind.
      * unfold registerOnChain. destruct (e_contractConfigured env); [|constructor].
        apply safe_bind; [apply safe_reads, keeps_refl|]. intros [h|]; by constructor.
      * intros tx. apply safe_bind; [eapply safe_save; [apply Hp|done]|]. by constructor.
    + apply safe_bind; [eapply safe_save; [|done]; congruence|]. by constructor.
  - intros u. apply safe_bind; [by apply safe_plain|]. intros _. apply safe_bind; [by apply safe_plain|]. by constructor.
Qed.

Lemma safe_batch items now : id ∉ items.*1 -> safe_for id (createBatch env items now).
Proof.
  intros Hid. unfold createBatch. apply safe_bind.
  - apply safe_fold. intros [errors counts] [n d] _. unfold batch_check. case_decide; [by constructor|].
    apply safe_bind.
    + destruct (has _ counts); [by constructor|]. apply safe_bind; [apply safe_reads, keeps_refl|]. by constructor.
    + intros c. destruct (_ <? _); by constructor.
  - intros checked. case_decide; [|by constructor]. apply safe_bind; [|by constructor].
    apply safe_fold. intros acc [uuid d] Hin. apply safe_bind; [|by constructor]. apply safe_persist.
    intros ->. apply Hid. apply list_elem_of_fmap. by exists (id, d).
Qed.

Lemma service_safe c : call_wf c -> creates_other id c -> safe_for id (service_prog env c).
Proof.
  intros Hwf Hc. destruct c; simpl in *; (apply safe_bind; [|by constructor]);
    auto using safe_accept, safe_fill, safe_settlePartial, safe_cancel, safe_park, safe_confirm, safe_compensate,
      safe_expire, safe_slash, safe_extend, safe_update, safe_amend, safe_persist, safe_batch.
Qed.
End ops.
End calls.

(** * Properties *)

(** An outcome that cannot be rolled back. *)
Definition final_outcome (s : IntentState) : bool :=
  bool_decide (settled s = filled) || bool_decide (settled s = cancelled) || bool_decide (settled s = expired).

Lemma edge_final s t : edge s t -> final_outcome s = true -> settled t = settled s /\ final_outcome t = true.
Proof.
  intros He Hf. destruct He as [s t Ha| |]; [|done..]. apply app_step_spec in Ha.
  destruct s, t; vm_compute in Ha, Hf |- *; done.
Qed.

Lemma edges_final s t : rtc edge s t -> final_outcome s = true -> settled t = settled s.
Proof.
  intros H. induction H as [|s u t He _ IH]; intros Hf; [done|].
  destruct (edge_final _ _ He Hf) as [<- Hu]. by apply IH.
Qed.

Lemma keeps_rtc {R} `{IntentsRepository R} id (w w' : World R) i :
  rtc (keeps id) w w' -> repo_find id (w_repo w) = Some i ->
  exists i', repo_find id (w_repo w') = Some i' /\ createdAt i' = createdAt i /\
    default 0 (version i) <= default 0 (version i') /\ rtc edge (state i) (state i').
Proof.
  intros Hr. revert i. induction Hr as [w|w w1 w2 Hk _ IH]; intros i Hi; [exists i; split_and!; done || lia|].
  destruct (Hk i Hi) as (i1 & Hi1 & Hc1 & Hv1 & Hs1). destruct (IH i1 Hi1) as (i2 & Hi2 & Hc2 & Hv2 & Hs2).
  exists i2. split; [done|]. split; [congruence|]. split; [lia|].
  destruct Hs1 as [E|E]; [by rewrite <- E|by eapply rtc_l].
Qed.

(** C3. The lifecycle holds under any interleaving: take any number of service
    calls - accepts, fills, cancels, expiries, slashes, parks, confirmations,
    compensations, amendments, partial settlements and creations - each run in
    its own environment, and let their steps interleave at every [await].  An
    intent that exists is never lost, keeps its creation time, its version never
    goes back, its state only moves along edges the state machine plans (or the
    roll-back of a slash), and once it is filled, cancelled or expired that
    outcome stands. *)
Theorem service_respects_lifecycle {R} `{IntentsRepository R} (calls : list (Env * ServiceCall R)) w w' ps' id i
    (Hrun : rtc pool_step (w, (fun c => service_prog c.1 c.2) <$> calls) (w', ps'))
    (Hwf : Forall (fun c => call_wf c.2) calls) (Hfresh : Forall (fun c => creates_other id c.2) calls)
    (Hi : repo_find id (w_repo w) = Some i) :
  exists i', repo_find id (w_repo w') = Some i' /\ createdAt i' = createdAt i /\
    default 0 (version i) <= default 0 (version i') /\ rtc edge (state i) (state i') /\
    (final_outcome (state i) = true -> settled (state i') = settled (state i)).
Proof.
  assert (Hsafe : Forall (safe (keeps id) (fun _ : unit => True)) ((fun c => service_prog c.1 c.2) <$> calls)).
  { apply Forall_fmap, Forall_forall. intros [env c] Hin. rewrite Forall_forall in Hwf, Hfresh.
    apply service_safe; [by apply (Hwf _ Hin)|by apply (Hfresh _ Hin)]. }
  destruct (pool_safe (keeps id) _ _ _ Hrun Hsafe) as [Hk _]. simpl in Hk.
  destruct (keeps_rtc id w w' i Hk Hi) as (i' & ? & ? & ? & He). exists i'. repeat split; try done.
  intros Hf. by apply edges_final.
Qed.

Definition demo_env : Env := {|
  e_onchain := fun _ => false; e_contractConfigured := true; e_invoke := fun _ _ => Some "tx"%string;
  e_unitOfWork := false; e_encodes := fun _ => true; e_fillLedger := true; e_dstPrice := fun _ => Some 10000000;
  e_srcPrice := fun _ _ => None; e_paramsDeadline := fun _ => 3600; e_paramsVersion := fun _ => 1;
  e_depositVerification := false; e_clockMs := 2000000 |}.

Definition demo_world : World InMemoryRepo := {|
  w_repo := demo_repo; w_fills := empty_fills; w_audit := []; w_metrics := []; w_invalidations := 0; w_jobs := [];
  w_ledger := empty_ledger; w_outbox := []; w_idem := []; w_effects := [] |}.

(** A user cancels while a solver accepts; the accept's write comes first. *)
Definition demo_race_calls : list (Env * ServiceCall InMemoryRepo) :=
  [(demo_env, SAccept "i1" "S" 2000 no_ctx); (demo_env, SCancel "i1" no_ctx)].

Lemma service_respects_lifecycle_witness :
  let c' := schedule [0; 0; 1; 0; 0; 0; 1; 0]%nat demo_world ((fun c => service_prog c.1 c.2) <$> demo_race_calls) in
  state <$> repo_find "i1" (w_repo c'.1) = Some accepted /\
  exists i', repo_find "i1" (w_repo c'.1) = Some i' /\ createdAt i' = createdAt demo_intent /\
    default 0 (version demo_intent) <= default 0 (version i') /\ rtc edge (state demo_intent) (state i') /\
    (final_outcome (state demo_intent) = true -> settled (state i') = settled (state demo_intent)).
Proof.
  intros c'. split; [vm_compute; reflexivity|].
  apply (service_respects_lifecycle demo_race_calls demo_world c'.1 c'.2 "i1" demo_intent).
  - rewrite <- surjective_pairing. apply schedule_steps.
  - repeat constructor; discriminate.
  - repeat constructor.
  - reflexivity.
Defined.

(** ** Bookkeeping of the lifecycle operations, run alone *)

Inductive LifecycleCall :=
  | LAccept (id sol : string) (now : Z) (ctx : PartialContext)
  | LFill (id sol : string) (patch : IntentPatch) (now : Z) (ctx : PartialContext)
  | LCancel (id : string) (ctx : PartialContext)
  | LExpire (id : string) (ctx : PartialContext)
  | LSlash (id : string) (at_ : Z) (reason : string) (ctx : PartialContext).

Definition lc_id (c : LifecycleCall) : string :=
  match c with LAccept id _ _ _ | LFill id _ _ _ _ | LCancel id _ | LExpire id _ | LSlash id _ _ _ => id end.

Definition lc_edge (c : LifecycleCall) : IntentState * IntentState :=
  match c with
  | LAccept _ _ _ _ => (open, accepted) | LFill _ _ _ _ _ => (accepted, filled) | LCancel _ _ => (open, cancelled)
  | LExpire _ _ => (open, expired) | LSlash _ _ _ _ => (accepted, slashed)
  end.

Section bookkeeping.
Context {R : Type} `{Hrepo : IntentsRepository R} (env : Env).

Definition lc_prog (c : LifecycleCall) : prog (World R) ServiceError (option Intent) :=
  match c with
  | LAccept id sol now ctx => svc_acceptIfOpen env id sol now ctx
  | LFill id sol p now ctx => svc_fillIfAccepted env id sol p now ctx
  | LCancel id ctx => svc_cancelIfOpen env id ctx
  | LExpire id ctx => svc_expireIfOpen env id ctx
  | LSlash id t reason ctx => svc_slashIfAccepted env id t reason ctx
  end.

(** The planner accepts every edge of the table that needs no override. *)
Lemma plan_ok id from to ctx :
  app_stepb from to = true -> exists plan, plan_transition (R := R) env id from to ctx = Done plan /\
    p_intentId plan = id /\ p_from plan = from /\ p_to plan = to /\ ae_toState (p_audit plan) = to.
Proof.
  unfold app_stepb, plan_transition, transition. destruct (findRule from to) as [r|]; [|done].
  intros Hr. apply negb_true_iff in Hr. rewrite Hr. simpl. eexists. split; [done|]. done.
Qed.

(** Nothing observable changed. *)
Definition untouched (w w' : World R) : Prop :=
  w_audit w' = w_audit w /\ w_metrics w' = w_metrics w /\ w_jobs w' = w_jobs w /\
  w_invalidations w' = w_invalidations w /\ w_ledger w' = w_ledger w /\
  forall k, repo_find k (w_repo w') = repo_find k (w_repo w).

(** One audited, counted and announced move along [edge]. *)
Definition booked (id : string) (from to : IntentState) (u : Intent) (w w' : World R) : Prop :=
  repo_find id (w_repo w') = Some u /\ state u = to /\
  (exists old, repo_find id (w_repo w) = Some old /\ state old = from) /\
  (forall k, k <> id -> repo_find k (w_repo w') = repo_find k (w_repo w)) /\
  w_metrics w' = w_metrics w ++ [(state_name from, state_name to)] /\
  (exists e, get id (w_audit w') = Some (default [] (get id (w_audit w)) ++ [e]) /\ ae_toState e = to) /\
  w_invalidations w' = w_invalidations w + 1.

(** A guarded write from state [from] to state [to], and its two outcomes. *)
Definition write_from (id : string) (from to : IntentState) (f : R -> MutationResult * R) : Prop :=
  exists guard apply, (forall r, cond_write repo_find id None guard apply r (f r)) /\
    (forall i, guard i = true -> state i = from) /\ (forall i, state (apply i) = to).

Lemma write_from_spec id from to f r :
  write_from id from to f ->
  match written (f r).1 with
  | None => forall k, repo_find k (f r).2 = repo_find k r
  | Some u => repo_find id (f r).2 = Some u /\ state u = to /\
      (exists old, repo_find id r = Some old /\ state old = from) /\
      forall k, k <> id -> repo_find k (f r).2 = repo_find k r
  end.
Proof.
  intros (guard & apply & Hw & Hg & Ha). destruct (Hw r) as [Hv Hf]. destruct (f r) as [res r']. simpl in *.
  destruct res as [u| |c]; simpl in *; [|done..]. symmetry in Hv.
  apply verdict_written in Hv as (old & Ho & Hgu & -> & _).
  split; [rewrite Hf; by rewrite decide_True|]. split; [simpl; apply Ha|]. split; [eauto|].
  intros k Hk. rewrite Hf. by rewrite decide_False.
Qed.

Lemma booked_by id from to plan extra u w w1 w2 :
  p_intentId plan = id -> p_from plan = from -> p_to plan = to -> ae_toState (p_audit plan) = to ->
  repo_find id (w_repo w1) = Some u -> state u = to ->
  (exists old, repo_find id (w_repo w) = Some old /\ state old = from) ->
  (forall k, k <> id -> repo_find k (w_repo w1) = repo_find k (w_repo w)) ->
  w_audit w1 = w_audit w -> w_metrics w1 = w_metrics w -> w_invalidations w1 = w_invalidations w ->
  w_repo w2 = w_repo w1 -> w_metrics w2 = w_metrics (changed (recordTransition plan extra w1)) ->
  w_audit w2 = w_audit (changed (recordTransition plan extra w1)) ->
  w_invalidations w2 = w_invalidations (changed (recordTransition plan extra w1)) ->
  booked id from to u w w2.
Proof.
  intros Hid Hf Ht Hat Hu Hs Hold Hother Ha Hm Hi Hr2 Hm2 Ha2 Hi2. unfold booked.
  rewrite Hr2, Hm2, Ha2, Hi2. simpl. rewrite Ha, Hm, Hi, Hid, Hf, Ht.
  split_and!; try done. eexists. rewrite get_set_eq. split; [done|]. done.
Qed.

Lemma accept_from id sol d now : write_from id open accepted (repo_accept id sol d now None).
Proof.
  eexists _, _. split; [intros r; apply repo_accept_spec|]. split; [|done].
  intros i Hg. cbv beta in Hg. by bool_norm.
Qed.
Lemma fill_from id sol p now : write_from id accepted filled (repo_fill id sol p now None).
Proof.
  eexists _, _. split; [intros r; apply repo_fill_spec|]. split; [|done].
  intros i Hg. cbv beta in Hg. by bool_norm.
Qed.
Lemma cancel_from id : write_from id open cancelled (repo_cancel id None).
Proof.
  eexists _, _. split; [intros r; apply repo_cancel_spec|]. split; [|done].
  intros i Hg. cbv beta in Hg. by bool_norm.
Qed.
Lemma expire_from id : write_from id open expired (repo_expire id None).
Proof.
  eexists _, _. split; [intros r; apply repo_expire_spec|]. split; [|done].
  intros i Hg. cbv beta in Hg. by bool_norm.
Qed.
Lemma slash_from id t reason : write_from id accepted slashed (repo_slash id t reason None).
Proof.
  eexists _, _. split; [intros r; apply repo_slash_spec|]. split; [|done].
  intros i Hg. cbv beta in Hg. by bool_norm.
Qed.

(** [withFillRecord] answers what the write answers and touches, besides the
    repository, only the ledger, and that only for a write that won. *)
Lemma run_withFillRecord o now (f : R -> MutationResult * R) w :
  exists l, run (withFillRecord env o now f) w = (Ok (f (w_repo w)).1, set_ledger l (set_repo (f (w_repo w)).2 w)) /\
    (written (f (w_repo w)).1 = None -> l = w_ledger w).
Proof.
  unfold withFillRecord. rewrite run_atomic. destruct (f (w_repo w)) as [[u| |c] r']; simpl.
  - destruct (e_fillLedger env && truthy_str (solver u)); [by eexists|]. exists (w_ledger w). by destruct w.
  - exists (w_ledger w). by destruct w.
  - exists (w_ledger w). by destruct w.
Qed.

(** The shape shared by the five operations: plan, write, record. *)
Lemma run_booked id from to (f : R -> MutationResult * R) (write : prog (World R) ServiceError MutationResult)
    ctx extra (tail : Intent -> prog (World R) ServiceError (option Intent)) w :
  app_stepb from to = true -> write_from id from to f ->
  (exists l, run write w = (Ok (f (w_repo w)).1, set_ledger l (set_repo (f (w_repo w)).2 w)) /\
     (written (f (w_repo w)).1 = None -> l = w_ledger w)) ->
  (forall u w1, exists j, run (tail u) w1 = (Ok (Some u), j w1) /\ w_repo (j w1) = w_repo w1 /\
     w_metrics (j w1) = w_metrics w1 /\ w_audit (j w1) = w_audit w1 /\ w_invalidations (j w1) = w_invalidations w1) ->
  exists o w', run (pbind (fun plan => pbind (fun res =>
      match written res with
      | None => Done None
      | Some u => pbind (fun _ => tail u) (committed plan (extra u))
      end) write) (plan_transition env id from to ctx)) w = (Ok o, w') /\
    match o with None => untouched w w' | Some u => booked id from to u w w' end.
Proof.
  intros Hedge Hfrom (l & Hw & Hl) Htail.
  destruct (plan_ok id from to ctx Hedge) as (plan & Hplan & Hid & Hpf & Hpt & Hat). rewrite Hplan. cbn [pbind].
  rewrite run_pbind, Hw. pose proof (write_from_spec id from to f (w_repo w) Hfrom) as Hspec.
  destruct (written (f (w_repo w)).1) as [u|] eqn:Eu.
  - destruct Hspec as (Hu & Hs & Hold & Hother).
    set (w1 := set_ledger l (set_repo (f (w_repo w)).2 w)).
    destruct (Htail u (changed (recordTransition plan (extra u) w1))) as (j & Hj & Hj1 & Hj2 & Hj3 & Hj4).
    eexists (Some u), _. split; [rewrite run_pbind; simpl; exact Hj|].
    apply (booked_by id from to plan (extra u) u w w1); done.
  - eexists None, _. split; [reflexivity|]. rewrite Hl by done. by destruct w.
Qed.

Lemma run_repo_write (f : R -> MutationResult * R) w :
  exists l, run (repo_write f) w = (Ok (f (w_repo w)).1, set_ledger l (set_repo (f (w_repo w)).2 w)) /\
    (written (f (w_repo w)).1 = None -> l = w_ledger w).
Proof. exists (w_ledger w). by destruct w. Qed.

Lemma run_find id (w : World R) : run (find_intent id) w = (Ok (repo_find id (w_repo w)), w).
Proof. done. Qed.

Lemma run_finish_offchain i op w : e_onchain env i = false -> run (finish_write env i op) w = (Ok (Some i), w).
Proof. intros H. unfold finish_write. by rewrite H. Qed.
End bookkeeping.

(** Each lifecycle operation, run alone and off-chain, never throws; when
    its conditional write wins it moves exactly that intent along its edge,
    counts the edge once, appends exactly one audit entry naming the new state
    and invalidates the caches once; when the write loses, nothing at all
    changes - no entry, no counter, no job, no ledger row. *)
Theorem lifecycle_calls_booked_once {R} `{IntentsRepository R} env c (w : World R)
    (Hoff : forall i, e_onchain env i = false) :
  exists o w', run (lc_prog env c) w = (Ok o, w') /\
    match o with
    | None => untouched w w'
    | Some u => booked (lc_id c) (lc_edge c).1 (lc_edge c).2 u w w'
    end.
Proof.
  assert (Hfin : forall op u (w1 : World R), exists j, run (finish_write env u op) w1 = (Ok (Some u), j w1) /\
    w_repo (j w1) = w_repo w1 /\ w_metrics (j w1) = w_metrics w1 /\ w_audit (j w1) = w_audit w1 /\
    w_invalidations (j w1) = w_invalidations w1).
  { intros op u w1. exists id. by rewrite run_finish_offchain. }
  destruct c as [id sol now ctx|id sol p now ctx|id ctx|id ctx|id t reason ctx]; simpl lc_prog; simpl lc_id; simpl lc_edge.
  - unfold svc_acceptIfOpen. rewrite run_pbind, run_find. cbv beta iota.
    destruct (repo_find id (w_repo w)) as [i|]; [|by eexists None, w].
    eapply (run_booked env id open accepted _ _ _ _ (fun u => pbind (fun _ => finish_write env u op_accept) (modify (scheduleFillWindow u))));
      [done|apply accept_from|apply run_repo_write|].
    intros u w1. exists (scheduleFillWindow u). rewrite run_pbind. simpl. by rewrite run_finish_offchain.
  - eapply (run_booked env id accepted filled _ _ _ _ (fun u => finish_write env u op_fill));
      [done|apply fill_from|apply run_withFillRecord|apply Hfin].
  - eapply (run_booked env id open cancelled _ _ _ (fun _ => []) (fun u => finish_write env u op_cancel));
      [done|apply cancel_from|apply run_repo_write|apply Hfin].
  - eapply (run_booked env id open expired _ _ _ _ (fun u => Done (Some u))); [done|apply expire_from|apply run_repo_write|].
    intros u w1. by exists (fun x => x).
  - eapply (run_booked env id accepted slashed _ _ _ _ (fun u => Done (Some u))); [done|apply slash_from|apply run_withFillRecord|].
    intros u w1. by exists (fun x => x).
Qed.

Lemma lifecycle_calls_booked_once_witness :
  length (w_metrics (run (lc_prog demo_env (LAccept "i1" "S" 2000 no_ctx)) demo_world).2) = 1%nat /\
  exists o w', run (lc_prog demo_env (LAccept "i1" "S" 2000 no_ctx)) demo_world = (Ok o, w') /\
    match o with None => untouched demo_world w' | Some u => booked "i1" open accepted u demo_world w' end.
Proof.
  split; [vm_compute; reflexivity|].
  apply (lifecycle_calls_booked_once demo_env (LAccept "i1" "S" 2000 no_ctx) demo_world). reflexivity.
Defined.

(** ** On-chain markers *)

Lemma repo_transition_wins {R} `{IntentsRepository R} id from p to (r : R) i :
  repo_find id r = Some i -> state i = from ->
  exists r', repo_transition id from p to r =
      (Written (stamp id (default 0 (version i) + 1) (apply_patch (p ++ [P_state to]) i)), r') /\
    repo_find id r' = Some (stamp id (default 0 (version i) + 1) (apply_patch (p ++ [P_state to]) i)).
Proof.
  intros Hi Hs. destruct (repo_transition_spec id from p to r) as [Hv Hf].
  destruct (repo_transition id from p to r) as [res r'] eqn:E. simpl in *. exists r'.
  rewrite Hi in Hv. simpl in Hv. rewrite bool_decide_eq_true_2 in Hv by done. subst res. split; [done|].
  rewrite Hf. simpl. by rewrite decide_True.
Qed.

Lemma run_park {R} `{IntentsRepository R} env id op tx (w : World R) i :
  repo_find id (w_repo w) = Some i -> app_stepb (state i) (PENDING_STATE_BY_OP op) = true ->
  let u := stamp id (default 0 (version i) + 1)
    (apply_patch [P_pendingOp (Some op); P_pendingTxHash tx; P_state (PENDING_STATE_BY_OP op)] i) in
  exists w1, run (transitionToOnChainPending env id op tx no_ctx) w = (Ok (Some u), w1) /\
    repo_find id (w_repo w1) = Some u /\
    w_metrics w1 = w_metrics w ++ [(state_name (state i), state_name (PENDING_STATE_BY_OP op))].
Proof.
  intros Hi Hp u. unfold transitionToOnChainPending. rewrite run_pbind, run_find. cbv beta iota. rewrite Hi.
  destruct (plan_ok (R := R) env (intentId i) _ _ (full_ctx "system" None no_ctx) Hp) as (plan & -> & _ & Hpf & Hpt & _).
  cbn [pbind]. rewrite run_pbind. unfold repo_write at 1. rewrite run_atomic. cbv beta iota.
  destruct (repo_transition_wins id (p_from plan) [P_pendingOp (Some op); P_pendingTxHash tx] (p_to plan) (w_repo w) i Hi)
    as (r1 & Hr1 & Hf1); [done|]. rewrite Hr1. cbn [fst snd written]. rewrite run_pbind, Hpt in *.
  eexists. split; [reflexivity|]. split; [exact Hf1|]. simpl. by rewrite Hpf, Hpt.
Qed.

Lemma run_confirm {R} `{IntentsRepository R} env id (w : World R) i t :
  repo_find id (w_repo w) = Some i -> CONFIRMED_STATE_BY_PENDING (state i) = Some t -> app_stepb (state i) t = true ->
  let v := stamp id (default 0 (version i) + 1) (apply_patch [P_pendingTxHash None; P_pendingOp None; P_state t] i) in
  exists w1, run (confirmIntent env id no_ctx) w = (Ok (Some v), w1) /\
    repo_find id (w_repo w1) = Some v /\ w_metrics w1 = w_metrics w ++ [(state_name (state i), state_name t)].
Proof.
  intros Hi Ht Hp v. unfold confirmIntent. rewrite run_pbind, run_find. cbv beta iota. rewrite Hi. cbv beta iota. rewrite Ht.
  destruct (plan_ok (R := R) env (intentId i) _ _ (full_ctx "system" None no_ctx) Hp) as (plan & -> & _ & Hpf & Hpt & _).
  cbn [pbind]. rewrite run_pbind. unfold repo_write at 1. rewrite run_atomic. cbv beta iota.
  destruct (repo_transition_wins id (p_from plan) [P_pendingTxHash None; P_pendingOp None] t (w_repo w) i Hi)
    as (r1 & Hr1 & Hf1); [done|]. rewrite Hr1. cbn [fst snd written]. rewrite run_pbind.
  eexists. split; [reflexivity|]. split; [exact Hf1|]. simpl. by rewrite Hpf, Hpt.
Qed.

(** [u] is [i] up to the pending marker and the version. *)
Definition same_terms (i u : Intent) : Prop :=
  u = stamp (intentId i) (default 0 (version u)) (apply_patch [P_pendingTxHash (pendingTxHash u); P_pendingOp (pendingOp u); P_state (state u)] i).

(** Parking and confirming is a round trip: parking an intent that sits in
    the base state of a chain write marks it pending with the operation and
    transaction hash, and confirming that marker brings back the very same
    record - every field but the version - with the marker cleared; each of the
    two steps is counted and audited. *)
Theorem park_confirm_roundtrip {R} `{IntentsRepository R} env id op tx (w : World R) i
    (Hi : repo_find id (w_repo w) = Some i) (Hid : intentId i = id)
    (Hbase : CONFIRMED_STATE_BY_PENDING (PENDING_STATE_BY_OP op) = Some (state i))
    (Hclear : pendingTxHash i = None /\ pendingOp i = None) :
  exists u w1 v w2,
    run (transitionToOnChainPending env id op tx no_ctx) w = (Ok (Some u), w1) /\
    state u = PENDING_STATE_BY_OP op /\ pendingTxHash u = tx /\ pendingOp u = Some op /\
    run (confirmIntent env id no_ctx) w1 = (Ok (Some v), w2) /\
    same_terms i v /\ state v = state i /\ pendingTxHash v = None /\ pendingOp v = None /\
    repo_find id (w_repo w2) = Some v /\
    w_metrics w2 = w_metrics w ++ [(state_name (state i), state_name (PENDING_STATE_BY_OP op));
                                   (state_name (PENDING_STATE_BY_OP op), state_name (state i))].
Proof.
  assert (Hpark : app_stepb (state i) (PENDING_STATE_BY_OP op) = true /\
                  app_stepb (PENDING_STATE_BY_OP op) (state i) = true)
    by (destruct op; simpl in Hbase; injection Hbase as <-; done).
  destruct Hpark as [Hp1 Hp2].
  destruct (run_park env id op tx w i Hi Hp1) as (w1 & Hr1 & Hf1 & Hm1). cbv zeta in Hr1, Hf1.
  destruct (run_confirm env id w1 _ (state i) Hf1 Hbase Hp2) as (w2 & Hr2 & Hf2 & Hm2). cbv zeta in Hr2, Hf2.
  eexists _, w1, _, w2. split; [exact Hr1|]. split; [done|]. split; [done|]. split; [done|]. split; [exact Hr2|].
  split; [|split; [done|split; [done|split; [done|split; [exact Hf2|]]]]].
  - destruct Hclear as [Hc1 Hc2]. unfold same_terms. destruct i; simpl in *; subst; done.
  - rewrite Hm2, Hm1, <- app_assoc. done.
Qed.

Lemma park_confirm_roundtrip_witness :
  exists u w1 v w2,
    run (transitionToOnChainPending demo_env "i1" op_create (Some "tx9"%string) no_ctx) demo_world = (Ok (Some u), w1) /\
    state u = PENDING_STATE_BY_OP op_create /\ pendingTxHash u = Some "tx9"%string /\ pendingOp u = Some op_create /\
    run (confirmIntent demo_env "i1" no_ctx) w1 = (Ok (Some v), w2) /\
    same_terms demo_intent v /\ state v = state demo_intent /\ pendingTxHash v = None /\ pendingOp v = None /\
    repo_find "i1" (w_repo w2) = Some v /\
    w_metrics w2 = w_metrics demo_world ++
      [(state_name (state demo_intent), state_name (PENDING_STATE_BY_OP op_create));
       (state_name (PENDING_STATE_BY_OP op_create), state_name (state demo_intent))].
Proof. apply park_confirm_roundtrip; [reflexivity|reflexivity|reflexivity|split; reflexivity]. Defined.

(** The park that follows a committed write can fail the request: when
    another request moved the intent on while the broadcast was in flight, to a
    state with no edge to the pending marker, parking throws instead of
    returning the record (the comment on [parkWithBroadcast] says the park is
    unconditional and never fails a write that has committed). *)
Theorem park_can_throw {R} `{IntentsRepository R} env (i j : Intent) op (w : World R)
    (Hj : repo_find (intentId i) (w_repo w) = Some j)
    (Hno : findRule (state j) (PENDING_STATE_BY_OP op) = None) :
  run (parkWithBroadcast env i op) w =
    (Err (Illegal (NoSuchEdge (intentId j) (state j) (PENDING_STATE_BY_OP op))), w).
Proof.
  unfold parkWithBroadcast, transitionToOnChainPending.
  rewrite run_pbind. change (run (reads ?f) w) with (Ok (E := ServiceError) (f w), w). cbv beta iota.
  rewrite run_pbind, run_pbind, run_find. cbv beta iota. rewrite Hj. unfold plan_transition, transition.
  by rewrite Hno.
Qed.

(** The accept is in flight to the contract when the sweeper slashes. *)
Definition onchain_env : Env := {|
  e_onchain := fun _ => true; e_contractConfigured := true; e_invoke := fun _ _ => Some "tx"%string;
  e_unitOfWork := false; e_encodes := fun _ => true; e_fillLedger := true; e_dstPrice := fun _ => None;
  e_srcPrice := fun _ _ => None; e_paramsDeadline := fun _ => 3600; e_paramsVersion := fun _ => 1;
  e_depositVerification := false; e_clockMs := 2000000 |}.

Definition slashed_world : World InMemoryRepo :=
  (run (svc_slashIfAccepted demo_env "i1" 9000 "late" no_ctx)
     (run (svc_acceptIfOpen demo_env "i1" "S" 2000 no_ctx) demo_world).2).2.

Lemma park_can_throw_witness :
  run (parkWithBroadcast onchain_env demo_intent op_accept) slashed_world =
    (Err (Illegal (NoSuchEdge "i1" slashed pending_accepted)), slashed_world).
Proof.
  destruct (repo_find "i1" (w_repo slashed_world)) as [j|] eqn:Ej; [|vm_compute in Ej; discriminate].
  assert (Hs : state j = slashed /\ intentId j = "i1"%string) by (vm_compute in Ej; injection Ej as <-; split; reflexivity).
  destruct Hs as [Hs Hid]. rewrite <- Hs, <- Hid.
  apply (park_can_throw onchain_env demo_intent j op_accept slashed_world Ej). rewrite Hs. reflexivity.
Defined.

(** ** Settlement of partial fills *)

(** Settling a partial fill skips the bookkeeping other fills get: it moves
    the intent from open through accepted to filled and counts both edges, but
    writes no audit entry, invalidates no cache, arms no job and records no
    ledger row (the ledger's contract says every fill transition commits its
    row). *)
Theorem partial_settlement_skips_bookkeeping {R} `{IntentsRepository R} id sol patch now (w w' : World R) u
    (Hrun : run (settlePartialFill id sol patch now) w = (Ok (Some u), w')) :
  (exists i, repo_find id (w_repo w) = Some i /\ state i = open /\ now < deadline i) /\
  state u = filled /\ repo_find id (w_repo w') = Some u /\
  w_metrics w' = w_metrics w ++ [("open", "accepted"); ("accepted", "filled")]%string /\
  w_audit w' = w_audit w /\ w_invalidations w' = w_invalidations w /\ w_ledger w' = w_ledger w /\ w_jobs w' = w_jobs w.
Proof.
  unfold settlePartialFill in Hrun. rewrite run_pbind, run_find in Hrun. cbv beta iota in Hrun.
  destruct (repo_find id (w_repo w)) as [i|] eqn:Ei; [|done].
  rewrite run_pbind in Hrun. unfold repo_write at 1 in Hrun. rewrite run_atomic in Hrun. cbv beta iota in Hrun.
  set (acc := repo_accept id sol (now + fill_window (srcChain i)) now None) in Hrun.
  pose proof (repo_accept_spec id sol (now + fill_window (srcChain i)) now None (w_repo w)) as [Hv1 _]. fold acc in Hv1.
  destruct (acc (w_repo w)) as [[a| |c] r1]; simpl in Hrun, Hv1; [|done..].
  symmetry in Hv1. apply verdict_written in Hv1 as (old & Ho & Hg & _).
  assert (old = i) as -> by congruence. cbv beta in Hg. bool_norm.
  destruct (repo_fill_spec id sol patch now None r1) as [Hv2 Hf2].
  destruct (repo_fill id sol patch now None r1) as [[f| |c] r2]; simpl in Hrun, Hv2, Hf2; [|done..].
  injection Hrun as <- <-. split; [by exists i|]. symmetry in Hv2. apply verdict_written in Hv2 as (b & _ & _ & -> & _).
  split; [done|]. simpl. rewrite Hf2, decide_True by done. rewrite <- app_assoc. done.
Qed.

Lemma partial_settlement_skips_bookkeeping_witness :
  match run (settlePartialFill "i1" "S" [P_fillAmount (Some "900"%string)] 2000) demo_world with
  | (Ok (Some u), w') => state u = filled /\ w_audit w' = [] /\ w_ledger w' = empty_ledger
  | _ => False
  end.
Proof.
  destruct (run (settlePartialFill "i1" "S" [P_fillAmount (Some "900"%string)] 2000) demo_world) as [[[u|]|e] w'] eqn:E;
    [|vm_compute in E; discriminate..].
  destruct (partial_settlement_skips_bookkeeping "i1" "S" _ 2000 demo_world w' u E) as (_ & Hs & _ & _ & Ha & _ & Hl & _).
  split; [exact Hs|]. split; [exact Ha|exact Hl].
Defined.
