(* ===== verification/IntentCreation.v ===== *)
(** Creating intents: idempotency keys under concurrency ([create]) and batch
    creation ([createBatch]) of [src/intents/intents.service.ts].

    [create] keeps two maps: finished results by key, with an expiry, and
    creations in flight by key.  A request is a thread with a program counter;
    the steps are the code between two [await]s, so the check-and-claim of the
    in-flight map is one step with whatever precedes it in the same turn. *)
From S2P Require Import Prelude JsMap BigInt IntentTypes StateMachine IntentsRepo Prog SolverFills FillsRepo IntentsService ServiceSafety.
From stdpp Require Import relations.
Local Open Scope Z_scope.

(** * The state of [create] *)

Record CreateState (R : Type) := {
  cr_repo : R;
  cr_cache : jsmap (string * Z);
  cr_inflight : jsmap nat;
}.
Arguments cr_repo {R} _.
Arguments cr_cache {R} _.
Arguments cr_inflight {R} _.

Inductive CreatePc :=
  | CStart
  | CLookup (cachedId : string)      (* awaiting [repo.findById] *)
  | CWait (owner : nat)              (* awaiting the in-flight promise *)
  | CCreating                        (* inside [persistNewIntent], before the save *)
  | CSaved (i : Intent)              (* saved, the cache not yet set *)
  | CSettle (i : Intent)             (* cached, still in flight *)
  | CDone (i : Intent)
  | CFail.

(** [th_intent] is the record this request would create; [th_now] its clock. *)
Record CreateThread := { th_key : string; th_now : Z; th_intent : Intent; th_pc : CreatePc }.

Definition goto (pc : CreatePc) (t : CreateThread) : CreateThread :=
  {| th_key := th_key t; th_now := th_now t; th_intent := th_intent t; th_pc := pc |}.

Section create.
Context {R : Type} `{Hrepo : IntentsRepository R}.
Implicit Types (s : CreateState R) (ths : list CreateThread) (n m : nat).

(** Take the key, or wait for whoever holds it. *)
Definition claim (n : nat) (key : string) s : CreateState R * CreatePc :=
  match get key (cr_inflight s) with
  | Some owner => (s, CWait owner)
  | None => ({| cr_repo := cr_repo s; cr_cache := cr_cache s; cr_inflight := set key n (cr_inflight s) |}, CCreating)
  end.

(** One turn of thread [n]; [fails] is the outcome of the registration. *)
Definition create_turn (fails : bool) (n : nat) (ths : list CreateThread) (t : CreateThread) s
    : option (CreateState R * CreatePc) :=
  match th_pc t with
  | CStart =>
      Some (match get (th_key t) (cr_cache s) with
            | Some (cid, expiresAt) => if th_now t <? expiresAt then (s, CLookup cid) else claim n (th_key t) s
            | None => claim n (th_key t) s
            end)
  | CLookup cid =>
      Some (match repo_find cid (cr_repo s) with
            | Some i => (s, CDone i)
            | None => claim n (th_key t)
                {| cr_repo := cr_repo s; cr_cache := del (th_key t) (cr_cache s); cr_inflight := cr_inflight s |}
            end)
  | CWait owner =>
      match th_pc <$> ths !! owner with
      | Some (CDone i) => Some (s, CDone i)
      | Some CFail => Some (s, CFail)
      | _ => None
      end
  | CCreating =>
      Some (if fails
            then ({| cr_repo := cr_repo s; cr_cache := cr_cache s; cr_inflight := del (th_key t) (cr_inflight s) |}, CFail)
            else ({| cr_repo := repo_save (th_intent t) (cr_repo s); cr_cache := cr_cache s;
                     cr_inflight := cr_inflight s |}, CSaved (th_intent t)))
  | CSaved i =>
      Some ({| cr_repo := cr_repo s; cr_cache := set (th_key t) (intentId i, th_now t + IDEMPOTENCY_TTL_SECONDS) (cr_cache s);
               cr_inflight := cr_inflight s |}, CSettle i)
  | CSettle i =>
      Some ({| cr_repo := cr_repo s; cr_cache := cr_cache s; cr_inflight := del (th_key t) (cr_inflight s) |}, CDone i)
  | CDone _ | CFail => None
  end.

Inductive create_step : CreateState R * list CreateThread -> CreateState R * list CreateThread -> Prop :=
  | create_one s ths n t fails s' pc :
      ths !! n = Some t -> create_turn fails n ths t s = Some (s', pc) ->
      create_step (s, ths) (s', <[n := goto pc t]> ths).

(** * Invariant, for one key *)

Section key.
Context (k : string) (now_max : Z).

Definition owns (pc : CreatePc) : bool :=
  match pc with CCreating | CSaved _ | CSettle _ => true | _ => false end.

Definition cached (s : CreateState R) (x : string) : Prop :=
  exists e, get k (cr_cache s) = Some (x, e) /\ now_max < e.

Definition thread_ok (s : CreateState R) (ths : list CreateThread) (n : nat) (t : CreateThread) : Prop :=
  th_now t <= now_max < th_now t + IDEMPOTENCY_TTL_SECONDS /\
  (owns (th_pc t) = true -> get k (cr_inflight s) = Some n) /\
  match th_pc t with
  | CStart | CFail => True
  | CCreating => get k (cr_cache s) = None
  | CSaved i => i = th_intent t /\ get k (cr_cache s) = None /\ repo_find (intentId i) (cr_repo s) = Some i
  | CSettle i => i = th_intent t /\ cached s (intentId i)
  | CLookup x => cached s x
  | CDone i => cached s (intentId i)
  | CWait m => exists t', ths !! m = Some t' /\ th_key t' = k /\
      match th_pc t' with CStart | CLookup _ | CWait _ => False | _ => True end
  end /\
  (repo_find (intentId (th_intent t)) (cr_repo s) <> None ->
     th_pc t = CSaved (th_intent t) \/ cached s (intentId (th_intent t))).

Definition create_inv (c : CreateState R * list CreateThread) : Prop :=
  let '(s, ths) := c in
  wf (cr_inflight s) /\
  NoDup ((fun t => intentId (th_intent t)) <$> ths) /\
  (forall n t, ths !! n = Some t -> th_key t = k -> thread_ok s ths n t) /\
  (forall n, get k (cr_inflight s) = Some n -> exists t, ths !! n = Some t /\ th_key t = k /\ owns (th_pc t) = true) /\
  (forall x e, get k (cr_cache s) = Some (x, e) -> now_max < e /\ exists i, repo_find x (cr_repo s) = Some i /\ intentId i = x).

Definition beyond (pc : CreatePc) : Prop :=
  match pc with CStart | CLookup _ | CWait _ => False | _ => True end.

Lemma goto_intents ths n t pc :
  ths !! n = Some t ->
  (fun t => intentId (th_intent t)) <$> <[n := goto pc t]> ths = (fun t => intentId (th_intent t)) <$> ths.
Proof.
  intros Hn. rewrite list_fmap_insert. apply list_insert_id. rewrite list_lookup_fmap, Hn. done.
Qed.

Lemma distinct_intents ths n m t t' :
  NoDup ((fun t => intentId (th_intent t)) <$> ths) -> ths !! n = Some t -> ths !! m = Some t' -> n <> m ->
  intentId (th_intent t) <> intentId (th_intent t').
Proof.
  intros Hnd Hn Hm Hne He. apply Hne. eapply (NoDup_lookup _ n m (intentId (th_intent t)) Hnd).
  - by rewrite list_lookup_fmap, Hn.
  - rewrite list_lookup_fmap, Hm. simpl. by rewrite He.
Qed.

Lemma lookup_goto ths n t pc m t0 :
  ths !! n = Some t -> <[n := goto pc t]> ths !! m = Some t0 ->
  (m = n /\ t0 = goto pc t) \/ (m <> n /\ ths !! m = Some t0).
Proof.
  intros Hn. destruct (decide (m = n)) as [->|Hm].
  - rewrite list_lookup_insert_eq by (by eapply lookup_lt_Some). intros [= <-]. auto.
  - rewrite list_lookup_insert_ne by done. auto.
Qed.

(** Waiters keep a valid owner as long as the stepping thread does not fall
    back before its claim. *)
Lemma wait_mono ths n t pc m :
  ths !! n = Some t -> (beyond (th_pc t) -> beyond pc) ->
  (exists t', ths !! m = Some t' /\ th_key t' = k /\ beyond (th_pc t')) ->
  exists t', <[n := goto pc t]> ths !! m = Some t' /\ th_key t' = k /\ beyond (th_pc t').
Proof.
  intros Hn Hb (t' & Hm & Hk & Hb'). destruct (decide (m = n)) as [->|Hne].
  - exists (goto pc t). rewrite list_lookup_insert_eq by (by eapply lookup_lt_Some).
    assert (t' = t) as -> by congruence. auto.
  - exists t'. rewrite list_lookup_insert_ne by done. auto.
Qed.

Lemma turn_beyond fails n ths t s s' pc :
  create_turn fails n ths t s = Some (s', pc) -> beyond (th_pc t) -> beyond pc.
Proof. unfold create_turn. destruct (th_pc t), fails; naive_solver. Qed.

(** A thread not touched by the step, when the step left what it sees. *)
Lemma thread_frame s s' ths n t pc m t0 :
  ths !! n = Some t -> (beyond (th_pc t) -> beyond pc) ->
  get k (cr_cache s') = get k (cr_cache s) -> (owns (th_pc t0) = true -> get k (cr_inflight s') = get k (cr_inflight s)) ->
  (forall x i, repo_find x (cr_repo s) = Some i -> x = intentId (th_intent t0) -> repo_find x (cr_repo s') = Some i) ->
  (repo_find (intentId (th_intent t0)) (cr_repo s') <> None -> repo_find (intentId (th_intent t0)) (cr_repo s) <> None) ->
  thread_ok s ths m t0 -> thread_ok s' (<[n := goto pc t]> ths) m t0.
Proof.
  intros Hn Hb Hc Hi Hr1 Hr2 (Hnow & Hown & Hpc & Hst). unfold thread_ok, cached. rewrite Hc.
  split; [done|]. split; [intros Ho; rewrite (Hi Ho); auto|]. split; [|intros Hne; by apply Hst, Hr2].
  destruct (th_pc t0); try done.
  - by eapply wait_mono.
  - destruct Hpc as (-> & ? & ?). split_and!; auto.
Qed.

Lemma inv_rebuild s ths s' n t pc :
  create_inv (s, ths) -> ths !! n = Some t -> wf (cr_inflight s') ->
  (forall m t0, m <> n -> ths !! m = Some t0 -> th_key t0 = k -> thread_ok s ths m t0 ->
     thread_ok s' (<[n := goto pc t]> ths) m t0) ->
  (th_key t = k -> thread_ok s' (<[n := goto pc t]> ths) n (goto pc t)) ->
  (forall m, get k (cr_inflight s') = Some m -> exists t0, <[n := goto pc t]> ths !! m = Some t0 /\
     th_key t0 = k /\ owns (th_pc t0) = true) ->
  (forall x e, get k (cr_cache s') = Some (x, e) ->
     now_max < e /\ exists i, repo_find x (cr_repo s') = Some i /\ intentId i = x) ->
  create_inv (s', <[n := goto pc t]> ths).
Proof.
  intros (_ & Hnd & Hth & _) Hn Hwf Hother Hself Hin Hcache.
  split; [done|]. split; [by rewrite goto_intents|]. split; [|split; [done|done]].
  intros m t0 Hm Hk. destruct (lookup_goto _ _ _ _ _ _ Hn Hm) as [[-> ->]|[Hne Hm0]]; [by apply Hself|].
  apply Hother; auto.
Qed.

Lemma turn_foreign fails n ths t s s' pc :
  create_turn fails n ths t s = Some (s', pc) -> th_key t <> k -> wf (cr_inflight s) ->
  get k (cr_cache s') = get k (cr_cache s) /\ get k (cr_inflight s') = get k (cr_inflight s) /\
  wf (cr_inflight s') /\ (cr_repo s' = cr_repo s \/ cr_repo s' = repo_save (th_intent t) (cr_repo s)).
Proof.
  unfold create_turn, claim. intros H Hk Hwf. split_matches H; simpl;
    rewrite ?get_set_ne, ?get_del_ne by done; split_and!; auto using set_wf, del_wf.
Qed.

Lemma saved_still (r : R) i x j :
  repo_find x r = Some j -> exists j', repo_find x (repo_save i r) = Some j' /\ (intentId j = x -> intentId j' = x).
Proof. intros H. rewrite repo_find_save. case_decide; subst; eauto. Qed.

Lemma foreign_inv s ths n t fails s' pc :
  create_inv (s, ths) -> ths !! n = Some t -> create_turn fails n ths t s = Some (s', pc) -> th_key t <> k ->
  create_inv (s', <[n := goto pc t]> ths).
Proof.
  intros Hinv Hn Ht Hk. pose proof Hinv as (Hwf & Hnd & Hth & Hin & Hca).
  destruct (turn_foreign _ _ _ _ _ _ _ Ht Hk Hwf) as (Hc & Hi & Hwf' & Hr).
  eapply inv_rebuild; [done|done|done| |done| |].
  - intros m t0 Hne Hm Hk0 Hok. pose proof (distinct_intents ths m n t0 t Hnd Hm Hn Hne) as Hd.
    eapply (thread_frame s); eauto using turn_beyond.
    + intros x i Hx ->. destruct Hr as [->| ->]; [done|]. rewrite repo_find_save, decide_False by done. done.
    + destruct Hr as [->| ->]; [done|]. rewrite repo_find_save, decide_False by done. done.
  - rewrite Hi. intros m Hm. destruct (Hin m Hm) as (t0 & Hm0 & Hk0 & Ho). exists t0. split; [|done].
    rewrite list_lookup_insert_ne; [done|]. intros ->. congruence.
  - rewrite Hc. intros x e Hx. destruct (Hca x e Hx) as (He & i & Hf & Hid). split; [done|].
    destruct Hr as [->| ->]; [eauto|]. destruct (saved_still _ (th_intent t) _ _ Hf) as (j & ? & ?). eauto.
Qed.

Lemma unique_owner s ths n m t t' :
  create_inv (s, ths) -> ths !! n = Some t -> ths !! m = Some t' -> th_key t = k -> th_key t' = k ->
  owns (th_pc t) = true -> owns (th_pc t') = true -> m = n.
Proof.
  intros (_ & _ & Hth & _) Hn Hm Hk Hk' Ho Ho'.
  destruct (Hth n t Hn Hk) as (_ & H1 & _). destruct (Hth m t' Hm Hk') as (_ & H2 & _).
  specialize (H1 Ho). specialize (H2 Ho'). congruence.
Qed.

(** The step changes only the program counter. *)
Lemma pc_only_inv s ths n t pc :
  create_inv (s, ths) -> ths !! n = Some t -> (beyond (th_pc t) -> beyond pc) ->
  owns (th_pc t) = false -> thread_ok s (<[n := goto pc t]> ths) n (goto pc t) ->
  create_inv (s, <[n := goto pc t]> ths).
Proof.
  intros Hinv Hn Hb Ho Hok. pose proof Hinv as (Hwf & Hnd & Hth & Hin & Hca).
  eapply inv_rebuild; eauto.
  - intros m t0 Hne Hm Hk0 Hok0. eapply (thread_frame s); eauto.
  - intros m Hm. destruct (Hin m Hm) as (t0 & Hm0 & Hk0 & Ho0). exists t0. split; [|done].
    rewrite list_lookup_insert_ne; [done|]. intros ->. congruence.
Qed.

(** Claiming when no result is cached. *)
Lemma claim_inv s ths n t :
  create_inv (s, ths) -> ths !! n = Some t -> th_key t = k -> owns (th_pc t) = false ->
  ~ beyond (th_pc t) -> (forall i, th_pc t <> CSaved i) -> get k (cr_cache s) = None ->
  create_inv ((claim n k s).1, <[n := goto (claim n k s).2 t]> ths).
Proof.
  intros Hinv Hn Hk Ho Hnb Hns Hnc. pose proof Hinv as (Hwf & Hnd & Hth & Hin & Hca).
  destruct (Hth n t Hn Hk) as (Hnow & _ & _ & Hst). unfold claim.
  destruct (get k (cr_inflight s)) as [owner|] eqn:Ei; cbn [fst snd].
  - apply pc_only_inv; auto. split; [done|]. split; [done|]. split.
    + destruct (Hin owner eq_refl) as (t' & Hm & Hk' & Ho'). apply (wait_mono _ _ _ _ _ Hn); [done|].
      exists t'. split; [done|]. split; [done|]. by destruct (th_pc t').
    + intros Hne. destruct (Hst Hne) as [Hs|Hs]; [by destruct (Hns (th_intent t))|by right].
  - eapply inv_rebuild; [done|done|by apply set_wf| | | |].
    + intros m t0 Hne Hm Hk0 Hok. eapply (thread_frame s); eauto; [done|].
      intros Ho0. destruct Hok as (_ & H0 & _). specialize (H0 Ho0). congruence.
    + intros _. split; [done|]. split; [intros _; simpl; by rewrite get_set_eq|]. split; [done|].
      intros Hne. destruct (Hst Hne) as [Hs|Hs]; [by destruct (Hns (th_intent t))|by right].
    + intros m. simpl. rewrite get_set_eq. intros [= <-]. exists (goto CCreating t).
      rewrite list_lookup_insert_eq by (by eapply lookup_lt_Some). done.
    + simpl. intros x e Hx. congruence.
Qed.

(** No other thread of the key owns it. *)
Lemma others_free s ths n t :
  create_inv (s, ths) -> ths !! n = Some t -> th_key t = k -> owns (th_pc t) = true ->
  forall m t0, m <> n -> ths !! m = Some t0 -> th_key t0 = k -> owns (th_pc t0) = false.
Proof.
  intros Hinv Hn Hk Ho m t0 Hm Hm0 Hk0. destruct (owns (th_pc t0)) eqn:E; [|done].
  by destruct Hm; eapply (unique_owner s ths n m t t0).
Qed.

Ltac own_turn :=
  intros Hinv Hn Ht Hk Epc; pose proof Hinv as (Hwf & Hnd & Hth & Hin & Hca);
  pose proof (Hth _ _ Hn Hk) as (Hnow & Hown & Hpc & Hst);
  pose proof (turn_beyond _ _ _ _ _ _ _ Ht) as Hb;
  pose proof (others_free _ _ _ _ Hinv Hn Hk) as Hne_owner;
  unfold create_turn in Ht; rewrite Hk in Ht; rewrite Epc in *.

Lemma start_inv s ths n t fails s' pc :
  create_inv (s, ths) -> ths !! n = Some t -> create_turn fails n ths t s = Some (s', pc) -> th_key t = k ->
  th_pc t = CStart -> create_inv (s', <[n := goto pc t]> ths).
Proof.
  own_turn.
  destruct (get k (cr_cache s)) as [[cid e]|] eqn:Ec.
  + destruct (Hca _ _ eq_refl) as (He & _). rewrite (proj2 (Z.ltb_lt _ _)) in Ht by lia. simplify_eq.
    apply pc_only_inv; [done|done|by rewrite Epc|by rewrite Epc|]. split; [done|]. split; [done|].
    split; [by exists e|]. intros Hs. destruct (Hst Hs) as [?|?]; [done|by right].
  + injection Ht as Ht. pose proof (claim_inv s ths n t Hinv Hn Hk) as Hcl. rewrite Ht in Hcl.
    apply Hcl; rewrite ?Epc; auto.
Qed.

Lemma lookup_inv s ths n t fails s' pc cid :
  create_inv (s, ths) -> ths !! n = Some t -> create_turn fails n ths t s = Some (s', pc) -> th_key t = k ->
  th_pc t = CLookup cid -> create_inv (s', <[n := goto pc t]> ths).
Proof.
  own_turn.
  destruct Hpc as (e & Hc & He). destruct (Hca _ _ Hc) as (_ & i & Hf & Hid). rewrite Hf in Ht. simplify_eq.
  apply pc_only_inv; [done|done|by rewrite Epc|by rewrite Epc|]. split; [done|]. split; [done|]. split; [by exists e|].
  intros Hs. destruct (Hst Hs) as [?|?]; [done|by right].
Qed.

Lemma wait_inv s ths n t fails s' pc owner :
  create_inv (s, ths) -> ths !! n = Some t -> create_turn fails n ths t s = Some (s', pc) -> th_key t = k ->
  th_pc t = CWait owner -> create_inv (s', <[n := goto pc t]> ths).
Proof.
  own_turn.
  destruct Hpc as (t' & Hm & Hk' & Hbt). rewrite Hm in Ht. simpl in Ht.
  pose proof (Hth owner t' Hm Hk') as (_ & _ & Hpc' & _).
  destruct (th_pc t') eqn:Epc'; simplify_eq; (apply pc_only_inv; [done|done|by rewrite Epc|by rewrite Epc|]);
    (split; [done|]; split; [done|]; split; [done|]); intros Hs; (destruct (Hst Hs) as [?|?]; [done|by right]).
Qed.

Lemma creating_inv s ths n t fails s' pc :
  create_inv (s, ths) -> ths !! n = Some t -> create_turn fails n ths t s = Some (s', pc) -> th_key t = k ->
  th_pc t = CCreating -> create_inv (s', <[n := goto pc t]> ths).
Proof.
  own_turn.
  destruct fails; simplify_eq.
  + eapply inv_rebuild; [done|done|by apply del_wf| | | |].
    * intros m t0 Hm Hm0 Hk0 Hok. eapply (thread_frame s); eauto; [by rewrite Epc|].
      intros Ho. by rewrite (Hne_owner eq_refl m t0 Hm Hm0 Hk0) in Ho.
    * intros _. split; [done|]. split; [done|]. split; [done|].
      intros Hs. destruct (Hst Hs) as [?|?]; [done|by right].
    * intros m. simpl. by rewrite get_del_eq.
    * done.
  + eapply inv_rebuild; [done|done|done| | | |].
    * intros m t0 Hm Hm0 Hk0 Hok. pose proof (distinct_intents ths m n t0 t Hnd Hm0 Hn Hm) as Hd.
      eapply (thread_frame s); eauto; [by rewrite Epc| |];
        simpl; intros; rewrite repo_find_save in *; case_decide; subst; done.
    * intros _. split; [done|]. split; [by intros _; apply Hown|]. split; [|by left].
      split_and!; [done|done|]. simpl. by rewrite repo_find_save, decide_True.
    * intros m Hm. destruct (Hin m Hm) as (t0 & Hm0 & Hk0 & Ho0).
      assert (m = n) as -> by (eapply (unique_owner s ths n m t t0); eauto; by rewrite Epc).
      exists (goto (CSaved (th_intent t)) t). rewrite list_lookup_insert_eq by (by eapply lookup_lt_Some). done.
    * simpl. intros x e Hx. congruence.
Qed.

Lemma saved_inv s ths n t fails s' pc i :
  create_inv (s, ths) -> ths !! n = Some t -> create_turn fails n ths t s = Some (s', pc) -> th_key t = k ->
  th_pc t = CSaved i -> create_inv (s', <[n := goto pc t]> ths).
Proof.
  own_turn.
  destruct Hpc as (-> & Hnc & Hf). simplify_eq.
  assert (Hset : cached {| cr_repo := cr_repo s;
      cr_cache := set k (intentId (th_intent t), th_now t + IDEMPOTENCY_TTL_SECONDS) (cr_cache s);
      cr_inflight := cr_inflight s |} (intentId (th_intent t))).
  { eexists. simpl. rewrite get_set_eq. split; [reflexivity|]. lia. }
  eapply inv_rebuild; [done|done|done| | | |].
  + intros m t0 Hm Hm0 Hk0 (Hnow0 & Hown0 & Hpc0 & Hst0). pose proof (Hne_owner eq_refl m t0 Hm Hm0 Hk0) as Hno.
    split; [done|]. split; [done|]. split.
    * destruct (th_pc t0); try done; try (by destruct Hpc0 as (? & ? & ?); congruence).
      eapply wait_mono; [done| |done]. by rewrite Epc.
    * intros Hs. destruct (Hst0 Hs) as [Hs0|(e & Hs0 & _)]; [|congruence]. by rewrite Hs0 in Hno.
  + intros _. split; [done|]. split; [done|]. split; [by split|]. by right.
  + intros m Hm. destruct (Hin m Hm) as (t0 & Hm0 & Hk0 & Ho0).
    assert (m = n) as -> by (eapply (unique_owner s ths n m t t0); eauto; by rewrite Epc).
    exists (goto (CSettle (th_intent t)) t). rewrite list_lookup_insert_eq by (by eapply lookup_lt_Some). done.
  + simpl. rewrite get_set_eq. intros x e [= <- <-]. split; [lia|]. eauto.
Qed.

Lemma settle_inv s ths n t fails s' pc i :
  create_inv (s, ths) -> ths !! n = Some t -> create_turn fails n ths t s = Some (s', pc) -> th_key t = k ->
  th_pc t = CSettle i -> create_inv (s', <[n := goto pc t]> ths).
Proof.
  own_turn.
  destruct Hpc as (-> & Hc). simplify_eq.
  eapply inv_rebuild; [done|done|by apply del_wf| | | |].
  + intros m t0 Hm Hm0 Hk0 Hok. eapply (thread_frame s); eauto; [by rewrite Epc|].
    intros Ho. by rewrite (Hne_owner eq_refl m t0 Hm Hm0 Hk0) in Ho.
  + intros _. split; [done|]. split; [done|]. split; [done|]. by right.
  + intros m. simpl. by rewrite get_del_eq.
  + done.
Qed.

Lemma own_step_inv s ths n t fails s' pc :
  create_inv (s, ths) -> ths !! n = Some t -> create_turn fails n ths t s = Some (s', pc) -> th_key t = k ->
  create_inv (s', <[n := goto pc t]> ths).
Proof.
  intros Hinv Hn Ht Hk. destruct (th_pc t) eqn:Epc;
    eauto using start_inv, lookup_inv, wait_inv, creating_inv, saved_inv, settle_inv;
    unfold create_turn in Ht; by rewrite Epc in Ht.
Qed.

Lemma create_step_inv c c' : create_step c c' -> create_inv c -> create_inv c'.
Proof.
  destruct 1 as [s ths n t fails s' pc Hn Ht]. intros Hinv.
  destruct (decide (th_key t = k)); [by eapply own_step_inv|by eapply foreign_inv].
Qed.
End key.
End create.

(** * Properties *)

(** C23. Retries collapse: whatever the interleaving of concurrent [create]
    requests (with any keys, some registrations failing), among requests that
    carry the same key within its lifetime at most one stores an intent, and
    every one that succeeds returns that intent's id. *)
Theorem concurrent_creates_collapse {R} `{IntentsRepository R} (s s' : CreateState R) ths ths' k now_max
    (Hrun : rtc create_step (s, ths) (s', ths'))
    (Hfresh : get k (cr_cache s) = None /\ get k (cr_inflight s) = None /\ wf (cr_inflight s))
    (Huuid : NoDup ((fun t => intentId (th_intent t)) <$> ths))
    (Hths : Forall (fun t => th_pc t = CStart /\ th_now t <= now_max < th_now t + IDEMPOTENCY_TTL_SECONDS /\
              repo_find (intentId (th_intent t)) (cr_repo s) = None) ths) :
  forall n m t u, ths' !! n = Some t -> ths' !! m = Some u -> th_key t = k -> th_key u = k ->
    (forall i j, th_pc t = CDone i -> th_pc u = CDone j -> intentId i = intentId j) /\
    (repo_find (intentId (th_intent t)) (cr_repo s') <> None ->
     repo_find (intentId (th_intent u)) (cr_repo s') <> None -> intentId (th_intent t) = intentId (th_intent u)).
Proof.
  assert (Hinv : create_inv k now_max (s, ths)).
  { destruct Hfresh as (Hc & Hi & Hwf). split; [done|]. split; [done|]. split; [|split; congruence].
    intros n t Hn _. rewrite Forall_forall in Hths. destruct (Hths t) as (Hp & Hnow & Hno); [by eapply list_elem_of_lookup_2|].
    unfold thread_ok. rewrite Hp, Hno. done. }
  assert (Hinv' : create_inv k now_max (s', ths')).
  { clear -Hrun Hinv. remember (s, ths) as c. remember (s', ths') as c'. clear Heqc Heqc'.
    induction Hrun as [|c c1 c2 Hst _ IH]; [done|]. apply IH. by eapply create_step_inv. }
  clear -Hinv'. intros n m t u Hn Hm Hkt Hku. pose proof Hinv' as (_ & _ & Hth & _).
  destruct (Hth n t Hn Hkt) as (_ & Hot & Hpt & Hst). destruct (Hth m u Hm Hku) as (_ & Hou & Hpu & Hsu). split.
  - intros i j Ei Ej. rewrite Ei in Hpt. rewrite Ej in Hpu. destruct Hpt as (? & ? & _), Hpu as (? & ? & _). congruence.
  - intros H1 H2. destruct (Hst H1) as [E1|(e1 & E1 & _)], (Hsu H2) as [E2|(e2 & E2 & _)].
    + assert (m = n) as -> by (eapply (unique_owner k now_max s' ths' n m t u); eauto; [by rewrite E1|by rewrite E2]).
      congruence.
    + rewrite E1 in Hpt. destruct Hpt as (_ & ? & _). congruence.
    + rewrite E2 in Hpu. destruct Hpu as (_ & ? & _). congruence.
    + congruence.
Qed.

(** Two requests with one key: the second arrives while the first is creating. *)
Definition demo_thread (uuid : string) (now : Z) : CreateThread :=
  {| th_key := "key"; th_now := now; th_intent := stamp uuid 0 demo_intent; th_pc := CStart |}.

Fixpoint create_schedule (ns : list nat) (c : CreateState InMemoryRepo * list CreateThread) :=
  match ns with
  | [] => c
  | n :: ns =>
      match c.2 !! n with
      | Some t => match create_turn false n c.2 t c.1 with
                  | Some (s', pc) => create_schedule ns (s', <[n := goto pc t]> c.2)
                  | None => create_schedule ns c
                  end
      | None => create_schedule ns c
      end
  end.

Lemma create_schedule_steps ns c : rtc create_step c (create_schedule ns c).
Proof.
  revert c. induction ns as [|n ns IH]; intros [s ths]; simpl; [done|].
  destruct (ths !! n) as [t|] eqn:Et; [|apply IH].
  destruct (create_turn false n ths t s) as [[s' pc]|] eqn:Ec; [|apply IH].
  eapply rtc_l; [by econstructor|apply IH].
Qed.

Definition demo_create : CreateState InMemoryRepo * list CreateThread :=
  ({| cr_repo := empty_repo; cr_cache := []; cr_inflight := [] |}, [demo_thread "a" 100; demo_thread "b" 101]).

Lemma concurrent_creates_collapse_witness :
  let c' := create_schedule [0; 1; 0; 0; 0; 1]%nat demo_create in
  match c'.2 !! 0%nat, c'.2 !! 1%nat with
  | Some t, Some u => exists i j, th_pc t = CDone i /\ th_pc u = CDone j /\ intentId i = intentId j
  | _, _ => False
  end.
Proof.
  intros c'.
  assert (Hrun : rtc create_step (demo_create.1, demo_create.2) (c'.1, c'.2))
    by (rewrite <- !surjective_pairing; apply create_schedule_steps).
  destruct (c'.2 !! 0%nat) as [t|] eqn:Et; [|vm_compute in Et; discriminate].
  destruct (c'.2 !! 1%nat) as [u|] eqn:Eu; [|vm_compute in Eu; discriminate].
  destruct (concurrent_creates_collapse demo_create.1 c'.1 demo_create.2 c'.2 "key" 200 Hrun) with (n := 0%nat) (m := 1%nat) (t := t) (u := u)
    as [Hsame _]; try done.
  - split; [reflexivity|]. split; [reflexivity|constructor].
  - repeat constructor; try (vm_compute; intros H; inversion H; fail); rewrite ?elem_of_cons; vm_compute; intros [H|H]; inversion H.
  - repeat constructor; vm_compute; discriminate.
  - vm_compute in Et. by injection Et as <-.
  - vm_compute in Eu. by injection Eu as <-.
  - destruct (th_pc t) as [| | | | | |i|] eqn:Ei; try (vm_compute in Et; injection Et as <-; discriminate).
    destruct (th_pc u) as [| | | | | |j|] eqn:Ej; try (vm_compute in Eu; injection Eu as <-; discriminate).
    exists i, j. split; [reflexivity|]. split; [reflexivity|]. by apply Hsame.
Defined.

(** ** Batches *)

Section batch.
Context {R : Type} `{Hrepo : IntentsRepository R} (env : Env).
Implicit Types w : World R.

Definition item_key (d : NewIntentData) : string := toLowerCase (user (nd_fields d)).

(** Number of items of one (case-insensitive) user. *)
Definition items_of (key : string) (l : list NewIntentData) : Z :=
  Z.of_nat (length (filter (fun d => item_key d = key) l)).

Lemma items_of_snoc key l d :
  items_of key (l ++ [d]) = items_of key l + (if decide (item_key d = key) then 1 else 0).
Proof.
  unfold items_of. rewrite filter_app, length_app. case_decide.
  - rewrite filter_cons_True by done. simpl. lia.
  - rewrite filter_cons_False by done. simpl. lia.
Qed.

Lemma countOpen_lower u (r : R) : countOpen (toLowerCase u) r = countOpen u r.
Proof. unfold countOpen. by rewrite toLowerCase_idem. Qed.

(** Accepted so far: every user seen has its standing count plus its items,
    within the cap. *)
Definition batch_ok w (seen : list NewIntentData) (acc : list BatchError * jsmap Z) : Prop :=
  acc.1 = [] ->
  forall key, if decide (items_of key seen = 0) then get key acc.2 = None
    else get key acc.2 = Some (countOpen key (w_repo w) + items_of key seen) /\
         countOpen key (w_repo w) + items_of key seen <= MAX_OPEN_INTENTS_PER_USER.

Lemma batch_ok_snoc w seen counts d :
  batch_ok w seen ([], counts) ->
  let key := item_key d in
  let current := default (countOpen key (w_repo w)) (get key counts) in
  current + 1 <= MAX_OPEN_INTENTS_PER_USER ->
  batch_ok w (seen ++ [d]) ([], set key (current + 1) counts).
Proof.
  intros Hok key current Hcap _ x. specialize (Hok eq_refl). simpl in *. rewrite items_of_snoc.
  pose proof (Hok x) as Hx. assert (Hpos : 0 <= items_of x seen) by (unfold items_of; lia).
  destruct (decide (item_key d = x)) as [<-|Hne].
  - fold key in Hx, Hpos |- *. rewrite get_set_eq. rewrite decide_False by lia.
    assert (current = countOpen key (w_repo w) + items_of key seen).
    { unfold current. case_decide as Hz; [rewrite Hx; simpl; lia|by rewrite (proj1 Hx)]. }
    split; [f_equal; lia|lia].
  - rewrite get_set_ne by done. rewrite Z.add_0_r. done.
Qed.

Lemma batch_check_step w seen acc n d :
  batch_ok w seen acc ->
  exists acc', run (batch_check acc (n, d)) w = (Ok acc', w) /\ batch_ok w (seen ++ [d]) acc' /\
    (acc'.1 = [] -> acc.1 = []).
Proof.
  intros Hok. destruct acc as [errors counts]. unfold batch_check. fold (item_key d).
  case_decide as He.
  { eexists. split; [done|]. split; [intros Habs; simpl in Habs; by destruct errors|]. simpl. by destruct errors. }
  set (key := item_key d).
  assert (Hc : exists counts', run (if has key counts then Done counts
      else pbind (fun n => Done (set key n counts)) (countOpenByUser (user (nd_fields d)))) w = (Ok (E := ServiceError) counts', w) /\
    default 0 (get key counts') = default (countOpen key (w_repo w)) (get key counts) /\
    forall z, set key z counts' = set key z counts).
  { unfold has. destruct (get key counts) as [z|] eqn:E; simpl.
    - exists counts. by rewrite E.
    - eexists. split; [done|]. rewrite get_set_eq. split; [unfold key, item_key; by rewrite countOpen_lower|].
      intros z. apply set_set. }
  destruct Hc as (counts' & Hrun & Hdef & Hset). rewrite run_pbind, Hrun. cbv beta iota. rewrite Hdef.
  destruct (Z.ltb_spec MAX_OPEN_INTENTS_PER_USER (default (countOpen key (w_repo w)) (get key counts) + 1)).
  - eexists. split; [done|]. split; [intros Habs; simpl in Habs; by destruct errors|]. simpl. by destruct errors.
  - eexists. split; [done|]. split; [|done]. intros Herr. simpl in Herr. subst errors.
    pose proof (batch_ok_snoc w seen counts d Hok H eq_refl) as Hb. fold key in Hb. cbn [snd] in *.
    intros x. rewrite Hset. apply Hb.
Qed.

Lemma batch_checks w l : forall seen acc k, batch_ok w seen acc ->
  exists acc', run (pfold batch_check acc (imap (fun n (it : string * NewIntentData) => ((k + n)%nat, it.2)) l)) w = (Ok acc', w) /\
    batch_ok w (seen ++ l.*2) acc' /\ (acc'.1 = [] -> acc.1 = []).
Proof.
  induction l as [|[uuid d] l IH]; intros seen acc k Hok; simpl.
  - exists acc. rewrite app_nil_r. done.
  - destruct (batch_check_step w seen acc (k + 0)%nat d Hok) as (a1 & H1 & Hok1 & He1). rewrite run_pbind, H1. cbv beta iota.
    destruct (IH (seen ++ [d]) a1 (S k) Hok1) as (a2 & H2 & Hok2 & He2). exists a2. rewrite <- app_assoc in Hok2.
    split; [|split; [done|auto]]. rewrite <- H2. f_equal. f_equal. apply imap_ext. intros. simpl. f_equal. lia.
Qed.

Lemma run_persist_off uuid d now w :
  (forall i, e_onchain env i = false) ->
  exists w', run (persistNewIntent env uuid d now) w = (Ok (newIntent env uuid d now), w') /\
    repo_find uuid (w_repo w') = Some (newIntent env uuid d now) /\
    forall k, k <> uuid -> repo_find k (w_repo w') = repo_find k (w_repo w).
Proof.
  intros Hoff. unfold persistNewIntent. rewrite Hoff. simpl. eexists. split; [done|]. simpl.
  rewrite repo_find_save, newIntent_id, decide_True by done. split; [done|]. intros k Hk.
  by rewrite repo_find_save, newIntent_id, decide_False by done.
Qed.

Lemma run_persist_all now items : (forall i, e_onchain env i = false) -> NoDup items.*1 -> forall acc w,
  exists w', run (pfold (fun acc '(uuid, d) => pbind (fun i => Done (acc ++ [i])) (persistNewIntent env uuid d now)) acc items) w
      = (Ok (acc ++ ((fun '(uuid, d) => newIntent env uuid d now) <$> items)), w') /\
    (forall uuid d, (uuid, d) ∈ items -> repo_find uuid (w_repo w') = Some (newIntent env uuid d now)) /\
    forall k, k ∉ items.*1 -> repo_find k (w_repo w') = repo_find k (w_repo w).
Proof.
  intros Hoff. induction items as [|[uuid d] items IH]; intros Hnd acc w; simpl.
  - exists w. rewrite app_nil_r. split; [done|]. split; [|done]. intros ? ? Hin. by apply not_elem_of_nil in Hin.
  - apply NoDup_cons in Hnd as [Hni Hnd]. destruct (run_persist_off uuid d now w Hoff) as (w1 & H1 & Hf1 & Ho1).
    rewrite run_pbind, run_pbind, H1. simpl.
    destruct (IH Hnd (acc ++ [newIntent env uuid d now]) w1) as (w2 & H2 & Hf2 & Ho2).
    exists w2. rewrite H2, <- app_assoc. split; [done|]. split.
    + intros u x [Hx|Hx]%elem_of_cons; [|by apply Hf2]. injection Hx as -> ->. by rewrite Ho2.
    + intros k Hk. apply not_elem_of_cons in Hk as [Hk1 Hk2]. by rewrite Ho2, Ho1.
Qed.
End batch.

(** A batch is validated as a whole: off-chain, [createBatch] always
    answers; if any item names no user or would take a user over the cap of
    open intents - counting the batch's own items, addresses compared without
    case - nothing is created and nothing changes; otherwise every item is
    stored and each user stays within the cap. *)
Theorem batch_validated {R} `{IntentsRepository R} env items now (w : World R)
    (Hoff : forall i, e_onchain env i = false) (Huuid : NoDup items.*1) :
  exists created errors w', run (createBatch env items now) w = (Ok (created, errors), w') /\
    (errors <> [] -> created = [] /\ w' = w) /\
    (errors = [] ->
       created = (fun '(uuid, d) => newIntent env uuid d now) <$> items /\
       (forall uuid d, (uuid, d) ∈ items -> repo_find uuid (w_repo w') = Some (newIntent env uuid d now)) /\
       forall uuid d, (uuid, d) ∈ items ->
         countOpen (item_key d) (w_repo w) + items_of (item_key d) items.*2 <= MAX_OPEN_INTENTS_PER_USER).
Proof.
  unfold createBatch. rewrite run_pbind.
  destruct (batch_checks w items [] ([], []) 0) as (acc & Hrun & Hok & _); [intros _ key; by rewrite decide_True|].
  simpl in Hrun. rewrite Hrun. cbv beta iota. case_decide as He.
  - destruct (run_persist_all env now items Hoff Huuid [] w) as (w' & Hr & Hf & _).
    rewrite run_pbind, Hr. eexists _, [], w'. split; [done|]. split; [done|]. intros _. split; [done|]. split; [done|].
    intros uuid d Hin. specialize (Hok He (item_key d)). simpl in Hok. case_decide as Hz; [|lia].
    exfalso. unfold items_of in Hz. assert (Hl : length (filter (fun x => item_key x = item_key d) items.*2) = 0%nat) by lia.
    apply length_zero_iff_nil in Hl. apply (not_elem_of_nil d). rewrite <- Hl. apply list_elem_of_filter. split; [done|].
    apply list_elem_of_fmap. by exists (uuid, d).
  - exists [], acc.1, w. split; [done|]. by split.
Qed.

Definition demo_data : NewIntentData := {| nd_fields := demo_intent; nd_deadline := Some 9000 |}.

Lemma batch_validated_witness :
  exists created errors w', run (createBatch demo_env [("a", demo_data); ("b", demo_data)]%string 2000) demo_world
      = (Ok (created, errors), w') /\
    (errors <> [] -> created = [] /\ w' = demo_world) /\
    (errors = [] ->
       created = (fun '(uuid, d) => newIntent demo_env uuid d 2000) <$> [("a", demo_data); ("b", demo_data)]%string /\
       (forall uuid d, (uuid, d) ∈ [("a", demo_data); ("b", demo_data)]%string ->
          repo_find uuid (w_repo w') = Some (newIntent demo_env uuid d 2000)) /\
       forall uuid d, (uuid, d) ∈ [("a", demo_data); ("b", demo_data)]%string ->
         countOpen (item_key d) (w_repo demo_world) + items_of (item_key d) [demo_data; demo_data] <= MAX_OPEN_INTENTS_PER_USER).
Proof.
  apply (batch_validated demo_env [("a", demo_data); ("b", demo_data)]%string 2000 demo_world).
  - reflexivity.
  - repeat constructor; rewrite ?list_elem_of_singleton; [discriminate|apply not_elem_of_nil].
Defined.

(** The contract accepts the first registration of a batch and refuses the second. *)
Definition flaky_env : Env := {|
  e_onchain := fun _ => true; e_contractConfigured := true;
  e_invoke := fun _ i => if bool_decide (intentId i = "a"%string) then Some "tx"%string else None;
  e_unitOfWork := false; e_encodes := fun _ => true; e_fillLedger := false; e_dstPrice := fun _ => None;
  e_srcPrice := fun _ _ => None; e_paramsDeadline := fun _ => 3600; e_paramsVersion := fun _ => 1;
  e_depositVerification := false; e_clockMs := 2000000 |}.

(** With on-chain registration a batch is not all-or-nothing, against its
    description: when the second registration is refused the request fails with
    503, and the first intent has been stored and registered. *)
Theorem batch_not_atomic_onchain :
  match run (createBatch flaky_env [("a", demo_data); ("b", demo_data)]%string 2000) demo_world with
  | (Err ServiceUnavailable, w') =>
      repo_find "a" (w_repo demo_world) = None /\
      state <$> repo_find "a" (w_repo w') = Some pending_open /\ repo_find "b" (w_repo w') = None
  | _ => False
  end.
Proof. vm_compute. done. Qed.
