(* ===== verification/PartialFillService.v ===== *)
(** Partial fills: [src/intents/partial-fills/partial-fill.service.ts].

    Each operation is a [prog] over the service's [World].  The tranche store's
    per-intent lock is taken as proved in [FillsRepo]: between the moment a
    [reserve] holds the lock and its insert, the tranches of its intent do not
    change ([queue_ok]), so the plan-and-insert is one step that reads the
    tranches, preceded by the step that reads whether the intent is open.
    Calls into the solver services and broadcasts are recorded in order. *)
From S2P Require Import Prelude JsMap BigInt IntentTypes StateMachine IntentsRepo PartialFillMath Prog SolverFills FillsRepo IntentsService ServiceSafety.
From stdpp Require Import relations.
Local Open Scope Z_scope.

(** 5 bps of a delivered amount. *)
Definition protocolFee (dstAmount : Z) : Z := Z.quot (dstAmount * 5) 10000.

Definition reserve_error (r : ReserveResult) : option ServiceError :=
  match r with
  | Reserved _ => None
  | ReserveRejected invalid_amount _ => Some (BadRequest "amount must be a positive integer string")
  | ReserveRejected below_min_fill _ => Some (BadRequest "Reservation below minFillAmount")
  | ReserveRejected exceeds_remaining _ => Some (ConflictError "Reservation exceeds the unreserved remainder")
  | ReserveRejected nothing_remaining _ => Some (ConflictError "Nothing left to reserve on this intent")
  | IntentNotOpen => Some (ConflictError "Intent is no longer open")
  end.

Definition fill_status_name (s : IntentFillStatus) : string :=
  match s with fs_reserved => "reserved" | fs_filled => "filled" | fs_slashed => "slashed" | fs_released => "released" end.

Section partial.
Context {R : Type} `{Hrepo : IntentsRepository R} (env : Env).
Local Abbreviation W := (World R).
Local Abbreviation M := (prog W ServiceError).
Local Open Scope prog_scope.

(** A number the code reads with [BigInt]; it throws when unreadable. *)
Definition number {A} (o : option A) : M A := match o with Some a => Done a | None => Throw BadNumber end.

Definition check (b : bool) (e : ServiceError) : M unit := if b then Done tt else Throw e.

Definition listByIntent (id : string) : M (list IntentFill) := reads (fun w : W => listSync id (w_fills w)).

Definition progress_of (i : Intent) (l : list IntentFill) : M FillProgress :=
  number (computeFillProgress (srcAmount i) (state i) l).

Definition with_progress (i : Intent) (p : FillProgress) : Intent := apply_patch [P_fillProgress (Some p)] i.

(** Attach [fillProgress] to a partial-fill intent; others pass through. *)
Definition withProgress (i : Intent) : M Intent :=
  if bool_decide (allowPartialFill i = Some true) then
    l <- listByIntent (intentId i);
    p <- progress_of i l;
    Done (with_progress i p)
  else Done i.

Definition details (i : Intent) : M (Intent * list IntentFill * FillProgress) :=
  l <- listByIntent (intentId i);
  p <- progress_of i l;
  Done (with_progress i p, l, p).

(** ** Reserve *)

(** [fillId] is the uuid of the new tranche. *)
Definition pf_reserve (fillId : string) (i : Intent) (sol amount : string) (now : Z) : M (IntentFill * Intent) :=
  check (bool_decide (allowPartialFill i = Some true)) (ConflictError "Intent does not allow partial fills") ;;;
  check (bool_decide (state i = open)) (ConflictError "Intent is not open, cannot reserve") ;;;
  check (negb (deadline i <=? now)) (Gone "Intent has expired") ;;;
  check (negb (bool_decide (srcVerified i = Some false))) (ConflictError "Source deposit is not verified yet") ;;;
  let rq := {| rq_intentId := intentId i; rq_srcAmount := srcAmount i; rq_minDstAmount := minDstAmount i;
               rq_minFillAmount := minFillAmount i; rq_solver := sol; rq_amount := amount;
               rq_deadline := Z.min (now + fill_window (srcChain i)) (deadline i); rq_now := now |} in
  current <- find_intent (intentId i);
  let isOpen := match current with Some c => bool_decide (state c = open) && (now <? deadline c) | None => false end in
  result <- atomic (fun w : W =>
    match reserve_body fillId rq isOpen (listSync (intentId i) (w_fills w)) (w_fills w) with
    | Some (res, f) => (Some res, set_fills f w)
    | None => (None, w)
    end);
  res <- number result;
  match reserve_error res with
  | Some e => Throw e
  | None =>
      match res with
      | Reserved fill =>
          modify (appendAuditEntry env (intentId i) open sol "solver reserved tranche"
            (Some (defined [("fillId", Some (MStr (if_fillId fill))); ("reservedAmount", Some (MStr (if_reservedAmount fill)));
                            ("deadline", Some (MNum (if_deadline fill)))]%string))) ;;;
          d <- details i;
          modify (add_effect (Broadcast "intent_tranche_reserved" (intentId i) (Some d.2))) ;;;
          Done (fill, d.1.1)
      | _ => Throw BadNumber
      end
  end.

(** ** Settlement *)

Definition filled_only (l : list IntentFill) : list IntentFill := filter (fun f => if_status f = fs_filled) l.

(** Most recent first. *)
Definition by_filledAt (l : list IntentFill) : list IntentFill :=
  sort_by (fun a b => default 0 (if_filledAt b) - default 0 (if_filledAt a)) l.

Fixpoint sum_amounts (f : IntentFill -> option string) (l : list IntentFill) : option Z :=
  match l with
  | [] => Some 0
  | x :: l => (a ← BigInt (default "0"%string (f x)); s ← sum_amounts f l; Some (a + s))%stdpp
  end.

Definition settle (i : Intent) (l : list IntentFill) (sol reason : string) (now : Z) : M (option Intent) :=
  let done_ := filled_only l in
  dstTotal <- number (sum_amounts if_dstAmount done_);
  feeTotal <- number (sum_amounts if_feeAmount done_);
  let lastTx := match by_filledAt done_ with f :: _ => if_txHash f | [] => None end in
  settled <- settlePartialFill (intentId i) sol
    [P_fillAmount (Some (toString dstTotal)); P_feeAmount (Some (toString feeTotal)); P_txHash lastTx; P_filledAt (Some now)] now;
  match settled with
  | None => Done None
  | Some u =>
      modify (appendAuditEntry env (intentId i) filled sol reason
        (Some (defined [("fillAmount", Some (MStr (toString dstTotal))); ("tranches", Some (MNum (Z.of_nat (length done_))))]%string))) ;;;
      p <- progress_of u l;
      modify (add_effect (Broadcast "intent_filled" (intentId i) (Some p))) ;;;
      Done (Some u)
  end.

(** ** Fill *)

Definition fillTranche (i : Intent) (fid sol dst : string) (tx : option string) (now : Z)
    : M (IntentFill * Intent * bool) :=
  found <- reads (fun w : W => find_fill fid (w_fills w));
  match found with
  | None => Throw (NotFound "Tranche not found")
  | Some existing =>
      check (bool_decide (if_intentId existing = intentId i)) (NotFound "Tranche not found") ;;;
      check (bool_decide (if_solver existing = sol)) (Forbidden "Tranche is reserved by a different solver") ;;;
      check (bool_decide (if_status existing = fs_reserved)) (ConflictError "Tranche is not reserved, cannot fill") ;;;
      check (negb (if_deadline existing <=? now)) (Gone "Tranche fill window has expired") ;;;
      delivered <- match BigInt dst with Some d => Done d | None => Throw (BadRequest "dstAmount must be an integer string") end;
      min <- number (BigInt (if_minDstAmount existing));
      check (negb (delivered <? min)) (BadRequest "Tranche delivery below its pro-rata minimum") ;;;
      marked <- atomic (fun w : W =>
        let '(r, f) := markFilled fid sol {| fpt_dstAmount := toString delivered;
           fpt_feeAmount := toString (protocolFee delivered); fpt_txHash := tx; fpt_filledAt := now |} (w_fills w) in
        (r, set_fills f w));
      match marked with
      | None => Throw (ConflictError "Tranche is no longer reserved, cannot fill")
      | Some fill =>
          modify (add_effect (RecordSuccessfulFill sol (if_dstAmount fill))) ;;;
          modify (appendAuditEntry env (intentId i) open sol "solver filled tranche"
            (Some (defined [("fillId", Some (MStr fid)); ("reservedAmount", Some (MStr (if_reservedAmount fill)));
                            ("dstAmount", MStr <$> if_dstAmount fill); ("txHash", MStr <$> tx)]%string))) ;;;
          l <- listByIntent (intentId i);
          p <- progress_of i l;
          modify (add_effect (Broadcast "intent_partially_filled" (intentId i) (Some p))) ;;;
          alloc <- number (allocation (srcAmount i) l);
          settled <- (if (al_remaining alloc =? 0) && (al_reserved alloc =? 0)
                      then o <- settle i l sol "all tranches filled" now; Done (bool_decide (is_Some o))
                      else Done false);
          current <- find_intent (intentId i);
          p2 <- progress_of (default i current) l;
          Done (fill, with_progress (default i current) p2, settled)
      end
  end.

(** ** Cancel *)

Definition cancelRemainder (i : Intent) (user_ : string) (now : Z) : M (option Intent * bool) :=
  l <- listByIntent (intentId i);
  alloc <- number (allocation (srcAmount i) l);
  check (negb (0 <? al_reserved alloc)) (ConflictError "Cannot cancel while tranche reservations are outstanding") ;;;
  if al_filled alloc =? 0 then
    c <- svc_cancelIfOpen env (intentId i) no_ctx; Done (c, false)
  else
    match by_filledAt (filled_only l) with
    | [] => Throw BadNumber
    | last :: _ =>
        o <- settle i l (if_solver last) ("remainder cancelled by " +:+ user_) now;
        match o with
        | Some s => p <- progress_of s l; Done (Some (with_progress s p), true)
        | None => Done (None, false)
        end
    end.

(** ** Sweep *)

Definition penalise (f : IntentFill) (now : Z) : M unit :=
  modify (appendAuditEntry env (if_intentId f) open "system" "tranche reservation slashed"
    (Some (defined [("fillId", Some (MStr (if_fillId f))); ("solver", Some (MStr (if_solver f)));
                    ("slashedAmount", Some (MStr (if_reservedAmount f)))]%string))) ;;;
  modify (add_effect (RecordFailedFill (if_solver f) (if_intentId f))) ;;;
  modify (add_effect (RecordSlash (if_solver f) (if_intentId f) now)) ;;;
  modify (add_effect (RecordUnfilled (if_solver f) (if_intentId f) now)) ;;;
  l <- listByIntent (if_intentId f);
  i <- find_intent (if_intentId f);
  match i with
  | Some i => p <- progress_of i l; modify (add_effect (Broadcast "intent_tranche_slashed" (if_intentId f) (Some p)))
  | None => modify (add_effect (Broadcast "intent_tranche_slashed" (if_intentId f) None))
  end.

Definition due (now : Z) (f : IntentFill) : bool :=
  bool_decide (if_status f = fs_reserved) && (if_deadline f <=? now).

(** [scope]: one intent, or every live reservation (500 at most). *)
Definition slashExpiredReservations (now : Z) (scope : option string) : M Z :=
  candidates <- (match scope with
    | Some id => reads (fun w : W => filter (fun f => due now f) (listSync id (w_fills w)))
    | None => reads (fun w : W => findExpiredReservations now 500 (w_fills w))
    end);
  pfold (fun n f =>
    marked <- atomic (fun w : W => let '(r, fr) := markSlashed (if_fillId f) now (w_fills w) in (r, set_fills fr w));
    match marked with
    | None => Done n
    | Some fill => penalise fill now ;;; Done (n + 1)
    end) 0 candidates.
End partial.

(** * Lemmas *)

Section lemmas.
Context {R : Type} `{Hrepo : IntentsRepository R} (env : Env).
Implicit Types w : World R.

(** A stored tranche of an intent with terms [(min, total)]: its amount and
    minimum are the pro-rata ones, and a filled tranche delivered at least
    its minimum and pays the protocol fee. *)
Definition honest (min total : Z) (f : IntentFill) : Prop :=
  exists part, 0 < part /\ if_reservedAmount f = toString part /\
    if_minDstAmount f = toString (min_share min total part) /\
    (if_status f = fs_filled -> exists d, if_dstAmount f = Some (toString d) /\ min_share min total part <= d /\
       if_feeAmount f = Some (toString (protocolFee d))).

Lemma honest_fill_ok min total f : honest min total f -> fill_ok f.
Proof.
  intros (part & Hp & Ha & _). unfold fill_ok, amt. rewrite Ha, BigInt_toString. simpl. done.
Qed.

Lemma amt_toString f part : if_reservedAmount f = toString part -> amt f = part.
Proof. intros H. unfold amt. by rewrite H, BigInt_toString. Qed.

(** Delivered and fee totals of the filled tranches. *)
Lemma honest_totals min total l :
  Forall (honest min total) l ->
  exists D F, sum_amounts if_dstAmount (filled_only l) = Some D /\
    sum_amounts if_feeAmount (filled_only l) = Some F /\
    sumZ (fun f => min_share min total (amt f)) (filled_only l) <= D.
Proof.
  unfold filled_only. induction 1 as [|f l (part & Hp & Ha & Hm & Hf) _ (D & F & HD & HF & Hle)]; [by exists 0, 0|].
  destruct (decide (if_status f = fs_filled)) as [Hs|Hs].
  - rewrite filter_cons_True by done. destruct (Hf Hs) as (d & Hd & Hmin & Hfee). exists (d + D), (protocolFee d + F).
    simpl. rewrite Hd, Hfee. simpl. rewrite !BigInt_toString, HD, HF. simpl.
    rewrite (amt_toString f part Ha). split_and!; [done|done|lia].
  - rewrite filter_cons_False by done. eauto.
Qed.

Lemma filled_pool l : sumZ in_filled l = sumZ amt (filled_only l).
Proof.
  induction l as [|f l IH]; [done|]. cbn [sumZ]. rewrite IH. unfold in_filled, filled_only.
  destruct (decide (if_status f = fs_filled)) as [Hs|Hs].
  - by rewrite bool_decide_eq_true_2, filter_cons_True by done.
  - by rewrite bool_decide_eq_false_2, filter_cons_False by done.
Qed.

(** Honest tranches that cover the whole amount deliver the whole minimum. *)
Lemma honest_cover min total l :
  0 <= min -> 0 < total -> Forall (honest min total) l -> sumZ in_filled l = total ->
  min <= sumZ (fun f => min_share min total (amt f)) (filled_only l).
Proof.
  intros Hmin Htot Hl Hsum. rewrite filled_pool in Hsum. rewrite <- (sumZ_map amt (min_share min total)).
  assert (Hpos : Forall (fun p => 0 < p) (amt <$> filled_only l)).
  { apply Forall_fmap, Forall_forall. intros f [_ Hf]%list_elem_of_filter. rewrite Forall_forall in Hl.
    destruct (Hl f Hf) as (part & Hp & Ha & _). simpl. by rewrite (amt_toString f part Ha). }
  rewrite <- (sumZ_map amt (fun p => p)) in Hsum.
  enough (Hg : forall ps, Forall (fun p => 0 < p) ps -> min * sumZ (fun p => p) ps <= total * sumZ (min_share min total) ps).
  { specialize (Hg _ Hpos). rewrite Hsum in Hg. apply (Z.mul_le_mono_pos_l _ _ total Htot). lia. }
  induction 1 as [|p ps Hp _ IH]; simpl; [lia|].
  pose proof (min_share_bounds min total p Hmin ltac:(lia) Htot). lia.
Qed.

(** [settle] on an intent that is still open. *)
Lemma run_settle i l sol reason now w D F u w' :
  sum_amounts if_dstAmount (filled_only l) = Some D -> sum_amounts if_feeAmount (filled_only l) = Some F ->
  run (settle env i l sol reason now) w = (Ok (Some u), w') ->
  repo_find (intentId i) (w_repo w') = Some u /\ state u = filled /\ fillAmount u = Some (toString D) /\
  feeAmount u = Some (toString F).
Proof.
  intros HD HF Hrun. unfold settle in Hrun. rewrite HD, HF in Hrun. cbn [number pbind] in Hrun.
  rewrite run_pbind in Hrun.
  set (patch := [P_fillAmount _; _; _; _]) in Hrun.
  destruct (run (settlePartialFill (intentId i) sol patch now) w) as [[[v|]|e] w1] eqn:E; [|done..].
  cbv beta iota in Hrun.
  assert (Hv : repo_find (intentId i) (w_repo w1) = Some v /\ state v = filled /\ fillAmount v = Some (toString D) /\
    feeAmount v = Some (toString F)).
  { unfold settlePartialFill in E. rewrite run_pbind, run_find in E. cbv beta iota in E.
    destruct (repo_find (intentId i) (w_repo w)) as [j|]; [|done]. simpl in E.
    destruct (repo_accept _ _ _ _ _ (w_repo w)) as [[a| |c] r1]; simpl in E; [|done..].
    destruct (repo_fill_spec (intentId i) sol patch now None r1) as [Hv Hf].
    destruct (repo_fill (intentId i) sol patch now None r1) as [[f| |c] r2]; simpl in E, Hv, Hf; [|done..].
    injection E as <- <-. symmetry in Hv. apply verdict_written in Hv as (b & _ & _ & Hfu & _).
    simpl. rewrite Hf, decide_True, Hfu by done. done. }
  rewrite run_pbind in Hrun. cbn [run modify] in Hrun. unfold progress_of, number in Hrun.
  destruct (computeFillProgress _ _ _); [|done]. simpl in Hrun. injection Hrun as <- <-. done.
Qed.
End lemmas.

Lemma markFilled_rows fid sol p r row r' id f :
  markFilled fid sol p r = (Some row, r') -> f ∈ listSync id r' ->
  f ∈ listSync id r \/ (f = row /\ exists old, get fid (fills r) = Some old /\ row = filled_row p old /\ old ∈ listSync id r).
Proof.
  unfold markFilled, guarded_mark. destruct (get fid (fills r)) as [old|] eqn:Eo; [|done].
  destruct (can_fill sol (fpt_filledAt p) old); [|done]. intros [= <- <-] (x & Hx & Hg)%list_elem_of_omap. simpl in Hg.
  rewrite get_set in Hg. unfold fill_ids in Hx. simpl in Hx. case_decide as He.
  - injection Hg as <-. right. split; [done|]. exists old. split; [done|]. split; [done|].
    apply list_elem_of_omap. exists x. subst x. done.
  - left. apply list_elem_of_omap. by exists x.
Qed.

(** A delivery at or above the tranche's minimum keeps the tranches honest. *)
Lemma honest_filled min total p f part :
  if_reservedAmount f = toString part -> if_minDstAmount f = toString (min_share min total part) -> 0 < part ->
  forall d, fpt_dstAmount p = toString d -> fpt_feeAmount p = toString (protocolFee d) -> min_share min total part <= d ->
  honest min total (filled_row p f).
Proof.
  intros Ha Hm Hp d Hd Hf Hle. exists part. split_and!; [done|done|done|]. intros _. exists d. simpl. rewrite Hd, Hf. done.
Qed.

Section fill.
Context {R : Type} `{Hrepo : IntentsRepository R} (env : Env).

(** What a successful [fillTranche] went through. *)
Lemma fillTranche_inv i fid sol dst tx now (w w' : World R) fill u settled :
  run (fillTranche env i fid sol dst tx now) w = (Ok (fill, u, settled), w') ->
  exists existing d m f' w1 l alloc,
    find_fill fid (w_fills w) = Some existing /\ if_intentId existing = intentId i /\ if_solver existing = sol /\
    BigInt dst = Some d /\ BigInt (if_minDstAmount existing) = Some m /\ m <= d /\
    markFilled fid sol {| fpt_dstAmount := toString d; fpt_feeAmount := toString (protocolFee d); fpt_txHash := tx;
      fpt_filledAt := now |} (w_fills w) = (Some fill, f') /\
    l = listSync (intentId i) f' /\ w_repo w1 = w_repo w /\
    allocation (srcAmount i) l = Some alloc /\
    (settled = true -> al_remaining alloc = 0 /\ al_reserved alloc = 0 /\
       exists o, run (settle env i l sol "all tranches filled" now) w1 = (Ok (Some o), w')).
Proof.
  unfold fillTranche. rewrite run_pbind. cbn [run reads]. intros H.
  destruct (find_fill fid (w_fills w)) as [ex|] eqn:Ex; [|done]. unfold check, number in H.
  destruct (bool_decide (if_intentId ex = intentId i)) eqn:H1; [|done]. cbn [pbind] in H.
  destruct (bool_decide (if_solver ex = sol)) eqn:H2; [|done]. cbn [pbind] in H.
  destruct (bool_decide (if_status ex = fs_reserved)); [|done]. cbn [pbind] in H.
  destruct (negb (if_deadline ex <=? now)); [|done]. cbn [pbind] in H.
  destruct (BigInt dst) as [d|] eqn:Ed; [|done]. cbn [pbind] in H.
  destruct (BigInt (if_minDstAmount ex)) as [m|] eqn:Em; [|done]. cbn [pbind] in H.
  destruct (Z.ltb_spec d m) as [|Hle]; [done|]. cbn [negb pbind] in H.
  rewrite run_pbind, run_atomic in H.
  destruct (markFilled fid sol _ (w_fills w)) as [[row|] f'] eqn:Emk; [|done]. cbn [fst snd] in H. cbv beta iota in H.
  rewrite run_pbind in H. cbn [run modify] in H. rewrite run_pbind in H. cbn [run modify] in H.
  rewrite run_pbind in H. cbn [run modify listByIntent reads] in H. unfold progress_of, number in H.
  set (l := listSync (intentId i) _) in H. assert (Hl : l = listSync (intentId i) f') by done.
  destruct (computeFillProgress (srcAmount i) (state i) l); [|done]. cbn [pbind] in H.
  rewrite run_pbind in H. cbn [run modify] in H.
  match type of H with run _ ?x = _ => set (w1 := x) in H end.
  destruct (allocation (srcAmount i) l) as [alloc|] eqn:Eal; [|done]. cbn [pbind] in H.
  exists ex, d, m, f', w1, l, alloc.
  rewrite run_pbind in H. destruct ((al_remaining alloc =? 0) && (al_reserved alloc =? 0)) eqn:Eb.
  - rewrite run_pbind in H. destruct (run (settle env i l sol _ now) w1) as [[o|e] w2] eqn:Es; [|done].
    cbn [run pbind] in H. cbv beta iota in H. rewrite run_pbind, run_find in H. cbv beta iota in H.
    destruct (computeFillProgress _ _ l); [|done]. cbn in H. injection H as <- _ Hset <-. bool_norm.
    split_and!; try done. intros ->. destruct o as [o|]; [|apply bool_decide_eq_true in Hset; by apply is_Some_None in Hset].
    split_and!; [done|done|]. by exists o.
  - cbn [run] in H. cbv beta iota in H. rewrite run_pbind, run_find in H. cbv beta iota in H.
    destruct (computeFillProgress _ _ l); [|done]. cbn in H. injection H as <- _ <- <-. bool_norm. split_and!; done.
Qed.
End fill.

(** * Properties *)


(** One intent for 1000 with a minimum of 900, cut in two tranches. *)
Definition demo_partial : Intent := apply_patch [P_allowPartialFill (Some true)] demo_intent.

Definition partial_world : World InMemoryRepo := set_repo (save demo_partial empty_repo) demo_world.

Definition after_tranche_1 : World InMemoryRepo :=
  let w := (run (pf_reserve demo_env "f1" demo_partial "S" "600" 2000) partial_world).2 in
  let w := (run (pf_reserve demo_env "f2" demo_partial "T" "400" 2100) w).2 in
  (run (fillTranche demo_env demo_partial "f1" "S" "541" None 2200) w).2.


(** Cancelling is not protected by the tranche lock: a [cancelRemainder]
    that has read the tranches and a [reserve] that completes before the cancel's
    write leave a cancelled intent with a live reservation, which the
    reservation check ("a concurrent cancel wins cleanly") and the cancel check
    ("live reservations block the cancel") are both meant to exclude. *)
Theorem cancel_strands_reservation :
  let pool := [ignore (cancelRemainder demo_env demo_partial "GUSER" 2000);
               ignore (pf_reserve demo_env "f1" demo_partial "S" "600" 2000)] in
  let c := schedule [0; 1; 1; 1; 1; 1; 0; 0; 0; 0]%nat partial_world pool in
  state <$> repo_find "i1" (w_repo c.1) = Some cancelled /\
  if_status <$> find_fill "f1" (w_fills c.1) = Some fs_reserved /\
  c.2 = [Done tt; Done tt].
Proof. vm_compute. done. Qed.

(** An amendment between tranches defeats the user's minimum: tranches keep
    the pro-rata minimum of the terms they were reserved under, so an intent
    whose minimum was raised from 900 to 2000 after its first tranche settles as
    filled for 1341. *)
Theorem amended_minimum_missed :
  let w := (run (pf_reserve demo_env "f1" demo_partial "S" "600" 2000) partial_world).2 in
  let w := (run (fillTranche demo_env demo_partial "f1" "S" "541" None 2100) w).2 in
  let w := (run (svc_amendIfOpen "i1" "2000" 5000 2150) w).2 in
  match repo_find "i1" (w_repo w) with
  | None => False
  | Some i =>
      let w := (run (pf_reserve demo_env "f2" i "T" "400" 2200) w).2 in
      match run (fillTranche demo_env i "f2" "T" "800" None 2300) w with
      | (Ok (_, _, settled), w') =>
          settled = true /\
          (fun v => (state v, fillAmount v, minDstAmount v)) <$> repo_find "i1" (w_repo w')
            = Some (filled, Some "1341"%string, "2000"%string)
      | _ => False
      end
  end.
Proof. vm_compute. done. Qed.
