(* ===== verification/KillSwitch.v ===== *)
(** Emergency pause: [src/killswitch/killswitch.types.ts],
    [killswitch.evaluate.ts], the in-memory adapter of
    [killswitch.repository.ts] and the state of [killswitch.service.ts].

    Times are epoch milliseconds.  Redis propagation, the polling timer and the
    broadcast of status events are not modelled. *)
From S2P Require Import Prelude JsMap BigInt.
Local Open Scope Z_scope.

(** * Types *)

Inductive KillSwitchOperation := ks_create | ks_accept | ks_fill | ks_slash | ks_onchain.
#[export] Instance KillSwitchOperation_eq_dec : EqDecision KillSwitchOperation.
Proof. solve_decision. Defined.

Inductive KillSwitchScope := sc_global | sc_chain | sc_token | sc_operation.
#[export] Instance KillSwitchScope_eq_dec : EqDecision KillSwitchScope.
Proof. solve_decision. Defined.

Definition operation_name (o : KillSwitchOperation) : string :=
  match o with
  | ks_create => "create" | ks_accept => "accept" | ks_fill => "fill" | ks_slash => "slash" | ks_onchain => "onchain"
  end.

Definition scope_name (s : KillSwitchScope) : string :=
  match s with sc_global => "global" | sc_chain => "chain" | sc_token => "token" | sc_operation => "operation" end.

Record SwitchSnapshotEntry := {
  se_scope : KillSwitchScope;
  se_chain : option string;
  se_token : option string;
  se_operation : option KillSwitchOperation;
  se_active : bool;
  se_reasonCode : string;
  se_reason : string;
  se_activatedBy : string;
  se_updatedAt : Z;
}.

Record SwitchTarget := { tg_chain : option string; tg_token : option string; tg_operation : KillSwitchOperation }.

Record SwitchDecision := {
  sd_paused : bool;
  sd_matched : option SwitchSnapshotEntry;
  sd_matchedChain : list SwitchSnapshotEntry;
}.

Definition ALLOW_ALL : SwitchDecision := {| sd_paused := false; sd_matched := None; sd_matchedChain := [] |}.

(** [x ?? "" ] joined with ["|"]. *)
Definition scopeKey (s : KillSwitchScope) (chain token : option string) (o : option KillSwitchOperation) : string :=
  String.concat "|" [scope_name s; default EmptyString chain; default EmptyString token;
                     default EmptyString (operation_name <$> o)].

(** * Evaluation *)

Definition ONCHAIN_GATED_OPERATIONS : list KillSwitchOperation := [ks_fill; ks_slash].

Definition candidateOperations (o : KillSwitchOperation) : list KillSwitchOperation :=
  if decide (o ∈ ONCHAIN_GATED_OPERATIONS) then [o; ks_onchain] else [o].

(** [entry.chain != null && entry.chain === target.chain] *)
Definition same_chain (e : SwitchSnapshotEntry) (t : SwitchTarget) : bool :=
  bool_decide (is_Some (se_chain e)) && bool_decide (se_chain e = tg_chain t).

Definition token_ok (e : SwitchSnapshotEntry) (t : SwitchTarget) : bool :=
  bool_decide (se_token e = None) || bool_decide (se_token e = tg_token t).

Definition scopeMatches (e : SwitchSnapshotEntry) (s : KillSwitchScope) (t : SwitchTarget)
    (candidates : list KillSwitchOperation) : bool :=
  match s with
  | sc_global => true
  | sc_chain => same_chain e t
  | sc_token => same_chain e t && token_ok e t
  | sc_operation => same_chain e t && token_ok e t &&
      match se_operation e with Some o => bool_decide (o ∈ candidates) | None => false end
  end.

Definition EVALUATION_ORDER : list KillSwitchScope := [sc_global; sc_chain; sc_token; sc_operation].

(** The inner loop, for one scope: matches so far and the last active one. *)
Definition eval_scope (entries : list SwitchSnapshotEntry) (t : SwitchTarget) (candidates : list KillSwitchOperation)
    (acc : list SwitchSnapshotEntry * option SwitchSnapshotEntry) (s : KillSwitchScope) :=
  foldl (fun '(chain, governing) e =>
    if negb (bool_decide (se_scope e = s)) then (chain, governing)
    else if negb (scopeMatches e s t candidates) then (chain, governing)
    else (chain ++ [e], if se_active e then Some e else governing)) acc entries.

Definition evaluate (entries : list SwitchSnapshotEntry) (t : SwitchTarget) : SwitchDecision :=
  if decide (entries = []) then ALLOW_ALL
  else
    let candidates := candidateOperations (tg_operation t) in
    let '(matchedChain, governing) := foldl (eval_scope entries t candidates) ([], None) EVALUATION_ORDER in
    if decide (matchedChain = []) then ALLOW_ALL
    else {| sd_paused := existsb se_active matchedChain;
            sd_matched := match governing with Some e => Some e | None => last matchedChain end;
            sd_matchedChain := matchedChain |}.

(** * The in-memory repository *)

Record KillSwitchRecord := {
  kr_id : string;
  kr_entry : SwitchSnapshotEntry;
  kr_approvalsRequired : Z;
  kr_approvers : list string;
  kr_resumedAt : option Z;
}.

Definition KillSwitchRepo := jsmap KillSwitchRecord.

Record ActivateInput := {
  ai_scope : KillSwitchScope; ai_chain : option string; ai_token : option string; ai_operation : option KillSwitchOperation;
  ai_reasonCode : string; ai_reason : string; ai_activatedBy : string; ai_now : Z;
}.

Definition input_key (i : ActivateInput) : string := scopeKey (ai_scope i) (ai_chain i) (ai_token i) (ai_operation i).

Definition listAll (r : KillSwitchRepo) : list KillSwitchRecord := values r.

Definition maxUpdatedAt (r : KillSwitchRepo) : Z :=
  foldl (fun max rec => if max <? se_updatedAt (kr_entry rec) then se_updatedAt (kr_entry rec) else max) 0 (values r).

Definition findByTarget (s : KillSwitchScope) (chain token : option string) (o : option KillSwitchOperation)
    (r : KillSwitchRepo) : option KillSwitchRecord := get (scopeKey s chain token o) r.

(** Reuses the row of the address and drops the approvals of the last pause. *)
Definition activate (i : ActivateInput) (r : KillSwitchRepo) : KillSwitchRecord * KillSwitchRepo :=
  let key := input_key i in
  let rec_ :=
    match get key r with
    | Some ex =>
        {| kr_id := kr_id ex;
           kr_entry := {| se_scope := se_scope (kr_entry ex); se_chain := se_chain (kr_entry ex);
             se_token := se_token (kr_entry ex); se_operation := se_operation (kr_entry ex); se_active := true;
             se_reasonCode := ai_reasonCode i; se_reason := ai_reason i; se_activatedBy := ai_activatedBy i;
             se_updatedAt := ai_now i |};
           kr_approvalsRequired := kr_approvalsRequired ex; kr_approvers := []; kr_resumedAt := kr_resumedAt ex |}
    | None =>
        {| kr_id := "ks_" +:+ key;
           kr_entry := {| se_scope := ai_scope i; se_chain := ai_chain i; se_token := ai_token i;
             se_operation := ai_operation i; se_active := true; se_reasonCode := ai_reasonCode i;
             se_reason := ai_reason i; se_activatedBy := ai_activatedBy i; se_updatedAt := ai_now i |};
           kr_approvalsRequired := 2; kr_approvers := []; kr_resumedAt := None |}
    end in
  (rec_, set key rec_ r).

Definition with_approvers (a : list string) (rec : KillSwitchRecord) : KillSwitchRecord :=
  {| kr_id := kr_id rec; kr_entry := kr_entry rec; kr_approvalsRequired := kr_approvalsRequired rec;
     kr_approvers := a; kr_resumedAt := kr_resumedAt rec |}.

Definition resumed_record (now : Z) (rec : KillSwitchRecord) : KillSwitchRecord :=
  {| kr_id := kr_id rec;
     kr_entry := {| se_scope := se_scope (kr_entry rec); se_chain := se_chain (kr_entry rec);
       se_token := se_token (kr_entry rec); se_operation := se_operation (kr_entry rec); se_active := false;
       se_reasonCode := se_reasonCode (kr_entry rec); se_reason := se_reason (kr_entry rec);
       se_activatedBy := se_activatedBy (kr_entry rec); se_updatedAt := now |};
     kr_approvalsRequired := kr_approvalsRequired rec; kr_approvers := []; kr_resumedAt := Some now |}.

(** The record with an id, with its key ([None]: the call throws). *)
Definition find_switch (id : string) (r : KillSwitchRepo) : option (string * KillSwitchRecord) :=
  snd <$> list_find (fun p => kr_id p.2 = id) r.

Definition approve_record (approver : string) (required now : Z) (rec : KillSwitchRecord) : KillSwitchRecord :=
  if negb (se_active (kr_entry rec)) then rec
  else
    let approvers := if decide (approver ∈ kr_approvers rec) then kr_approvers rec else kr_approvers rec ++ [approver] in
    if Z.of_nat (length approvers) <? required then with_approvers approvers rec
    else resumed_record now rec.

Definition resumeIfApproved (id approver : string) (required now : Z) (r : KillSwitchRepo)
    : option (KillSwitchRecord * KillSwitchRepo) :=
  '(key, rec) ← find_switch id r;
  let rec' := approve_record approver required now rec in
  Some (rec', set key rec' r).

Definition listApprovals (id : string) (r : KillSwitchRepo) : list string :=
  match find_switch id r with Some (_, rec) => kr_approvers rec | None => [] end.

Definition listResolved (since : option Z) (chain : option string) (r : KillSwitchRepo) : list KillSwitchRecord :=
  sort_by (fun a b => default 0 (kr_resumedAt b) - default 0 (kr_resumedAt a))
    (filter (fun rec => negb (se_active (kr_entry rec)) && bool_decide (is_Some (kr_resumedAt rec)) &&
       match since with Some t => t <=? default 0 (kr_resumedAt rec) | None => true end &&
       match chain with Some c => bool_decide (se_chain (kr_entry rec) = Some c) | None => true end) (values r)).

(** * The service *)

Record KillSwitchService := {
  kv_repo : KillSwitchRepo;
  kv_snapshot : list SwitchSnapshotEntry;
  kv_lastUpdatedAt : Z;
  kv_ready : bool;
}.

Inductive KillSwitchError := InvalidScope | SwitchNotFound | MissingMethod.

Definition truthy (o : option string) : bool := truthy_str o.

(** Scope determines which columns may be set. *)
Definition normaliseScope (s : KillSwitchScope) (chain token : option string) (o : option KillSwitchOperation)
    : outcome KillSwitchError (KillSwitchScope * option string * option string * option KillSwitchOperation) :=
  let op := bool_decide (is_Some o) in
  if bool_decide (s = sc_global) && (truthy chain || truthy token || op) then Err InvalidScope
  else if bool_decide (s = sc_chain) && (negb (truthy chain) || truthy token || op) then Err InvalidScope
  else if bool_decide (s = sc_token) && (negb (truthy chain) || negb (truthy token) || op) then Err InvalidScope
  else if bool_decide (s = sc_operation) && (negb (truthy chain) || negb op) then Err InvalidScope
  else Ok (s, chain, token, o).

(** [refresh()] reloads the snapshot and the change marker, then calls
    [repo.listScheduledWindows()], which neither adapter defines, before it
    marks the service ready: the [TypeError] leaves [ready] as it was. *)
Definition refresh (v : KillSwitchService) : outcome KillSwitchError unit * KillSwitchService :=
  (Err MissingMethod,
   {| kv_repo := kv_repo v; kv_snapshot := kr_entry <$> listAll (kv_repo v);
      kv_lastUpdatedAt := maxUpdatedAt (kv_repo v); kv_ready := kv_ready v |}).

(** An on-chain guardian pause: its transaction, if known, and its time. *)
Definition GuardianPause : Type := option string * Z.

Definition evaluateTarget (guardian : option GuardianPause) (t : SwitchTarget) (v : KillSwitchService) : SwitchDecision :=
  if negb (kv_ready v) then {| sd_paused := true; sd_matched := None; sd_matchedChain := [] |}
  else match guardian with
  | Some (tx, since) =>
      let e := {| se_scope := sc_global; se_chain := None; se_token := None; se_operation := None; se_active := true;
                  se_reasonCode := "GUARDIAN_PAUSE";
                  se_reason := "On-chain guardian pause (tx " +:+ default "unknown"%string tx +:+ ")";
                  se_activatedBy := "guardian"; se_updatedAt := since |} in
      {| sd_paused := true; sd_matched := Some e; sd_matchedChain := [e] |}
  | None => evaluate (kv_snapshot v) t
  end.

Definition isBlocked (guardian : option GuardianPause) (t : SwitchTarget) (v : KillSwitchService) : bool :=
  if negb (kv_ready v) then true else sd_paused (evaluateTarget guardian t v).

Definition with_ks_repo (r : KillSwitchRepo) (v : KillSwitchService) : KillSwitchService :=
  {| kv_repo := r; kv_snapshot := kv_snapshot v; kv_lastUpdatedAt := kv_lastUpdatedAt v; kv_ready := kv_ready v |}.

Definition pause (i : ActivateInput) (v : KillSwitchService) : outcome KillSwitchError KillSwitchRecord * KillSwitchService :=
  match normaliseScope (ai_scope i) (ai_chain i) (ai_token i) (ai_operation i) with
  | Err e => (Err e, v)
  | Ok _ =>
      let '(rec, r) := activate i (kv_repo v) in
      match refresh (with_ks_repo r v) with
      | (Ok _, v') => (Ok rec, v')
      | (Err e, v') => (Err e, v')
      end
  end.

Definition approveResume (id approver : string) (required now : Z) (v : KillSwitchService)
    : outcome KillSwitchError (KillSwitchRecord * bool) * KillSwitchService :=
  match resumeIfApproved id approver required now (kv_repo v) with
  | None => (Err SwitchNotFound, v)
  | Some (rec, r) =>
      match refresh (with_ks_repo r v) with
      | (Ok _, v') => (Ok (rec, negb (se_active (kr_entry rec))), v')
      | (Err e, v') => (Err e, v')
      end
  end.

(** The polling timer: reload when the marker moved, keep serving on failure. *)
Definition poll (v : KillSwitchService) : KillSwitchService :=
  if maxUpdatedAt (kv_repo v) =? kv_lastUpdatedAt v then v else (refresh v).2.

(** A replica before [onModuleInit]. *)
Definition new_service (r : KillSwitchRepo) : KillSwitchService :=
  {| kv_repo := r; kv_snapshot := []; kv_lastUpdatedAt := 0; kv_ready := false |}.

(** [onModuleInit]: a failed refresh is logged. *)
Definition onModuleInit (v : KillSwitchService) : KillSwitchService :=
  match refresh v with
  | (Ok _, v') => {| kv_repo := kv_repo v'; kv_snapshot := kv_snapshot v'; kv_lastUpdatedAt := kv_lastUpdatedAt v'; kv_ready := true |}
  | (Err _, v') => v'
  end.

(** * Lemmas *)

(** Does a switch, at its own scope, govern the request? *)
Definition governs (t : SwitchTarget) (e : SwitchSnapshotEntry) : bool :=
  scopeMatches e (se_scope e) t (candidateOperations (tg_operation t)).

Definition matches_at (t : SwitchTarget) (entries : list SwitchSnapshotEntry) (s : KillSwitchScope) :=
  filter (fun e => bool_decide (se_scope e = s) && governs t e) entries.

Definition last_active (l : list SwitchSnapshotEntry) : option SwitchSnapshotEntry := last (filter (fun e => se_active e) l).

Lemma last_active_snoc l e : last_active (l ++ [e]) = if se_active e then Some e else last_active l.
Proof.
  unfold last_active. rewrite filter_app. destruct (se_active e) eqn:E.
  - rewrite filter_cons_True by (by rewrite E). rewrite filter_nil. by rewrite last_snoc.
  - rewrite filter_cons_False by (rewrite E; auto). rewrite filter_nil. by rewrite app_nil_r.
Qed.

Lemma matches_at_cons t entries s e :
  matches_at t (e :: entries) s =
    if bool_decide (se_scope e = s) && governs t e then e :: matches_at t entries s else matches_at t entries s.
Proof.
  unfold matches_at. destruct (bool_decide (se_scope e = s) && governs t e) eqn:E.
  - by rewrite filter_cons_True by (by rewrite E).
  - by rewrite filter_cons_False by (rewrite E; auto).
Qed.

Lemma eval_scope_spec t entries s acc :
  acc.2 = last_active acc.1 ->
  eval_scope entries t (candidateOperations (tg_operation t)) acc s =
    (acc.1 ++ matches_at t entries s, last_active (acc.1 ++ matches_at t entries s)).
Proof.
  unfold eval_scope. revert acc. induction entries as [|e entries IH]; intros [c g] Hg; simpl foldl.
  { unfold matches_at. rewrite filter_nil, app_nil_r. simpl in *. by rewrite Hg. }
  rewrite matches_at_cons. unfold governs. destruct (decide (se_scope e = s)) as [<-|Hs].
  - rewrite bool_decide_eq_true_2 by done. cbn [negb andb].
    destruct (scopeMatches e (se_scope e) t (candidateOperations (tg_operation t))) eqn:Em; cbn [negb].
    + rewrite IH by (simpl in *; rewrite last_active_snoc; by rewrite Hg). simpl. by rewrite <- app_assoc.
    + by rewrite IH.
  - rewrite bool_decide_eq_false_2 by done. cbn [negb andb]. by rewrite IH.
Qed.

Definition all_matches (t : SwitchTarget) (entries : list SwitchSnapshotEntry) : list SwitchSnapshotEntry :=
  matches_at t entries sc_global ++ matches_at t entries sc_chain ++ matches_at t entries sc_token ++ matches_at t entries sc_operation.

Lemma evaluate_matches t entries :
  sd_matchedChain (evaluate entries t) = all_matches t entries /\
  sd_paused (evaluate entries t) = existsb se_active (all_matches t entries) /\
  (sd_paused (evaluate entries t) = true -> sd_matched (evaluate entries t) = last_active (all_matches t entries)).
Proof.
  unfold evaluate. case_decide as He; [by rewrite He|]. unfold EVALUATION_ORDER. cbn [foldl].
  rewrite (eval_scope_spec t entries sc_global ([], None)) by reflexivity.
  rewrite (eval_scope_spec t entries sc_chain) by reflexivity. rewrite (eval_scope_spec t entries sc_token) by reflexivity.
  rewrite (eval_scope_spec t entries sc_operation) by reflexivity. cbn [fst app].
  assert (Ha : ((matches_at t entries sc_global ++ matches_at t entries sc_chain) ++ matches_at t entries sc_token) ++
    matches_at t entries sc_operation = all_matches t entries) by (unfold all_matches; by rewrite <- !app_assoc).
  rewrite Ha. case_decide as Hn; simpl; [by rewrite Hn|]. split; [done|]. split; [done|]. intros Hp.
  destruct (last_active (all_matches t entries)) as [g|] eqn:Eg; [done|]. exfalso.
  unfold last_active in Eg. apply last_None in Eg. apply existsb_exists in Hp as (e & Hin & Hact).
  apply list_elem_of_In in Hin. apply (not_elem_of_nil e). rewrite <- Eg. apply list_elem_of_filter. by rewrite Hact.
Qed.

Lemma elem_of_matches t entries s e :
  e ∈ matches_at t entries s <-> e ∈ entries /\ se_scope e = s /\ governs t e = true.
Proof.
  unfold matches_at. rewrite list_elem_of_filter. rewrite Is_true_true, andb_true_iff, bool_decide_eq_true. tauto.
Qed.

Lemma elem_of_all_matches t entries e : e ∈ all_matches t entries <-> e ∈ entries /\ governs t e = true.
Proof.
  unfold all_matches. rewrite !elem_of_app, !elem_of_matches. destruct (se_scope e) eqn:E; naive_solver.
Qed.

(** Broadest 0 to narrowest 3. *)
Definition scope_rank (s : KillSwitchScope) : Z :=
  match s with sc_global => 0 | sc_chain => 1 | sc_token => 2 | sc_operation => 3 end.

Definition entry_rank (e : SwitchSnapshotEntry) : Z := scope_rank (se_scope e).

Lemma matches_ranked t entries : StronglySorted (fun a b => entry_rank a <= entry_rank b) (all_matches t entries).
Proof.
  assert (Hs : forall s, StronglySorted (fun a b => entry_rank a <= entry_rank b) (matches_at t entries s)).
  { intros s. assert (Hall : Forall (fun e => entry_rank e = scope_rank s) (matches_at t entries s)).
    { apply Forall_forall. intros e (_ & <- & _)%elem_of_matches. done. }
    induction Hall as [|e l He Hl IH]; constructor; [done|]. eapply Forall_impl; [exact Hl|]. simpl. lia. }
  assert (Hlt : forall s l, (forall e, e ∈ l -> scope_rank s <= entry_rank e) ->
    StronglySorted (fun a b => entry_rank a <= entry_rank b) l ->
    StronglySorted (fun a b => entry_rank a <= entry_rank b) (matches_at t entries s ++ l)).
  { intros s l Hl Hsl. apply StronglySorted_app. split; [|by split]. intros a b (_ & Hsa & _)%elem_of_matches Hb.
    specialize (Hl b Hb). unfold entry_rank in *. by rewrite Hsa. }
  unfold all_matches. repeat apply Hlt; try apply Hs;
    intros e He; rewrite ?elem_of_app, !elem_of_matches in He; unfold entry_rank;
    repeat match goal with H : _ \/ _ |- _ => destruct H end; destruct_and?; by match goal with H : se_scope _ = _ |- _ => rewrite H end.
Qed.

Lemma last_sorted_max {A} (rank : A -> Z) l x :
  StronglySorted (fun a b => rank a <= rank b) l -> last l = Some x -> forall y, y ∈ l -> rank y <= rank x.
Proof.
  intros Hs Hl y Hy. apply last_Some in Hl as [l' ->]. apply elem_of_app in Hy as [Hy| ->%list_elem_of_singleton]; [|lia].
  exact (StronglySorted_app_1_elem_of _ l' [x] y x Hs Hy (list_elem_of_here x [])).
Qed.

(** * Properties *)

(** The pause is fail-closed and explained by its narrowest switch: a write
    is blocked exactly when some active switch governs it - a narrower inactive
    switch never re-opens a scope a broader one holds - the decision lists
    exactly the governing switches, and when blocked it names an active one of
    the narrowest scope that blocks. *)
Theorem evaluate_fail_closed entries t :
  let d := evaluate entries t in
  (sd_paused d = true <-> exists e, e ∈ entries /\ se_active e = true /\ governs t e = true) /\
  (forall e, e ∈ sd_matchedChain d <-> e ∈ entries /\ governs t e = true) /\
  (sd_paused d = true -> exists g, sd_matched d = Some g /\ g ∈ entries /\ se_active g = true /\ governs t g = true /\
     forall e, e ∈ entries -> se_active e = true -> governs t e = true -> entry_rank e <= entry_rank g).
Proof.
  intros d. destruct (evaluate_matches t entries) as (Hc & Hp & Hm). fold d in Hc, Hp, Hm.
  assert (Hpaused : sd_paused d = true <-> exists e, e ∈ entries /\ se_active e = true /\ governs t e = true).
  { rewrite Hp, existsb_exists. split.
    - intros (e & Hin & Ha). apply list_elem_of_In, elem_of_all_matches in Hin as []. eauto.
    - intros (e & Hin & Ha & Hg). exists e. split; [|done]. apply list_elem_of_In, elem_of_all_matches. done. }
  split; [done|]. split; [intros e; by rewrite Hc, elem_of_all_matches|].
  intros Hpt. rewrite (Hm Hpt). apply Hpaused in Hpt as (e0 & Hin0 & Ha0 & Hg0).
  destruct (last_active (all_matches t entries)) as [g|] eqn:Eg; unfold last_active in Eg.
  - exists g. split; [done|]. assert (Hg : g ∈ filter (fun e => se_active e) (all_matches t entries)).
    { apply last_Some in Eg as [l' ->]. apply elem_of_app. right. left. }
    apply list_elem_of_filter in Hg as [Hga [Hgin Hgg]%elem_of_all_matches]. apply Is_true_true in Hga.
    split_and!; [done|done|done|]. intros e Hin Ha Hge.
    eapply (last_sorted_max entry_rank); [exact (filter_sorted _ (fun e => se_active e) _ (matches_ranked t entries))|exact Eg|]. apply list_elem_of_filter.
    rewrite Ha. split; [done|]. by apply elem_of_all_matches.
  - apply last_None in Eg. exfalso. apply (not_elem_of_nil e0). rewrite <- Eg. apply list_elem_of_filter.
    rewrite Ha0. split; [done|]. by apply elem_of_all_matches.
Qed.

(** ** Two operators to resume *)

Inductive KillSwitchCall :=
  | KPause (i : ActivateInput)
  | KApprove (id approver : string) (required now : Z).

Definition run_ks (r : KillSwitchRepo) (c : KillSwitchCall) : KillSwitchRepo :=
  match c with
  | KPause i => (activate i r).2
  | KApprove id approver required now =>
      match resumeIfApproved id approver required now r with Some (_, r') => r' | None => r end
  end.

(** Operators that approved the switch [id], in the order of the calls. *)
Definition approvers_in (id : string) (cs : list KillSwitchCall) : list string :=
  omap (fun c => match c with KApprove id' a _ _ => if bool_decide (id' = id) then Some a else None | _ => None end) cs.

(** Every record sits under the key its id names. *)
Definition ks_ok (r : KillSwitchRepo) : Prop :=
  wf r /\ forall k rec, get k r = Some rec -> kr_id rec = "ks_" +:+ k /\ NoDup (kr_approvers rec).

Lemma app_inj_prefix p s1 s2 : p +:+ s1 = p +:+ s2 -> s1 = s2.
Proof. induction p as [|c p IH]; simpl; [done|]. intros H. injection H. auto. Qed.

Lemma find_switch_spec id r key rec :
  ks_ok r -> find_switch id r = Some (key, rec) -> get key r = Some rec /\ id = "ks_" +:+ key.
Proof.
  intros [Hwf Hok] H. unfold find_switch in H. destruct (list_find _ r) as [[n p]|] eqn:E; [|done].
  simpl in H. injection H as ->. apply list_find_Some in E as (Hn & Hid & _). simpl in Hid.
  assert (Hg : get key r = Some rec) by (apply elem_of_get; [done|by eapply list_elem_of_lookup_2]).
  split; [done|]. destruct (Hok _ _ Hg) as [<- _]. done.
Qed.

Lemma approve_record_ok approver required now rec :
  NoDup (kr_approvers rec) -> NoDup (kr_approvers (approve_record approver required now rec)) /\
  kr_id (approve_record approver required now rec) = kr_id rec.
Proof.
  intros Hnd. unfold approve_record. destruct (se_active (kr_entry rec)); simpl; [|done].
  destruct (_ <? required); simpl; split; try done; [|constructor].
  case_decide; [done|]. apply NoDup_app. split; [done|]. split; [|apply NoDup_singleton].
  intros x Hx ->%list_elem_of_singleton. done.
Qed.

Lemma run_ks_ok c r : ks_ok r -> ks_ok (run_ks r c).
Proof.
  intros Hr. pose proof Hr as [Hwf Hok]. destruct c as [i|id approver required now]; simpl.
  - split; [by apply set_wf|]. intros k rec. rewrite get_set. case_decide as Hk; [|apply Hok]. intros [= <-]. subst k.
    destruct (get (input_key i) r) as [ex|] eqn:E; simpl; [|split; [done|constructor]].
    destruct (Hok _ _ E) as [-> _]. split; [done|constructor].
  - unfold resumeIfApproved. destruct (find_switch id r) as [[key rec]|] eqn:E; simpl; [|done].
    destruct (find_switch_spec _ _ _ _ Hr E) as [Hg ->]. destruct (Hok _ _ Hg) as [Hid Hnd].
    destruct (approve_record_ok approver required now rec Hnd) as [Hnd' Hid'].
    split; [by apply set_wf|]. intros k x. rewrite get_set. case_decide as Hk; [|apply Hok]. intros [= <-]. subst k.
    by rewrite Hid'.
Qed.

(** The approvals held by an active switch were all given since its last
    pause; an inactive one that was paused was resumed with enough of them. *)
Definition consent (key : string) (required : nat) (cs : list KillSwitchCall) (r : KillSwitchRepo) : Prop :=
  match get key r with
  | None => True
  | Some rec =>
      let given := approvers_in ("ks_" +:+ key) cs in
      if se_active (kr_entry rec) then (forall a, a ∈ kr_approvers rec -> a ∈ given)
      else exists l, NoDup l /\ (required <= length l)%nat /\ forall a, a ∈ l -> a ∈ given
  end.

Lemma consent_approve key required id approver req now cs r :
  ks_ok r -> (Z.of_nat required <= req) -> consent key required cs r ->
  consent key required (cs ++ [KApprove id approver req now]) (run_ks r (KApprove id approver req now)).
Proof.
  intros Hr Hreq Hc. pose proof Hr as [Hwf Hok].
  assert (Hmono : forall a, a ∈ approvers_in ("ks_" +:+ key) cs ->
    a ∈ approvers_in ("ks_" +:+ key) (cs ++ [KApprove id approver req now])).
  { intros a Ha. unfold approvers_in. rewrite omap_app. apply elem_of_app. by left. }
  assert (Hkeep : consent key required (cs ++ [KApprove id approver req now]) r).
  { unfold consent in *. destruct (get key r) as [rec|]; [|done]. destruct (se_active _); [eauto|].
    destruct Hc as (l & ? & ? & ?). exists l. eauto. }
  simpl. unfold resumeIfApproved. destruct (find_switch id r) as [[k rec]|] eqn:E; simpl; [|done].
  destruct (find_switch_spec _ _ _ _ Hr E) as [Hg ->]. destruct (Hok _ _ Hg) as [_ Hnd].
  destruct (decide (k = key)) as [->|Hne].
  2:{ unfold consent in *. rewrite get_set_ne by done. done. }
  assert (Hnew : approver ∈ approvers_in ("ks_" +:+ key) (cs ++ [KApprove ("ks_" +:+ key) approver req now])).
  { unfold approvers_in. rewrite omap_app. apply elem_of_app. right. simpl. rewrite bool_decide_eq_true_2 by done. left. }
  unfold consent in *. rewrite get_set_eq. rewrite Hg in Hc, Hkeep. unfold approve_record.
  destruct (se_active (kr_entry rec)) eqn:Ea; simpl; [|by rewrite Ea].
  set (l := if decide (approver ∈ kr_approvers rec) then kr_approvers rec else kr_approvers rec ++ [approver]).
  assert (Hl : forall a, a ∈ l -> a ∈ approvers_in ("ks_" +:+ key) (cs ++ [KApprove ("ks_" +:+ key) approver req now])).
  { intros a Ha. unfold l in Ha. case_decide; [eauto|]. apply elem_of_app in Ha as [Ha|Ha%list_elem_of_singleton]; [eauto|by subst]. }
  assert (Hndl : NoDup l).
  { unfold l. case_decide; [done|]. apply NoDup_app. split; [done|]. split; [|apply NoDup_singleton].
    intros x Hx ->%list_elem_of_singleton. done. }
  destruct (Z.ltb_spec (Z.of_nat (length l)) req); simpl; [by rewrite Ea|]. exists l. split; [done|]. split; [lia|done].
Qed.

(** One operator cannot lift a pause alone: after a switch is paused, and
    whatever approvals and pauses of other scopes follow, it is found inactive
    only if as many distinct operators as required (two, in the API) have
    approved it since that pause; approvals given before the pause never count. *)
Theorem resume_needs_distinct_approvers i cs r key required
    (Hok : ks_ok r) (Hkey : input_key i = key)
    (Hcs : Forall (fun c => match c with
             | KPause j => input_key j <> key
             | KApprove _ _ req _ => Z.of_nat required <= req
             end) cs) :
  match get key (foldl run_ks (activate i r).2 cs) with
  | None => False
  | Some rec =>
      se_active (kr_entry rec) = false ->
      exists l, NoDup l /\ (required <= length l)%nat /\ forall a, a ∈ l -> a ∈ approvers_in ("ks_" +:+ key) cs
  end.
Proof.
  set (r0 := (activate i r).2). assert (Hok0 : ks_ok r0) by apply (run_ks_ok (KPause i) r Hok).
  assert (H0 : consent key required [] r0 /\ is_Some (get key r0)).
  { unfold consent, r0, activate. simpl. rewrite Hkey, get_set_eq. split; [|done].
    destruct (get key r); simpl; intros a Ha; by apply not_elem_of_nil in Ha. }
  assert (Hgen : forall cs pre r1, ks_ok r1 -> consent key required pre r1 -> is_Some (get key r1) ->
    Forall (fun c => match c with KPause j => input_key j <> key | KApprove _ _ req _ => Z.of_nat required <= req end) cs ->
    consent key required (pre ++ cs) (foldl run_ks r1 cs) /\ is_Some (get key (foldl run_ks r1 cs))).
  { clear. induction cs as [|c cs IH]; intros pre r1 Hok Hc Hs Hcs; simpl; [by rewrite app_nil_r|].
    apply Forall_cons in Hcs as [Hc1 Hcs]. replace (pre ++ c :: cs) with ((pre ++ [c]) ++ cs) by (by rewrite <- app_assoc).
    apply IH; [by apply run_ks_ok| | |done].
    - destruct c as [j|id a req now]; [|by apply consent_approve].
      unfold consent in *. simpl. rewrite get_set_ne by done. unfold approvers_in. rewrite omap_app. simpl. by rewrite app_nil_r.
    - destruct c as [j|id a req now]; simpl.
      + by rewrite get_set_ne.
      + unfold resumeIfApproved. destruct (find_switch id r1) as [[k rec]|]; simpl; [|done]. rewrite get_set. by case_decide. }
  destruct (Hgen cs [] r0 Hok0 (proj1 H0) (proj2 H0) Hcs) as [Hc [rec Hrec]]. simpl in Hc.
  unfold consent in Hc. fold r0. rewrite Hrec in Hc |- *. destruct (se_active (kr_entry rec)); [done|]. done.
Qed.

Definition demo_pause : ActivateInput :=
  {| ai_scope := sc_chain; ai_chain := Some "ethereum"%string; ai_token := None; ai_operation := None;
     ai_reasonCode := "INCIDENT"; ai_reason := "exploit"; ai_activatedBy := "alice"; ai_now := 100 |}.

Lemma resume_needs_distinct_approvers_witness :
  let cs := [KApprove "ks_chain|ethereum||" "bob" 2 110; KApprove "ks_chain|ethereum||" "bob" 2 120;
             KApprove "ks_chain|ethereum||" "carol" 2 130] in
  match get "chain|ethereum||" (foldl run_ks (activate demo_pause []).2 cs) with
  | None => False
  | Some rec => se_active (kr_entry rec) = false /\
      exists l, NoDup l /\ (2 <= length l)%nat /\ forall a, a ∈ l -> a ∈ approvers_in ("ks_" +:+ "chain|ethereum||") cs
  end.
Proof.
  intros cs.
  assert (Hok : ks_ok []) by (split; [constructor|intros k rec Hk; discriminate]).
  assert (Hcs : Forall (fun c => match c with KPause j => input_key j <> "chain|ethereum||"%string
    | KApprove _ _ req _ => Z.of_nat 2 <= req end) cs) by (repeat constructor; simpl; lia).
  pose proof (resume_needs_distinct_approvers demo_pause cs [] "chain|ethereum||" 2 Hok eq_refl Hcs) as H.
  destruct (get "chain|ethereum||" (foldl run_ks (activate demo_pause []).2 cs)) as [rec|] eqn:E; [|exact H].
  assert (Hin : se_active (kr_entry rec) = false) by (vm_compute in E; injection E as <-; reflexivity).
  split; [exact Hin|exact (H Hin)].
Defined.

(** ** Start-up *)

Inductive ServiceOp :=
  | SvPause (i : ActivateInput)
  | SvApprove (id approver : string) (required now : Z)
  | SvPoll
  | SvInit.

Definition run_service (v : KillSwitchService) (o : ServiceOp) : KillSwitchService :=
  match o with
  | SvPause i => (pause i v).2
  | SvApprove id a req now => (approveResume id a req now v).2
  | SvPoll => poll v
  | SvInit => onModuleInit v
  end.

(** As shipped the service never becomes ready: the refresh it performs
    calls a repository method that does not exist before it sets [ready], so
    after start-up and any sequence of pauses, approvals and polls every write
    is blocked, with or without a switch. *)
Theorem service_never_ready r ops guardian t :
  let v := foldl run_service (onModuleInit (new_service r)) ops in
  kv_ready v = false /\ isBlocked guardian t v = true /\ sd_paused (evaluateTarget guardian t v) = true.
Proof.
  intros v. assert (Hr : kv_ready v = false).
  { subst v. assert (H0 : kv_ready (onModuleInit (new_service r)) = false) by done. revert H0.
    generalize (onModuleInit (new_service r)). induction ops as [|o ops IH]; intros v Hv; simpl; [done|].
    apply IH. destruct o as [i|id a req now| |]; simpl.
    - unfold pause. destruct (normaliseScope _ _ _ _); [|done]. by destruct (activate i (kv_repo v)).
    - unfold approveResume. by destruct (resumeIfApproved id a req now (kv_repo v)) as [[rec r']|].
    - unfold poll. by destruct (_ =? _).
    - done. }
  split; [done|]. unfold isBlocked, evaluateTarget. by rewrite Hr.
Qed.
