(* ===== verification/Sweeper.v ===== *)
(** The deadline sweeper: [src/intents/intents-sweeper.service.ts].

    Runs over the service's [World]; the kill switch is consulted through
    [KillSwitch.evaluateTarget].  [now] is the clock a handler read when it
    started.  Leadership, timers and log lines are not modelled. *)
From S2P Require Import Prelude JsMap BigInt IntentTypes StateMachine IntentsRepo PartialFillMath Prog SolverFills FillsRepo IntentsService ServiceSafety PartialFillService KillSwitch.
From stdpp Require Import relations.
Local Open Scope Z_scope.

Inductive SettleOutcome := so_slashed | so_extended | so_skipped.

Record SweepResult := { sr_expiredCount : Z; sr_slashedCount : Z; sr_extendedDeadlines : Z }.

Section sweeper.
Context {R : Type} `{Hrepo : IntentsRepository R}.
Context (env : Env) (guardian : option GuardianPause) (ks : KillSwitchService).
Local Abbreviation W := (World R).
Local Abbreviation M := (prog W ServiceError).
Local Open Scope prog_scope.

(** The deadline to grant when fills are paused for the intent. *)
Definition pausedFillDeadline (i : Intent) (now : Z) : option Z :=
  let d := evaluateTarget guardian
    {| tg_chain := Some (chain_name (srcChain i)); tg_token := Some (tok_address (srcToken i)); tg_operation := ks_fill |} ks in
  if negb (sd_paused d) then None else Some (now + fill_window (srcChain i)).

Definition expireOpen (i : Intent) (now : Z) : M bool :=
  (if bool_decide (allowPartialFill i = Some true)
   then slashExpiredReservations env now (Some (intentId i)) ;;; Done tt else Done tt) ;;;
  e <- svc_expireIfOpen env (intentId i)
    {| pc_actor := Some "system"%string; pc_reason := Some "deadline passed"%string;
       pc_metadata := Some (defined [("deadline", Some (MNum (deadline i))); ("sweepedAt", Some (MNum now))]%string);
       pc_override := None; pc_at := None |};
  match e with
  | None => Done false
  | Some _ => modify (add_effect (Broadcast "intent_expired" (intentId i) None)) ;;; Done true
  end.

Definition slash_reason : string := "accepted intent not filled before deadline".

Definition slashMissedFill (id : string) (sol : option string) (now : Z) : M bool :=
  s <- svc_slashIfAccepted env id now slash_reason
    {| pc_actor := Some "system"%string; pc_reason := Some slash_reason;
       pc_metadata := Some (defined [("solver", MStr <$> sol); ("slashedAt", Some (MNum now))]%string);
       pc_override := None; pc_at := None |};
  match s with
  | None => Done false
  | Some _ =>
      modify (add_effect (Broadcast "intent_slashed" id None)) ;;;
      match sol with
      | Some sv =>
          if truthy_str (Some sv) then
            modify (add_effect (RecordFailedFill sv id)) ;;;
            modify (add_effect (RecordSlash sv id now)) ;;;
            modify (add_effect (RecordUnfilled sv id now)) ;;;
            modify (add_effect (SlashOnChain sv id)) ;;;
            Done true
          else Done true
      | None => Done true
      end
  end.

Definition settleAccepted (i : Intent) (now : Z) : M SettleOutcome :=
  match pausedFillDeadline i now with
  | Some d =>
      e <- svc_extendDeadlineIfAccepted (intentId i) d;
      Done (match e with Some _ => so_extended | None => so_skipped end)
  | None =>
      s <- slashMissedFill (intentId i) (solver i) now;
      Done (if s : bool then so_slashed else so_skipped)
  end.

Definition sweep (now : Z) : M SweepResult :=
  tranches <- pcatch (fun _ => Done 0) (slashExpiredReservations env now None);
  opens <- getByState open;
  expiredCount <- pfold (fun n i =>
    if deadline i <=? now then e <- expireOpen i now; Done (if e : bool then n + 1 else n) else Done n) 0 opens;
  taken <- getByState accepted;
  counts <- pfold (fun '(s, x) i =>
    o <- settleAccepted i now;
    Done (match o with so_slashed => (s + 1, x) | so_extended => (s, x + 1) | so_skipped => (s, x) end))
    (tranches, 0) (filter (fun i => deadline i <=? now) taken);
  Done {| sr_expiredCount := expiredCount; sr_slashedCount := counts.1; sr_extendedDeadlines := counts.2 |}.

(** The job's deadline must still be the stored one. *)
Definition handleExpireJob (j : DeadlineJob) (now : Z) : M unit :=
  found <- find_intent (dj_intentId j);
  match found with
  | None => Done tt
  | Some i =>
      if negb (bool_decide (state i = open)) || negb (deadline i =? dj_deadline j) then Done tt
      else if now <? deadline i then Done tt
      else expireOpen i now ;;; Done tt
  end.

Definition handleFillWindowJob (j : DeadlineJob) (now : Z) : M unit :=
  found <- find_intent (dj_intentId j);
  match found with
  | None => Done tt
  | Some i =>
      if negb (bool_decide (state i = accepted)) || negb (deadline i =? dj_deadline j) then Done tt
      else if now <? deadline i then Done tt
      else settleAccepted i now ;;; Done tt
  end.
End sweeper.

(** * Findings *)

(** Kill switches of a ready replica: fills paused, and not. *)
Definition ks_ready (entries : list SwitchSnapshotEntry) : KillSwitchService :=
  {| kv_repo := []; kv_snapshot := entries; kv_lastUpdatedAt := 0; kv_ready := true |}.

Definition ks_paused : KillSwitchService := ks_ready [kr_entry (activate demo_pause []).1].

Definition accepted_world : World InMemoryRepo := (run (svc_acceptIfOpen demo_env "i1" "S" 2000 no_ctx) demo_world).2.

(** A granted extension does not protect the solver: a sweep that listed the
    overdue intents while fills were paused elsewhere slashes from its list
    without looking at the stored deadline again, so an intent whose window a
    concurrent deadline job has just extended is slashed before that deadline. *)
Theorem extension_does_not_stop_slash :
  let pool := [ignore (sweep demo_env None (ks_ready []) 4000);
               ignore (handleFillWindowJob demo_env None ks_paused
                 {| dj_kind := fill_window_expired; dj_intentId := "i1"; dj_deadline := 3800 |} 4000)] in
  let c := schedule ([0; 0; 0] ++ [1; 1; 1] ++ replicate 20 0)%nat accepted_world pool in
  (fun i => (state i, slashedAt i, deadline i)) <$> repo_find "i1" (w_repo c.1) = Some (slashed, Some 4000, 5800) /\
  c.2 = [Done tt; Done tt].
Proof. vm_compute. done. Qed.

(** An intent can expire around a live reservation, and the tranche can
    still be delivered: the user shortens the deadline by an amendment after a
    solver reserved, the sweeper expires the intent while the tranche's own
    window is open, and the delivery is then recorded on the expired intent
    without settling it.  (The reservation's deadline is capped "so every tranche
    resolves before the intent can expire around it".) *)
Theorem expiry_overtakes_tranche :
  let w := (run (pf_reserve demo_env "f1" demo_partial "S" "1000" 2000) partial_world).2 in
  let w := (run (svc_amendIfOpen "i1" "900" 2500 2100) w).2 in
  let w := (run (sweep demo_env None (ks_ready []) 2600) w).2 in
  state <$> repo_find "i1" (w_repo w) = Some expired /\
  if_status <$> find_fill "f1" (w_fills w) = Some fs_reserved /\
  match run (fillTranche demo_env demo_partial "f1" "S" "900" None 2700) w with
  | (Ok (fill, i, settled), w') => if_status fill = fs_filled /\ settled = false /\ state i = expired
  | _ => False
  end.
Proof. vm_compute. done. Qed.

(** * Properties *)

(** An amendment leaves the intent without a deadline job: [amendIfOpen]
    arms no job for the new deadline, and every expiry job armed for another
    deadline is ignored by its handler at any time, so only the low-frequency
    safety sweep will ever expire the intent. *)
Theorem amendment_disarms_expiry {R} `{IntentsRepository R} env id minDst d now (w w' : World R) i
    (Hrun : run (svc_amendIfOpen id minDst d now) w = (Ok (Some i), w')) :
  w_jobs w' = w_jobs w /\ deadline i = d /\ repo_find id (w_repo w') = Some i /\
  forall j later, j ∈ w_jobs w' -> dj_intentId j = id -> dj_deadline j <> d ->
    run (handleExpireJob env j later) w' = (Ok tt, w').
Proof.
  unfold svc_amendIfOpen in Hrun. rewrite run_pbind in Hrun. unfold repo_write in Hrun. rewrite run_atomic in Hrun.
  destruct (repo_amend_spec id minDst d now (w_repo w)) as [Hv Hf].
  destruct (repo_amend id minDst d now (w_repo w)) as [[a|] r'] eqn:E; simpl in *; [|done].
  injection Hrun as <- <-. destruct (repo_find id (w_repo w)) as [old|]; [|done].
  destruct (_ && _) in Hv; [|done]. injection Hv as Ha.
  assert (Hd : deadline a = d) by (by rewrite Ha). assert (Hfind : repo_find id r' = Some a) by (rewrite Hf; by rewrite decide_True).
  split; [done|]. split; [done|]. split; [done|]. intros j later _ Hj Hne. unfold handleExpireJob.
  simpl. rewrite Hj, Hfind. simpl.
  rewrite Hd, (proj2 (Z.eqb_neq d (dj_deadline j))) by done. by rewrite orb_true_r.
Qed.

Lemma amendment_disarms_expiry_witness :
  let w := add_job {| dj_kind := expire_intent; dj_intentId := "i1"; dj_deadline := 5000 |} demo_world in
  match run (svc_amendIfOpen "i1" "950" 7000 2000) w with
  | (Ok (Some i), w') =>
      run (handleExpireJob demo_env {| dj_kind := expire_intent; dj_intentId := "i1"; dj_deadline := 5000 |} 9999) w' = (Ok tt, w')
  | _ => False
  end.
Proof.
  intros w. destruct (run (svc_amendIfOpen "i1" "950" 7000 2000) w) as [[[i|]|e] w'] eqn:E; [|vm_compute in E; discriminate..].
  destruct (amendment_disarms_expiry demo_env "i1" "950" 7000 2000 w w' i E) as (Hj & _ & _ & Hall).
  apply Hall; [|reflexivity|discriminate]. rewrite Hj. left.
Defined.

(** ** A sweep settles every overdue intent *)

Section completeness.
Context (env : Env) (guardian : option GuardianPause) (ks : KillSwitchService) (now : Z).
Local Abbreviation W := (World InMemoryRepo).
Implicit Types w : W.

(** What becomes of a stored intent. *)
Definition swept (i i' : Intent) : Prop :=
  if deadline i <=? now then
    match state i with
    | open => state i' = expired
    | accepted =>
        match pausedFillDeadline guardian ks i now with
        | Some d => state i' = accepted /\ deadline i' = d
        | None => state i' = slashed /\ slashedAt i' = Some now
        end
    | _ => i' = i
    end
  else i' = i.

(** Expiring one open intent, with no tranche to settle first. *)
Lemma run_expireOpen i w :
  w_fills w = empty_fills -> repo_find (intentId i) (w_repo w) = Some i -> state i = open ->
  exists w' u, run (expireOpen env i now) w = (Ok true, w') /\ w_fills w' = empty_fills /\
    repo_find (intentId i) (w_repo w') = Some u /\ state u = expired /\
    (repo_wf (w_repo w) -> repo_wf (w_repo w')) /\
    forall k, k <> intentId i -> repo_find k (w_repo w') = repo_find k (w_repo w).
Proof.
  intros Hfills Hi Hs. unfold expireOpen. rewrite run_pbind.
  assert (Hpre : run (if bool_decide (allowPartialFill i = Some true)
    then pbind (fun _ => Done tt) (slashExpiredReservations env now (Some (intentId i))) else Done tt) w = (Ok tt, w)).
  { case_bool_decide; [|done]. unfold slashExpiredReservations. rewrite run_pbind, run_pbind. cbn [run reads].
    rewrite Hfills. done. }
  rewrite Hpre. cbv beta iota. rewrite run_pbind. unfold svc_expireIfOpen.
  destruct (plan_ok (R := InMemoryRepo) env (intentId i) open expired
    (full_ctx "system" None {| pc_actor := Some "system"%string; pc_reason := Some "deadline passed"%string;
       pc_metadata := Some (defined [("deadline", Some (MNum (deadline i))); ("sweepedAt", Some (MNum now))]%string);
       pc_override := None; pc_at := None |}) eq_refl) as (plan & -> & _).
  cbn [pbind]. rewrite run_pbind. unfold repo_write at 1. rewrite run_atomic. cbv beta iota.
  destruct (repo_expire_spec (intentId i) None (w_repo w)) as [Hv Hf].
  destruct (repo_expire (intentId i) None (w_repo w)) as [res r'] eqn:E. cbn [fst snd] in *.
  rewrite Hi in Hv. simpl in Hv. rewrite bool_decide_eq_true_2 in Hv by done. subst res. cbn [written].
  eexists _, _. split; [reflexivity|]. simpl. rewrite Hf. simpl. rewrite decide_True by done.
  split_and!; [done|done|done|intros Hwf; by eapply (run_op_wf (OpExpire (intentId i) None))|].
  intros k Hk. rewrite Hf. simpl. by rewrite decide_False.
Qed.

(** Settling one overdue accepted intent. *)
Lemma run_settleAccepted i w :
  repo_find (intentId i) (w_repo w) = Some i -> state i = accepted -> deadline i <= now ->
  exists o w' u, run (settleAccepted env guardian ks i now) w = (Ok o, w') /\
    repo_find (intentId i) (w_repo w') = Some u /\ swept i u /\
    forall k, k <> intentId i -> repo_find k (w_repo w') = repo_find k (w_repo w).
Proof.
  intros Hi Hs Hd. unfold settleAccepted, swept. rewrite (proj2 (Z.leb_le _ _)) by done. rewrite Hs.
  destruct (pausedFillDeadline guardian ks i now) as [d|] eqn:Ep.
  - assert (Hlt : deadline i < d).
    { unfold pausedFillDeadline in Ep. destruct (negb _) in Ep; [done|]. injection Ep as <-. pose proof (fill_window_pos (srcChain i)). lia. }
    unfold svc_extendDeadlineIfAccepted. rewrite run_pbind, run_pbind. unfold repo_write at 1. rewrite run_atomic. cbv beta iota.
    destruct (repo_extend_spec (intentId i) d None (w_repo w)) as [Hv Hf].
    destruct (repo_extend (intentId i) d None (w_repo w)) as [res r'] eqn:E. cbn [fst snd] in *.
    rewrite Hi in Hv. simpl in Hv. rewrite bool_decide_eq_true_2, (proj2 (Z.ltb_lt _ _)) in Hv by done. subst res. cbn [written].
    eexists _, _, _. split; [reflexivity|]. simpl. rewrite Hf. simpl. rewrite decide_True by done.
    split; [done|]. split; [done|]. intros k Hk. rewrite Hf. simpl. by rewrite decide_False.
  - unfold slashMissedFill. rewrite run_pbind, run_pbind. unfold svc_slashIfAccepted.
    destruct (plan_ok (R := InMemoryRepo) env (intentId i) accepted slashed
      (full_ctx "system" (Some slash_reason) {| pc_actor := Some "system"%string; pc_reason := Some slash_reason;
         pc_metadata := Some (defined [("solver", MStr <$> solver i); ("slashedAt", Some (MNum now))]%string);
         pc_override := None; pc_at := None |}) eq_refl) as (plan & -> & _).
    cbn [pbind]. rewrite run_pbind.
    destruct (run_withFillRecord env fo_failed now (repo_slash (intentId i) now slash_reason None) w) as (l & -> & _).
    destruct (repo_slash_spec (intentId i) now slash_reason None (w_repo w)) as [Hv Hf].
    destruct (repo_slash (intentId i) now slash_reason None (w_repo w)) as [res r'] eqn:E. cbn [fst snd] in *.
    rewrite Hi in Hv. simpl in Hv. rewrite bool_decide_eq_true_2 in Hv by done. subst res. cbn [written].
    match goal with |- context [stamp ?a ?b ?c] => set (v := stamp a b c) in * end.
    assert (Hgoal : forall w', w_repo w' = r' -> repo_find (intentId i) (w_repo w') = Some v /\
      (state v = slashed /\ slashedAt v = Some now) /\
      forall k, k <> intentId i -> repo_find k (w_repo w') = repo_find k (w_repo w)).
    { intros w' ->. rewrite Hf. simpl. rewrite decide_True by done. split_and!; [done|done|done|].
      intros k Hk. rewrite Hf. simpl. by rewrite decide_False. }
    destruct (solver i) as [sv|]; [destruct (truthy_str (Some sv)) eqn:Et|]; simpl; rewrite ?Et;
      eexists _, _, v; (split; [reflexivity|by apply Hgoal]).
Qed.

(** The listing of a well-formed store: its records, each under its id, once. *)
Lemma findAll_spec (r : InMemoryRepo) :
  repo_wf r -> NoDup (intentId <$> findAll r) /\ (forall i, i ∈ findAll r <-> repo_find (intentId i) r = Some i).
Proof.
  intros [Hwf Hid]. unfold findAll. split.
  - rewrite sort_by_perm. assert (Hk : intentId <$> values (store r) = keys (store r)).
    { unfold values, keys. rewrite <- list_fmap_compose. apply list_fmap_ext. intros n [k i] Hn. simpl.
      apply Hid. apply elem_of_get; [done|by eapply list_elem_of_lookup_2]. }
    rewrite Hk. exact Hwf.
  - intros i. rewrite elem_of_sort_by. split.
    + intros Hi. apply values_get in Hi as [k Hk]; [|done]. destruct (Hid _ _ Hk) as [<- _]. done.
    + intros Hg. eapply get_values. exact Hg.
Qed.

Lemma NoDup_filter_ids (P : Intent -> Prop) `{forall x, Decision (P x)} l :
  NoDup (intentId <$> l) -> NoDup (intentId <$> filter P l).
Proof.
  intros Hnd. eapply sublist_NoDup; [exact Hnd|]. apply fmap_sublist, sublist_filter.
Qed.

Definition expire_body (n : Z) (i : Intent) : prog W ServiceError Z :=
  if deadline i <=? now then pbind (fun e : bool => Done (if e then n + 1 else n)) (expireOpen env i now) else Done n.

Lemma run_expire_loop l : forall n w,
  w_fills w = empty_fills -> repo_wf (w_repo w) -> NoDup (intentId <$> l) ->
  (forall i, i ∈ l -> repo_find (intentId i) (w_repo w) = Some i /\ state i = open) ->
  exists n' w', run (pfold expire_body n l) w = (Ok n', w') /\ w_fills w' = empty_fills /\ repo_wf (w_repo w') /\
    (forall i, i ∈ l -> deadline i <= now -> exists u, repo_find (intentId i) (w_repo w') = Some u /\ state u = expired) /\
    (forall k, (forall i, i ∈ l -> intentId i = k -> now < deadline i) -> repo_find k (w_repo w') = repo_find k (w_repo w)).
Proof.
  induction l as [|i l IH]; intros n w Hf Hwf Hnd Hl; cbn [pfold].
  { exists n, w. split_and!; try done. intros i Hi. by apply not_elem_of_nil in Hi. }
  rewrite fmap_cons in Hnd. apply NoDup_cons in Hnd as [Hni Hnd]. rewrite run_pbind. unfold expire_body at 1.
  destruct (Hl i ltac:(left)) as [Hi Hs].
  destruct (Z.leb_spec (deadline i) now) as [Hd|Hd].
  - destruct (run_expireOpen i w Hf Hi Hs) as (w1 & u & Hr & Hf1 & Hu & Hus & Hwf1 & Ho1). rewrite run_pbind, Hr. cbn [run].
    assert (Hne : forall j, j ∈ l -> intentId j <> intentId i).
    { intros j Hj He. apply Hni. rewrite <- He. apply list_elem_of_fmap. eauto. }
    destruct (IH (n + 1) w1 Hf1 (Hwf1 Hwf) Hnd) as (n' & w' & Hr' & Hf' & Hwf' & Hexp & Hsame).
    { intros j Hj. rewrite Ho1 by (by apply Hne). apply Hl. by right. }
    exists n', w'. split_and!; try done.
    + intros j [->|Hj]%elem_of_cons Hdj; [|by apply Hexp]. exists u. split; [|done]. rewrite Hsame; [done|].
      intros x Hx He. by destruct (Hne x Hx).
    + intros k Hk. rewrite Hsame by (intros x Hx He; apply Hk; [by right|done]). apply Ho1. intros ->.
      specialize (Hk i ltac:(left) eq_refl). lia.
  - cbn [run]. destruct (IH n w Hf Hwf Hnd) as (n' & w' & Hr' & Hf' & Hwf' & Hexp & Hsame).
    { intros j Hj. apply Hl. by right. }
    exists n', w'. split_and!; try done.
    + intros j [->|Hj]%elem_of_cons Hdj; [lia|by apply Hexp].
    + intros k Hk. apply Hsame. intros x Hx. apply Hk. by right.
Qed.

Definition settle_body : Z * Z -> Intent -> prog W ServiceError (Z * Z) := fun '(s, x) i =>
  pbind (fun o => Done (match o with so_slashed => (s + 1, x) | so_extended => (s, x + 1) | so_skipped => (s, x) end))
    (settleAccepted env guardian ks i now).

Lemma run_settle_loop l : forall acc w,
  NoDup (intentId <$> l) ->
  (forall i, i ∈ l -> repo_find (intentId i) (w_repo w) = Some i /\ state i = accepted /\ deadline i <= now) ->
  exists acc' w', run (pfold settle_body acc l) w = (Ok acc', w') /\
    (forall i, i ∈ l -> exists u, repo_find (intentId i) (w_repo w') = Some u /\ swept i u) /\
    (forall k, k ∉ intentId <$> l -> repo_find k (w_repo w') = repo_find k (w_repo w)).
Proof.
  induction l as [|i l IH]; intros acc w Hnd Hl; cbn [pfold].
  { exists acc, w. split_and!; try done. intros i Hi. by apply not_elem_of_nil in Hi. }
  rewrite fmap_cons in Hnd. apply NoDup_cons in Hnd as [Hni Hnd]. rewrite run_pbind. unfold settle_body at 1. destruct acc as [s x].
  destruct (Hl i ltac:(left)) as (Hi & Hs & Hd).
  destruct (run_settleAccepted i w Hi Hs Hd) as (o & w1 & u & Hr & Hu & Hsw & Ho). rewrite run_pbind, Hr. cbn [run].
  assert (Hne : forall j, j ∈ l -> intentId j <> intentId i).
  { intros j Hj He. apply Hni. rewrite <- He. apply list_elem_of_fmap. eauto. }
  destruct (IH (match o with so_slashed => (s + 1, x) | so_extended => (s, x + 1) | so_skipped => (s, x) end) w1 Hnd)
    as (acc' & w' & Hr' & Hsw' & Hsame).
  { intros j Hj. rewrite Ho by (by apply Hne). apply Hl. by right. }
  exists acc', w'. split; [done|]. split.
  - intros j [->|Hj]%elem_of_cons; [|by apply Hsw']. exists u. split; [|done]. by rewrite Hsame.
  - intros k Hk. apply not_elem_of_cons in Hk as [Hk1 Hk2]. by rewrite Hsame, Ho.
Qed.

Definition opens_of (w : W) : list Intent := filter (fun i => state i = open) (findAll (w_repo w)).
Definition late_of (w : W) : list Intent :=
  filter (fun i => deadline i <=? now) (filter (fun i => state i = accepted) (findAll (w_repo w))).

(** With no tranche reserved, a sweep is the expiry loop over the open
    listing, then the settling loop over the overdue accepted listing. *)
Lemma run_sweep w w1 w2 n acc :
  w_fills w = empty_fills ->
  run (pfold expire_body 0 (opens_of w)) w = (Ok n, w1) ->
  run (pfold settle_body (0, 0) (late_of w1)) w1 = (Ok acc, w2) ->
  run (sweep env guardian ks now) w =
    (Ok {| sr_expiredCount := n; sr_slashedCount := acc.1; sr_extendedDeadlines := acc.2 |}, w2).
Proof.
  intros Hfills Hr1 Hr2. unfold sweep. rewrite run_pbind, run_pcatch. unfold slashExpiredReservations at 1.
  rewrite run_pbind. cbn [run reads]. rewrite Hfills.
  cbn [findExpiredReservations fills empty_fills values expired_scan fmap list_fmap pfold run].
  rewrite run_pbind. cbn [run reads getByState]. rewrite run_pbind.
  change (run (pfold _ 0 _) w) with (run (pfold expire_body 0 (opens_of w)) w). rewrite Hr1. cbv beta iota.
  rewrite run_pbind. cbn [run reads getByState]. rewrite run_pbind.
  change (run (pfold _ (0, 0) _) w1) with (run (pfold settle_body (0, 0) (late_of w1)) w1).
  by rewrite Hr2.
Qed.

Lemma elem_of_opens w i : repo_wf (w_repo w) ->
  i ∈ opens_of w <-> repo_find (intentId i) (w_repo w) = Some i /\ state i = open.
Proof. intros Hwf. unfold opens_of. rewrite list_elem_of_filter, (proj2 (findAll_spec _ Hwf)). tauto. Qed.

Lemma elem_of_late w i : repo_wf (w_repo w) ->
  i ∈ late_of w <-> repo_find (intentId i) (w_repo w) = Some i /\ state i = accepted /\ deadline i <= now.
Proof.
  intros Hwf. unfold late_of.
  rewrite !list_elem_of_filter, (proj2 (findAll_spec _ Hwf)), Is_true_true, Z.leb_le. tauto.
Qed.

(** What the two passes together do to the record under [id]. *)
Lemma swept_after w w1 w2 id i :
  repo_wf (w_repo w) -> repo_wf (w_repo w1) -> repo_find id (w_repo w) = Some i ->
  (forall i, i ∈ opens_of w -> deadline i <= now ->
     exists u, repo_find (intentId i) (w_repo w1) = Some u /\ state u = expired) ->
  (forall k, (forall i, i ∈ opens_of w -> intentId i = k -> now < deadline i) ->
     repo_find k (w_repo w1) = repo_find k (w_repo w)) ->
  (forall i, i ∈ late_of w1 -> exists u, repo_find (intentId i) (w_repo w2) = Some u /\ swept i u) ->
  (forall k, k ∉ intentId <$> late_of w1 -> repo_find k (w_repo w2) = repo_find k (w_repo w1)) ->
  exists i', repo_find id (w_repo w2) = Some i' /\ swept i i'.
Proof.
  intros Hwf Hwf1 Hi Hexp Hsame1 Hsw Hsame2. destruct (proj2 Hwf _ _ Hi) as [Hid _].
  assert (Hw1 : (state i = open -> now < deadline i) -> repo_find id (w_repo w1) = Some i).
  { intros Hno. rewrite Hsame1; [done|]. intros j Hj Hjid. apply elem_of_opens in Hj as [Hj Hjs]; [|done].
    rewrite Hjid in Hj. assert (j = i) as -> by congruence. auto. }
  assert (Hout : forall x, repo_find id (w_repo w1) = Some x -> (state x = accepted -> now < deadline x) ->
    repo_find id (w_repo w2) = Some x).
  { intros x Hx Hxs. rewrite Hsame2; [done|]. intros (y & Hyid & Hy)%list_elem_of_fmap.
    apply elem_of_late in Hy as (Hy & Hys & Hyd); [|done]. rewrite <- Hyid in Hy.
    assert (y = x) as -> by congruence. specialize (Hxs Hys). lia. }
  destruct (Z_lt_le_dec now (deadline i)) as [Hd|Hd].
  { exists i. split; [by apply Hout; [apply Hw1|]|]. unfold swept. by rewrite (proj2 (Z.leb_gt _ _)). }
  destruct (decide (state i = accepted)) as [Ha|Ha].
  { destruct (Hsw i) as (u & Hu & Hs); [|rewrite Hid in Hu; by exists u].
    apply elem_of_late; [done|]. rewrite Hid. split_and!; [apply Hw1; congruence|done|done]. }
  unfold swept. rewrite (proj2 (Z.leb_le _ _)) by done.
  destruct (decide (state i = open)) as [Ho|Ho].
  - destruct (Hexp i) as (u & Hu & Hus); [by apply elem_of_opens; [done|rewrite Hid]|done|]. rewrite Hid in Hu.
    exists u. split; [apply Hout; [done|congruence]|by rewrite Ho].
  - exists i. split; [by apply Hout; [apply Hw1|]|]. by destruct (state i).
Qed.
End completeness.


