(* ===== verification/Outbox.v ===== *)
(** The transactional outbox: [src/soroban/outbox.repository.ts] (the in-memory
    adapter) and the payload builders of [src/soroban/outbox-operations.ts].

    Dates are milliseconds ([Z]).  The adapter's methods never await, so each
    is one atomic step; [ob_step] lets any number of relay workers interleave
    them, each working from the copies of the rows it was handed. *)
From S2P Require Import Prelude JsMap BigInt IntentTypes StateMachine IntentsRepo Prog SolverFills FillsRepo IntentsService.
From stdpp Require Import relations.
Local Open Scope Z_scope.

(** * Rows *)

Inductive OutboxOperation := create_intent | accept_intent | fill_intent | cancel_intent.

Inductive OutboxStatus := ob_pending | ob_processing | ob_submitted | ob_confirmed | ob_simulated | ob_dead.

#[export] Instance OutboxStatus_eq_dec : EqDecision OutboxStatus.
Proof. solve_decision. Defined.

Definition OUTBOX_DONE_STATUSES : list OutboxStatus := [ob_confirmed; ob_simulated].

Record OutboxEntry := {
  ob_id : string;
  ob_intentId : string;
  ob_operation : OutboxOperation;
  ob_payload : jsmap MetaValue;
  ob_status : OutboxStatus;
  ob_attempts : Z;
  ob_nextAttemptAt : Z;
  ob_lockedUntil : option Z;
  ob_envelopeHash : option string;
  ob_txHash : option string;
  ob_lastError : option string;
  ob_createdAt : Z;
  ob_updatedAt : Z;
}.

Record NewOutboxEntry := { ne_intentId : string; ne_operation : OutboxOperation; ne_payload : jsmap MetaValue }.

(** * Payload builders *)

Definition createIntentEntry (i : Intent) : NewOutboxEntry := {|
  ne_intentId := intentId i; ne_operation := create_intent;
  ne_payload := [("intentId", MStr (intentId i)); ("user", MStr (user i));
    ("srcChain", MStr (chain_name (srcChain i))); ("srcTokenAddress", MStr (tok_address (srcToken i)));
    ("srcAmount", MStr (srcAmount i)); ("dstTokenContract", MStr (st_contract (dstToken i)));
    ("minDstAmount", MStr (minDstAmount i)); ("deadline", MNum (deadline i))]%string |}.

Definition acceptIntentEntry (i : Intent) : NewOutboxEntry := {|
  ne_intentId := intentId i; ne_operation := accept_intent;
  ne_payload := defined [("intentId", Some (MStr (intentId i))); ("solver", MStr <$> solver i);
    ("fillDeadline", Some (MNum (deadline i)))]%string |}.

Definition fillIntentEntry (i : Intent) : NewOutboxEntry := {|
  ne_intentId := intentId i; ne_operation := fill_intent;
  ne_payload := defined [("intentId", Some (MStr (intentId i))); ("solver", MStr <$> solver i);
    ("fillAmount", MStr <$> fillAmount i); ("fillTxHash", Some (MStr (default ""%string (txHash i))))]%string |}.

Definition cancelIntentEntry (i : Intent) : NewOutboxEntry := {|
  ne_intentId := intentId i; ne_operation := cancel_intent;
  ne_payload := [("intentId", MStr (intentId i)); ("user", MStr (user i))]%string |}.

(** * The store *)

Record OutboxRepo := { ob_rows : jsmap OutboxEntry; ob_sequence : Z }.

Definition empty_outbox : OutboxRepo := {| ob_rows := []; ob_sequence := 0 |}.

Definition with_rows (m : jsmap OutboxEntry) (r : OutboxRepo) : OutboxRepo :=
  {| ob_rows := m; ob_sequence := ob_sequence r |}.

Definition find_row (id : string) (r : OutboxRepo) : option OutboxEntry := get id (ob_rows r).

Definition enqueue (ne : NewOutboxEntry) (clock : Z) (r : OutboxRepo) : OutboxEntry * OutboxRepo :=
  let id := toString (ob_sequence r + 1) in
  let row := {| ob_id := id; ob_intentId := ne_intentId ne; ob_operation := ne_operation ne;
    ob_payload := ne_payload ne; ob_status := ob_pending; ob_attempts := 0; ob_nextAttemptAt := clock;
    ob_lockedUntil := None; ob_envelopeHash := None; ob_txHash := None; ob_lastError := None;
    ob_createdAt := clock; ob_updatedAt := clock |} in
  (row, {| ob_rows := set id row (ob_rows r); ob_sequence := ob_sequence r + 1 |}).

(** The number an id spells; every id of the store spells one. *)
Definition ob_num (e : OutboxEntry) : Z := default 0 (BigInt (ob_id e)).

Definition ordered (r : OutboxRepo) : list OutboxEntry :=
  sort_by (fun a b => if ob_num a <? ob_num b then -1 else 1) (values (ob_rows r)).

(** A row as a claim leaves it. *)
Definition claimed_row (now leaseUntil : Z) (e : OutboxEntry) : OutboxEntry := {|
  ob_id := ob_id e; ob_intentId := ob_intentId e; ob_operation := ob_operation e; ob_payload := ob_payload e;
  ob_status := ob_processing; ob_attempts := ob_attempts e + 1; ob_nextAttemptAt := ob_nextAttemptAt e;
  ob_lockedUntil := Some leaseUntil; ob_envelopeHash := ob_envelopeHash e; ob_txHash := ob_txHash e;
  ob_lastError := ob_lastError e; ob_createdAt := ob_createdAt e; ob_updatedAt := now |}.

Definition is_due (now : Z) (e : OutboxEntry) : bool :=
  (bool_decide (ob_status e = ob_pending) && (ob_nextAttemptAt e <=? now)) ||
  (bool_decide (ob_status e = ob_processing) &&
     match ob_lockedUntil e with Some t => t <? now | None => false end).

(** The walk of [claimDue]; [heads] is [headSeen]. *)
Fixpoint claim_loop (now limit leaseUntil : Z) (l : list OutboxEntry) (heads : list string)
    (claimed : list OutboxEntry) (m : jsmap OutboxEntry) : list OutboxEntry * jsmap OutboxEntry :=
  match l with
  | [] => (claimed, m)
  | e :: l =>
      if limit <=? Z.of_nat (length claimed) then (claimed, m)
      else if bool_decide (ob_status e ∈ OUTBOX_DONE_STATUSES) then
        claim_loop now limit leaseUntil l heads claimed m
      else if bool_decide (ob_intentId e ∈ heads) then
        claim_loop now limit leaseUntil l heads claimed m
      else if is_due now e then
        claim_loop now limit leaseUntil l (ob_intentId e :: heads)
          (claimed ++ [claimed_row now leaseUntil e]) (set (ob_id e) (claimed_row now leaseUntil e) m)
      else claim_loop now limit leaseUntil l (ob_intentId e :: heads) claimed m
  end.

Definition claimDue (now limit leaseUntil : Z) (r : OutboxRepo) : list OutboxEntry * OutboxRepo :=
  let '(claimed, m) := claim_loop now limit leaseUntil (ordered r) [] [] (ob_rows r) in
  (claimed, with_rows m r).

Definition findSubmitted (limit : Z) (r : OutboxRepo) : list OutboxEntry :=
  slice 0 limit (filter (fun e => ob_status e = ob_submitted) (ordered r)).

Definition findByIntent (id : string) (r : OutboxRepo) : list OutboxEntry :=
  filter (fun e => ob_intentId e = id) (ordered r).

Definition countByStatus (r : OutboxRepo) (s : OutboxStatus) : Z :=
  Z.of_nat (length (filter (fun e => ob_status e = s) (values (ob_rows r)))).

(** * Fenced writes *)

(** [Object.assign(row, patch)] over the fields a write may patch. *)
Definition assign (st : OutboxStatus) (att next : Z) (locked : option Z) (env tx err : option string)
    (upd : Z) (e : OutboxEntry) : OutboxEntry := {|
  ob_id := ob_id e; ob_intentId := ob_intentId e; ob_operation := ob_operation e; ob_payload := ob_payload e;
  ob_status := st; ob_attempts := att; ob_nextAttemptAt := next; ob_lockedUntil := locked;
  ob_envelopeHash := env; ob_txHash := tx; ob_lastError := err; ob_createdAt := ob_createdAt e;
  ob_updatedAt := upd |}.

Definition fenced (e : OutboxEntry) (from : list OutboxStatus) (patch : OutboxEntry -> OutboxEntry)
    (r : OutboxRepo) : bool * OutboxRepo :=
  match find_row (ob_id e) r with
  | None => (false, r)
  | Some row =>
      if negb (ob_attempts row =? ob_attempts e) || negb (bool_decide (ob_status row ∈ from)) then (false, r)
      else (true, with_rows (set (ob_id e) (patch row) (ob_rows r)) r)
  end.

Definition recordEnvelope (clock : Z) (e : OutboxEntry) (hash : string) : OutboxRepo -> bool * OutboxRepo :=
  fenced e [ob_processing] (fun row =>
    assign (ob_status row) (ob_attempts row) (ob_nextAttemptAt row) (ob_lockedUntil row) (Some hash)
      (ob_txHash row) (ob_lastError row) clock row).

Definition markSubmitted (clock : Z) (e : OutboxEntry) (tx : string) : OutboxRepo -> bool * OutboxRepo :=
  fenced e [ob_processing] (fun row =>
    assign ob_submitted (ob_attempts row) (ob_nextAttemptAt row) None (ob_envelopeHash row)
      (Some tx) (ob_lastError row) clock row).

Definition markConfirmed (clock : Z) (e : OutboxEntry) (tx : string) : OutboxRepo -> bool * OutboxRepo :=
  fenced e [ob_processing; ob_submitted] (fun row =>
    assign ob_confirmed (ob_attempts row) (ob_nextAttemptAt row) None (ob_envelopeHash row)
      (Some tx) (ob_lastError row) clock row).

Definition markSimulated (clock : Z) (e : OutboxEntry) : OutboxRepo -> bool * OutboxRepo :=
  fenced e [ob_processing] (fun row =>
    assign ob_simulated (ob_attempts row) (ob_nextAttemptAt row) None (ob_envelopeHash row)
      (ob_txHash row) (ob_lastError row) clock row).

Definition scheduleRetry (clock : Z) (e : OutboxEntry) (error : string) (nextAttemptAt : Z)
    : OutboxRepo -> bool * OutboxRepo :=
  fenced e [ob_processing; ob_submitted] (fun row =>
    assign ob_pending (ob_attempts row) nextAttemptAt None None None (Some error) clock row).

Definition markDead (clock : Z) (e : OutboxEntry) (error : string) : OutboxRepo -> bool * OutboxRepo :=
  fenced e [ob_processing; ob_submitted] (fun row =>
    assign ob_dead (ob_attempts row) (ob_nextAttemptAt row) None (ob_envelopeHash row) (ob_txHash row)
      (Some error) clock row).

Definition release (clock : Z) (e : OutboxEntry) (note : string) (nextAttemptAt : Z)
    : OutboxRepo -> bool * OutboxRepo :=
  fenced e [ob_processing] (fun row =>
    assign ob_pending (Z.max 0 (ob_attempts e - 1)) nextAttemptAt None None (ob_txHash row)
      (Some note) clock row).

Definition requeueDead (clock : Z) (id : string) (r : OutboxRepo) : bool * OutboxRepo :=
  match find_row id r with
  | None => (false, r)
  | Some row =>
      if negb (bool_decide (ob_status row = ob_dead)) then (false, r)
      else (true, with_rows (set id (assign ob_pending 0 clock (ob_lockedUntil row) None None
                                       (ob_lastError row) clock row) (ob_rows r)) r)
  end.

(** * Workers *)

(** The writes a worker makes for a row it holds. *)
Inductive OutboxWrite :=
  | W_envelope (hash : string)
  | W_submitted (tx : string)
  | W_confirmed (tx : string)
  | W_simulated
  | W_retry (error : string) (nextAttemptAt : Z)
  | W_dead (error : string)
  | W_release (note : string) (nextAttemptAt : Z).

Definition run_write (clock : Z) (e : OutboxEntry) (w : OutboxWrite) : OutboxRepo -> bool * OutboxRepo :=
  match w with
  | W_envelope h => recordEnvelope clock e h
  | W_submitted tx => markSubmitted clock e tx
  | W_confirmed tx => markConfirmed clock e tx
  | W_simulated => markSimulated clock e
  | W_retry err t => scheduleRetry clock e err t
  | W_dead err => markDead clock e err
  | W_release note t => release clock e note t
  end.

(** Giving a row back ends the worker's hold on it. *)
Definition gives_back (w : OutboxWrite) (ok : bool) : bool :=
  match w with W_release _ _ => ok | _ => false end.

(** The store and the copies the workers hold. *)
Record ObSys := { os_repo : OutboxRepo; os_held : list OutboxEntry }.

Definition init_ob : ObSys := {| os_repo := empty_outbox; os_held := [] |}.

(** One call of one worker; [rq] says whether operators requeue dead rows. *)
Inductive ob_step (rq : bool) : ObSys -> ObSys -> Prop :=
  | os_enqueue r h ne clock :
      ob_step rq {| os_repo := r; os_held := h |} {| os_repo := (enqueue ne clock r).2; os_held := h |}
  | os_claim r h now limit leaseUntil :
      ob_step rq {| os_repo := r; os_held := h |}
        {| os_repo := (claimDue now limit leaseUntil r).2; os_held := h ++ (claimDue now limit leaseUntil r).1 |}
  | os_find r h limit :
      ob_step rq {| os_repo := r; os_held := h |} {| os_repo := r; os_held := h ++ findSubmitted limit r |}
  | os_write r h1 e h2 clock w :
      ob_step rq {| os_repo := r; os_held := h1 ++ e :: h2 |}
        {| os_repo := (run_write clock e w r).2;
           os_held := if gives_back w (run_write clock e w r).1 then h1 ++ h2 else h1 ++ e :: h2 |}
  | os_forget r h1 e h2 :
      ob_step rq {| os_repo := r; os_held := h1 ++ e :: h2 |} {| os_repo := r; os_held := h1 ++ h2 |}
  | os_requeue r h id clock :
      rq = true ->
      ob_step rq {| os_repo := r; os_held := h |} {| os_repo := (requeueDead clock id r).2; os_held := h |}.

(** ** Shape of the store *)

Definition ob_done (e : OutboxEntry) : Prop := ob_status e ∈ OUTBOX_DONE_STATUSES.

Definition rows_ok (r : OutboxRepo) : Prop :=
  0 <= ob_sequence r /\ wf (ob_rows r) /\
  forall k e, find_row k r = Some e ->
    ob_id e = k /\ (exists n, k = toString n /\ 1 <= n <= ob_sequence r) /\ 0 <= ob_attempts e /\
    (ob_status e = ob_processing -> 1 <= ob_attempts e).

(** Every write is the replacement of one row, keeping its identity; a done row
    is never replaced. *)
Definition replaces (k : string) (old new : OutboxEntry) (r r' : OutboxRepo) : Prop :=
  find_row k r = Some old /\ r' = with_rows (set k new (ob_rows r)) r /\
  ob_id new = ob_id old /\ ob_intentId new = ob_intentId old /\ ~ ob_done old.

Lemma find_row_replaced k old new r r' k' :
  replaces k old new r r' -> find_row k' r' = if decide (k = k') then Some new else find_row k' r.
Proof. intros (_ & -> & _). unfold find_row. simpl. apply get_set. Qed.

Lemma replaces_ok k old new r r' :
  rows_ok r -> replaces k old new r r' -> 0 <= ob_attempts new ->
  (ob_status new = ob_processing -> 1 <= ob_attempts new) -> rows_ok r'.
Proof.
  intros (Hs & Hwf & Hall) Hrep Ha Hp. pose proof (fun k' => find_row_replaced _ _ _ _ _ k' Hrep) as Hf.
  destruct Hrep as (Hold & -> & Hid & _). split; [done|]. split; [by apply set_wf|].
  intros k' e. rewrite Hf. destruct (Hall _ _ Hold) as (Hk & Hn & _).
  case_decide; [intros [= <-]; subst k'|apply Hall]. split_and!; [congruence|done|done|done].
Qed.

(** What a worker's write does: nothing when the fence refuses it, else one
    replacement of the row it names. *)
Lemma run_write_spec clock e w r :
  run_write clock e w r = (false, r) \/
  exists row new, (run_write clock e w r).1 = true /\ replaces (ob_id e) row new r (run_write clock e w r).2 /\
    ob_attempts row = ob_attempts e /\ (ob_status row = ob_processing \/ ob_status row = ob_submitted) /\
    (if gives_back w true
     then ob_status new = ob_pending /\ ob_attempts new = Z.max 0 (ob_attempts row - 1) /\ ob_status row = ob_processing
     else ob_attempts new = ob_attempts row /\ (ob_status new = ob_processing -> ob_status row = ob_processing)) /\
    (rows_ok r -> ob_id row = ob_id e).
Proof.
  assert (Hgen : forall from patch, (forall s, s ∈ from -> s = ob_processing \/ s = ob_submitted) ->
    fenced e from patch r = (false, r) \/
    exists row, fenced e from patch r = (true, with_rows (set (ob_id e) (patch row) (ob_rows r)) r) /\
      find_row (ob_id e) r = Some row /\ ob_attempts row = ob_attempts e /\ ob_status row ∈ from).
  { intros from patch Hfrom. unfold fenced. destruct (find_row (ob_id e) r) as [row|] eqn:E; [|by left].
    destruct (_ || _) eqn:Eg; [by left|]. bool_norm. right. by exists row. }
  assert (Hnd : forall row, ob_status row = ob_processing \/ ob_status row = ob_submitted -> ~ ob_done row).
  { intros row Hr Hd. unfold ob_done in Hd. in_list Hd; destruct Hr; congruence. }
  destruct w; simpl; unfold recordEnvelope, markSubmitted, markConfirmed, markSimulated, scheduleRetry, markDead, release;
    (match goal with |- context [fenced e ?f ?p r] => destruct (Hgen f p) as [->|(row & -> & Hrow & Ha & Hs)] end;
      [intros s Hs; in_list Hs; tauto|by left|right; exists row; eexists]);
    (assert (Hst : ob_status row = ob_processing \/ ob_status row = ob_submitted) by (in_list Hs; tauto));
    (split; [reflexivity|]; split; [split_and!; [exact Hrow|reflexivity|reflexivity|reflexivity|by apply Hnd]|]);
    (split_and!; try done; try (simpl; congruence); [..|intros Hok; by destruct (proj2 (proj2 Hok) _ _ Hrow)]).
  all: in_list Hs; simpl; congruence.
Qed.

Lemma requeue_spec clock id r :
  requeueDead clock id r = (false, r) \/
  exists row new, replaces id row new r (requeueDead clock id r).2 /\ ob_status new = ob_pending /\
    ob_attempts new = 0 /\ ob_status row = ob_dead.
Proof.
  unfold requeueDead. destruct (find_row id r) as [row|] eqn:E; [|by left].
  destruct (negb _) eqn:Eg; [by left|]. bool_norm. right. eexists row, _.
  split; [split_and!; [done|reflexivity|done|done|]|done].
  unfold ob_done. rewrite Eg. intros Hd. in_list Hd.
Qed.

(** ** Claims *)

(** A row that may be claimed: due, and the first unfinished row of its intent. *)
Definition claimable (e : OutboxEntry) (r : OutboxRepo) : Prop :=
  find_row (ob_id e) r = Some e /\ (ob_status e = ob_pending \/ ob_status e = ob_processing) /\
  forall k a, find_row k r = Some a -> ob_intentId a = ob_intentId e -> ob_num a < ob_num e -> ob_done a.

Lemma is_due_status now e : is_due now e = true -> ob_status e = ob_pending \/ ob_status e = ob_processing.
Proof. unfold is_due. intros H. bool_norm. destruct H as [H|H]; bool_norm; tauto. Qed.

Lemma live_not_done e : ob_status e = ob_pending \/ ob_status e = ob_processing -> ~ ob_done e.
Proof. intros Hs Hd. unfold ob_done in Hd. in_list Hd; destruct Hs; congruence. Qed.

Lemma claim_replaces now lease e r :
  claimable e r ->
  replaces (ob_id e) e (claimed_row now lease e) r (with_rows (set (ob_id e) (claimed_row now lease e) (ob_rows r)) r).
Proof. intros (He & Hs & _). split_and!; try done. by apply live_not_done. Qed.

Lemma claim_rows_ok now lease e r :
  rows_ok r -> claimable e r -> rows_ok (with_rows (set (ob_id e) (claimed_row now lease e) (ob_rows r)) r).
Proof.
  intros Hok Hc. pose proof Hc as (He & _). destruct (proj2 (proj2 Hok) _ _ He) as (_ & _ & Ha & _).
  eapply replaces_ok; [done|by apply claim_replaces|simpl; lia|simpl; lia].
Qed.

(** Walking the sorted rows, [heads] holds the intent of every unfinished row
    already passed, so each row claimed is claimable in the store so far. *)
Lemma claim_loop_ind now limit lease (Q : list OutboxEntry -> OutboxRepo -> Prop) :
  (forall cl r e, rows_ok r -> Q cl r -> claimable e r -> ob_id e ∉ ob_id <$> cl ->
     Q (cl ++ [claimed_row now lease e]) (with_rows (set (ob_id e) (claimed_row now lease e) (ob_rows r)) r)) ->
  forall l heads cl r, rows_ok r -> Q cl r -> (forall k, k ∈ ob_id <$> cl -> k ∉ ob_id <$> l) ->
    StronglySorted (fun a b => ob_num a <= ob_num b) l -> NoDup (ob_id <$> l) ->
    (forall e, e ∈ l -> find_row (ob_id e) r = Some e) ->
    (forall k a, find_row k r = Some a -> ~ ob_done a -> ob_intentId a ∈ heads \/ a ∈ l) ->
    let '(cl', m') := claim_loop now limit lease l heads cl (ob_rows r) in
    rows_ok (with_rows m' r) /\ Q cl' (with_rows m' r).
Proof.
  intros Hstep l. induction l as [|e l IH]; intros heads cl r Hok HQ Hdisj Hsort Hnd Hl Hheads.
  { simpl. by destruct r. }
  inversion_clear Hsort as [|? ? Hsort' Hmin]. rewrite fmap_cons in Hnd. apply NoDup_cons in Hnd as [Hni Hnd].
  assert (Hdisj' : forall k, k ∈ ob_id <$> cl -> k ∉ ob_id <$> l)
    by (intros k Hk Hin; apply (Hdisj k Hk); rewrite fmap_cons; by right).
  assert (Hl' : forall x, x ∈ l -> find_row (ob_id x) r = Some x) by (intros; apply Hl; by right).
  assert (Hskip : forall heads', heads ⊆ heads' -> (ob_done e \/ ob_intentId e ∈ heads') ->
    forall k a, find_row k r = Some a -> ~ ob_done a -> ob_intentId a ∈ heads' \/ a ∈ l).
  { intros heads' Hsub He k a Ha Hd. destruct (Hheads k a Ha Hd) as [|[->|]%elem_of_cons]; [left; auto|naive_solver|auto]. }
  cbn [claim_loop]. destruct (limit <=? _); [by destruct r|].
  case_bool_decide as Hdone; [apply IH; auto; apply Hskip; auto|].
  case_bool_decide as Hseen; [apply IH; auto; apply Hskip; auto|].
  destruct (is_due now e) eqn:Hdue; [|apply IH; auto; apply Hskip; [set_solver|right; by left]].
  assert (Hc : claimable e r).
  { split; [apply Hl; by left|]. split; [by eapply is_due_status|]. intros k a Ha Hi Hlt.
    destruct (decide (ob_status a ∈ OUTBOX_DONE_STATUSES)) as [|Hd]; [done|].
    destruct (Hheads k a Ha Hd) as [Hh|[->|Hin]%elem_of_cons]; [rewrite Hi in Hh; done|lia|].
    pose proof (proj1 (Forall_forall _ _) Hmin a Hin). simpl in *. lia. }
  pose proof (IH (ob_intentId e :: heads) (cl ++ [claimed_row now lease e])
    (with_rows (set (ob_id e) (claimed_row now lease e) (ob_rows r)) r)) as IH'. cbn [ob_rows with_rows] in IH'.
  destruct (claim_loop _ _ _ l _ _ _) as [cl' m']. apply IH'; auto using claim_rows_ok.
  - apply Hstep; [done|done|done|]. intros Hin. apply (Hdisj _ Hin). rewrite fmap_cons. by left.
  - intros k. rewrite fmap_app. intros [Hk|Hk]%elem_of_app; [auto|]. apply list_elem_of_singleton in Hk. simpl in Hk. by subst k.
  - intros x Hx. rewrite (find_row_replaced _ _ _ _ _ _ (claim_replaces now lease e r Hc)).
    rewrite decide_False; [auto|]. intros He. apply Hni. rewrite He. apply list_elem_of_fmap. eauto.
  - intros k a. rewrite (find_row_replaced _ _ _ _ _ _ (claim_replaces now lease e r Hc)).
    case_decide as Hk; [intros [= <-] _; left; by left|]. intros Ha Hd. apply (Hskip (ob_intentId e :: heads)) with k; [set_solver|right; by left|done|done].
Qed.

Lemma ordered_spec r :
  rows_ok r ->
  StronglySorted (fun a b => ob_num a <= ob_num b) (ordered r) /\ NoDup (ob_id <$> ordered r) /\
  (forall e, e ∈ ordered r <-> find_row (ob_id e) r = Some e).
Proof.
  intros (_ & Hwf & Hall). unfold ordered. split_and!.
  - apply sort_by_sorted; intros a b; destruct (Z.ltb_spec (ob_num a) (ob_num b)); lia.
  - rewrite sort_by_perm. replace (ob_id <$> values (ob_rows r)) with (keys (ob_rows r)); [done|].
    unfold values, keys. rewrite <- list_fmap_compose. apply list_fmap_ext. intros n [k e] Hn. simpl.
    symmetry. apply Hall. apply elem_of_get; [done|by eapply list_elem_of_lookup_2].
  - intros e. rewrite elem_of_sort_by. split; [|by apply get_values].
    intros [k Hk]%values_get; [|done]. by destruct (Hall _ _ Hk) as [-> _].
Qed.

Lemma claimDue_ind now limit lease (Q : list OutboxEntry -> OutboxRepo -> Prop) r :
  (forall cl r e, rows_ok r -> Q cl r -> claimable e r -> ob_id e ∉ ob_id <$> cl ->
     Q (cl ++ [claimed_row now lease e]) (with_rows (set (ob_id e) (claimed_row now lease e) (ob_rows r)) r)) ->
  rows_ok r -> Q [] r ->
  rows_ok (claimDue now limit lease r).2 /\ Q (claimDue now limit lease r).1 (claimDue now limit lease r).2.
Proof.
  intros Hstep Hok HQ. destruct (ordered_spec r Hok) as (Hs & Hnd & Hin).
  pose proof (claim_loop_ind now limit lease Q Hstep (ordered r) [] [] r Hok HQ) as H.
  unfold claimDue. destruct (claim_loop _ _ _ _ _ _ _) as [cl m]. apply H; [|done|done|..].
  - intros k Hk. by apply not_elem_of_nil in Hk.
  - intros e. apply Hin.
  - intros k a Ha _. right. apply Hin. destruct (proj2 (proj2 Hok) _ _ Ha) as [<- _]. done.
Qed.

(** The copies a claim hands out are the stored rows, each once. *)
Lemma claimDue_owned now limit lease r :
  rows_ok r ->
  NoDup (ob_id <$> (claimDue now limit lease r).1) /\
  forall e, e ∈ (claimDue now limit lease r).1 ->
    find_row (ob_id e) (claimDue now limit lease r).2 = Some e /\ ob_status e = ob_processing.
Proof.
  intros Hok. apply (claimDue_ind now limit lease (fun cl r => NoDup (ob_id <$> cl) /\
    forall e, e ∈ cl -> find_row (ob_id e) r = Some e /\ ob_status e = ob_processing)); [|done|].
  - intros cl r1 e Hok1 [Hnd Hcl] Hc Hni. split.
    + rewrite fmap_app. apply NoDup_app. split_and!; [done| |apply NoDup_singleton].
      intros k Hk Hk'. apply list_elem_of_singleton in Hk'. simpl in Hk'. by subst k.
    + intros x. rewrite (find_row_replaced _ _ _ _ _ _ (claim_replaces now lease e r1 Hc)).
      intros [Hx|Hx]%elem_of_app.
      * rewrite decide_False; [by apply Hcl|]. intros Hk. apply Hni. rewrite Hk. apply list_elem_of_fmap. eauto.
      * apply list_elem_of_singleton in Hx as ->. by rewrite decide_True.
  - split; [constructor|]. intros e He. by apply not_elem_of_nil in He.
Qed.

(** * Ordering *)

(** No row of an intent has left [pending] while an earlier one is unfinished. *)
Definition in_order (r : OutboxRepo) : Prop :=
  forall a b k k', find_row k r = Some a -> find_row k' r = Some b -> ob_intentId a = ob_intentId b ->
    ob_num a < ob_num b -> ob_status b <> ob_pending -> ob_done a.

Lemma num_same_id e e' : ob_id e = ob_id e' -> ob_num e = ob_num e'.
Proof. unfold ob_num. by intros ->. Qed.

(** Replacing an unfinished row keeps the order when the new row is pending, or
    the old one had already left [pending], or nothing earlier is unfinished. *)
Lemma replaces_in_order k old new r r' :
  in_order r -> replaces k old new r r' ->
  (ob_status new <> ob_pending -> ob_status old <> ob_pending \/ claimable old r) -> in_order r'.
Proof.
  intros Hord Hrep Hnew a b ka kb. rewrite !(find_row_replaced _ _ _ _ _ _ Hrep).
  destruct Hrep as (Hold & _ & Hid & Hint & Hnd). pose proof (num_same_id _ _ Hid) as Hnum.
  destruct (decide (k = ka)) as [<-|]; destruct (decide (k = kb)) as [<-|]; intros Ha Hb Hi Hlt Hs; simplify_eq.
  - lia.
  - exfalso. apply Hnd. eapply (Hord old b); eauto; [congruence|lia].
  - destruct (Hnew Hs) as [Ho|(_ & _ & Hc)]; [eapply (Hord a old); eauto; [congruence|lia]|].
    eapply Hc; [done|congruence|lia].
  - eapply (Hord a b); eauto.
Qed.

Lemma enqueue_spec ne clock r :
  rows_ok r ->
  rows_ok (enqueue ne clock r).2 /\
  (forall k, find_row k (enqueue ne clock r).2 =
     if decide (toString (ob_sequence r + 1) = k) then Some (enqueue ne clock r).1 else find_row k r) /\
  ob_num (enqueue ne clock r).1 = ob_sequence r + 1 /\ ob_status (enqueue ne clock r).1 = ob_pending /\
  find_row (toString (ob_sequence r + 1)) r = None.
Proof.
  intros (Hs & Hwf & Hall).
  assert (Hfind : forall k, find_row k (enqueue ne clock r).2 =
     if decide (toString (ob_sequence r + 1) = k) then Some (enqueue ne clock r).1 else find_row k r)
    by (intros k; unfold find_row; simpl; apply get_set).
  split; [|split; [done|]; split; [unfold ob_num; simpl; by rewrite BigInt_toString|split; [done|]]].
  - split; [simpl; lia|]. split; [by apply set_wf|]. intros k e. rewrite Hfind. case_decide as Hk.
    + intros [= <-]. simpl. split_and!; [done|exists (ob_sequence r + 1); split; [done|lia]|lia|done].
    + intros He. destruct (Hall _ _ He) as (H1 & (n & H2 & H3) & H4 & H5).
      split_and!; [done|exists n; simpl; split; [done|lia]|done|done].
  - destruct (find_row _ r) eqn:E; [|done]. destruct (Hall _ _ E) as (_ & (n & Hn & Hb) & _).
    apply toString_inj in Hn. lia.
Qed.

Lemma num_bound k e r : rows_ok r -> find_row k r = Some e -> ob_num e <= ob_sequence r.
Proof.
  intros Hok He. destruct (proj2 (proj2 Hok) _ _ He) as (Hid & (n & -> & Hn) & _).
  unfold ob_num. rewrite Hid, BigInt_toString. simpl. lia.
Qed.

Lemma enqueue_in_order ne clock r : rows_ok r -> in_order r -> in_order (enqueue ne clock r).2.
Proof.
  intros Hok Hord a b ka kb. destruct (enqueue_spec ne clock r Hok) as (_ & Hf & Hn & Hs & _). rewrite !Hf.
  destruct (decide (_ = ka)); destruct (decide (_ = kb)); intros Ha Hb Hi Hlt Hst; simplify_eq.
  - pose proof (num_bound _ _ _ Hok Hb). lia.
  - eapply (Hord a b); eauto.
Qed.

Lemma ob_step_rows_ok rq s s' : ob_step rq s s' -> rows_ok (os_repo s) -> rows_ok (os_repo s').
Proof.
  intros Hst Hok. destruct Hst as [r h ne clock|r h now limit lease|r h limit|r h1 e h2 clock w|r h1 e h2|r h id clock _];
    simpl in *; try done.
  - by apply enqueue_spec.
  - by apply (claimDue_ind now limit lease (fun _ _ => True)).
  - destruct (run_write_spec clock e w r) as [->|(row & new & _ & Hrep & Ha & Hs & Hnew & _)]; [done|].
    destruct (proj2 (proj2 Hok) _ _ (proj1 Hrep)) as (_ & _ & Ha0 & Hp). eapply replaces_ok; try done.
    + destruct (gives_back w true); destruct Hnew as [? ?]; lia.
    + destruct (gives_back w true); destruct Hnew as [Hn1 Hn2]; [congruence|]. intros Hn. rewrite Hn1. auto.
  - destruct (requeue_spec clock id r) as [->|(row & new & Hrep & Hn & Ha & Hd)]; [done|].
    eapply replaces_ok; try done; [lia|congruence].
Qed.

Lemma ob_step_in_order rq s s' :
  ob_step rq s s' -> rows_ok (os_repo s) -> in_order (os_repo s) -> in_order (os_repo s').
Proof.
  intros Hst Hok Hord. destruct Hst as [r h ne clock|r h now limit lease|r h limit|r h1 e h2 clock w|r h1 e h2|r h id clock _];
    simpl in *; try done.
  - by apply enqueue_in_order.
  - apply (claimDue_ind now limit lease (fun _ r => in_order r)); [|done|done].
    intros cl r1 e1 Hok1 Hord1 Hc _. eapply replaces_in_order; [done|by apply claim_replaces|by right].
  - destruct (run_write_spec clock e w r) as [->|(row & new & _ & Hrep & Ha & Hs & Hnew & _)]; [done|].
    eapply replaces_in_order; [done|done|]. intros _. left. destruct Hs; congruence.
  - destruct (requeue_spec clock id r) as [->|(row & new & Hrep & Hn & Ha & Hd)]; [done|].
    by eapply replaces_in_order.
Qed.

Lemma empty_rows_ok : rows_ok empty_outbox.
Proof. split; [done|]. split; [apply empty_wf|]. intros k e H. discriminate H. Qed.

(** C8. On-chain operations of one intent happen in the order they were
    enqueued: however relay workers, crashes, retries, kill-switch releases and
    operator requeues interleave, a row of the outbox leaves [pending] only
    when every earlier row of the same intent is confirmed or simulated. *)
Theorem outbox_keeps_intent_order s (Hr : rtc (ob_step true) init_ob s) a b ka kb
    (Ha : find_row ka (os_repo s) = Some a) (Hb : find_row kb (os_repo s) = Some b)
    (Hi : ob_intentId a = ob_intentId b) (Hlt : ob_num a < ob_num b) :
  ob_status b = ob_pending \/ ob_status a ∈ OUTBOX_DONE_STATUSES.
Proof.
  assert (Hinv : rows_ok (os_repo s) /\ in_order (os_repo s)).
  { revert Hr. apply (rtc_ind_r (fun s => rows_ok (os_repo s) /\ in_order (os_repo s))).
    - split; [apply empty_rows_ok|]. intros x y k k' H. discriminate H.
    - intros y z _ Hst [IH1 IH2]. split; [by eapply ob_step_rows_ok|by eapply ob_step_in_order]. }
  destruct (decide (ob_status b = ob_pending)) as [|Hs]; [by left|right]. by eapply (proj2 Hinv a b).
Qed.

Definition demo_new (op : OutboxOperation) : NewOutboxEntry :=
  {| ne_intentId := "i1"; ne_operation := op; ne_payload := [] |}.

(** Two operations of one intent; the first is relayed and confirmed, then the
    second is claimed. *)
Definition demo_ob1 : ObSys :=
  {| os_repo := (enqueue (demo_new accept_intent) 10 (enqueue (demo_new create_intent) 0 empty_outbox).2).2; os_held := [] |}.
Definition demo_ob2 : ObSys :=
  {| os_repo := (claimDue 20 8 60020 (os_repo demo_ob1)).2; os_held := (claimDue 20 8 60020 (os_repo demo_ob1)).1 |}.
Definition demo_claim1 : OutboxEntry := claimed_row 20 60020 (enqueue (demo_new create_intent) 0 empty_outbox).1.
Definition demo_ob3 : ObSys :=
  {| os_repo := (run_write 30 demo_claim1 (W_confirmed "tx1") (os_repo demo_ob2)).2; os_held := [demo_claim1] |}.
Definition demo_ob4 : ObSys :=
  {| os_repo := (claimDue 40 8 60040 (os_repo demo_ob3)).2; os_held := [demo_claim1] ++ (claimDue 40 8 60040 (os_repo demo_ob3)).1 |}.

Lemma demo_ob_reached rq : rtc (ob_step rq) init_ob demo_ob2 /\ rtc (ob_step rq) init_ob demo_ob4.
Proof.
  assert (H2 : rtc (ob_step rq) init_ob demo_ob2).
  { eapply rtc_l; [apply (os_enqueue _ _ _ (demo_new create_intent) 0)|].
    eapply rtc_l; [apply (os_enqueue _ _ _ (demo_new accept_intent) 10)|].
    eapply rtc_l; [apply (os_claim _ _ _ 20 8 60020)|]. apply rtc_refl. }
  split; [done|]. etransitivity; [exact H2|].
  eapply rtc_l; [apply (os_write _ _ [] demo_claim1 [] 30 (W_confirmed "tx1"))|].
  eapply rtc_l; [apply (os_claim _ _ _ 40 8 60040)|]. apply rtc_refl.
Qed.

Lemma outbox_keeps_intent_order_witness :
  exists a b, find_row "1" (os_repo demo_ob4) = Some a /\ find_row "2" (os_repo demo_ob4) = Some b /\
    ob_status b = ob_processing /\ ob_status a ∈ OUTBOX_DONE_STATUSES.
Proof.
  eexists _, _. split; [vm_compute; reflexivity|]. split; [vm_compute; reflexivity|]. split; [reflexivity|].
  destruct (outbox_keeps_intent_order demo_ob4 (proj2 (demo_ob_reached true)) _ _ "1" "2"
    ltac:(vm_compute; reflexivity) ltac:(vm_compute; reflexivity) ltac:(vm_compute; reflexivity)
    ltac:(vm_compute; reflexivity)) as [H|H]; [discriminate H|exact H].
Defined.

(** * Fencing *)

(** Copies of row [k] held with token [n]. *)
Definition holders (k : string) (n : Z) (h : list OutboxEntry) : nat :=
  length (filter (fun e => ob_id e = k /\ ob_attempts e = n) h).

(** A held copy names a stored row, its token is not ahead of the row's, and
    while the row is being processed one copy at most has the row's token. *)
Definition fence_ok (h : list OutboxEntry) (r : OutboxRepo) : Prop :=
  Forall (fun e => exists row, find_row (ob_id e) r = Some row /\ ob_attempts e <= ob_attempts row) h /\
  forall k row, find_row k r = Some row -> ob_status row = ob_processing ->
    (holders k (ob_attempts row) h <= 1)%nat.

Lemma holders_app k n h1 h2 : holders k n (h1 ++ h2) = (holders k n h1 + holders k n h2)%nat.
Proof. unfold holders. by rewrite filter_app, length_app. Qed.

Lemma holders_cons k n e h :
  holders k n (e :: h) = ((if decide (ob_id e = k /\ ob_attempts e = n) then 1 else 0) + holders k n h)%nat.
Proof. unfold holders. rewrite filter_cons. by destruct (decide _). Qed.

Lemma holders_none k n h :
  (forall e, e ∈ h -> ob_id e = k -> ob_attempts e <> n) -> holders k n h = 0%nat.
Proof.
  intros H. unfold holders. replace (filter _ h) with (@nil OutboxEntry); [done|]. symmetry.
  induction h as [|e h IH]; [done|]. rewrite filter_cons, decide_False, IH; [done| |].
  - intros x Hx. apply H. by right.
  - intros [Hk Hn]. apply (H e); [by left|done|done].
Qed.

Lemma holders_two k n h i j ei ej :
  h !! i = Some ei -> h !! j = Some ej -> i <> j -> ob_id ei = k -> ob_id ej = k ->
  ob_attempts ei = n -> ob_attempts ej = n -> (2 <= holders k n h)%nat.
Proof.
  intros Hi Hj Hne. revert i j Hi Hj Hne. induction h as [|e h IH]; intros i j Hi Hj Hne Hki Hkj Hni Hnj; [done|].
  assert (Hone : forall m em, h !! m = Some em -> ob_id em = k -> ob_attempts em = n -> (1 <= holders k n h)%nat).
  { clear. intros m em Hm Hk Hn. apply list_elem_of_lookup_2, list_elem_of_split in Hm as (l1 & l2 & ->).
    rewrite holders_app, holders_cons, decide_True by done. lia. }
  rewrite holders_cons. destruct i as [|i], j as [|j]; cbn in Hi, Hj; [done| | |].
  - injection Hi as ->. rewrite decide_True by done. pose proof (Hone _ _ Hj Hkj Hnj). lia.
  - injection Hj as ->. rewrite decide_True by done. pose proof (Hone _ _ Hi Hki Hni). lia.
  - pose proof (IH i j Hi Hj ltac:(congruence) Hki Hkj Hni Hnj). lia.
Qed.

(** Replacing a row keeps the fence when its token does not go down and it is
    not newly being processed. *)
Lemma replaces_fence k old new r r' h :
  fence_ok h r -> replaces k old new r r' ->
  ob_attempts old <= ob_attempts new ->
  (ob_status new = ob_processing -> (holders k (ob_attempts new) h <= 1)%nat) -> fence_ok h r'.
Proof.
  intros [Hall Hone] Hrep Ha Hp. pose proof (fun k' => find_row_replaced _ _ _ _ _ k' Hrep) as Hf.
  split.
  - eapply Forall_impl; [exact Hall|]. intros e (row & Hrow & Hle). rewrite Hf. case_decide as Hk; [|eauto].
    exists new. split; [done|]. destruct Hrep as (Hold & _). rewrite Hk in Hold. simplify_eq. lia.
  - intros k' row. rewrite Hf. case_decide as Hk; [intros [= <-]; subst k'; exact Hp|apply Hone].
Qed.

Lemma fence_add h r e row :
  fence_ok h r -> find_row (ob_id e) r = Some row -> ob_attempts e = ob_attempts row ->
  (ob_status row = ob_processing -> holders (ob_id e) (ob_attempts e) h = 0%nat) -> fence_ok (h ++ [e]) r.
Proof.
  intros [Hall Hone] Hrow Ha Hp. split.
  - apply Forall_app. split; [done|]. apply Forall_singleton. exists row. split; [done|lia].
  - intros k row' Hk Hs. rewrite holders_app, holders_cons. change (holders _ _ []) with 0%nat.
    pose proof (Hone k row' Hk Hs). case_decide as He; [|lia]. destruct He as [<- He].
    simplify_eq. rewrite Ha in Hp. specialize (Hp Hs). lia.
Qed.

Lemma fence_add_submitted r l h :
  fence_ok h r -> Forall (fun e => find_row (ob_id e) r = Some e /\ ob_status e = ob_submitted) l -> fence_ok (h ++ l) r.
Proof.
  intros Hh Hl. revert h Hh. induction Hl as [|e l [He Hs] _ IH]; intros h Hh; [by rewrite app_nil_r|].
  replace (h ++ e :: l) with ((h ++ [e]) ++ l) by (by rewrite <- app_assoc).
  apply IH. eapply fence_add; [done|done|done|congruence].
Qed.

Lemma fence_fewer r h1 e h2 : fence_ok (h1 ++ e :: h2) r -> fence_ok (h1 ++ h2) r.
Proof.
  intros [Hall Hone]. apply Forall_app in Hall as [H1 H2]. apply Forall_cons in H2 as [_ H2].
  split; [by apply Forall_app|]. intros k row Hk Hs. pose proof (Hone k row Hk Hs) as H.
  rewrite holders_app, holders_cons in H. rewrite holders_app. case_decide; lia.
Qed.

Lemma claim_fence now lease h cl r e :
  rows_ok r -> fence_ok (h ++ cl) r -> claimable e r ->
  fence_ok (h ++ cl ++ [claimed_row now lease e]) (with_rows (set (ob_id e) (claimed_row now lease e) (ob_rows r)) r).
Proof.
  intros Hok Hf Hc. rewrite app_assoc. pose proof (claim_replaces now lease e r Hc) as Hrep.
  assert (Hz : holders (ob_id e) (ob_attempts e + 1) (h ++ cl) = 0%nat).
  { apply holders_none. intros x Hx Hid Hatt. destruct (proj1 (Forall_forall _ _) (proj1 Hf) x Hx) as (row & Hrow & Hle).
    rewrite Hid, (proj1 Hc) in Hrow. simplify_eq. lia. }
  eapply fence_add.
  - eapply replaces_fence; [done|done|simpl; lia|simpl; lia].
  - rewrite (find_row_replaced _ _ _ _ _ _ Hrep). by rewrite decide_True.
  - done.
  - done.
Qed.

Lemma write_fence clock e w r h1 h2 :
  rows_ok r -> fence_ok (h1 ++ e :: h2) r ->
  fence_ok (if gives_back w (run_write clock e w r).1 then h1 ++ h2 else h1 ++ e :: h2) (run_write clock e w r).2.
Proof.
  intros Hok Hf. destruct (run_write_spec clock e w r) as [->|(row & new & Hok1 & Hrep & Ha & Hs & Hnew & Hid)].
  { destruct w; by simpl. }
  rewrite Hok1. specialize (Hid Hok). destruct (gives_back w true).
  - destruct Hnew as (Hn1 & Hn2 & Hp). destruct (proj2 (proj2 Hok) _ _ (proj1 Hrep)) as (_ & _ & _ & Hpos).
    specialize (Hpos Hp). pose proof (proj2 Hf _ _ (proj1 Hrep) Hp) as Hone.
    rewrite holders_app, holders_cons, decide_True in Hone by (split; congruence).
    apply fence_fewer in Hf. split.
    + apply Forall_forall. intros x Hx. destruct (proj1 (Forall_forall _ _) (proj1 Hf) x Hx) as (row' & Hrow' & Hle).
      rewrite (find_row_replaced _ _ _ _ _ _ Hrep). case_decide as Hk; [|eauto].
      exists new. split; [done|]. rewrite <- Hk, (proj1 Hrep) in Hrow'. simplify_eq.
      destruct (decide (ob_attempts x = ob_attempts row')) as [He|]; [|lia]. exfalso.
      apply list_elem_of_split in Hx as (g1 & g2 & Hg).
      assert (Hc : holders (ob_id e) (ob_attempts row') (h1 ++ h2) <> 0%nat)
        by (rewrite Hg, holders_app, holders_cons, decide_True by (split; congruence); lia).
      rewrite holders_app in Hc. lia.
    + intros k' row'. rewrite (find_row_replaced _ _ _ _ _ _ Hrep). case_decide; [intros [= <-] Hs'; congruence|apply (proj2 Hf)].
  - destruct Hnew as [Hn1 Hn2]. eapply replaces_fence; [done|done|lia|].
    intros Hn. rewrite Hn1. apply (proj2 Hf); [apply Hrep|auto].
Qed.

Lemma ob_step_fence s s' :
  ob_step false s s' -> rows_ok (os_repo s) -> fence_ok (os_held s) (os_repo s) -> fence_ok (os_held s') (os_repo s').
Proof.
  intros Hst Hok Hf.
  destruct Hst as [r h ne clock|r h now limit lease|r h limit|r h1 e h2 clock w|r h1 e h2|r h id clock [=]]; simpl in *.
  - destruct (enqueue_spec ne clock r Hok) as (_ & Hfind & _ & Hp & Hnone). split.
    + eapply Forall_impl; [apply Hf|]. intros e (row & Hrow & Hle). exists row. rewrite Hfind.
      rewrite decide_False by congruence. done.
    + intros k row. rewrite Hfind. case_decide; [intros Heq Hs'; apply (inj Some) in Heq; congruence|apply (proj2 Hf)].
  - apply (claimDue_ind now limit lease (fun cl r => fence_ok (h ++ cl) r)); [|done|by rewrite app_nil_r].
    intros cl r1 e Hok1 HQ Hc _. by apply claim_fence.
  - apply fence_add_submitted; [done|]. apply Forall_forall. intros e He. unfold findSubmitted, slice in He.
    assert (He' : e ∈ filter (fun e => ob_status e = ob_submitted) (ordered r))
      by (eapply subseteq_drop, subseteq_take; exact He).
    apply list_elem_of_filter in He' as [Hs He']. split; [by apply ordered_spec|done].
  - by apply write_fence.
  - by eapply fence_fewer.
Qed.

(** C21. Fencing: however workers interleave, crash and outlive their leases, as
    long as no operator requeues a dead row, at most one of the copies the
    workers hold of a row being processed can still write it - when one of
    them can, every write attempted through any other copy is refused and
    leaves the outbox as it was. *)
Theorem fence_admits_one_worker s (Hr : rtc (ob_step false) init_ob s) i j ei ej row
    (Hi : os_held s !! i = Some ei) (Hj : os_held s !! j = Some ej) (Hij : i <> j) (Hid : ob_id ei = ob_id ej)
    (Hrow : find_row (ob_id ei) (os_repo s) = Some row) (Hp : ob_status row = ob_processing)
    ci wi (Hwrote : (run_write ci ei wi (os_repo s)).1 = true) cj wj :
  run_write cj ej wj (os_repo s) = (false, os_repo s).
Proof.
  assert (Hinv : rows_ok (os_repo s) /\ fence_ok (os_held s) (os_repo s)).
  { revert Hr. clear. apply (rtc_ind_r (fun s => rows_ok (os_repo s) /\ fence_ok (os_held s) (os_repo s))).
    - split; [apply empty_rows_ok|]. split; [constructor|]. intros k r H. discriminate H.
    - intros y z _ Hst [IH1 IH2]. split; [by eapply ob_step_rows_ok|by eapply ob_step_fence]. }
  destruct (run_write_spec ci ei wi (os_repo s)) as [Hw|(rowi & _ & _ & (Hri & _) & Hai & _)]; [by rewrite Hw in Hwrote|].
  destruct (run_write_spec cj ej wj (os_repo s)) as [|(rowj & _ & _ & (Hrj & _) & Haj & _)]; [done|exfalso].
  rewrite <- Hid in Hrj. assert (rowi = row) as -> by congruence. assert (rowj = row) as -> by congruence.
  pose proof (proj2 (proj2 Hinv) _ _ Hrow Hp) as H1.
  pose proof (holders_two (ob_id ei) (ob_attempts row) _ i j ei ej Hi Hj Hij eq_refl (eq_sym Hid) (eq_sym Hai) (eq_sym Haj)). lia.
Qed.

(** Row 1 is claimed, its lease runs out, and it is claimed again: two workers
    hold it. *)
Definition demo_twice : ObSys :=
  {| os_repo := (claimDue 60021 8 120021 (os_repo demo_ob2)).2;
     os_held := os_held demo_ob2 ++ (claimDue 60021 8 120021 (os_repo demo_ob2)).1 |}.
Definition demo_claim2 : OutboxEntry := claimed_row 60021 120021 demo_claim1.

Lemma fence_admits_one_worker_witness :
  (run_write 60030 demo_claim2 (W_envelope "h") (os_repo demo_twice)).1 = true /\
  run_write 60030 demo_claim1 (W_confirmed "late") (os_repo demo_twice) = (false, os_repo demo_twice).
Proof.
  split; [vm_compute; reflexivity|].
  apply (fence_admits_one_worker demo_twice
    (rtc_r _ _ _ (proj1 (demo_ob_reached false)) (os_claim false _ _ 60021 8 120021))
    1%nat 0%nat demo_claim2 demo_claim1 demo_claim2
    ltac:(vm_compute; reflexivity) ltac:(vm_compute; reflexivity) ltac:(discriminate) ltac:(reflexivity)
    ltac:(vm_compute; reflexivity) ltac:(reflexivity) 60030 (W_envelope "h") ltac:(vm_compute; reflexivity)).
Defined.

(** Requeuing a dead row restarts its attempt counter at 0, so the tokens of
    its earlier claims come back: a worker stalled since the row's first claim
    passes the fence again, and its late write lands while the row is being
    processed by another worker. *)
Theorem requeue_revives_stale_worker :
  let r1 := os_repo demo_ob2 in
  let r2 := (claimDue 60021 8 120021 r1).2 in
  let r3 := (run_write 60030 demo_claim2 (W_dead "poison") r2).2 in
  let r4 := (requeueDead 70000 "1" r3).2 in
  let r5 := (claimDue 70001 8 130001 r4).2 in
  (run_write 60030 demo_claim1 (W_confirmed "late") r2).1 = false /\
  (ob_status <$> find_row "1" r5) = Some ob_processing /\
  (run_write 70002 demo_claim1 (W_confirmed "late") r5).1 = true /\
  (ob_status <$> find_row "1" (run_write 70002 demo_claim1 (W_confirmed "late") r5).2) = Some ob_confirmed.
Proof. vm_compute. repeat split. Qed.
