(* ===== verification/OutboxRelay.v ===== *)
(** The outbox relay: [src/soroban/outbox-relay.service.ts], with the encoder of
    [src/soroban/outbox-operations.ts], [invokeContract] of
    [src/soroban/stellar-tx.service.ts] and the lookups of
    [src/soroban/tx-confirmation.service.ts].

    The Soroban RPC node, the signer and the Stellar SDK are outside: their
    answers are arguments ([Sdk], [InvokeAnswers], [RelayEnv]).  [rw_sent] logs
    every envelope handed to the network, with what the outbox row had recorded
    at that moment. *)
From S2P Require Import Prelude JsMap BigInt IntentTypes StateMachine IntentsRepo Prog SolverFills FillsRepo IntentsService Outbox.
From stdpp Require Import relations.
Local Open Scope Z_scope.
Local Open Scope prog_scope.

(** * Encoding a row as a contract call *)

(** What the SDK's encoders accept. *)
Record Sdk := {
  sdk_address : string -> bool;
  sdk_symbol : string -> bool;
  sdk_i128 : Z -> bool;
  sdk_u64 : Z -> bool;
}.

Inductive ScVal := ScString (s : string) | ScSymbol (s : string) | ScAddress (s : string) | ScI128 (z : Z) | ScU64 (z : Z).

Record InvokeContractParams := { ic_contractId : string; ic_method : OutboxOperation; ic_args : list ScVal }.

Section encode.
Context (sdk : Sdk).

(** [String(value)]; a missing field is [undefined]. *)
Definition js_String (v : option MetaValue) : string :=
  match v with
  | None => "undefined"
  | Some (MStr s) => s
  | Some (MNum n) => toString n
  | Some (MBool b) => if b then "true" else "false"
  | Some MNull => "null"
  end.

Definition sc_str (v : option MetaValue) : outcome string ScVal :=
  Ok (ScString (match v with None | Some MNull => ""%string | Some _ => js_String v end)).

Definition sc_address (v : option MetaValue) : outcome string ScVal :=
  match v with
  | Some (MStr s) =>
      if bool_decide (s = ""%string) then Err "outbox payload is missing a required address"%string
      else if sdk_address sdk s then Ok (ScAddress s) else Err ("Unsupported address type: " +:+ s)
  | _ => Err "outbox payload is missing a required address"%string
  end.

Definition sc_symbol (v : option MetaValue) : outcome string ScVal :=
  if sdk_symbol sdk (js_String v) then Ok (ScSymbol (js_String v)) else Err "invalid symbol"%string.

Definition sc_i128 (v : option MetaValue) : outcome string ScVal :=
  match BigInt (js_String v) with
  | Some z => if sdk_i128 sdk z then Ok (ScI128 z) else Err "value out of range"%string
  | None => Err ("Cannot convert " +:+ js_String v +:+ " to a BigInt")
  end.

(** [nativeToScVal(Number(v), u64)]; the payload builders store numbers. *)
Definition sc_u64 (v : option MetaValue) : outcome string ScVal :=
  match v with
  | Some (MNum z) => if sdk_u64 sdk z then Ok (ScU64 z) else Err "value out of range"%string
  | _ => Err "not a number"%string
  end.

Fixpoint sequence (l : list (outcome string ScVal)) : outcome string (list ScVal) :=
  match l with
  | [] => Ok []
  | x :: l => v ← x; vs ← sequence l; Ok (v :: vs)
  end.

Definition buildOutboxInvocation (e : OutboxEntry) (contract : string) : outcome string InvokeContractParams :=
  let p k := get k (ob_payload e) in
  args ← sequence (match ob_operation e with
    | create_intent => [sc_str (p "intentId"); sc_address (p "user"); sc_symbol (p "srcChain"); sc_str (p "srcTokenAddress");
        sc_i128 (p "srcAmount"); sc_address (p "dstTokenContract"); sc_i128 (p "minDstAmount"); sc_u64 (p "deadline")]
    | accept_intent => [sc_str (p "intentId"); sc_address (p "solver"); sc_u64 (p "fillDeadline")]
    | fill_intent => [sc_str (p "intentId"); sc_address (p "solver"); sc_i128 (p "fillAmount"); sc_str (p "fillTxHash")]
    | cancel_intent => [sc_str (p "intentId"); sc_address (p "user")]
    end%string);
  Ok {| ic_contractId := contract; ic_method := ob_operation e; ic_args := args |}.
End encode.

(** * Looking transactions up *)

(** [getTransaction] answers; [None] where the call throws. *)
Inductive GetTx := GT_SUCCESS | GT_FAILED | GT_NOT_FOUND.
Inductive TxStatus := tx_success | tx_failed | tx_not_found.

Definition check_status (r : GetTx) : TxStatus :=
  match r with GT_SUCCESS => tx_success | GT_FAILED => tx_failed | GT_NOT_FOUND => tx_not_found end.

Inductive ConfirmationStatus := CS_SUCCESS | CS_FAILED | CS_TIMEOUT.

(** One answer per poll until the timeout: a poll that throws or finds nothing
    is repeated. *)
Fixpoint waitForConfirmation (polls : list (option GetTx)) : ConfirmationStatus :=
  match polls with
  | [] => CS_TIMEOUT
  | None :: polls => waitForConfirmation polls
  | Some GT_NOT_FOUND :: polls => waitForConfirmation polls
  | Some GT_SUCCESS :: _ => CS_SUCCESS
  | Some GT_FAILED :: _ => CS_FAILED
  end.

(** * World *)

(** An envelope handed to the network for a row; [snt_recorded] is the row's
    [envelopeHash] in the store at that moment. *)
Record SentEnvelope := { snt_row : string; snt_hash : string; snt_recorded : option string; snt_at : Z }.

Record RelayWorld := {
  rw_outbox : OutboxRepo;
  rw_sent : list SentEnvelope;
  rw_outcomes : list string;
  rw_running : bool;
}.

Inductive RelayError := KillSwitchActive (msg : string) | RelayFailure (msg : string).

Notation RM := (prog RelayWorld RelayError).

Definition set_outbox (r : OutboxRepo) (w : RelayWorld) : RelayWorld :=
  {| rw_outbox := r; rw_sent := rw_sent w; rw_outcomes := rw_outcomes w; rw_running := rw_running w |}.

Definition set_running (b : bool) (w : RelayWorld) : RelayWorld :=
  {| rw_outbox := rw_outbox w; rw_sent := rw_sent w; rw_outcomes := rw_outcomes w; rw_running := b |}.

Definition recordOutboxOutcome (o : string) (w : RelayWorld) : RelayWorld :=
  {| rw_outbox := rw_outbox w; rw_sent := rw_sent w; rw_outcomes := rw_outcomes w ++ [o]; rw_running := rw_running w |}.

Definition log_sent (id hash : string) (at_ : Z) (w : RelayWorld) : RelayWorld :=
  {| rw_outbox := rw_outbox w;
     rw_sent := rw_sent w ++ [{| snt_row := id; snt_hash := hash;
       snt_recorded := row ← find_row id (rw_outbox w); ob_envelopeHash row; snt_at := at_ |}];
     rw_outcomes := rw_outcomes w; rw_running := rw_running w |}.

Definition on_outbox {A} (f : OutboxRepo -> A * OutboxRepo) : RM A :=
  atomic (fun w => ((f (rw_outbox w)).1, set_outbox (f (rw_outbox w)).2 w)).

(** * Invoking the contract *)

Inductive Simulation := sim_ok | sim_restore | sim_error (msg : string) | sim_throws (msg : string).
Inductive Submission := sub_throws (msg : string) | sub_ERROR (msg : string) | sub_sent (hash : string).

(** The answers of the outside world during one invocation. *)
Record InvokeAnswers := {
  ia_paused : option string;
  ia_dryRun : bool;
  ia_sim : Simulation;
  ia_restore : option string;
  ia_resim : Simulation;
  ia_sign : outcome string string;
  ia_submit : Submission;
  ia_polls : list (option GetTx);
}.

Record InvokeResult := { ir_hash : string; ir_success : bool; ir_dryRun : bool }.

Definition throwing {A} (o : option string) (k : RM A) : RM A :=
  match o with Some msg => Throw (RelayFailure msg) | None => k end.

(** Simulate, restoring the footprint at most once. *)
Definition preflight (a : InvokeAnswers) : option string :=
  let plain s := match s with
    | sim_ok => None
    | sim_error msg => Some ("invokeContract simulation failed: " +:+ msg)
    | sim_throws msg => Some msg
    | sim_restore => Some "invokeContract: restorePreamble still present after restore"%string
    end in
  match ia_sim a with
  | sim_restore => match ia_restore a with Some msg => Some msg | None => plain (ia_resim a) end
  | s => plain s
  end.

Definition invokeContract (a : InvokeAnswers) (id : string) (at_ : Z) (beforeSubmit : string -> RM unit) : RM InvokeResult :=
  match ia_paused a with
  | Some msg => Throw (KillSwitchActive msg)
  | None =>
      if ia_dryRun a then Done {| ir_hash := "dry-run-no-hash"; ir_success := false; ir_dryRun := true |}
      else
        throwing (preflight a)
          match ia_sign a with
          | Err msg => Throw (RelayFailure msg)
          | Ok hash =>
              beforeSubmit hash ;;;
              modify (log_sent id hash at_) ;;;
              match ia_submit a with
              | sub_throws msg => Throw (RelayFailure msg)
              | sub_ERROR msg => Throw (RelayFailure ("invokeContract submit failed: " +:+ msg))
              | sub_sent h =>
                  match waitForConfirmation (ia_polls a) with
                  | CS_SUCCESS => Done {| ir_hash := h; ir_success := true; ir_dryRun := false |}
                  | _ => Throw (RelayFailure "invokeContract transaction did not confirm")
                  end
              end
          end
  end.

(** * The relay *)

Record RelaySettings := { rs_batchSize : Z; rs_leaseSeconds : Z; rs_maxAttempts : Z }.

Record RelayEnv := {
  re_settings : RelaySettings;
  re_contract : string;
  re_sdk : Sdk;
  re_check : string -> option GetTx;
  re_invoke : OutboxEntry -> InvokeAnswers;
  re_clock : Z;
}.

Record RelayTickResult := {
  tr_claimed : Z; tr_paused : Z; tr_submitted : Z; tr_simulated : Z; tr_confirmed : Z; tr_retried : Z; tr_dead : Z
}.

Definition no_result : RelayTickResult :=
  {| tr_claimed := 0; tr_paused := 0; tr_submitted := 0; tr_simulated := 0; tr_confirmed := 0; tr_retried := 0; tr_dead := 0 |}.

(** [result.claimed += c], [result.paused += p], ... *)
Definition count_result (c p su si co re de : Z) (t : RelayTickResult) : RelayTickResult :=
  {| tr_claimed := tr_claimed t + c; tr_paused := tr_paused t + p; tr_submitted := tr_submitted t + su;
     tr_simulated := tr_simulated t + si; tr_confirmed := tr_confirmed t + co; tr_retried := tr_retried t + re;
     tr_dead := tr_dead t + de |}.

Definition BASE_BACKOFF_MS : Z := 1000.
Definition MAX_BACKOFF_MS : Z := 300000.
Definition PAUSED_RECHECK_MS : Z := 30000.

Definition backoff (attempts : Z) : Z := Z.min (BASE_BACKOFF_MS * 2 ^ Z.max 0 (attempts - 1)) MAX_BACKOFF_MS.

Section relay.
Context (env : RelayEnv).
Let settings := re_settings env.
Let clock := re_clock env.

(** A write that counts when the fence lets it through. *)
Definition counted (write : OutboxRepo -> bool * OutboxRepo) (o : option string) (upd : RelayTickResult -> RelayTickResult)
    (res : RelayTickResult) : RM RelayTickResult :=
  ok <- on_outbox write;
  if ok : bool then
    match o with Some o => modify (recordOutboxOutcome o) ;;; Done (upd res) | None => Done (upd res) end
  else Done res.

Definition fail (e : OutboxEntry) (error : string) (now : Z) (res : RelayTickResult) : RM RelayTickResult :=
  if rs_maxAttempts settings <=? ob_attempts e then
    counted (markDead clock e error) (Some "dead"%string) (count_result 0 0 0 0 0 0 1) res
  else
    counted (scheduleRetry clock e error (now + backoff (ob_attempts e))) (Some "retry"%string)
      (count_result 0 0 0 0 0 1 0) res.

(** [confirmation.check] *)
Definition check (hash : string) : RM TxStatus :=
  match re_check env hash with
  | Some r => Done (check_status r)
  | None => Throw (RelayFailure "getTransaction failed")
  end.

(** Persist the envelope hash before the broadcast. *)
Definition beforeSubmit (e : OutboxEntry) (hash : string) : RM unit :=
  ok <- on_outbox (recordEnvelope clock e hash);
  if ok : bool then Done tt else Throw (RelayFailure ("lost lease on row " +:+ ob_id e +:+ " before submit")).

Definition submit (e : OutboxEntry) (now : Z) (res : RelayTickResult) : RM RelayTickResult :=
  if bool_decide (re_contract env = ""%string) then Throw (RelayFailure "SETTLEMENT_CONTRACT_ID is not configured")
  else
    match buildOutboxInvocation (re_sdk env) e (re_contract env) with
    | Err msg => Throw (RelayFailure msg)
    | Ok _ =>
        sent <- invokeContract (re_invoke env e) (ob_id e) now (beforeSubmit e);
        if ir_dryRun sent then
          counted (markSimulated clock e) (Some "simulated"%string) (count_result 0 0 0 1 0 0 0) res
        else if ir_success sent then
          counted (markConfirmed clock e (ir_hash sent)) (Some "confirmed"%string) (count_result 0 0 1 0 1 0 0) res
        else counted (markSubmitted clock e (ir_hash sent)) (Some "submitted"%string) (count_result 0 0 1 0 0 0 0) res
    end.

Definition attempt (e : OutboxEntry) (now : Z) (res : RelayTickResult) : RM RelayTickResult :=
  match ob_envelopeHash e with
  | Some h =>
      if bool_decide (h = ""%string) then submit e now res
      else
        previous <- check h;
        match previous with
        | tx_success => counted (markConfirmed clock e h) (Some "confirmed"%string) (count_result 0 0 0 0 1 0 0) res
        | tx_failed => Throw (RelayFailure ("previous envelope " +:+ h +:+ " failed on-chain"))
        | tx_not_found => submit e now res
        end
  | None => submit e now res
  end.

Definition process (e : OutboxEntry) (now : Z) (res : RelayTickResult) : RM RelayTickResult :=
  pcatch (fun err =>
    match err with
    | KillSwitchActive msg =>
        counted (release clock e ("paused by kill-switch: " +:+ msg) (now + PAUSED_RECHECK_MS)) None
          (count_result 0 1 0 0 0 0 0) res
    | RelayFailure msg => fail e msg now res
    end) (attempt e now res).

Definition confirm_one (now : Z) (res : RelayTickResult) (e : OutboxEntry) : RM RelayTickResult :=
  match ob_txHash e with
  | None => Done res
  | Some tx =>
      if bool_decide (tx = ""%string) then Done res
      else match re_check env tx with
           | None => Done res
           | Some r =>
               match check_status r with
               | tx_success => counted (markConfirmed clock e tx) (Some "confirmed"%string) (count_result 0 0 0 0 1 0 0) res
               | tx_failed => fail e ("transaction " +:+ tx +:+ " failed on-chain") now res
               | tx_not_found =>
                   if rs_leaseSeconds settings * 1000 <? now - ob_updatedAt e
                   then fail e ("transaction " +:+ tx +:+ " not found after lease; rebuilding") now res
                   else Done res
               end
           end
  end.

Definition confirmSubmitted (now : Z) (res : RelayTickResult) : RM RelayTickResult :=
  submitted <- reads (fun w => findSubmitted (rs_batchSize settings) (rw_outbox w));
  pfold (confirm_one now) res submitted.

Definition relayDue (now : Z) (res : RelayTickResult) : RM RelayTickResult :=
  claimed <- on_outbox (claimDue now (rs_batchSize settings) (now + rs_leaseSeconds settings * 1000));
  pfold (fun res e => process e now res) (count_result (Z.of_nat (length claimed)) 0 0 0 0 0 0 res) claimed.

(** Overlapping ticks are skipped. *)
Definition tick (now : Z) : RM RelayTickResult :=
  busy <- atomic (fun w => (rw_running w, set_running true w));
  if busy : bool then Done no_result
  else
    pcatch (fun err => modify (set_running false) ;;; Throw err)
      (res <- confirmSubmitted now no_result; res <- relayDue now res; modify (set_running false) ;;; Done res).
End relay.

(** * Settling a claim *)

Lemma backoff_bounds n : 1000 <= backoff n <= 300000.
Proof.
  unfold backoff, BASE_BACKOFF_MS, MAX_BACKOFF_MS.
  pose proof (Z.pow_pos_nonneg 2 (Z.max 0 (n - 1)) ltac:(lia) ltac:(lia)). lia.
Qed.

(** What becomes of a row whose claim [e] was processed at [now]: never left in
    flight; dead only when its attempts are used up; back in the queue with the
    attempt kept and a bounded delay, or, when paused, with the attempt given
    back; finished with the transaction that carried it. *)
Definition settled_claim (env : RelayEnv) (e : OutboxEntry) (now : Z) (row : OutboxEntry) : Prop :=
  match ob_status row with
  | ob_processing => False
  | ob_submitted => False
  | ob_dead => rs_maxAttempts (re_settings env) <= ob_attempts e /\ ob_attempts row = ob_attempts e
  | ob_pending =>
      ob_envelopeHash row = None /\
      ((ia_paused (re_invoke env e) <> None /\ ob_attempts row = Z.max 0 (ob_attempts e - 1) /\
        ob_nextAttemptAt row = now + 30000) \/
       (ob_attempts e < rs_maxAttempts (re_settings env) /\ ob_attempts row = ob_attempts e /\
        now + 1000 <= ob_nextAttemptAt row <= now + 300000))
  | ob_simulated => ia_dryRun (re_invoke env e) = true
  | ob_confirmed =>
      (exists h, ob_envelopeHash e = Some h /\ re_check env h = Some GT_SUCCESS /\ ob_txHash row = Some h) \/
      (exists h, ia_submit (re_invoke env e) = sub_sent h /\ ob_txHash row = Some h /\
         waitForConfirmation (ia_polls (re_invoke env e)) = CS_SUCCESS)
  end.

Section settle.
Context (env : RelayEnv) (e : OutboxEntry) (now : Z).

(** The worker still owns the row. *)
Definition owns_row (w : RelayWorld) : Prop :=
  exists row, find_row (ob_id e) (rw_outbox w) = Some row /\ ob_status row = ob_processing /\ ob_attempts row = ob_attempts e.

(** Broadcasts made since [w]: at most one, of a hash the row had recorded, and
    none when the previous envelope is known to have landed. *)
Definition sent_since (w w' : RelayWorld) : Prop :=
  exists new, rw_sent w' = rw_sent w ++ new /\ (length new <= 1)%nat /\
    Forall (fun s => snt_row s = ob_id e /\ snt_recorded s = Some (snt_hash s)) new /\
    ((exists h, ob_envelopeHash e = Some h /\ h <> ""%string /\ re_check env h = Some GT_SUCCESS) -> new = []).

Definition frame (w w' : RelayWorld) : Prop :=
  rw_running w' = rw_running w /\ sent_since w w' /\
  forall k, k <> ob_id e -> find_row k (rw_outbox w') = find_row k (rw_outbox w).

Definition claim_post (w w' : RelayWorld) : Prop :=
  frame w w' /\ exists row, find_row (ob_id e) (rw_outbox w') = Some row /\ settled_claim env e now row.

Lemma sent_same w w' : rw_sent w' = rw_sent w -> sent_since w w'.
Proof. intros H. exists []. rewrite app_nil_r. split_and!; [done|simpl; lia|constructor|done]. Qed.

(** A write by the owner of the row. *)
Lemma run_owner_write from patch o upd res w :
  owns_row w -> ob_processing ∈ from ->
  exists row w', find_row (ob_id e) (rw_outbox w) = Some row /\ ob_status row = ob_processing /\ ob_attempts row = ob_attempts e /\
    run (counted (fenced e from patch) o upd res) w = (Ok (upd res), w') /\
    find_row (ob_id e) (rw_outbox w') = Some (patch row) /\ rw_sent w' = rw_sent w /\ rw_running w' = rw_running w /\
    forall k, k <> ob_id e -> find_row k (rw_outbox w') = find_row k (rw_outbox w).
Proof.
  intros (row & Hrow & Hs & Ha) Hin.
  assert (Hf : fenced e from patch (rw_outbox w) = (true, with_rows (set (ob_id e) (patch row) (ob_rows (rw_outbox w))) (rw_outbox w))).
  { unfold fenced. rewrite Hrow, Ha, Hs, Z.eqb_refl, bool_decide_eq_true_2 by done. done. }
  exists row. unfold counted. rewrite run_pbind. unfold on_outbox. rewrite run_atomic, Hf.
  destruct o; (eexists; split_and!; [done|done|done|reflexivity|..]); simpl; unfold find_row; simpl; try done;
    try apply get_set_eq; intros k Hk; by apply get_set_ne.
Qed.

Lemma frame_sent w w1 w2 :
  frame w w1 -> rw_sent w2 = rw_sent w1 -> rw_running w2 = rw_running w1 ->
  (forall k, k <> ob_id e -> find_row k (rw_outbox w2) = find_row k (rw_outbox w1)) -> frame w w2.
Proof.
  intros (Hr & (new & Hn & Hl & Hall & Hz) & Hk) Hs Hr2 Hk2. split; [congruence|]. split.
  - exists new. rewrite Hs. split_and!; done.
  - intros k Hne. by rewrite Hk2, Hk.
Qed.

Lemma frame_refl w : frame w w.
Proof. split; [done|]. split; [by apply sent_same|done]. Qed.

(** Settling writes establish the postcondition. *)
Lemma run_settling from patch o upd res w0 w :
  frame w0 w -> owns_row w -> ob_processing ∈ from ->
  (forall row, ob_attempts row = ob_attempts e -> settled_claim env e now (patch row)) ->
  exists w', run (counted (fenced e from patch) o upd res) w = (Ok (upd res), w') /\ claim_post w0 w'.
Proof.
  intros Hfr Ho Hin Hset. destruct (run_owner_write from patch o upd res w Ho Hin) as (row & w' & Hrow & Hs & Ha & Hr & Hrow' & Hsent & Hrun & Hk).
  exists w'. split; [done|]. split; [by eapply frame_sent|]. exists (patch row). split; [done|auto].
Qed.

Lemma run_fail msg res w0 w :
  frame w0 w -> owns_row w -> exists res' w', run (fail env e msg now res) w = (Ok res', w') /\ claim_post w0 w'.
Proof.
  intros Hfr Ho. unfold fail. pose proof (backoff_bounds (ob_attempts e)).
  destruct (Z.leb_spec (rs_maxAttempts (re_settings env)) (ob_attempts e)) as [Hm|Hm].
  - edestruct (run_settling [ob_processing; ob_submitted]) as (w' & Hr & Hp); [exact Hfr|exact Ho|by left| |by eexists _, w'].
    intros row Ha. unfold settled_claim. simpl. done.
  - edestruct (run_settling [ob_processing; ob_submitted]) as (w' & Hr & Hp); [exact Hfr|exact Ho|by left| |by eexists _, w'].
    intros row Ha. unfold settled_claim. simpl. split; [done|]. right. split_and!; [done|done|lia|lia].
Qed.

(** The body of the [try]: settled, or thrown with the row still owned. *)
Definition attempt_post (r : outcome RelayError RelayTickResult * RelayWorld) (w : RelayWorld) : Prop :=
  match r with
  | (Ok _, w') => claim_post w w'
  | (Err err, w') => frame w w' /\ owns_row w' /\
      match err with KillSwitchActive _ => ia_paused (re_invoke env e) <> None | RelayFailure _ => True end
  end.

Lemma run_beforeSubmit hash w :
  owns_row w -> exists w', run (beforeSubmit env e hash) w = (Ok tt, w') /\ owns_row w' /\
    (row ← find_row (ob_id e) (rw_outbox w'); ob_envelopeHash row) = Some hash /\
    rw_sent w' = rw_sent w /\ rw_running w' = rw_running w /\
    forall k, k <> ob_id e -> find_row k (rw_outbox w') = find_row k (rw_outbox w).
Proof.
  intros (row & Hrow & Hs & Ha). unfold beforeSubmit. rewrite run_pbind. unfold on_outbox, recordEnvelope, fenced.
  rewrite run_atomic, Hrow, Ha, Hs, Z.eqb_refl. rewrite bool_decide_eq_true_2 by (by left). simpl.
  eexists. split; [reflexivity|]. unfold owns_row, find_row. simpl. split_and!; try done.
  - eexists. split; [apply get_set_eq|]. done.
  - by rewrite get_set_eq.
  - intros k Hk. by apply get_set_ne.
Qed.

(** One broadcast, of the hash just recorded. *)
Lemma log_sent_frame w w1 hash :
  owns_row w1 -> (row ← find_row (ob_id e) (rw_outbox w1); ob_envelopeHash row) = Some hash ->
  rw_sent w1 = rw_sent w -> rw_running w1 = rw_running w ->
  (forall k, k <> ob_id e -> find_row k (rw_outbox w1) = find_row k (rw_outbox w)) ->
  ~ (exists h, ob_envelopeHash e = Some h /\ h <> ""%string /\ re_check env h = Some GT_SUCCESS) ->
  frame w (log_sent (ob_id e) hash now w1) /\ owns_row (log_sent (ob_id e) hash now w1).
Proof.
  intros Ho Henv Hs Hr Hk Hno. split; [|exact Ho]. split; [done|]. split; [|exact Hk].
  eexists. simpl. rewrite Hs. split; [reflexivity|]. split_and!; [simpl; lia| |intros Hy; by destruct Hno].
  apply Forall_singleton. simpl. split; [done|exact Henv].
Qed.

Lemma run_submit res w :
  owns_row w -> ~ (exists h, ob_envelopeHash e = Some h /\ h <> ""%string /\ re_check env h = Some GT_SUCCESS) ->
  attempt_post (run (submit env e now res) w) w.
Proof.
  intros Ho Hno. assert (Herr : forall msg, attempt_post (Err (RelayFailure msg), w) w)
    by (intros msg; split; [apply frame_refl|done]).
  unfold submit. case_bool_decide; [apply Herr|].
  destruct (buildOutboxInvocation _ _ _); [|apply Herr]. rewrite run_pbind. unfold invokeContract.
  destruct (ia_paused (re_invoke env e)) eqn:Ep; [split; [apply frame_refl|split; [done|by rewrite Ep]]|].
  destruct (ia_dryRun (re_invoke env e)) eqn:Ed.
  { cbn [run ir_dryRun]. unfold markSimulated. edestruct (run_settling [ob_processing]) as (w' & -> & Hp); [apply frame_refl|exact Ho|by left| |exact Hp].
    intros row Ha. exact Ed. }
  unfold throwing. destruct (preflight _); [apply Herr|]. destruct (ia_sign _) as [hash|msg]; [|apply Herr].
  rewrite run_pbind. destruct (run_beforeSubmit hash w Ho) as (w1 & -> & Ho1 & Henv & Hs & Hr & Hk).
  rewrite run_pbind. cbn [run modify].
  destruct (log_sent_frame w w1 hash Ho1 Henv Hs Hr Hk Hno) as [Hfr Ho2].
  destruct (ia_submit (re_invoke env e)) as [msg|msg|h] eqn:Es; [split; [exact Hfr|by split]|split; [exact Hfr|by split]|].
  destruct (waitForConfirmation _) eqn:Ew; [|split; [exact Hfr|by split]|split; [exact Hfr|by split]].
  cbn [run ir_dryRun ir_success ir_hash]. unfold markConfirmed.
  edestruct (run_settling [ob_processing; ob_submitted]) as (w' & -> & Hp); [exact Hfr|exact Ho2|by left| |exact Hp].
  intros row Ha. unfold settled_claim. simpl. right. by exists h.
Qed.

Lemma run_attempt res w : owns_row w -> attempt_post (run (attempt env e now res) w) w.
Proof.
  intros Ho. unfold attempt. destruct (ob_envelopeHash e) as [h|] eqn:Eh.
  2: { apply run_submit; [done|]. intros (h & Hx & _). congruence. }
  case_bool_decide as Hh; [apply run_submit; [done|]; intros (h' & Hx & Hne & _); congruence|].
  rewrite run_pbind. unfold check. destruct (re_check env h) as [[]|] eqn:Ec; cbn [run check_status].
  - unfold markConfirmed. edestruct (run_settling [ob_processing; ob_submitted]) as (w' & -> & Hp); [apply frame_refl|exact Ho|by left| |exact Hp].
    intros row Ha. unfold settled_claim. simpl. left. by exists h.
  - split; [apply frame_refl|done].
  - apply run_submit; [done|]. intros (h' & Hx & _ & Hc). congruence.
  - split; [apply frame_refl|done].
Qed.

Lemma run_process res w :
  owns_row w -> exists res' w', run (process env e now res) w = (Ok res', w') /\ claim_post w w'.
Proof.
  intros Ho. unfold process. rewrite run_pcatch. pose proof (run_attempt res w Ho) as Hp.
  destruct (run (attempt env e now res) w) as [[res'|err] w1]; [by exists res', w1|].
  destruct Hp as (Hfr & Ho1 & He). destruct err as [msg|msg]; [|by apply run_fail].
  edestruct (run_settling [ob_processing]) as (w' & Hr & Hp); [exact Hfr|exact Ho1|by left| |by eexists _, w'].
  intros row Ha. unfold settled_claim. simpl. split; [done|]. left. done.
Qed.
End settle.

(** * A tick *)

Section tick.
Context (env : RelayEnv) (now : Z).

Lemma run_counted_any write o upd res w :
  exists res' w', run (counted write o upd res) w = (Ok res', w') /\
    rw_outbox w' = (write (rw_outbox w)).2 /\ rw_sent w' = rw_sent w /\ rw_running w' = rw_running w.
Proof.
  unfold counted. rewrite run_pbind. unfold on_outbox. rewrite run_atomic.
  destruct (write (rw_outbox w)) as [[] r']; cbn [fst snd]; [destruct o|]; by eexists _, _.
Qed.

(** The confirmation pass always completes and only writes rows through the
    fence. *)
Lemma run_confirm_one res e w :
  rows_ok (rw_outbox w) ->
  exists res' w', run (confirm_one env now res e) w = (Ok res', w') /\ rows_ok (rw_outbox w') /\
    rw_sent w' = rw_sent w /\ rw_running w' = rw_running w.
Proof.
  intros Hok. assert (Hw : forall wr o upd, exists res' w', run (counted (run_write (re_clock env) e wr) o upd res) w = (Ok res', w') /\
    rows_ok (rw_outbox w') /\ rw_sent w' = rw_sent w /\ rw_running w' = rw_running w).
  { intros wr o upd. destruct (run_counted_any (run_write (re_clock env) e wr) o upd res w) as (res' & w' & Hr & Ho & Hs & Hn).
    exists res', w'. split_and!; try done. rewrite Ho.
    by apply (ob_step_rows_ok _ _ _ (os_write false (rw_outbox w) [] e [] (re_clock env) wr)). }
  assert (Hfail : forall msg, exists res' w', run (fail env e msg now res) w = (Ok res', w') /\ rows_ok (rw_outbox w') /\
    rw_sent w' = rw_sent w /\ rw_running w' = rw_running w).
  { intros msg. unfold fail. case_match; [apply (Hw (W_dead msg))|apply (Hw (W_retry msg _))]. }
  assert (Hid : exists res' w', run (Done res : RM RelayTickResult) w = (Ok res', w') /\ rows_ok (rw_outbox w') /\
    rw_sent w' = rw_sent w /\ rw_running w' = rw_running w) by (by exists res, w).
  unfold confirm_one. destruct (ob_txHash e) as [tx|]; [|exact Hid]. case_bool_decide; [exact Hid|].
  destruct (re_check env tx) as [[]|]; cbn [check_status]; [apply (Hw (W_confirmed tx))|apply Hfail| |exact Hid].
  case_match; [apply Hfail|exact Hid].
Qed.

Lemma run_confirmSubmitted res w :
  rows_ok (rw_outbox w) ->
  exists res' w', run (confirmSubmitted env now res) w = (Ok res', w') /\ rows_ok (rw_outbox w') /\
    rw_sent w' = rw_sent w /\ rw_running w' = rw_running w.
Proof.
  intros Hok. unfold confirmSubmitted. rewrite run_pbind. cbn [run reads].
  generalize (findSubmitted (rs_batchSize (re_settings env)) (rw_outbox w)) as l. intros l.
  revert res w Hok. induction l as [|e l IH]; intros res w Hok; cbn [pfold]; [by exists res, w|].
  rewrite run_pbind. destruct (run_confirm_one res e w Hok) as (res1 & w1 & -> & Hok1 & Hs1 & Hr1).
  destruct (IH res1 w1 Hok1) as (res2 & w2 & Hr & Hok2 & Hs2 & Hr2). exists res2, w2. split_and!; congruence || done.
Qed.

(** A broadcast for one of the claims in [l]: recorded first, and not made when
    the row's previous envelope is known to have landed. *)
Definition sound_send (l : list OutboxEntry) (s : SentEnvelope) : Prop :=
  snt_recorded s = Some (snt_hash s) /\
  exists e, e ∈ l /\ snt_row s = ob_id e /\
    forall h, ob_envelopeHash e = Some h -> h <> ""%string -> re_check env h <> Some GT_SUCCESS.

Lemma sound_send_mono l l' s : l ⊆ l' -> sound_send l s -> sound_send l' s.
Proof. intros Hsub (Hr & e & He & H). split; [done|]. exists e. split; [auto|done]. Qed.

(** Processing claims of distinct rows, one after the other. *)
Lemma run_process_all l : forall res w,
  NoDup (ob_id <$> l) -> (forall e, e ∈ l -> owns_row e w) ->
  exists res' w', run (pfold (fun res e => process env e now res) res l) w = (Ok res', w') /\
    rw_running w' = rw_running w /\
    (forall e, e ∈ l -> exists row, find_row (ob_id e) (rw_outbox w') = Some row /\ settled_claim env e now row) /\
    (forall k, k ∉ ob_id <$> l -> find_row k (rw_outbox w') = find_row k (rw_outbox w)) /\
    exists new, rw_sent w' = rw_sent w ++ new /\ Forall (sound_send l) new.
Proof.
  induction l as [|e l IH]; intros res w Hnd Hown; cbn [pfold].
  { exists res, w. split_and!; try done; [intros e He; by apply not_elem_of_nil in He|exists []; by rewrite app_nil_r]. }
  rewrite fmap_cons in Hnd. apply NoDup_cons in Hnd as [Hni Hnd]. rewrite run_pbind.
  destruct (run_process env e now res w) as (res1 & w1 & -> & (Hrun & (new1 & Hs1 & _ & Hrec1 & Hno1) & Hk1) & row & Hrow & Hset);
    [apply Hown; by left|].
  destruct (IH res1 w1 Hnd) as (res2 & w2 & Hr2 & Hrun2 & Hset2 & Hk2 & new2 & Hs2 & Hrec2).
  { intros x Hx. destruct (Hown x) as (rx & Hx1 & Hx2); [by right|]. exists rx. split; [|done].
    rewrite Hk1; [done|]. intros He. apply Hni. rewrite <- He. apply list_elem_of_fmap. eauto. }
  exists res2, w2. split_and!; [done|congruence| | |].
  - intros x [->|Hx]%elem_of_cons; [|auto]. exists row. by rewrite Hk2.
  - intros k Hk. rewrite fmap_cons in Hk. apply not_elem_of_cons in Hk as [Hk1' Hk2']. by rewrite Hk2, Hk1.
  - exists (new1 ++ new2). rewrite Hs2, Hs1, app_assoc. split; [done|]. apply Forall_app. split.
    + apply Forall_forall. intros s Hs. destruct (proj1 (Forall_forall _ _) Hrec1 s Hs) as [Hid Hrec]. split; [done|].
      exists e. split; [by left|]. split; [done|]. intros h Hh Hne Hc.
      rewrite Hno1 in Hs by eauto. by apply not_elem_of_nil in Hs.
    + eapply Forall_impl; [exact Hrec2|]. intros s. apply sound_send_mono. set_solver.
Qed.
End tick.


Definition any_sdk : Sdk :=
  {| sdk_address := fun _ => true; sdk_symbol := fun _ => true; sdk_i128 := fun _ => true; sdk_u64 := fun _ => true |}.

Definition answers (hash : string) (sub : Submission) : InvokeAnswers :=
  {| ia_paused := None; ia_dryRun := false; ia_sim := sim_ok; ia_restore := None; ia_resim := sim_ok;
     ia_sign := Ok hash; ia_submit := sub; ia_polls := [None; Some GT_NOT_FOUND; Some GT_SUCCESS] |}.

Definition demo_relay (check : string -> option GetTx) (a : InvokeAnswers) : RelayEnv :=
  {| re_settings := {| rs_batchSize := 10; rs_leaseSeconds := 60; rs_maxAttempts := 5 |}; re_contract := "C";
     re_sdk := any_sdk; re_check := check; re_invoke := fun _ => a; re_clock := 0 |}.

Definition demo_outbox : OutboxRepo := (enqueue (cancelIntentEntry demo_intent) 0 empty_outbox).2.

Definition demo_relay_world : RelayWorld :=
  {| rw_outbox := demo_outbox; rw_sent := []; rw_outcomes := []; rw_running := false |}.

Lemma demo_outbox_ok : rows_ok demo_outbox.
Proof. apply enqueue_spec, empty_rows_ok. Qed.


(** The envelope hash a row recorded is forgotten by every retry, also when the
    envelope did reach the network.  First, the connection drops while the
    envelope [h1] is submitted: one second later - inside the 30 s for which
    [h1] is valid - the relay signs and sends a second envelope [h2] for the
    same row, although the ledger reports [h1] as included.  Second, a row whose
    worker died after the broadcast is reclaimed while the RPC node is down:
    the failed lookup is taken for a failed attempt, and the next tick sends a
    second envelope. *)
Theorem retry_resends_included_envelope :
  let seen h := Some (if bool_decide (h = "h1"%string) then GT_SUCCESS else GT_NOT_FOUND) in
  let sends w := (fun s => (snt_row s, snt_hash s, snt_at s)) <$> rw_sent w in
  let w1 := (run (tick (demo_relay seen (answers "h1" (sub_throws "socket hang up"))) 0) demo_relay_world).2 in
  let w2 := (run (tick (demo_relay seen (answers "h2" (sub_sent "h2"))) 1000) w1).2 in
  let claimed := (claimDue 0 10 60000 demo_outbox).1 in
  let crashed := log_sent "1" "h1" 0 (set_outbox (foldl (fun r e => (recordEnvelope 0 e "h1" r).2)
                   (claimDue 0 10 60000 demo_outbox).2 claimed) demo_relay_world) in
  let c1 := (run (tick (demo_relay (fun _ => None) (answers "h2" (sub_sent "h2"))) 60001) crashed).2 in
  let c2 := (run (tick (demo_relay seen (answers "h2" (sub_sent "h2"))) 62001) c1).2 in
  sends w2 = [("1", "h1", 0); ("1", "h2", 1000)]%string /\
  sends c2 = [("1", "h1", 0); ("1", "h2", 62001)]%string.
Proof. vm_compute. split; reflexivity. Qed.
