(* ===== verification/CircuitBreaker.v ===== *)
(** Circuit breakers for outgoing requests:
    [src/common/http-egress/circuit-breaker.ts].

    Every operation takes the instant [t] (epoch milliseconds) at which its
    clock reads happen. *)
From S2P Require Import Prelude JsMap.
From stdpp Require Import relations.
Local Open Scope Z_scope.

(** * Data *)

Inductive EgressPurpose := WEBHOOK | RPC | HORIZON | ORACLE | ARCHIVAL | GENERIC.

#[export] Instance EgressPurpose_eq_dec : EqDecision EgressPurpose.
Proof. solve_decision. Defined.

Definition purpose_name (p : EgressPurpose) : string :=
  match p with
  | WEBHOOK => "webhook" | RPC => "rpc" | HORIZON => "horizon"
  | ORACLE => "oracle" | ARCHIVAL => "archival" | GENERIC => "generic"
  end.

Inductive CircuitState := cb_closed | cb_open | cb_half_open.

#[export] Instance CircuitState_eq_dec : EqDecision CircuitState.
Proof. solve_decision. Defined.

Record CircuitBreakerOptions := { cbo_failureThreshold : Z; cbo_successThreshold : Z; cbo_cooldownMs : Z }.

Definition DEFAULT_CIRCUIT_BREAKER_OPTIONS : CircuitBreakerOptions :=
  {| cbo_failureThreshold := 5; cbo_successThreshold := 2; cbo_cooldownMs := 30000 |}.

Record CircuitBreaker := {
  cb_purpose : EgressPurpose;
  cb_hostname : string;
  cb_state : CircuitState;
  cb_failureCount : Z;
  cb_successCount : Z;
  cb_lastTransitionAt : Z;
  cb_lastFailureAt : option Z;
  cb_lastSuccessAt : option Z;
}.

(** A short-circuited request: the state and the time of its last transition. *)
Record CircuitOpenError := { coe_purpose : EgressPurpose; coe_hostname : string; coe_state : CircuitState; coe_lastTransitionAt : Z }.

(** * Operations of one breaker *)

Definition new_breaker (p : EgressPurpose) (h : string) (t : Z) : CircuitBreaker := {|
  cb_purpose := p; cb_hostname := h; cb_state := cb_closed; cb_failureCount := 0; cb_successCount := 0;
  cb_lastTransitionAt := t; cb_lastFailureAt := None; cb_lastSuccessAt := None |}.

Definition counters (f s : Z) (b : CircuitBreaker) : CircuitBreaker := {|
  cb_purpose := cb_purpose b; cb_hostname := cb_hostname b; cb_state := cb_state b; cb_failureCount := f; cb_successCount := s;
  cb_lastTransitionAt := cb_lastTransitionAt b; cb_lastFailureAt := cb_lastFailureAt b; cb_lastSuccessAt := cb_lastSuccessAt b |}.

Definition seen (f s : option Z) (b : CircuitBreaker) : CircuitBreaker := {|
  cb_purpose := cb_purpose b; cb_hostname := cb_hostname b; cb_state := cb_state b;
  cb_failureCount := cb_failureCount b; cb_successCount := cb_successCount b;
  cb_lastTransitionAt := cb_lastTransitionAt b; cb_lastFailureAt := f; cb_lastSuccessAt := s |}.

Definition transitionTo (next : CircuitState) (t : Z) (b : CircuitBreaker) : CircuitBreaker :=
  if bool_decide (cb_state b = next) then b
  else {| cb_purpose := cb_purpose b; cb_hostname := cb_hostname b; cb_state := next;
          cb_failureCount := cb_failureCount b; cb_successCount := cb_successCount b; cb_lastTransitionAt := t;
          cb_lastFailureAt := cb_lastFailureAt b; cb_lastSuccessAt := cb_lastSuccessAt b |}.

Section breaker.
Context (o : CircuitBreakerOptions).

Definition getState (t : Z) (b : CircuitBreaker) : CircuitState * CircuitBreaker :=
  let b' := if bool_decide (cb_state b = cb_open) && (cbo_cooldownMs o <=? t - cb_lastTransitionAt b)
            then transitionTo cb_half_open t b else b in
  (cb_state b', b').

Definition assertRequestAllowed (t : Z) (b : CircuitBreaker) : outcome CircuitOpenError unit * CircuitBreaker :=
  let '(st, b') := getState t b in
  (if bool_decide (st = cb_open)
   then Err {| coe_purpose := cb_purpose b'; coe_hostname := cb_hostname b'; coe_state := st;
               coe_lastTransitionAt := cb_lastTransitionAt b' |}
   else Ok tt, b').

Definition recordSuccess (t : Z) (b : CircuitBreaker) : CircuitBreaker :=
  let b := seen (cb_lastFailureAt b) (Some t) b in
  if bool_decide (cb_state b = cb_half_open) then
    let b := counters (cb_failureCount b) (cb_successCount b + 1) b in
    if cbo_successThreshold o <=? cb_successCount b then transitionTo cb_closed t (counters 0 0 b) else b
  else counters 0 0 b.

Definition recordFailure (t : Z) (b : CircuitBreaker) : CircuitBreaker :=
  let b := seen (Some t) (cb_lastSuccessAt b) b in
  if bool_decide (cb_state b = cb_half_open) then transitionTo cb_open t (counters (cb_failureCount b) 0 b)
  else
    let b := counters (cb_failureCount b + 1) (cb_successCount b) b in
    if cbo_failureThreshold o <=? cb_failureCount b then transitionTo cb_open t b else b.

(** [snapshot()]: the fields, after the lazy transition. *)
Definition snapshot (t : Z) (b : CircuitBreaker) : CircuitBreaker := (getState t b).2.

(** * The registry *)

Definition CircuitBreakerRegistry := jsmap CircuitBreaker.

Definition keyFor (p : EgressPurpose) (h : string) : string := purpose_name p +:+ "::" +:+ toLowerCase h.

Definition getBreaker (p : EgressPurpose) (h : string) (t : Z) (r : CircuitBreakerRegistry) : CircuitBreaker * CircuitBreakerRegistry :=
  match get (keyFor p h) r with
  | Some b => (b, r)
  | None => (new_breaker p h t, set (keyFor p h) (new_breaker p h t) r)
  end.

(** A call on the breaker object of a destination updates it in place. *)
Definition on_breaker {A} (f : CircuitBreaker -> A * CircuitBreaker) (p : EgressPurpose) (h : string) (t : Z)
    (r : CircuitBreakerRegistry) : A * CircuitBreakerRegistry :=
  let '(b, r) := getBreaker p h t r in
  ((f b).1, set (keyFor p h) (f b).2 r).

Definition reg_assertRequestAllowed (p : EgressPurpose) (h : string) (t : Z) := on_breaker (assertRequestAllowed t) p h t.
Definition reg_recordSuccess (p : EgressPurpose) (h : string) (t : Z) := on_breaker (fun b => (tt, recordSuccess t b)) p h t.
Definition reg_recordFailure (p : EgressPurpose) (h : string) (t : Z) := on_breaker (fun b => (tt, recordFailure t b)) p h t.
End breaker.

(** * Specification *)

(** What a breaker promises: closed with the number of failures in a row,
    tripped since an instant, or probing with the number of successes in a
    row. *)
Inductive BreakerSpec := Closed (failures : Z) | Tripped (since : Z) | Probing (successes : Z).

Inductive BreakerEvent := EvAsk | EvSuccess | EvFailure.

Definition spec_step (o : CircuitBreakerOptions) (t : Z) (ev : BreakerEvent) (s : BreakerSpec) : option bool * BreakerSpec :=
  match ev, s with
  | EvAsk, Tripped since => if cbo_cooldownMs o <=? t - since then (Some true, Probing 0) else (Some false, s)
  | EvAsk, _ => (Some true, s)
  | EvSuccess, Closed _ => (None, Closed 0)
  | EvSuccess, Tripped since => (None, s)
  | EvSuccess, Probing n => (None, if cbo_successThreshold o <=? n + 1 then Closed 0 else Probing (n + 1))
  | EvFailure, Closed n => (None, if cbo_failureThreshold o <=? n + 1 then Tripped t else Closed (n + 1))
  | EvFailure, Tripped since => (None, s)
  | EvFailure, Probing _ => (None, Tripped t)
  end.

Fixpoint spec_run (o : CircuitBreakerOptions) (evs : list (Z * BreakerEvent)) (s : BreakerSpec) : list (option bool) * BreakerSpec :=
  match evs with
  | [] => ([], s)
  | (t, ev) :: evs =>
      let '(a, s) := spec_step o t ev s in
      let '(l, s) := spec_run o evs s in (a :: l, s)
  end.

(** The same events on the code's breaker. *)
Definition code_step (o : CircuitBreakerOptions) (t : Z) (ev : BreakerEvent) (b : CircuitBreaker) : option bool * CircuitBreaker :=
  match ev with
  | EvAsk => let '(r, b) := assertRequestAllowed o t b in (Some (is_ok r), b)
  | EvSuccess => (None, recordSuccess o t b)
  | EvFailure => (None, recordFailure o t b)
  end.

Fixpoint code_run (o : CircuitBreakerOptions) (evs : list (Z * BreakerEvent)) (b : CircuitBreaker) : list (option bool) * CircuitBreaker :=
  match evs with
  | [] => ([], b)
  | (t, ev) :: evs =>
      let '(a, b) := code_step o t ev b in
      let '(l, b) := code_run o evs b in (a :: l, b)
  end.

Definition abs (b : CircuitBreaker) : BreakerSpec :=
  match cb_state b with
  | cb_closed => Closed (cb_failureCount b)
  | cb_open => Tripped (cb_lastTransitionAt b)
  | cb_half_open => Probing (cb_successCount b)
  end.

(** Outside [half-open] the success counter is zero. *)
Definition breaker_inv (b : CircuitBreaker) : Prop := cb_state b <> cb_half_open -> cb_successCount b = 0.

Lemma step_refines o t ev b :
  breaker_inv b ->
  breaker_inv (code_step o t ev b).2 /\
  spec_step o t ev (abs b) = ((code_step o t ev b).1, abs (code_step o t ev b).2).
Proof.
  unfold breaker_inv, abs. intros Hinv.
  destruct ev; cbn [code_step]; unfold assertRequestAllowed, getState, recordSuccess, recordFailure, transitionTo;
    destruct (cb_state b) eqn:Es; simpl; rewrite ?Es; simpl;
    repeat (match goal with |- context [?x <=? ?y] => destruct (Z.leb_spec x y) end; simpl; rewrite ?Es; simpl);
    split; try (intros; congruence); try (f_equal; f_equal; lia); try done; try (rewrite Hinv by congruence; done); rewrite ?Es; auto.
Qed.

Lemma run_refines o evs b :
  breaker_inv b -> spec_run o evs (abs b) = ((code_run o evs b).1, abs (code_run o evs b).2).
Proof.
  revert b. induction evs as [|[t ev] evs IH]; intros b Hinv; simpl; [done|].
  destruct (step_refines o t ev b Hinv) as [Hinv' ->]. destruct (code_step o t ev b) as [a b']. simpl in *.
  rewrite IH by done. by destruct (code_run o evs b').
Qed.

Lemma new_breaker_inv p h t : breaker_inv (new_breaker p h t).
Proof. intros _. reflexivity. Qed.


Lemma spec_fails_fast o since evs :
  Forall (fun te => te.1 - since < cbo_cooldownMs o) evs ->
  spec_run o evs (Tripped since) =
    ((fun te => match te.2 with EvAsk => Some false | _ => None end) <$> evs, Tripped since).
Proof.
  induction 1 as [|[t ev] evs Ht _ IH]; [done|]. cbn [spec_run].
  assert (Hst : spec_step o t ev (Tripped since) = (match ev with EvAsk => Some false | _ => None end, Tripped since)).
  { destruct ev; simpl; [|done|done]. destruct (Z.leb_spec (cbo_cooldownMs o) (t - since)); [simpl in Ht; lia|done]. }
  rewrite Hst, IH. done.
Qed.

(** An open breaker fails fast: after a trip, however many requests are
    asked for and whatever late successes or failures of earlier requests are
    reported, every request before the cooldown has elapsed is refused without
    touching the network, and the cooldown is not restarted. *)
Theorem open_breaker_fails_fast o b evs (Hinv : breaker_inv b) (Hopen : cb_state b = cb_open)
    (Hearly : Forall (fun te => te.1 - cb_lastTransitionAt b < cbo_cooldownMs o) evs) :
  (code_run o evs b).1 = (fun te => match te.2 with EvAsk => Some false | _ => None end) <$> evs /\
  cb_state (code_run o evs b).2 = cb_open /\
  cb_lastTransitionAt (code_run o evs b).2 = cb_lastTransitionAt b.
Proof.
  pose proof (run_refines o evs b Hinv) as H. unfold abs at 1 in H. rewrite Hopen, spec_fails_fast in H by done.
  injection H as H1 H2. split; [done|]. unfold abs in H2. by destruct (cb_state (code_run o evs b).2); simplify_eq.
Qed.

Definition tripped_demo : CircuitBreaker :=
  (code_run DEFAULT_CIRCUIT_BREAKER_OPTIONS [(1, EvFailure); (2, EvFailure); (3, EvFailure); (4, EvFailure); (5, EvFailure)]
     (new_breaker RPC "node" 0)).2.

Lemma open_breaker_fails_fast_witness :
  (code_run DEFAULT_CIRCUIT_BREAKER_OPTIONS [(6, EvAsk); (7, EvSuccess); (30004, EvAsk)] tripped_demo).1 =
    [Some false; None; Some false] /\
  (code_run DEFAULT_CIRCUIT_BREAKER_OPTIONS [(30005, EvAsk)] tripped_demo).1 = [Some true].
Proof.
  split; [|reflexivity].
  apply (open_breaker_fails_fast DEFAULT_CIRCUIT_BREAKER_OPTIONS tripped_demo [(6, EvAsk); (7, EvSuccess); (30004, EvAsk)]);
    [intros _; reflexivity|reflexivity|repeat constructor].
Defined.

(** A half-open breaker lets every request through, not one probe at a time. *)
Theorem half_open_admits_everyone o b ts (Hhalf : cb_state b = cb_half_open) :
  (code_run o ((fun t => (t, EvAsk)) <$> ts) b).1 = replicate (length ts) (Some true).
Proof.
  induction ts as [|t ts IH]; [done|]. csimpl. unfold assertRequestAllowed, getState. rewrite Hhalf. simpl. rewrite Hhalf. simpl.
  destruct (code_run o _ b) as [l b'] eqn:E. simpl in *. by rewrite IH.
Qed.

(** ** Destinations *)

Lemma app_inj_len (a a' b b' : string) : String.length a = String.length a' -> a +:+ b = a' +:+ b' -> a = a' /\ b = b'.
Proof.
  revert a'. induction a as [|c a IH]; intros [|c' a'] Hl H; simpl in *; try discriminate; [done|].
  injection H as -> H. injection Hl as Hl. by destruct (IH a' Hl H) as [-> ->].
Qed.

Lemma keyFor_inj p h p' h' : keyFor p h = keyFor p' h' -> p = p' /\ toLowerCase h = toLowerCase h'.
Proof.
  unfold keyFor. intros H. assert (Hp : p = p').
  { destruct p, p'; try reflexivity; simpl in H; discriminate H. }
  subst p'. split; [done|]. apply app_inj_len in H as [_ H]; [|done]. by apply app_inj_len in H as [_ H].
Qed.

(** Destinations do not share breakers: any call on the breaker of one
    (purpose, hostname) pair leaves the breaker of every other pair exactly as
    it was; hostnames are compared without regard to case. *)
Theorem destinations_are_isolated {A} (f : CircuitBreaker -> A * CircuitBreaker) p h t r p' h'
    (Hother : p <> p' \/ toLowerCase h <> toLowerCase h') :
  get (keyFor p' h') (on_breaker f p h t r).2 = get (keyFor p' h') r /\
  get (keyFor p h) (on_breaker f p h t r).2 = Some (f (getBreaker p h t r).1).2.
Proof.
  assert (Hne : keyFor p h <> keyFor p' h') by (intros [-> H]%keyFor_inj; destruct Hother; congruence).
  unfold on_breaker, getBreaker. destruct (get (keyFor p h) r) as [b|] eqn:E; simpl.
  - split; [by apply get_set_ne|apply get_set_eq].
  - rewrite set_set. split; [by apply get_set_ne|apply get_set_eq].
Qed.

Lemma destinations_are_isolated_witness :
  get (keyFor RPC "b.example") (reg_recordFailure DEFAULT_CIRCUIT_BREAKER_OPTIONS RPC "A.example" 1 []).2 = None /\
  cb_failureCount <$> get (keyFor RPC "a.example") (reg_recordFailure DEFAULT_CIRCUIT_BREAKER_OPTIONS RPC "A.example" 1 []).2 = Some 1.
Proof.
  split; [|reflexivity].
  exact (proj1 (destinations_are_isolated (fun b => (tt, recordFailure DEFAULT_CIRCUIT_BREAKER_OPTIONS 1 b)) RPC "A.example" 1 [] RPC "b.example"
    ltac:(right; discriminate))).
Defined.
