(* ===== verification/HttpEgress.v ===== *)
(** Outgoing HTTP: [src/common/http-egress/http-egress.service.ts].

    Addresses are validated on their text; the numeric comparison uses
    JavaScript's signed 32-bit shifts.  The URL parser, the DNS resolver, the
    remote servers and [net.isIPv6] are outside: [EgressEnv] holds their
    answers.  [ew_requests] logs every request with the host it was sent to and
    the address that had been validated for it. *)
From S2P Require Import Prelude JsMap BigInt Prog CircuitBreaker.
From stdpp Require Import relations.
Local Open Scope Z_scope.
Local Open Scope prog_scope.

(** * Numbers *)

(** [ToInt32] and [x << n]. *)
Definition int32 (z : Z) : Z := let m := z mod 2 ^ 32 in if m <? 2 ^ 31 then m else m - 2 ^ 32.
Definition shl (x n : Z) : Z := int32 (Z.shiftl (int32 x) n).

(** The value of the longest prefix of decimal digits; [None] if empty. *)
Fixpoint digits_prefix (acc : option Z) (s : string) : option Z :=
  match s with
  | String c s => if is_digit c then digits_prefix (Some (default 0 acc * 10 + (code c - 48))) s else acc
  | EmptyString => acc
  end.

(** [parseInt(s, 10)]; [None] is [NaN]. *)
Definition parseInt (s : string) : option Z :=
  match trim_start s with
  | String c r =>
      if code c =? 45 then Z.opp <$> digits_prefix None r
      else if code c =? 43 then digits_prefix None r
      else digits_prefix None (String c r)
  | EmptyString => None
  end.

(** * Address validation *)

Definition PRIVATE_IPV4_RANGES : list (string * string) :=
  [("10.0.0.0", "10.255.255.255"); ("172.16.0.0", "172.31.255.255"); ("192.168.0.0", "192.168.255.255")]%string.
Definition METADATA_IPS : list string := ["169.254.169.254"; "169.254.169.253"; "fd00:ec2::254"]%string.
Definition LOOPBACK_IPS : list string := ["127.0.0.0"; "127.0.0.1"; "::1"]%string.

Definition starts_with_zero (s : string) : bool :=
  match s with String c _ => code c =? 48 | EmptyString => false end.

Definition part_ok (part : string) : bool :=
  let len := Z.of_nat (String.length part) in
  if (1 <? len) && starts_with_zero part then false
  else if 3 <? len then false
  else match parseInt part with Some n => (0 <=? n) && (n <=? 255) | None => false end.

Definition normalizeIpAddress (ip : string) : option string :=
  let parts := split_on dot_char ip in
  if negb (Z.of_nat (length parts) =? 4) then None
  else if forallb part_ok parts then Some ip else None.

(** A missing or unreadable part counts as 0 under [<<]; in the last position
    it makes the sum [NaN]. *)
Definition ipToNumber (ip : string) : option Z :=
  let parts := parseInt <$> split_on dot_char ip in
  let part i := default 0 (mjoin (parts !! i)) in
  last_ ← mjoin (parts !! 3%nat);
  Some (shl (part 0%nat) 24 + shl (part 1%nat) 16 + shl (part 2%nat) 8 + last_).

(** Comparisons with [NaN] are false. *)
Definition in_range (n : option Z) (range : string * string) : bool :=
  match n, ipToNumber range.1, ipToNumber range.2 with
  | Some n, Some s, Some e => (s <=? n) && (n <=? e)
  | _, _, _ => false
  end.

Definition validateIpv4Range (ip : string) : outcome string unit :=
  match normalizeIpAddress ip with
  | None => Err ("Invalid IPv4 address: " +:+ ip)
  | Some normalized =>
      let ipNum := ipToNumber normalized in
      if existsb (in_range ipNum) PRIVATE_IPV4_RANGES then Err ("Private IPv4 range blocked: " +:+ ip)
      else if in_range ipNum ("169.254.0.0", "169.254.255.255")%string then Err ("Link-local IPv4 blocked: " +:+ ip)
      else Ok tt
  end.

(** [net.isIPv4]: four decimal octets without leading zeros. *)
Definition isIPv4 (ip : string) : bool :=
  let parts := split_on dot_char ip in
  (length parts =? 4)%nat && forallb (fun p => digits_only p && part_ok p) parts.

Definition validateIpAddress (isIPv6 : string -> bool) (ip : string) : outcome string unit :=
  if bool_decide (ip ∈ LOOPBACK_IPS) || String.prefix "127." ip then Err ("Loopback address blocked: " +:+ ip)
  else if bool_decide (ip ∈ METADATA_IPS) then Err ("Cloud metadata endpoint blocked: " +:+ ip)
  else if bool_decide (ip = "::1"%string) || String.prefix "::ffff:127." ip then Err ("IPv6 loopback blocked: " +:+ ip)
  else if String.prefix "::ffff:" ip then validateIpv4Range (String.substring 7 (String.length ip - 7) ip)
  else if isIPv4 ip then validateIpv4Range ip
  else if isIPv6 ip then
    if String.prefix "fc" ip || String.prefix "fd" ip then Err ("IPv6 private range blocked: " +:+ ip)
    else if String.prefix "fe80:" ip || String.prefix "fe8" ip then Err ("IPv6 link-local blocked: " +:+ ip)
    else Ok tt
  else Ok tt.

Definition endsWith (suffix s : string) : bool :=
  (String.length suffix <=? String.length s)%nat &&
  bool_decide (String.substring (String.length s - String.length suffix) (String.length suffix) s = suffix).

Definition checkAllowlist (hostname : string) (allowlist : list string) : outcome string unit :=
  let allowed a := bool_decide (hostname = a) ||
    (String.prefix "*." a && endsWith (String.substring 1 (String.length a - 1) a) hostname) in
  if existsb allowed allowlist then Ok tt else Err ("Hostname " +:+ hostname +:+ " not in allowlist").

(** * Exactness on IPv4 addresses *)

Definition octet (z : Z) : Prop := 0 <= z <= 255.

Definition dotted (a b c d : Z) : string :=
  toString a +:+ String dot_char (toString b +:+ String dot_char (toString c +:+ String dot_char (toString d))).

(** The addresses that must not be reached: loopback, RFC 1918, link-local. *)
Definition internal_ipv4 (a b : Z) : bool :=
  (a =? 127) || (a =? 10) || ((a =? 172) && (16 <=? b) && (b <=? 31)) || ((a =? 192) && (b =? 168)) ||
  ((a =? 169) && (b =? 254)).

Lemma nodot z : 0 <= z -> all_chars (fun d => negb (bool_decide (dot_char = d))) (toString z) = true.
Proof.
  intros H. pose proof (toString_digits z H) as Hd. unfold digits_only in Hd. bool_norm.
  eapply all_chars_impl; [apply digit_not_dot|done].
Qed.

Lemma split_dotted a b c d : 0 <= a -> 0 <= b -> 0 <= c -> 0 <= d ->
  split_on dot_char (dotted a b c d) = [toString a; toString b; toString c; toString d].
Proof. intros. unfold dotted. rewrite !split_on_one by (by apply nodot). by rewrite split_on_none by (by apply nodot). Qed.

Lemma dotted_inj a b c d a' b' c' d' :
  0 <= a -> 0 <= b -> 0 <= c -> 0 <= d -> 0 <= a' -> 0 <= b' -> 0 <= c' -> 0 <= d' ->
  dotted a b c d = dotted a' b' c' d' -> a = a' /\ b = b' /\ c = c' /\ d = d'.
Proof.
  intros ? ? ? ? ? ? ? ? Heq. apply (f_equal (split_on dot_char)) in Heq. rewrite !split_dotted in Heq by done.
  injection Heq as E1 E2 E3 E4. eauto 10 using toString_inj.
Qed.

(** Facts on the 256 octets, by enumeration. *)
Lemma octet_facts z : octet z ->
  parseInt (toString z) = Some z /\ part_ok (toString z) = true /\ digits_only (toString z) = true.
Proof.
  intros Hz. unfold octet in Hz.
  assert (Hall : forallb (fun z => bool_decide (parseInt (toString z) = Some z) && part_ok (toString z) && digits_only (toString z))
    (Z.of_nat <$> seq 0 256) = true) by (vm_compute; reflexivity).
  rewrite forallb_forall in Hall. specialize (Hall z). bool_norm.
  assert (Hin : In z (Z.of_nat <$> seq 0 256)).
  { apply list_elem_of_In, list_elem_of_fmap. exists (Z.to_nat z). split; [lia|]. apply elem_of_seq. lia. }
  specialize (Hall Hin). bool_norm. done.
Qed.

(** The signed shift of an octet. *)
Lemma shl_octets a b c : octet a -> octet b -> octet c ->
  shl a 24 = a * 2 ^ 24 - (if 128 <=? a then 2 ^ 32 else 0) /\ shl b 16 = b * 2 ^ 16 /\ shl c 8 = c * 2 ^ 8.
Proof.
  unfold octet, shl. intros Ha Hb Hc. assert (Hsmall : forall x, octet x -> int32 x = x).
  { unfold octet, int32. intros x Hx. rewrite Z.mod_small by lia. by rewrite (proj2 (Z.ltb_lt _ _)) by lia. }
  rewrite (Hsmall a Ha), (Hsmall b Hb), (Hsmall c Hc), !Z.shiftl_mul_pow2 by lia. unfold int32.
  rewrite !(Z.mod_small (_ * _)) by lia. destruct (Z.leb_spec 128 a).
  - rewrite (proj2 (Z.ltb_ge (a * 2 ^ 24) _)), !(proj2 (Z.ltb_lt _ _)) by lia. lia.
  - rewrite !(proj2 (Z.ltb_lt _ _)) by lia. lia.
Qed.

Lemma ipToNumber_dotted a b c d : octet a -> octet b -> octet c -> octet d ->
  ipToNumber (dotted a b c d) = Some (a * 2 ^ 24 - (if 128 <=? a then 2 ^ 32 else 0) + b * 2 ^ 16 + c * 2 ^ 8 + d).
Proof.
  intros Ha Hb Hc Hd. unfold ipToNumber. rewrite split_dotted by (unfold octet in *; lia). csimpl.
  destruct (octet_facts a Ha) as [-> _], (octet_facts b Hb) as [-> _], (octet_facts c Hc) as [-> _], (octet_facts d Hd) as [-> _].
  simpl. by destruct (shl_octets a b c Ha Hb Hc) as (-> & -> & ->).
Qed.

Lemma prefix_until c s t rest :
  all_chars (fun d => negb (bool_decide (c = d))) s = true -> all_chars (fun d => negb (bool_decide (c = d))) t = true ->
  String.prefix (s +:+ String c EmptyString) (t +:+ String c rest) = bool_decide (s = t).
Proof.
  revert s. induction t as [|x t IH]; intros [|y s] Hs Ht; simpl in *; bool_norm.
  - destruct (Ascii.ascii_dec c c); [by destruct rest|done].
  - destruct (Ascii.ascii_dec y c); [congruence|done].
  - destruct (Ascii.ascii_dec c x); [congruence|done].
  - destruct (Ascii.ascii_dec y x) as [->|Hne].
    + rewrite IH by done. apply bool_decide_ext. naive_solver.
    + symmetry. apply bool_decide_eq_false_2. congruence.
Qed.

Lemma prefix_first c s x t : c <> x -> String.prefix (String c s) (String x t) = false.
Proof. intros H. simpl. by destruct (Ascii.ascii_dec c x). Qed.

Lemma prefix_colon s a b c d : 0 <= a -> String.prefix (String (Ascii.ascii_of_N 58) s) (dotted a b c d) = false.
Proof.
  intros Ha. unfold dotted. pose proof (toString_digits a Ha) as Hd. unfold digits_only in Hd.
  destruct (toString a) as [|x t]; [done|]. simpl in Hd. bool_norm.
  apply prefix_first. intros <-. by vm_compute in H.
Qed.

(** A range of addresses with a fixed first octet and a range of second ones is
    an interval of the signed numbers too. *)
Lemma in_range_octets a b c d x y1 y2 : octet a -> octet b -> octet c -> octet d -> octet x -> octet y1 -> octet y2 ->
  in_range (ipToNumber (dotted a b c d)) (dotted x y1 0 0, dotted x y2 255 255) = (a =? x) && (y1 <=? b) && (b <=? y2).
Proof.
  intros Ha Hb Hc Hd Hx H1 H2. assert (octet 0) by (unfold octet; lia). assert (octet 255) by (unfold octet; lia).
  unfold in_range. cbn [fst snd]. rewrite !ipToNumber_dotted by done. unfold octet in *.
  apply eq_true_iff_eq. rewrite !andb_true_iff, Z.eqb_eq, !Z.leb_le.
  destruct (Z.leb_spec 128 a), (Z.leb_spec 128 x); lia.
Qed.

Lemma validateIpv4Range_dotted a b c d : octet a -> octet b -> octet c -> octet d ->
  is_ok (validateIpv4Range (dotted a b c d)) =
    negb ((a =? 10) || ((a =? 172) && (16 <=? b) && (b <=? 31)) || ((a =? 192) && (b =? 168)) || ((a =? 169) && (b =? 254))).
Proof.
  intros Ha Hb Hc Hd. unfold validateIpv4Range, normalizeIpAddress. rewrite split_dotted by (unfold octet in *; lia).
  cbn [length forallb]. rewrite (proj2 (Z.eqb_eq _ 4)) by done. cbn [negb].
  destruct (octet_facts a Ha) as (_ & -> & _), (octet_facts b Hb) as (_ & -> & _), (octet_facts c Hc) as (_ & -> & _),
    (octet_facts d Hd) as (_ & -> & _). cbn [andb].
  unfold PRIVATE_IPV4_RANGES. cbn [existsb].
  change ("10.0.0.0", "10.255.255.255")%string with (dotted 10 0 0 0, dotted 10 255 255 255).
  change ("172.16.0.0", "172.31.255.255")%string with (dotted 172 16 0 0, dotted 172 31 255 255).
  change ("192.168.0.0", "192.168.255.255")%string with (dotted 192 168 0 0, dotted 192 168 255 255).
  change ("169.254.0.0", "169.254.255.255")%string with (dotted 169 254 0 0, dotted 169 254 255 255).
  rewrite !in_range_octets by (done || (unfold octet; lia)). unfold octet in *.
  assert (Hs : forall y, (y <=? b) && (b <=? y) = (b =? y)) by (intros y; apply eq_true_iff_eq; rewrite andb_true_iff, Z.eqb_eq, !Z.leb_le; lia).
  rewrite <- !andb_assoc, !Hs, (proj2 (Z.leb_le 0 b)), (proj2 (Z.leb_le b 255)) by lia.
  destruct (a =? 10), (a =? 172), (a =? 192), (a =? 169), (16 <=? b), (b <=? 31), (b =? 168), (b =? 254); reflexivity.
Qed.

(** The address filter is exact on IPv4: of the 2^32 dotted addresses it
    refuses precisely the loopback, RFC 1918 private and link-local ones
    (the cloud metadata endpoints among them) and lets every other through -
    the signed 32-bit shifts that turn addresses from 128.0.0.0 up into
    negative numbers do not move any range boundary. *)
Theorem ipv4_filter_exact isIPv6 a b c d (Ha : 0 <= a <= 255) (Hb : 0 <= b <= 255) (Hc : 0 <= c <= 255) (Hd : 0 <= d <= 255) :
  is_ok (validateIpAddress isIPv6 (dotted a b c d)) = negb (internal_ipv4 a b).
Proof.
  assert (Hip : isIPv4 (dotted a b c d) = true).
  { unfold isIPv4. rewrite split_dotted by lia. cbn [length forallb Nat.eqb].
    destruct (octet_facts a Ha) as (_ & -> & ->), (octet_facts b Hb) as (_ & -> & ->), (octet_facts c Hc) as (_ & -> & ->),
      (octet_facts d Hd) as (_ & -> & ->). done. }
  assert (Hcol : forall s, dotted a b c d <> String (Ascii.ascii_of_N 58) s).
  { intros s Heq. pose proof (prefix_colon EmptyString a b c d ltac:(lia)) as Hp. rewrite Heq in Hp. by destruct s. }
  unfold validateIpAddress.
  change "127."%string with (toString 127 +:+ String dot_char EmptyString).
  replace (String.prefix (toString 127 +:+ String dot_char EmptyString) (dotted a b c d)) with (a =? 127)
    by (unfold dotted; rewrite prefix_until by (apply nodot; lia); apply eq_true_iff_eq; rewrite Z.eqb_eq, bool_decide_eq_true;
        split; [by intros ->|intros H; by apply toString_inj in H]).
  rewrite (prefix_colon ":ffff:127."), (prefix_colon ":ffff:") by lia.
  rewrite (bool_decide_eq_false_2 (_ = "::1"%string)) by apply Hcol. rewrite Hip. cbn [orb].
  unfold internal_ipv4. case_bool_decide as Hl.
  { in_list Hl; [| |by destruct (Hcol ":1"%string)];
      [change "127.0.0.0"%string with (dotted 127 0 0 0) in Hl|change "127.0.0.1"%string with (dotted 127 0 0 1) in Hl];
      apply dotted_inj in Hl as (-> & _); done || lia. }
  destruct (Z.eqb_spec a 127) as [->|Hne]; [done|]. cbn [orb].
  case_bool_decide as Hm; [|rewrite validateIpv4Range_dotted by done; by rewrite <- ?orb_assoc].
  in_list Hm.
  - change "169.254.169.254"%string with (dotted 169 254 169 254) in Hm. apply dotted_inj in Hm as (-> & -> & _); done || lia.
  - change "169.254.169.253"%string with (dotted 169 254 169 253) in Hm. apply dotted_inj in Hm as (-> & -> & _); done || lia.
  - exfalso. apply (f_equal isIPv4) in Hm. rewrite Hip in Hm. discriminate Hm.
Qed.

Lemma ipv4_filter_exact_witness :
  is_ok (validateIpAddress (fun _ => false) (dotted 172 31 0 1)) = false /\
  is_ok (validateIpAddress (fun _ => false) (dotted 172 32 0 1)) = true.
Proof.
  split.
  - rewrite (ipv4_filter_exact (fun _ => false) 172 31 0 1 ltac:(lia) ltac:(lia) ltac:(lia) ltac:(lia)). reflexivity.
  - rewrite (ipv4_filter_exact (fun _ => false) 172 32 0 1 ltac:(lia) ltac:(lia) ltac:(lia) ltac:(lia)). reflexivity.
Defined.

(** * Fetching *)

Record EgressConfig := {
  ec_maxRedirects : nat;
  ec_maxBodySizeBytes : Z;
  ec_allowlist : list string;
  ec_blockPrivateRanges : bool;
  ec_circuitBreaker : CircuitBreakerOptions;
}.

(** A parsed URL: the host it names and the rest of it. *)
Record Url := { u_hostname : string; u_rest : string }.

Inductive Response :=
  | RespThrows (msg : string)
  | Resp (statusCode : Z) (location : option string) (bodyBytes : Z).

Record EgressResponse := { er_statusCode : Z; er_bodyBytes : Z; er_finalUrl : Url; er_ipUsed : string }.

(** [ee_lookup n h] answers the [n]-th DNS query, [ee_respond n u] the [n]-th
    request. *)
Record EgressEnv := {
  ee_parse : string -> option Url;
  ee_resolve : string -> Url -> option Url;
  ee_isIPv6 : string -> bool;
  ee_lookup : nat -> string -> option string;
  ee_respond : nat -> Url -> Response;
  ee_now : Z;
}.

(** A request on the wire: the host of its URL, the [Host] header, and the
    address validated for it. *)
Record SentRequest := { sq_host : string; sq_hostHeader : string; sq_validated : string }.

Record EgressWorld := { ew_breakers : CircuitBreakerRegistry; ew_queries : nat; ew_requests : list SentRequest }.

Inductive EgressError := EgressFailure (msg : string) | CircuitOpen (e : CircuitOpenError).

Notation EM := (prog EgressWorld EgressError).

Section fetch.
Context (cfg : EgressConfig) (env : EgressEnv).
Let opts := ec_circuitBreaker cfg.
Let t := ee_now env.

Definition fails {A} (o : outcome string A) : EM A :=
  match o with Ok a => Done a | Err msg => Throw (EgressFailure msg) end.

Definition on_reg {A} (f : CircuitBreakerRegistry -> A * CircuitBreakerRegistry) : EM A :=
  atomic (fun w => ((f (ew_breakers w)).1,
    {| ew_breakers := (f (ew_breakers w)).2; ew_queries := ew_queries w; ew_requests := ew_requests w |})).

Definition assertClosed (p : EgressPurpose) (h : string) : EM unit :=
  r <- on_reg (reg_assertRequestAllowed opts p h t);
  match r with Ok _ => Done tt | Err e => Throw (CircuitOpen e) end.

Definition lookup_ip (h : string) : EM string :=
  r <- atomic (fun w => (ee_lookup env (ew_queries w) h,
    {| ew_breakers := ew_breakers w; ew_queries := S (ew_queries w); ew_requests := ew_requests w |}));
  match r with Some ip => Done ip | None => Throw (EgressFailure "getaddrinfo ENOTFOUND") end.

Definition resolveAndValidateIp (h : string) : EM string :=
  if isIPv4 h || ee_isIPv6 env h then Done h
  else
    first <- lookup_ip h;
    second <- lookup_ip h;
    if bool_decide (first = second) then Done first
    else Throw (EgressFailure "DNS rebinding detected: IP changed between resolutions").

(** Resolve, and refuse blocked addresses when configured to. *)
Definition validated_address (h : string) : EM string :=
  ip <- resolveAndValidateIp h;
  if ec_blockPrivateRanges cfg then fails (validateIpAddress (ee_isIPv6 env) ip) ;;; Done ip else Done ip.

Definition send (u : Url) (hostHeader ip : string) : EM Response :=
  atomic (fun w => (ee_respond env (length (ew_requests w)) u,
    {| ew_breakers := ew_breakers w; ew_queries := ew_queries w;
       ew_requests := ew_requests w ++ [{| sq_host := u_hostname u; sq_hostHeader := hostHeader; sq_validated := ip |}] |})).

Definition is_redirect (status : Z) : bool := bool_decide (status ∈ [301; 302; 303; 307; 308]).

Definition blame (p : EgressPurpose) (h : string) : EM unit := on_reg (reg_recordFailure opts p h t).

(** The [while] loop: [budget] iterations remain; [base] is the URL the redirects
    are resolved against, [bh] the host of the current breaker. *)
Fixpoint makeRequest (budget : nat) (base : Url) (p : EgressPurpose) (bh : string) (u : Url) (hostHeader ip : string)
    : EM EgressResponse :=
  match budget with
  | O => blame p bh ;;; Throw (EgressFailure "Too many redirects")
  | S budget =>
      assertClosed p bh ;;;
      resp <- send u hostHeader ip;
      match resp with
      | RespThrows msg => blame p bh ;;; Throw (EgressFailure msg)
      | Resp status location bytes =>
          if is_redirect status then
            match location with
            | None => blame p bh ;;; Throw (EgressFailure "Redirect without Location header")
            | Some loc =>
                if bool_decide (loc = ""%string) then blame p bh ;;; Throw (EgressFailure "Redirect without Location header")
                else
                  next <- pcatch (fun _ => blame p bh ;;; Throw (EgressFailure "Invalid redirect URL"))
                    (match ee_resolve env loc base with
                     | None => Throw (EgressFailure "Invalid URL")
                     | Some u' => ip' <- validated_address (u_hostname u'); Done (u', ip')
                     end);
                  makeRequest budget base p (u_hostname next.1) next.1 (u_hostname next.1) next.2
            end
          else
            on_reg (reg_recordSuccess opts p bh t) ;;;
            Done {| er_statusCode := status; er_bodyBytes := bytes; er_finalUrl := u; er_ipUsed := ip |}
      end
  end.

Definition fetch (url : string) (p : EgressPurpose) : EM EgressResponse :=
  match ee_parse env url with
  | None => Throw (EgressFailure "Invalid URL")
  | Some parsed =>
      (if bool_decide (ec_allowlist cfg = []) then Done tt else fails (checkAllowlist (u_hostname parsed) (ec_allowlist cfg))) ;;;
      ip <- validated_address (u_hostname parsed);
      assertClosed p (u_hostname parsed) ;;;
      let requestUrl := {| u_hostname := ip; u_rest := u_rest parsed |} in
      resp <- makeRequest (S (ec_maxRedirects cfg)) requestUrl p (u_hostname parsed) requestUrl (u_hostname parsed) ip;
      if ec_maxBodySizeBytes cfg <? er_bodyBytes resp then Throw (EgressFailure "Response body size exceeds limit") else Done resp
  end.
End fetch.

(** * What reaches the network *)

Section wire.
Context (cfg : EgressConfig) (env : EgressEnv).

(** The address behind a request passed the filter. *)
Definition vetted (q : SentRequest) : Prop :=
  ec_blockPrivateRanges cfg = true -> validateIpAddress (ee_isIPv6 env) (sq_validated q) = Ok tt.

Definition keeps_requests {A} (p : prog EgressWorld EgressError A) : Prop := forall w, ew_requests (run p w).2 = ew_requests w.

Lemma keeps_bind {A B} (k : A -> prog EgressWorld EgressError B) p :
  keeps_requests p -> (forall a, keeps_requests (k a)) -> keeps_requests (pbind k p).
Proof.
  intros Hp Hk w. rewrite run_pbind. specialize (Hp w). destruct (run p w) as [[a|e] w1]; simpl in *; [by rewrite Hk|done].
Qed.

Lemma keeps_reg {A} (f : CircuitBreakerRegistry -> A * CircuitBreakerRegistry) : keeps_requests (on_reg f).
Proof. by intros w. Qed.

Lemma keeps_lookup h : keeps_requests (lookup_ip env h).
Proof. intros w. unfold lookup_ip. rewrite run_pbind, run_atomic. by destruct (ee_lookup env _ h). Qed.

Lemma run_validated h w :
  let r := run (validated_address cfg env h) w in
  ew_requests r.2 = ew_requests w /\
  forall ip, r.1 = Ok ip -> ec_blockPrivateRanges cfg = true -> validateIpAddress (ee_isIPv6 env) ip = Ok tt.
Proof.
  assert (Hr : keeps_requests (resolveAndValidateIp env h)).
  { unfold resolveAndValidateIp. case_match; [by intros w'|]. apply keeps_bind; [apply keeps_lookup|]. intros a.
    apply keeps_bind; [apply keeps_lookup|]. intros b. by case_match. }
  unfold validated_address. rewrite run_pbind. specialize (Hr w).
  destruct (run (resolveAndValidateIp env h) w) as [[ip|e] w1]; simpl in *; [|by split].
  destruct (ec_blockPrivateRanges cfg); [|split; [done|by intros ? _ ?]].
  rewrite run_pbind. destruct (validateIpAddress _ ip) as [[]|] eqn:Ev; simpl; [|by split].
  split; [done|]. by intros ip' [= <-] _.
Qed.

(** At most [budget] requests, every one vetted, the first with the given host. *)
Lemma run_makeRequest budget base p : forall bh u hh ip w,
  (ec_blockPrivateRanges cfg = true -> validateIpAddress (ee_isIPv6 env) ip = Ok tt) ->
  exists new, ew_requests (run (makeRequest cfg env budget base p bh u hh ip) w).2 = ew_requests w ++ new /\
    (length new <= budget)%nat /\ Forall vetted new /\
    forall q, head new = Some q -> sq_host q = u_hostname u /\ sq_validated q = ip.
Proof.
  assert (Hend : forall (w w' : EgressWorld) (q : SentRequest) (n : nat) u ip, ew_requests w' = ew_requests w ++ [q] ->
    sq_validated q = ip -> sq_host q = u_hostname u ->
    (ec_blockPrivateRanges cfg = true -> validateIpAddress (ee_isIPv6 env) ip = Ok tt) ->
    exists new, ew_requests w' = ew_requests w ++ new /\ (length new <= S n)%nat /\ Forall vetted new /\
      forall q, head new = Some q -> sq_host q = u_hostname u /\ sq_validated q = ip).
  { intros w w' q n u ip Hw Hv Hh Hok. exists [q]. split_and!; [done|simpl; lia| |intros ? [= <-]; done].
    apply Forall_singleton. unfold vetted. by rewrite Hv. }
  induction budget as [|budget IH]; intros bh u hh ip w Hip; cbn [makeRequest].
  { exists []. rewrite app_nil_r. split_and!; [done|simpl; lia|constructor|done]. }
  rewrite run_pbind. unfold assertClosed at 1. rewrite run_pbind. unfold on_reg at 1. rewrite run_atomic.
  destruct (reg_assertRequestAllowed _ _ _ _ _) as [[[]|e] r1]; cbn [fst snd run].
  2: { exists []. rewrite app_nil_r. split_and!; [done|simpl; lia|constructor|done]. }
  rewrite run_pbind. unfold send. rewrite run_atomic. cbn [ew_requests ew_breakers ew_queries fst snd].
  destruct (ee_respond _ _ _) as [msg|status location bytes]; [by eapply Hend|].
  destruct (is_redirect status); [|by eapply Hend].
  destruct location as [loc|]; [|by eapply Hend]. case_bool_decide; [by eapply Hend|].
  rewrite run_pbind, run_pcatch. destruct (ee_resolve env loc base) as [u'|]; [|by eapply Hend].
  rewrite run_pbind. match goal with |- context [run (validated_address cfg env (u_hostname u')) ?w0] =>
    pose proof (run_validated (u_hostname u') w0) as [Hreq Hval] end.
  destruct (run (validated_address _ _ _) _) as [[ip'|e] w2]; cbn [fst snd] in Hreq, Hval; [|by eapply Hend].
  cbn [run fst snd]. destruct (IH (u_hostname u') u' (u_hostname u') ip' w2 (Hval ip' eq_refl)) as (new & Hw & Hl & Hall & _).
  eexists (_ :: new). rewrite Hw, Hreq. cbn [ew_requests]. rewrite <- app_assoc. split; [reflexivity|].
  split_and!; [simpl; lia|apply Forall_cons; split; [exact Hip|done]|intros q [= <-]; done].
Qed.
End wire.

(** Every request an outgoing fetch makes was vetted: with private ranges
    blocked, the address resolved for each request of the redirect chain passed
    the filter before the request was sent, the first request goes to that very
    address rather than to the name, and at most one request more than the
    redirect limit is made, whatever the servers and the resolver answer. *)
Theorem fetch_vets_every_request cfg env url p w (Hblock : ec_blockPrivateRanges cfg = true) :
  exists new, ew_requests (run (fetch cfg env url p) w).2 = ew_requests w ++ new /\
    (length new <= S (ec_maxRedirects cfg))%nat /\
    Forall (fun q => validateIpAddress (ee_isIPv6 env) (sq_validated q) = Ok tt) new /\
    forall q, head new = Some q -> sq_host q = sq_validated q.
Proof.
  assert (Hnone : forall w', ew_requests w' = ew_requests w -> exists new, ew_requests w' = ew_requests w ++ new /\
    (length new <= S (ec_maxRedirects cfg))%nat /\ Forall (fun q => validateIpAddress (ee_isIPv6 env) (sq_validated q) = Ok tt) new /\
    forall q, head new = Some q -> sq_host q = sq_validated q).
  { intros w' Hw. exists []. rewrite app_nil_r. split_and!; [done|simpl; lia|constructor|done]. }
  unfold fetch. destruct (ee_parse env url) as [u|]; [|by apply Hnone]. rewrite run_pbind.
  assert (Hallow : (run (if bool_decide (ec_allowlist cfg = []) then Done tt
    else fails (checkAllowlist (u_hostname u) (ec_allowlist cfg))) w).2 = w) by (case_bool_decide; [done|by destruct (checkAllowlist _ _)]).
  destruct (run _ w) as [[[]|e] w0]; simpl in Hallow; subst w0; [|by apply Hnone].
  rewrite run_pbind. pose proof (run_validated cfg env (u_hostname u) w) as [Hreq Hval].
  destruct (run (validated_address _ _ _) w) as [[ip|e] w1]; cbn [fst snd] in *; [|by apply Hnone].
  rewrite run_pbind. unfold assertClosed. rewrite run_pbind. unfold on_reg. rewrite run_atomic.
  destruct (reg_assertRequestAllowed _ _ _ _ _) as [[[]|e] r1]; cbn [fst snd run]; [|by apply Hnone].
  rewrite run_pbind. match goal with |- context [run (makeRequest cfg env ?n ?b p ?bh ?u0 ?hh ip) ?w0] =>
    destruct (run_makeRequest cfg env n b p bh u0 hh ip w0 (Hval ip eq_refl)) as (new & Hw & Hl & Hall & Hh) end.
  exists new. split; [|split_and!; [done| |]].
  - destruct (run (makeRequest _ _ _ _ _ _ _ _ _) _) as [[resp|e] w3]; cbn [fst snd ew_requests] in *; rewrite <- Hreq; [|done].
    by case_match.
  - eapply Forall_impl; [exact Hall|]. intros q Hq. by apply Hq.
  - intros q Hq. destruct (Hh q Hq) as [-> ->]. done.
Qed.

Definition demo_egress (redirects : nat) : EgressConfig := {|
  ec_maxRedirects := redirects; ec_maxBodySizeBytes := 1000; ec_allowlist := ["a.example"%string];
  ec_blockPrivateRanges := true; ec_circuitBreaker := DEFAULT_CIRCUIT_BREAKER_OPTIONS |}.

(** [a.example] redirects to [b.example]; both resolve to public addresses. *)
Definition demo_egress_env : EgressEnv := {|
  ee_parse := fun _ => Some {| u_hostname := "a.example"; u_rest := "/" |};
  ee_resolve := fun loc _ => Some {| u_hostname := loc; u_rest := "/" |};
  ee_isIPv6 := fun _ => false;
  ee_lookup := fun _ h => Some (if bool_decide (h = "a.example"%string) then "93.184.216.34" else "198.51.100.7")%string;
  ee_respond := fun _ u => if bool_decide (u_hostname u = "93.184.216.34"%string) then Resp 302 (Some "b.example"%string) 0 else Resp 200 None 10;
  ee_now := 0 |}.

Definition no_requests : EgressWorld := {| ew_breakers := []; ew_queries := 0; ew_requests := [] |}.

Lemma fetch_vets_every_request_witness :
  exists new, ew_requests (run (fetch (demo_egress 3) demo_egress_env "http://a.example/" RPC) no_requests).2 = [] ++ new /\
    (length new = 2)%nat /\ Forall (fun q => validateIpAddress (ee_isIPv6 demo_egress_env) (sq_validated q) = Ok tt) new.
Proof.
  destruct (fetch_vets_every_request (demo_egress 3) demo_egress_env "http://a.example/" RPC no_requests eq_refl)
    as (new & Hnew & _ & Hall & _).
  exists new. split; [exact Hnew|]. split; [|exact Hall]. vm_compute in Hnew. rewrite <- Hnew. reflexivity.
Defined.

(** A redirect is followed by name: the second request is sent to [b.example],
    which the resolver may answer differently than when its address was vetted,
    and which is not on the allowlist the first host was checked against. *)
Theorem redirect_followed_by_name :
  let w := (run (fetch (demo_egress 3) demo_egress_env "http://a.example/" RPC) no_requests).2 in
  (fun q => (sq_host q, sq_validated q)) <$> ew_requests w =
    [("93.184.216.34", "93.184.216.34"); ("b.example", "198.51.100.7")]%string /\
  checkAllowlist "b.example" (ec_allowlist (demo_egress 3)) = Err "Hostname b.example not in allowlist"%string.
Proof. vm_compute. split; reflexivity. Qed.

(** The redirect limit is charged to the host that was never contacted: five
    fetches that stop at a redirect to [b.example] trip its breaker. *)
Theorem redirect_limit_blames_target :
  let fetch5 := foldl (fun w _ => (run (fetch (demo_egress 0) demo_egress_env "http://a.example/" RPC) w).2) no_requests (seq 0 5) in
  (cb_state <$> get (keyFor RPC "b.example") (ew_breakers fetch5)) = Some cb_open /\
  "b.example"%string ∉ (sq_host <$> ew_requests fetch5) /\
  (cb_state <$> get (keyFor RPC "a.example") (ew_breakers fetch5)) = Some cb_closed.
Proof.
  split; [vm_compute; reflexivity|]. split; [|vm_compute; reflexivity].
  apply (bool_decide_unpack _). vm_compute. exact I.
Qed.
