(* ===== verification/Solvers.v ===== *)
(** The solver service: [src/solvers/solvers.service.ts] over the in-memory
    store of [src/solvers/in-memory-solvers.repository.ts].

    A write reads the record, waits, and saves a changed copy: the boundaries
    between the steps of a [prog] are those waits.  Times are unix seconds. *)
From S2P Require Import Prelude JsMap BigInt IntentTypes Prog.
From stdpp Require Import relations.
Local Open Scope Z_scope.
Local Open Scope prog_scope.

(** * Data *)

Record SolverInventoryEntry := { inv_token : string; inv_chain : SupportedChain; inv_availableAmount : string }.

Record SolverRecord := {
  so_address : string;
  so_name : string;
  so_bondAmount : string;
  so_fillsCompleted : Z;
  so_fillsFailed : Z;
  so_totalVolume : string;
  so_avgFillTime : Z;
  so_isActive : bool;
  so_registeredAt : Z;
  so_lastActiveAt : Z;
  so_supportedChains : list SupportedChain;
  so_supportedTokens : list string;
  so_inventory : option (list SolverInventoryEntry);
  so_delegatedSigners : option (list string);
  so_referredBy : option string;
  so_source : option string;
  so_chainUpdatedLedger : option Z;
}.

Inductive SolverPenaltyState := pen_pending | pen_confirmed | pen_failed.

#[export] Instance SolverPenaltyState_eq_dec : EqDecision SolverPenaltyState.
Proof. solve_decision. Defined.

Record SolverPendingPenalty := {
  pn_intentId : string;
  pn_solverAddress : string;
  pn_detectedAt : Z;
  pn_state : SolverPenaltyState;
  pn_confirmedSlashAmount : option string;
}.

Inductive DisputeStatus := dis_none | dis_disputed | dis_upheld | dis_reversed.

Record SlashDisputeRecord := { sd_submittedAt : Z; sd_reason : string; sd_evidenceReference : option string }.

Record SlashRecord := {
  sl_slashId : string;
  sl_solver : string;
  sl_intentId : string;
  sl_reason : string;
  sl_timestamp : Z;
  sl_disputeStatus : DisputeStatus;
  sl_dispute : option SlashDisputeRecord;
}.

Record SolverState := {
  sv_store : jsmap SolverRecord;
  sv_history : jsmap (list SlashRecord);
  sv_penalties : jsmap SolverPendingPenalty;
  sv_sequence : Z;
  sv_invalidations : Z;
}.

Inductive SolverError := SuspendedByGuardian | SolverBadNumber.

Notation SM := (prog SolverState SolverError).

(** * Writing records *)

Definition put_store (m : jsmap SolverRecord) (s : SolverState) : SolverState :=
  {| sv_store := m; sv_history := sv_history s; sv_penalties := sv_penalties s; sv_sequence := sv_sequence s;
     sv_invalidations := sv_invalidations s |}.
Definition put_history (m : jsmap (list SlashRecord)) (n : Z) (s : SolverState) : SolverState :=
  {| sv_store := sv_store s; sv_history := m; sv_penalties := sv_penalties s; sv_sequence := n;
     sv_invalidations := sv_invalidations s |}.
Definition put_penalty (k : string) (p : SolverPendingPenalty) (s : SolverState) : SolverState :=
  {| sv_store := sv_store s; sv_history := sv_history s; sv_penalties := set k p (sv_penalties s);
     sv_sequence := sv_sequence s; sv_invalidations := sv_invalidations s |}.
Definition invalidate (s : SolverState) : SolverState :=
  {| sv_store := sv_store s; sv_history := sv_history s; sv_penalties := sv_penalties s; sv_sequence := sv_sequence s;
     sv_invalidations := sv_invalidations s + 1 |}.

Definition findByAddress (a : string) : SM (option SolverRecord) := reads (fun s => get a (sv_store s)).

Definition persist (r : SolverRecord) : SM SolverRecord :=
  modify (fun s => put_store (set (so_address r) r (sv_store s)) s) ;;;
  modify invalidate ;;;
  Done r.

(** Changing counters, bond, volume and activity; the rest is kept. *)
Definition with_counters (completed failed : Z) (volume bond : string) (active : bool) (lastActive : Z) (r : SolverRecord)
    : SolverRecord := {|
  so_address := so_address r; so_name := so_name r; so_bondAmount := bond; so_fillsCompleted := completed;
  so_fillsFailed := failed; so_totalVolume := volume; so_avgFillTime := so_avgFillTime r; so_isActive := active;
  so_registeredAt := so_registeredAt r; so_lastActiveAt := lastActive; so_supportedChains := so_supportedChains r;
  so_supportedTokens := so_supportedTokens r; so_inventory := so_inventory r; so_delegatedSigners := so_delegatedSigners r;
  so_referredBy := so_referredBy r; so_source := so_source r; so_chainUpdatedLedger := so_chainUpdatedLedger r |}.

Definition with_activity (active : bool) (lastActive : Z) (r : SolverRecord) : SolverRecord :=
  with_counters (so_fillsCompleted r) (so_fillsFailed r) (so_totalVolume r) (so_bondAmount r) active lastActive r.

Definition with_failed (failed : Z) (r : SolverRecord) : SolverRecord :=
  with_counters (so_fillsCompleted r) failed (so_totalVolume r) (so_bondAmount r) (so_isActive r) (so_lastActiveAt r) r.

(** The read-modify-write shared by the updates of a known solver. *)
Definition modify_solver (a : string) (f : SolverRecord -> SolverRecord) : SM (option SolverRecord) :=
  found <- findByAddress a;
  match found with
  | None => Done None
  | Some r => saved <- persist (f r); Done (Some saved)
  end.

(** * Operations *)

(** [solverSupports]; [upper] is [toUpperCase]. *)
Definition solverSupports (upper : string -> string) (r : SolverRecord) (chain : string) (token : string) : bool :=
  if negb (existsb (fun c => bool_decide (chain_name c = chain)) (so_supportedChains r)) && negb (bool_decide (chain = "*"%string))
  then false
  else existsb (fun t => bool_decide (upper t = upper token)) (so_supportedTokens r).

Record ProfilePatch := {
  pp_name : option string; pp_avgFillTime : option Z;
  pp_supportedChains : option (list SupportedChain); pp_supportedTokens : option (list string)
}.

Definition apply_profile (p : ProfilePatch) (r : SolverRecord) : SolverRecord := {|
  so_address := so_address r; so_name := default (so_name r) (pp_name p); so_bondAmount := so_bondAmount r;
  so_fillsCompleted := so_fillsCompleted r; so_fillsFailed := so_fillsFailed r; so_totalVolume := so_totalVolume r;
  so_avgFillTime := default (so_avgFillTime r) (pp_avgFillTime p); so_isActive := so_isActive r;
  so_registeredAt := so_registeredAt r; so_lastActiveAt := so_lastActiveAt r;
  so_supportedChains := default (so_supportedChains r) (pp_supportedChains p);
  so_supportedTokens := default (so_supportedTokens r) (pp_supportedTokens p); so_inventory := so_inventory r;
  so_delegatedSigners := so_delegatedSigners r; so_referredBy := so_referredBy r; so_source := so_source r;
  so_chainUpdatedLedger := so_chainUpdatedLedger r |}.

Definition solver_update (a : string) (p : ProfilePatch) : SM (option SolverRecord) := modify_solver a (apply_profile p).

(** [register]: counters start at zero, whatever the record held. *)
Definition register (data : SolverRecord) (now : Z) : SM SolverRecord :=
  persist {| so_address := so_address data; so_name := so_name data; so_bondAmount := so_bondAmount data;
    so_fillsCompleted := 0; so_fillsFailed := 0; so_totalVolume := "0"; so_avgFillTime := so_avgFillTime data;
    so_isActive := so_isActive data; so_registeredAt := now; so_lastActiveAt := now;
    so_supportedChains := so_supportedChains data; so_supportedTokens := so_supportedTokens data;
    so_inventory := so_inventory data; so_delegatedSigners := so_delegatedSigners data; so_referredBy := so_referredBy data;
    so_source := so_source data; so_chainUpdatedLedger := so_chainUpdatedLedger data |}.

Definition deregister (a : string) (now : Z) := modify_solver a (with_activity false now).
Definition markLive (a : string) (now : Z) := modify_solver a (with_activity true now).
Definition markOffline (a : string) (now : Z) := modify_solver a (with_activity false now).
Definition deactivate (a : string) (now : Z) := modify_solver a (with_activity false now).

Definition reactivate (suspended : string -> bool) (a : string) : SM (option SolverRecord) :=
  if suspended a then Throw SuspendedByGuardian
  else modify_solver a (fun r => with_activity true (so_lastActiveAt r) r).

Definition registerFromChain (a bond name : string) (active : bool) (chains : list SupportedChain) (tokens : list string)
    (ledger now : Z) : SM SolverRecord :=
  persist {| so_address := a; so_name := name; so_bondAmount := bond; so_fillsCompleted := 0; so_fillsFailed := 0;
    so_totalVolume := "0"; so_avgFillTime := 0; so_isActive := active; so_registeredAt := now; so_lastActiveAt := now;
    so_supportedChains := chains; so_supportedTokens := tokens; so_inventory := None; so_delegatedSigners := None;
    so_referredBy := None; so_source := Some "chain"%string; so_chainUpdatedLedger := Some ledger |}.

Record ChainUpdate := { cu_bondAmount : option string; cu_isActive : option bool; cu_source : option string; cu_ledger : option Z }.

Definition apply_chain (u : ChainUpdate) (now : Z) (r : SolverRecord) : SolverRecord := {|
  so_address := so_address r; so_name := so_name r; so_bondAmount := default (so_bondAmount r) (cu_bondAmount u);
  so_fillsCompleted := so_fillsCompleted r; so_fillsFailed := so_fillsFailed r; so_totalVolume := so_totalVolume r;
  so_avgFillTime := so_avgFillTime r; so_isActive := default (so_isActive r) (cu_isActive u);
  so_registeredAt := so_registeredAt r; so_lastActiveAt := now; so_supportedChains := so_supportedChains r;
  so_supportedTokens := so_supportedTokens r; so_inventory := so_inventory r; so_delegatedSigners := so_delegatedSigners r;
  so_referredBy := so_referredBy r; so_source := match cu_source u with Some s => Some s | None => so_source r end;
  so_chainUpdatedLedger := match cu_ledger u with Some l => Some l | None => so_chainUpdatedLedger r end |}.

Definition applyChainUpdate (a : string) (u : ChainUpdate) (now : Z) := modify_solver a (apply_chain u now).

(** A fill amount that is not an integer leaves the volume as it was. *)
Definition add_volume (volume : string) (fillAmount : option string) : string :=
  match fillAmount with
  | None => volume
  | Some f => match BigInt volume, BigInt f with Some v, Some x => toString (v + x) | _, _ => volume end
  end.

Definition recordSuccessfulFill (a : string) (fillAmount : option string) (now : Z) : SM (option SolverRecord) :=
  modify_solver a (fun r =>
    with_counters (so_fillsCompleted r + 1) (so_fillsFailed r) (add_volume (so_totalVolume r) fillAmount)
      (so_bondAmount r) (so_isActive r) now r).

Definition recordFailedFill (a intentId : string) (now : Z) : SM (option SolverRecord) :=
  found <- findByAddress a;
  match found with
  | None => Done None
  | Some r =>
      saved <- persist (with_failed (so_fillsFailed r + 1) r);
      modify (put_penalty intentId {| pn_intentId := intentId; pn_solverAddress := a; pn_detectedAt := now;
        pn_state := pen_pending; pn_confirmedSlashAmount := None |}) ;;;
      Done (Some saved)
  end.

Definition resolve_penalty (p : SolverPendingPenalty) (st : SolverPenaltyState) (amount : option string) : SolverPendingPenalty :=
  {| pn_intentId := pn_intentId p; pn_solverAddress := pn_solverAddress p; pn_detectedAt := pn_detectedAt p;
     pn_state := st; pn_confirmedSlashAmount := amount |}.

Definition confirmPenalty (intentId slashAmount : string) : SM (option SolverRecord) :=
  penalty <- reads (fun s => get intentId (sv_penalties s));
  match penalty with
  | None => Done None
  | Some p =>
      if negb (bool_decide (pn_state p = pen_pending)) then Done None
      else
        found <- findByAddress (pn_solverAddress p);
        match found with
        | None => Done None
        | Some r =>
            match BigInt (so_bondAmount r), BigInt slashAmount with
            | Some current, Some slash =>
                let newBond := if slash <? current then current - slash else 0 in
                saved <- persist (with_counters (so_fillsCompleted r) (so_fillsFailed r) (so_totalVolume r)
                                    (toString newBond) (so_isActive r) (so_lastActiveAt r) r);
                modify (put_penalty intentId (resolve_penalty p pen_confirmed (Some slashAmount))) ;;;
                Done (Some saved)
            | _, _ => Throw SolverBadNumber
            end
        end
  end.

Definition rollbackPenalty (intentId : string) (solverAddress : option string) : SM (option SolverRecord) :=
  penalty <- reads (fun s => get intentId (sv_penalties s));
  match penalty with
  | None =>
      if truthy_str solverAddress then
        modify_solver (default ""%string solverAddress) (fun r => with_failed (Z.max 0 (so_fillsFailed r - 1)) r)
      else Done None
  | Some p =>
      if negb (bool_decide (pn_state p = pen_pending)) then Done None
      else
        found <- findByAddress (pn_solverAddress p);
        match found with
        | None => Done None
        | Some r =>
            saved <- persist (with_failed (Z.max 0 (so_fillsFailed r - 1)) r);
            modify (put_penalty intentId (resolve_penalty p pen_failed (pn_confirmedSlashAmount p))) ;;;
            Done (Some saved)
        end
  end.

Definition recordSlash (a intentId reason : string) (timestamp : Z) : SM (option SlashRecord) :=
  found <- findByAddress a;
  match found with
  | None => Done None
  | Some _ =>
      atomic (fun s =>
        let record := {| sl_slashId := "slash-" +:+ toString (sv_sequence s + 1); sl_solver := a; sl_intentId := intentId;
          sl_reason := reason; sl_timestamp := timestamp; sl_disputeStatus := dis_none; sl_dispute := None |} in
        (Some record, put_history (set a (default [] (get a (sv_history s)) ++ [record]) (sv_history s)) (sv_sequence s + 1) s))
  end.

Definition getSlashHistory (a : string) (page pageSize : Z) (s : SolverState) : list SlashRecord * Z :=
  let sorted := sort_by (fun x y => sl_timestamp y - sl_timestamp x) (default [] (get a (sv_history s))) in
  let start := (page - 1) * pageSize in
  (slice start (start + pageSize) sorted, Z.of_nat (length sorted)).

Definition getSlash (slashId : string) (s : SolverState) : option SlashRecord :=
  snd <$> list_find (fun r => sl_slashId r = slashId) (concat (values (sv_history s))).

(** The record is changed in place, in the solver's list. *)
Fixpoint update_first (id : string) (f : SlashRecord -> SlashRecord) (l : list SlashRecord) : option (SlashRecord * list SlashRecord) :=
  match l with
  | [] => None
  | r :: l =>
      if bool_decide (sl_slashId r = id) then Some (f r, f r :: l)
      else '(x, l') ← update_first id f l; Some (x, r :: l')
  end.

Definition change_slash (a slashId : string) (f : SlashRecord -> SlashRecord) (s : SolverState) : option SlashRecord * SolverState :=
  match update_first slashId f (default [] (get a (sv_history s))) with
  | None => (None, s)
  | Some (r, l) => (Some r, put_history (set a l (sv_history s)) (sv_sequence s) s)
  end.

Definition with_dispute (st : DisputeStatus) (d : option SlashDisputeRecord) (r : SlashRecord) : SlashRecord :=
  {| sl_slashId := sl_slashId r; sl_solver := sl_solver r; sl_intentId := sl_intentId r; sl_reason := sl_reason r;
     sl_timestamp := sl_timestamp r; sl_disputeStatus := st; sl_dispute := d |}.

Definition submitDispute (a slashId reason : string) (evidence : option string) (now : Z) : SolverState -> option SlashRecord * SolverState :=
  change_slash a slashId (with_dispute dis_disputed
    (Some {| sd_submittedAt := now; sd_reason := reason; sd_evidenceReference := evidence |})).

Definition resolveDispute (a slashId : string) (reversed : bool) (reviewer note : option string) (now : Z)
    : SolverState -> option SlashRecord * SolverState :=
  change_slash a slashId (fun r =>
    with_dispute (if reversed then dis_reversed else dis_upheld)
      (match sl_dispute r with
       | Some d => Some d
       | None => Some {| sd_submittedAt := now; sd_reason := default "manual review"%string note;
           sd_evidenceReference := if truthy_str reviewer then (fun x => "reviewer:" +:+ x) <$> reviewer else None |}
       end) r).

(** * Penalties settle once *)

(** What later resolves a penalty: the slash event, or the saga's rollback. *)
Inductive PenaltyOp := PConfirm (slashAmount : string) | PRollback (solver : option string).

Definition run_penalty (id : string) (s : SolverState) (op : PenaltyOp) : SolverState :=
  match op with
  | PConfirm amount => (run (confirmPenalty id amount) s).2
  | PRollback a => (run (rollbackPenalty id a) s).2
  end.

Lemma resolved_penalty_inert id s op p :
  get id (sv_penalties s) = Some p -> pn_state p <> pen_pending -> run_penalty id s op = s.
Proof.
  intros Hp Hs. destruct op; simpl; rewrite Hp; simpl; rewrite bool_decide_eq_false_2 by done; reflexivity.
Qed.

Lemma resolved_penalty_inert_all id ops s p :
  get id (sv_penalties s) = Some p -> pn_state p <> pen_pending -> foldl (run_penalty id) s ops = s.
Proof.
  intros Hp Hs. induction ops as [|op ops IH]; simpl; [done|]. by rewrite (resolved_penalty_inert id s op p).
Qed.

Lemma run_failed a id now s r :
  get a (sv_store s) = Some r -> so_address r = a ->
  let s1 := (run (recordFailedFill a id now) s).2 in
  get a (sv_store s1) = Some (with_failed (so_fillsFailed r + 1) r) /\
  get id (sv_penalties s1) = Some {| pn_intentId := id; pn_solverAddress := a; pn_detectedAt := now;
    pn_state := pen_pending; pn_confirmedSlashAmount := None |}.
Proof.
  intros Hr Ha. unfold recordFailedFill, findByAddress, persist. simpl. rewrite Hr. simpl. rewrite Ha, !get_set_eq. done.
Qed.

Lemma with_failed_id r n : with_failed (so_fillsFailed r) (with_failed n r) = r.
Proof. by destruct r. Qed.

(** A missed fill is penalised once and settled once: rolling the penalty
    back gives the solver's record back exactly, confirming it lowers the bond
    by the slashed amount and never below zero, and after either every further
    confirmation or rollback for that intent changes nothing. *)
Theorem penalty_settles_once a id now amount s r bond slash ops
    (Hr : get a (sv_store s) = Some r) (Ha : so_address r = a) (Hf : 0 <= so_fillsFailed r)
    (Hb : BigInt (so_bondAmount r) = Some bond) (Hs : BigInt amount = Some slash) (Hb0 : 0 <= bond) (Hs0 : 0 <= slash) :
  let s1 := (run (recordFailedFill a id now) s).2 in
  let rolled := (run (rollbackPenalty id (Some a)) s1).2 in
  let confirmed := (run (confirmPenalty id amount) s1).2 in
  get a (sv_store rolled) = Some r /\
  foldl (run_penalty id) rolled ops = rolled /\
  (exists r', get a (sv_store confirmed) = Some r' /\ so_bondAmount r' = toString (bond - Z.min bond slash) /\
     so_fillsFailed r' = so_fillsFailed r + 1) /\
  foldl (run_penalty id) confirmed ops = confirmed.
Proof.
  intros s1 rolled confirmed. destruct (run_failed a id now s r Hr Ha) as [Hst Hpen]. fold s1 in Hst, Hpen.
  assert (Hroll : get a (sv_store rolled) = Some r /\ exists p, get id (sv_penalties rolled) = Some p /\ pn_state p = pen_failed).
  { unfold rolled, rollbackPenalty, findByAddress, persist. simpl. rewrite Hpen. simpl. rewrite Hst. simpl.
    rewrite Ha, !get_set_eq. split; [|by eexists]. f_equal.
    replace (Z.max 0 (so_fillsFailed r + 1 - 1)) with (so_fillsFailed r) by lia. apply with_failed_id. }
  assert (Hconf : exists r' p, get a (sv_store confirmed) = Some r' /\ so_bondAmount r' = toString (bond - Z.min bond slash) /\
    so_fillsFailed r' = so_fillsFailed r + 1 /\ get id (sv_penalties confirmed) = Some p /\ pn_state p = pen_confirmed).
  { unfold confirmed, confirmPenalty, findByAddress, persist. simpl. rewrite Hpen. simpl. rewrite Hst. simpl.
    rewrite Hb, Hs. simpl. rewrite Ha, !get_set_eq. eexists _, _. split_and!; try reflexivity. simpl. f_equal.
    destruct (Z.ltb_spec slash bond); lia. }
  destruct Hroll as (H1 & p1 & Hp1 & Hs1), Hconf as (r' & p2 & H2 & H3 & H4 & Hp2 & Hs2).
  split_and!; [done|by apply (resolved_penalty_inert_all id ops rolled p1); [|congruence]|by exists r'|].
  by apply (resolved_penalty_inert_all id ops confirmed p2); [|congruence].
Qed.

Definition demo_solver : SolverRecord := {|
  so_address := "GS"; so_name := "Solver"; so_bondAmount := "1000"; so_fillsCompleted := 7; so_fillsFailed := 1;
  so_totalVolume := "500"; so_avgFillTime := 30; so_isActive := true; so_registeredAt := 0; so_lastActiveAt := 10;
  so_supportedChains := [ethereum]; so_supportedTokens := ["USDC"%string]; so_inventory := None; so_delegatedSigners := None;
  so_referredBy := None; so_source := None; so_chainUpdatedLedger := None |}.

Definition demo_solvers : SolverState :=
  {| sv_store := [("GS"%string, demo_solver)]; sv_history := []; sv_penalties := []; sv_sequence := 0; sv_invalidations := 0 |}.

Lemma penalty_settles_once_witness :
  let s1 := (run (recordFailedFill "GS" "i1" 20) demo_solvers).2 in
  get "GS" (sv_store (run (rollbackPenalty "i1" (Some "GS"%string)) s1).2) = Some demo_solver /\
  exists r', get "GS" (sv_store (run (confirmPenalty "i1" "300") s1).2) = Some r' /\ so_bondAmount r' = "700"%string.
Proof.
  destruct (penalty_settles_once "GS" "i1" 20 "300" demo_solvers demo_solver 1000 300 [PRollback None]
    ltac:(reflexivity) ltac:(reflexivity) ltac:(simpl; lia) ltac:(reflexivity) ltac:(reflexivity) ltac:(lia) ltac:(lia))
    as (H1 & _ & (r' & H2 & H3 & _) & _).
  split; [exact H1|]. exists r'. split; [exact H2|]. rewrite H3. reflexivity.
Defined.

(** Counters are read, changed and saved in separate steps: of two fills
    recorded at the same time one is lost from both the counter and the
    volume. *)
Theorem concurrent_fills_lose_updates :
  let c := schedule [0; 1; 0; 0; 1; 1]%nat demo_solvers
             [recordSuccessfulFill "GS" (Some "100"%string) 20; recordSuccessfulFill "GS" (Some "40"%string) 20] in
  Forall (fun p => exists r, p = Done (Some r)) c.2 /\
  (fun r => (so_fillsCompleted r, so_totalVolume r)) <$> get "GS" (sv_store c.1) = Some (8, "540"%string) /\
  so_fillsCompleted demo_solver + 2 = 9.
Proof. split; [repeat constructor; by eexists|]. split; [vm_compute; reflexivity|reflexivity]. Qed.
