(* ===== verification/PendingSlashes.v ===== *)
(** Pending slashes: [src/solvers/pending-slashes.repository.ts], the durable
    rows of the slashing saga, at most one per intent.  Times are in
    milliseconds except the fill deadline, which is in seconds. *)
From S2P Require Import Prelude JsMap BigInt.
Local Open Scope Z_scope.

Inductive PendingSlashState := ps_detected | ps_challenge_window | ps_submitted | ps_confirmed | ps_cancelled.
#[export] Instance PendingSlashState_eq_dec : EqDecision PendingSlashState.
Proof. solve_decision. Defined.

Record PendingSlash := {
  ps_id : string; ps_intentId : string; ps_solverAddress : string; ps_reason : string;
  ps_state : PendingSlashState; ps_fillDeadline : Z; ps_detectedAt : Z; ps_challengeEndsAt : Z;
  ps_attempts : Z; ps_nextAttemptAt : Z; ps_lockedUntil : option Z; ps_txHash : option string;
  ps_simulated : bool; ps_submittedAt : option Z; ps_confirmedAt : option Z; ps_cancelledAt : option Z;
  ps_cancelReason : option string; ps_cancelledBy : option string; ps_fillTxHash : option string;
  ps_lastError : option string; ps_createdAt : Z; ps_updatedAt : Z;
}.

Record NewPendingSlash := {
  ns_intentId : string; ns_solverAddress : string; ns_reason : string;
  ns_fillDeadline : Z; ns_detectedAt : Z; ns_challengeEndsAt : Z;
}.

(** [PendingSlashPatch]: the fields a patch names, in order; a field may be
    set to [undefined]. *)
Inductive SlashField :=
  | S_reason (v : string) | S_state (v : PendingSlashState) | S_fillDeadline (v : Z) | S_detectedAt (v : Z)
  | S_challengeEndsAt (v : Z) | S_attempts (v : Z) | S_nextAttemptAt (v : Z) | S_lockedUntil (v : option Z)
  | S_txHash (v : option string) | S_simulated (v : bool) | S_submittedAt (v : option Z) | S_confirmedAt (v : option Z)
  | S_cancelledAt (v : option Z) | S_cancelReason (v : option string) | S_cancelledBy (v : option string)
  | S_fillTxHash (v : option string) | S_lastError (v : option string).

Definition PendingSlashPatch := list SlashField.

(** The last value the patch gives to a field, or the old one. *)
Definition pick {A} (sel : SlashField -> option A) (old : A) (p : PendingSlashPatch) : A :=
  foldl (fun o f => default o (sel f)) old p.

(** [Object.assign(row, patch, { lockedUntil: undefined, updatedAt })] *)
Definition assign_slash (p : PendingSlashPatch) (clock : Z) (r : PendingSlash) : PendingSlash := {|
  ps_id := ps_id r; ps_intentId := ps_intentId r; ps_solverAddress := ps_solverAddress r;
  ps_reason := pick (fun f => match f with S_reason v => Some v | _ => None end) (ps_reason r) p;
  ps_state := pick (fun f => match f with S_state v => Some v | _ => None end) (ps_state r) p;
  ps_fillDeadline := pick (fun f => match f with S_fillDeadline v => Some v | _ => None end) (ps_fillDeadline r) p;
  ps_detectedAt := pick (fun f => match f with S_detectedAt v => Some v | _ => None end) (ps_detectedAt r) p;
  ps_challengeEndsAt := pick (fun f => match f with S_challengeEndsAt v => Some v | _ => None end) (ps_challengeEndsAt r) p;
  ps_attempts := pick (fun f => match f with S_attempts v => Some v | _ => None end) (ps_attempts r) p;
  ps_nextAttemptAt := pick (fun f => match f with S_nextAttemptAt v => Some v | _ => None end) (ps_nextAttemptAt r) p;
  ps_lockedUntil := None;
  ps_txHash := pick (fun f => match f with S_txHash v => Some v | _ => None end) (ps_txHash r) p;
  ps_simulated := pick (fun f => match f with S_simulated v => Some v | _ => None end) (ps_simulated r) p;
  ps_submittedAt := pick (fun f => match f with S_submittedAt v => Some v | _ => None end) (ps_submittedAt r) p;
  ps_confirmedAt := pick (fun f => match f with S_confirmedAt v => Some v | _ => None end) (ps_confirmedAt r) p;
  ps_cancelledAt := pick (fun f => match f with S_cancelledAt v => Some v | _ => None end) (ps_cancelledAt r) p;
  ps_cancelReason := pick (fun f => match f with S_cancelReason v => Some v | _ => None end) (ps_cancelReason r) p;
  ps_cancelledBy := pick (fun f => match f with S_cancelledBy v => Some v | _ => None end) (ps_cancelledBy r) p;
  ps_fillTxHash := pick (fun f => match f with S_fillTxHash v => Some v | _ => None end) (ps_fillTxHash r) p;
  ps_lastError := pick (fun f => match f with S_lastError v => Some v | _ => None end) (ps_lastError r) p;
  ps_createdAt := ps_createdAt r; ps_updatedAt := clock |}.

(** * Operations *)

Definition SlashRows := jsmap PendingSlash.

Definition createIfAbsent (uuid : string) (clock : Z) (n : NewPendingSlash) (m : SlashRows) : (PendingSlash * bool) * SlashRows :=
  match get (ns_intentId n) m with
  | Some existing => ((existing, false), m)
  | None =>
      let row := {|
        ps_id := uuid; ps_intentId := ns_intentId n; ps_solverAddress := ns_solverAddress n; ps_reason := ns_reason n;
        ps_state := ps_detected; ps_fillDeadline := ns_fillDeadline n; ps_detectedAt := ns_detectedAt n;
        ps_challengeEndsAt := ns_challengeEndsAt n; ps_attempts := 0; ps_nextAttemptAt := clock; ps_lockedUntil := None;
        ps_txHash := None; ps_simulated := false; ps_submittedAt := None; ps_confirmedAt := None; ps_cancelledAt := None;
        ps_cancelReason := None; ps_cancelledBy := None; ps_fillTxHash := None; ps_lastError := None;
        ps_createdAt := clock; ps_updatedAt := clock |} in
      ((row, true), set (ns_intentId n) row m)
  end.

Definition slash_findByIntent (id : string) (m : SlashRows) : option PendingSlash := get id m.

Definition slash_list (st : option PendingSlashState) (limit : Z) (m : SlashRows) : list PendingSlash :=
  slice 0 limit
    (sort_by (fun a b => ps_detectedAt b - ps_detectedAt a)
      (filter (fun r => match st with Some s => bool_decide (ps_state r = s) | None => true end = true) (values m))).

(** An unleased row, or one whose lease ended before [now]. *)
Definition unleased (now : Z) (r : PendingSlash) : bool :=
  match ps_lockedUntil r with Some t => t <? now | None => true end.

Definition slash_due (now : Z) (r : PendingSlash) : bool :=
  match ps_state r with
  | ps_detected => true
  | ps_challenge_window => (ps_challengeEndsAt r <=? now) && (ps_nextAttemptAt r <=? now)
  | ps_submitted => negb (ps_simulated r) && (ps_nextAttemptAt r <=? now)
  | _ => false
  end.

Definition findDue (now limit : Z) (m : SlashRows) : list PendingSlash :=
  slice 0 limit
    (sort_by (fun a b => ps_detectedAt a - ps_detectedAt b)
      (filter (fun r => slash_due now r = true) (filter (fun r => unleased now r = true) (values m)))).

Definition lease_row (now leaseUntil : Z) (r : PendingSlash) : PendingSlash := {|
  ps_id := ps_id r; ps_intentId := ps_intentId r; ps_solverAddress := ps_solverAddress r; ps_reason := ps_reason r;
  ps_state := ps_state r; ps_fillDeadline := ps_fillDeadline r; ps_detectedAt := ps_detectedAt r;
  ps_challengeEndsAt := ps_challengeEndsAt r; ps_attempts := ps_attempts r; ps_nextAttemptAt := ps_nextAttemptAt r;
  ps_lockedUntil := Some leaseUntil; ps_txHash := ps_txHash r; ps_simulated := ps_simulated r;
  ps_submittedAt := ps_submittedAt r; ps_confirmedAt := ps_confirmedAt r; ps_cancelledAt := ps_cancelledAt r;
  ps_cancelReason := ps_cancelReason r; ps_cancelledBy := ps_cancelledBy r; ps_fillTxHash := ps_fillTxHash r;
  ps_lastError := ps_lastError r; ps_createdAt := ps_createdAt r; ps_updatedAt := now |}.

Definition claim_slash (id : string) (now leaseUntil : Z) (m : SlashRows) : bool * SlashRows :=
  match get id m with
  | None => (false, m)
  | Some r =>
      if match ps_lockedUntil r with Some t => now <=? t | None => false end then (false, m)
      else (true, set id (lease_row now leaseUntil r) m)
  end.

Definition slash_transition (clock : Z) (id : string) (from : list PendingSlashState) (p : PendingSlashPatch) (now : option Z)
    (m : SlashRows) : option PendingSlash * SlashRows :=
  match get id m with
  | None => (None, m)
  | Some r =>
      if negb (bool_decide (ps_state r ∈ from)) then (None, m)
      else if match now, ps_lockedUntil r with Some n, Some t => n <=? t | _, _ => false end then (None, m)
      else let r' := assign_slash p clock r in (Some r', set id r' m)
  end.
