(* ===== verification/SlashingPipeline.v ===== *)
(** The slashing saga: [src/intents/slashing-pipeline.service.ts].

    detected -> challenge_window -> submitted -> confirmed, or cancelled.

    The state joins the pending-slash rows, the solvers service and the intents
    service; their calls run inside the saga's by [zoom], so every [await] of
    theirs is a point where another call may run.  The registry contract, the
    fill verifier and the transaction lookup answer from outside ([SagaEnv],
    one per call); calls to the registry and to the compensation are logged. *)
From S2P Require Import Prelude JsMap BigInt IntentTypes StateMachine IntentsRepo Prog Budget SolverFills FillsRepo IntentsService Solvers PendingSlashes.
From stdpp Require Import relations.
Local Open Scope Z_scope.

Definition PROCESS_BATCH_SIZE : Z := 25.
Definition LEASE_SECONDS : Z := 120.
Definition SLASH_BASE_BACKOFF_MS : Z := 5000.
Definition SLASH_MAX_BACKOFF_MS : Z := 10 * 60000.
Definition SLASH_PAUSED_RECHECK_MS : Z := 60000.
Definition SUBMIT_NOT_FOUND_GRACE_SECONDS : Z := 120.

Inductive SlashCancelReason := scr_fill_landed | scr_admin | scr_solver_not_found | scr_submit_failed.
#[export] Instance SlashCancelReason_eq_dec : EqDecision SlashCancelReason.
Proof. solve_decision. Defined.

Definition cancel_reason_name (r : SlashCancelReason) : string :=
  match r with
  | scr_fill_landed => "fill_landed" | scr_admin => "admin"
  | scr_solver_not_found => "solver_not_found" | scr_submit_failed => "submit_failed"
  end.

Definition CANCELLABLE : list PendingSlashState := [ps_detected; ps_challenge_window].

Record DetectMissedFillInput := {
  dm_intentId : string; dm_solverAddress : string; dm_reason : string; dm_fillDeadline : Z; dm_detectedAt : Z
}.

(** What the registry answered to [slash_solver]. *)
Record RegistryResult := { rg_failed : bool; rg_submitted : bool; rg_txHash : option string; rg_detail : string }.

Inductive RegistryAnswer :=
  | RegistryAnswers (r : RegistryResult)
  | RegistryPaused (msg : string)      (* KillSwitchActiveException *)
  | RegistryThrows (msg : string).

Inductive TxLookup := tl_success | tl_failed | tl_not_found.
#[export] Instance TxLookup_eq_dec : EqDecision TxLookup.
Proof. solve_decision. Defined.

(** Settings, clock, a fresh id and the answers of the outside world. *)
Record SagaEnv := {
  se_challengeWindowSeconds : Z;
  se_clockSkewToleranceSeconds : Z;
  se_maxSubmitAttempts : Z;
  se_clock : Z;
  se_uuid : string;
  se_service : Env;
  se_findLandedFill : string -> Z -> Z -> Z -> outcome string (option string);
  se_verifyFillProof : string -> string -> Z -> outcome string (option string);
  se_slashSolver : string -> string -> string -> RegistryAnswer;
  se_check : string -> outcome string TxLookup;
}.

Inductive SagaError :=
  | SagaNotFound (id : string)
  | SagaConflict (id : string) (st : PendingSlashState)
  | SagaForbidden
  | SagaUnprocessable (why : string)
  | SagaFailure (msg : string)
  | FromService (e : ServiceError)
  | FromSolvers (e : SolverError).

(** What leaves the saga, in order: the chain queried for a fill (with the row
    it was asked for, the time of the pass and the answer), the registry asked
    to slash, the start of a compensation, and the broadcast that ends it. *)
Inductive SagaEvent :=
  | FillVerified (row : PendingSlash) (at_ : Z) (answer : outcome string (option string))
  | SlashRequested (row : PendingSlash) (at_ : Z)
  | Compensated (intentId : string)
  | SlashCancelBroadcast (intentId solver : string) (reason : SlashCancelReason).

Record SagaWorld (R : Type) := {
  sw_rows : SlashRows;
  sw_solvers : SolverState;
  sw_intents : World R;
  sw_running : bool;
  sw_metrics : list (string * string);
  sw_log : list SagaEvent;
}.
Arguments sw_rows {R} _.
Arguments sw_solvers {R} _.
Arguments sw_intents {R} _.
Arguments sw_running {R} _.
Arguments sw_metrics {R} _.
Arguments sw_log {R} _.

Section views.
Context {R : Type}.
Implicit Types w : SagaWorld R.
Definition put_rows (m : SlashRows) w : SagaWorld R :=
  {| sw_rows := m; sw_solvers := sw_solvers w; sw_intents := sw_intents w; sw_running := sw_running w;
     sw_metrics := sw_metrics w; sw_log := sw_log w |}.
Definition put_solvers (s : SolverState) w : SagaWorld R :=
  {| sw_rows := sw_rows w; sw_solvers := s; sw_intents := sw_intents w; sw_running := sw_running w;
     sw_metrics := sw_metrics w; sw_log := sw_log w |}.
Definition put_intents (i : World R) w : SagaWorld R :=
  {| sw_rows := sw_rows w; sw_solvers := sw_solvers w; sw_intents := i; sw_running := sw_running w;
     sw_metrics := sw_metrics w; sw_log := sw_log w |}.
Definition put_running (b : bool) w : SagaWorld R :=
  {| sw_rows := sw_rows w; sw_solvers := sw_solvers w; sw_intents := sw_intents w; sw_running := b;
     sw_metrics := sw_metrics w; sw_log := sw_log w |}.
Definition recordSlashTransition (st reason : string) w : SagaWorld R :=
  {| sw_rows := sw_rows w; sw_solvers := sw_solvers w; sw_intents := sw_intents w; sw_running := sw_running w;
     sw_metrics := sw_metrics w ++ [(st, reason)]; sw_log := sw_log w |}.
Definition log_event (e : SagaEvent) w : SagaWorld R :=
  {| sw_rows := sw_rows w; sw_solvers := sw_solvers w; sw_intents := sw_intents w; sw_running := sw_running w;
     sw_metrics := sw_metrics w; sw_log := sw_log w ++ [e] |}.
End views.

(** * Operations *)

Section saga.
Context {R : Type} `{Hrepo : IntentsRepository R} (env : SagaEnv).
Local Abbreviation W := (SagaWorld R).
Local Abbreviation GM := (prog W SagaError).
Local Open Scope prog_scope.

Definition on_rows {A} (f : SlashRows -> A * SlashRows) : GM A :=
  atomic (fun w => ((f (sw_rows w)).1, put_rows (f (sw_rows w)).2 w)).
Definition on_solvers {A} (p : prog SolverState SolverError A) : GM A := zoom sw_solvers put_solvers FromSolvers p.
Definition on_intents {A} (p : prog (World R) ServiceError A) : GM A := zoom sw_intents put_intents FromService p.

Definition moves (id : string) (from : list PendingSlashState) (p : PendingSlashPatch) (now : option Z) : GM (option PendingSlash) :=
  on_rows (slash_transition (se_clock env) id from p now).

Definition audit (id : string) (to : IntentState) (actor reason : string) (meta : list (string * option MetaValue)) : GM unit :=
  modify (fun w => put_intents (appendAuditEntry (se_service env) id to actor reason (Some (defined meta)) (sw_intents w)) w).

Definition latestAcceptable (s : PendingSlash) : Z := ps_fillDeadline s + se_clockSkewToleranceSeconds env.

Definition slash_backoff (attempts now : Z) : Z :=
  now + Z.min (SLASH_BASE_BACKOFF_MS * 2 ^ Z.max 0 (attempts - 1)) SLASH_MAX_BACKOFF_MS.

Definition openChallengeWindow (s : PendingSlash) : GM (option PendingSlash) :=
  opened <- moves (ps_intentId s) [ps_detected] [S_state ps_challenge_window] None;
  match opened with
  | None => Done None
  | Some o =>
      modify (recordSlashTransition "challenge_window" "") ;;;
      audit (ps_intentId s) slashed "system" "slash pending: challenge window open"
        [("solver", Some (MStr (ps_solverAddress s))); ("challengeEndsAt", Some (MNum (ps_challengeEndsAt o)))]%string ;;;
      Done (Some o)
  end.

Definition detect (i : DetectMissedFillInput) : GM PendingSlash :=
  let detectedAt := dm_detectedAt i * 1000 in
  found <- on_rows (createIfAbsent (se_uuid env) (se_clock env)
    {| ns_intentId := dm_intentId i; ns_solverAddress := dm_solverAddress i; ns_reason := dm_reason i;
       ns_fillDeadline := dm_fillDeadline i; ns_detectedAt := detectedAt;
       ns_challengeEndsAt := detectedAt + se_challengeWindowSeconds env * 1000 |});
  let '(slash, created) := found : PendingSlash * bool in
  if negb created then Done slash
  else
    modify (recordSlashTransition "detected" "") ;;;
    opened <- openChallengeWindow slash;
    Done (default slash opened).

(** [extra]: [fillTxHash], [note], [lastError]. *)
Record CancelExtra := { cx_fillTxHash : option string; cx_note : option string; cx_lastError : option string }.
Definition no_extra : CancelExtra := {| cx_fillTxHash := None; cx_note := None; cx_lastError := None |}.

Definition cancel (s : PendingSlash) (reason : SlashCancelReason) (actor : string) (x : CancelExtra) (now : option Z)
    : GM (option PendingSlash) :=
  let name := cancel_reason_name reason in
  cancelled <- moves (ps_intentId s)
    (if bool_decide (reason = scr_submit_failed) then [ps_challenge_window; ps_submitted] else CANCELLABLE)
    [S_state ps_cancelled; S_cancelledAt (Some (se_clock env));
     S_cancelReason (Some (if truthy_str (cx_note x) then name +:+ ": " +:+ default "" (cx_note x) else name)%string);
     S_cancelledBy (Some actor); S_fillTxHash (cx_fillTxHash x); S_lastError (cx_lastError x); S_attempts (ps_attempts s)]
    now;
  match cancelled with
  | None => Done None
  | Some c =>
      modify (log_event (Compensated (ps_intentId s))) ;;;
      on_solvers (rollbackPenalty (ps_intentId s) (Some (ps_solverAddress s))) ;;;
      let toState := if bool_decide (reason = scr_fill_landed) then filled else expired in
      let meta := [("solver", Some (MStr (ps_solverAddress s))); ("fillTxHash", MStr <$> cx_fillTxHash x);
                   ("note", MStr <$> cx_note x)]%string in
      compensated <- on_intents (compensateSlash (se_service env) (ps_intentId s) toState
        {| tc_actor := actor; tc_reason := Some ("slash cancelled: " +:+ name)%string; tc_metadata := Some (defined meta);
           tc_override := None; tc_at := None |}
        (if bool_decide (reason = scr_fill_landed) then Some (cx_fillTxHash x) else None) (se_clock env / 1000));
      match compensated with
      | Some _ => Done tt
      | None => audit (ps_intentId s) toState actor ("slash cancelled: " +:+ name)%string meta
      end ;;;
      modify (log_event (SlashCancelBroadcast (ps_intentId s) (ps_solverAddress s) reason)) ;;;
      modify (recordSlashTransition "cancelled" name) ;;;
      Done (Some c)
  end.

Definition with_attempts (n : Z) (s : PendingSlash) : PendingSlash := {|
  ps_id := ps_id s; ps_intentId := ps_intentId s; ps_solverAddress := ps_solverAddress s; ps_reason := ps_reason s;
  ps_state := ps_state s; ps_fillDeadline := ps_fillDeadline s; ps_detectedAt := ps_detectedAt s;
  ps_challengeEndsAt := ps_challengeEndsAt s; ps_attempts := n; ps_nextAttemptAt := ps_nextAttemptAt s;
  ps_lockedUntil := ps_lockedUntil s; ps_txHash := ps_txHash s; ps_simulated := ps_simulated s;
  ps_submittedAt := ps_submittedAt s; ps_confirmedAt := ps_confirmedAt s; ps_cancelledAt := ps_cancelledAt s;
  ps_cancelReason := ps_cancelReason s; ps_cancelledBy := ps_cancelledBy s; ps_fillTxHash := ps_fillTxHash s;
  ps_lastError := ps_lastError s; ps_createdAt := ps_createdAt s; ps_updatedAt := ps_updatedAt s |}.

Definition retryOrGiveUp (s : PendingSlash) (error : string) (now : Z) : GM unit :=
  let attempts := ps_attempts s + 1 in
  if se_maxSubmitAttempts env <=? attempts then
    cancel (with_attempts attempts s) scr_submit_failed "system"
      {| cx_fillTxHash := None; cx_note := None; cx_lastError := Some error |} None ;;; Done tt
  else
    moves (ps_intentId s) [ps_state s]
      [S_attempts attempts; S_nextAttemptAt (slash_backoff attempts now); S_lastError (Some error)] None ;;; Done tt.

(** The registry call of [verifyAndSubmit] and what follows it. *)
Definition submit_slash (s : PendingSlash) (active : bool) (now : Z) : GM unit :=
  modify (log_event (SlashRequested s now)) ;;;
  match se_slashSolver env (ps_solverAddress s) (ps_intentId s) (ps_reason s) with
  | RegistryThrows msg => Throw (SagaFailure msg)
  | RegistryPaused msg =>
      moves (ps_intentId s) [ps_challenge_window]
        [S_nextAttemptAt (now + SLASH_PAUSED_RECHECK_MS);
         S_lastError (Some ("paused by kill-switch: " +:+ msg)%string)] None ;;; Done tt
  | RegistryAnswers r =>
      if rg_failed r then retryOrGiveUp s (rg_detail r) now
      else
        submitted <- moves (ps_intentId s) [ps_challenge_window]
          [S_state ps_submitted; S_txHash (rg_txHash r); S_simulated (negb (rg_submitted r)); S_submittedAt (Some now);
           S_nextAttemptAt now; S_lastError None] None;
        match submitted with
        | None => Done tt
        | Some _ =>
            modify (recordSlashTransition "submitted" (if rg_submitted r then "broadcast" else "simulated")) ;;;
            audit (ps_intentId s) slashed "system" "slash submitted"
              [("solver", Some (MStr (ps_solverAddress s))); ("txHash", MStr <$> rg_txHash r);
               ("simulated", Some (MBool (negb (rg_submitted r)))); ("solverActive", Some (MBool active));
               ("detail", Some (MStr (rg_detail r)))]%string
        end
  end.

Definition verifyAndSubmit (s : PendingSlash) (now : Z) : GM unit :=
  let answer := se_findLandedFill env (ps_intentId s) (ps_fillDeadline s) (latestAcceptable s) (now / 1000) in
  modify (log_event (FillVerified s now answer)) ;;;
  match answer with
  | Err msg => retryOrGiveUp s ("fill re-verification failed: " +:+ msg)%string now
  | Ok (Some tx) =>
      cancel s scr_fill_landed "system" {| cx_fillTxHash := Some tx; cx_note := None; cx_lastError := None |} None ;;; Done tt
  | Ok None =>
      solver <- on_solvers (findByAddress (ps_solverAddress s));
      match solver with
      | None => cancel s scr_solver_not_found "system" no_extra None ;;; Done tt
      | Some sol => submit_slash s (so_isActive sol) now
      end
  end.

Definition confirm_slash (s : PendingSlash) (now : Z) : GM unit :=
  if negb (truthy_str (ps_txHash s)) then moves (ps_intentId s) [ps_submitted] [] None ;;; Done tt
  else
    let tx := default ""%string (ps_txHash s) in
    status <- reads (fun _ : W => se_check env tx);
    match status with
    | Err msg =>
        moves (ps_intentId s) [ps_submitted]
          [S_nextAttemptAt (slash_backoff (ps_attempts s) now);
           S_lastError (Some ("confirmation lookup failed: " +:+ msg)%string)] None ;;; Done tt
    | Ok tl_success =>
        confirmed <- moves (ps_intentId s) [ps_submitted] [S_state ps_confirmed; S_confirmedAt (Some now)] None;
        match confirmed with
        | None => Done tt
        | Some _ =>
            modify (recordSlashTransition "confirmed" "") ;;;
            audit (ps_intentId s) slashed "system" "slash confirmed on-chain" [("txHash", MStr <$> ps_txHash s)]%string
        end
    | Ok st =>
        let too_old := match ps_submittedAt s with
                       | Some t => SUBMIT_NOT_FOUND_GRACE_SECONDS * 1000 <? now - t | None => true end in
        if bool_decide (st = tl_failed) || too_old then
          reopened <- moves (ps_intentId s) [ps_submitted] [S_state ps_challenge_window; S_txHash None] None;
          match reopened with
          | None => Done tt
          | Some r => retryOrGiveUp r ("slash tx " +:+ tx +:+ " " +:+
                        if bool_decide (st = tl_failed) then "failed on-chain" else "not found")%string now
          end
        else moves (ps_intentId s) [ps_submitted] [S_nextAttemptAt (now + SLASH_BASE_BACKOFF_MS)] None ;;; Done tt
    end.

Definition saga_step (s : PendingSlash) (now : Z) : GM unit :=
  match ps_state s with
  | ps_detected => openChallengeWindow s ;;; Done tt
  | ps_challenge_window => verifyAndSubmit s now
  | ps_submitted => confirm_slash s now
  | _ => Done tt
  end.

Definition error_message (e : SagaError) : string :=
  match e with SagaFailure msg => msg | SagaUnprocessable why => why | _ => "error" end.

Definition process_one (now : Z) (_ : unit) (s : PendingSlash) : GM unit :=
  claimed <- on_rows (claim_slash (ps_intentId s) now (now + LEASE_SECONDS * 1000));
  if negb claimed then Done tt
  else pcatch (fun e => retryOrGiveUp s ("unexpected error: " +:+ error_message e)%string now) (saga_step s now).

Definition processDue (now : Z) : GM unit :=
  busy <- atomic (fun w : W => (sw_running w, put_running true w));
  if busy : bool then Done tt
  else
    pcatch (fun e => modify (put_running false) ;;; Throw e)
      (due <- reads (fun w : W => findDue now PROCESS_BATCH_SIZE (sw_rows w));
       pfold (process_one now) tt due) ;;;
    modify (put_running false).

Definition cancelByAdmin (id actor note : string) : GM PendingSlash :=
  found <- reads (fun w : W => slash_findByIntent id (sw_rows w));
  match found with
  | None => Throw (SagaNotFound id)
  | Some s =>
      cancelled <- cancel s scr_admin actor {| cx_fillTxHash := None; cx_note := Some note; cx_lastError := None |}
        (Some (se_clock env));
      match cancelled with Some c => Done c | None => Throw (SagaConflict id (ps_state s)) end
  end.

(** [verifyFillProof] answers [Ok None] for a valid proof and [Ok (Some why)]
    for a rejected one. *)
Definition cancelByFillProof (id solver txHash : string) : GM PendingSlash :=
  found <- reads (fun w : W => slash_findByIntent id (sw_rows w));
  match found with
  | None => Throw (SagaNotFound id)
  | Some s =>
      if negb (bool_decide (ps_solverAddress s = solver)) then Throw SagaForbidden
      else if negb (bool_decide (ps_state s ∈ CANCELLABLE)) then Throw (SagaConflict id (ps_state s))
      else
        proof <- reads (fun _ : W => se_verifyFillProof env txHash id (latestAcceptable s));
        match proof with
        | Err msg => Throw (SagaFailure msg)
        | Ok (Some why) => Throw (SagaUnprocessable why)
        | Ok None =>
            cancelled <- cancel s scr_fill_landed solver
              {| cx_fillTxHash := Some txHash; cx_note := None; cx_lastError := None |} (Some (se_clock env));
            match cancelled with Some c => Done c | None => Throw (SagaConflict id (ps_state s)) end
        end
  end.
End saga.
