(* ===== verification/SlashingSafety.v ===== *)
(** The slashing saga under concurrency: detections, worker passes, admin
    cancellations and fill proofs interleave at every [await], and still a
    slash is compensated at most once and the registry is asked to slash only
    after the challenge window and a negative check of the chain. *)
From stdpp Require Import relations.
From S2P Require Import Prelude JsMap BigInt IntentTypes StateMachine IntentsRepo Prog Budget SolverFills FillsRepo IntentsService ServiceSafety Solvers PendingSlashes SlashingPipeline.
Local Open Scope Z_scope.

(** * Concurrent use *)

Inductive SagaCall :=
  | CDetect (i : DetectMissedFillInput)
  | CProcessDue (now : Z)
  | CCancelByAdmin (id actor note : string)
  | CCancelByFillProof (id solver tx : string).

Section concurrency.
Context {R : Type} `{Hrepo : IntentsRepository R}.
Local Abbreviation W := (SagaWorld R).
Local Abbreviation GM := (prog W SagaError).

Definition saga_prog (env : SagaEnv) (c : SagaCall) : GM unit :=
  match c with
  | CDetect i => pbind (fun _ => Done tt) (detect env i)
  | CProcessDue now => processDue env now
  | CCancelByAdmin id actor note => pbind (fun _ => Done tt) (cancelByAdmin env id actor note)
  | CCancelByFillProof id solver tx => pbind (fun _ => Done tt) (cancelByFillProof env id solver tx)
  end.

(** The terms of a slash, fixed when it is detected. *)
Definition fixed_terms (a b : PendingSlash) : Prop :=
  ps_intentId a = ps_intentId b /\ ps_solverAddress a = ps_solverAddress b /\
  ps_fillDeadline a = ps_fillDeadline b /\ ps_challengeEndsAt a = ps_challengeEndsAt b.

(** A registry call made at [at_] from [row], after the events [pre]. *)
Definition justified (rows : SlashRows) (pre : list SagaEvent) (row : PendingSlash) (at_ : Z) : Prop :=
  ps_challengeEndsAt row <= at_ /\ FillVerified row at_ (Ok None) ∈ pre /\
  exists cur, get (ps_intentId row) rows = Some cur /\ fixed_terms row cur.

Definition saga_inv (w : W) : Prop :=
  wf (sw_rows w) /\ (forall k r, get k (sw_rows w) = Some r -> ps_intentId r = k) /\
  (forall pre post row at_, sw_log w = pre ++ SlashRequested row at_ :: post -> justified (sw_rows w) pre row at_).

Definition saga_later (w w' : W) : Prop :=
  (exists l, sw_log w' = sw_log w ++ l) /\
  (forall k r, get k (sw_rows w) = Some r -> exists r', get k (sw_rows w') = Some r' /\ fixed_terms r r' /\
     (ps_state r = ps_cancelled -> ps_state r' = ps_cancelled)).

#[local] Instance saga_later_pre : PreOrder saga_later.
Proof.
  split.
  - intros w. split; [exists []; by rewrite app_nil_r|]. intros k r Hr. exists r. by split_and!.
  - intros w1 w2 w3 [[l1 H1] H2] [[l2 H3] H4]. split; [exists (l1 ++ l2); by rewrite H3, H1, app_assoc|].
    intros k r Hr. destruct (H2 k r Hr) as (r2 & Hr2 & (?&?&?&?) & ?).
    destruct (H4 k r2 Hr2) as (r3 & Hr3 & (?&?&?&?) & ?). exists r3. split_and!; [done| |auto].
    unfold fixed_terms. split_and!; congruence.
Qed.

(** * Counting compensations of one intent *)

Context (id0 : string).

Definition is_compensation (e : SagaEvent) : bool :=
  match e with Compensated id => bool_decide (id = id0) | _ => false end.
Definition compensations (w : W) : nat := length (filter (fun e => is_compensation e = true) (sw_log w)).
Definition cancelled_once (w : W) : nat :=
  match get id0 (sw_rows w) with Some r => if decide (ps_state r = ps_cancelled) then 1 else 0 | None => 0 end%nat.

Local Abbreviation gpaid := (paid (E := SagaError) saga_inv saga_later compensations cancelled_once).
Local Abbreviation gidle := (idle saga_inv saga_later compensations cancelled_once).

Lemma snoc_split {A} (l pre post : list A) e x :
  l ++ [e] = pre ++ x :: post -> (post = [] /\ pre = l /\ x = e) \/ exists post', post = post' ++ [e] /\ l = pre ++ x :: post'.
Proof.
  destruct post as [|y post _] using rev_ind; intros H.
  - apply app_inj_tail in H as [-> ->]. by left.
  - rewrite app_comm_cons, app_assoc in H. apply app_inj_tail in H as [-> ->]. right. by exists post.
Qed.

(** Steps that leave the rows and the log alone. *)
Lemma idle_elsewhere (f : W -> W) :
  (forall w, sw_rows (f w) = sw_rows w) -> (forall w, sw_log (f w) = sw_log w) -> gidle f.
Proof.
  intros Hr Hl w (H1 & H2 & H3). unfold saga_inv, saga_later, compensations, cancelled_once. rewrite Hr, Hl.
  split_and!; [done..|by exists []; rewrite app_nil_r| |done|done]. intros k r Hk. exists r. by split_and!.
Qed.

(** Logging anything but a registry call keeps the invariant; it spends one
    token if it is a compensation of [id0]. *)
Lemma log_keeps e w : saga_inv w -> (forall row at_, e = SlashRequested row at_ -> justified (sw_rows w) (sw_log w) row at_) ->
  saga_inv (log_event e w) /\ saga_later w (log_event e w) /\
  compensations (log_event e w) = (compensations w + if is_compensation e then 1 else 0)%nat /\
  cancelled_once (log_event e w) = cancelled_once w.
Proof.
  intros (H1 & H2 & H3) He. split_and!; [|split; [by exists [e]|intros k r Hr; exists r; by split_and!]| |done].
  - split_and!; [done..|]. simpl. intros pre post row at_ [(-> & -> & <-)|(post' & -> & Hl)]%snoc_split; [by apply He|eauto].
  - unfold compensations. simpl. rewrite filter_app, length_app. f_equal. rewrite filter_cons, filter_nil.
    destruct (is_compensation e); simpl; reflexivity.
Qed.

Lemma idle_log e : is_compensation e = false -> (forall row at_, e <> SlashRequested row at_) -> gidle (log_event e).
Proof.
  intros Hc He w Hw. destruct (log_keeps e w Hw) as (H1 & H2 & H3 & H4); [intros row at_ ->; by destruct (He row at_)|].
  rewrite Hc in H3. split_and!; [done..|lia|done].
Qed.

(** * Row transitions *)

Lemma transition_spec clock id from p now (m : SlashRows) :
  match slash_transition clock id from p now m with
  | (None, m') => m' = m
  | (Some r', m') => exists r, get id m = Some r /\ ps_state r ∈ from /\ r' = assign_slash p clock r /\ m' = set id r' m
  end.
Proof.
  unfold slash_transition. destruct (get id m) as [r|] eqn:Hr; [|done].
  destruct (bool_decide (ps_state r ∈ from)) eqn:Hf; simpl; [|done].
  destruct (match now with Some n => _ | None => false end); [done|]. bool_norm. by exists r.
Qed.

(** A patch that leaves the terms of the slash alone. *)
Definition keeps_terms (p : PendingSlashPatch) : Prop :=
  forall clock r, ps_fillDeadline (assign_slash p clock r) = ps_fillDeadline r /\
    ps_challengeEndsAt (assign_slash p clock r) = ps_challengeEndsAt r.

(** A row is added, or replaced by one with the same terms. *)
Definition row_change (id : string) (old : option PendingSlash) (new : PendingSlash) : Prop :=
  ps_intentId new = id /\
  match old with
  | Some r => fixed_terms r new /\ (ps_state r = ps_cancelled -> ps_state new = ps_cancelled)
  | None => ps_state new <> ps_cancelled
  end.

Lemma set_row_keeps id r' (w : W) :
  saga_inv w -> row_change id (get id (sw_rows w)) r' ->
  let w' := put_rows (set id r' (sw_rows w)) w in
  saga_inv w' /\ saga_later w w' /\ compensations w' = compensations w.
Proof.
  intros (Hwf & Hid & Hlog) [Hn Ht] w'.
  assert (Hlat : saga_later w w').
  { split; [exists []; by rewrite app_nil_r|]. intros k x Hx. simpl. rewrite get_set. case_decide; subst.
    - exists r'. rewrite Hx in Ht. simpl in Ht. naive_solver.
    - exists x. by split_and!. }
  split_and!; [|done|done]. split_and!; [by apply set_wf| |].
  - intros k x. simpl. rewrite get_set. case_decide; [|by apply Hid]. intros [= <-]. by subst.
  - simpl. intros pre post row at_ Hl. destruct (Hlog _ _ _ _ Hl) as (Hw & Hv & cur & Hc & Hs).
    split_and!; [done..|]. destruct Hlat as [_ Hlat]. destruct (Hlat _ _ Hc) as (c' & Hc' & Hs' & _).
    exists c'. split; [done|]. unfold fixed_terms in *. naive_solver congruence.
Qed.

Definition is_cancelled (o : option PendingSlash) : nat :=
  match o with Some r => if decide (ps_state r = ps_cancelled) then 1 else 0 | None => 0 end%nat.

Lemma set_row_earns id r' (w : W) : is_cancelled (get id (sw_rows w)) = 0%nat ->
  cancelled_once (put_rows (set id r' (sw_rows w)) w) =
    (cancelled_once w + if decide (id = id0 /\ ps_state r' = ps_cancelled) then 1 else 0)%nat.
Proof.
  intros H0. unfold cancelled_once. simpl. rewrite get_set. destruct (decide (id = id0)) as [->|Hne].
  - unfold is_cancelled in H0. rewrite H0. destruct (decide (ps_state r' = ps_cancelled)).
    + by rewrite decide_True.
    + by rewrite decide_False by naive_solver.
  - rewrite (decide_False (P := _ /\ _)) by naive_solver. lia.
Qed.

Lemma put_rows_id (w : W) : put_rows (sw_rows w) w = w.
Proof. by destruct w. Qed.

Lemma paid_moves env (Q : option PendingSlash -> nat -> W -> Prop) X b n id from p now :
  ps_cancelled ∉ from -> keeps_terms p -> (forall b', saga_later b b' -> Q None n b') ->
  (forall r b', ps_state r ∈ from -> saga_later b b' ->
     let r' := assign_slash p (se_clock env) r in
     Q (Some r') (n + if decide (id = id0 /\ ps_state r' = ps_cancelled) then 1 else 0)%nat b') ->
  gpaid Q X b n (moves env id from p now).
Proof.
  intros Hfrom Hp HN HS. unfold moves, on_rows, atomic. cbn [paid]. intros w Hw Hb.
  pose proof (transition_spec (se_clock env) id from p now (sw_rows w)) as Ht.
  destruct (slash_transition _ id from p now (sw_rows w)) as [[r'|] m]; cbn [fst snd].
  - destruct Ht as (r & Hr & Hst & -> & ->).
    assert (Hlive : ps_state r <> ps_cancelled) by congruence.
    destruct (set_row_keeps id (assign_slash p (se_clock env) r) w Hw) as (H1 & H2 & H3).
    { rewrite Hr. destruct (Hp (se_clock env) r) as [Hd Hc]. unfold row_change, fixed_terms. rewrite Hd, Hc.
      split; [exact (proj1 (proj2 Hw) _ _ Hr)|]. by split_and!. }
    eexists. split_and!; [done|done| |apply HS; [done|by transitivity w]].
    rewrite H3, set_row_earns; [lia|]. rewrite Hr. simpl. by rewrite decide_False.
  - subst m. rewrite put_rows_id. exists n. split_and!; [done|done|lia|]. apply HN. by transitivity w.
Qed.

Lemma paid_moves_live env b n id from p now :
  ps_cancelled ∉ from -> keeps_terms p -> gpaid anyhow anyhow b n (moves env id from p now).
Proof. intros H1 H2. by apply paid_moves. Qed.

Lemma paid_metric b n st reason : gpaid anyhow anyhow b n (modify (recordSlashTransition st reason)).
Proof. apply paid_modify; [by apply idle_elsewhere|done]. Qed.

Lemma paid_audit env b n id to actor reason meta : gpaid anyhow anyhow b n (audit env id to actor reason meta).
Proof. apply paid_modify; [by apply idle_elsewhere|done]. Qed.

Lemma paid_solvers {A} (Q : A -> nat -> W -> Prop) X b n (p : prog SolverState SolverError A) :
  (forall a b', saga_later b b' -> Q a n b') -> (forall e b', saga_later b b' -> X (FromSolvers e) n b') ->
  gpaid Q X b n (on_solvers p).
Proof. intros HQ HX. apply paid_zoom; [apply _|by intros t; apply idle_elsewhere|done|done]. Qed.

Lemma paid_intents {A} (Q : A -> nat -> W -> Prop) X b n (p : prog (World R) ServiceError A) :
  (forall a b', saga_later b b' -> Q a n b') -> (forall e b', saga_later b b' -> X (FromService e) n b') ->
  gpaid Q X b n (on_intents p).
Proof. intros HQ HX. apply paid_zoom; [apply _|by intros t; apply idle_elsewhere|done|done]. Qed.

(** * The saga's steps *)

(** The compensation spends the token its transition earned. *)
Lemma paid_compensation b n id :
  ((if decide (id = id0) then 1 else 0) <= n)%nat -> gpaid anyhow anyhow b n (modify (log_event (Compensated id))).
Proof.
  intros Hn w Hw Hb. destruct (log_keeps (Compensated id) w Hw) as (H1 & H2 & H3 & H4); [done|].
  exists 0%nat. split_and!; [done..| |done]. rewrite H3, H4. simpl. unfold is_compensation.
  destruct (decide (id = id0)); [rewrite bool_decide_eq_true_2 by done|rewrite bool_decide_eq_false_2 by done]; lia.
Qed.

Lemma paid_cancel env b s reason actor x now : gpaid anyhow anyhow b 0 (cancel env s reason actor x now).
Proof.
  unfold cancel. apply paid_bind, paid_moves.
  - case_bool_decide; by intros Hf; in_list Hf.
  - done.
  - done.
  - intros r b' _ Hb' r'. cbn beta iota. apply paid_seq; [apply _| |].
    { apply paid_compensation. simpl. case_decide as Hd; [|lia]. by rewrite decide_True by done. }
    intros _ b1 _. apply paid_seq; [apply _|by apply paid_solvers|]. intros _ b2 _.
    apply paid_seq; [apply _|by apply paid_intents|]. intros c b3 _.
    apply paid_seq; [apply _|destruct c; [done|apply paid_audit]|]. intros _ b4 _.
    apply paid_seq; [apply _|apply paid_modify; [by apply idle_log|done]|]. intros _ b5 _.
    by apply paid_seq; [apply _|apply paid_metric|].
Qed.

Lemma paid_open env b s : gpaid anyhow anyhow b 0 (openChallengeWindow env s).
Proof.
  unfold openChallengeWindow. apply paid_seq; [apply _|apply paid_moves_live; [by intros Hf; in_list Hf|done]|].
  intros [o|] b1 _; [|done]. apply paid_seq; [apply _|apply paid_metric|]. intros _ b2 _.
  by apply paid_seq; [apply _|apply paid_audit|].
Qed.

Lemma paid_retry env b s error now : ps_state s <> ps_cancelled -> gpaid anyhow anyhow b 0 (retryOrGiveUp env s error now).
Proof.
  intros Hs. unfold retryOrGiveUp. case_match.
  - by apply paid_seq; [apply _|apply paid_cancel|].
  - apply paid_seq; [apply _|apply paid_moves_live; [by intros H'; in_list H'|done]|done].
Qed.

(** What a worker knows of the row it read: the terms are still those. *)
Definition knows (b : W) (s : PendingSlash) : Prop :=
  exists cur, get (ps_intentId s) (sw_rows b) = Some cur /\ fixed_terms s cur.

Lemma knows_later b b' s : saga_later b b' -> knows b s -> knows b' s.
Proof.
  intros [_ Hl] (cur & Hc & Ht). destruct (Hl _ _ Hc) as (c' & Hc' & Ht' & _). exists c'. split; [done|].
  unfold fixed_terms in *. naive_solver congruence.
Qed.

Lemma verified_later b b' e : saga_later b b' -> e ∈ sw_log b -> e ∈ sw_log b'.
Proof. intros [[l ->] _] He. apply elem_of_app. by left. Qed.

Lemma paid_submit env b s active now :
  ps_state s <> ps_cancelled -> ps_challengeEndsAt s <= now -> knows b s -> FillVerified s now (Ok None) ∈ sw_log b ->
  gpaid anyhow anyhow b 0 (submit_slash env s active now).
Proof.
  intros Hs Hnow Hk Hv. unfold submit_slash. apply paid_seq; [apply _| |].
  - intros w Hw Hb. destruct (log_keeps (SlashRequested s now) w Hw) as (H1 & H2 & H3 & H4).
    { intros row at_ [= <- <-]. split_and!; [done|by eapply verified_later|by eapply knows_later]. }
    exists 0%nat. split_and!; [done|done| |done]. simpl in H3. lia.
  - intros _ b1 _. destruct (se_slashSolver env _ _ _) as [r|msg|msg]; [|apply paid_seq; [apply _| |done]|done].
    + destruct (rg_failed r); [by apply paid_retry|].
      apply paid_seq; [apply _|apply paid_moves_live; [by intros Hf; in_list Hf|done]|].
      intros [o|] b2 _; [|done]. apply paid_seq; [apply _|apply paid_metric|]. intros _ b3 _. apply paid_audit.
    + apply paid_moves_live; [by intros Hf; in_list Hf|done].
Qed.

Lemma paid_verify env b s now :
  ps_state s <> ps_cancelled -> ps_challengeEndsAt s <= now -> knows b s ->
  gpaid anyhow anyhow b 0 (verifyAndSubmit env s now).
Proof.
  intros Hs Hnow Hk. unfold verifyAndSubmit. cbv zeta. apply paid_bind, paid_modify; [by apply idle_log|].
  intros w Hw Hb. set (ans := se_findLandedFill env _ _ _ _).
  assert (Hlat : saga_later b (log_event (FillVerified s now ans) w)).
  { transitivity w; [done|]. by apply (idle_log (FillVerified s now ans)). }
  assert (Hin : FillVerified s now ans ∈ sw_log (log_event (FillVerified s now ans) w)).
  { simpl. apply elem_of_app. right. by left. }
  generalize dependent (log_event (FillVerified s now ans) w). intros b1 Hlat Hin.
  destruct ans as [[tx|]|msg]; [by apply paid_seq; [apply _|apply paid_cancel|]| |by apply paid_retry].
  apply paid_bind, paid_solvers; [|done]. intros [sol|] b2 Hb2.
  - apply paid_submit; [done|done|eapply knows_later; [|done]; by transitivity b1|by eapply verified_later].
  - by apply paid_seq; [apply _|apply paid_cancel|].
Qed.

Lemma paid_confirm env b s now : gpaid anyhow anyhow b 0 (confirm_slash env s now).
Proof.
  assert (Hm : forall b' p, keeps_terms p -> gpaid anyhow anyhow b' 0 (pbind (fun _ => Done tt) (moves env (ps_intentId s) [ps_submitted] p None))).
  { intros b' p Hp. apply paid_seq; [apply _|apply paid_moves_live; [by intros Hf; in_list Hf|done]|done]. }
  assert (Hre : forall b' p msg, keeps_terms p -> (forall clock r, ps_state (assign_slash p clock r) <> ps_cancelled) ->
    gpaid anyhow anyhow b' 0 (pbind (fun o => match o with Some r => retryOrGiveUp env r msg now | None => Done tt end)
      (moves env (ps_intentId s) [ps_submitted] p None))).
  { intros b' p msg Hp Hst. apply paid_bind, paid_moves; [by intros Hf; in_list Hf|done|done|].
    intros r b2 _ _. apply (paid_any _ _ _ _ _ 0%nat); [lia|]. by apply paid_retry. }
  unfold confirm_slash. case_match; [by apply Hm|]. apply paid_seq; [apply _|by apply paid_reads; [apply _|]|].
  intros [st|msg] b1 _; [|by apply Hm]. destruct st.
  - apply paid_seq; [apply _|apply paid_moves_live; [by intros Hf; in_list Hf|done]|].
    intros [c|] b2 _; [|done]. apply paid_seq; [apply _|apply paid_metric|]. intros _ b3 _. apply paid_audit.
  - destruct (bool_decide (_ = tl_failed) || _); [by apply Hre|by apply Hm].
  - destruct (bool_decide (_ = tl_failed) || _); [by apply Hre|by apply Hm].
Qed.

Lemma paid_step env b s now :
  ps_state s <> ps_cancelled -> (ps_state s = ps_challenge_window -> ps_challengeEndsAt s <= now) -> knows b s ->
  gpaid anyhow anyhow b 0 (saga_step env s now).
Proof.
  intros Hs Hw Hk. unfold saga_step. destruct (ps_state s) eqn:E; [|by apply paid_verify; auto; congruence|apply paid_confirm|done|done].
  by apply paid_seq; [apply _|apply paid_open|].
Qed.

Lemma due_facts now limit (m : SlashRows) s : wf m -> (forall k r, get k m = Some r -> ps_intentId r = k) -> s ∈ findDue now limit m ->
  get (ps_intentId s) m = Some s /\ ps_state s <> ps_cancelled /\ (ps_state s = ps_challenge_window -> ps_challengeEndsAt s <= now).
Proof.
  intros Hwf Hid Hs. unfold findDue, slice in Hs. apply subseteq_take, subseteq_drop, elem_of_sort_by in Hs.
  apply list_elem_of_filter in Hs as [Hdue [_ Hv]%list_elem_of_filter].
  destruct (values_get m s Hwf Hv) as [k Hk]. rewrite (Hid _ _ Hk).
  split_and!; [done|..]; unfold slash_due in Hdue; intros E; rewrite E in Hdue; [done|]. by bool_norm.
Qed.

Lemma paid_one env now s b u : ps_state s <> ps_cancelled ->
  (ps_state s = ps_challenge_window -> ps_challengeEndsAt s <= now) -> knows b s ->
  gpaid anyhow anyhow b 0 (process_one env now u s).
Proof.
  intros Hs Hw Hk. unfold process_one. apply paid_seq; [apply _| |].
  - unfold on_rows, atomic. cbn [paid]. intros w Hi Hb. unfold claim_slash.
    destruct (get (ps_intentId s) (sw_rows w)) as [r|] eqn:Hr; [destruct (match ps_lockedUntil r with Some t => now <=? t | None => false end)|]; cbn [fst snd].
    1,3: rewrite put_rows_id; exists 0%nat; by split_and!; [done|done|lia|].
    set (r' := lease_row _ _ r).
    destruct (set_row_keeps (ps_intentId s) r' w Hi) as (H1 & H2 & H3).
    { rewrite Hr. split; [exact (proj1 (proj2 Hi) _ _ Hr)|]. by split. }
    exists 0%nat. split_and!; [done|done| |done]. rewrite H3. unfold cancelled_once. simpl. rewrite get_set.
    case_decide as Hd; [rewrite <- Hd, Hr; simpl; lia|lia].
  - intros claimed b1 Hb1. destruct claimed; simpl; [|done]. apply paid_catch.
    eapply (paid_mono _ _ _ _ anyhow anyhow anyhow); [done| |apply paid_step; [done|done|by eapply knows_later]].
    intros e m b2 _ _. eapply (paid_any _ _ _ _ _ 0%nat); [lia|]. by apply paid_retry.
Qed.

Lemma paid_process env now b : gpaid anyhow anyhow b 0 (processDue env now).
Proof.
  assert (Hput : forall v b', gpaid anyhow anyhow b' 0 (modify (put_running v))).
  { intros v b'. apply paid_modify; [by apply idle_elsewhere|done]. }
  unfold processDue. apply paid_seq; [apply _| |].
  { unfold atomic. apply paid_idle; [by apply idle_elsewhere|done]. }
  intros busy b1 _. destruct busy; [done|]. apply paid_seq; [apply _| |intros; apply Hput].
  apply paid_catch. eapply (paid_mono _ _ _ _ anyhow anyhow anyhow); [done| |].
  { intros e m b2 _ _. eapply (paid_any _ _ _ _ _ 0%nat); [lia|]. by apply paid_seq; [apply _|apply Hput|]. }
  apply paid_bind, paid_reads; [apply _|]. intros w (Hwf & Hid & Hlog) _. apply paid_fold; [apply _|].
  intros u s b2 Hs Hb2. destruct (due_facts _ _ _ _ Hwf Hid Hs) as (Hg & H1 & H2).
  apply paid_one; [done|done|]. eapply knows_later; [exact Hb2|]. exists s. by split.
Qed.

Lemma paid_detect env i b : gpaid anyhow anyhow b 0 (detect env i).
Proof.
  unfold detect. apply paid_seq; [apply _| |].
  - set (n := {| ns_intentId := _ |}). unfold on_rows, atomic. cbn [paid]. intros w Hi Hb. unfold createIfAbsent.
    destruct (get (ns_intentId n) (sw_rows w)) as [r|] eqn:Hr; cbn [fst snd].
    { rewrite put_rows_id. exists 0%nat. by split_and!; [done|done|lia|]. }
    match goal with |- context [set _ ?x _] => set (row := x) end.
    destruct (set_row_keeps (ns_intentId n) row w Hi) as (H1 & H2 & H3); [by rewrite Hr|].
    exists 0%nat. split_and!; [done|done| |done]. rewrite H3, set_row_earns by (by rewrite Hr). lia.
  - intros [slash created] b1 _. destruct created; simpl negb; cbn match; [|done].
    apply paid_seq; [apply _|apply paid_metric|]. intros _ b2 _. by apply paid_seq; [apply _|apply paid_open|].
Qed.

Lemma paid_admin env id actor note b : gpaid anyhow anyhow b 0 (cancelByAdmin env id actor note).
Proof.
  unfold cancelByAdmin. apply paid_seq; [apply _|by apply paid_reads; [apply _|]|]. intros [s|] b1 _; [|done].
  apply paid_seq; [apply _|apply paid_cancel|]. by intros [c|] b2 _.
Qed.

Lemma paid_proof env id solver tx b : gpaid anyhow anyhow b 0 (cancelByFillProof env id solver tx).
Proof.
  unfold cancelByFillProof. apply paid_seq; [apply _|by apply paid_reads; [apply _|]|]. intros [s|] b1 _; [|done].
  case_match; [done|]. case_match; [done|].
  apply paid_seq; [apply _|by apply paid_reads; [apply _|]|]. intros [[why|]|msg] b2 _; [done| |done].
  apply paid_seq; [apply _|apply paid_cancel|]. by intros [c|] b3 _.
Qed.

Lemma paid_call env c b : gpaid anyhow anyhow b 0 (saga_prog env c).
Proof.
  destruct c; unfold saga_prog; [|apply paid_process|..]; (apply paid_seq; [apply _| |done]);
    [apply paid_detect|apply paid_admin|apply paid_proof].
Qed.

Lemma saga_reaches (w : W) calls w' ps' :
  wf (sw_rows w) -> (forall k r, get k (sw_rows w) = Some r -> ps_intentId r = k) -> sw_log w = [] ->
  rtc pool_step (w, (fun ec => saga_prog ec.1 ec.2) <$> calls) (w', ps') ->
  saga_inv w' /\ (compensations w' <= cancelled_once w')%nat.
Proof.
  intros Hwf Hid Hlog Hrun. eapply (pool_bounded saga_inv saga_later compensations cancelled_once); [exact Hrun|..].
  - split_and!; [done..|]. intros pre post row at_. rewrite Hlog. by destruct pre.
  - unfold compensations. rewrite Hlog. simpl. lia.
  - apply Forall_fmap, Forall_forall. intros [env c] _ b. apply paid_call.
Qed.
End concurrency.

(** C9. Exactly-once compensation: detections, worker passes, admin cancellations
    and fill proofs, any number of each, interleaved in any order, compensate a
    slash at most once, and only one whose row is cancelled. *)
Theorem slash_compensated_once {R} `{IntentsRepository R} (w : SagaWorld R) calls w' ps' id
    (Hwf : wf (sw_rows w)) (Hid : forall k r, get k (sw_rows w) = Some r -> ps_intentId r = k) (Hlog : sw_log w = [])
    (Hrun : rtc pool_step (w, (fun ec => saga_prog ec.1 ec.2) <$> calls) (w', ps')) :
  (compensations id w' <= 1)%nat /\
  (compensations id w' = 1%nat -> exists row, get id (sw_rows w') = Some row /\ ps_state row = ps_cancelled).
Proof.
  destruct (saga_reaches id w calls w' ps' Hwf Hid Hlog Hrun) as [_ Hle]. revert Hle. unfold cancelled_once.
  destruct (get id (sw_rows w')) as [row|]; [case_decide|]; intros Hle; (split; [lia|intros H1]); [by exists row|lia..].
Qed.

(** C10. No slash is asked of the registry before its challenge window is over, nor
    without a check of the chain that found no fill: every registry call, in
    any interleaving, is made at a time past the challenge end recorded for
    that intent, and after a query for that very slash in the same pass that
    answered "no fill". *)
Theorem slash_only_after_window {R} `{IntentsRepository R} (w : SagaWorld R) calls w' ps' pre post row at_
    (Hwf : wf (sw_rows w)) (Hid : forall k r, get k (sw_rows w) = Some r -> ps_intentId r = k) (Hlog : sw_log w = [])
    (Hrun : rtc pool_step (w, (fun ec => saga_prog ec.1 ec.2) <$> calls) (w', ps'))
    (Hcall : sw_log w' = pre ++ SlashRequested row at_ :: post) :
  FillVerified row at_ (Ok None) ∈ pre /\
  exists cur, get (ps_intentId row) (sw_rows w') = Some cur /\ ps_challengeEndsAt cur <= at_ /\
    ps_solverAddress cur = ps_solverAddress row.
Proof.
  destruct (saga_reaches "" w calls w' ps' Hwf Hid Hlog Hrun) as [(_ & _ & Hl) _].
  destruct (Hl _ _ _ _ Hcall) as (Hw & Hv & cur & Hc & Ht). split; [done|]. exists cur.
  destruct Ht as (? & ? & ? & ?). split_and!; [done|lia|done].
Qed.

(** * Compensation restores *)

Lemma run_compensate {R} `{IntentsRepository R} env id to ctx tx now (w : World R) i :
  repo_find id (w_repo w) = Some i -> state i = slashed -> to = filled \/ to = expired ->
  exists u w1, run (compensateSlash env id to ctx tx now) w = (Ok (Some u), w1) /\
    repo_find id (w_repo w1) = Some u /\ state u = to.
Proof.
  intros Hi Hs Hto. unfold compensateSlash. rewrite run_pbind, run_find. cbv beta iota. rewrite Hi. cbv beta iota.
  rewrite Hs, bool_decide_eq_true_2 by done. cbn [negb].
  destruct (repo_transition_wins id slashed (tx_patch tx) to (w_repo w) i Hi Hs) as (r1 & Hr1 & Hf1).
  assert (Hp : exists plan, plan_transition (R := R) env (intentId i) slashed to
    {| tc_actor := tc_actor ctx; tc_reason := tc_reason ctx; tc_metadata := tc_metadata ctx;
       tc_override := Some true; tc_at := tc_at ctx |} = Done plan) by (destruct Hto as [-> | ->]; by eexists).
  destruct Hp as [plan ->]. cbn [pbind]. rewrite run_pbind, run_atomic. rewrite Hr1. cbn [written fst snd].
  set (u := stamp _ _ _) in *. eexists u, _. split_and!; [reflexivity| |unfold u; destruct tx; done].
  simpl. by destruct (e_fillLedger env && truthy_str (solver i)).
Qed.

Lemma run_on_solvers {R} {A} (p : prog SolverState SolverError A) (w : SagaWorld R) a s' :
  run p (sw_solvers w) = (Ok a, s') -> run (on_solvers p) w = (Ok a, put_solvers s' w).
Proof. intros Hp. unfold on_solvers. rewrite run_zoom, Hp by (intros; by try destruct s). done. Qed.

Lemma run_on_intents {R} {A} (p : prog (World R) ServiceError A) (w : SagaWorld R) a s' :
  run p (sw_intents w) = (Ok a, s') -> run (on_intents p) w = (Ok a, put_intents s' w).
Proof. intros Hp. unfold on_intents. rewrite run_zoom, Hp by (intros; by try destruct s). done. Qed.

Lemma run_rollback a id t s r : get a (sv_store s) = Some r -> so_address r = a -> 0 <= so_fillsFailed r ->
  exists o s', run (rollbackPenalty id (Some a)) (run (recordFailedFill a id t) s).2 = (Ok o, s') /\ get a (sv_store s') = Some r.
Proof.
  intros Hr Ha Hf. destruct (run_failed a id t s r Hr Ha) as [Hst Hpen].
  set (s1 := (run _ s).2) in *. unfold rollbackPenalty, findByAddress, persist. simpl. rewrite Hpen. simpl. rewrite Hst. simpl.
  eexists _, _. split; [reflexivity|]. simpl. rewrite Ha, get_set_eq. f_equal.
  replace (Z.max 0 (so_fillsFailed r + 1 - 1)) with (so_fillsFailed r) by lia. apply with_failed_id.
Qed.

(** A cancelled slash leaves no trace on the solver: cancelling before the
    broadcast a slash whose missed fill was counted against its solver
    succeeds, gives the solver's record back exactly as it was before the
    missed fill, moves the intent out of [slashed] to [expired], and marks the
    row cancelled. *)
Theorem cancellation_restores {R} `{IntentsRepository R} env (w : SagaWorld R) id actor note s a t s0 r i
    (Hrow : get id (sw_rows w) = Some s) (Hid : ps_intentId s = id) (Hst : ps_state s ∈ CANCELLABLE)
    (Hfree : ps_lockedUntil s = None) (Ha : ps_solverAddress s = a)
    (Hsol : sw_solvers w = (run (recordFailedFill a id t) s0).2)
    (Hr : get a (sv_store s0) = Some r) (Hra : so_address r = a) (Hf : 0 <= so_fillsFailed r)
    (Hi : repo_find id (w_repo (sw_intents w)) = Some i) (Hsl : state i = slashed) :
  exists c w', run (cancelByAdmin env id actor note) w = (Ok c, w') /\
    ps_state c = ps_cancelled /\ get id (sw_rows w') = Some c /\
    get a (sv_store (sw_solvers w')) = Some r /\
    exists i', repo_find id (w_repo (sw_intents w')) = Some i' /\ state i' = expired.
Proof.
  unfold cancelByAdmin. rewrite run_pbind. cbn [run reads]. unfold slash_findByIntent. rewrite Hrow. cbv beta iota.
  unfold cancel. rewrite !run_pbind. unfold moves at 1, on_rows at 1. rewrite run_atomic.
  unfold slash_transition. rewrite Hid, Hrow, (bool_decide_eq_false_2 (scr_admin = scr_submit_failed)) by done.
  rewrite (bool_decide_eq_true_2 (ps_state s ∈ CANCELLABLE)) by done. rewrite Hfree. cbn [negb fst snd].
  rewrite run_pbind. cbn [run modify].
  destruct (run_rollback a id t s0 r Hr Hra Hf) as (o & s' & Hroll & Hback).
  rewrite !run_pbind. rewrite Ha. erewrite run_on_solvers by (cbn [sw_solvers log_event put_rows]; rewrite Hsol; exact Hroll).
  rewrite !run_pbind.
  match goal with |- context [run (on_intents (compensateSlash ?e ?k ?to ?ctx ?tx ?now)) ?w1] =>
    destruct (run_compensate e k to ctx tx now (sw_intents w1) i) as (u & w2 & Hc & Hu & Hsu); [exact Hi|exact Hsl|by right|];
    rewrite (run_on_intents _ _ _ _ Hc)
  end.
  cbn [run pbind modify]. eexists _, _. split; [reflexivity|]. simpl. rewrite get_set_eq.
  split_and!; [done..|]. by exists u.
Qed.

(** * Concrete runs *)

(** A window of 10 minutes; no fill on the chain; the registry accepts. *)
Definition demo_saga_env (clock : Z) : SagaEnv := {|
  se_challengeWindowSeconds := 600; se_clockSkewToleranceSeconds := 30; se_maxSubmitAttempts := 5; se_clock := clock;
  se_uuid := "u1"; se_service := demo_env; se_findLandedFill := fun _ _ _ _ => Ok None;
  se_verifyFillProof := fun _ _ _ => Ok None;
  se_slashSolver := fun _ _ _ => RegistryAnswers {| rg_failed := false; rg_submitted := true; rg_txHash := Some "h1"; rg_detail := "ok" |};
  se_check := fun _ => Ok tl_success |}%string.

(** Intent [i1] was slashed at 9000 s and its solver's missed fill counted. *)
Definition demo_saga : SagaWorld InMemoryRepo :=
  {| sw_rows := []; sw_solvers := (run (recordFailedFill "GS" "i1" 9000) demo_solvers).2; sw_intents := slashed_world;
     sw_running := false; sw_metrics := []; sw_log := [] |}.

Definition demo_detect : SagaCall :=
  CDetect {| dm_intentId := "i1"; dm_solverAddress := "GS"; dm_reason := "late"; dm_fillDeadline := 8000; dm_detectedAt := 9000 |}.

Definition demo_detected : SagaWorld InMemoryRepo := (run (saga_prog (demo_saga_env 9000000) demo_detect) demo_saga).2.

(** Two cancellations race: the admin's, and the worker's on a landed fill. *)
Definition demo_calls : list (SagaEnv * SagaCall) :=
  [(demo_saga_env 9000000, demo_detect); (demo_saga_env 9001000, CCancelByAdmin "i1" "root" "mistake");
   (demo_saga_env 9001000, CCancelByFillProof "i1" "GS" "tx1")].

Definition demo_race := schedule ([0; 0; 0; 0] ++ [1; 2; 2; 1; 2; 1; 2] ++ replicate 30 1 ++ replicate 30 2)%nat demo_saga
  ((fun ec => saga_prog ec.1 ec.2) <$> demo_calls).

Lemma demo_race_steps :
  rtc pool_step (demo_saga, (fun ec => saga_prog ec.1 ec.2) <$> demo_calls) (demo_race.1, demo_race.2).
Proof. rewrite <- surjective_pairing. apply schedule_steps. Qed.

Lemma slash_compensated_once_witness : compensations "i1" demo_race.1 = 1%nat /\
  (exists row, get "i1" (sw_rows demo_race.1) = Some row /\ ps_state row = ps_cancelled).
Proof.
  assert (H1 : compensations "i1" demo_race.1 = 1%nat) by (vm_compute; reflexivity). split; [exact H1|].
  apply (slash_compensated_once demo_saga demo_calls demo_race.1 demo_race.2 "i1" empty_wf ltac:(done) eq_refl demo_race_steps).
  exact H1.
Defined.

Definition demo_pass_calls : list (SagaEnv * SagaCall) :=
  [(demo_saga_env 9000000, demo_detect); (demo_saga_env 9600000, CProcessDue 9600000)].
Definition demo_pass := schedule (replicate 10 0 ++ replicate 30 1)%nat demo_saga ((fun ec => saga_prog ec.1 ec.2) <$> demo_pass_calls).

Lemma slash_only_after_window_witness : exists row,
  (exists pre post, sw_log demo_pass.1 = pre ++ SlashRequested row 9600000 :: post) /\ ps_challengeEndsAt row = 9600000 /\
  exists cur, get (ps_intentId row) (sw_rows demo_pass.1) = Some cur /\ ps_challengeEndsAt cur <= 9600000.
Proof.
  destruct (sw_log demo_pass.1) as [|e1 [|e2 [|]]] eqn:E; try (vm_compute in E; discriminate).
  destruct e2 as [| row at_ | |]; try (vm_compute in E; discriminate). exists row.
  assert (Hat : at_ = 9600000) by (vm_compute in E; congruence). subst at_.
  assert (Hch : ps_challengeEndsAt row = 9600000) by (vm_compute in E; injection E as <- <-; reflexivity).
  destruct (slash_only_after_window demo_saga demo_pass_calls demo_pass.1 demo_pass.2 [e1] [] row 9600000
    empty_wf ltac:(done) eq_refl) as (_ & cur & Hc & Hle & _).
  { rewrite <- surjective_pairing. apply schedule_steps. }
  { exact E. }
  split; [by exists [e1], []|]. split; [exact Hch|]. exists cur. split; [exact Hc|exact Hle].
Defined.

Lemma cancellation_restores_witness : exists c w',
  run (cancelByAdmin (demo_saga_env 9001000) "i1" "root" "mistake") demo_detected = (Ok c, w') /\ ps_state c = ps_cancelled /\
  get "GS" (sv_store (sw_solvers w')) = Some demo_solver.
Proof.
  destruct (get "i1" (sw_rows demo_detected)) as [s|] eqn:Es; [|vm_compute in Es; discriminate].
  destruct (repo_find "i1" (w_repo (sw_intents demo_detected))) as [i|] eqn:Ei; [|vm_compute in Ei; discriminate].
  assert (Hs : ps_intentId s = "i1"%string /\ ps_state s = ps_challenge_window /\ ps_lockedUntil s = None /\ ps_solverAddress s = "GS"%string)
    by (vm_compute in Es; injection Es as <-; done).
  destruct Hs as (H1 & H2 & H3 & H4).
  destruct (cancellation_restores (demo_saga_env 9001000) demo_detected "i1" "root" "mistake" s "GS" 9000 demo_solvers demo_solver i)
    as (c & w' & Hrun & Hc & _ & Hr & _);
    [exact Es|exact H1|rewrite H2; right; left|exact H3|exact H4|reflexivity|reflexivity|reflexivity|simpl; lia|exact Ei
    |vm_compute in Ei; injection Ei as <-; reflexivity|].
  exists c, w'. split; [exact Hrun|]. split; [exact Hc|exact Hr].
Defined.

(** A worker that stalls past its 120 s lease still asks the registry to slash:
    the lease keeps an admin from cancelling underneath it only until it ends,
    and nothing checks the row again before the call, so the solver is slashed
    on-chain after its slash was cancelled and its penalty rolled back. *)
Theorem stalled_worker_slashes_cancelled :
  let calls := [saga_prog (demo_saga_env 9600000) (CProcessDue 9600000);
                saga_prog (demo_saga_env 9720001) (CCancelByAdmin "i1" "root" "filled off-chain")] in
  let c := schedule (replicate 5 0 ++ replicate 40 1 ++ replicate 40 0)%nat demo_detected calls in
  (fun e => match e with FillVerified _ _ _ => 0 | Compensated _ => 1 | SlashCancelBroadcast _ _ _ => 2 | SlashRequested _ _ => 3 end)
    <$> sw_log c.1 = [0; 1; 2; 3] /\
  ps_state <$> get "i1" (sw_rows c.1) = Some ps_cancelled /\
  get "GS" (sv_store (sw_solvers c.1)) = Some demo_solver /\
  c.2 = [Done tt; Done tt].
Proof. vm_compute. done. Qed.

(** A process that dies between the [cancelled] transition and the rollback
    leaves the slash uncompensated for good: the row is never due again, later
    passes and cancellations do nothing, and the missed fill stays counted. *)
Theorem crash_loses_compensation :
  let crashed := (schedule [0; 0]%nat demo_detected [saga_prog (demo_saga_env 9001000) (CCancelByAdmin "i1" "root" "mistake")]).1 in
  let later := foldl (fun w c => (run (saga_prog (demo_saga_env 99000000) c) w).2) crashed
    [CProcessDue 99000000; CCancelByAdmin "i1" "root" "again"; CCancelByFillProof "i1" "GS" "tx1"; demo_detect] in
  ps_state <$> get "i1" (sw_rows later) = Some ps_cancelled /\
  compensations "i1" later = 0%nat /\
  so_fillsFailed <$> get "GS" (sv_store (sw_solvers later)) = Some (so_fillsFailed demo_solver + 1) /\
  state <$> repo_find "i1" (w_repo (sw_intents later)) = Some slashed.
Proof. vm_compute. done. Qed.
