(* ===== verification/SignerPolicy.v ===== *)
(** The signer policy: [src/soroban/signer-policy/policy.ts], which decides
    whether a transaction may be signed.

    A transaction reaches the policy decoded: its operations, fees and the
    authorization entries found in it.  The Stellar SDK parses the envelope;
    what the code does with the parsed invocation trees is [flatten] and
    [decode_auth].  Emitting alerts is left out. *)
From stdpp Require Import sorting.
From S2P Require Import Prelude JsMap BigInt.
Local Open Scope Z_scope.

Inductive PolicyAction := act_allow | act_deny | act_warn.
#[export] Instance PolicyAction_eq_dec : EqDecision PolicyAction.
Proof. solve_decision. Defined.

Definition action_name (a : PolicyAction) : string :=
  match a with act_allow => "allow" | act_deny => "deny" | act_warn => "warn" end.

Record PolicyRule := {
  pr_action : option PolicyAction; pr_contractId : option string; pr_method : option string; pr_source : option string
}.

Record PolicyBudget := { pb_maxAuthEntries : option Z; pb_windowMs : option Z }.

Record PolicyDocument := {
  pd_version : option Z; pd_defaultAction : option PolicyAction; pd_maxInclusionFee : option Z;
  pd_maxResourceFee : option Z; pd_budget : option PolicyBudget; pd_rules : option (list PolicyRule)
}.

(** An entry is an object: its string properties, and its [address] if that is
    an object. *)
Record AuthEntry := { au_props : jsmap string; au_address : option (jsmap string); au_depth : nat }.

Record DecodedTx := {
  tx_source : string; tx_fee : Z; tx_resourceFee : Z; tx_operations : list string; tx_authEntries : list AuthEntry
}.

Record PolicyDecision := { dec_status : PolicyAction; dec_reason : string; dec_matchedRule : option string; dec_budgetKey : string }.

Definition DEFAULT_POLICY : PolicyDocument := {|
  pd_version := Some 1; pd_defaultAction := Some act_deny; pd_maxInclusionFee := Some 1000000;
  pd_maxResourceFee := Some 1000000; pd_budget := Some {| pb_maxAuthEntries := Some 8; pb_windowMs := Some 60000 |};
  pd_rules := Some [] |}.

(** [loadPolicyFromFile]: the file over the defaults, the budget merged field
    by field; an unreadable file is the defaults.  [parsed] is the parsed
    file. *)
Definition loadPolicy (parsed : option PolicyDocument) : PolicyDocument :=
  match parsed with
  | None => DEFAULT_POLICY
  | Some p =>
      let over {A} (a b : option A) := match a with Some _ => a | None => b end in
      {| pd_version := over (pd_version p) (pd_version DEFAULT_POLICY);
         pd_defaultAction := over (pd_defaultAction p) (pd_defaultAction DEFAULT_POLICY);
         pd_maxInclusionFee := over (pd_maxInclusionFee p) (pd_maxInclusionFee DEFAULT_POLICY);
         pd_maxResourceFee := over (pd_maxResourceFee p) (pd_maxResourceFee DEFAULT_POLICY);
         pd_budget := Some
           {| pb_maxAuthEntries := over (pd_budget p ≫= pb_maxAuthEntries) (Some 8);
              pb_windowMs := over (pd_budget p ≫= pb_windowMs) (Some 60000) |};
         pd_rules := Some (default [] (pd_rules p)) |}
  end.

(** * Budgets *)

(** [BudgetStore]: per key, the times of the evaluations still in the window. *)
Definition BudgetStore := jsmap (list Z).

Definition record_use (key : string) (nowMs windowMs : Z) (st : BudgetStore) : Z * BudgetStore :=
  let active := filter (fun t => nowMs - t <= windowMs) (default [] (get key st)) ++ [nowMs] in
  (Z.of_nat (length active), set key active st).

(** * Entries *)

(** The first of the named properties that is a non-blank string. *)
Fixpoint readString (m : jsmap string) (ks : list string) : option string :=
  match ks with
  | [] => None
  | k :: ks =>
      match get k m with
      | Some v => if truthy_str (Some (trim v)) then Some v else readString m ks
      | None => readString m ks
      end
  end.

Definition toContractId (e : AuthEntry) : option string :=
  match readString (au_props e) ["contractId"; "contract_id"; "contract"; "contractAddress"]%string with
  | Some c => Some c
  | None => readString (default [] (au_address e)) ["contractId"; "contract_id"; "contract"]%string
  end.

Definition toMethodName (e : AuthEntry) : option string :=
  readString (au_props e) ["functionName"; "function_name"; "method"; "methodName"; "name"]%string.

Definition toSource (e : AuthEntry) : option string :=
  readString (au_props e) ["source"; "sourceAccount"; "source_account"; "from"]%string.

(** [want && want !== "*" && got !== want] refuses. *)
Definition field_ok (want got : option string) : bool :=
  negb (truthy_str want) || bool_decide (want = Some "*"%string) || bool_decide (got = want).

Definition matchesRule (r : PolicyRule) (e : AuthEntry) : bool :=
  if negb (field_ok (pr_contractId r) (toContractId e)) then false
  else if negb (field_ok (pr_method r) (toMethodName e)) then false
  else if negb (field_ok (pr_source r) (toSource e)) then false
  else true.

(** An authorised invocation, as the SDK parses it: a contract call, or another
    host function, with the invocations it makes. *)
Inductive Invocation :=
  | ContractFn (contractId functionName : string) (subs : list Invocation)
  | OtherFn (switchName : string) (subs : list Invocation).

Definition entry_of (contractId functionName : string) (depth : nat) : AuthEntry :=
  {| au_props := [("contractId", contractId); ("functionName", functionName)]%string; au_address := None; au_depth := depth |}.

Fixpoint flatten (inv : Invocation) (depth : nat) : list AuthEntry :=
  match inv with
  | ContractFn c f subs => entry_of c f depth :: concat ((fun i => flatten i (S depth)) <$> subs)
  | OtherFn n subs => entry_of "__NON_CONTRACT__" n depth :: concat ((fun i => flatten i (S depth)) <$> subs)
  end.

(** The auth list of the transaction, or else that of its operations. *)
Definition decode_auth (highLevel opLevel : list Invocation) : list AuthEntry :=
  concat ((fun i => flatten i 0) <$> match highLevel with [] => opLevel | _ => highLevel end).

(** * The decision *)

Definition allow_rules (p : PolicyDocument) : list PolicyRule :=
  filter (fun r => pr_action r = Some act_allow) (default [] (pd_rules p)).

Definition all_allowed (p : PolicyDocument) (tx : DecodedTx) : bool :=
  forallb (fun e => existsb (fun r => matchesRule r e) (allow_rules p)) (tx_authEntries tx).

Definition has_allowlist (p : PolicyDocument) (tx : DecodedTx) : bool :=
  negb (bool_decide (tx_authEntries tx = [])) && negb (bool_decide (allow_rules p = [])).

Definition budgetWindow (p : PolicyDocument) (dflt : option Z) : Z :=
  Z.max 1 (match pd_budget p ≫= pb_windowMs with Some w => w | None => default 60000 dflt end).
Definition budgetLimit (p : PolicyDocument) (dflt : option Z) : Z :=
  Z.max 0 (match pd_budget p ≫= pb_maxAuthEntries with Some n => n | None => default 8 dflt end).

Definition budget_key (tx : DecodedTx) : string := if bool_decide (tx_source tx = ""%string) then "anonymous" else tx_source tx.

Definition evaluatePolicy (p : PolicyDocument) (tx : DecodedTx) (nowMs : Z) (windowOpt limitOpt : option Z) (st : BudgetStore)
    : PolicyDecision * BudgetStore :=
  let key := budget_key tx in
  let answer s why m := {| dec_status := s; dec_reason := why; dec_matchedRule := m; dec_budgetKey := key |} in
  let deny why := answer act_deny why None in
  let maxInclusionFee := default 1000000 (pd_maxInclusionFee p) in
  let maxResourceFee := default 1000000 (pd_maxResourceFee p) in
  if existsb (fun n => bool_decide (n = "payment"%string)) (tx_operations tx) then (deny "classic_payment_forbidden"%string, st)
  else if maxInclusionFee <? tx_fee tx then
    (deny ("inclusion_fee_exceeded:" +:+ toString (tx_fee tx) +:+ ">" +:+ toString maxInclusionFee)%string, st)
  else if maxResourceFee <? tx_resourceFee tx then
    (deny ("resource_fee_exceeded:" +:+ toString (tx_resourceFee tx) +:+ ">" +:+ toString maxResourceFee)%string, st)
  else if existsb (fun e => bool_decide (get "contractId" (au_props e) = Some "__NON_CONTRACT__"%string)) (tx_authEntries tx) then
    (deny "non_contract_auth_forbidden"%string, st)
  else if has_allowlist p tx && negb (all_allowed p tx) then (deny "auth_entry_not_allowed"%string, st)
  else
    let '(usage, st') := record_use key nowMs (budgetWindow p windowOpt) st in
    if budgetLimit p limitOpt <? usage then
      (deny ("budget_exceeded:" +:+ toString usage +:+ ">" +:+ toString (budgetLimit p limitOpt))%string, st')
    else if has_allowlist p tx && all_allowed p tx then
      (answer act_allow "allowlist_match"%string
         ((fun r => default "*" (pr_contractId r) +:+ "/" +:+ default "*" (pr_method r))%string <$> head (allow_rules p)), st')
    else
      let d := default act_deny (pd_defaultAction p) in
      (answer d ("default_action:" +:+ action_name d)%string None, st').

(** * What an allowed transaction looks like *)

(** The checks that come before the budget. *)
Definition passes_checks (p : PolicyDocument) (tx : DecodedTx) : Prop :=
  "payment"%string ∉ tx_operations tx /\ tx_fee tx <= default 1000000 (pd_maxInclusionFee p) /\
  tx_resourceFee tx <= default 1000000 (pd_maxResourceFee p) /\
  (forall e, e ∈ tx_authEntries tx -> get "contractId" (au_props e) <> Some "__NON_CONTRACT__"%string) /\
  (has_allowlist p tx = true -> all_allowed p tx = true).

Lemma not_existsb {A} (P : A -> Prop) `{forall x, Decision (P x)} l :
  existsb (fun x => bool_decide (P x)) l = false <-> forall x, x ∈ l -> ~ P x.
Proof.
  induction l as [|y l IH]; simpl; [split; [intros _ x Hx; by apply not_elem_of_nil in Hx|done]|].
  rewrite orb_false_iff, bool_decide_eq_false, IH. split.
  - intros [Hy Hl] x [->|Hx]%elem_of_cons; auto.
  - intros Hall. split; [apply Hall; left|]. intros x Hx. apply Hall. by right.
Qed.

(** Every branch: a transaction that fails a check is denied and not counted
    against the budget; one that passes them is counted, and then denied over
    the limit, allowed by the allowlist, or given the default action. *)
Lemma evaluate_cases p tx now wo lo st :
  let '(d, st') := evaluatePolicy p tx now wo lo st in
  let '(usage, st1) := record_use (budget_key tx) now (budgetWindow p wo) st in
  (~ passes_checks p tx /\ dec_status d = act_deny /\ st' = st) \/
  (passes_checks p tx /\ st' = st1 /\
     ((budgetLimit p lo < usage /\ dec_status d = act_deny) \/
      (usage <= budgetLimit p lo /\ has_allowlist p tx = true /\ dec_status d = act_allow) \/
      (usage <= budgetLimit p lo /\ has_allowlist p tx = false /\ dec_status d = default act_deny (pd_defaultAction p)))).
Proof.
  unfold evaluatePolicy. destruct (record_use _ _ _ _) as [usage st1] eqn:Eu.
  destruct (existsb _ (tx_operations tx)) eqn:Epay.
  { left. split; [|done]. intros (Hp & _). apply existsb_exists in Epay as (n & Hn & ->%bool_decide_eq_true).
    by apply Hp, list_elem_of_In. }
  destruct (Z.ltb_spec (default 1000000 (pd_maxInclusionFee p)) (tx_fee tx)) as [Hf|Hf].
  { left. split; [|done]. intros (_ & H & _). lia. }
  destruct (Z.ltb_spec (default 1000000 (pd_maxResourceFee p)) (tx_resourceFee tx)) as [Hr|Hr].
  { left. split; [|done]. intros (_ & _ & H & _). lia. }
  destruct (existsb _ (tx_authEntries tx)) eqn:Enc.
  { left. split; [|done]. intros (_ & _ & _ & H & _).
    apply existsb_exists in Enc as (e & He%list_elem_of_In & Hb%bool_decide_eq_true). by apply (H e). }
  assert (Hpay : "payment"%string ∉ tx_operations tx) by (intros Hin; by apply (proj1 (not_existsb _ _) Epay _ Hin)).
  assert (Hnc := proj1 (not_existsb _ _) Enc).
  destruct (has_allowlist p tx) eqn:Eh; simpl.
  - destruct (all_allowed p tx) eqn:Ea; simpl.
    + destruct (Z.ltb_spec (budgetLimit p lo) usage); right; (split; [done|]); (split; [done|]); [by left|]. right. by left.
    + left. split; [|done]. intros (_ & _ & _ & _ & H). rewrite Eh, Ea in H. by specialize (H eq_refl).
  - assert (Hc : passes_checks p tx) by (split_and!; [done..|by rewrite Eh]).
    destruct (Z.ltb_spec (budgetLimit p lo) usage); right; (split; [done|]); (split; [done|]); [by left|]. right. by right.
Qed.

(** [x] is [inv] or one of the invocations it makes, at any depth. *)
Inductive occurs (x : Invocation) : Invocation -> Prop :=
  | occurs_here : occurs x x
  | occurs_contract c f subs i : i ∈ subs -> occurs x i -> occurs x (ContractFn c f subs)
  | occurs_other n subs i : i ∈ subs -> occurs x i -> occurs x (OtherFn n subs).

Definition shows (x : Invocation) (e : AuthEntry) : Prop :=
  exists d, e = match x with ContractFn c f _ => entry_of c f d | OtherFn n _ => entry_of "__NON_CONTRACT__" n d end.

Lemma occurs_flatten x inv : occurs x inv -> forall d, exists e, e ∈ flatten inv d /\ shows x e.
Proof.
  induction 1 as [|c f subs i Hi _ IH|n subs i Hi _ IH]; intros d.
  - exists (match x with ContractFn c f _ => entry_of c f d | OtherFn n _ => entry_of "__NON_CONTRACT__" n d end).
    split; [destruct x; simpl; left|by exists d].
  - destruct (IH (S d)) as (e & He & Hs). exists e. split; [|done]. simpl. right. apply list_elem_of_In, in_concat.
    exists (flatten i (S d)). split; apply list_elem_of_In; [apply list_elem_of_fmap; by exists i|done].
  - destruct (IH (S d)) as (e & He & Hs). exists e. split; [|done]. simpl. right. apply list_elem_of_In, in_concat.
    exists (flatten i (S d)). split; apply list_elem_of_In; [apply list_elem_of_fmap; by exists i|done].
Qed.

Lemma field_ok_exact want got w : field_ok want got = true -> want = Some w -> w <> ""%string -> w <> "*"%string -> got = Some w.
Proof.
  unfold field_ok. intros H -> Hne Hstar. simpl in H. rewrite bool_decide_eq_false_2 in H by done. simpl in H.
  rewrite bool_decide_eq_false_2 in H by congruence. simpl in H. by apply bool_decide_eq_true in H.
Qed.

Lemma entry_contract c f d w : toContractId (entry_of c f d) = Some w -> w = c.
Proof. unfold toContractId. simpl. destruct (negb _); simpl; [by intros [= ->]|done]. Qed.

Lemma entry_method c f d w : toMethodName (entry_of c f d) = Some w -> w = f.
Proof. unfold toMethodName. simpl. destruct (negb _); simpl; [by intros [= ->]|done]. Qed.

(** C13. The allowlist reaches every call: when a policy with allow rules allows a
    transaction, the transaction has no classic payment, its fees are within
    the caps, and every invocation authorised in it, nested to any depth, is a
    contract call that some allow rule names - by contract and by method where
    the rule gives them. *)
Theorem allowed_calls_covered p tx high ops now wo lo st root x
    (Hauth : tx_authEntries tx = decode_auth high ops)
    (Hrules : allow_rules p <> [])
    (Hallow : dec_status (evaluatePolicy p tx now wo lo st).1 = act_allow)
    (Hroot : root ∈ match high with [] => ops | _ => high end) (Hx : occurs x root) :
  "payment"%string ∉ tx_operations tx /\ tx_fee tx <= default 1000000 (pd_maxInclusionFee p) /\
  tx_resourceFee tx <= default 1000000 (pd_maxResourceFee p) /\
  exists c f subs r, x = ContractFn c f subs /\ r ∈ default [] (pd_rules p) /\ pr_action r = Some act_allow /\
    (forall w, pr_contractId r = Some w -> w <> ""%string -> w <> "*"%string -> c = w) /\
    (forall w, pr_method r = Some w -> w <> ""%string -> w <> "*"%string -> f = w).
Proof.
  pose proof (evaluate_cases p tx now wo lo st) as Hc. destruct (evaluatePolicy p tx now wo lo st) as [d st'].
  destruct (record_use _ _ _ _) as [usage st1]. simpl in Hallow.
  destruct Hc as [(_ & Hd & _)|((H1 & H2 & H3 & H4 & H5) & _ & _)]; [congruence|]. split_and!; [done..|].
  destruct (occurs_flatten x root Hx 0) as (e & He & dep & Hs).
  assert (Hin : e ∈ tx_authEntries tx).
  { rewrite Hauth. apply list_elem_of_In, in_concat. exists (flatten root 0).
    split; apply list_elem_of_In; [apply list_elem_of_fmap; by exists root|done]. }
  assert (Hall : has_allowlist p tx = true).
  { unfold has_allowlist. rewrite !bool_decide_eq_false_2; [done|done|]. intros Hnil. rewrite Hnil in Hin. by apply not_elem_of_nil in Hin. }
  apply H5 in Hall. unfold all_allowed in Hall. rewrite forallb_forall in Hall.
  destruct (proj1 (existsb_exists _ _) (Hall e (proj1 (list_elem_of_In _ _) Hin))) as (r & Hr%list_elem_of_In & Hm).
  apply list_elem_of_filter in Hr as [Hact Hr]. destruct x as [c f subs|n subs]; [|by apply H4 in Hin; rewrite Hs in Hin; simpl in Hin].
  exists c, f, subs, r. unfold matchesRule in Hm. rewrite Hs in Hm. split_and!; [done..| |]; intros w Hw Hne Hst.
  - destruct (field_ok (pr_contractId r) _) eqn:E; [|done]. by rewrite (entry_contract c f dep w) by (eapply field_ok_exact; eauto).
  - destruct (field_ok (pr_contractId r) _); [|done]. simpl in Hm. destruct (field_ok (pr_method r) _) eqn:E; [|done].
    by rewrite (entry_method c f dep w) by (eapply field_ok_exact; eauto).
Qed.

(** * The budget *)

(** Evaluations in order, all under one policy and one store. *)
Fixpoint evaluate_all (p : PolicyDocument) (wo lo : option Z) (evs : list (DecodedTx * Z)) (st : BudgetStore)
    : list (Z * PolicyDecision) :=
  match evs with
  | [] => []
  | (tx, t) :: evs =>
      let '(d, st') := evaluatePolicy p tx t wo lo st in (t, d) :: evaluate_all p wo lo evs st'
  end.

(** Not denied, for the source [key], in the window that ends at [t]. *)
Definition granted (key : string) (w t : Z) (r : Z * PolicyDecision) : Prop :=
  dec_budgetKey r.2 = key /\ dec_status r.2 <> act_deny /\ t - r.1 <= w.
#[local] Instance granted_dec key w t r : Decision (granted key w t r).
Proof. unfold granted. apply _. Defined.

Definition recent (w t : Z) (l : list Z) : nat := length (filter (fun x => t - x <= w) l).

(** The store still holds every grant that can matter from time [T] on. *)
Definition budget_inv (w T : Z) (hist : list (Z * PolicyDecision)) (st : BudgetStore) : Prop :=
  forall key t, T <= t -> (length (filter (granted key w t) hist) <= recent w t (default [] (get key st)))%nat.

Lemma budget_inv_mono w T T' hist st : T <= T' -> budget_inv w T hist st -> budget_inv w T' hist st.
Proof. intros Hle H key t Ht. apply H. lia. Qed.

Lemma granted_snoc key w t hist r :
  length (filter (granted key w t) (hist ++ [r])) =
    (length (filter (granted key w t) hist) + if decide (granted key w t r) then 1 else 0)%nat.
Proof. rewrite filter_app, length_app, filter_cons, filter_nil. by destruct (decide _). Qed.

Lemma recent_record w now t l : now <= t ->
  recent w t (filter (fun x => now - x <= w) l ++ [now]) = (recent w t l + if decide (t - now <= w)%Z then 1 else 0)%nat.
Proof.
  intros Ht. unfold recent. rewrite filter_app, length_app. f_equal.
  - f_equal. rewrite list_filter_filter. apply list_filter_iff. intros x. split; [by intros [? _]|]. intros Hx. split; [done|lia].
  - rewrite filter_cons, filter_nil. by destruct (decide _).
Qed.

Lemma decision_key p tx now wo lo st : dec_budgetKey (evaluatePolicy p tx now wo lo st).1 = budget_key tx.
Proof. unfold evaluatePolicy. destruct (record_use _ _ _ _). by repeat case_match. Qed.

Lemma evaluate_inv p tx now wo lo st T hist : T <= now ->
  let w := budgetWindow p wo in
  budget_inv w T hist st -> let '(d, st') := evaluatePolicy p tx now wo lo st in
  budget_inv w now (hist ++ [(now, d)]) st' /\
  (dec_status d <> act_deny ->
     Z.of_nat (length (filter (granted (budget_key tx) w now) (hist ++ [(now, d)]))) <= budgetLimit p lo).
Proof.
  intros HT w Hinv. pose proof (evaluate_cases p tx now wo lo st) as Hc. pose proof (decision_key p tx now wo lo st) as Hk.
  destruct (evaluatePolicy p tx now wo lo st) as [d st']. simpl in Hk.
  destruct (record_use (budget_key tx) now (budgetWindow p wo) st) as [usage st1] eqn:Eu.
  injection Eu as Hu Hst1. fold w in Hu, Hst1.
  destruct Hc as [(_ & Hd & ->)|(_ & -> & Hd)].
  { split; [|done]. intros key t Ht. rewrite granted_snoc, decide_False by (by intros (_ & ? & _)).
    rewrite Nat.add_0_r. apply Hinv. lia. }
  assert (Hnew : budget_inv w now (hist ++ [(now, d)]) st1).
  { intros key t Ht. rewrite granted_snoc, <- Hst1, get_set. specialize (Hinv key t ltac:(lia)).
    destruct (decide (budget_key tx = key)) as [<-|Hkey].
    - simpl. rewrite recent_record by done. destruct (decide (granted _ _ _ _)) as [(_ & _ & Hw)|]; [|lia].
      simpl in Hw. rewrite decide_True by done. lia.
    - rewrite decide_False; [lia|]. intros (Hk' & _). simpl in Hk'. congruence. }
  split; [done|]. intros Hnd. specialize (Hinv (budget_key tx) now HT). rewrite granted_snoc.
  assert (Hle : usage <= budgetLimit p lo) by (destruct Hd as [[_ ?]|[[? _]|[? _]]]; [congruence|done..]).
  rewrite <- Hu, length_app in Hle. simpl in Hle. unfold recent in Hinv. case_decide; lia.
Qed.

Lemma evaluate_all_bounded p wo lo evs st T hist pre t d post :
  let w := budgetWindow p wo in
  budget_inv w T hist st -> Sorted Z.le (T :: evs.*2) ->
  evaluate_all p wo lo evs st = pre ++ (t, d) :: post -> dec_status d <> act_deny ->
  Z.of_nat (length (filter (granted (dec_budgetKey d) w t) (hist ++ pre ++ [(t, d)]))) <= budgetLimit p lo.
Proof.
  intros w. revert st T hist pre. induction evs as [|[tx now] evs IH]; intros st T hist pre Hinv Hs Hev Hnd; [by destruct pre|].
  csimpl in *. apply Sorted_inv in Hs as [Hs Hhd]. apply HdRel_inv in Hhd.
  pose proof (evaluate_inv p tx now wo lo st T hist Hhd Hinv) as Hstep. pose proof (decision_key p tx now wo lo st) as Hk.
  destruct (evaluatePolicy p tx now wo lo st) as [d' st']. simpl in Hk. destruct Hstep as [Hinv' Hok].
  destruct pre as [|r pre]; simpl in Hev.
  - injection Hev as -> -> _. rewrite Hk. by apply Hok.
  - injection Hev as <- Hev. simpl. specialize (IH st' now (hist ++ [(now, d')]) pre Hinv' Hs Hev Hnd). by rewrite <- app_assoc in IH.
Qed.

(** The budget is a sliding-window limit: over any sequence of evaluations in
    time order under one policy and one store, whenever a transaction is not
    denied, at most the configured number of transactions of its source were
    not denied in the window ending there, itself included. *)
Theorem budget_enforced p wo lo evs pre t d post
    (Hs : Sorted Z.le evs.*2)
    (Hev : evaluate_all p wo lo evs [] = pre ++ (t, d) :: post) (Hnd : dec_status d <> act_deny) :
  Z.of_nat (length (filter (granted (dec_budgetKey d) (budgetWindow p wo) t) (pre ++ [(t, d)]))) <= budgetLimit p lo.
Proof.
  destruct evs as [|[tx0 t0] evs]; [by destruct pre|].
  apply (evaluate_all_bounded p wo lo ((tx0, t0) :: evs) [] t0 [] pre t d post); [by intros key x _|..]; [|done|done].
  csimpl in *. constructor; [done|]. by constructor.
Qed.

(** * Concrete decisions *)

Definition demo_policy : PolicyDocument := {|
  pd_version := Some 1; pd_defaultAction := Some act_deny; pd_maxInclusionFee := Some 1000; pd_maxResourceFee := Some 5000;
  pd_budget := Some {| pb_maxAuthEntries := Some 2; pb_windowMs := Some 60000 |};
  pd_rules := Some [{| pr_action := Some act_allow; pr_contractId := Some "c1"; pr_method := Some "fill_intent"; pr_source := None |};
                    {| pr_action := Some act_allow; pr_contractId := Some "tok"; pr_method := Some "transfer"; pr_source := None |}] |}%string.

Definition demo_call : Invocation := ContractFn "c1" "fill_intent" [ContractFn "tok" "transfer" []].
Definition demo_tx : DecodedTx := {| tx_source := "GA"; tx_fee := 100; tx_resourceFee := 900; tx_operations := ["invokeHostFunction"%string];
  tx_authEntries := decode_auth [] [demo_call] |}.

Lemma allowed_calls_covered_witness :
  dec_status (evaluatePolicy demo_policy demo_tx 0 None None []).1 = act_allow /\
  exists c f subs r, ContractFn "tok" "transfer" [] = ContractFn c f subs /\ r ∈ default [] (pd_rules demo_policy) /\
    forall w, pr_method r = Some w -> w <> ""%string -> w <> "*"%string -> f = w.
Proof.
  assert (Ha : dec_status (evaluatePolicy demo_policy demo_tx 0 None None []).1 = act_allow) by (vm_compute; reflexivity).
  split; [exact Ha|].
  destruct (allowed_calls_covered demo_policy demo_tx [] [demo_call] 0 None None [] demo_call (ContractFn "tok" "transfer" []))
    as (_ & _ & _ & c & f & subs & r & Hx & Hr & _ & _ & Hm); [reflexivity|vm_compute; discriminate|exact Ha|left| |].
  { apply (occurs_contract _ _ _ _ (ContractFn "tok" "transfer" [])); [left|apply occurs_here]. }
  exists c, f, subs, r. split; [exact Hx|]. split; [exact Hr|exact Hm].
Defined.

Definition demo_evals : list (DecodedTx * Z) := [(demo_tx, 0); (demo_tx, 10); (demo_tx, 20); (demo_tx, 60015)].

Lemma budget_enforced_witness : exists pre d post,
  evaluate_all demo_policy None None demo_evals [] = pre ++ (10, d) :: post /\ dec_status d = act_allow /\
  Z.of_nat (length (filter (granted (dec_budgetKey d) 60000 10) (pre ++ [(10, d)]))) <= 2.
Proof.
  destruct (evaluate_all demo_policy None None demo_evals []) as [|r0 [|[t d] post]] eqn:E; try (vm_compute in E; discriminate).
  assert (Ht : t = 10 /\ dec_status d = act_allow) by (vm_compute in E; injection E as <- <- <- <-; done).
  destruct Ht as [-> Hd]. exists [r0], d, post. split; [reflexivity|]. split; [exact Hd|].
  apply (budget_enforced demo_policy None None demo_evals [r0] 10 d post); [|exact E|congruence].
  repeat constructor; vm_compute; discriminate.
Defined.

(** Rules with the action [deny] are never consulted: naming a call in one does
    not stop it when an allow rule is broad enough, nor when the default is to
    allow; and a store that is not shared between calls starts empty at each,
    so that its limit is never reached. *)
Theorem deny_rules_ignored p p' tx now wo lo st
    (Hsame : allow_rules p = allow_rules p') (Hbudget : pd_budget p = pd_budget p')
    (Hdef : pd_defaultAction p = pd_defaultAction p') (Hf : pd_maxInclusionFee p = pd_maxInclusionFee p')
    (Hr : pd_maxResourceFee p = pd_maxResourceFee p') :
  evaluatePolicy p tx now wo lo st = evaluatePolicy p' tx now wo lo st.
Proof.
  unfold evaluatePolicy, all_allowed, has_allowlist, budgetWindow, budgetLimit. by rewrite Hsame, Hbudget, Hdef, Hf, Hr.
Qed.
