(* ===== verification/Auctions.v ===== *)
(** Dutch auctions: the price curve of [src/auctions/dutch.ts] and the ticker of
    [src/auctions/auction-ticker.service.ts] that publishes it. *)
From S2P Require Import Prelude JsMap BigInt IntentTypes IntentsRepo.
Local Open Scope Z_scope.

(** * The price curve *)

(** [None] is the [SyntaxError] of an amount that is not an integer. *)
Definition dutchAuctionPrice (a : DutchAuction) (timestamp : Z) (minDstAmount : string) : option string :=
  startAmount ← BigInt (startDstAmount a);
  minAmount ← BigInt minDstAmount;
  if timestamp <=? decayStart a then Some (toString startAmount)
  else if decayEnd a <=? timestamp then Some (toString minAmount)
  else
    let elapsed := timestamp - decayStart a in
    let duration := decayEnd a - decayStart a in
    let priceDrop := Z.quot ((startAmount - minAmount) * elapsed) duration in
    Some (toString (startAmount - priceDrop)).

(** The price as a number. *)
Definition price_at (a : DutchAuction) (start min t : Z) : Z :=
  if t <=? decayStart a then start
  else if decayEnd a <=? t then min
  else start - Z.quot ((start - min) * (t - decayStart a)) (decayEnd a - decayStart a).

Lemma price_defined a t m start min : BigInt (startDstAmount a) = Some start -> BigInt m = Some min ->
  dutchAuctionPrice a t m = Some (toString (price_at a start min t)).
Proof. intros Hs Hm. unfold dutchAuctionPrice, price_at. rewrite Hs, Hm. simpl. by repeat case_match. Qed.

(** Inside the decay, the truncated drop is the floor of the exact one. *)
Lemma drop_bounds d e n : 0 <= d -> 0 < e < n -> 0 <= Z.quot (d * e) n <= d /\ Z.quot (d * e) n = d * e / n.
Proof.
  intros Hd He. rewrite Z.quot_div_nonneg by nia. split; [|done]. split; [apply Z.div_pos; nia|].
  apply Z.div_le_upper_bound; nia.
Qed.

Lemma price_bounds a start min t : min <= start -> min <= price_at a start min t <= start.
Proof.
  intros Hle. unfold price_at. destruct (Z.leb_spec t (decayStart a)); [lia|].
  destruct (Z.leb_spec (decayEnd a) t); [lia|].
  destruct (drop_bounds (start - min) (t - decayStart a) (decayEnd a - decayStart a)) as [? _]; lia.
Qed.

Lemma price_falls a start min t t' : min <= start -> t <= t' -> price_at a start min t' <= price_at a start min t.
Proof.
  intros Hle Ht. pose proof (price_bounds a start min t Hle). pose proof (price_bounds a start min t' Hle).
  unfold price_at in *. destruct (Z.leb_spec t (decayStart a)); [lia|].
  destruct (Z.leb_spec t' (decayStart a)); [lia|].
  destruct (Z.leb_spec (decayEnd a) t'); [lia|]. destruct (Z.leb_spec (decayEnd a) t); [lia|].
  set (n := decayEnd a - decayStart a) in *.
  destruct (drop_bounds (start - min) (t - decayStart a) n) as [_ ->]; [lia..|].
  destruct (drop_bounds (start - min) (t' - decayStart a) n) as [_ ->]; [lia..|].
  assert ((start - min) * (t - decayStart a) / n <= (start - min) * (t' - decayStart a) / n); [|lia].
  apply Z.div_le_mono; nia.
Qed.

(** The auction price is a falling curve between its two ends: with the minimum
    at or below the start, it is defined at every instant, is the start price up
    to the start of the decay and the minimum from its end on, never rises, and
    in between rounds the exact price up by less than one unit - so the user is
    never quoted less than the line. *)
Theorem auction_price_curve a m start min t t'
    (Hs : BigInt (startDstAmount a) = Some start) (Hm : BigInt m = Some min) (Hle : min <= start) (Ht : t <= t') :
  exists p p', dutchAuctionPrice a t m = Some (toString p) /\ dutchAuctionPrice a t' m = Some (toString p') /\
    min <= p' <= p /\ p <= start /\ (t <= decayStart a -> p = start) /\
    (decayStart a < t -> decayEnd a <= t -> p = min) /\
    (decayStart a < t < decayEnd a ->
       let n := decayEnd a - decayStart a in
       0 <= n * p - (n * start - (start - min) * (t - decayStart a)) < n).
Proof.
  exists (price_at a start min t), (price_at a start min t').
  split_and!; [by apply price_defined|by apply price_defined|by apply price_bounds|by apply price_falls|by apply price_bounds|..];
    unfold price_at.
  - intros H. by rewrite (proj2 (Z.leb_le _ _)).
  - intros H1 H2. rewrite (proj2 (Z.leb_gt _ _)), (proj2 (Z.leb_le _ _)) by done. done.
  - intros [H1 H2]. cbv zeta. set (n := decayEnd a - decayStart a). rewrite (proj2 (Z.leb_gt _ _)), (proj2 (Z.leb_gt _ _)) by done.
    destruct (drop_bounds (start - min) (t - decayStart a) n) as [_ ->]; [unfold n; lia..|].
    pose proof (Z.div_mod ((start - min) * (t - decayStart a)) n ltac:(unfold n; lia)).
    pose proof (Z.mod_pos_bound ((start - min) * (t - decayStart a)) n ltac:(unfold n; lia)). nia.
Qed.

Definition demo_auction : DutchAuction :=
  {| startDstAmount := "1000"; decayStart := 100; decayEnd := 200; exclusiveSolver := None; exclusivityEnd := None |}.

Lemma auction_price_curve_witness :
  dutchAuctionPrice demo_auction 133 "400" = Some "802"%string /\
  exists p p', dutchAuctionPrice demo_auction 133 "400" = Some (toString p) /\
    dutchAuctionPrice demo_auction 150 "400" = Some (toString p') /\ 400 <= p' <= p.
Proof.
  split; [vm_compute; reflexivity|].
  destruct (auction_price_curve demo_auction "400" 1000 400 133 150 eq_refl eq_refl ltac:(lia) ltac:(lia)) as (p & p' & H1 & H2 & H3 & _).
  exists p, p'. split; [exact H1|]. split; [exact H2|exact H3].
Defined.

(** * The ticker *)

Record AuctionPriceTick := { pt_currentDstAmount : string; pt_timestamp : Z }.

Record Ticker := {
  tk_lastPrices : jsmap string;
  tk_priceHistory : jsmap (list AuctionPriceTick);
  tk_sent : list (string * AuctionPriceTick);
}.

Definition new_ticker : Ticker := {| tk_lastPrices := []; tk_priceHistory := []; tk_sent := [] |}.

Section ticker.
Context (historyCap : Z).

Definition getPriceHistory (id : string) (s : Ticker) : list AuctionPriceTick := default [] (get id (tk_priceHistory s)).

Definition appendPriceTick (id : string) (t : AuctionPriceTick) (m : jsmap (list AuctionPriceTick)) : jsmap (list AuctionPriceTick) :=
  let history := default [] (get id m) ++ [t] in
  let len := Z.of_nat (length history) in
  set id (if historyCap <? len then drop (Z.to_nat (len - historyCap)) history else history) m.

(** One intent of a pass; [Err] aborts the pass: the price of a malformed
    auction, or a broadcast that fails. *)
Definition publish_one (now : Z) (fails : string -> bool) (s : Ticker) (i : Intent) : outcome Ticker Ticker :=
  match auction i with
  | None => Ok s
  | Some a =>
      match dutchAuctionPrice a now (minDstAmount i) with
      | None => Err s
      | Some price =>
          if bool_decide (get (intentId i) (tk_lastPrices s) = Some price) then Ok s
          else if fails (intentId i) then Err s
          else
            let tick := {| pt_currentDstAmount := price; pt_timestamp := now |} in
            Ok {| tk_lastPrices := set (intentId i) price (tk_lastPrices s);
                  tk_priceHistory := appendPriceTick (intentId i) tick (tk_priceHistory s);
                  tk_sent := tk_sent s ++ [(intentId i, tick)] |}
      end
  end.

(** [publishPriceTicks] over the open intents.  The [publishing] flag keeps a
    second pass from starting, so a pass is one step. *)
Definition publishPriceTicks (now : Z) (fails : string -> bool) (intents : list Intent) (s : Ticker) : Ticker :=
  match outcome_foldl (publish_one now fails) s intents with
  | Err s' => s'
  | Ok s' =>
      let activeIds := intentId <$> filter (fun i => auction i <> None) intents in
      {| tk_lastPrices := foldl (fun m k => if decide (k ∈ activeIds) then m else del k m) (tk_lastPrices s') (keys (tk_lastPrices s'));
         tk_priceHistory := tk_priceHistory s'; tk_sent := tk_sent s' |}
  end.

(** What was broadcast for one intent, in order. *)
Definition sent_for (id : string) (l : list (string * AuctionPriceTick)) : list AuctionPriceTick :=
  (filter (fun e => e.1 = id) l).*2.

Definition last_ticks (l : list AuctionPriceTick) : list AuctionPriceTick := drop (length l - Z.to_nat historyCap) l.

Definition ticker_inv (s : Ticker) : Prop := forall id, getPriceHistory id s = last_ticks (sent_for id (tk_sent s)).

Context (Hcap : 0 < historyCap).

Lemma last_ticks_snoc l t :
  let h := last_ticks l ++ [t] in
  (if historyCap <? Z.of_nat (length h) then drop (Z.to_nat (Z.of_nat (length h) - historyCap)) h else h) = last_ticks (l ++ [t]).
Proof using Hcap.
  cbv zeta. unfold last_ticks at 1 2 3 4. rewrite !length_app, !length_drop. simpl length.
  unfold last_ticks. rewrite length_app. simpl length.
  destruct (Nat.le_gt_cases (length l) (Z.to_nat historyCap)) as [Hle|Hgt].
  - replace (length l - Z.to_nat historyCap)%nat with 0%nat by lia. rewrite drop_0.
    destruct (Z.ltb_spec historyCap (Z.of_nat (length l - 0 + 1))); [f_equal; lia|].
    by replace (length l + 1 - Z.to_nat historyCap)%nat with 0%nat by lia.
  - rewrite (proj2 (Z.ltb_lt _ _)) by lia.
    rewrite <- (drop_app_le (l) [t]) by lia. rewrite drop_drop. f_equal. lia.
Qed.

Lemma publish_one_inv now fails s i : ticker_inv s ->
  match publish_one now fails s i with Ok s' | Err s' => ticker_inv s' end.
Proof using Hcap.
  intros Hs. unfold publish_one. destruct (auction i) as [a|]; [|done].
  destruct (dutchAuctionPrice _ _ _) as [price|]; [|done]. case_bool_decide; [done|].
  destruct (fails (intentId i)); [done|]. intros id. unfold getPriceHistory, appendPriceTick, sent_for. simpl. rewrite get_set, filter_app, filter_cons, filter_nil, fmap_app.
  specialize (Hs id). unfold getPriceHistory, sent_for in Hs. simpl. case_decide as Hd.
  - subst id. rewrite Hs. apply last_ticks_snoc.
  - simpl. by rewrite app_nil_r.
Qed.

Lemma publish_inv now fails intents s : ticker_inv s -> ticker_inv (publishPriceTicks now fails intents s).
Proof using Hcap.
  intros Hs. unfold publishPriceTicks.
  assert (H : match outcome_foldl (publish_one now fails) s intents with Ok s' | Err s' => ticker_inv s' end).
  { revert s Hs. induction intents as [|i l IH]; intros s Hs; simpl; [done|].
    pose proof (publish_one_inv now fails s i Hs) as H1. destruct (publish_one now fails s i); [by apply IH|done]. }
  destruct (outcome_foldl _ _ _) as [s'|s']; [|done]. intros id. apply (H id).
Qed.
End ticker.

(** The history a client can read is exactly the most recent ticks that were
    broadcast for the intent, at most the cap: over any sequence of passes,
    with broadcasts failing and auctions malformed at will, nothing is shown
    that was not sent, nothing sent is missing from the last [cap]. *)
Theorem history_is_recent_broadcasts cap passes id (Hcap : 0 < cap) :
  let s := foldl (fun s '(now, fails, intents) => publishPriceTicks cap now fails intents s) new_ticker passes in
  getPriceHistory id s = drop (length (sent_for id (tk_sent s)) - Z.to_nat cap) (sent_for id (tk_sent s)) /\
  Z.of_nat (length (getPriceHistory id s)) <= cap.
Proof.
  intros s. assert (Hs : ticker_inv cap s).
  { unfold s. generalize (ltac:(done) : ticker_inv cap new_ticker). generalize new_ticker.
    induction passes as [|[[now fails] intents] l IH]; intros s0 H0; simpl; [done|]. by apply IH, publish_inv. }
  rewrite (Hs id). unfold last_ticks. split; [done|]. rewrite length_drop. lia.
Qed.

Definition auctioned (start : string) : Intent :=
  apply_patch [P_auction (Some {| startDstAmount := start; decayStart := 100; decayEnd := 200; exclusiveSolver := None; exclusivityEnd := None |})]
    demo_intent.

Definition demo_passes : list (Z * (string -> bool) * list Intent) :=
  (fun t => (t, (fun _ => false), [auctioned "1000"])) <$> [90; 120; 150; 150; 199].

Lemma history_is_recent_broadcasts_witness :
  let s := foldl (fun s '(now, fails, intents) => publishPriceTicks 2 now fails intents s) new_ticker demo_passes in
  getPriceHistory "i1" s = [{| pt_currentDstAmount := "950"; pt_timestamp := 150 |}; {| pt_currentDstAmount := "901"; pt_timestamp := 199 |}] /\
  length (sent_for "i1" (tk_sent s)) = 4%nat /\ Z.of_nat (length (getPriceHistory "i1" s)) <= 2.
Proof.
  split; [vm_compute; reflexivity|]. split; [vm_compute; reflexivity|].
  apply (history_is_recent_broadcasts 2 demo_passes "i1"). lia.
Defined.

(** One bad intent stops the pass for the rest: when the first open auction
    cannot be priced, or its broadcast fails, the prices of the auctions after
    it are not published, pass after pass. *)
Theorem one_auction_stops_the_pass :
  let bad := apply_patch [P_auction (Some {| startDstAmount := "1e3"; decayStart := 100; decayEnd := 200;
                exclusiveSolver := None; exclusivityEnd := None |})] demo_intent in
  let good := stamp "i2" 0 (auctioned "1000") in
  let pass s t := publishPriceTicks 200 t (fun _ => false) [bad; good] s in
  tk_sent (foldl pass new_ticker [110; 130; 150]) = [] /\
  tk_sent (publishPriceTicks 200 150 (fun _ => false) [good] new_ticker) <> [].
Proof. vm_compute. split; [done|discriminate]. Qed.
