(* ===== verification/IntentIndex.v ===== *)
(** Matching intents to solvers: [src/intents/solver-intent-matcher.ts].

    [buildMatchPredicate] decides one intent; [IntentCapabilityIndex] keeps the
    open intents in buckets per (chain, token) and answers a solver's query
    from its buckets alone. *)
From S2P Require Import Prelude JsMap BigInt IntentTypes IntentsRepo Prog Solvers.
Local Open Scope Z_scope.

(** * The predicate *)

(** [None]: a bond that is not an integer makes [BigInt] throw. *)
Definition hasBond (s : SolverRecord) : option bool := (fun b => 0 <? b) <$> BigInt (so_bondAmount s).

Definition getSymbol (i : Intent) : option string :=
  let sym := tok_symbol (srcToken i) in if bool_decide (sym = ""%string) then None else Some sym.

(** [buildMatchPredicate(solver).matches(intent)] *)
Definition matches_solver (s : SolverRecord) (i : Intent) : option bool :=
  bond ← hasBond s;
  Some (if negb bond then false
        else if negb (bool_decide (srcChain i ∈ so_supportedChains s)) then false
        else match getSymbol i with
             | Some sym => bool_decide (toLowerCase sym ∈ toLowerCase <$> so_supportedTokens s)
             | None => false
             end).

(** * The index *)

Record IntentCapabilityIndex := { ix_index : jsmap (list string); ix_byId : jsmap Intent }.

Definition empty_index : IntentCapabilityIndex := {| ix_index := []; ix_byId := [] |}.

Definition index_key (chain : SupportedChain) (token : string) : string := (chain_name chain +:+ ":" +:+ toLowerCase token)%string.

(** [set.add(id)] keeps the first insertion. *)
Definition set_add (id : string) (l : list string) : list string := if decide (id ∈ l) then l else l ++ [id].
Definition set_del (id : string) (l : list string) : list string := filter (fun x => x <> id) l.

Definition addIntent (i : Intent) (x : IntentCapabilityIndex) : IntentCapabilityIndex :=
  match getSymbol i with
  | None => x
  | Some sym =>
      let k := index_key (srcChain i) sym in
      {| ix_index := set k (set_add (intentId i) (default [] (get k (ix_index x)))) (ix_index x);
         ix_byId := set (intentId i) i (ix_byId x) |}
  end.

Definition removeIntent (id : string) (x : IntentCapabilityIndex) : IntentCapabilityIndex :=
  match get id (ix_byId x) with
  | None => x
  | Some i =>
      {| ix_index :=
           match getSymbol i with
           | None => ix_index x
           | Some sym =>
               let k := index_key (srcChain i) sym in
               match get k (ix_index x) with
               | None => ix_index x
               | Some ids => set k (set_del id ids) (ix_index x)
               end
           end;
         ix_byId := del id (ix_byId x) |}
  end.

(** [rebuild()] from the open intents. *)
Definition rebuild (open : list Intent) (_ : IntentCapabilityIndex) : IntentCapabilityIndex :=
  foldl (fun x i => addIntent i x) empty_index open.

Definition getEligibleFor (s : SolverRecord) (x : IntentCapabilityIndex) : option (list Intent) :=
  bond ← BigInt (so_bondAmount s);
  if bond <=? 0 then Some []
  else Some (
    concat ((fun chain =>
      concat ((fun token =>
        match get (index_key chain token) (ix_index x) with
        | None => []
        | Some ids => omap (fun id => get id (ix_byId x)) ids
        end) <$> so_supportedTokens s)) <$> so_supportedChains s)).

(** * The buckets hold what they say *)

(** A chain name holds no colon, so a key determines its chain and token. *)
Lemma index_key_inj c c' t t' : index_key c t = index_key c' t' -> c = c' /\ toLowerCase t = toLowerCase t'.
Proof. unfold index_key. destruct c, c'; simpl; intros H; try discriminate H; by simplify_eq/=. Qed.

Definition index_ok (x : IntentCapabilityIndex) : Prop :=
  wf (ix_byId x) /\
  (forall id i, get id (ix_byId x) = Some i -> intentId i = id /\ exists sym, getSymbol i = Some sym /\
     exists ids, get (index_key (srcChain i) sym) (ix_index x) = Some ids /\ id ∈ ids) /\
  (forall k ids id, get k (ix_index x) = Some ids -> id ∈ ids ->
     exists i sym, get id (ix_byId x) = Some i /\ getSymbol i = Some sym /\ k = index_key (srcChain i) sym).

Lemma elem_of_set_add x id l : x ∈ set_add id l <-> x = id \/ x ∈ l.
Proof. unfold set_add. case_decide; [naive_solver|]. rewrite elem_of_app, list_elem_of_singleton. naive_solver. Qed.

Lemma elem_of_set_del x id l : x ∈ set_del id l <-> x <> id /\ x ∈ l.
Proof. unfold set_del. by rewrite list_elem_of_filter. Qed.

(** A refreshed intent keeps its chain and token, as intents do. *)
Definition same_bucket (x : IntentCapabilityIndex) (i : Intent) : Prop :=
  forall j, get (intentId i) (ix_byId x) = Some j -> srcChain j = srcChain i /\ tok_symbol (srcToken j) = tok_symbol (srcToken i).

Lemma getSymbol_eq i j : tok_symbol (srcToken i) = tok_symbol (srcToken j) -> getSymbol i = getSymbol j.
Proof. unfold getSymbol. by intros ->. Qed.

Lemma addIntent_ok x i : index_ok x -> same_bucket x i -> index_ok (addIntent i x).
Proof.
  intros (Hwf & H1 & H2) Hb. unfold addIntent. destruct (getSymbol i) as [sym|] eqn:Esym; [|done].
  set (k := index_key (srcChain i) sym). split_and!; simpl; [by apply set_wf| |].
  - intros id j. rewrite get_set. case_decide as Hd.
    + intros [= <-]. split; [done|]. exists sym. split; [done|]. fold k. rewrite get_set_eq. eexists. split; [done|].
      apply elem_of_set_add. by left.
    + intros Hj. destruct (H1 id j Hj) as (Hid & sym' & Hs & ids & Hk & Hin). split; [done|]. exists sym'. split; [done|].
      rewrite get_set. case_decide as Hk'; [|by exists ids]. eexists. split; [done|]. apply elem_of_set_add. right.
      by rewrite Hk', Hk.
  - intros k' ids id. rewrite get_set. case_decide as Hk.
    + intros [= <-] [->|Hin]%elem_of_set_add; [exists i, sym; by rewrite get_set_eq|].
      destruct (get k (ix_index x)) as [ids|] eqn:Eids; [|by apply not_elem_of_nil in Hin].
      destruct (H2 k ids id Eids Hin) as (j & sym' & Hj & Hs & Hkey). rewrite get_set. case_decide as Hd; [|exists j, sym'; by subst k'].
      subst id. exists i, sym. by subst k'.
    + intros Hg Hin. destruct (H2 k' ids id Hg Hin) as (j & sym' & Hj & Hs & Hkey). rewrite get_set.
      case_decide as Hd; [|by exists j, sym']. subst id. destruct (Hb j Hj) as [Hc Ht].
      rewrite (getSymbol_eq _ _ Ht), Esym in Hs. injection Hs as <-. rewrite Hc in Hkey. by destruct Hk.
Qed.

Lemma removeIntent_ok x id : index_ok x -> index_ok (removeIntent id x).
Proof.
  intros (Hwf & H1 & H2). unfold removeIntent. destruct (get id (ix_byId x)) as [i|] eqn:Ei; [|done].
  destruct (H1 id i Ei) as (Hid & sym & -> & ids & Hk & Hin). rewrite Hk. set (k := index_key (srcChain i) sym) in *.
  split_and!; simpl; [by apply del_wf| |].
  - intros id' j Hj. destruct (decide (id = id')) as [->|Hne]; [by rewrite get_del_eq in Hj|]. rewrite get_del_ne in Hj by done.
    destruct (H1 id' j Hj) as (Hid' & sym' & Hs & ids' & Hk' & Hin'). split; [done|]. exists sym'. split; [done|].
    rewrite get_set. case_decide as Hd; [|by exists ids']. eexists. split; [done|]. apply elem_of_set_del. split; [congruence|].
    rewrite <- Hd, Hk in Hk'. by injection Hk' as <-.
  - intros k' ids' id' Hg Hin'. rewrite get_set in Hg. destruct (decide (id = id')) as [<-|Hne].
    + exfalso. case_decide as Hd; [injection Hg as <-; by apply elem_of_set_del in Hin' as [? _]|].
      destruct (H2 k' ids' id Hg Hin') as (j & sym' & Hj & Hs & Hkey). destruct (H1 id j Hj) as (_ & s2 & Hs2 & _).
      assert (j = i) as -> by congruence. destruct (H1 id i Hj) as (_ & s3 & Hs3 & ids3 & Hk3 & _).
      assert (E : exists s, getSymbol i = Some s /\ k = index_key (srcChain i) s).
      { destruct (H2 k ids id Hk Hin) as (j2 & s4 & Hj2 & Hs4 & Hk4). assert (j2 = i) as -> by congruence. eauto. }
      destruct E as (s & Hs' & Hk4). congruence.
    + rewrite get_del_ne by done. case_decide as Hd; [|by apply (H2 k' ids')].
      injection Hg as <-. apply elem_of_set_del in Hin' as [_ Hin']. rewrite <- Hd. by apply (H2 k ids).
Qed.

Inductive IndexOp := IxAdd (i : Intent) | IxRemove (id : string).

Definition run_index (x : IntentCapabilityIndex) (op : IndexOp) : IntentCapabilityIndex :=
  match op with IxAdd i => addIntent i x | IxRemove id => removeIntent id x end.

(** Versions of one intent agree on chain and token. *)
Definition stable_terms (ops : list IndexOp) : Prop := forall i j, IxAdd i ∈ ops -> IxAdd j ∈ ops -> intentId i = intentId j ->
  srcChain i = srcChain j /\ tok_symbol (srcToken i) = tok_symbol (srcToken j).

Lemma index_runs_ok ops : stable_terms ops -> index_ok (foldl run_index empty_index ops) /\
  forall id i, get id (ix_byId (foldl run_index empty_index ops)) = Some i -> IxAdd i ∈ ops.
Proof.
  induction ops as [|op ops IH] using rev_ind; intros Hst.
  { split; [|done]. split_and!; [apply empty_wf|done|done]. }
  destruct IH as [Hok Hfrom].
  { intros i j Hi Hj. apply Hst; apply elem_of_app; by left. }
  rewrite foldl_app. simpl. set (x := foldl run_index empty_index ops) in *. destruct op as [i|id]; simpl.
  - assert (Hb : same_bucket x i).
    { intros j Hj. apply Hst; [apply elem_of_app; left; by apply (Hfrom (intentId i))|apply elem_of_app; right; by left|].
      destruct Hok as (_ & H1 & _). by destruct (H1 _ _ Hj). }
    split; [by apply addIntent_ok|]. unfold addIntent. intros id j.
    destruct (getSymbol i); simpl; [rewrite get_set; case_decide|]; intros Hj; apply elem_of_app.
    + injection Hj as <-. right. by left.
    + left. by apply (Hfrom id).
    + left. by apply (Hfrom id).
  - split; [by apply removeIntent_ok|]. unfold removeIntent. intros id' j Hj. apply elem_of_app. left. apply (Hfrom id').
    destruct (get id (ix_byId x)); simpl in Hj; [|done].
    destruct (decide (id = id')) as [->|Hne]; [|by rewrite get_del_ne in Hj].
    destruct Hok as (Hwf & _). by rewrite get_del_eq in Hj.
Qed.

Lemma elem_of_concat_fmap {A B} (f : A -> list B) l y : y ∈ concat (f <$> l) <-> exists a, a ∈ l /\ y ∈ f a.
Proof.
  rewrite list_elem_of_In, in_concat. split.
  - intros (ys & Hys%list_elem_of_In & Hy%list_elem_of_In). apply list_elem_of_fmap in Hys as (a & -> & Ha). eauto.
  - intros (a & Ha & Hy). exists (f a). split; apply list_elem_of_In; [|done]. apply list_elem_of_fmap. eauto.
Qed.

(** C38. The index answers what the predicate decides: after any sequence of
    additions, refreshes and removals, the intents offered to a solver are
    exactly the indexed intents its match predicate accepts - by chain, by
    token without regard to case, and only with a positive bond. *)
Theorem index_equals_predicate ops s bond (Hst : stable_terms ops) (Hbond : BigInt (so_bondAmount s) = Some bond) :
  let x := foldl run_index empty_index ops in
  exists l, getEligibleFor s x = Some l /\
    forall i, i ∈ l <-> (exists id, get id (ix_byId x) = Some i) /\ matches_solver s i = Some true.
Proof.
  intros x. destruct (index_runs_ok ops Hst) as [(Hwf & H1 & H2) _]. fold x in Hwf, H1, H2.
  unfold getEligibleFor, matches_solver, hasBond. rewrite Hbond. simpl.
  destruct (Z.leb_spec bond 0) as [Hle|Hgt].
  { exists []. split; [done|]. intros i. rewrite (proj2 (Z.ltb_ge 0 bond)) by lia. simpl.
    split; [by intros H%not_elem_of_nil|by intros [_ ?]]. }
  eexists. split; [done|]. intros i. rewrite (proj2 (Z.ltb_lt 0 bond)) by lia. simpl.
  rewrite elem_of_concat_fmap. split.
  - intros (chain & Hch & Hi). apply elem_of_concat_fmap in Hi as (token & Htok & Hi).
    destruct (get (index_key chain token) (ix_index x)) as [ids|] eqn:Eids; [|by apply not_elem_of_nil in Hi].
    apply list_elem_of_omap in Hi as (id & Hin & Hi). split; [by exists id|].
    destruct (H2 _ _ _ Eids Hin) as (j & sym & Hj & Hs & Hkey). assert (j = i) as -> by congruence.
    apply index_key_inj in Hkey as [-> Hlow]. rewrite bool_decide_eq_true_2 by done. simpl. rewrite Hs.
    rewrite bool_decide_eq_true_2; [done|]. rewrite <- Hlow. apply list_elem_of_fmap. by exists token.
  - intros [[id Hi] Hm]. destruct (H1 id i Hi) as (Hid & sym & Hs & ids & Hk & Hin). rewrite Hs in Hm.
    case_bool_decide as Hch; simpl in Hm; [|done]. case_bool_decide as Htok; [|done].
    apply list_elem_of_fmap in Htok as (token & Hlow & Htok). exists (srcChain i). split; [done|].
    apply elem_of_concat_fmap. exists token. split; [done|].
    replace (index_key (srcChain i) token) with (index_key (srcChain i) sym) by (unfold index_key; by rewrite Hlow).
    rewrite Hk. apply list_elem_of_omap. by exists id.
Qed.

Definition demo_ops : list IndexOp := [IxAdd demo_intent; IxRemove "i2"].

Lemma index_equals_predicate_witness : exists l, getEligibleFor demo_solver (foldl run_index empty_index demo_ops) = Some l /\
  demo_intent ∈ l /\ matches_solver demo_solver demo_intent = Some true.
Proof.
  destruct (index_equals_predicate demo_ops demo_solver 1000) as (l & Hl & Hi); [|reflexivity|].
  { intros i j Hi Hj _. in_list Hi; in_list Hj. simplify_eq. done. }
  exists l. split; [exact Hl|].
  assert (Hm : matches_solver demo_solver demo_intent = Some true) by (vm_compute; reflexivity).
  split; [|exact Hm]. apply Hi. split; [exists "i1"%string; vm_compute; reflexivity|exact Hm].
Defined.

(** A solver that lists one token twice, or in two spellings, is offered each of
    its intents twice. *)
Theorem eligible_intents_repeat :
  let s := apply_profile {| pp_name := None; pp_avgFillTime := None; pp_supportedChains := None;
             pp_supportedTokens := Some ["USDC"; "usdc"]%string |} demo_solver in
  getEligibleFor s (foldl run_index empty_index demo_ops) = Some [demo_intent; demo_intent].
Proof. vm_compute. reflexivity. Qed.
