(* ===== verification/SlidingWindow.v ===== *)
(** Sliding windows of timestamps, shared by the rate limiters: how many
    recorded instants lie less than [dur] before [t]. *)
From S2P Require Import Prelude.
Local Open Scope Z_scope.

Definition within (t dur : Z) (l : list Z) : nat := length (filter (fun x => t - x < dur) l).

Lemma within_snoc t dur l x : within t dur (l ++ [x]) = (within t dur l + if decide (t - x < dur)%Z then 1 else 0)%nat.
Proof. unfold within. rewrite filter_app, length_app, filter_cons, filter_nil. by destruct (decide _). Qed.

(** Dropping what has left the window at [now] changes no later count. *)
Lemma within_pruned t now dur l : now <= t -> within t dur (filter (fun x => now - x < dur) l) = within t dur l.
Proof.
  intros Ht. unfold within. f_equal. rewrite list_filter_filter. apply list_filter_iff. intros x. split; [by intros [? _]|].
  intros Hx. split; [done|lia].
Qed.

Lemma filter_weaken t dur l : (length (filter (fun x => t - x < dur /\ x <= t)%Z l) <= within t dur l)%nat.
Proof. unfold within. induction l as [|x l IH]; [done|]. rewrite !filter_cons. repeat case_decide; simpl; lia. Qed.

Lemma within_app t dur l l' : within t dur (l ++ l') = (within t dur l + within t dur l')%nat.
Proof. unfold within. by rewrite filter_app, length_app. Qed.

Lemma within_length t dur l : (within t dur l <= length l)%nat.
Proof. apply length_filter. Qed.
