(* ===== verification/JobQueue.v ===== *)
(** The in-memory job queue: [src/jobs/memory-job-queue.driver.ts].

    Handlers, timers and microtasks are events: a pump schedules a microtask
    ([EvDrain]), a delayed job waits for its timer ([EvTimer]), a started
    handler is in flight until it settles ([EvSettle]).  Between two events the
    driver runs to completion, so a step is one event.  Payloads and results
    are opaque strings; the repeating timers only enqueue, and are modelled by
    the enqueue they make. *)
From S2P Require Import Prelude JsMap BigInt.
From stdpp Require Import relations.
Local Open Scope Z_scope.

Definition COMPLETED_RETENTION_SECONDS : Z := 86400.

Record JobDefinition := { jd_name : string; jd_queue : string; jd_attempts : Z; jd_backoffMs : Z }.
Record QueueSettings := { qs_concurrency : Z; qs_rateLimit : option (Z * Z) }.   (* max, durationMs *)
Record EnqueueOptions := { eo_idempotencyKey : option string; eo_delayMs : option Z; eo_priority : option Z }.
Definition no_opts : EnqueueOptions := {| eo_idempotencyKey := None; eo_delayMs := None; eo_priority := None |}.

Record ChainStep := { cs_def : JobDefinition; cs_data : string; cs_opts : EnqueueOptions }.

(** [onComplete] of a job enqueues the rest of its chain. *)
Record MemJob := {
  mj_id : string; mj_def : JobDefinition; mj_data : string; mj_attempt : Z;
  mj_idempotencyKey : option string; mj_priority : option Z; mj_onComplete : list ChainStep
}.

Record MemDeadLetter := {
  dl_jobId : string; dl_name : string; dl_data : string; dl_error : string; dl_attempts : Z; dl_failedAt : Z; dl_def : JobDefinition
}.

Inductive JobStatus := js_pending | js_active | js_completed (result : string) | js_failed (error : string).

(** Delayed jobs, by timer, with the instant the timer fires. *)
Record MemQueue := {
  mq_settings : QueueSettings;
  mq_waiting : list MemJob;
  mq_delayed : list (Z * Z * MemJob);
  mq_active : jsmap MemJob;
  mq_handlers : list string;
  mq_dlq : list MemDeadLetter;
  mq_rateWindow : list Z;
  mq_rateTimer : option Z;
  mq_pumpScheduled : bool;
}.

(** What the driver reports: a job accepted, started, completed, cancelled. *)
Inductive JobNote := nt_accepted | nt_started | nt_completed | nt_cancelled.
#[export] Instance JobNote_eq_dec : EqDecision JobNote.
Proof. solve_decision. Defined.

Record Driver := {
  dr_queueMap : jsmap MemQueue;
  dr_idempotency : jsmap string;
  dr_results : jsmap (JobStatus * Z);
  dr_seq : Z;
  dr_timers : Z;
  dr_closing : bool;
  dr_inFlight : list MemJob;
  dr_notes : list (JobNote * string * string * Z);   (* what, queue, job id, when *)
}.

Definition new_driver : Driver := {| dr_queueMap := []; dr_idempotency := []; dr_results := []; dr_seq := 0; dr_timers := 0;
  dr_closing := false; dr_inFlight := []; dr_notes := [] |}.

(** * Updates *)

Definition upd_queue (name : string) (q : MemQueue) (d : Driver) : Driver :=
  {| dr_queueMap := set name q (dr_queueMap d); dr_idempotency := dr_idempotency d; dr_results := dr_results d;
     dr_seq := dr_seq d; dr_timers := dr_timers d; dr_closing := dr_closing d; dr_inFlight := dr_inFlight d; dr_notes := dr_notes d |}.
Definition note (n : JobNote) (queue id : string) (now : Z) (d : Driver) : Driver :=
  {| dr_queueMap := dr_queueMap d; dr_idempotency := dr_idempotency d; dr_results := dr_results d; dr_seq := dr_seq d;
     dr_timers := dr_timers d; dr_closing := dr_closing d; dr_inFlight := dr_inFlight d;
     dr_notes := dr_notes d ++ [(n, queue, id, now)] |}.
Definition fly (l : list MemJob) (d : Driver) : Driver :=
  {| dr_queueMap := dr_queueMap d; dr_idempotency := dr_idempotency d; dr_results := dr_results d; dr_seq := dr_seq d;
     dr_timers := dr_timers d; dr_closing := dr_closing d; dr_inFlight := l; dr_notes := dr_notes d |}.

Definition put_jobs (w : list MemJob) (dl : list (Z * Z * MemJob)) (a : jsmap MemJob) (dlq : list MemDeadLetter) (q : MemQueue) : MemQueue :=
  {| mq_settings := mq_settings q; mq_waiting := w; mq_delayed := dl; mq_active := a; mq_handlers := mq_handlers q; mq_dlq := dlq;
     mq_rateWindow := mq_rateWindow q; mq_rateTimer := mq_rateTimer q; mq_pumpScheduled := mq_pumpScheduled q |}.
Definition put_rate (w : list Z) (t : option Z) (q : MemQueue) : MemQueue :=
  {| mq_settings := mq_settings q; mq_waiting := mq_waiting q; mq_delayed := mq_delayed q; mq_active := mq_active q;
     mq_handlers := mq_handlers q; mq_dlq := mq_dlq q; mq_rateWindow := w; mq_rateTimer := t; mq_pumpScheduled := mq_pumpScheduled q |}.
Definition put_pump (b : bool) (q : MemQueue) : MemQueue :=
  {| mq_settings := mq_settings q; mq_waiting := mq_waiting q; mq_delayed := mq_delayed q; mq_active := mq_active q;
     mq_handlers := mq_handlers q; mq_dlq := mq_dlq q; mq_rateWindow := mq_rateWindow q; mq_rateTimer := mq_rateTimer q;
     mq_pumpScheduled := b |}.
Definition put_config (s : QueueSettings) (h : list string) (q : MemQueue) : MemQueue :=
  {| mq_settings := s; mq_waiting := mq_waiting q; mq_delayed := mq_delayed q; mq_active := mq_active q;
     mq_handlers := h; mq_dlq := mq_dlq q; mq_rateWindow := mq_rateWindow q; mq_rateTimer := mq_rateTimer q;
     mq_pumpScheduled := mq_pumpScheduled q |}.

(** * Operations *)

Definition defineQueue (name : string) (s : QueueSettings) (d : Driver) : Driver :=
  match get name (dr_queueMap d) with
  | Some q => upd_queue name (put_config s (mq_handlers q) q) d
  | None => upd_queue name {| mq_settings := s; mq_waiting := []; mq_delayed := []; mq_active := []; mq_handlers := [];
      mq_dlq := []; mq_rateWindow := []; mq_rateTimer := None; mq_pumpScheduled := false |} d
  end.

(** [pump]: schedule a drain, once. *)
Definition pump (q : MemQueue) : MemQueue := put_pump true q.

Definition setResult (id : string) (st : JobStatus) (now : Z) (d : Driver) : Driver :=
  {| dr_queueMap := dr_queueMap d; dr_idempotency := dr_idempotency d;
     dr_results := set id (st, now + COMPLETED_RETENTION_SECONDS * 1000) (filter (fun kv => ~ kv.2.2 <= now) (dr_results d));
     dr_seq := dr_seq d; dr_timers := dr_timers d; dr_closing := dr_closing d; dr_inFlight := dr_inFlight d; dr_notes := dr_notes d |}.

Definition delay (queue : string) (q : MemQueue) (job : MemJob) (ms now : Z) (d : Driver) : Driver :=
  let d := upd_queue queue (put_jobs (mq_waiting q) (mq_delayed q ++ [(dr_timers d, now + ms, job)]) (mq_active q) (mq_dlq q) q) d in
  {| dr_queueMap := dr_queueMap d; dr_idempotency := dr_idempotency d; dr_results := dr_results d; dr_seq := dr_seq d;
     dr_timers := dr_timers d + 1; dr_closing := dr_closing d; dr_inFlight := dr_inFlight d; dr_notes := dr_notes d |}.

Definition generated_id (name : string) (n : Z) : string := (name +:+ ":" +:+ toString n)%string.
Definition dedupe_key (queue key : string) : string := (queue +:+ ":" +:+ key)%string.

(** The id of a new job and the driver that remembers it. *)
Definition issue_id (def : JobDefinition) (key : option string) (d : Driver) : string * Driver :=
  let seq := match key with Some _ => dr_seq d | None => dr_seq d + 1 end in
  let id := match key with Some k => k | None => generated_id (jd_name def) seq end in
  (id, {| dr_queueMap := dr_queueMap d;
          dr_idempotency := if truthy_str key then set (dedupe_key (jd_queue def) (default ""%string key)) id (dr_idempotency d) else dr_idempotency d;
          dr_results := dr_results d; dr_seq := seq; dr_timers := dr_timers d; dr_closing := dr_closing d;
          dr_inFlight := dr_inFlight d; dr_notes := dr_notes d |}).

(** [enqueueInternal]; [None] is the error of an undefined queue. *)
Definition enqueueInternal (def : JobDefinition) (data : string) (opts : EnqueueOptions) (next : list ChainStep) (now : Z)
    (d : Driver) : option (string * Driver) :=
  q ← get (jd_queue def) (dr_queueMap d);
  let key := eo_idempotencyKey opts in
  let existing := if truthy_str key then get (dedupe_key (jd_queue def) (default ""%string key)) (dr_idempotency d) else None in
  if truthy_str existing then Some (default ""%string existing, d)
  else
    let '(id, d) := issue_id def key d in
    let job := {| mj_id := id; mj_def := def; mj_data := data; mj_attempt := 1; mj_idempotencyKey := key;
                  mj_priority := eo_priority opts; mj_onComplete := next |} in
    let d := note nt_accepted (jd_queue def) id now (setResult id js_pending now d) in
    let ms := default 0 (eo_delayMs opts) in
    Some (id, if negb (ms =? 0) then delay (jd_queue def) q job ms now d
              else upd_queue (jd_queue def) (pump (put_jobs (mq_waiting q ++ [job]) (mq_delayed q) (mq_active q) (mq_dlq q) q)) d).

(** [enqueueChain] and [enqueueStep]: the head now, the rest on completion. *)
Definition enqueueStep (steps : list ChainStep) (now : Z) (d : Driver) : option (string * Driver) :=
  match steps with
  | [] => None
  | s :: rest => enqueueInternal (cs_def s) (cs_data s) (cs_opts s) rest now d
  end.

Definition process_job (def : JobDefinition) (d : Driver) : option Driver :=
  q ← get (jd_queue def) (dr_queueMap d);
  let h := if decide (jd_name def ∈ mq_handlers q) then mq_handlers q else mq_handlers q ++ [jd_name def] in
  Some (upd_queue (jd_queue def) (pump (put_config (mq_settings q) h q)) d).

Definition cancel_job (queue id : string) (now : Z) (d : Driver) : option (bool * Driver) :=
  q ← get queue (dr_queueMap d);
  match list_find (fun j => mj_id j = id) (mq_waiting q) with
  | Some (i, _) =>
      Some (true, note nt_cancelled queue id now (upd_queue queue (put_jobs (delete i (mq_waiting q)) (mq_delayed q) (mq_active q) (mq_dlq q) q) d))
  | None =>
      match list_find (fun e => mj_id e.2 = id) (mq_delayed q) with
      | Some (i, _) =>
          Some (true, note nt_cancelled queue id now (upd_queue queue (put_jobs (mq_waiting q) (delete i (mq_delayed q)) (mq_active q) (mq_dlq q) q) d))
      | None => Some (false, d)
      end
  end.

(** [l.slice(-limit)]: the last [limit], all of them when [limit] is 0. *)
Definition slice_last {A} (limit : Z) (l : list A) : list A :=
  let start := if 0 <? limit then Z.max 0 (Z.of_nat (length l) - limit) else - limit in
  drop (Z.to_nat start) l.

Definition stats (queue : string) (d : Driver) : option (nat * nat * nat * nat) :=
  q ← get queue (dr_queueMap d);
  Some (length (mq_waiting q), length (mq_active q), length (mq_delayed q), length (mq_dlq q)).

Definition deadLetters (queue : string) (limit : Z) (d : Driver) : option (list MemDeadLetter) :=
  q ← get queue (dr_queueMap d); Some (reverse (slice_last limit (mq_dlq q))).

Definition retryDeadLetter (queue id : string) (now : Z) (d : Driver) : bool * Driver :=
  match get queue (dr_queueMap d) with
  | None => (false, d)
  | Some q =>
      match list_find (fun e => dl_jobId e = id) (mq_dlq q) with
      | None => (false, d)
      | Some (i, e) =>
          let job := {| mj_id := dl_jobId e; mj_def := dl_def e; mj_data := dl_data e; mj_attempt := 1;
                        mj_idempotencyKey := None; mj_priority := None; mj_onComplete := [] |} in
          (true, upd_queue queue (pump (put_jobs (mq_waiting q ++ [job]) (mq_delayed q) (mq_active q) (delete i (mq_dlq q)) q))
                   (setResult id js_pending now d))
      end
  end.

Definition getResult (id : string) (now : Z) (d : Driver) : JobStatus :=
  match get id (dr_results d) with
  | Some (st, expiresAt) => if expiresAt <=? now then js_pending else st
  | None => js_pending
  end.

(** [priority ?? Infinity], compared. *)
Definition prio_lt (a b : option Z) : bool :=
  match a, b with Some x, Some y => x <? y | Some _, None => true | None, _ => false end.

(** [nextIndex]: scan for the lowest priority value among the jobs that have a
    handler, keeping the first. *)
Fixpoint next_scan (handlers : list string) (l : list MemJob) (i : nat) (best : option (nat * option Z)) : option nat :=
  match l with
  | [] => fst <$> best
  | j :: l =>
      let best' :=
        if negb (bool_decide (jd_name (mj_def j) ∈ handlers)) then best
        else match best with
             | None => Some (i, mj_priority j)
             | Some (_, p) => if prio_lt (mj_priority j) p then Some (i, mj_priority j) else best
             end in
      next_scan handlers l (S i) best'
  end.
Definition nextIndex (q : MemQueue) : option nat := next_scan (mq_handlers q) (mq_waiting q) 0 None.

Definition takeRateSlot (now : Z) (q : MemQueue) : bool * MemQueue :=
  match qs_rateLimit (mq_settings q) with
  | None => (true, q)
  | Some (max, durationMs) =>
      let win := filter (fun t => now - t < durationMs) (mq_rateWindow q) in
      if Z.of_nat (length win) <? max then (true, put_rate (win ++ [now]) (mq_rateTimer q) q)
      else (false, put_rate win (match mq_rateTimer q with
                                 | Some t => Some t
                                 | None => Some (match head win with
                                             | Some oldest => now + (durationMs - (now - oldest))
                                             | None => now + 1   (* setTimeout of NaN *)
                                             end) end) q)
  end.

(** One round of [drain]: start a job, or stop. *)
Definition drain_round (queue : string) (now : Z) (d : Driver) : Driver + Driver :=
  match get queue (dr_queueMap d) with
  | None => inr d
  | Some q =>
      if dr_closing d || (qs_concurrency (mq_settings q) <=? Z.of_nat (length (mq_active q))) then inr d
      else
        match nextIndex q with
        | None => inr d
        | Some i =>
            match mq_waiting q !! i with
            | None => inr d
            | Some job =>
                match takeRateSlot now q with
                | (false, q) => inr (upd_queue queue q d)
                | (true, q) =>
                    inl (note nt_started queue (mj_id job) now
                      (setResult (mj_id job) js_active now
                        (fly (dr_inFlight d ++ [job])
                          (upd_queue queue (put_jobs (delete i (mq_waiting q)) (mq_delayed q) (set (mj_id job) job (mq_active q)) (mq_dlq q) q) d))))
                end
            end
        end
  end.

Fixpoint drain_loop (fuel : nat) (queue : string) (now : Z) (d : Driver) : Driver :=
  match fuel with
  | O => d
  | S fuel => match drain_round queue now d with inl d' => drain_loop fuel queue now d' | inr d' => d' end
  end.

(** Every round but the last takes a job out of [waiting]. *)
Definition drain (queue : string) (now : Z) (d : Driver) : Driver :=
  match get queue (dr_queueMap d) with
  | None => d
  | Some q => drain_loop (S (length (mq_waiting q))) queue now d
  end.

Definition pump_queue (queue : string) (d : Driver) : Driver :=
  match get queue (dr_queueMap d) with Some q => upd_queue queue (pump q) d | None => d end.

Definition next_attempt (j : MemJob) : MemJob := {| mj_id := mj_id j; mj_def := mj_def j; mj_data := mj_data j;
  mj_attempt := mj_attempt j + 1; mj_idempotencyKey := mj_idempotencyKey j; mj_priority := mj_priority j; mj_onComplete := mj_onComplete j |}.

(** The end of [run]: the handler of the job resolved or threw. *)
Definition finish_run (job : MemJob) (res : outcome string string) (now : Z) (d : Driver) : Driver :=
  let queue := jd_queue (mj_def job) in
  match get queue (dr_queueMap d) with
  | None => d
  | Some q =>
      if negb (has (mj_id job) (mq_active q)) then d
      else
        let q := put_jobs (mq_waiting q) (mq_delayed q) (del (mj_id job) (mq_active q)) (mq_dlq q) q in
        match res with
        | Ok result =>
            let d := note nt_completed queue (mj_id job) now (setResult (mj_id job) (js_completed result) now (upd_queue queue q d)) in
            match mj_onComplete job with
            | [] => d
            | rest => match enqueueStep rest now d with Some (_, d') => d' | None => d end
            end
        | Err error =>
            if mj_attempt job <? jd_attempts (mj_def job) then
              delay queue q (next_attempt job) (jd_backoffMs (mj_def job) * 2 ^ (mj_attempt job - 1)) now
                (setResult (mj_id job) js_pending now d)
            else
              upd_queue queue (put_jobs (mq_waiting q) (mq_delayed q) (mq_active q)
                (mq_dlq q ++ [{| dl_jobId := mj_id job; dl_name := jd_name (mj_def job); dl_data := mj_data job; dl_error := error;
                   dl_attempts := mj_attempt job; dl_failedAt := now; dl_def := mj_def job |}]) q)
                (setResult (mj_id job) (js_failed error) now d)
        end
  end.

Definition settle (n : nat) (res : outcome string string) (now : Z) (d : Driver) : Driver :=
  match dr_inFlight d !! n with
  | None => d
  | Some job => pump_queue (jd_queue (mj_def job)) (finish_run job res now (fly (delete n (dr_inFlight d)) d))
  end.

(** [close]: first no new job starts; after the grace period the unfinished
    ones go back to the head of the queue and the delayed ones are dropped. *)
Definition close_begin (d : Driver) : Driver :=
  {| dr_queueMap := dr_queueMap d; dr_idempotency := dr_idempotency d; dr_results := dr_results d; dr_seq := dr_seq d;
     dr_timers := dr_timers d; dr_closing := true; dr_inFlight := dr_inFlight d; dr_notes := dr_notes d |}.
Definition close_end (d : Driver) : Driver :=
  {| dr_queueMap := (fun '(k, q) => (k, put_rate (mq_rateWindow q) None (put_jobs (values (mq_active q) ++ mq_waiting q) [] [] (mq_dlq q) q)))
       <$> dr_queueMap d;
     dr_idempotency := dr_idempotency d; dr_results := dr_results d; dr_seq := dr_seq d; dr_timers := dr_timers d;
     dr_closing := true; dr_inFlight := dr_inFlight d; dr_notes := dr_notes d |}.

(** * Runs *)

Inductive JobEvent :=
  | EvEnqueue (steps : list ChainStep)
  | EvProcess (def : JobDefinition)
  | EvCancel (queue id : string)
  | EvRetry (queue id : string)
  | EvDrain (queue : string)
  | EvTimer (queue : string) (n : nat)
  | EvRateTimer (queue : string)
  | EvSettle (n : nat) (res : outcome string string)
  | EvClose.

Definition job_step (ev : JobEvent) (now : Z) (d : Driver) : Driver :=
  match ev with
  | EvEnqueue steps => match enqueueStep steps now d with Some (_, d') => d' | None => d end
  | EvProcess def => default d (process_job def d)
  | EvCancel queue id => match cancel_job queue id now d with Some (_, d') => d' | None => d end
  | EvRetry queue id => (retryDeadLetter queue id now d).2
  | EvDrain queue =>
      match get queue (dr_queueMap d) with
      | Some q => if mq_pumpScheduled q then drain queue now (upd_queue queue (put_pump false q) d) else d
      | None => d
      end
  | EvTimer queue n =>
      match get queue (dr_queueMap d) with
      | Some q =>
          match mq_delayed q !! n with
          | Some (_, due, job) =>
              if due <=? now then upd_queue queue (pump (put_jobs (mq_waiting q ++ [job]) (delete n (mq_delayed q)) (mq_active q) (mq_dlq q) q)) d
              else d
          | None => d
          end
      | None => d
      end
  | EvRateTimer queue =>
      match get queue (dr_queueMap d) with
      | Some q =>
          match mq_rateTimer q with
          | Some t => if t <=? now then upd_queue queue (pump (put_rate (mq_rateWindow q) None q)) d else d
          | None => d
          end
      | None => d
      end
  | EvSettle n res => settle n res now d
  | EvClose => close_begin d
  end.
