(* ===== verification/JobQueueSafety.v ===== *)
(** What the job queue guarantees: an accepted job is always in exactly one
    place until it completes or is cancelled, no more handlers run than the
    queue's concurrency allows, and starts respect its rate limit. *)
From stdpp Require Import relations sorting.
From S2P Require Import Prelude JsMap BigInt SlidingWindow JobQueue.
Local Open Scope Z_scope.

(** * Generated ids are distinct *)

Definition colon : Ascii.ascii := Ascii.ascii_of_N 58.

Fixpoint has_colon (s : string) : bool :=
  match s with EmptyString => false | String c s => bool_decide (c = colon) || has_colon s end.

Lemma has_colon_app a y : has_colon (a +:+ String colon y) = true.
Proof. induction a as [|c a IH]; [done|]. change (bool_decide (c = colon) || has_colon (a +:+ String colon y) = true). rewrite IH. apply orb_true_r. Qed.

Lemma colon_suffix a b x y : has_colon x = false -> has_colon y = false ->
  a +:+ String colon x = b +:+ String colon y -> x = y.
Proof.
  intros Hx Hy. revert b. induction a as [|c a IH]; intros [|c' b] H.
  - by injection H.
  - injection H as _ H. enough (has_colon x = true) by congruence. rewrite H. apply has_colon_app.
  - injection H as _ H. enough (has_colon y = true) by congruence. rewrite <- H. apply has_colon_app.
  - injection H as _ H. by apply (IH b).
Qed.

Lemma digits_no_colon s : digits_only s = true -> has_colon s = false.
Proof.
  assert (H : all_chars is_digit s = true -> has_colon s = false).
  { induction s as [|c s IH]; [done|]. cbn [all_chars has_colon]. intros [Hc Hs]%andb_prop.
    rewrite (IH Hs), orb_false_r. apply bool_decide_eq_false. by intros ->. }
  unfold digits_only. by destruct s.
Qed.

Lemma generated_id_inj a b n m : 0 <= n -> 0 <= m -> generated_id a n = generated_id b m -> n = m.
Proof.
  unfold generated_id. intros Hn Hm H. apply colon_suffix in H; [by apply toString_inj|by apply digits_no_colon, toString_digits..].
Qed.

(** * Where jobs are *)

Definition cnt (id : string) (l : list string) : nat := length (filter (fun x => x = id) l).

Lemma cnt_app id l l' : cnt id (l ++ l') = (cnt id l + cnt id l')%nat.
Proof. unfold cnt. by rewrite filter_app, length_app. Qed.

Lemma cnt_cons id x l : cnt id (x :: l) = ((if decide (x = id) then 1 else 0) + cnt id l)%nat.
Proof. unfold cnt. rewrite filter_cons. by destruct (decide (x = id)). Qed.

Lemma cnt_nil id : cnt id [] = 0%nat.
Proof. done. Qed.

Lemma cnt_perm id l l' : l ≡ₚ l' -> cnt id l = cnt id l'.
Proof. intros H. unfold cnt. by rewrite H. Qed.

(** Taking an element out by position. *)
Lemma cnt_delete {A} (f : A -> string) l i x id : l !! i = Some x ->
  cnt id (f <$> l) = ((if decide (f x = id) then 1 else 0) + cnt id (f <$> delete i l))%nat.
Proof. intros Hi. rewrite <- cnt_cons. apply cnt_perm. rewrite (delete_Permutation l i x Hi) at 1. done. Qed.

Lemma cnt_pos id l : id ∈ l <-> (0 < cnt id l)%nat.
Proof.
  unfold cnt. induction l as [|x l IH]; [split; [by intros H%not_elem_of_nil|simpl; lia]|].
  rewrite elem_of_cons, filter_cons. case_decide as Hx; simpl; [split; [lia|by left]|]. rewrite <- IH. naive_solver.
Qed.

Lemma cnt_keys_set {V} id k (v : V) m : get k m = None ->
  cnt id (keys (set k v m)) = (cnt id (keys m) + if decide (k = id) then 1 else 0)%nat.
Proof. intros H. rewrite set_absent by done. unfold keys. rewrite fmap_app, cnt_app. csimpl. by rewrite cnt_cons, cnt_nil, Nat.add_0_r. Qed.

Lemma cnt_keys_del {V} id k (v : V) m : get k m = Some v ->
  cnt id (keys m) = (cnt id (keys (del k m)) + if decide (k = id) then 1 else 0)%nat.
Proof.
  unfold keys. induction m as [|[k' v'] m IH]; csimpl; intros H; [done|]. rewrite cnt_cons.
  destruct (bool_decide (k' = k)) eqn:E; bool_norm; [subst; lia|]. csimpl. rewrite cnt_cons, IH by done. lia.
Qed.

Lemma length_del {V} k (v : V) m : get k m = Some v -> length m = S (length (del k m)).
Proof.
  induction m as [|[k' v'] m IH]; simpl; intros H; [done|]. destruct (bool_decide (k' = k)); [done|]. simpl. by rewrite <- IH.
Qed.

Lemma get_del_some {V} k k' (v : V) m : get k' (del k m) = Some v -> k' <> k -> get k' m = Some v.
Proof. intros H Hne. by rewrite get_del_ne in H by done. Qed.

(** The ids the driver reported for a queue. *)
Definition ids (n : JobNote) (k : string) (notes : list (JobNote * string * string * Z)) : list string :=
  (fun e => e.1.2) <$> filter (fun e => e.1.1 = (n, k)) notes.

Definition running (k : string) (l : list MemJob) : list MemJob := filter (fun j => jd_queue (mj_def j) = k) l.

Definition waiting_ids (q : MemQueue) : list string := mj_id <$> mq_waiting q.
Definition delayed_ids (q : MemQueue) : list string := (fun e => mj_id e.2) <$> mq_delayed q.
Definition dead_ids (q : MemQueue) : list string := dl_jobId <$> mq_dlq q.

Section queue.
(** Job names in use; no idempotency key has the form of a generated id. *)
Context (Names : string -> Prop).

Definition step_ok (s : ChainStep) : Prop :=
  Names (jd_name (cs_def s)) /\
  match eo_idempotencyKey (cs_opts s) with
  | None => True
  | Some key => key <> ""%string /\ forall name n, Names name -> key <> generated_id name n
  end.

Definition job_ok (k : string) (j : MemJob) : Prop := jd_queue (mj_def j) = k /\ Forall step_ok (mj_onComplete j).

Record queue_inv (k : string) (q : MemQueue) (notes : list (JobNote * string * string * Z)) (infl : list MemJob) : Prop := {
  qi_place : forall id, cnt id (ids nt_accepted k notes) =
    (cnt id (waiting_ids q) + cnt id (delayed_ids q) + cnt id (keys (mq_active q)) + cnt id (dead_ids q)
     + cnt id (ids nt_completed k notes) + cnt id (ids nt_cancelled k notes))%nat;
  qi_running : forall id, cnt id (mj_id <$> running k infl) = cnt id (keys (mq_active q));
  qi_length : length (running k infl) = length (mq_active q);
  qi_bound : Z.of_nat (length (mq_active q)) <= Z.max 0 (qs_concurrency (mq_settings q));
  qi_waiting : Forall (job_ok k) (mq_waiting q);
  qi_delayed : Forall (fun e => job_ok k e.2) (mq_delayed q);
  qi_dead : Forall (fun e => jd_queue (dl_def e) = k) (mq_dlq q);
}.

(** An id the driver will not issue again for the queue. *)
Definition issued (d : Driver) (k id : string) : Prop :=
  (id <> ""%string /\ get (dedupe_key k id) (dr_idempotency d) = Some id /\ forall name n, Names name -> id <> generated_id name n) \/
  (exists name n, Names name /\ id = generated_id name n /\ 0 <= n <= dr_seq d).

Record driver_inv (d : Driver) : Prop := {
  di_queues : forall k q, get k (dr_queueMap d) = Some q -> queue_inv k q (dr_notes d) (dr_inFlight d);
  di_once : forall k id, (cnt id (ids nt_accepted k (dr_notes d)) <= 1)%nat;
  di_issued : forall k id, id ∈ ids nt_accepted k (dr_notes d) -> issued d k id;
  di_flight : Forall (fun j => Forall step_ok (mj_onComplete j)) (dr_inFlight d);
  di_seq : 0 <= dr_seq d;
}.

Lemma ids_app n k l l' : ids n k (l ++ l') = ids n k l ++ ids n k l'.
Proof. unfold ids. by rewrite filter_app, fmap_app. Qed.

Lemma cnt_ids_snoc id n k l m k' x t :
  cnt id (ids n k (l ++ [(m, k', x, t)])) = (cnt id (ids n k l) + if decide (m = n /\ k' = k /\ x = id) then 1 else 0)%nat.
Proof.
  rewrite ids_app, cnt_app. f_equal. unfold ids. rewrite filter_cons, filter_nil. simpl.
  destruct (decide ((m, k') = (n, k))) as [E|E]; csimpl.
  - rewrite cnt_cons, cnt_nil, Nat.add_0_r. simplify_eq. by repeat case_decide; try tauto.
  - rewrite decide_False; [done|]. intros (-> & -> & _). done.
Qed.

(** Changes that leave the jobs of the queue and its concurrency alone. *)
Lemma queue_inv_same k q q' notes infl :
  mq_waiting q' = mq_waiting q -> mq_delayed q' = mq_delayed q -> mq_active q' = mq_active q -> mq_dlq q' = mq_dlq q ->
  mq_settings q' = mq_settings q -> queue_inv k q notes infl -> queue_inv k q' notes infl.
Proof.
  intros H1 H2 H3 H4 H5 []. constructor; unfold waiting_ids, delayed_ids, dead_ids in *; rewrite ?H1, ?H2, ?H3, ?H4, ?H5; done.
Qed.

(** The frame of a step on queue [k]: the other queues see no new note and no
    change in what runs for them. *)
Lemma driver_inv_step k q' d d' ext :
  driver_inv d ->
  dr_queueMap d' = set k q' (dr_queueMap d) -> dr_notes d' = dr_notes d ++ ext ->
  Forall (fun e => e.1.1.2 = k) ext -> (forall k', k' <> k -> running k' (dr_inFlight d') = running k' (dr_inFlight d)) ->
  queue_inv k q' (dr_notes d') (dr_inFlight d') ->
  (forall id, (cnt id (ids nt_accepted k (dr_notes d')) <= 1)%nat) ->
  (forall k' id, id ∈ ids nt_accepted k' (dr_notes d') -> issued d' k' id) ->
  Forall (fun j => Forall step_ok (mj_onComplete j)) (dr_inFlight d') -> 0 <= dr_seq d' ->
  driver_inv d'.
Proof.
  intros [Hq Ho Hi Hf Hs] Hm Hn Hext Hrun Hq' Ho' Hi' Hf' Hs'.
  assert (Hids : forall k' n, k' <> k -> ids n k' (dr_notes d') = ids n k' (dr_notes d)).
  { intros k' n Hne. rewrite Hn, ids_app. replace (ids n k' ext) with (@nil string); [by rewrite app_nil_r|].
    unfold ids. clear -Hext Hne. induction Hext as [|e l He _ IH]; [done|]. rewrite filter_cons, decide_False; [done|].
    intros E. rewrite E in He. by simpl in He. }
  constructor; [| |done|done|done].
  - intros k' q0. rewrite Hm, get_set. case_decide as Hd; [intros [= <-]; by subst k'|]. intros H0.
    destruct (Hq k' q0 H0). constructor; rewrite ?Hids, ?Hrun by done; done.
  - intros k' id. destruct (decide (k' = k)) as [->|Hne]; [done|]. by rewrite Hids.
Qed.

(** Steps that report nothing new, start and settle nothing. *)
Lemma driver_inv_quiet k q' d d' :
  driver_inv d -> dr_queueMap d' = set k q' (dr_queueMap d) ->
  dr_notes d' = dr_notes d -> dr_inFlight d' = dr_inFlight d -> dr_idempotency d' = dr_idempotency d -> dr_seq d' = dr_seq d ->
  queue_inv k q' (dr_notes d) (dr_inFlight d) -> driver_inv d'.
Proof.
  intros Hd Hm Hn Hf Hid Hs Hq'.
  apply (driver_inv_step k q' d d' []); [done|done|by rewrite app_nil_r|done|by rewrite Hf|by rewrite Hn, Hf|..].
  - intros id. rewrite Hn. apply Hd.
  - intros k' id. rewrite Hn. intros H%(di_issued d Hd). unfold issued. by rewrite Hid, Hs.
  - rewrite Hf. apply Hd.
  - rewrite Hs. apply Hd.
Qed.

(** Counting, by cases on the ids that are equal. *)
Ltac counting :=
  unfold waiting_ids, delayed_ids, dead_ids in *; simpl;
  rewrite ?cnt_ids_snoc, ?fmap_app, ?cnt_app; csimpl; rewrite ?cnt_cons, ?cnt_nil;
  repeat (case_decide; destruct_and?; simplify_eq/=; try tauto); try lia.

Lemma fresh_id d s : driver_inv d -> step_ok s ->
  let k := jd_queue (cs_def s) in let key := eo_idempotencyKey (cs_opts s) in
  truthy_str (if truthy_str key then get (dedupe_key k (default ""%string key)) (dr_idempotency d) else None) = false ->
  let '(id, d') := issue_id (cs_def s) key d in
  cnt id (ids nt_accepted k (dr_notes d)) = 0%nat /\ issued d' k id /\
  (forall k' id', issued d k' id' -> issued d' k' id') /\ 0 <= dr_seq d'.
Proof.
  intros Hd [Hname Hkey] k key Hno. unfold issue_id. fold key in Hkey. destruct key as [K|]; simpl in *.
  - destruct Hkey as [HK Hgen]. rewrite bool_decide_eq_false_2 in Hno |- * by done. simpl in *.
    split; [|split; [|split]].
    + destruct (cnt K (ids nt_accepted k (dr_notes d))) eqn:E; [done|].
      assert (Hin : K ∈ ids nt_accepted k (dr_notes d)) by (apply cnt_pos; lia).
      apply (di_issued d Hd) in Hin as [(_ & Hg & _)|(name & m & Hm & -> & _)]; [|by apply (Hgen name m) in Hm].
      rewrite Hg in Hno. simpl in Hno. by rewrite bool_decide_eq_false_2 in Hno.
    + left. split; [done|]. split; [simpl; by rewrite get_set_eq|done].
    + intros k' id' [(Hne & Hg & Hng)|Hr]; [|by right]. left. split; [done|]. split; [|done]. simpl. rewrite get_set.
      case_decide as E; [|done]. unfold k in Hno. rewrite E, Hg in Hno. simpl in Hno. by rewrite bool_decide_eq_false_2 in Hno.
    + apply Hd.
  - assert (Hs : 0 <= dr_seq d) by apply Hd. split; [|split; [|split]].
    + match goal with |- cnt ?x _ = _ => destruct (cnt x (ids nt_accepted k (dr_notes d))) eqn:E; [done|];
        assert (Hin : x ∈ ids nt_accepted k (dr_notes d)) by (apply cnt_pos; lia) end.
      apply (di_issued d Hd) in Hin as [(_ & _ & Hng)|(name & m & _ & Heq & Hm)]; [by eapply Hng in Hname|].
      apply generated_id_inj in Heq; lia.
    + right. exists (jd_name (cs_def s)), (dr_seq d + 1). simpl. split_and!; [done|done|lia|lia].
    + intros k' id' [Hl|(name & n & Hn & -> & Hle)]; [by left|]. right. exists name, n. simpl. split_and!; [done|done|lia|lia].
    + lia.
Qed.

Lemma enqueue_inv d s rest now id d' : driver_inv d -> step_ok s -> Forall step_ok rest ->
  enqueueInternal (cs_def s) (cs_data s) (cs_opts s) rest now d = Some (id, d') -> driver_inv d'.
Proof.
  intros Hd Hs Hrest He. unfold enqueueInternal in He. pose proof (fresh_id d s Hd Hs) as Hfresh.
  set (k := jd_queue (cs_def s)) in *. destruct (get k (dr_queueMap d)) as [q|] eqn:Hq; [|done].
  cbn [mbind option_bind] in He. cbv zeta in He, Hfresh. fold k in He. destruct (truthy_str (if truthy_str _ then _ else None)) eqn:Hno; [by injection He as <- <-|].
  specialize (Hfresh eq_refl). destruct (issue_id _ _ d) as [id0 d0] eqn:Ei.
  destruct Hfresh as (H0 & Hnew & Hold & Hseq). unfold issue_id in Ei. injection Ei as Hid0 Hd0.
  set (job := {| mj_id := id0; mj_def := _; mj_data := _; mj_attempt := _; mj_idempotencyKey := _; mj_priority := _; mj_onComplete := _ |}) in He. injection He as <- <-.
  assert (Hjob : job_ok k job) by done.
  destruct (di_queues d Hd k q Hq) as [P1 P2 P3 P4 P5 P6 P7].
  assert (Hids : forall k' x, x ∈ ids nt_accepted k' (dr_notes d ++ [(nt_accepted, k, id0, now)]) -> issued d0 k' x).
  { intros k' x Hx. rewrite ids_app in Hx. apply elem_of_app in Hx as [Hx|Hx]; [by apply Hold, (di_issued d Hd)|].
    apply cnt_pos in Hx. unfold ids in Hx. rewrite filter_cons, filter_nil in Hx. simpl in Hx.
    destruct (decide ((nt_accepted, k) = (nt_accepted, k'))) as [E|]; [|by rewrite cnt_nil in Hx; lia].
    injection E as <-. csimpl in Hx. rewrite cnt_cons, cnt_nil in Hx. case_decide; [by subst|lia]. }
  assert (Honce : forall x, (cnt x (ids nt_accepted k (dr_notes d ++ [(nt_accepted, k, id0, now)])) <= 1)%nat).
  { intros x. rewrite cnt_ids_snoc. pose proof (di_once d Hd k x). case_decide; [|lia]. destruct_and?; subst x. lia. }
  destruct (negb (default 0 (eo_delayMs (cs_opts s)) =? 0)).
  - eapply (driver_inv_step k _ d _ [(nt_accepted, k, id0, now)]); [done|by subst d0|by subst d0|by repeat constructor|by subst d0| |..].
    + subst d0. constructor; simpl; [|done|done|done|done| |done].
      * intros x. specialize (P1 x). counting.
      * apply Forall_app. split; [done|]. by repeat constructor.
    + by subst d0.
    + intros k' x Hx. apply Hids. by subst d0.
    + subst d0. simpl. apply Hd.
    + by subst d0.
  - eapply (driver_inv_step k _ d _ [(nt_accepted, k, id0, now)]); [done|by subst d0|by subst d0|by repeat constructor|by subst d0| |..].
    + subst d0. constructor; simpl; [|done|done|done| |done|done].
      * intros x. specialize (P1 x). counting.
      * apply Forall_app. split; [done|]. by repeat constructor.
    + by subst d0.
    + intros k' x Hx. apply Hids. by subst d0.
    + subst d0. simpl. apply Hd.
    + by subst d0.
Qed.

Lemma enqueueStep_inv d steps now id d' : driver_inv d -> Forall step_ok steps ->
  enqueueStep steps now d = Some (id, d') -> driver_inv d'.
Proof.
  intros Hd Hs. destruct steps as [|s rest]; [done|]. apply Forall_cons in Hs as [Hs Hr]. by apply enqueue_inv.
Qed.

Lemma Forall_delete {A} (P : A -> Prop) l i : Forall P l -> Forall P (delete i l).
Proof. revert i. induction l as [|x l IH]; intros [|i] H; simpl; [done|done| |]; apply Forall_cons in H as [Hx Hl]; auto. Qed.

(** Steps on [k] that report one note, other than an acceptance. *)
Lemma driver_inv_note k q' d d' n id now :
  driver_inv d -> n <> nt_accepted -> dr_queueMap d' = set k q' (dr_queueMap d) ->
  dr_notes d' = dr_notes d ++ [(n, k, id, now)] -> (forall k', k' <> k -> running k' (dr_inFlight d') = running k' (dr_inFlight d)) ->
  Forall (fun j => Forall step_ok (mj_onComplete j)) (dr_inFlight d') ->
  dr_idempotency d' = dr_idempotency d -> dr_seq d' = dr_seq d ->
  queue_inv k q' (dr_notes d') (dr_inFlight d') -> driver_inv d'.
Proof.
  intros Hd Hn Hm Hnotes Hrun Hfl Hid Hs Hq'.
  assert (Hids : forall k', ids nt_accepted k' (dr_notes d') = ids nt_accepted k' (dr_notes d)).
  { intros k'. rewrite Hnotes, ids_app. unfold ids at 2. rewrite filter_cons, decide_False by (simpl; congruence).
    by rewrite filter_nil, app_nil_r. }
  apply (driver_inv_step k q' d d' [(n, k, id, now)]); [done|done|done|by repeat constructor|done|done|..].
  - intros x. rewrite Hids. apply Hd.
  - intros k' x. rewrite Hids. intros H%(di_issued d Hd). unfold issued. by rewrite Hid, Hs.
  - done.
  - rewrite Hs. apply Hd.
Qed.

Lemma process_inv d def d' : driver_inv d -> process_job def d = Some d' -> driver_inv d'.
Proof.
  intros Hd Hp. unfold process_job in Hp. destruct (get (jd_queue def) (dr_queueMap d)) as [q|] eqn:Hq; [|done].
  injection Hp as <-. eapply (driver_inv_quiet (jd_queue def)); [done|done|done|done|done|done|].
  eapply queue_inv_same; [..|by apply Hd]; done.
Qed.

Lemma cancel_inv d k id now b d' : driver_inv d -> cancel_job k id now d = Some (b, d') -> driver_inv d'.
Proof.
  intros Hd Hc. unfold cancel_job in Hc. destruct (get k (dr_queueMap d)) as [q|] eqn:Hq; [|done]. cbn [mbind option_bind] in Hc.
  destruct (di_queues d Hd k q Hq) as [P1 P2 P3 P4 P5 P6 P7].
  destruct (list_find _ (mq_waiting q)) as [[i j]|] eqn:Hw.
  { apply list_find_Some in Hw as (Hi & Hj & _). injection Hc as <- <-.
    eapply (driver_inv_note k _ d _ nt_cancelled id now); [done|done|done|done|done|apply Hd|done|done|].
    constructor; simpl; [|done|done|done|by apply Forall_delete|done|done].
    intros x. specialize (P1 x). unfold waiting_ids in P1. rewrite (cnt_delete mj_id _ _ _ _ Hi) in P1. counting. }
  destruct (list_find _ (mq_delayed q)) as [[i e]|] eqn:Hw2; [|by injection Hc as <- <-].
  apply list_find_Some in Hw2 as (Hi & Hj & _). injection Hc as <- <-.
  eapply (driver_inv_note k _ d _ nt_cancelled id now); [done|done|done|done|done|apply Hd|done|done|].
  constructor; simpl; [|done|done|done|done|by apply Forall_delete|done].
  intros x. specialize (P1 x). unfold delayed_ids in P1. rewrite (cnt_delete (fun e => mj_id e.2) _ _ _ _ Hi) in P1. counting.
Qed.

Lemma retry_inv d k id now : driver_inv d -> driver_inv (retryDeadLetter k id now d).2.
Proof.
  intros Hd. unfold retryDeadLetter. destruct (get k (dr_queueMap d)) as [q|] eqn:Hq; [|done].
  destruct (list_find _ (mq_dlq q)) as [[i e]|] eqn:Hw; [|done]. apply list_find_Some in Hw as (Hi & Hj & _). simpl.
  destruct (di_queues d Hd k q Hq) as [P1 P2 P3 P4 P5 P6 P7].
  eapply (driver_inv_quiet k); [done|done|done|done|done|done|].
  constructor; simpl; [|done|done|done| |done|by apply Forall_delete].
  - intros x. specialize (P1 x). unfold dead_ids in P1. rewrite (cnt_delete dl_jobId _ _ _ _ Hi) in P1. counting.
  - apply Forall_app. split; [done|]. repeat constructor. eapply Forall_lookup_1 in P7; [|exact Hi]. exact P7.
Qed.

Lemma timer_inv d k q n tid due job : driver_inv d -> get k (dr_queueMap d) = Some q -> mq_delayed q !! n = Some (tid, due, job) ->
  driver_inv (upd_queue k (pump (put_jobs (mq_waiting q ++ [job]) (delete n (mq_delayed q)) (mq_active q) (mq_dlq q) q)) d).
Proof.
  intros Hd Hq Hi. destruct (di_queues d Hd k q Hq) as [P1 P2 P3 P4 P5 P6 P7].
  eapply (driver_inv_quiet k); [done|done|done|done|done|done|].
  constructor; simpl; [|done|done|done| |by apply Forall_delete|done].
  - intros x. specialize (P1 x). unfold delayed_ids in P1. rewrite (cnt_delete (fun e => mj_id e.2) _ _ _ _ Hi) in P1. counting.
  - apply Forall_app. split; [done|]. constructor; [exact (Forall_lookup_1 _ _ _ _ P6 Hi)|done].
Qed.

Lemma rate_inv d k q w t b : driver_inv d -> get k (dr_queueMap d) = Some q ->
  driver_inv (upd_queue k (put_pump b (put_rate w t q)) d).
Proof.
  intros Hd Hq. eapply (driver_inv_quiet k); [done|done|done|done|done|done|].
  eapply queue_inv_same; [..|by apply Hd]; done.
Qed.

Lemma rate_slot_same now q : let q' := (takeRateSlot now q).2 in
  mq_waiting q' = mq_waiting q /\ mq_delayed q' = mq_delayed q /\ mq_active q' = mq_active q /\ mq_dlq q' = mq_dlq q /\
  mq_settings q' = mq_settings q.
Proof. unfold takeRateSlot. destruct (qs_rateLimit _) as [[max dur]|]; [|done]. by case_match. Qed.

Lemma round_inv d k now : driver_inv d -> match drain_round k now d with inl d' | inr d' => driver_inv d' end.
Proof.
  intros Hd. unfold drain_round. destruct (get k (dr_queueMap d)) as [q|] eqn:Hq; [|done].
  destruct (dr_closing d || _) eqn:Hfull; [done|]. apply orb_false_iff in Hfull as [_ Hfull%Z.leb_gt].
  destruct (nextIndex q) as [i|]; [|done]. destruct (mq_waiting q !! i) as [job|] eqn:Hi; [|done].
  pose proof (rate_slot_same now q) as (E1 & E2 & E3 & E4 & E5). pose proof (di_queues d Hd k q Hq) as Hqi.
  destruct (takeRateSlot now q) as [[] q1]; simpl in *.
  2: { eapply (driver_inv_quiet k q1); [done|done|done|done|done|done|]. by eapply queue_inv_same. }
  destruct Hqi as [P1 P2 P3 P4 P5 P6 P7].
  assert (Hjob : job_ok k job) by exact (Forall_lookup_1 _ _ _ _ P5 Hi). destruct Hjob as [Hjk Hjs].
  assert (Habs : get (mj_id job) (mq_active q) = None).
  { specialize (P1 (mj_id job)). pose proof (di_once d Hd k (mj_id job)) as Ho. unfold waiting_ids in P1.
    rewrite (cnt_delete mj_id _ _ _ _ Hi), decide_True in P1 by done. apply get_None_keys. rewrite cnt_pos. lia. }
  eapply (driver_inv_note k _ d _ nt_started (mj_id job) now); [done|done|done|done|..]; simpl.
  - intros k' Hne. unfold running. rewrite filter_app, filter_cons, filter_nil. rewrite decide_False by congruence. by rewrite app_nil_r.
  - apply Forall_app. split; [apply Hd|]. by constructor.
  - done.
  - done.
  - unfold put_jobs. constructor; simpl; rewrite ?E1, ?E2, ?E3, ?E4, ?E5.
    + intros x. specialize (P1 x). unfold waiting_ids in *. simpl. rewrite (cnt_delete mj_id _ _ _ _ Hi) in P1. rewrite cnt_keys_set by done.
      unfold delayed_ids, dead_ids in *. simpl. rewrite ?E2, ?E4, !cnt_ids_snoc. counting.
    + intros x. specialize (P2 x). unfold running in *. rewrite filter_app, filter_cons, filter_nil, decide_True by done.
      rewrite fmap_app, cnt_app, cnt_keys_set by done. csimpl. rewrite cnt_cons, cnt_nil. lia.
    + unfold running in *. rewrite filter_app, filter_cons, filter_nil, decide_True by done.
      rewrite set_absent by done. rewrite !length_app. simpl. lia.
    + rewrite set_absent by done. rewrite length_app. simpl. lia.
    + by apply Forall_delete.
    + done.
    + done.
Qed.

Lemma drain_inv d k now : driver_inv d -> driver_inv (drain k now d).
Proof.
  intros Hd. unfold drain. destruct (get k (dr_queueMap d)) as [q|]; [|done]. generalize (S (length (mq_waiting q))). intros fuel.
  revert d Hd. induction fuel as [|fuel IH]; intros d Hd; simpl; [done|].
  pose proof (round_inv d k now Hd) as H. destruct (drain_round k now d); [by apply IH|done].
Qed.

(** A settled job leaves what runs and what is active together. *)
Lemma running_delete k l n job : l !! n = Some job -> jd_queue (mj_def job) = k ->
  (forall id, cnt id (mj_id <$> running k l) = ((if decide (mj_id job = id) then 1 else 0) + cnt id (mj_id <$> running k (delete n l)))%nat) /\
  length (running k l) = S (length (running k (delete n l))) /\
  forall k', k' <> k -> running k' (delete n l) = running k' l.
Proof.
  intros Hn Hk. unfold running. split_and!.
  - intros id. rewrite <- cnt_cons. apply cnt_perm. rewrite (delete_Permutation l n job Hn) at 1. by rewrite filter_cons, decide_True.
  - rewrite (delete_Permutation l n job Hn) at 1. by rewrite filter_cons, decide_True.
  - intros k' Hne. revert n Hn. induction l as [|x l IH]; intros [|n] Hn; simplify_eq/=; rewrite ?filter_cons.
    + by rewrite decide_False by congruence.
    + by rewrite IH.
Qed.

Lemma pump_inv k d : driver_inv d -> driver_inv (pump_queue k d).
Proof.
  intros Hd. unfold pump_queue. destruct (get k (dr_queueMap d)) as [q|] eqn:Hq; [|done].
  eapply (driver_inv_quiet k); [done|done|done|done|done|done|]. eapply queue_inv_same; [..|by apply Hd]; done.
Qed.

Lemma settle_job_inv d n res now : driver_inv d -> driver_inv (settle n res now d).
Proof.
  intros Hd. unfold settle. destruct (dr_inFlight d !! n) as [job|] eqn:Hn; [|done]. apply pump_inv.
  unfold finish_run. simpl. set (k := jd_queue (mj_def job)).
  destruct (running_delete k (dr_inFlight d) n job Hn eq_refl) as (R1 & R2 & R3).
  assert (Hfl : Forall (fun j => Forall step_ok (mj_onComplete j)) (delete n (dr_inFlight d))) by apply Forall_delete, Hd.
  destruct (get k (dr_queueMap d)) as [q|] eqn:Hq.
  2: { constructor; simpl; [|apply Hd|apply Hd|done|apply Hd]. intros k' q' Hq'.
       assert (k' <> k) by congruence. destruct (di_queues d Hd k' q' Hq'). constructor; rewrite ?R3 by done; done. }
  destruct (di_queues d Hd k q Hq) as [P1 P2 P3 P4 P5 P6 P7].
  assert (Hhas : exists j, get (mj_id job) (mq_active q) = Some j).
  { specialize (P2 (mj_id job)). rewrite R1, decide_True in P2 by done.
    destruct (get (mj_id job) (mq_active q)) as [j|] eqn:E; [by exists j|]. apply get_None_keys in E. rewrite cnt_pos in E. lia. }
  destruct Hhas as [j Hj]. unfold has. rewrite Hj. cbn [negb].
  assert (Hlen := length_del _ _ _ Hj).
  assert (Q2 : forall id, cnt id (mj_id <$> running k (delete n (dr_inFlight d))) = cnt id (keys (del (mj_id job) (mq_active q)))).
  { intros id. specialize (P2 id). rewrite R1, (cnt_keys_del _ _ _ _ Hj) in P2. lia. }
  assert (Q1 : forall id, cnt id (keys (mq_active q)) =
    (cnt id (keys (del (mj_id job) (mq_active q))) + if decide (mj_id job = id) then 1 else 0)%nat) by (intros; by eapply cnt_keys_del).
  destruct res as [result|error].
  - match goal with |- driver_inv match _ with [] => ?x | _ => _ end => assert (Hd1 : driver_inv x) end.
    { eapply (driver_inv_note k _ d _ nt_completed (mj_id job) now); [done|done|done|done|exact R3|exact Hfl|done|done|].
      constructor; simpl; [|exact Q2|lia|lia|done|done|done]. intros x. specialize (P1 x). rewrite Q1 in P1. counting. }
    pose proof (Forall_lookup_1 _ _ _ _ (di_flight d Hd) Hn) as Hsteps. cbv beta in Hsteps. destruct (mj_onComplete job) as [|s rest]; [done|].
    match goal with |- driver_inv match ?x with _ => _ end => destruct x as [[id' d']|] eqn:He end; [|done].
    exact (enqueueStep_inv _ (s :: rest) now _ _ Hd1 Hsteps He).
  - destruct (mj_attempt job <? jd_attempts (mj_def job)).
    + eapply (driver_inv_step k _ d _ []); [done|done|by rewrite app_nil_r|done|exact R3| |apply Hd|apply Hd|exact Hfl|apply Hd].
      constructor; simpl; [|exact Q2|lia|lia|done| |done].
      * intros x. specialize (P1 x). rewrite Q1 in P1. counting.
      * apply Forall_app. split; [done|]. constructor; [|done]. split; [done|]. exact (Forall_lookup_1 _ _ _ _ (di_flight d Hd) Hn).
    + eapply (driver_inv_step k _ d _ []); [done|done|by rewrite app_nil_r|done|exact R3| |apply Hd|apply Hd|exact Hfl|apply Hd].
      constructor; simpl; [|exact Q2|lia|lia|done|done|].
      * intros x. specialize (P1 x). rewrite Q1 in P1. counting.
      * apply Forall_app. split; [done|]. by constructor.
Qed.

(** Events whose steps are well formed. *)
Definition event_ok (ev : JobEvent) : Prop := match ev with EvEnqueue steps => Forall step_ok steps | _ => True end.

Lemma job_step_inv d ev now : driver_inv d -> event_ok ev -> driver_inv (job_step ev now d).
Proof.
  intros Hd He. destruct ev as [steps|def|k id|k id|k|k n|k|n res|]; simpl.
  - destruct (enqueueStep steps now d) as [[id d']|] eqn:E; [|done]. by eapply enqueueStep_inv.
  - destruct (process_job def d) as [d'|] eqn:E; [|done]. by eapply process_inv.
  - destruct (cancel_job k id now d) as [[b d']|] eqn:E; [|done]. by eapply cancel_inv.
  - by apply retry_inv.
  - destruct (get k (dr_queueMap d)) as [q|] eqn:Hq; [|done]. case_match; [|done]. apply drain_inv.
    eapply (driver_inv_quiet k); [done|done|done|done|done|done|]. eapply queue_inv_same; [..|by apply Hd]; done.
  - destruct (get k (dr_queueMap d)) as [q|] eqn:Hq; [|done]. destruct (mq_delayed q !! n) as [[[tid due] job]|] eqn:Hi; [|done].
    case_match; [|done]. by eapply timer_inv.
  - destruct (get k (dr_queueMap d)) as [q|] eqn:Hq; [|done]. destruct (mq_rateTimer q); [|done]. case_match; [|done].
    by apply rate_inv.
  - by apply settle_job_inv.
  - destruct Hd. by constructor.
Qed.

(** The driver once its queues are defined. *)
Definition started (qs : list (string * QueueSettings)) : Driver := foldl (fun d '(k, s) => defineQueue k s d) new_driver qs.

Lemma started_inv qs : driver_inv (started qs).
Proof.
  unfold started. assert (H : forall d, driver_inv d -> dr_notes d = [] -> dr_inFlight d = [] ->
    (forall k q, get k (dr_queueMap d) = Some q -> mq_active q = []) ->
    driver_inv (foldl (fun d '(k, s) => defineQueue k s d) d qs)).
  { induction qs as [|[k s] qs IH]; intros d Hd Hn Hf Hq; simpl; [done|]. apply IH.
    - unfold defineQueue. destruct (get k (dr_queueMap d)) as [q|] eqn:E.
      + eapply (driver_inv_quiet k); [done|done|done|done|done|done|]. destruct (di_queues d Hd k q E) as [P1 P2 P3 P4 P5 P6 P7].
        constructor; simpl; [done|done|done| |done|done|done]. rewrite (Hq k q E). simpl. lia.
      + eapply (driver_inv_quiet k); [done|done|done|done|done|done|]. rewrite Hn, Hf. constructor; simpl; [done|done|done|lia|done|done|done].
    - unfold defineQueue. by case_match.
    - unfold defineQueue. by case_match.
    - unfold defineQueue. intros k' q'. destruct (get k (dr_queueMap d)) as [q|] eqn:E; simpl; rewrite get_set; case_decide.
      + intros [= <-]. simpl. by apply (Hq k).
      + apply Hq.
      + by intros [= <-].
      + apply Hq. }
  apply H; [|done|done|done]. constructor; [done| | |done|done].
  - intros k id. unfold cnt. simpl. lia.
  - intros k id Hid. by apply not_elem_of_nil in Hid.
Qed.

Lemma reachable_inv qs evs : Forall (fun e => event_ok e.1) evs ->
  driver_inv (foldl (fun d '(ev, now) => job_step ev now d) (started qs) evs).
Proof.
  intros Hevs. pose proof (started_inv qs) as Hd. revert Hd. generalize (started qs).
  induction Hevs as [|[ev now] evs He _ IH]; intros d Hd; simpl; [done|]. by apply IH, job_step_inv.
Qed.
End queue.

(** * What clients can rely on *)


(** The concurrency of a queue bounds the handlers that run for it, at any
    time, whatever is enqueued, cancelled, retried or settles late. *)
Theorem concurrency_respected Names qs evs k q (Hevs : Forall (fun e => event_ok Names e.1) evs) :
  let d := foldl (fun d '(ev, now) => job_step ev now d) (started qs) evs in
  get k (dr_queueMap d) = Some q ->
  Z.of_nat (length (running k (dr_inFlight d))) <= Z.max 0 (qs_concurrency (mq_settings q)).
Proof.
  intros d Hq. pose proof (reachable_inv Names qs evs Hevs) as Hd. fold d in Hd.
  destruct (di_queues _ d Hd k q Hq) as [_ _ P3 P4 _ _ _]. rewrite P3. exact P4.
Qed.

(** * The rate limit *)

Definition start_times (k : string) (d : Driver) : list Z :=
  (fun e => e.2) <$> filter (fun e => e.1.1 = (nt_started, k)) (dr_notes d).

(** The rate limiter of a queue. *)
Definition limiter (d : Driver) (k : string) : option (option (Z * Z) * list Z) :=
  (fun q => (qs_rateLimit (mq_settings q), mq_rateWindow q)) <$> get k (dr_queueMap d).

(** Neither a limiter nor the starts changed. *)
Definition rate_quiet (d d' : Driver) : Prop := forall k, limiter d' k = limiter d k /\ start_times k d' = start_times k d.

Lemma rate_quiet_trans d1 d2 d3 : rate_quiet d1 d2 -> rate_quiet d2 d3 -> rate_quiet d1 d3.
Proof. intros H1 H2 k. destruct (H1 k) as [<- <-]. apply H2. Qed.

Lemma upd_rate_quiet k q q' d : get k (dr_queueMap d) = Some q ->
  mq_settings q' = mq_settings q -> mq_rateWindow q' = mq_rateWindow q -> rate_quiet d (upd_queue k q' d).
Proof.
  intros Hq Hs Hw k'. unfold limiter. simpl. rewrite get_set. split; [|done]. case_decide; [|done]. subst k'. rewrite Hq. simpl.
  by rewrite Hs, Hw.
Qed.

Lemma note_rate_quiet n k id now d : n <> nt_started -> rate_quiet d (note n k id now d).
Proof.
  intros Hn k'. split; [done|]. unfold start_times. simpl. rewrite filter_app, filter_cons, decide_False by (simpl; congruence).
  by rewrite filter_nil, app_nil_r.
Qed.

Lemma delay_rate_quiet k q job ms now d : get k (dr_queueMap d) = Some q -> rate_quiet d (delay k q job ms now d).
Proof. intros Hq. exact (upd_rate_quiet k q (put_jobs _ _ _ _ q) d Hq eq_refl eq_refl). Qed.

Lemma enqueue_rate_quiet def data opts rest now d id d' :
  enqueueInternal def data opts rest now d = Some (id, d') -> rate_quiet d d'.
Proof.
  intros He. unfold enqueueInternal in He. destruct (get (jd_queue def) (dr_queueMap d)) as [q|] eqn:Hq; [|done].
  cbn [mbind option_bind] in He. cbv zeta in He. destruct (truthy_str _); [by injection He as <- <-|].
  unfold issue_id in He. injection He as _ <-. match goal with |- rate_quiet _ (if _ then delay _ _ _ _ _ ?x else _) => set (d1 := x) end.
  assert (H1 : rate_quiet d d1).
  { unfold d1. eapply rate_quiet_trans; [|by apply note_rate_quiet]. done. }
  case_match; eapply rate_quiet_trans; [exact H1|by apply delay_rate_quiet|exact H1|by eapply upd_rate_quiet].
Qed.

Lemma pump_rate_quiet k d : rate_quiet d (pump_queue k d).
Proof. unfold pump_queue. destruct (get k (dr_queueMap d)) as [q|] eqn:Hq; [|done]. by eapply upd_rate_quiet. Qed.

Lemma settle_rate_quiet n res now d : rate_quiet d (settle n res now d).
Proof.
  unfold settle. destruct (dr_inFlight d !! n) as [job|]; [|done]. eapply rate_quiet_trans; [|apply pump_rate_quiet].
  unfold finish_run. simpl. destruct (get _ (dr_queueMap d)) as [q|] eqn:Hq; [|done]. case_match; [done|].
  set (q1 := put_jobs _ _ _ _ q). destruct res as [result|error].
  - match goal with |- rate_quiet _ match _ with [] => ?x | _ => _ end => assert (H1 : rate_quiet d x) end.
    { eapply rate_quiet_trans; [|by apply note_rate_quiet]. exact (upd_rate_quiet _ q q1 d Hq eq_refl eq_refl). }
    destruct (mj_onComplete job) as [|s rest]; [done|].
    match goal with |- rate_quiet _ match ?x with _ => _ end => destruct x as [[id' d']|] eqn:He end; [|done].
    eapply rate_quiet_trans; [exact H1|]. by eapply (enqueue_rate_quiet (cs_def s)).
  - case_match; exact (upd_rate_quiet _ q (put_jobs _ _ _ _ q1) d Hq eq_refl eq_refl).
Qed.

(** A drain aside, no event starts a job or touches a limiter. *)
Lemma step_rate_quiet ev now d : (forall k, ev <> EvDrain k) -> rate_quiet d (job_step ev now d).
Proof.
  intros Hev. destruct ev as [steps|def|k id|k id|k|k n|k|n res|]; simpl; [| | | |by destruct (Hev k)| | | |done].
  - destruct (enqueueStep steps now d) as [[id d']|] eqn:E; [|done]. destruct steps; [done|]. by eapply enqueue_rate_quiet.
  - unfold process_job. destruct (get _ _) as [q|] eqn:Hq; [|done]. simpl. by eapply upd_rate_quiet.
  - unfold cancel_job. destruct (get k _) as [q|] eqn:Hq; [|done]. simpl.
    destruct (list_find _ (mq_waiting q)) as [[i j]|]; [|destruct (list_find _ (mq_delayed q)) as [[i e]|]; [|done]];
      (eapply rate_quiet_trans; [|by apply note_rate_quiet]; by eapply upd_rate_quiet).
  - unfold retryDeadLetter. destruct (get k _) as [q|] eqn:Hq; [|done]. destruct (list_find _ _) as [[i e]|]; [|done].
    exact (upd_rate_quiet k q (pump (put_jobs _ _ _ _ q)) d Hq eq_refl eq_refl).
  - destruct (get k _) as [q|] eqn:Hq; [|done]. destruct (mq_delayed q !! n) as [[[tid due] job]|]; [|done].
    case_match; [|done]. by eapply upd_rate_quiet.
  - destruct (get k _) as [q|] eqn:Hq; [|done]. destruct (mq_rateTimer q); [|done]. case_match; [|done]. by eapply upd_rate_quiet.
  - apply settle_rate_quiet.
Qed.

(** The limiter remembers every start that can still count, no start is in the
    future, and no window was ever over the limit. *)
Record rate_ok (T : Z) (d : Driver) : Prop := {
  ro_window : forall k max dur w, limiter d k = Some (Some (max, dur), w) -> forall t, T <= t ->
    (within t dur (start_times k d) <= within t dur w)%nat;
  ro_past : forall k x, x ∈ start_times k d -> x <= T;
  ro_limit : forall k max dur w, limiter d k = Some (Some (max, dur), w) -> forall t, t ∈ start_times k d ->
    Z.of_nat (length (filter (fun x => t - x < dur /\ x <= t) (start_times k d))) <= max;
}.

Lemma rate_ok_quiet T T' d d' : T <= T' -> rate_quiet d d' -> rate_ok T d -> rate_ok T' d'.
Proof.
  intros HT Hq [H1 H2 H3]. constructor; intros k; destruct (Hq k) as [Hl Hs]; rewrite ?Hl, ?Hs.
  - intros max dur w Hw t Ht. apply (H1 k max dur w Hw). lia.
  - intros x Hx. specialize (H2 k x Hx). lia.
  - by apply H3.
Qed.

(** What [takeRateSlot] does to the limiter and, when it grants the slot, how
    full the window was. *)
Lemma rate_slot_spec now q max dur : qs_rateLimit (mq_settings q) = Some (max, dur) ->
  let win := filter (fun x => now - x < dur) (mq_rateWindow q) in
  let '(ok, q') := takeRateSlot now q in
  mq_settings q' = mq_settings q /\ mq_rateWindow q' = (if ok then win ++ [now] else win) /\
  (ok = true -> Z.of_nat (length win) < max).
Proof.
  intros Hl win. unfold takeRateSlot. rewrite Hl. cbv zeta. fold win.
  destruct (Z.ltb_spec (Z.of_nat (length win)) max); simpl; by split_and!.
Qed.

(** Replacing the limiter's window by one that counts the same from [now] on. *)
Lemma rate_ok_prune now d k q q' : rate_ok now d -> get k (dr_queueMap d) = Some q -> mq_settings q' = mq_settings q ->
  (forall max dur, qs_rateLimit (mq_settings q) = Some (max, dur) -> forall t, now <= t -> within t dur (mq_rateWindow q') = within t dur (mq_rateWindow q)) ->
  rate_ok now (upd_queue k q' d).
Proof.
  intros [H1 H2 H3] Hq Hs Hw.
  assert (Hlim : forall k' max dur w, limiter (upd_queue k q' d) k' = Some (Some (max, dur), w) ->
    exists w', limiter d k' = Some (Some (max, dur), w') /\ forall t, now <= t -> within t dur w = within t dur w').
  { intros k' max dur w. unfold limiter. simpl. rewrite get_set. case_decide as Hd; [|by eauto]. subst k'. rewrite Hq. simpl.
    rewrite Hs. intros [= Hr <-]. rewrite Hr. eexists. split; [done|]. intros t Ht. by apply (Hw max). }
  constructor; unfold start_times in *; simpl.
  - intros k' max dur w Hl t Ht. destruct (Hlim k' max dur w Hl) as (w' & Hl' & Hww). rewrite Hww by done. by eapply H1.
  - exact H2.
  - intros k' max dur w Hl t Ht. destruct (Hlim k' max dur w Hl) as (w' & Hl' & _). by eapply H3.
Qed.

(** A start that found a slot. *)
Lemma rate_ok_start now d d' k q q' : rate_ok now d -> get k (dr_queueMap d) = Some q -> mq_settings q' = mq_settings q ->
  (forall k', limiter d' k' = if decide (k = k') then Some (qs_rateLimit (mq_settings q'), mq_rateWindow q') else limiter d k') ->
  (forall k', start_times k' d' = start_times k' d ++ if decide (k = k') then [now] else []) ->
  (forall max dur, qs_rateLimit (mq_settings q) = Some (max, dur) ->
     mq_rateWindow q' = filter (fun x => now - x < dur) (mq_rateWindow q) ++ [now] /\
     Z.of_nat (within now dur (mq_rateWindow q)) < max) ->
  rate_ok now d'.
Proof.
  intros [H1 H2 H3] Hq Hs Hl Hst Hw.
  assert (Hlq : limiter d k = Some (qs_rateLimit (mq_settings q), mq_rateWindow q)) by (unfold limiter; by rewrite Hq).
  constructor; intros k'; specialize (Hl k'); specialize (Hst k'); destruct (decide (k = k')) as [<-|Hne]; rewrite ?app_nil_r in Hst; rewrite Hst, ?Hl.
  - intros max dur w [= Hr <-] t Ht. rewrite Hs in Hr. destruct (Hw max dur Hr) as [-> _]. rewrite !within_snoc, within_pruned by done.
    rewrite Hr in Hlq. specialize (H1 k max dur _ Hlq t Ht). lia.
  - intros max dur w Hk t Ht. by eapply H1.
  - intros x [Hx|Hx]%elem_of_app; [by apply (H2 k)|]. apply list_elem_of_singleton in Hx. lia.
  - apply H2.
  - intros max dur w [= Hr <-] t Ht. rewrite Hs in Hr. destruct (Hw max dur Hr) as [_ Hroom]. rewrite Hr in Hlq.
    specialize (H1 k max dur _ Hlq now ltac:(lia)). rewrite filter_app, length_app, filter_cons, filter_nil.
    destruct (decide (t = now)) as [->|Hne].
    + pose proof (filter_weaken now dur (start_times k d)). case_decide; simpl; lia.
    + apply elem_of_app in Ht as [Ht|Ht%list_elem_of_singleton]; [|done]. pose proof (H2 k t Ht).
      rewrite decide_False by lia. simpl. rewrite Nat.add_0_r. by eapply H3.
  - intros max dur w Hk. by eapply H3.
Qed.

Lemma round_rate d k now : rate_ok now d -> match drain_round k now d with inl d' | inr d' => rate_ok now d' end.
Proof.
  intros Hd. unfold drain_round. destruct (get k (dr_queueMap d)) as [q|] eqn:Hq; [|done].
  destruct (dr_closing d || _); [done|]. destruct (nextIndex q) as [i|]; [|done]. destruct (mq_waiting q !! i) as [job|]; [|done].
  destruct (takeRateSlot now q) as [ok q'] eqn:Hslot.
  assert (Hs : mq_settings q' = mq_settings q).
  { unfold takeRateSlot in Hslot. destruct (qs_rateLimit (mq_settings q)) as [[max dur]|]; [case_match|]; by injection Hslot as <- <-. }
  assert (Hspec : forall max dur, qs_rateLimit (mq_settings q) = Some (max, dur) ->
    let win := filter (fun x => now - x < dur) (mq_rateWindow q) in
    mq_rateWindow q' = (if ok then win ++ [now] else win) /\ (ok = true -> Z.of_nat (length win) < max)).
  { intros max dur Hl. pose proof (rate_slot_spec now q max dur Hl) as H. rewrite Hslot in H. apply H. }
  destruct ok.
  - eapply (rate_ok_start now d _ k q (put_jobs (delete i (mq_waiting q')) (mq_delayed q') (set (mj_id job) job (mq_active q')) (mq_dlq q') q'));
      [done|done|exact Hs| | |].
    + intros k'. unfold limiter. simpl. rewrite get_set. by case_decide.
    + intros k'. unfold start_times. simpl. rewrite filter_app, fmap_app, filter_cons, filter_nil. f_equal. simpl.
      destruct (decide (k = k')) as [->|]; [by rewrite decide_True|]. rewrite decide_False; [done|congruence].
    + intros max dur Hl. destruct (Hspec max dur Hl) as [H1 H2]. split; [exact H1|by apply H2].
  - apply (rate_ok_prune now d k q q'); [done|done|done|]. intros max dur Hl t Ht. destruct (Hspec max dur Hl) as [-> _].
    by apply within_pruned.
Qed.

Lemma drain_rate d k now : rate_ok now d -> rate_ok now (drain k now d).
Proof.
  intros Hd. unfold drain. destruct (get k (dr_queueMap d)) as [q|]; [|done]. generalize (S (length (mq_waiting q))) as fuel.
  intros fuel. revert d Hd. induction fuel as [|fuel IH]; intros d Hd; [done|]. simpl.
  pose proof (round_rate d k now Hd) as H. destruct (drain_round k now d); [by apply IH|done].
Qed.

Lemma step_rate T ev now d : T <= now -> rate_ok T d -> rate_ok now (job_step ev now d).
Proof.
  intros HT Hd. destruct ev as [steps|def|k id|k id|k|k n|k|n res|]; try (eapply rate_ok_quiet; [exact HT| |exact Hd]; by apply step_rate_quiet).
  assert (H : rate_ok now d) by (by eapply rate_ok_quiet). simpl. destruct (get k (dr_queueMap d)) as [q|] eqn:Hq; [|done].
  case_match; [|done]. apply drain_rate. eapply rate_ok_quiet; [reflexivity| |exact H]. by eapply upd_rate_quiet.
Qed.

Lemma started_rate qs T : rate_ok T (started qs).
Proof.
  assert (H : dr_notes (started qs) = []).
  { unfold started. assert (H0 : dr_notes new_driver = []) by done. revert H0. generalize new_driver.
    induction qs as [|[k s] qs IH]; intros d Hd; simpl; [done|]. apply IH. unfold defineQueue. by case_match. }
  constructor; intros k; unfold start_times; rewrite H; simpl.
  - intros. unfold within. simpl. lia.
  - intros x Hx. by apply not_elem_of_nil in Hx.
  - intros max dur w _ t Ht. by apply not_elem_of_nil in Ht.
Qed.

(** Events happen one after another: their times never go back. *)
Fixpoint in_order (T : Z) (evs : list (JobEvent * Z)) : Prop :=
  match evs with [] => True | e :: evs => T <= e.2 /\ in_order e.2 evs end.

Lemma reachable_rate qs T evs : in_order T evs ->
  exists T', rate_ok T' (foldl (fun d '(ev, now) => job_step ev now d) (started qs) evs).
Proof.
  pose proof (started_rate qs T) as Hd. revert T Hd. generalize (started qs).
  induction evs as [|[ev now] evs IH]; intros d T Hd Ho; simpl; [by exists T|]. destruct Ho as [HT Ho].
  apply (IH _ now); [by eapply step_rate|done].
Qed.

(** The rate limit of a queue holds over every window, not only the ones the
    limiter looked at: among the jobs a queue started, at most [max] started in
    the [durationMs] that end with any one start - across retries, chains,
    cancellations, and however late the drains run. *)
Theorem rate_limit_respected qs evs T k q max durationMs t (Ho : in_order T evs) :
  let d := foldl (fun d '(ev, now) => job_step ev now d) (started qs) evs in
  get k (dr_queueMap d) = Some q -> qs_rateLimit (mq_settings q) = Some (max, durationMs) -> t ∈ start_times k d ->
  Z.of_nat (length (filter (fun x => t - x < durationMs /\ x <= t) (start_times k d))) <= max.
Proof.
  intros d Hq Hl Ht. destruct (reachable_rate qs T evs Ho) as [T' Hok]. fold d in Hok.
  apply (ro_limit T' d Hok k max durationMs (mq_rateWindow q)); [|done]. unfold limiter. rewrite Hq. simpl. by rewrite Hl.
Qed.

(** * Which job is next *)

Definition runnable (hs : list string) (j : MemJob) : Prop := jd_name (mj_def j) ∈ hs.

(** Position [i] holds a job with a handler, before every job with a handler
    that has the same priority and ahead of none that has a better one. *)
Definition first_best (hs : list string) (l : list MemJob) (i : nat) : Prop :=
  exists job, l !! i = Some job /\ runnable hs job /\
    forall i' j, l !! i' = Some j -> runnable hs j ->
      if decide (i' < i)%nat then prio_lt (mj_priority job) (mj_priority j) = true
      else prio_lt (mj_priority j) (mj_priority job) = false.

Lemma prio_lt_irrefl p : prio_lt p p = false.
Proof. destruct p; simpl; [apply Z.ltb_irrefl|done]. Qed.

Lemma prio_lt_le_trans a b c : prio_lt a b = true -> prio_lt c b = false -> prio_lt a c = true.
Proof. destruct a, b, c; simpl; try done; rewrite ?Z.ltb_lt, ?Z.ltb_ge; lia. Qed.

Lemma prio_lt_trans a b c : prio_lt a b = true -> prio_lt b c = true -> prio_lt a c = true.
Proof. destruct a, b, c; simpl; try done; rewrite ?Z.ltb_lt; lia. Qed.

(** What the scan knows after a prefix. *)
Definition scanned (hs : list string) (pre : list MemJob) (best : option (nat * option Z)) : Prop :=
  match best with
  | None => Forall (fun j => ~ runnable hs j) pre
  | Some (i, p) => first_best hs pre i /\ mj_priority <$> pre !! i = Some p
  end.

Lemma first_best_keep hs pre i j job : first_best hs pre i -> pre !! i = Some job ->
  (runnable hs j -> prio_lt (mj_priority j) (mj_priority job) = false) -> first_best hs (pre ++ [j]) i.
Proof.
  intros (job' & Hi & Hr & Hb) Hjob Hj. rewrite Hjob in Hi. injection Hi as <-. exists job.
  split; [by apply lookup_app_l_Some|]. split; [done|]. intros i' j' Hi' Hr'.
  apply lookup_app_Some in Hi' as [Hi'|[Hge Hi']]; [by apply (Hb i')|]. apply list_lookup_singleton_Some in Hi' as [_ ->].
  apply lookup_lt_Some in Hjob. rewrite decide_False by lia. by apply Hj.
Qed.

Lemma first_best_new hs pre best j : scanned hs pre best -> runnable hs j ->
  match best with None => True | Some (_, p) => prio_lt (mj_priority j) p = true end -> first_best hs (pre ++ [j]) (length pre).
Proof.
  intros Hs Hr Hp. exists j. rewrite lookup_app_r, Nat.sub_diag by done. split; [done|]. split; [done|]. intros i' j' Hi' Hr'.
  apply lookup_app_Some in Hi' as [Hi'|[Hge Hi']].
  - pose proof (lookup_lt_Some _ _ _ Hi') as Hlt. rewrite decide_True by done. destruct best as [[i p]|].
    + destruct Hs as [(job & Hi & Hrj & Hb) Hpi]. rewrite Hi in Hpi. injection Hpi as <-. specialize (Hb i' j' Hi' Hr').
      case_decide; [by eapply prio_lt_trans|by eapply prio_lt_le_trans].
    + by destruct (Forall_lookup_1 _ _ _ _ Hs Hi').
  - apply list_lookup_singleton_Some in Hi' as [Hz ->]. rewrite decide_False by lia. apply prio_lt_irrefl.
Qed.

Lemma next_scan_spec hs l : forall pre best, scanned hs pre best ->
  match next_scan hs l (length pre) best with
  | Some i => first_best hs (pre ++ l) i
  | None => Forall (fun j => ~ runnable hs j) (pre ++ l)
  end.
Proof.
  induction l as [|j l IH]; intros pre best Hs; cbn [next_scan].
  - rewrite app_nil_r. destruct best as [[i p]|]; simpl; [apply Hs|done].
  - cbv zeta. replace (S (length pre)) with (length (pre ++ [j])) by (rewrite length_app; simpl; lia).
    rewrite (cons_middle j pre l), app_assoc. apply IH.
    destruct (bool_decide_reflect (jd_name (mj_def j) ∈ hs)) as [Hr|Hr]; simpl.
    + assert (Hp : mj_priority <$> (pre ++ [j]) !! length pre = Some (mj_priority j)) by (rewrite lookup_app_r, Nat.sub_diag by done; done).
      destruct best as [[i p]|]; [destruct (prio_lt (mj_priority j) p) eqn:Hlt|]; cbn [scanned].
      * split; [by eapply (first_best_new hs pre (Some (i, p)))|exact Hp].
      * destruct Hs as [Hf Hpi]. destruct (pre !! i) as [job|] eqn:Hi; [|done]. injection Hpi as <-.
        split; [by eapply first_best_keep|]. by rewrite (lookup_app_l_Some _ _ _ _ Hi).
      * split; [by apply (first_best_new hs pre None)|exact Hp].
    + destruct best as [[i p]|]; cbn [scanned] in *.
      * destruct Hs as [Hf Hpi]. destruct (pre !! i) as [job|] eqn:Hi; [|done]. injection Hpi as <-.
        split; [by eapply first_best_keep|]. by rewrite (lookup_app_l_Some _ _ _ _ Hi).
      * apply Forall_app_2; [done|by constructor].
Qed.

Lemma first_best_unique hs l i i' : first_best hs l i -> first_best hs l i' -> i = i'.
Proof.
  intros (j & Hi & Hr & Hb) (j' & Hi' & Hr' & Hb'). destruct (decide (i = i')) as [|Hne]; [done|].
  pose proof (Hb i' j' Hi' Hr') as H1. pose proof (Hb' i j Hi Hr) as H2. repeat case_decide; try lia; congruence.
Qed.

(** The queue picks the waiting job of best priority among those with a
    handler, the oldest of them, and nothing exactly when no waiting job has a
    handler. *)
Theorem nextIndex_exact q :
  (forall i, nextIndex q = Some i <-> first_best (mq_handlers q) (mq_waiting q) i) /\
  (nextIndex q = None <-> Forall (fun j => ~ runnable (mq_handlers q) j) (mq_waiting q)).
Proof.
  pose proof (next_scan_spec (mq_handlers q) (mq_waiting q) [] None ltac:(constructor)) as H. simpl in H. unfold nextIndex.
  assert (Hno : forall i, first_best (mq_handlers q) (mq_waiting q) i -> ~ Forall (fun j => ~ runnable (mq_handlers q) j) (mq_waiting q)).
  { intros i (j & Hi & Hr & _) Hall. by destruct (Forall_lookup_1 _ _ _ _ Hall Hi). }
  destruct (next_scan _ _ 0 None) as [i|].
  - split; [|split; [done|by intros ?%(Hno i)]]. intros i'. split; [by intros [= <-]|]. intros Hi'. f_equal. by eapply first_best_unique.
  - split; [|done]. intros i. split; [done|]. by intros ?%Hno.
Qed.

(** * A drain starts everything it may *)

Definition waiting_len (k : string) (d : Driver) : nat :=
  match get k (dr_queueMap d) with Some q => length (mq_waiting q) | None => 0 end.

Lemma round_shrinks k now d d' : drain_round k now d = inl d' -> (waiting_len k d' < waiting_len k d)%nat.
Proof.
  unfold drain_round, waiting_len. destruct (get k (dr_queueMap d)) as [q|]; [|done].
  destruct (dr_closing d || _); [done|]. destruct (nextIndex q) as [i|]; [|done].
  destruct (mq_waiting q !! i) as [job|] eqn:Hi; [|done]. pose proof (rate_slot_same now q) as (Hw & _).
  destruct (takeRateSlot now q) as [[] q']; [|done]. intros [= <-]. simpl. rewrite get_set, decide_True by done. simpl in *.
  rewrite Hw. rewrite length_delete by by eexists. apply lookup_lt_Some in Hi. lia.
Qed.

Lemma drain_loop_stops k now fuel : forall d, (waiting_len k d < fuel)%nat ->
  exists d1, drain_round k now d1 = inr (drain_loop fuel k now d).
Proof.
  induction fuel as [|fuel IH]; intros d Hlt; [lia|]. cbn [drain_loop].
  destruct (drain_round k now d) as [d'|d'] eqn:Hr; [|by exists d]. apply IH. apply round_shrinks in Hr. lia.
Qed.

(** Why a queue starts no further job at [now]. *)
Definition at_rest (now : Z) (closing : bool) (q : MemQueue) : Prop :=
  closing = true \/ qs_concurrency (mq_settings q) <= Z.of_nat (length (mq_active q)) \/
  Forall (fun j => ~ runnable (mq_handlers q) j) (mq_waiting q) \/
  exists max dur, qs_rateLimit (mq_settings q) = Some (max, dur) /\
    max <= Z.of_nat (within now dur (mq_rateWindow q)) /\ is_Some (mq_rateTimer q).

Lemma round_rest k now d d' q : drain_round k now d = inr d' -> get k (dr_queueMap d') = Some q -> at_rest now (dr_closing d') q.
Proof.
  unfold drain_round. destruct (get k (dr_queueMap d)) as [q0|] eqn:Hq; [|intros [= <-]; congruence].
  destruct (dr_closing d || _) eqn:Hfull.
  { intros [= <-] Hq'. rewrite Hq in Hq'. injection Hq' as <-. apply orb_prop in Hfull as [Hc|Hc%Z.leb_le]; [by left|by right; left]. }
  destruct (nextIndex q0) as [i|] eqn:Hi; pose proof (next_scan_spec (mq_handlers q0) (mq_waiting q0) [] None ltac:(constructor)) as H;
    unfold nextIndex in Hi; simpl in H; rewrite Hi in H.
  2: { intros [= <-] Hq'. rewrite Hq in Hq'. injection Hq' as <-. by right; right; left. }
  destruct H as (job & Hjob & _). rewrite Hjob. unfold takeRateSlot.
  destruct (qs_rateLimit (mq_settings q0)) as [[max dur]|] eqn:Hl; [|done]. cbv zeta.
  destruct (Z.ltb_spec (Z.of_nat (length (filter (fun t => now - t < dur) (mq_rateWindow q0)))) max) as [|Hge]; [done|].
  intros [= <-]. simpl. rewrite get_set, decide_True by done. intros [= <-]. right; right; right. exists max, dur. simpl.
  split; [done|]. rewrite within_pruned by done. split; [exact Hge|]. by case_match.
Qed.

(** Jobs do not wait needlessly: when a drain returns, the queue is shutting
    down, or runs as many handlers as its concurrency allows, or has no waiting
    job with a handler, or its rate limit is used up and a timer is set that
    will drain it again. *)
Theorem drain_leaves_none_startable k now d q : get k (dr_queueMap (drain k now d)) = Some q ->
  at_rest now (dr_closing (drain k now d)) q.
Proof.
  unfold drain. destruct (get k (dr_queueMap d)) as [q0|] eqn:Hq0; [|congruence].
  destruct (drain_loop_stops k now (S (length (mq_waiting q0))) d) as [d1 Hd1]; [unfold waiting_len; rewrite Hq0; lia|].
  by apply (round_rest k now d1).
Qed.

(** * Concrete runs *)

Definition sample_def : JobDefinition := {| jd_name := "job"; jd_queue := "q"; jd_attempts := 1; jd_backoffMs := 1000 |}.
Definition sample_step (priority : option Z) : ChainStep :=
  {| cs_def := sample_def; cs_data := "data"; cs_opts := {| eo_idempotencyKey := None; eo_delayMs := None; eo_priority := priority |} |}.
Definition sample_settings : QueueSettings := {| qs_concurrency := 2; qs_rateLimit := Some (2, 1000) |}.

(** Four jobs, one of which fails and is retried, under a limit of two a second. *)
Definition sample_events : list (JobEvent * Z) :=
  [(EvProcess sample_def, 0); (EvEnqueue [sample_step None], 0); (EvEnqueue [sample_step (Some 1)], 0); (EvEnqueue [sample_step None], 1);
   (EvDrain "q", 2); (EvSettle 0 (Err "boom"%string), 5); (EvSettle 0 (Ok "done"%string), 6); (EvDrain "q", 6);
   (EvRetry "q" "job:2", 7); (EvRateTimer "q", 1002); (EvDrain "q", 1003)].
Local Notation sample_run := (foldl (fun d '(ev, now) => job_step ev now d) (started [("q"%string, sample_settings)]) sample_events).

Lemma sample_events_ok : Forall (fun e => event_ok (fun n => n = "job"%string) e.1) sample_events.
Proof. repeat constructor. Qed.

Definition sample_queue : MemQueue := default {| mq_settings := sample_settings; mq_waiting := []; mq_delayed := []; mq_active := [];
  mq_handlers := []; mq_dlq := []; mq_rateWindow := []; mq_rateTimer := None; mq_pumpScheduled := false |} (get "q" (dr_queueMap sample_run)).

Lemma sample_queue_get : get "q" (dr_queueMap sample_run) = Some sample_queue.
Proof. vm_compute. reflexivity. Qed.


Lemma concurrency_respected_witness : length (running "q" (dr_inFlight sample_run)) = 2%nat /\
  Z.of_nat (length (running "q" (dr_inFlight sample_run))) <= Z.max 0 (qs_concurrency (mq_settings sample_queue)).
Proof.
  split; [vm_compute; reflexivity|].
  exact (concurrency_respected (fun n => n = "job"%string) [("q"%string, sample_settings)] sample_events "q" sample_queue
    sample_events_ok sample_queue_get).
Defined.

Lemma rate_limit_respected_witness : start_times "q" sample_run = [2; 2; 1003; 1003] /\
  Z.of_nat (length (filter (fun x => 1003 - x < 1000 /\ x <= 1003) (start_times "q" sample_run))) <= 2.
Proof.
  split; [vm_compute; reflexivity|].
  apply (rate_limit_respected [("q"%string, sample_settings)] sample_events 0 "q" sample_queue 2 1000 1003).
  - repeat split; vm_compute; discriminate.
  - exact sample_queue_get.
  - vm_compute; reflexivity.
  - change (1003 ∈ start_times "q" sample_run). replace (start_times "q" sample_run) with [2; 2; 1003; 1003]%Z by (vm_compute; reflexivity).
    repeat constructor.
Defined.

Lemma drain_leaves_none_startable_witness : at_rest 1003 (dr_closing (drain "q" 1003 sample_run)) sample_queue.
Proof. apply (drain_leaves_none_startable "q" 1003 sample_run sample_queue). vm_compute. reflexivity. Defined.

(** * Behaviours worth knowing *)

(** A job retried from the dead-letter list loses the rest of its chain and its
    priority: the second step is enqueued when the first succeeds at once, and
    never when it needed the retry. *)
Theorem retry_drops_chain :
  let run evs := foldl (fun d '(ev, now) => job_step ev now d) (started [("q"%string, {| qs_concurrency := 1; qs_rateLimit := None |})])
    ([(EvProcess sample_def, 0); (EvEnqueue [sample_step (Some 1); sample_step None], 0); (EvDrain "q"%string, 0)] ++ evs) in
  ids nt_accepted "q" (dr_notes (run [(EvSettle 0 (Ok "r"%string), 1)])) = ["job:1"; "job:2"]%string /\
  ids nt_accepted "q" (dr_notes (run [(EvSettle 0 (Err "e"%string), 1); (EvRetry "q"%string "job:1"%string, 2);
    (EvDrain "q"%string, 2); (EvSettle 0 (Ok "r"%string), 3)])) = ["job:1"]%string.
Proof. vm_compute. by split. Qed.

(** An idempotency key outlives its job: after the job is cancelled, or died, a
    second enqueue under the key is still answered with the dead id and
    enqueues nothing. *)
Theorem cancelled_key_blocks_enqueue :
  let step := {| cs_def := sample_def; cs_data := "data"; cs_opts := {| eo_idempotencyKey := Some "k"%string; eo_delayMs := None; eo_priority := None |} |} in
  let d := foldl (fun d '(ev, now) => job_step ev now d) (started [("q"%string, sample_settings)])
    [(EvEnqueue [step], 0); (EvCancel "q" "k", 1)] in
  fst <$> enqueueStep [step] 2 d = Some "k"%string /\ stats "q" (default d (snd <$> enqueueStep [step] 2 d)) = Some (0, 0, 0, 0)%nat.
Proof. vm_compute. by split. Qed.

(** Low-priority jobs starve: as long as jobs with a priority wait, a job
    without one is not picked, however old it is. *)
Theorem normal_jobs_starve q i job : nextIndex q = Some i -> mq_waiting q !! i = Some job -> mj_priority job = None ->
  Forall (fun j => runnable (mq_handlers q) j -> mj_priority j = None) (mq_waiting q).
Proof.
  intros Hi Hjob Hp. pose proof (next_scan_spec (mq_handlers q) (mq_waiting q) [] None ltac:(constructor)) as H. unfold nextIndex in Hi.
  simpl in H. rewrite Hi in H. destruct H as (j & Hj & _ & Hb). rewrite Hjob in Hj. injection Hj as <-.
  apply Forall_lookup_2. intros i' j' Hi' Hr. specialize (Hb i' j' Hi' Hr). rewrite Hp in Hb.
  case_decide; [done|]. by destruct (mj_priority j').
Qed.
