(* ===== verification/Auth.v ===== *)
(** Replay protection and sessions: the signature-nonce store and the service
    that selects it ([src/common/signature-nonce.service.ts]), the signed
    self-service requests that consume its nonces ([src/abuse/abuse.controller.ts]),
    the SEP-10 nonce store and session denylist ([src/auth/sep10/nonce.store.ts]),
    the challenge exchange ([src/auth/sep10/sep10.service.ts]) and the guard
    that admits session tokens ([src/auth/solver-credentials/solver-jwt.guard.ts]).

    Signatures and the Stellar SDK are parameters.  Store calls are atomic: the
    in-memory stores do not await between their reads and writes. *)
From stdpp Require Import sorting.
From S2P Require Import Prelude JsMap BigInt.
Local Open Scope Z_scope.

(** Drop the entries that expired at [now]. *)
Definition prune (now : Z) (m : jsmap Z) : jsmap Z := filter (fun kv => ~ kv.2 <= now) m.

Lemma prune_wf now m : wf m -> wf (prune now m).
Proof. apply filter_wf. Qed.

Lemma get_prune now k m e : wf m -> get k (prune now m) = Some e <-> get k m = Some e /\ now < e.
Proof.
  intros Hwf. pose proof (get_filter (fun e => ~ e <= now) k m Hwf) as H. change (filter _ m) with (prune now m) in H. rewrite H. destruct (get k m) as [e'|]; simpl; [|naive_solver].
  case_decide; naive_solver lia.
Qed.

(** * Signature nonces *)

(** What the callers of a nonce store rely on.  A nonce accepted with expiry
    [e] is live until [e]; while it is live, no second use is accepted. *)
Class NonceStore (S : Type) := {
  ns_consume : string -> string -> Z -> Z -> S -> option (bool * S);   (* signer, nonce, expiry, now; [None] throws *)
  ns_valid : S -> Prop;
  ns_live : S -> string -> string -> Z -> Prop;                         (* lowercased signer *)
}.

Class NonceStoreLaws (S : Type) `{NonceStore S} := {
  ns_valid_keep s n e now st b st' : ns_valid st -> ns_consume s n e now st = Some (b, st') -> ns_valid st';
  ns_accept s n e now st st' : ns_valid st -> ns_consume s n e now st = Some (true, st') -> ns_live st' (toLowerCase s) n e;
  ns_keep s n e s' n' e' now st b st' : ns_valid st -> ns_live st s n e -> now < e ->
    ns_consume s' n' e' now st = Some (b, st') -> ns_live st' s n e;
  ns_reject s n e s' e' now st st' : ns_valid st -> ns_live st s n e -> now < e -> toLowerCase s' = s ->
    ns_consume s' n e' now st <> Some (true, st');
}.

(** ** [MemorySignatureNonceStore] *)

Definition nonce_key (signer nonce : string) : string := (toLowerCase signer +:+ ":" +:+ nonce)%string.

Definition consume_nonce (signer nonce : string) (expiresAt now : Z) (st : jsmap Z) : bool * jsmap Z :=
  let st := prune now st in
  let key := nonce_key signer nonce in
  if has key st then (false, st) else (true, set key expiresAt st).

#[export] Instance memory_nonces : NonceStore (jsmap Z) := {
  ns_consume s n e now st := Some (consume_nonce s n e now st);
  ns_valid := wf;
  ns_live st s n e := get (s +:+ ":" +:+ n)%string st = Some e;
}.

Lemma consume_nonce_cases s n e now st : wf st ->
  let '(b, st') := consume_nonce s n e now st in
  wf st' /\
  (b = true <-> forall e0, get (nonce_key s n) st = Some e0 -> e0 <= now) /\
  (forall k, k <> nonce_key s n -> get k st' = get k (prune now st)) /\
  get (nonce_key s n) st' = if b then Some e else get (nonce_key s n) (prune now st).
Proof.
  intros Hwf. unfold consume_nonce. cbv zeta. unfold has. pose proof (prune_wf now st Hwf) as Hwf'.
  destruct (get (nonce_key s n) (prune now st)) as [e0|] eqn:E.
  - split; [done|]. split; [|done]. apply get_prune in E as [E Hlt]; [|done]. split; [done|]. intros H. specialize (H e0 E). lia.
  - split; [by apply set_wf|]. split; [|split; [|by apply get_set_eq]].
    + split; [|done]. intros _ e0 E0. destruct (decide (e0 <= now)) as [|Hlt]; [done|].
      assert (get (nonce_key s n) (prune now st) = Some e0) by (apply get_prune; [done|split; [done|lia]]). congruence.
    + intros k Hk. by apply get_set_ne.
Qed.

#[export] Instance memory_nonces_laws : NonceStoreLaws (jsmap Z).
Proof.
  split; cbn [ns_consume ns_valid ns_live memory_nonces].
  - intros s n e now st b st' Hwf [= H]. pose proof (consume_nonce_cases s n e now st Hwf) as Hc. rewrite H in Hc. apply Hc.
  - intros s n e now st st' Hwf [= H]. pose proof (consume_nonce_cases s n e now st Hwf) as Hc. rewrite H in Hc. apply Hc.
  - intros s n e s' n' e' now st b st' Hwf Hl Hlt [= H]. pose proof (consume_nonce_cases s' n' e' now st Hwf) as Hc. rewrite H in Hc.
    destruct Hc as (_ & Hb & Hne & Heq). assert (Hp : get (s +:+ ":" +:+ n)%string (prune now st) = Some e) by (by apply get_prune).
    destruct (decide ((s +:+ ":" +:+ n)%string = nonce_key s' n')) as [Hk|Hk]; [|by rewrite Hne].
    rewrite Hk in *. rewrite Heq. destruct b; [|done]. destruct Hb as [Hb _]. specialize (Hb eq_refl e Hl). lia.
  - intros s n e s' e' now st st' Hwf Hl Hlt <- [= H]. pose proof (consume_nonce_cases s' n e' now st Hwf) as Hc. rewrite H in Hc.
    destruct Hc as (_ & [Hb _] & _). specialize (Hb eq_refl e Hl). lia.
Qed.

(** Requests for a nonce: signer, nonce, expiry and when. *)
Definition NonceRequest : Type := string * string * Z * Z.

Fixpoint consume_all (reqs : list NonceRequest) (st : jsmap Z) : list bool :=
  match reqs with
  | [] => []
  | (s, n, e, now) :: reqs => let '(b, st') := consume_nonce s n e now st in b :: consume_all reqs st'
  end.

(** An earlier accepted request under the same key that has not expired at [now]. *)
Definition blocks (key : string) (now : Z) (r : NonceRequest * bool) : Prop :=
  let '(s, n, e, _, b) := r in nonce_key s n = key /\ now < e /\ b = true.

Definition nonce_inv (T : Z) (hist : list (NonceRequest * bool)) (st : jsmap Z) : Prop :=
  wf st /\ forall key now, T <= now -> (exists e, get key st = Some e /\ now < e) <-> Exists (blocks key now) hist.

Lemma consume_nonce_inv T hist st s n e now : T <= now -> nonce_inv T hist st ->
  let '(b, st') := consume_nonce s n e now st in
  (b = true <-> ~ Exists (blocks (nonce_key s n) now) hist) /\ nonce_inv now (hist ++ [(s, n, e, now, b)]) st'.
Proof.
  intros HT [Hwf Hinv]. pose proof (consume_nonce_cases s n e now st Hwf) as Hc. destruct (consume_nonce s n e now st) as [b st'].
  destruct Hc as (Hwf' & Hb & Hne & Heq).
  assert (Hb' : b = true <-> ~ Exists (blocks (nonce_key s n) now) hist).
  { rewrite Hb, <- (Hinv _ now HT). split.
    - intros H (e0 & He0 & Hlt). specialize (H e0 He0). lia.
    - intros H e0 He0. destruct (decide (e0 <= now)); [done|]. destruct H. exists e0. split; [done|lia]. }
  split; [done|]. split; [done|]. intros key t Ht. rewrite Exists_app, Exists_cons, Exists_nil, <- (Hinv key t) by lia.
  destruct (decide (key = nonce_key s n)) as [->|Hk].
  - rewrite Heq. destruct b; simpl.
    + split; [intros (e0 & [= <-] & Hlt); by right; left|]. intros [(e0 & He0 & Hlt)|[(_ & Hlt & _)|[]]]; [|by exists e].
      destruct Hb as [Hb _]. specialize (Hb eq_refl e0 He0). lia.
    + setoid_rewrite get_prune; [|done]. split; [intros (e0 & [He0 _] & Hlt); left; by exists e0|].
      intros [(e0 & He0 & Hlt)|[(_ & _ & [=])|[]]]. exists e0. split; [split; [done|lia]|done].
  - rewrite Hne by done. setoid_rewrite get_prune; [|done]. simpl. split; [intros (e0 & [He0 _] & Hlt); left; by exists e0|].
    intros [(e0 & He0 & Hlt)|[(Hk' & _)|[]]]; [|congruence]. exists e0. split; [split; [done|lia]|done].
Qed.

Lemma consume_all_exact reqs : forall T hist st pre s n e now b post, nonce_inv T hist st -> Sorted Z.le (T :: reqs.*2) ->
  zip reqs (consume_all reqs st) = pre ++ (s, n, e, now, b) :: post ->
  b = true <-> ~ Exists (blocks (nonce_key s n) now) (hist ++ pre).
Proof.
  induction reqs as [|[[[s1 n1] e1] t1] reqs IH]; intros T hist st pre s n e now b post Hinv Hs Heq; [by destruct pre|].
  cbn [consume_all] in Heq. rewrite fmap_cons in Hs. apply Sorted_inv in Hs as [Hs Hhd]. apply HdRel_inv in Hhd.
  pose proof (consume_nonce_inv T hist st s1 n1 e1 t1 Hhd Hinv) as Hstep. destruct (consume_nonce s1 n1 e1 t1 st) as [b1 st1].
  destruct Hstep as [Hb Hinv1]. destruct pre as [|r pre]; cbn [zip zip_with app] in Heq.
  - injection Heq as <- <- <- <- <- _. by rewrite app_nil_r.
  - injection Heq as <- Heq. rewrite (cons_middle _ hist pre), app_assoc. by eapply IH.
Qed.

(** The nonce store is exact: over any sequence of requests in time order, a
    request is accepted exactly when no earlier accepted request of the same
    signer (up to case) and nonce is still unexpired - replays are refused, and
    nothing else is. *)
Theorem nonce_accepted_iff_fresh reqs pre s n e now b post (Hs : Sorted Z.le reqs.*2)
    (Heq : zip reqs (consume_all reqs []) = pre ++ (s, n, e, now, b) :: post) :
  b = true <-> ~ Exists (blocks (nonce_key s n) now) pre.
Proof.
  destruct reqs as [|r reqs]; [by destruct pre|].
  apply (consume_all_exact (r :: reqs) r.2 [] [] pre s n e now b post); [|by constructor; [|constructor]|done].
  split; [apply empty_wf|]. intros key t Ht. rewrite Exists_nil. naive_solver.
Qed.

Lemma nonce_accepted_iff_fresh_witness :
  let reqs := [("GA", "n1", 100, 10); ("ga", "n1", 100, 50); ("GA", "n1", 200, 100)]%string in
  consume_all reqs [] = [true; false; true] /\
  (true = true <-> ~ Exists (blocks (nonce_key "GA" "n1") 100) [("GA", "n1", 100, 10, true); ("ga", "n1", 100, 50, false)]%string).
Proof.
  split; [vm_compute; reflexivity|].
  apply (nonce_accepted_iff_fresh [("GA", "n1", 100, 10); ("ga", "n1", 100, 50); ("GA", "n1", 200, 100)]%string
    [("GA", "n1", 100, 10, true); ("ga", "n1", 100, 50, false)]%string "GA" "n1" 200 100 true []).
  - repeat constructor; vm_compute; discriminate.
  - vm_compute. reflexivity.
Defined.

(** ** [SignatureNonceService] *)

Inductive NonceBackend := nb_prisma | nb_redis | nb_memory.

(** The constructor: which store, or why the service does not start. *)
Definition nonce_backend (isProduction : bool) (SIGNATURE_NONCE_STORE INTENTS_PERSISTENCE : option string) : outcome string NonceBackend :=
  let backend := toLowerCase (default (if bool_decide (INTENTS_PERSISTENCE = Some "prisma") then "prisma" else "memory")%string SIGNATURE_NONCE_STORE) in
  if isProduction && bool_decide (backend = "memory"%string) then Err "replay protection requires persistence"%string
  else if bool_decide (backend = "prisma"%string) then Ok nb_prisma
  else if bool_decide (backend = "redis"%string) then Ok nb_redis
  else if bool_decide (backend = "memory"%string) then Ok nb_memory
  else Err "unknown backend"%string.

Lemma production_nonces_persist sns ip : nonce_backend true sns ip <> Ok nb_memory.
Proof. unfold nonce_backend. cbv zeta. simpl. repeat case_bool_decide; try done. Qed.

(** * Signed self-service requests *)

Definition SELF_SERVICE_CLOCK_SKEW_SECONDS : Z := 60.
Definition SELF_SERVICE_MAX_TTL_SECONDS : Z := 300.

(** The headers; an empty one counts as missing.  The expiry is what [Number]
    makes of the header, [None] when that is not an integer. *)
Record SelfHeaders := {
  sh_address : option string; sh_signature : option string; sh_nonce : option string; sh_expiresAt : option (option Z)
}.

Inductive SelfError := se_missing | se_nonce_too_long | se_not_timestamp | se_expired | se_too_far | se_signature | se_nonce_used.

Section self_service.
(** [verifyStellarSignature] on the message built from address, nonce and expiry. *)
Variable signature_ok : string -> string -> Z -> string -> bool.
Context {S : Type} `{NonceStore S}.

Definition self_nonce (nonce : string) : string := ("abuse-self-service:" +:+ nonce)%string.

(** [SignatureNonceService.consume]: a store that throws refuses. *)
Definition service_consume (signer nonce : string) (expiresAt now : Z) (st : S) : bool * S :=
  match ns_consume signer nonce expiresAt now st with Some (b, st') => (b, st') | None => (false, st) end.

Definition verifySelf (h : SelfHeaders) (nowMs : Z) (st : S) : outcome SelfError string * S :=
  match sh_address h, sh_signature h, sh_nonce h, sh_expiresAt h with
  | Some address, Some signature, Some nonce, Some expires =>
      if 128 <? Z.of_nat (String.length nonce) then (Err se_nonce_too_long, st)
      else match expires with
           | None => (Err se_not_timestamp, st)
           | Some expiresAt =>
               let now := nowMs / 1000 in
               if expiresAt <? now - SELF_SERVICE_CLOCK_SKEW_SECONDS then (Err se_expired, st)
               else if now + SELF_SERVICE_MAX_TTL_SECONDS + SELF_SERVICE_CLOCK_SKEW_SECONDS <? expiresAt then (Err se_too_far, st)
               else if negb (signature_ok address nonce expiresAt signature) then (Err se_signature, st)
               else let '(fresh, st') := service_consume address (self_nonce nonce) expiresAt now st in
                    if fresh then (Ok (toLowerCase address), st') else (Err se_nonce_used, st')
           end
  | _, _, _, _ => (Err se_missing, st)
  end.

Fixpoint verify_all (reqs : list (SelfHeaders * Z)) (st : S) : list (outcome SelfError string) :=
  match reqs with
  | [] => []
  | (h, t) :: reqs => let '(r, st') := verifySelf h t st in r :: verify_all reqs st'
  end.

Context `{!NonceStoreLaws S}.

(** A request that was let in was properly signed and its nonce is live. *)
Lemma verifySelf_cases h t st r st' : ns_valid st -> verifySelf h t st = (r, st') ->
  ns_valid st' /\
  (forall s n e, ns_live st s n e -> t / 1000 < e -> ns_live st' s n e) /\
  (forall a, r = Ok a -> exists address signature nonce expiresAt,
     sh_address h = Some address /\ sh_signature h = Some signature /\ sh_nonce h = Some nonce /\ sh_expiresAt h = Some (Some expiresAt) /\
     signature_ok address nonce expiresAt signature = true /\ a = toLowerCase address /\ t / 1000 - 60 <= expiresAt /\
     ns_live st' a (self_nonce nonce) expiresAt /\
     (forall e, ns_live st a (self_nonce nonce) e -> e <= t / 1000)).
Proof.
  intros Hv Hr. unfold verifySelf in Hr.
  destruct (sh_address h) as [address|], (sh_signature h) as [signature|], (sh_nonce h) as [nonce|], (sh_expiresAt h) as [expires|];
    try (injection Hr as <- <-; done).
  case_match; [by injection Hr as <- <-|]. destruct expires as [expiresAt|]; [|by injection Hr as <- <-]. cbv zeta in Hr.
  destruct (Z.ltb_spec expiresAt (t / 1000 - SELF_SERVICE_CLOCK_SKEW_SECONDS)) as [|Hskew]; [by injection Hr as <- <-|].
  case_match; [by injection Hr as <- <-|]. destruct (signature_ok address nonce expiresAt signature) eqn:Hsig; [|by injection Hr as <- <-].
  simpl in Hr. unfold service_consume in Hr.
  destruct (ns_consume address (self_nonce nonce) expiresAt (t / 1000) st) as [[fresh st1]|] eqn:Hc; [|by injection Hr as <- <-].
  assert (Hst : st' = st1) by (destruct fresh; by injection Hr as <- <-). subst st1. split; [by eapply ns_valid_keep|].
  split; [intros s n e Hl Hlt; by eapply ns_keep|]. intros a ->. destruct fresh; [|done]. injection Hr as <-.
  exists address, signature, nonce, expiresAt. split_and!; try done; [by eapply ns_accept|].
  intros e Hl. destruct (decide (e <= t / 1000)); [done|]. exfalso. eapply (ns_reject _ _ e address); [exact Hv|exact Hl| |reflexivity|exact Hc]; lia.
Qed.

Lemma sorted_head_le T l i (t : Z) : Sorted Z.le (T :: l) -> l !! i = Some t -> T <= t.
Proof.
  intros Hs Hi. apply Sorted_StronglySorted in Hs; [|intros x y z ? ?; lia]. apply StronglySorted_inv in Hs as [_ Hs].
  by eapply Forall_lookup_1.
Qed.

Lemma verify_all_live reqs : forall st T s n e, ns_valid st -> Sorted Z.le (T :: reqs.*2) -> ns_live st s (self_nonce n) e ->
  forall i h t, reqs !! i = Some (h, t) -> sh_nonce h = Some n -> verify_all reqs st !! i = Some (Ok s) -> e <= t / 1000.
Proof.
  induction reqs as [|[h1 t1] reqs IH]; intros st T s n e Hv Hs Hl i h t Hi Hn Hok; [done|].
  cbn [verify_all] in Hok. rewrite fmap_cons in Hs. apply Sorted_inv in Hs as [Hs _]. simpl in Hs.
  destruct (verifySelf h1 t1 st) as [r1 st1] eqn:Hr. pose proof (verifySelf_cases h1 t1 st r1 st1 Hv Hr) as (Hv1 & Hk & Hacc).
  destruct i as [|i]; simpl in Hi, Hok.
  - injection Hi as <- <-. injection Hok as ->. destruct (Hacc s eq_refl) as (ad & sg & nc & ex & _ & _ & Hnc & _ & _ & _ & _ & _ & Hrej).
    rewrite Hn in Hnc. injection Hnc as <-. by apply Hrej.
  - destruct (decide (t1 / 1000 < e)) as [Hlt|Hge]; [by eapply (IH st1 t1); [..|apply Hk| | |]|].
    etransitivity; [apply Z.nlt_ge, Hge|]. apply Z.div_le_mono; [done|]. eapply (sorted_head_le _ _ i); [exact Hs|].
    rewrite list_lookup_fmap, Hi. done.
Qed.

Lemma verify_all_single_use reqs : forall st T i j h t h' t' a n e, ns_valid st -> Sorted Z.le (T :: reqs.*2) ->
  reqs !! i = Some (h, t) -> reqs !! j = Some (h', t') -> (i < j)%nat ->
  verify_all reqs st !! i = Some (Ok a) -> verify_all reqs st !! j = Some (Ok a) ->
  sh_nonce h = Some n -> sh_nonce h' = Some n -> sh_expiresAt h = Some (Some e) -> e <= t' / 1000.
Proof.
  induction reqs as [|[h1 t1] reqs IH]; intros st T i j h t h' t' a n e Hv Hs Hi Hj Hlt Hok Hok' Hn Hn' He; [done|].
  cbn [verify_all] in Hok, Hok'. rewrite fmap_cons in Hs. apply Sorted_inv in Hs as [Hs _]. simpl in Hs.
  destruct (verifySelf h1 t1 st) as [r1 st1] eqn:Hr. pose proof (verifySelf_cases h1 t1 st r1 st1 Hv Hr) as (Hv1 & Hk & Hacc).
  destruct j as [|j]; [lia|]. destruct i as [|i]; simpl in *.
  - injection Hi as <- <-. injection Hok as ->. destruct (Hacc a eq_refl) as (ad & sg & nc & ex & _ & _ & Hnc & Hex & _ & _ & _ & Hl & _).
    rewrite Hn in Hnc. injection Hnc as <-. rewrite He in Hex. injection Hex as <-. by eapply (verify_all_live reqs st1 t1 a n e).
  - eapply (IH st1 t1 i j); eauto. lia.
Qed.
End self_service.

(** A signed self-service request is good for one use until it expires, over
    any nonce store that keeps its promise: of two requests of one address
    (up to case) with one nonce that were both let in, the second came when
    the first had expired. *)
Theorem self_request_single_use signature_ok {S} `{NonceStoreLaws S} (st : S) reqs i j h t h' t' a n e
    (Hv : ns_valid st) (Hs : Sorted Z.le reqs.*2) (Hlt : (i < j)%nat)
    (Hi : reqs !! i = Some (h, t)) (Hj : reqs !! j = Some (h', t'))
    (Hok : verify_all signature_ok reqs st !! i = Some (Ok a)) (Hok' : verify_all signature_ok reqs st !! j = Some (Ok a))
    (Hn : sh_nonce h = Some n) (Hn' : sh_nonce h' = Some n) (He : sh_expiresAt h = Some (Some e)) : e <= t' / 1000.
Proof.
  destruct reqs as [|r reqs]; [done|]. eapply (verify_all_single_use signature_ok (r :: reqs) st r.2 i j); eauto.
  by constructor; [|constructor].
Qed.

Definition self_request (expires : Z) : SelfHeaders := {| sh_address := Some "GA"%string; sh_signature := Some "sig"%string;
  sh_nonce := Some "n1"%string; sh_expiresAt := Some (Some expires) |}.

(** The clock-skew allowance undoes the single use: a request whose expiry has
    passed, by up to a minute, is let in, and its nonce is recorded as already
    expired - so the same request is let in again. *)
Theorem skew_admits_replays :
  verify_all (fun _ _ _ _ => true) [(self_request 100, 120000); (self_request 100, 121000); (self_request 100, 150000)] ([] : jsmap Z)
    = [Ok "ga"%string; Ok "ga"%string; Ok "ga"%string].
Proof. vm_compute. reflexivity. Qed.

Lemma self_request_single_use_witness :
  verify_all (fun _ _ _ _ => true) [(self_request 100, 90000); (self_request 100, 95000); (self_request 130, 100000)] ([] : jsmap Z)
    = [Ok "ga"%string; Err se_nonce_used; Ok "ga"%string] /\ 100 <= 100000 / 1000.
Proof.
  split; [vm_compute; reflexivity|].
  apply (self_request_single_use (fun _ _ _ _ => true) ([] : jsmap Z) [(self_request 100, 90000); (self_request 100, 95000); (self_request 130, 100000)]
    0 2 (self_request 100) 90000 (self_request 130) 100000 "ga" "n1" 100); try reflexivity.
  - exact (@empty_wf Z).
  - repeat constructor; vm_compute; discriminate.
  - lia.
Defined.
