(* ===== verification/Sessions.v ===== *)
(** Sessions: SEP-10 challenges exchanged for session tokens
    ([src/auth/sep10/sep10.service.ts], [src/auth/sep10/nonce.store.ts]), their
    revocation, and the guard that admits them
    ([src/auth/solver-credentials/solver-jwt.guard.ts], [src/common/jwt.ts]).

    What the Stellar SDK and the signature checks answer are parameters; a
    token is known by its id ([jti]).  Time is in milliseconds, as [Date.now]. *)
From stdpp Require Import sorting.
From S2P Require Import Prelude JsMap BigInt Auth.
Local Open Scope Z_scope.

Definition SEP10_CHALLENGE_TIMEOUT_SECONDS : Z := 300.
Definition SEP10_JWT_TTL_SECONDS : Z := 900.
Definition SEP10_NONCE_TTL_SECONDS : Z := SEP10_CHALLENGE_TIMEOUT_SECONDS * 2.

(** * The stores *)

(** [InMemorySep10NonceStore] *)
Definition remember (nonce : string) (ttlSeconds nowMs : Z) (st : jsmap Z) : jsmap Z :=
  set nonce (nowMs + ttlSeconds * 1000) (prune nowMs st).

Definition consume_sep10 (nonce : string) (nowMs : Z) (st : jsmap Z) : bool * jsmap Z :=
  (match get nonce st with Some expiresAt => nowMs <? expiresAt | None => false end, del nonce st).

(** [InMemorySessionDenylistStore] *)
Definition deny_jti (jti : string) (ttlSeconds nowMs : Z) (st : jsmap Z) : jsmap Z :=
  set jti (nowMs + ttlSeconds * 1000) (prune nowMs st).

Definition isRevoked (jti : string) (nowMs : Z) (st : jsmap Z) : bool * jsmap Z :=
  match get jti st with
  | None => (false, st)
  | Some expiresAt => if expiresAt <=? nowMs then (false, del jti st) else (true, st)
  end.

(** * Challenges *)

Inductive Sep10Role := role_solver | role_user | role_admin.

Record Sep10JwtClaims := { cl_sub : string; cl_role : Sep10Role; cl_iat : Z; cl_exp : Z; cl_jti : string }.

Inductive ExchangeError := xe_rejected | xe_account | xe_replay | xe_internal.

(** What the exchange of one signed challenge meets: what the SDK reads in it,
    whether the account loads, whether its signatures reach the threshold, the
    nonce in it, and what the role lookup and the id generator answer. *)
Record Exchange := {
  ex_read : option string;          (* the client account, if the server half verifies *)
  ex_account : bool;
  ex_verified : bool;
  ex_nonce : option string;         (* [challengeNonce] *)
  ex_admins : list string;
  ex_solver : outcome string bool;  (* is the account a registered solver; the lookup may throw *)
  ex_jti : string;
}.

Definition resolveRole (x : Exchange) (account : string) : outcome string Sep10Role :=
  if bool_decide (account ∈ ex_admins x) then Ok role_admin
  else match ex_solver x with Ok true => Ok role_solver | Ok false => Ok role_user | Err e => Err e end.

(** [exchange]: [nowMs] is when the nonce is consumed, [issuedMs] when the token
    is built, after the role lookup. *)
Definition exchange (x : Exchange) (nowMs issuedMs : Z) (st : jsmap Z) : outcome ExchangeError Sep10JwtClaims * jsmap Z :=
  match ex_read x with
  | None => (Err xe_rejected, st)
  | Some account =>
      if negb (ex_account x) then (Err xe_account, st)
      else if negb (ex_verified x) then (Err xe_rejected, st)
      else match ex_nonce x with
           | None => (Err xe_rejected, st)
           | Some nonce =>
               let '(consumed, st) := consume_sep10 nonce nowMs st in
               if negb consumed then (Err xe_replay, st)
               else match resolveRole x account with
                    | Err _ => (Err xe_internal, st)
                    | Ok role =>
                        let issuedAt := issuedMs / 1000 in
                        (Ok {| cl_sub := account; cl_role := role; cl_iat := issuedAt; cl_exp := issuedAt + SEP10_JWT_TTL_SECONDS; cl_jti := ex_jti x |}, st)
                    end
           end
  end.

(** [buildChallenge] remembers the nonce of the challenge the SDK built. *)
Definition buildChallenge (validAccount : bool) (nonce : string) (nowMs : Z) (st : jsmap Z) : bool * jsmap Z :=
  if validAccount then (true, remember nonce SEP10_NONCE_TTL_SECONDS nowMs st) else (false, st).

Inductive Sep10Event := EvChallenge (validAccount : bool) (nonce : string) | EvExchange (x : Exchange) (issuedMs : Z).

(** What happened: a challenge issued, or a token issued for a nonce. *)
Inductive Sep10Note := NoteIssued (nonce : string) (at_ : Z) | NoteToken (nonce : string) (at_ : Z) (c : Sep10JwtClaims).

Definition sep10_step (st : jsmap Z) (ev : Sep10Event) (nowMs : Z) : jsmap Z * list Sep10Note :=
  match ev with
  | EvChallenge ok nonce => let '(done, st') := buildChallenge ok nonce nowMs st in (st', if done : bool then [NoteIssued nonce nowMs] else [])
  | EvExchange x issued =>
      let '(r, st') := exchange x nowMs issued st in
      (st', match r, ex_nonce x with Ok c, Some nonce => [NoteToken nonce nowMs c] | _, _ => [] end)
  end.

Fixpoint sep10_run (evs : list (Sep10Event * Z)) (st : jsmap Z) : list Sep10Note :=
  match evs with
  | [] => []
  | (ev, t) :: evs => let '(st', out) := sep10_step st ev t in out ++ sep10_run evs st'
  end.

Definition issued_for (n : string) (x : Sep10Note) : Prop := match x with NoteIssued m _ => m = n | _ => False end.
Definition token_for (n : string) (x : Sep10Note) : Prop := match x with NoteToken m _ _ => m = n | _ => False end.
#[local] Instance issued_for_dec n x : Decision (issued_for n x).
Proof. destruct x; simpl; apply _. Defined.
#[local] Instance token_for_dec n x : Decision (token_for n x).
Proof. destruct x; simpl; apply _. Defined.

Definition issued (n : string) (l : list Sep10Note) : nat := length (filter (issued_for n) l).
Definition tokens (n : string) (l : list Sep10Note) : nat := length (filter (token_for n) l).

Lemma issued_app n l l' : issued n (l ++ l') = (issued n l + issued n l')%nat.
Proof. unfold issued. by rewrite filter_app, length_app. Qed.
Lemma tokens_app n l l' : tokens n (l ++ l') = (tokens n l + tokens n l')%nat.
Proof. unfold tokens. by rewrite filter_app, length_app. Qed.

Definition held (n : string) (st : jsmap Z) : nat := if has n st then 1 else 0.

(** An entry of the store stems from a challenge, and no nonce bought more
    tokens than challenges were issued with it. *)
Record sep10_inv (hist : list Sep10Note) (st : jsmap Z) : Prop := {
  si_wf : wf st;
  si_once : forall n, (tokens n hist + held n st <= issued n hist)%nat;
  si_from : forall n e, get n st = Some e -> exists t, NoteIssued n t ∈ hist /\ e = t + SEP10_NONCE_TTL_SECONDS * 1000;
  si_when : forall n t c, NoteToken n t c ∈ hist -> exists t0, NoteIssued n t0 ∈ hist /\ t < t0 + SEP10_NONCE_TTL_SECONDS * 1000;
}.

Lemma held_set n m e st : held n (set m e st) = if decide (m = n) then 1%nat else held n st.
Proof. unfold held, has. rewrite get_set. by case_decide. Qed.

Lemma held_prune n now st : wf st -> (held n (prune now st) <= held n st)%nat.
Proof.
  intros Hwf. unfold held, has. destruct (get n (prune now st)) as [e|] eqn:E; [|destruct (get n st); lia].
  apply get_prune in E as [-> _]; [lia|done].
Qed.

Lemma held_del n m st : wf st -> held n (del m st) = if decide (m = n) then 0%nat else held n st.
Proof. intros Hwf. unfold held, has. case_decide as Hd; [subst; by rewrite get_del_eq|by rewrite get_del_ne]. Qed.

Lemma challenge_inv hist st nonce now : sep10_inv hist st ->
  sep10_inv (hist ++ [NoteIssued nonce now]) (remember nonce SEP10_NONCE_TTL_SECONDS now st).
Proof.
  intros [Hwf Ho Hf Hw]. unfold remember. constructor.
  - by apply set_wf, prune_wf.
  - intros n. rewrite tokens_app, issued_app, held_set. specialize (Ho n). pose proof (held_prune n now st Hwf).
    unfold tokens at 2, issued at 2. rewrite !filter_cons, !filter_nil. simpl. destruct (decide (nonce = n)); simpl; lia.
  - intros n e. rewrite get_set. case_decide as Hd.
    + intros [= <-]. exists now. split; [|done]. subst. set_solver.
    + intros [H _]%get_prune; [|done]. destruct (Hf n e H) as (t & Ht & ->). exists t. set_solver.
  - intros n t c [Hin|Hin%list_elem_of_singleton]%elem_of_app; [|done]. destruct (Hw n t c Hin) as (t0 & Ht0 & Hlt). exists t0. set_solver.
Qed.

(** Whatever an exchange answers, a token took the entry of its nonce, in time. *)
Lemma exchange_cases x now issuedMs st r st' : exchange x now issuedMs st = (r, st') ->
  (st' = st /\ is_ok r = false) \/
  exists n, ex_nonce x = Some n /\ st' = del n st /\ (is_ok r = true -> exists e, get n st = Some e /\ now < e).
Proof.
  unfold exchange, consume_sep10. destruct (ex_read x) as [account|]; [|intros [= <- <-]; by left].
  destruct (ex_account x); [|intros [= <- <-]; by left]. destruct (ex_verified x); [|intros [= <- <-]; by left].
  destruct (ex_nonce x) as [n|]; [|intros [= <- <-]; by left]. simpl. intros Hr. right. exists n. split; [done|].
  destruct (get n st) as [e|]; [destruct (Z.ltb_spec now e)|]; simpl in Hr;
    [destruct (resolveRole x account)|..]; injection Hr as <- <-; (split; [done|]; simpl; try done); intros _; by exists e.
Qed.

Lemma exchange_inv hist st x now issuedMs r st' : sep10_inv hist st -> exchange x now issuedMs st = (r, st') ->
  sep10_inv (hist ++ match r, ex_nonce x with Ok c, Some nonce => [NoteToken nonce now c] | _, _ => [] end) st'.
Proof.
  intros [Hwf Ho Hf Hw] Hx. apply exchange_cases in Hx as [[-> Hr]|(n & Hn & -> & Hr)].
  - destruct r; [done|]. by rewrite app_nil_r.
  - rewrite Hn. assert (Hdel : forall m e, get m (del n st) = Some e -> get m st = Some e).
    { intros m e He. destruct (decide (n = m)) as [<-|Hne]; [by rewrite get_del_eq in He|by rewrite get_del_ne in He]. }
    destruct r as [c|]; cycle 1.
    + rewrite app_nil_r. constructor; [by apply del_wf| |eauto|done]. intros m. specialize (Ho m). rewrite held_del by done. case_decide; lia.
    + destruct (Hr eq_refl) as (e & He & Hlt). constructor.
      * by apply del_wf.
      * intros m. rewrite tokens_app, issued_app, held_del by done. specialize (Ho m).
        unfold tokens at 2, issued at 2. rewrite !filter_cons, !filter_nil. simpl. unfold held, has in Ho.
        destruct (decide (n = m)) as [<-|Hne]; [rewrite He in Ho; simpl; lia|]. unfold held, has. simpl. lia.
      * intros m e' He'. destruct (Hf m e' (Hdel m e' He')) as (t & Ht & ->). exists t. set_solver.
      * intros m t c' [Hin|Hin%list_elem_of_singleton]%elem_of_app.
        -- destruct (Hw m t c' Hin) as (t0 & Ht0 & Hlt0). exists t0. set_solver.
        -- injection Hin as -> -> ->. destruct (Hf n e He) as (t0 & Ht0 & ->). exists t0. set_solver.
Qed.

Lemma sep10_run_inv evs : forall hist st, sep10_inv hist st -> exists st', sep10_inv (hist ++ sep10_run evs st) st'.
Proof.
  induction evs as [|[ev now] evs IH]; intros hist st Hinv; simpl; [exists st; by rewrite app_nil_r|].
  destruct ev as [ok nonce|x issuedMs]; simpl.
  - destruct ok; simpl; [|by apply IH]. rewrite (cons_middle _ hist), app_assoc. by apply IH, challenge_inv.
  - destruct (exchange x now issuedMs st) as [r st'] eqn:E. rewrite app_assoc. eapply IH, exchange_inv; [exact Hinv|exact E].
Qed.

(** A captured challenge buys no second token: over any sequence of challenges
    and exchanges, the tokens issued on a nonce never outnumber the challenges
    issued with it, and each was issued within the ten minutes after one of
    them. *)
Theorem challenge_exchanged_once evs :
  (forall n, (tokens n (sep10_run evs []) <= issued n (sep10_run evs []))%nat) /\
  (forall n t c, NoteToken n t c ∈ sep10_run evs [] ->
     exists t0, NoteIssued n t0 ∈ sep10_run evs [] /\ t < t0 + SEP10_NONCE_TTL_SECONDS * 1000).
Proof.
  destruct (sep10_run_inv evs [] []) as [st [_ Ho _ Hw]].
  { constructor; [apply empty_wf|done|done|]. intros n t c Hin. by apply not_elem_of_nil in Hin. }
  split; [|done]. intros n. specialize (Ho n). simpl in Ho. lia.
Qed.

(** * Revocation *)

(** [Sep10Service.revoke] *)
Definition revoke (c : Sep10JwtClaims) (nowMs : Z) (st : jsmap Z) : jsmap Z :=
  let remaining := Z.min (cl_exp c - nowMs / 1000) SEP10_JWT_TTL_SECONDS in
  if remaining <=? 0 then st else deny_jti (cl_jti c) remaining nowMs st.

Record JwtClaims := { jc_sub : string; jc_exp : option Z; jc_nbf : option Z; jc_jti : option string }.

(** The checks [verifyEddsaJwt] and [verifyHs256Jwt] make on a payload whose
    signature they verified. *)
Definition check_claims (c : JwtClaims) (nowSec : Z) : option JwtClaims :=
  if bool_decide (jc_sub c = ""%string) then None
  else if match jc_exp c with Some exp => exp <=? nowSec | None => false end then None
  else if match jc_nbf c with Some nbf => nowSec <? nbf | None => false end then None
  else Some c.

(** A request to the guard: the path's address, whether a token was presented,
    and the payloads its signature verifies for, under either key. *)
Record GuardRequest := {
  gr_address : string; gr_presented : bool; gr_eddsa : option JwtClaims; gr_hs256 : option JwtClaims
}.

Definition session_claims (g : GuardRequest) (nowSec : Z) : option JwtClaims :=
  match c ← gr_eddsa g; check_claims c nowSec with
  | Some c => Some c
  | None => c ← gr_hs256 g; check_claims c nowSec
  end.

Inductive GuardError := ge_no_token | ge_invalid | ge_revoked | ge_subject.

(** [SolverJwtGuard.canActivate] *)
Definition canActivate (g : GuardRequest) (nowMs : Z) (st : jsmap Z) : outcome GuardError string * jsmap Z :=
  if negb (gr_presented g) then (Err ge_no_token, st)
  else match session_claims g (nowMs / 1000) with
       | None => (Err ge_invalid, st)
       | Some c =>
           let '(revoked, st) :=
             match jc_jti c with
             | Some jti => if bool_decide (jti = ""%string) then (false, st) else isRevoked jti nowMs st
             | None => (false, st)
             end in
           if revoked then (Err ge_revoked, st)
           else if bool_decide (jc_sub c = gr_address g) then (Ok (gr_address g), st) else (Err ge_subject, st)
       end.

Inductive SessionOp := OpRevoke (c : Sep10JwtClaims) | OpGuard (g : GuardRequest).

Definition session_step (st : jsmap Z) (op : SessionOp * Z) : jsmap Z :=
  match op with (OpRevoke c, t) => revoke c t st | (OpGuard g, t) => (canActivate g t st).2 end.

(** Until the token expires, the denylist remembers it for as long. *)
Definition denied (jti : string) (exp T : Z) (st : jsmap Z) : Prop :=
  wf st /\ (T < exp * 1000 -> exists e, get jti st = Some e /\ exp * 1000 <= e).

Lemma denied_mono jti exp T T' st : T <= T' -> denied jti exp T st -> denied jti exp T' st.
Proof. intros HT [Hwf H]. split; [done|]. intros. apply H. lia. Qed.

Lemma deny_keeps jti exp jti' ttl now st : denied jti exp now st -> (jti' = jti -> exp * 1000 <= now + ttl * 1000) ->
  denied jti exp now (deny_jti jti' ttl now st).
Proof.
  intros [Hwf H] Hsame. split; [by apply set_wf, prune_wf|]. intros Hlt. unfold deny_jti. rewrite get_set. case_decide as Hd; [eauto|].
  destruct (H Hlt) as (e & He & Hle). exists e. split; [|done]. apply get_prune; [done|]. split; [done|lia].
Qed.

(** Rounding down to seconds loses nothing. *)
Lemma remaining_covers exp now : exp * 1000 <= now + (exp - now / 1000) * 1000.
Proof. pose proof (Z.div_mod now 1000 ltac:(done)). pose proof (Z.mod_pos_bound now 1000 ltac:(done)). lia. Qed.

Lemma revoke_denies c now st : wf st -> cl_exp c - now / 1000 <= SEP10_JWT_TTL_SECONDS -> denied (cl_jti c) (cl_exp c) now (revoke c now st).
Proof.
  intros Hwf Hle. unfold revoke. cbv zeta. rewrite Z.min_l by done. pose proof (remaining_covers (cl_exp c) now).
  destruct (Z.leb_spec (cl_exp c - now / 1000) 0) as [H0|H0].
  - split; [done|]. intros Hlt. pose proof (Z.mod_pos_bound now 1000 ltac:(done)). pose proof (Z.div_mod now 1000 ltac:(done)). lia.
  - split; [by apply set_wf, prune_wf|]. intros _. unfold deny_jti. rewrite get_set_eq. eauto.
Qed.

Lemma isRevoked_keeps jti exp jti' now st : denied jti exp now st -> denied jti exp now (isRevoked jti' now st).2.
Proof.
  intros [Hwf H]. unfold isRevoked. destruct (get jti' st) as [e|] eqn:E; [|done]. destruct (Z.leb_spec e now); [|done]. simpl.
  split; [by apply del_wf|]. intros Hlt. destruct (H Hlt) as (e' & He' & Hle). exists e'. split; [|done].
  rewrite get_del_ne; [done|]. intros ->. rewrite E in He'. injection He' as ->. lia.
Qed.

Lemma guard_keeps jti exp g now st : denied jti exp now st -> denied jti exp now (canActivate g now st).2.
Proof.
  intros H. unfold canActivate. case_match; [done|]. destruct (session_claims g (now / 1000)) as [c|]; [|done].
  destruct (jc_jti c) as [jti'|]; [case_bool_decide|]; simpl; [by case_bool_decide| |by case_bool_decide].
  pose proof (isRevoked_keeps jti exp jti' now st H) as Hk. destruct (isRevoked jti' now st) as [[] st']; simpl in *; [done|].
  by case_bool_decide.
Qed.

Lemma session_run_keeps jti exp ops : forall T st, Sorted Z.le (T :: ops.*2) -> denied jti exp T st ->
  Forall (fun op => match op.1 with OpRevoke c => cl_jti c = jti -> cl_exp c = exp /\ exp - op.2 / 1000 <= SEP10_JWT_TTL_SECONDS | OpGuard _ => True end) ops ->
  forall t, Forall (fun t' => t' <= t) (T :: ops.*2) -> denied jti exp t (foldl session_step st ops).
Proof.
  induction ops as [|[op now] ops IH]; intros T st Hs Hd Hok t Ht; simpl.
  { apply Forall_cons in Ht as [Ht _]. by eapply denied_mono. }
  rewrite fmap_cons in Hs, Ht. apply Sorted_inv in Hs as [Hs Hhd]. apply HdRel_inv in Hhd. apply Forall_cons in Ht as [_ Ht].
  apply Forall_cons in Hok as [Hop Hok]. apply (IH now); [done| |done|done]. simpl in Hop, Hhd.
  apply (denied_mono _ _ _ now) in Hd; [|done]. destruct op as [c|g]; [|by apply guard_keeps].
  unfold revoke. cbv zeta. case_match; [done|]. apply deny_keeps; [done|]. intros Hj. destruct (Hop Hj) as [-> Hle].
  rewrite Z.min_l by done. apply remaining_covers.
Qed.

(** The guard takes no expired token. *)
Lemma session_claims_live g nowSec jc exp : session_claims g nowSec = Some jc -> jc_exp jc = Some exp -> nowSec < exp.
Proof.
  assert (Hc : forall c, check_claims c nowSec = Some jc -> jc_exp jc = Some exp -> nowSec < exp).
  { intros c. unfold check_claims. case_bool_decide; [done|]. destruct (jc_exp c) as [e|] eqn:E;
      [destruct (Z.leb_spec e nowSec); [done|]|]; intros Hc He; case_match; try done; injection Hc as ->; congruence. }
  unfold session_claims. destruct (c ← gr_eddsa g; check_claims c nowSec) as [c1|] eqn:E1.
  - intros [= ->]. destruct (gr_eddsa g) as [c|]; [|done]. by apply (Hc c).
  - destruct (gr_hs256 g) as [c|]; [|done]. apply Hc.
Qed.


Definition demo_claims : Sep10JwtClaims := {| cl_sub := "GS"; cl_role := role_solver; cl_iat := 1000; cl_exp := 1900; cl_jti := "j1" |}.
Definition demo_request : GuardRequest := {| gr_address := "GS"; gr_presented := true; gr_hs256 := None;
  gr_eddsa := Some {| jc_sub := "GS"; jc_exp := Some 1900; jc_nbf := None; jc_jti := Some "j1" |} |}.
Definition demo_session_ops : list (SessionOp * Z) :=
  [(OpGuard demo_request, 1000600); (OpRevoke {| cl_sub := "GT"; cl_role := role_user; cl_iat := 1000; cl_exp := 1900; cl_jti := "j2" |}, 1500000)].


(** A longer-lived token, which the guard also takes, outlives its revocation:
    the denylist forgets it after fifteen minutes. *)
Theorem long_session_survives_revocation :
  let c := {| cl_sub := "GS"; cl_role := role_solver; cl_iat := 0; cl_exp := 86400; cl_jti := "j1" |}%string in
  let g := {| gr_address := "GS"; gr_presented := true; gr_eddsa := None;
     gr_hs256 := Some {| jc_sub := "GS"; jc_exp := Some 86400; jc_nbf := None; jc_jti := Some "j1" |} |}%string in
  is_ok (canActivate g 1000 (revoke c 0 [])).1 = false /\ is_ok (canActivate g 900000 (revoke c 0 [])).1 = true.
Proof. vm_compute. by split. Qed.
