(* ===== verification/RateLimit.v ===== *)
(** The tiered rate limit: [src/auth/rate-limit/local-rate-limit.store.ts],
    [distributed-rate-limiter.ts], [tiered-throttle.guard.ts] and the tiers of
    [src/auth/api-keys/api-key-tiers.ts].

    What Redis answers (or that it fails) is a parameter of each request; the
    response headers are part of the answer of the guard. *)
From stdpp Require Import sorting.
From S2P Require Import Prelude JsMap BigInt SlidingWindow.
Local Open Scope Z_scope.

(** * Tiers and scopes *)

Inductive ApiKeyTier := tier_public | tier_integrator | tier_solver | tier_partner.

Definition TIER_LIMITS (t : ApiKeyTier) : Z :=
  match t with tier_public => 100 | tier_integrator => 300 | tier_solver => 600 | tier_partner => 2000 end.
Definition DEFAULT_TIER : ApiKeyTier := tier_public.

Definition API_KEY_SCOPE_REQUIREMENTS : jsmap string :=
  [("GET /tokens/admin", "admin:tokens:read"); ("POST /tokens/admin", "admin:tokens:write");
   ("DELETE /tokens/admin/:id", "admin:tokens:write"); ("GET /datasets", "datasets:read");
   ("GET /datasets/:id", "datasets:read"); ("GET /datasets/:id/export", "datasets:export")]%string.

Definition upper_char (c : Ascii.ascii) : Ascii.ascii :=
  if (97 <=? code c) && (code c <=? 122) then Ascii.ascii_of_N (Z.to_N (code c - 32)) else c.
Fixpoint toUpperCase (s : string) : string :=
  match s with EmptyString => EmptyString | String c s => String (upper_char c) (toUpperCase s) end.

Definition apiKeyScopeRouteKey (method path : string) : string := (toUpperCase method +:+ " " +:+ path)%string.
Definition requiredScopeForRoute (method path : string) : option string := get (apiKeyScopeRouteKey method path) API_KEY_SCOPE_REQUIREMENTS.
Definition apiKeyScopeAllows (granted : option (list string)) (required : option string) : bool :=
  match granted with
  | None | Some [] => true
  | Some scopes => match required with Some s => bool_decide (s ∈ scopes) | None => false end
  end.

(** A key with scopes reaches only the routes that need one of them. *)
Lemma scoped_key_confined s scopes method path : apiKeyScopeAllows (Some (s :: scopes)) (requiredScopeForRoute method path) = true ->
  exists r, (apiKeyScopeRouteKey method path, r) ∈ API_KEY_SCOPE_REQUIREMENTS /\ r ∈ s :: scopes.
Proof.
  unfold apiKeyScopeAllows, requiredScopeForRoute. destruct (get _ _) as [r|] eqn:E; [|done]. intros H%bool_decide_eq_true.
  exists r. split; [by apply get_elem_of|done].
Qed.

(** * The local store *)

(** [resetAt] is NaN ([None]) when a limit of 0 denies an empty window. *)
Record RateLimitResult := { rl_allowed : bool; rl_limit : Z; rl_remaining : Z; rl_resetAt : option Z }.

Definition RateStore := jsmap (list Z).

Definition consume_local (key : string) (windowMs limit nowMs : Z) (st : RateStore) : RateLimitResult * RateStore :=
  let cutoff := nowMs - windowMs in
  let timestamps := filter (fun t => cutoff < t) (default [] (get key st)) in
  if Z.of_nat (length timestamps) <? limit then
    let timestamps := timestamps ++ [nowMs] in
    ({| rl_allowed := true; rl_limit := limit; rl_remaining := limit - Z.of_nat (length timestamps); rl_resetAt := Some (nowMs + windowMs) |},
     set key timestamps st)
  else
    ({| rl_allowed := false; rl_limit := limit; rl_remaining := 0; rl_resetAt := (fun oldest => oldest + windowMs) <$> head timestamps |},
     set key timestamps st).

Definition prune_local (nowMs windowMs : Z) (st : RateStore) : RateStore :=
  omap (fun '(key, timestamps) =>
    let kept := filter (fun t => nowMs - windowMs < t) timestamps in
    match kept with [] => None | _ => Some (key, kept) end) st.

(** * The limiter *)

Record Limiter := { lm_local : RateStore; lm_redisHealthy : bool }.

(** [redis]: no connection, an answer, or an error. *)
Definition consume_limit (redis : option (outcome string RateLimitResult)) (key : string) (limit windowMs nowMs : Z) (l : Limiter)
    : RateLimitResult * Limiter :=
  match redis with
  | Some (Ok result) => (result, {| lm_local := lm_local l; lm_redisHealthy := true |})
  | _ =>
      let healthy := match redis with Some (Err _) => false | _ => lm_redisHealthy l end in
      let '(result, st) := consume_local key windowMs limit nowMs (lm_local l) in
      (result, {| lm_local := st; lm_redisHealthy := healthy |})
  end.

(** * The guard *)

Definition WINDOW_MS : Z := 60000.

Record ApiKeyRecord := { ak_id : string; ak_keyPrefix : string; ak_tier : ApiKeyTier }.

(** The key the request's credential resolves to, its address, what Redis says. *)
Record ThrottleRequest := { tr_key : option ApiKeyRecord; tr_clientIp : string; tr_redis : option (outcome string RateLimitResult) }.

Record ThrottleAnswer := { ta_admitted : bool; ta_limit : Z; ta_remaining : Z; ta_resetSec : option Z; ta_retryAfter : option Z; ta_usage : option (string * bool) }.

Definition tracker (r : ThrottleRequest) : string :=
  match tr_key r with Some k => ("apiKey:" +:+ ak_keyPrefix k)%string | None => ("ip:" +:+ tr_clientIp r)%string end.
Definition tier_limit (r : ThrottleRequest) : Z :=
  TIER_LIMITS (match tr_key r with Some k => ak_tier k | None => DEFAULT_TIER end).

(** [Math.ceil(x / 1000)] *)
Definition ceil_sec (ms : Z) : Z := - ((- ms) / 1000).

Definition canActivate_throttle (r : ThrottleRequest) (nowMs : Z) (l : Limiter) : ThrottleAnswer * Limiter :=
  let limit := tier_limit r in
  let '(result, l) := consume_limit (tr_redis r) (tracker r) limit WINDOW_MS nowMs l in
  ({| ta_admitted := rl_allowed result; ta_limit := limit; ta_remaining := rl_remaining result;
      ta_resetSec := ceil_sec <$> rl_resetAt result;
      ta_retryAfter := if rl_allowed result then None else (fun at_ => Z.max 1 (ceil_sec (at_ - nowMs))) <$> rl_resetAt result;
      ta_usage := (fun k => (ak_id k, rl_allowed result)) <$> tr_key r |}, l).

(** * What the guard enforces *)

Inductive ThrottleEvent := EvRequest (r : ThrottleRequest) | EvPrune.

Fixpoint throttle_run (evs : list (ThrottleEvent * Z)) (l : Limiter) : list (ThrottleRequest * Z * ThrottleAnswer) :=
  match evs with
  | [] => []
  | (EvRequest r, t) :: evs => let '(a, l') := canActivate_throttle r t l in (r, t, a) :: throttle_run evs l'
  | (EvPrune, t) :: evs => throttle_run evs {| lm_local := prune_local t WINDOW_MS (lm_local l); lm_redisHealthy := lm_redisHealthy l |}
  end.

(** Redis did not answer for the request. *)
Definition fell_back (r : ThrottleRequest) : bool := match tr_redis r with Some (Ok _) => false | _ => true end.

(** When the local limiter let requests of a tracker in. *)
Definition let_in (key : string) (l : list (ThrottleRequest * Z * ThrottleAnswer)) : list Z :=
  omap (fun '(r, t, a) => if fell_back r && bool_decide (tracker r = key) && ta_admitted a then Some t else None) l.

Lemma let_in_app key l l' : let_in key (l ++ l') = let_in key l ++ let_in key l'.
Proof. apply omap_app. Qed.

Lemma window_filter now W (l : list Z) : filter (fun t => now - W < t) l = filter (fun t => now - t < W) l.
Proof. apply list_filter_iff. intros t. lia. Qed.

Definition times (key : string) (st : RateStore) : list Z := default [] (get key st).

Definition limiter_inv (T : Z) (hist : list (ThrottleRequest * Z * ThrottleAnswer)) (st : RateStore) : Prop :=
  wf st /\ forall key t, T <= t -> within t WINDOW_MS (times key st) = within t WINDOW_MS (let_in key hist).

Lemma consume_local_spec key limit now st : let '(res, st') := consume_local key WINDOW_MS limit now st in
  let w := within now WINDOW_MS (times key st) in
  rl_allowed res = bool_decide (Z.of_nat w < limit) /\
  (wf st -> wf st') /\
  (forall key', key' <> key -> times key' st' = times key' st) /\
  (forall t, now <= t -> within t WINDOW_MS (times key st') =
     (within t WINDOW_MS (times key st) + if rl_allowed res && bool_decide (t - now < WINDOW_MS)%Z then 1 else 0)%nat).
Proof.
  unfold consume_local. cbv zeta. rewrite window_filter. fold (times key st).
  change (length (filter (fun t => now - t < WINDOW_MS) (times key st))) with (within now WINDOW_MS (times key st)).
  destruct (Z.ltb_spec (Z.of_nat (within now WINDOW_MS (times key st))) limit) as [Hlt|Hge]; cbn [rl_allowed].
  - rewrite bool_decide_eq_true_2 by done. split_and!; [done|by intros; apply set_wf| |].
    + intros key' Hk. unfold times. by rewrite get_set_ne.
    + intros t Ht. unfold times at 1. rewrite get_set_eq. simpl. rewrite within_snoc, within_pruned by done. by case_bool_decide; case_decide.
  - rewrite bool_decide_eq_false_2 by lia. split_and!; [done|by intros; apply set_wf| |].
    + intros key' Hk. unfold times. by rewrite get_set_ne.
    + intros t Ht. unfold times at 1. rewrite get_set_eq. simpl. rewrite within_pruned by done. lia.
Qed.

Lemma prune_local_wf now W st : wf st -> wf (prune_local now W st).
Proof.
  unfold wf, keys, prune_local. intros H. eapply sublist_NoDup; [exact H|]. clear H. induction st as [|[k l] st IH]; csimpl; [done|].
  destruct (filter _ l); csimpl; by constructor.
Qed.

Lemma prune_local_times now W key st : wf st -> times key (prune_local now W st) = filter (fun t => now - t < W) (times key st).
Proof.
  rewrite <- window_filter. unfold times, wf, keys, prune_local. induction st as [|[k l] st IH]; csimpl; intros Hnd; [done|].
  apply NoDup_cons in Hnd as [Hni Hnd]. specialize (IH Hnd). destruct (filter _ l) as [|x kept] eqn:E; csimpl.
  - case_bool_decide; [subst|done]. simpl. rewrite E, IH.
    destruct (get key st) as [l'|] eqn:E'; [|done]. apply get_elem_of in E'. destruct Hni. apply list_elem_of_fmap. by exists (key, l').
  - case_bool_decide; [simpl; by rewrite E|done].
Qed.

Lemma guard_inv T hist l r now : T <= now -> limiter_inv T hist (lm_local l) ->
  let '(a, l') := canActivate_throttle r now l in
  limiter_inv now (hist ++ [(r, now, a)]) (lm_local l') /\
  (fell_back r = true -> ta_admitted a = bool_decide (Z.of_nat (within now WINDOW_MS (let_in (tracker r) hist)) < tier_limit r)).
Proof.
  intros HT [Hwf Hinv]. unfold canActivate_throttle. cbv zeta. destruct (consume_limit _ _ _ _ _ l) as [res l'] eqn:Hc.
  unfold consume_limit in Hc. destruct (fell_back r) eqn:Hf; cycle 1.
  - assert (Hl : lm_local l' = lm_local l) by (unfold fell_back in Hf; destruct (tr_redis r) as [[]|]; try done; by injection Hc as _ <-).
    split; [|done]. rewrite Hl. split; [done|]. intros key t Ht. rewrite let_in_app, within_app. csimpl. rewrite Hf. simpl.
    rewrite (Hinv key t) by lia. unfold within at 3. simpl. lia.
  - pose proof (consume_local_spec (tracker r) (tier_limit r) now (lm_local l)) as Hs.
    destruct (consume_local (tracker r) WINDOW_MS (tier_limit r) now (lm_local l)) as [res0 st0].
    assert (Hl : res = res0 /\ lm_local l' = st0) by (unfold fell_back in Hf; destruct (tr_redis r) as [[]|]; try done; by injection Hc as <- <-).
    destruct Hl as [-> ->]. destruct Hs as (Ha & Hw & Hne & Heq). simpl. split; [split; [by apply Hw|]|].
    + intros key t Ht. rewrite let_in_app, within_app. csimpl. rewrite Hf. simpl. specialize (Hinv key t ltac:(lia)).
      destruct (decide (tracker r = key)) as [<-|Hk].
      * rewrite bool_decide_eq_true_2 by done. rewrite Heq, Hinv by done. f_equal. simpl.
        destruct (rl_allowed res0); simpl; [|done]. unfold within. rewrite filter_cons, filter_nil.
        destruct (bool_decide_reflect (t - now < WINDOW_MS)) as [Hin|Hin]; destruct (decide (t - now < WINDOW_MS)) as [Hd|Hd]; [done|lia|lia|done].
      * rewrite bool_decide_eq_false_2, Hne by congruence. rewrite Hinv. simpl. unfold within at 3. simpl. lia.
    + intros _. by rewrite Ha, (Hinv _ now) by lia.
Qed.

Lemma throttle_run_exact evs : forall T hist l pre r now a post, limiter_inv T hist (lm_local l) -> Sorted Z.le (T :: evs.*2) ->
  throttle_run evs l = pre ++ (r, now, a) :: post -> fell_back r = true ->
  ta_admitted a = bool_decide (Z.of_nat (within now WINDOW_MS (let_in (tracker r) (hist ++ pre))) < tier_limit r).
Proof.
  induction evs as [|[ev t1] evs IH]; intros T hist l pre r now a post Hinv Hs Heq Hf; [by destruct pre|].
  rewrite fmap_cons in Hs. apply Sorted_inv in Hs as [Hs Hhd]. apply HdRel_inv in Hhd. simpl in Hhd, Hs. destruct ev as [r1|]; cbn [throttle_run] in Heq.
  - pose proof (guard_inv T hist l r1 t1 Hhd Hinv) as Hg. destruct (canActivate_throttle r1 t1 l) as [a1 l1]. destruct Hg as [Hinv1 Ha].
    destruct pre as [|x pre]; simpl in Heq; injection Heq as <-.
    + subst. rewrite app_nil_r. by apply Ha.
    + rewrite (cons_middle _ hist pre), app_assoc. by eapply IH.
  - eapply (IH t1); [|exact Hs|exact Heq|done]. destruct Hinv as [Hwf Hinv]. split; [by apply prune_local_wf|].
    intros key t Ht. simpl. rewrite prune_local_times, within_pruned by done. apply Hinv. lia.
Qed.

(** The fallback limit is exact and never open: over any sequence of requests
    in time order, with the store pruned at any time, a request Redis did not
    answer for is let in if and only if fewer requests of its key or address
    than its tier allows were so let in during the minute before it. *)
Theorem fallback_limit_exact evs pre r now a post (Hs : Sorted Z.le evs.*2)
    (Heq : throttle_run evs {| lm_local := []; lm_redisHealthy := true |} = pre ++ (r, now, a) :: post) (Hf : fell_back r = true) :
  ta_admitted a = true <-> Z.of_nat (within now WINDOW_MS (let_in (tracker r) pre)) < tier_limit r.
Proof.
  rewrite <- (bool_decide_eq_true (Z.of_nat _ < _)). destruct evs as [|e evs]; [by destruct pre|].
  rewrite (throttle_run_exact (e :: evs) e.2 [] {| lm_local := []; lm_redisHealthy := true |} pre r now a post); try done.
  - split; [apply empty_wf|done].
  - by constructor; [|constructor].
Qed.

Definition anonymous (ip : string) : ThrottleRequest := {| tr_key := None; tr_clientIp := ip; tr_redis := Some (Err "down"%string) |}.

(** A hundred requests of one address, pruned on the way, and the next. *)
Definition flood : list (ThrottleEvent * Z) := replicate 100 (EvRequest (anonymous "1.2.3.4"), 5) ++ [(EvPrune, 59000); (EvRequest (anonymous "1.2.3.4"), 60004)].

Lemma fallback_limit_exact_witness :
  let run := throttle_run flood {| lm_local := []; lm_redisHealthy := true |} in
  ((ta_admitted <$> (snd <$> run !! 100%nat)) = Some false) /\
  (false = true <-> Z.of_nat (within 60004 WINDOW_MS (let_in (tracker (anonymous "1.2.3.4")) (take 100 run))) < tier_limit (anonymous "1.2.3.4")).
Proof.
  split; [vm_compute; reflexivity|].
  apply (fallback_limit_exact flood (take 100 (throttle_run flood {| lm_local := []; lm_redisHealthy := true |})) (anonymous "1.2.3.4") 60004
    {| ta_admitted := false; ta_limit := 100; ta_remaining := 0; ta_resetSec := Some 61; ta_retryAfter := Some 1; ta_usage := None |} []).
  - repeat (constructor; try (vm_compute; discriminate)).
  - vm_compute. reflexivity.
  - reflexivity.
Defined.
