(* ===== verification/Feed.v ===== *)
(** The intent feed: [src/intents/feed/intent-feed.service.ts] over the memory
    backplane ([backplane/memory.backplane.ts]) and the ring buffer
    ([event-ring-buffer.ts]), with the SSE adapter's connection
    ([intents-sse.controller.ts]).

    The backplane numbers an event and appends it to the delivery chain; the
    chain handles one event at a time, and awaits the lookup of the event's
    chain between buffering the event and sending it.  Connections, requests
    for quotes and their timers run in between, so a run is a sequence of
    [FeedOp]s.  What clients are sent is recorded in [fd_sent].  Whether a
    client's socket takes a payload, what the intents service finds and whether
    a signature verifies are parameters. *)
From S2P Require Import Prelude JsMap BigInt IntentTypes IntentsRepo Prog Solvers IntentIndex.
Local Open Scope Z_scope.

(** * Events *)

Record RfqQuoteRequest := {
  rq_requestId : string; rq_srcChain : SupportedChain; rq_srcTokenSymbol : string; rq_srcAmount : string;
  rq_dstTokenSymbol : string; rq_srcTokenAddress : option string; rq_dstTokenContract : option string; rq_deadline : Z
}.
Record RfqResponse := {
  rs_solver : string; rs_requestId : string; rs_dstAmount : string; rs_fee : string; rs_expiresAt : Z; rs_signature : string
}.
Record VerifiedRfqQuote := { vq_solver : string; vq_dstAmount : string; vq_fee : string; vq_expiresAt : Z }.

(** The fields of a broadcast the feed looks at. *)
Record FeedEvent := {
  fe_type : string;
  fe_intent : option Intent;
  fe_intentId : option string;
  fe_user : option string;
  fe_state : option string;
  fe_eligible : option (list string);   (* of an rfq_request *)
  fe_response : option RfqResponse;     (* a well-typed rfq_response *)
}.

Definition SequencedEvent : Type := Z * FeedEvent.

(** * The ring buffer *)

Definition REPLAY_BUFFER_SIZE : nat := 500.

Definition ring_push {E} (capacity : nat) (e : Z * E) (buf : list (Z * E)) : list (Z * E) :=
  (if (capacity <=? length buf)%nat then tail buf else buf) ++ [e].
Definition ring_since {E} (fromSeq : Z) (buf : list (Z * E)) : list (Z * E) := filter (fun e => fromSeq < e.1) buf.
Definition ring_oldestSeq {E} (buf : list (Z * E)) : Z := match buf with [] => -1 | e :: _ => e.1 end.
Definition ring_latestSeq (buf : list SequencedEvent) : Z := match last buf with None => 0 | Some e => e.1 end.

Record FeedReplayResult := { fr_events : list SequencedEvent; fr_tooOld : bool; fr_oldestSeq : Z }.

Definition replaySince (fromSeq : Z) (buf : list SequencedEvent) : FeedReplayResult :=
  let oldest := ring_oldestSeq buf in
  if negb (oldest =? -1) && (fromSeq <? oldest - 1) then {| fr_events := []; fr_tooOld := true; fr_oldestSeq := oldest |}
  else {| fr_events := ring_since fromSeq buf; fr_tooOld := false; fr_oldestSeq := oldest |}.

(** * Clients *)

Record SolverMatchPredicate := { sp_solverAddress : string; sp_matches : Intent -> bool }.

Record FeedFilter := {
  ff_chains : option (list SupportedChain); ff_solver : option SolverMatchPredicate; ff_wantAll : bool;
  ff_users : option (list string); ff_states : option (list string)
}.

(** Connected clients, by id, with their address; connections per address. *)
Record Hub := { hb_clients : jsmap (string * FeedFilter); hb_perIp : jsmap Z }.

Inductive FeedAdmission := adm_ok | adm_max_connections | adm_per_ip.

Definition addClient (maxConnections maxPerIp : Z) (id ip : string) (filter : FeedFilter) (h : Hub) : FeedAdmission * Hub :=
  let perIp := default 0 (get ip (hb_perIp h)) in
  if (0 <? maxConnections) && (maxConnections <=? Z.of_nat (length (hb_clients h))) then (adm_max_connections, h)
  else if (0 <? maxPerIp) && (maxPerIp <=? perIp) then (adm_per_ip, h)
  else (adm_ok, {| hb_clients := set id (ip, filter) (hb_clients h); hb_perIp := set ip (perIp + 1) (hb_perIp h) |}).

Definition removeClient (id : string) (h : Hub) : Hub :=
  match get id (hb_clients h) with
  | None => h
  | Some (ip, _) =>
      let remaining := default 1 (get ip (hb_perIp h)) - 1 in
      {| hb_clients := del id (hb_clients h);
         hb_perIp := if 0 <? remaining then set ip remaining (hb_perIp h) else del ip (hb_perIp h) |}
  end.

Definition updateClientFilter (id : string) (f : FeedFilter) (h : Hub) : Hub :=
  match get id (hb_clients h) with
  | None => h
  | Some (ip, _) => {| hb_clients := set id (ip, f) (hb_clients h); hb_perIp := hb_perIp h |}
  end.

(** [updateSolverPredicate], once the solver is read: [None] when the predicate
    cannot be built (its bond is not a number). *)
Definition build_predicate (s : SolverRecord) : option SolverMatchPredicate :=
  _ ← hasBond s;
  Some {| sp_solverAddress := so_address s; sp_matches := fun i => default false (matches_solver s i) |}.

Definition set_predicate (p : SolverMatchPredicate) (f : FeedFilter) : FeedFilter :=
  match ff_solver f with
  | Some q => if bool_decide (sp_solverAddress q = sp_solverAddress p)
              then {| ff_chains := ff_chains f; ff_solver := Some p; ff_wantAll := ff_wantAll f; ff_users := ff_users f; ff_states := ff_states f |}
              else f
  | None => f
  end.
Definition updateSolverPredicate (s : SolverRecord) (h : Hub) : option Hub :=
  p ← build_predicate s;
  Some {| hb_clients := (fun '(id, (ip, f)) => (id, (ip, set_predicate p f))) <$> hb_clients h; hb_perIp := hb_perIp h |}.

(** * Delivery *)

(** Which clients an event is for: the first kind of filter a client has decides. *)
Definition wants (f : FeedFilter) (chain : option SupportedChain) (e : FeedEvent) : bool :=
  if ff_wantAll f then true
  else match ff_solver f with
       | Some p =>
           match fe_intent e with
           | Some i => if bool_decide (fe_type e = "intent_created"%string) then sp_matches p i else true
           | None => true
           end
       | None =>
           match ff_chains f with
           | Some cs => match chain with None => true | Some c => bool_decide (c ∈ cs) end
           | None =>
               match ff_users f with
               | Some us => match fe_user e with Some u => bool_decide (u ∈ us) | None => false end
               | None =>
                   match ff_states f with
                   | Some ss => match fe_state e with Some s => bool_decide (s ∈ ss) | None => false end
                   | None => true
                   end
               end
           end
       end.

Inductive SentKind := sent_live | sent_replay | sent_rfq.
#[export] Instance SentKind_eq_dec : EqDecision SentKind.
Proof. solve_decision. Defined.

(** To whom, how, and the sequence number. *)
Definition Sent : Type := string * SentKind * Z.

(** [sendToClient]: a client that cannot take more is disconnected. *)
Definition sendToClient (accepts : string -> bool) (kind : SentKind) (id : string) (seq : Z) (st : Hub * list Sent) : Hub * list Sent :=
  let '(h, sent) := st in
  (if accepts id then h else removeClient id h, sent ++ [(id, kind, seq)]).

(** [deliverToMatchingClients]: the clients connected when the loop starts. *)
Definition deliverToMatchingClients (accepts : string -> bool) (chain : option SupportedChain) (e : SequencedEvent) (st : Hub * list Sent)
    : Hub * list Sent :=
  foldl (fun st '(id, (_, f)) => if wants f chain e.2 then sendToClient accepts sent_live id e.1 st else st) st (hb_clients st.1).

Definition deliverRfqRequest (accepts : string -> bool) (e : SequencedEvent) (st : Hub * list Sent) : Hub * list Sent :=
  match fe_eligible e.2 with
  | None => st
  | Some eligible =>
      foldl (fun st '(id, (_, f)) =>
        match ff_solver f with
        | Some p => if bool_decide (sp_solverAddress p ∈ eligible) then sendToClient accepts sent_rfq id e.1 st else st
        | None => st
        end) st (hb_clients st.1)
  end.

Definition closing_types : list string :=
  ["intent_accepted"; "intent_filled"; "intent_cancelled"; "intent_expired"; "intent_slashed"]%string.

Definition updateIndexForEvent (e : FeedEvent) (x : IntentCapabilityIndex) : IntentCapabilityIndex :=
  if bool_decide (fe_type e = "intent_created"%string) then match fe_intent e with Some i => addIntent i x | None => x end
  else if bool_decide (fe_type e ∈ closing_types) then
    match fe_intentId e with Some id => if bool_decide (id = ""%string) then x else removeIntent id x | None => x end
  else x.

(** [getEventChain]; [found]: what [intentsService.get] gives for an id, [None]
    also when it fails. *)
Definition getEventChain (found : string -> option Intent) (e : FeedEvent) : option SupportedChain :=
  if bool_decide (fe_type e = "intent_created"%string) then srcChain <$> fe_intent e
  else if bool_decide (fe_type e ∈ closing_types) then
    match fe_intentId e with Some id => if bool_decide (id = ""%string) then None else srcChain <$> found id | None => None end
  else None.

(** * Requests for quotes *)

Record PendingRfq := { pr_request : RfqQuoteRequest; pr_eligible : list string; pr_responses : jsmap VerifiedRfqQuote }.

(** The requests still open, and what was answered. *)
Record Rfqs := { rf_pending : jsmap PendingRfq; rf_resolved : list (PendingRfq * list VerifiedRfqQuote) }.

Definition completeRfq (id : string) (r : Rfqs) : Rfqs :=
  match get id (rf_pending r) with
  | None => r
  | Some p => {| rf_pending := del id (rf_pending r); rf_resolved := rf_resolved r ++ [(p, values (pr_responses p))] |}
  end.

Definition MAX_SAFE_INTEGER : Z := 2 ^ 53 - 1.

(** [/^\d{1,78}$/] *)
Definition quote_digits (s : string) : bool := digits_only s && (Z.of_nat (String.length s) <=? 78).

Section rfq.
(** [verifyStellarSignature] of the solver over the canonical request and quote. *)
Variable signed : RfqQuoteRequest -> RfqResponse -> bool.

Definition quote_ok (p : PendingRfq) (rs : RfqResponse) (nowMs : Z) : bool :=
  (nowMs <? rq_deadline (pr_request p)) && bool_decide (rs_solver rs ∈ pr_eligible p) && negb (has (rs_solver rs) (pr_responses p))
  && quote_digits (rs_dstAmount rs) && quote_digits (rs_fee rs) && (Z.abs (rs_expiresAt rs) <=? MAX_SAFE_INTEGER)
  && negb ((rs_expiresAt rs <=? nowMs / 1000) || (nowMs / 1000 + 60 <? rs_expiresAt rs))
  && match BigInt (rs_dstAmount rs), BigInt (rs_fee rs) with Some dst, Some fee => fee <? dst | _, _ => false end
  && signed (pr_request p) rs.

Definition acceptRfqResponse (rs : RfqResponse) (nowMs : Z) (r : Rfqs) : Rfqs :=
  match get (rs_requestId rs) (rf_pending r) with
  | None => r
  | Some p =>
      if quote_ok p rs nowMs then
        let q := {| vq_solver := rs_solver rs; vq_dstAmount := rs_dstAmount rs; vq_fee := rs_fee rs; vq_expiresAt := rs_expiresAt rs |} in
        {| rf_pending := set (rs_requestId rs) {| pr_request := pr_request p; pr_eligible := pr_eligible p;
             pr_responses := set (rs_solver rs) q (pr_responses p) |} (rf_pending r);
           rf_resolved := rf_resolved r |}
      else r
  end.

(** * The service *)

Record Feed := {
  fd_seq : Z;                             (* the backplane's counter *)
  fd_queue : list SequencedEvent;         (* the delivery chain *)
  fd_current : option SequencedEvent;     (* buffered, its chain being looked up *)
  fd_buffer : list SequencedEvent;
  fd_hub : Hub;
  fd_rfqs : Rfqs;
  fd_index : IntentCapabilityIndex;
  fd_sent : list Sent;
  fd_log : list SequencedEvent;           (* every event that was buffered *)
}.

Definition new_feed : Feed := {| fd_seq := 0; fd_queue := []; fd_current := None; fd_buffer := []; fd_hub := {| hb_clients := []; hb_perIp := [] |};
  fd_rfqs := {| rf_pending := []; rf_resolved := [] |}; fd_index := empty_index; fd_sent := []; fd_log := [] |}.

Definition with_hub (hs : Hub * list Sent) (st : Feed) : Feed :=
  {| fd_seq := fd_seq st; fd_queue := fd_queue st; fd_current := fd_current st; fd_buffer := fd_buffer st; fd_hub := hs.1;
     fd_rfqs := fd_rfqs st; fd_index := fd_index st; fd_sent := hs.2; fd_log := fd_log st |}.
Definition with_rfqs (r : Rfqs) (st : Feed) : Feed :=
  {| fd_seq := fd_seq st; fd_queue := fd_queue st; fd_current := fd_current st; fd_buffer := fd_buffer st; fd_hub := fd_hub st;
     fd_rfqs := r; fd_index := fd_index st; fd_sent := fd_sent st; fd_log := fd_log st |}.
Definition with_chain (q : list SequencedEvent) (c : option SequencedEvent) (st : Feed) : Feed :=
  {| fd_seq := fd_seq st; fd_queue := q; fd_current := c; fd_buffer := fd_buffer st; fd_hub := fd_hub st;
     fd_rfqs := fd_rfqs st; fd_index := fd_index st; fd_sent := fd_sent st; fd_log := fd_log st |}.

(** [backplane.publish] and [enqueueDelivery] *)
Definition publish (e : FeedEvent) (st : Feed) : Feed :=
  let seq := fd_seq st + 1 in
  {| fd_seq := seq; fd_queue := fd_queue st ++ [(seq, e)]; fd_current := fd_current st; fd_buffer := fd_buffer st; fd_hub := fd_hub st;
     fd_rfqs := fd_rfqs st; fd_index := fd_index st; fd_sent := fd_sent st; fd_log := fd_log st |}.

Definition buffer_event (capacity : nat) (e : SequencedEvent) (st : Feed) : Feed :=
  {| fd_seq := fd_seq st; fd_queue := fd_queue st; fd_current := Some e; fd_buffer := ring_push capacity e (fd_buffer st); fd_hub := fd_hub st;
     fd_rfqs := fd_rfqs st; fd_index := updateIndexForEvent e.2 (fd_index st); fd_sent := fd_sent st; fd_log := fd_log st ++ [e] |}.

(** [deliver] up to its await: the next event of the chain. *)
Definition deliver_begin (capacity : nat) (accepts : string -> bool) (nowMs : Z) (st : Feed) : Feed :=
  match fd_current st, fd_queue st with
  | None, e :: q =>
      let st := with_chain q None st in
      if bool_decide (fe_type e.2 = "rfq_request"%string) then with_hub (deliverRfqRequest accepts e (fd_hub st, fd_sent st)) st
      else if bool_decide (fe_type e.2 = "rfq_response"%string) then
        match fe_response e.2 with Some rs => with_rfqs (acceptRfqResponse rs nowMs (fd_rfqs st)) st | None => st end
      else buffer_event capacity e st
  | _, _ => st
  end.

(** [deliver] after its await. *)
Definition deliver_finish (accepts : string -> bool) (found : string -> option Intent) (st : Feed) : Feed :=
  match fd_current st with
  | None => st
  | Some e => with_chain (fd_queue st) None
      (with_hub (deliverToMatchingClients accepts (getEventChain found e.2) e (fd_hub st, fd_sent st)) st)
  end.

(** [requestRfq]; [id] is the generated request id. *)
Definition requestRfq (req : RfqQuoteRequest) (eligibleSolvers : list string) (st : Feed) : Feed :=
  let eligible := uniq eligibleSolvers in
  match eligible with
  | [] => st
  | _ => publish {| fe_type := "rfq_request"; fe_intent := None; fe_intentId := None; fe_user := None; fe_state := None;
                    fe_eligible := Some eligible; fe_response := None |}
           (with_rfqs {| rf_pending := set (rq_requestId req) {| pr_request := req; pr_eligible := eligible; pr_responses := [] |} (rf_pending (fd_rfqs st));
                         rf_resolved := rf_resolved (fd_rfqs st) |} st)
  end.

(** [submitRfqResponse] *)
Definition submitRfqResponse (rs : RfqResponse) (st : Feed) : Feed :=
  publish {| fe_type := "rfq_response"; fe_intent := None; fe_intentId := None; fe_user := None; fe_state := None;
             fe_eligible := None; fe_response := Some rs |} st.

(** The replay loop of the SSE adapter: it stops at the first refusal. *)
Fixpoint send_replay (accepts : Z -> bool) (id : string) (l : list SequencedEvent) : list Sent :=
  match l with
  | [] => []
  | e :: l => (id, sent_replay, e.1) :: if accepts e.1 then send_replay accepts id l else []
  end.

(** [IntentsSseController.stream]: admit, then resume from [Last-Event-ID]. *)
Definition sse_connect (maxConnections maxPerIp : Z) (id ip : string) (f : FeedFilter) (lastEventId : option Z) (accepts : Z -> bool)
    (st : Feed) : FeedAdmission * Feed :=
  let '(adm, h) := addClient maxConnections maxPerIp id ip f (fd_hub st) in
  match adm with
  | adm_ok =>
      let replayed := match lastEventId with
        | None => []
        | Some from => let r := replaySince from (fd_buffer st) in if fr_tooOld r then [] else send_replay accepts id (fr_events r)
        end in
      (adm_ok, with_hub (h, fd_sent st ++ replayed) st)
  | _ => (adm, st)
  end.

Inductive FeedOp :=
  | OpPublish (e : FeedEvent)
  | OpBegin (accepts : string -> bool)
  | OpFinish (accepts : string -> bool) (found : string -> option Intent)
  | OpConnect (id ip : string) (f : FeedFilter) (lastEventId : option Z) (accepts : Z -> bool)
  | OpDisconnect (id : string)
  | OpFilter (id : string) (f : FeedFilter)
  | OpSolver (s : SolverRecord)
  | OpRequest (req : RfqQuoteRequest) (eligible : list string)
  | OpRespond (rs : RfqResponse)
  | OpTimeout (id : string).

Definition feed_step (maxConnections maxPerIp : Z) (st : Feed) (op : FeedOp * Z) : Feed :=
  match op.1 with
  | OpPublish e => publish e st
  | OpBegin accepts => deliver_begin REPLAY_BUFFER_SIZE accepts op.2 st
  | OpFinish accepts found => deliver_finish accepts found st
  | OpConnect id ip f from accepts => (sse_connect maxConnections maxPerIp id ip f from accepts st).2
  | OpDisconnect id => with_hub (removeClient id (fd_hub st), fd_sent st) st
  | OpFilter id f => with_hub (updateClientFilter id f (fd_hub st), fd_sent st) st
  | OpSolver s => match updateSolverPredicate s (fd_hub st) with Some h => with_hub (h, fd_sent st) st | None => st end
  | OpRequest req eligible => requestRfq req eligible st
  | OpRespond rs => submitRfqResponse rs st
  | OpTimeout id => with_rfqs (completeRfq id (fd_rfqs st)) st
  end.
End rfq.
