(* ===== verification/FeedSafety.v ===== *)
(** What the intent feed guarantees: connection limits and their accounting,
    delivery in order, resumption without gaps, and quotes that are verified. *)
From S2P Require Import Prelude JsMap BigInt IntentTypes IntentsRepo Prog Solvers IntentIndex Feed.
Local Open Scope Z_scope.

(** * Connections *)

Definition from_ip (ip : string) (clients : jsmap (string * FeedFilter)) : nat := length (filter (fun c => c.2.1 = ip) clients).

Record hub_ok (maxConnections maxPerIp : Z) (h : Hub) : Prop := {
  ho_clients : wf (hb_clients h);
  ho_perIp : wf (hb_perIp h);
  ho_count : forall ip, default 0 (get ip (hb_perIp h)) = Z.of_nat (from_ip ip (hb_clients h));
  ho_max : 0 < maxConnections -> Z.of_nat (length (hb_clients h)) <= maxConnections;
  ho_ip : 0 < maxPerIp -> forall ip, Z.of_nat (from_ip ip (hb_clients h)) <= maxPerIp;
}.

Lemma from_ip_cons ip id ip' f l : from_ip ip ((id, (ip', f)) :: l) = ((if decide (ip' = ip) then 1 else 0) + from_ip ip l)%nat.
Proof. unfold from_ip, jsmap in *. rewrite filter_cons. simpl. by destruct (decide (ip' = ip)). Qed.

Lemma from_ip_app ip l l' : from_ip ip (l ++ l') = (from_ip ip l + from_ip ip l')%nat.
Proof. unfold from_ip, jsmap in *. by rewrite filter_app, length_app. Qed.

Lemma from_ip_del ip id ip' f (l : jsmap (string * FeedFilter)) : wf l -> get id l = Some (ip', f) ->
  from_ip ip l = ((if decide (ip' = ip) then 1 else 0) + from_ip ip (del id l))%nat /\ length l = S (length (del id l)).
Proof.
  unfold wf, keys. induction l as [|[id1 [ip1 f1]] l IH]; [done|]. rewrite fmap_cons. intros [Hni Hnd]%NoDup_cons. cbn [get del].
  destruct (bool_decide_reflect (id1 = id)) as [->|Hne].
  - intros [= -> ->]. by rewrite from_ip_cons.
  - intros Hget. specialize (IH Hnd Hget) as [IH IHl]. rewrite !from_ip_cons, IH. simpl. split; [lia|by rewrite IHl].
Qed.

Lemma addClient_ok mc mi id ip f h : hub_ok mc mi h -> get id (hb_clients h) = None -> hub_ok mc mi (addClient mc mi id ip f h).2.
Proof.
  intros Hok Hnew. unfold addClient. cbv zeta.
  destruct ((0 <? mc) && _) eqn:Hm; [done|]. destruct ((0 <? mi) && _) eqn:Hi; [done|]. destruct Hok as [H1 H2 H3 H4 H5].
  rewrite andb_false_iff, Z.ltb_ge, Z.leb_gt in Hm, Hi. rewrite (H3 ip) in Hi.
  assert (Hf : forall ip', from_ip ip' (set id (ip, f) (hb_clients h)) = (from_ip ip' (hb_clients h) + if decide (ip = ip') then 1 else 0)%nat).
  { intros ip'. rewrite (set_absent id _ _ Hnew), from_ip_app, from_ip_cons. change (from_ip ip' []) with 0%nat. lia. }
  constructor; simpl; [by apply set_wf|by apply set_wf|..].
  - intros ip'. rewrite get_set, Hf, !H3. case_decide; simpl; [subst; lia|rewrite H3; lia].
  - rewrite (set_absent id _ _ Hnew), length_app. simpl. lia.
  - intros Hm' ip'. rewrite Hf. specialize (H5 Hm' ip'). case_decide; [subst; lia|lia].
Qed.

Lemma removeClient_ok mc mi id h : hub_ok mc mi h -> hub_ok mc mi (removeClient id h).
Proof.
  intros [H1 H2 H3 H4 H5]. unfold removeClient. destruct (get id (hb_clients h)) as [[ip f]|] eqn:Hget; [|done]. cbv zeta.
  assert (Hd : forall ip', from_ip ip' (hb_clients h) = ((if decide (ip = ip') then 1 else 0) + from_ip ip' (del id (hb_clients h)))%nat).
  { intros ip'. by apply (from_ip_del ip' id ip f). }
  destruct (from_ip_del ip id ip f _ H1 Hget) as [_ Hlen].
  pose proof (H3 ip) as Hip. rewrite (Hd ip), decide_True in Hip by done.
  assert (Hval : default 1 (get ip (hb_perIp h)) - 1 = Z.of_nat (from_ip ip (del id (hb_clients h)))).
  { destruct (get ip (hb_perIp h)); simpl in *; lia. }
  constructor; simpl.
  - by apply del_wf.
  - case_match; [by apply set_wf|by apply del_wf].
  - intros ip'. specialize (H3 ip'). specialize (Hd ip'). rewrite Hval.
    destruct (Z.ltb_spec 0 (Z.of_nat (from_ip ip (del id (hb_clients h))))).
    + rewrite get_set. case_decide; [by subst|]. simpl in *. lia.
    + destruct (decide (ip = ip')) as [<-|Hne]; [rewrite get_del_eq by done; simpl; lia|]. rewrite get_del_ne by done. simpl in *. lia.
  - intros Hm. specialize (H4 Hm). lia.
  - intros Hm ip'. specialize (H5 Hm ip'). specialize (Hd ip'). lia.
Qed.

Lemma map_clients_ok mc mi (g : string -> FeedFilter -> FeedFilter) h : hub_ok mc mi h ->
  hub_ok mc mi {| hb_clients := (fun '(id, (ip, f)) => (id, (ip, g id f))) <$> hb_clients h; hb_perIp := hb_perIp h |}.
Proof.
  intros [H1 H2 H3 H4 H5].
  assert (Hk : keys ((fun '(id, (ip, f)) => (id, (ip, g id f))) <$> hb_clients h) = keys (hb_clients h)).
  { unfold keys, jsmap in *. rewrite <- list_fmap_compose. apply list_fmap_ext. by intros i [id [ip f]]. }
  assert (Hi : forall ip, from_ip ip ((fun '(id, (ip, f)) => (id, (ip, g id f))) <$> hb_clients h) = from_ip ip (hb_clients h)).
  { intros ip. clear. unfold jsmap in *. induction (hb_clients h) as [|[id [ip1 f]] l IH]; [done|]. rewrite fmap_cons, !from_ip_cons. by rewrite IH. }
  constructor; simpl; [unfold wf; by rewrite Hk|done| | |].
  - intros ip. rewrite Hi. apply H3.
  - unfold jsmap in *. by rewrite length_fmap.
  - intros Hm ip. rewrite Hi. by apply H5.
Qed.

Lemma set_present_fmap {V} (k : string) (v : V) m v0 : wf m -> get k m = Some v0 ->
  set k v m = (fun '(k', v') => (k', if decide (k' = k) then v else v')) <$> m.
Proof.
  unfold wf, keys. induction m as [|[k1 v1] m IH]; [done|]. rewrite fmap_cons. intros [Hni Hnd]%NoDup_cons. cbn [get set].
  rewrite fmap_cons. destruct (bool_decide_reflect (k1 = k)) as [->|Hne].
  - intros _. rewrite decide_True by done. f_equal. clear IH Hnd. induction m as [|[k2 v2] m IH]; [done|]. rewrite fmap_cons in *.
    apply not_elem_of_cons in Hni as [Hne Hni]. rewrite decide_False by (simpl in Hne; congruence). f_equal. by apply IH.
  - intros Hget. rewrite decide_False by done. f_equal. by apply IH.
Qed.

Lemma updateFilter_ok mc mi id f h : hub_ok mc mi h -> hub_ok mc mi (updateClientFilter id f h).
Proof.
  intros Hok. unfold updateClientFilter. destruct (get id (hb_clients h)) as [[ip f0]|] eqn:Hget; [|done].
  rewrite (set_present_fmap id (ip, f) _ (ip, f0)); [|by apply Hok|done].
  replace ((fun '(k', v') => (k', if decide (k' = id) then (ip, f) else v')) <$> hb_clients h)
    with ((fun '(k', (ip', f')) => (k', (ip', if decide (k' = id) then f else f'))) <$> hb_clients h);
    [by apply (map_clients_ok mc mi (fun k' f' => if decide (k' = id) then f else f'))|].
  apply list_fmap_ext. intros i [k' [ip' f']] Hi. destruct (decide (k' = id)) as [->|]; [|done].
  assert (Hg : get id (hb_clients h) = Some (ip', f')) by (apply elem_of_get; [by apply Hok|by eapply list_elem_of_lookup_2]).
  by rewrite Hget in Hg; injection Hg as -> ->.
Qed.

Lemma updatePredicate_ok mc mi s h h' : hub_ok mc mi h -> updateSolverPredicate s h = Some h' -> hub_ok mc mi h'.
Proof.
  intros Hok. unfold updateSolverPredicate. destruct (build_predicate s) as [p|]; [|done]. intros [= <-].
  by apply (map_clients_ok mc mi (fun _ f => set_predicate p f)).
Qed.

(** * Sending *)

Definition targets (test : FeedFilter -> bool) (l : jsmap (string * FeedFilter)) : list string :=
  (fun c => c.1) <$> filter (fun c => test c.2.2 = true) (l : list (string * (string * FeedFilter))).

Definition drop_all (ids : list string) (h : Hub) : Hub := foldl (fun h (id : string) => removeClient id h) h ids.

(** A round of sends: one payload to each target, and out with those that
    cannot take it. *)
Lemma send_round (accepts : string -> bool) (kind : SentKind) (seq : Z) (test : FeedFilter -> bool) (l : jsmap (string * FeedFilter)) : forall (h : Hub) (sent : list Sent),
  foldl (fun st '(id, (_, f)) => if test f then sendToClient accepts kind id seq st else st) (h, sent) l
  = (drop_all (filter (fun id => accepts id = false) (targets test l)) h, sent ++ ((fun id => (id, kind, seq)) <$> targets test l)).
Proof.
  unfold targets, jsmap in *. induction l as [|[id [ip f]] l IH]; intros h sent; cbn [foldl]; [by rewrite app_nil_r|].
  rewrite (filter_cons _ (id, (ip, f))). cbn [snd]. destruct (test f) eqn:Ht.
  - rewrite decide_True by done. rewrite !fmap_cons, (filter_cons _ id). cbn [fst sendToClient]. rewrite IH, <- app_assoc.
    destruct (accepts id) eqn:Ha; [by rewrite decide_False by congruence|by rewrite decide_True by done].
  - rewrite decide_False by congruence. apply IH.
Qed.

Lemma deliver_round (accepts : string -> bool) chain e h sent :
  deliverToMatchingClients accepts chain e (h, sent) =
  let ids := targets (fun f => wants f chain e.2) (hb_clients h) in
  (drop_all (filter (fun id => accepts id = false) ids) h, sent ++ ((fun id => (id, sent_live, e.1)) <$> ids)).
Proof. apply send_round. Qed.

Definition invited (eligible : list string) (f : FeedFilter) : bool :=
  match ff_solver f with Some p => bool_decide (sp_solverAddress p ∈ eligible) | None => false end.

Lemma foldl_ext_in {A B} (f g : A -> B -> A) l : (forall a b, f a b = g a b) -> forall a, foldl f a l = foldl g a l.
Proof. intros H. induction l as [|b l IH]; intros a; simpl; [done|]. by rewrite H. Qed.

Lemma rfq_round (accepts : string -> bool) e h sent :
  deliverRfqRequest accepts e (h, sent) =
  let ids := match fe_eligible e.2 with Some el => targets (invited el) (hb_clients h) | None => [] end in
  (drop_all (filter (fun id => accepts id = false) ids) h, sent ++ ((fun id => (id, sent_rfq, e.1)) <$> ids)).
Proof.
  unfold deliverRfqRequest. destruct (fe_eligible e.2) as [el|]; [|simpl; by rewrite app_nil_r]. cbv zeta. rewrite <- send_round.
  apply foldl_ext_in. intros [h' s'] [id [ip f]]. unfold invited. by destruct (ff_solver f).
Qed.

Lemma drop_all_ok mc mi ids : forall h, hub_ok mc mi h -> hub_ok mc mi (drop_all ids h).
Proof. unfold drop_all. induction ids as [|id ids IH]; intros h Hok; simpl; [done|]. by apply IH, removeClient_ok. Qed.

Lemma drop_all_get ids id : forall h, wf (hb_clients h) ->
  wf (hb_clients (drop_all ids h)) /\ get id (hb_clients (drop_all ids h)) = if decide (id ∈ ids) then None else get id (hb_clients h).
Proof.
  unfold drop_all. induction ids as [|i ids IH]; intros h Hwf; [done|]. cbn [foldl].
  assert (Hwf' : wf (hb_clients (removeClient i h))) by (unfold removeClient; destruct (get i _) as [[ip f]|]; [by apply del_wf|done]).
  destruct (IH _ Hwf') as [H1 H2]. split; [done|]. rewrite H2. unfold removeClient.
  destruct (decide (i = id)) as [->|Hne].
  - rewrite (decide_True (P := id ∈ id :: ids)) by set_solver. destruct (get id (hb_clients h)) as [[ip f]|] eqn:E; simpl.
    + rewrite get_del_eq by done. by case_decide.
    + by case_decide.
  - destruct (decide (id ∈ ids)); [by rewrite decide_True by set_solver|]. rewrite decide_False by set_solver.
    destruct (get i (hb_clients h)) as [[ip f]|]; simpl; [by rewrite get_del_ne|done].
Qed.

Lemma elem_of_targets test l id : wf l -> id ∈ targets test l <-> exists ip f, get id l = Some (ip, f) /\ test f = true.
Proof.
  intros Hwf. unfold targets. rewrite list_elem_of_fmap. split.
  - intros ([i [ip f]] & -> & [Ht Hin]%list_elem_of_filter). exists ip, f. split; [by apply elem_of_get|done].
  - intros (ip & f & Hget & Ht). exists (id, (ip, f)). split; [done|]. apply list_elem_of_filter. split; [done|by apply get_elem_of].
Qed.

Lemma targets_NoDup test l : wf l -> NoDup (targets test l).
Proof. intros Hwf. eapply sublist_NoDup; [exact Hwf|]. unfold targets, keys. apply fmap_sublist, sublist_filter. Qed.

(** * The stream *)

Definition live (id : string) (sent : list Sent) : list Z :=
  omap (fun '(i, k, s) => if bool_decide (i = id /\ k = sent_live) then Some s else None) sent.

Lemma live_app id l l' : live id (l ++ l') = live id l ++ live id l'.
Proof. apply omap_app. Qed.

Lemma live_other id kind s (ids : list string) : kind <> sent_live -> live id ((fun i => (i, kind, s)) <$> ids) = [].
Proof. intros Hk. induction ids as [|i ids IH]; [done|]. rewrite fmap_cons. simpl. rewrite bool_decide_eq_false_2 by naive_solver. exact IH. Qed.

Lemma live_round id s ids : NoDup ids -> live id ((fun i => (i, sent_live, s)) <$> ids) = if decide (id ∈ ids) then [s] else [].
Proof.
  induction 1 as [|i ids Hni Hnd IH]; [done|]. rewrite fmap_cons. simpl. destruct (decide (i = id)) as [->|Hne].
  - rewrite bool_decide_eq_true_2, decide_True by set_solver. rewrite IH, decide_False by done. done.
  - rewrite bool_decide_eq_false_2 by naive_solver. rewrite IH. destruct (decide (id ∈ ids)); [by rewrite decide_True by set_solver|by rewrite decide_False by set_solver].
Qed.

Lemma live_replay id i accepts l : live id (send_replay accepts i l) = [].
Proof.
  induction l as [|e l IH]; [done|]. simpl. rewrite bool_decide_eq_false_2 by naive_solver. by case_match.
Qed.

Record stream_ok (st : Feed) : Prop := {
  so_wf : wf (hb_clients (fd_hub st));
  so_seq : 0 <= fd_seq st;
  so_sorted : StronglySorted Z.lt (fst <$> (fd_log st ++ fd_queue st));
  so_bound : Forall (fun s => 0 < s <= fd_seq st) (fst <$> (fd_log st ++ fd_queue st));
  so_buffer : fd_buffer st = drop (length (fd_log st) - REPLAY_BUFFER_SIZE) (fd_log st);
  so_live : exists done, fd_log st = done ++ option_list (fd_current st) /\ forall id, live id (fd_sent st) `sublist_of` (fst <$> done);
}.

Lemma sorted_snoc (l : list Z) b x : StronglySorted Z.lt l -> Forall (fun s => 0 < s <= b) l -> b < x -> StronglySorted Z.lt (l ++ [x]).
Proof.
  induction 1 as [|a l Hs IH Hf]; intros Hb Hx; simpl; [repeat constructor|]. apply Forall_cons in Hb as [Ha Hb].
  constructor; [by apply IH|]. apply Forall_app. split; [done|]. repeat constructor. lia.
Qed.

Lemma publish_ok e st : stream_ok st -> stream_ok (publish e st).
Proof.
  intros [H1 H0 H2 H3 H4 H5]. constructor; cbn [publish fd_hub fd_log fd_queue fd_seq fd_buffer fd_current fd_sent]; [done|lia|..|done|done].
  - rewrite app_assoc, fmap_app. eapply sorted_snoc; [done|done|simpl; lia].
  - rewrite app_assoc, fmap_app. apply Forall_app. split.
    + eapply Forall_impl; [exact H3|]. simpl. lia.
    + repeat constructor; simpl; lia.
Qed.

(** Changes of clients and sends that are not live. *)
Lemma quiet_ok st h sent : stream_ok st -> wf (hb_clients h) -> (forall id, live id sent = live id (fd_sent st)) ->
  stream_ok (with_hub (h, sent) st).
Proof.
  intros [H1 H0 H2 H3 H4 (done & Hd & Hl)] Hwf Hsent. constructor; cbn [with_hub fd_hub fd_log fd_queue fd_seq fd_buffer fd_current fd_sent fst snd]; try done.
  exists done. split; [done|]. intros id. rewrite Hsent. apply Hl.
Qed.

Lemma ring_push_suffix {E} cap (e : Z * E) l : (0 < cap)%nat -> ring_push cap e (drop (length l - cap) l) = drop (length (l ++ [e]) - cap) (l ++ [e]).
Proof.
  intros Hcap. unfold ring_push. rewrite length_drop, length_app. simpl.
  destruct (Nat.leb_spec cap (length l - (length l - cap))) as [Hge|Hlt].
  - rewrite drop_app_le by lia. f_equal. replace (length l + 1 - cap)%nat with (S (length l - cap)) by lia.
    generalize (length l - cap)%nat. clear. intros n. revert n. induction l as [|x l IH]; intros [|n]; simpl; try done; by destruct l.
  - replace (length l - cap)%nat with 0%nat by lia. replace (length l + 1 - cap)%nat with 0%nat by lia. done.
Qed.

Lemma with_chain_ok st : stream_ok st -> stream_ok (with_chain (fd_queue st) (fd_current st) st).
Proof. by intros [H1 H0 H2 H3 H4 H5]. Qed.

Lemma queue_tail_ok st e q : stream_ok st -> fd_queue st = e :: q -> stream_ok (with_chain q (fd_current st) st).
Proof.
  intros [H1 H0 H2 H3 H4 H5] Hq. constructor; cbn [with_chain fd_hub fd_log fd_queue fd_seq fd_buffer fd_current fd_sent]; try done.
  - rewrite Hq, fmap_app, fmap_cons in H2. rewrite fmap_app. clear -H2. induction (fst <$> fd_log st) as [|x l IH]; simpl in *.
    + by apply StronglySorted_inv in H2 as [H2 _].
    + apply StronglySorted_inv in H2 as [H2 Hf]. constructor; [by apply IH|]. apply Forall_app in Hf as [Hf1 Hf2]. apply Forall_cons in Hf2 as [_ Hf2].
      by apply Forall_app.
  - rewrite Hq, fmap_app, fmap_cons in H3. rewrite fmap_app. apply Forall_app in H3 as [Hf1 Hf2]. apply Forall_cons in Hf2 as [_ Hf2]. by apply Forall_app.
Qed.

Lemma buffer_ok st e q : stream_ok st -> fd_queue st = e :: q -> fd_current st = None ->
  stream_ok (buffer_event REPLAY_BUFFER_SIZE e (with_chain q None st)).
Proof.
  intros [H1 H0 H2 H3 H4 (done & Hd & Hl)] Hq Hc. rewrite Hc in Hd. simpl in Hd. rewrite app_nil_r in Hd.
  constructor; cbn [buffer_event with_chain fd_hub fd_log fd_queue fd_seq fd_buffer fd_current fd_sent]; [done|done|..].
  - rewrite <- app_assoc. simpl. by rewrite Hq in H2.
  - rewrite <- app_assoc. simpl. by rewrite Hq in H3.
  - rewrite H4. apply ring_push_suffix. unfold REPLAY_BUFFER_SIZE. lia.
  - exists done. by rewrite Hd.
Qed.

Lemma round_quiet st kind ids (accepts : string -> bool) s : stream_ok st -> kind <> sent_live ->
  stream_ok (with_hub (drop_all (filter (fun id => accepts id = false) ids) (fd_hub st), fd_sent st ++ ((fun id => (id, kind, s)) <$> ids)) st).
Proof.
  intros Hok Hk. apply quiet_ok; [done|by apply (drop_all_get _ ""), Hok|]. intros id. rewrite live_app, live_other by done. apply app_nil_r.
Qed.

Lemma begin_ok signed accepts now st : stream_ok st -> stream_ok (deliver_begin signed REPLAY_BUFFER_SIZE accepts now st).
Proof.
  intros Hok. unfold deliver_begin. destruct (fd_current st) as [c|] eqn:Hc; [done|]. destruct (fd_queue st) as [|e q] eqn:Hq; [done|].
  pose proof (queue_tail_ok st e q Hok Hq) as Hok'. rewrite Hc in Hok'. cbv zeta. case_bool_decide.
  - rewrite rfq_round. cbv zeta. by apply (round_quiet (with_chain q None st)).
  - case_bool_decide; [|by apply buffer_ok]. destruct (fe_response e.2) as [rs|]; [|done]. by destruct Hok'.
Qed.

Lemma finish_ok accepts found st : stream_ok st -> stream_ok (deliver_finish accepts found st).
Proof.
  intros [H1 H0 H2 H3 H4 (done & Hd & Hl)]. unfold deliver_finish. destruct (fd_current st) as [e|] eqn:Hc; [|by constructor; [..|exists done; rewrite Hc]].
  rewrite deliver_round. cbv zeta. constructor; cbn [with_chain with_hub fd_hub fd_log fd_queue fd_seq fd_buffer fd_current fd_sent fst snd]; try done.
  - by apply (drop_all_get _ "").
  - exists (done ++ [e]). split; [by rewrite Hd, app_nil_r|]. intros id. rewrite live_app, live_round by (by apply targets_NoDup).
    rewrite fmap_app. case_decide; [by apply sublist_app|]. rewrite app_nil_r. by apply sublist_inserts_r.
Qed.

Lemma addClient_admitted mc mi id ip f h h' : addClient mc mi id ip f h = (adm_ok, h') ->
  h' = {| hb_clients := set id (ip, f) (hb_clients h); hb_perIp := set ip (default 0 (get ip (hb_perIp h)) + 1) (hb_perIp h) |}.
Proof. unfold addClient. cbv zeta. destruct (_ && _); [done|]. destruct (_ && _); [done|]. by intros [= <-]. Qed.

Lemma addClient_wf mc mi id ip f h h' : wf (hb_clients h) -> addClient mc mi id ip f h = (adm_ok, h') -> wf (hb_clients h').
Proof. intros Hwf ->%addClient_admitted. by apply set_wf. Qed.

Lemma step_stream signed mc mi st op : stream_ok st -> stream_ok (feed_step signed mc mi st op).
Proof.
  intros Hok. destruct op as [[e|accepts|accepts found|id ip f from accepts|id|id f|s|req el|rs|id] now]; unfold feed_step; cbn [fst snd].
  - by apply publish_ok.
  - by apply begin_ok.
  - by apply finish_ok.
  - unfold sse_connect. destruct (addClient mc mi id ip f (fd_hub st)) as [adm h] eqn:Ha. destruct adm; cbn [snd]; [|exact Hok|exact Hok].
    apply quiet_ok; [done|by eapply addClient_wf; [apply Hok|exact Ha]|]. intros id'. rewrite live_app. destruct from as [from|]; [|apply app_nil_r]. case_match; [apply app_nil_r|]. rewrite live_replay. apply app_nil_r.
  - apply quiet_ok; [done| |done]. apply (drop_all_get [id] ""), Hok.
  - apply quiet_ok; [done| |done]. unfold updateClientFilter. destruct (get id _) as [[ip f0]|]; [apply set_wf, Hok|apply Hok].
  - destruct (updateSolverPredicate s (fd_hub st)) as [h|] eqn:Hu; [|done]. apply quiet_ok; [done| |done].
    unfold updateSolverPredicate in Hu. destruct (build_predicate s) as [p|]; [|done]. injection Hu as <-. unfold wf, keys. simpl.
    unfold jsmap in *. rewrite <- list_fmap_compose. erewrite list_fmap_ext; [apply (so_wf st Hok)|]. by intros i [id [ip f]].
  - unfold requestRfq. cbv zeta. case_match; [done|]. apply publish_ok. by destruct Hok.
  - by apply publish_ok.
  - by destruct Hok.
Qed.

Lemma new_feed_ok : stream_ok new_feed.
Proof. constructor; simpl; try constructor; try done. exists []. split; [done|]. intros id. constructor. Qed.

Lemma run_stream signed mc mi ops : stream_ok (foldl (feed_step signed mc mi) new_feed ops).
Proof.
  pose proof new_feed_ok as Hok. revert Hok. generalize new_feed. induction ops as [|op ops IH]; intros st Hok; simpl; [done|].
  by apply IH, step_stream.
Qed.

Lemma sublist_sorted (l l' : list Z) : l `sublist_of` l' -> StronglySorted Z.lt l' -> StronglySorted Z.lt l.
Proof.
  induction 1 as [|x l l' Hs IH|x l l' Hs IH]; intros H; [constructor|..]; apply StronglySorted_inv in H as [H Hf]; [|by apply IH].
  constructor; [by apply IH|]. rewrite Forall_forall in *. intros y Hy. apply Hf. by eapply sublist_subseteq.
Qed.

(** Every client sees the feed in order: in any run - connections, quotes and
    filters changing at any time, also while an event is between the buffer and
    its delivery - what a client is sent live is a subsequence of the numbered
    feed, in increasing order, and no event is sent live twice. *)
Theorem feed_in_order signed mc mi ops id :
  let st := foldl (feed_step signed mc mi) new_feed ops in
  live id (fd_sent st) `sublist_of` (fst <$> fd_log st) /\ StronglySorted Z.lt (live id (fd_sent st)).
Proof.
  intros st. destruct (run_stream signed mc mi ops) as [_ _ Hs _ _ (done & Hd & Hl)]. fold st in Hs, Hd, Hl.
  assert (Hsub : live id (fd_sent st) `sublist_of` (fst <$> fd_log st)).
  { rewrite Hd, fmap_app. apply sublist_inserts_r, Hl. }
  split; [done|]. eapply sublist_sorted; [exact Hsub|]. rewrite fmap_app in Hs. clear -Hs.
  induction (fst <$> fd_log st) as [|x l IH]; [constructor|]. apply StronglySorted_inv in Hs as [Hs Hf]. constructor; [by apply IH|].
  by apply Forall_app in Hf as [Hf _].
Qed.

(** * Resumption *)

Lemma sorted_app_lt (l1 l2 : list Z) x y : StronglySorted Z.lt (l1 ++ l2) -> x ∈ l1 -> y ∈ l2 -> x < y.
Proof.
  induction l1 as [|a l1 IH]; simpl; intros Hs Hx Hy; [by apply not_elem_of_nil in Hx|]. apply StronglySorted_inv in Hs as [Hs Hf].
  apply elem_of_cons in Hx as [->|Hx]; [|by apply IH]. rewrite Forall_forall in Hf. apply Hf, elem_of_app. by right.
Qed.

Lemma replay_from_log st from : stream_ok st -> fr_tooOld (replaySince from (fd_buffer st)) = false ->
  fr_events (replaySince from (fd_buffer st)) = filter (fun e => from < e.1) (fd_log st).
Proof.
  intros [_ _ Hs Hb Hbuf _] Hr. unfold replaySince in *. cbv zeta in *.
  assert (Hsplit : fd_log st = take (length (fd_log st) - REPLAY_BUFFER_SIZE) (fd_log st) ++ fd_buffer st) by (by rewrite Hbuf, take_drop).
  destruct (fd_buffer st) as [|e buf] eqn:E.
  - assert (length (fd_log st) = 0)%nat.
    { assert (length (drop (length (fd_log st) - REPLAY_BUFFER_SIZE) (fd_log st)) = 0%nat) by (by rewrite <- Hbuf).
      rewrite length_drop in *. unfold REPLAY_BUFFER_SIZE in *. lia. }
    destruct (fd_log st); [done|done].
  - simpl in *. rewrite fmap_app, Hsplit in Hb, Hs. rewrite !fmap_app in Hb, Hs. apply Forall_app in Hb as [Hb _]. apply Forall_app in Hb as [_ Hb].
    rewrite fmap_cons in Hb. apply Forall_cons in Hb as [Hb _]. destruct (Z.eqb_spec e.1 (-1)) as [|_]; [lia|]. simpl in Hr.
    destruct (Z.ltb_spec from (e.1 - 1)) as [|Hge]; [done|]. simpl. rewrite Hsplit at 1. unfold ring_since. rewrite (filter_app _ (take _ _)).
    rewrite (filter_none (fun e0 : SequencedEvent => from < e0.1) (take _ (fd_log st))); [done|]. intros x Hx Hlt.
    rewrite <- app_assoc in Hs. assert (x.1 < e.1); [|lia]. eapply sorted_app_lt; [exact Hs|by apply list_elem_of_fmap_2|]. rewrite fmap_cons. set_solver.
Qed.

(** The replay is complete: in every state the feed can reach, unless it tells
    the client to start over, it returns exactly the events of the feed with a
    higher number, however many were buffered and evicted since. *)
Theorem replay_complete signed mc mi ops from :
  let st := foldl (feed_step signed mc mi) new_feed ops in
  let r := replaySince from (fd_buffer st) in
  if fr_tooOld r then fr_events r = [] /\ from < fr_oldestSeq r - 1
  else fr_events r = filter (fun e => from < e.1) (fd_log st).
Proof.
  intros st r. pose proof (run_stream signed mc mi ops) as Hok. fold st in Hok. destruct (fr_tooOld r) eqn:E; [|by apply replay_from_log].
  unfold r, replaySince in *. cbv zeta in *. destruct (_ && _) eqn:Hb; [|done]. apply andb_prop in Hb as [_ Hb%Z.ltb_lt]. done.
Qed.

Definition unfiltered (f : FeedFilter) : Prop :=
  ff_solver f = None /\ ff_chains f = None /\ ff_users f = None /\ ff_states f = None.

Lemma unfiltered_wants f chain e : unfiltered f -> wants f chain e = true.
Proof. intros (H1 & H2 & H3 & H4). unfold wants. rewrite H1, H2, H3, H4. by destruct (ff_wantAll f). Qed.

Definition got (id : string) (e : SequencedEvent) (sent : list Sent) : Prop := (id, sent_live, e.1) ∈ sent \/ (id, sent_replay, e.1) ∈ sent.

Lemma got_app id e sent l : got id e sent -> got id e (sent ++ l).
Proof. unfold got. set_solver. Qed.

(** As long as the client is connected, it has got everything past [L] but the
    event in flight. *)
Definition caught_up (L : Z) (id : string) (st : Feed) : Prop :=
  forall ip f, get id (hb_clients (fd_hub st)) = Some (ip, f) ->
    unfiltered f /\ forall e, e ∈ fd_log st -> L < e.1 -> got id e (fd_sent st) \/ fd_current st = Some e.

(** The client leaves this connection and its filter alone. *)
Definition keeps (id : string) (op : FeedOp) : Prop :=
  match op with OpConnect i _ _ _ _ => i <> id | OpFilter i _ => i <> id | _ => True end.

(** A step that only moves clients out and appends sends. *)
Lemma caught_up_sends L id st h extra : caught_up L id st ->
  (forall x, get id (hb_clients h) = Some x -> get id (hb_clients (fd_hub st)) = Some x) -> caught_up L id (with_hub (h, fd_sent st ++ extra) st).
Proof.
  intros H Hget ip f Hf. simpl in *. destruct (H ip f (Hget _ Hf)) as [Hu Hall]. split; [done|]. intros e He Hlt.
  destruct (Hall e He Hlt) as [Hg|Hg]; [left; by apply got_app|by right].
Qed.

Lemma drop_all_sub ids id h x : wf (hb_clients h) -> get id (hb_clients (drop_all ids h)) = Some x -> get id (hb_clients h) = Some x.
Proof. intros Hwf. rewrite (proj2 (drop_all_get ids id h Hwf)). by case_decide. Qed.

Lemma finish_caught_up L id accepts found st : stream_ok st -> caught_up L id st -> caught_up L id (deliver_finish accepts found st).
Proof.
  intros Hok H. unfold deliver_finish. destruct (fd_current st) as [c|] eqn:Hc; [|done]. rewrite deliver_round. cbv zeta. intros ip f Hf. simpl in *.
  apply drop_all_sub in Hf; [|apply Hok]. destruct (H ip f Hf) as [Hu Hall]. split; [done|]. intros e He Hlt. left.
  destruct (Hall e He Hlt) as [Hg|Hg]; [by apply got_app|]. rewrite Hc in Hg. injection Hg as <-. left. apply elem_of_app. right.
  apply list_elem_of_fmap. exists id. split; [done|]. apply elem_of_targets; [apply Hok|]. exists ip, f. split; [done|by apply unfiltered_wants].
Qed.

Lemma begin_caught_up L id signed accepts now st : stream_ok st -> caught_up L id st ->
  caught_up L id (deliver_begin signed REPLAY_BUFFER_SIZE accepts now st).
Proof.
  intros Hok H. unfold deliver_begin. destruct (fd_current st) as [c|] eqn:Hc; [done|]. destruct (fd_queue st) as [|e q] eqn:Hq; [done|]. cbv zeta.
  assert (H' : caught_up L id (with_chain q None st)).
  { intros ip f Hf. destruct (H ip f Hf) as [Hu Hall]. split; [done|]. intros e' He' Hlt. destruct (Hall e' He' Hlt) as [Hg|Hg]; [by left|congruence]. }
  case_bool_decide; [|case_bool_decide].
  - rewrite rfq_round. cbv zeta. apply (caught_up_sends L id (with_chain q None st)); [done|]. intros x. by apply drop_all_sub, Hok.
  - by destruct (fe_response e.2).
  - intros ip f Hf. simpl in *. destruct (H ip f Hf) as [Hu Hall]. split; [done|].
    intros e' [He'|He'%list_elem_of_singleton]%elem_of_app Hlt; [|right; by subst]. destruct (Hall e' He' Hlt) as [Hg|Hg]; [by left|congruence].
Qed.

Lemma step_caught_up L id signed mc mi st op : keeps id op.1 -> stream_ok st -> caught_up L id st -> caught_up L id (feed_step signed mc mi st op).
Proof.
  intros Hk Hok H. destruct op as [[e|accepts|accepts found|i ip f from accepts|i|i f|s|req el|rs|i] now]; unfold feed_step; cbn [fst snd] in *.
  - exact H.
  - by apply begin_caught_up.
  - by apply finish_caught_up.
  - unfold sse_connect. destruct (addClient mc mi i ip f (fd_hub st)) as [adm h] eqn:Ha. destruct adm; cbn [snd]; [|exact H..].
    apply caught_up_sends; [done|]. intros x. rewrite (addClient_admitted _ _ _ _ _ _ _ Ha). simpl. by rewrite get_set_ne.
  - rewrite <- (app_nil_r (fd_sent st)). apply caught_up_sends; [done|]. intros x. by apply (drop_all_sub [i]), Hok.
  - rewrite <- (app_nil_r (fd_sent st)). apply caught_up_sends; [done|]. intros x. unfold updateClientFilter. destruct (get i _) as [[ip f0]|]; [|done].
    simpl. by rewrite get_set_ne.
  - destruct (updateSolverPredicate s (fd_hub st)) as [h|] eqn:Hu; [|done]. unfold updateSolverPredicate in Hu.
    destruct (build_predicate s) as [p|]; [|done]. injection Hu as <-. intros ip f Hf. simpl in Hf.
    assert (Hf' : exists f0, get id (hb_clients (fd_hub st)) = Some (ip, f0) /\ f = set_predicate p f0).
    { clear -Hf. unfold jsmap in *. induction (hb_clients (fd_hub st)) as [|[i [ip1 f1]] l IH]; [done|]. rewrite fmap_cons in Hf. cbn [get] in *.
      case_bool_decide; [|by apply IH]. injection Hf as -> <-. eauto. }
    destruct Hf' as (f0 & Hget & ->). destruct (H ip f0 Hget) as [Hu Hall]. split; [|exact Hall]. unfold set_predicate. pose proof (proj1 Hu) as ->. exact Hu.
  - unfold requestRfq. cbv zeta. by case_match.
  - exact H.
  - exact H.
Qed.

Lemma connect_caught_up mc mi st id ip f L st' : stream_ok st -> get id (hb_clients (fd_hub st)) = None ->
  unfiltered f -> fr_tooOld (replaySince L (fd_buffer st)) = false ->
  sse_connect mc mi id ip f (Some L) (fun _ => true) st = (adm_ok, st') -> stream_ok st' /\ caught_up L id st'.
Proof.
  intros Hok Hnew Hu Ht Hc.
  split. { pose proof (step_stream (fun _ _ => true) mc mi st (OpConnect id ip f (Some L) (fun _ => true), 0) Hok) as Hs. unfold feed_step in Hs. simpl in Hs. by rewrite Hc in Hs. }
  unfold sse_connect in Hc. destruct (addClient mc mi id ip f (fd_hub st)) as [adm h] eqn:Ha. destruct adm; [|done..]. cbv zeta in Hc. rewrite Ht in Hc.
  injection Hc as <-. rewrite (addClient_admitted _ _ _ _ _ _ _ Ha). intros ip' f' Hf. simpl in Hf. rewrite get_set_eq in Hf. injection Hf as <- <-.
  split; [done|]. intros e He Hlt. left. right. simpl. apply elem_of_app. right. rewrite replay_from_log by done.
  assert (Hin : e ∈ filter (fun e => L < e.1) (fd_log st)) by (by apply list_elem_of_filter). revert Hin. generalize (filter (fun e => L < e.1) (fd_log st)).
  intros l. induction l as [|x l IH]; intros Hin; [by apply not_elem_of_nil in Hin|]. simpl. apply elem_of_cons. apply elem_of_cons in Hin as [->|Hin]; [by left|right; by apply IH].
Qed.


(** * Connection limits *)

Definition connects (ops : list (FeedOp * Z)) : list string := omap (fun op => match op.1 with OpConnect id _ _ _ _ => Some id | _ => None end) ops.

Definition known (ids : list string) (h : Hub) : Prop := forall id x, get id (hb_clients h) = Some x -> id ∈ ids.

Lemma get_fmap_snd {V W} (g : string -> V -> W) k (m : jsmap V) : get k ((fun '(k', v) => (k', g k' v)) <$> m) = g k <$> get k m.
Proof.
  unfold jsmap in *. induction m as [|[k1 v1] m IH]; [done|]. rewrite fmap_cons. cbn [get]. case_bool_decide; [by subst|done].
Qed.

Lemma with_hub_id st : with_hub (fd_hub st, fd_sent st) st = st.
Proof. by destruct st. Qed.

Lemma known_keep ids ids' h h' : known ids h -> (forall id x, get id (hb_clients h') = Some x -> is_Some (get id (hb_clients h)) \/ id ∈ ids') -> known (ids ++ ids') h'.
Proof. intros Hk H id x Hx. apply elem_of_app. destruct (H id x Hx) as [[y Hy]|Hin]; [left; by eapply Hk|by right]. Qed.

Lemma drop_all_known ids dead h : wf (hb_clients h) -> known ids h -> known ids (drop_all dead h).
Proof. intros Hwf Hk id x Hx. apply drop_all_sub in Hx; [by eapply Hk|done]. Qed.

Lemma step_hub signed mc mi st op ids : hub_ok mc mi (fd_hub st) -> known ids (fd_hub st) -> NoDup (ids ++ connects [op]) ->
  hub_ok mc mi (fd_hub (feed_step signed mc mi st op)) /\ known (ids ++ connects [op]) (fd_hub (feed_step signed mc mi st op)).
Proof.
  intros Hok Hk Hnd. pose proof (ho_clients _ _ _ Hok) as Hwf.
  destruct op as [[e|accepts|accepts found|i ip f from accepts|i|i f|s|req el|rs|i] now]; unfold feed_step, connects in *; cbn [fst snd omap list_omap] in *;
    rewrite ?app_nil_r.
  - done.
  - unfold deliver_begin. destruct (fd_current st); [done|]. destruct (fd_queue st) as [|e q]; [done|]. cbv zeta. case_bool_decide; [|case_bool_decide; [|done]].
    + rewrite rfq_round. cbv zeta. split; [by apply drop_all_ok|by apply drop_all_known].
    + by destruct (fe_response e.2).
  - unfold deliver_finish. destruct (fd_current st); [|done]. rewrite deliver_round. cbv zeta. split; [by apply drop_all_ok|by apply drop_all_known].
  - assert (Hnew : get i (hb_clients (fd_hub st)) = None).
    { destruct (get i (hb_clients (fd_hub st))) as [x|] eqn:E; [|done]. apply NoDup_app in Hnd as (_ & Hnd & _).
      destruct (Hnd i); [by eapply Hk|set_solver]. }
    pose proof (addClient_ok mc mi i ip f (fd_hub st) Hok Hnew) as Hok'. unfold sse_connect.
    destruct (addClient mc mi i ip f (fd_hub st)) as [adm h] eqn:Ha. destruct adm; cbn [snd fd_hub with_hub fst] in *;
      [|split; [done|intros id x Hx; apply elem_of_app; left; by eapply Hk]..].
    split; [done|]. apply (known_keep ids _ (fd_hub st)); [done|]. intros id x. rewrite (addClient_admitted _ _ _ _ _ _ _ Ha). simpl. rewrite get_set.
    case_decide; [right; set_solver|intros ->; left; eauto].
  - split; [by apply removeClient_ok|]. by apply (drop_all_known ids [i]).
  - split; [by apply updateFilter_ok|]. intros id x. simpl. unfold updateClientFilter. destruct (get i (hb_clients (fd_hub st))) as [[ip f0]|] eqn:E; [|by apply Hk].
    simpl. rewrite get_set. case_decide; [subst; intros _; by eapply Hk|apply Hk].
  - destruct (updateSolverPredicate s (fd_hub st)) as [h|] eqn:Hu; [|done]. split; [by eapply updatePredicate_ok|]. intros id x. simpl.
    unfold updateSolverPredicate in Hu. destruct (build_predicate s) as [p|]; [|done]. injection Hu as <-. simpl.
    replace ((fun '(id, (ip, f)) => (id, (ip, set_predicate p f))) <$> hb_clients (fd_hub st))
      with ((fun '(k', v) => (k', (fun _ v => (v.1, set_predicate p v.2)) k' v)) <$> hb_clients (fd_hub st)) by (apply list_fmap_ext; by intros j [k [? ?]]).
    rewrite get_fmap_snd. destruct (get id (hb_clients (fd_hub st))) eqn:E; [|done]. intros _. by eapply Hk.
  - unfold requestRfq. cbv zeta. by case_match.
  - done.
  - done.
Qed.

(** The connection limits hold: when every connection is a client of its own,
    the feed never serves more clients than configured, nor more from one
    address, and the count it keeps per address is the number of clients
    connected from there. *)
Theorem connection_limits_hold signed mc mi ops (Hids : NoDup (connects ops)) :
  let h := fd_hub (foldl (feed_step signed mc mi) new_feed ops) in
  (0 < mc -> Z.of_nat (length (hb_clients h)) <= mc) /\
  forall ip, default 0 (get ip (hb_perIp h)) = Z.of_nat (from_ip ip (hb_clients h)) /\ (0 < mi -> Z.of_nat (from_ip ip (hb_clients h)) <= mi).
Proof.
  intros h. assert (H : hub_ok mc mi h).
  { unfold h. clear h. assert (H0 : hub_ok mc mi (fd_hub new_feed) /\ known [] (fd_hub new_feed)).
    { split; [|done]. constructor; simpl; try apply empty_wf; try done; intros; unfold from_ip; simpl; lia. }
    destruct H0 as [Hok Hk]. change (connects ops) with ([] ++ connects ops) in Hids. revert Hok Hk Hids. generalize (@nil string). generalize new_feed.
    induction ops as [|op ops IH]; intros st ids Hok Hk Hids; cbn [foldl]; [done|].
    change (op :: ops) with ([op] ++ ops) in Hids. unfold connects in Hids. rewrite omap_app, app_assoc in Hids.
    assert (Hnd : NoDup (ids ++ connects [op])) by (by apply NoDup_app in Hids as (? & _ & _)).
    destruct (step_hub signed mc mi st op ids Hok Hk Hnd) as [Hok' Hk']. by eapply IH. }
  destruct H as [_ _ H3 H4 H5]. split; [done|]. intros ip. split; [done|]. intros Hm. by apply H5.
Qed.

(** * Quotes *)

Section quotes.
Context (signed : RfqQuoteRequest -> RfqResponse -> bool).

(** A quote the feed may hand on. *)
Definition verified (p : PendingRfq) (q : VerifiedRfqQuote) : Prop :=
  vq_solver q ∈ pr_eligible p /\ exists rs dst fee, signed (pr_request p) rs = true /\
    rs_solver rs = vq_solver q /\ rs_dstAmount rs = vq_dstAmount q /\ rs_fee rs = vq_fee q /\ rs_expiresAt rs = vq_expiresAt q /\
    BigInt (vq_dstAmount q) = Some dst /\ BigInt (vq_fee q) = Some fee /\ fee < dst.

Definition pending_ok (p : PendingRfq) : Prop :=
  wf (pr_responses p) /\ forall s q, get s (pr_responses p) = Some q -> vq_solver q = s /\ verified p q.

Definition resolved_ids (r : Rfqs) : list string := (fun x => rq_requestId (pr_request x.1)) <$> rf_resolved r.

Record rfqs_ok (used : list string) (r : Rfqs) : Prop := {
  rk_wf : wf (rf_pending r);
  rk_pending : forall id p, get id (rf_pending r) = Some p -> rq_requestId (pr_request p) = id /\ id ∈ used /\ pending_ok p;
  rk_resolved : Forall (fun x => pending_ok x.1 /\ x.2 = values (pr_responses x.1)) (rf_resolved r);
  rk_once : NoDup (resolved_ids r) /\ forall id, id ∈ resolved_ids r -> id ∈ used /\ get id (rf_pending r) = None;
}.

Lemma complete_ok used id r : rfqs_ok used r -> rfqs_ok used (completeRfq id r).
Proof.
  intros [H1 H2 H3 [H4 H5]]. unfold completeRfq. destruct (get id (rf_pending r)) as [p|] eqn:E; [|by constructor].
  destruct (H2 id p E) as (Hid & Hu & Hp).
  assert (Hids : resolved_ids {| rf_pending := del id (rf_pending r); rf_resolved := rf_resolved r ++ [(p, values (pr_responses p))] |} = resolved_ids r ++ [id]).
  { unfold resolved_ids. simpl. rewrite fmap_app. simpl. by rewrite Hid. }
  constructor; [by apply del_wf|..]; cbn [rf_pending rf_resolved].
  - intros id' p' Hget. destruct (decide (id = id')) as [<-|Hne]; [by rewrite get_del_eq in Hget|rewrite get_del_ne in Hget by done; by apply H2].
  - apply Forall_app. split; [done|]. apply Forall_singleton. by split.
  - rewrite Hids. split.
    + apply NoDup_app. split; [done|]. split; [|apply NoDup_singleton]. intros x Hx Hx'%list_elem_of_singleton. subst x. apply H5 in Hx as [_ Hx]. congruence.
    + intros x [Hx|Hx%list_elem_of_singleton]%elem_of_app; [|subst x; split; [done|by apply get_del_eq]]. destruct (H5 x Hx) as [Hu' Hn]. split; [done|].
      destruct (decide (id = x)) as [<-|Hne]; [congruence|by rewrite get_del_ne].
Qed.

Lemma respond_ok used rs now r : rfqs_ok used r -> rfqs_ok used (acceptRfqResponse signed rs now r).
Proof.
  intros [H1 H2 H3 [H4 H5]]. unfold acceptRfqResponse. destruct (get (rs_requestId rs) (rf_pending r)) as [p|] eqn:E; [|by constructor].
  destruct (quote_ok signed p rs now) eqn:Hq; [|by constructor]. cbv zeta. destruct (H2 _ p E) as (Hid & Hu & Hwf & Hp).
  unfold quote_ok in Hq. repeat (apply andb_prop in Hq as [Hq ?]).
  match goal with H : bool_decide (_ ∈ _) = true |- _ => apply bool_decide_eq_true in H end.
  destruct (BigInt (rs_dstAmount rs)) as [dst|] eqn:Ed; [|done]. destruct (BigInt (rs_fee rs)) as [fee|] eqn:Ef; [|done].
  constructor; cbn [rf_pending rf_resolved]; [by apply set_wf| |done|].
  - intros id p'. rewrite get_set. case_decide as Hd; [|by apply H2]. subst id. intros [= <-]. simpl. split; [done|]. split; [done|].
    split; [by apply set_wf|]. intros s q. simpl. rewrite get_set. case_decide as Hs.
    + intros [= <-]. simpl. split; [done|]. split; [by subst|]. exists rs, dst, fee. simpl. split_and!; try done. by apply Z.ltb_lt.
    + intros Hget. destruct (Hp s q Hget) as [? [Hv1 Hv2]]. by split.
  - split; [done|]. intros id Hin. destruct (H5 id Hin) as [Hu' Hn]. split; [done|]. rewrite get_set_ne; [done|]. congruence.
Qed.

Lemma request_ok used req el r : rfqs_ok used r -> rq_requestId req ∉ used ->
  rfqs_ok (used ++ [rq_requestId req]) {| rf_pending := set (rq_requestId req) {| pr_request := req; pr_eligible := el; pr_responses := [] |} (rf_pending r);
    rf_resolved := rf_resolved r |}.
Proof.
  intros [H1 H2 H3 [H4 H5]] Hnew. constructor; cbn [rf_pending rf_resolved]; [by apply set_wf| |done|].
  - intros id p. rewrite get_set. case_decide as Hd.
    + intros [= <-]. simpl. split; [done|]. split; [set_solver|]. split; [apply empty_wf|done].
    + intros Hget. destruct (H2 id p Hget) as (? & ? & ?). split_and!; [done|set_solver|done].
  - split; [done|]. intros id Hin. destruct (H5 id Hin) as [Hu Hn]. split; [set_solver|]. rewrite get_set_ne; [done|]. intros Heq. by rewrite <- Heq in Hu.
Qed.

Lemma rfqs_more used used' r : rfqs_ok used r -> used ⊆ used' -> rfqs_ok used' r.
Proof.
  intros [H1 H2 H3 [H4 H5]] Hsub. constructor; try done.
  - intros id p Hget. destruct (H2 id p Hget) as (? & ? & ?). split_and!; [done|by apply Hsub|done].
  - split; [done|]. intros id Hin. destruct (H5 id Hin). split; [by apply Hsub|done].
Qed.

Definition requests (ops : list (FeedOp * Z)) : list string := omap (fun op => match op.1 with OpRequest req _ => Some (rq_requestId req) | _ => None end) ops.

Lemma step_rfqs mc mi st op used : rfqs_ok used (fd_rfqs st) -> NoDup (used ++ requests [op]) ->
  rfqs_ok (used ++ requests [op]) (fd_rfqs (feed_step signed mc mi st op)).
Proof.
  intros Hok Hnd. destruct op as [[e|accepts|accepts found|i ip f from accepts|i|i f|s|req el|rs|i] now];
    unfold feed_step, requests in *; cbn [fst snd omap list_omap] in *; rewrite ?app_nil_r.
  - done.
  - unfold deliver_begin. destruct (fd_current st); [done|]. destruct (fd_queue st) as [|e q]; [done|]. cbv zeta. case_bool_decide; [|case_bool_decide; [|done]].
    + by rewrite rfq_round.
    + destruct (fe_response e.2); [by apply respond_ok|done].
  - unfold deliver_finish. destruct (fd_current st); [|done]. by rewrite deliver_round.
  - unfold sse_connect. destruct (addClient mc mi i ip f (fd_hub st)) as [adm h]. by destruct adm.
  - done.
  - done.
  - by destruct (updateSolverPredicate s (fd_hub st)).
  - unfold requestRfq. cbv zeta. destruct (uniq el) as [|x l]; [eapply rfqs_more; [exact Hok|set_solver]|].
    apply request_ok; [done|]. apply NoDup_app in Hnd as (_ & Hnd & _). intros Hin. by apply (Hnd _ Hin), list_elem_of_singleton.
  - done.
  - by apply complete_ok.
Qed.
End quotes.

(** What a request for quotes is answered with: over any run in which request
    ids are not reused, each request is answered at most once, with at most one
    quote per solver, each from a solver it was sent to, signed by it over the
    request and the quote, and paying more than its fee. *)
Theorem quotes_are_verified signed mc mi ops p quotes (Hids : NoDup (requests ops)) :
  let r := fd_rfqs (foldl (feed_step signed mc mi) new_feed ops) in
  (p, quotes) ∈ rf_resolved r ->
  NoDup (resolved_ids r) /\ NoDup (vq_solver <$> quotes) /\ Forall (verified signed p) quotes.
Proof.
  intros r Hin. assert (H : exists used, rfqs_ok signed used r).
  { exists ([] ++ requests ops). unfold r. clear Hin r.
    assert (Hok : rfqs_ok signed [] (fd_rfqs new_feed)) by (constructor; simpl; [apply empty_wf|done|constructor|split; [constructor|done]]).
    change (requests ops) with ([] ++ requests ops) in Hids. revert Hok Hids. generalize (@nil string) at 1 2 3. generalize new_feed.
    induction ops as [|op ops IH]; intros st used Hok Hids; cbn [foldl]; [by rewrite app_nil_r|].
    change (op :: ops) with ([op] ++ ops) in *. unfold requests in *. rewrite omap_app, app_assoc in *. apply IH; [|done].
    apply step_rfqs; [done|]. by apply NoDup_app in Hids as (? & _ & _). }
  destruct H as [used [_ _ H3 [H4 _]]]. split; [done|]. rewrite Forall_forall in H3. destruct (H3 _ Hin) as [[Hwf Hp] Hq]. simpl in *. subst quotes.
  assert (Hall : forall s q, (s, q) ∈ pr_responses p -> vq_solver q = s /\ verified signed p q) by (intros s q Hsq; by apply Hp, elem_of_get).
  split.
  - unfold values. rewrite <- list_fmap_compose. assert (Heq : (vq_solver ∘ snd) <$> pr_responses p = keys (pr_responses p)).
    { unfold keys. apply list_fmap_ext. intros i [s q] Hi. simpl. by apply Hall, (list_elem_of_lookup_2 _ i). }
    unfold jsmap in *. rewrite Heq. exact Hwf.
  - apply Forall_forall. intros q ([s q'] & -> & Hsq)%list_elem_of_fmap. by eapply Hall.
Qed.

(** * Concrete runs *)

Definition feed_event (type user : string) : FeedEvent := {| fe_type := type; fe_intent := None; fe_intentId := Some "i1"%string; fe_user := Some user;
  fe_state := None; fe_eligible := None; fe_response := None |}.
Definition no_filter : FeedFilter := {| ff_chains := None; ff_solver := None; ff_wantAll := false; ff_users := None; ff_states := None |}.
Definition user_filter (u : string) : FeedFilter := {| ff_chains := None; ff_solver := None; ff_wantAll := false; ff_users := Some [u]; ff_states := None |}.
Definition solver_filter (a : string) : FeedFilter := {| ff_chains := None; ff_solver := Some {| sp_solverAddress := a; sp_matches := fun _ => false |};
  ff_wantAll := false; ff_users := None; ff_states := None |}.
Definition take_all {A} (_ : A) : bool := true.
Definition find_none (_ : string) : option Intent := None.
Definition any_signature (_ : RfqQuoteRequest) (_ : RfqResponse) : bool := true.

Definition accepted_event : FeedEvent := feed_event "intent_accepted" "alice".
Definition deliver_now : list (FeedOp * Z) := [(OpBegin take_all, 0); (OpFinish take_all find_none, 0)].

(** Three events, of which the client saw one. *)
Definition before_resume : list (FeedOp * Z) :=
  [(OpPublish accepted_event, 0)] ++ deliver_now ++ [(OpPublish accepted_event, 0); (OpPublish accepted_event, 0); (OpBegin take_all, 0)].
Definition after_resume : list (FeedOp * Z) := [(OpFinish take_all find_none, 0)] ++ deliver_now.

Local Notation run_feed := (foldl (feed_step any_signature 10 10) new_feed).


Definition crowd : list (FeedOp * Z) :=
  (fun id => (OpConnect id "ip"%string no_filter None take_all, 0)) <$> ["c1"; "c2"; "c3"; "c4"]%string.

Lemma connection_limits_hold_witness :
  let h := fd_hub (foldl (feed_step any_signature 10 3) new_feed crowd) in
  length (hb_clients h) = 3%nat /\
  (0 < 10 -> Z.of_nat (length (hb_clients h)) <= 10) /\
  forall ip, default 0 (get ip (hb_perIp h)) = Z.of_nat (from_ip ip (hb_clients h)) /\ (0 < 3 -> Z.of_nat (from_ip ip (hb_clients h)) <= 3).
Proof.
  split; [vm_compute; reflexivity|]. apply (connection_limits_hold any_signature 10 3 crowd).
  apply (bool_decide_unpack _). vm_compute. exact I.
Defined.

Definition quote_request : RfqQuoteRequest := {| rq_requestId := "r1"; rq_srcChain := hd stellar SUPPORTED_CHAINS; rq_srcTokenSymbol := "USDC"; rq_srcAmount := "100";
  rq_dstTokenSymbol := "XLM"; rq_srcTokenAddress := None; rq_dstTokenContract := None; rq_deadline := 5000 |}.
Definition quote_response (fee : string) : RfqResponse := {| rs_solver := "GS"; rs_requestId := "r1"; rs_dstAmount := "99"; rs_fee := fee; rs_expiresAt := 30; rs_signature := "s" |}.
Definition quote_run : list (FeedOp * Z) :=
  [(OpRequest quote_request ["GS"; "GT"]%string, 0); (OpBegin take_all, 0); (OpRespond (quote_response "99"), 10); (OpRespond (quote_response "1"), 20);
   (OpBegin take_all, 30); (OpBegin take_all, 40); (OpTimeout "r1", 5000)].

Lemma quotes_are_verified_witness :
  exists p quotes, rf_resolved (fd_rfqs (run_feed quote_run)) = [(p, quotes)] /\ length quotes = 1%nat /\
    NoDup (resolved_ids (fd_rfqs (run_feed quote_run))) /\ NoDup (vq_solver <$> quotes) /\ Forall (verified any_signature p) quotes.
Proof.
  eexists _, _. split; [vm_compute; reflexivity|]. split; [reflexivity|].
  apply (quotes_are_verified any_signature 10 10 quote_run).
  - apply (bool_decide_unpack _). vm_compute. exact I.
  - vm_compute. left.
Defined.

(** * Behaviours worth knowing *)

(** A resumed client is replayed events its filter excludes: the event is
    alice's, the client asked for bob's. *)
Theorem replay_ignores_filter :
  let st := run_feed ([(OpPublish accepted_event, 0)] ++ deliver_now ++
    [(OpConnect "c1" "ip" (user_filter "bob") (Some 0) take_all, 0); (OpPublish accepted_event, 0)] ++ deliver_now) in
  fd_sent st = [("c1"%string, sent_replay, 1)].
Proof. vm_compute. reflexivity. Qed.

(** A client that resumes while an event is between the buffer and its delivery
    is sent the event twice. *)
Theorem resume_can_duplicate :
  let st := run_feed [(OpPublish accepted_event, 0); (OpBegin take_all, 0); (OpConnect "c1" "ip" no_filter (Some 0) take_all, 0);
    (OpFinish take_all find_none, 0)] in
  fd_sent st = [("c1"%string, sent_replay, 1); ("c1"%string, sent_live, 1)].
Proof. vm_compute. reflexivity. Qed.

(** A request for quotes takes a sequence number but no place in the buffer: a
    client is told to start over although everything it missed is buffered. *)
Theorem quotes_force_reset :
  let st := run_feed ([(OpRequest quote_request ["GS"%string], 0); (OpBegin take_all, 0); (OpPublish accepted_event, 0)] ++ deliver_now) in
  fst <$> fd_log st = [2] /\ fr_tooOld (replaySince 0 (fd_buffer st)) = true.
Proof. vm_compute. by split. Qed.
