(* ===== verification/ChannelPool.v ===== *)
(** The pool of channel accounts: [src/soroban/channel-pool.service.ts].

    A call of [lease] runs until it awaits: the account lookup of a channel
    whose sequence is not cached, or its turn in the wait queue.  Calls are
    known by a number; a handle stays in [po_held] until it is released.  What
    the ledger answers is part of the event. *)
From S2P Require Import Prelude JsMap BigInt.
Local Open Scope Z_scope.

Definition LEASE_TIMEOUT_MS : Z := 30000.

Record ChannelAccount := { ca_publicKey : string; ca_cachedSequence : option Z; ca_leased : bool; ca_leaseExpiresAt : Z }.

Record LeaseHandle := { lh_call : nat; lh_publicKey : string; lh_sequence : Z }.

Record Pool := {
  po_channels : list ChannelAccount;
  po_waiters : list nat;                 (* calls in the FIFO queue *)
  po_woken : list nat;                   (* woken, not yet run *)
  po_fetching : list (nat * string);     (* calls awaiting [getAccount], with their channel *)
  po_held : list LeaseHandle;
  po_log : list LeaseHandle;             (* every lease granted *)
}.

Definition free_channel (pk : string) : ChannelAccount := {| ca_publicKey := pk; ca_cachedSequence := None; ca_leased := false; ca_leaseExpiresAt := 0 |}.
Definition new_pool (pks : list string) : Pool :=
  {| po_channels := free_channel <$> pks; po_waiters := []; po_woken := []; po_fetching := []; po_held := []; po_log := [] |}.

Definition with_channels (l : list ChannelAccount) (p : Pool) : Pool :=
  {| po_channels := l; po_waiters := po_waiters p; po_woken := po_woken p; po_fetching := po_fetching p; po_held := po_held p; po_log := po_log p |}.

Definition evictExpiredLeases (now : Z) (p : Pool) : Pool :=
  with_channels ((fun c => if ca_leased c && (ca_leaseExpiresAt c <? now) then free_channel (ca_publicKey c) else c) <$> po_channels p) p.

(** Change the first channel with this key. *)
Fixpoint on_channel (pk : string) (f : ChannelAccount -> ChannelAccount) (l : list ChannelAccount) : list ChannelAccount :=
  match l with
  | [] => []
  | c :: l => if bool_decide (ca_publicKey c = pk) then f c :: l else c :: on_channel pk f l
  end.

Definition take_lease (now : Z) (c : ChannelAccount) : ChannelAccount :=
  {| ca_publicKey := ca_publicKey c; ca_cachedSequence := ca_cachedSequence c; ca_leased := true; ca_leaseExpiresAt := now + LEASE_TIMEOUT_MS |}.
Definition set_sequence (s : option Z) (c : ChannelAccount) : ChannelAccount :=
  {| ca_publicKey := ca_publicKey c; ca_cachedSequence := s; ca_leased := ca_leased c; ca_leaseExpiresAt := ca_leaseExpiresAt c |}.

(** [ch.cachedSequence += 1] and the handle. *)
Definition grant (call : nat) (pk : string) (seq : Z) (p : Pool) : Pool :=
  let h := {| lh_call := call; lh_publicKey := pk; lh_sequence := seq + 1 |} in
  {| po_channels := on_channel pk (set_sequence (Some (seq + 1))) (po_channels p); po_waiters := po_waiters p; po_woken := po_woken p;
     po_fetching := po_fetching p; po_held := po_held p ++ [h]; po_log := po_log p ++ [h] |}.

(** One turn of the loop of [lease], up to its await. *)
Definition lease_turn (call : nat) (now : Z) (p : Pool) : Pool :=
  let p := evictExpiredLeases now p in
  match list_find (fun c => ca_leased c = false) (po_channels p) with
  | Some (i, c) =>
      let p := with_channels (alter (take_lease now) i (po_channels p)) p in
      match ca_cachedSequence c with
      | Some s => grant call (ca_publicKey c) s p
      | None => {| po_channels := po_channels p; po_waiters := po_waiters p; po_woken := po_woken p;
                   po_fetching := po_fetching p ++ [(call, ca_publicKey c)]; po_held := po_held p; po_log := po_log p |}
      end
  | None => {| po_channels := po_channels p; po_waiters := po_waiters p ++ [call]; po_woken := po_woken p;
               po_fetching := po_fetching p; po_held := po_held p; po_log := po_log p |}
  end.

(** [getAccount] answered the call at position [n]: a sequence, or it threw. *)
Definition fetched (n : nat) (answer : option Z) (p : Pool) : Pool :=
  match po_fetching p !! n with
  | None => p
  | Some (call, pk) =>
      let p := {| po_channels := po_channels p; po_waiters := po_waiters p; po_woken := po_woken p;
                  po_fetching := delete n (po_fetching p); po_held := po_held p; po_log := po_log p |} in
      match answer with Some s => grant call pk s p | None => p end
  end.

Definition give_back (success : bool) (c : ChannelAccount) : ChannelAccount :=
  {| ca_publicKey := ca_publicKey c; ca_cachedSequence := if success then ca_cachedSequence c else None; ca_leased := false; ca_leaseExpiresAt := 0 |}.

(** [handle.release(success)] of the handle at position [n]. *)
Definition release_handle (n : nat) (success : bool) (p : Pool) : Pool :=
  match po_held p !! n with
  | None => p
  | Some h =>
      {| po_channels := on_channel (lh_publicKey h) (give_back success) (po_channels p);
         po_waiters := tail (po_waiters p);
         po_woken := po_woken p ++ option_list (head (po_waiters p));
         po_fetching := po_fetching p; po_held := delete n (po_held p); po_log := po_log p |}
  end.

(** [resyncSequence], when the lookup succeeded. *)
Definition resyncSequence (pk : string) (answer : option Z) (p : Pool) : Pool :=
  match answer with
  | Some s => with_channels (on_channel pk (set_sequence (Some s)) (po_channels p)) p
  | None => p
  end.

Inductive PoolEvent :=
  | EvLease (call : nat)
  | EvWake (n : nat)                          (* a woken call runs again *)
  | EvFetched (n : nat) (answer : option Z)
  | EvRelease (n : nat) (success : bool)
  | EvResync (pk : string) (answer : option Z).

Definition pool_step (p : Pool) (ev : PoolEvent * Z) : Pool :=
  match ev with
  | (EvLease call, now) => lease_turn call now p
  | (EvWake n, now) =>
      match po_woken p !! n with
      | None => p
      | Some call => lease_turn call now {| po_channels := po_channels p; po_waiters := po_waiters p; po_woken := delete n (po_woken p);
                                            po_fetching := po_fetching p; po_held := po_held p; po_log := po_log p |}
      end
  | (EvFetched n answer, _) => fetched n answer p
  | (EvRelease n success, _) => release_handle n success p
  | (EvResync pk answer, _) => resyncSequence pk answer p
  end.

(** * Who has which channel *)

Definition owned (p : Pool) : list string := (lh_publicKey <$> po_held p) ++ (snd <$> po_fetching p).
Definition pool_keys (p : Pool) : list string := ca_publicKey <$> po_channels p.

(** No lease is past its expiry at [now]: callers release in time. *)
Definition timely (now : Z) (p : Pool) : Prop := Forall (fun c => ca_leased c = true -> now <= ca_leaseExpiresAt c) (po_channels p).

Record pool_ok (p : Pool) : Prop := {
  pk_keys : NoDup (pool_keys p);
  pk_owned : NoDup (owned p);
  pk_leased : forall pk, pk ∈ owned p -> exists c, c ∈ po_channels p /\ ca_publicKey c = pk /\ ca_leased c = true;
}.

Lemma on_channel_keys pk f l : (forall c, ca_publicKey (f c) = ca_publicKey c) -> ca_publicKey <$> on_channel pk f l = ca_publicKey <$> l.
Proof. intros Hf. induction l as [|c l IH]; [done|]. cbn [on_channel]. case_bool_decide; rewrite !fmap_cons; [by rewrite Hf|by rewrite IH]. Qed.

(** With distinct keys, only the named channel changes. *)
Lemma elem_of_on_channel pk f l c : NoDup (ca_publicKey <$> l) -> c ∈ l ->
  (if decide (ca_publicKey c = pk) then f c else c) ∈ on_channel pk f l.
Proof.
  induction l as [|d l IH]; [set_solver|]. rewrite fmap_cons. intros [Hni Hnd]%NoDup_cons [->|Hin]%elem_of_cons; cbn [on_channel].
  - case_bool_decide; [rewrite decide_True by done|rewrite decide_False by done]; set_solver.
  - case_bool_decide as Hd; [|apply elem_of_cons; right; by apply IH]. rewrite decide_False; [set_solver|].
    intros Hc. apply Hni. rewrite Hd, <- Hc. by apply list_elem_of_fmap_2.
Qed.

Lemma evict_timely now p : timely now p -> evictExpiredLeases now p = p.
Proof.
  intros Ht. unfold evictExpiredLeases, with_channels, timely in *. destruct p as [cs ws wk ft hd lg]. cbn [po_channels po_waiters po_woken po_fetching po_held po_log] in *.
  f_equal. rewrite <- (list_fmap_id cs) at 2. apply list_fmap_ext. intros i c Hi. pose proof (Forall_lookup_1 _ _ _ _ Ht Hi) as Hc.
  cbv beta in Hc. destruct (ca_leased c) eqn:E; [|done]. specialize (Hc eq_refl). simpl. by destruct (Z.ltb_spec (ca_leaseExpiresAt c) now); [lia|].
Qed.

(** Owners keep their channels through a change that keeps the lease. *)
Lemma keep_leased p pk f : NoDup (pool_keys p) -> (forall c, ca_publicKey (f c) = ca_publicKey c /\ ca_leased (f c) = ca_leased c) ->
  forall pk', (exists c, c ∈ po_channels p /\ ca_publicKey c = pk' /\ ca_leased c = true) ->
  exists c, c ∈ on_channel pk f (po_channels p) /\ ca_publicKey c = pk' /\ ca_leased c = true.
Proof.
  intros Hnd Hf pk' (c & Hin & Hk & Hl). exists (if decide (ca_publicKey c = pk) then f c else c). split; [by apply elem_of_on_channel|].
  destruct (Hf c) as [H1 H2]. case_decide; [by rewrite H1, H2|done].
Qed.

Lemma alter_on_channel f (l : list ChannelAccount) i c : NoDup (ca_publicKey <$> l) -> l !! i = Some c -> alter f i l = on_channel (ca_publicKey c) f l.
Proof.
  revert i. induction l as [|d l IH]; intros [|i] Hnd Hi; [done|done|..]; rewrite fmap_cons in Hnd; apply NoDup_cons in Hnd as [Hni Hnd]; simpl in *.
  - injection Hi as ->. by rewrite bool_decide_eq_true_2.
  - rewrite bool_decide_eq_false_2; [f_equal; by apply (IH i)|]. intros Hd. apply Hni. rewrite Hd. by apply list_elem_of_fmap_2, (list_elem_of_lookup_2 _ i).
Qed.

Lemma unique_channel l c c' : NoDup (ca_publicKey <$> l) -> c ∈ l -> c' ∈ l -> ca_publicKey c = ca_publicKey c' -> c = c'.
Proof.
  intros Hnd [i Hi]%list_elem_of_lookup [j Hj]%list_elem_of_lookup Hk. enough (i = j) by congruence.
  eapply NoDup_lookup; [exact Hnd|by rewrite list_lookup_fmap, Hi|rewrite list_lookup_fmap, Hj; simpl; by rewrite Hk].
Qed.

Lemma lease_turn_ok call now p : timely now p -> pool_ok p -> pool_ok (lease_turn call now p).
Proof.
  intros Ht [H1 H2 H3]. unfold lease_turn. rewrite (evict_timely now p Ht). cbv zeta.
  destruct (list_find _ (po_channels p)) as [[i c]|] eqn:Hf; [|by constructor].
  apply list_find_Some in Hf as (Hi & Hfree & _). pose proof (alter_on_channel (take_lease now) _ i c H1 Hi) as Hal.
  pose proof (list_elem_of_lookup_2 _ i c Hi) as Hin.
  set (p1 := with_channels (alter (take_lease now) i (po_channels p)) p).
  assert (Hnot : ca_publicKey c ∉ owned p).
  { intros Ho. destruct (H3 _ Ho) as (c' & Hin' & Hk & Hl). enough (c' = c) by congruence. by eapply unique_channel. }
  assert (K1 : NoDup (pool_keys p1)) by (unfold pool_keys; simpl; rewrite Hal, on_channel_keys; done).
  assert (K2 : forall pk, pk = ca_publicKey c \/ pk ∈ owned p -> exists d, d ∈ po_channels p1 /\ ca_publicKey d = pk /\ ca_leased d = true).
  { intros pk Hpk. simpl. rewrite Hal. assert (exists c', c' ∈ po_channels p /\ ca_publicKey c' = pk /\ (pk <> ca_publicKey c -> ca_leased c' = true)) as (c' & Hin' & Hk & Hl).
    { destruct Hpk as [->|Ho]; [by exists c|]. destruct (H3 pk Ho) as (c' & ? & ? & ?). by exists c'. }
    exists (if decide (ca_publicKey c' = ca_publicKey c) then take_lease now c' else c'). split; [by apply elem_of_on_channel|].
    case_decide as Hd; [done|]. split; [done|]. apply Hl. congruence. }
  destruct (ca_cachedSequence c) as [s|].
  - constructor; unfold grant, owned, pool_keys; cbn [po_channels po_held po_fetching].
    + rewrite on_channel_keys; done.
    + rewrite fmap_app. simpl. rewrite <- app_assoc. simpl. rewrite <- Permutation_middle. apply NoDup_cons. by split.
    + intros pk Hpk. apply keep_leased; [done|done|]. apply K2. unfold owned. rewrite fmap_app in Hpk. set_solver.
  - constructor; unfold owned, pool_keys; cbn [po_channels po_held po_fetching]; [done| |].
    + rewrite fmap_app, app_assoc. simpl. apply NoDup_app. split; [done|]. split; [|apply NoDup_singleton]. intros x Hx Hx'%list_elem_of_singleton. by subst x.
    + intros pk Hpk. apply K2. unfold owned. rewrite fmap_app in Hpk. set_solver.
Qed.

Lemma owned_same p p' : pool_ok p -> po_channels p' = po_channels p -> po_fetching p' = po_fetching p -> po_held p' = po_held p -> pool_ok p'.
Proof. intros [H1 H2 H3] Hc Hf Hh. constructor; unfold pool_keys, owned in *; by rewrite ?Hc, ?Hf, ?Hh. Qed.

Lemma fetched_ok n answer p : pool_ok p -> pool_ok (fetched n answer p).
Proof.
  intros [H1 H2 H3]. unfold fetched. destruct (po_fetching p !! n) as [[call pk]|] eqn:Hn; [|by constructor]. cbv zeta.
  assert (Hperm : owned p ≡ₚ pk :: (lh_publicKey <$> po_held p) ++ (snd <$> delete n (po_fetching p))).
  { unfold owned. rewrite (delete_Permutation _ n _ Hn) at 1. simpl. by rewrite <- Permutation_middle. }
  destruct answer as [s|].
  - constructor; unfold grant, owned, pool_keys; cbn [po_channels po_held po_fetching].
    + rewrite on_channel_keys; done.
    + rewrite fmap_app. simpl. rewrite <- app_assoc. simpl. rewrite <- Permutation_middle. by rewrite <- Hperm.
    + intros pk' Hpk. apply keep_leased; [done|done|]. apply H3. rewrite Hperm. rewrite fmap_app in Hpk. simpl in Hpk. set_solver.
  - rewrite Hperm in H2. apply NoDup_cons in H2 as [_ H2]. constructor; unfold owned, pool_keys; cbn [po_channels po_held po_fetching]; [done|done|].
    intros pk' Hpk. apply H3. rewrite Hperm. by apply elem_of_cons; right.
Qed.

Lemma release_ok n success p : pool_ok p -> pool_ok (release_handle n success p).
Proof.
  intros [H1 H2 H3]. unfold release_handle. destruct (po_held p !! n) as [h|] eqn:Hn; [|by constructor].
  assert (Hperm : owned p ≡ₚ lh_publicKey h :: (lh_publicKey <$> delete n (po_held p)) ++ (snd <$> po_fetching p)).
  { unfold owned. rewrite (delete_Permutation _ n _ Hn) at 1. done. }
  rewrite Hperm in H2. apply NoDup_cons in H2 as [Hni H2].
  constructor; unfold owned, pool_keys; cbn [po_channels po_held po_fetching]; [by rewrite on_channel_keys|done|].
  intros pk Hpk. destruct (H3 pk) as (c & Hin & Hk & Hl); [rewrite Hperm; by apply elem_of_cons; right|]. exists c. split; [|done].
  pose proof (elem_of_on_channel (lh_publicKey h) (give_back success) _ c H1 Hin) as Hon. rewrite decide_False in Hon; [done|]. rewrite Hk. by intros ->.
Qed.

Lemma step_ok now ev p : timely now p -> pool_ok p -> pool_ok (pool_step p (ev, now)).
Proof.
  intros Ht Hok. destruct ev as [call|n|n answer|n success|pk answer]; simpl.
  - by apply lease_turn_ok.
  - destruct (po_woken p !! n) as [call|]; [|done]. apply lease_turn_ok; [done|]. by eapply owned_same.
  - by apply fetched_ok.
  - by apply release_ok.
  - unfold resyncSequence. destruct answer as [s|]; [|done]. destruct Hok as [H1 H2 H3]. constructor; unfold pool_keys, owned; simpl; [by rewrite on_channel_keys|done|].
    intros pk' Hpk. apply keep_leased; [done|done|]. by apply H3.
Qed.

(** Every event finds the leases of the pool unexpired. *)
Fixpoint timely_run (p : Pool) (evs : list (PoolEvent * Z)) : Prop :=
  match evs with [] => True | ev :: evs => timely ev.2 p /\ timely_run (pool_step p ev) evs end.

Lemma new_pool_ok pks : NoDup pks -> pool_ok (new_pool pks).
Proof.
  intros Hkeys. constructor; unfold pool_keys, owned; simpl; [|constructor|set_solver]. rewrite <- list_fmap_compose.
  erewrite list_fmap_ext; [rewrite list_fmap_id; exact Hkeys|]. done.
Qed.


(** * Sequence numbers *)

(** No lookup is repeated: releases report success and nobody resynchronises. *)
Definition clean (ev : PoolEvent) : Prop :=
  match ev with EvRelease _ success => success = true | EvResync _ _ => False | _ => True end.

Definition used (h : LeaseHandle) : string * Z := (lh_publicKey h, lh_sequence h).

(** The cache of a channel is at its last number handed out; a channel being
    looked up has handed out none. *)
Record seq_ok (p : Pool) : Prop := {
  sq_once : NoDup (used <$> po_log p);
  sq_cached : forall h c, h ∈ po_log p -> c ∈ po_channels p -> ca_publicKey c = lh_publicKey h ->
    exists s, ca_cachedSequence c = Some s /\ lh_sequence h <= s;
  sq_fetching : forall x h, x ∈ po_fetching p -> h ∈ po_log p -> lh_publicKey h <> x.2;
}.

Lemma elem_of_on_channel_inv pk f l c : NoDup (ca_publicKey <$> l) -> c ∈ on_channel pk f l ->
  (c ∈ l /\ ca_publicKey c <> pk) \/ exists d, d ∈ l /\ ca_publicKey d = pk /\ c = f d.
Proof.
  induction l as [|d l IH]; cbn [on_channel]; [set_solver|]. rewrite fmap_cons. intros [Hni Hnd]%NoDup_cons. case_bool_decide as Hd.
  - intros [->|Hin]%elem_of_cons; [right; exists d; set_solver|left]. split; [set_solver|]. intros Hc. apply Hni. rewrite Hd, <- Hc.
    by apply list_elem_of_fmap_2.
  - intros [->|Hin]%elem_of_cons; [left; set_solver|]. destruct (IH Hnd Hin) as [[? ?]|(d' & ? & ? & ?)]; [left; set_solver|right; exists d'; set_solver].
Qed.

(** A change that keeps keys and caches. *)
Lemma seq_ok_quiet p p' : seq_ok p -> po_log p' = po_log p -> (forall x, x ∈ po_fetching p' -> x ∈ po_fetching p) ->
  (forall c, c ∈ po_channels p' -> exists d, d ∈ po_channels p /\ ca_publicKey d = ca_publicKey c /\ ca_cachedSequence d = ca_cachedSequence c) -> seq_ok p'.
Proof.
  intros [H1 H2 H3] Hl Hf Hc. constructor; rewrite ?Hl; [done| |].
  - intros h c Hh Hin Hk. destruct (Hc c Hin) as (d & Hd & Hdk & Hds). rewrite <- Hds. apply (H2 h d); [done|done|congruence].
  - intros x h Hx. apply H3. by apply Hf.
Qed.

(** Granting a number above all those the channel handed out. *)
Lemma grant_seq call pk s p : NoDup (pool_keys p) -> seq_ok p -> (forall x, x ∈ po_fetching p -> x.2 <> pk) ->
  (forall h, h ∈ po_log p -> lh_publicKey h = pk -> lh_sequence h <= s) -> seq_ok (grant call pk s p).
Proof.
  intros Hnd [H1 H2 H3] Hf Hs. constructor; unfold grant; cbn [po_log po_channels po_fetching].
  - rewrite fmap_app. apply NoDup_app. split; [done|]. split; [|apply NoDup_singleton].
    intros x ([pk' s' ?] & -> & Hin)%list_elem_of_fmap Hx%list_elem_of_singleton. injection Hx as Hk He. specialize (Hs _ Hin Hk). simpl in *. lia.
  - intros h c Hh Hin Hk. apply elem_of_on_channel_inv in Hin as [[Hin Hne]|(d & Hin & Hd & ->)]; [| |done].
    + apply elem_of_app in Hh as [Hh|Hh%list_elem_of_singleton]; [by apply H2|]. by subst h.
    + simpl in *. eexists. split; [done|]. apply elem_of_app in Hh as [Hh|Hh%list_elem_of_singleton]; [|subst; simpl; lia].
      specialize (Hs h Hh ltac:(congruence)). lia.
  - intros x h Hx [Hh|Hh%list_elem_of_singleton]%elem_of_app; [by apply H3|]. subst h. simpl. intros ->. by apply (Hf x).
Qed.

Lemma lease_turn_seq call now p : timely now p -> pool_ok p -> seq_ok p -> seq_ok (lease_turn call now p).
Proof.
  intros Ht Hok Hseq. pose proof Hok as [H1 H2 H3]. unfold lease_turn. rewrite (evict_timely now p Ht). cbv zeta.
  destruct (list_find _ (po_channels p)) as [[i c]|] eqn:Hf; [|by eapply seq_ok_quiet; [exact Hseq|done|done|eauto]].
  apply list_find_Some in Hf as (Hi & Hfree & _). pose proof (list_elem_of_lookup_2 _ i c Hi) as Hin.
  assert (Hnot : ca_publicKey c ∉ owned p).
  { intros Ho. destruct (H3 _ Ho) as (c' & Hin' & Hk & Hl). enough (c' = c) by congruence. by eapply unique_channel. }
  set (p1 := with_channels (alter (take_lease now) i (po_channels p)) p).
  assert (Hp1 : seq_ok p1).
  { eapply seq_ok_quiet; [exact Hseq|done|done|]. simpl. rewrite (alter_on_channel _ _ i c H1 Hi). intros d Hd.
    apply elem_of_on_channel_inv in Hd as [[Hd _]|(d' & Hd & _ & ->)]; [by eauto|by exists d'|done]. }
  destruct (ca_cachedSequence c) as [s|] eqn:Es.
  - apply grant_seq; [| exact Hp1| |].
    + unfold pool_keys. simpl. by rewrite (alter_on_channel _ _ i c H1 Hi), on_channel_keys.
    + intros x Hx Heq. apply Hnot. rewrite <- Heq. apply elem_of_app. right. by apply list_elem_of_fmap_2.
    + intros h Hh Hk. destruct (sq_cached p Hseq h c Hh Hin ltac:(done)) as (s' & Hs' & Hle). congruence.
  - destruct Hp1 as [P1 P2 P3]. constructor; cbn [po_log po_channels po_fetching]; [done|done|].
    intros x h [Hx|Hx%list_elem_of_singleton]%elem_of_app Hh; [by apply P3|]. subst x. simpl. intros Hk.
    destruct (sq_cached p Hseq h c Hh Hin ltac:(done)) as (s' & Hs' & _). congruence.
Qed.

Lemma step_seq now ev p : timely now p -> clean ev -> pool_ok p -> seq_ok p -> seq_ok (pool_step p (ev, now)).
Proof.
  intros Ht Hcl Hok Hseq. destruct ev as [call|n|n answer|n success|pk answer]; simpl in *; [by apply lease_turn_seq|..|done].
  - destruct (po_woken p !! n) as [call|]; [|done]. apply lease_turn_seq; [done|by eapply owned_same|]. by eapply seq_ok_quiet; [exact Hseq|done|done|eauto].
  - unfold fetched. destruct (po_fetching p !! n) as [[call pk]|] eqn:Hn; [|done]. cbv zeta.
    pose proof (list_elem_of_lookup_2 _ n _ Hn) as Hin.
    assert (Hsub : forall x, x ∈ delete n (po_fetching p) -> x ∈ po_fetching p) by (intros x Hx; rewrite (delete_Permutation _ n _ Hn); by apply elem_of_cons; right).
    destruct answer as [s|]; [|by eapply seq_ok_quiet; [exact Hseq|done|exact Hsub|eauto]]. apply grant_seq; cbn [po_fetching po_log].
    + apply Hok.
    + by eapply seq_ok_quiet; [exact Hseq|done|exact Hsub|eauto].
    + intros x Hx Heq. pose proof (pk_owned p Hok) as Hnd. unfold owned in Hnd. rewrite (delete_Permutation _ n _ Hn) in Hnd.
      rewrite fmap_cons, <- Permutation_middle in Hnd. apply NoDup_cons in Hnd as [Hni _]. apply Hni. apply elem_of_app. right. simpl. rewrite <- Heq.
      by apply list_elem_of_fmap_2.
    + intros h Hh Hk. by destruct (sq_fetching p Hseq (call, pk) h Hin Hh).
  - subst success. unfold release_handle. destruct (po_held p !! n) as [h|]; [|done]. eapply seq_ok_quiet; [exact Hseq|done|done|]. simpl. intros c Hc.
    apply elem_of_on_channel_inv in Hc as [[Hc _]|(d & Hd & _ & ->)]; [by eauto|by exists d|apply Hok].
Qed.

(** No sequence number is used twice: as long as leases are released in time,
    releases report success and nobody resynchronises a channel, no two leases
    of a channel ever got the same number. *)
Theorem sequences_are_unique pks evs (Hkeys : NoDup pks) (Ht : timely_run (new_pool pks) evs) (Hcl : Forall (fun ev => clean ev.1) evs) :
  NoDup (used <$> po_log (foldl pool_step (new_pool pks) evs)).
Proof.
  assert (Hseq : seq_ok (new_pool pks)) by (constructor; simpl; [constructor|set_solver..]). pose proof (new_pool_ok pks Hkeys) as Hok.
  enough (H : seq_ok (foldl pool_step (new_pool pks) evs)) by apply H. revert Ht Hok Hseq. generalize (new_pool pks).
  induction Hcl as [|[ev now] evs Hc _ IH]; intros p Ht Hok Hseq; simpl; [done|]. destruct Ht as [Ht Htr]. apply IH; [done|by apply step_ok|by apply step_seq].
Qed.

(** * Concrete runs *)

Definition pool_demo : list (PoolEvent * Z) :=
  [(EvLease 1, 0); (EvLease 2, 5); (EvLease 3, 6); (EvFetched 0 (Some 70), 10); (EvFetched 0 (Some 900), 11); (EvRelease 0 true, 20);
   (EvWake 0, 21); (EvRelease 0 true, 30)].

Lemma pool_demo_timely : timely_run (new_pool ["A"; "B"]%string) pool_demo.
Proof. repeat (split; [repeat (apply Forall_cons; split; [vm_compute; try discriminate|]); try apply Forall_nil_2|]); exact I. Qed.

Lemma pool_demo_keys : NoDup ["A"; "B"]%string.
Proof. apply (bool_decide_unpack _). vm_compute. exact I. Qed.


Lemma sequences_are_unique_witness : used <$> po_log (foldl pool_step (new_pool ["A"; "B"]%string) pool_demo) = [("A"%string, 71); ("B"%string, 901); ("A"%string, 72)] /\
  NoDup (used <$> po_log (foldl pool_step (new_pool ["A"; "B"]%string) pool_demo)).
Proof.
  split; [vm_compute; reflexivity|]. apply (sequences_are_unique ["A"; "B"]%string pool_demo pool_demo_keys pool_demo_timely).
  repeat constructor.
Defined.

(** Releases are not fenced: a caller whose lease timed out and was given to
    another frees the channel under it, and the next call leases the channel
    both hold, with the same sequence number when the ledger has not moved. *)
Theorem late_release_breaks_exclusion :
  let p := foldl pool_step (new_pool ["A"]%string)
    [(EvLease 1, 0); (EvFetched 0 (Some 70), 1); (EvLease 2, 30001); (EvFetched 0 (Some 70), 30002);
     (EvRelease 0 false, 30003); (EvLease 3, 30004); (EvFetched 0 (Some 70), 30005)] in
  po_held p = [{| lh_call := 2; lh_publicKey := "A"%string; lh_sequence := 71 |}; {| lh_call := 3; lh_publicKey := "A"%string; lh_sequence := 71 |}].
Proof. vm_compute. reflexivity. Qed.

(** An expired lease wakes nobody: the waiting call is not served when the lease
    it waits for expires, and a call that comes later takes the channel. *)
Theorem expiry_wakes_nobody :
  let p := foldl pool_step (new_pool ["A"]%string)
    [(EvLease 1, 0); (EvFetched 0 (Some 70), 1); (EvLease 2, 2); (EvLease 3, 40000); (EvFetched 0 (Some 71), 40001)] in
  po_waiters p = [2%nat] /\ (lh_call <$> po_log p) = [1; 3]%nat.
Proof. vm_compute. by split. Qed.

(** A lookup that fails keeps the channel leased: nothing releases it, and
    until its lease times out the next caller waits although no one uses it. *)
Theorem failed_lookup_blocks_channel :
  let p := foldl pool_step (new_pool ["A"]%string) [(EvLease 1, 0); (EvFetched 0 None, 1); (EvLease 2, 2)] in
  owned p = [] /\ po_waiters p = [2%nat].
Proof. vm_compute. by split. Qed.
