(* ===== verification/CursorCodec.v ===== *)
(** Pagination cursors: [src/common/pagination/cursor-codec.ts], with the base64
    and hex codecs of [Buffer] it uses.

    Strings are byte strings.  The HMAC, and what [Buffer.toString("utf8")]
    makes of bytes, are parameters; [createdAt] is read as a decimal integer. *)
From S2P Require Import Prelude JsMap BigInt.
Local Open Scope Z_scope.

(** * Bytes *)

Definition chr (n : Z) : Ascii.ascii := Ascii.ascii_of_N (Z.to_N n).
Definition chars (s : string) : list Ascii.ascii := String.list_ascii_of_string s.
Definition unchars (l : list Ascii.ascii) : string := String.string_of_list_ascii l.

Lemma code_bound c : 0 <= code c < 256.
Proof. unfold code. pose proof (Ascii.N_ascii_bounded c). lia. Qed.

Lemma chr_code c : chr (code c) = c.
Proof. unfold chr, code. by rewrite N2Z.id, Ascii.ascii_N_embedding. Qed.

(** * Base64 *)

(** The standard alphabet, and back; the decoder also takes the URL alphabet. *)
Definition b64_char (v : Z) : Ascii.ascii :=
  if v <? 26 then chr (65 + v) else if v <? 52 then chr (97 + (v - 26)) else if v <? 62 then chr (48 + (v - 52))
  else if v =? 62 then chr 43 else chr 47.
Definition b64_val (c : Ascii.ascii) : option Z :=
  let n := code c in
  if (65 <=? n) && (n <=? 90) then Some (n - 65)
  else if (97 <=? n) && (n <=? 122) then Some (n - 97 + 26)
  else if (48 <=? n) && (n <=? 57) then Some (n - 48 + 52)
  else if (n =? 43) || (n =? 45) then Some 62
  else if (n =? 47) || (n =? 95) then Some 63
  else None.

Definition pad_char : Ascii.ascii := chr 61.

(** [buf.toString("base64")] *)
Fixpoint b64_encode (bs : list Z) : list Ascii.ascii :=
  match bs with
  | [] => []
  | [b0] => [b64_char (b0 / 4); b64_char (b0 mod 4 * 16); pad_char; pad_char]
  | [b0; b1] => [b64_char (b0 / 4); b64_char (b0 mod 4 * 16 + b1 / 16); b64_char (b1 mod 16 * 4); pad_char]
  | b0 :: b1 :: b2 :: bs =>
      b64_char (b0 / 4) :: b64_char (b0 mod 4 * 16 + b1 / 16) :: b64_char (b1 mod 16 * 4 + b2 / 64) :: b64_char (b2 mod 64) :: b64_encode bs
  end.

Fixpoint from_sextets (vs : list Z) : list Z :=
  match vs with
  | v0 :: v1 :: v2 :: v3 :: vs => (v0 * 4 + v1 / 16) :: (v1 mod 16 * 16 + v2 / 4) :: (v2 mod 4 * 64 + v3) :: from_sextets vs
  | [v0; v1; v2] => [v0 * 4 + v1 / 16; v1 mod 16 * 16 + v2 / 4]
  | [v0; v1] => [v0 * 4 + v1 / 16]
  | _ => []
  end.

Fixpoint until_pad (l : list Ascii.ascii) : list Ascii.ascii :=
  match l with [] => [] | c :: l => if bool_decide (c = pad_char) then [] else c :: until_pad l end.

(** [Buffer.from(s, "base64")]: up to the padding, other characters skipped. *)
Definition b64_decode (l : list Ascii.ascii) : list Z := from_sextets (omap b64_val (until_pad l)).

Definition to_url (c : Ascii.ascii) : Ascii.ascii :=
  if bool_decide (c = chr 43) then chr 45 else if bool_decide (c = chr 47) then chr 95 else c.
Definition from_url (c : Ascii.ascii) : Ascii.ascii :=
  if bool_decide (c = chr 45) then chr 43 else if bool_decide (c = chr 95) then chr 47 else c.

Definition toBase64Url (s : string) : string :=
  unchars (filter (fun c => c <> pad_char) (to_url <$> b64_encode (code <$> chars s))).

Section text.
(** [buf.toString("utf8")] *)
Variable toText : string -> string.

Definition fromBase64Url (s : string) : string :=
  let padded := from_url <$> chars s in
  let pad := ((4 - length padded `mod` 4) `mod` 4)%nat in
  toText (unchars (chr <$> b64_decode (padded ++ replicate pad pad_char))).
End text.

(** * Hex *)

Definition hex_val (c : Ascii.ascii) : option Z :=
  let n := code c in
  if (48 <=? n) && (n <=? 57) then Some (n - 48)
  else if (97 <=? n) && (n <=? 102) then Some (n - 97 + 10)
  else if (65 <=? n) && (n <=? 70) then Some (n - 65 + 10)
  else None.

(** [Buffer.from(s, "hex")]: pairs of digits, up to the first that is none. *)
Fixpoint hex_bytes (l : list Ascii.ascii) : list Z :=
  match l with
  | a :: b :: l => match hex_val a, hex_val b with Some x, Some y => (x * 16 + y) :: hex_bytes l | _, _ => [] end
  | _ => []
  end.

Definition timingSafeCompare (a b : string) : bool := bool_decide (hex_bytes (chars a) = hex_bytes (chars b)).

(** * Cursors *)

Definition SEPARATOR : Ascii.ascii := chr 58.

Fixpoint join (l : list string) : string :=
  match l with [] => EmptyString | [s] => s | s :: l => s +:+ String SEPARATOR (join l) end.

Record CursorPayload := { cu_createdAt : Z; cu_id : string; cu_filterHash : string }.

Inductive CursorError := ce_format | ce_signature | ce_fields | ce_createdAt | ce_filter.

Section codec.
Variable toText : string -> string.
Variable hmac : string -> string -> string.   (* key, data; hex *)

Definition cursor_body (p : CursorPayload) : string := join [toString (cu_createdAt p); cu_id p; cu_filterHash p].

Definition encodeCursor (p : CursorPayload) (secret : string) : string :=
  let body := cursor_body p in toBase64Url (join [body; hmac secret body]).

(** [Number(s)], when that is a positive integer. *)
Definition created_at (s : string) : option Z :=
  if digits_only s then match BigInt s with Some n => if 0 <? n then Some n else None | None => None end else None.

Definition decodeCursor (cursor secret expectedFilterHash : string) : outcome CursorError CursorPayload :=
  let parts := split_on SEPARATOR (fromBase64Url toText cursor) in
  if (length parts <? 4)%nat then Err ce_format
  else
    let sig := default EmptyString (last parts) in
    let body := join (take (length parts - 1) parts) in
    if negb (timingSafeCompare sig (hmac secret body)) then Err ce_signature
    else
      let bodyParts := split_on SEPARATOR body in
      if (length bodyParts <? 3)%nat then Err ce_fields
      else
        let n := length bodyParts in
        let field i := default EmptyString (bodyParts !! (n - i)%nat) in
        match created_at (field 3%nat) with
        | None => Err ce_createdAt
        | Some createdAt =>
            if bool_decide (field 1%nat = expectedFilterHash)
            then Ok {| cu_createdAt := createdAt; cu_id := field 2%nat; cu_filterHash := field 1%nat |}
            else Err ce_filter
        end.
End codec.

(** * Base64 round trip *)

(** The sextets of a byte string. *)
Fixpoint sextets (bs : list Z) : list Z :=
  match bs with
  | [] => []
  | [b0] => [b0 / 4; b0 mod 4 * 16]
  | [b0; b1] => [b0 / 4; b0 mod 4 * 16 + b1 / 16; b1 mod 16 * 4]
  | b0 :: b1 :: b2 :: bs => b0 / 4 :: b0 mod 4 * 16 + b1 / 16 :: b1 mod 16 * 4 + b2 / 64 :: b2 mod 64 :: sextets bs
  end.

Definition byte (b : Z) : Prop := 0 <= b < 256.
Definition sextet (v : Z) : Prop := 0 <= v < 64.

(** Induction three bytes at a time. *)
Lemma bytes_ind3 (P : list Z -> Prop) : P [] -> (forall b, P [b]) -> (forall b0 b1, P [b0; b1]) ->
  (forall b0 b1 b2 l, P l -> P (b0 :: b1 :: b2 :: l)) -> forall l, P l.
Proof.
  intros H0 H1 H2 H3 l. assert (H : forall n l, (length l <= n)%nat -> P l); [|by apply (H (length l))]. clear l.
  induction n as [|n IH]; intros [|b0 [|b1 [|b2 l]]] Hl; simpl in Hl; try done; [lia..|]. apply H3, IH. lia.
Qed.

Lemma div_mod_facts b d : 0 < d -> b = d * (b / d) + b mod d /\ 0 <= b mod d < d.
Proof. intros Hd. split; [apply Z.div_mod; lia|by apply Z.mod_pos_bound]. Qed.

Ltac byte_arith := repeat match goal with H : byte _ |- _ => unfold byte in H end; unfold sextet; Z.to_euclidean_division_equations; lia.

Lemma sextets_bound bs : Forall byte bs -> Forall sextet (sextets bs).
Proof.
  revert bs. apply (bytes_ind3 (fun bs => Forall byte bs -> Forall sextet (sextets bs))); cbn [sextets].
  - done.
  - intros b [Hb _]%Forall_cons. repeat constructor; byte_arith.
  - intros b0 b1 [Hb [Hb1 _]%Forall_cons]%Forall_cons. repeat constructor; byte_arith.
  - intros b0 b1 b2 l IH [Hb [Hb1 [Hb2 Hl]%Forall_cons]%Forall_cons]%Forall_cons. repeat (constructor; [byte_arith|]). by apply IH.
Qed.

Lemma from_to_sextets bs : Forall byte bs -> from_sextets (sextets bs) = bs.
Proof.
  revert bs. apply (bytes_ind3 (fun bs => Forall byte bs -> from_sextets (sextets bs) = bs)); cbn [sextets from_sextets].
  - done.
  - intros b [Hb _]%Forall_cons. f_equal. byte_arith.
  - intros b0 b1 [Hb [Hb1 _]%Forall_cons]%Forall_cons. f_equal; [byte_arith|]. f_equal. byte_arith.
  - intros b0 b1 b2 l IH [Hb [Hb1 [Hb2 Hl]%Forall_cons]%Forall_cons]%Forall_cons.
    f_equal; [byte_arith|]. f_equal; [byte_arith|]. f_equal; [byte_arith|by apply IH].
Qed.

(** A fact about each of the 64 values, by computation. *)
Lemma all_sextets (P : Z -> Prop) `{forall v, Decision (P v)} : bool_decide (Forall P (Z.of_nat <$> seq 0 64)) = true -> forall v, sextet v -> P v.
Proof.
  intros Hall%bool_decide_eq_true v [H1 H2]. rewrite Forall_forall in Hall. apply Hall. apply list_elem_of_fmap. exists (Z.to_nat v).
  split; [lia|]. apply elem_of_seq. lia.
Qed.

Lemma sextet_chars v : sextet v -> to_url (b64_char v) <> pad_char /\ from_url (to_url (b64_char v)) = b64_char v /\
  b64_char v <> pad_char /\ b64_val (b64_char v) = Some v.
Proof.
  revert v. apply (all_sextets (fun v => to_url (b64_char v) <> pad_char /\ from_url (to_url (b64_char v)) = b64_char v /\
    b64_char v <> pad_char /\ b64_val (b64_char v) = Some v)). vm_compute. reflexivity.
Qed.

Lemma encode_sextets bs : Forall byte bs -> filter (fun c => c <> pad_char) (to_url <$> b64_encode bs) = (fun v => to_url (b64_char v)) <$> sextets bs.
Proof.
  assert (Hone : forall v l, sextet v -> filter (fun c => c <> pad_char) (to_url (b64_char v) :: l) = to_url (b64_char v) :: filter (fun c => c <> pad_char) l).
  { intros v l Hv. rewrite filter_cons, decide_True; [done|]. by apply sextet_chars. }
  assert (Hpad : forall l, filter (fun c => c <> pad_char) (to_url pad_char :: l) = filter (fun c => c <> pad_char) l).
  { intros l. rewrite filter_cons, decide_False; [done|]. intros H. by apply H. }
  intros Hbs. pose proof (sextets_bound bs Hbs) as Hs. revert bs Hbs Hs.
  apply (bytes_ind3 (fun bs => Forall byte bs -> Forall sextet (sextets bs) ->
    filter (fun c => c <> pad_char) (to_url <$> b64_encode bs) = (fun v => to_url (b64_char v)) <$> sextets bs)); cbn [sextets b64_encode].
  - done.
  - intros b _ Hs. rewrite !fmap_cons. repeat (apply Forall_cons in Hs as [? Hs]). by rewrite !Hone, !Hpad by done.
  - intros b0 b1 _ Hs. rewrite !fmap_cons. repeat (apply Forall_cons in Hs as [? Hs]). by rewrite !Hone, !Hpad by done.
  - intros b0 b1 b2 l IH Hb Hs. rewrite !fmap_cons. do 4 (apply Forall_cons in Hs as [? Hs]). do 3 (apply Forall_cons in Hb as [_ Hb]).
    rewrite !Hone by done. by rewrite IH.
Qed.

Lemma decode_sextets vs n : Forall sextet vs -> omap b64_val (until_pad ((b64_char <$> vs) ++ replicate n pad_char)) = vs.
Proof.
  induction 1 as [|v vs Hv _ IH].
  - by destruct n.
  - destruct (sextet_chars v Hv) as (_ & _ & Hne & Hval). rewrite fmap_cons. cbn [app until_pad]. rewrite bool_decide_eq_false_2 by done. cbn [omap list_omap]. rewrite Hval. f_equal. exact IH.
Qed.

Lemma unchars_chars s : unchars (chars s) = s.
Proof. apply String.string_of_list_ascii_of_string. Qed.
Lemma chars_unchars l : chars (unchars l) = l.
Proof. apply String.list_ascii_of_string_of_list_ascii. Qed.

Lemma base64_roundtrip toText s : fromBase64Url toText (toBase64Url s) = toText s.
Proof.
  unfold fromBase64Url, toBase64Url. cbv zeta. rewrite chars_unchars.
  assert (Hb : Forall byte (code <$> chars s)) by (apply Forall_fmap, Forall_forall; intros c _; apply code_bound).
  rewrite encode_sextets by done. pose proof (sextets_bound _ Hb) as Hs.
  replace (from_url <$> ((fun v => to_url (b64_char v)) <$> sextets (code <$> chars s))) with (b64_char <$> sextets (code <$> chars s)).
  2: { rewrite <- list_fmap_compose. apply list_fmap_ext. intros i v Hi. simpl.
    destruct (sextet_chars v) as (_ & -> & _); [by eapply Forall_lookup_1|done]. }
  unfold b64_decode. rewrite decode_sextets, from_to_sextets by done. f_equal. rewrite <- list_fmap_compose.
  rewrite (list_fmap_ext _ id); [rewrite list_fmap_id; apply unchars_chars|]. intros i c _. simpl. apply chr_code.
Qed.

(** * Cursor round trip *)

Definition no_colon (s : string) : bool := all_chars (fun d => negb (bool_decide (SEPARATOR = d))) s.
Definition is_ascii (s : string) : bool := all_chars (fun c => code c <? 128) s.

Lemma split_join l : l <> [] -> Forall (fun s => no_colon s = true) l -> split_on SEPARATOR (join l) = l.
Proof.
  intros Hne Hl. induction Hl as [|s l Hs Hl IH]; [done|]. destruct l as [|s' l]; [by apply split_on_none|].
  change (join (s :: s' :: l)) with (s +:+ String SEPARATOR (join (s' :: l))). rewrite split_on_one by done. by rewrite IH.
Qed.

Lemma str_app_assoc (a b c : string) : a +:+ (b +:+ c) = (a +:+ b) +:+ c.
Proof. induction a as [|x a IH]; [done|]. change (String x (a +:+ (b +:+ c)) = String x ((a +:+ b) +:+ c)). by rewrite IH. Qed.

Lemma join_snoc l s : l <> [] -> join (l ++ [s]) = join [join l; s].
Proof.
  intros Hne. induction l as [|x l IH]; [done|]. destruct l as [|y l]; [done|].
  change (join ((x :: y :: l) ++ [s])) with (x +:+ String SEPARATOR (join ((y :: l) ++ [s]))). rewrite IH by done.
  change (join (x :: y :: l)) with (x +:+ String SEPARATOR (join (y :: l))). cbn [join]. by rewrite <- str_app_assoc.
Qed.

Lemma digits_no_sep s : digits_only s = true -> no_colon s = true /\ is_ascii s = true.
Proof.
  intros H. assert (Ha : all_chars is_digit s = true) by (unfold digits_only in H; by destruct s).
  split; apply (all_chars_impl is_digit _ s); try exact Ha; intros c; destruct c as [[] [] [] [] [] [] [] []]; vm_compute; done.
Qed.

Lemma join_ascii l : Forall (fun s => is_ascii s = true) l -> is_ascii (join l) = true.
Proof.
  unfold is_ascii. induction 1 as [|s l Hs Hl IH]; [done|]. destruct l as [|s' l]; [exact Hs|].
  change (join (s :: s' :: l)) with (s +:+ String SEPARATOR (join (s' :: l))). rewrite all_chars_app, Hs. simpl. exact IH.
Qed.

Section roundtrip.
Context (toText : string -> string) (hmac : string -> string -> string).
(** ASCII text decodes as itself; the digest is hexadecimal. *)
Context (Htext : forall s, is_ascii s = true -> toText s = s).
Context (Hhex : forall k d, no_colon (hmac k d) = true /\ is_ascii (hmac k d) = true).

Definition plain (p : CursorPayload) : Prop :=
  0 < cu_createdAt p /\ no_colon (cu_id p) = true /\ is_ascii (cu_id p) = true /\
  no_colon (cu_filterHash p) = true /\ is_ascii (cu_filterHash p) = true.

Lemma decode_encoded p secret expected : plain p ->
  decodeCursor toText hmac (encodeCursor hmac p secret) secret expected =
    if bool_decide (cu_filterHash p = expected) then Ok p else Err ce_filter.
Proof.
  intros (Hc & Hi1 & Hi2 & Hf1 & Hf2). destruct (digits_no_sep (toString (cu_createdAt p))) as [Ht1 Ht2]; [apply toString_digits; lia|].
  unfold decodeCursor, encodeCursor. cbv zeta. rewrite base64_roundtrip. set (fields := [toString (cu_createdAt p); cu_id p; cu_filterHash p]).
  change (cursor_body p) with (join fields). destruct (Hhex secret (join fields)) as [Hh1 Hh2].
  assert (Hall : Forall (fun s => no_colon s = true) (fields ++ [hmac secret (join fields)])) by (by repeat constructor).
  rewrite Htext. 2: { apply join_ascii. constructor; [apply join_ascii; by repeat constructor|by repeat constructor]. }
  rewrite <- (join_snoc fields) by done. rewrite split_join by done. cbn [length fields app Nat.ltb Nat.leb last default take Nat.sub].
  fold fields. unfold timingSafeCompare. rewrite bool_decide_eq_true_2 by done. cbn [negb].
  rewrite (split_join fields) by (by repeat constructor). cbn [length fields Nat.ltb Nat.leb Nat.sub lookup list_lookup default].
  assert (Hca : created_at (toString (cu_createdAt p)) = Some (cu_createdAt p)).
  { unfold created_at. rewrite toString_digits by lia. rewrite BigInt_toString. by rewrite (proj2 (Z.ltb_lt _ _)). }
  simpl. rewrite Hca. case_bool_decide; [|done]. by destruct p.
Qed.
End roundtrip.

(** C37. A cursor gives back the position it was made for, under the filter it was
    made for, and is refused under any other: for every key, digest and payload
    whose id and filter hash are ASCII without the separator. *)
Theorem cursor_roundtrip toText hmac p secret expected
    (Htext : forall s, is_ascii s = true -> toText s = s)
    (Hhex : forall k d, no_colon (hmac k d) = true /\ is_ascii (hmac k d) = true) (Hp : plain p) :
  decodeCursor toText hmac (encodeCursor hmac p secret) secret expected =
    if bool_decide (cu_filterHash p = expected) then Ok p else Err ce_filter.
Proof. by apply decode_encoded. Qed.

Lemma split_nonempty c s : split_on c s <> [].
Proof. destruct s as [|d s]; simpl; [done|]. case_bool_decide; [done|]. by case_match. Qed.

Lemma join_split s : join (split_on SEPARATOR s) = s.
Proof.
  induction s as [|d s IH]; [done|]. cbn [split_on]. pose proof (split_nonempty SEPARATOR s) as Hne. case_bool_decide as Hd.
  - subst d. destruct (split_on SEPARATOR s) as [|w ws]; [done|]. change (String SEPARATOR (join (w :: ws)) = String SEPARATOR s). by rewrite IH.
  - destruct (split_on SEPARATOR s) as [|w [|w' ws]]; [done|simpl in *; by subst|]. simpl in *. by subst s.
Qed.

Lemma last_three {A} (l : list A) d : (3 <= length l)%nat ->
  l = take (length l - 3) l ++ [default d (l !! (length l - 3)%nat); default d (l !! (length l - 2)%nat); default d (l !! (length l - 1)%nat)].
Proof.
  intros Hl. rewrite <- (take_drop (length l - 3) l) at 1. f_equal.
  assert (H3 : length (drop (length l - 3) l) = 3%nat) by (rewrite length_drop; lia).
  assert (Hget : forall i j, (i + j = 3)%nat -> l !! (length l - j)%nat = drop (length l - 3) l !! i) by (intros i j Hi; rewrite lookup_drop; f_equal; lia).
  rewrite (Hget 0%nat 3%nat), (Hget 1%nat 2%nat), (Hget 2%nat 1%nat) by done. by destruct (drop (length l - 3) l) as [|x [|y [|z [|? ?]]]].
Qed.

(** Whatever is sent as a cursor, it is accepted only with the signature of its
    own fields: the decoded text is a body and a signature whose bytes are those
    of the HMAC of the body, the answer is the last three fields of the body,
    and its filter is the one asked for. *)
Theorem cursor_authentic toText hmac cursor secret expected p
    (Hok : decodeCursor toText hmac cursor secret expected = Ok p) :
  exists body sig front createdAt, fromBase64Url toText cursor = join [body; sig] /\
    hex_bytes (chars sig) = hex_bytes (chars (hmac secret body)) /\
    split_on SEPARATOR body = front ++ [createdAt; cu_id p; cu_filterHash p] /\
    created_at createdAt = Some (cu_createdAt p) /\ cu_filterHash p = expected.
Proof.
  unfold decodeCursor in Hok. cbv zeta in Hok. set (parts := split_on SEPARATOR (fromBase64Url toText cursor)) in *.
  destruct (Nat.ltb_spec (length parts) 4) as [|Hlen]; [done|]. destruct (last parts) as [sig|] eqn:Hlast; [|by apply last_None in Hlast; rewrite Hlast in Hlen; simpl in Hlen; lia].
  apply last_Some in Hlast as [front Hfront]. rewrite Hfront, length_app, Nat.add_sub, take_app_length in Hok. simpl in Hok.
  destruct (timingSafeCompare sig (hmac secret (join front))) eqn:Hsig; [|done]. simpl in Hok.
  destruct (Nat.ltb_spec (length (split_on SEPARATOR (join front))) 3) as [|Hlen3]; [done|].
  set (bp := split_on SEPARATOR (join front)) in *. destruct (created_at _) as [createdAt|] eqn:Hca; [|done]. case_bool_decide as Hexp; [|done]. injection Hok as <-.
  exists (join front), sig, (take (length bp - 3) bp), (default EmptyString (bp !! (length bp - 3)%nat)). cbn [cu_createdAt cu_id cu_filterHash].
  split_and!; [|by apply bool_decide_eq_true in Hsig|by apply last_three|done|done].
  rewrite <- (join_split (fromBase64Url toText cursor)). fold parts. rewrite Hfront. apply join_snoc. intros ->. rewrite Hfront in Hlen. simpl in Hlen. lia.
Qed.

(** * Concrete cursors *)

(** A stand-in digest: hex digits of the length of its input. *)
Definition toy_hmac (k d : string) : string := ("ab" +:+ if Nat.even (String.length d) then "00" else "ff")%string.
Definition toy_cursor : CursorPayload := {| cu_createdAt := 1700000000; cu_id := "9f1c-22"; cu_filterHash := "00ffee" |}.

Lemma toy_hmac_hex k d : no_colon (toy_hmac k d) = true /\ is_ascii (toy_hmac k d) = true.
Proof. unfold toy_hmac. by destruct (Nat.even _). Qed.

Lemma cursor_roundtrip_witness :
  encodeCursor toy_hmac toy_cursor "k" = "MTcwMDAwMDAwMDo5ZjFjLTIyOjAwZmZlZTphYmZm"%string /\
  decodeCursor id toy_hmac (encodeCursor toy_hmac toy_cursor "k") "k" "00ffee" = Ok toy_cursor.
Proof.
  split; [vm_compute; reflexivity|]. apply (cursor_roundtrip id toy_hmac toy_cursor "k" "00ffee"); [done|apply toy_hmac_hex|].
  vm_compute. done.
Defined.

Lemma cursor_authentic_witness :
  exists body sig front createdAt, fromBase64Url id "MTcwMDAwMDAwMDo5ZjFjLTIyOjAwZmZlZTphYmZm" = join [body; sig] /\
    hex_bytes (chars sig) = hex_bytes (chars (toy_hmac "k" body)) /\
    split_on SEPARATOR body = front ++ [createdAt; cu_id toy_cursor; cu_filterHash toy_cursor] /\
    created_at createdAt = Some (cu_createdAt toy_cursor) /\ cu_filterHash toy_cursor = "00ffee"%string.
Proof. apply (cursor_authentic id toy_hmac "MTcwMDAwMDAwMDo5ZjFjLTIyOjAwZmZlZTphYmZm" "k" "00ffee" toy_cursor). vm_compute. reflexivity. Defined.

(** An id that holds the separator does not survive: only its last part comes
    back, and the timestamp is read from the part before it. *)
Theorem colon_in_id_lost :
  let p := {| cu_createdAt := 1700000000; cu_id := "7:row"; cu_filterHash := "00ffee" |}%string in
  decodeCursor id toy_hmac (encodeCursor toy_hmac p "k") "k" "00ffee" = Ok {| cu_createdAt := 7; cu_id := "row"; cu_filterHash := "00ffee" |}%string.
Proof. vm_compute. reflexivity. Qed.
