(* ===== verification/LeaderElection.v ===== *)
(** Leader election: [src/common/leader-election/leader-election.service.ts]
    and [postgres-advisory-lock.backend.ts].

    Several replicas run against one database.  Every await of a heartbeat is a
    stage of a [Call]; the events interleave the calls of all replicas with
    lost connections, crashes and shutdowns.  A query takes effect when it is
    answered; it may fail before or after its effect.  Postgres' session-level
    advisory locks are a parameter, [LockServer], with their documented
    behaviour as laws.  The fields [wd_issued] and [wd_unlocked] record
    history. *)
From S2P Require Import Prelude JsMap BigInt.
Local Open Scope Z_scope.

(** A client connection: the replica that opened it and a number. *)
Definition Session : Type := nat * nat.

Class LockServer (T : Type) := {
  no_locks : T;
  holds : T -> Session -> string -> bool;
  pg_try_advisory_lock : Session -> string -> T -> bool * T;
  pg_advisory_unlock : Session -> string -> T -> T;
  end_session : Session -> T -> T;
}.

Class LockServerLaws (T : Type) `{LockServer T} := {
  no_locks_free s k : holds no_locks s k = false;
  try_lock_granted s k t : (pg_try_advisory_lock s k t).1 = true <-> (forall s', s' <> s -> holds t s' k = false);
  try_lock_holds s k t s' k' : holds (pg_try_advisory_lock s k t).2 s' k' =
    (bool_decide (s' = s /\ k' = k) && (pg_try_advisory_lock s k t).1) || holds t s' k';
  unlock_own s k t s' k' : holds (pg_advisory_unlock s k t) s' k' = true -> holds t s' k' = true;
  unlock_frame s k t s' k' : s' <> s -> holds (pg_advisory_unlock s k t) s' k' = holds t s' k';
  end_session_frame s t s' k' : holds (end_session s t) s' k' = bool_decide (s' <> s) && holds t s' k';
}.

(** * Lock keys *)

(** djb2 over 32 bits; worker names are ASCII. *)
Fixpoint djb2 (hash : Z) (name : string) : Z :=
  match name with
  | EmptyString => hash
  | String c name => djb2 (Z.land (hash * 33 + code c) 4294967295) name
  end.

Definition lock_key (workerName : string) : Z :=
  let hash := djb2 5381 workerName in
  let combined := Z.lor (Z.shiftl hash 32) hash in
  if 9223372036854775807 <? combined then combined - 18446744073709551616 else combined.

Definition hashWorkerName (workerName : string) : string := toString (lock_key workerName).

(** * State *)

Record LeadershipState := { ls_isLeader : bool; ls_fencingToken : option Z; ls_acquiredAt : option Z; ls_acquisitionCount : Z }.

Definition not_leader : LeadershipState := {| ls_isLeader := false; ls_fencingToken := None; ls_acquiredAt := None; ls_acquisitionCount := 0 |}.

(** The backend's fields and the service's; callbacks are counted, and what they
    were told is logged. *)
Record Replica := {
  rp_epoch : nat;                         (* the process: restarts count up *)
  rp_client : option Session;
  rp_connected : bool;
  rp_tableEnsured : bool;
  rp_handlers : list Session;             (* clients with an "error" handler *)
  rp_states : jsmap LeadershipState;
  rp_callbacks : jsmap nat;
  rp_notified : list (string * bool * option Z);
}.

Definition fresh_replica (epoch : nat) : Replica :=
  {| rp_epoch := epoch; rp_client := None; rp_connected := false; rp_tableEnsured := false; rp_handlers := [];
     rp_states := []; rp_callbacks := []; rp_notified := [] |}.

Inductive Query := QConnect | QTable | QLock | QFence | QRead | QUnlock.
Inductive Answer := AUnit | AAcquired (b : bool) | AFence (f : Z) | ARow (f : option Z).
Inductive Result := Acquired (token : option Z) | Renewed (b : bool).

(** [At..]: about to run the named stretch; [Waiting]: a query is under way. *)
Inductive Stage :=
  | AtConnect | AtTable | AtQuery | AtEnd (r : Result)
  | Waiting (s : Session) (q : Query)
  | Returned.

(** The heartbeat of one replica at one worker; [cl_token] is the token being
    renewed, [None] for an acquisition. *)
Record Call := { cl_replica : nat; cl_epoch : nat; cl_index : nat; cl_worker : string; cl_token : option Z; cl_stage : Stage }.

Record Issue := { is_worker : string; is_token : Z; is_session : Session }.

Record World {T : Type} := {
  wd_locks : T;
  wd_fences : jsmap Z;                    (* vortex_leader_election *)
  wd_ended : list Session;
  wd_unlocked : list Session;
  wd_issued : list Issue;
  wd_next : nat;
  wd_replicas : list Replica;
  wd_calls : list Call;
}.
Arguments World : clear implicits.

Section model.
Context {T : Type} `{LockServer T}.

Definition with_replicas (l : list Replica) (w : World T) : World T :=
  {| wd_locks := wd_locks w; wd_fences := wd_fences w; wd_ended := wd_ended w; wd_unlocked := wd_unlocked w;
     wd_issued := wd_issued w; wd_next := wd_next w; wd_replicas := l; wd_calls := wd_calls w |}.
Definition with_calls (l : list Call) (w : World T) : World T :=
  {| wd_locks := wd_locks w; wd_fences := wd_fences w; wd_ended := wd_ended w; wd_unlocked := wd_unlocked w;
     wd_issued := wd_issued w; wd_next := wd_next w; wd_replicas := wd_replicas w; wd_calls := l |}.
Definition with_locks (t : T) (unlocked : list Session) (w : World T) : World T :=
  {| wd_locks := t; wd_fences := wd_fences w; wd_ended := wd_ended w; wd_unlocked := unlocked;
     wd_issued := wd_issued w; wd_next := wd_next w; wd_replicas := wd_replicas w; wd_calls := wd_calls w |}.
Definition with_next (n : nat) (w : World T) : World T :=
  {| wd_locks := wd_locks w; wd_fences := wd_fences w; wd_ended := wd_ended w; wd_unlocked := wd_unlocked w;
     wd_issued := wd_issued w; wd_next := n; wd_replicas := wd_replicas w; wd_calls := wd_calls w |}.

Definition on_replica (r : nat) (f : Replica -> Replica) (w : World T) : World T := with_replicas (alter f r (wd_replicas w)) w.

Definition to_stage (st : Stage) (c : Call) : Call :=
  {| cl_replica := cl_replica c; cl_epoch := cl_epoch c; cl_index := cl_index c; cl_worker := cl_worker c; cl_token := cl_token c; cl_stage := st |}.
Definition goto (n : nat) (st : Stage) (w : World T) : World T := with_calls (alter (to_stage st) n (wd_calls w)) w.

(** * The database *)

(** INSERT .. ON CONFLICT DO UPDATE SET fence = fence + 1 RETURNING fence *)
Definition bump_fence (name : string) (s : Session) (w : World T) : Answer * World T :=
  let f := match get name (wd_fences w) with Some f => f + 1 | None => 1 end in
  (AFence f,
   {| wd_locks := wd_locks w; wd_fences := set name f (wd_fences w); wd_ended := wd_ended w; wd_unlocked := wd_unlocked w;
      wd_issued := wd_issued w ++ [{| is_worker := name; is_token := f; is_session := s |}]; wd_next := wd_next w;
      wd_replicas := wd_replicas w; wd_calls := wd_calls w |}).

Definition exec (s : Session) (q : Query) (name : string) (w : World T) : Answer * World T :=
  match q with
  | QConnect | QTable => (AUnit, w)
  | QLock => let '(b, t) := pg_try_advisory_lock s (hashWorkerName name) (wd_locks w) in (AAcquired b, with_locks t (wd_unlocked w) w)
  | QFence => bump_fence name s w
  | QRead => (ARow (get name (wd_fences w)), w)
  | QUnlock => (AUnit, with_locks (pg_advisory_unlock s (hashWorkerName name) (wd_locks w)) (wd_unlocked w ++ [s]) w)
  end.

(** * The backend *)

(** The assignments of the catch blocks and of the "error" handler. *)
Definition reset_backend (rp : Replica) : Replica :=
  {| rp_epoch := rp_epoch rp; rp_client := None; rp_connected := false; rp_tableEnsured := false; rp_handlers := rp_handlers rp;
     rp_states := rp_states rp; rp_callbacks := rp_callbacks rp; rp_notified := rp_notified rp |}.
Definition open_client (s : Session) (rp : Replica) : Replica :=
  {| rp_epoch := rp_epoch rp; rp_client := Some s; rp_connected := rp_connected rp; rp_tableEnsured := rp_tableEnsured rp;
     rp_handlers := rp_handlers rp; rp_states := rp_states rp; rp_callbacks := rp_callbacks rp; rp_notified := rp_notified rp |}.
Definition established (s : Session) (rp : Replica) : Replica :=
  {| rp_epoch := rp_epoch rp; rp_client := rp_client rp; rp_connected := true; rp_tableEnsured := false;
     rp_handlers := rp_handlers rp ++ [s]; rp_states := rp_states rp; rp_callbacks := rp_callbacks rp; rp_notified := rp_notified rp |}.
Definition table_ensured (rp : Replica) : Replica :=
  {| rp_epoch := rp_epoch rp; rp_client := rp_client rp; rp_connected := rp_connected rp; rp_tableEnsured := true;
     rp_handlers := rp_handlers rp; rp_states := rp_states rp; rp_callbacks := rp_callbacks rp; rp_notified := rp_notified rp |}.

(** What [tryAcquire] and [renew] return from their catch block. *)
Definition failed (c : Call) : Result := match cl_token c with None => Acquired None | Some _ => Renewed false end.

Definition fail_call (n : nat) (c : Call) (w : World T) : World T :=
  goto n (AtEnd (failed c)) (on_replica (cl_replica c) reset_backend w).

(** [this.client!.query(..)]: a missing client is a TypeError, caught. *)
Definition send (n : nat) (c : Call) (rp : Replica) (q : Query) (w : World T) : World T :=
  match rp_client rp with
  | Some s => goto n (Waiting s q) w
  | None => fail_call n c w
  end.

Definition ensureConnected (n : nat) (c : Call) (rp : Replica) (w : World T) : World T :=
  if rp_connected rp && bool_decide (is_Some (rp_client rp)) then goto n AtTable w
  else
    let s := (cl_replica c, wd_next w) in
    goto n (Waiting s QConnect) (on_replica (cl_replica c) (open_client s) (with_next (S (wd_next w)) w)).

Definition ensureTable (n : nat) (c : Call) (rp : Replica) (w : World T) : World T :=
  if rp_tableEnsured rp then goto n AtQuery w else send n c rp QTable w.

(** The code after an answered query. *)
Definition answered (n : nat) (c : Call) (rp : Replica) (a : Answer) (q : Query) (w : World T) : World T :=
  match q, a with
  | QConnect, _ =>
      match rp_client rp with
      | Some s => goto n AtTable (on_replica (cl_replica c) (established s) w)
      | None => fail_call n c w
      end
  | QTable, _ => goto n AtQuery (on_replica (cl_replica c) table_ensured w)
  | QLock, AAcquired true => send n c rp QFence w
  | QLock, _ => goto n (AtEnd (Acquired None)) w
  | QFence, AFence f => goto n (AtEnd (Acquired (Some f))) w
  | QRead, ARow (Some f) => goto n (AtEnd (Renewed (bool_decide (cl_token c = Some f)))) w
  | QRead, _ => goto n (AtEnd (Renewed false)) w
  | _, _ => goto n Returned w
  end.

(** * The service *)

Definition notify (name : string) (b : bool) (t : option Z) (rp : Replica) : list (string * bool * option Z) :=
  rp_notified rp ++ replicate (default 0%nat (get name (rp_callbacks rp))) (name, b, t).

Definition with_state (name : string) (st : LeadershipState) (notified : list (string * bool * option Z)) (rp : Replica) : Replica :=
  {| rp_epoch := rp_epoch rp; rp_client := rp_client rp; rp_connected := rp_connected rp; rp_tableEnsured := rp_tableEnsured rp;
     rp_handlers := rp_handlers rp; rp_states := set name st (rp_states rp); rp_callbacks := rp_callbacks rp; rp_notified := notified |}.

Definition acquisitions (name : string) (rp : Replica) : Z :=
  match get name (rp_states rp) with Some st => ls_acquisitionCount st | None => 0 end.

Definition promote (name : string) (token now : Z) (rp : Replica) : Replica :=
  with_state name {| ls_isLeader := true; ls_fencingToken := Some token; ls_acquiredAt := Some now;
                     ls_acquisitionCount := acquisitions name rp + 1 |} (notify name true (Some token) rp) rp.

Definition demote (name : string) (rp : Replica) : Replica :=
  with_state name {| ls_isLeader := false; ls_fencingToken := None; ls_acquiredAt := None;
                     ls_acquisitionCount := acquisitions name rp |} (notify name false None rp) rp.

(** The rest of [tick]. *)
Definition tick_end (name : string) (res : Result) (now : Z) (rp : Replica) : Replica :=
  match res with
  | Acquired (Some t) => promote name t now rp
  | Acquired None | Renewed true => rp
  | Renewed false => demote name rp
  end.

(** The next turn of the loop of [heartbeat]: the tick of the worker at this
    position of the map, if there is one. *)
Definition next_tick (r i : nat) (rp : Replica) : Call :=
  match rp_states rp !! i with
  | Some (name, st) =>
      {| cl_replica := r; cl_epoch := rp_epoch rp; cl_index := i; cl_worker := name;
         cl_token := if ls_isLeader st then Some (default 0 (ls_fencingToken st)) else None; cl_stage := AtConnect |}
  | None => {| cl_replica := r; cl_epoch := rp_epoch rp; cl_index := i; cl_worker := EmptyString; cl_token := None; cl_stage := Returned |}
  end.

Definition end_tick (n : nat) (c : Call) (res : Result) (now : Z) (rp : Replica) (w : World T) : World T :=
  let rp' := tick_end (cl_worker c) res now rp in
  let w := on_replica (cl_replica c) (fun _ => rp') w in
  with_calls (<[n := next_tick (cl_replica c) (S (cl_index c)) rp']> (wd_calls w)) w.

Definition registerWorker (name : string) (rp : Replica) : Replica :=
  {| rp_epoch := rp_epoch rp; rp_client := rp_client rp; rp_connected := rp_connected rp; rp_tableEnsured := rp_tableEnsured rp;
     rp_handlers := rp_handlers rp;
     rp_states := if has name (rp_states rp) then rp_states rp else set name not_leader (rp_states rp);
     rp_callbacks := set name (S (default 0%nat (get name (rp_callbacks rp)))) (rp_callbacks rp);
     rp_notified := rp_notified rp |}.

(** [release] of every led worker, when the service is destroyed. *)
Definition release_calls (r : nat) (rp : Replica) : list Call :=
  match rp_connected rp, rp_client rp with
  | true, Some s =>
      omap (fun '(name, st) =>
        if ls_isLeader st && bool_decide (is_Some (ls_fencingToken st))
        then Some {| cl_replica := r; cl_epoch := rp_epoch rp; cl_index := 0; cl_worker := name; cl_token := None; cl_stage := Waiting s QUnlock |}
        else None) (rp_states rp)
  | _, _ => []
  end.

(** * Events *)

Inductive Reply := Replied | Failed (applied : bool).

Inductive ElectionEvent :=
  | EvRegister (r : nat) (name : string)
  | EvHeartbeat (r : nat)
  | EvResume (n : nat) (reply : Reply) (now : Z)     (* call [n] goes on *)
  | EvSessionEnd (s : Session)                       (* the server drops the session *)
  | EvClientError (r : nat) (s : Session)            (* a client reports an error *)
  | EvCrash (r : nat)                                (* the process restarts *)
  | EvShutdown (r : nat)
  | EvClientEnd (r : nat).                           (* [client.end()] of the backend *)

(** A query on a session that has ended fails. *)
Definition perform (s : Session) (q : Query) (name : string) (reply : Reply) (w : World T) : option Answer * World T :=
  if bool_decide (s ∈ wd_ended w) then (None, w)
  else
    let '(a, w') := exec s q name w in
    match reply with Replied => (Some a, w') | Failed true => (None, w') | Failed false => (None, w) end.

(** What the caller does next; the process that sent the query may be gone. *)
Definition continue (n : nat) (c : Call) (a : option Answer) (now : Z) (w : World T) : World T :=
  match wd_replicas w !! cl_replica c with
  | None => goto n Returned w
  | Some rp =>
      if negb (rp_epoch rp =? cl_epoch c)%nat then goto n Returned w
      else
        match cl_stage c with
        | AtConnect => ensureConnected n c rp w
        | AtTable => ensureTable n c rp w
        | AtQuery => send n c rp (match cl_token c with Some _ => QRead | None => QLock end) w
        | AtEnd res => end_tick n c res now rp w
        | Waiting s QUnlock => goto n Returned w
        | Waiting s q => match a with Some a => answered n c rp a q w | None => fail_call n c w end
        | Returned => w
        end
  end.

Definition resume (n : nat) (reply : Reply) (now : Z) (w : World T) : World T :=
  match wd_calls w !! n with
  | None => w
  | Some c =>
      match cl_stage c with
      | Waiting s q => let '(a, w') := perform s q (cl_worker c) reply w in continue n c a now w'
      | _ => continue n c None now w
      end
  end.

Definition end_server_session (s : Session) (w : World T) : World T :=
  {| wd_locks := end_session s (wd_locks w); wd_fences := wd_fences w; wd_ended := wd_ended w ++ [s]; wd_unlocked := wd_unlocked w;
     wd_issued := wd_issued w; wd_next := wd_next w; wd_replicas := wd_replicas w; wd_calls := wd_calls w |}.

Definition add_calls (l : list Call) (w : World T) : World T := with_calls (wd_calls w ++ l) w.

Definition election_step (w : World T) (ev : ElectionEvent) : World T :=
  match ev with
  | EvRegister r name => on_replica r (registerWorker name) w
  | EvHeartbeat r => match wd_replicas w !! r with Some rp => add_calls [next_tick r 0 rp] w | None => w end
  | EvResume n reply now => resume n reply now w
  | EvSessionEnd s => end_server_session s w
  | EvClientError r s =>
      match wd_replicas w !! r with
      | Some rp => if bool_decide (s ∈ rp_handlers rp) then on_replica r reset_backend w else w
      | None => w
      end
  | EvCrash r => on_replica r (fun rp => fresh_replica (S (rp_epoch rp))) w
  | EvShutdown r => match wd_replicas w !! r with Some rp => add_calls (release_calls r rp) w | None => w end
  | EvClientEnd r =>
      match wd_replicas w !! r with
      | Some rp => match rp_client rp with Some s => on_replica r reset_backend (end_server_session s w) | None => w end
      | None => w
      end
  end.

Definition new_world (replicas : nat) : World T :=
  {| wd_locks := no_locks; wd_fences := []; wd_ended := []; wd_unlocked := []; wd_issued := []; wd_next := 0;
     wd_replicas := replicate replicas (fresh_replica 0); wd_calls := [] |}.

Definition election (replicas : nat) (evs : list ElectionEvent) : World T := foldl election_step (new_world replicas) evs.

(** [leads w r name t]: replica [r] takes itself for the leader, with token [t]. *)
Definition leads (w : World T) (r : nat) (name : string) (t : Z) : Prop :=
  exists rp st, wd_replicas w !! r = Some rp /\ get name (rp_states rp) = Some st /\ ls_isLeader st = true /\ ls_fencingToken st = Some t.

(** ... and the session that was given the token still lives and released
    nothing. *)
Definition backed (w : World T) (r : nat) (name : string) : Prop :=
  exists t i, leads w r name t /\ i ∈ wd_issued w /\ is_worker i = name /\ is_token i = t /\
    is_session i ∉ wd_ended w /\ is_session i ∉ wd_unlocked w.
End model.
