(* ===== verification/LeaderSafety.v ===== *)
(** Leader election, proofs: fencing tokens are never shared, and at most one
    leader is backed by a living, unreleased session. *)
From S2P Require Import Prelude JsMap BigInt LeaderElection.
Local Open Scope Z_scope.

(** * A predicate of every element of a list, with its position *)

Definition each {A} (P : nat -> A -> Prop) (l : list A) : Prop := forall n a, l !! n = Some a -> P n a.

Lemma each_mono {A} (P Q : nat -> A -> Prop) l : (forall n a, P n a -> Q n a) -> each P l -> each Q l.
Proof. intros Hi He n a Hn. eauto. Qed.

Lemma each_alter {A} (P : nat -> A -> Prop) f n l : (forall a, P n a -> P n (f a)) -> each P l -> each P (alter f n l).
Proof.
  intros Hf He m a Hm. destruct (decide (n = m)) as [<-|Hne].
  - rewrite list_lookup_alter_eq in Hm. apply fmap_Some in Hm as (b & Hb & ->). eauto.
  - rewrite list_lookup_alter_ne in Hm by done. eauto.
Qed.

Lemma each_insert {A} (P : nat -> A -> Prop) n x l : P n x -> each P l -> each P (<[n := x]> l).
Proof. intros Hx He m a Hm. apply list_lookup_insert_Some in Hm as [(<- & <- & _)|[_ Hm]]; eauto. Qed.

Lemma each_app {A} (P : nat -> A -> Prop) l l' : (forall n a, a ∈ l' -> P n a) -> each P l -> each P (l ++ l').
Proof. intros Hn He m a Hm. apply lookup_app_Some in Hm as [Hm|[_ Hm]]; [eauto|]. apply Hn. by eapply list_elem_of_lookup_2. Qed.

Lemma alter_insert {A} (f : A -> A) (n : nat) (l : list A) a : l !! n = Some a -> alter f n l = <[n := f a]> l.
Proof.
  intros Hn. apply list_eq. intros m. destruct (decide (n = m)) as [<-|Hne].
  - rewrite list_lookup_alter_eq, Hn, list_lookup_insert_eq; [done|]. by apply lookup_lt_Some in Hn.
  - by rewrite list_lookup_alter_ne, list_lookup_insert_ne.
Qed.

(** * Lock keys *)

Lemma djb2_range hash name : 0 <= hash < 2 ^ 32 -> 0 <= djb2 hash name < 2 ^ 32.
Proof.
  revert hash. induction name as [|c name IH]; intros hash Hh; [done|]. apply IH.
  change 4294967295 with (Z.ones 32). rewrite Z.land_ones by lia. by apply Z.mod_pos_bound.
Qed.

Lemma lock_key_value name : let h := djb2 5381 name in
  lock_key name = (if h <? 2 ^ 31 then h * 2 ^ 32 + h else h * 2 ^ 32 + h - 2 ^ 64).
Proof.
  intros h. pose proof (djb2_range 5381 name ltac:(lia)) as Hr. fold h in Hr. unfold lock_key. fold h.
  rewrite lor_shiftl_add by lia. clearbody h. destruct (Z.ltb_spec h (2 ^ 31)); destruct (Z.ltb_spec 9223372036854775807 (h * 2 ^ 32 + h)); lia.
Qed.

(** The lock key is a Postgres bigint, and two workers share it exactly when
    their 32-bit hashes are equal. *)
Theorem lock_key_exact (a b : string) :
  - 2 ^ 63 <= lock_key a < 2 ^ 63 /\ (hashWorkerName a = hashWorkerName b <-> djb2 5381 a = djb2 5381 b).
Proof.
  pose proof (djb2_range 5381 a ltac:(lia)). pose proof (djb2_range 5381 b ltac:(lia)).
  unfold hashWorkerName. pose proof (lock_key_value a) as Ha. pose proof (lock_key_value b) as Hb. cbv zeta in Ha, Hb. split.
  - rewrite Ha. destruct (Z.ltb_spec (djb2 5381 a) (2 ^ 31)); lia.
  - split; intros E.
    + apply toString_inj in E. rewrite Ha, Hb in E.
      destruct (Z.ltb_spec (djb2 5381 a) (2 ^ 31)), (Z.ltb_spec (djb2 5381 b) (2 ^ 31)); lia.
    + f_equal. unfold lock_key. by rewrite E.
Qed.

Section safety.
Context {T : Type} `{LockServer T} `{!LockServerLaws T}.
Implicit Types (w : World T) (c : Call) (rp : Replica).

(** * Tokens *)

Definition issued_to (l : list Issue) (r : nat) (name : string) (t : Z) : Prop :=
  exists i, i ∈ l /\ is_worker i = name /\ is_token i = t /\ (is_session i).1 = r.

Definition replica_ok (l : list Issue) (r : nat) (rp : Replica) : Prop :=
  (forall s, rp_client rp = Some s -> s.1 = r) /\
  (forall name st t, get name (rp_states rp) = Some st -> ls_isLeader st = true -> ls_fencingToken st = Some t -> issued_to l r name t).

Definition call_ok (l : list Issue) (_ : nat) (c : Call) : Prop :=
  match cl_stage c with
  | AtEnd (Acquired (Some t)) => issued_to l (cl_replica c) (cl_worker c) t
  | Waiting s _ => s.1 = cl_replica c
  | _ => True
  end.

Definition issue_key (i : Issue) : string * Z := (is_worker i, is_token i).

Record ids_ok (w : World T) : Prop := {
  io_nodup : NoDup (issue_key <$> wd_issued w);
  io_fence : forall i, i ∈ wd_issued w -> exists f, get (is_worker i) (wd_fences w) = Some f /\ is_token i <= f;
  io_replicas : each (replica_ok (wd_issued w)) (wd_replicas w);
  io_calls : each (call_ok (wd_issued w)) (wd_calls w);
}.

Lemma replica_ok_app l l' r rp : replica_ok l r rp -> replica_ok (l ++ l') r rp.
Proof.
  intros [Hc Hl]. split; [done|]. intros name st t H1 H2 H3. destruct (Hl name st t H1 H2 H3) as (i & ? & ?).
  exists i. split; [|done]. apply elem_of_app. by left.
Qed.

Lemma issued_to_app l l' r name t : issued_to l r name t -> issued_to (l ++ l') r name t.
Proof. intros (i & ? & ?). exists i. split; [|done]. apply elem_of_app. by left. Qed.

Lemma call_ok_app l l' n c : call_ok l n c -> call_ok (l ++ l') n c.
Proof. unfold call_ok. destruct (cl_stage c) as [| | |[[t|]|]| |]; eauto using issued_to_app. Qed.

(** Changes on the clients' side. *)
Lemma on_replica_ids r f w :
  (forall rp, replica_ok (wd_issued w) r rp -> replica_ok (wd_issued w) r (f rp)) -> ids_ok w -> ids_ok (on_replica r f w).
Proof. intros Hf [Hn Hfe Hr Hc]. split; simpl; [done|done| |done]. by apply each_alter. Qed.

Lemma with_calls_ids l w : each (call_ok (wd_issued w)) l -> ids_ok w -> ids_ok (with_calls l w).
Proof. intros Hl [Hn Hfe Hr Hc]. by split. Qed.

Lemma goto_ids n st w :
  (forall c, wd_calls w !! n = Some c -> call_ok (wd_issued w) n (to_stage st c)) -> ids_ok w -> ids_ok (goto n st w).
Proof.
  intros Hs Hok. unfold goto. destruct (wd_calls w !! n) as [c|] eqn:En.
  - rewrite (alter_insert _ _ _ _ En). apply with_calls_ids; [|done]. apply each_insert; [by apply Hs|by apply io_calls].
  - apply with_calls_ids; [|done]. intros m a Hm. assert (m <> n).
    { intros ->. rewrite list_lookup_alter_eq, En in Hm. done. }
    rewrite list_lookup_alter_ne in Hm by done. by apply (io_calls _ Hok).
Qed.

Definition plain (st : Stage) : bool :=
  match st with AtEnd (Acquired (Some _)) | Waiting _ _ => false | _ => true end.

Lemma goto_plain_ids n st w : plain st = true -> ids_ok w -> ids_ok (goto n st w).
Proof. intros Hp. apply goto_ids. intros c _. unfold call_ok. simpl. by destruct st as [| | |[[]|]| |]. Qed.

Lemma fail_call_ids n c w : ids_ok w -> ids_ok (fail_call n c w).
Proof. intros Hok. apply goto_plain_ids; [unfold failed; by destruct (cl_token c)|]. apply on_replica_ids; [|done]. intros rp [_ ?]. by split. Qed.

Lemma send_ids n c rp q w : wd_calls w !! n = Some c -> wd_replicas w !! cl_replica c = Some rp -> ids_ok w -> ids_ok (send n c rp q w).
Proof.
  intros Hn Hr Hok. unfold send. destruct (rp_client rp) as [s|] eqn:Es; [|by apply fail_call_ids].
  apply goto_ids; [|done]. intros c' Hc'. simplify_eq. simpl. by apply (io_replicas _ Hok _ _ Hr).
Qed.

(** What an answer tells: a fence has been issued to the asking replica. *)
Definition answer_ok (l : list Issue) (r : nat) (name : string) (a : option Answer) : Prop :=
  match a with Some (AFence f) => issued_to l r name f | _ => True end.

Lemma answered_ids n c rp a q w : wd_calls w !! n = Some c -> wd_replicas w !! cl_replica c = Some rp ->
  answer_ok (wd_issued w) (cl_replica c) (cl_worker c) (Some a) -> ids_ok w -> ids_ok (answered n c rp a q w).
Proof.
  intros Hn Hr Ha Hok. assert (Hkeep : forall f, (forall rp, rp_client (f rp) = rp_client rp) -> (forall rp, rp_states (f rp) = rp_states rp) ->
    ids_ok (on_replica (cl_replica c) f w)).
  { intros f H1 H2. apply on_replica_ids; [|done]. intros rp' [Hc Hl]. unfold replica_ok. rewrite H1, H2. by split. }
  unfold answered. destruct q.
  - destruct (rp_client rp); [|by apply fail_call_ids]. apply goto_plain_ids; [done|]. by apply Hkeep.
  - apply goto_plain_ids; [done|]. by apply Hkeep.
  - destruct a as [|[]| |]; try (by apply goto_plain_ids). by apply send_ids.
  - destruct a as [| |f|]; try (by apply goto_plain_ids). apply goto_ids; [|done]. intros c' Hc'. by simplify_eq.
  - destruct a as [| | |[f|]]; by apply goto_plain_ids.
  - by apply goto_plain_ids.
Qed.

Lemma tick_end_ok l r name res now rp :
  (forall t, res = Acquired (Some t) -> issued_to l r name t) -> replica_ok l r rp -> replica_ok l r (tick_end name res now rp).
Proof.
  intros Ht Hok. assert (Hw : forall st nt, (forall t, ls_isLeader st = true -> ls_fencingToken st = Some t -> issued_to l r name t) ->
    replica_ok l r (with_state name st nt rp)).
  { intros st nt Hst. destruct Hok as [Hc Hl]. split; [done|]. intros name' st' t. simpl. rewrite get_set.
    case_decide as E; [|by apply Hl]. intros. simplify_eq. by apply Hst. }
  destruct res as [[t|]|[]]; simpl; [|done|done|]; apply Hw; simpl; intros; [|done]. simplify_eq. by apply Ht.
Qed.

Lemma next_tick_ok l n r i rp : call_ok l n (next_tick r i rp).
Proof. unfold next_tick, call_ok. by destruct (rp_states rp !! i) as [[??]|]. Qed.

Lemma end_tick_ids n c res now rp w : wd_calls w !! n = Some c -> cl_stage c = AtEnd res -> wd_replicas w !! cl_replica c = Some rp ->
  ids_ok w -> ids_ok (end_tick n c res now rp w).
Proof.
  intros Hn Hst Hr Hok. unfold end_tick. pose proof (io_replicas _ Hok _ _ Hr) as Hrp. pose proof (io_calls _ Hok _ _ Hn) as Hcl.
  apply with_calls_ids.
  - apply each_insert; [apply next_tick_ok|]. apply (io_calls _ Hok).
  - apply on_replica_ids; [|done]. intros _ _. apply tick_end_ok; [|done]. intros t ->. unfold call_ok in Hcl. by rewrite Hst in Hcl.
Qed.

Lemma continue_ids n c a now w : wd_calls w !! n = Some c -> answer_ok (wd_issued w) (cl_replica c) (cl_worker c) a ->
  ids_ok w -> ids_ok (continue n c a now w).
Proof.
  intros Hn Ha Hok. unfold continue. destruct (wd_replicas w !! cl_replica c) as [rp|] eqn:Hr; [|by apply goto_plain_ids].
  destruct (negb _); [by apply goto_plain_ids|]. destruct (cl_stage c) as [| | |res|s q|] eqn:Hst; [| | | | |done].
  - unfold ensureConnected. destruct (_ && _); [by apply goto_plain_ids|]. apply goto_ids.
    + simpl. intros c' Hc'. by simplify_eq.
    + apply on_replica_ids; [|destruct Hok; by split]. intros rp' [Hc Hl]. split; [|done]. simpl. by intros s [= <-].
  - unfold ensureTable. destruct (rp_tableEnsured rp); [by apply goto_plain_ids|by apply send_ids].
  - by apply send_ids.
  - by apply end_tick_ids.
  - destruct q; try (by apply goto_plain_ids); destruct a; solve [by apply answered_ids|by apply fail_call_ids].
Qed.

(** The database. *)
Lemma exec_frame s q name w : wd_replicas (exec s q name w).2 = wd_replicas w /\ wd_calls (exec s q name w).2 = wd_calls w /\ wd_ended (exec s q name w).2 = wd_ended w.
Proof. unfold exec, bump_fence. destruct q; try done. by destruct (pg_try_advisory_lock _ _ _). Qed.

Lemma bump_fence_ids name s w : ids_ok w ->
  ids_ok (bump_fence name s w).2 /\ answer_ok (wd_issued (bump_fence name s w).2) s.1 name (Some (bump_fence name s w).1).
Proof.
  intros [Hn Hfe Hr Hc]. unfold bump_fence. simpl. set (f := match get name (wd_fences w) with Some f => f + 1 | None => 1 end).
  assert (Hnew : forall i, i ∈ wd_issued w -> is_worker i = name -> is_token i < f).
  { intros i Hi <-. destruct (Hfe i Hi) as (f0 & E & ?). subst f. rewrite E. lia. }
  split; [split; simpl|].
  - rewrite fmap_app. apply NoDup_app. split_and!; [done| |apply NoDup_singleton]. intros x Hx Hx'.
    apply list_elem_of_fmap in Hx as (i & -> & Hi). apply list_elem_of_singleton in Hx'. injection Hx' as E1 E2.
    pose proof (Hnew i Hi E1). simpl in *. lia.
  - intros i Hi. rewrite get_set. apply elem_of_app in Hi as [Hi| ->%list_elem_of_singleton].
    + case_decide as E; [|by apply Hfe]. exists f. split; [done|]. symmetry in E. pose proof (Hnew i Hi E). lia.
    + simpl. rewrite decide_True by done. eauto with lia.
  - eapply each_mono; [|exact Hr]. intros. by apply replica_ok_app.
  - eapply each_mono; [|exact Hc]. intros. by apply call_ok_app.
  - eexists. split; [apply elem_of_app; right; by apply list_elem_of_singleton|done].
Qed.

Lemma exec_ids s q name w : ids_ok w ->
  ids_ok (exec s q name w).2 /\ answer_ok (wd_issued (exec s q name w).2) s.1 name (Some (exec s q name w).1).
Proof.
  intros Hok. destruct q; simpl; try done; [| |by destruct Hok].
  - destruct (pg_try_advisory_lock _ _ _). destruct Hok. by split.
  - by apply bump_fence_ids.
Qed.

Lemma perform_frame s q name reply w : wd_replicas (perform s q name reply w).2 = wd_replicas w /\ wd_calls (perform s q name reply w).2 = wd_calls w.
Proof.
  unfold perform. case_bool_decide; [done|]. destruct (exec s q name w) as [a w'] eqn:E.
  pose proof (exec_frame s q name w) as (? & ? & ?). rewrite E in *. by destruct reply as [|[]].
Qed.

Lemma perform_ids s q name reply w : ids_ok w ->
  ids_ok (perform s q name reply w).2 /\ answer_ok (wd_issued (perform s q name reply w).2) s.1 name (perform s q name reply w).1.
Proof.
  intros Hok. unfold perform. case_bool_decide; [done|]. pose proof (exec_ids s q name w Hok) as [H1 H2].
  destruct (exec s q name w) as [a w']. by destruct reply as [|[]].
Qed.

Lemma resume_ids n reply now w : ids_ok w -> ids_ok (resume n reply now w).
Proof.
  intros Hok. unfold resume. destruct (wd_calls w !! n) as [c|] eqn:Hn; [|done].
  destruct (cl_stage c) as [| | |res|s q|] eqn:Hst; try (by apply continue_ids).
  pose proof (perform_ids s q (cl_worker c) reply w Hok) as [H1 H2]. pose proof (perform_frame s q (cl_worker c) reply w) as [_ H4].
  pose proof (io_calls _ Hok _ _ Hn) as Hcl. unfold call_ok in Hcl. rewrite Hst in Hcl.
  destruct (perform s q (cl_worker c) reply w) as [a w']. simpl in *. apply continue_ids; [by rewrite H4| |done]. by rewrite <- Hcl.
Qed.

Lemma election_step_ids w ev : ids_ok w -> ids_ok (election_step w ev).
Proof.
  intros Hok. assert (Hend : forall s, ids_ok (end_server_session s w)) by (intros; destruct Hok; by split).
  assert (Hreset : forall r w, ids_ok w -> ids_ok (on_replica r reset_backend w)).
  { intros r w' Hok'. apply on_replica_ids; [|done]. intros rp [_ ?]. by split. }
  destruct ev as [r name|r|n reply now|s|r s|r|r|r]; simpl.
  - apply on_replica_ids; [|done]. intros rp [Hc Hl]. split; [done|]. intros name' st t. simpl.
    destruct (has name (rp_states rp)); [by apply Hl|]. rewrite get_set. case_decide; [|by apply Hl]. intros [= <-]. done.
  - destruct (wd_replicas w !! r) as [rp|]; [|done]. apply with_calls_ids; [|done]. apply each_app; [|apply (io_calls _ Hok)].
    intros m c ->%list_elem_of_singleton. apply next_tick_ok.
  - by apply resume_ids.
  - apply Hend.
  - destruct (wd_replicas w !! r) as [rp|]; [|done]. case_bool_decide; [by apply Hreset|done].
  - apply on_replica_ids; [|done]. intros rp _. by split.
  - destruct (wd_replicas w !! r) as [rp|] eqn:Hr; [|done]. apply with_calls_ids; [|done]. apply each_app; [|apply (io_calls _ Hok)].
    intros m c Hc. unfold release_calls in Hc. destruct (rp_connected rp), (rp_client rp) as [s|] eqn:Es; try by apply not_elem_of_nil in Hc.
    apply list_elem_of_omap in Hc as ([name st] & _ & Hc). destruct (_ && _); simplify_eq. unfold call_ok. simpl.
    by apply (io_replicas _ Hok _ _ Hr).
  - destruct (wd_replicas w !! r) as [rp|]; [|done]. destruct (rp_client rp); [|done]. apply Hreset, Hend.
Qed.

Lemma new_world_ids n : ids_ok (new_world n).
Proof.
  split; simpl; [apply NoDup_nil_2|intros i Hi; by apply not_elem_of_nil in Hi| |done].
  intros m rp Hm. apply lookup_replicate in Hm as [-> _]. by split.
Qed.

Lemma election_ids n evs : ids_ok (election n evs).
Proof.
  unfold election. generalize (new_world_ids n). generalize (new_world n). induction evs as [|ev evs IH]; intros w Hw; [done|].
  apply IH, election_step_ids, Hw.
Qed.

Lemma issue_unique w i j : ids_ok w -> i ∈ wd_issued w -> j ∈ wd_issued w -> issue_key i = issue_key j -> i = j.
Proof.
  intros Hok Hi Hj E. apply list_elem_of_lookup in Hi as [a Ha], Hj as [b Hb].
  assert (a = b) as ->; [|congruence]. eapply NoDup_lookup; [apply (io_nodup _ Hok)| |]; rewrite list_lookup_fmap; [by rewrite Ha|rewrite Hb; simpl; by rewrite E].
Qed.

Lemma leads_issued n evs r name t : leads (election n evs) r name t -> issued_to (wd_issued (election n evs)) r name t.
Proof. intros (rp & st & Hr & Hg & Hl & Ht). eapply (io_replicas _ (election_ids n evs) _ _ Hr); eauto. Qed.

(** A fencing token of a worker is held by one replica only, whatever
    connections, queries and processes fail. *)
Theorem tokens_are_unique (n : nat) (evs : list ElectionEvent) (r1 r2 : nat) (name : string) (t : Z)
    (H1 : leads (election n evs) r1 name t) (H2 : leads (election n evs) r2 name t) : r1 = r2.
Proof.
  apply leads_issued in H1 as (i & Hi & ? & ? & <-), H2 as (j & Hj & ? & ? & <-).
  assert (i = j) as ->; [|done]. eapply issue_unique; [apply election_ids|done|done|]. unfold issue_key. congruence.
Qed.

(** * One heartbeat at a time *)

Definition beating (st : Stage) : bool := match st with Returned | Waiting _ QUnlock => false | _ => true end.

(** [c] is a heartbeat of the running process of its replica. *)
Definition beats (l : list Replica) (c : Call) : Prop :=
  beating (cl_stage c) = true /\ exists rp, l !! cl_replica c = Some rp /\ rp_epoch rp = cl_epoch c.

Record paced_ok (w : World T) : Prop := {
  po_epoch : forall n c rp, wd_calls w !! n = Some c -> wd_replicas w !! cl_replica c = Some rp -> (cl_epoch c <= rp_epoch rp)%nat;
  po_one : forall n m c d, wd_calls w !! n = Some c -> wd_calls w !! m = Some d ->
    beats (wd_replicas w) c -> beats (wd_replicas w) d -> cl_replica c = cl_replica d -> n = m;
  po_client : forall n c s q rp, wd_calls w !! n = Some c -> beats (wd_replicas w) c -> cl_stage c = Waiting s q ->
    wd_replicas w !! cl_replica c = Some rp -> rp_client rp = None \/ rp_client rp = Some s;
}.

(** The running heartbeat moves on, and with it its replica. *)
Lemma move_paced n c c' rp rp' w w' :
  paced_ok w -> wd_calls w !! n = Some c -> beats (wd_replicas w) c -> wd_replicas w !! cl_replica c = Some rp ->
  wd_calls w' = <[n := c']> (wd_calls w) -> wd_replicas w' = <[cl_replica c := rp']> (wd_replicas w) ->
  rp_epoch rp' = rp_epoch rp -> cl_replica c' = cl_replica c -> cl_epoch c' = rp_epoch rp ->
  (forall s q, cl_stage c' = Waiting s q -> rp_client rp' = None \/ rp_client rp' = Some s) -> paced_ok w'.
Proof.
  intros [He Ho Hc] Hn Hb Hr Ec Er Erp Ecr Ece Hst.
  assert (Hlt : (cl_replica c < length (wd_replicas w))%nat) by (by eapply lookup_lt_Some).
  assert (Hback : forall d, cl_replica d <> cl_replica c -> beats (wd_replicas w') d -> beats (wd_replicas w) d).
  { intros d Hd [H1 (x & Hx & Ex)]. split; [done|]. rewrite Er, list_lookup_insert_ne in Hx by done. eauto. }
  assert (Hback' : forall d, cl_replica d = cl_replica c -> beats (wd_replicas w') d -> beats (wd_replicas w) d).
  { intros d Hd [H1 (x & Hx & Ex)]. split; [done|]. rewrite Er, Hd, list_lookup_insert_eq in Hx by done. simplify_eq.
    rewrite Hd. exists rp. split; [done|congruence]. }
  assert (Hother : forall m d, wd_calls w !! m = Some d -> m <> n -> beats (wd_replicas w') d -> cl_replica d <> cl_replica c).
  { intros m d Hm Hne Hd E. apply Hne. symmetry. eapply (Ho n m); eauto. }
  assert (Hone : forall m d, wd_calls w !! m = Some d -> m <> n -> beats (wd_replicas w') d -> beats (wd_replicas w) d) by eauto.
  split; rewrite ?Ec, ?Er.
  - intros m d x Hm Hx. apply list_lookup_insert_Some in Hm as [(<- & <- & _)|[Hne Hm]].
    + rewrite Ecr, list_lookup_insert_eq in Hx by done. simplify_eq. lia.
    + apply list_lookup_insert_Some in Hx as [(E & <- & _)|[_ Hx]]; [|by eapply He]. rewrite Erp. eapply He; [done|]. by rewrite <- E.
  - rewrite <- Er. intros m1 m2 d1 d2 Hm1 Hm2 Hb1 Hb2 E.
    apply list_lookup_insert_Some in Hm1 as [(<- & <- & _)|[Hn1 Hm1]]; apply list_lookup_insert_Some in Hm2 as [(<- & <- & _)|[Hn2 Hm2]]; [done| | |by eauto].
    + exfalso. eapply Hother; [exact Hm2|done|done|congruence].
    + exfalso. eapply Hother; [exact Hm1|done|done|congruence].
  - rewrite <- Er. intros m d s q x Hm Hbd Hs Hx. apply list_lookup_insert_Some in Hm as [(<- & <- & _)|[Hne Hm]].
    + rewrite Ecr, Er, list_lookup_insert_eq in Hx by done. simplify_eq. by eapply Hst.
    + assert (Hd : cl_replica d <> cl_replica c) by eauto. rewrite Er, list_lookup_insert_ne in Hx by done. eapply Hc; [exact Hm|by eauto|done|done].
Qed.

(** A call returns, or a replica changes nothing that matters here. *)
Lemma returned_paced n w : paced_ok w -> paced_ok (goto n Returned w).
Proof.
  intros [He Ho Hc]. assert (Hl : forall m d, alter (to_stage Returned) n (wd_calls w) !! m = Some d -> beating (cl_stage d) = true -> wd_calls w !! m = Some d).
  { intros m d Hm Hb. destruct (decide (n = m)) as [<-|Hne]; [|by rewrite list_lookup_alter_ne in Hm].
    rewrite list_lookup_alter_eq in Hm. apply fmap_Some in Hm as (x & _ & ->). done. }
  split; simpl.
  - intros m d rp Hm Hr. destruct (decide (n = m)) as [<-|Hne]; [|rewrite list_lookup_alter_ne in Hm by done; eauto].
    rewrite list_lookup_alter_eq in Hm. apply fmap_Some in Hm as (x & Hx & ->). simpl in *. eauto.
  - intros m1 m2 d1 d2 H1 H2 B1 B2. apply (Ho m1 m2 d1 d2); [by apply Hl; [|apply B1]|by apply Hl; [|apply B2]|done|done].
  - intros m d s q rp Hm B. apply (Hc m d); [by apply Hl; [|apply B]|done].
Qed.

Definition calms (f : Replica -> Replica) : Prop :=
  forall rp, (rp_epoch (f rp) = rp_epoch rp /\ (rp_client (f rp) = rp_client rp \/ rp_client (f rp) = None)) \/ (rp_epoch rp < rp_epoch (f rp))%nat.

Lemma on_replica_paced r f w : calms f -> paced_ok w -> paced_ok (on_replica r f w).
Proof.
  intros Hf [He Ho Hc]. assert (Hl : forall m x', alter f r (wd_replicas w) !! m = Some x' -> exists x, wd_replicas w !! m = Some x /\
    ((rp_epoch x' = rp_epoch x /\ (rp_client x' = rp_client x \/ rp_client x' = None)) \/ (rp_epoch x < rp_epoch x')%nat)).
  { intros m x' Hm. destruct (decide (r = m)) as [<-|Hne]; [|rewrite list_lookup_alter_ne in Hm by done; by eauto 10].
    rewrite list_lookup_alter_eq in Hm. apply fmap_Some in Hm as (x & Hx & ->). exists x. split; [done|apply Hf]. }
  assert (Hb : forall n c, wd_calls w !! n = Some c -> beats (alter f r (wd_replicas w)) c -> beats (wd_replicas w) c).
  { intros n c Hn [H1 (x' & Hx' & E)]. split; [done|]. destruct (Hl _ _ Hx') as (x & Hx & [[? _]|Hlt]); [exists x; split; [done|congruence]|].
    specialize (He _ _ _ Hn Hx). lia. }
  split; simpl.
  - intros n c x' Hn Hx'. destruct (Hl _ _ Hx') as (x & Hx & Hcase). specialize (He _ _ _ Hn Hx). destruct Hcase as [[-> _]|?]; lia.
  - intros n m c d Hn Hm B1 B2. eapply Ho; eauto.
  - intros n c s q x' Hn B Hst Hx'. pose proof (Hb _ _ Hn B) as B0. destruct (Hl _ _ Hx') as (x & Hx & [[_ [->| ->]]|Hlt]); [by eapply Hc|by left|].
    destruct B as [_ (x'' & Hx'' & E)]. simplify_eq. specialize (He _ _ _ Hn Hx). lia.
Qed.

Lemma stays_paced w w' : wd_calls w' = wd_calls w -> wd_replicas w' = wd_replicas w -> paced_ok w -> paced_ok w'.
Proof. intros E1 E2 [He Ho Hc]. split; rewrite E1, E2; done. Qed.

Section running.
Context (n : nat) (c : Call) (rp : Replica) (w : World T).
Context (Hn : wd_calls w !! n = Some c) (Hr : wd_replicas w !! cl_replica c = Some rp) (Hep : rp_epoch rp = cl_epoch c).
Context (Hbeat : beating (cl_stage c) = true) (Hok : paced_ok w).

Lemma running_beats : beats (wd_replicas w) c.
Proof. split; [done|]. eauto. Qed.

Lemma goto_both_paced st f w' : wd_calls w' = wd_calls w -> wd_replicas w' = wd_replicas w ->
  rp_epoch (f rp) = rp_epoch rp -> (forall s q, st = Waiting s q -> rp_client (f rp) = None \/ rp_client (f rp) = Some s) ->
  paced_ok (goto n st (on_replica (cl_replica c) f w')).
Proof.
  intros E1 E2 Hf Hst. eapply (move_paced n c (to_stage st c) rp (f rp) w); try done; [apply running_beats| |]; simpl.
  - rewrite E1. by apply alter_insert.
  - rewrite E2. by apply alter_insert.
Qed.

Lemma goto_paced st : (forall s q, st = Waiting s q -> rp_client rp = None \/ rp_client rp = Some s) -> paced_ok (goto n st w).
Proof.
  intros Hst. eapply (move_paced n c (to_stage st c) rp rp w); try done; [apply running_beats| |]; simpl.
  - by apply alter_insert.
  - symmetry. by apply list_insert_id.
Qed.

Lemma fail_call_paced : paced_ok (fail_call n c w).
Proof. by apply goto_both_paced; [..|intros; left]. Qed.

Lemma send_paced q : paced_ok (send n c rp q w).
Proof. unfold send. destruct (rp_client rp) as [s|] eqn:Es; [|apply fail_call_paced]. apply goto_paced. intros s' q' [= <- _]. by right. Qed.

Lemma answered_paced a q : paced_ok (answered n c rp a q w).
Proof.
  unfold answered. destruct q.
  - destruct (rp_client rp); [|apply fail_call_paced]. by apply goto_both_paced.
  - by apply goto_both_paced.
  - destruct a as [|[]| |]; try by apply goto_paced. apply send_paced.
  - destruct a; by apply goto_paced.
  - destruct a as [| | |[]]; by apply goto_paced.
  - by apply goto_paced.
Qed.

Lemma tick_end_epoch name res now : rp_epoch (tick_end name res now rp) = rp_epoch rp.
Proof. by destruct res as [[]|[]]. Qed.

Lemma next_tick_spec r i (x : Replica) : cl_replica (next_tick r i x) = r /\ cl_epoch (next_tick r i x) = rp_epoch x /\
  (forall s q, cl_stage (next_tick r i x) <> Waiting s q).
Proof. unfold next_tick. by destruct (rp_states x !! i) as [[??]|]. Qed.

Lemma end_tick_paced res now : paced_ok (end_tick n c res now rp w).
Proof.
  unfold end_tick. destruct (next_tick_spec (cl_replica c) (S (cl_index c)) (tick_end (cl_worker c) res now rp)) as (E1 & E2 & E3).
  eapply (move_paced n c _ rp (tick_end (cl_worker c) res now rp) w); try done; [apply running_beats| |apply tick_end_epoch| |]; simpl.
  - by rewrite (alter_insert _ _ _ rp).
  - by rewrite E2, tick_end_epoch.
  - intros s q E. by destruct (E3 s q).
Qed.
End running.

Lemma continue_paced n c a now w : wd_calls w !! n = Some c -> paced_ok w -> paced_ok (continue n c a now w).
Proof.
  intros Hn Hok. unfold continue. destruct (wd_replicas w !! cl_replica c) as [rp|] eqn:Hr; [|by apply returned_paced].
  destruct (Nat.eqb_spec (rp_epoch rp) (cl_epoch c)) as [He|]; simpl; [|by apply returned_paced].
  destruct (cl_stage c) as [| | |res|s q|] eqn:Hst; [| | | | |done].
  1-4: assert (Hb : beating (cl_stage c) = true) by (by rewrite Hst).
  - unfold ensureConnected. destruct (_ && _); [by eapply goto_paced|]. eapply goto_both_paced; try done. intros s q [= <- _]. by right.
  - unfold ensureTable. destruct (rp_tableEnsured rp); [by eapply goto_paced|by apply send_paced].
  - by apply send_paced.
  - by apply end_tick_paced.
  - assert (q = QUnlock \/ beating (cl_stage c) = true) as [->|Hb] by (rewrite Hst; destruct q; auto); [by apply returned_paced|].
    clear Hst.
    destruct q, a; solve [by apply returned_paced|by eapply answered_paced|by eapply fail_call_paced].
Qed.

Lemma resume_paced n reply now w : paced_ok w -> paced_ok (resume n reply now w).
Proof.
  intros Hok. unfold resume. destruct (wd_calls w !! n) as [c|] eqn:Hn; [|done].
  destruct (cl_stage c) as [| | |res|s q|]; try (by apply continue_paced).
  pose proof (perform_frame s q (cl_worker c) reply w) as [H3 H4]. destruct (perform s q (cl_worker c) reply w) as [a w']. simpl in *.
  apply continue_paced; [by rewrite H4|by eapply stays_paced].
Qed.

(** No heartbeat of the replica's process is under way. *)
Definition idle (w : World T) (r : nat) : bool :=
  forallb (fun c => negb (bool_decide (cl_replica c = r) && beating (cl_stage c) &&
    match wd_replicas w !! r with Some rp => (rp_epoch rp =? cl_epoch c)%nat | None => false end)) (wd_calls w).

(** The timer of a replica fires only after its last heartbeat has ended. *)
Fixpoint paced (w : World T) (evs : list ElectionEvent) : bool :=
  match evs with
  | [] => true
  | ev :: evs => match ev with EvHeartbeat r => idle w r | _ => true end && paced (election_step w ev) evs
  end.

Lemma idle_spec w r m d : idle w r = true -> wd_calls w !! m = Some d -> cl_replica d = r -> beats (wd_replicas w) d -> False.
Proof.
  intros Hi Hm Hr [Hb (rp & Hrp & He)]. unfold idle in Hi. rewrite forallb_forall in Hi.
  specialize (Hi d). rewrite Hr in Hrp. rewrite Hrp, Hb, (bool_decide_eq_true_2 _ Hr), He, Nat.eqb_refl in Hi. simpl in Hi.
  assert (false = true) by (apply Hi, list_elem_of_In; by eapply list_elem_of_lookup_2). done.
Qed.

(** New calls: one heartbeat of an idle replica, or calls that are none. *)
Lemma add_calls_paced l w :
  (forall c, c ∈ l -> exists rp, wd_replicas w !! cl_replica c = Some rp /\ cl_epoch c = rp_epoch rp /\
    (beating (cl_stage c) = false \/ (l = [c] /\ idle w (cl_replica c) = true /\ forall s q, cl_stage c <> Waiting s q))) ->
  paced_ok w -> paced_ok (add_calls l w).
Proof.
  intros Hl [He Ho Hc].
  assert (Hnew : forall n c, (wd_calls w ++ l) !! n = Some c -> wd_calls w !! n = Some c \/
    (beats (wd_replicas w) c -> n = length (wd_calls w) /\ idle w (cl_replica c) = true /\ forall s q, cl_stage c <> Waiting s q)).
  { intros n c Hn. apply lookup_app_Some in Hn as [Hn|[Hge Hn]]; [by left|right]. intros [Hb _].
    destruct (Hl c) as (rp & _ & _ & [Hf|(-> & ? & ?)]); [by eapply list_elem_of_lookup_2|congruence|].
    destruct (n - length (wd_calls w))%nat eqn:E; simpl in Hn; [|done]. split_and!; [lia|done|done]. }
  split; simpl.
  - intros n c rp Hn Hr. apply lookup_app_Some in Hn as [Hn|[_ Hn]]; [by eapply He|].
    destruct (Hl c) as (rp' & Hr' & -> & _); [by eapply list_elem_of_lookup_2|]. by simplify_eq.
  - intros n m c d Hn Hm B1 B2 E. destruct (Hnew _ _ Hn) as [Hn'|Hn']; destruct (Hnew _ _ Hm) as [Hm'|Hm']; [by eapply Ho| | |].
    + destruct (Hm' B2) as (_ & Hi & _). exfalso. by eapply idle_spec.
    + destruct (Hn' B1) as (_ & Hi & _). exfalso. by eapply idle_spec.
    + destruct (Hn' B1), (Hm' B2). congruence.
  - intros n c s q rp Hn B Hst Hr. destruct (Hnew _ _ Hn) as [Hn'|Hn']; [by eapply Hc|]. destruct (Hn' B) as (_ & _ & Hw). by destruct (Hw s q).
Qed.

Lemma election_step_paced w ev : (match ev with EvHeartbeat r => idle w r | _ => true end = true) -> paced_ok w -> paced_ok (election_step w ev).
Proof.
  intros Hp Hok. destruct ev as [r name|r|n reply now|s|r s|r|r|r]; simpl.
  - apply on_replica_paced; [|done]. intros rp. left. simpl. by eauto.
  - destruct (wd_replicas w !! r) as [rp|] eqn:Hr; [|done]. apply add_calls_paced; [|done]. intros c ->%list_elem_of_singleton.
    destruct (next_tick_spec r 0 rp) as (E1 & E2 & E3). exists rp. rewrite E1. by eauto 10.
  - by apply resume_paced.
  - by apply (stays_paced w).
  - destruct (wd_replicas w !! r) as [rp|]; [|done]. case_bool_decide; [|done]. apply on_replica_paced; [|done]. intros x. left. by eauto.
  - apply on_replica_paced; [|done]. intros rp. right. simpl. lia.
  - destruct (wd_replicas w !! r) as [rp|] eqn:Hr; [|done]. apply add_calls_paced; [|done]. intros c Hc. unfold release_calls in Hc.
    destruct (rp_connected rp), (rp_client rp) as [s|]; try by apply not_elem_of_nil in Hc.
    apply list_elem_of_omap in Hc as ([name st] & _ & Hc). destruct (_ && _); simplify_eq. simpl. by eauto 10.
  - destruct (wd_replicas w !! r) as [rp|]; [|done]. destruct (rp_client rp); [|done]. apply on_replica_paced; [|by apply (stays_paced w)].
    intros x. left. by eauto.
Qed.

(** * Tokens are issued under the lock *)

(** Session [s] holds the key, unless it has ended or released a lock. *)
Definition secured (w : World T) (s : Session) (k : string) : Prop := s ∈ wd_ended w \/ s ∈ wd_unlocked w \/ holds (wd_locks w) s k = true.

Definition wait_ok (w : World T) (_ : nat) (c : Call) : Prop :=
  forall s, cl_stage c = Waiting s QFence -> secured w s (hashWorkerName (cl_worker c)).

(** A later token went to another session only after the earlier one's ended or
    one of the two released. *)
Definition superseded (w : World T) (i j : Issue) : Prop :=
  is_session i = is_session j \/ is_session i ∈ wd_ended w \/ is_session i ∈ wd_unlocked w \/ is_session j ∈ wd_unlocked w.

Record locks_ok (w : World T) : Prop := {
  lo_excl : forall s s' k, holds (wd_locks w) s k = true -> holds (wd_locks w) s' k = true -> s = s';
  lo_issued : forall i, i ∈ wd_issued w -> secured w (is_session i) (hashWorkerName (is_worker i));
  lo_wait : each (wait_ok w) (wd_calls w);
  lo_order : forall i j, i ∈ wd_issued w -> j ∈ wd_issued w -> is_worker i = is_worker j -> is_token i < is_token j -> superseded w i j;
}.

(** The server forgets no ended session, no release, and no lock otherwise. *)
Definition server_le (w w' : World T) : Prop :=
  (forall s, s ∈ wd_ended w -> s ∈ wd_ended w') /\ (forall s, s ∈ wd_unlocked w -> s ∈ wd_unlocked w') /\
  (forall s k, holds (wd_locks w) s k = true -> secured w' s k).

Lemma secured_le w w' s k : server_le w w' -> secured w s k -> secured w' s k.
Proof. intros (H1 & H2 & H3) [?|[?|?]]; [left; auto|right; left; auto|auto]. Qed.

Lemma wait_ok_le w w' n c : server_le w w' -> wait_ok w n c -> wait_ok w' n c.
Proof. intros Hle Hw s Hs. eapply secured_le; eauto. Qed.

Lemma superseded_le w w' i j : server_le w w' -> superseded w i j -> superseded w' i j.
Proof. intros (H1 & H2 & _) [?|[?|[?|?]]]; unfold superseded; auto 6. Qed.

(** A server that issued nothing. *)
Lemma locks_ok_le w w' : server_le w w' -> wd_issued w' = wd_issued w -> wd_calls w' = wd_calls w ->
  (forall s s' k, holds (wd_locks w') s k = true -> holds (wd_locks w') s' k = true -> s = s') -> locks_ok w -> locks_ok w'.
Proof.
  intros Hle Ei Ec Hx [_ Hi Hw Ho]. split; rewrite ?Ei, ?Ec; [done| | |].
  - intros i Hin. eapply secured_le; eauto.
  - eapply each_mono; [|exact Hw]. intros. by eapply wait_ok_le.
  - intros i j Hi1 Hj E Hlt. eapply superseded_le; eauto.
Qed.

(** Changes on the clients' side. *)
Definition same_server (w w' : World T) : Prop :=
  wd_locks w' = wd_locks w /\ wd_issued w' = wd_issued w /\ wd_ended w' = wd_ended w /\ wd_unlocked w' = wd_unlocked w.

Lemma locks_ok_same w w' : same_server w w' -> each (wait_ok w) (wd_calls w') -> locks_ok w -> locks_ok w'.
Proof.
  intros (E1 & E2 & E3 & E4) Hc [Hx Hi Hw Ho]. unfold secured, superseded in *. split; rewrite ?E1, ?E2; unfold secured, superseded; rewrite ?E1, ?E3, ?E4; try done.
  intros n c Hn s Hs. unfold secured. rewrite E1, E3, E4. by eapply Hc.
Qed.

Lemma continue_same n c a now w : same_server w (continue n c a now w).
Proof.
  unfold continue, fail_call, send, answered, ensureConnected, ensureTable, fail_call, send, end_tick.
  repeat case_match; done.
Qed.

Lemma waits_alter n st w c : wd_calls w !! n = Some c -> each (wait_ok w) (wd_calls w) ->
  (forall s, st = Waiting s QFence -> secured w s (hashWorkerName (cl_worker c))) -> each (wait_ok w) (alter (to_stage st) n (wd_calls w)).
Proof. intros Hn Hw Hs. rewrite (alter_insert _ _ _ c Hn). apply each_insert; [|done]. intros s E. by apply Hs. Qed.

(** A call starts waiting for a fence only after the lock was granted to the
    session it still uses. *)
Lemma continue_waits n c a now w : wd_calls w !! n = Some c -> paced_ok w -> each (wait_ok w) (wd_calls w) ->
  (forall s, cl_stage c = Waiting s QLock -> a = Some (AAcquired true) -> secured w s (hashWorkerName (cl_worker c))) ->
  each (wait_ok w) (wd_calls (continue n c a now w)).
Proof.
  intros Hn Hp Hw Hs. unfold continue. assert (Hgo : forall st, (forall s, st <> Waiting s QFence) -> each (wait_ok w) (alter (to_stage st) n (wd_calls w))).
  { intros st Hst. eapply waits_alter; [done|done|]. intros s E. by destruct (Hst s). }
  assert (Hfail : each (wait_ok w) (wd_calls (fail_call n c w))) by (apply Hgo; unfold failed; by destruct (cl_token c)).
  assert (Hsend : forall rp q, q <> QFence -> each (wait_ok w) (wd_calls (send n c rp q w))).
  { intros rp q Hq. unfold send. destruct (rp_client rp); [|done]. apply Hgo. congruence. }
  destruct (wd_replicas w !! cl_replica c) as [rp|] eqn:Hr; [|by apply Hgo].
  destruct (Nat.eqb_spec (rp_epoch rp) (cl_epoch c)) as [He|]; simpl; [|by apply Hgo].
  destruct (cl_stage c) as [| | |res|s q|] eqn:Hst; [| | | | |done].
  - unfold ensureConnected. destruct (_ && _); by apply Hgo.
  - unfold ensureTable. destruct (rp_tableEnsured rp); [by apply Hgo|by apply Hsend].
  - apply Hsend. by destruct (cl_token c).
  - simpl. apply each_insert; [|done]. intros s E. by destruct (next_tick_spec (cl_replica c) (S (cl_index c)) (tick_end (cl_worker c) res now rp)) as (_ & _ & E3), (E3 s QFence).
  - destruct q; [..|by apply Hgo]; (destruct a as [a|]; [|done]); unfold answered.
    + destruct (rp_client rp); [by apply Hgo|done].
    + by apply Hgo.
    + destruct a as [|[]| |]; try by apply Hgo. unfold send. destruct (rp_client rp) as [s'|] eqn:Es; [|done].
      assert (s' = s) as ->.
      { destruct (po_client _ Hp n c s QLock rp Hn) as [?|?]; [|done|done|congruence|congruence]. split; [by rewrite Hst|eauto]. }
      eapply waits_alter; [done|done|]. intros s' [= <-]. by apply Hs.
    + destruct a; by apply Hgo.
    + destruct a as [| | |[]]; by apply Hgo.
Qed.

(** The database. *)
Lemma exec_lock_le s name w : locks_ok w -> locks_ok (exec s QLock name w).2 /\
  ((exec s QLock name w).1 = AAcquired true -> secured (exec s QLock name w).2 s (hashWorkerName name)).
Proof.
  intros Hok. unfold exec. set (k := hashWorkerName name). pose proof (try_lock_granted s k (wd_locks w)) as Hg.
  pose proof (try_lock_holds s k (wd_locks w)) as Hh. destruct (pg_try_advisory_lock s k (wd_locks w)) as [b t]. simpl in *. split.
  - apply (locks_ok_le w); [|done|done| |done].
    + split_and!; [done|done|]. intros s' k' E. right. right. simpl. rewrite Hh, E. apply orb_true_r.
    + simpl. intros s1 s2 k'. rewrite !Hh. intros E1 E2. apply orb_true_iff in E1 as [E1|E1], E2 as [E2|E2]; bool_norm.
      * destruct_and!. congruence.
      * destruct_and!. subst. destruct (decide (s2 = s)) as [->|Hne]; [done|]. rewrite (proj1 Hg) in E2; done.
      * destruct_and!. subst. destruct (decide (s1 = s)) as [->|Hne]; [done|]. rewrite (proj1 Hg) in E1; done.
      * by eapply lo_excl.
  - intros [= ->]. right. right. simpl. rewrite Hh. by rewrite bool_decide_eq_true_2.
Qed.

Lemma unlock_locks s name w : locks_ok w -> locks_ok (exec s QUnlock name w).2.
Proof.
  intros Hok. simpl. apply (locks_ok_le w); [|done|done| |done].
  - split_and!; simpl; [done|intros; apply elem_of_app; by left|]. intros s' k' E. destruct (decide (s' = s)) as [->|Hne].
    + right. left. apply elem_of_app. right. by apply list_elem_of_singleton.
    + right. right. simpl. by rewrite unlock_frame.
  - simpl. intros s1 s2 k' E1%unlock_own E2%unlock_own. by eapply lo_excl.
Qed.

Lemma bump_fence_locks s name w : ids_ok w -> locks_ok w -> s ∉ wd_ended w -> secured w s (hashWorkerName name) -> locks_ok (bump_fence name s w).2.
Proof.
  intros Hids [Hx Hi Hw Ho] Hs Hsec. unfold bump_fence. set (f := match get name (wd_fences w) with Some f => f + 1 | None => 1 end).
  assert (Hnew : forall i, i ∈ wd_issued w -> is_worker i = name -> is_token i < f).
  { intros i Hin <-. destruct (io_fence _ Hids i Hin) as (f0 & E & ?). subst f. rewrite E. lia. }
  split; simpl; [done| |done|].
  - intros i [Hin| ->%list_elem_of_singleton]%elem_of_app; [by apply Hi|done].
  - intros i j [Hin| ->%list_elem_of_singleton]%elem_of_app [Hjn| ->%list_elem_of_singleton]%elem_of_app E Hlt; simpl in *; [by apply Ho| | |lia].
    + unfold superseded. simpl. specialize (Hi i Hin). rewrite E in Hi. destruct Hi as [?|[?|Hh]]; [auto|auto|].
      destruct Hsec as [?|[?|Hh']]; [done|auto|]. left. by eapply Hx.
    + symmetry in E. pose proof (Hnew j Hjn E). lia.
Qed.

Lemma end_session_locks s w : locks_ok w -> locks_ok (end_server_session s w).
Proof.
  intros Hok. apply (locks_ok_le w); [|done|done| |done].
  - split_and!; simpl; [intros; apply elem_of_app; by left|done|]. intros s' k' E. destruct (decide (s' = s)) as [->|Hne].
    + left. apply elem_of_app. right. by apply list_elem_of_singleton.
    + right. right. simpl. rewrite end_session_frame, E. by rewrite bool_decide_eq_true_2.
  - simpl. intros s1 s2 k'. rewrite !end_session_frame. intros [_ E1]%andb_true_iff [_ E2]%andb_true_iff. by eapply lo_excl.
Qed.

Lemma perform_locks s q name reply w : ids_ok w -> locks_ok w -> (q = QFence -> secured w s (hashWorkerName name)) ->
  locks_ok (perform s q name reply w).2 /\
  (q = QLock -> (perform s q name reply w).1 = Some (AAcquired true) -> secured (perform s q name reply w).2 s (hashWorkerName name)).
Proof.
  intros Hids Hok Hq. unfold perform. case_bool_decide as Hend; [done|].
  assert (Hex : locks_ok (exec s q name w).2 /\ (q = QLock -> (exec s q name w).1 = AAcquired true -> secured (exec s q name w).2 s (hashWorkerName name))).
  { destruct q; try done.
    - destruct (exec_lock_le s name w Hok). by split.
    - split; [|done]. apply bump_fence_locks; auto.
    - split; [|done]. by apply unlock_locks. }
  destruct Hex as [H1 H2]. destruct (exec s q name w) as [a w']. destruct reply as [|[]]; simpl in *; split; try done. intros Hl [= ->]. auto.
Qed.

Lemma resume_locks n reply now w : ids_ok w -> paced_ok w -> locks_ok w -> locks_ok (resume n reply now w).
Proof.
  intros Hids Hp Hok. unfold resume. destruct (wd_calls w !! n) as [c|] eqn:Hn; [|done].
  assert (Hcont : forall a w', wd_calls w' = wd_calls w -> wd_replicas w' = wd_replicas w -> locks_ok w' ->
    (forall s, cl_stage c = Waiting s QLock -> a = Some (AAcquired true) -> secured w' s (hashWorkerName (cl_worker c))) -> locks_ok (continue n c a now w')).
  { intros a w' E1 E2 Hok' Ha. eapply locks_ok_same; [apply continue_same| |done]. apply continue_waits; [by rewrite E1|by apply (stays_paced w)|by apply lo_wait|done]. }
  destruct (cl_stage c) as [| | |res|s q|] eqn:Hst; try (by apply Hcont).
  pose proof (perform_frame s q (cl_worker c) reply w) as [H3 H4].
  destruct (perform_locks s q (cl_worker c) reply w Hids Hok) as [H1 H2].
  { intros ->. by apply (lo_wait _ Hok n c Hn). }
  destruct (perform s q (cl_worker c) reply w) as [a w']. simpl in *. apply Hcont; [done|done|done|]. intros s' [= <- ->] E. by apply H2.
Qed.

Lemma election_step_locks w ev : ids_ok w -> paced_ok w -> locks_ok w -> locks_ok (election_step w ev).
Proof.
  intros Hids Hp Hok. assert (Hadd : forall l, (forall c s, c ∈ l -> cl_stage c <> Waiting s QFence) -> locks_ok (add_calls l w)).
  { intros l Hl. apply (locks_ok_same w); [done| |done]. apply each_app; [|by apply lo_wait]. intros m c Hc s E. by destruct (Hl c s). }
  assert (Hon : forall r f w, locks_ok w -> locks_ok (on_replica r f w)).
  { intros r f w' Hok'. apply (locks_ok_same w'); [done|apply (lo_wait _ Hok')|done]. }
  destruct ev as [r name|r|n reply now|s|r s|r|r|r]; simpl; auto using resume_locks, end_session_locks.
  - destruct (wd_replicas w !! r) as [rp|]; [|done]. apply Hadd. intros c s ->%list_elem_of_singleton. by apply next_tick_spec.
  - destruct (wd_replicas w !! r) as [rp|]; [|done]. case_bool_decide; auto.
  - destruct (wd_replicas w !! r) as [rp|]; [|done]. apply Hadd. intros c s Hc. unfold release_calls in Hc.
    destruct (rp_connected rp), (rp_client rp); try by apply not_elem_of_nil in Hc.
    apply list_elem_of_omap in Hc as ([name st] & _ & Hc). destruct (_ && _); simplify_eq. done.
  - destruct (wd_replicas w !! r) as [rp|]; [|done]. destruct (rp_client rp); auto using end_session_locks.
Qed.

Lemma election_locks n evs : paced (new_world n) evs = true -> locks_ok (election n evs).
Proof.
  unfold election. assert (Hp : paced_ok (new_world n)) by (split; simpl; intros; done).
  assert (Hl : locks_ok (new_world n)).
  { split; simpl; [intros s s' k; by rewrite no_locks_free|by intros i ?%not_elem_of_nil|done|by intros i j ?%not_elem_of_nil]. }
  revert Hp Hl. generalize (new_world_ids n). generalize (new_world n). induction evs as [|ev evs IH]; intros w Hids Hp Hl Hev; [done|].
  simpl in Hev. bool_norm. apply IH; [by apply election_step_ids|by apply election_step_paced|by apply election_step_locks|done].
Qed.

(** C16. While heartbeats of a replica do not overlap, no two replicas lead a
    worker with living sessions that released nothing: a second leader means
    that the first one's connection has ended. *)
Theorem at_most_one_backed_leader (n : nat) (evs : list ElectionEvent) (r1 r2 : nat) (name : string)
    (Hp : paced (new_world n) evs = true) (H1 : backed (election n evs) r1 name) (H2 : backed (election n evs) r2 name) : r1 = r2.
Proof.
  destruct H1 as (t1 & i & L1 & Hi & <- & <- & Ei & Ui), H2 as (t2 & j & L2 & Hj & Ej & <- & Ej' & Uj).
  pose proof (election_ids n evs) as Hids. pose proof (election_locks n evs Hp) as Hok.
  apply leads_issued in L1 as (i' & Hi' & E1 & E2 & <-), L2 as (j' & Hj' & E3 & E4 & <-).
  assert (i' = i) as -> by (eapply issue_unique; [done|done|done|]; unfold issue_key; congruence).
  assert (j' = j) as -> by (eapply issue_unique; [done|done|done|]; unfold issue_key; congruence).
  destruct (Z.lt_trichotomy (is_token i) (is_token j)) as [Hlt|[Heq|Hlt]].
  - by destruct (lo_order _ Hok i j Hi Hj) as [->|[?|[?|?]]].
  - f_equal. f_equal. eapply issue_unique; [done|done|done|]. unfold issue_key. congruence.
  - by destruct (lo_order _ Hok j i Hj Hi) as [->|[?|[?|?]]].
Qed.

(** * One tick, every query answered *)

(** [k] answered steps of call [n]. *)
Definition go_on (k n : nat) (now : Z) (w : World T) : World T := Nat.iter k (resume n Replied now) w.

Lemma resume_local n now w c rp : wd_calls w !! n = Some c -> wd_replicas w !! cl_replica c = Some rp -> rp_epoch rp = cl_epoch c ->
  (forall s q, cl_stage c <> Waiting s q) -> resume n Replied now w =
    match cl_stage c with
    | AtConnect => ensureConnected n c rp w
    | AtTable => ensureTable n c rp w
    | AtQuery => send n c rp (match cl_token c with Some _ => QRead | None => QLock end) w
    | AtEnd res => end_tick n c res now rp w
    | _ => w
    end.
Proof.
  intros Hn Hr He Hs. unfold resume, continue. rewrite Hn, Hr, He, Nat.eqb_refl. simpl.
  destruct (cl_stage c) eqn:Hst; try done. by destruct (Hs s q).
Qed.

Lemma resume_query n now w c rp s q : wd_calls w !! n = Some c -> wd_replicas w !! cl_replica c = Some rp -> rp_epoch rp = cl_epoch c ->
  cl_stage c = Waiting s q -> q <> QUnlock -> s ∉ wd_ended w ->
  resume n Replied now w = answered n c rp (exec s q (cl_worker c) w).1 q (exec s q (cl_worker c) w).2.
Proof.
  intros Hn Hr He Hst Hq Hs. unfold resume, perform. rewrite Hn, Hst, bool_decide_eq_false_2 by done.
  pose proof (exec_frame s q (cl_worker c) w) as (E1 & E2 & _). destruct (exec s q (cl_worker c) w) as [a w']. simpl in *.
  unfold continue. rewrite E1, Hr, He, Nat.eqb_refl, Hst. simpl. by destruct q.
Qed.

Lemma goto_goto n st1 st2 w : goto n st2 (goto n st1 w) = goto n st2 w.
Proof.
  unfold goto, with_calls. simpl. assert (E : alter (to_stage st2) n (alter (to_stage st1) n (wd_calls w)) = alter (to_stage st2) n (wd_calls w)).
  { apply list_eq. intros m. destruct (decide (n = m)) as [<-|Hne].
    - rewrite !list_lookup_alter_eq. by destruct (wd_calls w !! n).
    - by rewrite !list_lookup_alter_ne. }
  by rewrite E.
Qed.

Section tick.
Context (w : World T) (n : nat) (c : Call) (rp : Replica) (s : Session) (now : Z).
Context (Hn : wd_calls w !! n = Some c) (Hr : wd_replicas w !! cl_replica c = Some rp) (Hep : rp_epoch rp = cl_epoch c).
Context (Hc : rp_connected rp = true) (Hcl : rp_client rp = Some s) (Ht : rp_tableEnsured rp = true) (Hs : s ∉ wd_ended w).
Context (Hst : cl_stage c = AtConnect).

Lemma goto_lookup st : wd_calls (goto n st w) !! n = Some (to_stage st c).
Proof. simpl. by rewrite list_lookup_alter_eq, Hn. Qed.

(** An established connection reaches its query in three steps. *)
Lemma tick_query : go_on 3 n now w = goto n (Waiting s (match cl_token c with Some _ => QRead | None => QLock end)) w.
Proof.
  unfold go_on. simpl. rewrite (resume_local n now w c rp), Hst; try done; [|by rewrite Hst].
  unfold ensureConnected. rewrite Hc, Hcl. simpl.
  rewrite (resume_local n now (goto n AtTable w) (to_stage AtTable c) rp); try done; [|apply goto_lookup]. simpl. unfold ensureTable. rewrite Ht, goto_goto.
  rewrite (resume_local n now (goto n AtQuery w) (to_stage AtQuery c) rp); try done; [|apply goto_lookup]. simpl. unfold send. by rewrite Hcl, goto_goto.
Qed.

Lemma end_of_tick w' res st : wd_calls w' !! n = Some (to_stage st c) -> wd_replicas w' = wd_replicas w ->
  wd_replicas (resume n Replied now (goto n (AtEnd res) w')) = <[cl_replica c := tick_end (cl_worker c) res now rp]> (wd_replicas w).
Proof.
  intros E1 E2. rewrite (resume_local n now _ (to_stage (AtEnd res) c) rp); try done.
  - simpl. rewrite E2. by rewrite (alter_insert _ _ _ rp).
  - simpl. by rewrite list_lookup_alter_eq, E1.
  - simpl. by rewrite E2.
Qed.

(** A leader asks for the fence of its worker and stays leader only if it is its
    own token. *)
Lemma tick_renews t : cl_token c = Some t ->
  wd_replicas (go_on 5 n now w) = <[cl_replica c := if bool_decide (get (cl_worker c) (wd_fences w) = Some t) then rp else demote (cl_worker c) rp]> (wd_replicas w).
Proof.
  intros E. change (go_on 5 n now w) with (resume n Replied now (resume n Replied now (go_on 3 n now w))). rewrite tick_query, E.
  rewrite (resume_query n now (goto n (Waiting s QRead) w) (to_stage (Waiting s QRead) c) rp s QRead); try done; [|apply goto_lookup]. simpl.
  destruct (get (cl_worker c) (wd_fences w)) as [f|]; rewrite (end_of_tick _ _ (Waiting s QRead)); try done; try apply goto_lookup. rewrite E. simpl. f_equal.
  destruct (decide (f = t)) as [->|Hne]; [by rewrite !bool_decide_eq_true_2|]. rewrite !bool_decide_eq_false_2; [done|congruence|congruence].
Qed.

(** Anyone else takes a fresh token if the lock is granted ... *)
Lemma tick_acquires : cl_token c = None -> (pg_try_advisory_lock s (hashWorkerName (cl_worker c)) (wd_locks w)).1 = true ->
  wd_replicas (go_on 6 n now w) = <[cl_replica c := promote (cl_worker c) (default 0 (get (cl_worker c) (wd_fences w)) + 1) now rp]> (wd_replicas w).
Proof.
  intros E Hg. change (go_on 6 n now w) with (resume n Replied now (resume n Replied now (resume n Replied now (go_on 3 n now w)))).
  rewrite tick_query, E. rewrite (resume_query n now (goto n (Waiting s QLock) w) (to_stage (Waiting s QLock) c) rp s QLock); try done; [|apply goto_lookup]. simpl.
  destruct (pg_try_advisory_lock s (hashWorkerName (cl_worker c)) (wd_locks w)) as [b tl]. simpl in Hg. subst b. simpl.
  unfold send. rewrite Hcl. set (w1 := goto n (Waiting s QFence) _).
  assert (Hn1 : wd_calls w1 !! n = Some (to_stage (Waiting s QFence) c)) by (simpl; by rewrite !list_lookup_alter_eq, Hn).
  rewrite (resume_query n now w1 (to_stage (Waiting s QFence) c) rp s QFence); try done. simpl.
  rewrite (end_of_tick _ _ (Waiting s QFence)); [|done|done]. simpl. by destruct (get (cl_worker c) (wd_fences w)).
Qed.

(** ... and changes nothing when it is refused. *)
Lemma tick_waits : cl_token c = None -> (pg_try_advisory_lock s (hashWorkerName (cl_worker c)) (wd_locks w)).1 = false ->
  wd_replicas (go_on 5 n now w) = wd_replicas w.
Proof.
  intros E Hg. change (go_on 5 n now w) with (resume n Replied now (resume n Replied now (go_on 3 n now w))).
  rewrite tick_query, E. rewrite (resume_query n now (goto n (Waiting s QLock) w) (to_stage (Waiting s QLock) c) rp s QLock); try done; [|apply goto_lookup]. simpl.
  destruct (pg_try_advisory_lock s (hashWorkerName (cl_worker c)) (wd_locks w)) as [b tl]. simpl in Hg. subst b. simpl.
  rewrite (end_of_tick _ _ (Waiting s QLock)); [|simpl; by rewrite list_lookup_alter_eq, Hn|done]. simpl. by apply list_insert_id.
Qed.

(** The replica after a tick whose queries are all answered. *)
Definition tick_result : Replica :=
  match cl_token c with
  | Some t => if bool_decide (get (cl_worker c) (wd_fences w) = Some t) then rp else demote (cl_worker c) rp
  | None =>
      if (pg_try_advisory_lock s (hashWorkerName (cl_worker c)) (wd_locks w)).1
      then promote (cl_worker c) (default 0 (get (cl_worker c) (wd_fences w)) + 1) now rp
      else rp
  end.

(** Over a living connection a tick ends within six steps: a leader stays so
    exactly if the stored fence is its token and steps down otherwise, anyone
    else becomes leader with a fresh token exactly if the lock is granted. *)
Theorem tick_decides : exists k, (k <= 6)%nat /\ wd_replicas (go_on k n now w) = <[cl_replica c := tick_result]> (wd_replicas w).
Proof.
  unfold tick_result. destruct (cl_token c) as [t|] eqn:E; [exists 5%nat; split; [lia|by apply tick_renews]|].
  destruct (pg_try_advisory_lock s (hashWorkerName (cl_worker c)) (wd_locks w)).1 eqn:El.
  - exists 6%nat. split; [lia|]. by apply tick_acquires.
  - exists 5%nat. split; [lia|]. by rewrite tick_waits, list_insert_id.
Qed.
End tick.
End safety.

(** * A lock server, and runs *)

(** Grants of keys to sessions; a session may hold a key several times. *)
Definition lock_table : Type := list (string * Session).

Fixpoint drop_first (g : string * Session) (l : lock_table) : lock_table :=
  match l with [] => [] | x :: l => if decide (x = g) then l else x :: drop_first g l end.

#[export] Instance lock_table_server : LockServer lock_table := {
  no_locks := [];
  holds t s k := bool_decide ((k, s) ∈ t);
  pg_try_advisory_lock s k t :=
    if existsb (fun g => bool_decide (g.1 = k) && negb (bool_decide (g.2 = s))) t then (false, t) else (true, (k, s) :: t);
  pg_advisory_unlock s k t := drop_first (k, s) t;
  end_session s t := filter (fun g => g.2 <> s) t;
}.

Lemma drop_first_sub g l x : x ∈ drop_first g l -> x ∈ l.
Proof. induction l as [|y l IH]; simpl; [done|]. case_decide; [by right|]. intros [->|?]%elem_of_cons; [by left|right; auto]. Qed.

Lemma drop_first_other g l x : x <> g -> x ∈ l -> x ∈ drop_first g l.
Proof. intros Hne. induction l as [|y l IH]; simpl; [done|]. intros [->|Hx]%elem_of_cons; case_decide; subst; try done; [by left|right; auto]. Qed.

Lemma other_holder s k (t : lock_table) :
  existsb (fun g => bool_decide (g.1 = k) && negb (bool_decide (g.2 = s))) t = true <-> exists s', s' <> s /\ (k, s') ∈ t.
Proof.
  rewrite existsb_exists. split.
  - intros ([k' s'] & Hin & Hb). apply list_elem_of_In in Hin. simpl in Hb. bool_norm. destruct_and?. subst. eauto.
  - intros (s' & Hne & Hin). exists (k, s'). split; [by apply list_elem_of_In|]. simpl. by rewrite bool_decide_eq_true_2, bool_decide_eq_false_2.
Qed.

#[export] Instance lock_table_laws : LockServerLaws lock_table.
Proof.
  split.
  - intros s k. apply bool_decide_eq_false_2, not_elem_of_nil.
  - intros s k t. simpl. pose proof (other_holder s k t) as Ho. destruct (existsb _ t) eqn:E; simpl; split; try done.
    + intros Hf. destruct (proj1 Ho eq_refl) as (s' & Hne & Hin). specialize (Hf s' Hne). by apply bool_decide_eq_false_1 in Hf.
    + intros _ s' Hne. apply bool_decide_eq_false_2. intros Hin. assert (false = true) by (apply Ho; eauto). done.
  - intros s k t s' k'. simpl. destruct (existsb _ t) eqn:E; simpl; [by rewrite andb_false_r|]. rewrite andb_true_r.
    apply eq_true_iff_eq. rewrite orb_true_iff, !bool_decide_eq_true, elem_of_cons. naive_solver.
  - intros s k t s' k'. simpl. rewrite !bool_decide_eq_true. apply drop_first_sub.
  - intros s k t s' k' Hne. simpl. apply bool_decide_ext. split; [apply drop_first_sub|apply drop_first_other; congruence].
  - intros s t s' k'. simpl. apply eq_true_iff_eq. rewrite andb_true_iff, !bool_decide_eq_true, list_elem_of_filter. done.
Qed.

(** [k] answered steps of call [n]. *)
Definition steps (n k : nat) : list ElectionEvent := replicate k (EvResume n Replied 0).

(** Two replicas; the first elects itself, the second tries too. *)
Definition first_election : list ElectionEvent :=
  [EvRegister 0 "sweeper"; EvRegister 1 "sweeper"; EvHeartbeat 0] ++ steps 0 8 ++ [EvHeartbeat 1] ++ steps 1 7.

Notation elected := (election (T := lock_table) 2 first_election).

Lemma elected_leads : leads elected 0 "sweeper" 1.
Proof. eexists _, _. vm_compute. eauto. Qed.

Lemma elected_backed : backed elected 0 "sweeper".
Proof.
  assert (Hi : wd_issued elected = [{| is_worker := "sweeper"; is_token := 1; is_session := (0%nat, 0%nat) |}]) by (vm_compute; reflexivity).
  assert (He : wd_ended elected = []) by (vm_compute; reflexivity). assert (Hu : wd_unlocked elected = []) by (vm_compute; reflexivity).
  unfold backed. rewrite Hi, He, Hu. eexists 1, _. split; [apply elected_leads|]. split; [by apply list_elem_of_singleton|].
  split; [reflexivity|]. split; [reflexivity|]. split; apply not_elem_of_nil.
Qed.

Lemma tokens_are_unique_witness : leads elected 0 "sweeper" 1 /\ 0%nat = 0%nat.
Proof. split; [apply elected_leads|]. exact (tokens_are_unique (T := lock_table) 2 first_election 0 0 "sweeper" 1 elected_leads elected_leads). Defined.

Lemma at_most_one_backed_leader_witness : paced (T := lock_table) (new_world 2) first_election = true /\ backed elected 0 "sweeper" /\ 0%nat = 0%nat.
Proof.
  split; [vm_compute; reflexivity|]. split; [apply elected_backed|].
  assert (Hp : paced (T := lock_table) (new_world 2) first_election = true) by (vm_compute; reflexivity).
  exact (at_most_one_backed_leader (T := lock_table) 2 first_election 0 0 "sweeper" Hp elected_backed elected_backed).
Defined.

(** A connected replica starts a tick; nobody has the lock, the last token was
    4. *)
Definition candidate : Replica :=
  {| rp_epoch := 0; rp_client := Some (0, 0)%nat; rp_connected := true; rp_tableEnsured := true; rp_handlers := [(0, 0)%nat];
     rp_states := [("sweeper"%string, not_leader)]; rp_callbacks := []; rp_notified := [] |}.
Definition vacant : World lock_table :=
  {| wd_locks := []; wd_fences := [("sweeper"%string, 4)]; wd_ended := []; wd_unlocked := []; wd_issued := []; wd_next := 1;
     wd_replicas := [candidate]; wd_calls := [next_tick 0 0 candidate] |}.

Lemma tick_decides_witness : exists k, (k <= 6)%nat /\
  wd_replicas (go_on k 0 0 vacant) = <[cl_replica (next_tick 0 0 candidate) := tick_result vacant (next_tick 0 0 candidate) candidate (0, 0)%nat 0]> (wd_replicas vacant).
Proof. apply (tick_decides vacant 0 (next_tick 0 0 candidate) candidate (0, 0)%nat 0); try reflexivity. apply not_elem_of_nil. Defined.

(** * What the lock does not guarantee *)

(** The first replica loses its connection and with it the lock; its renewal
    reconnects, finds its own fence and keeps the leadership. *)
Definition lost_connection : list ElectionEvent :=
  first_election ++ [EvSessionEnd (0, 0)%nat; EvClientError 0 (0, 0)%nat; EvHeartbeat 0] ++ steps 2 7.

(** [renew] compares fences only: after a reconnection the replica leads without
    any lock, and the next heartbeat of another makes two leaders. *)
Theorem renewal_needs_no_lock :
  let w := election (T := lock_table) 2 lost_connection in
  let w' := foldl election_step w ([EvHeartbeat 1] ++ steps 3 6) in
  leads w 0 "sweeper" 1 /\ wd_locks w = [] /\ leads w' 0 "sweeper" 1 /\ leads w' 1 "sweeper" 2.
Proof. vm_compute. split_and!; eauto 10. Qed.

(** The fence query fails on a living connection: [tryAcquire] drops the client
    without ending it. *)
Definition failed_fence : list ElectionEvent :=
  [EvRegister 0 "sweeper"; EvRegister 1 "sweeper"; EvHeartbeat 0] ++ steps 0 6 ++ [EvResume 0 (Failed false) 0] ++ steps 0 1.

(** The dropped session keeps the lock: neither replica can be elected while it
    lives. *)
Theorem failed_fence_leaks_lock :
  let w := election (T := lock_table) 2 (failed_fence ++ [EvHeartbeat 0] ++ steps 1 7 ++ [EvHeartbeat 1] ++ steps 2 7) in
  wd_locks w = [(hashWorkerName "sweeper", (0, 0)%nat)] /\ (rp_client <$> wd_replicas w) = [Some (0, 1)%nat; Some (1, 2)%nat] /\
  (ls_isLeader <$> concat (values ∘ rp_states <$> wd_replicas w)) = [false; false] /\ forallb (fun c => negb (beating (cl_stage c))) (wd_calls w) = true.
Proof. vm_compute. done. Qed.
