(* ===== verification/IpAllowlist.v ===== *)
(** Source-address allowlists of solver credentials:
    [src/auth/solver-credentials/ip-allowlist.ts].

    Addresses are parsed from their text; IPv4 arithmetic is on JavaScript's
    32-bit integers ([int32], [shl] of [HttpEgress]), IPv6 on BigInt.  Strings
    are ASCII. *)
From S2P Require Import Prelude JsMap BigInt HttpEgress.
Local Open Scope Z_scope.

(** * Text *)

Definition colon : Ascii.ascii := Ascii.ascii_of_N 58.
Definition slash : Ascii.ascii := Ascii.ascii_of_N 47.

(** [s.includes(c)] *)
Fixpoint includes (c : Ascii.ascii) (s : string) : bool :=
  match s with EmptyString => false | String d s => bool_decide (c = d) || includes c s end.

(** The text up to the last [c], and the text after it. *)
Fixpoint break_last (c : Ascii.ascii) (s : string) : option (string * string) :=
  match s with
  | EmptyString => None
  | String d s =>
      match break_last c s with
      | Some (a, b) => Some (String d a, b)
      | None => if bool_decide (c = d) then Some (EmptyString, s) else None
      end
  end.

(** The text before the first "::", and the text after it. *)
Fixpoint break_double (s : string) : option (string * string) :=
  match s with
  | String c (String d s' as t) =>
      if bool_decide (c = colon) && bool_decide (d = colon) then Some (EmptyString, s')
      else (fun '(a, b) => (String c a, b)) <$> break_double t
  | _ => None
  end.

(** [s.replace(/:$/, "")] *)
Fixpoint strip_colon (s : string) : string :=
  match s with
  | EmptyString => EmptyString
  | String c EmptyString => if bool_decide (c = colon) then EmptyString else s
  | String c s => String c (strip_colon s)
  end.

(** [s.slice(n)] *)
Definition slice_from (n : nat) (s : string) : string := String.substring n (String.length s - n) s.

(** * Addresses *)

(** [x & y], [x | y] and [x >>> 0]. *)
Definition band (x y : Z) : Z := Z.land (int32 x) (int32 y).
Definition bor (x y : Z) : Z := Z.lor (int32 x) (int32 y).
Definition uint32 (x : Z) : Z := x mod 2 ^ 32.

(** [/^(0|[1-9][0-9]{0,2})$/] *)
Definition octet_text (part : string) : bool :=
  bool_decide (part = "0"%string) ||
  (digits_only part && negb (starts_with_zero part) && (String.length part <=? 3)%nat).

Definition add_octet (acc : option Z) (part : string) : option Z :=
  address ← acc;
  if octet_text part then
    octet ← parse_nat 10 part;
    if 255 <? octet then None else Some (bor (shl address 8) octet)
  else None.

Definition parseIpv4 (value : string) : option Z :=
  let parts := split_on dot_char value in
  if negb (length parts =? 4)%nat then None else uint32 <$> foldl add_octet (Some 0) parts.

Definition hex_digit (d : Z) : Ascii.ascii := Ascii.ascii_of_N (Z.to_N (if d <? 10 then d + 48 else d + 87)).

(** [n.toString(16)] below 2^16. *)
Definition hex16 (n : Z) : string :=
  let d i := hex_digit (n / 16 ^ i mod 16) in
  if n <? 16 then String (d 0) EmptyString
  else if n <? 256 then String (d 1) (String (d 0) EmptyString)
  else if n <? 4096 then String (d 2) (String (d 1) (String (d 0) EmptyString))
  else String (d 3) (String (d 2) (String (d 1) (String (d 0) EmptyString))).

(** [/^[0-9a-fA-F]{1,4}$/] *)
Definition is_hex (c : Ascii.ascii) : bool := match digit_val c with Some d => d <? 16 | None => false end.
Definition group_text (g : string) : bool :=
  negb (bool_decide (g = EmptyString)) && (String.length g <=? 4)%nat && all_chars is_hex g.

Definition add_group (acc : option Z) (g : string) : option Z :=
  acc ← acc;
  if group_text g then n ← parse_nat 16 g; Some (Z.lor (Z.shiftl acc 16) n) else None.

Definition groupsToBigInt (groups : list string) : option Z := foldl add_group (Some 0) groups.

(** A trailing dotted quad becomes two groups. *)
Definition expand_tail (value : string) : option string :=
  match break_last colon value with
  | None => Some value
  | Some (before, tail) =>
      if includes dot_char tail then
        v4 ← parseIpv4 tail;
        Some (before +:+ String colon (hex16 (band (Z.shiftr v4 16) 65535) +:+ String colon (hex16 (band v4 65535))))
      else Some value
  end.

Definition split_groups (s : string) : list string := if bool_decide (s = EmptyString) then [] else split_on colon s.

Definition parseIpv6 (value : string) : option Z :=
  if negb (includes colon value) then None
  else
    text ← expand_tail value;
    match break_double text with
    | None =>
        let head := split_on colon text in
        headValue ← groupsToBigInt head;
        if (length head =? 8)%nat then Some headValue else None
    | Some (before, after) =>
        if bool_decide (is_Some (break_double (String colon after))) then None
        else
          let head := split_groups (strip_colon before) in
          let rear := split_groups after in
          headValue ← groupsToBigInt head;
          rearValue ← groupsToBigInt rear;
          let explicitGroups := (length head + length rear)%nat in
          if (8 <=? explicitGroups)%nat then None
          else
            let missingGroups := (8 - explicitGroups)%nat in
            let headShift := 16 * (Z.of_nat missingGroups + Z.of_nat (length rear)) in
            Some (Z.lor (Z.shiftl headValue headShift) rearValue)
    end.

(** * Entries *)

Inductive AllowlistEntry :=
  | any
  | ipv4 (address prefix : Z)
  | ipv6 (address : Z)
  | ipv6_cidr (address prefix : Z)
  | invalid (reason : string).

Definition parse_cidr (addr prefixText : string) : AllowlistEntry :=
  if negb (digits_only prefixText && (String.length prefixText <=? 3)%nat) then invalid "malformed CIDR prefix"
  else
    let prefix := default 0 (parse_nat 10 prefixText) in
    match parseIpv4 addr with
    | Some v4 => if 32 <? prefix then invalid "IPv4 prefix must be 0-32" else ipv4 v4 prefix
    | None =>
        match parseIpv6 addr with
        | Some v6 => if 128 <? prefix then invalid "IPv6 prefix must be 0-128" else ipv6_cidr v6 prefix
        | None => invalid "not an IP address"
        end
    end.

Definition parseAllowlistEntry (entry : string) : AllowlistEntry :=
  let trimmed := trim entry in
  if bool_decide (trimmed = "*"%string) then any
  else if includes slash trimmed then
    match split_on slash trimmed with
    | [addr; prefixText] => parse_cidr addr prefixText
    | _ => invalid "malformed CIDR"
    end
  else
    match parseIpv4 trimmed with
    | Some v4 => ipv4 v4 32
    | None => match parseIpv6 trimmed with Some v6 => ipv6 v6 | None => invalid "not an IP address or CIDR block" end
    end.

(** [a.b.c.d] as [::ffff:a.b.c.d]. *)
Definition mapped (address : Z) : Z := Z.lor (Z.shiftl 65535 32) (uint32 address).

Definition mask4 (prefix : Z) : Z := uint32 (shl 4294967295 (32 - prefix)).
Definition mask6 (prefix : Z) : Z := Z.shiftl 1 128 - Z.shiftl 1 (128 - prefix).

Definition entryMatches (entry ip : AllowlistEntry) : bool :=
  match entry with
  | any => true
  | invalid _ => false
  | ipv4 address prefix =>
      match ip with
      | ipv4 peer _ =>
          if prefix =? 0 then true
          else uint32 (band peer (mask4 prefix)) =? uint32 (band address (mask4 prefix))
      | _ => false
      end
  | ipv6_cidr address prefix =>
      let candidate := match ip with ipv4 peer _ => Some (mapped peer) | ipv6 peer => Some peer | _ => None end in
      match candidate with
      | None => false
      | Some candidate =>
          if prefix =? 0 then true else Z.land candidate (mask6 prefix) =? Z.land address (mask6 prefix)
      end
  | ipv6 address =>
      match ip with
      | ipv4 peer _ => (address =? 0) || (address =? mapped peer)
      | ipv6 peer => peer =? address
      | _ => false
      end
  end.

(** The IPv4 address of the text after [::ffff:]. *)
Definition tail_v4 (tail : string) : option Z :=
  match parseIpv4 tail with
  | Some v => Some v
  | None => match parseIpv6 tail with Some v => if v <=? 65535 then Some v else None | None => None end
  end.

Definition parse_peer (normalized : string) : AllowlistEntry :=
  match parseIpv4 normalized with
  | Some v4 => ipv4 v4 32
  | None =>
      match (if String.prefix "::ffff:" normalized then tail_v4 (slice_from 7 normalized) else None) with
      | Some v => ipv4 (uint32 v) 32
      | None => match parseIpv6 normalized with Some v6 => ipv6 v6 | None => invalid "not an IP address" end
      end
  end.

Definition ipMatchesAllowlist (ip : option string) (allowlist : option (list string)) : bool :=
  match allowlist with
  | None | Some [] => true
  | Some l =>
      if negb (truthy_str ip) then false
      else
        let ip := default EmptyString ip in
        let normalized := if String.prefix "::ffff:" ip && negb (includes dot_char ip) then slice_from 7 ip else ip in
        match parse_peer normalized with
        | invalid _ => false
        | peer => existsb (fun e => entryMatches (parseAllowlistEntry e) peer) l
        end
  end.

Definition describeAllowlistEntry (entry : string) : string :=
  match parseAllowlistEntry entry with
  | any => "wildcard (any source address)"
  | ipv4 _ prefix => "IPv4 " +:+ (if prefix =? 32 then "address" else "CIDR /" +:+ toString prefix)
  | ipv6 _ => "IPv6 address"
  | ipv6_cidr _ prefix => "IPv6 CIDR /" +:+ toString prefix
  | invalid reason => "invalid: " +:+ reason
  end.

Example parse_examples :
  (parseIpv4 "203.0.113.7", parseIpv4 "1.2.3", parseIpv4 "01.2.3.4", parseIpv6 "2001:db8::1", parseIpv6 "::ffff:1.2.3.4",
   parseIpv6 "1:2:3:4:5:6:7:8", parseIpv6 "1::2::3", parseIpv6 ":::", parseIpv6 "::")
  = (Some 3405803783, None, None, Some 42540766411282592856903984951653826561, Some 281470698652420,
     Some 5192455318486707404433266433261576, None, None, Some 0).
Proof. vm_compute. reflexivity. Qed.
