(* ===== verification/IpAllowlistExact.v ===== *)
(** IP allowlists, proofs: the parsers accept exactly the dotted quads and read
    IPv6 groups at their place, masks compare address blocks, and a peer is
    admitted exactly if an entry covers it. *)
From S2P Require Import Prelude JsMap BigInt HttpEgress IpAllowlist.
Local Open Scope Z_scope.

(** * Dotted quads *)

Lemma digit_char_of c : is_digit c = true -> exists d, c = digit_char d /\ 0 <= d < 10.
Proof. intros Hc. exists (code c - 48). revert Hc. destruct c as [[] [] [] [] [] [] [] []]; vm_compute; try done; by split. Qed.

Definition decimals : list Z := Z.of_nat <$> seq 0 10.

Lemma on_decimals f d : forallb f decimals = true -> 0 <= d < 10 -> f d = true.
Proof.
  intros Hf Hd. rewrite forallb_forall in Hf. apply Hf, list_elem_of_In, list_elem_of_fmap. exists (Z.to_nat d).
  split; [lia|]. apply elem_of_seq. lia.
Qed.

(** At most three digits without a leading zero are the numeral of their value. *)
Definition canonical (p : string) : bool :=
  negb (octet_text p) || match parse_nat 10 p with Some z => bool_decide (p = toString z) && (0 <=? z) | None => false end.

Lemma canonical_digits :
  forallb (fun a => canonical (String (digit_char a) EmptyString) &&
    forallb (fun b => canonical (String (digit_char a) (String (digit_char b) EmptyString)) &&
      forallb (fun c => canonical (String (digit_char a) (String (digit_char b) (String (digit_char c) EmptyString)))) decimals) decimals) decimals = true.
Proof. vm_compute. reflexivity. Qed.

Lemma canonical_each a b c : 0 <= a < 10 -> 0 <= b < 10 -> 0 <= c < 10 ->
  canonical (String (digit_char a) EmptyString) = true /\
  canonical (String (digit_char a) (String (digit_char b) EmptyString)) = true /\
  canonical (String (digit_char a) (String (digit_char b) (String (digit_char c) EmptyString))) = true.
Proof.
  intros Ha Hb Hc. pose proof (on_decimals _ _ canonical_digits Ha) as [H1 H2]%andb_prop.
  pose proof (on_decimals _ _ H2 Hb) as [H3 H4]%andb_prop. pose proof (on_decimals _ _ H4 Hc). done.
Qed.

Lemma canonical_short p : digits_only p = true -> (String.length p <= 3)%nat -> canonical p = true.
Proof.
  intros Hd Hl. unfold digits_only in Hd. bool_norm.
  destruct p as [|a [|b [|c [|]]]]; simpl in H0, Hl; bool_norm; try done; try lia;
    repeat match goal with H : is_digit ?x = true |- _ => apply digit_char_of in H as (? & -> & ?) end; by eapply canonical_each.
Qed.

Lemma octet_text_canonical p : octet_text p = true -> exists z, parse_nat 10 p = Some z /\ p = toString z /\ 0 <= z.
Proof.
  intros Hp. assert (Hc : canonical p = true).
  { pose proof Hp as Hp'. unfold octet_text in Hp'. apply orb_true_iff in Hp' as [E|E]; [apply bool_decide_eq_true in E as ->; vm_compute; reflexivity|].
    bool_norm. apply canonical_short; [done|]. by apply Nat.leb_le. }
  unfold canonical in Hc. rewrite Hp in Hc. simpl in Hc. destruct (parse_nat 10 p) as [z|]; [|done]. bool_norm. eauto.
Qed.

Lemma octet_text_octet z : octet z -> octet_text (toString z) = true /\ parse_nat 10 (toString z) = Some z.
Proof.
  intros Hz. assert (Hall : forallb (fun z => octet_text (toString z) && bool_decide (parse_nat 10 (toString z) = Some z)) (Z.of_nat <$> seq 0 256) = true)
    by (vm_compute; reflexivity).
  rewrite forallb_forall in Hall. specialize (Hall z). assert (Hin : In z (Z.of_nat <$> seq 0 256)).
  { unfold octet in Hz. apply list_elem_of_In, list_elem_of_fmap. exists (Z.to_nat z). split; [lia|]. apply elem_of_seq. lia. }
  specialize (Hall Hin). by bool_norm.
Qed.

Lemma int32_uint32 z : uint32 (int32 z) = uint32 z.
Proof. unfold uint32, int32. destruct (_ <? _); [apply Z.mod_mod; lia|]. rewrite Zminus_mod, Z.mod_same, Z.sub_0_r, !Z.mod_mod by lia. done. Qed.

Lemma int32_small z : 0 <= z < 2 ^ 31 -> int32 z = z.
Proof. intros Hz. unfold int32. rewrite Z.mod_small by lia. by rewrite (proj2 (Z.ltb_lt _ _)) by lia. Qed.

Lemma int32_idem z : int32 (int32 z) = int32 z.
Proof. unfold int32 at 1. fold (uint32 (int32 z)). rewrite int32_uint32. done. Qed.

(** One turn of the loop, on an address of at most three octets. *)
Lemma bor_octet x o : 0 <= x < 2 ^ 24 -> octet o -> bor (shl x 8) o = int32 (x * 256 + o).
Proof.
  intros Hx Ho. unfold octet in Ho. unfold bor, shl. rewrite int32_idem, (int32_small x), (int32_small o), Z.shiftl_mul_pow2 by lia.
  assert (Hf : forall k, Z.lor (k * 256) o = k * 256 + o) by (intros k; change 256 with (2 ^ 8); rewrite <- Z.shiftl_mul_pow2 at 1 by lia; apply lor_shiftl_add; lia).
  unfold int32. rewrite !Z.mod_small by lia. change (2 ^ 8) with 256.
  destruct (Z.ltb_spec (x * 256) (2 ^ 31)); destruct (Z.ltb_spec (x * 256 + o) (2 ^ 31)); try lia; [apply Hf|].
  replace (x * 256 - 2 ^ 32) with ((x - 2 ^ 24) * 256) by lia. rewrite Hf. lia.
Qed.

Definition quad (a b c d : Z) : Z := a * 2 ^ 24 + b * 2 ^ 16 + c * 2 ^ 8 + d.

Lemma fold_octets a b c d : octet a -> octet b -> octet c -> octet d ->
  uint32 <$> foldl add_octet (Some 0) [toString a; toString b; toString c; toString d] = Some (quad a b c d).
Proof.
  intros Ha Hb Hc Hd. cbn [foldl]. unfold add_octet.
  destruct (octet_text_octet a Ha) as [-> ->], (octet_text_octet b Hb) as [-> ->], (octet_text_octet c Hc) as [-> ->], (octet_text_octet d Hd) as [-> ->].
  unfold octet in *. cbn [mbind option_bind]. rewrite !(proj2 (Z.ltb_ge 255 _)) by lia. cbn [mbind option_bind].
  rewrite (bor_octet 0 a), int32_small by (unfold octet; lia). cbn [mbind option_bind].
  rewrite (bor_octet (0 * 256 + a) b), int32_small by (unfold octet; lia).
  rewrite (bor_octet _ c), int32_small by (unfold octet; lia). rewrite (bor_octet _ d) by (unfold octet; lia).
  simpl. rewrite int32_uint32. unfold uint32, quad. rewrite Z.mod_small by lia. f_equal. lia.
Qed.

Lemma foldl_add_octet_None l : foldl add_octet None l = None.
Proof. induction l; [done|]. by simpl. Qed.

Lemma add_octet_parts l : forall acc n, foldl add_octet acc l = Some n -> Forall (fun p => exists z, octet z /\ p = toString z) l.
Proof.
  induction l as [|p l IH]; intros acc n Hf; [constructor|]. cbn [foldl] in Hf. constructor; [|by eapply IH].
  destruct (add_octet acc p) as [x|] eqn:E; [|by rewrite foldl_add_octet_None in Hf]. unfold add_octet in E.
  destruct acc as [address|]; simpl in E; [|done]. destruct (octet_text p) eqn:Et; [|done].
  destruct (octet_text_canonical p Et) as (z & Hz & -> & Hz0). rewrite Hz in E. simpl in E. destruct (Z.ltb_spec 255 z); [done|].
  exists z. split; [|done]. unfold octet. lia.
Qed.

Lemma split_on_cons c s : split_on c s <> [].
Proof. destruct s as [|d s]; simpl; [done|]. case_bool_decide; [done|]. by destruct (split_on c s). Qed.

(** Joining the parts gives the text back. *)
Fixpoint join_on (c : Ascii.ascii) (l : list string) : string :=
  match l with [] => EmptyString | [s] => s | s :: l => s +:+ String c (join_on c l) end.

Lemma join_on_split_on c s : join_on c (split_on c s) = s.
Proof.
  induction s as [|d s IH]; [done|]. cbn [split_on]. pose proof (split_on_cons c s). case_bool_decide as E.
  - destruct (split_on c s) eqn:Es; [done|]. rewrite <- E, <- IH. done.
  - destruct (split_on c s) as [|w [|w' ws]] eqn:Es; [done| |]; rewrite <- IH; done.
Qed.

(** The IPv4 parser accepts exactly the dotted quads, each with its 32-bit
    value. *)
Theorem parseIpv4_exact (s : string) (n : Z) :
  parseIpv4 s = Some n <-> exists a b c d, octet a /\ octet b /\ octet c /\ octet d /\ s = dotted a b c d /\ n = quad a b c d.
Proof.
  unfold parseIpv4. split.
  - intros Hp. pose proof (join_on_split_on dot_char s) as Hj. destruct (split_on dot_char s) as [|p1 [|p2 [|p3 [|p4 [|]]]]]; try done.
    simpl negb in Hp. apply fmap_Some in Hp as (x & Hx & ->). pose proof (add_octet_parts _ _ _ Hx) as Hall.
    rewrite !Forall_cons in Hall. destruct Hall as ((a & Ha & ->) & (b & Hb & ->) & (c & Hc & ->) & (d & Hd & ->) & _).
    pose proof (fold_octets a b c d Ha Hb Hc Hd) as Hv. rewrite Hx in Hv. simpl in Hv. injection Hv as Hv.
    exists a, b, c, d. split_and!; try done.
  - intros (a & b & c & d & Ha & Hb & Hc & Hd & -> & ->). rewrite split_dotted by (unfold octet in *; lia). by apply fold_octets.
Qed.

Lemma parseIpv4_dotted a b c d : octet a -> octet b -> octet c -> octet d -> parseIpv4 (dotted a b c d) = Some (quad a b c d).
Proof. intros. apply parseIpv4_exact. eauto 10. Qed.

Lemma quad_range a b c d : octet a -> octet b -> octet c -> octet d -> 0 <= quad a b c d < 2 ^ 32.
Proof. unfold octet, quad. lia. Qed.

Lemma parseIpv4_range s n : parseIpv4 s = Some n -> 0 <= n < 2 ^ 32.
Proof. intros (a & b & c & d & ? & ? & ? & ? & _ & ->)%parseIpv4_exact. by apply quad_range. Qed.

(** * IPv6 groups *)

(** Sixteen bits per group, the first group highest. *)
Definition pack_from (acc : Z) (gs : list Z) : Z := foldl (fun acc g => acc * 2 ^ 16 + g) acc gs.
Definition pack (gs : list Z) : Z := pack_from 0 gs.

Definition group_value (g : Z) : Prop := 0 <= g < 2 ^ 16.

Lemma pack_from_shift acc gs : pack_from acc gs = acc * 2 ^ (16 * Z.of_nat (length gs)) + pack gs.
Proof.
  unfold pack. revert acc. induction gs as [|g gs IH]; intros acc; [simpl; lia|]. unfold pack_from in *. cbn [foldl length]. rewrite IH, (IH (0 * 2 ^ 16 + g)).
  replace (16 * Z.of_nat (S (length gs))) with (16 + 16 * Z.of_nat (length gs)) by lia. rewrite Z.pow_add_r by lia. lia.
Qed.

Lemma pack_app gs hs : pack (gs ++ hs) = pack gs * 2 ^ (16 * Z.of_nat (length hs)) + pack hs.
Proof. unfold pack, pack_from. rewrite foldl_app. apply pack_from_shift. Qed.

Lemma pack_zeros k : pack (replicate k 0) = 0.
Proof. induction k as [|k IH]; [done|]. exact IH. Qed.

Lemma pack_range gs : Forall group_value gs -> 0 <= pack gs < 2 ^ (16 * Z.of_nat (length gs)).
Proof.
  intros Hg. induction gs as [|g gs IH] using rev_ind; [done|]. apply Forall_app in Hg as [Hgs [Hg _]%Forall_cons]. specialize (IH Hgs). unfold group_value in Hg.
  rewrite pack_app, length_app. replace (16 * Z.of_nat (length gs + length [g])) with (16 * Z.of_nat (length gs) + 16) by (simpl; lia). rewrite Z.pow_add_r by lia.
  change (2 ^ (16 * Z.of_nat (length [g]))) with 65536. change (pack [g]) with g. change (2 ^ 16) with 65536 in *. lia.
Qed.

Lemma parse_digits_bound radix s : forall acc v, 2 <= radix -> 0 <= acc -> parse_digits radix acc s = Some v ->
  acc * radix ^ Z.of_nat (String.length s) <= v < (acc + 1) * radix ^ Z.of_nat (String.length s).
Proof.
  induction s as [|c s IH]; intros acc v Hr Ha; cbn [parse_digits String.length]; [intros [= <-]; simpl; lia|].
  assert (Hd : forall d, digit_val c = Some d -> 0 <= d) by (unfold digit_val; intros d; repeat case_match; intros; bool_norm; simplify_eq; lia).
  destruct (digit_val c) as [d|]; [|done]. specialize (Hd d eq_refl). destruct (Z.ltb_spec d radix); [|done]. intros Hp%IH; [|done|nia].
  replace (Z.of_nat (S (String.length s))) with (1 + Z.of_nat (String.length s)) by lia. rewrite Z.pow_add_r, Z.pow_1_r by lia.
  assert (0 < radix ^ Z.of_nat (String.length s)) by (apply Z.pow_pos_nonneg; lia). nia.
Qed.

Lemma group_text_value g : group_text g = true -> forall n, parse_nat 16 g = Some n -> group_value n.
Proof.
  unfold group_text. intros Hg n Hn. bool_norm. apply Nat.leb_le in H1. unfold parse_nat in Hn. destruct g as [|c g]; [done|].
  apply parse_digits_bound in Hn; [|lia|lia]. unfold group_value. change (2 ^ 16) with (16 ^ 4).
  pose proof (Z.pow_le_mono_r 16 (Z.of_nat (String.length (String c g))) 4 ltac:(lia) ltac:(lia)). lia.
Qed.

Lemma groups_value l : forall acc v, 0 <= acc -> foldl add_group (Some acc) l = Some v ->
  exists gs, length gs = length l /\ Forall group_value gs /\ v = pack_from acc gs.
Proof.
  induction l as [|g l IH]; intros acc v Ha Hv; [exists []; simpl in *; by simplify_eq|]. cbn [foldl] in Hv. unfold add_group at 2 in Hv. cbn [mbind option_bind] in Hv.
  assert (Hnone : forall l, foldl add_group None l = None) by (intros l'; induction l'; done).
  destruct (group_text g) eqn:Eg; [|by rewrite Hnone in Hv]. destruct (parse_nat 16 g) as [n|] eqn:En; simpl in Hv; [|by rewrite Hnone in Hv].
  pose proof (group_text_value g Eg n En) as Hn. unfold group_value in Hn. rewrite lor_shiftl_add in Hv by lia.
  apply IH in Hv as (gs & Hl & Hf & ->); [|lia]. exists (n :: gs). split; [simpl; lia|]. by split; [constructor|].
Qed.

Lemma groupsToBigInt_range l v : groupsToBigInt l = Some v -> 0 <= v < 2 ^ (16 * Z.of_nat (length l)).
Proof. intros (gs & <- & Hf & ->)%groups_value; [|done]. by apply pack_range. Qed.

Lemma parseIpv6_range s v : parseIpv6 s = Some v -> 0 <= v < 2 ^ 128.
Proof.
  unfold parseIpv6. destruct (includes colon s); [|done]. cbn [negb]. destruct (expand_tail s) as [text|]; [|done]. cbn [mbind option_bind].
  destruct (break_double text) as [[before after]|].
  - case_bool_decide; [done|]. set (h := split_groups (strip_colon before)). set (r := split_groups after).
    destruct (groupsToBigInt h) as [hv|] eqn:Eh; [|done]. destruct (groupsToBigInt r) as [rv|] eqn:Er; [|done]. cbn [mbind option_bind].
    destruct (Nat.leb_spec 8 (length h + length r)); [done|]. intros [= <-].
    apply groupsToBigInt_range in Eh, Er. set (k := Z.of_nat (8 - (length h + length r)) + Z.of_nat (length r)).
    assert (Hk : 2 ^ 128 = 2 ^ (16 * Z.of_nat (length h)) * 2 ^ (16 * k)) by (rewrite <- Z.pow_add_r by lia; f_equal; lia).
    assert (Hr : 2 ^ (16 * Z.of_nat (length r)) <= 2 ^ (16 * k)) by (apply Z.pow_le_mono_r; lia).
    rewrite lor_shiftl_add by lia. rewrite Hk. nia.
  - destruct (groupsToBigInt (split_on colon text)) as [hv|] eqn:Eh; [|done]. simpl. destruct (Nat.eqb_spec (length (split_on colon text)) 8) as [E|]; [|done].
    intros [= <-]. apply groupsToBigInt_range in Eh. by rewrite E in Eh.
Qed.

(** * The text of a group *)

Definition plain_group (g : string) : Prop := g <> EmptyString /\ includes colon g = false /\ includes dot_char g = false.

Definition hex_value (d : Z) : Prop := 0 <= d < 16.

Fixpoint hex_text (ds : list Z) : string := match ds with [] => EmptyString | d :: ds => String (hex_digit d) (hex_text ds) end.

Lemma hex_digit_ok d : hex_value d -> digit_val (hex_digit d) = Some d /\ colon <> hex_digit d /\ dot_char <> hex_digit d.
Proof.
  intros Hd. unfold hex_value in Hd. assert (Hin : In d (Z.of_nat <$> seq 0 16)).
  { apply list_elem_of_In, list_elem_of_fmap. exists (Z.to_nat d). split; [lia|]. apply elem_of_seq. lia. }
  simpl in Hin. repeat destruct Hin as [<-|Hin]; [vm_compute; split_and!; done..|done].
Qed.

Lemma hex_text_ok ds : Forall hex_value ds ->
  includes colon (hex_text ds) = false /\ includes dot_char (hex_text ds) = false /\ all_chars is_hex (hex_text ds) = true /\
  String.length (hex_text ds) = length ds /\ forall acc, parse_digits 16 acc (hex_text ds) = Some (foldl (fun acc d => acc * 16 + d) acc ds).
Proof.
  induction 1 as [|d ds Hd Hds (H1 & H2 & H3 & H4 & H5)]; [done|]. destruct (hex_digit_ok d Hd) as (E & Hc & Hp). unfold hex_value in Hd.
  cbn [hex_text includes all_chars String.length parse_digits length foldl]. unfold is_hex at 1. rewrite E, H1, H2, H3, H4, (proj2 (Z.ltb_lt d 16)) by lia.
  rewrite !bool_decide_eq_false_2 by done. done.
Qed.

Lemma hex16_digits g : group_value g -> exists ds, hex16 g = hex_text ds /\ ds <> [] /\ (length ds <= 4)%nat /\ Forall hex_value ds /\ foldl (fun acc d => acc * 16 + d) 0 ds = g.
Proof.
  intros Hg. unfold group_value in Hg. assert (Hm : forall k, hex_value (g / k mod 16)) by (intros; apply Z.mod_pos_bound; lia). unfold hex16.
  destruct (Z.ltb_spec g 16); [eexists [_]|destruct (Z.ltb_spec g 256); [eexists [_; _]|destruct (Z.ltb_spec g 4096); [eexists [_; _; _]|eexists [_; _; _; _]]]];
    (split; [reflexivity|]); (split; [done|]); (split; [simpl; lia|]); (split; [repeat (apply Forall_cons; split; [apply Hm|]); by apply Forall_nil|]); simpl foldl;
    change (16 ^ 0) with 1; change (16 ^ 1) with 16; change (16 ^ 2) with 256; change (16 ^ 3) with 4096; clear Hm; Z.to_euclidean_division_equations; lia.
Qed.

Lemma hex16_group g : group_value g -> plain_group (hex16 g) /\ group_text (hex16 g) = true /\ parse_nat 16 (hex16 g) = Some g.
Proof.
  intros Hg. destruct (hex16_digits g Hg) as (ds & -> & Hne & Hl & Hds & Hv). destruct (hex_text_ok ds Hds) as (H1 & H2 & H3 & H4 & H5).
  assert (He : hex_text ds <> EmptyString) by (by destruct ds). unfold plain_group, group_text, parse_nat.
  rewrite H3, H4, (bool_decide_eq_false_2 _ He), (proj2 (Nat.leb_le _ _) Hl). split_and!; [done..|]. destruct (hex_text ds) eqn:E; [done|]. by rewrite H5, Hv.
Qed.

Lemma groups_read gs acc : Forall group_value gs -> 0 <= acc -> foldl add_group (Some acc) (hex16 <$> gs) = Some (pack_from acc gs).
Proof.
  intros Hg. revert acc. induction Hg as [|g gs Hg Hgs IH]; intros acc Ha; [done|]. rewrite fmap_cons. cbn [foldl]. unfold add_group at 2. cbn [mbind option_bind].
  destruct (hex16_group g Hg) as (_ & -> & ->). unfold group_value in Hg. cbn [mbind option_bind]. rewrite lor_shiftl_add by lia. apply IH. lia.
Qed.

(** * Where the colons are *)

Lemma includes_all c s : includes c s = negb (all_chars (fun d => negb (bool_decide (c = d))) s).
Proof. induction s as [|d s IH]; [done|]. simpl. rewrite IH. by case_bool_decide. Qed.

Lemma includes_app c s t : includes c (s +:+ t) = includes c s || includes c t.
Proof. induction s as [|d s IH]; [done|]. change (includes c (String d (s +:+ t)) = includes c (String d s) || includes c t). simpl. by rewrite IH, orb_assoc. Qed.

Lemma split_join_on c l : l <> [] -> Forall (fun s => includes c s = false) l -> split_on c (join_on c l) = l.
Proof.
  intros Hne Hl. induction Hl as [|s l Hs Hl IH]; [done|]. rewrite includes_all in Hs. apply negb_false_iff in Hs.
  destruct l as [|s' l]; [by apply split_on_none|].
  change (join_on c (s :: s' :: l)) with (s +:+ String c (join_on c (s' :: l))). rewrite split_on_one by done. by rewrite IH.
Qed.

Lemma break_last_tail c d s a b : break_last c s = Some (a, b) -> includes d s = false -> includes d b = false.
Proof.
  revert a. induction s as [|x s IH]; intros a; simpl; [done|]. intros Hb [_ Hd]%orb_false_iff.
  destruct (break_last c s) as [[a' b']|] eqn:E; [simplify_eq; by eapply IH|]. case_bool_decide; by simplify_eq.
Qed.

Lemma expand_tail_plain s : includes dot_char s = false -> expand_tail s = Some s.
Proof. intros Hd. unfold expand_tail. destruct (break_last colon s) as [[a b]|] eqn:E; [|done]. by rewrite (break_last_tail _ _ _ _ _ E Hd). Qed.

Lemma join_includes d l : d <> colon -> Forall (fun s => includes d s = false) l -> includes d (join_on colon l) = false.
Proof.
  intros Hd Hl. induction Hl as [|s l Hs Hl IH]; [done|]. destruct l as [|s' l]; [done|].
  change (join_on colon (s :: s' :: l)) with (s +:+ String colon (join_on colon (s' :: l))). rewrite includes_app, Hs. simpl.
  by rewrite bool_decide_eq_false_2 by done.
Qed.

Lemma break_double_two c d s : break_double (String c (String d s)) =
  (if bool_decide (c = colon) && bool_decide (d = colon) then Some (EmptyString, s) else (fun '(a, b) => (String c a, b)) <$> break_double (String d s)).
Proof. done. Qed.

(** A plain group neither makes nor hides a double colon. *)
Lemma break_double_group g t : plain_group g -> break_double (g +:+ t) = (fun '(a, b) => (g +:+ a, b)) <$> break_double t.
Proof.
  intros (Hne & Hc & _). clear Hne. induction g as [|c g IH]; [change (EmptyString +:+ t) with t; by destruct (break_double t) as [[]|]|].
  simpl in Hc. apply orb_false_iff in Hc as [Hc Hg]. apply bool_decide_eq_false in Hc. specialize (IH Hg).
  change (String c g +:+ t) with (String c (g +:+ t)). cbn [break_double]. destruct (g +:+ t) as [|d u] eqn:E.
  - destruct t; [done|]. by destruct g.
  - rewrite bool_decide_eq_false_2 by done. cbn [andb]. rewrite IH. by destruct (break_double t) as [[]|].
Qed.

Lemma break_double_step g t : plain_group g -> break_double (String colon (g +:+ t)) = (fun '(a, b) => (String colon (g +:+ a), b)) <$> break_double t.
Proof.
  intros Hg. pose proof (break_double_group g t Hg) as Hb. destruct Hg as (Hne & Hc & _). destruct g as [|c g]; [done|].
  simpl in Hc. apply orb_false_iff in Hc as [Hc _]. apply bool_decide_eq_false in Hc.
  change (String c g +:+ t) with (String c (g +:+ t)) in *. rewrite break_double_two.
  rewrite (bool_decide_eq_false_2 (c = colon)) by done. rewrite andb_false_r, Hb. by destruct (break_double t) as [[]|].
Qed.

Lemma break_double_join l t : Forall plain_group l -> l <> [] ->
  break_double (join_on colon l +:+ t) = (fun '(a, b) => (join_on colon l +:+ a, b)) <$> break_double t /\
  break_double (String colon (join_on colon l +:+ t)) = (fun '(a, b) => (String colon (join_on colon l +:+ a), b)) <$> break_double t.
Proof.
  intros Hl Hne. assert (Happ : forall a b c : string, (a +:+ b) +:+ c = a +:+ (b +:+ c)).
  { intros a b c. induction a as [|x a IH]; [done|]. change (String x ((a +:+ b) +:+ c) = String x (a +:+ (b +:+ c))). by rewrite IH. }
  induction Hl as [|g l Hg Hl IH]; [done|]. destruct l as [|g' l]; [split; [by apply break_double_group|by apply break_double_step]|].
  change (join_on colon (g :: g' :: l)) with (g +:+ String colon (join_on colon (g' :: l))). destruct (IH ltac:(done)) as [_ IH2].
  rewrite !Happ. change (String colon (join_on colon (g' :: l)) +:+ t) with (String colon (join_on colon (g' :: l) +:+ t)).
  rewrite break_double_step, break_double_group, IH2 by done.
  destruct (break_double t) as [[a b]|]; simpl; [|done]. by rewrite !Happ.
Qed.

Lemma strip_colon_plain g : includes colon g = false -> strip_colon g = g.
Proof.
  induction g as [|c g IH]; [done|]. simpl. intros [Hc Hg]%orb_false_iff. apply bool_decide_eq_false in Hc. rewrite IH by done.
  destruct g; [|done]. by rewrite bool_decide_eq_false_2.
Qed.

Lemma strip_colon_app s t : t <> EmptyString -> strip_colon (s +:+ t) = s +:+ strip_colon t.
Proof.
  intros Ht. induction s as [|c s IH]; [done|]. change (String c s +:+ t) with (String c (s +:+ t)). change (String c s +:+ strip_colon t) with (String c (s +:+ strip_colon t)).
  rewrite <- IH. assert (s +:+ t <> EmptyString) by (destruct s; [done|done]). cbn [strip_colon]. by destruct (s +:+ t).
Qed.

Lemma join_nonempty l : Forall plain_group l -> l <> [] -> join_on colon l <> EmptyString.
Proof. intros Hl Hne. destruct Hl as [|g l (Hg & _) Hl]; [done|]. destruct l; [done|]. simpl. by destruct g. Qed.

Lemma strip_join l : Forall plain_group l -> strip_colon (join_on colon l) = join_on colon l.
Proof.
  intros Hl. induction Hl as [|g l Hg Hl IH]; [done|]. destruct l as [|g' l]; [apply strip_colon_plain, Hg|].
  change (join_on colon (g :: g' :: l)) with (g +:+ String colon (join_on colon (g' :: l))).
  rewrite strip_colon_app by done. change (String colon (join_on colon (g' :: l))) with (String colon EmptyString +:+ join_on colon (g' :: l)) at 1.
  rewrite strip_colon_app by (by apply join_nonempty). by rewrite IH.
Qed.

Lemma plain_groups gs : Forall group_value gs -> Forall plain_group (hex16 <$> gs).
Proof. intros Hg. apply Forall_fmap. eapply Forall_impl; [exact Hg|]. intros g Hv. by apply hex16_group. Qed.

Definition ipv6_text (gs : list Z) : string := join_on colon (hex16 <$> gs).

Lemma ipv6_text_nodot gs : Forall group_value gs -> includes dot_char (ipv6_text gs) = false.
Proof. intros Hg. apply join_includes; [done|]. eapply Forall_impl; [by apply plain_groups|]. by intros g (_ & _ & ?). Qed.

Lemma split_ipv6_text gs : Forall group_value gs -> gs <> [] -> split_on colon (ipv6_text gs) = hex16 <$> gs.
Proof.
  intros Hg Hne. apply split_join_on; [by destruct gs|]. eapply Forall_impl; [by apply plain_groups|]. by intros g (_ & ? & _).
Qed.

Lemma split_groups_text gs : Forall group_value gs -> split_groups (ipv6_text gs) = hex16 <$> gs.
Proof.
  intros Hg. unfold split_groups. destruct gs as [|g gs]; [done|]. rewrite bool_decide_eq_false_2.
  - by apply split_ipv6_text.
  - apply join_nonempty; [by apply plain_groups|done].
Qed.

Lemma break_double_text gs t : Forall group_value gs ->
  break_double (ipv6_text gs +:+ String colon (String colon t)) = Some (ipv6_text gs, t) /\
  break_double (String colon (ipv6_text gs)) = None /\ (gs <> [] -> break_double (ipv6_text gs) = None).
Proof.
  intros Hg. destruct gs as [|g gs]; [done|]. set (l := g :: gs) in *.
  assert (Hp : Forall plain_group (hex16 <$> l)) by (by apply plain_groups). assert (Hne : hex16 <$> l <> []) by done.
  destruct (break_double_join _ (String colon (String colon t)) Hp Hne) as [H1 _]. destruct (break_double_join _ EmptyString Hp Hne) as [H3 H4].
  rewrite str_app_nil in H3, H4. unfold ipv6_text. rewrite H1, H3, H4, break_double_two. simpl bool_decide. cbn [andb fmap option_fmap option_map]. by rewrite str_app_nil.
Qed.

(** The IPv6 parser puts every group of the text at its place, whether the text
    has all eight or elides a run of zeros. *)
Theorem parseIpv6_places (hs rs : list Z) (Hh : Forall group_value hs) (Hr : Forall group_value rs) :
  (length hs = 8%nat -> parseIpv6 (ipv6_text hs) = Some (pack hs)) /\
  ((length hs + length rs < 8)%nat ->
   parseIpv6 (ipv6_text hs +:+ "::" +:+ ipv6_text rs) = Some (pack (hs ++ replicate (8 - (length hs + length rs)) 0 ++ rs))).
Proof.
  pose proof (ipv6_text_nodot hs Hh) as Dh. pose proof (ipv6_text_nodot rs Hr) as Dr.
  pose proof (break_double_text hs (ipv6_text rs) Hh) as (B1 & _ & B2). pose proof (break_double_text rs EmptyString Hr) as (_ & B3 & _). split.
  - intros Hl. assert (hs <> []) by (by destruct hs). unfold parseIpv6. assert (Hc : includes colon (ipv6_text hs) = true).
    { destruct hs as [|a [|b hs]]; [done|done|]. unfold ipv6_text. rewrite !fmap_cons.
      change (join_on colon (hex16 a :: hex16 b :: (hex16 <$> hs))) with (hex16 a +:+ String colon (join_on colon (hex16 b :: (hex16 <$> hs)))).
      rewrite includes_app. apply orb_true_iff. right. done. }
    rewrite Hc, expand_tail_plain by done. cbn [negb mbind option_bind]. rewrite B2, split_ipv6_text by done.
    unfold groupsToBigInt. rewrite groups_read by done. cbn [mbind option_bind]. by rewrite length_fmap, Hl.
  - intros Hl. unfold parseIpv6. change (ipv6_text hs +:+ "::" +:+ ipv6_text rs) with (ipv6_text hs +:+ String colon (String colon (ipv6_text rs))).
    assert (Hc : includes colon (ipv6_text hs +:+ String colon (String colon (ipv6_text rs))) = true) by (rewrite includes_app; apply orb_true_iff; by right).
    assert (Hd : includes dot_char (ipv6_text hs +:+ String colon (String colon (ipv6_text rs))) = false) by (rewrite includes_app, Dh; simpl; by rewrite Dr).
    rewrite Hc, expand_tail_plain by done. cbn [negb mbind option_bind]. rewrite B1, bool_decide_eq_false_2 by (rewrite B3; by intros []).
    assert (Es : strip_colon (ipv6_text hs) = ipv6_text hs) by (by apply strip_join, plain_groups). rewrite Es, !split_groups_text by done.
    unfold groupsToBigInt. rewrite !groups_read by done. cbn [mbind option_bind]. rewrite !length_fmap, (proj2 (Nat.leb_gt 8 (length hs + length rs)) Hl).
    rewrite !pack_app, pack_zeros, length_app, length_replicate. f_equal. pose proof (pack_range rs Hr).
    rewrite lor_shiftl_add; [|lia|].
    + f_equal. f_equal. f_equal. lia.
    + assert (2 ^ (16 * Z.of_nat (length rs)) <= 2 ^ (16 * (Z.of_nat (8 - (length hs + length rs)) + Z.of_nat (length rs)))) by (apply Z.pow_le_mono_r; lia). unfold pack in *. lia.
Qed.

(** * Blocks *)

(** The first [p] of [w] bits agree. *)
Definition same_block (w p a b : Z) : bool := a / 2 ^ (w - p) =? b / 2 ^ (w - p).

Lemma mask_block w p a b : 0 <= a < 2 ^ w -> 0 <= b < 2 ^ w -> 0 <= p <= w ->
  (Z.land a (2 ^ w - 2 ^ (w - p)) =? Z.land b (2 ^ w - 2 ^ (w - p))) = same_block w p a b.
Proof.
  intros Ha Hb Hp. rewrite !land_high by done. unfold same_block. apply eq_true_iff_eq. rewrite !Z.eqb_eq.
  assert (0 < 2 ^ (w - p)) by (apply Z.pow_pos_nonneg; lia). nia.
Qed.

Lemma same_block_all w a b : 0 <= w -> 0 <= a < 2 ^ w -> 0 <= b < 2 ^ w -> same_block w 0 a b = true.
Proof. intros Hw Ha Hb. unfold same_block. rewrite Z.sub_0_r, !Z.div_small by lia. done. Qed.

(** The 32-bit conjunction is the one of the unsigned values. *)
Lemma uint32_band x y : uint32 (band x y) = Z.land (uint32 x) (uint32 y).
Proof.
  unfold band, uint32. rewrite <- !Z.land_ones by lia. rewrite <- !Z.land_assoc.
  assert (E : forall z, Z.land (int32 z) (Z.ones 32) = Z.land z (Z.ones 32)).
  { intros z. rewrite !Z.land_ones by lia. apply (int32_uint32 z). }
  rewrite E. rewrite (Z.land_comm (int32 x)), <- Z.land_assoc, (Z.land_comm (Z.ones 32) (int32 x)), E.
  rewrite Z.land_assoc, (Z.land_comm y x), <- Z.land_assoc. rewrite (Z.land_comm (Z.ones 32) (Z.land y _)), <- Z.land_assoc, Z.land_diag. done.
Qed.

Lemma mask4_value p : 1 <= p <= 32 -> mask4 p = 2 ^ 32 - 2 ^ (32 - p).
Proof.
  intros Hp. unfold mask4, shl. rewrite int32_uint32. change (int32 4294967295) with (-1). unfold uint32. rewrite Z.shiftl_mul_pow2 by lia.
  assert (1 <= 2 ^ (32 - p) <= 2 ^ 31). { split; [pose proof (Z.pow_pos_nonneg 2 (32 - p)); lia|apply Z.pow_le_mono_r; lia]. }
  replace (-1 * 2 ^ (32 - p)) with ((2 ^ 32 - 2 ^ (32 - p)) + (-1) * 2 ^ 32) by lia. rewrite Z.mod_add, Z.mod_small by lia. done.
Qed.

Lemma mask6_value p : 0 <= p <= 128 -> mask6 p = 2 ^ 128 - 2 ^ (128 - p).
Proof. intros Hp. unfold mask6. by rewrite !Z.shiftl_mul_pow2, !Z.mul_1_l by lia. Qed.

Lemma mapped_value a : 0 <= a < 2 ^ 32 -> mapped a = 65535 * 2 ^ 32 + a.
Proof. intros Ha. unfold mapped, uint32. rewrite Z.mod_small by lia. by apply lor_shiftl_add. Qed.

(** * What an entry covers *)

Definition entry_wf (e : AllowlistEntry) : Prop :=
  match e with
  | any | invalid _ => True
  | ipv4 a p => 0 <= a < 2 ^ 32 /\ 0 <= p <= 32
  | ipv6 a => 0 <= a < 2 ^ 128
  | ipv6_cidr a p => 0 <= a < 2 ^ 128 /\ 0 <= p <= 128
  end.

(** Peers by address: the block of the entry has the peer; an IPv4 peer is
    looked up in IPv6 blocks at its mapped address. *)
Definition covers4 (e : AllowlistEntry) (peer : Z) : bool :=
  match e with
  | any => true
  | invalid _ => false
  | ipv4 a p => same_block 32 p peer a
  | ipv6_cidr a p => same_block 128 p (65535 * 2 ^ 32 + peer) a
  | ipv6 a => (a =? 0) || (a =? 65535 * 2 ^ 32 + peer)
  end.

Definition covers6 (e : AllowlistEntry) (peer : Z) : bool :=
  match e with
  | any => true
  | invalid _ | ipv4 _ _ => false
  | ipv6_cidr a p => same_block 128 p peer a
  | ipv6 a => peer =? a
  end.

Lemma entryMatches4 e peer q : entry_wf e -> 0 <= peer < 2 ^ 32 -> entryMatches e (ipv4 peer q) = covers4 e peer.
Proof.
  intros He Hp. destruct e as [|a p|a|a p|]; simpl in *; [done| | | |done].
  - destruct He as [Ha Hq]. destruct (Z.eqb_spec p 0) as [->|]; [symmetry; by apply same_block_all|].
    rewrite !uint32_band, mask4_value by lia. unfold uint32. rewrite !(Z.mod_small peer), !(Z.mod_small a) by lia.
    assert (1 <= 2 ^ (32 - p) <= 2 ^ 31). { split; [pose proof (Z.pow_pos_nonneg 2 (32 - p)); lia|apply Z.pow_le_mono_r; lia]. }
    rewrite Z.mod_small by lia. by apply mask_block.
  - by rewrite mapped_value.
  - destruct He as [Ha Hq]. rewrite mapped_value by done. destruct (Z.eqb_spec p 0) as [->|]; [symmetry; apply same_block_all; lia|].
    rewrite mask6_value by done. apply mask_block; lia.
Qed.

Lemma entryMatches6 e peer : entry_wf e -> 0 <= peer < 2 ^ 128 -> entryMatches e (ipv6 peer) = covers6 e peer.
Proof.
  intros He Hp. destruct e as [|a p|a|a p|]; simpl in *; try done. destruct He as [Ha Hq].
  destruct (Z.eqb_spec p 0) as [->|]; [symmetry; apply same_block_all; lia|]. rewrite mask6_value by done. apply mask_block; lia.
Qed.

Lemma parse_nat_nonneg s v : parse_nat 10 s = Some v -> 0 <= v.
Proof. unfold parse_nat. destruct s as [|c s]; [done|]. intros Hp%parse_digits_bound; lia. Qed.

Lemma parseAllowlistEntry_wf e : entry_wf (parseAllowlistEntry e).
Proof.
  assert (Hc : forall a p, entry_wf (parse_cidr a p)).
  { intros a p. unfold parse_cidr. destruct (negb _); [done|]. assert (0 <= default 0 (parse_nat 10 p)).
    { destruct (parse_nat 10 p) eqn:E; [by apply parse_nat_nonneg in E|done]. }
    destruct (parseIpv4 a) as [v|] eqn:E4.
    - destruct (Z.ltb_spec 32 (default 0 (parse_nat 10 p))); [done|]. simpl. apply parseIpv4_range in E4. lia.
    - destruct (parseIpv6 a) as [v|] eqn:E6; [|done]. destruct (Z.ltb_spec 128 (default 0 (parse_nat 10 p))); [done|]. simpl. apply parseIpv6_range in E6. lia. }
  unfold parseAllowlistEntry. case_bool_decide; [done|]. destruct (includes slash (trim e)).
  - destruct (split_on slash (trim e)) as [|a [|p [|]]]; done.
  - destruct (parseIpv4 (trim e)) as [v|] eqn:E4; [apply parseIpv4_range in E4; simpl; lia|].
    destruct (parseIpv6 (trim e)) as [v|] eqn:E6; [by apply parseIpv6_range in E6|done].
Qed.

(** * Peers *)

Lemma mapped_text s : slice_from 7 ("::ffff:" +:+ s) = s.
Proof. unfold slice_from. simpl. rewrite ?Nat.sub_0_r. apply substring_all. Qed.

Lemma mapped_prefix s : String.prefix "::ffff:" ("::ffff:" +:+ s) = true.
Proof. by destruct s. Qed.

Lemma mapped_not_ipv4 s : parseIpv4 ("::ffff:" +:+ s) = None.
Proof.
  destruct (parseIpv4 ("::ffff:" +:+ s)) as [n|] eqn:E; [|done]. apply parseIpv4_exact in E as (a & b & c & d & Ha & _ & _ & _ & Heq & _).
  pose proof (prefix_colon EmptyString a b c d ltac:(unfold octet in Ha; lia)) as Hp. rewrite <- Heq in Hp. done.
Qed.

Lemma dotted_dot a b c d : includes dot_char (dotted a b c d) = true.
Proof. unfold dotted. rewrite includes_app. apply orb_true_iff. by right. Qed.

Lemma existsb_same {A} (f g : A -> bool) (l : list A) : (forall x, f x = g x) -> existsb f l = existsb g l.
Proof. intros Hfg. induction l as [|x l IH]; [done|]. simpl. by rewrite Hfg, IH. Qed.

Section peers.
Context (l : list string) (Hl : l <> []).

Lemma ipv4_peer a b c d : octet a -> octet b -> octet c -> octet d ->
  ipMatchesAllowlist (Some (dotted a b c d)) (Some l) = existsb (fun e => covers4 (parseAllowlistEntry e) (quad a b c d)) l.
Proof.
  intros Ha Hb Hc Hd. assert (Hne : dotted a b c d <> EmptyString) by (intros E; by pose proof (dotted_dot a b c d) as Hi; rewrite E in Hi).
  unfold ipMatchesAllowlist. destruct l as [|e0 l0] eqn:El; [done|]. rewrite <- El. assert (Ht : truthy_str (Some (dotted a b c d)) = true) by (by destruct (dotted a b c d)).
  rewrite Ht. cbn [negb from_option id]. rewrite (prefix_colon _ a b c d) by (unfold octet in Ha; lia). cbn [andb].
  unfold parse_peer. rewrite parseIpv4_dotted by done. apply existsb_same. intros e. apply entryMatches4; [apply parseAllowlistEntry_wf|by apply quad_range].
Qed.

Lemma mapped_peer a b c d : octet a -> octet b -> octet c -> octet d ->
  ipMatchesAllowlist (Some ("::ffff:" +:+ dotted a b c d)) (Some l) = ipMatchesAllowlist (Some (dotted a b c d)) (Some l).
Proof.
  intros Ha Hb Hc Hd. rewrite ipv4_peer by done. unfold ipMatchesAllowlist. destruct l as [|e0 l0] eqn:El; [done|]. rewrite <- El. cbn [truthy_str negb from_option id].
  rewrite includes_app, dotted_dot, orb_true_r, andb_false_r. unfold parse_peer. rewrite mapped_not_ipv4, mapped_text, mapped_prefix.
  unfold tail_v4. rewrite parseIpv4_dotted by done. simpl. unfold uint32. rewrite Z.mod_small by (by apply quad_range).
  apply existsb_same. intros e. apply entryMatches4; [apply parseAllowlistEntry_wf|by apply quad_range].
Qed.

Lemma ipv6_peer s v : parseIpv6 s = Some v -> String.prefix "::ffff:" s = false ->
  ipMatchesAllowlist (Some s) (Some l) = existsb (fun e => covers6 (parseAllowlistEntry e) v) l.
Proof.
  intros Hs Hp. assert (H4 : parseIpv4 s = None).
  { destruct (parseIpv4 s) as [n|] eqn:E; [|done]. apply parseIpv4_exact in E as (a & b & c & d & Ha & Hb & Hc & Hd & -> & _).
    unfold parseIpv6 in Hs. assert (Hi : includes colon (dotted a b c d) = false); [|by rewrite Hi in Hs].
    assert (Hz : forall z, octet z -> includes colon (toString z) = false).
    { intros z Hz. rewrite includes_all. apply negb_false_iff. pose proof (toString_digits z ltac:(unfold octet in Hz; lia)) as Hdig.
      unfold digits_only in Hdig. bool_norm. eapply all_chars_impl; [|done]. intros x Hx. apply negb_true_iff, bool_decide_eq_false. intros <-. by vm_compute in Hx. }
    unfold dotted. rewrite includes_app, Hz by done. simpl. rewrite includes_app, Hz by done. simpl. rewrite includes_app, Hz by done. simpl. by rewrite Hz. }
  unfold ipMatchesAllowlist. destruct l as [|e0 l0] eqn:El; [done|]. rewrite <- El. assert (Ht : truthy_str (Some s) = true) by (by destruct s).
  rewrite Ht. cbn [negb from_option id]. rewrite Hp. cbn [andb]. unfold parse_peer. rewrite H4, Hp, Hs.
  apply existsb_same. intros e. apply entryMatches6; [apply parseAllowlistEntry_wf|by apply parseIpv6_range in Hs].
Qed.
End peers.



(** * Deviations *)

(** The entry [::], the unspecified IPv6 address, admits every IPv4 peer. *)
Theorem unspecified_admits_ipv4 (a b c d : Z) (Ha : octet a) (Hb : octet b) (Hc : octet c) (Hd : octet d) :
  ipMatchesAllowlist (Some (dotted a b c d)) (Some ["::"]%string) = true.
Proof. rewrite ipv4_peer by done. vm_compute. reflexivity. Qed.

(** An IPv4 peer reported as [::ffff:cb00:7107] is not recognised as
    203.0.113.7, although the comment lists that form among the equal ones. *)
Theorem hex_mapped_peer_rejected :
  ipMatchesAllowlist (Some "203.0.113.7"%string) (Some ["203.0.113.7"]%string) = true /\
  ipMatchesAllowlist (Some "::ffff:203.0.113.7"%string) (Some ["203.0.113.7"]%string) = true /\
  ipMatchesAllowlist (Some "::ffff:cb00:7107"%string) (Some ["203.0.113.7"]%string) = false.
Proof. vm_compute. done. Qed.
