(* ===== verification/MinDst.v ===== *)
(** Amounts and the oracle check of [minDstAmount]: [src/common/amount.ts] (its
    BigInt part) and [src/pricing/min-dst-amount.validation.ts].

    Decimals are integers; the conversions from and to JavaScript numbers
    ([toDecimalNumber], [toBaseUnits], [usdPriceToScale],
    [varianceScaleFromPerfScore]) are floating point and left out. *)
From S2P Require Import Prelude JsMap BigInt.
Local Open Scope Z_scope.

(** * Amounts *)

Definition BPS_DENOMINATOR : Z := 10000.
Definition PROTOCOL_FEE_BPS : Z := 5.
Definition VARIANCE_SCALE : Z := 1000.
Definition MAX_DECIMALS : Z := 36.

Inductive Amount := AmountText (s : string) | AmountBig (z : Z).

Inductive RangeError := BadDecimals (d : Z) | NegativeAmount (z : Z) | InvalidText (s : string) | BadFairValue.

Definition assertValidDecimals (decimals : Z) : outcome RangeError unit :=
  if (decimals <? 0) || (MAX_DECIMALS <? decimals) then Err (BadDecimals decimals) else Ok tt.

Definition parseBaseUnits (value : Amount) : outcome RangeError Z :=
  match value with
  | AmountBig z => if z <? 0 then Err (NegativeAmount z) else Ok z
  | AmountText s =>
      let trimmed := trim s in
      if negb (digits_only trimmed) then Err (InvalidText s) else of_option (InvalidText s) (BigInt trimmed)
  end.

Definition calculateProtocolFee (dstAmount : Amount) : outcome RangeError Z :=
  z ← parseBaseUnits dstAmount; Ok (z * PROTOCOL_FEE_BPS / BPS_DENOMINATOR).

(** BigInt division truncates. *)
Definition applyVarianceScale (srcAmount : Amount) (varianceScale : Z) : outcome RangeError Z :=
  z ← parseBaseUnits srcAmount; Ok (Z.quot (z * varianceScale) VARIANCE_SCALE).

(** * Configuration *)

Definition USD_PRICE_SCALE : Z := 100000000.

Record OracleMinDstConfig := { oc_maxUserSlippageBps : Z; oc_maxPremiumBps : Z; oc_failOpenMaxUsd : Z; oc_maxStalenessMs : Z }.
Record OracleMinDstPairOverride := { ov_maxUserSlippageBps : option Z; ov_maxPremiumBps : option Z }.

Definition normalizePairKey (srcToken dstToken : string) : string :=
  toLowerCase (trim srcToken) +:+ ":" +:+ toLowerCase (trim dstToken).

Definition resolveOracleMinDstConfig (config : OracleMinDstConfig) (pairOverrides : option (jsmap OracleMinDstPairOverride))
    (srcToken dstToken : string) : OracleMinDstConfig :=
  match pairOverrides with
  | None | Some [] => config
  | Some m =>
      match get (normalizePairKey srcToken dstToken) m with
      | None => config
      | Some o =>
          {| oc_maxUserSlippageBps := default (oc_maxUserSlippageBps config) (ov_maxUserSlippageBps o);
             oc_maxPremiumBps := default (oc_maxPremiumBps config) (ov_maxPremiumBps o);
             oc_failOpenMaxUsd := oc_failOpenMaxUsd config; oc_maxStalenessMs := oc_maxStalenessMs config |}
      end
  end.

(** * Validation *)

Record PriceSnapshot := { sn_srcPriceUsd : option Z; sn_dstPriceUsd : option Z; sn_asOfMs : Z }.

Record MinDstValidationInput := {
  mi_srcAmount : Amount; mi_srcDecimals : Z; mi_dstDecimals : Z; mi_minDstAmount : Amount;
  mi_acknowledgeHighSlippage : bool; mi_nowMs : Z; mi_snapshot : PriceSnapshot;
}.

Inductive MinDstCode := INVALID_AMOUNT | ORACLE_UNAVAILABLE | STALE_ORACLE | EXCESSIVE_SLIPPAGE | EXCESSIVE_PREMIUM.

Inductive MinDstValidationResult :=
  | MinDstOk (fairValue : option Z) (slippageBps premiumBps : Z) (oracleUnavailable : bool)
  | MinDstErr (code : MinDstCode) (fairValue slippageBps premiumBps : option Z).

Definition computeFairDstAmount (srcAmount srcDecimals dstDecimals srcPriceUsd dstPriceUsd : Z) : outcome RangeError Z :=
  _ ← assertValidDecimals srcDecimals;
  _ ← assertValidDecimals dstDecimals;
  if (srcAmount <? 0) || (srcPriceUsd <=? 0) || (dstPriceUsd <=? 0) then Err BadFairValue
  else Ok (srcAmount * srcPriceUsd * 10 ^ dstDecimals / (dstPriceUsd * 10 ^ srcDecimals)).

Definition sourceNotionalUsd (srcAmount srcDecimals srcPriceUsd : Z) : Z := srcAmount * srcPriceUsd / 10 ^ srcDecimals.

Definition snapshotUnavailable (s : PriceSnapshot) (nowMs maxStalenessMs : Z) : bool :=
  match sn_srcPriceUsd s, sn_dstPriceUsd s with
  | Some p, Some q => (p <=? 0) || (q <=? 0) || (maxStalenessMs <? nowMs - sn_asOfMs s)
  | _, _ => true
  end.

Definition parse_input (i : MinDstValidationInput) : outcome RangeError (Z * Z) :=
  srcAmount ← parseBaseUnits (mi_srcAmount i);
  minDstAmount ← parseBaseUnits (mi_minDstAmount i);
  _ ← assertValidDecimals (mi_srcDecimals i);
  _ ← assertValidDecimals (mi_dstDecimals i);
  Ok (srcAmount, minDstAmount).

Definition missing_price (s : PriceSnapshot) : bool :=
  match sn_srcPriceUsd s, sn_dstPriceUsd s with Some p, Some q => (p <=? 0) || (q <=? 0) | _, _ => true end.

(** The branch without a usable oracle. *)
Definition without_oracle (srcAmount : Z) (i : MinDstValidationInput) (config : OracleMinDstConfig) : MinDstValidationResult :=
  let s := mi_snapshot i in
  let stale := oc_maxStalenessMs config <? mi_nowMs i - sn_asOfMs s in
  let refused := MinDstErr (if stale && negb (missing_price s) then STALE_ORACLE else ORACLE_UNAVAILABLE) None None None in
  match sn_srcPriceUsd s with
  | Some p =>
      if (0 <? p) && (sourceNotionalUsd srcAmount (mi_srcDecimals i) p <=? oc_failOpenMaxUsd config)
      then MinDstOk None 0 0 true else refused
  | None => refused
  end.

(** The comparison with the fair value. *)
Definition against_fair (fairValue minDstAmount : Z) (acknowledged : bool) (config : OracleMinDstConfig) : MinDstValidationResult :=
  if fairValue =? 0 then MinDstErr INVALID_AMOUNT (Some fairValue) None None
  else
    let slippageBps := if minDstAmount <? fairValue then (fairValue - minDstAmount) * 10000 / fairValue else 0 in
    let premiumBps := if fairValue <? minDstAmount then (minDstAmount - fairValue) * 10000 / fairValue else 0 in
    if (oc_maxUserSlippageBps config <? slippageBps) && negb acknowledged
    then MinDstErr EXCESSIVE_SLIPPAGE (Some fairValue) (Some slippageBps) (Some premiumBps)
    else if oc_maxPremiumBps config <? premiumBps
    then MinDstErr EXCESSIVE_PREMIUM (Some fairValue) (Some slippageBps) (Some premiumBps)
    else MinDstOk (Some fairValue) slippageBps premiumBps false.

(** [Err] is the exception [computeFairDstAmount] could throw. *)
Definition validateMinDstAmount (i : MinDstValidationInput) (config : OracleMinDstConfig) : outcome RangeError MinDstValidationResult :=
  match parse_input i with
  | Err _ => Ok (MinDstErr INVALID_AMOUNT None None None)
  | Ok (srcAmount, minDstAmount) =>
      if (srcAmount =? 0) || (minDstAmount =? 0) then Ok (MinDstErr INVALID_AMOUNT None None None)
      else if snapshotUnavailable (mi_snapshot i) (mi_nowMs i) (oc_maxStalenessMs config) then Ok (without_oracle srcAmount i config)
      else
        fairValue ← computeFairDstAmount srcAmount (mi_srcDecimals i) (mi_dstDecimals i)
          (default 0 (sn_srcPriceUsd (mi_snapshot i))) (default 0 (sn_dstPriceUsd (mi_snapshot i)));
        Ok (against_fair fairValue minDstAmount (mi_acknowledgeHighSlippage i) config)
  end.

(** * Correctness *)

Definition accepted (r : outcome RangeError MinDstValidationResult) : bool :=
  match r with Ok (MinDstOk _ _ _ _) => true | _ => false end.

(** The largest amount worth no more than the source, in destination units:
    [fair_value src dst amount v]. *)
Definition is_fair_value (i : MinDstValidationInput) (srcAmount p q v : Z) : Prop :=
  v * (q * 10 ^ mi_srcDecimals i) <= srcAmount * p * 10 ^ mi_dstDecimals i < (v + 1) * (q * 10 ^ mi_srcDecimals i).

(** No more than [bps] (and less than one more) basis points of [fair] apart. *)
Definition within_bps (diff fair bps : Z) : bool := diff * 10000 <? (bps + 1) * fair.

Lemma parseBaseUnits_nonneg v z : parseBaseUnits v = Ok z -> 0 <= z.
Proof.
  destruct v as [s|x]; simpl; [|destruct (Z.ltb_spec x 0); [done|by intros [= <-]]].
  destruct (digits_only (trim s)) eqn:Hd; [|done]. destruct (BigInt_digits_total _ Hd) as (x & -> & Hx). simpl. by intros [= <-].
Qed.

Lemma parse_input_ok i a m : parse_input i = Ok (a, m) ->
  0 <= a /\ 0 <= m /\ 0 <= mi_srcDecimals i <= 36 /\ 0 <= mi_dstDecimals i <= 36.
Proof.
  unfold parse_input. destruct (parseBaseUnits (mi_srcAmount i)) as [x|] eqn:E1; [|done]. simpl.
  destruct (parseBaseUnits (mi_minDstAmount i)) as [y|] eqn:E2; [|done]. simpl. unfold assertValidDecimals, MAX_DECIMALS.
  destruct ((mi_srcDecimals i <? 0) || (36 <? mi_srcDecimals i)) eqn:D1; [done|]. cbn [mbind outcome_bind].
  destruct ((mi_dstDecimals i <? 0) || (36 <? mi_dstDecimals i)) eqn:D2; [done|]. intros [= <- <-].
  apply parseBaseUnits_nonneg in E1, E2. bool_norm. lia.
Qed.

Lemma div_gt_iff a b k : 0 < b -> (k <? a / b) = negb (a <? (k + 1) * b).
Proof.
  intros Hb. apply eq_true_iff_eq. rewrite negb_true_iff, Z.ltb_lt, Z.ltb_ge. split; intros H.
  - pose proof (Z.mul_div_le a b Hb). nia.
  - apply Z.lt_le_trans with (k + 1); [lia|]. apply Z.div_le_lower_bound; lia.
Qed.

Lemma against_fair_decides v m ack config : 0 <= v -> 0 <= oc_maxUserSlippageBps config -> 0 <= oc_maxPremiumBps config ->
  accepted (Ok (against_fair v m ack config)) =
  (0 <? v) && (within_bps (v - m) v (oc_maxUserSlippageBps config) || ack) && within_bps (m - v) v (oc_maxPremiumBps config).
Proof.
  intros Hv Hs Hp. unfold against_fair, within_bps. destruct (Z.eqb_spec v 0) as [->|Hne]; [done|]. rewrite (proj2 (Z.ltb_lt 0 v)) by lia.
  destruct (Z.ltb_spec m v); destruct (Z.ltb_spec v m); try lia; rewrite ?div_gt_iff, ?(proj2 (Z.ltb_ge _ 0)) by lia.
  - rewrite (proj2 (Z.ltb_lt ((m - v) * 10000) _)) by nia. destruct (_ <? _), ack; done.
  - rewrite (proj2 (Z.ltb_lt ((v - m) * 10000) _)) by nia. simpl. by destruct ((m - v) * 10000 <? _).
  - rewrite !(proj2 (Z.ltb_lt _ ((_ + 1) * _))) by nia. done.
Qed.

Lemma computeFairDstAmount_spec i a m p q : parse_input i = Ok (a, m) -> 0 < p -> 0 < q ->
  exists v, computeFairDstAmount a (mi_srcDecimals i) (mi_dstDecimals i) p q = Ok v /\ 0 <= v /\ is_fair_value i a p q v.
Proof.
  intros Hi%parse_input_ok Hp Hq. unfold computeFairDstAmount, assertValidDecimals, MAX_DECIMALS.
  rewrite !(proj2 (Z.ltb_ge _ 0)), !(proj2 (Z.ltb_ge 36 _)), (proj2 (Z.leb_gt p 0)), (proj2 (Z.leb_gt q 0)) by lia. simpl.
  eexists. split; [done|]. assert (0 < 10 ^ mi_srcDecimals i) by (apply Z.pow_pos_nonneg; lia). assert (0 < 10 ^ mi_dstDecimals i) by (apply Z.pow_pos_nonneg; lia).
  set (den := q * 10 ^ mi_srcDecimals i). assert (0 < den) by nia. split; [apply Z.div_pos; nia|]. unfold is_fair_value. fold den.
  set (num := a * p * 10 ^ mi_dstDecimals i). pose proof (Z.mul_div_le num den). pose proof (Z.mul_succ_div_gt num den). nia.
Qed.

(** With fresh prices, positive amounts are accepted exactly if the minimum
    is within the slippage bound of the fair value, or the user acknowledged the
    slippage, and within the premium bound; the fair value is the source's worth
    rounded down. *)
Theorem min_dst_exact (i : MinDstValidationInput) (config : OracleMinDstConfig) (a m p q : Z)
    (Hi : parse_input i = Ok (a, m)) (Ha : 0 < a) (Hm : 0 < m)
    (Hp : sn_srcPriceUsd (mi_snapshot i) = Some p) (Hq : sn_dstPriceUsd (mi_snapshot i) = Some q) (Hp0 : 0 < p) (Hq0 : 0 < q)
    (Hfresh : mi_nowMs i - sn_asOfMs (mi_snapshot i) <= oc_maxStalenessMs config)
    (Hs : 0 <= oc_maxUserSlippageBps config) (Hr : 0 <= oc_maxPremiumBps config) :
  exists v, is_fair_value i a p q v /\
    accepted (validateMinDstAmount i config) =
      (0 <? v) && (within_bps (v - m) v (oc_maxUserSlippageBps config) || mi_acknowledgeHighSlippage i) && within_bps (m - v) v (oc_maxPremiumBps config).
Proof.
  destruct (computeFairDstAmount_spec i a m p q Hi Hp0 Hq0) as (v & Hv & Hv0 & Hf). exists v. split; [done|].
  unfold validateMinDstAmount. rewrite Hi, (proj2 (Z.eqb_neq a 0)), (proj2 (Z.eqb_neq m 0)) by lia. cbn [orb].
  unfold snapshotUnavailable. rewrite Hp, Hq, (proj2 (Z.leb_gt p 0)), (proj2 (Z.leb_gt q 0)), (proj2 (Z.ltb_ge _ (_ - _))) by lia. cbn [orb from_option id].
  rewrite Hv. by apply against_fair_decides.
Qed.

(** Without fresh prices an intent passes exactly if a source price is known and
    its notional is small. *)
Theorem fail_open_exact (i : MinDstValidationInput) (config : OracleMinDstConfig) (a m : Z)
    (Hi : parse_input i = Ok (a, m)) (Ha : 0 < a) (Hm : 0 < m)
    (Hu : snapshotUnavailable (mi_snapshot i) (mi_nowMs i) (oc_maxStalenessMs config) = true) :
  accepted (validateMinDstAmount i config) = true <->
  exists p, sn_srcPriceUsd (mi_snapshot i) = Some p /\ 0 < p /\ sourceNotionalUsd a (mi_srcDecimals i) p <= oc_failOpenMaxUsd config.
Proof.
  unfold validateMinDstAmount. rewrite Hi, (proj2 (Z.eqb_neq a 0)), (proj2 (Z.eqb_neq m 0)), Hu by lia. cbn [orb accepted]. unfold without_oracle.
  destruct (sn_srcPriceUsd (mi_snapshot i)) as [p|]; simpl; [|split; [done|by intros (? & ? & ?)]].
  destruct (_ && _) eqn:E; simpl; bool_norm; [split; [intros _; by exists p|done]|]. split; [done|]. intros (p' & [= <-] & H1 & H2).
  destruct E as [E%Z.ltb_ge|E%Z.leb_gt]; lia.
Qed.

(** The validator always answers: no error escapes it. *)
Theorem validate_never_throws (i : MinDstValidationInput) (config : OracleMinDstConfig) : is_ok (validateMinDstAmount i config) = true.
Proof.
  unfold validateMinDstAmount. destruct (parse_input i) as [[a m]|] eqn:Hi; [|done]. destruct (_ || _); [done|].
  unfold snapshotUnavailable. destruct (sn_srcPriceUsd (mi_snapshot i)) as [p|]; [|done]. destruct (sn_dstPriceUsd (mi_snapshot i)) as [q|]; [|done].
  destruct (_ || _ || _) eqn:E; [done|]. bool_norm. destruct (computeFairDstAmount_spec i a m p q Hi) as (v & Hv & _); [lia|lia|]. cbn [from_option id]. by rewrite Hv.
Qed.

Definition sample_input (src min : Z) : MinDstValidationInput :=
  {| mi_srcAmount := AmountBig src; mi_srcDecimals := 0; mi_dstDecimals := 0; mi_minDstAmount := AmountBig min;
     mi_acknowledgeHighSlippage := false; mi_nowMs := 5; mi_snapshot := {| sn_srcPriceUsd := Some 1; sn_dstPriceUsd := Some 10; sn_asOfMs := 0 |} |}.
Definition sample_config : OracleMinDstConfig :=
  {| oc_maxUserSlippageBps := 100; oc_maxPremiumBps := 100; oc_failOpenMaxUsd := 0; oc_maxStalenessMs := 60000 |}.

Lemma min_dst_exact_witness : parse_input (sample_input 1000 99) = Ok (1000, 99) /\ exists v, is_fair_value (sample_input 1000 99) 1000 1 10 v /\
  accepted (validateMinDstAmount (sample_input 1000 99) sample_config) =
    (0 <? v) && (within_bps (v - 99) v 100 || false) && within_bps (99 - v) v 100.
Proof. split; [reflexivity|]. apply (min_dst_exact (sample_input 1000 99) sample_config 1000 99 1 10); try reflexivity; simpl; lia. Defined.

(** Rounding the fair value down makes the reported slippage smaller than the
    actual one: 19 units worth 1.9 are taken to be worth 1, and a minimum of 1
    counts as no slippage at all. *)
Theorem floor_hides_slippage :
  validateMinDstAmount (sample_input 19 1) sample_config = Ok (MinDstOk (Some 1) 0 0 false) /\
  (19 * 1 - 1 * 10) * 10000 / (19 * 1) = 4736.
Proof. vm_compute. done. Qed.
