(* ===== verification/RpcPool.v ===== *)
(** The pool of Soroban RPC endpoints: [src/soroban/rpc-pool.ts].

    A call is a program of [Prog]: the endpoint is chosen in one step, the
    answer is awaited, and its outcome is recorded in the next.  What the
    endpoints answer, the clock and [Math.random] are arguments.  Error rates
    are compared as fractions; health scores are rationals where the code has
    floating-point numbers (they only weigh the random choice).  The parser of
    the URL list is not modelled. *)
From S2P Require Import Prelude JsMap BigInt Prog.
From Stdlib Require Import QArith.
Local Open Scope Z_scope.
Local Open Scope prog_scope.

(** * Endpoints *)

Inductive CircuitState := cs_closed | cs_open | cs_half_open.
#[export] Instance CircuitState_eq_dec : EqDecision CircuitState.
Proof. solve_decision. Defined.

Definition WINDOW_SIZE : nat := 20.
Definition TRIP_THRESHOLD : Z := 3.
Definition RECOVERY_DELAY_MS : Z := 30000.

Record EndpointState := {
  es_url : string; es_weight : Q;
  es_circuit : CircuitState; es_consecutiveErrors : Z;
  es_lastErrorAt : option Z; es_lastSuccessAt : option Z; es_lastTrippedAt : option Z;
  es_window : list bool; es_latencies : list Z; es_latestLedger : Z;
}.

Definition new_endpoint (url : string) (weight : Q) : EndpointState :=
  {| es_url := url; es_weight := weight; es_circuit := cs_closed; es_consecutiveErrors := 0; es_lastErrorAt := None;
     es_lastSuccessAt := None; es_lastTrippedAt := None; es_window := []; es_latencies := []; es_latestLedger := 0 |}.

(** [push] and [shift] beyond the window size. *)
Definition push_window {A} (x : A) (l : list A) : list A :=
  let l := l ++ [x] in if (WINDOW_SIZE <? length l)%nat then tail l else l.

Definition recordSuccess (latency now : Z) (e : EndpointState) : EndpointState :=
  {| es_url := es_url e; es_weight := es_weight e; es_circuit := es_circuit e; es_consecutiveErrors := 0;
     es_lastErrorAt := es_lastErrorAt e; es_lastSuccessAt := Some now; es_lastTrippedAt := es_lastTrippedAt e;
     es_window := push_window true (es_window e); es_latencies := push_window latency (es_latencies e); es_latestLedger := es_latestLedger e |}.

Definition recordError (latency now : Z) (e : EndpointState) : EndpointState :=
  {| es_url := es_url e; es_weight := es_weight e; es_circuit := es_circuit e; es_consecutiveErrors := es_consecutiveErrors e + 1;
     es_lastErrorAt := Some now; es_lastSuccessAt := es_lastSuccessAt e; es_lastTrippedAt := es_lastTrippedAt e;
     es_window := push_window false (es_window e); es_latencies := push_window latency (es_latencies e); es_latestLedger := es_latestLedger e |}.

Definition with_circuit (c : CircuitState) (trippedAt : option Z) (e : EndpointState) : EndpointState :=
  {| es_url := es_url e; es_weight := es_weight e; es_circuit := c; es_consecutiveErrors := es_consecutiveErrors e;
     es_lastErrorAt := es_lastErrorAt e; es_lastSuccessAt := es_lastSuccessAt e; es_lastTrippedAt := trippedAt;
     es_window := es_window e; es_latencies := es_latencies e; es_latestLedger := es_latestLedger e |}.

Definition with_ledger (l : Z) (e : EndpointState) : EndpointState :=
  {| es_url := es_url e; es_weight := es_weight e; es_circuit := es_circuit e; es_consecutiveErrors := es_consecutiveErrors e;
     es_lastErrorAt := es_lastErrorAt e; es_lastSuccessAt := es_lastSuccessAt e; es_lastTrippedAt := es_lastTrippedAt e;
     es_window := es_window e; es_latencies := es_latencies e; es_latestLedger := l |}.

Definition errors (e : EndpointState) : Z := Z.of_nat (length (filter (fun ok => ok = false) (es_window e))).

(** [errorRate] as numerator and denominator; 0 for an empty window. *)
Definition errorRate (e : EndpointState) : Z * Z :=
  if (length (es_window e) =? 0)%nat then (0, 1) else (errors e, Z.of_nat (length (es_window e))).

Definition rate_lt (a b : Z * Z) : bool := a.1 * b.2 <? b.1 * a.2.

Definition isHealthy (e : EndpointState) : bool := bool_decide (es_circuit e = cs_closed) && rate_lt (errorRate e) (1, 2).

Definition p95LatencyMs (e : EndpointState) : Z :=
  let sorted := sort_by Z.sub (es_latencies e) in
  let idx := (Z.of_nat (length sorted) * 95 + 99) / 100 - 1 in
  default 0 (sorted !! Z.to_nat (Z.max 0 idx)).

Definition Qmax0 (q : Q) : Q := if Qle_bool 0 q then q else 0.

Definition score (e : EndpointState) : Q :=
  let errScore := (1 - (inject_Z (errorRate e).1 / inject_Z (errorRate e).2))%Q in
  let latScore := Qmax0 (1 - inject_Z (p95LatencyMs e) / inject_Z 2000)%Q in
  (errScore * (1 # 2) + latScore * (3 # 10) + (2 # 10))%Q.

(** * The pool *)

Record PoolOptions := { ro_tripThreshold : Z; ro_recoveryDelayMs : Z }.
Definition default_options : PoolOptions := {| ro_tripThreshold := TRIP_THRESHOLD; ro_recoveryDelayMs := RECOVERY_DELAY_MS |}.

Definition RpcPool : Type := list EndpointState.

(** [create]: what each endpoint answers to [getNetwork]. *)
Definition validate_network (expected : string) (now : Z) (answer : option string) (e : EndpointState) : EndpointState :=
  if bool_decide (answer = Some expected) then e else with_circuit cs_open (Some now) e.

Definition create (expected : string) (now : Z) (eps : list (string * Q * option string)) : RpcPool :=
  (fun '(url, weight, answer) => validate_network expected now answer (new_endpoint url weight)) <$> eps.

Section pool.
Context (opts : PoolOptions).

Definition maybeTrip (now : Z) (e : EndpointState) : EndpointState :=
  if bool_decide (es_circuit e = cs_closed) && (ro_tripThreshold opts <=? es_consecutiveErrors e)
  then with_circuit cs_open (Some now) e else e.

Definition recover (now : Z) (e : EndpointState) : EndpointState :=
  match es_circuit e, es_lastTrippedAt e with
  | cs_open, Some t => if ro_recoveryDelayMs opts <=? now - t then with_circuit cs_half_open (Some t) e else e
  | _, _ => e
  end.

Definition maybeRecoverEndpoints (now : Z) (p : RpcPool) : RpcPool := recover now <$> p.

(** Position of the first least error rate among the positions given. *)
Fixpoint best_rate (p : RpcPool) (l : list nat) : option nat :=
  match l with
  | [] => None
  | i :: l =>
      match best_rate p l with
      | None => Some i
      | Some j => match p !! i, p !! j with
                  | Some a, Some b => if rate_lt (errorRate b) (errorRate a) then Some j else Some i
                  | _, _ => Some i
                  end
      end
  end.

Definition healthy_at (p : RpcPool) (i : nat) : bool := match p !! i with Some e => isHealthy e | None => false end.
Definition healthy (p : RpcPool) : list nat := filter (fun i => healthy_at p i = true) (seq 0 (length p)).

Definition share (p : RpcPool) (i : nat) : Q := match p !! i with Some e => (es_weight e * score e)%Q | None => 0%Q end.

(** The loop that consumes the random number; the last one if it never ends. *)
Fixpoint pick (p : RpcPool) (rand : Q) (l : list nat) : option nat :=
  match l with
  | [] => None
  | [i] => Some i
  | i :: l => let rand := (rand - share p i)%Q in if Qle_bool rand 0 then Some i else pick p rand l
  end.

(** [random] is the value of [Math.random()]. *)
Definition selectEndpoint (random : Q) (now : Z) (p : RpcPool) : option nat * RpcPool :=
  let p := maybeRecoverEndpoints now p in
  match healthy p with
  | [] => (best_rate p (seq 0 (length p)), p)
  | hs => (pick p (random * foldr (fun i q => (share p i + q)%Q) 0%Q hs)%Q hs, p)
  end.

Definition succeed (i : nat) (latency now : Z) (p : RpcPool) : RpcPool := alter (recordSuccess latency now) i p.
Definition fail (i : nat) (latency now : Z) (p : RpcPool) : RpcPool := alter (fun e => maybeTrip now (recordError latency now e)) i p.

(** The endpoint [call] tries next. *)
Definition fallback (i : nat) (p : RpcPool) : option nat := best_rate p (filter (fun j => j <> i) (healthy p)).

(** What happens during one request: when it starts and ends, and whether each
    endpoint answers it, with the ledger for [getLatestLedger]. *)
Record Request (A : Type) := {
  rq_random : Q; rq_start : Z; rq_end : Z; rq_start2 : Z; rq_end2 : Z;
  rq_answer : nat -> option A; rq_ledger : A -> option Z;
}.
#[global] Arguments rq_random {A} _.
#[global] Arguments rq_start {A} _.
#[global] Arguments rq_end {A} _.
#[global] Arguments rq_start2 {A} _.
#[global] Arguments rq_end2 {A} _.
#[global] Arguments rq_answer {A} _.
#[global] Arguments rq_ledger {A} _.

Inductive RpcError := NoEndpoint | RpcFailed (i : nat).

Definition note_ledger {A} (rq : Request A) (i : nat) (a : A) (p : RpcPool) : RpcPool :=
  match rq_ledger rq a with Some l => alter (with_ledger l) i p | None => p end.

Definition call {A} (rq : Request A) : prog RpcPool RpcError A :=
  ep <- atomic (selectEndpoint (rq_random rq) (rq_start rq));
  match ep with
  | None => Throw NoEndpoint
  | Some i =>
      match rq_answer rq i with
      | Some a => modify (fun p => note_ledger rq i a (succeed i (rq_end rq - rq_start rq) (rq_end rq) p));;; Done a
      | None =>
          fb <- atomic (fun p => let p := fail i (rq_end rq - rq_start rq) (rq_end rq) p in (fallback i p, p));
          match fb with
          | None => Throw (RpcFailed i)
          | Some j =>
              match rq_answer rq j with
              | Some a => modify (succeed j (rq_end2 rq - rq_start2 rq) (rq_end2 rq));;; Done a
              | None => modify (fail j (rq_end2 rq - rq_start2 rq) (rq_end2 rq));;; Throw (RpcFailed j)
              end
          end
      end
  end.

(** A transaction is sent once, to one endpoint, whose URL is returned. *)
Definition sendTransaction {A} (rq : Request A) : prog RpcPool RpcError (A * string) :=
  ep <- atomic (fun p => let '(o, p) := selectEndpoint (rq_random rq) (rq_start rq) p in ((i ← o; e ← p !! i; Some (i, es_url e)), p));
  match ep with
  | None => Throw NoEndpoint
  | Some (i, url) =>
      match rq_answer rq i with
      | Some a => modify (succeed i (rq_end rq - rq_start rq) (rq_end rq));;; Done (a, url)
      | None => modify (fail i (rq_end rq - rq_start rq) (rq_end rq));;; Throw (RpcFailed i)
      end
  end.

(** One probe of the endpoint at [i]. *)
Definition probe_one (i : nat) (answers : bool) (start now : Z) : prog RpcPool RpcError unit :=
  modify (alter (fun e =>
    if answers then let e := recordSuccess (now - start) now e in with_circuit cs_closed (es_lastTrippedAt e) e
    else with_circuit cs_open (Some now) (recordError (now - start) now e)) i).

Definition suspended (p : RpcPool) (i : nat) : bool :=
  match p !! i with Some e => bool_decide (es_circuit e = cs_open) || bool_decide (es_circuit e = cs_half_open) | None => false end.

Definition probeUnhealthy (answers : nat -> bool) (start now : Z) : prog RpcPool RpcError unit :=
  candidates <- reads (fun p => filter (fun i => suspended p i = true) (seq 0 (length p)));
  pfold (fun _ i => probe_one i (answers i) start now) tt candidates.

Definition medianLedger (p : RpcPool) : Z :=
  let ledgers := sort_by Z.sub (filter (fun l => 0 < l) (es_latestLedger <$> p)) in default 0 (ledgers !! (length ledgers / 2)%nat).

Definition ledgerLag (p : RpcPool) (e : EndpointState) : Z :=
  if 0 <? medianLedger p then Z.max 0 (medianLedger p - es_latestLedger e) else 0.
End pool.

(** * Selection *)

Lemma rate_den e : 0 < (errorRate e).2.
Proof. unfold errorRate. destruct (Nat.eqb_spec (length (es_window e)) 0); simpl; lia. Qed.

Lemma rate_lt_trans a b c : 0 < a.2 -> 0 < b.2 -> 0 < c.2 -> rate_lt b a = false -> rate_lt c b = false -> rate_lt c a = false.
Proof. unfold rate_lt. rewrite !Z.ltb_ge. intros Ha Hb Hc H1 H2. nia. Qed.

Lemma rate_lt_asym a b : 0 < a.2 -> 0 < b.2 -> rate_lt a b = true -> rate_lt b a = false.
Proof. unfold rate_lt. rewrite Z.ltb_lt, Z.ltb_ge. nia. Qed.

Definition rate_at (p : RpcPool) (i : nat) : Z * Z := match p !! i with Some e => errorRate e | None => (0, 1) end.

Lemma rate_at_den p i : 0 < (rate_at p i).2.
Proof. unfold rate_at. destruct (p !! i); [apply rate_den|simpl; lia]. Qed.

Lemma best_rate_spec p l i : Forall (fun j => is_Some (p !! j)) l -> best_rate p l = Some i ->
  i ∈ l /\ forall j, j ∈ l -> rate_lt (rate_at p j) (rate_at p i) = false.
Proof.
  intros Hl. revert i. induction Hl as [|k l [a Ha] Hl IH]; intros i; simpl; [done|].
  assert (Hrefl : forall x, rate_lt (rate_at p x) (rate_at p x) = false) by (intros x; unfold rate_lt; apply Z.ltb_irrefl).
  destruct (best_rate p l) as [j|] eqn:Eb.
  - destruct (IH j eq_refl) as [Hin Hmin]. destruct (proj1 (Forall_forall _ _) Hl j Hin) as [b Hb]. rewrite Ha, Hb.
    assert (Ek : errorRate a = rate_at p k) by (unfold rate_at; by rewrite Ha). assert (Ej : errorRate b = rate_at p j) by (unfold rate_at; by rewrite Hb).
    rewrite Ek, Ej. destruct (rate_lt (rate_at p j) (rate_at p k)) eqn:Elt; intros [= <-].
    + split; [by right|]. intros x [->|Hx]%elem_of_cons; [|by apply Hmin]. apply rate_lt_asym; auto using rate_at_den.
    + split; [by left|]. intros x [->|Hx]%elem_of_cons; [apply Hrefl|]. eapply rate_lt_trans; [apply rate_at_den..|exact Elt|by apply Hmin].
  - intros [= <-]. split; [by left|]. intros x [->|Hx]%elem_of_cons; [apply Hrefl|]. destruct l as [|y l]; [by apply not_elem_of_nil in Hx|].
    simpl in Eb. destruct (best_rate p l); [|done]. by repeat case_match.
Qed.

Lemma best_rate_some p l : l <> [] -> is_Some (best_rate p l).
Proof. destruct l as [|i l]; [done|]. intros _. simpl. destruct (best_rate p l); [|done]. repeat case_match; done. Qed.

Lemma pick_in p rand l i : pick p rand l = Some i -> i ∈ l.
Proof.
  revert rand. induction l as [|k l IH]; intros rand; [done|]. cbn [pick]. destruct l as [|k' l]; [intros [= <-]; by left|].
  destruct (Qle_bool _ 0); [intros [= <-]; by left|]. intros Hp. right. by eapply IH.
Qed.

Lemma pick_some p rand l : l <> [] -> is_Some (pick p rand l).
Proof.
  revert rand. induction l as [|k l IH]; intros rand Hne; [done|]. cbn [pick]. destruct l as [|k' l]; [done|].
  destruct (Qle_bool _ 0); [done|]. by apply IH.
Qed.

Lemma elem_of_healthy p i : i ∈ healthy p <-> healthy_at p i = true.
Proof.
  unfold healthy. rewrite list_elem_of_filter, elem_of_seq. split; [by intros [? _]|]. intros Hh. split; [done|].
  unfold healthy_at in Hh. destruct (p !! i) eqn:E; [|done]. apply lookup_lt_Some in E. lia.
Qed.

Lemma seq_lookup (p : RpcPool) : Forall (fun j => is_Some (p !! j)) (seq 0 (length p)).
Proof. apply Forall_forall. intros j Hj%elem_of_seq. apply lookup_lt_is_Some. lia. Qed.

Section selection.
Context (opts : PoolOptions).

(** The pool picks a healthy endpoint whenever there is one, and otherwise
    one of the least error rate, whatever its circuit; it fails to pick only if
    it is empty. *)
Theorem select_prefers_healthy (random : Q) (now : Z) (p : RpcPool) :
  let '(o, p') := selectEndpoint opts random now p in
  p' = maybeRecoverEndpoints opts now p /\
  match o with
  | None => p = []
  | Some i => if bool_decide (healthy p' = []) then (i < length p)%nat /\ forall j, (j < length p)%nat -> rate_lt (rate_at p' j) (rate_at p' i) = false
              else healthy_at p' i = true
  end.
Proof.
  unfold selectEndpoint. set (p' := maybeRecoverEndpoints opts now p). assert (Hlen : length p' = length p) by apply length_fmap.
  destruct (healthy p') as [|h hs] eqn:Eh.
  - rewrite Eh, bool_decide_eq_true_2 by done. split; [done|]. destruct (best_rate p' (seq 0 (length p'))) as [i|] eqn:Eb.
    + apply best_rate_spec in Eb as [Hi Hmin]; [|apply seq_lookup]. apply elem_of_seq in Hi. split; [lia|].
      intros j Hj. apply Hmin, elem_of_seq. lia.
    + destruct p as [|e p0]; [done|]. destruct (best_rate_some p' (seq 0 (length p'))) as [x Hx]; [|by rewrite Hx in Eb]. by rewrite Hlen.
  - split; [done|]. destruct (pick p' _ (h :: hs)) as [i|] eqn:Ep.
    + rewrite Eh, bool_decide_eq_false_2 by done. apply elem_of_healthy. rewrite Eh. by eapply pick_in.
    + destruct (pick_some p' (random * foldr (fun i q => (share p' i + q)%Q) 0%Q (h :: hs))%Q (h :: hs)) as [x Hx]; [done|]. by rewrite Hx in Ep.
Qed.
End selection.

(** * Invariant, under any interleaving *)

Section invariant.
Context (opts : PoolOptions) (Htrip : 0 < ro_tripThreshold opts).

(** The windows are bounded and the breaker has tripped on every endpoint that
    reached the threshold. *)
Definition endpoint_ok (e : EndpointState) : Prop :=
  (length (es_window e) <= WINDOW_SIZE)%nat /\ length (es_latencies e) = length (es_window e) /\ 0 <= es_consecutiveErrors e /\
  (es_circuit e = cs_closed -> es_consecutiveErrors e < ro_tripThreshold opts).

Definition rpc_ok (p : RpcPool) : Prop := Forall endpoint_ok p.

Lemma length_push_window {A} (x : A) l : (length l <= WINDOW_SIZE)%nat ->
  length (push_window x l) = if (length l <? WINDOW_SIZE)%nat then S (length l) else WINDOW_SIZE.
Proof.
  intros Hl. unfold push_window. rewrite length_app. simpl. replace (length l + 1)%nat with (S (length l)) by lia.
  destruct (Nat.ltb_spec WINDOW_SIZE (S (length l))), (Nat.ltb_spec (length l) WINDOW_SIZE); try lia; destruct l; simpl in *; rewrite ?length_app; simpl; lia.
Qed.

Lemma push_window_ok {A B} (x : A) (y : B) l m : (length l <= WINDOW_SIZE)%nat -> length m = length l ->
  (length (push_window x l) <= WINDOW_SIZE)%nat /\ length (push_window y m) = length (push_window x l).
Proof. intros Hl Hm. rewrite !length_push_window by lia. rewrite Hm. destruct (Nat.ltb_spec (length l) WINDOW_SIZE); lia. Qed.

Lemma recordSuccess_ok latency now e : endpoint_ok e -> endpoint_ok (recordSuccess latency now e).
Proof. intros (H1 & H2 & H3 & H4). destruct (push_window_ok true latency _ _ H1 H2). unfold endpoint_ok. simpl. split_and!; [done|done|lia|lia]. Qed.

Lemma closed_ok t e : endpoint_ok (recordSuccess 0 0 e) -> es_consecutiveErrors e = 0 -> endpoint_ok e -> endpoint_ok (with_circuit cs_closed t e).
Proof. intros _ H0 (H1 & H2 & H3 & H4). unfold endpoint_ok. simpl. split_and!; [done|done|done|lia]. Qed.

Lemma opened_ok latency now t e : endpoint_ok e -> endpoint_ok (with_circuit cs_open t (recordError latency now e)).
Proof. intros (H1 & H2 & H3 & H4). destruct (push_window_ok false latency _ _ H1 H2). unfold endpoint_ok. simpl. split_and!; [done|done|lia|done]. Qed.

Lemma fail_ok latency now e : endpoint_ok e -> endpoint_ok (maybeTrip opts now (recordError latency now e)).
Proof.
  intros He. unfold maybeTrip. destruct (_ && _) eqn:E; [by apply opened_ok|]. destruct He as (H1 & H2 & H3 & H4).
  destruct (push_window_ok false latency _ _ H1 H2). unfold endpoint_ok. simpl in *. split_and!; [done|done|lia|]. intros Hc.
  rewrite Hc in E. simpl in E. apply Z.leb_gt in E. lia.
Qed.

Lemma recover_ok now e : endpoint_ok e -> endpoint_ok (recover opts now e).
Proof.
  intros He. unfold recover. destruct (es_circuit e); try done. destruct (es_lastTrippedAt e); [|done]. destruct (_ <=? _); [|done].
  destruct He as (H1 & H2 & H3 & _). done.
Qed.

Lemma alter_ok f i p : (forall e, endpoint_ok e -> endpoint_ok (f e)) -> rpc_ok p -> rpc_ok (alter f i p).
Proof. intros Hf Hp. apply Forall_alter; [done|]. intros e _. apply Hf. Qed.

Lemma selectEndpoint_ok random now p : rpc_ok p -> rpc_ok (selectEndpoint opts random now p).2.
Proof.
  intros Hp. unfold selectEndpoint, maybeRecoverEndpoints. assert (rpc_ok (recover opts now <$> p)) by (apply Forall_fmap; eapply Forall_impl; [exact Hp|apply recover_ok]).
  by destruct (healthy _).
Qed.

Definition keeps (p p' : RpcPool) : Prop := rpc_ok p -> rpc_ok p'.

Lemma note_ledger_ok {A} (rq : Request A) i a p : rpc_ok p -> rpc_ok (note_ledger rq i a p).
Proof. intros Hp. unfold note_ledger. destruct (rq_ledger rq a); [|done]. by apply alter_ok. Qed.

Lemma succeed_ok i latency now p : rpc_ok p -> rpc_ok (succeed i latency now p).
Proof. apply alter_ok, recordSuccess_ok. Qed.

Lemma failed_ok i latency now p : rpc_ok p -> rpc_ok (fail opts i latency now p).
Proof. apply alter_ok. intros e. apply fail_ok. Qed.

Lemma call_safe {A} (rq : Request A) : safe keeps (fun _ => True) (call opts rq).
Proof.
  unfold call. apply safe_bind; [apply safe_atomic; intros p ?; by apply selectEndpoint_ok|]. intros [i|]; [|constructor].
  destruct (rq_answer rq i) as [a|].
  - apply safe_bind; [|by constructor]. apply safe_modify. intros p ?. by apply note_ledger_ok, succeed_ok.
  - apply safe_bind; [apply safe_atomic; intros p ?; by apply failed_ok|]. intros [j|]; [|constructor].
    destruct (rq_answer rq j) as [a|]; (apply safe_bind; [|by constructor]); apply safe_modify; intros p ?; [by apply succeed_ok|by apply failed_ok].
Qed.

Lemma sendTransaction_safe {A} (rq : Request A) : safe keeps (fun _ => True) (sendTransaction opts rq).
Proof.
  unfold sendTransaction. apply safe_bind.
  { apply safe_atomic. intros p Hp. pose proof (selectEndpoint_ok (rq_random rq) (rq_start rq) p Hp). by destruct (selectEndpoint opts (rq_random rq) (rq_start rq) p). }
  intros [[i url]|]; [|constructor]. destruct (rq_answer rq i) as [a|]; (apply safe_bind; [|by constructor]); apply safe_modify; intros p ?; [by apply succeed_ok|by apply failed_ok].
Qed.

Lemma probe_safe answers start now : safe keeps (fun _ => True) (probeUnhealthy answers start now).
Proof.
  unfold probeUnhealthy. apply safe_bind; [apply safe_reads; by intros ??|]. intros l. apply safe_fold. intros _ i _. apply safe_modify.
  intros p Hp. apply alter_ok; [|done]. intros e He. destruct (answers i); [|by apply opened_ok].
  apply closed_ok; [by apply recordSuccess_ok, recordSuccess_ok|done|by apply recordSuccess_ok].
Qed.

(** What the backend runs against the pool. *)
Inductive rpc_program : prog RpcPool RpcError unit -> Prop :=
  | run_call A (rq : Request A) : rpc_program (call opts rq;;; Done tt)
  | run_send A (rq : Request A) : rpc_program (sendTransaction opts rq;;; Done tt)
  | run_probe answers start now : rpc_program (probeUnhealthy answers start now).

Lemma rpc_program_safe q : rpc_program q -> safe keeps (fun _ => True) q.
Proof.
  destruct 1; [| |apply probe_safe].
  - apply safe_bind; [apply call_safe|by constructor].
  - apply safe_bind; [apply sendTransaction_safe|by constructor].
Qed.

Lemma create_ok expected now eps : rpc_ok (create expected now eps).
Proof.
  unfold create. apply Forall_fmap, Forall_forall. intros [[url weight] answer] _. simpl. unfold validate_network.
  case_bool_decide; unfold endpoint_ok; simpl; split_and!; try done; unfold WINDOW_SIZE; lia.
Qed.

(** However calls, sends and probes interleave, the windows stay bounded and
    no endpoint serves with as many errors in a row as trip its breaker. *)
Theorem breaker_trips_in_time (expected : string) (now : Z) (eps : list (string * Q * option string))
    (qs : list (prog RpcPool RpcError unit)) (Hqs : Forall rpc_program qs) (p' : RpcPool) (qs' : list (prog RpcPool RpcError unit))
    (Hrun : rtc pool_step (create expected now eps, qs) (p', qs')) :
  Forall (fun e => (length (es_window e) <= WINDOW_SIZE)%nat /\ (es_circuit e = cs_closed -> es_consecutiveErrors e < ro_tripThreshold opts)) p'.
Proof.
  assert (Hs : Forall (safe keeps (fun _ => True)) qs) by (eapply Forall_impl; [exact Hqs|apply rpc_program_safe]).
  destruct (pool_safe keeps _ _ _ Hrun Hs) as [Hr _]. simpl in Hr. clear Hrun Hs.
  assert (Hok : rpc_ok p').
  { pose proof (create_ok expected now eps) as H0. revert H0. induction Hr as [|x y z Hxy _ IH]; [done|]. intros Hx. exact (IH (Hxy Hx)). }
  eapply Forall_impl; [exact Hok|]. intros e (H1 & _ & _ & H4). by split.
Qed.
End invariant.

(** * Failover *)

Lemma fallback_spec p i j : fallback i p = Some j ->
  j <> i /\ healthy_at p j = true /\ forall k, k <> i -> healthy_at p k = true -> rate_lt (rate_at p k) (rate_at p j) = false.
Proof.
  unfold fallback. intros Hf. apply best_rate_spec in Hf as [Hj Hmin].
  - apply list_elem_of_filter in Hj as [Hne Hj]. split; [done|]. split; [by apply elem_of_healthy|].
    intros k Hk Hh. apply Hmin, list_elem_of_filter. split; [done|]. by apply elem_of_healthy.
  - apply Forall_forall. intros x [_ Hx]%list_elem_of_filter. apply elem_of_healthy in Hx. unfold healthy_at in Hx. by destruct (p !! x).
Qed.

Lemma fallback_some p i k : k <> i -> healthy_at p k = true -> is_Some (fallback i p).
Proof. intros Hk Hh. apply best_rate_some. intros E. assert (Hin : k ∈ filter (fun j => j <> i) (healthy p)) by (apply list_elem_of_filter; split; [done|by apply elem_of_healthy]). rewrite E in Hin. by apply not_elem_of_nil in Hin. Qed.

Section failover.
Context (opts : PoolOptions).

(** A call fails only if the endpoint it chose fails and so does the best
    other healthy one, or there is none: a healthy peer that answers makes it
    succeed, and no endpoint is asked twice. *)
Theorem call_fails_over {A} (rq : Request A) (p : RpcPool) (i k : nat)
    (Hsel : (selectEndpoint opts (rq_random rq) (rq_start rq) p).1 = Some i)
    (Hk : k <> i) (Hh : healthy_at (fail opts i (rq_end rq - rq_start rq) (rq_end rq) (maybeRecoverEndpoints opts (rq_start rq) p)) k = true)
    (Hans : forall j, j <> i -> healthy_at (fail opts i (rq_end rq - rq_start rq) (rq_end rq) (maybeRecoverEndpoints opts (rq_start rq) p)) j = true -> is_Some (rq_answer rq j)) :
  exists a j, (run (call opts rq) p).1 = Ok a /\ rq_answer rq j = Some a.
Proof.
  unfold call. rewrite run_pbind, run_atomic. simpl. rewrite Hsel. destruct (rq_answer rq i) as [a|] eqn:Ea; [simpl; eauto|].
  pose proof (select_prefers_healthy opts (rq_random rq) (rq_start rq) p) as Hs. destruct (selectEndpoint opts (rq_random rq) (rq_start rq) p) as [o p1].
  destruct Hs as [-> _]. simpl. destruct (fallback_some _ i k Hk Hh) as [j Hj]. rewrite Hj. apply fallback_spec in Hj as (Hne & Hhj & _).
  destruct (Hans j Hne Hhj) as [a Hja]. rewrite Hja. simpl. eauto.
Qed.
End failover.

(** * Deviations *)

Section deviations.
Context (opts : PoolOptions).

(** Closed, but with too many errors in its window. *)
Definition shunned (p : RpcPool) (k : nat) : Prop := exists e, p !! k = Some e /\ es_circuit e = cs_closed /\ isHealthy e = false.

Lemma recover_closed now e : es_circuit e = cs_closed -> recover opts now e = e.
Proof. intros Hc. unfold recover. by rewrite Hc. Qed.

Lemma recover_healthy now e : isHealthy e = true -> recover opts now e = e.
Proof. unfold isHealthy. intros Hh. bool_norm. by apply recover_closed. Qed.

Lemma recover_lookup now (p : RpcPool) (i : nat) : maybeRecoverEndpoints opts now p !! i = recover opts now <$> p !! i.
Proof. apply list_lookup_fmap. Qed.

Lemma alter_other (f : EndpointState -> EndpointState) i k (p : RpcPool) : k <> i -> alter f i p !! k = p !! k.
Proof. intros. by apply list_lookup_alter_ne. Qed.

Section one_call.
Context (p : RpcPool) (k h : nat) (Hk : shunned p k) (Hh : healthy_at p h = true).

Lemma select_avoids random now i p' : selectEndpoint opts random now p = (Some i, p') -> i <> k /\ p' !! k = p !! k.
Proof.
  intros Hs. pose proof (select_prefers_healthy opts random now p) as Hp. rewrite Hs in Hp. destruct Hp as [-> Hi]. destruct Hk as (e & He & Hc & Hn).
  assert (Hkp : maybeRecoverEndpoints opts now p !! k = Some e) by (rewrite recover_lookup, He; simpl; by rewrite recover_closed).
  assert (Hhp : healthy_at (maybeRecoverEndpoints opts now p) h = true).
  { unfold healthy_at in *. rewrite recover_lookup. destruct (p !! h) as [x|]; [|done]. simpl. by rewrite recover_healthy. }
  rewrite bool_decide_eq_false_2 in Hi.
  - split; [|congruence]. intros ->. unfold healthy_at in Hi. rewrite Hkp in Hi. congruence.
  - intros E. apply elem_of_healthy in Hhp. rewrite E in Hhp. by apply not_elem_of_nil in Hhp.
Qed.

Lemma fallback_avoids q i j : q !! k = p !! k -> fallback i q = Some j -> j <> k.
Proof.
  intros Eq Hf ->. apply fallback_spec in Hf as (_ & Hhk & _). destruct Hk as (e & He & _ & Hn). unfold healthy_at in Hhk. rewrite Eq, He in Hhk. congruence.
Qed.

Lemma call_avoids {A} (rq : Request A) : (run (call opts rq) p).2 !! k = p !! k.
Proof.
  unfold call. rewrite run_pbind, run_atomic. destruct (selectEndpoint opts (rq_random rq) (rq_start rq) p) as [[i|] p'] eqn:Es; simpl.
  - destruct (select_avoids _ _ _ _ Es) as [Hi Hp']. destruct (rq_answer rq i) as [a|]; simpl.
    + unfold note_ledger, succeed. destruct (rq_ledger rq a); rewrite ?alter_other by done; done.
    + unfold fail at 1 2. set (q := alter _ i p'). assert (Hq : q !! k = p !! k) by (unfold q; by rewrite alter_other by done).
      destruct (fallback i q) as [j|] eqn:Ef; simpl; [|done]. pose proof (fallback_avoids _ _ _ Hq Ef) as Hj.
      destruct (rq_answer rq j); simpl; unfold succeed, fail; by rewrite alter_other by done.
  - pose proof (select_prefers_healthy opts (rq_random rq) (rq_start rq) p) as Hp. rewrite Es in Hp. destruct Hp as [-> ->]. done.
Qed.

Lemma probe_avoids answers start now : (run (probeUnhealthy answers start now) p).2 !! k = p !! k.
Proof.
  unfold probeUnhealthy. rewrite run_pbind. simpl. set (l := filter _ _). assert (Hl : k ∉ l).
  { intros [Hs _]%list_elem_of_filter. unfold suspended in Hs. destruct Hk as (e & He & Hc & _). by rewrite He, Hc in Hs. }
  clearbody l. generalize (eq_refl (p !! k)). generalize p at 1 3. induction l as [|i l IH]; intros q Hq; [done|].
  apply not_elem_of_cons in Hl as [Hi Hl]. simpl. apply IH; [done|]. by rewrite alter_other.
Qed.
End one_call.

(** While another endpoint is healthy, one whose window is half errors but whose
    breaker has not tripped is neither used nor probed: it never comes back. *)
Theorem shunned_endpoint_never_returns (p : RpcPool) (k h : nat) (Hk : shunned p k) (Hh : healthy_at p h = true) :
  (forall A (rq : Request A), (run (call opts rq) p).2 !! k = p !! k) /\
  (forall answers start now, (run (probeUnhealthy answers start now) p).2 !! k = p !! k).
Proof. split; intros; [by eapply call_avoids|by apply probe_avoids]. Qed.
End deviations.

(** Two endpoints; the second one's first request fails. *)
Definition two_endpoints : RpcPool := create "net" 0 [("https://a", 1%Q, Some "net"); ("https://b", 1%Q, Some "net")]%string.

Theorem first_error_shuns : shunned (fail default_options 1 10 10 two_endpoints) 1 /\ healthy_at (fail default_options 1 10 10 two_endpoints) 0 = true.
Proof. split; [eexists; split; [reflexivity|split; vm_compute; reflexivity]|vm_compute; reflexivity]. Qed.

(** An endpoint on another network is set aside at start-up and admitted by the
    first probe, which only asks for its health. *)
Theorem wrong_network_readmitted :
  let p := create "public" 0 [("https://a", 1%Q, Some "testnet")]%string in
  healthy_at p 0 = false /\ healthy_at (run (probeUnhealthy (fun _ => true) 15000 15010) p).2 0 = true.
Proof. vm_compute. done. Qed.

(** * Witnesses *)

Definition failing_request : Request Z :=
  {| rq_random := 0%Q; rq_start := 0; rq_end := 10; rq_start2 := 10; rq_end2 := 20;
     rq_answer := fun i => if decide (i = 0%nat) then None else Some 7; rq_ledger := fun _ => None |}.

Lemma breaker_trips_in_time_witness :
  let c := schedule [0; 0; 0]%nat two_endpoints [(call default_options failing_request;;; Done tt)] in
  Forall (fun e => (length (es_window e) <= WINDOW_SIZE)%nat /\ (es_circuit e = cs_closed -> es_consecutiveErrors e < 3)) c.1 /\
  (es_consecutiveErrors <$> c.1) = [1; 0].
Proof.
  intros c. split; [|vm_compute; reflexivity].
  apply (breaker_trips_in_time default_options ltac:(reflexivity) "net" 0 [("https://a", 1%Q, Some "net"); ("https://b", 1%Q, Some "net")]%string
    [(call default_options failing_request;;; Done tt)] ltac:(repeat constructor) c.1 c.2).
  rewrite <- surjective_pairing. apply schedule_steps.
Defined.

Lemma call_fails_over_witness : exists a j, (run (call default_options failing_request) two_endpoints).1 = Ok a /\ rq_answer failing_request j = Some a.
Proof.
  apply (call_fails_over default_options failing_request two_endpoints 0 1); [vm_compute; reflexivity|done|vm_compute; reflexivity|].
  intros j Hj _. simpl. by rewrite decide_False.
Defined.
