(* ===== verification/DualWrite.v ===== *)
(** The dual-write repository: [src/intents/dual-write-intents.repository.ts],
    with the mirror write [saveIfNewer] and [createIdempotent] of
    [src/intents/prisma-intents.repository.ts].

    The memory store is the one of [IntentsRepo].  The Postgres table is a map
    of rows; every statement is a step of its own and may throw ([fault] says
    which), so mirrors of concurrent requests interleave. *)
From S2P Require Import Prelude JsMap BigInt Prog IntentTypes StateMachine IntentsRepo.
From stdpp Require Import relations.
Local Open Scope Z_scope.
Local Open Scope prog_scope.

Record Row := { row_intent : Intent; row_key : option string }.

Record DualStore := { du_primary : InMemoryRepo; du_rows : jsmap Row; du_failures : list string }.

Inductive DbError := DbFailed | UniqueViolation.

Definition row_version (r : Row) : Z := default 0 (version (row_intent r)).

Definition with_primary (p : InMemoryRepo) (d : DualStore) : DualStore := {| du_primary := p; du_rows := du_rows d; du_failures := du_failures d |}.
Definition with_rows (m : jsmap Row) (d : DualStore) : DualStore := {| du_primary := du_primary d; du_rows := m; du_failures := du_failures d |}.
Definition recordFailure (operation : string) (d : DualStore) : DualStore :=
  {| du_primary := du_primary d; du_rows := du_rows d; du_failures := du_failures d ++ [operation] |}.

Definition in_primary {A} (f : InMemoryRepo -> A * InMemoryRepo) (d : DualStore) : A * DualStore :=
  let '(a, p) := f (du_primary d) in (a, with_primary p d).

(** * Statements *)

Section statements.
Context (fault : nat -> bool).

(** Statement number [n] of the call. *)
Definition stmt {A} (n : nat) (f : DualStore -> A * DualStore) : prog DualStore DbError A :=
  if fault n then Step id (fun _ => Throw DbFailed) else atomic f.

(** UPDATE .. WHERE intentId = .. AND version < ..: whether a row changed. *)
Definition update_newer (i : Intent) (d : DualStore) : bool * DualStore :=
  match get (intentId i) (du_rows d) with
  | Some r =>
      if row_version r <? default 0 (version i)
      then (true, with_rows (set (intentId i) {| row_intent := i; row_key := row_key r |} (du_rows d)) d)
      else (false, d)
  | None => (false, d)
  end.

(** INSERT: whether it went through; the id and the key are unique. *)
Definition insert_row (r : Row) (d : DualStore) : bool * DualStore :=
  let taken := match row_key r with
               | Some k => existsb (fun r' => bool_decide (row_key r' = Some k)) (values (du_rows d))
               | None => false
               end in
  if has (intentId (row_intent r)) (du_rows d) || taken then (false, d)
  else (true, with_rows (set (intentId (row_intent r)) r (du_rows d)) d).

Definition saveIfNewer (i : Intent) : prog DualStore DbError unit :=
  updated <- stmt 0 (update_newer i);
  if (updated : bool) then Done tt
  else
    existing <- stmt 1 (fun d => (has (intentId i) (du_rows d), d));
    if (existing : bool) then Done tt
    else
      _ <- stmt 2 (insert_row {| row_intent := i; row_key := None |});
      Done tt.

(** SELECT .. WHERE idempotencyKey = .. AND createdAt >= .. *)
Definition find_key (key : string) (minCreatedAt : Z) (d : DualStore) : option Intent :=
  row_intent <$> head (filter (fun r => row_key r = Some key /\ minCreatedAt <= createdAt (row_intent r)) (values (du_rows d))).

(** UPDATE .. SET idempotencyKey = NULL WHERE idempotencyKey = .. AND createdAt < .. *)
Definition clear_key (key : string) (minCreatedAt : Z) (r : Row) : Row :=
  if bool_decide (row_key r = Some key) && (createdAt (row_intent r) <? minCreatedAt) then {| row_intent := row_intent r; row_key := None |} else r.
Definition release_key (key : string) (minCreatedAt : Z) (d : DualStore) : unit * DualStore :=
  (tt, with_rows ((fun kr => (kr.1, clear_key key minCreatedAt kr.2)) <$> (du_rows d : list (string * Row))) d).

Definition createIdempotent_db (i : Intent) (key : string) (minCreatedAt : Z) : prog DualStore DbError unit :=
  replay <- stmt 0 (fun d => (find_key key minCreatedAt d, d));
  match replay with
  | Some _ => Done tt
  | None =>
      stmt 1 (release_key key minCreatedAt);;;
      created <- stmt 2 (insert_row {| row_intent := i; row_key := Some key |});
      if (created : bool) then Done tt
      else
        winner <- stmt 3 (fun d => (find_key key minCreatedAt d, d));
        match winner with Some _ => Done tt | None => Throw UniqueViolation end
  end.

(** A failed mirror is counted and swallowed. *)
Definition guarded (operation : string) (p : prog DualStore DbError unit) : prog DualStore DbError unit :=
  pcatch (fun _ => modify (recordFailure operation)) p.

Definition mirror (operation : string) (i : Intent) : prog DualStore DbError unit := guarded operation (saveIfNewer i).

(** * The adapter *)

Definition op_name (op : RepoOp) : string :=
  match op with
  | OpUpdate _ _ _ => "update" | OpAccept _ _ _ _ _ => "acceptIfOpen" | OpFill _ _ _ _ _ => "fillIfAccepted"
  | OpExtend _ _ _ => "extendDeadlineIfAccepted" | OpCancel _ _ => "cancelIfOpen" | OpExpire _ _ => "expireIfOpen"
  | OpSlash _ _ _ _ => "slashIfAccepted" | OpTransition _ _ _ _ => "transitionIf"
  end.

(** [mirrored]: update and the guarded transitions. *)
Definition dual_op (op : RepoOp) : prog DualStore DbError MutationResult :=
  res <- atomic (in_primary (run_op op));
  match res with
  | Written i => mirror (op_name op) i;;; Done res
  | _ => Done res
  end.

Definition dual_save (i : Intent) : prog DualStore DbError Intent :=
  modify (fun d => with_primary (save i (du_primary d)) d);;; mirror "save" i;;; Done i.

Definition dual_createIdempotent (i : Intent) (key : string) (minCreatedAt : Z) : prog DualStore DbError IdempotentCreateResult :=
  res <- atomic (in_primary (createIdempotent i key minCreatedAt));
  if icr_created res then guarded "createIdempotent" (createIdempotent_db (icr_intent res) key minCreatedAt);;; Done res
  else Done res.

Definition dual_amend (id minDst : string) (newDeadline now : Z) : prog DualStore DbError (option Intent) :=
  res <- atomic (in_primary (amendIfOpen id minDst newDeadline now));
  match res with
  | Some i => mirror "amendIfOpen" i;;; Done res
  | None => Done res
  end.

(** Memory only. *)
Definition dual_delete (id : string) : prog DualStore DbError bool := atomic (in_primary (IntentsRepo.delete id)).

(** [backfill]: newer rows into memory, then the intents only memory had. *)
Definition load_rows (l : list Intent) (r : InMemoryRepo) : Z * InMemoryRepo :=
  foldl (fun '(n, r) i =>
    match findById (intentId i) r with
    | Some local => if default 0 (version local) <? default 0 (version i) then (n + 1, save i r) else (n, r)
    | None => (n + 1, save i r)
    end) (0, r) l.

Definition backfill : prog DualStore DbError (Z * Z) :=
  snapshot <- reads (fun d => (row_intent <$> values (du_rows d), findAll (du_primary d)));
  let '(fromDb, inMemory) := snapshot in
  loaded <- atomic (in_primary (load_rows fromDb));
  let only := filter (fun i => intentId i ∉ (intentId <$> fromDb)) inMemory in
  pushed <- pfold (fun n i => mirror "backfill" i;;; Done (n + 1)) 0 only;
  Done (loaded, pushed).
End statements.

(** * Memory decides *)

Lemma run_guarded_primary p operation d :
  (forall d, du_primary (run p d).2 = du_primary d) ->
  du_primary (run (guarded operation p) d).2 = du_primary d /\ exists u, (run (guarded operation p) d).1 = Ok u.
Proof.
  intros Hp. unfold guarded. rewrite run_pcatch. specialize (Hp d). destruct (run p d) as [[u|e] d']; simpl in *; [by eauto|].
  split; [done|]. by exists tt.
Qed.

(** Statements leave the memory store alone. *)
Definition same_primary (d d' : DualStore) : Prop := du_primary d' = du_primary d.

Lemma safe_primary {A} (Q : A -> Prop) (p : prog DualStore DbError A) : safe same_primary Q p -> forall d, du_primary (run p d).2 = du_primary d.
Proof. induction 1 as [a Ha|e|upd k Hu Hk IH]; intros d; simpl; [done|done|]. rewrite IH. apply Hu. Qed.

Lemma stmt_safe (P : DualStore -> DualStore -> Prop) fault {A} n (f : DualStore -> A * DualStore) : (forall d, P d d) -> (forall d, P d (f d).2) ->
  safe P (fun _ => True) (stmt fault n f).
Proof. intros Hr Hf. unfold stmt. destruct (fault n); [constructor; [apply Hr|intros; constructor]|by apply safe_atomic]. Qed.

Section relations.
Context (P : DualStore -> DualStore -> Prop) (Hrefl : forall d, P d d).
Context (Hupd : forall i d, P d (update_newer i d).2) (Hins : forall r d, P d (insert_row r d).2) (Hkey : forall k m d, P d (release_key k m d).2)
        (Hrec : forall o d, P d (recordFailure o d)).

Lemma saveIfNewer_safe fault i : safe P (fun _ => True) (saveIfNewer fault i).
Proof.
  unfold saveIfNewer. apply safe_bind; [by apply stmt_safe|]. intros []; [by constructor|].
  apply safe_bind; [by apply stmt_safe|]. intros []; [by constructor|]. apply safe_bind; [by apply stmt_safe|]. by constructor.
Qed.

Lemma createIdempotent_db_safe fault i key m : safe P (fun _ => True) (createIdempotent_db fault i key m).
Proof.
  unfold createIdempotent_db. apply safe_bind; [by apply stmt_safe|]. intros [|]; [by constructor|].
  apply safe_bind; [by apply stmt_safe|]. intros _. apply safe_bind; [by apply stmt_safe|]. intros []; [by constructor|].
  apply safe_bind; [by apply stmt_safe|]. intros [|]; by constructor.
Qed.

Lemma guarded_safe o p : safe P (fun _ => True) p -> safe P (fun _ => True) (guarded o p).
Proof. intros Hp. apply safe_catch; [done|]. intros _. by apply safe_modify. Qed.

Lemma mirror_safe fault o i : safe P (fun _ => True) (mirror fault o i).
Proof. apply guarded_safe, saveIfNewer_safe. Qed.
End relations.

Lemma update_newer_primary i d : same_primary d (update_newer i d).2.
Proof. unfold update_newer. repeat case_match; done. Qed.
Lemma insert_row_primary r d : same_primary d (insert_row r d).2.
Proof. unfold insert_row. by destruct (_ || _). Qed.

#[local] Hint Resolve update_newer_primary insert_row_primary : core.

Lemma mirror_primary fault o i d : du_primary (run (mirror fault o i) d).2 = du_primary d /\ exists u, (run (mirror fault o i) d).1 = Ok u.
Proof. apply run_guarded_primary. eapply safe_primary, saveIfNewer_safe; auto; done. Qed.

(** Run alone, each write answers and changes memory as the in-memory repository
    does, whatever statements of its mirror fail. *)
Lemma dual_op_run fault op d :
  (run (dual_op fault op) d).1 = Ok (run_op op (du_primary d)).1 /\ du_primary (run (dual_op fault op) d).2 = (run_op op (du_primary d)).2.
Proof.
  unfold dual_op. rewrite run_pbind, run_atomic. unfold in_primary. destruct (run_op op (du_primary d)) as [res p]. cbn [fst snd].
  destruct res as [i| |]; [|done|done]. rewrite run_pbind. destruct (mirror_primary fault (op_name op) i (with_primary p d)) as [H1 [u H2]].
  destruct (run (mirror fault (op_name op) i) (with_primary p d)) as [out d']. simpl in *. subst out. done.
Qed.

Lemma dual_amend_run fault id md dl now d :
  (run (dual_amend fault id md dl now) d).1 = Ok (amendIfOpen id md dl now (du_primary d)).1 /\
  du_primary (run (dual_amend fault id md dl now) d).2 = (amendIfOpen id md dl now (du_primary d)).2.
Proof.
  unfold dual_amend. rewrite run_pbind, run_atomic. unfold in_primary. destruct (amendIfOpen id md dl now (du_primary d)) as [res p]. cbn [fst snd].
  destruct res as [i|]; [|done]. rewrite run_pbind. destruct (mirror_primary fault "amendIfOpen" i (with_primary p d)) as [H1 [u H2]].
  destruct (run (mirror fault "amendIfOpen" i) (with_primary p d)) as [out d']. simpl in *. subst out. done.
Qed.

Lemma dual_save_run fault i d : (run (dual_save fault i) d).1 = Ok i /\ du_primary (run (dual_save fault i) d).2 = save i (du_primary d).
Proof.
  unfold dual_save. rewrite run_pbind. simpl run at 1 3. cbn iota beta. rewrite run_pbind. set (d1 := with_primary (save i (du_primary d)) d).
  destruct (mirror_primary fault "save" i d1) as [H1 [u H2]]. destruct (run (mirror fault "save" i) d1) as [out d']. simpl in *. subst out. done.
Qed.

Lemma dual_create_run fault i key m d :
  (run (dual_createIdempotent fault i key m) d).1 = Ok (createIdempotent i key m (du_primary d)).1 /\
  du_primary (run (dual_createIdempotent fault i key m) d).2 = (createIdempotent i key m (du_primary d)).2.
Proof.
  unfold dual_createIdempotent. rewrite run_pbind, run_atomic. unfold in_primary. destruct (createIdempotent i key m (du_primary d)) as [res p]. cbn [fst snd].
  destruct (icr_created res); [|done]. rewrite run_pbind.
  assert (Hp : forall d, du_primary (run (createIdempotent_db fault (icr_intent res) key m) d).2 = du_primary d).
  { eapply safe_primary, createIdempotent_db_safe; auto; done. }
  destruct (run_guarded_primary _ "createIdempotent" (with_primary p d) Hp) as [H1 [u H2]].
  destruct (run (guarded "createIdempotent" _) (with_primary p d)) as [out d']. simpl in *. subst out. done.
Qed.

(** * The mirror *)

(** Rows are kept and their versions never fall. *)
Definition never_regress (d d' : DualStore) : Prop :=
  forall id r, get id (du_rows d) = Some r -> exists r', get id (du_rows d') = Some r' /\ row_version r <= row_version r'.

Lemma never_regress_refl d : never_regress d d.
Proof. intros id r Hr. exists r. split; [done|lia]. Qed.

Lemma never_regress_trans d1 d2 d3 : never_regress d1 d2 -> never_regress d2 d3 -> never_regress d1 d3.
Proof. intros H1 H2 id r Hr. destruct (H1 _ _ Hr) as (r2 & Hr2 & ?). destruct (H2 _ _ Hr2) as (r3 & Hr3 & ?). exists r3. split; [done|lia]. Qed.

Lemma same_rows_regress d d' : du_rows d' = du_rows d -> never_regress d d'.
Proof. intros E id r Hr. exists r. rewrite E. split; [done|lia]. Qed.

Lemma update_newer_regress i d : never_regress d (update_newer i d).2.
Proof.
  unfold update_newer. destruct (get (intentId i) (du_rows d)) as [r0|] eqn:E; [|apply never_regress_refl].
  destruct (Z.ltb_spec (row_version r0) (default 0 (version i))); [|apply never_regress_refl]. intros id r Hr. simpl. rewrite get_set.
  case_decide as Eid; [|exists r; split; [done|lia]]. rewrite <- Eid, E in Hr. injection Hr as <-. eexists. split; [done|]. unfold row_version in *. simpl. lia.
Qed.

Lemma insert_row_regress x d : never_regress d (insert_row x d).2.
Proof.
  unfold insert_row, has. destruct (get (intentId (row_intent x)) (du_rows d)) as [r0|] eqn:E; [apply never_regress_refl|]. simpl.
  destruct (match row_key x with Some _ => _ | None => _ end); [apply never_regress_refl|]. intros id r Hr. simpl. rewrite get_set.
  case_decide as Eid; [congruence|]. exists r. split; [done|lia].
Qed.

Lemma get_fmap_row (f : Row -> Row) (id : string) (m : list (string * Row)) :
  get id ((fun kr => (kr.1, f kr.2)) <$> m : list (string * Row)) = f <$> get id m.
Proof. induction m as [|[k r] m IH]; [done|]. simpl. by case_bool_decide. Qed.

Lemma release_key_regress key m d : never_regress d (release_key key m d).2.
Proof.
  intros id r Hr. pose proof (get_fmap_row (clear_key key m) id (du_rows d)) as E. rewrite Hr in E.
  eexists. split; [exact E|]. unfold clear_key. destruct (_ && _); unfold row_version; simpl; lia.
Qed.

Lemma in_primary_regress {A} (f : InMemoryRepo -> A * InMemoryRepo) d : never_regress d (in_primary f d).2.
Proof. apply same_rows_regress. unfold in_primary. by destruct (f (du_primary d)). Qed.

Lemma recordFailure_regress o d : never_regress d (recordFailure o d).
Proof. by apply same_rows_regress. Qed.

#[local] Hint Resolve never_regress_refl update_newer_regress insert_row_regress release_key_regress recordFailure_regress : core.

Lemma mirror_regress fault o i : safe never_regress (fun _ => True) (mirror fault o i).
Proof. apply mirror_safe; auto. Qed.

(** What requests and the boot sequence run against the two stores. *)
Inductive dual_program : prog DualStore DbError unit -> Prop :=
  | run_dual_op fault op : dual_program (dual_op fault op;;; Done tt)
  | run_dual_save fault i : dual_program (dual_save fault i;;; Done tt)
  | run_dual_create fault i key m : dual_program (dual_createIdempotent fault i key m;;; Done tt)
  | run_dual_amend fault id md dl now : dual_program (dual_amend fault id md dl now;;; Done tt)
  | run_dual_delete id : dual_program (dual_delete id;;; Done tt)
  | run_backfill fault : dual_program (backfill fault;;; Done tt).

Lemma dual_program_safe q : dual_program q -> safe never_regress (fun _ => True) q.
Proof.
  intros Hq. destruct Hq; (apply safe_bind; [|by constructor]).
  - apply safe_bind; [apply safe_atomic, in_primary_regress|]. intros [i| |]; try by constructor. apply safe_bind; [apply mirror_regress|by constructor].
  - apply safe_bind; [apply safe_modify; intros d; by apply same_rows_regress|]. intros _. apply safe_bind; [apply mirror_regress|by constructor].
  - apply safe_bind; [apply safe_atomic, in_primary_regress|]. intros res. destruct (icr_created res); [|by constructor].
    apply safe_bind; [|by constructor]. apply guarded_safe; auto. apply createIdempotent_db_safe; auto.
  - apply safe_bind; [apply safe_atomic, in_primary_regress|]. intros [i|]; [|by constructor]. apply safe_bind; [apply mirror_regress|by constructor].
  - apply safe_atomic, in_primary_regress.
  - apply safe_bind; [by apply safe_reads|]. intros [fromDb inMemory]. apply safe_bind; [apply safe_atomic, in_primary_regress|]. intros loaded.
    apply safe_bind; [|by constructor]. apply safe_fold. intros n i _. apply safe_bind; [apply mirror_regress|by constructor].
Qed.

(** C34. However the writes of concurrent requests interleave, and whatever
    statements fail, no Postgres row is lost or falls back to an older
    version. *)
Theorem mirror_never_regresses (d d' : DualStore) (qs qs' : list (prog DualStore DbError unit)) (Hqs : Forall dual_program qs)
    (Hrun : rtc pool_step (d, qs) (d', qs')) (id : string) (r : Row) (Hr : get id (du_rows d) = Some r) :
  exists r', get id (du_rows d') = Some r' /\ row_version r <= row_version r'.
Proof.
  assert (Hs : Forall (safe never_regress (fun _ => True)) qs) by (eapply Forall_impl; [exact Hqs|apply dual_program_safe]).
  destruct (pool_safe never_regress _ _ _ Hrun Hs) as [Hst _]. simpl in Hst. clear Hrun Hs.
  assert (Hn : never_regress d d'); [|by apply Hn]. clear Hr.
  induction Hst as [x|x y z Hxy _ IH]; [apply never_regress_refl|]. by eapply never_regress_trans.
Qed.

(** C33. Memory decides: run alone, every write of the dual store answers and
    leaves memory exactly as the in-memory repository would, whatever statements
    of its mirror fail. *)
Theorem dual_refines_memory (fault : nat -> bool) (d : DualStore) :
  (forall op, (run (dual_op fault op) d).1 = Ok (run_op op (du_primary d)).1 /\ du_primary (run (dual_op fault op) d).2 = (run_op op (du_primary d)).2) /\
  (forall i, (run (dual_save fault i) d).1 = Ok i /\ du_primary (run (dual_save fault i) d).2 = save i (du_primary d)) /\
  (forall i key m, (run (dual_createIdempotent fault i key m) d).1 = Ok (createIdempotent i key m (du_primary d)).1 /\
    du_primary (run (dual_createIdempotent fault i key m) d).2 = (createIdempotent i key m (du_primary d)).2) /\
  (forall id md dl now, (run (dual_amend fault id md dl now) d).1 = Ok (amendIfOpen id md dl now (du_primary d)).1 /\
    du_primary (run (dual_amend fault id md dl now) d).2 = (amendIfOpen id md dl now (du_primary d)).2).
Proof. split_and!; intros; [apply dual_op_run|apply dual_save_run|apply dual_create_run|apply dual_amend_run]. Qed.

(** ** Catching up *)

Definition no_fault : nat -> bool := fun _ => false.

(** Postgres has every intent memory has, at the same version. *)
Definition synced (d : DualStore) : Prop :=
  forall id i, findById id (du_primary d) = Some i -> exists r, get id (du_rows d) = Some r /\ row_intent r = i.

Lemma saveIfNewer_run i d : (forall r, get (intentId i) (du_rows d) = Some r -> row_version r < default 0 (version i)) ->
  exists r, (run (saveIfNewer no_fault i) d) = (Ok tt, with_rows (set (intentId i) r (du_rows d)) d) /\ row_intent r = i.
Proof.
  intros Hv. unfold saveIfNewer. rewrite run_pbind. unfold stmt at 1. cbn [no_fault]. rewrite run_atomic. unfold update_newer.
  destruct (get (intentId i) (du_rows d)) as [r|] eqn:E; simpl.
  - rewrite (proj2 (Z.ltb_lt _ _)) by (by apply Hv). simpl. eexists. split; [done|]. done.
  - unfold has. rewrite E. simpl. unfold insert_row, has. simpl. rewrite E. simpl. eexists. split; [done|]. done.
Qed.

Lemma mirror_run o i d : (forall r, get (intentId i) (du_rows d) = Some r -> row_version r < default 0 (version i)) ->
  exists r, (run (mirror no_fault o i) d) = (Ok tt, with_rows (set (intentId i) r (du_rows d)) d) /\ row_intent r = i.
Proof.
  intros Hv. destruct (saveIfNewer_run i d Hv) as (r & Hr & Hi). exists r. split; [|done]. unfold mirror, guarded. by rewrite run_pcatch, Hr.
Qed.

(** From synchronised stores, a versioned write whose statements all succeed
    leaves them synchronised. *)
Theorem mirror_catches_up (op : RepoOp) (d : DualStore) (Hs : synced d) : synced (run (dual_op no_fault op) d).2.
Proof.
  unfold dual_op. rewrite run_pbind, run_atomic. unfold in_primary. destruct (run_op op (du_primary d)) as [res p] eqn:E. cbn [fst snd].
  destruct (run_op_spec _ _ _ _ E) as (Hv & Hf & Hsame). destruct res as [i| |]; [|by rewrite (Hsame eq_refl)..].
  symmetry in Hv. apply verdict_written in Hv as (old & Hold & _ & Hi & _). rewrite run_pbind.
  destruct (Hs _ _ Hold) as (r0 & Hr0 & Er0).
  assert (Hid : intentId i = op_id op) by (by rewrite Hi).
  destruct (mirror_run (op_name op) i (with_primary p d)) as (r & -> & Hr).
  { simpl. rewrite Hid, Hr0. intros ? [= <-]. unfold row_version. rewrite Er0, Hi. simpl. lia. }
  simpl. intros k x. simpl. rewrite Hf. simpl. rewrite get_set, Hid. destruct (decide (k = op_id op)) as [->|Hne].
  - intros [= <-]. rewrite decide_True by done. by exists r.
  - rewrite decide_False by done. apply Hs.
Qed.

(** * Witnesses and deviations *)

Definition empty_dual : DualStore := {| du_primary := empty_repo; du_rows := []; du_failures := [] |}.
Definition demo_dual : DualStore := {| du_primary := demo_repo; du_rows := [("i1"%string, {| row_intent := demo_intent; row_key := None |})]; du_failures := [] |}.

Lemma demo_synced : synced demo_dual.
Proof.
  intros id i. change (findById id (du_primary demo_dual)) with (get id [("i1"%string, demo_intent)]). simpl.
  case_bool_decide; [|done]. intros [= <-]. eauto.
Qed.

Lemma mirror_catches_up_witness : synced (run (dual_op no_fault (OpAccept "i1" "S" 6000 2000 (Some 0))) demo_dual).2.
Proof. apply (mirror_catches_up (OpAccept "i1" "S" 6000 2000 (Some 0)) demo_dual). apply demo_synced. Defined.

Lemma mirror_never_regresses_witness :
  let c := schedule [0; 0; 0]%nat demo_dual [(dual_op no_fault (OpAccept "i1" "S" 6000 2000 None);;; Done tt)] in
  exists r', get "i1" (du_rows c.1) = Some r' /\ row_version {| row_intent := demo_intent; row_key := None |} <= row_version r'.
Proof.
  intros c. apply (mirror_never_regresses demo_dual c.1 [(dual_op no_fault (OpAccept "i1" "S" 6000 2000 None);;; Done tt)] c.2).
  - repeat constructor.
  - rewrite <- surjective_pairing. apply schedule_steps.
  - reflexivity.
Defined.

Definition row_version_of (id : string) (d : DualStore) : option Z := row_version <$> get id (du_rows d).
Definition memory_version_of (id : string) (d : DualStore) : option Z := (fun i => default 0 (version i)) <$> findById id (du_primary d).

(** An amendment does not raise the version, so [saveIfNewer] drops it: memory
    has the new terms, Postgres keeps the old ones, and no failure is counted. *)
Theorem amendment_not_mirrored :
  let d := (run (dual_amend no_fault "i1" "950" 7000 2000) demo_dual).2 in
  (minDstAmount <$> findById "i1" (du_primary d)) = Some "950"%string /\
  (minDstAmount ∘ row_intent <$> get "i1" (du_rows d)) = Some "900"%string /\ du_failures d = [].
Proof. vm_compute. done. Qed.

(** A create and the update that follows it, mirrored concurrently: the update
    finds no row, the create inserts one, and the update's insert is refused as
    a duplicate and taken for a newer row. *)
Theorem create_race_loses_update :
  let d := (schedule [0; 1; 1; 1; 0; 0; 0; 1]%nat empty_dual
    [(dual_save no_fault demo_intent;;; Done tt); (dual_op no_fault (OpAccept "i1" "S" 6000 2000 None);;; Done tt)]).1 in
  memory_version_of "i1" d = Some 1 /\ row_version_of "i1" d = Some 0 /\ du_failures d = [].
Proof. vm_compute. done. Qed.
