(* ===== verification/EventIngestion.v ===== *)
(** Live ingestion of contract events (soroban/event-ingestion.service.ts).

    The worker polls the RPC from a ledger cursor, drops events it has seen and
    hands the rest to the fill timing and to the solvers service
    ([Solvers.confirmPenalty]).  A poll runs without interruption from the
    arrival of its answer to the move of the cursor, so [ingest] is atomic and
    every interleaving of polls is a sequence of its calls.  The RPC, the clock
    and [scValToNative] are parameters; a handler started without waiting is a
    [task] of the result. *)
From S2P Require Import Prelude JsMap BigInt JsNumber Prog Solvers.
Local Open Scope Z_scope.
Local Open Scope prog_scope.

(** What [scValToNative] makes of a topic slot, as far as the code tells values
    apart; the slots whose conversion throws are [undefined]. *)
Inductive native := NString (s : string) | NBigint (z : Z) | NOther.

Definition dash : Ascii.ascii := Ascii.ascii_of_N 45.

Definition MAX_TRACKED_KEYS : nat := N.to_nat 10000.
Definition STALE_INTENT_THRESHOLD_SECONDS : Z := 300.
#[global] Arguments MAX_TRACKED_KEYS : simpl never.

(** The key [`${ledgerSequence}:${eventIndex}`] is only compared for equality,
    which is that of its two numbers. *)
Record DedupeKey := { dk_ledgerSequence : Z; dk_eventIndex : Qc }.
#[export] Instance DedupeKey_eq : EqDecision DedupeKey.
Proof. solve_decision. Defined.

Record EventResponse (scval : Type) := { ev_id : string; ev_ledger : Z; ev_txHash : string; ev_topic : list scval }.
#[global] Arguments ev_id {scval} _.
#[global] Arguments ev_ledger {scval} _.
#[global] Arguments ev_txHash {scval} _.
#[global] Arguments ev_topic {scval} _.

Record Response (scval : Type) := { rs_events : list (EventResponse scval); rs_latestLedger : Z }.
#[global] Arguments rs_events {scval} _.
#[global] Arguments rs_latestLedger {scval} _.

Record Ingestion := {
  ig_interval : bool;
  ig_reconcileInterval : bool;
  ig_seenKeys : list DedupeKey;
  ig_lastIntentUpdateById : jsmap Z;
  ig_nextStartLedger : option Z;
  ig_processedCount : Z;
  ig_duplicateCount : Z;
  ig_newestIngestedLedger : option Z;
}.

Definition new_ingestion : Ingestion :=
  {| ig_interval := false; ig_reconcileInterval := false; ig_seenKeys := []; ig_lastIntentUpdateById := [];
     ig_nextStartLedger := None; ig_processedCount := 0; ig_duplicateCount := 0; ig_newestIngestedLedger := None |}.

(** Handlers started by [processEvent] and not awaited. *)
Inductive task := TimeFill (topic : list (option native)) | ReconcileSlash (topic : list (option native)).

Inductive IngestError := RpcRejected.

Definition parseEventIndex (eventId : string) : Qc :=
  match Number (default EmptyString (last (split_on dash eventId))) with Fin q => q | _ => of_Z 0 end.

Definition buildDedupeKey (ledgerSequence : Z) (eventIndex : Qc) : DedupeKey :=
  {| dk_ledgerSequence := ledgerSequence; dk_eventIndex := eventIndex |}.

(** [typeof topic[i] === "string" ? topic[i] : undefined] *)
Definition topic_string (topic : list (option native)) (i : nat) : option string :=
  match topic !! i with Some (Some (NString s)) => Some s | _ => None end.

(** * Leadership *)

Definition set_intervals (on : bool) (s : Ingestion) : Ingestion :=
  {| ig_interval := on; ig_reconcileInterval := on; ig_seenKeys := ig_seenKeys s;
     ig_lastIntentUpdateById := ig_lastIntentUpdateById s; ig_nextStartLedger := ig_nextStartLedger s;
     ig_processedCount := ig_processedCount s; ig_duplicateCount := ig_duplicateCount s;
     ig_newestIngestedLedger := ig_newestIngestedLedger s |}.

Definition startIntervals (s : Ingestion) : Ingestion := if ig_interval s then s else set_intervals true s.
Definition stopIntervals (s : Ingestion) : Ingestion := set_intervals false s.
Definition onLeadership (isLeader : bool) (s : Ingestion) : Ingestion := if isLeader then startIntervals s else stopIntervals s.

(** * Handlers *)

(** The latency observed, if any; [filledAt] looks the intent up. *)
Definition handleIntentFilled (filledAt : string -> option Z) (now : Z) (topic : list (option native)) : option Z :=
  match topic_string topic 1 with
  | Some intentId =>
      if bool_decide (intentId = EmptyString) then None
      else match filledAt intentId with
           | Some f => if f <=? 0 then None else Some (Z.max 0 (now / 1000 - f))
           | None => None
           end
  | None => None
  end.

Definition slash_amount (topic : list (option native)) : option string :=
  match topic !! 3%nat with
  | Some (Some (NBigint z)) => Some (toString z)
  | Some (Some (NString s)) => Some s
  | _ => None
  end.

Definition handleSolverSlashed (topic : list (option native)) : SM unit :=
  let solverAddress := topic_string topic 1 in
  let intentId := topic_string topic 2 in
  let slashAmount := slash_amount topic in
  if negb (truthy_str solverAddress) || negb (truthy_str intentId) || negb (truthy_str slashAmount) then Done tt
  else confirmPenalty (default EmptyString intentId) (default EmptyString slashAmount);;; Done tt.

Section ingestion.
Context {scval : Type}.
Variable scValToNative : scval -> option native.
Notation EventResponse := (EventResponse scval).
Notation Response := (Response scval).

Definition natives (e : EventResponse) : list (option native) := scValToNative <$> ev_topic e.

Definition event_key (e : EventResponse) : DedupeKey := buildDedupeKey (ev_ledger e) (parseEventIndex (ev_id e)).

(** [Set.add] and the eviction of the oldest entry. *)
Definition markSeen (k : DedupeKey) (seen : list DedupeKey) : list DedupeKey :=
  let seen := if bool_decide (k ∈ seen) then seen else seen ++ [k] in
  if (MAX_TRACKED_KEYS <? length seen)%nat then tail seen else seen.

Definition tasks_of (e : EventResponse) : list task :=
  let topic := natives e in
  let eventName := topic_string topic 0 in
  if bool_decide (eventName = Some "intent_filled"%string) then [TimeFill topic]
  else if bool_decide (eventName = Some "solver_slashed"%string) then [ReconcileSlash topic]
  else [].

Definition processEvent (now : Z) (e : EventResponse) (updates : jsmap Z) : list task * jsmap Z :=
  let intentId := topic_string (natives e) 1 in
  (tasks_of e, if truthy_str intentId then set (default EmptyString intentId) (now / 1000) updates else updates).

Definition newest_ledger (ledger : Z) (newest : option Z) : option Z :=
  match newest with Some n => if n <? ledger then Some ledger else newest | None => Some ledger end.

(** Whether the event was new, the handlers it starts, the state after it. *)
Definition ingest (now : Z) (e : EventResponse) (s : Ingestion) : bool * list task * Ingestion :=
  let k := event_key e in
  if bool_decide (k ∈ ig_seenKeys s) then
    (false, [],
     {| ig_interval := ig_interval s; ig_reconcileInterval := ig_reconcileInterval s; ig_seenKeys := ig_seenKeys s;
        ig_lastIntentUpdateById := ig_lastIntentUpdateById s; ig_nextStartLedger := ig_nextStartLedger s;
        ig_processedCount := ig_processedCount s; ig_duplicateCount := ig_duplicateCount s + 1;
        ig_newestIngestedLedger := ig_newestIngestedLedger s |})
  else
    let '(ts, updates) := processEvent now e (ig_lastIntentUpdateById s) in
    (true, ts,
     {| ig_interval := ig_interval s; ig_reconcileInterval := ig_reconcileInterval s; ig_seenKeys := markSeen k (ig_seenKeys s);
        ig_lastIntentUpdateById := updates; ig_nextStartLedger := ig_nextStartLedger s;
        ig_processedCount := ig_processedCount s + 1; ig_duplicateCount := ig_duplicateCount s;
        ig_newestIngestedLedger := newest_ledger (ev_ledger e) (ig_newestIngestedLedger s) |}).

Fixpoint ingest_all (now : Z) (es : list EventResponse) (s : Ingestion) : list task * Ingestion :=
  match es with
  | [] => ([], s)
  | e :: es => let '(_, ts, s) := ingest now e s in let '(ts', s) := ingest_all now es s in (ts ++ ts', s)
  end.

(** * Polling *)

Definition set_cursor (l : Z) (s : Ingestion) : Ingestion :=
  {| ig_interval := ig_interval s; ig_reconcileInterval := ig_reconcileInterval s; ig_seenKeys := ig_seenKeys s;
     ig_lastIntentUpdateById := ig_lastIntentUpdateById s; ig_nextStartLedger := Some l;
     ig_processedCount := ig_processedCount s; ig_duplicateCount := ig_duplicateCount s;
     ig_newestIngestedLedger := ig_newestIngestedLedger s |}.

(** What the outside answers one poll; [None] is a rejected call. *)
Record PollEnv := {
  pe_configured : bool;
  pe_latest : option Z;
  pe_getEvents : Z -> option Response;
  pe_closeTime : Z -> option Z;
  pe_now : Z;
}.

(** The lag published, if any; the gauge keeps its value otherwise. *)
Definition publishIngestionLag (env : PollEnv) (s : Ingestion) : option Z :=
  newest ← ig_newestIngestedLedger s;
  closeTime ← pe_closeTime env newest;
  if closeTime <=? 0 then None else Some (Z.max 0 (pe_now env / 1000 - closeTime)).

Definition poll (env : PollEnv) : prog Ingestion IngestError (list task * option Z) :=
  if negb (pe_configured env) then Done ([], None)
  else
    cursor <- reads ig_nextStartLedger;
    startLedger <- match cursor, pe_latest env with
                   | Some l, _ => Done l
                   | None, Some l => Done l
                   | None, None => Throw RpcRejected
                   end;
    match pe_getEvents env startLedger with
    | None => Throw RpcRejected
    | Some response =>
        ts <- atomic (fun s => let '(ts, s) := ingest_all (pe_now env) (rs_events response) s in
                               (ts, set_cursor (rs_latestLedger response + 1) s));
        lag <- reads (publishIngestionLag env);
        Done (ts, lag)
    end.

(** * Stale intents *)

Definition touch_intent (id : string) (t : Z) (s : Ingestion) : Ingestion :=
  {| ig_interval := ig_interval s; ig_reconcileInterval := ig_reconcileInterval s; ig_seenKeys := ig_seenKeys s;
     ig_lastIntentUpdateById := set id t (ig_lastIntentUpdateById s); ig_nextStartLedger := ig_nextStartLedger s;
     ig_processedCount := ig_processedCount s; ig_duplicateCount := ig_duplicateCount s;
     ig_newestIngestedLedger := ig_newestIngestedLedger s |}.

(** One entry of the map; the events fetched for it are not looked at. *)
Definition reconcile_entry (env : PollEnv) (now : Z) (id : string) (lastUpdated : Z) : prog Ingestion IngestError unit :=
  if now - lastUpdated <=? STALE_INTENT_THRESHOLD_SECONDS then Done tt
  else if negb (pe_configured env) then Done tt
  else match pe_latest env with
       | None => Throw RpcRejected
       | Some latest =>
           match pe_getEvents env (Z.max 1 (latest - 1)) with
           | None => Throw RpcRejected
           | Some _ => modify (touch_intent id (pe_now env / 1000))
           end
       end.

(** The map's iterator is live: the [n]th entry is read when its turn comes. *)
Fixpoint reconcile_from (env : PollEnv) (now : Z) (fuel n : nat) : prog Ingestion IngestError unit :=
  match fuel with
  | O => Done tt
  | S fuel =>
      entry <- reads (fun s => ig_lastIntentUpdateById s !! n);
      match entry with
      | None => Done tt
      | Some (id, lastUpdated) => reconcile_entry env now id lastUpdated;;; reconcile_from env now fuel (S n)
      end
  end.

Definition reconcileStaleIntents (env : PollEnv) (now : Z) (fuel : nat) : prog Ingestion IngestError unit :=
  reconcile_from env (now / 1000) fuel 0.
End ingestion.
#[global] Arguments PollEnv : clear implicits.

(** * Deduplication *)

Lemma max_tracked_pos : (0 < MAX_TRACKED_KEYS)%nat.
Proof. unfold MAX_TRACKED_KEYS. lia. Qed.

Section dedupe.
Context {scval : Type}.
Variable scValToNative : scval -> option native.
Notation EventResponse := (EventResponse scval).

(** A sequence of [ingest] calls with their clock readings. *)
Fixpoint ingest_seq (l : list (Z * EventResponse)) (s : Ingestion) : list bool * list task * Ingestion :=
  match l with
  | [] => ([], [], s)
  | (now, e) :: l =>
      let '(b, ts, s) := ingest scValToNative now e s in
      let '(bs, ts', s) := ingest_seq l s in (b :: bs, ts ++ ts', s)
  end.

(** Reference: an event is new unless its key is among those of the last
    [MAX_TRACKED_KEYS] events taken as new; [prior] are their keys so far. *)
Fixpoint fresh_flags (prior : list DedupeKey) (l : list EventResponse) : list bool :=
  match l with
  | [] => []
  | e :: l =>
      if decide (event_key e ∈ lastn MAX_TRACKED_KEYS prior) then false :: fresh_flags prior l
      else true :: fresh_flags (prior ++ [event_key e]) l
  end.

Fixpoint fresh_events (prior : list DedupeKey) (l : list EventResponse) : list EventResponse :=
  match l with
  | [] => []
  | e :: l =>
      if decide (event_key e ∈ lastn MAX_TRACKED_KEYS prior) then fresh_events prior l
      else e :: fresh_events (prior ++ [event_key e]) l
  end.

Lemma markSeen_lastn k prior : k ∉ lastn MAX_TRACKED_KEYS prior ->
  markSeen k (lastn MAX_TRACKED_KEYS prior) = lastn MAX_TRACKED_KEYS (prior ++ [k]).
Proof.
  intros Hk. unfold markSeen. rewrite bool_decide_eq_false_2 by done. by rewrite lastn_snoc by apply max_tracked_pos.
Qed.

Lemma ingest_seq_fresh l s prior : ig_seenKeys s = lastn MAX_TRACKED_KEYS prior ->
  let '(bs, ts, s') := ingest_seq l s in
  let fresh := fresh_events prior l.*2 in
  bs = fresh_flags prior l.*2 /\ ts = fresh ≫= tasks_of scValToNative /\
  ig_seenKeys s' = lastn MAX_TRACKED_KEYS (prior ++ (event_key <$> fresh)) /\
  ig_processedCount s' = ig_processedCount s + Z.of_nat (length fresh) /\
  ig_duplicateCount s' = ig_duplicateCount s + Z.of_nat (length l - length fresh) /\ (length fresh <= length l)%nat.
Proof.
  revert s prior. induction l as [|[now e] l IH]; intros s prior Hs; csimpl.
  { rewrite app_nil_r. split_and!; try done; lia. }
  unfold ingest. rewrite Hs. destruct (decide (event_key e ∈ lastn MAX_TRACKED_KEYS prior)) as [Hin|Hin].
  - rewrite bool_decide_eq_true_2 by done. set (s1 := Build_Ingestion _ _ _ _ _ _ _ _).
    specialize (IH s1 prior eq_refl). destruct (ingest_seq l s1) as [[bs ts] s']. destruct IH as (-> & -> & -> & -> & -> & Hle).
    split_and!; try done; simpl; lia.
  - rewrite bool_decide_eq_false_2 by done. simpl. set (s1 := Build_Ingestion _ _ _ _ _ _ _ _).
    specialize (IH s1 (prior ++ [event_key e])). destruct (ingest_seq l s1) as [[bs ts] s'].
    destruct IH as (-> & -> & -> & -> & -> & Hle); [by apply markSeen_lastn|]. csimpl. rewrite <- app_assoc.
    split_and!; try done; simpl; lia.
Qed.

Lemma lastn_elem {A} n (d : list A) k pre : (length pre < n)%nat -> k ∈ lastn n (d ++ k :: pre).
Proof.
  intros Hl. unfold lastn. rewrite length_app. simpl.
  destruct (decide (length d + S (length pre) - n <= length d)%nat) as [Hle|]; [|lia].
  rewrite drop_app_le by done. set_solver.
Qed.

Lemma fresh_spaced_from prior k pre l l2 e2 l3 : fresh_events (prior ++ k :: pre) l = l2 ++ e2 :: l3 -> event_key e2 = k ->
  (MAX_TRACKED_KEYS <= length pre + length l2)%nat.
Proof.
  revert pre l2. induction l as [|e l IH]; intros pre l2 Hf Hk; simpl in Hf; [by destruct l2|].
  case_decide as Hin; [eauto|]. destruct l2 as [|x l2]; simplify_eq/=.
  - destruct (decide (MAX_TRACKED_KEYS <= length pre)%nat); [lia|]. destruct Hin. apply lastn_elem. lia.
  - rewrite <- app_assoc in H0. simpl in H0. apply IH in H0; [|done]. rewrite length_app in H0. simpl in H0. lia.
Qed.

(** Two events taken as new under the same key are that far apart. *)
Lemma fresh_spaced prior l l1 e1 l2 e2 l3 : fresh_events prior l = l1 ++ e1 :: l2 ++ e2 :: l3 -> event_key e1 = event_key e2 ->
  (MAX_TRACKED_KEYS <= length l2)%nat.
Proof.
  revert prior l1. induction l as [|e l IH]; intros prior l1 Hf Hk; simpl in Hf; [by destruct l1|].
  case_decide as Hin; [by eapply IH|]. destruct l1 as [|x l1]; injection Hf as -> Hf; [|by eapply IH].
  by apply (fresh_spaced_from prior (event_key e1) [] l l2 e2 l3).
Qed.

Lemma fresh_all prior l : NoDup (prior ++ (event_key <$> l)) -> fresh_events prior l = l.
Proof.
  revert prior. induction l as [|e l IH]; intros prior Hnd; csimpl; [done|]. csimpl in Hnd. rewrite decide_False.
  - rewrite IH; [done|]. by rewrite <- app_assoc.
  - apply NoDup_app in Hnd as (_ & Hni & _). unfold lastn. intros Hin. apply (Hni (event_key e)); [|by left].
    by eapply subseteq_drop.
Qed.
End dedupe.

(** [ingest_all] is such a sequence at one clock reading. *)
Lemma ingest_all_seq {scval} (f : scval -> option native) now es s :
  ingest_all f now es s = let '(_, ts, s') := ingest_seq f ((fun e => (now, e)) <$> es) s in (ts, s').
Proof.
  revert s. induction es as [|e es IH]; intros s; csimpl; [done|].
  destruct (ingest f now e s) as [[b ts] s1]. rewrite IH. by destruct (ingest_seq f _ s1) as [[bs ts'] s2].
Qed.

Lemma ingest_all_fresh {scval} (f : scval -> option native) now es s prior : ig_seenKeys s = lastn MAX_TRACKED_KEYS prior ->
  let '(ts, s') := ingest_all f now es s in
  ts = fresh_events prior es ≫= tasks_of f /\
  ig_seenKeys s' = lastn MAX_TRACKED_KEYS (prior ++ (event_key <$> fresh_events prior es)) /\
  ig_processedCount s' = ig_processedCount s + Z.of_nat (length (fresh_events prior es)).
Proof.
  intros Hs. rewrite ingest_all_seq. pose proof (ingest_seq_fresh f ((fun e => (now, e)) <$> es) s prior Hs) as H.
  assert (Hes : ((fun e => (now, e)) <$> es).*2 = es) by (clear; induction es as [|e es IH]; csimpl; [done|by rewrite IH]). rewrite Hes in H.
  destruct (ingest_seq f _ s) as [[bs ts] s']. naive_solver.
Qed.

Lemma ingest_all_cursor {scval} (f : scval -> option native) now (es : list (EventResponse scval)) s :
  ig_nextStartLedger (ingest_all f now es s).2 = ig_nextStartLedger s.
Proof.
  revert s. induction es as [|e es IH]; intros s; [done|]. simpl. destruct (ingest f now e s) as [[b ts] s1] eqn:E.
  specialize (IH s1). destruct (ingest_all f now es s1) as [ts' s2]. simpl in *. rewrite IH.
  unfold ingest in E. destruct (bool_decide _); by simplify_eq/=.
Qed.

(** * Coverage of the chain *)

Section coverage.
Context {scval : Type}.
Variable scValToNative : scval -> option native.
Notation EventResponse := (EventResponse scval).

Definition between (a b : Z) (chain : list EventResponse) : list EventResponse :=
  filter (fun e => a <= ev_ledger e <= b) chain.

(** The RPC's [getEvents]: the first [limit] events of the contract from the
    start ledger to the head, in ledger order. *)
Definition serve (limit : nat) (chain : list EventResponse) (head : Z) (startLedger : Z) : Response scval :=
  {| rs_events := take limit (between startLedger head chain); rs_latestLedger := head |}.

(** A poll that the RPC answers when the chain's head is [head]. *)
Definition answered_poll (limit : nat) (chain : list EventResponse) (head now : Z) : PollEnv scval :=
  {| pe_configured := true; pe_latest := Some head; pe_getEvents := fun l => Some (serve limit chain head l);
     pe_closeTime := fun _ => None; pe_now := now |}.

(** Polls one after the other; the handlers they start, in order. *)
Fixpoint polls (limit : nat) (chain : list EventResponse) (l : list (Z * Z)) (s : Ingestion) : list task * Ingestion :=
  match l with
  | [] => ([], s)
  | (head, now) :: l =>
      match run (poll scValToNative (answered_poll limit chain head now)) s with
      | (Ok (ts, _), s) => let '(ts', s) := polls limit chain l s in (ts ++ ts', s)
      | (Err _, s) => polls limit chain l s
      end
  end.

Lemma run_poll limit chain head now s : let start := default head (ig_nextStartLedger s) in
  exists lag, run (poll scValToNative (answered_poll limit chain head now)) s =
    let '(ts, s') := ingest_all scValToNative now (take limit (between start head chain)) s in
    (Ok (ts, lag), set_cursor (head + 1) s').
Proof.
  unfold poll. simpl. destruct (ig_nextStartLedger s) as [start|] eqn:E; simpl.
  - destruct (ingest_all _ _ _ s) as [ts s']. simpl. by eexists.
  - destruct (ingest_all _ _ _ s) as [ts s']. simpl. by eexists.
Qed.

Lemma between_split a h b chain : StronglySorted (fun x y => ev_ledger x <= ev_ledger y) chain -> a <= h + 1 -> h <= b ->
  between a b chain = between a h chain ++ between (h + 1) b chain.
Proof.
  intros Hs Ha Hb. unfold between. induction Hs as [|e chain Hs IH Hall]; [done|]. rewrite !filter_cons.
  destruct (decide (ev_ledger e <= h)).
  - rewrite (decide_False (P := h + 1 <= _ <= b)) by lia. rewrite IH.
    destruct (decide (a <= ev_ledger e)); [|by rewrite !decide_False by lia]. by rewrite !decide_True by lia.
  - rewrite (decide_False (P := a <= _ <= h)) by lia.
    assert (Hnil : filter (fun e => a <= ev_ledger e <= h) chain = []).
    { apply filter_none. intros x Hx. eapply Forall_forall in Hall; [|exact Hx]. simpl in Hall. lia. }
    rewrite Hnil in IH |- *. simpl in *. rewrite IH.
    destruct (decide (ev_ledger e <= b)); [by rewrite !decide_True by lia|by rewrite !decide_False by lia].
Qed.

(** Heads never go back, and no page is cut by the limit. *)
Fixpoint uncut (limit : nat) (chain : list EventResponse) (c : Z) (l : list (Z * Z)) : Prop :=
  match l with
  | [] => True
  | (head, _) :: l => c <= head + 1 /\ (length (between c head chain) <= limit)%nat /\ uncut limit chain (head + 1) l
  end.

Definition final_cursor (c : Z) (l : list (Z * Z)) : Z := foldl (fun _ p => p.1 + 1) c l.

Lemma final_cursor_ge limit chain c l : uncut limit chain c l -> c <= final_cursor c l.
Proof.
  revert c. induction l as [|[head now] l IH]; intros c; [done|]. intros (Hc & _ & Hl). unfold final_cursor. simpl.
  apply IH in Hl. unfold final_cursor in Hl. lia.
Qed.

Lemma polls_from limit chain l : StronglySorted (fun x y => ev_ledger x <= ev_ledger y) chain ->
  forall c s prior, (forall p, l !! 0%nat = Some p -> default p.1 (ig_nextStartLedger s) = c) ->
  ig_seenKeys s = lastn MAX_TRACKED_KEYS prior -> uncut limit chain c l ->
  NoDup (prior ++ (event_key <$> between c (final_cursor c l - 1) chain)) ->
  let covered := between c (final_cursor c l - 1) chain in
  let '(ts, s') := polls limit chain l s in
  ts = covered ≫= tasks_of scValToNative /\ ig_processedCount s' = ig_processedCount s + Z.of_nat (length covered) /\
  (l <> [] -> ig_nextStartLedger s' = Some (final_cursor c l)).
Proof.
  intros Hsort. induction l as [|[h now] l IH]; intros c s prior Hstart Hseen Hun Hnd covered; unfold covered.
  { unfold final_cursor. simpl. assert (between c (c - 1) chain = []) as ->.
    { apply filter_none. intros e _. lia. } simpl. split_and!; [done|lia|done]. }
  destruct Hun as (Hc & Hlim & Hun). pose proof (final_cursor_ge _ _ _ _ Hun) as Hge.
  change (final_cursor c ((h, now) :: l)) with (final_cursor (h + 1) l) in *.
  rewrite (between_split c h) in Hnd |- * by (done || lia). rewrite fmap_app, app_assoc in Hnd.
  cbn [polls]. destruct (run_poll limit chain h now s) as [lag ->]. specialize (Hstart _ eq_refl). simpl in Hstart. rewrite Hstart.
  rewrite take_ge by done. pose proof (ingest_all_fresh scValToNative now (between c h chain) s prior Hseen) as Hi.
  rewrite fresh_all in Hi by (by apply NoDup_app in Hnd as [? _]).
  destruct (ingest_all _ _ _ s) as [ts s1]. destruct Hi as (-> & Hs1 & Hp1).
  specialize (IH (h + 1) (set_cursor (h + 1) s1) (prior ++ (event_key <$> between c h chain)) (fun _ _ => eq_refl) Hs1 Hun Hnd).
  simpl in IH. destruct (polls limit chain l _) as [ts' s2] eqn:El. destruct IH as (-> & Hp & Hcur).
  rewrite bind_app, length_app, Hp. simpl. split_and!; [done|lia|]. intros _. destruct l; [by simplify_eq/=|by apply Hcur].
Qed.
End coverage.

(** * Theorems *)

(** Whatever is delivered, in whatever order and however often: an event is
    taken as new exactly when its key is not among those of the last 10,000
    events so taken; exactly the new ones start handlers, the counters count
    them, and two events acted upon under one key are at least 10,000 other
    events apart. *)
Theorem redelivery_is_filtered {scval} (scValToNative : scval -> option native) (l : list (Z * EventResponse scval)) :
  let '(bs, ts, s) := ingest_seq scValToNative l new_ingestion in
  let fresh := fresh_events [] l.*2 in
  bs = fresh_flags [] l.*2 /\ ts = fresh ≫= tasks_of scValToNative /\
  ig_seenKeys s = lastn MAX_TRACKED_KEYS (event_key <$> fresh) /\
  ig_processedCount s = Z.of_nat (length fresh) /\ ig_processedCount s + ig_duplicateCount s = Z.of_nat (length l) /\
  forall l1 e1 l2 e2 l3, fresh = l1 ++ e1 :: l2 ++ e2 :: l3 -> event_key e1 = event_key e2 -> (MAX_TRACKED_KEYS <= length l2)%nat.
Proof.
  pose proof (ingest_seq_fresh scValToNative l new_ingestion [] eq_refl) as H.
  destruct (ingest_seq scValToNative l new_ingestion) as [[bs ts] s]. destruct H as (-> & -> & -> & -> & -> & Hle).
  simpl. split_and!; try done; [lia|]. intros l1 e1 l2 e2 l3. apply fresh_spaced.
Qed.


(** A poll's page and a later restart, on the same chain: see below. *)
Definition slot_event (ledger : Z) (id name intent : string) : EventResponse native :=
  {| ev_id := id; ev_ledger := ledger; ev_txHash := "tx"; ev_topic := [NString name; NString intent] |}.

Definition small_chain : list (EventResponse native) :=
  [slot_event 5 "5-0" "intent_filled" "i1"; slot_event 5 "5-1" "intent_filled" "i2"; slot_event 5 "5-2" "intent_filled" "i3";
   slot_event 7 "7-0" "intent_filled" "i4"].


(** * Stale intents *)

Lemma take_insert_S {A} (l : list A) n x : (n < length l)%nat -> take (S n) (<[n := x]> l) = take n l ++ [x].
Proof. intros Hn. rewrite (take_S_r _ _ x) by (by apply list_lookup_insert_eq). by rewrite take_insert_ge by lia. Qed.

Lemma set_at {V} (m : list (string * V)) n k v v' : wf m -> m !! n = Some (k, v) -> set k v' m = <[n := (k, v')]> m.
Proof.
  unfold jsmap in *. revert n. induction m as [|[k0 v0] m IH]; intros n Hwf Hn; [done|].
  apply NoDup_cons in Hwf as [Hni Hwf]. destruct n as [|n]; simpl in *.
  - injection Hn as -> ->. by rewrite bool_decide_eq_true_2.
  - rewrite bool_decide_eq_false_2; [by rewrite (IH n)|]. intros ->. apply Hni, list_elem_of_fmap. exists (k, v).
    split; [done|]. by eapply list_elem_of_lookup_2.
Qed.

(** What one round makes of an entry. *)
Definition refresh (now t : Z) (entry : string * Z) : string * Z :=
  if now - entry.2 <=? STALE_INTENT_THRESHOLD_SECONDS then entry else (entry.1, t).

Definition put_updates (m : jsmap Z) (s : Ingestion) : Ingestion :=
  {| ig_interval := ig_interval s; ig_reconcileInterval := ig_reconcileInterval s; ig_seenKeys := ig_seenKeys s;
     ig_lastIntentUpdateById := m; ig_nextStartLedger := ig_nextStartLedger s; ig_processedCount := ig_processedCount s;
     ig_duplicateCount := ig_duplicateCount s; ig_newestIngestedLedger := ig_newestIngestedLedger s |}.

Lemma reconcile_from_run {scval} (env : PollEnv scval) now fuel : forall n s latest,
  pe_configured env = true -> pe_latest env = Some latest -> pe_getEvents env (Z.max 1 (latest - 1)) <> None ->
  wf (ig_lastIntentUpdateById s) -> (length (ig_lastIntentUpdateById s) - n <= fuel)%nat ->
  run (reconcile_from env now fuel n) s =
  (Ok tt, put_updates (take n (ig_lastIntentUpdateById s) ++ (refresh now (pe_now env / 1000) <$> drop n (ig_lastIntentUpdateById s))) s).
Proof.
  induction fuel as [|fuel IH]; intros n s latest Hc Hl He Hwf Hf; simpl.
  - rewrite drop_ge, take_ge, app_nil_r by lia. by destruct s.
  - destruct (ig_lastIntentUpdateById s !! n) as [[id t]|] eqn:En; simpl.
    + rewrite (drop_S _ _ _ En), fmap_cons. rewrite run_pbind. unfold reconcile_entry. rewrite Hc, Hl. unfold refresh at 1. simpl.
      destruct (now - t <=? _); simpl.
      * rewrite (IH _ _ latest) by (done || lia). rewrite (take_S_r _ _ _ En), <- app_assoc. done.
      * destruct (pe_getEvents env _) as [r|] eqn:Er; [|done]. rewrite <- Er in He. simpl. assert (Hset := set_at _ _ _ _ (pe_now env / 1000) Hwf En).
        rewrite (IH _ _ latest); [|done|done|done|simpl; by apply set_wf|simpl; rewrite Hset; erewrite (length_insert (A := string * Z)); lia].
        simpl. rewrite Hset. erewrite (drop_insert_lt (A := string * Z)) by lia. unfold put_updates. simpl.
        rewrite take_insert_S, <- app_assoc by (by eapply lookup_lt_Some). done.
    + apply lookup_ge_None in En. rewrite drop_ge, take_ge, app_nil_r by lia. by destruct s.
Qed.

(** The stale-intent round, while the RPC answers, ends after one turn per
    tracked intent and does nothing but stamp the stale ones with the current
    time: whatever the events it fetched say, no event is ingested, no counter
    or cursor moves. *)
Theorem stale_round_only_stamps {scval} (env : PollEnv scval) (r : Response scval) now latest fuel s :
  pe_configured env = true -> pe_latest env = Some latest -> pe_getEvents env (Z.max 1 (latest - 1)) = Some r ->
  wf (ig_lastIntentUpdateById s) -> (length (ig_lastIntentUpdateById s) <= fuel)%nat ->
  run (reconcileStaleIntents env now fuel) s =
  (Ok tt, put_updates (refresh (now / 1000) (pe_now env / 1000) <$> ig_lastIntentUpdateById s) s).
Proof.
  intros Hc Hl He Hwf Hf. unfold reconcileStaleIntents. rewrite (reconcile_from_run env _ fuel 0 s latest); [done|done|done|by rewrite He|done|lia].
Qed.

Definition tracked : Ingestion := put_updates [("i1"%string, 100); ("i2"%string, 990)] new_ingestion.

Lemma stale_round_only_stamps_witness :
  run (reconcileStaleIntents (answered_poll 100 small_chain 6 1001000) 1000000 2) tracked =
  (Ok tt, put_updates (refresh 1000 1001 <$> ig_lastIntentUpdateById tracked) tracked).
Proof.
  apply (stale_round_only_stamps (answered_poll 100 small_chain 6 1001000) (serve 100 small_chain 6 5) 1000000 6 2 tracked); try reflexivity.
  apply (bool_decide_unpack _). vm_compute. done.
Defined.

(** * Where the code departs from its comments *)

(** An answer cut by the page limit: the cursor jumps past the head, and the
    events left out of the page are not fetched by any later poll. *)
Theorem page_overflow_is_lost :
  let '(ts, s) := polls Some 2 small_chain [(5, 1000); (6, 2000); (8, 3000); (9, 4000)] new_ingestion in
  length (between 5 9 small_chain) = 4%nat /\ ig_processedCount s = 3 /\
  TimeFill (natives Some (slot_event 5 "5-2" "intent_filled" "i3")) ∉ ts.
Proof. vm_compute. split_and!; [done|done|]. intros H. repeat (apply elem_of_cons in H as [H|H]; [by simplify_eq|]). by apply not_elem_of_nil in H. Qed.

(** The cursor is not kept across restarts: a fresh process starts at the
    current head, so what happened while it was down is never ingested. *)
Theorem restart_skips_events :
  let '(_, s1) := polls Some 100 small_chain [(4, 1000)] new_ingestion in
  let '(ts, s2) := polls Some 100 small_chain [(8, 2000); (9, 3000)] new_ingestion in
  ig_nextStartLedger s1 = Some 5 /\ length (between 5 9 small_chain) = 4%nat /\ ts = [] /\ ig_processedCount s2 = 0.
Proof. vm_compute. done. Qed.

(** The key drops everything before the last dash: two events of one ledger
    whose ids differ only there (as ids built from a transaction's position and
    an index within it do) count as one. *)
Theorem same_index_collides :
  let a := slot_event 5 "0000000021474840576-0000000001" "solver_slashed" "GA" in
  let b := slot_event 5 "0000000021474844672-0000000001" "intent_filled" "i2" in
  ev_id a <> ev_id b /\ (ingest_seq Some [(1000, a); (1000, b)] new_ingestion).1.1 = [true; false].
Proof. split; [done|]. vm_compute. done. Qed.

(** The second topic of [solver_slashed] is the solver, which is then tracked
    and reconciled as if it were an intent. *)
Theorem slash_tracks_solver_as_intent :
  let e := {| ev_id := "7-1"; ev_ledger := 7; ev_txHash := "tx";
              ev_topic := [NString "solver_slashed"; NString "GSOLVER"; NString "i1"; NBigint 300] |} in
  let '(_, ts, s) := ingest Some 1000000 e new_ingestion in
  ts = [ReconcileSlash (natives Some e)] /\ get "GSOLVER" (ig_lastIntentUpdateById s) = Some 1000 /\
  get "i1" (ig_lastIntentUpdateById s) = None.
Proof. vm_compute. done. Qed.
