(* ===== verification/EventDecoders.v ===== *)
(** Decoding contract events (soroban/events/decoders.ts, schemas.ts) and the
    registry that routes the outcomes (soroban/events/registry.ts).

    What the Stellar SDK makes of XDR values is a parameter, as is Zod's UUID
    test; the schemas' other tests are written out.  Of a failed validation only
    the fact is kept, not the text of the message. *)
From S2P Require Import Prelude JsMap BigInt.
Local Open Scope string_scope.
Local Open Scope Z_scope.

(** Values of [scValToNative]. *)
Inductive jsval :=
  | JUndefined
  | JNull
  | JString (s : string)
  | JBigint (z : Z)
  | JNumber (z : Z)
  | JObject (fields : jsmap jsval)
  | JOther (text : string).

(** [x ?? y] *)
Definition coalesce (x y : jsval) : jsval := match x with JUndefined | JNull => y | _ => x end.

(** [body?.name] *)
Definition field (name : string) (body : jsval) : jsval :=
  match body with JObject m => default JUndefined (get name m) | _ => JUndefined end.

(** [String(x)], for the values a topic name can take. *)
Definition text_of (x : jsval) : string :=
  match x with
  | JUndefined => "undefined" | JNull => "null" | JString s => s | JBigint z | JNumber z => toString z
  | JObject _ => "[object Object]" | JOther t => t
  end.

(** * Schemas *)

Inductive schema_error := NotAString (path : string) | NotABigint (path : string) | Rejected (path : string) | SdkThrow (path : string).

Notation "x <-? m ; k" := (match m with Ok x => k | Err e => Err e end) (at level 100, m at level 61, k at level 200, right associativity).

Definition is_base32 (c : Ascii.ascii) : bool :=
  let n := code c in ((65 <=? n) && (n <=? 90)) || ((50 <=? n) && (n <=? 55)).
Definition is_hex_digit (c : Ascii.ascii) : bool :=
  let n := code c in ((48 <=? n) && (n <=? 57)) || ((97 <=? n) && (n <=? 102)) || ((65 <=? n) && (n <=? 70)).

(** [/^[GC][A-Z2-7]{55}$/] *)
Definition strkey_text (s : string) : bool :=
  match s with
  | String c r => ((code c =? 71) || (code c =? 67)) && (String.length r =? 55)%nat && all_chars is_base32 r
  | EmptyString => false
  end.

(** [/^[0-9a-f]{64}$/i] *)
Definition hex_text (s : string) : bool := (String.length s =? 64)%nat && all_chars is_hex_digit s.

Definition z_string (test : string -> bool) (path : string) (x : jsval) : outcome schema_error string :=
  match x with JString s => if test s then Ok s else Err (Rejected path) | _ => Err (NotAString path) end.

Definition z_bigint (test : Z -> bool) (path : string) (x : jsval) : outcome schema_error Z :=
  match x with JBigint z => if test z then Ok z else Err (Rejected path) | _ => Err (NotABigint path) end.

Definition nonNegBigInt := z_bigint (fun v => 0 <=? v).
Definition strkey := z_string strkey_text.
Definition hexBytes := z_string hex_text.
Definition nonempty := z_string (fun s => negb (bool_decide (s = ""))).

Record IntentRegisteredPayload := {
  irp_intentId : string; irp_user : string; irp_srcChain : string; irp_srcToken : string; irp_srcAmount : Z;
  irp_dstToken : string; irp_minDstAmount : Z; irp_deadline : Z;
}.
Record IntentAcceptedPayload := { iap_intentId : string; iap_solver : string; iap_fillDeadline : Z }.
Record IntentFilledPayload := {
  ifp_intentId : string; ifp_solver : string; ifp_fillAmount : Z; ifp_feeAmount : Z; ifp_txHash : string;
}.
Record IntentCancelledPayload := { icp_intentId : string; icp_cancelledBy : string }.
Record SolverSlashedPayload := { ssp_solver : string; ssp_intentId : string; ssp_slashAmount : Z; ssp_reason : string }.
Record BondUpdatedPayload := { bup_solver : string; bup_newBondAmount : Z; bup_delta : Z }.

Inductive payload :=
  | IntentRegistered (p : IntentRegisteredPayload)
  | IntentAccepted (p : IntentAcceptedPayload)
  | IntentFilled (p : IntentFilledPayload)
  | IntentCancelled (p : IntentCancelledPayload)
  | SolverSlashed (p : SolverSlashedPayload)
  | BondUpdated (p : BondUpdatedPayload).

(** [Foreign]: a value that is not of the union, returned by a function that
    is not one of the decoders. *)
Inductive DecodedEvent := Decoded (ledger : Z) (txHash : string) (p : payload) | Foreign.

Inductive DecodeResult :=
  | DecodeOk (event : DecodedEvent)
  | UnknownTopic (rawTopic : string)
  | DecodeError (rawTopic : string).

Record RawEvent (scval : Type) := {
  re_id : string; re_ledger : Z; re_txHash : string; re_topic : list scval; re_value : scval;
}.
#[global] Arguments re_id {scval} _.
#[global] Arguments re_ledger {scval} _.
#[global] Arguments re_txHash {scval} _.
#[global] Arguments re_topic {scval} _.
#[global] Arguments re_value {scval} _.

Section decoders.
Context {scval : Type}.
(** The SDK: [scValToNative] ([JUndefined] when it throws), the strkey of an
    address value, the strkey or the hex bytes of a base64 XDR text, the strkey
    tests; and Zod's UUID test. *)
Variable safeNative : scval -> jsval.
Variable addressToStrkey : scval -> option string.
Variable strkeyOfXdr : string -> option string.
Variable hexOfXdr : string -> option string.
Variable isStrkey : string -> bool.
Variable isUuid : string -> bool.
Notation RawEvent := (RawEvent scval).

Definition uuid := z_string isUuid.

(** Slots beyond the topic are [undefined]: [safeNative] of it is too, and
    [addressToStrkey] throws. *)
Definition slot (e : RawEvent) (i : nat) : jsval := match re_topic e !! i with Some v => safeNative v | None => JUndefined end.
Definition address (path : string) (e : RawEvent) (i : nat) : outcome schema_error jsval :=
  match re_topic e !! i ≫= addressToStrkey with Some s => Ok (JString s) | None => Err (SdkThrow path) end.

Definition dstTokenToStrkey (raw : jsval) : outcome schema_error jsval :=
  match raw with
  | JString s => if isStrkey s then Ok raw else JString <$> of_option (SdkThrow "dstToken") (strkeyOfXdr s)
  | _ => JString <$> of_option (SdkThrow "dstToken") (strkeyOfXdr (text_of (coalesce raw (JString ""))))
  end.

Definition decodeIntentRegistered (e : RawEvent) : outcome schema_error payload :=
  let body := safeNative (re_value e) in
  user <-? address "user" e 2;
  dst <-? dstTokenToStrkey (field "dst_token" body);
  intentId <-? uuid "intentId" (slot e 1);
  user <-? strkey "user" user;
  srcChain <-? nonempty "srcChain" (field "src_chain" body);
  srcToken <-? nonempty "srcToken" (field "src_token" body);
  srcAmount <-? nonNegBigInt "srcAmount" (field "src_amount" body);
  dstToken <-? strkey "dstToken" dst;
  minDstAmount <-? nonNegBigInt "minDstAmount" (field "min_dst_amount" body);
  deadline <-? nonNegBigInt "deadline" (field "deadline" body);
  Ok (IntentRegistered {| irp_intentId := intentId; irp_user := user; irp_srcChain := srcChain; irp_srcToken := srcToken;
    irp_srcAmount := srcAmount; irp_dstToken := dstToken; irp_minDstAmount := minDstAmount; irp_deadline := deadline |}).

Definition decodeIntentAccepted (e : RawEvent) : outcome schema_error payload :=
  let body := safeNative (re_value e) in
  solver <-? address "solver" e 2;
  intentId <-? uuid "intentId" (slot e 1);
  solver <-? strkey "solver" solver;
  fillDeadline <-? nonNegBigInt "fillDeadline" (coalesce (field "fill_deadline" body) (field "fillDeadline" body));
  Ok (IntentAccepted {| iap_intentId := intentId; iap_solver := solver; iap_fillDeadline := fillDeadline |}).

Definition fill_hash (body : jsval) : outcome schema_error jsval :=
  match field "tx_hash" body with
  | JString s => Ok (JString s)
  | x => JString <$> of_option (SdkThrow "txHash") (hexOfXdr (text_of (coalesce x (JString ""))))
  end.

Definition decodeIntentFilled (e : RawEvent) : outcome schema_error payload :=
  let body := safeNative (re_value e) in
  solver <-? address "solver" e 2;
  hash <-? fill_hash body;
  intentId <-? uuid "intentId" (slot e 1);
  solver <-? strkey "solver" solver;
  fillAmount <-? nonNegBigInt "fillAmount" (coalesce (field "fill_amount" body) (field "fillAmount" body));
  feeAmount <-? nonNegBigInt "feeAmount" (coalesce (field "fee_amount" body) (field "feeAmount" body));
  txHash <-? hexBytes "txHash" hash;
  Ok (IntentFilled {| ifp_intentId := intentId; ifp_solver := solver; ifp_fillAmount := fillAmount; ifp_feeAmount := feeAmount;
    ifp_txHash := txHash |}).

Definition decodeIntentCancelled (e : RawEvent) : outcome schema_error payload :=
  cancelledBy <-? address "cancelledBy" e 2;
  intentId <-? uuid "intentId" (slot e 1);
  cancelledBy <-? strkey "cancelledBy" cancelledBy;
  Ok (IntentCancelled {| icp_intentId := intentId; icp_cancelledBy := cancelledBy |}).

Definition decodeSolverSlashed (e : RawEvent) : outcome schema_error payload :=
  let body := safeNative (re_value e) in
  solver <-? address "solver" e 1;
  solver <-? strkey "solver" solver;
  intentId <-? uuid "intentId" (slot e 2);
  slashAmount <-? nonNegBigInt "slashAmount" (coalesce (field "slash_amount" body) (field "slashAmount" body));
  reason <-? nonempty "reason" (coalesce (field "reason" body) (JString "no_reason_provided"));
  Ok (SolverSlashed {| ssp_solver := solver; ssp_intentId := intentId; ssp_slashAmount := slashAmount; ssp_reason := reason |}).

Definition decodeBondUpdated (e : RawEvent) : outcome schema_error payload :=
  let body := safeNative (re_value e) in
  solver <-? address "solver" e 1;
  solver <-? strkey "solver" solver;
  newBondAmount <-? nonNegBigInt "newBondAmount" (coalesce (field "new_bond_amount" body) (field "newBondAmount" body));
  delta <-? z_bigint (fun _ => true) "delta" (field "delta" body);
  Ok (BondUpdated {| bup_solver := solver; bup_newBondAmount := newBondAmount; bup_delta := delta |}).

Definition DECODERS : jsmap (RawEvent -> outcome schema_error payload) :=
  [("intent_registered", decodeIntentRegistered); ("intent_accepted", decodeIntentAccepted);
   ("intent_filled", decodeIntentFilled); ("intent_cancelled", decodeIntentCancelled);
   ("solver_slashed", decodeSolverSlashed); ("bond_updated", decodeBondUpdated)].

Definition KNOWN_TOPICS : list string := keys DECODERS.

(** [DECODERS] is an object literal, so a lookup also finds the members of
    [Object.prototype]: called without a receiver, [Object] and [toString]
    return, the others throw (as does [__proto__], which is no function). *)
Definition inherited (name : string) : option bool :=
  if bool_decide (name ∈ ["constructor"; "toString"]) then Some true
  else if bool_decide (name ∈ ["valueOf"; "toLocaleString"; "hasOwnProperty"; "isPrototypeOf"; "propertyIsEnumerable";
                               "__defineGetter__"; "__defineSetter__"; "__lookupGetter__"; "__lookupSetter__"; "__proto__"])
  then Some false else None.

Definition raw_topic (e : RawEvent) : string := text_of (coalesce (slot e 0) (JString "<empty>")).

Definition decodeEvent (e : RawEvent) : DecodeResult :=
  let rawTopic := raw_topic e in
  match get rawTopic DECODERS with
  | Some decoder =>
      match decoder e with
      | Ok p => DecodeOk (Decoded (re_ledger e) (re_txHash e) p)
      | Err _ => DecodeError rawTopic
      end
  | None =>
      match inherited rawTopic with
      | Some true => DecodeOk Foreign
      | Some false => DecodeError rawTopic
      | None => UnknownTopic rawTopic
      end
  end.

(** * The registry *)

Record RegistryStats := { st_processed : Z; st_unknownTopic : Z; st_decodeErrors : Z; st_deadLettered : Z }.

(** Its counters, and what its callbacks were given. *)
Record Registry := {
  rg_stats : RegistryStats;
  rg_unknownTopicCounts : jsmap Z;
  rg_handled : list DecodedEvent;
  rg_deadLetters : list (string * Z * string);
}.

Definition new_registry : Registry :=
  {| rg_stats := {| st_processed := 0; st_unknownTopic := 0; st_decodeErrors := 0; st_deadLettered := 0 |};
     rg_unknownTopicCounts := []; rg_handled := []; rg_deadLetters := [] |}.

Definition process (e : RawEvent) (g : Registry) : DecodeResult * Registry :=
  let r := decodeEvent e in
  let st := rg_stats g in
  (r, match r with
      | DecodeOk d =>
          {| rg_stats := {| st_processed := st_processed st + 1; st_unknownTopic := st_unknownTopic st;
               st_decodeErrors := st_decodeErrors st; st_deadLettered := st_deadLettered st |};
             rg_unknownTopicCounts := rg_unknownTopicCounts g; rg_handled := rg_handled g ++ [d];
             rg_deadLetters := rg_deadLetters g |}
      | UnknownTopic t =>
          {| rg_stats := {| st_processed := st_processed st; st_unknownTopic := st_unknownTopic st + 1;
               st_decodeErrors := st_decodeErrors st; st_deadLettered := st_deadLettered st |};
             rg_unknownTopicCounts := set t (default 0 (get t (rg_unknownTopicCounts g)) + 1) (rg_unknownTopicCounts g);
             rg_handled := rg_handled g; rg_deadLetters := rg_deadLetters g |}
      | DecodeError t =>
          {| rg_stats := {| st_processed := st_processed st; st_unknownTopic := st_unknownTopic st;
               st_decodeErrors := st_decodeErrors st + 1; st_deadLettered := st_deadLettered st + 1 |};
             rg_unknownTopicCounts := rg_unknownTopicCounts g; rg_handled := rg_handled g;
             rg_deadLetters := rg_deadLetters g ++ [(re_id e, re_ledger e, t)] |}
      end).

Definition decode_ok (r : DecodeResult) : bool := match r with DecodeOk _ => true | _ => false end.

Fixpoint processBatch (es : list RawEvent) (g : Registry) : Z * Z * Registry :=
  match es with
  | [] => (0, 0, g)
  | e :: es =>
      let '(r, g) := process e g in
      let '(ok, errors, g) := processBatch es g in
      if decode_ok r then (ok + 1, errors, g) else (ok, errors + 1, g)
  end.
End decoders.

(** * Decoded events are valid *)

Lemma z_string_ok test path x s : z_string test path x = Ok s -> test s = true.
Proof. unfold z_string. destruct x; try done. destruct (test s0) eqn:E; naive_solver. Qed.

Lemma z_bigint_ok test path x z : z_bigint test path x = Ok z -> test z = true.
Proof. unfold z_bigint. destruct x; try done. destruct (test z0) eqn:E; naive_solver. Qed.

Lemma nonNeg_ok path x z : nonNegBigInt path x = Ok z -> 0 <= z.
Proof. intros H%z_bigint_ok. lia. Qed.

Lemma nonempty_ok path x s : nonempty path x = Ok s -> s <> "".
Proof. intros H%z_string_ok. by bool_norm. Qed.

(** Steps of a decoder, one outcome at a time, each giving its test. *)
Ltac decoder_steps H :=
  repeat match type of H with
  | (match ?m with Ok _ => _ | Err _ => _ end) = Ok _ => let E := fresh "E" in destruct m eqn:E; [|discriminate H]
  end; injection H as <-;
  repeat match goal with
  | E : uuid _ _ _ = Ok _ |- _ => apply z_string_ok in E
  | E : strkey _ _ = Ok _ |- _ => apply z_string_ok in E
  | E : hexBytes _ _ = Ok _ |- _ => apply z_string_ok in E
  | E : nonNegBigInt _ _ = Ok _ |- _ => apply nonNeg_ok in E
  | E : nonempty _ _ = Ok _ |- _ => apply nonempty_ok in E
  end.

(** What the schemas promise of each payload, and the topic it comes under. *)
Definition payload_ok (isUuid : string -> bool) (p : payload) : Prop :=
  match p with
  | IntentRegistered p =>
      isUuid (irp_intentId p) = true /\ strkey_text (irp_user p) = true /\ strkey_text (irp_dstToken p) = true /\
      irp_srcChain p <> "" /\ irp_srcToken p <> "" /\ 0 <= irp_srcAmount p /\ 0 <= irp_minDstAmount p /\ 0 <= irp_deadline p
  | IntentAccepted p => isUuid (iap_intentId p) = true /\ strkey_text (iap_solver p) = true /\ 0 <= iap_fillDeadline p
  | IntentFilled p =>
      isUuid (ifp_intentId p) = true /\ strkey_text (ifp_solver p) = true /\ 0 <= ifp_fillAmount p /\ 0 <= ifp_feeAmount p /\
      hex_text (ifp_txHash p) = true
  | IntentCancelled p => isUuid (icp_intentId p) = true /\ strkey_text (icp_cancelledBy p) = true
  | SolverSlashed p =>
      strkey_text (ssp_solver p) = true /\ isUuid (ssp_intentId p) = true /\ 0 <= ssp_slashAmount p /\ ssp_reason p <> ""
  | BondUpdated p => strkey_text (bup_solver p) = true /\ 0 <= bup_newBondAmount p
  end.

Definition payload_topic (p : payload) : string :=
  match p with
  | IntentRegistered _ => "intent_registered" | IntentAccepted _ => "intent_accepted" | IntentFilled _ => "intent_filled"
  | IntentCancelled _ => "intent_cancelled" | SolverSlashed _ => "solver_slashed" | BondUpdated _ => "bond_updated"
  end.

Section decoded.
Context {scval : Type} (safeNative : scval -> jsval) (addressToStrkey : scval -> option string).
Context (strkeyOfXdr hexOfXdr : string -> option string) (isStrkey isUuid : string -> bool).
Notation DECODERS := (DECODERS safeNative addressToStrkey strkeyOfXdr hexOfXdr isStrkey isUuid).
Notation decodeEvent := (decodeEvent safeNative addressToStrkey strkeyOfXdr hexOfXdr isStrkey isUuid).
Notation process := (process safeNative addressToStrkey strkeyOfXdr hexOfXdr isStrkey isUuid).
Notation processBatch := (processBatch safeNative addressToStrkey strkeyOfXdr hexOfXdr isStrkey isUuid).

Lemma decoders_valid name decoder e p : get name DECODERS = Some decoder -> decoder e = Ok p ->
  payload_ok isUuid p /\ payload_topic p = name.
Proof.
  unfold DECODERS. cbn [get]. intros Hget Hp.
  repeat (case_bool_decide; [subst; injection Hget as <-|]); [..|done].
  - unfold decodeIntentRegistered in Hp. decoder_steps Hp. simpl. naive_solver.
  - unfold decodeIntentAccepted in Hp. decoder_steps Hp. simpl. naive_solver.
  - unfold decodeIntentFilled in Hp. decoder_steps Hp. simpl. naive_solver.
  - unfold decodeIntentCancelled in Hp. decoder_steps Hp. simpl. naive_solver.
  - unfold decodeSolverSlashed in Hp. decoder_steps Hp. simpl. naive_solver.
  - unfold decodeBondUpdated in Hp. decoder_steps Hp. simpl. naive_solver.
Qed.

(** A decoded event carries its event's ledger and transaction, the payload of
    the topic it was published under, and satisfies that payload's schema. *)
Theorem decoded_is_valid e ledger txHash p : decodeEvent e = DecodeOk (Decoded ledger txHash p) ->
  ledger = re_ledger e /\ txHash = re_txHash e /\ payload_topic p = raw_topic safeNative e /\ payload_ok isUuid p.
Proof.
  unfold decodeEvent. destruct (get (raw_topic safeNative e) DECODERS) as [decoder|] eqn:Eg.
  - destruct (decoder e) as [p'|] eqn:Ed; [|done]. intros [= <- <- <-]. destruct (decoders_valid _ _ _ _ Eg Ed). auto.
  - by destruct (inherited _) as [[]|].
Qed.

(** * Accounting *)

Definition registry_ok (g : Registry) : Prop :=
  st_processed (rg_stats g) = Z.of_nat (length (rg_handled g)) /\
  st_decodeErrors (rg_stats g) = Z.of_nat (length (rg_deadLetters g)) /\
  st_deadLettered (rg_stats g) = st_decodeErrors (rg_stats g) /\
  st_unknownTopic (rg_stats g) = sumZ id (values (rg_unknownTopicCounts g)).

Lemma sum_set_count k m : sumZ id (values (set k (default 0 (get k m) + 1) m)) = sumZ id (values m) + 1.
Proof.
  unfold values. induction m as [|[k' v] m IH]; csimpl; [done|]. case_bool_decide; csimpl; [unfold id; lia|]. rewrite IH. lia.
Qed.

Lemma process_ok e g : registry_ok g -> registry_ok (process e g).2.
Proof.
  unfold registry_ok, process. intros (H1 & H2 & H3 & H4). destruct (decodeEvent e); simpl; rewrite ?length_app, ?sum_set_count; simpl.
  all: split_and!; try done; lia.
Qed.

(** A batch is processed to its end whatever its events are: every event is
    counted once, as handled or as an error, and the registry's counters agree
    with the events handed on, the dead letters and the per-topic counts. *)
Theorem batch_is_accounted es g : registry_ok g ->
  let '(ok, errors, g') := processBatch es g in
  ok + errors = Z.of_nat (length es) /\ registry_ok g' /\
  st_processed (rg_stats g') = st_processed (rg_stats g) + ok /\
  st_unknownTopic (rg_stats g') + st_decodeErrors (rg_stats g') = st_unknownTopic (rg_stats g) + st_decodeErrors (rg_stats g) + errors.
Proof.
  revert g. induction es as [|e es IH]; intros g Hg; cbn [processBatch]; [split_and!; done || lia|].
  pose proof (process_ok e g Hg) as Hg1. destruct (process e g) as [r g1] eqn:Ep. specialize (IH g1 Hg1).
  destruct (processBatch es g1) as [[ok errors] g2]. destruct IH as (Hn & Hok & Hp & He).
  unfold process in Ep. injection Ep as <- <-. simpl in Hp, He. destruct (decodeEvent e); simpl in *; split_and!; done || lia.
Qed.
End decoded.

(** The fixtures' event: its topic slots and body are already native. *)
Definition registered_event : RawEvent jsval :=
  {| re_id := "100000-0"; re_ledger := 100000; re_txHash := "aa";
     re_topic := [JString "intent_cancelled"; JString "550e8400-e29b-41d4-a716-446655440000";
                  JString "GCQ2DINBUGQ2DINBUGQ2DINBUGQ2DINBUGQ2DINBUGQ2DINBUGQ2DJX7"];
     re_value := JUndefined |}.

Definition demo_decode : RawEvent jsval -> DecodeResult :=
  decodeEvent id (fun v => match v with JString s => Some s | _ => None end) (fun _ => None) (fun _ => None) (fun _ => true) (fun _ => true).

Lemma decoded_is_valid_witness :
  demo_decode registered_event =
    DecodeOk (Decoded 100000 "aa" (IntentCancelled {| icp_intentId := "550e8400-e29b-41d4-a716-446655440000";
      icp_cancelledBy := "GCQ2DINBUGQ2DINBUGQ2DINBUGQ2DINBUGQ2DINBUGQ2DINBUGQ2DJX7" |})) /\
  strkey_text "GCQ2DINBUGQ2DINBUGQ2DINBUGQ2DINBUGQ2DINBUGQ2DINBUGQ2DJX7" = true.
Proof.
  assert (H : demo_decode registered_event = DecodeOk (Decoded 100000 "aa" (IntentCancelled
    {| icp_intentId := "550e8400-e29b-41d4-a716-446655440000";
       icp_cancelledBy := "GCQ2DINBUGQ2DINBUGQ2DINBUGQ2DINBUGQ2DINBUGQ2DINBUGQ2DJX7" |}))) by reflexivity.
  split; [exact H|]. apply (decoded_is_valid _ _ _ _ _ _ _ _ _ _) in H as (_ & _ & _ & _ & Hk). exact Hk.
Defined.

(** A topic named like a member of [Object.prototype] is not reported as
    unknown: [constructor] counts as a processed event although nothing was
    decoded, [valueOf] as a failure to decode. *)
Theorem inherited_topics_are_known (topic := fun name => {| re_id := "1-0"; re_ledger := 1; re_txHash := "aa";
    re_topic := [JString name]; re_value := JUndefined |}) :
  demo_decode (topic "constructor") = DecodeOk Foreign /\ demo_decode (topic "valueOf") = DecodeError "valueOf" /\
  demo_decode (topic "unheard_of") = UnknownTopic "unheard_of".
Proof. vm_compute. done. Qed.
