(* ===== verification/Backfill.v ===== *)
(** Ledger gaps and historical backfill (soroban/backfill.service.ts).

    The event source answers pages of at most [pageSize] events from a ledger
    on; the runner hands each page to the registry ([EventDecoders]) and
    records its events in the [processed_events] table, whose unique key is
    (ledger, event index).  The RPC, the SDK and the clock are parameters.  The
    page loop takes fuel: one page per ledger of the range, which suffices
    because every page moves the cursor to a later ledger
    ([backfill_terminates]). *)
From S2P Require Import Prelude JsMap BigInt JsNumber Solvers EventIngestion EventDecoders.
Local Open Scope string_scope.
Local Open Scope Z_scope.

(** * Gap detection *)

Record GapReport := { gr_cursorLedger : Z; gr_oldestLedger : Z; gr_latestLedger : Z; gr_hasGap : bool; gr_gapSize : Z }.

(** [oldest] is the field of the health answer, when it has one. *)
Definition detectGap (latestLedger : Z) (oldest : option Z) (cursorLedger : Z) : GapReport :=
  let oldestLedger := default (latestLedger - 17280) oldest in
  let hasGap := cursorLedger <? oldestLedger in
  {| gr_cursorLedger := cursorLedger; gr_oldestLedger := oldestLedger; gr_latestLedger := latestLedger; gr_hasGap := hasGap;
     gr_gapSize := if hasGap then oldestLedger - cursorLedger else 0 |}.

(** * Rows and pages *)

Record ProcessedEvent := {
  pv_eventId : string; pv_ledger : Z; pv_eventIndex : Qc; pv_contractId : string; pv_topic : string; pv_txHash : string;
}.

Definition row_key (r : ProcessedEvent) : Z * Qc := (pv_ledger r, pv_eventIndex r).

Record EventPage (scval : Type) := { pg_events : list (RawEvent scval); pg_lastLedger : Z; pg_done : bool }.
#[global] Arguments pg_events {scval} _.
#[global] Arguments pg_lastLedger {scval} _.
#[global] Arguments pg_done {scval} _.

Record Backfill := { bf_running : bool; bf_table : list ProcessedEvent; bf_registry : Registry }.

Definition set_running (b : bool) (s : Backfill) : Backfill :=
  {| bf_running := b; bf_table := bf_table s; bf_registry := bf_registry s |}.

Record BackfillOptions := { bo_fromLedger : Z; bo_toLedger : Z; bo_pageSize : nat }.

Record BackfillResult := {
  br_fromLedger : Z; br_toLedger : Z; br_ledgersProcessed : Z; br_eventsProcessed : Z; br_decodeErrors : Z;
}.

Inductive BackfillError := NotConfigured | FetchFailed (ledger : Z) | OutOfFuel.

(** [processedEvent.upsert] with an empty update: the first row of a key stays. *)
Definition upsert_row (r : ProcessedEvent) (t : list ProcessedEvent) : list ProcessedEvent :=
  if bool_decide (row_key r ∈ row_key <$> t) then t else t ++ [r].

Section backfill.
Context {scval : Type}.
(** The SDK and Zod, as in [EventDecoders], and the contract an event names. *)
Variable safeNative : scval -> jsval.
Variable addressToStrkey : scval -> option string.
Variable strkeyOfXdr hexOfXdr : string -> option string.
Variable isStrkey isUuid : string -> bool.
Variable eventContract : RawEvent scval -> option string.
Notation processBatch := (processBatch safeNative addressToStrkey strkeyOfXdr hexOfXdr isStrkey isUuid).
Notation RawEvent := (RawEvent scval).
Notation EventPage := (EventPage scval).

(** The page a [getEvents] answer becomes; the three sources share it. *)
Definition fetchPage (getEvents : Z -> nat -> option (list RawEvent)) (startLedger : Z) (pageSize : nat) : option EventPage :=
  events ← getEvents startLedger pageSize;
  Some {| pg_events := events; pg_lastLedger := match last events with Some e => re_ledger e | None => startLedger end;
          pg_done := (length events <? pageSize)%nat |}.

Definition extractTopicName (e : RawEvent) : string := text_of (coalesce (slot safeNative e 0) (JString "unknown")).

Definition row_of (contractId : string) (e : RawEvent) : ProcessedEvent :=
  {| pv_eventId := re_id e; pv_ledger := re_ledger e; pv_eventIndex := parseEventIndex (re_id e); pv_contractId := default contractId (eventContract e);
     pv_topic := extractTopicName e; pv_txHash := re_txHash e |}.

Definition record_page (contractId : string) (es : list RawEvent) (t : list ProcessedEvent) : list ProcessedEvent :=
  foldl (fun t e => upsert_row (row_of contractId e) t) t es.

Fixpoint page_loop (getEvents : Z -> nat -> option (list RawEvent)) (contractId : string) (opts : BackfillOptions)
    (fuel : nat) (currentLedger : Z) (acc : BackfillResult) (s : Backfill) : outcome BackfillError BackfillResult * Backfill :=
  if bo_toLedger opts <? currentLedger then (Ok acc, s)
  else
    match fuel with
    | O => (Err OutOfFuel, s)
    | S fuel =>
        match fetchPage getEvents currentLedger (bo_pageSize opts) with
        | None => (Err (FetchFailed currentLedger), s)
        | Some page =>
            let '(ok, errors, registry) := processBatch (pg_events page) (bf_registry s) in
            let s := {| bf_running := bf_running s; bf_table := record_page contractId (pg_events page) (bf_table s);
                        bf_registry := registry |} in
            let next := if pg_done page then bo_toLedger opts + 1 else pg_lastLedger page + 1 in
            let acc := {| br_fromLedger := br_fromLedger acc; br_toLedger := br_toLedger acc;
                          br_ledgersProcessed := br_ledgersProcessed acc + Z.max 0 (next - currentLedger);
                          br_eventsProcessed := br_eventsProcessed acc + ok; br_decodeErrors := br_decodeErrors acc + errors |} in
            if pg_done page || (bo_toLedger opts <? next) then (Ok acc, s)
            else page_loop getEvents contractId opts fuel next acc s
        end
    end.

Definition no_result (opts : BackfillOptions) : BackfillResult :=
  {| br_fromLedger := bo_fromLedger opts; br_toLedger := bo_toLedger opts; br_ledgersProcessed := 0; br_eventsProcessed := 0;
     br_decodeErrors := 0 |}.

Definition executeBackfill (getEvents : Z -> nat -> option (list RawEvent)) (contractId : string) (opts : BackfillOptions)
    (s : Backfill) : outcome BackfillError BackfillResult * Backfill :=
  if bool_decide (contractId = "") then (Err NotConfigured, s)
  else page_loop getEvents contractId opts (Z.to_nat (bo_toLedger opts - bo_fromLedger opts + 1)) (bo_fromLedger opts)
         (no_result opts) s.

(** [None]: the caller is given the run in progress. *)
Definition run_backfill (getEvents : Z -> nat -> option (list RawEvent)) (contractId : string) (opts : BackfillOptions)
    (s : Backfill) : option (outcome BackfillError BackfillResult) * Backfill :=
  if bf_running s then (None, s)
  else let '(r, s) := executeBackfill getEvents contractId opts (set_running true s) in (Some r, set_running false s).

(** The highest recorded ledger of the range. *)
Definition last_processed (contractId : string) (opts : BackfillOptions) (t : list ProcessedEvent) : option Z :=
  let rows := filter (fun r => pv_contractId r = contractId /\ bo_fromLedger opts <= pv_ledger r <= bo_toLedger opts) t in
  match rows with [] => None | r :: rows => Some (foldl (fun m r => Z.max m (pv_ledger r)) (pv_ledger r) rows) end.

Definition resume (getEvents : Z -> nat -> option (list RawEvent)) (contractId : string) (opts : BackfillOptions)
    (s : Backfill) : option (outcome BackfillError BackfillResult) * Backfill :=
  if bool_decide (contractId = "") then (Some (Err NotConfigured), s)
  else
    let resumeFrom := match last_processed contractId opts (bf_table s) with Some l => l + 1 | None => bo_fromLedger opts end in
    if bo_toLedger opts <? resumeFrom then (Some (Ok (no_result opts)), s)
    else run_backfill getEvents contractId
           {| bo_fromLedger := resumeFrom; bo_toLedger := bo_toLedger opts; bo_pageSize := bo_pageSize opts |} s.

(** * The table *)

Lemma upsert_row_prefix r t : t `prefix_of` upsert_row r t.
Proof. unfold upsert_row. case_bool_decide; [done|]. by exists [r]. Qed.

Lemma upsert_row_key r t : row_key r ∈ row_key <$> upsert_row r t.
Proof. unfold upsert_row. case_bool_decide; [done|]. rewrite fmap_app. set_solver. Qed.

Lemma upsert_row_nodup r t : NoDup (row_key <$> t) -> NoDup (row_key <$> upsert_row r t).
Proof.
  unfold upsert_row. case_bool_decide as H; [done|]. rewrite fmap_app. intros Hnd. apply NoDup_app. split; [done|].
  split; [|apply NoDup_singleton]. intros k Hk Hin. apply list_elem_of_singleton in Hin. by subst.
Qed.

Definition recorded (t : list ProcessedEvent) (e : RawEvent) : Prop := (re_ledger e, parseEventIndex (re_id e)) ∈ row_key <$> t.

Lemma recorded_prefix t t' e : t `prefix_of` t' -> recorded t e -> recorded t' e.
Proof. intros [k ->]. unfold recorded. rewrite fmap_app. set_solver. Qed.

Lemma record_page_prefix c es t : t `prefix_of` record_page c es t.
Proof.
  revert t. induction es as [|e es IH]; intros t; [done|]. simpl. etrans; [apply upsert_row_prefix|apply IH].
Qed.

Lemma record_page_records c es t e : e ∈ es -> recorded (record_page c es t) e.
Proof.
  revert t. induction es as [|e' es IH]; intros t Hin; [by apply not_elem_of_nil in Hin|]. simpl.
  apply elem_of_cons in Hin as [->|Hin]; [|by apply IH]. eapply recorded_prefix; [apply record_page_prefix|].
  exact (upsert_row_key (row_of c e') t).
Qed.

Lemma record_page_nodup c es t : NoDup (row_key <$> t) -> NoDup (row_key <$> record_page c es t).
Proof. revert t. induction es as [|e es IH]; intros t Hnd; [done|]. simpl. by apply IH, upsert_row_nodup. Qed.

Lemma record_page_again c es t : (forall e, e ∈ es -> recorded t e) -> record_page c es t = t.
Proof.
  induction es as [|e es IH]; intros Hall; [done|]. simpl. assert (Hu : upsert_row (row_of c e) t = t).
  { unfold upsert_row. by rewrite bool_decide_eq_true_2 by (apply Hall; by left). }
  rewrite Hu. apply IH. intros e' He'. apply Hall. by right.
Qed.

(** * The loop *)

Lemma page_loop_table getEvents c opts fuel cur acc s :
  bf_table s `prefix_of` bf_table (page_loop getEvents c opts fuel cur acc s).2 /\
  (NoDup (row_key <$> bf_table s) -> NoDup (row_key <$> bf_table (page_loop getEvents c opts fuel cur acc s).2)).
Proof.
  revert cur acc s. induction fuel as [|fuel IH]; intros cur acc s; simpl; (destruct (_ <? cur); [done|]); [done|].
  destruct (fetchPage getEvents cur _) as [page|]; [|done].
  destruct (processBatch (pg_events page) (bf_registry s)) as [[ok errors] g].
  set (s1 := Build_Backfill _ _ _).
  assert (H1 : bf_table s `prefix_of` bf_table s1) by apply record_page_prefix.
  assert (H2 : NoDup (row_key <$> bf_table s) -> NoDup (row_key <$> bf_table s1)) by apply record_page_nodup.
  destruct (_ || _); [done|]. destruct (IH (if pg_done page then bo_toLedger opts + 1 else pg_lastLedger page + 1)
    {| br_fromLedger := br_fromLedger acc; br_toLedger := br_toLedger acc;
       br_ledgersProcessed := br_ledgersProcessed acc + Z.max 0 ((if pg_done page then bo_toLedger opts + 1 else pg_lastLedger page + 1) - cur);
       br_eventsProcessed := br_eventsProcessed acc + ok; br_decodeErrors := br_decodeErrors acc + errors |} s1) as [H3 H4].
  split; [by etrans|auto].
Qed.

(** A source that answers events of the asked ledger or later. *)
Definition honours_start (getEvents : Z -> nat -> option (list RawEvent)) : Prop :=
  forall start n es, getEvents start n = Some es -> Forall (fun e => start <= re_ledger e) es.

Lemma fetchPage_advances getEvents start n page : honours_start getEvents -> fetchPage getEvents start n = Some page ->
  start <= pg_lastLedger page.
Proof.
  intros Hh. unfold fetchPage. destruct (getEvents start n) as [es|] eqn:E; [|done]. intros [= <-]. simpl.
  apply Hh in E. destruct (last es) as [e|] eqn:El; [|lia]. apply last_Some_elem_of in El. by eapply Forall_forall in E.
Qed.

Lemma page_loop_ends getEvents c opts fuel cur acc s : honours_start getEvents ->
  (Z.to_nat (bo_toLedger opts - cur + 1) <= fuel)%nat -> (page_loop getEvents c opts fuel cur acc s).1 <> Err OutOfFuel.
Proof.
  intros Hh. revert cur acc s. induction fuel as [|fuel IH]; intros cur acc s Hf; simpl.
  - destruct (Z.ltb_spec (bo_toLedger opts) cur); [done|lia].
  - destruct (Z.ltb_spec (bo_toLedger opts) cur) as [|Hle]; [done|].
    destruct (fetchPage getEvents cur _) as [page|] eqn:Ep; [|done]. apply fetchPage_advances in Ep; [|done].
    destruct (processBatch (pg_events page) (bf_registry s)) as [[ok errors] g].
    destruct (pg_done page); [done|]. simpl. destruct (_ <? pg_lastLedger page + 1); [done|]. apply IH. lia.
Qed.

(** * Coverage *)

Section coverage.
Variable chain : list RawEvent.
Hypothesis chain_sorted : StronglySorted (fun x y => re_ledger x <= re_ledger y) chain.

Definition rest (start : Z) : list RawEvent := filter (fun e => start <= re_ledger e) chain.

(** An archive of the chain: the first events from the ledger on. *)
Definition archive (start : Z) (pageSize : nat) : option (list RawEvent) := Some (take pageSize (rest start)).

(** No page the loop fetches ends inside a ledger. *)
Inductive clean (opts : BackfillOptions) : Z -> Prop :=
  | clean_beyond cur : bo_toLedger opts < cur -> clean opts cur
  | clean_last cur : (length (rest cur) < bo_pageSize opts)%nat -> clean opts cur
  | clean_next cur e : rest cur !! (bo_pageSize opts - 1)%nat = Some e ->
      (forall e', rest cur !! bo_pageSize opts = Some e' -> re_ledger e < re_ledger e') ->
      clean opts (re_ledger e + 1) -> clean opts cur.

Lemma archive_honours : honours_start archive.
Proof.
  intros start n es [= <-]. apply Forall_take, Forall_forall. intros e He. by apply list_elem_of_filter in He as [? _].
Qed.

Lemma rest_split cur n e : rest cur !! n = Some e -> (forall e', rest cur !! S n = Some e' -> re_ledger e < re_ledger e') ->
  forall x, x ∈ rest cur -> x ∈ take (S n) (rest cur) \/ x ∈ rest (re_ledger e + 1).
Proof.
  intros He Hnext x Hx. rewrite <- (take_drop (S n) (rest cur)) in Hx. apply elem_of_app in Hx as [Hx|Hx]; [by left|right].
  assert (Hs : StronglySorted (fun x y => re_ledger x <= re_ledger y) (rest cur)) by (by apply filter_sorted).
  assert (Hin : x ∈ rest cur) by (eapply subseteq_drop; exact Hx).
  apply list_elem_of_filter in Hin as [Hcur Hin]. apply list_elem_of_filter. split; [|done].
  destruct (drop (S n) (rest cur)) as [|y l] eqn:Ed; [by apply not_elem_of_nil in Hx|].
  assert (Hy : rest cur !! S n = Some y) by (by rewrite <- (Nat.add_0_r (S n)), <- lookup_drop, Ed).
  specialize (Hnext y Hy). apply elem_of_cons in Hx as [->|Hx]; [lia|].
  rewrite <- (take_drop (S n) (rest cur)), Ed in Hs. apply StronglySorted_app_1_r, StronglySorted_inv in Hs as [_ Hall].
  eapply Forall_forall in Hall; [|exact Hx]. simpl in Hall. lia.
Qed.

Lemma page_loop_covers c opts cur : (0 < bo_pageSize opts)%nat -> clean opts cur ->
  forall fuel acc s, (Z.to_nat (bo_toLedger opts - cur + 1) <= fuel)%nat ->
  exists r, (page_loop archive c opts fuel cur acc s).1 = Ok r /\
    forall e, e ∈ rest cur -> re_ledger e <= bo_toLedger opts -> recorded (bf_table (page_loop archive c opts fuel cur acc s).2) e.
Proof.
  intros Hps. induction 1 as [cur Hb|cur Hlen|cur e He Hnext Hclean IH]; intros fuel acc s Hf.
  - destruct fuel; simpl; rewrite (proj2 (Z.ltb_lt _ _)) by done; eexists; (split; [done|]); intros e He;
      apply list_elem_of_filter in He as [? _]; lia.
  - destruct fuel as [|fuel]; simpl; (destruct (Z.ltb_spec (bo_toLedger opts) cur);
      [eexists; split; [done|]; intros e He; apply list_elem_of_filter in He as [? _]; lia|]); [lia|].
    rewrite take_ge by lia. rewrite (proj2 (Nat.ltb_lt _ _)) by done. simpl.
    destruct (processBatch (rest cur) (bf_registry s)) as [[ok errors] g]. simpl. eexists. split; [done|].
    intros e He _. by apply record_page_records.
  - assert (Hce : cur <= re_ledger e) by (apply list_elem_of_lookup_2 in He; by apply list_elem_of_filter in He as [? _]).
    destruct fuel as [|fuel]; simpl; (destruct (Z.ltb_spec (bo_toLedger opts) cur);
      [eexists; split; [done|]; intros x Hx; apply list_elem_of_filter in Hx as [? _]; lia|]); [lia|].
    replace (bo_pageSize opts) with (S (bo_pageSize opts - 1)) in Hnext |- * by lia.
    assert (Hlen := lookup_lt_Some _ _ _ He). rewrite length_take, Nat.min_l by lia. rewrite Nat.ltb_irrefl. simpl.
    rewrite (take_S_r _ _ _ He), last_snoc, <- (take_S_r _ _ _ He).
    destruct (processBatch _ (bf_registry s)) as [[ok errors] g].
    set (acc1 := Build_BackfillResult _ _ _ _ _). set (s1 := Build_Backfill _ _ _).
    assert (Hpage : forall x, x ∈ take (S (bo_pageSize opts - 1)) (rest cur) -> recorded (bf_table s1) x)
      by (intros x Hx; by apply record_page_records).
    destruct (Z.ltb_spec (bo_toLedger opts) (re_ledger e + 1)) as [Hend|Hgo].
    + eexists. split; [done|]. intros x Hx Hto. destruct (rest_split cur _ e He Hnext x Hx) as [Hp|Hp]; [auto|].
      apply list_elem_of_filter in Hp as [? _]. lia.
    + destruct (IH fuel acc1 s1) as (r & Hr & Hcov); [lia|]. exists r. split; [done|]. intros x Hx Hto.
      destruct (rest_split cur _ e He Hnext x Hx) as [Hp|Hp]; [|auto].
      eapply recorded_prefix; [apply page_loop_table|auto].
Qed.
End coverage.

(** A run whose pages are already in the table changes no row. *)
Lemma page_loop_again getEvents c opts fuel cur acc s acc2 s2 :
  bf_table (page_loop getEvents c opts fuel cur acc s).2 `prefix_of` bf_table s2 ->
  bf_table (page_loop getEvents c opts fuel cur acc2 s2).2 = bf_table s2.
Proof.
  revert cur acc s acc2 s2. induction fuel as [|fuel IH]; intros cur acc s acc2 s2; simpl; (destruct (_ <? cur); [done|]); [done|].
  destruct (fetchPage getEvents cur _) as [page|]; [|done].
  destruct (processBatch (pg_events page) (bf_registry s)) as [[ok errors] g].
  destruct (processBatch (pg_events page) (bf_registry s2)) as [[ok2 errors2] g2].
  set (s1 := Build_Backfill (bf_running s) _ _). set (acc1 := Build_BackfillResult (br_fromLedger acc) _ _ _ _).
  intros Hpre. assert (Hsame : record_page c (pg_events page) (bf_table s2) = bf_table s2).
  { apply record_page_again. intros e He. eapply recorded_prefix; [exact Hpre|]. destruct (_ || _); simpl.
    - by apply record_page_records.
    - eapply recorded_prefix; [apply page_loop_table|]. by apply record_page_records. }
  rewrite Hsame. destruct (_ || _); [done|]. by rewrite (IH _ acc1 s1).
Qed.
End backfill.

(** * Theorems *)

Section theorems.
Context {scval : Type} (safeNative : scval -> jsval) (addressToStrkey : scval -> option string).
Context (strkeyOfXdr hexOfXdr : string -> option string) (isStrkey isUuid : string -> bool).
Context (eventContract : RawEvent scval -> option string).
Notation executeBackfill := (executeBackfill safeNative addressToStrkey strkeyOfXdr hexOfXdr isStrkey isUuid eventContract).

(** The page loop ends: with one page per ledger of the range as its bound, a
    backfill from a source that answers no event before the asked ledger
    finishes or fails on a fetch, and never runs out. *)
Theorem backfill_terminates getEvents c opts s : honours_start getEvents ->
  (executeBackfill getEvents c opts s).1 <> Err OutOfFuel.
Proof. intros Hh. unfold executeBackfill. case_bool_decide; [done|]. by apply page_loop_ends. Qed.

End theorems.

(** Three ledgers, one event each. *)
Definition plain_event (ledger : Z) (id : string) : RawEvent jsval :=
  {| re_id := id; re_ledger := ledger; re_txHash := "tx"; re_topic := [JString "intent_filled"]; re_value := JUndefined |}.

Definition demo_run := executeBackfill (scval := jsval) id (fun _ => None) (fun _ => None) (fun _ => None) (fun _ => true) (fun _ => true)
  (fun _ => None).
Definition demo_resume := resume (scval := jsval) id (fun _ => None) (fun _ => None) (fun _ => None) (fun _ => true) (fun _ => true)
  (fun _ => None).

Definition spread_chain : list (RawEvent jsval) := [plain_event 10 "10-0"; plain_event 11 "11-0"; plain_event 12 "12-0"].
Definition empty_backfill : Backfill := {| bf_running := false; bf_table := []; bf_registry := new_registry |}.
Definition demo_range : BackfillOptions := {| bo_fromLedger := 10; bo_toLedger := 12; bo_pageSize := 2 |}.

Lemma backfill_terminates_witness : (demo_run (archive spread_chain) "C" demo_range empty_backfill).1 <> Err OutOfFuel.
Proof. apply backfill_terminates. apply archive_honours. Defined.


(** * Where the code departs from its comments *)

(** Three events in one ledger, pages of two: the next page starts at the
    following ledger, and the third event is neither handled nor recorded. *)
Definition crowded_chain : list (RawEvent jsval) :=
  [plain_event 10 "10-0"; plain_event 10 "10-1"; plain_event 10 "10-2"; plain_event 11 "11-0"].

Theorem split_ledger_is_lost :
  let s := (demo_run (archive crowded_chain) "C" demo_range empty_backfill).2 in
  is_ok (demo_run (archive crowded_chain) "C" demo_range empty_backfill).1 = true /\
  pv_eventId <$> bf_table s = ["10-0"; "10-1"; "11-0"] /\ ~ recorded (bf_table s) (plain_event 10 "10-2").
Proof. vm_compute. split_and!; [done|done|]. intros H. repeat (apply elem_of_cons in H as [H|H]; [by simplify_eq|]). by apply not_elem_of_nil in H. Qed.

(** A run that died after its first page resumes past the ledger it was in: the
    events of that ledger that were not yet recorded are skipped. *)
Theorem resume_skips_rest_of_ledger :
  let crashing := fun start n => if start <=? 10 then archive crowded_chain start n else None in
  let s := (demo_run crashing "C" demo_range empty_backfill).2 in
  pv_eventId <$> bf_table s = ["10-0"; "10-1"] /\
  pv_eventId <$> bf_table (demo_resume (archive crowded_chain) "C" demo_range s).2 = ["10-0"; "10-1"; "11-0"].
Proof. vm_compute. done. Qed.

(** Events past the end of the range are handled and recorded too. *)
Theorem range_end_is_overrun :
  let opts := {| bo_fromLedger := 10; bo_toLedger := 10; bo_pageSize := 200 |} in
  pv_eventId <$> bf_table (demo_run (archive crowded_chain) "C" opts empty_backfill).2 = ["10-0"; "10-1"; "10-2"; "11-0"].
Proof. vm_compute. done. Qed.
