(* ===== verification/Guardian.v ===== *)
(** Guardian emergency actions (governance/guardian.service.ts,
    guardian-state.service.ts, soroban/events/guardian-events.ts).

    Contract events switch three kinds of policy on and off: the protocol
    pause, the freeze of a parameter, the suspension of a solver.  [apply] and
    [override] await the database, so they are programs of [Prog]; the table of
    actions is part of the state and each write carries whether it succeeds.
    The pause feeds [KillSwitch.evaluateTarget], the suspensions
    [Solvers.register]. *)
From S2P Require Import Prelude JsMap BigInt JsNumber Prog Solvers KillSwitch EventIngestion EventDecoders.
From stdpp Require Import relations.
Local Open Scope string_scope.
Local Open Scope list_scope.
Local Open Scope Z_scope.
Local Open Scope prog_scope.

Definition GUARDIAN_LOOKBACK_LEDGERS : Z := 17280.
Definition ALL_PARAMS : string := "*".

(** * Policy state *)

Record StateRef := { sr_since : Z; sr_reason : string; sr_actionId : string; sr_txHash : string }.

Record GuardianState := { gs_pause : option StateRef; gs_suspendedSolvers : jsmap StateRef; gs_frozenParams : jsmap StateRef }.

Definition pauseRef (g : GuardianState) : option StateRef := gs_pause g.

Definition setPause (active : bool) (ref : StateRef) (g : GuardianState) : GuardianState :=
  {| gs_pause := if active then Some ref else None; gs_suspendedSolvers := gs_suspendedSolvers g;
     gs_frozenParams := gs_frozenParams g |}.

Definition isSolverSuspended (address : string) (g : GuardianState) : bool := has address (gs_suspendedSolvers g).

Definition setSolverSuspended (address : string) (active : bool) (ref : StateRef) (g : GuardianState) : GuardianState :=
  {| gs_pause := gs_pause g;
     gs_suspendedSolvers := if active then set address ref (gs_suspendedSolvers g) else del address (gs_suspendedSolvers g);
     gs_frozenParams := gs_frozenParams g |}.

Definition isParamFrozen (key : string) (g : GuardianState) : bool :=
  has key (gs_frozenParams g) || has ALL_PARAMS (gs_frozenParams g).

Definition setParamFrozen (key : string) (active : bool) (ref : StateRef) (g : GuardianState) : GuardianState :=
  {| gs_pause := gs_pause g; gs_suspendedSolvers := gs_suspendedSolvers g;
     gs_frozenParams := if active then set key ref (gs_frozenParams g) else del key (gs_frozenParams g) |}.

(** * Events *)

(** [gk_undefined]: the field of an inherited member of the event table. *)
Inductive GuardianActionKind := gk_pause | gk_freeze | gk_blacklist | gk_undefined.
#[export] Instance GuardianActionKind_eq : EqDecision GuardianActionKind.
Proof. solve_decision. Defined.

Definition kind_name (k : GuardianActionKind) : string :=
  match k with gk_pause => "pause" | gk_freeze => "freeze" | gk_blacklist => "blacklist" | gk_undefined => "undefined" end.

Record GuardianEvent := {
  gv_id : string; gv_kind : GuardianActionKind; gv_target : string; gv_active : bool; gv_ledger : Z; gv_txHash : string;
  gv_ledgerClosedAt : Z;
}.

Definition EVENT_MAP : jsmap (GuardianActionKind * bool) :=
  [("guardian_pause", (gk_pause, true)); ("guardian_unpause", (gk_pause, false));
   ("guardian_freeze", (gk_freeze, true)); ("guardian_unfreeze", (gk_freeze, false));
   ("guardian_blacklist", (gk_blacklist, true)); ("guardian_unblacklist", (gk_blacklist, false))].

(** The table is an object literal: inherited names map to a value without the
    two fields. *)
Definition event_mapping (name : jsval) : option (GuardianActionKind * bool) :=
  match name with
  | JString s =>
      match get s EVENT_MAP with
      | Some m => Some m
      | None => match inherited s with Some _ => Some (gk_undefined, false) | None => None end
      end
  | _ => None
  end.

Definition decodeGuardianEvent {scval} (safeNative : scval -> jsval) (closedAt : Z) (e : RawEvent scval) : option GuardianEvent :=
  match event_mapping (slot safeNative e 0) with
  | None => None
  | Some (kind, active) =>
      let target := text_of (coalesce (slot safeNative e 1) (JString "")) in
      if negb (bool_decide (kind = gk_pause)) && bool_decide (target = "") then None
      else Some {| gv_id := re_id e; gv_kind := kind; gv_target := if bool_decide (kind = gk_pause) then "" else target;
                   gv_active := active; gv_ledger := re_ledger e; gv_txHash := re_txHash e; gv_ledgerClosedAt := closedAt |}
  end.

(** * The service *)

Record GuardianActionRecord := {
  ga_id : string; ga_kind : GuardianActionKind; ga_target : string; ga_txHash : string; ga_ledger : Z; ga_activatedAt : Z;
}.

Record ActionRow := { aw_record : GuardianActionRecord; aw_active : bool; aw_clearedTxHash : option string; aw_overriddenBy : option string }.

Record Guardian := {
  gd_active : jsmap GuardianActionRecord;
  gd_seen : list string;
  gd_cursor : option Z;
  gd_state : GuardianState;
  gd_rows : list ActionRow;
  gd_audit : list (string * string * string);
}.

Inductive GuardianError := NoActiveAction | AuditFailed | GuardianRpcRejected.
Notation GM := (prog Guardian GuardianError).

Definition keyOf (kind : GuardianActionKind) (target : string) : string := kind_name kind +:+ ":" +:+ target.

Definition Qc_gtb (a b : Qc) : bool := match (a ?= b)%Qc with Gt => true | _ => false end.

(** Strictly later on chain. *)
Definition isAfter (ledgerA : Z) (idA : string) (ledgerB : Z) (idB : string) : bool :=
  if negb (ledgerA =? ledgerB) then ledgerB <? ledgerA else Qc_gtb (parseEventIndex idA) (parseEventIndex idB).

Definition after (e : GuardianEvent) (r : GuardianActionRecord) : bool := isAfter (gv_ledger e) (gv_id e) (ga_ledger r) (ga_id r).

Definition project (r : GuardianActionRecord) (active : bool) (reason : string) (g : GuardianState) : GuardianState :=
  let ref := {| sr_since := ga_activatedAt r; sr_reason := reason; sr_actionId := ga_id r; sr_txHash := ga_txHash r |} in
  match ga_kind r with
  | gk_pause => setPause active ref g
  | gk_freeze => setParamFrozen (if bool_decide (ga_target r = "") then ALL_PARAMS else ga_target r) active ref g
  | _ => setSolverSuspended (ga_target r) active ref g
  end.

Definition record_of (e : GuardianEvent) : GuardianActionRecord :=
  {| ga_id := gv_id e; ga_kind := gv_kind e; ga_target := gv_target e; ga_txHash := gv_txHash e; ga_ledger := gv_ledger e;
     ga_activatedAt := gv_ledgerClosedAt e |}.

Definition with_action (active : jsmap GuardianActionRecord) (seen : list string) (st : GuardianState) (g : Guardian) : Guardian :=
  {| gd_active := active; gd_seen := seen; gd_cursor := gd_cursor g; gd_state := st; gd_rows := gd_rows g; gd_audit := gd_audit g |}.

Definition put_rows (rows : list ActionRow) (g : Guardian) : Guardian :=
  {| gd_active := gd_active g; gd_seen := gd_seen g; gd_cursor := gd_cursor g; gd_state := gd_state g; gd_rows := rows;
     gd_audit := gd_audit g |}.

(** The upsert of an activation: an existing row is left alone. *)
Definition upsert_action (r : GuardianActionRecord) (rows : list ActionRow) : list ActionRow :=
  if bool_decide (ga_id r ∈ (fun w => ga_id (aw_record w)) <$> rows) then rows
  else rows ++ [{| aw_record := r; aw_active := true; aw_clearedTxHash := None; aw_overriddenBy := None |}].

(** The update of the row with an id; it fails when there is none, which is
    logged only. *)
Definition mark_cleared (id : string) (tx by_ : option string) (w : ActionRow) : ActionRow :=
  if bool_decide (ga_id (aw_record w) = id)
  then {| aw_record := aw_record w; aw_active := false;
          aw_clearedTxHash := match tx with Some _ => tx | None => aw_clearedTxHash w end;
          aw_overriddenBy := match by_ with Some _ => by_ | None => aw_overriddenBy w end |}
  else w.

Definition clear_action (id : string) (tx by_ : option string) (rows : list ActionRow) : list ActionRow :=
  mark_cleared id tx by_ <$> rows.

(** What an event does in memory, and the write it leads to. *)
Inductive RowWrite := NoWrite | UpsertAction (r : GuardianActionRecord) | ClearAction (id tx : string).

Definition apply_now (e : GuardianEvent) (g : Guardian) : RowWrite * Guardian :=
  if bool_decide (gv_id e ∈ gd_seen g) then (NoWrite, g)
  else
    let seen := gd_seen g ++ [gv_id e] in
    let key := keyOf (gv_kind e) (gv_target e) in
    let ignored := (NoWrite, with_action (gd_active g) seen (gd_state g) g) in
    match get key (gd_active g), gv_active e with
    | Some current, true =>
        if negb (after e current) then ignored
        else (UpsertAction (record_of e),
              with_action (set key (record_of e) (gd_active g)) seen (project (record_of e) true "guardian action" (gd_state g)) g)
    | None, true =>
        (UpsertAction (record_of e),
         with_action (set key (record_of e) (gd_active g)) seen (project (record_of e) true "guardian action" (gd_state g)) g)
    | Some current, false =>
        if negb (after e current) then ignored
        else (ClearAction (ga_id current) (gv_txHash e),
              with_action (del key (gd_active g)) seen
                (project current false ("guardian cleared (tx " +:+ gv_txHash e +:+ ")") (gd_state g)) g)
    | None, false => ignored
    end.

Definition write_rows (w : RowWrite) (g : Guardian) : Guardian :=
  match w with
  | NoWrite => g
  | UpsertAction r => put_rows (upsert_action r (gd_rows g)) g
  | ClearAction id tx => put_rows (clear_action id (Some tx) None (gd_rows g)) g
  end.

(** [persisted]: whether the database takes the write. *)
Definition apply (persisted : bool) (e : GuardianEvent) : GM unit :=
  w <- atomic (apply_now e);
  match w with NoWrite => Done tt | _ => modify (fun g => if persisted then write_rows w g else g) end.

Definition find_action (id : string) (g : Guardian) : option GuardianActionRecord :=
  list_find (fun r => ga_id r = id) (values (gd_active g)) ≫= fun x => Some x.2.

Definition override (audited persisted : bool) (actionId admin reason : string) : GM GuardianActionRecord :=
  found <- reads (find_action actionId);
  match found with
  | None => Throw NoActiveAction
  | Some r =>
      if negb audited then Throw AuditFailed
      else
        modify (fun g => {| gd_active := gd_active g; gd_seen := gd_seen g; gd_cursor := gd_cursor g; gd_state := gd_state g;
                            gd_rows := gd_rows g; gd_audit := gd_audit g ++ [(admin, ga_id r, reason)] |});;;
        modify (fun g => with_action (del (keyOf (ga_kind r) (ga_target r)) (gd_active g)) (gd_seen g)
                           (project r false ("superadmin override by " +:+ admin +:+ ": " +:+ reason) (gd_state g)) g);;;
        modify (fun g => if persisted then put_rows (clear_action (ga_id r) None (Some admin) (gd_rows g)) g else g);;;
        Done r
  end.

Definition restore_row (g : Guardian) (w : ActionRow) : Guardian :=
  let r := aw_record w in
  let seen := gd_seen g ++ [ga_id r] in
  if negb (aw_active w) then with_action (gd_active g) seen (gd_state g) g
  else with_action (set (keyOf (ga_kind r) (ga_target r)) r (gd_active g)) seen (project r true "restored guardian action" (gd_state g)) g.

Definition new_guardian (rows : list ActionRow) : Guardian :=
  {| gd_active := []; gd_seen := []; gd_cursor := None;
     gd_state := {| gs_pause := None; gs_suspendedSolvers := []; gs_frozenParams := [] |}; gd_rows := rows; gd_audit := [] |}.

Definition restore (g : Guardian) : Guardian := foldl restore_row g (gd_rows g).

Definition put_cursor (l : Z) (g : Guardian) : Guardian :=
  {| gd_active := gd_active g; gd_seen := gd_seen g; gd_cursor := Some l; gd_state := gd_state g; gd_rows := gd_rows g;
     gd_audit := gd_audit g |}.

(** [latest] and [getEvents] answer for the RPC; the decoded events of the
    response come with its head. *)
Definition guardian_poll (persisted : bool) (latest : option Z) (getEvents : Z -> option (list GuardianEvent * Z)) : GM unit :=
  cursor <- reads gd_cursor;
  (match cursor, latest with
   | Some _, _ => Done tt
   | None, Some l => modify (put_cursor (Z.max 1 (l - GUARDIAN_LOOKBACK_LEDGERS)))
   | None, None => Throw GuardianRpcRejected
   end);;;
  start <- reads gd_cursor;
  match getEvents (default 1 start) with
  | None => Throw GuardianRpcRejected
  | Some (events, head) =>
      pfold (fun _ e => apply persisted e) tt events;;;
      modify (put_cursor (head + 1))
  end.

(** What the kill switch sees of a pause. *)
Definition pause_view (g : GuardianState) : option GuardianPause :=
  match pauseRef g with Some r => Some (Some (sr_txHash r), sr_since r) | None => None end.

Record GuardianStatus := {
  gt_paused : bool; gt_guardianPaused : bool; gt_guardianActions : list GuardianActionRecord; gt_nextLedger : option Z;
}.

(** [operatorGlobal]: an active operator switch of global scope. *)
Definition status (operatorGlobal : bool) (g : Guardian) : GuardianStatus :=
  let guardianPaused := match pauseRef (gd_state g) with Some _ => true | None => false end in
  {| gt_paused := guardianPaused || operatorGlobal; gt_guardianPaused := guardianPaused;
     gt_guardianActions := sort_by (fun a b => ga_ledger a - ga_ledger b) (values (gd_active g)); gt_nextLedger := gd_cursor g |}.

(** * The policy state mirrors the active actions *)

Lemma keyOf_inj k t k' t' : keyOf k t = keyOf k' t' -> k = k' /\ t = t'.
Proof. destruct k, k'; unfold keyOf; simpl; intros H; simplify_eq; done. Qed.

Definition shape (kind : GuardianActionKind) (target : string) : Prop :=
  kind <> gk_undefined /\ (kind = gk_pause <-> target = "").

Record agrees (active : jsmap GuardianActionRecord) (st : GuardianState) : Prop := {
  ag_active : wf active;
  ag_suspended : wf (gs_suspendedSolvers st);
  ag_frozen : wf (gs_frozenParams st);
  ag_keys k r : get k active = Some r -> k = keyOf (ga_kind r) (ga_target r) /\ shape (ga_kind r) (ga_target r);
  ag_pause : gs_pause st = None <-> get (keyOf gk_pause "") active = None;
  ag_blacklist a : get a (gs_suspendedSolvers st) = None <-> get (keyOf gk_blacklist a) active = None;
  ag_freeze t : get t (gs_frozenParams st) = None <-> get (keyOf gk_freeze t) active = None;
}.

Lemma get_set_None {V} k k' (v : V) m : get k' (set k v m) = None <-> k <> k' /\ get k' m = None.
Proof. rewrite get_set. case_decide; naive_solver. Qed.

Lemma get_del_None {V} k k' (m : jsmap V) : wf m -> get k' (del k m) = None <-> k = k' \/ get k' m = None.
Proof.
  intros Hwf. destruct (decide (k = k')) as [->|Hne]; [rewrite get_del_eq by done|rewrite get_del_ne by done]; naive_solver.
Qed.

Ltac key_cases := repeat match goal with
  | H : keyOf _ _ = keyOf _ _ |- _ => apply keyOf_inj in H as [? ?]
  end; simplify_eq.

Lemma agrees_on r reason active st : shape (ga_kind r) (ga_target r) -> agrees active st ->
  agrees (set (keyOf (ga_kind r) (ga_target r)) r active) (project r true reason st).
Proof.
  intros [Hk Ht] [H1 H2 H3 Hkeys Hp Hb Hf]. destruct r as [id kind target tx ledger at_]; simpl in *.
  assert (Hkeys' : forall k r', get k (set (keyOf kind target) (Build_GuardianActionRecord id kind target tx ledger at_) active) = Some r' ->
    k = keyOf (ga_kind r') (ga_target r') /\ shape (ga_kind r') (ga_target r')).
  { intros k r'. rewrite get_set. case_decide as Hd; [|auto]. intros [= <-]. by subst. }
  destruct kind; try done; unfold project; simpl.
  - assert (target = "") as -> by (by apply Ht). split; simpl; auto with vortex; intros; rewrite ?get_set_None; [split; [done|naive_solver]|..].
    + rewrite Hb. naive_solver.
    + rewrite Hf. naive_solver.
  - rewrite bool_decide_eq_false_2 by naive_solver.
    split; simpl; auto with vortex; intros; rewrite ?get_set_None.
    + rewrite Hp. naive_solver.
    + rewrite Hb. naive_solver.
    + rewrite Hf. split; intros [Hne Hg]; (split; [|done]); [intros ?; key_cases; done|intros ->; done].
  - split; simpl; auto with vortex; intros; rewrite ?get_set_None.
    + rewrite Hp. naive_solver.
    + rewrite Hb. split; intros [Hne Hg]; (split; [|done]); [intros ?; key_cases; done|intros ->; done].
    + rewrite Hf. naive_solver.
Qed.

Lemma agrees_off r reason active st : shape (ga_kind r) (ga_target r) -> agrees active st ->
  agrees (del (keyOf (ga_kind r) (ga_target r)) active) (project r false reason st).
Proof.
  intros [Hk Ht] [H1 H2 H3 Hkeys Hp Hb Hf]. destruct r as [id kind target tx ledger at_]; simpl in *.
  assert (Hkeys' : forall k r', get k (del (keyOf kind target) active) = Some r' ->
    k = keyOf (ga_kind r') (ga_target r') /\ shape (ga_kind r') (ga_target r')).
  { intros k r'. destruct (decide (keyOf kind target = k)) as [<-|Hne]; [by rewrite get_del_eq|rewrite get_del_ne by done; auto]. }
  destruct kind; try done; unfold project; simpl.
  - assert (target = "") as -> by (by apply Ht). split; simpl; auto with vortex; intros; rewrite ?get_del_None by done; [naive_solver|..].
    + rewrite Hb. split; [naive_solver|intros [?|?]; [by key_cases|done]].
    + rewrite Hf. split; [naive_solver|intros [?|?]; [by key_cases|done]].
  - rewrite bool_decide_eq_false_2 by naive_solver.
    split; simpl; auto with vortex; intros; rewrite ?get_del_None by done.
    + rewrite Hp. split; [naive_solver|intros [?|?]; [by key_cases|done]].
    + rewrite Hb. split; [naive_solver|intros [?|?]; [by key_cases|done]].
    + rewrite Hf. split; intros [Heq|Hg]; auto; [left; by subst|left; by key_cases].
  - split; simpl; auto with vortex; intros; rewrite ?get_del_None by done.
    + rewrite Hp. split; [naive_solver|intros [?|?]; [by key_cases|done]].
    + rewrite Hb. split; intros [Heq|Hg]; auto; [left; by subst|left; by key_cases].
    + rewrite Hf. split; [naive_solver|intros [?|?]; [by key_cases|done]].
Qed.

(** * Every interleaving keeps them in step *)

Definition guardian_ok (g : Guardian) : Prop :=
  agrees (gd_active g) (gd_state g) /\ Forall (fun w => shape (ga_kind (aw_record w)) (ga_target (aw_record w))) (gd_rows g).

(** Activations have a kind, and a target unless they are pauses. *)
Definition event_ok (e : GuardianEvent) : Prop := gv_active e = true -> shape (gv_kind e) (gv_target e).

Lemma decoded_event_ok {scval} (f : scval -> jsval) at_ e v : decodeGuardianEvent f at_ e = Some v -> event_ok v.
Proof.
  unfold decodeGuardianEvent, event_ok. destruct (event_mapping (slot f e 0)) as [[kind active]|] eqn:Em; [|done].
  destruct (_ && _) eqn:Eb; [done|]. intros [= <-]. simpl. intros ->.
  assert (kind <> gk_undefined).
  { intros ->. unfold event_mapping in Em. destruct (slot f e 0); try done. simpl in Em.
    repeat (case_bool_decide; [done|]). by destruct (inherited s). }
  split; [done|]. case_bool_decide as Hk; [done|]. split; [done|]. intros Ht. by rewrite Ht, bool_decide_eq_true_2, andb_true_r in Eb.
Qed.

Definition write_ok (w : RowWrite) : Prop := match w with UpsertAction r => shape (ga_kind r) (ga_target r) | _ => True end.

Lemma apply_now_ok e g : event_ok e -> guardian_ok g -> guardian_ok (apply_now e g).2 /\ write_ok (apply_now e g).1.
Proof.
  intros He [Ha Hr]. unfold apply_now, event_ok in *. case_bool_decide; [by split|].
  destruct (get _ (gd_active g)) as [cur|] eqn:Eg, (gv_active e) eqn:Ee.
  - destruct (negb (after e cur)); [by split|]. split; [|by apply He]. split; [|done]. apply (agrees_on (record_of e)); [by apply He|done].
  - destruct (negb (after e cur)); [by split|]. split; [|done]. split; [|done]. simpl.
    destruct (ag_keys _ _ Ha _ _ Eg) as [-> Hs]. by apply agrees_off.
  - split; [|by apply He]. split; [|done]. apply (agrees_on (record_of e)); [by apply He|done].
  - by split.
Qed.

Lemma write_rows_ok w g : write_ok w -> guardian_ok g -> guardian_ok (write_rows w g).
Proof.
  intros Hw [Ha Hr]. destruct w as [|r|id tx]; [by split| |]; split; simpl; try done.
  - unfold upsert_action. case_bool_decide; [done|]. apply Forall_app. split; [done|]. by constructor.
  - unfold clear_action. apply Forall_fmap. eapply Forall_impl; [exact Hr|]. intros w Hs. simpl. unfold mark_cleared. by case_bool_decide.
Qed.

Lemma clear_rows_ok id tx by_ g : guardian_ok g -> guardian_ok (put_rows (clear_action id tx by_ (gd_rows g)) g).
Proof.
  intros [Ha Hr]. split; [done|]. unfold clear_action. apply Forall_fmap. eapply Forall_impl; [exact Hr|]. intros w Hs. simpl.
  unfold mark_cleared. by case_bool_decide.
Qed.

Lemma apply_keeps persisted e : event_ok e -> keeps_inv guardian_ok (fun _ => True) (apply persisted e).
Proof.
  intros He. unfold apply. eapply inv_bind; [apply (inv_atomic _ _ write_ok); intros g; by apply apply_now_ok|].
  intros w Hw. destruct w; [done|..]; apply inv_modify; intros g Hg; destruct persisted; auto using write_rows_ok.
Qed.

Lemma find_action_shape id g r : guardian_ok g -> find_action id g = Some r -> shape (ga_kind r) (ga_target r).
Proof.
  intros [Ha _]. unfold find_action. destruct (list_find _ _) as [[i r']|] eqn:Ef; [|done]. intros [= <-].
  apply list_find_Some in Ef as (Hi & _). apply list_elem_of_lookup_2, (values_get _ _ (ag_active _ _ Ha)) in Hi as [k Hk].
  by destruct (ag_keys _ _ Ha _ _ Hk).
Qed.

Lemma override_keeps audited persisted id admin reason : keeps_inv guardian_ok (fun _ => True) (override audited persisted id admin reason).
Proof.
  unfold override.
  eapply inv_bind; [apply (inv_reads _ _ (fun o => forall r, o = Some r -> shape (ga_kind r) (ga_target r)))|].
  { intros g Hg r. by apply find_action_shape. }
  intros [r|] Hr; [|done]. specialize (Hr r eq_refl). destruct (negb audited); [done|].
  eapply inv_bind; [by apply inv_modify|]. intros _ _.
  eapply inv_bind; [apply inv_modify|].
  { intros g [Ha Hrows]. split; [|done]. by apply agrees_off. }
  intros _ _. eapply inv_bind; [apply inv_modify|done]. intros g Hg. destruct persisted; auto using clear_rows_ok.
Qed.

Lemma guardian_poll_keeps persisted latest getEvents :
  (forall start es head, getEvents start = Some (es, head) -> Forall event_ok es) ->
  keeps_inv guardian_ok (fun _ => True) (guardian_poll persisted latest getEvents).
Proof.
  intros Hev. unfold guardian_poll. eapply inv_bind; [by apply (inv_reads _ _ (fun _ => True))|]. intros cursor _.
  eapply (inv_bind _ (fun _ => True)); [destruct cursor, latest; try done; by apply inv_modify|]. intros _ _.
  eapply inv_bind; [by apply (inv_reads _ _ (fun _ => True))|]. intros start _.
  destruct (getEvents (default 1 start)) as [[es head]|] eqn:E; [|done]. apply Hev in E.
  eapply (inv_bind _ (fun _ => True)); [|intros _ _; by apply inv_modify]. apply inv_fold; [done|]. intros _ e _ He. apply apply_keeps.
  by eapply Forall_forall in E.
Qed.

Lemma restore_rows_ok l g : Forall (fun w => shape (ga_kind (aw_record w)) (ga_target (aw_record w))) l -> guardian_ok g ->
  guardian_ok (foldl restore_row g l).
Proof.
  revert g. induction l as [|w l IH]; intros g Hl Hg; [done|]. apply Forall_cons in Hl as [Hw Hl]. simpl. apply IH; [done|].
  destruct Hg as [Ha Hr]. unfold restore_row. destruct (negb (aw_active w)); (split; [|done]); [done|]. by apply agrees_on.
Qed.

Lemma restore_ok rows : Forall (fun w => shape (ga_kind (aw_record w)) (ga_target (aw_record w))) rows -> guardian_ok (restore (new_guardian rows)).
Proof. intros Hr. apply restore_rows_ok; [done|]. split; [|done]. split; simpl; auto using empty_wf; naive_solver. Qed.

(** Anything that runs against the service. *)
Inductive guardian_program : GM unit -> Prop :=
  | gp_apply persisted e : event_ok e -> guardian_program (apply persisted e)
  | gp_poll persisted latest getEvents : (forall start es head, getEvents start = Some (es, head) -> Forall event_ok es) ->
      guardian_program (guardian_poll persisted latest getEvents)
  | gp_override audited persisted id admin reason : guardian_program (override audited persisted id admin reason;;; Done tt).

Lemma guardian_program_keeps p : guardian_program p -> keeps_inv guardian_ok (fun _ => True) p.
Proof.
  destruct 1; [by apply apply_keeps|by apply guardian_poll_keeps|]. eapply inv_bind; [apply override_keeps|done].
Qed.

(** * Delivery in chain order *)

Definition event_at (e : GuardianEvent) : string := keyOf (gv_kind e) (gv_target e).

(** [b] is strictly later on chain than [a]. *)
Definition earlier (a b : GuardianEvent) : Prop := isAfter (gv_ledger b) (gv_id b) (gv_ledger a) (gv_id a) = true.

(** The first delivery of each event. *)
Fixpoint firsts (seen : list string) (es : list GuardianEvent) : list GuardianEvent :=
  match es with
  | [] => []
  | e :: es => if decide (gv_id e ∈ seen) then firsts seen es else e :: firsts (seen ++ [gv_id e]) es
  end.

(** What the last event under a key left: its activation, or nothing. *)
Definition settled (k : string) (es : list GuardianEvent) : option GuardianActionRecord :=
  match last (filter (fun e => event_at e = k) es) with
  | Some e => if gv_active e then Some (record_of e) else None
  | None => None
  end.

Lemma settled_snoc k es e :
  settled k (es ++ [e]) = if decide (event_at e = k) then if gv_active e then Some (record_of e) else None else settled k es.
Proof.
  unfold settled. rewrite filter_app, filter_cons, filter_nil. case_decide; [by rewrite last_snoc|by rewrite app_nil_r].
Qed.

Lemma settled_elem k es r : settled k es = Some r -> exists e, e ∈ es /\ event_at e = k /\ gv_active e = true /\ r = record_of e.
Proof.
  unfold settled. destruct (last _) as [e|] eqn:El; [|done]. apply last_Some_elem_of, list_elem_of_filter in El as [Hk Hin].
  destruct (gv_active e) eqn:Ea; [|done]. intros [= <-]. by exists e.
Qed.

Definition deliver (es : list GuardianEvent) (g : Guardian) : Guardian := foldl (fun g e => (run (apply true e) g).2) g es.

Lemma run_apply e g : (run (apply true e) g).2 = write_rows (apply_now e g).1 (apply_now e g).2.
Proof. unfold apply. rewrite run_pbind, run_atomic. by destruct (apply_now e g) as [[] g']. Qed.

Lemma write_rows_same w g : gd_active (write_rows w g) = gd_active g /\ gd_seen (write_rows w g) = gd_seen g.
Proof. by destruct w. Qed.

(** What the service holds after the events [d], each delivered once. *)
Record holds (d : list GuardianEvent) (g : Guardian) : Prop := {
  ho_seen : gd_seen g = gv_id <$> d;
  ho_wf : wf (gd_active g);
  ho_active k : get k (gd_active g) = settled k d;
}.

Lemma current_after d e r : StronglySorted earlier (d ++ [e]) -> settled (event_at e) d = Some r -> after e r = true.
Proof.
  intros Hs (e' & Hin & _ & _ & ->)%settled_elem. exact (StronglySorted_app_1_elem_of _ d [e] e' e Hs Hin (list_elem_of_here e [])).
Qed.

Lemma apply_holds d e g : holds d g -> gv_id e ∉ gd_seen g -> StronglySorted earlier (d ++ [e]) ->
  holds (d ++ [e]) (run (apply true e) g).2.
Proof.
  intros [Hseen Hwf Hact] Hn Hs. rewrite run_apply. destruct (write_rows_same (apply_now e g).1 (apply_now e g).2) as [Ha Hse].
  assert (Hset : forall k, get k (gd_active (apply_now e g).2) = settled k (d ++ [e])).
  { intros k. rewrite settled_snoc. unfold apply_now. rewrite bool_decide_eq_false_2 by done.
    pose proof (current_after d e) as Hcur. rewrite <- Hact in Hcur. unfold event_at in Hcur |- *.
    destruct (get (keyOf (gv_kind e) (gv_target e)) (gd_active g)) as [cur|] eqn:Eg, (gv_active e);
      rewrite ?(Hcur _ Hs eq_refl); simpl; rewrite ?get_set, <- ?Hact; try (case_decide; by subst).
    case_decide; [subst; by rewrite get_del_eq|by rewrite get_del_ne]. }
  split; rewrite ?Ha, ?Hse; [..|done].
  - unfold apply_now. rewrite bool_decide_eq_false_2, fmap_app by done.
    destruct (get _ _), (gv_active e); simpl; try destruct (negb _); simpl; by rewrite Hseen.
  - unfold apply_now. rewrite bool_decide_eq_false_2 by done.
    destruct (get _ _), (gv_active e); simpl; try destruct (negb _); simpl; auto with vortex.
Qed.

Lemma deliver_holds es d g : holds d g -> StronglySorted earlier (d ++ firsts (gd_seen g) es) ->
  holds (d ++ firsts (gd_seen g) es) (deliver es g).
Proof.
  revert d g. induction es as [|e es IH]; intros d g Hh Hs; cbn [firsts] in *; [by rewrite app_nil_r|].
  change (deliver (e :: es) g) with (deliver es (run (apply true e) g).2). destruct (decide (gv_id e ∈ gd_seen g)) as [Hin|Hin].
  - rewrite run_apply. unfold apply_now. rewrite bool_decide_eq_true_2 by done. cbn [fst snd write_rows]. auto.
  - assert (Hs1 : StronglySorted earlier (d ++ [e])) by (rewrite (cons_middle e), app_assoc in Hs; by eapply StronglySorted_app_1_l).
    pose proof (apply_holds d e g Hh Hin Hs1) as Hh1. pose proof (ho_seen _ _ Hh1) as Hse.
    rewrite fmap_app, <- (ho_seen _ _ Hh), list_fmap_singleton in Hse. specialize (IH (d ++ [e]) _ Hh1). rewrite Hse, <- app_assoc in IH.
    by apply IH.
Qed.

(** * Restarts *)

Lemma isAfter_asym la ia lb ib : isAfter la ia lb ib = true -> isAfter lb ib la ia = false.
Proof.
  unfold isAfter. destruct (Z.eqb_spec la lb) as [->|Hne]; simpl.
  - rewrite Z.eqb_refl. simpl. unfold Qc_gtb, Qccompare. rewrite <- (Qcompare_antisym (parseEventIndex ia)).
    by destruct (parseEventIndex ia ?= parseEventIndex ib)%Q.
  - destruct (Z.eqb_spec lb la); [done|]. simpl. intros H%Z.ltb_lt. apply Z.ltb_ge. lia.
Qed.

(** Replaying a clear does not touch the activation that came after it. *)
Lemma old_clear_ignored d e r : StronglySorted earlier d -> e ∈ d -> gv_active e = false -> settled (event_at e) d = Some r -> after e r = false.
Proof.
  intros Hs Hin He. unfold settled. destruct (last _) as [e'|] eqn:El; [|done]. destruct (gv_active e') eqn:Ea; [|done]. intros [= <-].
  apply last_Some in El as [l Hl]. assert (Hf : e ∈ filter (fun x => event_at x = event_at e) d) by (by apply list_elem_of_filter).
  pose proof (filter_sorted earlier (fun x => event_at x = event_at e) d Hs) as Hsf. rewrite Hl in Hf, Hsf.
  apply elem_of_app in Hf as [Hf|Hf%list_elem_of_singleton]; [|by subst; congruence].
  apply isAfter_asym. exact (StronglySorted_app_1_elem_of _ l [e'] e e' Hsf Hf (list_elem_of_here e' [])).
Qed.

Definition row_at (w : ActionRow) : string := keyOf (ga_kind (aw_record w)) (ga_target (aw_record w)).

(** Every activation has its row, and the active rows are the current actions. *)
Record rows_hold (d : list GuardianEvent) (g : Guardian) : Prop := {
  rh_nodup : NoDup (gv_id <$> d);
  rh_from w : w ∈ gd_rows g -> exists e, e ∈ d /\ gv_active e = true /\ aw_record w = record_of e;
  rh_all e : e ∈ d -> gv_active e = true -> exists w, w ∈ gd_rows g /\ aw_record w = record_of e;
  rh_active w : w ∈ gd_rows g -> aw_active w = true -> get (row_at w) (gd_active g) = Some (aw_record w);
  rh_current k r : get k (gd_active g) = Some r -> exists w, w ∈ gd_rows g /\ aw_record w = r /\ aw_active w = true;
}.

(** Nothing is activated while it is active. *)
Definition alternating (d : list GuardianEvent) : Prop :=
  forall d1 e d2, d = d1 ++ e :: d2 -> gv_active e = true -> settled (event_at e) d1 = None.

Lemma ids_inj d e1 e2 : NoDup (gv_id <$> d) -> e1 ∈ d -> e2 ∈ d -> gv_id e1 = gv_id e2 -> e1 = e2.
Proof.
  intros Hnd. induction d as [|e d IH]; [by intros ?%not_elem_of_nil|]. csimpl in Hnd. apply NoDup_cons in Hnd as [Hni Hnd].
  intros [->|H1]%elem_of_cons [->|H2]%elem_of_cons Heq; [done|..|auto]; destruct Hni; apply list_elem_of_fmap; eauto.
Qed.

Lemma activation_rows d e g : holds d g -> rows_hold d g -> gv_id e ∉ gd_seen g -> gv_active e = true -> settled (event_at e) d = None ->
  rows_hold (d ++ [e]) (run (apply true e) g).2.
Proof.
  intros Hh [Hnd Hfrom Hall Hact Hcur] Hn He Hnone. rewrite run_apply. unfold apply_now. rewrite bool_decide_eq_false_2 by done.
  rewrite (ho_active _ _ Hh), He. fold (event_at e). rewrite Hnone. cbn [fst snd write_rows put_rows gd_rows gd_active with_action].
  assert (Hnew : gv_id e ∉ gv_id <$> d) by (by rewrite <- (ho_seen _ _ Hh)).
  assert (Hrow : upsert_action (record_of e) (gd_rows g) =
    gd_rows g ++ [{| aw_record := record_of e; aw_active := true; aw_clearedTxHash := None; aw_overriddenBy := None |}]).
  { unfold upsert_action. rewrite bool_decide_eq_false_2; [done|]. intros (w & Hid & Hw)%list_elem_of_fmap.
    destruct (Hfrom w Hw) as (e' & Hin & _ & Hr). apply Hnew, list_elem_of_fmap. exists e'. by rewrite Hr in Hid. }
  rewrite Hrow. split; simpl.
  - rewrite fmap_app. apply NoDup_app. split; [done|]. split; [|apply NoDup_singleton]. intros x Hx ->%list_elem_of_singleton. done.
  - intros w [Hw| ->%list_elem_of_singleton]%elem_of_app; [destruct (Hfrom w Hw) as (e' & ? & ? & ?); exists e'; set_solver|].
    exists e. set_solver.
  - intros e' [Hin| ->%list_elem_of_singleton]%elem_of_app Ha; [destruct (Hall e' Hin Ha) as (w & ? & ?); exists w; set_solver|].
    eexists. split; [apply elem_of_app; right; by left|done].
  - intros w [Hw| ->%list_elem_of_singleton]%elem_of_app Ha; [|apply get_set_eq].
    rewrite get_set_ne; [auto|]. intros Heq. specialize (Hact w Hw Ha). rewrite (ho_active _ _ Hh) in Hact.
    unfold event_at in *. rewrite Heq in Hnone. congruence.
  - intros k r. rewrite get_set. case_decide as Hk; [intros [= <-]; eexists; split; [apply elem_of_app; right; by left|done]|].
    intros (w & ? & ? & ?)%Hcur. exists w. set_solver.
Qed.

Lemma clear_rows d e g : holds d g -> rows_hold d g -> gv_id e ∉ gd_seen g -> gv_active e = false -> StronglySorted earlier (d ++ [e]) ->
  rows_hold (d ++ [e]) (run (apply true e) g).2.
Proof.
  intros Hh [Hnd Hfrom Hall Hact Hcur] Hn He Hs. rewrite run_apply. unfold apply_now. rewrite bool_decide_eq_false_2 by done. rewrite He.
  assert (Hnd' : NoDup (gv_id <$> d ++ [e])).
  { rewrite fmap_app. apply NoDup_app. split; [done|]. split; [|apply NoDup_singleton].
    intros x Hx ->%list_elem_of_singleton. by rewrite <- (ho_seen _ _ Hh) in Hx. }
  pose proof (current_after d e) as Hafter. rewrite <- (ho_active _ _ Hh) in Hafter. unfold event_at in Hafter.
  destruct (get _ (gd_active g)) as [cur|] eqn:Eg.
  - rewrite (Hafter cur Hs eq_refl). cbn [negb fst snd write_rows put_rows gd_rows gd_active with_action].
    set (mark := mark_cleared (ga_id cur) (Some (gv_txHash e)) None).
    assert (Hmark : forall w, aw_record (mark w) = aw_record w) by (intros w; unfold mark, mark_cleared; by case_bool_decide).
    rewrite (ho_active _ _ Hh) in Eg. destruct (settled_elem _ _ _ Eg) as (ec & Hec & Hkc & Hac & ->).
    rewrite <- (ho_active _ _ Hh) in Eg. split; simpl; [done|..].
    + intros w (w0 & -> & Hw)%list_elem_of_fmap. rewrite Hmark. destruct (Hfrom w0 Hw) as (e' & ? & ? & ?). exists e'. set_solver.
    + intros e' [Hin| ->%list_elem_of_singleton]%elem_of_app Ha; [|congruence]. destruct (Hall e' Hin Ha) as (w & Hw & Hr).
      exists (mark w). split; [apply list_elem_of_fmap; eauto|by rewrite Hmark].
    + intros w (w0 & -> & Hw)%list_elem_of_fmap Ha. unfold row_at. rewrite Hmark. unfold mark, mark_cleared in Ha. case_bool_decide as Hid; [done|].
      specialize (Hact w0 Hw Ha). rewrite get_del_ne; [done|]. intros Heq. unfold row_at in Hact. rewrite <- Heq, Eg in Hact. apply Hid. by injection Hact as <-.
    + intros k r Hg. assert (Hne : keyOf (gv_kind e) (gv_target e) <> k) by (intros Heq; by rewrite <- Heq, get_del_eq in Hg by apply Hh).
      rewrite get_del_ne in Hg by done. destruct (Hcur k r Hg) as (w & Hw & Hr & Ha). exists (mark w).
      split; [apply list_elem_of_fmap; eauto|]. split; [by rewrite Hmark|]. unfold mark, mark_cleared. rewrite bool_decide_eq_false_2; [done|].
      rewrite Hr. intros Hid. rewrite (ho_active _ _ Hh) in Hg. destruct (settled_elem _ _ _ Hg) as (er & Her & Hkr & _ & ->).
      apply Hne. rewrite <- Hkr, <- Hkc. f_equal. by apply (ids_inj d).
  - cbn [fst snd write_rows gd_rows gd_active with_action]. split; simpl; [done|..|auto|auto].
    + intros w Hw. destruct (Hfrom w Hw) as (e' & ? & ? & ?). exists e'. set_solver.
    + intros e' [Hin| ->%list_elem_of_singleton]%elem_of_app Ha; [auto|congruence].
Qed.

Lemma deliver_rows es d g : holds d g -> rows_hold d g -> StronglySorted earlier (d ++ firsts (gd_seen g) es) ->
  alternating (d ++ firsts (gd_seen g) es) -> rows_hold (d ++ firsts (gd_seen g) es) (deliver es g).
Proof.
  revert d g. induction es as [|e es IH]; intros d g Hh Hr Hs Halt; cbn [firsts] in *; [by rewrite app_nil_r|].
  change (deliver (e :: es) g) with (deliver es (run (apply true e) g).2). destruct (decide (gv_id e ∈ gd_seen g)) as [Hin|Hin].
  - rewrite run_apply. unfold apply_now. rewrite bool_decide_eq_true_2 by done. cbn [fst snd write_rows]. auto.
  - assert (Hs1 : StronglySorted earlier (d ++ [e])) by (rewrite (cons_middle e), app_assoc in Hs; by eapply StronglySorted_app_1_l).
    pose proof (apply_holds d e g Hh Hin Hs1) as Hh1. pose proof (ho_seen _ _ Hh1) as Hse.
    rewrite fmap_app, <- (ho_seen _ _ Hh), list_fmap_singleton in Hse.
    assert (Hr1 : rows_hold (d ++ [e]) (run (apply true e) g).2).
    { destruct (gv_active e) eqn:Ea; [|by apply clear_rows]. apply activation_rows; try done. by apply (Halt d e (firsts (gd_seen g ++ [gv_id e]) es)). }
    specialize (IH (d ++ [e]) _ Hh1 Hr1). rewrite Hse, <- app_assoc in IH. by apply IH.
Qed.

(** What [restore] reads back, given that the active rows agree with [A]. *)
Lemma restore_get (A : jsmap GuardianActionRecord) l g k :
  (forall w, w ∈ l -> aw_active w = true -> get (row_at w) A = Some (aw_record w)) ->
  (Exists (fun w => aw_active w = true /\ row_at w = k) l -> get k (gd_active (foldl restore_row g l)) = get k A) /\
  (~ Exists (fun w => aw_active w = true /\ row_at w = k) l -> get k (gd_active (foldl restore_row g l)) = get k (gd_active g)).
Proof.
  revert g. induction l as [|w l IH]; intros g Hl; simpl; [by split; [intros ?%Exists_nil|]|].
  destruct (IH (restore_row g w)) as [IH1 IH2]; [intros w' Hw'; apply Hl; by right|].
  assert (Hw : get k (gd_active (restore_row g w)) = if decide (aw_active w = true /\ row_at w = k) then Some (aw_record w) else get k (gd_active g)).
  { unfold restore_row. destruct (aw_active w); cbn [negb with_action gd_active]; rewrite ?get_set; unfold row_at;
      repeat case_decide; naive_solver. }
  split; intros HE.
  - destruct (decide (Exists (fun w => aw_active w = true /\ row_at w = k) l)) as [He|He]; [auto|].
    apply Exists_cons in HE as [[Ha Hk]|]; [|done]. rewrite IH2, Hw, decide_True by done. symmetry. subst k. apply Hl; [by left|done].
  - rewrite IH2, Hw, decide_False; [done|..]; intros ?; apply HE, Exists_cons; auto.
Qed.

Lemma restore_same d g k : holds d g -> rows_hold d g -> get k (gd_active (restore (new_guardian (gd_rows g)))) = get k (gd_active g).
Proof.
  intros Hh Hr. unfold restore. destruct (restore_get (gd_active g) (gd_rows g) (new_guardian (gd_rows g)) k (rh_active _ _ Hr)) as [H1 H2].
  destruct (decide (Exists (fun w => aw_active w = true /\ row_at w = k) (gd_rows g))) as [He|He]; [by apply H1|].
  change (gd_rows (new_guardian (gd_rows g))) with (gd_rows g). rewrite H2 by done. simpl.
  destruct (get k (gd_active g)) as [r|] eqn:Eg; [|done]. destruct He. destruct (rh_current _ _ Hr k r Eg) as (w & Hw & <- & Ha).
  apply Exists_exists. exists w. split; [done|]. split; [done|]. pose proof (rh_active _ _ Hr w Hw Ha) as Hact.
  rewrite (ho_active _ _ Hh) in Hact, Eg. unfold row_at. destruct (settled_elem _ _ _ Eg) as (e & _ & <- & _ & Hrec). by rewrite Hrec.
Qed.

Lemma restore_seen l g w : w ∈ l -> ga_id (aw_record w) ∈ gd_seen (foldl restore_row g l).
Proof.
  assert (Hmono : forall l g x, x ∈ gd_seen g -> x ∈ gd_seen (foldl restore_row g l)).
  { clear. induction l as [|w l IH]; intros g x Hx; [done|]. simpl. apply IH. unfold restore_row. destruct (negb _); simpl; set_solver. }
  revert g. induction l as [|w' l IH]; intros g Hin; [by apply not_elem_of_nil in Hin|]. simpl.
  apply elem_of_cons in Hin as [<-|Hin]; [|auto]. apply Hmono. unfold restore_row. destruct (negb _); simpl; set_solver.
Qed.

(** A state that replaying events of [d] does not change. *)
Lemma replay_same d es g : StronglySorted earlier d -> (forall e, e ∈ es -> e ∈ d) -> (forall k, get k (gd_active g) = settled k d) ->
  (forall e, e ∈ d -> gv_active e = true -> gv_id e ∈ gd_seen g) -> gd_active (deliver es g) = gd_active g.
Proof.
  intros Hs. revert g. induction es as [|e es IH]; intros g Hin Hact Hseen; [done|].
  change (deliver (e :: es) g) with (deliver es (run (apply true e) g).2).
  assert (Hsame : gd_active (run (apply true e) g).2 = gd_active g /\ forall x, x ∈ gd_seen g -> x ∈ gd_seen (run (apply true e) g).2).
  { rewrite run_apply. destruct (write_rows_same (apply_now e g).1 (apply_now e g).2) as [-> ->]. unfold apply_now.
    case_bool_decide as Hsn; [done|]. destruct (gv_active e) eqn:Ea; [destruct Hsn; apply Hseen; set_solver|].
    rewrite Hact. fold (event_at e). destruct (settled (event_at e) d) as [r|] eqn:Es; [|simpl; set_solver].
    rewrite (old_clear_ignored d e r) by (try done; set_solver). simpl. set_solver. }
  destruct Hsame as [Ha Hsn]. rewrite IH; [done|set_solver|by rewrite Ha|auto].
Qed.

Lemma new_guardian_holds : holds [] (new_guardian []) /\ rows_hold [] (new_guardian []).
Proof. split; split; simpl; try done; auto using empty_wf; try constructor; set_solver. Qed.

(** * Theorems *)

Lemma has_iff {V W} k k' (m : jsmap V) (m' : jsmap W) : (get k m = None <-> get k' m' = None) -> has k m = has k' m'.
Proof. unfold has. intros [H1 H2]. destruct (get k m), (get k' m'); try done; [by discriminate H2|by discriminate H1]. Qed.

(** C27. Started from its table and driven by any interleaving of polls, events and
    overrides, whatever their writes do, the service's policy state and its
    active actions agree: the pause, each solver's suspension and each
    parameter's freeze are on exactly while such an action is active, and while
    a pause is active the kill switch blocks every target. *)
Theorem policy_mirrors_actions rows g ps ps' :
  Forall (fun w => shape (ga_kind (aw_record w)) (ga_target (aw_record w))) rows -> Forall guardian_program ps ->
  rtc pool_step (restore (new_guardian rows), ps) (g, ps') ->
  (forall a, isSolverSuspended a (gd_state g) = has (keyOf gk_blacklist a) (gd_active g)) /\
  (forall t, isParamFrozen t (gd_state g) = has (keyOf gk_freeze t) (gd_active g) || has (keyOf gk_freeze "*") (gd_active g)) /\
  (pauseRef (gd_state g) = None <-> get (keyOf gk_pause "") (gd_active g) = None) /\
  (get (keyOf gk_pause "") (gd_active g) <> None -> forall t v, sd_paused (evaluateTarget (pause_view (gd_state g)) t v) = true).
Proof.
  intros Hrows Hps Hrun. destruct (pool_inv guardian_ok (fun _ => True) _ _ Hrun) as [[Ha _] _].
  { by apply restore_ok. }
  { eapply Forall_impl; [exact Hps|]. apply guardian_program_keeps. }
  simpl in Ha. destruct Ha as [_ _ _ _ Hp Hb Hf].
  split_and!; [..|exact Hp|].
  - intros a. unfold isSolverSuspended. by apply has_iff.
  - intros t. unfold isParamFrozen, ALL_PARAMS. by rewrite (has_iff t _ _ _ (Hf t)), (has_iff "*" _ _ _ (Hf "*")).
  - intros Hne t v. unfold evaluateTarget, pause_view, pauseRef in *. destruct (negb _); [done|].
    destruct (gs_pause (gd_state g)) eqn:E; [done|]. destruct Hne. by apply Hp.
Qed.

(** Events delivered in chain order, each any number of times: what is active
    under a key is the activation that came last, unless a clear came after it. *)
Theorem last_action_wins es k : StronglySorted earlier (firsts [] es) ->
  get k (gd_active (deliver es (new_guardian []))) = settled k (firsts [] es).
Proof. intros Hs. apply (deliver_holds es [] (new_guardian [])); [apply new_guardian_holds|done]. Qed.

(** A restart loses nothing: when nothing was activated twice in a row and the
    writes went through, the table brings back the active actions, and replaying
    any of the events already delivered leaves them as they are. *)
Theorem restart_is_lossless es replayed k : StronglySorted earlier (firsts [] es) -> alternating (firsts [] es) ->
  (forall e, e ∈ replayed -> e ∈ firsts [] es) ->
  let g := deliver es (new_guardian []) in
  get k (gd_active (deliver replayed (restore (new_guardian (gd_rows g))))) = get k (gd_active g).
Proof.
  intros Hs Halt Hrep g. destruct new_guardian_holds as [H1 H2].
  assert (Hh : holds (firsts [] es) g) by (by apply (deliver_holds es [] (new_guardian []))).
  assert (Hr : rows_hold (firsts [] es) g) by (by apply (deliver_rows es [] (new_guardian []))).
  rewrite (replay_same (firsts [] es)); [by apply restore_same with (firsts [] es)|done|done|..].
  - intros k'. rewrite (restore_same (firsts [] es)) by done. by apply Hh.
  - intros e He Ha. destruct (rh_all _ _ Hr e He Ha) as (w & Hw & Hrec). replace (gv_id e) with (ga_id (aw_record w)) by (by rewrite Hrec).
    by apply restore_seen.
Qed.

(** A pause, a suspension, the pause lifted. *)
Definition gevent (kind : GuardianActionKind) (target : string) (active : bool) (ledger : Z) (id : string) : GuardianEvent :=
  {| gv_id := id; gv_kind := kind; gv_target := target; gv_active := active; gv_ledger := ledger; gv_txHash := "tx" +:+ id;
     gv_ledgerClosedAt := ledger * 5 |}.

Definition history : list GuardianEvent :=
  [gevent gk_pause "" true 10 "10-0"; gevent gk_blacklist "GA" true 10 "10-1"; gevent gk_pause "" false 20 "20-0"].

Lemma history_sorted : StronglySorted earlier (firsts [] history).
Proof.
  assert (Hf : firsts [] history = history) by reflexivity. rewrite Hf. clear Hf. unfold history.
  repeat apply SSorted_cons; try apply SSorted_nil; repeat apply Forall_cons_2; try apply Forall_nil_2; vm_compute; reflexivity.
Qed.

Lemma history_alternates : alternating (firsts [] history).
Proof.
  intros d1 e d2 Hd Ha. assert (Hf : firsts [] history = history) by reflexivity. rewrite Hf in Hd. clear Hf. unfold history in Hd.
  destruct d1 as [|a [|b [|c d1]]]; [..|by destruct d1]; injection Hd; intros; subst; try discriminate Ha; vm_compute; reflexivity.
Qed.

Lemma policy_mirrors_actions_witness :
  let g := (run (apply true (gevent gk_pause "" true 10 "10-0")) (restore (new_guardian []))).2 in
  (get (keyOf gk_pause "") (gd_active g) <> None -> forall t v, sd_paused (evaluateTarget (pause_view (gd_state g)) t v) = true) /\
  get (keyOf gk_pause "") (gd_active g) <> None.
Proof.
  split; [|done].
  apply (policy_mirrors_actions [] _ [apply true (gevent gk_pause "" true 10 "10-0")] [Done tt]).
  - constructor.
  - constructor; [|constructor]. apply gp_apply. intros _. done.
  - exact (schedule_steps [0%nat; 0%nat] _ _).
Defined.

Lemma last_action_wins_witness :
  get (keyOf gk_pause "") (gd_active (deliver history (new_guardian []))) = None /\
  get (keyOf gk_blacklist "GA") (gd_active (deliver history (new_guardian []))) =
    Some (record_of (gevent gk_blacklist "GA" true 10 "10-1")).
Proof.
  split; [exact (last_action_wins history (keyOf gk_pause "") history_sorted)|
          exact (last_action_wins history (keyOf gk_blacklist "GA") history_sorted)].
Defined.

Lemma restart_is_lossless_witness :
  get (keyOf gk_blacklist "GA") (gd_active (deliver history (restore (new_guardian (gd_rows (deliver history (new_guardian []))))))) =
  get (keyOf gk_blacklist "GA") (gd_active (deliver history (new_guardian []))).
Proof.
  apply (restart_is_lossless history history); [apply history_sorted|apply history_alternates|].
  assert (firsts [] history = history) as -> by reflexivity. done.
Defined.

(** * Where the code departs from its comments *)

(** A second activation leaves the first one's row active.  Cleared (or lifted
    by an override) and restarted, the service brings the first action back; a
    poll that looks back far enough clears it again, an override stays undone. *)
Definition paused_twice : list GuardianEvent := [gevent gk_pause "" true 10 "10-0"; gevent gk_pause "" true 20 "20-0"].

Theorem stale_row_resurrects_pause :
  let cleared := deliver (paused_twice ++ [gevent gk_pause "" false 30 "30-0"]) (new_guardian []) in
  let lifted := (run (override true true "20-0" "admin" "false alarm") (deliver paused_twice (new_guardian []))).2 in
  pauseRef (gd_state cleared) = None /\ pauseRef (gd_state (restore (new_guardian (gd_rows cleared)))) <> None /\
  pauseRef (gd_state lifted) = None /\
  pauseRef (gd_state (deliver paused_twice (restore (new_guardian (gd_rows lifted))))) <> None.
Proof. vm_compute. done. Qed.

(** An override that waits for its audit record removes whatever is active
    under the key by then, also an action the guardian took in the meantime. *)
Theorem override_lifts_newer_action :
  let g := deliver [gevent gk_pause "" true 10 "10-0"] (new_guardian []) in
  let '(g', _) := schedule [0; 1; 1; 2; 2; 0; 0; 0]%nat g
    [override true true "10-0" "admin" "false alarm";;; Done tt;
     apply true (gevent gk_pause "" false 20 "20-0"); apply true (gevent gk_pause "" true 30 "30-0")] in
  gd_audit g' = [("admin", "10-0", "false alarm")] /\ pauseRef (gd_state g') = None /\ gd_active g' = [].
Proof. vm_compute. done. Qed.
