(* ===== verification/RegistryProjection.v ===== *)
(** Projection of the solver-registry contract into the solver records
    (soroban/events/solver-registry-events.service.ts).

    Each handler reads the record, guards on the ledger it was last updated at
    and writes through [Solvers]; its calls run inside the worker's state by
    [zoom].  The RPC and the clock are parameters. *)
From S2P Require Import Prelude JsMap BigInt JsNumber Prog Budget IntentTypes Solvers EventIngestion EventDecoders.
Local Open Scope string_scope.
Local Open Scope list_scope.
Local Open Scope Z_scope.
Local Open Scope prog_scope.

Record Projection := {
  rp_solvers : SolverState;
  rp_seenKeys : list DedupeKey;
  rp_nextStartLedger : option Z;
  rp_notified : list string;
}.

Inductive ProjectionError := ExpectedString (field : string) | ProjectionRpc | FromSolver (e : SolverError).
Notation PM := (prog Projection ProjectionError).

Definition put_projected (s : SolverState) (w : Projection) : Projection :=
  {| rp_solvers := s; rp_seenKeys := rp_seenKeys w; rp_nextStartLedger := rp_nextStartLedger w; rp_notified := rp_notified w |}.

Definition solvers_do {A} (p : SM A) : PM A := zoom rp_solvers put_projected FromSolver p.

(** * Utilities *)

Definition isNewer (chainUpdatedLedger : option Z) (eventLedger : Z) : bool :=
  match chainUpdatedLedger with None => true | Some l => l <? eventLedger end.

Definition requireString (value : jsval) (field : string) : PM string :=
  match value with
  | JString s => if bool_decide (s = "") then Throw (ExpectedString field) else Done s
  | _ => Throw (ExpectedString field)
  end.

Definition toAmountString (value : jsval) (fallback : string) : string :=
  match value with
  | JBigint z => toString z
  | JString s => if digits_only s then s else fallback
  | JNumber z => toString z
  | _ => fallback
  end.

Definition topic_at (topic : list jsval) (i : nat) : jsval := default JUndefined (topic !! i).

(** [gateway.updateSolverPredicate], whose failures are swallowed. *)
Definition notify (address : string) : PM unit :=
  modify (fun w => {| rp_solvers := rp_solvers w; rp_seenKeys := rp_seenKeys w; rp_nextStartLedger := rp_nextStartLedger w;
                      rp_notified := rp_notified w ++ [address] |}).

Definition chain_update (bond : option string) (active : option bool) (ledger : Z) : ChainUpdate :=
  {| cu_bondAmount := bond; cu_isActive := active; cu_source := Some "chain"; cu_ledger := Some ledger |}.

(** [registerFromChain] with the minimal record of an unknown solver. *)
Definition create_minimal (address bond : string) (ledger now : Z) : PM unit :=
  solvers_do (registerFromChain address bond (String.substring 0 12 address) true [] [] ledger now);;; Done tt.

Definition chain_write (address : string) (u : ChainUpdate) (now : Z) : PM unit := solvers_do (applyChainUpdate address u now);;; Done tt.

(** [BigInt(s)], which throws on what is no integer. *)
Definition big (s : string) : PM Z := match BigInt s with Some z => Done z | None => Throw (FromSolver SolverBadNumber) end.

(** * Handlers *)

Definition handleSolverRegistered (ledger now : Z) (topic : list jsval) : PM unit :=
  address <- requireString (topic_at topic 1) "SolverRegistered:address";
  let bond := toAmountString (topic_at topic 2) "0" in
  existing <- solvers_do (findByAddress address);
  match existing with
  | Some r => if negb (isNewer (so_chainUpdatedLedger r) ledger) then Done tt
              else chain_write address (chain_update (Some bond) (Some true) ledger) now
  | None => create_minimal address bond ledger now
  end.

Definition handleBondDeposited (ledger now : Z) (topic : list jsval) : PM unit :=
  address <- requireString (topic_at topic 1) "BondDeposited:address";
  let depositAmount := toAmountString (topic_at topic 2) "0" in
  existing <- solvers_do (findByAddress address);
  match existing with
  | Some r =>
      if negb (isNewer (so_chainUpdatedLedger r) ledger) then Done tt
      else
        currentBond <- big (so_bondAmount r);
        deposit <- big depositAmount;
        chain_write address (chain_update (Some (toString (currentBond + deposit))) (Some true) ledger) now;;;
        notify address
  | None =>
      deposit <- big depositAmount;
      create_minimal address (toString (0 + deposit)) ledger now;;;
      notify address
  end.

Definition handleBondWithdrawn (ledger now : Z) (topic : list jsval) : PM unit :=
  address <- requireString (topic_at topic 1) "BondWithdrawn:address";
  let withdrawAmount := toAmountString (topic_at topic 2) "0" in
  existing <- solvers_do (findByAddress address);
  match existing with
  | None => Done tt
  | Some r =>
      if negb (isNewer (so_chainUpdatedLedger r) ledger) then Done tt
      else
        current <- big (so_bondAmount r);
        withdraw <- big withdrawAmount;
        chain_write address (chain_update (Some (toString (if withdraw <? current then current - withdraw else 0))) None ledger) now;;;
        notify address
  end.

Definition handleSlashEvent (ledger now : Z) (topic : list jsval) : PM unit :=
  address <- requireString (topic_at topic 1) "SolverSlashed:address";
  intentId <- requireString (topic_at topic 2) "SolverSlashed:intentId";
  let slashAmount := toAmountString (topic_at topic 3) "0" in
  existing <- solvers_do (findByAddress address);
  match existing with
  | Some r =>
      if negb (isNewer (so_chainUpdatedLedger r) ledger) then Done tt
      else
        solvers_do (confirmPenalty intentId slashAmount);;;
        chain_write address (chain_update None None ledger) now;;;
        notify address
  | None => solvers_do (confirmPenalty intentId slashAmount);;; notify address
  end.

Definition handleSolverDeactivated (ledger now : Z) (topic : list jsval) : PM unit :=
  address <- requireString (topic_at topic 1) "SolverDeactivated:address";
  existing <- solvers_do (findByAddress address);
  match existing with
  | Some r =>
      if negb (isNewer (so_chainUpdatedLedger r) ledger) then Done tt
      else chain_write address (chain_update None (Some false) ledger) now;;; notify address
  | None => notify address
  end.

Definition project_event (ledger now : Z) (topic : list jsval) : PM unit :=
  match topic_at topic 0 with
  | JString name =>
      if bool_decide (name = "SolverRegistered") then handleSolverRegistered ledger now topic
      else if bool_decide (name = "BondDeposited") then handleBondDeposited ledger now topic
      else if bool_decide (name = "BondWithdrawn") then handleBondWithdrawn ledger now topic
      else if bool_decide (name = "SolverSlashed") then handleSlashEvent ledger now topic
      else if bool_decide (name = "SolverDeactivated") then handleSolverDeactivated ledger now topic
      else Done tt
  | _ => Done tt
  end.

(** * The worker *)

Section worker.
Context {scval : Type}.
Variable safeNative : scval -> jsval.

(** A failed projection is logged; its key stays marked. *)
Definition ingestEvent (now : Z) (e : RawEvent scval) : PM unit :=
  fresh <- atomic (fun w =>
    let k := buildDedupeKey (re_ledger e) (parseEventIndex (re_id e)) in
    if bool_decide (k ∈ rp_seenKeys w) then (false, w)
    else (true, {| rp_solvers := rp_solvers w; rp_seenKeys := markSeen k (rp_seenKeys w);
                   rp_nextStartLedger := rp_nextStartLedger w; rp_notified := rp_notified w |}));
  if (fresh : bool) then pcatch (fun _ => Done tt) (project_event (re_ledger e) now (safeNative <$> re_topic e)) else Done tt.

(** With the registry contract configured; without it a poll does nothing. *)
Definition poll_registry (now : Z) (latest : option Z) (getEvents : Z -> option (list (RawEvent scval) * Z)) : PM unit :=
  cursor <- reads rp_nextStartLedger;
  startLedger <- match cursor, latest with Some l, _ => Done l | None, Some l => Done l | None, None => Throw ProjectionRpc end;
  match getEvents startLedger with
  | None => Throw ProjectionRpc
  | Some (events, head) =>
      pfold (fun _ e => ingestEvent now e) tt events;;;
      modify (fun w => {| rp_solvers := rp_solvers w; rp_seenKeys := rp_seenKeys w; rp_nextStartLedger := Some (head + 1);
                          rp_notified := rp_notified w |})
  end.
End worker.

(** * What an event does to the records *)

Lemma run_solvers_do {A} (p : SM A) w :
  run (solvers_do p) w = (match (run p (rp_solvers w)).1 with Ok a => Ok a | Err e => Err (FromSolver e) end,
                          put_projected (run p (rp_solvers w)).2 w).
Proof. unfold solvers_do. rewrite run_zoom by (by intros []). done. Qed.

Definition persisted (r : SolverRecord) (s : SolverState) : SolverState := invalidate (put_store (set (so_address r) r (sv_store s)) s).

Lemma run_chain_write a u now w r : get a (sv_store (rp_solvers w)) = Some r ->
  run (chain_write a u now) w = (Ok tt, put_projected (persisted (apply_chain u now r) (rp_solvers w)) w).
Proof.
  intros Hg. unfold chain_write. rewrite run_pbind, run_solvers_do. unfold applyChainUpdate, modify_solver, findByAddress, persist.
  simpl. by rewrite Hg.
Qed.

Lemma run_create a bond ledger now w : exists r,
  run (create_minimal a bond ledger now) w = (Ok tt, put_projected (persisted r (rp_solvers w)) w) /\
  so_address r = a /\ so_bondAmount r = bond /\ so_chainUpdatedLedger r = Some ledger.
Proof.
  exists {| so_address := a; so_name := String.substring 0 12 a; so_bondAmount := bond; so_fillsCompleted := 0; so_fillsFailed := 0;
    so_totalVolume := "0"; so_avgFillTime := 0; so_isActive := true; so_registeredAt := now; so_lastActiveAt := now;
    so_supportedChains := []; so_supportedTokens := []; so_inventory := None; so_delegatedSigners := None;
    so_referredBy := None; so_source := Some "chain"; so_chainUpdatedLedger := Some ledger |}.
  unfold create_minimal. by rewrite run_pbind, run_solvers_do.
Qed.

(** Records sit at their address and their bonds are integers. *)
Definition records_ok (s : SolverState) : Prop :=
  forall a r, get a (sv_store s) = Some r -> so_address r = a /\ BigInt (so_bondAmount r) <> None.

(** The record of [a] was updated at ledger [l] or later. *)
Definition covered (a : string) (l : Z) (s : SolverState) : Prop :=
  exists r l', get a (sv_store s) = Some r /\ so_chainUpdatedLedger r = Some l' /\ l <= l'.

(** [s'] differs from [s] by records that are at least as recent. *)
Definition advances (l : Z) (s s' : SolverState) : Prop :=
  records_ok s' /\ (forall b m, covered b m s -> covered b m s') /\
  (forall b, get b (sv_store s) = None -> get b (sv_store s') = None \/ covered b l s').

Lemma advances_refl l s : records_ok s -> advances l s s.
Proof. intros H. split_and!; auto. Qed.

Lemma persisted_advances a l r s : records_ok s -> so_address r = a -> BigInt (so_bondAmount r) <> None ->
  so_chainUpdatedLedger r = Some l -> (forall r0, get a (sv_store s) = Some r0 -> isNewer (so_chainUpdatedLedger r0) l = true) ->
  advances l s (persisted r s) /\ covered a l (persisted r s).
Proof.
  intros Hok Ha Hb Hl Hnew. assert (Hcov : covered a l (persisted r s)).
  { exists r, l. simpl. rewrite Ha, get_set_eq. split_and!; [done|done|lia]. }
  split; [|done]. split_and!.
  - intros b rb. simpl. rewrite Ha, get_set. case_decide as Hd; [|apply Hok]. intros [= <-]. by subst.
  - intros b m (rb & l' & Hg & Hs & Hm). destruct (decide (a = b)) as [<-|Hne].
    + specialize (Hnew rb Hg). unfold isNewer in Hnew. rewrite Hs in Hnew. apply Z.ltb_lt in Hnew.
      exists r, l. simpl. rewrite Ha, get_set_eq. split_and!; [done|done|lia].
    + exists rb, l'. simpl. by rewrite Ha, get_set_ne.
  - intros b Hn. destruct (decide (a = b)) as [<-|Hne]; [by right|left]. simpl. by rewrite Ha, get_set_ne.
Qed.

Lemma BigInt_amount v : BigInt (toAmountString v "0") <> None.
Proof.
  unfold toAmountString. destruct v; try done; try by rewrite BigInt_toString. destruct (digits_only s) eqn:E; [|done].
  destruct (BigInt_digits_total s E) as (z & -> & _). done.
Qed.

(** ** Slashes: the penalty's solver keeps its address and its ledger. *)
Lemma confirm_advances id amount l s : records_ok s -> BigInt amount <> None ->
  (exists o, (run (confirmPenalty id amount) s).1 = Ok o) /\ advances l s (run (confirmPenalty id amount) s).2 /\
  (forall b, get b (sv_store s) = None -> get b (sv_store (run (confirmPenalty id amount) s).2) = None) /\
  (forall b r, get b (sv_store s) = Some r -> exists r', get b (sv_store (run (confirmPenalty id amount) s).2) = Some r' /\
    so_chainUpdatedLedger r' = so_chainUpdatedLedger r).
Proof.
  intros Hok Ham. unfold confirmPenalty, findByAddress, persist. simpl.
  destruct (get id (sv_penalties s)) as [p|]; simpl; [|split; [by eexists|]; split; [by apply advances_refl|]; eauto].
  destruct (negb _); simpl; [split; [by eexists|]; split; [by apply advances_refl|]; eauto|].
  destruct (get (pn_solverAddress p) (sv_store s)) as [r|] eqn:Eg; simpl; [|split; [by eexists|]; split; [by apply advances_refl|]; eauto].
  destruct (Hok _ _ Eg) as [Ha Hb]. destruct (BigInt (so_bondAmount r)) as [current|]; [|done].
  destruct (BigInt amount) as [slash|]; [|done]. simpl. set (r1 := with_counters _ _ _ _ _ _ r). rewrite Ha.
  assert (Hst : forall b rb, get b (sv_store s) = Some rb -> exists rb', get b (set (pn_solverAddress p) r1 (sv_store s)) = Some rb' /\
    so_chainUpdatedLedger rb' = so_chainUpdatedLedger rb).
  { intros b rb Hg. rewrite get_set. case_decide as Hd; [|by exists rb]. subst b. exists r1. rewrite Eg in Hg. by injection Hg as <-. }
  assert (Hno : forall b, get b (sv_store s) = None -> get b (set (pn_solverAddress p) r1 (sv_store s)) = None).
  { intros b Hg. rewrite get_set_ne; [done|]. intros Heq. rewrite Heq in Eg. congruence. }
  split; [by eexists|]. split; [|by split]. split_and!; simpl.
  - intros b rb. simpl. rewrite get_set. case_decide as Hd; [|apply Hok]. intros [= <-]. subst b. split; [done|]. simpl. by rewrite BigInt_toString.
  - intros b m (rb & l' & Hg & Hs & Hm). destruct (Hst b rb Hg) as (rb' & Hg' & Hs'). exists rb', l'. simpl. by rewrite Hs'.
  - intros b Hg. left. by apply Hno.
Qed.

(** ** Events *)

Inductive event_kind := KRegistered | KDeposited | KWithdrawn | KSlashed | KDeactivated.

Definition kind_of (name : string) : option event_kind :=
  if bool_decide (name = "SolverRegistered") then Some KRegistered
  else if bool_decide (name = "BondDeposited") then Some KDeposited
  else if bool_decide (name = "BondWithdrawn") then Some KWithdrawn
  else if bool_decide (name = "SolverSlashed") then Some KSlashed
  else if bool_decide (name = "SolverDeactivated") then Some KDeactivated
  else None.

Definition required (v : jsval) : option string := match v with JString s => if bool_decide (s = "") then None else Some s | _ => None end.

(** The kind and the solver of an event the handlers do not reject. *)
Definition classify (topic : list jsval) : option (event_kind * string) :=
  match topic_at topic 0 with
  | JString name =>
      k ← kind_of name; a ← required (topic_at topic 1);
      match k with KSlashed => _ ← required (topic_at topic 2); Some (k, a) | _ => Some (k, a) end
  | _ => None
  end.

Definition handler (k : event_kind) : Z -> Z -> list jsval -> PM unit :=
  match k with
  | KRegistered => handleSolverRegistered | KDeposited => handleBondDeposited | KWithdrawn => handleBondWithdrawn
  | KSlashed => handleSlashEvent | KDeactivated => handleSolverDeactivated
  end.

Lemma project_event_kind ledger now topic :
  project_event ledger now topic =
  match topic_at topic 0 with JString name => match kind_of name with Some k => handler k ledger now topic | None => Done tt end | _ => Done tt end.
Proof. unfold project_event, kind_of. destruct (topic_at topic 0); try done. by repeat case_bool_decide. Qed.

Lemma run_require {A} v field (k : string -> PM A) w :
  run (pbind k (requireString v field)) w = match required v with Some s => run (k s) w | None => (Err (ExpectedString field), w) end.
Proof. unfold requireString, required. destruct v; try done. by case_bool_decide. Qed.

Lemma run_findByAddress {A} a (k : option SolverRecord -> PM A) w :
  run (pbind k (solvers_do (findByAddress a))) w = run (k (get a (sv_store (rp_solvers w)))) w.
Proof. rewrite run_pbind, run_solvers_do. simpl. by destruct w. Qed.

(** An event whose solver is covered at its ledger changes nothing. *)
Lemma covered_is_skipped ledger now topic k a w : classify topic = Some (k, a) -> covered a ledger (rp_solvers w) ->
  (run (project_event ledger now topic) w).2 = w.
Proof.
  rewrite project_event_kind. unfold classify. destruct (topic_at topic 0) as [| |name| | | |]; try done.
  destruct (kind_of name) as [k'|]; [|done]. simpl. destruct (required (topic_at topic 1)) as [a'|] eqn:Ea; [|done]. simpl.
  intros Hc (r & l' & Hg & Hl & Hle).
  assert (Hold : isNewer (Some l') ledger = false) by (apply Z.ltb_ge; lia).
  destruct k'; simpl in Hc |- *; unfold handleSolverRegistered, handleBondDeposited, handleBondWithdrawn, handleSlashEvent, handleSolverDeactivated;
    rewrite run_require, Ea; try (destruct (required (topic_at topic 2)) eqn:E2; [|done]; simpl in Hc; rewrite run_require, E2);
    simplify_eq; rewrite run_findByAddress, Hg, Hl, Hold; done.
Qed.

(** What is left for a replay: nothing, or an event that cannot create. *)
Definition settles (ledger : Z) (k : event_kind) (a : string) (s s' : SolverState) : Prop :=
  covered a ledger s' \/ (get a (sv_store s') = None /\ k <> KRegistered /\ k <> KDeposited /\ (k <> KSlashed -> s' = s)).

Lemma write_covers ledger now a r u s : records_ok s -> get a (sv_store s) = Some r -> isNewer (so_chainUpdatedLedger r) ledger = true ->
  cu_ledger u = Some ledger -> BigInt (default (so_bondAmount r) (cu_bondAmount u)) <> None ->
  let s' := persisted (apply_chain u now r) s in advances ledger s s' /\ covered a ledger s'.
Proof.
  intros Hok Hg Hnew Hl Hb s'. destruct (Hok _ _ Hg) as [Ha _]. apply persisted_advances; try done.
  - simpl. by rewrite Hl.
  - intros r0 Hr0. rewrite Hg in Hr0. by injection Hr0 as <-.
Qed.

Lemma write_effect ledger now a r u k s : records_ok s -> get a (sv_store s) = Some r -> isNewer (so_chainUpdatedLedger r) ledger = true ->
  cu_ledger u = Some ledger -> BigInt (default (so_bondAmount r) (cu_bondAmount u)) <> None ->
  let s' := persisted (apply_chain u now r) s in advances ledger s s' /\ settles ledger k a s s'.
Proof. intros. edestruct write_covers; [..|split; [eassumption|by left]]; done. Qed.

Lemma create_effect ledger a r k s : records_ok s -> get a (sv_store s) = None -> so_address r = a -> BigInt (so_bondAmount r) <> None ->
  so_chainUpdatedLedger r = Some ledger -> advances ledger s (persisted r s) /\ settles ledger k a s (persisted r s).
Proof.
  intros Hok Hg Ha Hb Hl. destruct (persisted_advances a ledger r s) as [H1 H2]; try done; [congruence|]. split; [done|by left].
Qed.

Lemma old_effect ledger a r k s : records_ok s -> get a (sv_store s) = Some r -> isNewer (so_chainUpdatedLedger r) ledger = false ->
  advances ledger s s /\ settles ledger k a s s.
Proof.
  intros Hok Hg Hn. split; [by apply advances_refl|left]. unfold isNewer in Hn. destruct (so_chainUpdatedLedger r) as [l|] eqn:El; [|done].
  exists r, l. split_and!; [done|done|]. apply Z.ltb_ge in Hn. lia.
Qed.

Lemma run_big {A} v (k : Z -> PM A) w z : BigInt v = Some z -> run (pbind k (big v)) w = run (k z) w.
Proof. intros H. unfold big. by rewrite H. Qed.

Lemma run_then {A} (p : PM unit) (q : PM A) w w' : run p w = (Ok tt, w') -> run (p;;; q) w = run q w'.
Proof. intros H. by rewrite run_pbind, H. Qed.

Lemma notify_solvers a w : rp_solvers (run (notify a) w).2 = rp_solvers w.
Proof. done. Qed.

Section effects.
Context (ledger now : Z) (topic : list jsval) (w : Projection) (a : string).
Hypothesis (Hok : records_ok (rp_solvers w)) (Ha : required (topic_at topic 1) = Some a).
Notation s := (rp_solvers w).
Notation after p := (rp_solvers (run p w).2).

Lemma registered_effect : let s' := after (handleSolverRegistered ledger now topic) in advances ledger s s' /\ settles ledger KRegistered a s s'.
Proof using Hok Ha.
  unfold handleSolverRegistered. rewrite run_require, Ha. cbv zeta. rewrite run_findByAddress.
  destruct (get a (sv_store s)) as [r|] eqn:Eg.
  - destruct (isNewer (so_chainUpdatedLedger r) ledger) eqn:En; simpl negb; cbv iota; [|by apply (old_effect _ _ r)].
    rewrite (run_chain_write _ _ _ _ r) by done. eapply write_effect; try done. apply BigInt_amount.
  - destruct (run_create a (toAmountString (topic_at topic 2) "0") ledger now w) as (r & -> & Hra & Hrb & Hrl).
    apply create_effect; try done. rewrite Hrb. apply BigInt_amount.
Qed.

Lemma deposited_effect : let s' := after (handleBondDeposited ledger now topic) in advances ledger s s' /\ settles ledger KDeposited a s s'.
Proof using Hok Ha.
  unfold handleBondDeposited. rewrite run_require, Ha. cbv zeta. rewrite run_findByAddress.
  destruct (BigInt (toAmountString (topic_at topic 2) "0")) as [deposit|] eqn:Ed; [|by destruct (BigInt_amount _ Ed)].
  destruct (get a (sv_store s)) as [r|] eqn:Eg.
  - destruct (isNewer (so_chainUpdatedLedger r) ledger) eqn:En; simpl negb; cbv iota; [|by apply (old_effect _ _ r)].
    destruct (BigInt (so_bondAmount r)) as [bond|] eqn:Eb; [|by destruct (Hok _ _ Eg)].
    rewrite (run_big _ _ _ _ Eb), (run_big _ _ _ _ Ed). erewrite run_then by (by apply run_chain_write). rewrite notify_solvers.
    eapply write_effect; try done. simpl. by rewrite BigInt_toString.
  - rewrite (run_big _ _ _ _ Ed). destruct (run_create a (toString (0 + deposit)) ledger now w) as (r & Hrun & Hra & Hrb & Hrl).
    erewrite run_then by exact Hrun. rewrite notify_solvers. apply create_effect; try done. rewrite Hrb. by rewrite BigInt_toString.
Qed.

Lemma withdrawn_effect : let s' := after (handleBondWithdrawn ledger now topic) in advances ledger s s' /\ settles ledger KWithdrawn a s s'.
Proof using Hok Ha.
  unfold handleBondWithdrawn. rewrite run_require, Ha. cbv zeta. rewrite run_findByAddress.
  destruct (BigInt (toAmountString (topic_at topic 2) "0")) as [amount|] eqn:Ed; [|by destruct (BigInt_amount _ Ed)].
  destruct (get a (sv_store s)) as [r|] eqn:Eg; [|split; [by apply advances_refl|right; split_and!; done]].
  destruct (isNewer (so_chainUpdatedLedger r) ledger) eqn:En; simpl negb; cbv iota; [|by apply (old_effect _ _ r)].
  destruct (BigInt (so_bondAmount r)) as [bond|] eqn:Eb; [|by destruct (Hok _ _ Eg)].
  rewrite (run_big _ _ _ _ Eb), (run_big _ _ _ _ Ed). erewrite run_then by (by apply run_chain_write). rewrite notify_solvers.
  eapply write_effect; try done. simpl. by rewrite BigInt_toString.
Qed.

Lemma deactivated_effect : let s' := after (handleSolverDeactivated ledger now topic) in advances ledger s s' /\ settles ledger KDeactivated a s s'.
Proof using Hok Ha.
  unfold handleSolverDeactivated. rewrite run_require, Ha. cbv zeta. rewrite run_findByAddress.
  destruct (get a (sv_store s)) as [r|] eqn:Eg; [|split; [by apply advances_refl|right; split_and!; done]].
  destruct (isNewer (so_chainUpdatedLedger r) ledger) eqn:En; simpl negb; cbv iota; [|by apply (old_effect _ _ r)].
  erewrite run_then by (by apply run_chain_write). rewrite notify_solvers. eapply write_effect; try done. by destruct (Hok _ _ Eg).
Qed.

Lemma slashed_effect id : required (topic_at topic 2) = Some id ->
  let s' := after (handleSlashEvent ledger now topic) in advances ledger s s' /\ settles ledger KSlashed a s s'.
Proof using Hok Ha.
  intros Hid. unfold handleSlashEvent. rewrite run_require, Ha, run_require, Hid. cbv zeta. rewrite run_findByAddress.
  set (amount := toAmountString (topic_at topic 3) "0").
  destruct (confirm_advances id amount ledger s Hok (BigInt_amount _)) as ((o & Ho) & Hadv & Hnone & Hsome).
  assert (Hrun : run (solvers_do (confirmPenalty id amount)) w = (Ok o, put_projected (run (confirmPenalty id amount) s).2 w))
    by (by rewrite run_solvers_do, Ho).
  destruct (get a (sv_store s)) as [r|] eqn:Eg.
  - destruct (isNewer (so_chainUpdatedLedger r) ledger) eqn:En; simpl negb; cbv iota; [|by apply (old_effect _ _ r)].
    rewrite run_pbind, Hrun. destruct (Hsome a r Eg) as (r1 & Hg1 & Hl1).
    erewrite run_then by (apply run_chain_write; exact Hg1). rewrite notify_solvers. simpl.
    destruct (write_covers ledger now a r1 (chain_update None None ledger) (run (confirmPenalty id amount) s).2) as [(H1 & H2 & H3) H4];
      [apply Hadv|done|by rewrite Hl1|done|by apply (proj1 Hadv) in Hg1 as [_ ?]|].
    split; [|by left]. destruct Hadv as (_ & A2 & A3). split_and!; [done|by auto|].
    intros b Hb. destruct (A3 b Hb) as [Hc|Hc]; [auto|right; auto].
  - rewrite run_pbind, Hrun. rewrite notify_solvers. simpl. split; [done|right]. split_and!; [by apply Hnone|done|done|done].
Qed.
End effects.

Lemma event_effect ledger now topic w : records_ok (rp_solvers w) ->
  let s' := rp_solvers (run (project_event ledger now topic) w).2 in
  advances ledger (rp_solvers w) s' /\
  match classify topic with Some (k, a) => settles ledger k a (rp_solvers w) s' | None => s' = rp_solvers w end.
Proof.
  intros Hok. rewrite project_event_kind. unfold classify. destruct (topic_at topic 0) as [| |name| | | |]; try by split; [apply advances_refl|].
  destruct (kind_of name) as [k|]; [|by split; [apply advances_refl|]]. simpl.
  destruct (required (topic_at topic 1)) as [a|] eqn:Ea; simpl.
  - destruct k; simpl; [by apply registered_effect|by apply deposited_effect|by apply withdrawn_effect| |by apply deactivated_effect].
    destruct (required (topic_at topic 2)) as [id|] eqn:E2; simpl; [by eapply slashed_effect|].
    unfold handleSlashEvent. rewrite run_require, Ea, run_require, E2. by split; [apply advances_refl|].
  - destruct k; simpl; unfold handleSolverRegistered, handleBondDeposited, handleBondWithdrawn, handleSlashEvent, handleSolverDeactivated;
      rewrite run_require, Ea; by split; [apply advances_refl|].
Qed.

(** A withdrawal or a deactivation of an unknown solver changes no record. *)
Lemma unknown_is_ignored ledger now topic k a w : classify topic = Some (k, a) -> k = KWithdrawn \/ k = KDeactivated ->
  get a (sv_store (rp_solvers w)) = None -> rp_solvers (run (project_event ledger now topic) w).2 = rp_solvers w.
Proof.
  rewrite project_event_kind. unfold classify. destruct (topic_at topic 0) as [| |name| | | |]; try done.
  destruct (kind_of name) as [k'|]; [|done]. simpl. destruct (required (topic_at topic 1)) as [a'|] eqn:Ea; [|done]. simpl.
  intros Hc Hk Hg. destruct k'; simpl in Hc; try (destruct (required (topic_at topic 2)); [|done]; simpl in Hc); injection Hc as <- <-;
    destruct Hk as [Hk|Hk]; try done; simpl; unfold handleBondWithdrawn, handleSolverDeactivated; rewrite run_require, Ea, run_findByAddress, Hg; done.
Qed.

(** * Streams *)

Definition stream : Type := list (Z * Z * list jsval).

Definition project_stream (es : stream) (w : Projection) : Projection :=
  foldl (fun w e => (run (pcatch (fun _ => Done tt) (project_event e.1.1 e.1.2 e.2)) w).2) w es.

Lemma run_caught ledger now topic w :
  (run (pcatch (fun _ => Done tt) (project_event ledger now topic)) w).2 = (run (project_event ledger now topic) w).2.
Proof. rewrite run_pcatch. by destruct (run _ w) as [[] w']. Qed.

(** What remains true of an event of the past. *)
Definition past (ledger : Z) (k : event_kind) (a : string) (s : SolverState) : Prop :=
  covered a ledger s \/ (get a (sv_store s) = None /\ k <> KRegistered /\ k <> KDeposited).

Lemma past_advances l l' k a s s' : past l k a s -> advances l' s s' -> l <= l' -> past l k a s'.
Proof.
  intros [Hc|(Hn & H1 & H2)] (_ & A2 & A3) Hle; [left; auto|]. destruct (A3 a Hn) as [Hn'|(r & m & Hg & Hr & Hm)]; [by right|left].
  exists r, m. split_and!; [done|done|lia].
Qed.

Lemma stream_past es w : records_ok (rp_solvers w) -> StronglySorted (fun x y => x.1.1 <= y.1.1) es ->
  let s' := rp_solvers (project_stream es w) in
  records_ok s' /\ (forall l k a, Forall (fun e => l <= e.1.1) es -> past l k a (rp_solvers w) -> past l k a s') /\
  (forall ledger now topic k a, (ledger, now, topic) ∈ es -> classify topic = Some (k, a) -> past ledger k a s').
Proof.
  revert w. induction es as [|[[ledger now] topic] es IH]; intros w Hok Hs; simpl.
  { split_and!; [done|done|]. intros ????? H. by apply not_elem_of_nil in H. }
  rewrite run_caught. apply StronglySorted_inv in Hs as [Hs Hall]. simpl in Hall.
  destruct (event_effect ledger now topic w Hok) as [Hadv Hset]. set (w1 := (run (project_event ledger now topic) w).2) in *.
  destruct (IH w1 (proj1 Hadv) Hs) as (H1 & H2 & H3). split_and!; [done|..].
  - intros l k a Hl Hp. apply Forall_cons in Hl as [Hl Hls]. simpl in Hl. apply H2; [done|]. by eapply past_advances.
  - intros ledger' now' topic' k a [Heq|Hin]%elem_of_cons Hc; [|eauto]. injection Heq as -> -> ->. rewrite Hc in Hset.
    apply H2; [done|]. destruct Hset as [Hcov|(Hn & Hk1 & Hk2 & _)]; [by left|right; auto].
Qed.

Lemma replay_keeps es w : (forall ledger now topic k a, (ledger, now, topic) ∈ es -> classify topic = Some (k, a) ->
    covered a ledger (rp_solvers w) \/ (get a (sv_store (rp_solvers w)) = None /\ (k = KWithdrawn \/ k = KDeactivated))) ->
  records_ok (rp_solvers w) -> rp_solvers (project_stream es w) = rp_solvers w.
Proof.
  revert w. induction es as [|[[ledger now] topic] es IH]; intros w Hp Hok; simpl; [done|]. rewrite run_caught.
  assert (Hsame : rp_solvers (run (project_event ledger now topic) w).2 = rp_solvers w).
  { destruct (classify topic) as [[k a]|] eqn:Ec.
    - destruct (Hp ledger now topic k a (list_elem_of_here _ _) Ec) as [Hc|[Hn Hk]].
      + by rewrite (covered_is_skipped _ _ _ k a).
      + by eapply unknown_is_ignored.
    - destruct (event_effect ledger now topic w Hok) as [_ He]. by rewrite Ec in He. }
  change (rp_solvers (project_stream es (run (project_event ledger now topic) w).2) = rp_solvers w).
  rewrite IH; [done|..]; rewrite Hsame; [|done]. intros. eapply Hp; [by right|done].
Qed.

(** * Theorems *)

(** C30. The projection is replayable: after a stream of registry events in ledger
    order, projecting the same stream again leaves every solver record,
    penalty and counter as it is, provided the solvers it slashes are known by
    its end.  The records stay at their addresses with integer bonds. *)
Theorem registry_replay_is_idempotent es w :
  records_ok (rp_solvers w) -> StronglySorted (fun x y => x.1.1 <= y.1.1) es ->
  (forall ledger now topic a, (ledger, now, topic) ∈ es -> classify topic = Some (KSlashed, a) ->
     get a (sv_store (rp_solvers (project_stream es w))) <> None) ->
  let w1 := project_stream es w in
  rp_solvers (project_stream es w1) = rp_solvers w1 /\ records_ok (rp_solvers w1).
Proof.
  intros Hok Hs Hsl w1. destruct (stream_past es w Hok Hs) as (H1 & _ & H3). split; [|done]. apply replay_keeps; [|done].
  intros ledger now topic k a Hin Hc. destruct (H3 _ _ _ _ _ Hin Hc) as [Hcov|(Hn & Hk1 & Hk2)]; [by left|right].
  split; [done|]. destruct k; try done; [by left| |by right]. by destruct (Hsl _ _ _ _ Hin Hc).
Qed.

Definition empty_projection : Projection :=
  {| rp_solvers := {| sv_store := []; sv_history := []; sv_penalties := []; sv_sequence := 0; sv_invalidations := 0 |};
     rp_seenKeys := []; rp_nextStartLedger := None; rp_notified := [] |}.

Definition registry_stream : stream :=
  [(10, 1, [JString "SolverDeactivated"; JString "GA"]); (10, 1, [JString "SolverRegistered"; JString "GA"; JBigint 500]);
   (11, 2, [JString "BondDeposited"; JString "GA"; JBigint 100]); (12, 3, [JString "BondWithdrawn"; JString "GA"; JBigint 50])].

Lemma registry_replay_is_idempotent_witness :
  let w1 := project_stream registry_stream empty_projection in
  rp_solvers (project_stream registry_stream w1) = rp_solvers w1 /\ records_ok (rp_solvers w1).
Proof.
  apply (registry_replay_is_idempotent registry_stream empty_projection).
  - intros a r H. discriminate H.
  - repeat constructor; simpl; lia.
  - intros ledger now topic a Hin Hc. exfalso. unfold registry_stream in Hin.
    repeat (apply elem_of_cons in Hin as [Hin|Hin]; [by injection Hin as -> -> ->|]). by apply not_elem_of_nil in Hin.
Defined.

(** * Where the code departs from its comments *)

(** Two events of one ledger: the second is taken for a replay, so a solver that
    registers and tops up its bond in one transaction has the first amount. *)
Theorem same_ledger_event_is_dropped :
  let w := project_stream [(10, 1, [JString "SolverRegistered"; JString "GA"; JBigint 500]);
                           (10, 1, [JString "BondDeposited"; JString "GA"; JBigint 100])] empty_projection in
  so_bondAmount <$> get "GA" (sv_store (rp_solvers w)) = Some "500".
Proof. vm_compute. done. Qed.

(** A slash that no penalty was recorded for leaves the bond as it was and
    still moves the record's ledger past the event. *)
Theorem unannounced_slash_keeps_bond :
  let w := project_stream [(10, 1, [JString "SolverRegistered"; JString "GA"; JBigint 500]);
                           (11, 2, [JString "SolverSlashed"; JString "GA"; JString "i1"; JBigint 200])] empty_projection in
  so_bondAmount <$> get "GA" (sv_store (rp_solvers w)) = Some "500" /\
  (get "GA" (sv_store (rp_solvers w)) ≫= so_chainUpdatedLedger) = Some 11.
Proof. vm_compute. done. Qed.
