(* ===== verification/Reconciler.v ===== *)
(** Reconciliation with the settlement contract
    (soroban/reconciler.service.ts).

    Stale open and accepted intents are compared with what the contract says of
    them and repaired through the intents service ([IntentsService]), against
    whatever repository that service runs on.  What the contract answers is a
    parameter; the service's own map of recent updates is an argument. *)
From S2P Require Import Prelude JsMap BigInt IntentTypes StateMachine IntentsRepo Prog IntentsService.
From S2P Require Import ServiceSafety.
From stdpp Require Import relations.
Local Open Scope string_scope.
Local Open Scope list_scope.
Local Open Scope Z_scope.
Local Open Scope prog_scope.

Inductive OnChainIntentState := oc_open | oc_accepted | oc_filled | oc_cancelled | oc_expired | oc_slashed | oc_unknown.
#[export] Instance OnChainIntentState_eq : EqDecision OnChainIntentState.
Proof. solve_decision. Defined.

Definition oc_name (s : OnChainIntentState) : string :=
  match s with
  | oc_open => "open" | oc_accepted => "accepted" | oc_filled => "filled" | oc_cancelled => "cancelled"
  | oc_expired => "expired" | oc_slashed => "slashed" | oc_unknown => "unknown"
  end.

Record OnChainIntent := { oi_solver : option string; oi_state : OnChainIntentState; oi_fillAmount : option Z }.

Inductive DivergenceClass := missing_locally | state_mismatch | solver_mismatch | amount_mismatch.
#[export] Instance DivergenceClass_eq : EqDecision DivergenceClass.
Proof. solve_decision. Defined.

Record DivergenceReport := {
  dr_intentId : string; dr_class : DivergenceClass; dr_localState : IntentState; dr_onChainState : OnChainIntentState;
  dr_localSolver : option string; dr_onChainSolver : option string; dr_localFillAmount : option string;
  dr_onChainFillAmount : option string; dr_repaired : bool; dr_dryRun : bool;
}.

Record ReconcileResult := {
  rr_checkedCount : Z; rr_divergences : list DivergenceReport; rr_repairedCount : Z; rr_skippedCount : Z; rr_dryRun : bool;
}.

Definition DEFAULT_STALE_SECONDS : Z := 300.

(** The amounts are compared unless one is [null]; a local intent without a
    fill has [undefined], which is not. *)
Definition classifyDivergence (local : option Intent) (c : OnChainIntent) : option DivergenceClass :=
  match local with
  | None => Some missing_locally
  | Some local =>
      if truthy_str (oi_solver c) && truthy_str (solver local) &&
         negb (bool_decide (toLowerCase (default "" (solver local)) = toLowerCase (default "" (oi_solver c))))
      then Some solver_mismatch
      else if negb (bool_decide (state_name (state local) = oc_name (oi_state c))) && negb (bool_decide (oi_state c = oc_unknown))
      then Some state_mismatch
      else match oi_fillAmount c with
           | Some a => if negb (bool_decide (fillAmount local = Some (toString a))) then Some amount_mismatch else None
           | None => None
           end
  end.

Definition markIntentUpdated (id : string) (nowMs : Z) (updates : jsmap Z) : jsmap Z := set id (nowMs / 1000) updates.

Definition stale (staleSeconds now : Z) (updates : jsmap Z) (i : Intent) : Prop :=
  staleSeconds < now - default (createdAt i) (get (intentId i) updates).
#[export] Instance stale_dec staleSeconds now updates i : Decision (stale staleSeconds now updates i).
Proof. unfold stale. apply _. Defined.

Definition repair_ctx (reason : string) (metadata : list (string * option MetaValue)) : PartialContext :=
  {| pc_actor := Some "reconciler"; pc_reason := Some reason; pc_metadata := Some (defined metadata); pc_override := None; pc_at := None |}.

Definition state_ctx (c : OnChainIntent) : PartialContext :=
  repair_ctx "reconciler: state_mismatch repair"
    [("onChainState", Some (MStr (oc_name (oi_state c)))); ("onChainSolver", Some (default MNull (MStr <$> oi_solver c)))].

Definition chain_amount (c : OnChainIntent) : string := match oi_fillAmount c with Some a => toString a | None => "0" end.

Section reconciler.
Context {R : Type} `{Hrepo : IntentsRepository R} (env : Env).
Notation M := (prog (World R) ServiceError).

Definition some_result (o : option Intent) : bool := match o with Some _ => true | None => false end.

Definition applyRepair (class : DivergenceClass) (id : string) (c : OnChainIntent) (now : Z) : M bool :=
  match class with
  | state_mismatch =>
      match oi_state c with
      | oc_filled =>
          result <- svc_fillIfAccepted env id (default "" (oi_solver c)) [P_fillAmount (Some (chain_amount c)); P_filledAt (Some now)] now
                      (state_ctx c);
          Done (some_result result)
      | oc_cancelled =>
          result <- svc_cancelIfOpen env id
                      (repair_ctx "reconciler: state_mismatch repair" [("onChainState", Some (MStr (oc_name (oi_state c))))]);
          Done (some_result result)
      | _ => Done false
      end
  | solver_mismatch =>
      result <- svc_acceptIfOpen env id (default "" (oi_solver c)) now
                  (repair_ctx "reconciler: solver_mismatch repair" [("onChainSolver", Some (default MNull (MStr <$> oi_solver c)))]);
      Done (some_result result)
  | missing_locally | amount_mismatch => Done false
  end.

Definition report (i : Intent) (c : OnChainIntent) (class : DivergenceClass) (dryRun repaired : bool) : DivergenceReport :=
  {| dr_intentId := intentId i; dr_class := class; dr_localState := state i; dr_onChainState := oi_state c;
     dr_localSolver := solver i; dr_onChainSolver := oi_solver c; dr_localFillAmount := fillAmount i;
     dr_onChainFillAmount := toString <$> oi_fillAmount c; dr_repaired := repaired; dr_dryRun := dryRun |}.

(** Divergences, repaired and skipped counts so far. *)
Definition tally : Type := list DivergenceReport * Z * Z.

Definition reconcile_one (chain : string -> option OnChainIntent) (dryRun : bool) (now : Z) (acc : tally) (i : Intent) : M tally :=
  let '(divergences, repaired, skipped) := acc in
  match chain (intentId i) with
  | None => Done (divergences, repaired, skipped + 1)
  | Some c =>
      match classifyDivergence (Some i) c with
      | None => Done acc
      | Some class =>
          if dryRun || bool_decide (class = amount_mismatch)
          then Done (divergences ++ [report i c class dryRun false], repaired, skipped)
          else
            ok <- applyRepair class (intentId i) c now;
            Done (divergences ++ [report i c class dryRun ok], if (ok : bool) then repaired + 1 else repaired, skipped)
      end
  end.

Definition reconcile (configured dryRun : bool) (staleSeconds now : Z) (updates : jsmap Z) (chain : string -> option OnChainIntent)
    : M ReconcileResult :=
  if negb configured then
    Done {| rr_checkedCount := 0; rr_divergences := []; rr_repairedCount := 0; rr_skippedCount := 0; rr_dryRun := dryRun |}
  else
    openIntents <- getByState open;
    acceptedIntents <- getByState accepted;
    let candidates := filter (stale staleSeconds now updates) (openIntents ++ acceptedIntents) in
    t <- pfold (reconcile_one chain dryRun now) ([], 0, 0) candidates;
    Done {| rr_checkedCount := Z.of_nat (length candidates); rr_divergences := t.1.1; rr_repairedCount := t.1.2;
            rr_skippedCount := t.2; rr_dryRun := dryRun |}.

(** * What it may write *)

(** An intent moves from [i] to [j] because of what the contract says: filled by
    the contract's solver with the contract's amount, cancelled, handed to the
    contract's solver, or parked after one of these. *)
Definition justified (c : OnChainIntent) (i j : Intent) : Prop :=
  (state i = accepted /\ solver i = Some (default "" (oi_solver c)) /\ oi_state c = oc_filled /\ state j = filled /\
     fillAmount j = Some (chain_amount c)) \/
  (state i = open /\ oi_state c = oc_cancelled /\ state j = cancelled) \/
  (state i = open /\ oi_solver c <> None /\ state j = accepted /\ solver j = oi_solver c) \/
  (exists op, app_step (state i) (PENDING_STATE_BY_OP op) /\ state j = PENDING_STATE_BY_OP op).

Definition chain_step (chain : string -> option OnChainIntent) (w w' : World R) : Prop :=
  forall id, repo_find id (w_repo w') = repo_find id (w_repo w) \/
    exists c i j, chain id = Some c /\ repo_find id (w_repo w) = Some i /\ repo_find id (w_repo w') = Some j /\ justified c i j.

Section safety.
Context (chain : string -> option OnChainIntent).
Notation ok p := (safe (E := ServiceError) (chain_step chain) (fun _ => True) p).

Lemma step_same w w' : w_repo w' = w_repo w -> chain_step chain w w'.
Proof. intros H id. left. by rewrite H. Qed.

Lemma step_write k ev guard apply w out w' c : chain k = Some c ->
  cond_write repo_find k ev guard apply (w_repo w) out -> w_repo w' = out.2 ->
  (forall old v, guard old = true -> justified c old (stamp k v (apply old))) -> chain_step chain w w'.
Proof.
  intros Hc [Hv Hf] Hw Hj id. rewrite Hw, Hf. destruct (out.1) as [u| |]; simpl; [|by left..].
  case_decide as Hk; [|by left]. subst id. symmetry in Hv. apply verdict_written in Hv as (old & Ho & Hg & -> & _).
  right. exists c, old. eexists. split_and!; [done|done|done|]. by apply Hj.
Qed.

Lemma written_id k ev guard apply (r : R) out u : cond_write repo_find k ev guard apply r out -> written out.1 = Some u -> intentId u = k.
Proof.
  intros [Hv _] Hu. destruct (out.1) as [u'| |]; simplify_eq/=. symmetry in Hv. by apply verdict_written in Hv as (old & _ & _ & -> & _).
Qed.

Notation written_at k := (fun res => forall u, written res = Some u -> intentId u = k).

Lemma safe_step_write k ev guard apply (f : R -> MutationResult * R) c : chain k = Some c ->
  (forall r, cond_write repo_find k ev guard apply r (f r)) ->
  (forall old v, guard old = true -> justified c old (stamp k v (apply old))) ->
  safe (E := ServiceError) (chain_step chain) (written_at k) (repo_write f).
Proof.
  intros Hc Hf Hj. constructor.
  - intros w. by eapply step_write.
  - intros w. constructor. intros u. by eapply written_id.
Qed.

Lemma safe_step_record o now k ev guard apply (f : R -> MutationResult * R) c : chain k = Some c ->
  (forall r, cond_write repo_find k ev guard apply r (f r)) ->
  (forall old v, guard old = true -> justified c old (stamp k v (apply old))) ->
  safe (E := ServiceError) (chain_step chain) (written_at k) (withFillRecord env o now f).
Proof.
  intros Hc Hf Hj. constructor.
  - intros w. apply (step_write k ev guard apply w (f (w_repo w)) _ c Hc (Hf _)); [|done].
    destruct (f (w_repo w)) as [[u| |] r'] eqn:E; simpl; [|done..]. by destruct (e_fillLedger env && truthy_str (solver u)).
  - intros w. constructor. intros u Hu. pose proof (Hf (w_repo w)) as Hcw. destruct (f (w_repo w)) as [res r'] eqn:E.
    eapply written_id; [exact Hcw|]. destruct res; simpl in *; [|done..]. by destruct (e_fillLedger env && truthy_str (solver i)).
Qed.

Lemma safe_note f : (forall w, w_repo (f w) = w_repo w) -> ok (modify f).
Proof. intros H. apply safe_modify. intros w. by apply step_same. Qed.

Lemma safe_book plan extra : ok (committed plan extra).
Proof. unfold committed. apply safe_bind; [by apply safe_note|]. intros _. by apply safe_note. Qed.

Lemma safe_look {A} (f : World R -> A) : ok (reads f).
Proof. apply safe_reads. intros w. by apply step_same. Qed.

Lemma safe_pending k op tx c : chain k = Some c -> ok (transitionToOnChainPending env k op tx no_ctx).
Proof.
  intros Hc. unfold transitionToOnChainPending. apply safe_bind; [apply safe_look|]. intros [i|]; [|by constructor].
  unfold plan_transition. destruct (transition _ _ _ _ _) as [plan|] eqn:Ep; [|constructor]. cbn [pbind].
  destruct (transition_ok _ _ _ _ _ _ Ep) as (r & _ & _ & Hf & Ht & _).
  eapply safe_bind_Q.
  - eapply safe_step_write; [exact Hc|intros r'; apply repo_transition_spec|]. intros old v Hg. cbv beta in Hg. bool_norm.
    right. right. right. exists op. rewrite Hg, Hf. split; [by exists (e_clockMs env), (intentId i), (full_ctx "system" None no_ctx), plan|].
    rewrite <- Ht. exact (patch_last_state _ _ _).
  - intros res _. destruct (written res); [|by constructor]. apply safe_bind; [apply safe_book|]. by constructor.
Qed.

Lemma safe_finished i op c : chain (intentId i) = Some c -> ok (finish_write env i op).
Proof.
  intros Hc. unfold finish_write, parkWithBroadcast. destruct (e_onchain env i); [|by constructor].
  apply safe_bind; [|by constructor]. apply safe_bind; [apply safe_look|]. intros tx.
  apply safe_bind; [by eapply safe_pending|]. by constructor.
Qed.

Lemma safe_planned {A} id from to ctx (k : TransitionPlan -> M A) : (forall plan, ok (k plan)) -> ok (pbind k (plan_transition env id from to ctx)).
Proof. intros Hk. unfold plan_transition. destruct (transition _ _ _ _ _); [apply Hk|constructor]. Qed.

Lemma repair_fill id c now : chain id = Some c -> oi_state c = oc_filled ->
  ok (svc_fillIfAccepted env id (default "" (oi_solver c)) [P_fillAmount (Some (chain_amount c)); P_filledAt (Some now)] now (state_ctx c)).
Proof.
  intros Hc Hst. unfold svc_fillIfAccepted. apply safe_planned. intros plan. eapply safe_bind_Q.
  - eapply safe_step_record; [exact Hc|intros r; apply repo_fill_spec|]. intros old v Hg. cbv beta in Hg. bool_norm. left. done.
  - intros res Hres. destruct (written res) as [u|] eqn:Eu; [|by constructor]. apply safe_bind; [apply safe_book|]. intros _.
    eapply safe_finished. by rewrite (Hres u).
Qed.

Lemma repair_cancel id c ctx : chain id = Some c -> oi_state c = oc_cancelled -> ok (svc_cancelIfOpen env id ctx).
Proof.
  intros Hc Hst. unfold svc_cancelIfOpen. apply safe_planned. intros plan. eapply safe_bind_Q.
  - eapply safe_step_write; [exact Hc|intros r; apply repo_cancel_spec|]. intros old v Hg. cbv beta in Hg. bool_norm. right. left. done.
  - intros res Hres. destruct (written res) as [u|] eqn:Eu; [|by constructor]. apply safe_bind; [apply safe_book|]. intros _.
    eapply safe_finished. by rewrite (Hres u).
Qed.

Lemma repair_accept id c now ctx sol : chain id = Some c -> oi_solver c = Some sol -> ok (svc_acceptIfOpen env id sol now ctx).
Proof.
  intros Hc Hsol. unfold svc_acceptIfOpen. apply safe_bind; [apply safe_look|]. intros [i|]; [|by constructor].
  apply safe_planned. intros plan. eapply safe_bind_Q.
  - eapply safe_step_write; [exact Hc|intros r; apply repo_accept_spec|]. intros old v Hg. cbv beta in Hg. bool_norm.
    right. right. left. rewrite Hsol. done.
  - intros res Hres. destruct (written res) as [u|] eqn:Eu; [|by constructor]. apply safe_bind; [apply safe_book|]. intros _.
    apply safe_bind; [by apply safe_note|]. intros _. eapply safe_finished. by rewrite (Hres u).
Qed.

Lemma safe_repair i c class now : chain (intentId i) = Some c -> classifyDivergence (Some i) c = Some class ->
  ok (applyRepair class (intentId i) c now).
Proof.
  intros Hc Hcl. destruct class; unfold applyRepair; [by constructor| | |by constructor].
  - destruct (oi_state c) eqn:Es; [by constructor..| | |by constructor|by constructor|by constructor].
    + apply safe_bind; [by apply repair_fill|]. by constructor.
    + apply safe_bind; [by eapply repair_cancel|]. by constructor.
  - apply safe_bind; [|by constructor]. unfold classifyDivergence in Hcl. destruct (oi_solver c) as [sol|] eqn:Es; [|simpl in Hcl].
    + by eapply repair_accept.
    + simpl in Hcl. repeat case_match; done.
Qed.

Lemma safe_one dryRun now acc i : ok (reconcile_one chain dryRun now acc i).
Proof.
  unfold reconcile_one. destruct acc as [[ds rep] sk]. destruct (chain (intentId i)) as [c|] eqn:Ec; [|by constructor].
  destruct (classifyDivergence (Some i) c) as [class|] eqn:Ecl; [|by constructor]. destruct (_ || _); [by constructor|].
  apply safe_bind; [by apply safe_repair|]. by constructor.
Qed.
End safety.

(** * When a repair goes through *)

Lemma written_iff (find : string -> R -> option Intent) id guard apply (r : R) out : cond_write find id None guard apply r out ->
  some_result (written out.1) = match find id r with Some i => guard i | None => false end.
Proof. intros [Hv _]. rewrite Hv. unfold verdict. destruct (find id r) as [i|]; [|done]. by destruct (guard i). Qed.

(** Plan, write, book, finish: answered by the write's verdict. *)
Lemma run_guarded id from to (tail : Intent -> M (option Intent)) ctx (f : R -> MutationResult * R) write extra w :
  app_stepb from to = true ->
  (exists l, run write w = (Ok (f (w_repo w)).1, set_ledger l (set_repo (f (w_repo w)).2 w)) /\ (written (f (w_repo w)).1 = None -> l = w_ledger w)) ->
  (forall u w1, exists w2, run (tail u) w1 = (Ok (Some u), w2)) ->
  exists o w', run (pbind (fun plan => pbind (fun res =>
      match written res with
      | None => Done None
      | Some u => pbind (fun _ => tail u) (committed plan (extra u))
      end) write) (plan_transition env id from to ctx)) w = (Ok o, w') /\ some_result o = some_result (written (f (w_repo w)).1).
Proof.
  intros Hedge (l & Hw & _) Htail. destruct (plan_ok (R := R) env id from to ctx Hedge) as (plan & -> & _). cbn [pbind]. rewrite run_pbind, Hw.
  destruct (written (f (w_repo w)).1) as [u|]; [|by eexists _, _].
  rewrite run_pbind. simpl. destruct (Htail u (changed (recordTransition plan (extra u) (set_ledger l (set_repo (f (w_repo w)).2 w))))) as [w2 Hw2].
  rewrite Hw2. by eexists _, _.
Qed.

(** The intents a repair can still move, given the local record. *)
Definition repairable (class : DivergenceClass) (c : OnChainIntent) (now : Z) (i : Intent) : bool :=
  match class, oi_state c with
  | state_mismatch, oc_filled =>
      bool_decide (state i = accepted) && bool_decide (solver i = Some (default "" (oi_solver c))) && (now <? deadline i)
  | state_mismatch, oc_cancelled => bool_decide (state i = open)
  | solver_mismatch, _ => bool_decide (state i = open) && (now <? deadline i)
  | _, _ => false
  end.

Lemma repair_result class id c now w : (forall i, e_onchain env i = false) ->
  exists w', run (applyRepair class id c now) w =
    (Ok match repo_find id (w_repo w) with Some i => repairable class c now i | None => false end, w').
Proof.
  intros Hoff.
  assert (Hfin : forall op u w1, exists w2, run (finish_write env u op) w1 = (Ok (Some u), w2)) by (intros; rewrite run_finish_offchain; eauto).
  assert (Hno : forall {A} (a b : A), match repo_find id (w_repo w) with Some _ => a | None => a end = a) by (intros; by destruct (repo_find _ _)).
  destruct class; unfold applyRepair, repairable; [rewrite Hno by exact false; by eexists| | |rewrite Hno by exact false; by eexists].
  - destruct (oi_state c); try (rewrite Hno by exact false; by eexists).
    + unfold svc_fillIfAccepted. edestruct (run_guarded id accepted filled (fun u => finish_write env u op_fill)) as (o & w' & Hrun & Ho);
        [done|apply run_withFillRecord|intros u w1; apply (Hfin op_fill)|].
      rewrite run_pbind, Hrun. eexists. simpl. rewrite Ho, (written_iff repo_find id _ _ _ _ (repo_fill_spec _ _ _ _ _ _)). done.
    + unfold svc_cancelIfOpen. edestruct (run_guarded id open cancelled (fun u => finish_write env u op_cancel)) as (o & w' & Hrun & Ho);
        [done|apply run_repo_write|intros u w1; apply (Hfin op_cancel)|].
      rewrite run_pbind, Hrun. eexists. simpl. rewrite Ho, (written_iff repo_find id _ _ _ _ (repo_cancel_spec _ _ _)). done.
  - unfold svc_acceptIfOpen. rewrite run_pbind. rewrite run_pbind, run_find.
    destruct (repo_find id (w_repo w)) as [i|] eqn:Ei; [|by eexists].
    edestruct (run_guarded id open accepted
      (fun u => pbind (fun _ => finish_write env u op_accept) (modify (scheduleFillWindow u)))) as (o & w' & Hrun & Ho);
      [done|apply run_repo_write|intros u w1; rewrite run_pbind; apply (Hfin op_accept)|].
    rewrite Hrun. eexists. simpl. rewrite Ho, (written_iff repo_find id _ _ _ _ (repo_accept_spec _ _ _ _ _ _)), Ei. done.
Qed.
End reconciler.

(** * Theorems *)

(** C25. The reconciler only follows the contract: in any interleaving of
    reconciliation runs, every write to the intents is the fill of an accepted
    intent by the solver and with the amount the contract reports as filled, the
    cancellation of an open intent the contract reports as cancelled, the
    acceptance of an open intent by the contract's solver, or the parking that
    follows one of these along the state machine. *)
Theorem reconcile_follows_chain {R} `{IntentsRepository R} (chain : string -> option OnChainIntent)
    (runs : list (Env * (bool * bool) * (Z * Z) * jsmap Z)) (w w' : World R) ps' :
  rtc pool_step (w, (fun '(env, (configured, dryRun), (staleSeconds, now), updates) =>
                       reconcile env configured dryRun staleSeconds now updates chain) <$> runs) (w', ps') ->
  rtc (chain_step chain) w w'.
Proof.
  intros Hrun. eapply (pool_safe (chain_step chain) (fun _ => True)) in Hrun; [by destruct Hrun|]. simpl.
  apply Forall_fmap, Forall_forall. intros [[[env [configured dryRun]] [staleSeconds now]] updates] _. unfold reconcile. cbv beta iota zeta.
  destruct configured; cbn [negb]; [|by constructor]. apply safe_bind; [apply safe_look|]. intros l1.
  apply safe_bind; [apply safe_look|]. intros l2. apply safe_bind; [|by constructor]. apply safe_fold. intros b i _. apply safe_one.
Qed.

(** A repair run off-chain never throws, and reports success exactly when the
    local record still allows it: a fill while the intent is accepted by the
    contract's solver and not overdue, a cancellation while it is open, a change
    of solver while it is open and not overdue, and nothing else. *)
Theorem repair_succeeds_iff {R} `{IntentsRepository R} env class id c now (w : World R) :
  (forall i, e_onchain env i = false) ->
  exists w', run (applyRepair env class id c now) w =
    (Ok match repo_find id (w_repo w) with Some i => repairable class c now i | None => false end, w').
Proof. apply repair_result. Qed.

(** What the report of a dry run holds. *)
Definition dry_report (chain : string -> option OnChainIntent) (i : Intent) : option DivergenceReport :=
  c ← chain (intentId i); class ← classifyDivergence (Some i) c; Some (report i c class true false).

(** A dry run writes nothing and reports exactly the divergences of the stale
    open and accepted intents, in order. *)
Theorem dry_run_reports_only {R} `{IntentsRepository R} env staleSeconds now updates chain (w : World R) :
  let candidates := filter (stale staleSeconds now updates)
    (filter (fun i => state i = open) (repo_list (w_repo w)) ++ filter (fun i => state i = accepted) (repo_list (w_repo w))) in
  exists r, run (reconcile env true true staleSeconds now updates chain) w = (Ok r, w) /\
    rr_divergences r = omap (dry_report chain) candidates /\ rr_repairedCount r = 0 /\
    rr_checkedCount r = Z.of_nat (length candidates) /\
    rr_skippedCount r = Z.of_nat (length (filter (fun i => chain (intentId i) = None) candidates)).
Proof.
  intros candidates. unfold reconcile. cbn [negb]. rewrite run_pbind. simpl. rewrite run_pbind. fold candidates.
  assert (Hfold : forall l acc, run (pfold (reconcile_one env chain true now) acc l) w =
    (Ok (acc.1.1 ++ omap (dry_report chain) l, acc.1.2, acc.2 + Z.of_nat (length (filter (fun i => chain (intentId i) = None) l))), w)).
  { induction l as [|i l IH]; intros [[ds rep] sk]; cbn [pfold]; [simpl; by rewrite app_nil_r, Z.add_0_r|].
    rewrite run_pbind. unfold reconcile_one at 1. cbn [omap list_omap]. unfold dry_report at 1. rewrite filter_cons.
    destruct (chain (intentId i)) as [c|]; cbn [mbind option_bind].
    - rewrite decide_False by done. destruct (classifyDivergence (Some i) c) as [class|]; cbn [orb run mbind option_bind]; rewrite IH;
        cbn [fst snd]; [by rewrite <- app_assoc|done].
    - rewrite decide_True by done. cbn [run]. rewrite IH. cbn [fst snd length]. do 3 f_equal. lia. }
  rewrite Hfold. simpl. eexists. split; [reflexivity|]. by split_and!.
Qed.

Lemma reconcile_follows_chain_witness :
  let chain := fun id => if bool_decide (id = "i1") then Some {| oi_solver := None; oi_state := oc_cancelled; oi_fillAmount := None |} else None in
  let w' := (run (reconcile demo_env true false 300 5000 [] chain) demo_world).2 in
  state <$> repo_find "i1" (w_repo w') = Some cancelled /\ rtc (chain_step chain) demo_world w'.
Proof.
  split; [vm_compute; reflexivity|].
  apply (reconcile_follows_chain (R := InMemoryRepo) _ [(demo_env, (true, false), (300, 5000), [])] demo_world _ (schedule (repeat 0%nat 8) demo_world
    [reconcile demo_env true false 300 5000 [] (fun id => if bool_decide (id = "i1") then Some {| oi_solver := None; oi_state := oc_cancelled; oi_fillAmount := None |} else None)]).2).
  exact (schedule_steps (repeat 0%nat 8) _ _).
Defined.

Lemma repair_succeeds_iff_witness : exists w',
  run (applyRepair demo_env state_mismatch "i1" {| oi_solver := None; oi_state := oc_cancelled; oi_fillAmount := None |} 2000) demo_world = (Ok true, w').
Proof.
  destruct (repair_succeeds_iff demo_env state_mismatch "i1" {| oi_solver := None; oi_state := oc_cancelled; oi_fillAmount := None |}
    2000 demo_world) as [w' Hw]; [done|]. exists w'. etransitivity; [exact Hw|]. f_equal.
Defined.

(** * Divergences that stay *)

(** An open intent the contract holds as accepted or filled is reported on every
    run and never repaired: there is no handler for the first, and the second
    asks for a local acceptance that was missed too. *)
Theorem missed_accept_is_never_repaired c now (i : Intent) :
  state i = open -> solver i = None -> oi_state c = oc_accepted \/ oi_state c = oc_filled ->
  classifyDivergence (Some i) c = Some state_mismatch /\ repairable state_mismatch c now i = false.
Proof.
  intros Hs Hsol Hc. unfold classifyDivergence, repairable. rewrite Hs, Hsol, andb_false_r. by destruct Hc as [-> | ->].
Qed.

(** A fill the contract holds is not copied once the local deadline has passed. *)
Theorem late_fill_is_never_repaired c now (i : Intent) :
  oi_state c = oc_filled -> deadline i <= now -> repairable state_mismatch c now i = false.
Proof. intros Hc Hd. unfold repairable. rewrite Hc, (proj2 (Z.ltb_ge _ _) Hd). apply andb_false_r. Qed.

(** An accepted intent held by another solver on the contract is reported and
    never repaired: the repair only accepts open intents, which have no solver. *)
Theorem solver_mismatch_is_never_repaired c now (i : Intent) :
  state i = accepted -> repairable solver_mismatch c now i = false.
Proof. intros Hs. unfold repairable. rewrite Hs. by destruct (oi_state c). Qed.

(** An intent that agrees with the contract on state and solver and has no fill
    yet counts as an amount mismatch as soon as the contract gives an amount:
    the guard tests for [null] and the field is [undefined]. *)
Theorem absent_amount_is_a_mismatch c a (i : Intent) :
  state_name (state i) = oc_name (oi_state c) -> solver i = oi_solver c -> fillAmount i = None -> oi_fillAmount c = Some a ->
  classifyDivergence (Some i) c = Some amount_mismatch.
Proof.
  intros Hs Hsol Hf Ha. unfold classifyDivergence. rewrite Hsol, Hf, Ha, Hs. rewrite !(bool_decide_eq_true_2 (_ = _)) by done.
  by rewrite andb_false_r.
Qed.
