(* ===== verification/Disputes.v ===== *)
(** Disputes of slashes (disputes/disputes.service.ts, disputes.repository.ts,
    disputes.types.ts, fill-verifier.service.ts).

    A dispute is filed, reviewed and decided by calls that read, wait and save:
    they are programs over the disputes, the refunds and the solver service
    ([Solvers]), which [rollbackPenalty] changes.  Identifiers and the clock are
    arguments. *)
From S2P Require Import Prelude JsMap BigInt IntentTypes Prog Budget Solvers.
From stdpp Require Import relations.
Local Open Scope string_scope.
Local Open Scope list_scope.
Local Open Scope Z_scope.
Local Open Scope prog_scope.

(** * Data *)

Inductive DisputeStatus := ds_open | ds_under_review | ds_upheld | ds_overturned.
#[export] Instance DisputeStatus_eq : EqDecision DisputeStatus.
Proof. solve_decision. Defined.

Inductive DisputeResolution := dr_upheld | dr_overturned.
#[export] Instance DisputeResolution_eq : EqDecision DisputeResolution.
Proof. solve_decision. Defined.

Definition resolved_status (r : DisputeResolution) : DisputeStatus :=
  match r with dr_upheld => ds_upheld | dr_overturned => ds_overturned end.

Record DisputeEvidence := { ev_txHashes : list string; ev_logs : list string; ev_note : option string }.
Record EvidenceVerification := { ver_verified : bool; ver_reason : string }.

Record Dispute := {
  di_disputeId : string;
  di_slashId : string;
  di_solver : string;
  di_intentId : string;
  di_reason : string;
  di_evidence : DisputeEvidence;
  di_status : DisputeStatus;
  di_submittedAt : Z;
  di_deadline : Z;
  di_autoVerification : EvidenceVerification;
  di_decidedAt : option Z;
  di_decidedBy : option string;
  di_decisionReason : option string;
}.

Record TreasuryRefundRequest := {
  rf_refundId : string;
  rf_disputeId : string;
  rf_solver : string;
  rf_slashId : string;
  rf_amount : option string;
  rf_processed : bool;
  rf_createdAt : Z;
}.

Definition DISPUTE_WINDOW_SECONDS : Z := 7 * 86400.
Definition DISPUTE_SLA_SECONDS : Z := 7 * 86400.

Record SubmitDisputeInput := { in_slashId : string; in_reason : string; in_evidence : DisputeEvidence }.

Record DisputeWorld := {
  dw_solvers : SolverState;
  dw_intents : string -> option Intent;
  dw_disputes : jsmap Dispute;
  dw_refunds : list TreasuryRefundRequest;
}.

Inductive DisputeError :=
  SlashNotFound | NotTheSlashedSolver | DisputeWindowClosed | ActiveDisputeExists | DisputeNotFound
| CannotReview (s : DisputeStatus) | CannotDecide (s : DisputeStatus) | DecisionReasonRequired | DisputeSolver (e : SolverError).

Notation DM := (prog DisputeWorld DisputeError).

(** * Repository *)

Definition put_dispute (d : Dispute) (w : DisputeWorld) : DisputeWorld :=
  {| dw_solvers := dw_solvers w; dw_intents := dw_intents w; dw_disputes := set (di_disputeId d) d (dw_disputes w); dw_refunds := dw_refunds w |}.
Definition put_refund (r : TreasuryRefundRequest) (w : DisputeWorld) : DisputeWorld :=
  {| dw_solvers := dw_solvers w; dw_intents := dw_intents w; dw_disputes := dw_disputes w; dw_refunds := dw_refunds w ++ [r] |}.
Definition put_solvers (s : SolverState) (w : DisputeWorld) : DisputeWorld :=
  {| dw_solvers := s; dw_intents := dw_intents w; dw_disputes := dw_disputes w; dw_refunds := dw_refunds w |}.

Definition active (d : Dispute) : bool := bool_decide (di_status d = ds_open) || bool_decide (di_status d = ds_under_review).

Definition save (d : Dispute) : DM Dispute := modify (put_dispute d);;; Done d.
Definition saveRefund (r : TreasuryRefundRequest) : DM TreasuryRefundRequest := modify (put_refund r);;; Done r.
Definition active_for (slashId : string) (m : jsmap Dispute) : option Dispute :=
  snd <$> list_find (fun d => di_slashId d = slashId /\ active d = true) (values m).
Definition findActiveBySlashId (slashId : string) : DM (option Dispute) := reads (fun w => active_for slashId (dw_disputes w)).
Definition findRefundsBySolver (solver : string) (w : DisputeWorld) : list TreasuryRefundRequest :=
  filter (fun r => rf_solver r = solver) (dw_refunds w).

(** * Automated check of the evidence *)

Definition verify (intentId : string) (txHashes : list string) : DM EvidenceVerification :=
  match txHashes with
  | [] => Done {| ver_verified := false; ver_reason := "no transaction hashes supplied" |}
  | _ =>
      intent <- reads (fun w => dw_intents w intentId);
      match intent with
      | None => Done {| ver_verified := false; ver_reason := "intent not found" |}
      | Some i =>
          if bool_decide (state i = filled) && truthy_str (txHash i) && bool_decide (default "" (txHash i) ∈ txHashes)
          then Done {| ver_verified := true; ver_reason := "evidence tx hash matches the recorded on-chain fill" |}
          else if bool_decide (state i = filled)
          then Done {| ver_verified := false; ver_reason := "fill recorded but no evidence tx hash matches it" |}
          else Done {| ver_verified := false; ver_reason := "intent is not filled (state=" +:+ state_name (state i) +:+ ")" |}
      end
  end.

(** * Service *)

Definition new_dispute (uuid solver : string) (input : SubmitDisputeInput) (slash : SlashRecord) (v : EvidenceVerification) (now : Z) : Dispute := {|
  di_disputeId := uuid; di_slashId := in_slashId input; di_solver := solver; di_intentId := sl_intentId slash;
  di_reason := in_reason input; di_evidence := in_evidence input; di_status := ds_open; di_submittedAt := now;
  di_deadline := now + DISPUTE_SLA_SECONDS; di_autoVerification := v;
  di_decidedAt := None; di_decidedBy := None; di_decisionReason := None |}.

Definition submit (uuid solver : string) (input : SubmitDisputeInput) (now : Z) : DM Dispute :=
  found <- reads (fun w => getSlash (in_slashId input) (dw_solvers w));
  match found with
  | None => Throw SlashNotFound
  | Some slash =>
      if negb (bool_decide (sl_solver slash = solver)) then Throw NotTheSlashedSolver
      else if DISPUTE_WINDOW_SECONDS <? now - sl_timestamp slash then Throw DisputeWindowClosed
      else
        existing <- findActiveBySlashId (in_slashId input);
        match existing with
        | Some _ => Throw ActiveDisputeExists
        | None =>
            v <- verify (sl_intentId slash) (ev_txHashes (in_evidence input));
            save (new_dispute uuid solver input slash v now)
        end
  end.

Definition requireDispute (id : string) : DM Dispute :=
  found <- reads (fun w => get id (dw_disputes w));
  match found with Some d => Done d | None => Throw DisputeNotFound end.

Definition under_review (d : Dispute) : Dispute := {|
  di_disputeId := di_disputeId d; di_slashId := di_slashId d; di_solver := di_solver d; di_intentId := di_intentId d;
  di_reason := di_reason d; di_evidence := di_evidence d; di_status := ds_under_review; di_submittedAt := di_submittedAt d;
  di_deadline := di_deadline d; di_autoVerification := di_autoVerification d;
  di_decidedAt := di_decidedAt d; di_decidedBy := di_decidedBy d; di_decisionReason := di_decisionReason d |}.

Definition review (id : string) : DM Dispute :=
  d <- requireDispute id;
  if negb (bool_decide (di_status d = ds_open)) then Throw (CannotReview (di_status d)) else save (under_review d).

Definition decided (r : DisputeResolution) (reviewer reason : string) (now : Z) (d : Dispute) : Dispute := {|
  di_disputeId := di_disputeId d; di_slashId := di_slashId d; di_solver := di_solver d; di_intentId := di_intentId d;
  di_reason := di_reason d; di_evidence := di_evidence d; di_status := resolved_status r; di_submittedAt := di_submittedAt d;
  di_deadline := di_deadline d; di_autoVerification := di_autoVerification d;
  di_decidedAt := Some now; di_decidedBy := Some reviewer; di_decisionReason := Some reason |}.

Definition refund_of (refundId : string) (d : Dispute) (now : Z) : TreasuryRefundRequest :=
  {| rf_refundId := refundId; rf_disputeId := di_disputeId d; rf_solver := di_solver d; rf_slashId := di_slashId d;
     rf_amount := None; rf_processed := false; rf_createdAt := now |}.

Definition decide_dispute (id : string) (r : DisputeResolution) (reviewer reason refundId : string) (now : Z) : DM Dispute :=
  d <- requireDispute id;
  if negb (bool_decide (di_status d = ds_under_review)) then Throw (CannotDecide (di_status d))
  else if bool_decide (trim reason = "") then Throw DecisionReasonRequired
  else
    (if bool_decide (r = dr_overturned) then
       zoom dw_solvers put_solvers DisputeSolver (rollbackPenalty (di_intentId d) None);;;
       saveRefund (refund_of refundId d now);;;
       Done tt
     else Done tt);;;
    save (decided r reviewer reason now d).

Record DisputeStatistics := {
  st_total : Z; st_open : Z; st_underReview : Z; st_upheld : Z; st_overturned : Z;
  st_overturnRate : Z * Z; st_avgResolutionSeconds : Z; st_withinSla : Z;
}.

Definition count (f : Dispute -> bool) (l : list Dispute) : Z := Z.of_nat (length (filter (fun d => f d = true) l)).
Definition has_status (s : DisputeStatus) (d : Dispute) : bool := bool_decide (di_status d = s).

(** [Math.round] of a quotient; the rate is kept as numerator and denominator. *)
Definition statistics (w : DisputeWorld) : DisputeStatistics :=
  let all := values (dw_disputes w) in
  let ended := filter (fun d => di_decidedAt d <> None) all in
  let n := Z.of_nat (length ended) in
  let total := sumZ (fun d => default 0 (di_decidedAt d) - di_submittedAt d) ended in
  {| st_total := Z.of_nat (length all); st_open := count (has_status ds_open) all; st_underReview := count (has_status ds_under_review) all;
     st_upheld := count (has_status ds_upheld) ended; st_overturned := count (has_status ds_overturned) ended;
     st_overturnRate := if n =? 0 then (0, 1) else (count (has_status ds_overturned) ended, n);
     st_avgResolutionSeconds := if n =? 0 then 0 else (2 * total + n) / (2 * n);
     st_withinSla := count (fun d => default 0 (di_decidedAt d) <=? di_deadline d) ended |}.

(** * Under any interleaving *)

(** A dispute of the slash [h] knows: filed by the slashed solver in time. *)
Definition grounded (s0 : SolverState) (d : Dispute) : Prop :=
  (exists slash, getSlash (di_slashId d) s0 = Some slash /\ sl_solver slash = di_solver d /\ sl_intentId slash = di_intentId d /\
     di_submittedAt d <= sl_timestamp slash + DISPUTE_WINDOW_SECONDS) /\
  di_deadline d = di_submittedAt d + DISPUTE_SLA_SECONDS /\
  match di_status d with
  | ds_open | ds_under_review => di_decidedAt d = None
  | ds_upheld | ds_overturned => di_decidedAt d <> None /\ di_decidedBy d <> None /\ exists why, di_decisionReason d = Some why /\ trim why <> ""
  end.

Definition owed (s0 : SolverState) (r : TreasuryRefundRequest) : Prop :=
  exists slash, getSlash (rf_slashId r) s0 = Some slash /\ sl_solver slash = rf_solver r.

Definition disputes_grounded (s0 : SolverState) (w : DisputeWorld) : Prop :=
  sv_history (dw_solvers w) = sv_history s0 /\ wf (dw_disputes w) /\
  (forall id d, get id (dw_disputes w) = Some d -> di_disputeId d = id /\ grounded s0 d) /\
  forall r, r ∈ dw_refunds w -> owed s0 r.

Lemma rollback_keeps_history id a :
  safe (fun t t' => sv_history t' = sv_history t) (fun _ => True) (rollbackPenalty id a).
Proof.
  assert (Hp : forall r, safe (E := SolverError) (fun t t' => sv_history t' = sv_history t) (fun _ => True) (persist r)).
  { intros r. unfold persist. apply safe_bind; [by apply safe_modify|]. intros _. apply safe_bind; [by apply safe_modify|]. by constructor. }
  unfold rollbackPenalty. apply safe_bind; [by apply safe_reads|]. intros [p|].
  - destruct (negb _); [by constructor|]. apply safe_bind; [by apply safe_reads|]. intros [r|]; [|by constructor].
    apply safe_bind; [apply Hp|]. intros saved. apply safe_bind; [by apply safe_modify|]. by constructor.
  - destruct (truthy_str a); [|by constructor]. unfold modify_solver. apply safe_bind; [by apply safe_reads|].
    intros [r|]; [|by constructor]. apply safe_bind; [apply Hp|]. by constructor.
Qed.

Section interleaved.
Context (s0 : SolverState).
Notation keeps p := (keeps_inv (E := DisputeError) (disputes_grounded s0) (fun _ => True) p).

Lemma keeps_dispute_save d : grounded s0 d -> keeps (save d).
Proof.
  intros Hd. unfold save. eapply inv_bind; [|done]. apply inv_modify. intros w (Hh & Hwf & Hg & Hr).
  split_and!; [done|by apply set_wf| |done]. intros id d'. simpl. rewrite get_set. case_decide as He; [|apply Hg].
  intros Heq. by simplify_eq.
Qed.

Lemma getSlash_fixed id w : disputes_grounded s0 w -> getSlash id (dw_solvers w) = getSlash id s0.
Proof. intros (Hh & _). unfold getSlash. by rewrite Hh. Qed.

Lemma keeps_verify i l : keeps (verify i l).
Proof.
  unfold verify. destruct l; [done|]. eapply inv_bind; [by apply (inv_reads _ _ (fun _ => True))|]. intros [j|] _; [|done].
  repeat case_match; done.
Qed.

Lemma keeps_submit uuid solver input now : keeps (submit uuid solver input now).
Proof.
  unfold submit. eapply inv_bind.
  { apply (inv_reads _ _ (fun o => forall slash, o = Some slash -> getSlash (in_slashId input) s0 = Some slash)).
    intros w Hw slash. by rewrite (getSlash_fixed _ w Hw). }
  intros [slash|] Hs; [|done]. destruct (negb _) eqn:Eso; [done|]. destruct (_ <? _) eqn:Ew; [done|].
  eapply inv_bind; [by apply (inv_reads _ _ (fun _ => True))|]. intros [d|] _; [done|].
  eapply inv_bind; [apply keeps_verify|]. intros v _. apply keeps_dispute_save. bool_norm. split_and!; [|done|done].
  exists slash. split_and!; [by apply Hs|done|done|simpl; lia].
Qed.

Lemma keeps_require {A} id (k : Dispute -> DM A) : (forall d, di_disputeId d = id -> grounded s0 d -> keeps (k d)) ->
  keeps (pbind k (requireDispute id)).
Proof.
  intros Hk. unfold requireDispute. intros w (Hh & Hwf & Hg & Hr). split; [done|]. simpl.
  destruct (get id (dw_disputes w)) as [d|] eqn:Ed; simpl; [|done]. apply Hg in Ed as [? ?]. by apply Hk.
Qed.

Lemma keeps_review id : keeps (review id).
Proof.
  apply keeps_require. intros d Hid (Hf & Hd & Hst). destruct (negb _) eqn:Eo; [done|]. apply keeps_dispute_save. bool_norm.
  rewrite Eo in Hst. by split_and!.
Qed.

Lemma keeps_decide id r reviewer reason refundId now : keeps (decide_dispute id r reviewer reason refundId now).
Proof.
  apply keeps_require. intros d Hid (Hf & Hd & Hst). destruct (negb _) eqn:Eu; [done|]. 
  destruct (bool_decide (trim reason = "")) eqn:Hreason; [done|]. apply bool_decide_eq_false in Hreason.
  eapply (inv_bind _ (fun _ => True)).
  - destruct (bool_decide (r = dr_overturned)); [|done]. eapply (inv_bind _ (fun _ => True)).
    + eapply inv_zoom; [|apply rollback_keeps_history].
      intros w t (Hh & Hwf & Hg & Hr) Ht. split; [|done]. simpl. congruence.
    + intros _ _. eapply (inv_bind _ (fun _ => True)); [|done]. eapply (inv_bind _ (fun _ => True)); [|done]. apply inv_modify. intros w (Hh & Hwf & Hg & Hr).
      split_and!; [done|done|done|]. intros x. simpl. rewrite elem_of_app, list_elem_of_singleton. intros [Hx| ->]; [by apply Hr|].
      destruct Hf as (slash & Hs & Hsol & _). by exists slash.
  - intros _ _. apply keeps_dispute_save. destruct r; (split_and!; [done|done|simpl; split_and!; [done|done|by exists reason]]).
Qed.
End interleaved.

(** * One call after the other *)

Inductive DisputeCall :=
  CSubmit (uuid solver : string) (input : SubmitDisputeInput) (now : Z)
| CReview (id : string)
| CDecide (id : string) (r : DisputeResolution) (reviewer reason refundId : string) (now : Z).

Definition dispute_call (c : DisputeCall) : DM Dispute :=
  match c with
  | CSubmit uuid solver input now => submit uuid solver input now
  | CReview id => review id
  | CDecide id r reviewer reason refundId now => decide_dispute id r reviewer reason refundId now
  end.

Definition after_call (w : DisputeWorld) (c : DisputeCall) : DisputeWorld := (run (dispute_call c) w).2.
Definition call_uuids (c : DisputeCall) : list string := match c with CSubmit uuid _ _ _ => [uuid] | _ => [] end.

(** What a whole call does to disputes and refunds. *)
Inductive dispute_step (fresh : list string) (w w' : DisputeWorld) : Prop :=
  | step_none : dw_disputes w' = dw_disputes w -> dw_refunds w' = dw_refunds w -> dispute_step fresh w w'
  | step_file d : di_disputeId d ∈ fresh -> di_status d = ds_open -> active_for (di_slashId d) (dw_disputes w) = None ->
      dw_disputes w' = set (di_disputeId d) d (dw_disputes w) -> dw_refunds w' = dw_refunds w -> dispute_step fresh w w'
  | step_review id d : get id (dw_disputes w) = Some d -> di_status d = ds_open ->
      dw_disputes w' = set (di_disputeId d) (under_review d) (dw_disputes w) -> dw_refunds w' = dw_refunds w -> dispute_step fresh w w'
  | step_decide id d r reviewer reason refundId now : get id (dw_disputes w) = Some d -> di_status d = ds_under_review ->
      dw_disputes w' = set (di_disputeId d) (decided r reviewer reason now d) (dw_disputes w) ->
      dw_refunds w' = dw_refunds w ++ (if bool_decide (r = dr_overturned) then [refund_of refundId d now] else []) -> dispute_step fresh w w'.

Lemma run_verify i l w : exists v, run (verify i l) w = (Ok v, w).
Proof. unfold verify. destruct l; [by eexists|]. simpl. destruct (dw_intents w i); [|by eexists]. repeat case_match; by eexists. Qed.

Lemma submit_step uuid solver input now w : dispute_step [uuid] w (after_call w (CSubmit uuid solver input now)).
Proof.
  unfold after_call, dispute_call, submit. rewrite run_pbind, run_reads.
  destruct (getSlash _ _) as [slash|]; [|by apply step_none]. destruct (negb _); [by apply step_none|].
  destruct (_ <? _); [by apply step_none|]. unfold findActiveBySlashId. rewrite run_pbind, run_reads.
  destruct (active_for (in_slashId input) (dw_disputes w)) eqn:Ea; [by apply step_none|]. rewrite run_pbind.
  destruct (run_verify (sl_intentId slash) (ev_txHashes (in_evidence input)) w) as [v ->].
  apply (step_file _ _ _ (new_dispute uuid solver input slash v now)); [by left|done|done|done|done].
Qed.

Lemma review_step id w : dispute_step [] w (after_call w (CReview id)).
Proof.
  unfold after_call, dispute_call, review, requireDispute. rewrite !run_pbind, run_reads.
  destruct (get id (dw_disputes w)) as [d|] eqn:Ed; [|by apply step_none]. simpl.
  destruct (negb _) eqn:Eo; [by apply step_none|]. bool_norm. by apply (step_review _ _ _ id d).
Qed.

Lemma run_dispute_rollback id a s : exists o, (run (rollbackPenalty id a) s).1 = Ok o.
Proof.
  unfold rollbackPenalty, modify_solver, persist. simpl. destruct (get id (sv_penalties s)) as [p|]; simpl.
  - destruct (negb _); [by eexists|]. simpl. destruct (get _ _); by eexists.
  - destruct (truthy_str a); [|by eexists]. simpl. destruct (get _ _); by eexists.
Qed.

Lemma decide_step id r reviewer reason refundId now w : dispute_step [] w (after_call w (CDecide id r reviewer reason refundId now)).
Proof.
  unfold after_call, dispute_call, decide_dispute, requireDispute. rewrite !run_pbind, run_reads.
  destruct (get id (dw_disputes w)) as [d|] eqn:Ed; [|by apply step_none]. cbv beta iota.
  change (run (Done d) w) with (@Ok DisputeError _ d, w). cbv beta iota.
  destruct (negb _) eqn:Eo; [by apply step_none|]. destruct (bool_decide (trim reason = "")); [by apply step_none|].
  bool_norm. rewrite run_pbind. destruct (bool_decide (r = dr_overturned)) eqn:Er.
  - rewrite run_pbind, run_zoom by (by intros []). destruct (run_dispute_rollback (di_intentId d) None (dw_solvers w)) as [o ->].
    apply (step_decide _ _ _ id d r reviewer reason refundId now); [done|done|done|by rewrite Er].
  - apply (step_decide _ _ _ id d r reviewer reason refundId now); [done|done|done|]. by rewrite Er, app_nil_r.
Qed.

Lemma call_step w c : dispute_step (call_uuids c) w (after_call w c).
Proof. destruct c; [apply submit_step|apply review_step|apply decide_step]. Qed.

Definition refunds_for (id : string) (l : list TreasuryRefundRequest) : nat := length (filter (fun r => rf_disputeId r = id) l).

(** One active dispute per slash; one refund per overturned dispute, none else. *)
Record disputes_ok (w : DisputeWorld) : Prop := {
  ok_keys : wf (dw_disputes w);
  ok_ids : forall id d, get id (dw_disputes w) = Some d -> di_disputeId d = id;
  ok_active : forall id1 id2 d1 d2, get id1 (dw_disputes w) = Some d1 -> get id2 (dw_disputes w) = Some d2 ->
    active d1 = true -> active d2 = true -> di_slashId d1 = di_slashId d2 -> id1 = id2;
  ok_refunds : forall id d, get id (dw_disputes w) = Some d ->
    refunds_for id (dw_refunds w) = if bool_decide (di_status d = ds_overturned) then 1%nat else 0%nat;
  ok_known : forall id, get id (dw_disputes w) = None -> refunds_for id (dw_refunds w) = 0%nat;
}.

Lemma active_for_None slashId m id d : active_for slashId m = None -> get id m = Some d -> active d = true -> di_slashId d <> slashId.
Proof.
  unfold active_for. intros Hn Hd Ha He. destruct (list_find _ (values m)) as [?|] eqn:Ef; [done|].
  apply list_find_None in Ef. rewrite Forall_forall in Ef. by apply (Ef d (get_values _ _ _ Hd)).
Qed.

(** Replacing the stored dispute [d] by [d'] of the same slash. *)
Lemma replace_ok w w' d d' id : disputes_ok w -> get id (dw_disputes w) = Some d -> di_disputeId d' = di_disputeId d ->
  di_slashId d' = di_slashId d -> (active d' = true -> active d = true) ->
  dw_disputes w' = set (di_disputeId d) d' (dw_disputes w) ->
  (forall k, refunds_for k (dw_refunds w') =
     if decide (k = id) then (if bool_decide (di_status d' = ds_overturned) then 1%nat else 0%nat) else refunds_for k (dw_refunds w)) ->
  disputes_ok w'.
Proof.
  intros [Hk Hi Ha Hr Hn] Hd Hid Hsl Hact Hw Href. pose proof (Hi _ _ Hd) as He. rewrite He in Hw.
  assert (Hg : forall k x, get k (dw_disputes w') = Some x -> (k = id /\ x = d') \/ get k (dw_disputes w) = Some x).
  { intros k x. rewrite Hw, get_set. destruct (decide (id = k)) as [<-|]; [|by intros; right]. intros [= <-]. by left. }
  split.
  - rewrite Hw. by apply set_wf.
  - intros k x [[-> ->]|Hx]%Hg; [congruence|by apply Hi].
  - intros k1 k2 x1 x2 [[-> ->]|H1]%Hg [[-> ->]|H2]%Hg A1 A2 E; [done|eapply (Ha _ _ d x2)|eapply (Ha _ _ x1 d)|by eapply Ha];
      try done; try (by apply Hact); congruence.
  - intros k x Hx. rewrite Href. rewrite Hw, get_set in Hx. destruct (decide (k = id)) as [->|Hne]; [|rewrite decide_False in Hx by done; by apply Hr].
    rewrite decide_True in Hx by done. by simplify_eq.
  - intros k Hx. rewrite Href. rewrite Hw, get_set in Hx. destruct (decide (k = id)) as [->|Hne]; [by rewrite decide_True in Hx|].
    rewrite decide_False in Hx by done. by apply Hn.
Qed.

Lemma refunds_for_app k l r : refunds_for k (l ++ [r]) = (refunds_for k l + if decide (rf_disputeId r = k) then 1 else 0)%nat.
Proof. unfold refunds_for. rewrite filter_app, length_app. f_equal. rewrite filter_cons, filter_nil. by case_decide. Qed.

Lemma dispute_step_ok fresh w w' : disputes_ok w -> (forall u, u ∈ fresh -> get u (dw_disputes w) = None) -> dispute_step fresh w w' -> disputes_ok w'.
Proof.
  intros Hok Hfresh [Hd Hr|d Hin Hs Ha Hd Hr|id d Hg Hs Hd Hr|id d r reviewer reason refundId now Hg Hs Hd Hr].
  - destruct Hok as [? ? ? ? ?]. split; rewrite ?Hd, ?Hr; done.
  - pose proof (Hfresh _ Hin) as Hnew. destruct Hok as [Hk Hi Hact Href Hn]. split; rewrite ?Hd, ?Hr.
    + by apply set_wf.
    + intros k x. rewrite get_set. destruct (decide (di_disputeId d = k)) as [<-|]; [|apply Hi]. by intros [= <-].
    + intros k1 k2 x1 x2. rewrite !get_set.
      destruct (decide (di_disputeId d = k1)) as [<-|E1], (decide (di_disputeId d = k2)) as [<-|E2]; intros G1 G2 A1 A2 E; simplify_eq; [done| | |by eapply Hact].
      * by destruct (active_for_None _ _ _ _ Ha G2 A2).
      * by destruct (active_for_None _ _ _ _ Ha G1 A1).
    + intros k x. rewrite get_set. destruct (decide (di_disputeId d = k)) as [<-|]; [|apply Href]. intros [= <-]. rewrite Hs. by apply Hn.
    + intros k. rewrite get_set. destruct (decide (di_disputeId d = k)); [done|apply Hn].
  - eapply (replace_ok w w' d (under_review d) id); try done; [unfold active; by rewrite Hs|].
    intros k. rewrite Hr. case_decide as E; [|done]. subst. destruct Hok as [_ _ _ Href _]. rewrite (Href _ _ Hg), Hs. done.
  - pose proof (ok_ids w Hok _ _ Hg) as Hid.
    eapply (replace_ok w w' d (decided r reviewer reason now d) id); try done; [unfold active; by destruct r|].
    intros k. rewrite Hr. destruct Hok as [_ _ _ Href _]. pose proof (Href _ _ Hg) as Hz. rewrite Hs in Hz. simpl in Hz.
    destruct r; simpl.
    + rewrite app_nil_r. destruct (decide (k = id)) as [->|]; [exact Hz|done].
    + rewrite refunds_for_app. cbn [rf_disputeId refund_of]. rewrite Hid. destruct (decide (k = id)) as [->|]; [by rewrite decide_True, Hz|].
      rewrite decide_False by done. lia.
Qed.

(** A dispute that was decided stays as it is, one that exists stays. *)
Lemma step_final fresh w w' id d : disputes_ok w -> (forall u, u ∈ fresh -> get u (dw_disputes w) = None) -> dispute_step fresh w w' ->
  get id (dw_disputes w) = Some d -> active d = false -> get id (dw_disputes w') = Some d.
Proof.
  intros Hok Hfresh Hst Hd Ha.
  assert (Hkeep : forall k x x', get k (dw_disputes w) = Some x -> active x = true -> dw_disputes w' = set (di_disputeId x) x' (dw_disputes w) ->
    get id (dw_disputes w') = Some d).
  { intros k x x' Hx Hax ->. rewrite get_set_ne; [done|]. intros E. rewrite (ok_ids w Hok _ _ Hx) in E. subst. congruence. }
  destruct Hst as [Hw _|x Hin Hs _ Hw _|k x Hg Hs Hw _|k x r ? ? ? ? Hg Hs Hw _].
  - by rewrite Hw.
  - rewrite Hw, get_set_ne; [done|]. intros E. apply Hfresh in Hin. congruence.
  - eapply Hkeep; [exact Hg|unfold active; by rewrite Hs|exact Hw].
  - eapply Hkeep; [exact Hg|unfold active; by rewrite Hs|exact Hw].
Qed.

Lemma step_keys fresh w w' u : dispute_step fresh w w' -> disputes_ok w -> get u (dw_disputes w) = None -> u ∉ fresh -> get u (dw_disputes w') = None.
Proof.
  intros [Hw _|d Hin _ _ Hw _|id d Hg _ Hw _|id d r ? ? ? ? Hg _ Hw _] Hok Hu Hn; rewrite Hw; [done|rewrite get_set_ne; [done|set_solver]| |];
    (rewrite get_set_ne; [done|]; rewrite (ok_ids w Hok _ _ Hg); congruence).
Qed.

(** Identifiers of the calls are new and distinct. *)
Definition fresh_uuids (w : DisputeWorld) (calls : list DisputeCall) : Prop :=
  NoDup (calls ≫= call_uuids) /\ forall u, u ∈ calls ≫= call_uuids -> get u (dw_disputes w) = None.

Lemma calls_ok calls w : disputes_ok w -> fresh_uuids w calls ->
  disputes_ok (foldl after_call w calls) /\
  forall id d, get id (dw_disputes w) = Some d -> active d = false -> get id (dw_disputes (foldl after_call w calls)) = Some d.
Proof.
  revert w. induction calls as [|c calls IH]; intros w Hok [Hnd Hf]; [done|]. cbn [foldl].
  pose proof (call_step w c) as Hst. rewrite bind_cons in Hnd, Hf. apply NoDup_app in Hnd as (_ & Hdis & Hnd).
  assert (Hc : forall u, u ∈ call_uuids c -> get u (dw_disputes w) = None) by (intros; apply Hf, elem_of_app; by left).
  destruct (IH (after_call w c)) as [IH1 IH2].
  - by eapply dispute_step_ok.
  - split; [done|]. intros u Hu. eapply step_keys; [exact Hst|done|apply Hf, elem_of_app; by right|]. intros Hin. by apply (Hdis u).
  - split; [done|]. intros id d Hd Ha. apply IH2; [|done]. exact (step_final _ w _ id d Hok Hc Hst Hd Ha).
Qed.

(** * Theorems *)

Lemma count_cons f d l : count f (d :: l) = (if f d then 1 else 0) + count f l.
Proof. unfold count. rewrite filter_cons. case_decide as E; destruct (f d); try done; simpl length; lia. Qed.

(** Whatever calls interleave, at every moment: each dispute contests an actual
    slash, was filed by the slashed solver within its window and carries a
    decision with reviewer and reason exactly when it is decided; each refund
    is owed to a slashed solver; and the statistics count every dispute in
    exactly one status. *)
Theorem disputes_stay_grounded w w' calls ps' :
  disputes_grounded (dw_solvers w) w -> rtc pool_step (w, dispute_call <$> calls) (w', ps') ->
  disputes_grounded (dw_solvers w) w' /\
  let s := statistics w' in st_total s = st_open s + st_underReview s + st_upheld s + st_overturned s.
Proof.
  intros Hw Hrun. eapply (pool_inv (disputes_grounded (dw_solvers w)) (fun _ => True)) in Hrun as [Hw' _]; [|done|]; last first.
  { apply Forall_fmap, Forall_forall. intros [uuid solver input now|id|id r reviewer reason refundId now] _;
      [apply keeps_submit|apply keeps_review|apply keeps_decide]. }
  simpl in Hw'. split; [done|]. unfold statistics. simpl.
  assert (Hall : forall d, d ∈ values (dw_disputes w') -> grounded (dw_solvers w) d).
  { intros d Hd. destruct Hw' as (_ & Hwf & Hg & _). apply values_get in Hd as [k Hk]; [|done]. by apply Hg in Hk as [_ ?]. }
  clear Hw'. induction (values (dw_disputes w')) as [|d l IH]; [done|]. cbn [length]. rewrite Nat2Z.inj_succ, !count_cons, filter_cons.
  rewrite IH by (intros; apply Hall; by right). destruct (Hall d) as (_ & _ & Hst); [by left|]. unfold has_status.
  destruct (di_status d) eqn:Es; [rewrite decide_False by (rewrite Hst; naive_solver); simpl; lia..| |];
    (destruct Hst as [Hat _]; rewrite decide_True by done; rewrite !count_cons, Es; simpl; lia).
Qed.

(** Calls that do not overlap: a slash never has two active disputes, a decided
    dispute never changes again, and every overturned dispute has exactly one
    refund, no other dispute any. *)
Theorem serial_disputes_settle_once calls w : disputes_ok w -> fresh_uuids w calls ->
  disputes_ok (foldl after_call w calls) /\
  forall id d, get id (dw_disputes w) = Some d -> active d = false -> get id (dw_disputes (foldl after_call w calls)) = Some d.
Proof. apply calls_ok. Qed.

(** * Concrete runs *)

(** A solver with one missed fill, slashed for it at time 20. *)
Definition slashed_world (confirmed : bool) : DisputeWorld :=
  let s1 := (run (recordFailedFill "GS" "i1" 20) demo_solvers).2 in
  let s2 := if confirmed then (run (confirmPenalty "i1" "300") s1).2 else s1 in
  {| dw_solvers := (run (recordSlash "GS" "i1" "missed fill" 20) s2).2; dw_intents := fun _ => None; dw_disputes := []; dw_refunds := [] |}.

Definition appeal : SubmitDisputeInput :=
  {| in_slashId := "slash-1"; in_reason := "the fill landed"; in_evidence := {| ev_txHashes := ["aa"]; ev_logs := []; ev_note := None |} |}.
Definition file_call (uuid : string) : DisputeCall := CSubmit uuid "GS" appeal 100.
Definition overturn_call (refundId : string) : DisputeCall := CDecide "d1" dr_overturned "R" "evidence accepted" refundId 200.

Lemma empty_disputes_ok w : dw_disputes w = [] -> dw_refunds w = [] -> disputes_ok w /\ disputes_grounded (dw_solvers w) w.
Proof. intros Hd Hr. split; [split|split_and!]; rewrite ?Hd, ?Hr; try done; try constructor. intros r Hr'. by apply elem_of_nil in Hr'. Qed.

Lemma disputes_stay_grounded_witness :
  let w := slashed_world false in
  let w' := (schedule (repeat 0%nat 9) w (dispute_call <$> [file_call "d1"])).1 in
  di_status <$> get "d1" (dw_disputes w') = Some ds_open /\ disputes_grounded (dw_solvers w) w'.
Proof.
  split; [vm_compute; reflexivity|].
  apply (disputes_stay_grounded (slashed_world false) _ [file_call "d1"]
    (schedule (repeat 0%nat 9) (slashed_world false) (dispute_call <$> [file_call "d1"])).2).
  - by apply empty_disputes_ok.
  - exact (schedule_steps (repeat 0%nat 9) _ _).
Defined.

Lemma serial_disputes_settle_once_witness :
  let w' := foldl after_call (slashed_world false) [file_call "d1"; file_call "d2"; CReview "d1"; overturn_call "r1"; overturn_call "r2"] in
  disputes_ok w' /\ length (dw_refunds w') = 1%nat.
Proof.
  split; [|vm_compute; reflexivity].
  apply (serial_disputes_settle_once [file_call "d1"; file_call "d2"; CReview "d1"; overturn_call "r1"; overturn_call "r2"]).
  - by apply empty_disputes_ok.
  - split; [by apply (bool_decide_unpack _); vm_compute|done].
Defined.

(** * Where overlapping calls break the promises *)

(** Two submissions look for an active dispute before either is saved: both are
    filed, against the same slash. *)
Theorem concurrent_submits_both_stand :
  let w' := (schedule [0; 1; 0; 1; 0; 1; 0; 1]%nat (slashed_world false) (dispute_call <$> [file_call "d1"; file_call "d2"])).1 in
  (fun d => (di_slashId d, di_status d)) <$> values (dw_disputes w') = [("slash-1", ds_open); ("slash-1", ds_open)].
Proof. vm_compute. reflexivity. Qed.

(** Two reviewers who overturn at the same time: two refunds of one slash. *)
Theorem concurrent_decisions_refund_twice :
  let w := foldl after_call (slashed_world false) [file_call "d1"; CReview "d1"] in
  let w' := (schedule (concat (repeat [0; 1]%nat 9)) w (dispute_call <$> [overturn_call "r1"; overturn_call "r2"])).1 in
  (fun r => (rf_refundId r, rf_slashId r)) <$> dw_refunds w' = [("r1", "slash-1"); ("r2", "slash-1")].
Proof. vm_compute. reflexivity. Qed.

(** A review that read the dispute while it was open saves that copy over a
    decision taken meanwhile: the dispute is under review again, without its
    decision, and its refund stands. *)
Theorem late_review_erases_decision :
  let w := after_call (slashed_world false) (file_call "d1") in
  let c := schedule ([0] ++ repeat 1 4 ++ repeat 2 9 ++ repeat 0 4)%nat w (dispute_call <$> [CReview "d1"; CReview "d1"; overturn_call "r1"]) in
  (fun d => (di_status d, di_decidedAt d)) <$> get "d1" (dw_disputes c.1) = Some (ds_under_review, None) /\
  length (dw_refunds c.1) = 1%nat /\ (length (dw_refunds (after_call c.1 (overturn_call "r2"))) = 2)%nat.
Proof. vm_compute. done. Qed.

(** Once the slash is confirmed on the chain, overturning it reverses nothing:
    the failed fill stays counted and the bond stays cut. *)
Theorem overturned_slash_keeps_penalty :
  let w := slashed_world true in
  let w' := foldl after_call w [file_call "d1"; CReview "d1"; overturn_call "r1"] in
  di_status <$> get "d1" (dw_disputes w') = Some ds_overturned /\
  get "GS" (sv_store (dw_solvers w')) = get "GS" (sv_store (dw_solvers w)) /\
  (fun r => (so_fillsFailed r, so_bondAmount r)) <$> get "GS" (sv_store (dw_solvers w')) = Some (2, "700").
Proof. vm_compute. done. Qed.
