(* ===== verification/Flags.v ===== *)
(** Feature flags (flags/feature-flag.service.ts, flag-evaluator.ts,
    flag-registry.ts, flag.types.ts).

    Any number of instances share one database: its flags, change requests and
    audit log are tables, each instance has its own copy of the flags.  A
    transaction of the database is one step that commits as a whole or aborts
    (as an argument decides); calls interleave at their awaits.  What peers do
    on a change notification, a reload, may happen at any time anyway. *)
From S2P Require Import Prelude JsMap BigInt Prog.
From stdpp Require Import relations.
From Stdlib Require Import Ascii.
Local Open Scope string_scope.
Local Open Scope list_scope.
Local Open Scope Z_scope.
Local Open Scope prog_scope.

(** * Rules *)

Record FlagRule := { fr_value : bool; fr_percentage : option Z; fr_solvers : option (list string); fr_chains : option (list string) }.
Record FlagState := { fs_defaultValue : bool; fs_rules : list FlagRule }.
Record StoredFlag := { sf_key : string; sf_state : FlagState; sf_version : Z; sf_updatedBy : string; sf_updatedAt : Z }.
Record FlagContext := { fc_targetingKey : option string; fc_solver : option string; fc_chain : option string }.

Inductive FlagReason := TARGETING_MATCH | SPLIT | DEFAULT | STATIC.
Record FlagEvaluation := { fe_value : bool; fe_reason : FlagReason; fe_ruleIndex : option nat }.

Section evaluator.
(** The first four bytes of SHA-256, as an unsigned number. *)
Variable sha256_u32 : string -> Z.

Definition bucketFor (flagKey targetingKey : string) : Z := sha256_u32 (flagKey +:+ ":" +:+ targetingKey) mod 100.

Definition listed (allowed : option (list string)) (x : option string) : bool :=
  match allowed with
  | None => true
  | Some l => truthy_str x && bool_decide (default "" x ∈ l)
  end.

Definition matches (flagKey : string) (rule : FlagRule) (ctx : FlagContext) : bool :=
  listed (fr_solvers rule) (fc_solver ctx) && listed (fr_chains rule) (fc_chain ctx) &&
  match fr_percentage rule with
  | None => true
  | Some p =>
      let key := match fc_targetingKey ctx with Some k => Some k | None => fc_solver ctx end in
      truthy_str key && (bucketFor flagKey (default "" key) <? p)
  end.

Definition evaluateFlag (flagKey : string) (st : FlagState) (ctx : FlagContext) : FlagEvaluation :=
  match list_find (fun rule => matches flagKey rule ctx = true) (fs_rules st) with
  | None => {| fe_value := fs_defaultValue st; fe_reason := DEFAULT; fe_ruleIndex := None |}
  | Some (n, rule) =>
      {| fe_value := fr_value rule; fe_reason := match fr_percentage rule with Some _ => SPLIT | None => TARGETING_MATCH end;
         fe_ruleIndex := Some n |}
  end.
End evaluator.

Definition possibleValues (st : FlagState) : list bool := fs_defaultValue st :: (fr_value <$> fs_rules st).

(** * Registry *)

Record FlagConfig := { cfg_nodeEnv : string; cfg_onchainIntentsEnabled : bool; cfg_onchainDryRun : bool; cfg_overrides : string }.

Record FlagSpec := { sp_envDefault : FlagConfig -> bool; sp_requiresTwoApprovals : option (FlagState -> string -> bool) }.

Definition FLAG_REGISTRY : jsmap FlagSpec := [
  ("onchain-intents-enabled", {| sp_envDefault := cfg_onchainIntentsEnabled; sp_requiresTwoApprovals := None |});
  ("onchain-dry-run", {| sp_envDefault := cfg_onchainDryRun;
     sp_requiresTwoApprovals := Some (fun proposed nodeEnv => bool_decide (nodeEnv = "production") && bool_decide (false ∈ possibleValues proposed)) |})].

Definition isFlagKey (key : string) : bool := has key FLAG_REGISTRY.

Definition parseFlagOverrides (raw : string) : jsmap bool :=
  foldl (fun overrides pair =>
    let parts := split_on "="%char pair in
    let key := default "" (parts !! 0%nat) in
    match parts !! 1%nat with
    | Some value =>
        if isFlagKey key && (bool_decide (value = "true") || bool_decide (value = "false"))
        then set key (bool_decide (value = "true")) overrides else overrides
    | None => overrides
    end) [] (filter (fun p => p <> "") (trim <$> split_on ","%char raw)).

Definition envDefault (cfg : FlagConfig) (key : string) : bool :=
  match get key FLAG_REGISTRY with Some spec => sp_envDefault spec cfg | None => false end.

Definition requires_two (cfg : FlagConfig) (key : string) (st : FlagState) : bool :=
  match get key FLAG_REGISTRY with
  | Some {| sp_requiresTwoApprovals := Some f |} => f st (cfg_nodeEnv cfg)
  | _ => false
  end.

(** * Service *)

Inductive RequestStatus := rq_pending | rq_applied.
#[export] Instance RequestStatus_eq : EqDecision RequestStatus.
Proof. solve_decision. Defined.

Record FlagChangeRequest := {
  cr_id : string; cr_flagKey : string; cr_proposed : FlagState; cr_proposedBy : string; cr_approvals : list string;
  cr_status : RequestStatus; cr_reason : string; cr_appliedAt : option Z;
}.

Record AuditRow := { au_actor : string; au_action : string; au_target : string; au_before : option StoredFlag; au_after : FlagState; au_reason : string }.

Record FlagWorld := {
  fw_flags : jsmap StoredFlag;
  fw_requests : jsmap FlagChangeRequest;
  fw_audit : list AuditRow;
  fw_local : list (jsmap StoredFlag);
}.

Inductive FlagError := UnknownFlag (key : string) | FrozenFlag (key : string) | NoPendingRequest | SameAdmin | AlreadyApplied | FlagDbFailure.
Inductive FlagUpdateResult := Applied (flag : StoredFlag) | Pending (requestId : string) (approvals : list string).

Notation FM := (prog FlagWorld FlagError).

Definition local_flags (n : nat) (w : FlagWorld) : jsmap StoredFlag := default [] (fw_local w !! n).
Definition put_local (n : nat) (m : jsmap StoredFlag) (w : FlagWorld) : FlagWorld :=
  {| fw_flags := fw_flags w; fw_requests := fw_requests w; fw_audit := fw_audit w; fw_local := <[n := m]> (fw_local w) |}.
Definition put_request (r : FlagChangeRequest) (w : FlagWorld) : FlagWorld :=
  {| fw_flags := fw_flags w; fw_requests := set (cr_id r) r (fw_requests w); fw_audit := fw_audit w; fw_local := fw_local w |}.
Definition audited (a : AuditRow) (w : FlagWorld) : FlagWorld :=
  {| fw_flags := fw_flags w; fw_requests := fw_requests w; fw_audit := fw_audit w ++ [a]; fw_local := fw_local w |}.
Definition put_flag (row : StoredFlag) (w : FlagWorld) : FlagWorld :=
  {| fw_flags := set (sf_key row) row (fw_flags w); fw_requests := fw_requests w; fw_audit := fw_audit w; fw_local := fw_local w |}.

Definition flag_target (key : string) : string := "flag:" +:+ key.

(** A step of the database: [ok] is whether the transaction commits. *)
Definition transaction {A} (ok : bool) (f : FlagWorld -> outcome FlagError (A * FlagWorld)) : FM A :=
  r <- atomic (fun w => if ok then match f w with Ok (a, w') => (Ok a, w') | Err e => (Err e, w) end else (Err FlagDbFailure, w));
  match r with Ok a => Done a | Err e => Throw e end.

Definition assertMutable (frozen : string -> bool) (key : string) : FM string :=
  if negb (isFlagKey key) then Throw (UnknownFlag key) else if frozen key then Throw (FrozenFlag key) else Done key.

(** [upsert]: a new row has version 1, an update increments it. *)
Definition upsert_flag (key : string) (st : FlagState) (actor : string) (now : Z) (w : FlagWorld) : StoredFlag :=
  {| sf_key := key; sf_state := st; sf_version := match get key (fw_flags w) with Some old => sf_version old + 1 | None => 1 end;
     sf_updatedBy := actor; sf_updatedAt := now |}.

Definition apply_flag (inst : nat) (ok : bool) (key : string) (st : FlagState) (actor reason : string) (now : Z)
    (precondition : FlagWorld -> outcome FlagError FlagWorld) : FM StoredFlag :=
  before <- reads (fun w => get key (local_flags inst w));
  row <- transaction ok (fun w =>
    match precondition w with
    | Err e => Err e
    | Ok w1 =>
        let row := upsert_flag key st actor now w1 in
        Ok (row, audited {| au_actor := actor; au_action := "flag.update"; au_target := flag_target key; au_before := before;
                            au_after := st; au_reason := reason |} (put_flag row w1))
    end);
  modify (fun w => put_local inst (set key row (local_flags inst w)) w);;;
  Done row.

(** The request's primary key is checked by the database. *)
Definition open_request (uuid key : string) (st : FlagState) (admin reason : string) (w : FlagWorld) : outcome FlagError (FlagChangeRequest * FlagWorld) :=
  let r := {| cr_id := uuid; cr_flagKey := key; cr_proposed := st; cr_proposedBy := admin; cr_approvals := [admin];
              cr_status := rq_pending; cr_reason := reason; cr_appliedAt := None |} in
  if has uuid (fw_requests w) then Err FlagDbFailure
  else Ok (r, audited {| au_actor := admin; au_action := "flag.change-requested"; au_target := flag_target key; au_before := None;
                         au_after := st; au_reason := reason |} (put_request r w)).

Definition update (cfg : FlagConfig) (inst : nat) (frozen : string -> bool) (ok : bool) (uuid key : string) (st : FlagState)
    (admin reason : string) (now : Z) : FM FlagUpdateResult :=
  flagKey <- assertMutable frozen key;
  if requires_two cfg flagKey st then
    r <- transaction ok (open_request uuid flagKey st admin reason);
    Done (Pending (cr_id r) (cr_approvals r))
  else
    flag <- apply_flag inst ok flagKey st admin reason now Ok;
    Done (Applied flag).

Definition claim_request (requestId : string) (approvals : list string) (now : Z) (w : FlagWorld) : outcome FlagError FlagWorld :=
  match get requestId (fw_requests w) with
  | Some r =>
      if bool_decide (cr_status r = rq_pending)
      then Ok (put_request {| cr_id := cr_id r; cr_flagKey := cr_flagKey r; cr_proposed := cr_proposed r; cr_proposedBy := cr_proposedBy r;
                              cr_approvals := approvals; cr_status := rq_applied; cr_reason := cr_reason r; cr_appliedAt := Some now |} w)
      else Err AlreadyApplied
  | None => Err AlreadyApplied
  end.

Definition approve (inst : nat) (frozen : string -> bool) (ok : bool) (requestId admin : string) (now : Z) : FM FlagUpdateResult :=
  found <- reads (fun w => get requestId (fw_requests w));
  match found with
  | None => Throw NoPendingRequest
  | Some request =>
      if negb (bool_decide (cr_status request = rq_pending)) then Throw NoPendingRequest
      else if bool_decide (admin ∈ cr_approvals request) then Throw SameAdmin
      else
        flagKey <- assertMutable frozen (cr_flagKey request);
        let approvals := cr_approvals request ++ [admin] in
        flag <- apply_flag inst ok flagKey (cr_proposed request) admin
                  ("approved change request " +:+ requestId +:+ " (approvals: " +:+ String.concat ", " approvals +:+ ")" +:+
                   (if bool_decide (cr_reason request = "") then "" else ": " +:+ cr_reason request))
                  now (claim_request requestId approvals now);
        Done (Applied flag)
  end.

(** A failed read keeps the last known flags. *)
Definition reload (inst : nat) (ok : bool) : FM unit :=
  rows <- reads fw_flags;
  if ok then modify (put_local inst rows) else Done tt.

(** The provider's resolution against a copy of the flags: the instance's own,
    or the snapshot of the request. *)
Definition resolveBooleanEvaluation (sha256_u32 : string -> Z) (cfg : FlagConfig) (flags : jsmap StoredFlag) (flagKey : string) (ctx : FlagContext)
    : FlagEvaluation :=
  match (if isFlagKey flagKey then get flagKey (parseFlagOverrides (cfg_overrides cfg)) else None) with
  | Some pinned => {| fe_value := pinned; fe_reason := STATIC; fe_ruleIndex := None |}
  | None =>
      match get flagKey flags with
      | None => {| fe_value := envDefault cfg flagKey; fe_reason := DEFAULT; fe_ruleIndex := None |}
      | Some stored => evaluateFlag sha256_u32 flagKey (sf_state stored) ctx
      end
  end.

(** * Evaluation *)

Lemma evaluated_is_possible h key st ctx : fe_value (evaluateFlag h key st ctx) ∈ possibleValues st.
Proof.
  unfold evaluateFlag, possibleValues. destruct (list_find _ _) as [[n rule]|] eqn:E; [|by left]. right.
  apply list_find_Some in E as (Hn & _ & _). apply list_elem_of_fmap. exists rule. split; [done|]. by eapply list_elem_of_lookup_2.
Qed.

(** * What the database promises over time *)

Definition DRY_RUN : string := "onchain-dry-run".

(** Two different admins are behind the row: one proposed its state, the other
    approved and applied it. *)
Definition two_admins (w : FlagWorld) (row : StoredFlag) : Prop :=
  exists id r, get id (fw_requests w) = Some r /\ cr_status r = rq_applied /\ cr_flagKey r = sf_key row /\ cr_proposed r = sf_state row /\
    cr_approvals r = [cr_proposedBy r; sf_updatedBy row] /\ cr_proposedBy r <> sf_updatedBy row.

Definition row_ok (w : FlagWorld) (row : StoredFlag) : Prop :=
  sf_key row = DRY_RUN -> false ∈ possibleValues (sf_state row) -> two_admins w row.

Definition updates_of (key : string) (l : list AuditRow) : nat :=
  length (filter (fun a => au_action a = "flag.update" /\ au_target a = flag_target key) l).

Record flags_ok (w : FlagWorld) : Prop := {
  fo_rows : forall key row, get key (fw_flags w) = Some row -> sf_key row = key /\ row_ok w row;
  fo_local : forall inst key row, get key (local_flags inst w) = Some row -> sf_key row = key /\ row_ok w row;
  fo_requests : forall id r, get id (fw_requests w) = Some r -> cr_id r = id /\ (cr_status r = rq_pending -> cr_approvals r = [cr_proposedBy r]);
  fo_audit : forall key, match get key (fw_flags w) with Some row => sf_version row | None => 0 end = Z.of_nat (updates_of key (fw_audit w));
}.

(** Applied requests stay; a pending one keeps what it proposes. *)
Definition requests_grow (w w' : FlagWorld) : Prop :=
  forall id r, get id (fw_requests w) = Some r -> exists r', get id (fw_requests w') = Some r' /\ cr_flagKey r' = cr_flagKey r /\
    cr_proposed r' = cr_proposed r /\ cr_proposedBy r' = cr_proposedBy r /\ (cr_status r = rq_applied -> r' = r).

#[export] Instance requests_grow_refl : Reflexive requests_grow.
Proof. intros w id r Hr. exists r. by split_and!. Qed.
#[export] Instance requests_grow_trans : Transitive requests_grow.
Proof.
  intros w1 w2 w3 H1 H2 id r Hr. destruct (H1 _ _ Hr) as (r2 & Hr2 & A & B & C & D). destruct (H2 _ _ Hr2) as (r3 & Hr3 & A' & B' & C' & D').
  exists r3. split_and!; [done|congruence..|]. intros Ha. rewrite <- (D Ha). apply D'. by rewrite (D Ha).
Qed.

Lemma two_admins_grow w w' row : requests_grow w w' -> two_admins w row -> two_admins w' row.
Proof.
  intros Hg (id & r & Hr & Hs & Hrest). destruct (Hg _ _ Hr) as (r' & Hr' & _ & _ & _ & E). rewrite (E Hs) in Hr'. by exists id, r.
Qed.

Lemma row_ok_grow w w' row : requests_grow w w' -> row_ok w row -> row_ok w' row.
Proof. intros Hg Hr Hk Hf. eapply two_admins_grow; [exact Hg|]. by apply Hr. Qed.

Lemma same_requests w w' : fw_requests w' = fw_requests w -> requests_grow w w'.
Proof. intros E. intros id r Hr. exists r. rewrite E. by split_and!. Qed.

Lemma local_put n m k w : local_flags k (put_local n m w) = if decide (k = n /\ (n < length (fw_local w))%nat) then m else local_flags k w.
Proof.
  unfold local_flags, put_local. simpl. case_decide as H.
  - destruct H as [-> H]. by rewrite list_lookup_insert_eq.
  - destruct (decide (k = n)) as [->|Hne]; [|by rewrite list_lookup_insert_ne]. by rewrite list_insert_ge by lia.
Qed.

Lemma updates_of_app key l a : updates_of key (l ++ [a]) =
  (updates_of key l + if decide (au_action a = "flag.update" /\ au_target a = flag_target key) then 1 else 0)%nat.
Proof. unfold updates_of. rewrite filter_app, length_app. f_equal. rewrite filter_cons, filter_nil. by case_decide. Qed.

Lemma flag_target_inj k1 k2 : flag_target k1 = flag_target k2 -> k1 = k2.
Proof. intros E. by apply (inj (String.append "flag:")) in E. Qed.

Section guarantee.
Context (cfg : FlagConfig) (Hprod : cfg_nodeEnv cfg = "production").
Notation ok_prog p := (rg (E := FlagError) flags_ok requests_grow (fun _ _ => True) p).

(** Rows a call holds on to stay good. *)
Notation good_row key := (fun row w => sf_key row = key /\ row_ok w row).

Lemma rg_reads {A} (f : FlagWorld -> A) (Q : A -> FlagWorld -> Prop) w0 :
  (forall w, requests_grow w0 w -> flags_ok w -> Q (f w) w) -> rg flags_ok requests_grow Q (reads (E := FlagError) f) w0.
Proof. intros H w Hg Hw. split_and!; [done|done|]. simpl. by apply H. Qed.

Lemma put_local_ok n m w : flags_ok w -> (forall key row, get key m = Some row -> sf_key row = key /\ row_ok w row) -> flags_ok (put_local n m w).
Proof.
  intros [H1 H2 H3 H4] Hm. split; [exact H1| |exact H3|exact H4]. intros inst key row. rewrite local_put. case_decide; [apply Hm|apply H2].
Qed.

Lemma rg_transaction {A} ok (f : FlagWorld -> outcome FlagError (A * FlagWorld)) (Q : A -> FlagWorld -> Prop) w0 :
  (forall w a w', requests_grow w0 w -> flags_ok w -> f w = Ok (a, w') -> flags_ok w' /\ requests_grow w w' /\ Q a w') ->
  rg flags_ok requests_grow Q (transaction ok f) w0.
Proof.
  intros H w Hg Hw. simpl. destruct ok; simpl; [|done]. destruct (f w) as [[a w']|e] eqn:Ef; simpl; [|done]. by apply H in Ef.
Qed.

(** Committing a row that is good with the requests of [w1]. *)
Lemma commit_ok w w1 key st actor now a : flags_ok w -> fw_flags w1 = fw_flags w -> fw_audit w1 = fw_audit w -> fw_local w1 = fw_local w ->
  requests_grow w w1 -> (forall id r, get id (fw_requests w1) = Some r -> cr_id r = id /\ (cr_status r = rq_pending -> cr_approvals r = [cr_proposedBy r])) ->
  au_action a = "flag.update" -> au_target a = flag_target key -> row_ok w1 (upsert_flag key st actor now w1) ->
  let w' := audited a (put_flag (upsert_flag key st actor now w1) w1) in flags_ok w' /\ requests_grow w w'.
Proof.
  intros [H1 H2 H3 H4] Ef Ea El Hg Hreq Hact Htgt Hrow. split; [|exact Hg].
  split; simpl; rewrite ?Ef, ?Ea; unfold local_flags; simpl; rewrite ?El.
  - intros k row. rewrite get_set. case_decide as E; [intros [= <-]; by subst|]. intros Hr. split; [by apply H1 in Hr as [? _]|].
    apply H1 in Hr as [_ Hr]. by eapply row_ok_grow.
  - intros inst k row Hr. apply (H2 inst) in Hr as [? Hr]. split; [done|]. by eapply row_ok_grow.
  - exact Hreq.
  - intros k. rewrite get_set, updates_of_app, Nat2Z.inj_add, <- H4, Hact, Htgt. case_decide as E.
    + subst. rewrite decide_True by done. simpl. rewrite Ef. destruct (get k (fw_flags w)); simpl; lia.
    + rewrite decide_False by (intros [_ E']; apply flag_target_inj in E'; done). lia.
Qed.

Lemma rg_apply inst ok key st actor reason now pre w0 :
  (forall w w1, requests_grow w0 w -> flags_ok w -> pre w = Ok w1 ->
     fw_flags w1 = fw_flags w /\ fw_audit w1 = fw_audit w /\ fw_local w1 = fw_local w /\ requests_grow w w1 /\
     (forall id r, get id (fw_requests w1) = Some r -> cr_id r = id /\ (cr_status r = rq_pending -> cr_approvals r = [cr_proposedBy r])) /\
     row_ok w1 (upsert_flag key st actor now w1)) ->
  ok_prog (apply_flag inst ok key st actor reason now pre) w0.
Proof.
  intros Hpre. unfold apply_flag. eapply (rg_bind _ _ (fun _ w => requests_grow w0 w)); [by apply rg_reads|]. intros before w2 Hg2.
  eapply (rg_bind _ _ (good_row key)).
  - apply rg_transaction. intros w row w' Hg Hw. destruct (pre w) as [w1|e] eqn:Ep; [|done]. intros [= <- <-].
    destruct (Hpre w w1) as (E1 & E2 & E3 & Hg1 & Hreq & Hrow); [by transitivity w2|done|done|].
    destruct (commit_ok w w1 key st actor now {| au_actor := actor; au_action := "flag.update"; au_target := flag_target key; au_before := before;
      au_after := st; au_reason := reason |} Hw E1 E2 E3 Hg1 Hreq eq_refl eq_refl Hrow) as [Hok Hgr]. by split_and!.
  - intros row w3 [Hk Hrow] w Hg Hw. split_and!; [|by apply same_requests|done]. apply put_local_ok; [done|]. intros k r'. rewrite get_set. case_decide as E.
    + intros [= <-]. subst. split; [done|]. by eapply row_ok_grow.
    + apply (fo_local w Hw inst).
Qed.

Lemma rg_update inst frozen ok uuid key st admin reason now w0 : ok_prog (update cfg inst frozen ok uuid key st admin reason now) w0.
Proof using Hprod.
  unfold update, assertMutable. destruct (negb (isFlagKey key)); [done|]. destruct (frozen key); [done|]. cbn [pbind].
  destruct (requires_two cfg key st) eqn:Er.
  - eapply (rg_bind _ _ (fun _ _ => True)); [|done]. apply rg_transaction. intros w r w' Hg Hw. unfold open_request.
    destruct (has uuid (fw_requests w)) eqn:Eh; [done|]. intros [= <- <-].
    assert (Hno : get uuid (fw_requests w) = None) by (unfold has in Eh; by destruct (get uuid (fw_requests w))).
    assert (Hgrow : forall r a, cr_id r = uuid -> requests_grow w (audited a (put_request r w))).
    { intros r a E id r' Hr'. exists r'. simpl. rewrite E, get_set_ne by congruence. by split_and!. }
    split_and!; [|by apply Hgrow|done]. destruct Hw as [H1 H2 H3 H4]. split.
    + intros k row Hr. apply H1 in Hr as [? Hr]. split; [done|]. eapply row_ok_grow; [by apply Hgrow|done].
    + intros i k row Hr. apply (H2 i) in Hr as [? Hr]. split; [done|]. eapply row_ok_grow; [by apply Hgrow|done].
    + intros id r'. simpl. rewrite get_set. case_decide as E; [|apply H3]. by intros [= <-].
    + intros k. simpl. rewrite H4, updates_of_app, decide_False by (by intros [? _]). lia.
  - eapply (rg_bind _ _ (fun _ _ => True)); [|done]. apply rg_apply. intros w w1 Hg Hw [= <-]. split_and!; [done..|apply (fo_requests w Hw)|].
    intros Hk Hf. simpl in Hk, Hf. subst key. unfold requires_two in Er. simpl in Er. rewrite Hprod in Er.
    rewrite !bool_decide_eq_true_2 in Er by done. done.
Qed.

Lemma rg_approve inst frozen ok requestId admin now w0 : ok_prog (approve inst frozen ok requestId admin now) w0.
Proof.
  unfold approve. eapply (rg_bind _ _ (fun o w => o = get requestId (fw_requests w) /\ flags_ok w)); [by apply rg_reads|].
  intros [q|] w1 [Hq Hw1]; [|done]. destruct (negb _) eqn:Ep; [done|]. destruct (bool_decide (admin ∈ cr_approvals q)) eqn:Ea; [done|].
  unfold assertMutable. destruct (negb (isFlagKey (cr_flagKey q))); [done|]. destruct (frozen (cr_flagKey q)); [done|]. cbn [pbind].
  bool_norm. symmetry in Hq. destruct (fo_requests w1 Hw1 _ _ Hq) as [Hid Happ]. specialize (Happ Ep). rewrite Happ in *.
  eapply (rg_bind _ _ (fun _ _ => True)); [|done]. apply rg_apply. intros w w2 Hg Hw. unfold claim_request.
  destruct (Hg _ _ Hq) as (r & Hr & Hk & Hpr & Hby & _). rewrite Hr. case_bool_decide as Hs; [|done]. intros [= <-].
  destruct (fo_requests w Hw _ _ Hr) as [Hid' _]. split_and!; [done..| | |].
  - intros id x Hx. simpl. rewrite Hid', get_set. case_decide as E; [|by exists x]. subst id. rewrite Hr in Hx. injection Hx as <-.
    eexists. split; [done|]. simpl. split_and!; [done..|]. rewrite Hs. done.
  - intros id x. simpl. rewrite Hid', get_set. case_decide as E; [|apply (fo_requests w Hw)]. by intros [= <-].
  - intros _ _. exists requestId. eexists. simpl. rewrite Hid', get_set_eq. split; [done|]. simpl. rewrite Hk, Hpr, Hby.
    split_and!; [done..|]. intros E. apply Ea. rewrite E. by left.
Qed.

Lemma rg_reload inst ok w0 : ok_prog (reload inst ok) w0.
Proof.
  unfold reload. eapply (rg_bind _ _ (fun rows w => forall key row, get key rows = Some row -> sf_key row = key /\ row_ok w row)).
  { apply rg_reads. intros w _ Hw. apply (fo_rows w Hw). }
  intros rows w1 Hrows. destruct ok; [|done]. intros w Hg Hw. split_and!; [|by apply same_requests|done]. apply put_local_ok; [done|].
  intros key row Hr. apply Hrows in Hr as [? Hr]. split; [done|]. by eapply row_ok_grow.
Qed.
End guarantee.

(** * Calls *)

Inductive FlagCall :=
  FUpdate (inst : nat) (frozen : string -> bool) (ok : bool) (uuid key : string) (st : FlagState) (admin reason : string) (now : Z)
| FApprove (inst : nat) (frozen : string -> bool) (ok : bool) (requestId admin : string) (now : Z)
| FReload (inst : nat) (ok : bool).

Definition flag_call (cfg : FlagConfig) (c : FlagCall) : FM unit :=
  match c with
  | FUpdate inst frozen ok uuid key st admin reason now => update cfg inst frozen ok uuid key st admin reason now;;; Done tt
  | FApprove inst frozen ok requestId admin now => approve inst frozen ok requestId admin now;;; Done tt
  | FReload inst ok => reload inst ok
  end.

Definition fresh_flags (instances : nat) : FlagWorld := {| fw_flags := []; fw_requests := []; fw_audit := []; fw_local := repeat [] instances |}.

Lemma fresh_local n inst : local_flags inst (fresh_flags n) = [].
Proof.
  unfold local_flags, fresh_flags. simpl. destruct (_ !! inst) as [m|] eqn:E; [|done].
  apply list_elem_of_lookup_2, list_elem_of_In, repeat_spec in E. by subst.
Qed.

Lemma fresh_ok n : flags_ok (fresh_flags n).
Proof. split; [done| |done|done]. intros inst key row. by rewrite fresh_local. Qed.

Lemma flags_reachable_ok cfg n calls w ps' : cfg_nodeEnv cfg = "production" ->
  rtc pool_step (fresh_flags n, flag_call cfg <$> calls) (w, ps') -> flags_ok w.
Proof.
  intros Hprod Hrun. eapply (pool_rg flags_ok requests_grow) in Hrun as [? _]; [done|apply fresh_ok|]. simpl.
  apply Forall_fmap, Forall_forall. intros [inst frozen ok uuid key st admin reason now|inst frozen ok requestId admin now|inst ok] _; cbn [flag_call fst].
  - eapply (rg_bind _ _ (fun _ _ => True)); [by apply rg_update|done].
  - eapply (rg_bind _ _ (fun _ _ => True)); [by apply rg_approve|done].
  - apply rg_reload.
Qed.

(** * Theorems *)

(** C26. Going live takes two admins: in production, after any interleaving of
    updates, approvals and reloads on any number of instances, with
    transactions that fail as they like, no instance evaluates the dry-run flag
    to false for anyone unless the deployment pins or defaults it so, or one
    admin proposed the state it evaluates and another one approved it. *)
Theorem dry_run_off_needs_two_admins sha256_u32 cfg n calls w ps' inst ctx :
  cfg_nodeEnv cfg = "production" -> rtc pool_step (fresh_flags n, flag_call cfg <$> calls) (w, ps') ->
  fe_value (resolveBooleanEvaluation sha256_u32 cfg (local_flags inst w) DRY_RUN ctx) = false ->
  get DRY_RUN (parseFlagOverrides (cfg_overrides cfg)) = Some false \/
  (cfg_onchainDryRun cfg = false /\ get DRY_RUN (local_flags inst w) = None) \/
  exists id r other, get id (fw_requests w) = Some r /\ cr_status r = rq_applied /\ cr_flagKey r = DRY_RUN /\
    cr_approvals r = [cr_proposedBy r; other] /\ cr_proposedBy r <> other /\ fe_value (evaluateFlag sha256_u32 DRY_RUN (cr_proposed r) ctx) = false.
Proof.
  intros Hprod Hrun Hv. pose proof (flags_reachable_ok _ _ _ _ _ Hprod Hrun) as Hok. unfold resolveBooleanEvaluation in Hv.
  change (isFlagKey DRY_RUN) with true in Hv. cbv iota in Hv.
  destruct (get DRY_RUN (parseFlagOverrides (cfg_overrides cfg))) as [[]|]; [done|by left|]. right.
  destruct (get DRY_RUN (local_flags inst w)) as [row|] eqn:Er; [|by left]. right.
  destruct (fo_local w Hok _ _ _ Er) as [Hk Hrow]. destruct Hrow as (id & r & Hr & Hs & Hkey & Hp & Ha & Hne); [done| |].
  - rewrite <- Hv. apply evaluated_is_possible.
  - exists id, r, (sf_updatedBy row). rewrite Hp. split_and!; [done|done|congruence|done|done|done].
Qed.

(** Every change is audited: whatever interleaves, a flag's version is the
    number of updates recorded for it, and a flag without a row has none. *)
Theorem flag_versions_count_audit cfg n calls w ps' key :
  cfg_nodeEnv cfg = "production" -> rtc pool_step (fresh_flags n, flag_call cfg <$> calls) (w, ps') ->
  match get key (fw_flags w) with Some row => sf_version row | None => 0 end = Z.of_nat (updates_of key (fw_audit w)).
Proof. intros Hprod Hrun. by apply (fo_audit w (flags_reachable_ok _ _ _ _ _ Hprod Hrun)). Qed.

(** A rollout only grows: raising the percentage of a rule keeps everyone it
    matched, and a rule at 0 matches nobody. *)
Theorem rollout_is_monotone h key v solvers chains p p' ctx : p <= p' ->
  let rule q := {| fr_value := v; fr_percentage := Some q; fr_solvers := solvers; fr_chains := chains |} in
  (matches h key (rule p) ctx = true -> matches h key (rule p') ctx = true) /\ matches h key (rule 0) ctx = false.
Proof.
  intros Hp rule. unfold matches. simpl. split.
  - rewrite !andb_true_iff, !Z.ltb_lt. intros ([? ?] & ? & ?). split_and!; [done..|lia].
  - apply andb_false_intro2, andb_false_intro2, Z.ltb_ge. unfold bucketFor. apply Z.mod_pos_bound. lia.
Qed.

(** * Concrete runs *)

Definition production : FlagConfig :=
  {| cfg_nodeEnv := "production"; cfg_onchainIntentsEnabled := false; cfg_onchainDryRun := true; cfg_overrides := "" |}.
Definition live : FlagState := {| fs_defaultValue := false; fs_rules := [] |}.
Definition dry : FlagState := {| fs_defaultValue := true; fs_rules := [] |}.
Definition nobody : FlagContext := {| fc_targetingKey := None; fc_solver := None; fc_chain := None |}.
Definition thawed (_ : string) : bool := false.

Definition go_live : list FlagCall := [
  FUpdate 0 thawed true "r1" DRY_RUN live "alice" "go live" 10;
  FApprove 1 thawed true "r1" "bob" 20].
Definition go_live_run := schedule (repeat 0 6 ++ repeat 1 6)%nat (fresh_flags 2) (flag_call production <$> go_live).

Lemma dry_run_off_needs_two_admins_witness :
  let w := go_live_run.1 in
  fe_value (resolveBooleanEvaluation (fun _ => 0) production (local_flags 1 w) DRY_RUN nobody) = false /\
  exists id r other, get id (fw_requests w) = Some r /\ cr_proposedBy r <> other /\ cr_approvals r = [cr_proposedBy r; other].
Proof.
  split; [vm_compute; reflexivity|].
  destruct (dry_run_off_needs_two_admins (fun _ => 0) production 2 go_live go_live_run.1 go_live_run.2 1 nobody)
    as [H|[[H _]|(id & r & other & Hr & _ & _ & Ha & Hne & _)]].
  - reflexivity.
  - rewrite <- surjective_pairing. apply schedule_steps.
  - vm_compute. reflexivity.
  - vm_compute in H. discriminate H.
  - vm_compute in H. discriminate H.
  - exists id, r, other. by split_and!.
Defined.

Lemma flag_versions_count_audit_witness : updates_of DRY_RUN (fw_audit go_live_run.1) = 1%nat /\
  match get DRY_RUN (fw_flags go_live_run.1) with Some row => sf_version row | None => 0 end = Z.of_nat (updates_of DRY_RUN (fw_audit go_live_run.1)).
Proof.
  split; [vm_compute; reflexivity|].
  apply (flag_versions_count_audit production 2 go_live _ go_live_run.2); [reflexivity|].
  rewrite <- surjective_pairing. apply schedule_steps.
Defined.

Lemma rollout_is_monotone_witness :
  matches (fun _ => 20) "f" {| fr_value := true; fr_percentage := Some 25; fr_solvers := None; fr_chains := None |}
    {| fc_targetingKey := Some "i1"; fc_solver := None; fc_chain := None |} = true.
Proof. apply (rollout_is_monotone (fun _ => 20) "f" true None None 21 25); [lia|reflexivity]. Defined.

(** * What is not promised *)

(** A reload that read the table before a change and stores its rows after it
    puts the old state back on the instance that made the change: until the
    next reload that instance goes on broadcasting although its admin was told
    that dry-run is on. *)
Theorem late_reload_undoes_change :
  let w0 := go_live_run.1 in
  let c := schedule ([0] ++ repeat 1 6 ++ [0])%nat w0
    (flag_call production <$> [FReload 1 true; FUpdate 1 thawed true "r2" DRY_RUN dry "carol" "stop" 30]) in
  Forall (fun p => p = Done tt) c.2 /\
  sf_state <$> get DRY_RUN (fw_flags c.1) = Some dry /\
  fe_value (resolveBooleanEvaluation (fun _ => 0) production (local_flags 1 c.1) DRY_RUN nobody) = false.
Proof. vm_compute. split; [by repeat constructor|done]. Qed.

(** A change request does not lapse: one that was left pending while dry-run
    was turned off and on again can still be approved, and turns it off. *)
Theorem stale_request_still_applies :
  let calls := [FUpdate 0 thawed true "old" DRY_RUN live "alice" "go live" 10;
                FUpdate 0 thawed true "new" DRY_RUN live "alice" "go live" 20; FApprove 0 thawed true "new" "bob" 30;
                FUpdate 0 thawed true "" DRY_RUN dry "carol" "incident" 40; FApprove 0 thawed true "old" "bob" 50] in
  let w := (schedule (repeat 0 6 ++ repeat 1 6 ++ repeat 2 6 ++ repeat 3 6 ++ repeat 4 6)%nat (fresh_flags 1) (flag_call production <$> calls)).1 in
  sf_state <$> get DRY_RUN (fw_flags w) = Some live /\ sf_version <$> get DRY_RUN (fw_flags w) = Some 3.
Proof. vm_compute. done. Qed.
