(* ===== verification/GovernanceParams.v ===== *)
(** Protocol parameters read from the governance contract
    (governance/params.service.ts).

    A refresh parses what the RPC answered, waits for the latest ledger and then
    changes the service's state in one go: that change is [applyContractState],
    and overlapping refreshes are these changes in any order.  Contract values
    are the natives of [EventDecoders], numbers are rationals ([JsNumber]),
    dates are milliseconds. *)
From S2P Require Import Prelude JsMap BigInt JsNumber EventDecoders.
From Stdlib Require Import Qround.
Local Open Scope string_scope.
Local Open Scope list_scope.
Local Open Scope Z_scope.

(** * Data *)

Record ChainWindows := { cw_deadlineSeconds : Qc; cw_fillWindowSeconds : Qc }.

Record ParamBounds := {
  feeBpsMin : Qc; feeBpsMax : Qc; deadlineSecondsMin : Qc; deadlineSecondsMax : Qc; fillWindowSecondsMin : Qc; fillWindowSecondsMax : Qc;
  exposureRatioMin : Qc; exposureRatioMax : Qc; slashAmountMin : Z; slashAmountMax : Z;
}.

Record ProtocolParams := {
  pp_version : Z;
  pp_feeBps : Qc;
  pp_chains : jsmap ChainWindows;
  pp_maxExposureRatio : Qc;
  pp_slashAmount : string;
  pp_activeSinceLedger : Qc;
  pp_adoptedAt : Z;
}.

Record PendingChange := { pc_params : ProtocolParams; pc_executionLedger : Qc; pc_estimatedEta : Z; pc_observedAt : Z }.

Record ParamsSnapshot := { ps_version : Z; ps_feeBps : Qc; ps_deadlineSeconds : Qc; ps_fillWindowSeconds : Qc; ps_capturedAt : Z }.

Definition PARAM_BOUNDS : ParamBounds := {|
  feeBpsMin := of_Z 0; feeBpsMax := of_Z 1000; deadlineSecondsMin := of_Z 60; deadlineSecondsMax := of_Z 86400;
  fillWindowSecondsMin := of_Z 30; fillWindowSecondsMax := of_Z 43200; exposureRatioMin := of_Z 0; exposureRatioMax := of_Z 1;
  slashAmountMin := 0; slashAmountMax := 1000000000000 |}.

Definition MAX_HISTORY : nat := 50.
Definition DEFAULT_FEE_BPS : Qc := of_Z 30.
Definition DEFAULT_MAX_EXPOSURE_RATIO : Qc := Q2Qc (5 # 100).
Definition DEFAULT_SLASH_AMOUNT : string := "100000000".
Definition STELLAR_LEDGER_TIME_SECONDS : Qc := of_Z 5.

Definition CHAIN_DEADLINES : jsmap Qc :=
  [("stellar", of_Z 900); ("base", of_Z 1800); ("optimism", of_Z 1800); ("arbitrum", of_Z 1800); ("ethereum", of_Z 3600);
   ("polygon", of_Z 2700); ("avalanche", of_Z 1800)].
Definition DEFAULT_DEADLINE : Qc := of_Z 1800.
Definition CHAIN_FILL_WINDOWS : jsmap Qc :=
  [("stellar", of_Z 120); ("base", of_Z 600); ("optimism", of_Z 600); ("arbitrum", of_Z 600); ("ethereum", of_Z 1800);
   ("polygon", of_Z 900); ("avalanche", of_Z 600)].
Definition DEFAULT_FILL_WINDOW : Qc := of_Z 600.

Definition default_deadline (chain : string) : Qc := default DEFAULT_DEADLINE (get chain CHAIN_DEADLINES).
Definition default_fill_window (chain : string) : Qc := default DEFAULT_FILL_WINDOW (get chain CHAIN_FILL_WINDOWS).
Definition default_windows (chain : string) : ChainWindows :=
  {| cw_deadlineSeconds := default_deadline chain; cw_fillWindowSeconds := default_fill_window chain |}.

Record ParamsState := {
  pm_current : ProtocolParams;
  pm_pending : option PendingChange;
  pm_history : list ProtocolParams;
  pm_versionCounter : Z;
}.

(** * Helpers *)

Definition num_ltb (a b : Qc) : bool := negb (Qle_bool b a).
Definition Math_max (a b : Qc) : Qc := if num_ltb a b then b else a.
Definition Math_min (a b : Qc) : Qc := if num_ltb b a then b else a.

Definition parseAndClamp (raw : jsmap jsval) (key : string) (min max fallback : Qc) (isFloat : bool) : Qc :=
  match get key raw with
  | None => fallback
  | Some v =>
      match (if isFloat then parseFloat (text_of v) else parseInt10 (text_of v)) with
      | Fin parsed => if num_ltb parsed min || num_ltb max parsed then Math_min max (Math_max min parsed) else parsed
      | _ => fallback
      end
  end.

Definition validateSlashAmount (value : string) : string :=
  match BigInt value with
  | None => DEFAULT_SLASH_AMOUNT
  | Some v =>
      if (v <? slashAmountMin PARAM_BOUNDS) || (slashAmountMax PARAM_BOUNDS <? v)
      then toString (if v <? slashAmountMin PARAM_BOUNDS then slashAmountMin PARAM_BOUNDS else slashAmountMax PARAM_BOUNDS)
      else toString v
  end.

Definition chainNames : list string := ["stellar"; "ethereum"; "base"; "polygon"; "arbitrum"; "optimism"; "avalanche"].

Definition chain_windows (raw : jsmap jsval) (prefix chain : string) : ChainWindows :=
  let deadlineKey := prefix +:+ "deadline_" +:+ chain in
  let fillKey := prefix +:+ "fill_window_" +:+ chain in
  if negb (has deadlineKey raw) && negb (has fillKey raw) then default_windows chain
  else {|
    cw_deadlineSeconds := parseAndClamp raw deadlineKey (deadlineSecondsMin PARAM_BOUNDS) (deadlineSecondsMax PARAM_BOUNDS) (default_deadline chain) false;
    cw_fillWindowSeconds := parseAndClamp raw fillKey (fillWindowSecondsMin PARAM_BOUNDS) (fillWindowSecondsMax PARAM_BOUNDS)
                              (default_fill_window chain) false |}.

Definition buildChainWindows (raw : jsmap jsval) (prefix : string) : jsmap ChainWindows :=
  foldl (fun chains chain => set chain (chain_windows raw prefix chain) chains) [] chainNames.

Definition same_num (a b : Qc) : bool := bool_decide (a = b).

Definition hasChanged (a b : ProtocolParams) : bool :=
  negb (same_num (pp_feeBps a) (pp_feeBps b)) || negb (same_num (pp_maxExposureRatio a) (pp_maxExposureRatio b)) ||
  negb (bool_decide (pp_slashAmount a = pp_slashAmount b)) ||
  existsb (fun '(chain, bc) =>
    match get chain (pp_chains a) with
    | None => true
    | Some ac => negb (same_num (cw_deadlineSeconds ac) (cw_deadlineSeconds bc)) || negb (same_num (cw_fillWindowSeconds ac) (cw_fillWindowSeconds bc))
    end) (pp_chains b).

Definition buildCodeDefaults (now : Z) : ProtocolParams :=
  {| pp_version := 0; pp_feeBps := DEFAULT_FEE_BPS;
     pp_chains := foldl (fun chains '(chain, deadline) =>
       set chain {| cw_deadlineSeconds := deadline; cw_fillWindowSeconds := default_fill_window chain |} chains) [] CHAIN_DEADLINES;
     pp_maxExposureRatio := DEFAULT_MAX_EXPOSURE_RATIO; pp_slashAmount := DEFAULT_SLASH_AMOUNT; pp_activeSinceLedger := of_Z 0; pp_adoptedAt := now |}.

Definition new_params (now : Z) : ParamsState :=
  {| pm_current := buildCodeDefaults now; pm_pending := None; pm_history := []; pm_versionCounter := 0 |}.

(** * Adopting what the contract says *)

Definition slash_text (raw : jsmap jsval) (key fallback : string) : string :=
  match get key raw with Some JUndefined | None => fallback | Some v => text_of v end.

Record Parsed := { pa_feeBps : Qc; pa_exposure : Qc; pa_slash : string; pa_chains : jsmap ChainWindows }.

Definition parse_current (raw : jsmap jsval) : Parsed := {|
  pa_feeBps := parseAndClamp raw "fee_bps" (feeBpsMin PARAM_BOUNDS) (feeBpsMax PARAM_BOUNDS) DEFAULT_FEE_BPS false;
  pa_exposure := parseAndClamp raw "max_exposure_ratio" (exposureRatioMin PARAM_BOUNDS) (exposureRatioMax PARAM_BOUNDS) DEFAULT_MAX_EXPOSURE_RATIO true;
  pa_slash := validateSlashAmount (slash_text raw "slash_amount" DEFAULT_SLASH_AMOUNT);
  pa_chains := buildChainWindows raw "" |}.

Definition parse_pending (raw : jsmap jsval) (cur : Parsed) : Parsed := {|
  pa_feeBps := parseAndClamp raw "pending_fee_bps" (feeBpsMin PARAM_BOUNDS) (feeBpsMax PARAM_BOUNDS) (pa_feeBps cur) false;
  pa_exposure := parseAndClamp raw "pending_max_exposure_ratio" (exposureRatioMin PARAM_BOUNDS) (exposureRatioMax PARAM_BOUNDS) (pa_exposure cur) true;
  pa_slash := validateSlashAmount (slash_text raw "pending_slash_amount" (pa_slash cur));
  pa_chains := buildChainWindows raw "pending_" |}.

Definition params_of (version : Z) (p : Parsed) (ledger : Qc) (adoptedAt : Z) : ProtocolParams :=
  {| pp_version := version; pp_feeBps := pa_feeBps p; pp_chains := pa_chains p; pp_maxExposureRatio := pa_exposure p;
     pp_slashAmount := pa_slash p; pp_activeSinceLedger := ledger; pp_adoptedAt := adoptedAt |}.

Definition adopt (p : Parsed) (ledger : Qc) (now : Z) (s : ParamsState) : ParamsState :=
  if hasChanged (pm_current s) (params_of (pm_versionCounter s + 1) p ledger now) then
    let pushed := pm_history s ++ [pm_current s] in
    {| pm_current := params_of (pm_versionCounter s + 1) p ledger now; pm_pending := pm_pending s;
       pm_history := if (MAX_HISTORY <? length pushed)%nat then tail pushed else pushed; pm_versionCounter := pm_versionCounter s + 1 |}
  else s.

(** [Number(x)]; other values go through their text. *)
Definition number_of (v : jsval) : number :=
  match v with
  | JUndefined => NaN | JNull => Fin (of_Z 0) | JString s => Number s | JBigint z | JNumber z => as_double (inject_Z z)
  | JObject _ => NaN | JOther t => Number t
  end.

(** The last millisecond a [Date] can hold; beyond it [toISOString] throws. *)
Definition MAX_DATE : Z := 8640000000000000.

Definition put_pending (o : option PendingChange) (s : ParamsState) : ParamsState :=
  {| pm_current := pm_current s; pm_pending := o; pm_history := pm_history s; pm_versionCounter := pm_versionCounter s |}.

(** [false] when the date of the pending change throws. *)
Definition observe_pending (raw : jsmap jsval) (cur : Parsed) (ledger : Qc) (now : Z) (s : ParamsState) : bool * ParamsState :=
  match (match get "pending_execution_ledger" raw with Some v => number_of v | None => Fin (of_Z 0) end) with
  | Fin exec =>
      if num_ltb ledger exec && has "pending_fee_bps" raw then
        let eta := Qfloor (inject_Z now + (exec - ledger)%Qc * STELLAR_LEDGER_TIME_SECONDS * inject_Z 1000)%Q in
        if MAX_DATE <? eta then (false, s)
        else (true, put_pending (Some {| pc_params := params_of (pm_versionCounter s + 1) (parse_pending raw cur) exec eta;
                pc_executionLedger := exec; pc_estimatedEta := eta;
                pc_observedAt := match pm_pending s with Some p => pc_observedAt p | None => now end |}) s)
      else (true, put_pending None s)
  | Inf false => if has "pending_fee_bps" raw then (false, s) else (true, put_pending None s)
  | _ => (true, put_pending None s)
  end.

Definition applyContractState (raw : jsmap jsval) (latest : option Z) (now : Z) (s : ParamsState) : bool * ParamsState :=
  let ledger := of_Z (default 0 latest) in
  let cur := parse_current raw in
  observe_pending raw cur ledger now (adopt cur ledger now s).

(** What the RPC answers to one refresh: nothing, or the entries and the latest
    ledger.  Errors are logged, the state stays. *)
Record RefreshAnswer := { ra_raw : option (jsmap jsval); ra_latest : option Z; ra_now : Z }.

Definition refresh (configured : bool) (s : ParamsState) (a : RefreshAnswer) : ParamsState :=
  if negb configured then s
  else match ra_raw a with None => s | Some raw => (applyContractState raw (ra_latest a) (ra_now a) s).2 end.

Definition getHistory (s : ParamsState) : list ProtocolParams := rev (pm_history s).

Definition snapshotForChain (srcChain : string) (now : Z) (s : ParamsState) : ParamsSnapshot :=
  let p := pm_current s in
  let chain := get srcChain (pp_chains p) in
  {| ps_version := pp_version p; ps_feeBps := pp_feeBps p;
     ps_deadlineSeconds := match chain with Some c => cw_deadlineSeconds c | None => default_deadline srcChain end;
     ps_fillWindowSeconds := match chain with Some c => cw_fillWindowSeconds c | None => default_fill_window srcChain end;
     ps_capturedAt := now |}.

(** The keys asked of the contract. *)
Definition paramKeys : list string :=
  ["fee_bps"; "max_exposure_ratio"; "slash_amount";
   "deadline_stellar"; "deadline_ethereum"; "deadline_base"; "deadline_polygon"; "deadline_arbitrum"; "deadline_optimism"; "deadline_avalanche";
   "fill_window_stellar"; "fill_window_ethereum"; "fill_window_base"; "fill_window_polygon"; "fill_window_arbitrum"; "fill_window_optimism";
   "fill_window_avalanche"; "pending_fee_bps"; "pending_max_exposure_ratio"; "pending_slash_amount"; "pending_execution_ledger"].

(** * Bounds *)

Definition between (lo x hi : Qc) : Prop := (lo <= x)%Qc /\ (x <= hi)%Qc.

Lemma num_ltb_lt a b : num_ltb a b = true <-> (a < b)%Qc.
Proof.
  unfold num_ltb. rewrite negb_true_iff. split.
  - intros H. apply Qcnot_le_lt. intros Hle. apply Qle_bool_iff in Hle. congruence.
  - intros H. apply not_true_is_false. intros Hle%Qle_bool_iff. by apply (Qclt_not_le a b).
Qed.

Lemma num_ltb_ge a b : num_ltb a b = false <-> (b <= a)%Qc.
Proof. unfold num_ltb. rewrite negb_false_iff. apply Qle_bool_iff. Qed.

Lemma clamp_between raw key lo hi fallback isFloat : (lo <= hi)%Qc -> between lo fallback hi -> between lo (parseAndClamp raw key lo hi fallback isFloat) hi.
Proof.
  intros Hb Hf. unfold parseAndClamp. destruct (get key raw) as [v|]; [|done]. destruct (if isFloat then _ else _) as [q| |]; [|done..].
  destruct (num_ltb q lo) eqn:E1; simpl; [|destruct (num_ltb hi q) eqn:E2].
  - apply num_ltb_lt, Qclt_le_weak in E1. unfold Math_max. rewrite (proj2 (num_ltb_ge lo q)) by done.
    unfold Math_min. destruct (num_ltb lo hi) eqn:E; [split; [apply Qcle_refl|done]|]. split; [done|apply Qcle_refl].
  - apply num_ltb_ge in E1. apply num_ltb_lt in E2. unfold Math_max, Math_min. destruct (num_ltb lo q) eqn:E3.
    + rewrite (proj2 (num_ltb_ge q hi)) by (by apply Qclt_le_weak). split; [done|apply Qcle_refl].
    + apply num_ltb_ge in E3. destruct (Qclt_not_le hi q E2). by apply (Qcle_trans _ lo).
  - apply num_ltb_ge in E1, E2. by split.
Qed.

Definition windows_ok (c : ChainWindows) : Prop :=
  between (deadlineSecondsMin PARAM_BOUNDS) (cw_deadlineSeconds c) (deadlineSecondsMax PARAM_BOUNDS) /\
  between (fillWindowSecondsMin PARAM_BOUNDS) (cw_fillWindowSeconds c) (fillWindowSecondsMax PARAM_BOUNDS).

Definition slash_ok (s : string) : Prop := exists z, s = toString z /\ slashAmountMin PARAM_BOUNDS <= z <= slashAmountMax PARAM_BOUNDS.

Definition chains_ok (m : jsmap ChainWindows) : Prop :=
  (forall chain c, get chain m = Some c -> windows_ok c) /\ forall chain, chain ∈ chainNames -> get chain m <> None.

Definition params_ok (p : ProtocolParams) : Prop :=
  between (feeBpsMin PARAM_BOUNDS) (pp_feeBps p) (feeBpsMax PARAM_BOUNDS) /\
  between (exposureRatioMin PARAM_BOUNDS) (pp_maxExposureRatio p) (exposureRatioMax PARAM_BOUNDS) /\
  slash_ok (pp_slashAmount p) /\ chains_ok (pp_chains p).

Ltac concrete := vm_compute; repeat split; discriminate.

Lemma default_get {V} (P : V -> Prop) (m : jsmap V) d k : Forall P (values m) -> P d -> P (default d (get k m)).
Proof. intros Hm Hd. destruct (get k m) as [v|] eqn:E; [|done]. rewrite Forall_forall in Hm. by apply Hm, (get_values k). Qed.

Lemma default_windows_ok chain : windows_ok (default_windows chain).
Proof.
  split; cbn [cw_deadlineSeconds cw_fillWindowSeconds default_windows].
  - unfold default_deadline. apply (default_get (fun q => between _ q _)); [repeat constructor|]; concrete.
  - unfold default_fill_window. apply (default_get (fun q => between _ q _)); [repeat constructor|]; concrete.
Qed.

Lemma windows_of_ok raw prefix chain : windows_ok (chain_windows raw prefix chain).
Proof.
  destruct (default_windows_ok chain) as [Hd Hf]. unfold chain_windows. destruct (_ && _); [by split|].
  split; apply clamp_between; try done; concrete.
Qed.

Lemma get_windows raw prefix chain names m :
  get chain (foldl (fun chains c => set c (chain_windows raw prefix c) chains) m names) =
    if decide (chain ∈ names) then Some (chain_windows raw prefix chain) else get chain m.
Proof.
  revert m. induction names as [|c names IH]; intros m; cbn [foldl]; [by rewrite decide_False by apply not_elem_of_nil|].
  rewrite IH, get_set. destruct (decide (chain ∈ names)) as [H|H]; [by rewrite decide_True by (by right)|].
  destruct (decide (c = chain)) as [->|Hne]; [by rewrite decide_True by (by left)|]. rewrite decide_False; [done|]. set_solver.
Qed.

Lemma get_chain raw prefix chain :
  get chain (buildChainWindows raw prefix) = if decide (chain ∈ chainNames) then Some (chain_windows raw prefix chain) else None.
Proof. apply get_windows. Qed.

Lemma windows_built_ok raw prefix : chains_ok (buildChainWindows raw prefix).
Proof.
  split.
  - intros chain c. rewrite get_chain. case_decide; [|done]. intros [= <-]. apply windows_of_ok.
  - intros chain Hc. rewrite get_chain. by rewrite decide_True.
Qed.

Lemma slash_valid value : slash_ok (validateSlashAmount value).
Proof.
  unfold validateSlashAmount, slash_ok. cbn [slashAmountMin slashAmountMax PARAM_BOUNDS]. destruct (BigInt value) as [v|].
  - destruct (Z.ltb_spec v 0); simpl; [exists 0; split; [done|lia]|].
    destruct (Z.ltb_spec 1000000000000 v); [exists 1000000000000; split; [done|lia]|]. exists v. split; [done|lia].
  - exists 100000000. split; [reflexivity|lia].
Qed.

Definition parsed_ok (p : Parsed) : Prop := forall v ledger at_, params_ok (params_of v p ledger at_).

Lemma parse_current_ok raw : parsed_ok (parse_current raw).
Proof. intros v ledger at_. split_and!; [apply clamp_between..|apply slash_valid|apply windows_built_ok]; concrete. Qed.

Lemma parse_pending_ok raw : parsed_ok (parse_pending raw (parse_current raw)).
Proof.
  intros v ledger at_. destruct (parse_current_ok raw 0 (of_Z 0) 0) as (Hf & He & _).
  split_and!; [apply clamp_between; [concrete|exact Hf]|apply clamp_between; [concrete|exact He]|apply slash_valid|apply windows_built_ok].
Qed.

Lemma code_defaults_ok now : params_ok (buildCodeDefaults now).
Proof.
  split_and!; [concrete..|by exists 100000000|]. split.
  - intros chain c Hc. apply get_values in Hc. revert c Hc. apply Forall_forall.
    repeat (constructor; [split; concrete|]). constructor.
  - apply Forall_forall. repeat constructor; done.
Qed.

(** * History *)

(** Everything adopted so far is [olds] and the current parameters: numbered
    from zero, within bounds, and each different from the one before; the
    history keeps the last fifty of [olds]. *)
Definition adopted_are (olds : list ProtocolParams) (s : ParamsState) : Prop :=
  let all := olds ++ [pm_current s] in
  pm_history s = lastn MAX_HISTORY olds /\ pm_versionCounter s = Z.of_nat (length olds) /\
  (forall i p, all !! i = Some p -> pp_version p = Z.of_nat i /\ params_ok p) /\
  (forall i p q, all !! i = Some p -> all !! S i = Some q -> hasChanged p q = true) /\
  match pm_pending s with Some c => params_ok (pc_params c) | None => True end.

Lemma adopt_adopted olds s p ledger now : adopted_are olds s -> parsed_ok p ->
  adopted_are olds (adopt p ledger now s) \/ adopted_are (olds ++ [pm_current s]) (adopt p ledger now s).
Proof.
  intros (Hh & Hv & Hall & Hch & Hp) Hok. unfold adopt. destruct (hasChanged _ _) eqn:Ec; [|by left]. right.
  assert (Hlast : forall i q, ((olds ++ [pm_current s]) ++ [params_of (pm_versionCounter s + 1) p ledger now]) !! i = Some q ->
    (olds ++ [pm_current s]) !! i = Some q \/ i = length (olds ++ [pm_current s]) /\ q = params_of (pm_versionCounter s + 1) p ledger now).
  { intros i q [?|[Hi Hq]]%lookup_app_Some; [by left|]. right. apply list_lookup_singleton_Some in Hq as [? <-]. split; [lia|done]. }
  unfold adopted_are. cbn [pm_current pm_history pm_versionCounter pm_pending]. split_and!; [|rewrite length_app; simpl; lia| | |exact Hp].
  - rewrite lastn_snoc by (unfold MAX_HISTORY; lia). by rewrite Hh.
  - intros i q [Hq|[-> ->]]%Hlast; [by apply Hall|]. split; [|apply Hok]. simpl. rewrite length_app. simpl. lia.
  - intros i q1 q2 [H1|[-> ->]]%Hlast H2; [|apply lookup_lt_Some in H2; rewrite !length_app in H2; simpl in H2; lia].
    apply Hlast in H2 as [H2|[Hi ->]]; [by eapply Hch|]. rewrite length_app in Hi. simpl in Hi.
    replace i with (length olds) in H1 by lia. rewrite lookup_app_r, Nat.sub_diag in H1 by lia. by injection H1 as <-.
Qed.

Lemma observe_adopted olds s raw ledger now : adopted_are olds s -> adopted_are olds (observe_pending raw (parse_current raw) ledger now s).2.
Proof.
  intros (Hh & Hv & Hall & Hch & Hp). unfold observe_pending.
  assert (Hnone : adopted_are olds (put_pending None s)) by (by split_and!).
  assert (Hsame : adopted_are olds s) by (by split_and!).
  destruct (match get _ raw with Some v => number_of v | None => _ end) as [exec|[]|]; simpl; [|done|by destruct (has _ _)|done].
  destruct (_ && _); [|done]. destruct (_ <? _); [done|]. simpl. split_and!; [done..|]. simpl. apply parse_pending_ok.
Qed.

Lemma refresh_adopted configured olds s a : adopted_are olds s ->
  adopted_are olds (refresh configured s a) \/ adopted_are (olds ++ [pm_current s]) (refresh configured s a).
Proof.
  intros H. unfold refresh. destruct configured; simpl; [|by left]. destruct (ra_raw a) as [raw|]; [|by left]. unfold applyContractState.
  destruct (adopt_adopted olds s (parse_current raw) (of_Z (default 0 (ra_latest a))) (ra_now a) H (parse_current_ok raw));
    [left|right]; by apply observe_adopted.
Qed.

Lemma reachable_adopted configured answers t0 :
  exists olds, adopted_are olds (foldl (refresh configured) (new_params t0) answers).
Proof.
  assert (H0 : adopted_are [] (new_params t0)).
  { split_and!; [done|done| | |done].
    - intros [|i] p; [|done]. intros [= <-]. split; [done|apply code_defaults_ok].
    - intros [|i] p q; done. }
  assert (H : exists olds, adopted_are olds (new_params t0)) by eauto. clear H0. revert H. generalize (new_params t0).
  induction answers as [|a answers IH]; intros s [olds H]; [by exists olds|]. cbn [foldl]. apply IH.
  destruct (refresh_adopted configured olds s a H); eauto.
Qed.

(** * Theorems *)

(** Whatever the contract and the RPC answer, and in whatever order overlapping
    refreshes finish: the parameters adopted since the start are numbered 0, 1,
    2, ..., each within the hard bounds and different from its predecessor; the
    last of them is current, the history holds the fifty before it; and a
    pending change shown is within bounds too. *)
Theorem params_adopted_in_order configured answers t0 :
  exists olds, adopted_are olds (foldl (refresh configured) (new_params t0) answers).
Proof. apply reachable_adopted. Qed.

(** The terms an intent is created under are always within the bounds, for
    every chain. *)
Theorem snapshot_within_bounds configured answers t0 chain now :
  let s := snapshotForChain chain now (foldl (refresh configured) (new_params t0) answers) in
  between (feeBpsMin PARAM_BOUNDS) (ps_feeBps s) (feeBpsMax PARAM_BOUNDS) /\
  windows_ok {| cw_deadlineSeconds := ps_deadlineSeconds s; cw_fillWindowSeconds := ps_fillWindowSeconds s |}.
Proof.
  destruct (reachable_adopted configured answers t0) as (olds & _ & _ & Hall & _).
  destruct (Hall (length olds) (pm_current (foldl (refresh configured) (new_params t0) answers))) as [_ (Hf & _ & _ & Hc & _)].
  { by rewrite lookup_app_r, Nat.sub_diag by lia. }
  split; [exact Hf|]. cbn [ps_deadlineSeconds ps_fillWindowSeconds snapshotForChain].
  destruct (get chain _) as [c|] eqn:E; [by apply Hc in E; destruct c|apply default_windows_ok].
Qed.

Lemma unchanged_self p v l t v' l' t' : wf (pa_chains p) -> hasChanged (params_of v p l t) (params_of v' p l' t') = false.
Proof.
  intros Hwf. unfold hasChanged, params_of, same_num. simpl. rewrite !bool_decide_eq_true_2 by done. simpl.
  apply not_true_is_false. intros ([chain c] & Hin & Hc)%existsb_exists. apply list_elem_of_In, elem_of_get in Hin; [|done]. rewrite Hin in Hc.
  rewrite !bool_decide_eq_true_2 in Hc by done. done.
Qed.

Lemma built_wf raw prefix : wf (buildChainWindows raw prefix).
Proof. unfold buildChainWindows, chainNames. cbn [foldl]. repeat apply set_wf. apply empty_wf. Qed.

Lemma observe_keeps raw cur ledger now s : let s' := (observe_pending raw cur ledger now s).2 in
  pm_current s' = pm_current s /\ pm_history s' = pm_history s /\ pm_versionCounter s' = pm_versionCounter s.
Proof. unfold observe_pending. repeat case_match; done. Qed.

(** Polling an unchanged contract adopts nothing: after a refresh, another one
    with the same entries leaves parameters, history and version as they are,
    whatever the ledger and the clock say. *)
Theorem unchanged_contract_is_stable raw l1 t1 l2 t2 s :
  let s1 := (applyContractState raw l1 t1 s).2 in
  let s2 := (applyContractState raw l2 t2 s1).2 in
  pm_current s2 = pm_current s1 /\ pm_history s2 = pm_history s1 /\ pm_versionCounter s2 = pm_versionCounter s1.
Proof.
  intros s1 s2. unfold s2, applyContractState.
  destruct (observe_keeps raw (parse_current raw) (of_Z (default 0 l2)) t2 (adopt (parse_current raw) (of_Z (default 0 l2)) t2 s1)) as (-> & -> & ->).
  assert (Hno : forall v l t, hasChanged (pm_current s1) (params_of v (parse_current raw) l t) = false).
  { intros v l t. unfold s1, applyContractState.
    destruct (observe_keeps raw (parse_current raw) (of_Z (default 0 l1)) t1 (adopt (parse_current raw) (of_Z (default 0 l1)) t1 s)) as (-> & _).
    unfold adopt. destruct (hasChanged (pm_current s) _) eqn:E; [apply unchanged_self, built_wf|exact E]. }
  unfold adopt. by rewrite Hno.
Qed.

(** * Where the code and its comments differ *)

Definition answer (raw : jsmap jsval) (ledger t : Z) : RefreshAnswer := {| ra_raw := Some raw; ra_latest := Some ledger; ra_now := t |}.

(** An entry that is missing from one answer falls back to the code default,
    although a live value had been loaded. *)
Theorem missing_entry_reverts_to_default :
  let s := foldl (refresh true) (new_params 0) [answer [("fee_bps", JNumber 100)] 10 1000; answer [] 11 2000] in
  pp_feeBps (pm_current s) = DEFAULT_FEE_BPS /\ pp_version (pm_current s) = 2 /\ pp_feeBps <$> getHistory s = [of_Z 100; of_Z 30].
Proof. split_and!; [vm_compute; by apply Qc_is_canon|reflexivity|]. vm_compute. do 2 f_equal; by apply Qc_is_canon. Qed.

(** A value out of bounds is not rejected: its bound is adopted. *)
Theorem out_of_bounds_is_clamped :
  pp_feeBps (pm_current (refresh true (new_params 0) (answer [("fee_bps", JNumber 5000)] 10 1000))) = of_Z 1000.
Proof. vm_compute. by apply Qc_is_canon. Qed.

(** The windows shown for a pending change are always the code defaults: the
    keys they are read from are never asked of the contract. *)
Theorem pending_windows_are_defaults raw chain : (forall k, has k raw = true -> k ∈ paramKeys) -> chain ∈ chainNames ->
  get chain (buildChainWindows raw "pending_") = Some (default_windows chain).
Proof.
  intros Hk Hc. rewrite get_chain, decide_True by done. f_equal. unfold chain_windows.
  assert (Hno : forall k, bool_decide (k ∈ paramKeys) = false -> has k raw = false).
  { intros k Hb%bool_decide_eq_false. apply not_true_is_false. intros H. by apply Hb, Hk. }
  revert chain Hc. apply Forall_forall. repeat constructor; by rewrite !Hno by (vm_compute; reflexivity).
Qed.

(** A pending change that replaces another one is dated from when the other one
    was first seen. *)
Theorem pending_change_inherits_observation :
  let raw fee ledger := [("pending_fee_bps", JNumber fee); ("pending_execution_ledger", JNumber ledger)] in
  let s := foldl (refresh true) (new_params 0) [answer (raw 40 100) 10 1000; answer (raw 90 500) 20 900000] in
  (fun c => (pc_observedAt c, this (pp_feeBps (pc_params c)))) <$> pm_pending s = Some (1000, inject_Z 90).
Proof. vm_compute. reflexivity. Qed.

(** Of two overlapping refreshes the one that finishes last wins, also when it
    read the contract first: the older fee becomes the newest version. *)
Theorem late_refresh_readopts_old_fee :
  let earlier := answer [("fee_bps", JNumber 50)] 12 3000 in
  let later := answer [("fee_bps", JNumber 80)] 12 2000 in
  let s := foldl (refresh true) (new_params 0) [later; earlier] in
  pp_feeBps (pm_current s) = of_Z 50 /\ pp_version (pm_current s) = 2.
Proof. split; [vm_compute; by apply Qc_is_canon|reflexivity]. Qed.

(** A fill window longer than the whole deadline is adopted: the two are bounded
    apart. *)
Theorem fill_window_may_exceed_deadline :
  let s := refresh true (new_params 0) (answer [("deadline_base", JNumber 60); ("fill_window_base", JNumber 43200)] 10 1000) in
  let snap := snapshotForChain "base" 1000 s in
  (ps_deadlineSeconds snap < ps_fillWindowSeconds snap)%Qc.
Proof. vm_compute. reflexivity. Qed.

(** A pending change scheduled further ahead than a date can express makes every
    refresh fail after the current parameters were adopted. *)
Theorem distant_schedule_breaks_refresh :
  let raw := [("fee_bps", JNumber 70); ("pending_fee_bps", JNumber 40); ("pending_execution_ledger", JBigint 10000000000000)] in
  let '(ok, s) := applyContractState raw (Some 10) 1000 (new_params 0) in
  ok = false /\ pp_version (pm_current s) = 1 /\ pm_pending s = None.
Proof. vm_compute. done. Qed.

Lemma pending_windows_are_defaults_witness :
  get "base" (buildChainWindows [("fee_bps", JNumber 40)] "pending_") = Some (default_windows "base").
Proof.
  apply (pending_windows_are_defaults [("fee_bps", JNumber 40)] "base"); [|by apply (bool_decide_unpack _); vm_compute].
  intros k. unfold has. simpl. case_bool_decide as E; [|done]. intros _. rewrite <- E. by apply (bool_decide_unpack _); vm_compute.
Defined.
