(* ===== verification/Treasury.v ===== *)
(** Treasury accounting (treasury/treasury.service.ts, treasury.types.ts).

    Fees, slashes and refunds are tables, a reconciliation reads them one after
    the other, asks Horizon for the account and stores a snapshot: a program
    other calls interleave with.  What Horizon answers and the clock are
    arguments; dates are milliseconds, a snapshot's date is its day.  The
    percentage of a discrepancy is kept in hundredths. *)
From S2P Require Import Prelude JsMap BigInt Prog SolverFills.
From stdpp Require Import relations.
From Stdlib Require Import Ascii.
Local Open Scope string_scope.
Local Open Scope list_scope.
Local Open Scope Z_scope.
Local Open Scope prog_scope.

(** * Data *)

Record FeeLedgerEntry := { fe_intentId : string; fe_asset : string; fe_amount : string; fe_accrualAt : Z; fe_txHash : option string }.
Record SlashLedgerEntry := {
  se_solverAddress : string; se_asset : string; se_amount : string; se_slashedAt : Z; se_reason : string; se_txHash : option string }.
Record RefundLedgerEntry := {
  re_intentId : string; re_userAddress : string; re_asset : string; re_amount : string; re_issuedAt : Z; re_reason : string; re_txHash : option string }.

Record ExpectedBalance := { eb_asset : string; eb_totalFees : string; eb_totalSlashes : string; eb_totalRefunds : string; eb_netExpected : string }.

(** A balance line of the account: the native one, or code and issuer. *)
Inductive balance_line := Native (balance : string) | Issued (code issuer balance : string) | Other_line.

Record ReconciliationResult := {
  rs_snapshotDay : Z; rs_asset : string; rs_expectedBalance : string; rs_actualBalance : string; rs_discrepancy : string;
  rs_percentage : Z; rs_toleranceThreshold : string; rs_hasUnexplained : bool; rs_explanation : string;
  rs_fees : string; rs_slashes : string; rs_refunds : string;
}.

Record TreasurySnapshot := {
  ts_day : Z; ts_asset : string; ts_expectedBalance : string; ts_actualBalance : string; ts_discrepancy : string;
  ts_toleranceThreshold : string; ts_hasUnexplained : bool; ts_explanation : string; ts_fees : string; ts_slashes : string; ts_refunds : string;
}.

Record TreasuryWorld := {
  tw_fees : list FeeLedgerEntry;
  tw_slashes : list SlashLedgerEntry;
  tw_refunds : list RefundLedgerEntry;
  tw_snapshots : list TreasurySnapshot;
}.

Inductive TreasuryError := BadAmount (text : string) | HorizonFailure.
Notation TM := (prog TreasuryWorld TreasuryError).

Definition toleranceThresholds : jsmap Z := [("native", 10000000); ("USDC", 1000000)].

(** * Recording *)

Definition recordFee (e : FeeLedgerEntry) : TM unit :=
  modify (fun w => {| tw_fees := tw_fees w ++ [e]; tw_slashes := tw_slashes w; tw_refunds := tw_refunds w; tw_snapshots := tw_snapshots w |}).
Definition recordSlash (e : SlashLedgerEntry) : TM unit :=
  modify (fun w => {| tw_fees := tw_fees w; tw_slashes := tw_slashes w ++ [e]; tw_refunds := tw_refunds w; tw_snapshots := tw_snapshots w |}).
Definition recordRefund (e : RefundLedgerEntry) : TM unit :=
  modify (fun w => {| tw_fees := tw_fees w; tw_slashes := tw_slashes w; tw_refunds := tw_refunds w ++ [e]; tw_snapshots := tw_snapshots w |}).

(** * Expected and actual balance *)

(** [reduce] with [BigInt], which throws on what is no integer. *)
Definition add_amount (acc : Z) (amount : string) : outcome TreasuryError Z :=
  match BigInt amount with Some z => Ok (acc + z) | None => Err (BadAmount amount) end.
Definition total (amounts : list string) : outcome TreasuryError Z := outcome_foldl add_amount 0 amounts.
Definition lift_outcome {A} (o : outcome TreasuryError A) : TM A := match o with Ok a => Done a | Err e => Throw e end.

Definition fees_until (asset : string) (until : Z) (w : TreasuryWorld) : list string :=
  fe_amount <$> filter (fun e => fe_asset e = asset /\ fe_accrualAt e <= until) (tw_fees w).
Definition slashes_until (asset : string) (until : Z) (w : TreasuryWorld) : list string :=
  se_amount <$> filter (fun e => se_asset e = asset /\ se_slashedAt e <= until) (tw_slashes w).
Definition refunds_until (asset : string) (until : Z) (w : TreasuryWorld) : list string :=
  re_amount <$> filter (fun e => re_asset e = asset /\ re_issuedAt e <= until) (tw_refunds w).

Definition calculateExpectedBalance (asset : string) (until : Z) : TM ExpectedBalance :=
  fees <- reads (fees_until asset until);
  totalFees <- lift_outcome (total fees);
  slashes <- reads (slashes_until asset until);
  totalSlashes <- lift_outcome (total slashes);
  refunds <- reads (refunds_until asset until);
  totalRefunds <- lift_outcome (total refunds);
  Done {| eb_asset := asset; eb_totalFees := toString totalFees; eb_totalSlashes := toString totalSlashes; eb_totalRefunds := toString totalRefunds;
          eb_netExpected := toString (totalFees + totalSlashes - totalRefunds) |}.

(** [padEnd(7, "0")] *)
Definition padEnd (w : nat) (s : string) : string := s +:+ zeros (w - String.length s).

Definition parseBalance (balance : string) : outcome TreasuryError string :=
  let parts := split_on dot_char balance in
  let whole := default "" (parts !! 0%nat) in
  let decimal := default "" (parts !! 1%nat) in
  match BigInt whole, BigInt (padEnd 7 decimal) with
  | Some w, Some d => Ok (toString (w * 10000000 + d))
  | _, _ => Err (BadAmount balance)
  end.

Definition native_balance (lines : list balance_line) : option string :=
  head (omap (fun l => match l with Native b => Some b | _ => None end) lines).
Definition issued_balance (code issuer : string) (lines : list balance_line) : option string :=
  head (omap (fun l => match l with Issued c i b => if bool_decide (c = code /\ i = issuer) then Some b else None | _ => None end) lines).

Definition parsed_or_zero (o : option string) : outcome TreasuryError string := match o with Some b => parseBalance b | None => Ok "0" end.

(** A token that is neither native nor has an issuer gets the placeholder. *)
Definition fetchActualBalance (account : option (list balance_line)) (asset : string) : outcome TreasuryError string :=
  match account with
  | None => Err HorizonFailure
  | Some lines =>
      if bool_decide (asset = "native") then parsed_or_zero (native_balance lines)
      else
        let parts := split_on ":"%char asset in
        match parts !! 1%nat with
        | Some issuer => if bool_decide (issuer = "") then Ok "0" else parsed_or_zero (issued_balance (default "" (parts !! 0%nat)) issuer lines)
        | None => Ok "0"
        end
  end.

(** * Reconciliation *)

Definition generateExplanation (discrepancy : Z) (unexplained : bool) : string :=
  if discrepancy =? 0 then "Balances match exactly."
  else if negb unexplained then
    "Discrepancy within tolerance threshold. Likely due to in-flight settlements or pending transactions."
  else "Treasury balance is " +:+ (if 0 <? discrepancy then "higher" else "lower") +:+ " than expected by " +:+ toString discrepancy +:+
       " base units. This exceeds the tolerance threshold and requires investigation.".

(** BigInt division cuts towards zero. *)
Definition calculatePercentage (discrepancy expected : Z) : Z := if expected =? 0 then 0 else Z.quot (discrepancy * 10000) expected.

Inductive severity := sev_warning | sev_critical.
Definition getSeverity (r : ReconciliationResult) : severity := if 500 <? Z.abs (rs_percentage r) then sev_critical else sev_warning.

Definition day_of (ms : Z) : Z := ms / 86400000.

Definition tolerance_of (asset : string) : Z := default 0 (get asset toleranceThresholds).

Definition result_of (asset : string) (date : Z) (e : ExpectedBalance) (actual : string) (expectedZ actualZ : Z) : ReconciliationResult :=
  let discrepancy := actualZ - expectedZ in
  let unexplained := tolerance_of asset <? (if discrepancy <? 0 then - discrepancy else discrepancy) in
  {| rs_snapshotDay := day_of date; rs_asset := asset; rs_expectedBalance := eb_netExpected e; rs_actualBalance := actual;
     rs_discrepancy := toString discrepancy; rs_percentage := if 0 <? expectedZ then Z.quot (discrepancy * 10000) expectedZ else 0;
     rs_toleranceThreshold := toString (tolerance_of asset); rs_hasUnexplained := unexplained;
     rs_explanation := generateExplanation discrepancy unexplained;
     rs_fees := eb_totalFees e; rs_slashes := eb_totalSlashes e; rs_refunds := eb_totalRefunds e |}.

Definition snapshot_of (r : ReconciliationResult) (tolerance : string) : TreasurySnapshot :=
  {| ts_day := rs_snapshotDay r; ts_asset := rs_asset r; ts_expectedBalance := rs_expectedBalance r; ts_actualBalance := rs_actualBalance r;
     ts_discrepancy := rs_discrepancy r; ts_toleranceThreshold := tolerance; ts_hasUnexplained := rs_hasUnexplained r;
     ts_explanation := rs_explanation r; ts_fees := rs_fees r; ts_slashes := rs_slashes r; ts_refunds := rs_refunds r |}.

(** The row of the day and asset is created or updated; an update does not
    touch the tolerance. *)
Definition upsert_snapshot (r : ReconciliationResult) (l : list TreasurySnapshot) : list TreasurySnapshot :=
  match list_find (fun t => ts_day t = rs_snapshotDay r /\ ts_asset t = rs_asset r) l with
  | Some (n, old) => <[n := snapshot_of r (ts_toleranceThreshold old)]> l
  | None => l ++ [snapshot_of r (rs_toleranceThreshold r)]
  end.

Definition reconcileAsset (account : option (list balance_line)) (asset : string) (date : Z) : TM ReconciliationResult :=
  e <- calculateExpectedBalance asset date;
  actual <- lift_outcome (fetchActualBalance account asset);
  match BigInt (eb_netExpected e), BigInt actual with
  | Some expectedZ, Some actualZ =>
      let r := result_of asset date e actual expectedZ actualZ in
      modify (fun w => {| tw_fees := tw_fees w; tw_slashes := tw_slashes w; tw_refunds := tw_refunds w;
                          tw_snapshots := upsert_snapshot r (tw_snapshots w) |});;;
      Done r
  | _, _ => Throw (BadAmount actual)
  end.

(** One asset after the other; a failure is logged and skipped.  Each is asked of
    Horizon anew, at its own time. *)
Definition reconcile_next (account : string -> option (list balance_line)) (clock : string -> Z) (results : list ReconciliationResult) (asset : string)
    : TM (list ReconciliationResult) :=
  pcatch (fun _ => Done results) (r <- reconcileAsset (account asset) asset (clock asset); Done (results ++ [r])).

Definition performDailyReconciliation (account : string -> option (list balance_line)) (clock : string -> Z) : TM (list ReconciliationResult) :=
  fromFees <- reads (fun w => fe_asset <$> tw_fees w);
  fromSlashes <- reads (fun w => se_asset <$> tw_slashes w);
  pfold (reconcile_next account clock) [] (uniq (fromFees ++ fromSlashes)).

(** * Amounts *)

Definition amount_of (s : string) : Z := default 0 (BigInt s).

Lemma total_sum l z : total l = Ok z -> z = sumZ amount_of l.
Proof.
  unfold total. assert (H : forall l acc z, outcome_foldl add_amount acc l = Ok z -> z = acc + sumZ amount_of l).
  { intros l'. induction l' as [|s l' IH]; intros acc x; cbn [outcome_foldl]; [intros [= <-]; simpl; lia|].
    cbn [sumZ]. unfold add_amount at 1, amount_of at 1. destruct (BigInt s) as [v|]; [|done]. intros Hx%IH. simpl. lia. }
  intros Hz%H. lia.
Qed.

Lemma parse_horizon z : 0 <= z -> parseBalance (horizon_text z) = Ok (toString z).
Proof.
  intros Hz. unfold parseBalance.
  destruct (padded_digits 6 (z mod 10000000)) as (Hl & Hd & Hb); [apply Z.mod_pos_bound; lia|].
  rewrite split_horizon by done. cbv [from_option lookup list_lookup id].
  rewrite BigInt_toString. unfold padEnd. rewrite Hl. change (zeros (7 - 7)) with "". rewrite str_app_nil, Hb. do 2 f_equal.
  pose proof (Z.div_mod z 10000000). lia.
Qed.

(** * What one reconciliation sees *)

Definition net (asset : string) (until : Z) (w : TreasuryWorld) : Z :=
  sumZ amount_of (fees_until asset until w) + sumZ amount_of (slashes_until asset until w) - sumZ amount_of (refunds_until asset until w).

Definition expected_at (asset : string) (until : Z) (w : TreasuryWorld) : ExpectedBalance :=
  {| eb_asset := asset; eb_totalFees := toString (sumZ amount_of (fees_until asset until w));
     eb_totalSlashes := toString (sumZ amount_of (slashes_until asset until w));
     eb_totalRefunds := toString (sumZ amount_of (refunds_until asset until w)); eb_netExpected := toString (net asset until w) |}.

(** The result for the ledgers of [w] and the account's answer. *)
Definition true_result (w : TreasuryWorld) (account : option (list balance_line)) (asset : string) (date : Z) (r : ReconciliationResult) : Prop :=
  exists actual actualZ, fetchActualBalance account asset = Ok actual /\ BigInt actual = Some actualZ /\
    r = result_of asset date (expected_at asset date w) actual (net asset date w) actualZ.

Inductive TreasuryCall :=
  TFee (e : FeeLedgerEntry) | TSlash (e : SlashLedgerEntry) | TRefund (e : RefundLedgerEntry)
| TReconcile (account : option (list balance_line)) (asset : string) (date : Z).

Definition treasury_call (c : TreasuryCall) : TM (option ReconciliationResult) :=
  match c with
  | TFee e => recordFee e;;; Done None
  | TSlash e => recordSlash e;;; Done None
  | TRefund e => recordRefund e;;; Done None
  | TReconcile account asset date => r <- reconcileAsset account asset date; Done (Some r)
  end.

(** Entries recorded while reconciliations run are dated after them. *)
Definition entry_date (c : TreasuryCall) : option Z :=
  match c with
  | TFee e => Some (fe_accrualAt e) | TSlash e => Some (se_slashedAt e) | TRefund e => Some (re_issuedAt e) | TReconcile _ _ _ => None
  end.

Definition dated_later (calls : list TreasuryCall) : Prop :=
  forall c account asset date at_, c ∈ calls -> TReconcile account asset date ∈ calls -> entry_date c = Some at_ -> date < at_.

Section interleaved.
Context (w0 : TreasuryWorld) (calls : list TreasuryCall) (Hlater : dated_later calls).

Definition from_calls (t : TreasurySnapshot) : Prop :=
  t ∈ tw_snapshots w0 \/ exists account asset date r tolerance, TReconcile account asset date ∈ calls /\ true_result w0 account asset date r /\ t = snapshot_of r tolerance.

Definition ledgers_fixed (w : TreasuryWorld) : Prop :=
  (forall account asset date, TReconcile account asset date ∈ calls ->
     fees_until asset date w = fees_until asset date w0 /\ slashes_until asset date w = slashes_until asset date w0 /\
     refunds_until asset date w = refunds_until asset date w0) /\
  Forall from_calls (tw_snapshots w).

Definition reported (o : option ReconciliationResult) : Prop :=
  match o with None => True | Some r => exists account asset date, TReconcile account asset date ∈ calls /\ true_result w0 account asset date r end.

Notation keeps Q p := (keeps_inv (E := TreasuryError) ledgers_fixed Q p).

Lemma filter_snoc_out {A} (P : A -> Prop) `{forall x, Decision (P x)} l x : ~ P x -> filter P (l ++ [x]) = filter P l.
Proof. intros Hx. rewrite filter_app, filter_cons, decide_False, filter_nil by done. by rewrite app_nil_r. Qed.

Lemma keeps_record c : c ∈ calls -> entry_date c <> None -> keeps reported (treasury_call c).
Proof.
  intros Hc He. destruct c as [e|e|e|? ? ?]; [..|done]; (eapply (inv_bind _ (fun _ => True)); [|done]; apply inv_modify; intros w [Hl Hs];
    split; [|exact Hs]; intros account asset date Hin; destruct (Hl _ _ _ Hin) as (H1 & H2 & H3)).
  all: unfold fees_until, slashes_until, refunds_until in *; simpl; split_and!; try done.
  all: rewrite filter_snoc_out; [done|]; intros [_ Hle]; pose proof (Hlater _ _ _ _ _ Hc Hin eq_refl); lia.
Qed.

Lemma inv_lift {A} (o : outcome TreasuryError A) (Q : A -> Prop) : (forall a, o = Ok a -> Q a) -> keeps Q (lift_outcome o).
Proof. intros H. destruct o; simpl; auto. Qed.

Lemma keeps_expected account asset date : TReconcile account asset date ∈ calls ->
  keeps (fun e => e = expected_at asset date w0) (calculateExpectedBalance asset date).
Proof.
  intros Hin. unfold calculateExpectedBalance.
  eapply inv_bind; [apply (inv_reads _ _ (fun l => l = fees_until asset date w0)); intros w [Hl _]; by destruct (Hl _ _ _ Hin) as (-> & _)|]. intros ? ->.
  eapply (inv_bind _ (fun z => z = sumZ amount_of (fees_until asset date w0))); [apply inv_lift, total_sum|]. intros ? ->.
  eapply inv_bind; [apply (inv_reads _ _ (fun l => l = slashes_until asset date w0)); intros w [Hl _]; by destruct (Hl _ _ _ Hin) as (_ & -> & _)|]. intros ? ->.
  eapply (inv_bind _ (fun z => z = sumZ amount_of (slashes_until asset date w0))); [apply inv_lift, total_sum|]. intros ? ->.
  eapply inv_bind; [apply (inv_reads _ _ (fun l => l = refunds_until asset date w0)); intros w [Hl _]; by destruct (Hl _ _ _ Hin) as (_ & _ & ->)|]. intros ? ->.
  eapply (inv_bind _ (fun z => z = sumZ amount_of (refunds_until asset date w0))); [apply inv_lift, total_sum|]. intros ? ->.
  done.
Qed.

Lemma upsert_from r l : (forall tolerance, from_calls (snapshot_of r tolerance)) -> Forall from_calls l -> Forall from_calls (upsert_snapshot r l).
Proof.
  intros Hr Hl. unfold upsert_snapshot. destruct (list_find _ l) as [[n old]|]; [by apply Forall_insert|]. apply Forall_app. split; [done|]. by constructor.
Qed.

Lemma keeps_reconcile account asset date : TReconcile account asset date ∈ calls ->
  keeps (true_result w0 account asset date) (reconcileAsset account asset date).
Proof.
  intros Hin. unfold reconcileAsset. eapply inv_bind; [by eapply keeps_expected|]. intros ? ->.
  eapply (inv_bind _ (fun a => fetchActualBalance account asset = Ok a)); [by apply inv_lift|]. intros actual Ha. cbn [eb_netExpected expected_at].
  rewrite BigInt_toString. destruct (BigInt actual) as [actualZ|] eqn:Eb; [|done].
  assert (Ht : true_result w0 account asset date (result_of asset date (expected_at asset date w0) actual (net asset date w0) actualZ)) by (by exists actual, actualZ).
  eapply (inv_bind _ (fun _ => True)); [|done]. apply inv_modify. intros w [Hl Hs]. split; [exact Hl|]. apply upsert_from; [|done].
  intros tolerance. right. by eexists _, _, _, _, _.
Qed.
End interleaved.

(** * Theorems *)

(** Reconciliations tell the truth although they read three tables and an
    account one after the other: in any interleaving with each other and with
    entries dated later, each one that finishes reports for its asset the
    difference between the account's balance and fees plus slashes minus
    refunds up to its date, as they were at the start, flags it exactly if it
    exceeds the asset's tolerance, and every snapshot stored is one of these. *)
Theorem reconciliation_is_consistent w0 calls w ps' : dated_later calls ->
  rtc pool_step (w0, treasury_call <$> calls) (w, ps') ->
  (forall r, Done (Some r) ∈ ps' -> exists account asset date, TReconcile account asset date ∈ calls /\ true_result w0 account asset date r) /\
  Forall (from_calls w0 calls) (tw_snapshots w).
Proof.
  intros Hlater Hrun. eapply (pool_inv (ledgers_fixed w0 calls) (reported w0 calls)) in Hrun as [[_ Hs] Hall]; last first.
  - apply Forall_fmap, Forall_forall. intros c Hc. simpl. destruct (entry_date c) eqn:Ed; [by apply keeps_record; [done..|rewrite Ed]|].
    destruct c as [?|?|?|account asset date]; [done..|]. cbn [treasury_call]. eapply inv_bind; [by apply keeps_reconcile|]. intros r Hr. by exists account, asset, date.
  - split; [done|]. apply Forall_forall. intros t Ht. by left.
  - split; [|exact Hs]. intros r Hr. rewrite Forall_forall in Hall. by apply (Hall _ Hr).
Qed.

(** Horizon's balances are read exactly: every amount of stroops, printed with
    seven decimals, is parsed back. *)
Theorem horizon_balance_roundtrip z : 0 <= z -> parseBalance (horizon_text z) = Ok (toString z).
Proof. apply parse_horizon. Qed.

(** ** The daily run *)

(** What the daily run can reconcile. *)
Definition reconcilable (account : option (list balance_line)) (asset : string) (date : Z) (w : TreasuryWorld) : Prop :=
  is_ok (total (fees_until asset date w)) = true /\ is_ok (total (slashes_until asset date w)) = true /\ is_ok (total (refunds_until asset date w)) = true /\
  exists actual actualZ, fetchActualBalance account asset = Ok actual /\ BigInt actual = Some actualZ.

Definition same_ledgers (w w' : TreasuryWorld) : Prop := tw_fees w' = tw_fees w /\ tw_slashes w' = tw_slashes w /\ tw_refunds w' = tw_refunds w.

Definition has_snapshot (asset : string) (day : Z) (w : TreasuryWorld) : Prop := exists t, t ∈ tw_snapshots w /\ ts_day t = day /\ ts_asset t = asset.

Lemma upsert_has r l : exists t, t ∈ upsert_snapshot r l /\ ts_day t = rs_snapshotDay r /\ ts_asset t = rs_asset r.
Proof.
  unfold upsert_snapshot. destruct (list_find _ l) as [[n old]|] eqn:E.
  - apply list_find_Some in E as (Hn & _). exists (snapshot_of r (ts_toleranceThreshold old)). split; [|done]. eapply list_elem_of_lookup_2, list_lookup_insert_eq, lookup_lt_Some, Hn.
  - exists (snapshot_of r (rs_toleranceThreshold r)). split; [apply elem_of_app; right; by left|done].
Qed.

Lemma upsert_keeps r l t : t ∈ l -> exists t', t' ∈ upsert_snapshot r l /\ ts_day t' = ts_day t /\ ts_asset t' = ts_asset t.
Proof.
  intros Ht. unfold upsert_snapshot. destruct (list_find _ l) as [[n old]|] eqn:E.
  - apply list_find_Some in E as (Hn & (Hd & Ha) & _). apply list_elem_of_lookup in Ht as [i Hi]. destruct (decide (i = n)) as [->|Hne].
    + exists (snapshot_of r (ts_toleranceThreshold old)). split; [eapply list_elem_of_lookup_2, list_lookup_insert_eq, lookup_lt_Some, Hn|]. assert (t = old) by congruence. by subst.
    + exists t. split; [|done]. eapply list_elem_of_lookup_2. by rewrite list_lookup_insert_ne.
  - exists t. split; [|done]. apply elem_of_app. by left.
Qed.

Lemma run_lift {A} (o : outcome TreasuryError A) w : run (lift_outcome o) w = (o, w).
Proof. by destruct o. Qed.

Lemma run_expected asset date w : exists o, run (calculateExpectedBalance asset date) w = (o, w) /\
  (is_ok (total (fees_until asset date w)) = true -> is_ok (total (slashes_until asset date w)) = true -> is_ok (total (refunds_until asset date w)) = true ->
   exists z, o = Ok z /\ exists n, BigInt (eb_netExpected z) = Some n).
Proof.
  unfold calculateExpectedBalance. rewrite run_pbind, run_reads, run_pbind, run_lift.
  destruct (total (fees_until asset date w)); [|by eexists]. rewrite run_pbind, run_reads, run_pbind, run_lift.
  destruct (total (slashes_until asset date w)); [|by eexists]. rewrite run_pbind, run_reads, run_pbind, run_lift.
  destruct (total (refunds_until asset date w)); [|by eexists]. eexists. split; [reflexivity|]. intros _ _ _. eexists. split; [done|]. eexists. apply BigInt_toString.
Qed.

Lemma run_reconcile account asset date w : let '(o, w') := run (reconcileAsset account asset date) w in
  same_ledgers w w' /\ (forall a d, has_snapshot a d w -> has_snapshot a d w') /\
  (reconcilable account asset date w -> exists r, o = Ok r /\ has_snapshot asset (day_of date) w').
Proof.
  destruct (run (reconcileAsset account asset date) w) as [o w'] eqn:E. revert E. unfold reconcileAsset. rewrite run_pbind.
  destruct (run_expected asset date w) as (oe & -> & Hoe).
  assert (Hsame : same_ledgers w w /\ forall a d, has_snapshot a d w -> has_snapshot a d w) by done.
  destruct oe as [e|err].
  - rewrite run_pbind, run_lift. destruct (fetchActualBalance account asset) as [actual|err] eqn:Ea.
    + destruct (BigInt (eb_netExpected e)) as [n|] eqn:En, (BigInt actual) as [m|] eqn:Em; intros [= <- <-];
        try (split_and!; [done..|]; intros (H1 & H2 & H3 & a' & z' & Ha' & Hz'); destruct (Hoe H1 H2 H3) as (z & [= <-] & n' & Hn'); congruence).
      split_and!; [done| |].
      * intros a d (t & Ht & Hd & Has). destruct (upsert_keeps (result_of asset date e actual n m) _ _ Ht) as (t' & Ht' & Hd' & Has'). exists t'. split; [done|]. by rewrite Hd', Has'.
      * intros _. eexists. split; [done|]. destruct (upsert_has (result_of asset date e actual n m) (tw_snapshots w)) as (t & Ht & Hd & Has). by exists t.
    + intros [= <- <-]. split_and!; [done..|]. intros (_ & _ & _ & a' & z' & Ha' & _). congruence.
  - intros [= <- <-]. split_and!; [done..|]. intros (H1 & H2 & H3 & _). by destruct (Hoe H1 H2 H3) as (z & ? & _).
Qed.

Lemma reconcilable_same account asset date w w' : same_ledgers w w' -> reconcilable account asset date w -> reconcilable account asset date w'.
Proof. intros (E1 & E2 & E3). unfold reconcilable, fees_until, slashes_until, refunds_until. by rewrite E1, E2, E3. Qed.

Lemma run_next account clock results asset w : exists results' w', run (reconcile_next account clock results asset) w = (Ok results', w') /\
  same_ledgers w w' /\ (forall a d, has_snapshot a d w -> has_snapshot a d w') /\
  (reconcilable (account asset) asset (clock asset) w -> has_snapshot asset (day_of (clock asset)) w').
Proof.
  unfold reconcile_next. rewrite run_pcatch, run_pbind. pose proof (run_reconcile (account asset) asset (clock asset) w) as H.
  destruct (run (reconcileAsset _ _ _) w) as [[r|e] w'].
  - destruct H as (H1 & H2 & H3). eexists _, _. split; [reflexivity|]. split_and!; [done..|]. intros Hr. by destruct (H3 Hr) as (? & _ & ?).
  - destruct H as (H1 & H2 & H3). eexists _, _. split; [reflexivity|]. split_and!; [done..|]. intros Hr. by destruct (H3 Hr) as (? & ? & _).
Qed.

Lemma run_assets account clock assets : forall results w, exists results' w', run (pfold (reconcile_next account clock) results assets) w = (Ok results', w') /\
  (forall a d, has_snapshot a d w -> has_snapshot a d w') /\
  forall asset, asset ∈ assets -> reconcilable (account asset) asset (clock asset) w -> has_snapshot asset (day_of (clock asset)) w'.
Proof.
  induction assets as [|a assets IH]; intros results w; cbn [pfold].
  - eexists _, _. split; [reflexivity|]. split; [done|]. intros asset Ha. by apply elem_of_nil in Ha.
  - rewrite run_pbind. destruct (run_next account clock results a w) as (res1 & w1 & -> & Hs & Hk & Hn).
    destruct (IH res1 w1) as (res2 & w2 & -> & Hk2 & Hn2). eexists _, _. split; [reflexivity|]. split; [auto|].
    intros asset [->|Hin]%elem_of_cons Hr; [auto|]. apply Hn2; [done|]. by eapply reconcilable_same.
Qed.

(** The daily run ends whatever fails in between, and leaves a snapshot of the
    day for every asset with a fee or a slash whose amounts parse and whose
    balance Horizon answers. *)
Theorem daily_run_covers_assets account clock w : exists results w',
  run (performDailyReconciliation account clock) w = (Ok results, w') /\
  forall asset, asset ∈ (fe_asset <$> tw_fees w) ++ (se_asset <$> tw_slashes w) ->
    reconcilable (account asset) asset (clock asset) w -> has_snapshot asset (day_of (clock asset)) w'.
Proof.
  unfold performDailyReconciliation. rewrite run_pbind, run_reads, run_pbind, run_reads.
  destruct (run_assets account clock (uniq ((fe_asset <$> tw_fees w) ++ (se_asset <$> tw_slashes w))) [] w) as (results & w' & -> & _ & Hn).
  eexists _, _. split; [reflexivity|]. intros asset Ha. apply Hn. by apply elem_of_uniq.
Qed.

(** * Concrete runs and gaps *)

Definition native_fee (amount : string) (at_ : Z) : FeeLedgerEntry :=
  {| fe_intentId := "i1"; fe_asset := "native"; fe_amount := amount; fe_accrualAt := at_; fe_txHash := None |}.
Definition native_refund (amount : string) (at_ : Z) : RefundLedgerEntry :=
  {| re_intentId := "i1"; re_userAddress := "GU"; re_asset := "native"; re_amount := amount; re_issuedAt := at_; re_reason := "late"; re_txHash := None |}.
Definition books : TreasuryWorld := {| tw_fees := [native_fee "50000000" 10]; tw_slashes := []; tw_refunds := [native_refund "20000000" 20]; tw_snapshots := [] |}.

Definition busy_day : list TreasuryCall := [TReconcile (Some [Native "3.5000000"]) "native" 100; TFee (native_fee "7" 200)].
Definition busy_run := schedule [0; 1; 0; 0; 0; 0; 0]%nat books (treasury_call <$> busy_day).

Lemma reconciliation_is_consistent_witness :
  rs_discrepancy <$> head (omap (fun p => match p with Done o => o | _ => None end) busy_run.2) = Some "5000000" /\
  Forall (from_calls books busy_day) (tw_snapshots busy_run.1).
Proof.
  split; [vm_compute; reflexivity|].
  apply (reconciliation_is_consistent books busy_day busy_run.1 busy_run.2).
  - intros c account asset date at_ Hc Hr He. unfold busy_day in *.
    apply elem_of_cons in Hr as [Hr|[Hr|Hr%elem_of_nil]%elem_of_cons]; [|done|done]. simplify_eq.
    apply elem_of_cons in Hc as [->|[->|Hc%elem_of_nil]%elem_of_cons]; [done| |done]. simpl in He. simplify_eq. lia.
  - rewrite <- surjective_pairing. apply schedule_steps.
Defined.

Lemma horizon_balance_roundtrip_witness : parseBalance "12.0000034" = Ok "120000034".
Proof. exact (horizon_balance_roundtrip 120000034 ltac:(lia)). Defined.

(** An asset that only has refunds is never reconciled, however large they are. *)
Theorem refund_only_asset_is_skipped :
  let w := {| tw_fees := []; tw_slashes := []; tw_refunds := [native_refund "20000000" 20]; tw_snapshots := [] |} in
  run (performDailyReconciliation (fun _ => Some [Native "0.0000000"]) (fun _ => 100)) w = (Ok [], w) /\ net "native" 100 w = -20000000.
Proof. split; vm_compute; reflexivity. Qed.

(** The tolerance for USDC is stored under the bare code; the assets Horizon can
    answer for carry their issuer and have none.  Under the bare code the
    balance is a placeholder. *)
Theorem usdc_tolerance_never_applies issuer lines :
  tolerance_of ("USDC:" +:+ issuer) = 0 /\ fetchActualBalance (Some lines) "USDC" = Ok "0".
Proof. split; [|done]. unfold tolerance_of, toleranceThresholds. simpl. done. Qed.

(** When refunds exceed income the reported percentage is zero, so that no
    discrepancy of such an asset is ever critical; the summary recomputes the
    percentage from the same numbers and gets another one. *)
Theorem deficit_is_never_critical asset date e actual expectedZ actualZ : expectedZ <= 0 ->
  let r := result_of asset date e actual expectedZ actualZ in rs_percentage r = 0 /\ getSeverity r = sev_warning.
Proof. intros He r. unfold r, getSeverity. simpl. by rewrite (proj2 (Z.ltb_ge _ _)) by lia. Qed.

Theorem summary_percentage_differs e : let r := result_of "native" 0 e "0" (-100) 0 in
  rs_discrepancy r = "100" /\ rs_percentage r = 0 /\ calculatePercentage 100 (-100) = -10000.
Proof. done. Qed.

Lemma deficit_is_never_critical_witness e : getSeverity (result_of "native" 0 e "0" (-100) 1000000) = sev_warning.
Proof. by apply (deficit_is_never_critical "native" 0 e "0" (-100) 1000000). Defined.
