(* ===== verification/TtlKeeper.v ===== *)
(** The keeper of contract-state lifetimes (soroban/ttl-keeper.service.ts,
    ttl-keys.ts, and extendFootprintTtl of stellar-tx.service.ts).

    Overlapping runs share one promise, so runs follow each other; the budget is
    the only state they keep.  Ledger keys are their XDR text, which the Stellar
    SDK makes; what the RPC, the signer and the clock answer are arguments. *)
From S2P Require Import Prelude JsMap.
Local Open Scope string_scope.
Local Open Scope list_scope.
Local Open Scope Z_scope.

(** * Keys *)

Inductive TtlKeyKind := k_instance | k_code | k_intent | k_bond.
#[export] Instance TtlKeyKind_eq : EqDecision TtlKeyKind.
Proof. solve_decision. Defined.
Inductive TtlContract := c_settlement | c_solver_registry.

Record TrackedLedgerKey := { tk_kind : TtlKeyKind; tk_contract : TtlContract; tk_subject : string; tk_keyXdr : string }.
Record ScannedKey := { sk_key : TrackedLedgerKey; sk_liveUntil : option Z; sk_remaining : Z }.

Definition critical (k : TtlKeyKind) : bool := match k with k_instance | k_code => true | _ => false end.

Fixpoint dedupe_from (seen : list string) (keys : list TrackedLedgerKey) : list TrackedLedgerKey :=
  match keys with
  | [] => []
  | k :: keys => if bool_decide (tk_keyXdr k ∈ seen) then dedupe_from seen keys else k :: dedupe_from (tk_keyXdr k :: seen) keys
  end.
Definition dedupeKeys (keys : list TrackedLedgerKey) : list TrackedLedgerKey := dedupe_from [] keys.

Definition rank (k : ScannedKey) : Z := if critical (tk_kind (sk_key k)) then 0 else 1.
Definition urgency (a b : ScannedKey) : Z := if rank a - rank b =? 0 then sk_remaining a - sk_remaining b else rank a - rank b.
Definition prioritise (keys : list ScannedKey) : list ScannedKey := sort_by urgency keys.

(** The loop over offsets; the argument check is [batchKeys]'s. *)
Fixpoint batches {A} (fuel n : nat) (keys : list A) : list (list A) :=
  match fuel, keys with
  | S fuel, _ :: _ => take n keys :: batches fuel n (drop n keys)
  | _, _ => []
  end.
Definition batchKeys {A} (keys : list A) (maxPerTx : Z) : option (list (list A)) :=
  if maxPerTx <? 1 then None else Some (batches (length keys) (Z.to_nat maxPerTx) keys).

(** * Which keys are watched *)

Record KeyEnv := {
  ke_settlementId : option string; ke_registryId : option string;
  ke_instanceXdr : string -> string; ke_codeXdr : string -> string; ke_intentXdr : string -> string; ke_bondXdr : string -> option string;
  (** the WASM hashes the instances' entries carry, by instance key *)
  ke_wasmHash : string -> option string;
}.

Definition instance_key (env : KeyEnv) (c : TtlContract) (id : string) : TrackedLedgerKey :=
  {| tk_kind := k_instance; tk_contract := c; tk_subject := id; tk_keyXdr := ke_instanceXdr env id |}.
Definition code_key (env : KeyEnv) (c : TtlContract) (hash : string) : TrackedLedgerKey :=
  {| tk_kind := k_code; tk_contract := c; tk_subject := toLowerCase hash; tk_keyXdr := ke_codeXdr env hash |}.
Definition intent_key (env : KeyEnv) (id : string) : TrackedLedgerKey :=
  {| tk_kind := k_intent; tk_contract := c_settlement; tk_subject := id; tk_keyXdr := ke_intentXdr env id |}.
Definition bond_key (env : KeyEnv) (solver : string) : option TrackedLedgerKey :=
  (fun x => {| tk_kind := k_bond; tk_contract := c_solver_registry; tk_subject := solver; tk_keyXdr := x |}) <$> ke_bondXdr env solver.

Definition configured (o : option string) : list string := match o with Some s => if bool_decide (s = "") then [] else [s] | None => [] end.

(** [activeIntents]: the intents of the active states, in the order asked;
    [solvers]: address and activity of every solver. *)
Definition deriveKeys (env : KeyEnv) (activeIntents : list string) (solvers : list (string * bool)) : list TrackedLedgerKey :=
  let instances := (instance_key env c_settlement <$> configured (ke_settlementId env)) ++
                   (instance_key env c_solver_registry <$> configured (ke_registryId env)) in
  match instances with
  | [] => []
  | _ =>
      let codes := omap (fun k => code_key env (tk_contract k) <$> ke_wasmHash env (tk_keyXdr k)) instances in
      let intents := match configured (ke_settlementId env) with [] => [] | _ => intent_key env <$> activeIntents end in
      let bonds := match configured (ke_registryId env) with
                   | [] => []
                   | _ => omap (fun '(address, active) => if (active : bool) then bond_key env address else None) solvers
                   end in
      dedupeKeys (instances ++ codes ++ intents ++ bonds)
  end.

(** * Scanning *)

Definition RPC_MAX_KEYS_PER_READ : Z := 200.

(** One answer: the latest ledger and the entries found, with their lifetime. *)
Definition LedgerEntries : Type := Z * list (string * option Z).

Definition scan_chunk (getLedgerEntries : list string -> LedgerEntries) (acc : Z * jsmap (option Z)) (chunk : list TrackedLedgerKey) : Z * jsmap (option Z) :=
  let '(latest, entries) := getLedgerEntries (tk_keyXdr <$> chunk) in
  (Z.max acc.1 latest, foldl (fun m '(k, live) => set k live m) acc.2 entries).

Definition scan (getLedgerEntries : list string -> LedgerEntries) (latestLedger : Z) (keys : list TrackedLedgerKey) : Z * list ScannedKey :=
  let chunks := default [] (batchKeys keys RPC_MAX_KEYS_PER_READ) in
  let '(seen, live) := foldl (scan_chunk getLedgerEntries) (0, []) chunks in
  let latest := if seen =? 0 then latestLedger else seen in
  (latest, (fun k => let liveUntil := default None (get (tk_keyXdr k) live) in
     {| sk_key := k; sk_liveUntil := liveUntil; sk_remaining := match liveUntil with None => -1 | Some l => l - latest end |}) <$> keys).

Inductive TtlEntryStatus := st_ok | st_below_threshold | st_missing.
#[export] Instance TtlEntryStatus_eq : EqDecision TtlEntryStatus.
Proof. solve_decision. Defined.
Definition entry_status (threshold : Z) (k : ScannedKey) : TtlEntryStatus :=
  match sk_liveUntil k with None => st_missing | Some _ => if sk_remaining k <=? threshold then st_below_threshold else st_ok end.

Definition eligible (threshold : Z) (scanned : list ScannedKey) : list ScannedKey :=
  filter (fun k => sk_liveUntil k <> None /\ sk_remaining k <= threshold) scanned.

(** * One transaction: extendFootprintTtl *)

Inductive ExtendStatus := ex_success | ex_dry_run | ex_over_budget.
Record ExtendResult := { er_hash : option string; er_status : ExtendStatus; er_fee : Z }.
Inductive ExtendError := NoLedgerKeys | WriteBlocked | SimulationFailed | OverBudget (fee : Z) | PrepareFailed | SubmitFailed | NotConfirmed.

(** What the network and the flags answer to one attempt. *)
Record ExtendEnv := {
  xe_allowed : bool;
  xe_estimate : option Z;
  xe_dryRun : bool;
  xe_prepared : option Z;
  xe_sent : option string;
  xe_confirmed : bool;
}.

Definition extendFootprintTtl (env : ExtendEnv) (keys : list string) (maxFee : Z) : outcome ExtendError ExtendResult :=
  match keys with
  | [] => Err NoLedgerKeys
  | _ =>
      if negb (xe_allowed env) then Err WriteBlocked
      else match xe_estimate env with
      | None => Err SimulationFailed
      | Some estimate =>
          if maxFee <? estimate then Ok {| er_hash := None; er_status := ex_over_budget; er_fee := estimate |}
          else if xe_dryRun env then Ok {| er_hash := None; er_status := ex_dry_run; er_fee := estimate |}
          else match xe_prepared env with
          | None => Err PrepareFailed
          | Some fee =>
              if maxFee <? fee then Err (OverBudget fee)
              else match xe_sent env with
              | None => Err SubmitFailed
              | Some hash => if xe_confirmed env then Ok {| er_hash := Some hash; er_status := ex_success; er_fee := fee |} else Err NotConfirmed
              end
          end
      end
  end.

(** * Extending within the budget *)

Record Budget := { bu_day : Z; bu_spent : Z }.

Definition currentBudget (today : Z) (b : Budget) : Budget := if bu_day b =? today then b else {| bu_day := today; bu_spent := 0 |}.
Definition spend (today stroops : Z) (b : Budget) : Budget :=
  let b := currentBudget today b in {| bu_day := bu_day b; bu_spent := bu_spent b + stroops |}.

Inductive TxStatus := tx_success | tx_dry_run | tx_over_budget | tx_failed.
#[export] Instance TxStatus_eq : EqDecision TxStatus.
Proof. solve_decision. Defined.
Record TxRecord := { tr_keys : list ScannedKey; tr_status : TxStatus; tr_fee : Z }.
Record TtlExtensionSummary := { es_extended : Z; es_transactions : list TxRecord; es_budgetExhausted : bool }.

Definition put_tx (t : TxRecord) (extended : Z) (stop : bool) (s : TtlExtensionSummary) : TtlExtensionSummary :=
  {| es_extended := es_extended s + extended; es_transactions := es_transactions s ++ [t]; es_budgetExhausted := es_budgetExhausted s || stop |}.

(** The day when the budget is looked at and when it is charged, and the answers
    in between. *)
Record BatchEnv := { be_checkDay : Z; be_spendDay : Z; be_extend : ExtendEnv }.

Fixpoint extend_batches (daily : Z) (todo : list (list ScannedKey * BatchEnv)) (b : Budget) (s : TtlExtensionSummary) : Budget * TtlExtensionSummary :=
  match todo with
  | [] => (b, s)
  | (batch, env) :: todo =>
      let b := currentBudget (be_checkDay env) b in
      let remaining := daily - bu_spent b in
      if remaining <=? 0 then (b, {| es_extended := es_extended s; es_transactions := es_transactions s; es_budgetExhausted := true |})
      else
        let record st fee := {| tr_keys := batch; tr_status := st; tr_fee := fee |} in
        match extendFootprintTtl (be_extend env) ((fun k => tk_keyXdr (sk_key k)) <$> batch) remaining with
        | Ok r =>
            match er_status r with
            | ex_over_budget => (b, put_tx (record tx_over_budget (er_fee r)) 0 true s)
            | ex_dry_run => extend_batches daily todo b (put_tx (record tx_dry_run (er_fee r)) 0 false s)
            | ex_success => extend_batches daily todo (spend (be_spendDay env) (er_fee r) b)
                              (put_tx (record tx_success (er_fee r)) (Z.of_nat (length batch)) false s)
            end
        | Err (OverBudget fee) => (b, put_tx (record tx_over_budget fee) 0 true s)
        | Err _ => extend_batches daily todo b (put_tx (record tx_failed 0) 0 false s)
        end
  end.

Definition empty_summary : TtlExtensionSummary := {| es_extended := 0; es_transactions := []; es_budgetExhausted := false |}.

(** [envs n] is what happens around the [n]-th transaction.  [None] when the
    configured batch size is no positive number, which throws. *)
Definition extend (maxKeysPerTx daily : Z) (envs : nat -> BatchEnv) (keys : list ScannedKey) (b : Budget) : option (Budget * TtlExtensionSummary) :=
  match keys with
  | [] => Some (b, empty_summary)
  | _ =>
      bs ← batchKeys (prioritise keys) maxKeysPerTx;
      Some (extend_batches daily (imap (fun n batch => (batch, envs n)) bs) b empty_summary)
  end.

(** * Batches and order *)

Lemma batches_spec {A} fuel n (keys : list A) : (0 < n)%nat -> (length keys <= fuel)%nat ->
  concat (batches fuel n keys) = keys /\ Forall (fun b => b <> [] /\ (length b <= n)%nat) (batches fuel n keys).
Proof.
  intros Hn. revert keys. induction fuel as [|fuel IH]; intros [|k keys] Hl; simpl in Hl; try done; try lia.
  cbn [batches]. destruct (IH (drop n (k :: keys))) as [H1 H2]; [rewrite length_drop; simpl; lia|]. split.
  - cbn [concat]. rewrite H1. apply take_drop.
  - constructor; [|exact H2]. split; [destruct n; [lia|done]|]. rewrite length_take. lia.
Qed.

Lemma batchKeys_spec {A} (keys : list A) m bs : batchKeys keys m = Some bs ->
  concat bs = keys /\ Forall (fun b => b <> [] /\ Z.of_nat (length b) <= m) bs.
Proof.
  unfold batchKeys. destruct (Z.ltb_spec m 1); [done|]. intros [= <-].
  destruct (batches_spec (length keys) (Z.to_nat m) keys) as [H1 H2]; [lia..|]. split; [done|].
  eapply Forall_impl; [exact H2|]. intros b [? ?]. split; [done|lia].
Qed.

(** Critical entries first, then those closest to archival. *)
Definition before (a b : ScannedKey) : Prop := rank a < rank b \/ rank a = rank b /\ sk_remaining a <= sk_remaining b.

Lemma prioritise_sorted keys : StronglySorted before (prioritise keys).
Proof.
  apply sort_by_total; unfold urgency, before.
  - intros a b. destruct (Z.eqb_spec (rank a - rank b) 0); lia.
  - intros a b. destruct (Z.eqb_spec (rank a - rank b) 0); lia.
  - intros a b c. lia.
Qed.

Lemma dedupe_from_spec seen keys :
  NoDup (tk_keyXdr <$> dedupe_from seen keys) /\ Forall (fun k => tk_keyXdr k ∉ seen /\ k ∈ keys) (dedupe_from seen keys) /\
  forall k, k ∈ keys -> tk_keyXdr k ∈ seen \/ tk_keyXdr k ∈ tk_keyXdr <$> dedupe_from seen keys.
Proof.
  revert seen. induction keys as [|k keys IH]; intros seen; simpl; [split_and!; [constructor..|]; set_solver|]. case_bool_decide as Hs.
  - destruct (IH seen) as (H1 & H2 & H3). split_and!; [done| |].
    + eapply Forall_impl; [exact H2|]. intros x [? ?]. split; [done|by right].
    + intros x [->|Hx]%elem_of_cons; [by left|by apply H3].
  - destruct (IH (tk_keyXdr k :: seen)) as (H1 & H2 & H3). csimpl. split_and!.
    + constructor; [|done]. intros (x & Hx & Hin)%list_elem_of_fmap. rewrite Forall_forall in H2. destruct (H2 _ Hin) as [Hn _].
      apply Hn. rewrite <- Hx. by left.
    + constructor; [split; [done|by left]|]. eapply Forall_impl; [exact H2|]. intros x [Hn ?]. split; [|by right]. intros Hx. apply Hn. by right.
    + intros x [->|Hx]%elem_of_cons; [right; by left|]. apply H3 in Hx as [[->|?]%elem_of_cons|?]; [right; by left|by left|right; by right].
Qed.

(** * What a run does to the budget *)

(** The fees charged, with the day they were charged on. *)
Definition charges (todo : list (list ScannedKey * BatchEnv)) (txs : list TxRecord) : list (Z * Z) :=
  omap (fun '(t, env) => if bool_decide (tr_status t = tx_success) then Some (be_spendDay env, tr_fee t) else None) (zip txs (snd <$> todo)).

Definition charged_on (day : Z) (log : list (Z * Z)) : Z := sumZ snd (filter (fun c => c.1 = day) log).

Lemma charged_on_app day l1 l2 : charged_on day (l1 ++ l2) = charged_on day l1 + charged_on day l2.
Proof. unfold charged_on. by rewrite filter_app, sumZ_app. Qed.

(** The extension of one batch never charges more than what is left. *)
Lemma extend_within env keys maxFee r : extendFootprintTtl env keys maxFee = Ok r -> er_status r = ex_success -> er_fee r <= maxFee.
Proof.
  unfold extendFootprintTtl. destruct keys; [done|]. destruct (negb _); [done|]. destruct (xe_estimate env) as [est|]; [|done].
  destruct (_ <? est); [by intros [= <-]|]. destruct (xe_dryRun env); [by intros [= <-]|]. destruct (xe_prepared env) as [fee|]; [|done].
  destruct (Z.ltb_spec maxFee fee); [done|]. destruct (xe_sent env); [|done]. destruct (xe_confirmed env); [|done]. by intros [= <-].
Qed.

Definition fees_nonneg (todo : list (list ScannedKey * BatchEnv)) : Prop :=
  Forall (fun x => forall fee, xe_prepared (be_extend x.2) = Some fee -> 0 <= fee) todo.

Lemma extend_fee_nonneg env keys maxFee r : (forall fee, xe_prepared env = Some fee -> 0 <= fee) ->
  extendFootprintTtl env keys maxFee = Ok r -> er_status r = ex_success -> 0 <= er_fee r.
Proof.
  intros Hf. unfold extendFootprintTtl. destruct keys; [done|]. destruct (negb _); [done|]. destruct (xe_estimate env) as [est|]; [|done].
  destruct (_ <? est); [by intros [= <-]|]. destruct (xe_dryRun env); [by intros [= <-]|]. destruct (xe_prepared env) as [fee|]; [|done].
  destruct (Z.ltb_spec maxFee fee); [done|]. destruct (xe_sent env); [|done]. destruct (xe_confirmed env); [|done]. intros [= <-] _. by apply Hf.
Qed.

Definition days_of (todo : list (list ScannedKey * BatchEnv)) : list Z := todo ≫= fun x => [be_checkDay x.2; be_spendDay x.2].

(** The budget [b] accounts for the log. *)
Definition accounts (daily : Z) (log : list (Z * Z)) (b : Budget) : Prop :=
  0 <= bu_spent b <= daily /\ charged_on (bu_day b) log = bu_spent b /\ (forall d, charged_on d log <= daily) /\
  forall d f, (d, f) ∈ log -> d <= bu_day b.

Lemma charged_later day log b daily : accounts daily log b -> bu_day b < day -> charged_on day log = 0.
Proof.
  intros (_ & _ & _ & H) Hd. unfold charged_on. rewrite filter_none; [done|]. intros [d f] Hin. simpl. apply H in Hin. lia.
Qed.

Lemma accounts_today daily log b today : 0 <= daily -> accounts daily log b -> bu_day b <= today -> accounts daily log (currentBudget today b).
Proof.
  intros Hd Hacc Ht. unfold currentBudget. destruct (Z.eqb_spec (bu_day b) today) as [E|E]; [done|].
  pose proof (charged_later today log b daily Hacc ltac:(lia)) as Hz. destruct Hacc as (Hs & Hc & Hall & Hlog). split_and!; simpl; [lia|lia|done|done|].
  intros d f Hin. apply Hlog in Hin. lia.
Qed.

Lemma accounts_spend daily log b today fee : 0 <= fee -> bu_spent b + fee <= daily -> accounts daily log b -> bu_day b <= today ->
  accounts daily (log ++ [(today, fee)]) (spend today fee b).
Proof.
  intros Hf Hle Hacc Ht. assert (Hd : 0 <= daily) by (destruct Hacc; lia). pose proof (accounts_today daily log b today Hd Hacc Ht) as (Hs & Hc & Hall & Hlog).
  assert (Hsp : bu_spent (currentBudget today b) + fee <= daily).
  { unfold currentBudget. destruct (_ =? _); [done|]. simpl. destruct Hacc as ((? & ?) & _). lia. }
  assert (Hday : bu_day (currentBudget today b) = today) by (unfold currentBudget; by destruct (Z.eqb_spec (bu_day b) today)).
  assert (Hone : forall d, charged_on d [(today, fee)] = if decide (today = d) then fee else 0).
  { intros d. unfold charged_on. rewrite filter_cons. simpl. case_decide; simpl; lia. }
  unfold spend. split_and!; simpl; [lia|lia| | |].
  - rewrite charged_on_app, Hc, Hone, Hday. by rewrite decide_True.
  - intros d. rewrite charged_on_app, Hone. case_decide as E; [|specialize (Hall d); lia]. subst d. rewrite <- Hday, Hc. lia.
  - intros d f [Hin|Hin]%elem_of_app; [by eapply Hlog|]. apply list_elem_of_singleton in Hin. injection Hin as -> ->. lia.
Qed.

Lemma charges_cons batch env todo t txs : charges ((batch, env) :: todo) (t :: txs) =
  (if bool_decide (tr_status t = tx_success) then [(be_spendDay env, tr_fee t)] else []) ++ charges todo txs.
Proof. unfold charges. csimpl. by case_bool_decide. Qed.

Lemma charges_nil todo : charges todo [] = [].
Proof. done. Qed.

(** Transactions are made for the batches in turn, and for all of them unless
    the budget ran out. *)
Lemma extend_shape daily todo : forall b s, let '(b', s') := extend_batches daily todo b s in
  exists txs, es_transactions s' = es_transactions s ++ txs /\ (tr_keys <$> txs) `prefix_of` (fst <$> todo) /\
    (es_budgetExhausted s' = false -> tr_keys <$> txs = fst <$> todo) /\
    es_extended s' = es_extended s + sumZ (fun t => if bool_decide (tr_status t = tx_success) then Z.of_nat (length (tr_keys t)) else 0) txs.
Proof.
  induction todo as [|[batch env] todo IH]; intros b s; cbn [extend_batches].
  { exists []. rewrite app_nil_r. split_and!; [done|done|done|simpl; lia]. }
  destruct (_ <=? 0).
  { exists []. rewrite app_nil_r. split_and!; [done|apply prefix_nil|done|simpl; lia]. }
  set (b1 := currentBudget (be_checkDay env) b).
  assert (Hstop : forall t, tr_keys t = batch -> tr_status t = tx_over_budget -> exists txs,
    es_transactions (put_tx t 0 true s) = es_transactions s ++ txs /\ (tr_keys <$> txs) `prefix_of` (fst <$> (batch, env) :: todo) /\
    (es_budgetExhausted (put_tx t 0 true s) = false -> tr_keys <$> txs = fst <$> (batch, env) :: todo) /\
    es_extended (put_tx t 0 true s) = es_extended s + sumZ (fun t => if bool_decide (tr_status t = tx_success) then Z.of_nat (length (tr_keys t)) else 0) txs).
  { intros t Hk Ht. exists [t]. csimpl. rewrite Hk, Ht. split_and!; [done|apply prefix_cons, prefix_nil|by rewrite orb_true_r|simpl; lia]. }
  assert (Hgo : forall t n b2, tr_keys t = batch -> n = (if bool_decide (tr_status t = tx_success) then Z.of_nat (length batch) else 0) ->
    let '(b', s') := extend_batches daily todo b2 (put_tx t n false s) in exists txs,
    es_transactions s' = es_transactions s ++ txs /\ (tr_keys <$> txs) `prefix_of` (fst <$> (batch, env) :: todo) /\
    (es_budgetExhausted s' = false -> tr_keys <$> txs = fst <$> (batch, env) :: todo) /\
    es_extended s' = es_extended s + sumZ (fun t => if bool_decide (tr_status t = tx_success) then Z.of_nat (length (tr_keys t)) else 0) txs).
  { intros t n b2 Hk ->. specialize (IH b2 (put_tx t (if bool_decide (tr_status t = tx_success) then Z.of_nat (length batch) else 0) false s)).
    destruct (extend_batches daily todo b2 _) as [b' s']. destruct IH as (txs & H1 & H2 & H3 & H4). exists (t :: txs). csimpl. rewrite Hk. split_and!.
    - rewrite H1. simpl. by rewrite <- app_assoc.
    - by apply prefix_cons.
    - intros He. by rewrite H3.
    - rewrite H4. simpl. lia. }
  destruct (extendFootprintTtl _ _ _) as [r|[| | |fee| | |]].
  - destruct (er_status r); [by apply Hgo|by apply Hgo|by apply Hstop].
  - by apply Hgo. - by apply Hgo. - by apply Hgo. - by apply Hstop. - by apply Hgo. - by apply Hgo. - by apply Hgo.
Qed.

Lemma current_day today b : bu_day (currentBudget today b) = today.
Proof. unfold currentBudget. by destruct (Z.eqb_spec (bu_day b) today). Qed.

Lemma extend_accounts daily todo : forall b s log, accounts daily log b -> fees_nonneg todo -> StronglySorted Z.le (bu_day b :: days_of todo) ->
  let '(b', s') := extend_batches daily todo b s in
  exists txs, es_transactions s' = es_transactions s ++ txs /\ accounts daily (log ++ charges todo txs) b' /\ bu_day b' ∈ bu_day b :: days_of todo.
Proof.
  induction todo as [|[batch env] todo IH]; intros b s log Hacc Hfee Hs; cbn [extend_batches].
  { exists []. rewrite !app_nil_r. split_and!; [done|done|by left]. }
  unfold days_of in Hs. rewrite bind_cons in Hs. simpl in Hs. fold (days_of todo) in Hs.
  apply StronglySorted_inv in Hs as [Hs Hday]. inversion Hday as [|? ? Hb1 Hday']; subst.
  apply StronglySorted_inv in Hs as [Hs Hck]. inversion Hck as [|? ? Hcs _]; subst. apply Forall_cons in Hfee as [Hf Hfee].
  assert (Hd : 0 <= daily) by (destruct Hacc; lia).
  pose proof (accounts_today daily log b (be_checkDay env) Hd Hacc Hb1) as Hacc1.
  set (b1 := currentBudget (be_checkDay env) b) in *. assert (Hb1d : bu_day b1 = be_checkDay env) by apply current_day.
  assert (Hin : bu_day b1 ∈ bu_day b :: days_of ((batch, env) :: todo)) by (unfold days_of; rewrite bind_cons, Hb1d; right; by left).
  assert (Hstop : forall t, tr_status t <> tx_success -> exists txs,
    es_transactions (put_tx t 0 true s) = es_transactions s ++ txs /\ accounts daily (log ++ charges ((batch, env) :: todo) txs) b1 /\
    bu_day b1 ∈ bu_day b :: days_of ((batch, env) :: todo)).
  { intros t Ht. exists [t]. split_and!; [done| |done]. rewrite charges_cons, bool_decide_eq_false_2, charges_nil, !app_nil_r by done. done. }
  assert (Hgo : forall t n b2, accounts daily (log ++ if bool_decide (tr_status t = tx_success) then [(be_spendDay env, tr_fee t)] else []) b2 ->
    bu_day b2 = be_checkDay env \/ bu_day b2 = be_spendDay env ->
    let '(b', s') := extend_batches daily todo b2 (put_tx t n false s) in exists txs,
    es_transactions s' = es_transactions s ++ txs /\ accounts daily (log ++ charges ((batch, env) :: todo) txs) b' /\
    bu_day b' ∈ bu_day b :: days_of ((batch, env) :: todo)).
  { intros t n b2 Ha2 Hb2. assert (Hs2 : StronglySorted Z.le (bu_day b2 :: days_of todo)).
    { apply StronglySorted_inv in Hs as [Hs Hsp]. constructor; [done|]. destruct Hb2 as [-> | ->]; [|done]. by inversion Hck. }
    specialize (IH b2 (put_tx t n false s) _ Ha2 Hfee Hs2). destruct (extend_batches daily todo b2 _) as [b' s'].
    destruct IH as (txs & H1 & H2 & H3). exists (t :: txs). split_and!.
    - rewrite H1. simpl. by rewrite <- app_assoc.
    - by rewrite charges_cons, app_assoc.
    - unfold days_of. rewrite bind_cons. apply elem_of_cons in H3 as [->|H3]; [destruct Hb2 as [-> | ->]; [right; by left|right; right; by left]|].
      do 3 right. exact H3. }
  destruct (Z.leb_spec (daily - bu_spent b1) 0) as [|Hrem].
  { exists []. split_and!; [by rewrite app_nil_r| |done]. by rewrite charges_nil, app_nil_r. }
  assert (Hsame : accounts daily (log ++ []) b1) by (by rewrite app_nil_r).
  destruct (extendFootprintTtl _ _ _) as [r|[| | |fee| | |]] eqn:Er.
  - destruct (er_status r) eqn:Est.
    + apply Hgo; [|right; unfold spend; simpl; apply current_day]. simpl. apply accounts_spend; [by eapply extend_fee_nonneg| |done|lia].
      pose proof (extend_within _ _ _ _ Er Est). lia.
    + apply Hgo; [done|by left].
    + by apply Hstop.
  - apply Hgo; [done|by left]. - apply Hgo; [done|by left]. - apply Hgo; [done|by left]. - by apply Hstop. - apply Hgo; [done|by left].
  - apply Hgo; [done|by left]. - apply Hgo; [done|by left].
Qed.

(** * Runs *)

(** Budget and charges after one run over its batches. *)
Definition run_once (daily : Z) (acc : Budget * list (Z * Z)) (todo : list (list ScannedKey * BatchEnv)) : Budget * list (Z * Z) :=
  let '(b, s) := extend_batches daily todo acc.1 empty_summary in (b, acc.2 ++ charges todo (es_transactions s)).

Definition new_budget : Budget := {| bu_day := -1; bu_spent := 0 |}.

Lemma runs_account daily runs : forall b log, accounts daily log b -> Forall fees_nonneg runs -> StronglySorted Z.le (bu_day b :: (runs ≫= days_of)) ->
  let '(b', log') := foldl (run_once daily) (b, log) runs in accounts daily log' b'.
Proof.
  induction runs as [|todo runs IH]; intros b log Hacc Hf Hs; cbn [foldl]; [done|]. rewrite bind_cons, app_comm_cons in Hs.
  apply Forall_cons in Hf as [Hf Hfs].
  assert (Hsplit : StronglySorted Z.le (bu_day b :: days_of todo) /\ StronglySorted Z.le (runs ≫= days_of) /\
    forall x y, x ∈ bu_day b :: days_of todo -> y ∈ runs ≫= days_of -> x <= y).
  { split_and!; [by eapply StronglySorted_app_1_l|by eapply StronglySorted_app_1_r|]. intros x y Hx Hy. by eapply StronglySorted_app_1_elem_of. }
  destruct Hsplit as (Hs1 & Hs2 & Hx). unfold run_once at 2. cbn [fst snd].
  pose proof (extend_accounts daily todo b empty_summary log Hacc Hf Hs1) as H. destruct (extend_batches daily todo b empty_summary) as [b1 s1].
  destruct H as (txs & H1 & H2 & H3). simpl in H1. rewrite H1. apply IH; [done|done|]. constructor; [done|]. apply Forall_forall. intros y Hy. by apply Hx.
Qed.

(** * Theorems *)

(** C32. The daily budget holds: over any sequence of runs, whatever the network
    answers and wherever midnight falls, the fees of the confirmed extensions
    charged on any one day never exceed the budget, as long as the clock does
    not go back. *)
Theorem daily_budget_holds daily runs day : 0 <= daily -> Forall fees_nonneg runs -> StronglySorted Z.le (-1 :: (runs ≫= days_of)) ->
  charged_on day (foldl (run_once daily) (new_budget, []) runs).2 <= daily.
Proof.
  intros Hd Hf Hs. assert (Hacc : accounts daily [] new_budget).
  { split_and!; [simpl; lia|simpl; lia|done|intros d; unfold charged_on; simpl; lia|]. intros d f Hin. by apply elem_of_nil in Hin. }
  pose proof (runs_account daily runs new_budget [] Hacc Hf Hs) as H. destruct (foldl _ _ runs) as [b log]. by destruct H as (_ & _ & H & _).
Qed.

(** Extensions go by urgency: the keys for which a transaction was made are a
    prefix of all eligible keys, ordered with instances and code first and the
    closest to archival before the others, and all of them unless the budget
    ran out; the count reported is that of the confirmed ones. *)
Theorem extensions_by_urgency maxKeys daily envs keys b b' s : extend maxKeys daily envs keys b = Some (b', s) ->
  exists done_keys, concat (tr_keys <$> es_transactions s) = done_keys /\ done_keys `prefix_of` prioritise keys /\
    (es_budgetExhausted s = false -> done_keys = prioritise keys) /\
    prioritise keys ≡ₚ keys /\ StronglySorted before (prioritise keys) /\
    Forall (fun t => Z.of_nat (length (tr_keys t)) <= maxKeys) (es_transactions s) /\
    es_extended s = sumZ (fun t => if bool_decide (tr_status t = tx_success) then Z.of_nat (length (tr_keys t)) else 0) (es_transactions s).
Proof.
  intros He. eexists. split; [reflexivity|]. unfold extend in He. destruct keys as [|k keys]; [by simplify_eq; split_and!; try constructor|].
  destruct (batchKeys (prioritise (k :: keys)) maxKeys) as [bs|] eqn:Eb; [|done]. injection He as He. apply batchKeys_spec in Eb as [Hc Hsz].
  set (todo := imap (fun n batch => (batch, envs n)) bs) in *. assert (Hfst : fst <$> todo = bs).
  { unfold todo. rewrite fmap_imap. unfold compose. simpl. etransitivity; [apply (imap_const id)|apply list_fmap_id]. }
  pose proof (extend_shape daily todo b empty_summary) as H. rewrite He in H. destruct H as (txs & H1 & H2 & H3 & H4). simpl in H1, H4. subst txs.
  rewrite Hfst in H2, H3. split_and!.
  - rewrite <- Hc. destruct H2 as [rest ->]. rewrite concat_app. by eexists.
  - intros Hx. rewrite (H3 Hx). exact Hc.
  - apply sort_by_perm.
  - apply prioritise_sorted.
  - apply (Forall_fmap tr_keys (fun b => Z.of_nat (length b) <= maxKeys)). destruct H2 as [rest Hr]. rewrite Hr in Hsz. apply Forall_app in Hsz as [Hsz _].
    eapply Forall_impl; [exact Hsz|]. by intros ? [_ ?].
  - lia.
Qed.

Lemma get_entries (L : string -> option (option Z)) ks : forall m k,
  get k (foldl (fun m '(k, live) => set k live m) m (omap (fun k => (fun v => (k, v)) <$> L k) ks)) =
    if decide (k ∈ ks) then match L k with Some v => Some v | None => get k m end else get k m.
Proof.
  induction ks as [|x ks IH]; intros m k; [by rewrite decide_False by apply not_elem_of_nil|]. csimpl.
  destruct (L x) as [v|] eqn:Ex; csimpl; rewrite IH; destruct (decide (k = x)) as [->|Hne].
  - rewrite (decide_True (P := x ∈ x :: ks)) by (by left). rewrite get_set_eq, Ex. by case_decide.
  - rewrite get_set_ne by done. assert (k ∈ x :: ks <-> k ∈ ks) by set_solver. by rewrite (decide_ext (k ∈ x :: ks) (k ∈ ks)).
  - rewrite (decide_True (P := x ∈ x :: ks)) by (by left). rewrite Ex. by case_decide.
  - assert (k ∈ x :: ks <-> k ∈ ks) by set_solver. by rewrite (decide_ext (k ∈ x :: ks) (k ∈ ks)).
Qed.

Lemma scan_chunks (L : string -> option (option Z)) latest getLedgerEntries chunks :
  (forall ks, getLedgerEntries ks = (latest, omap (fun k => (fun v => (k, v)) <$> L k) ks)) -> forall acc k,
  get k (foldl (scan_chunk getLedgerEntries) acc chunks).2 =
    if decide (k ∈ tk_keyXdr <$> concat chunks) then match L k with Some v => Some v | None => get k acc.2 end else get k acc.2.
Proof.
  intros Hrpc. induction chunks as [|c chunks IH]; intros acc k; cbn [foldl]; [by rewrite decide_False by apply not_elem_of_nil|].
  rewrite IH. unfold scan_chunk. rewrite Hrpc. cbn [snd]. rewrite get_entries. cbn [concat]. rewrite fmap_app.
  destruct (decide (k ∈ tk_keyXdr <$> c)) as [H1|H1], (decide (k ∈ tk_keyXdr <$> concat chunks)) as [H2|H2].
  - rewrite decide_True by set_solver. by destruct (L k).
  - rewrite decide_True by set_solver. done.
  - rewrite decide_True by set_solver. done.
  - rewrite decide_False by set_solver. done.
Qed.

Lemma scan_latest latest getLedgerEntries chunks : 0 <= latest -> (forall ks, (getLedgerEntries ks).1 = latest) -> forall acc, 0 <= acc.1 <= latest ->
  (foldl (scan_chunk getLedgerEntries) acc chunks).1 = match chunks with [] => acc.1 | _ => latest end.
Proof.
  intros Hl Hrpc. induction chunks as [|c chunks IH]; intros acc Ha; cbn [foldl]; [done|].
  assert (Hs : (scan_chunk getLedgerEntries acc c).1 = latest).
  { unfold scan_chunk. pose proof (Hrpc (tk_keyXdr <$> c)). destruct (getLedgerEntries _) as [l es]. simpl in *. lia. }
  rewrite IH by lia. by destruct chunks.
Qed.

(** A scan tells every key's state: if the RPC answers each read from one ledger
    [L] at height [latest], however many reads the keys need, each key is
    reported with its own lifetime, missing exactly if [L] has none, and is
    eligible exactly if it lives and has no more than the threshold left. *)
Theorem scan_is_exact (L : string -> option (option Z)) latest getLedgerEntries fallback keys threshold :
  0 < latest -> (forall ks, getLedgerEntries ks = (latest, omap (fun k => (fun v => (k, v)) <$> L k) ks)) -> keys <> [] ->
  let '(height, scanned) := scan getLedgerEntries fallback keys in
  height = latest /\ sk_key <$> scanned = keys /\
  forall s, s ∈ scanned -> sk_liveUntil s = default None (L (tk_keyXdr (sk_key s))) /\
    (s ∈ eligible threshold scanned <-> exists l, L (tk_keyXdr (sk_key s)) = Some (Some l) /\ l - latest <= threshold) /\
    (entry_status threshold s = st_missing <-> default None (L (tk_keyXdr (sk_key s))) = None).
Proof.
  intros Hl Hrpc Hne. unfold scan. destruct (batchKeys keys RPC_MAX_KEYS_PER_READ) as [chunks|] eqn:Eb; [|done]. apply batchKeys_spec in Eb as [Hc Hsz].
  cbn [default from_option id]. pose proof (scan_chunks L latest getLedgerEntries chunks Hrpc (0, [])) as Hget.
  pose proof (scan_latest latest getLedgerEntries chunks ltac:(lia) (fun ks => f_equal fst (Hrpc ks)) (0, []) ltac:(simpl; lia)) as Hlat.
  destruct (foldl _ _ chunks) as [seen live]. simpl in Hget, Hlat. destruct chunks as [|c chunks]; [by subst keys|]. subst seen.
  rewrite (proj2 (Z.eqb_neq latest 0)) by lia. split_and!; [done|rewrite <- list_fmap_compose; apply list_fmap_id|].
  intros s Hs. pose proof Hs as (k & -> & Hk)%list_elem_of_fmap. simpl.
  assert (Hlive : default None (get (tk_keyXdr k) live) = default None (L (tk_keyXdr k))).
  { rewrite Hget, Hc, decide_True by (by apply list_elem_of_fmap_2). by destruct (L (tk_keyXdr k)). }
  split_and!; [exact Hlive| |].
  - unfold eligible. rewrite list_elem_of_filter. simpl. rewrite Hlive. destruct (L (tk_keyXdr k)) as [[l|]|]; simpl.
    + split; [intros [[_ ?] _]; by exists l|]. intros (l' & [= <-] & ?). split; [done|]. rewrite Hlive in Hs. exact Hs.
    + split; [by intros [[? _] _]|by intros (? & ? & _)].
    + split; [by intros [[? _] _]|by intros (? & ? & _)].
  - unfold entry_status. simpl. rewrite Hlive. destruct (L (tk_keyXdr k)) as [[l|]|]; simpl; [|done|done]. by destruct (_ <=? _).
Qed.

(** * Concrete runs *)

Definition demo_key (kind : TtlKeyKind) (xdr : string) (remaining : Z) : ScannedKey :=
  {| sk_key := {| tk_kind := kind; tk_contract := c_settlement; tk_subject := xdr; tk_keyXdr := xdr |};
     sk_liveUntil := Some (1000 + remaining); sk_remaining := remaining |}.
Definition charge (fee : Z) (confirmed : bool) : ExtendEnv :=
  {| xe_allowed := true; xe_estimate := Some fee; xe_dryRun := false; xe_prepared := Some fee; xe_sent := Some "h"; xe_confirmed := confirmed |}.
Definition on_day (day fee : Z) (confirmed : bool) : BatchEnv := {| be_checkDay := day; be_spendDay := day; be_extend := charge fee confirmed |}.

Definition demo_keys : list ScannedKey := [demo_key k_intent "a" 5; demo_key k_bond "b" 2; demo_key k_instance "c" 9].

Lemma daily_budget_holds_witness :
  let runs := [[(demo_keys, on_day 3 60 true)]; [(demo_keys, on_day 3 30 true); (demo_keys, on_day 3 30 true)]; [(demo_keys, on_day 4 70 true)]] in
  charged_on 3 (foldl (run_once 100) (new_budget, []) runs).2 = 90 /\ charged_on 3 (foldl (run_once 100) (new_budget, []) runs).2 <= 100.
Proof.
  split; [vm_compute; reflexivity|]. apply daily_budget_holds; [lia| |].
  - repeat constructor; simpl; intros fee [= <-]; lia.
  - simpl. repeat constructor; lia.
Defined.

Lemma extensions_by_urgency_witness :
  let r := extend 1 100 (fun _ => on_day 3 40 true) demo_keys new_budget in
  (fun x => tk_keyXdr ∘ sk_key <$> concat (tr_keys <$> es_transactions x.2)) <$> r = Some ["c"; "b"; "a"] /\
  exists b' s, r = Some (b', s) /\ es_budgetExhausted s = true /\ concat (tr_keys <$> es_transactions s) `prefix_of` prioritise demo_keys.
Proof.
  split; [vm_compute; reflexivity|]. destruct (extend 1 100 (fun _ => on_day 3 40 true) demo_keys new_budget) as [[b' s]|] eqn:E; [|done].
  exists b', s. split; [done|]. destruct (extensions_by_urgency _ _ _ _ _ _ _ E) as (ks & Hk & Hp & _). split; [|by rewrite Hk].
  vm_compute in E. injection E as <- <-. reflexivity.
Defined.

Lemma scan_is_exact_witness :
  let L k := if bool_decide (k = "a") then Some (Some 1005) else None in
  let rpc ks := (1000, omap (fun k => (fun v => (k, v)) <$> L k) ks) in
  let keys := (fun x => {| tk_kind := k_intent; tk_contract := c_settlement; tk_subject := x; tk_keyXdr := x |}) <$> ["a"; "b"] in
  (sk_remaining <$> (scan rpc 0 keys).2) = [5; -1] /\ (scan rpc 0 keys).1 = 1000.
Proof.
  intros L rpc keys. split; [vm_compute; reflexivity|].
  pose proof (scan_is_exact L 1000 rpc 0 keys 10 ltac:(lia) (fun _ => eq_refl) ltac:(done)) as H.
  destruct (scan rpc 0 keys) as [height scanned]. apply H.
Defined.

(** * A gap *)

(** An extension that was submitted and not confirmed in time has cost its fee
    and is not charged: with a network that confirms late, every batch is
    paid for and the budget is never used. *)
Theorem unconfirmed_fee_is_not_charged daily fee day (bs : list (list ScannedKey)) b s : 0 < fee <= daily -> bu_day b = day -> bu_spent b = 0 ->
  Forall (fun batch => batch <> []) bs ->
  let '(b', s') := extend_batches daily ((fun batch => (batch, on_day day fee false)) <$> bs) b s in
  b' = b /\ es_transactions s' = es_transactions s ++ ((fun batch => {| tr_keys := batch; tr_status := tx_failed; tr_fee := 0 |}) <$> bs) /\
  es_budgetExhausted s' = es_budgetExhausted s.
Proof.
  intros Hfee Hday Hsp Hbs. revert s. induction Hbs as [|batch bs Hne Hbs IH]; intros s; [by rewrite app_nil_r|]. csimpl.
  assert (Hcur : currentBudget day b = b) by (unfold currentBudget; by rewrite (proj2 (Z.eqb_eq _ _) Hday)).
  rewrite Hcur, Hsp, (proj2 (Z.leb_gt _ _)) by lia. destruct batch as [|k batch]; [done|]. unfold extendFootprintTtl. csimpl.
  rewrite (proj2 (Z.ltb_ge _ _)) by lia. specialize (IH (put_tx {| tr_keys := k :: batch; tr_status := tx_failed; tr_fee := 0 |} 0 false s)).
  destruct (extend_batches daily _ b _) as [b' s']. destruct IH as (-> & H1 & H2). split_and!; [done| |].
  - rewrite H1. simpl. by rewrite <- app_assoc.
  - rewrite H2. simpl. by rewrite orb_false_r.
Qed.
