(* ===== verification/Preflight.v ===== *)
(** Preflight of destination accounts
    (soroban/destination-preflight.service.ts).

    A check resolves the asset and the account's trustline through two caches;
    its reads of the ledger are awaits, so checks interleave.  What Horizon and
    the RPC answer to a call is its [Reader]; address validation and the
    contract id of an asset are the Stellar SDK's and are parameters. *)
From S2P Require Import Prelude JsMap BigInt Prog SolverFills.
From stdpp Require Import relations.
From Stdlib Require Import Ascii.
Local Open Scope string_scope.
Local Open Scope list_scope.
Local Open Scope Z_scope.
Local Open Scope prog_scope.

(** * Data *)

Inductive DestinationPreflightCode := DST_ACCOUNT_NOT_FOUND | DST_TRUSTLINE_MISSING | DST_TRUSTLINE_LIMIT | DST_NOT_AUTHORIZED.
#[export] Instance DestinationPreflightCode_eq : EqDecision DestinationPreflightCode.
Proof. solve_decision. Defined.

Record HorizonBalanceLine := {
  hb_asset_type : string; hb_asset_code : option string; hb_asset_issuer : option string; hb_balance : string;
  hb_limit : option string; hb_buying_liabilities : option string; hb_is_authorized : option bool;
}.
Record HorizonAccountRecord := { ha_account_id : string; ha_balances : list HorizonBalanceLine }.

Inductive DestinationAsset :=
  | da_native
  | da_classic (code issuer : string) (sacContractId : option string)
  | da_contract (contractId : string).

Record Trustline := { tl_exists : bool; tl_authorized : bool; tl_remaining : Z }.
Record TrustlineSnapshot := { ts_accountExists : bool; ts_trustline : option Trustline; ts_contractAuthorized : option bool }.

Inductive skip_reason := skipped_disabled | skipped_unavailable.
Inductive DestinationPreflightResult := Deliverable (skipped : option skip_reason) | Undeliverable (code : DestinationPreflightCode) (remaining : option Z).

(** What the network answers during a call; an error is an exception. *)
Record Reader := {
  rd_loadAccount : string -> outcome unit (option HorizonAccountRecord);
  rd_sacName : string -> outcome unit (option string);
  rd_authorized : string -> string -> outcome unit (option bool);
}.

Record PreflightState := { pf_cache : jsmap (TrustlineSnapshot * Z); pf_sacAssets : jsmap DestinationAsset }.

(** * Amounts and names *)

Definition is_alnum (c : ascii) : bool :=
  let n := code c in ((48 <=? n) && (n <=? 57)) || ((65 <=? n) && (n <=? 90)) || ((97 <=? n) && (n <=? 122)).
Definition is_base32_char (c : ascii) : bool := let n := code c in ((65 <=? n) && (n <=? 90)) || ((50 <=? n) && (n <=? 55)).

(** [/^([A-Za-z0-9]{1,12}):(G[A-Z2-7]{55})$/] *)
Definition asset_code_ok (s : string) : bool := (0 <? String.length s)%nat && (String.length s <=? 12)%nat && all_chars is_alnum s.
Definition issuer_ok (s : string) : bool :=
  match s with String c r => bool_decide (c = "G"%char) && (String.length r =? 55)%nat && all_chars is_base32_char r | EmptyString => false end.
Definition classic_name (s : string) : option (string * string) :=
  match split_on ":"%char s with
  | [assetCode; issuer] => if asset_code_ok assetCode && issuer_ok issuer then Some (assetCode, issuer) else None
  | _ => None
  end.

Definition CLASSIC_DECIMALS : nat := 7.

(** [/^(\d+)(?:\.(\d+))?$/], then the fraction cut and padded to seven digits. *)
Definition toStroops (amount : string) : Z :=
  let fraction f := let cut := String.substring 0 CLASSIC_DECIMALS f in cut +:+ zeros (CLASSIC_DECIMALS - String.length cut) in
  match split_on dot_char (trim amount) with
  | [w] => if digits_only w then default 0 (BigInt w) * 10 ^ 7 + default 0 (BigInt (fraction "")) else 0
  | [w; f] => if digits_only w && digits_only f then default 0 (BigInt w) * 10 ^ 7 + default 0 (BigInt (fraction f)) else 0
  | _ => 0
  end.

Definition assetKey (a : DestinationAsset) : string :=
  match a with
  | da_native => "native"
  | da_classic assetCode issuer _ => assetCode +:+ ":" +:+ issuer
  | da_contract id => id
  end.

(** * Service *)

Section preflight.
(** [StrKey.isValidContract]; the base account of a valid muxed address; the
    contract id of a classic asset on this network, if the SDK accepts it; the
    native asset's. *)
Variables (isValidContract : string -> bool) (muxedBase : string -> option string) (contractIdOf : string -> string -> option string) (nativeContractId : string).

Notation PM := (prog PreflightState unit).

Definition baseAccountId (address : string) : string := let trimmed := trim address in default trimmed (muxedBase trimmed).

Definition lift {A} (o : outcome unit A) : PM A := match o with Ok a => Done a | Err e => Throw e end.

(** The name a contract gives itself counts only if its id is that asset's. *)
Inductive Underlying := u_native | u_asset (code issuer : string) | u_none.
Definition sacUnderlyingAsset (r : Reader) (contractId : string) : outcome unit Underlying :=
  match rd_sacName r contractId with
  | Err e => Err e
  | Ok name =>
      if negb (truthy_str name) then Ok u_none
      else if bool_decide (default "" name = "native") then Ok u_native
      else match classic_name (default "" name) with
           | Some (assetCode, issuer) => Ok (if bool_decide (contractIdOf assetCode issuer = Some contractId) then u_asset assetCode issuer else u_none)
           | None => Ok u_none
           end
  end.

Definition resolved_as (contractId : string) (u : Underlying) : DestinationAsset :=
  match u with u_native => da_native | u_asset assetCode issuer => da_classic assetCode issuer (Some contractId) | u_none => da_contract contractId end.

Definition put_sac (k : string) (a : DestinationAsset) (s : PreflightState) : PreflightState :=
  {| pf_cache := pf_cache s; pf_sacAssets := set k a (pf_sacAssets s) |}.
Definition put_cache (k : string) (x : TrustlineSnapshot * Z) (s : PreflightState) : PreflightState :=
  {| pf_cache := set k x (pf_cache s); pf_sacAssets := pf_sacAssets s |}.

(** [toUpperCase() === "XLM"] by lower case. *)
Definition resolveAsset (r : Reader) (contract : string) : PM DestinationAsset :=
  let trimmed := trim contract in
  if bool_decide (trimmed = nativeContractId) || bool_decide (trimmed = "native") || bool_decide (toLowerCase trimmed = "xlm") then Done da_native
  else match classic_name trimmed with
       | Some (assetCode, issuer) => Done (da_classic assetCode issuer None)
       | None =>
           cached <- reads (fun s => get trimmed (pf_sacAssets s));
           match cached with
           | Some a => Done a
           | None =>
               u <- lift (sacUnderlyingAsset r trimmed);
               modify (put_sac trimmed (resolved_as trimmed u));;;
               Done (resolved_as trimmed u)
           end
       end.

Definition is_line (assetCode issuer : string) (b : HorizonBalanceLine) : Prop :=
  (hb_asset_type b = "credit_alphanum4" \/ hb_asset_type b = "credit_alphanum12") /\ hb_asset_code b = Some assetCode /\ hb_asset_issuer b = Some issuer.
#[local] Instance is_line_dec assetCode issuer b : Decision (is_line assetCode issuer b).
Proof. unfold is_line. apply _. Defined.

Definition no_trustline (exists_ : bool) : TrustlineSnapshot := {| ts_accountExists := exists_; ts_trustline := None; ts_contractAuthorized := None |}.

Definition line_snapshot (b : HorizonBalanceLine) : TrustlineSnapshot :=
  let remaining := toStroops (default "0" (hb_limit b)) - toStroops (hb_balance b) - toStroops (default "0" (hb_buying_liabilities b)) in
  {| ts_accountExists := true;
     ts_trustline := Some {| tl_exists := true; tl_authorized := negb (bool_decide (hb_is_authorized b = Some false));
                             tl_remaining := if 0 <? remaining then remaining else 0 |};
     ts_contractAuthorized := None |}.

Definition load (r : Reader) (account : string) (asset : DestinationAsset) : outcome unit TrustlineSnapshot :=
  if isValidContract account then
    match asset with
    | da_classic _ _ (Some sac) =>
        (fun o => {| ts_accountExists := true; ts_trustline := None; ts_contractAuthorized := o |}) <$> rd_authorized r sac account
    | _ => Ok (no_trustline true)
    end
  else
    match rd_loadAccount r account with
    | Err e => Err e
    | Ok None => Ok (no_trustline false)
    | Ok (Some record) =>
        match asset with
        | da_classic assetCode issuer _ =>
            if bool_decide (issuer = account) then Ok (no_trustline true)
            else match list_find (is_line assetCode issuer) (ha_balances record) with
                 | Some (_, line) => Ok (line_snapshot line)
                 | None => Ok {| ts_accountExists := true;
                                 ts_trustline := Some {| tl_exists := false; tl_authorized := false; tl_remaining := 0 |}; ts_contractAuthorized := None |}
                 end
        | _ => Ok (no_trustline true)
        end
    end.

Definition cache_key (account : string) (asset : DestinationAsset) : string := account +:+ "|" +:+ assetKey asset.

Definition snapshot (r : Reader) (ttlMs now : Z) (account : string) (asset : DestinationAsset) (fresh : bool) : PM TrustlineSnapshot :=
  let key := cache_key account asset in
  hit <- (if fresh then Done None else reads (fun s => get key (pf_cache s)));
  match (match hit with Some (x, expiresAt) => if now <? expiresAt then Some x else None | None => None end) with
  | Some x => Done x
  | None =>
      x <- lift (load r account asset);
      modify (put_cache key (x, now + ttlMs));;;
      Done x
  end.

Definition judge (x : TrustlineSnapshot) (minDstAmount : string) : DestinationPreflightResult :=
  if negb (ts_accountExists x) then Undeliverable DST_ACCOUNT_NOT_FOUND None
  else if bool_decide (ts_contractAuthorized x = Some false) then Undeliverable DST_NOT_AUTHORIZED None
  else match ts_trustline x with
       | None => Deliverable None
       | Some line =>
           if negb (tl_exists line) then Undeliverable DST_TRUSTLINE_MISSING None
           else if negb (tl_authorized line) then Undeliverable DST_NOT_AUTHORIZED None
           else if tl_remaining line <? default 0 (BigInt minDstAmount) then Undeliverable DST_TRUSTLINE_LIMIT (Some (tl_remaining line))
           else Deliverable None
       end.

Record PreflightConfig := { pc_enabled : bool; pc_failOpen : bool; pc_ttlMs : Z }.

Definition check (cfg : PreflightConfig) (r : Reader) (now : Z) (destination contract minDstAmount : string) (fresh : bool) : PM DestinationPreflightResult :=
  if negb (pc_enabled cfg) then Done (Deliverable (Some skipped_disabled))
  else
    let account := baseAccountId destination in
    pcatch (fun e => if pc_failOpen cfg then Done (Deliverable (Some skipped_unavailable)) else Throw e)
      (asset <- resolveAsset r contract;
       x <- snapshot r (pc_ttlMs cfg) now account asset fresh;
       Done (judge x minDstAmount)).

Definition invalidate (destination : option string) (s : PreflightState) : PreflightState :=
  match destination with
  | Some d => if bool_decide (d = "") then {| pf_cache := []; pf_sacAssets := pf_sacAssets s |}
              else {| pf_cache := filter (fun '(k, _) => String.prefix (baseAccountId d +:+ "|") k = false) (pf_cache s); pf_sacAssets := pf_sacAssets s |}
  | None => {| pf_cache := []; pf_sacAssets := pf_sacAssets s |}
  end.

(** * Keys *)

Definition asset_wf (a : DestinationAsset) : Prop :=
  match a with
  | da_native => True
  | da_classic assetCode issuer _ => classic_name (assetCode +:+ ":" +:+ issuer) = Some (assetCode, issuer)
  | da_contract id => id <> "native" /\ classic_name id = None
  end.

Lemma alnum_no_colon s : all_chars is_alnum s = true -> all_chars (fun d => negb (bool_decide (":"%char = d))) s = true.
Proof.
  apply all_chars_impl. intros c Hc. apply negb_true_iff, bool_decide_eq_false_2. intros <-. vm_compute in Hc. discriminate Hc.
Qed.

Lemma issuer_no_colon s : issuer_ok s = true -> all_chars (fun d => negb (bool_decide (":"%char = d))) s = true.
Proof.
  intros H. assert (Hs : all_chars is_base32_char s = true).
  { destruct s as [|c s]; [done|]. unfold issuer_ok in H. rewrite !andb_true_iff, bool_decide_eq_true in H. destruct H as [[-> _] Hs]. cbn [all_chars]. by rewrite Hs. }
  revert Hs. apply all_chars_impl. intros d Hd. apply negb_true_iff, bool_decide_eq_false_2. intros <-. vm_compute in Hd. discriminate Hd.
Qed.

Lemma classic_wf assetCode issuer : asset_code_ok assetCode && issuer_ok issuer = true ->
  classic_name (assetCode +:+ ":" +:+ issuer) = Some (assetCode, issuer).
Proof.
  intros H. unfold classic_name. pose proof H as Hok. apply andb_true_iff in H as [Hc Hi]. unfold asset_code_ok in Hc. apply andb_true_iff in Hc as [_ Hc].
  change (assetCode +:+ ":" +:+ issuer) with (assetCode +:+ String ":"%char issuer). rewrite split_on_one by (by apply alnum_no_colon).
  rewrite split_on_none by (by apply issuer_no_colon). by rewrite Hok.
Qed.

Lemma load_by_key r account a1 a2 : isValidContract account = false -> asset_wf a1 -> asset_wf a2 -> assetKey a1 = assetKey a2 ->
  load r account a1 = load r account a2.
Proof.
  intros Hc H1 H2 Hk. unfold load. rewrite Hc. destruct (rd_loadAccount r account) as [[record|]|]; [|done|done].
  destruct a1 as [|c1 i1 sac1|d1], a2 as [|c2 i2 sac2|d2]; simpl in *; try done.
  - rewrite <- Hk in H2. vm_compute in H2. discriminate H2.
  - rewrite Hk in H1. vm_compute in H1. discriminate H1.
  - rewrite Hk in H1. rewrite H1 in H2. by injection H2 as -> ->.
  - rewrite Hk in H1. destruct H2 as [_ H2]. congruence.
  - rewrite <- Hk in H2. destruct H1 as [_ H1]. congruence.
Qed.

Definition no_bar (s : string) : bool := all_chars (fun d => negb (bool_decide ("|"%char = d))) s.

Lemma bar_split a1 a2 k1 k2 : no_bar a1 = true -> no_bar a2 = true -> a1 +:+ "|" +:+ k1 = a2 +:+ "|" +:+ k2 -> a1 = a2 /\ k1 = k2.
Proof.
  intros H1 H2 He. pose proof (f_equal (split_on "|"%char) He) as Hs.
  change (a1 +:+ "|" +:+ k1) with (a1 +:+ String "|"%char k1) in Hs. change (a2 +:+ "|" +:+ k2) with (a2 +:+ String "|"%char k2) in Hs.
  rewrite !split_on_one in Hs by done. injection Hs as -> _. split; [done|]. apply (inj (String.append a2)) in He. by injection He.
Qed.

(** * Interleaved checks *)

Record PreflightCall := { cl_reader : Reader; cl_now : Z; cl_destination : string; cl_contract : string; cl_min : string; cl_fresh : bool }.

Definition account_of (c : PreflightCall) : string := baseAccountId (cl_destination c).

Context (cfg : PreflightConfig) (calls : list PreflightCall).

Definition preflight_call (c : PreflightCall) : PM DestinationPreflightResult :=
  check cfg (cl_reader c) (cl_now c) (cl_destination c) (cl_contract c) (cl_min c) (cl_fresh c).

Definition named_native (contract : string) : Prop :=
  trim contract = nativeContractId \/ trim contract = "native" \/ toLowerCase (trim contract) = "xlm".

(** How a contract may have been resolved: by its name, or by what some call was
    told about it. *)
Definition resolves (contract : string) (a : DestinationAsset) : Prop :=
  asset_wf a /\
  (named_native contract /\ a = da_native \/
   (exists assetCode issuer, classic_name (trim contract) = Some (assetCode, issuer) /\ a = da_classic assetCode issuer None) \/
   exists c u, c ∈ calls /\ trim (cl_contract c) = trim contract /\ sacUnderlyingAsset (cl_reader c) (trim contract) = Ok u /\ a = resolved_as (trim contract) u).

Definition caches_ok (s : PreflightState) : Prop :=
  (forall k a, get k (pf_sacAssets s) = Some a -> forall contract, trim contract = k -> resolves contract a) /\
  forall k x e, get k (pf_cache s) = Some (x, e) -> exists c a, c ∈ calls /\ k = cache_key (account_of c) a /\ resolves (cl_contract c) a /\
    load (cl_reader c) (account_of c) a = Ok x /\ e = cl_now c + pc_ttlMs cfg.

Notation keeps Q p := (keeps_inv (E := unit) caches_ok Q p).

(** What a check of [c] may have seen for asset [a]: its own answer, or one that
    has not expired. *)
Definition seen (c : PreflightCall) (a : DestinationAsset) (x : TrustlineSnapshot) : Prop :=
  exists c' a', c' ∈ calls /\ (c' = c \/ cl_fresh c = false /\ cl_now c < cl_now c' + pc_ttlMs cfg) /\
    resolves (cl_contract c') a' /\ cache_key (account_of c') a' = cache_key (account_of c) a /\ load (cl_reader c') (account_of c') a' = Ok x.

Definition answered (c : PreflightCall) (res : DestinationPreflightResult) : Prop :=
  res = Deliverable (Some skipped_unavailable) /\ pc_failOpen cfg = true \/
  exists a x, resolves (cl_contract c) a /\ seen c a x /\ res = judge x (cl_min c).

Lemma keeps_lift {A} (o : outcome unit A) (Q : A -> Prop) : (forall a, o = Ok a -> Q a) -> keeps Q (lift o).
Proof. intros H. destruct o; simpl; auto. Qed.

Lemma underlying_wf r id u : sacUnderlyingAsset r id = Ok u -> id <> "native" -> classic_name id = None -> asset_wf (resolved_as id u).
Proof.
  unfold sacUnderlyingAsset. intros H Hn Hc. destruct (rd_sacName r id) as [name|]; [|done].
  destruct (negb (truthy_str name)); [by injection H as <-|]. case_bool_decide; [by injection H as <-|].
  destruct (classic_name (default "" name)) as [[assetCode issuer]|] eqn:Ec; [|by injection H as <-]. injection H as <-.
  destruct (bool_decide _); [|done]. simpl. apply classic_wf. unfold classic_name in Ec.
  destruct (split_on _ _) as [|w1 [|w2 [|]]]; try done. destruct (_ && _) eqn:Eo; [|done]. by injection Ec as -> ->.
Qed.

Lemma sac_stored contract a s : caches_ok s -> resolves contract a -> caches_ok (put_sac (trim contract) a s).
Proof.
  intros [H1 H2] Ha. split; [|exact H2]. intros k b Hg contract' Ht. simpl in Hg. destruct (decide (k = trim contract)) as [->|Hn].
  - rewrite get_set_eq in Hg. injection Hg as <-. destruct Ha as [Hw Ha]. split; [done|]. unfold named_native in *. by rewrite Ht.
  - rewrite get_set_ne in Hg by done. by apply (H1 k).
Qed.

Lemma keeps_resolve c : c ∈ calls -> keeps (resolves (cl_contract c)) (resolveAsset (cl_reader c) (cl_contract c)).
Proof.
  intros Hc. unfold resolveAsset. set (t := trim (cl_contract c)).
  destruct (_ || _) eqn:En.
  { split; [done|]. left. split; [|done]. rewrite !orb_true_iff, !bool_decide_eq_true in En. unfold named_native. fold t. tauto. }
  destruct (classic_name t) as [[assetCode issuer]|] eqn:Ec.
  { split; [|right; left; eauto]. simpl. apply classic_wf. unfold classic_name in Ec.
    destruct (split_on _ _) as [|w1 [|w2 [|]]]; try done. destruct (_ && _) eqn:Eo; [|done]. by injection Ec as -> ->. }
  apply (inv_bind _ (fun o => forall a, o = Some a -> resolves (cl_contract c) a)).
  { apply inv_reads. intros s [H1 _] a Ha. by apply (H1 t). }
  intros [a|] Ho; [by apply Ho|].
  apply (inv_bind _ (fun u => resolves (cl_contract c) (resolved_as t u))).
  { apply keeps_lift. intros u Hu. split; [|right; right; exists c, u; eauto].
    apply (underlying_wf _ _ _ Hu); [|done]. rewrite !orb_false_iff, !bool_decide_eq_false in En. tauto. }
  intros u Hu. eapply inv_bind; [apply inv_modify|intros _ _; exact Hu]. intros s Hs. by apply sac_stored.
Qed.

Lemma cache_stored c a x s : caches_ok s -> c ∈ calls -> resolves (cl_contract c) a -> load (cl_reader c) (account_of c) a = Ok x ->
  caches_ok (put_cache (cache_key (account_of c) a) (x, cl_now c + pc_ttlMs cfg) s).
Proof.
  intros [H1 H2] Hc Ha Hl. split; [exact H1|]. intros k y e Hg. simpl in Hg. destruct (decide (k = cache_key (account_of c) a)) as [->|Hn].
  - rewrite get_set_eq in Hg. injection Hg as <- <-. by exists c, a.
  - rewrite get_set_ne in Hg by done. by apply H2.
Qed.

Lemma keeps_snapshot c a : c ∈ calls -> resolves (cl_contract c) a ->
  keeps (seen c a) (snapshot (cl_reader c) (pc_ttlMs cfg) (cl_now c) (account_of c) a (cl_fresh c)).
Proof.
  intros Hc Ha. unfold snapshot.
  apply (inv_bind _ (fun hit => forall x e, hit = Some (x, e) -> cl_now c < e -> seen c a x)).
  { destruct (cl_fresh c) eqn:Ef; [done|]. apply inv_reads. intros s [_ H2] x e Hg He.
    destruct (H2 _ _ _ Hg) as (c' & a' & Hc' & Hk & Ha' & Hl & ->). exists c', a'. repeat split; try done; [by right|by destruct Ha'..]. }
  intros hit Hh. destruct (match hit with Some _ => _ | None => None end) as [x|] eqn:Eh.
  { destruct hit as [[y e]|]; [|done]. destruct (cl_now c <? e) eqn:He; [|done]. injection Eh as ->. bool_norm. by apply (Hh x e). }
  apply (inv_bind _ (fun x => load (cl_reader c) (account_of c) a = Ok x)); [by apply keeps_lift|]. intros x Hx.
  eapply inv_bind; [apply inv_modify|intros _ _]. { intros s Hs. by apply cache_stored. }
  exists c, a. repeat split; try done; [by left|by destruct Ha..].
Qed.

Lemma keeps_check c : pc_enabled cfg = true -> c ∈ calls -> keeps (answered c) (preflight_call c).
Proof.
  intros He Hc. unfold preflight_call, check. rewrite He. apply inv_catch.
  - eapply inv_bind; [by apply keeps_resolve|]. intros a Ha. eapply inv_bind; [by apply keeps_snapshot|]. intros x Hx. right. eauto.
  - intros []. destruct (pc_failOpen cfg) eqn:Ef; [by left|done].
Qed.

Lemma resolves_wf contract a : resolves contract a -> asset_wf a.
Proof. by intros [H _]. Qed.

Lemma seen_same_account c a x : c ∈ calls -> (forall c, c ∈ calls -> isValidContract (account_of c) = false /\ no_bar (account_of c) = true) ->
  resolves (cl_contract c) a -> seen c a x ->
  exists c', c' ∈ calls /\ (c' = c \/ cl_fresh c = false /\ cl_now c < cl_now c' + pc_ttlMs cfg) /\ account_of c' = account_of c /\
    load (cl_reader c') (account_of c) a = Ok x.
Proof.
  intros Hc Hacc Ha (c' & a' & Hc' & Hw & Ha' & Hk & Hl). exists c'. destruct (Hacc c Hc) as [Hv Hb], (Hacc c' Hc') as [_ Hb'].
  destruct (bar_split _ _ _ _ Hb' Hb Hk) as [Haa Hkk]. rewrite Haa in Hl. repeat split; try done.
  rewrite <- Hl. symmetry. apply load_by_key; eauto using resolves_wf.
Qed.

Definition initial : PreflightState := {| pf_cache := []; pf_sacAssets := [] |}.

(** A check of an account answers from the ledger and not from stale data:
    in every interleaving of checks that starts with empty caches, a finished
    check was either passed because the network failed and the service is
    configured to fail open, or its answer is the verdict on what Horizon said
    about that very account and asset - to the check itself, or, if the check
    did not ask for a fresh answer, to a check of the same account less than one
    time-to-live earlier. *)
Theorem checks_answer_from_recent_ledger s ps i c res :
  pc_enabled cfg = true ->
  (forall c, c ∈ calls -> isValidContract (account_of c) = false /\ no_bar (account_of c) = true) ->
  rtc pool_step (initial, preflight_call <$> calls) (s, ps) -> calls !! i = Some c -> ps !! i = Some (Done res) ->
  res = Deliverable (Some skipped_unavailable) /\ pc_failOpen cfg = true \/
  exists c' a x, c' ∈ calls /\ (c' = c \/ cl_fresh c = false /\ cl_now c < cl_now c' + pc_ttlMs cfg) /\ account_of c' = account_of c /\
    resolves (cl_contract c) a /\ load (cl_reader c') (account_of c) a = Ok x /\ res = judge x (cl_min c).
Proof.
  intros He Hacc Hr Hi Hd. destruct (pool_inv_each caches_ok answered calls _ _ Hr) as [_ Hall].
  - split; [intros k a Hg|intros k x e Hg]; discriminate Hg.
  - simpl. apply Forall2_fmap_r, Forall_Forall2_diag, Forall_forall. intros b Hb. by apply keeps_check.
  - destruct (Forall2_lookup_r _ _ _ _ _ Hall Hd) as (b & Hb & Hq). simplify_eq. destruct Hq as [Hq|(a & x & Ha & Hs & ->)]; [by left|right].
    destruct (seen_same_account c a x) as (c' & H1 & H2 & H3 & H4); [by apply (list_elem_of_lookup_2 _ i)|done..|]. exists c', a, x. done.
Qed.

(** The verdict is exact: an account other than the issuer passes the check
    for a classic asset exactly if it exists, has a line for the asset that the
    issuer did not mark unauthorized, and the room left under the limit, after
    the balance and the amounts it has offered to buy, is at least the amount. *)
Theorem deliverable_iff r account assetCode issuer sac minDstAmount x :
  isValidContract account = false -> issuer <> account -> load r account (da_classic assetCode issuer sac) = Ok x ->
  judge x minDstAmount = Deliverable None <->
  exists record n line, rd_loadAccount r account = Ok (Some record) /\ list_find (is_line assetCode issuer) (ha_balances record) = Some (n, line) /\
    hb_is_authorized line <> Some false /\
    default 0 (BigInt minDstAmount) <=
      Z.max 0 (toStroops (default "0" (hb_limit line)) - toStroops (hb_balance line) - toStroops (default "0" (hb_buying_liabilities line))).
Proof.
  intros Hv Hi Hl. unfold load in Hl. rewrite Hv in Hl. destruct (rd_loadAccount r account) as [[record|]|]; [| |done].
  2:{ injection Hl as <-. split; [done|]. by intros (? & ? & ? & ? & _). }
  rewrite bool_decide_eq_false_2 in Hl by done. destruct (list_find _ (ha_balances record)) as [[n line]|] eqn:Ef; injection Hl as <-.
  2:{ split; [done|]. intros (record' & n & line & Hr & Hf & _). injection Hr as <-. congruence. }
  unfold judge, line_snapshot. cbn [ts_accountExists ts_contractAuthorized ts_trustline tl_exists tl_authorized tl_remaining negb].
  rewrite bool_decide_eq_false_2 by done. set (room := _ - _ - _).
  assert (Hm : (if 0 <? room then room else 0) = Z.max 0 room) by (destruct (Z.ltb_spec 0 room); lia). rewrite Hm. rewrite negb_involutive.
  split.
  - case_bool_decide as Ha; [done|]. destruct (Z.ltb_spec (Z.max 0 room) (default 0 (BigInt minDstAmount))); [done|]. intros _. by exists record, n, line.
  - intros (record' & n' & line' & Hr & Hf & Ha & Hle). injection Hr as <-. rewrite Ef in Hf. injection Hf as <- <-.
    rewrite bool_decide_eq_false_2 by done. destruct (Z.ltb_spec (Z.max 0 room) (default 0 (BigInt minDstAmount))); [|done]. fold room in Hle. lia.
Qed.
End preflight.

(** * Concrete checks *)

(** A network on which contract addresses start with C and the asset below has
    contract CSAC. *)
Definition ex_issuer : string := "GAAAAAAAAAAAAAAAAAAAAAAAAAAAAAAAAAAAAAAAAAAAAAAAAAAAAWHF".
Definition ex_usdc : string := "USDC:" +:+ ex_issuer.
Definition ex_contract (s : string) : bool := String.prefix "C" s.
Definition ex_no_muxed (_ : string) : option string := None.
Definition ex_contract_of (assetCode issuer : string) : option string := Some (if bool_decide (assetCode = "USDC" /\ issuer = ex_issuer) then "CSAC" else "COTHER").
Definition ex_line (limit balance : string) : HorizonBalanceLine :=
  {| hb_asset_type := "credit_alphanum4"; hb_asset_code := Some "USDC"; hb_asset_issuer := Some ex_issuer; hb_balance := balance;
     hb_limit := Some limit; hb_buying_liabilities := None; hb_is_authorized := Some true |}.
Definition ex_reader (lines : list HorizonBalanceLine) (name : option string) (authorized : bool) : Reader :=
  {| rd_loadAccount := fun a => Ok (Some {| ha_account_id := a; ha_balances := lines |}); rd_sacName := fun _ => Ok name;
     rd_authorized := fun _ _ => Ok (Some authorized) |}.
Definition ex_conf : PreflightConfig := {| pc_enabled := true; pc_failOpen := true; pc_ttlMs := 30000 |}.
Definition ex_call (r : Reader) (now : Z) (dst contract : string) (fresh : bool) : PreflightCall :=
  {| cl_reader := r; cl_now := now; cl_destination := dst; cl_contract := contract; cl_min := "50000000"; cl_fresh := fresh |}.
Definition ex_check (c : PreflightCall) := preflight_call ex_contract ex_no_muxed ex_contract_of "CXLM" ex_conf c.

Definition ex_first := ex_call (ex_reader [ex_line "10.0" "2.5"] (Some ex_usdc) true) 1000 "GUSER" "CSAC" false.
Definition ex_second := ex_call (ex_reader [ex_line "10.0" "9.5"] (Some ex_usdc) true) 20000 "GUSER" ex_usdc false.

Lemma checks_answer_from_recent_ledger_witness :
  exists s, let ps := [Done (Deliverable None); Done (Deliverable None)] in
  exists c' a x, c' ∈ [ex_first; ex_second] /\ (c' = ex_second \/ cl_fresh ex_second = false /\ cl_now ex_second < cl_now c' + pc_ttlMs ex_conf) /\
    account_of ex_no_muxed c' = account_of ex_no_muxed ex_second /\ resolves ex_contract_of "CXLM" [ex_first; ex_second] (cl_contract ex_second) a /\
    load ex_contract (cl_reader c') (account_of ex_no_muxed ex_second) a = Ok x /\ Deliverable None = judge x (cl_min ex_second) /\
    rtc pool_step (initial, ex_check <$> [ex_first; ex_second]) (s, ps).
Proof.
  exists (schedule [0; 0; 0; 0; 1]%nat initial (ex_check <$> [ex_first; ex_second])).1. cbv zeta.
  assert (Hr : rtc pool_step (initial, ex_check <$> [ex_first; ex_second])
    ((schedule [0; 0; 0; 0; 1]%nat initial (ex_check <$> [ex_first; ex_second])).1, [Done (Deliverable None); Done (Deliverable None)])).
  { replace [Done (Deliverable None); Done (Deliverable None)] with (schedule [0; 0; 0; 0; 1]%nat initial (ex_check <$> [ex_first; ex_second])).2
      by (vm_compute; reflexivity). rewrite <- surjective_pairing. apply schedule_steps. }
  assert (Hacc : forall c, c ∈ [ex_first; ex_second] -> ex_contract (account_of ex_no_muxed c) = false /\ no_bar (account_of ex_no_muxed c) = true).
  { intros c Hc. apply list_elem_of_In in Hc. destruct Hc as [<-|[<-|[]]]; split; vm_compute; reflexivity. }
  destruct (checks_answer_from_recent_ledger ex_contract ex_no_muxed ex_contract_of "CXLM" ex_conf [ex_first; ex_second] _ _ 1 ex_second (Deliverable None)
    eq_refl Hacc Hr eq_refl eq_refl) as [[Hb _]|(c' & a & x & H)].
  - discriminate Hb.
  - exists c', a, x. destruct H as (H1 & H2 & H3 & H4 & H5 & H6). split_and!; assumption.
Defined.

Lemma deliverable_iff_witness : exists x, load ex_contract (cl_reader ex_first) "GUSER" (da_classic "USDC" ex_issuer None) = Ok x /\
  (judge x "75000000" = Deliverable None <->
   exists record n l, rd_loadAccount (cl_reader ex_first) "GUSER" = Ok (Some record) /\ list_find (is_line "USDC" ex_issuer) (ha_balances record) = Some (n, l) /\
     hb_is_authorized l <> Some false /\ default 0 (BigInt "75000000") <=
       Z.max 0 (toStroops (default "0" (hb_limit l)) - toStroops (hb_balance l) - toStroops (default "0" (hb_buying_liabilities l)))) /\
  judge x "75000000" = Deliverable None /\ judge x "75000001" = Undeliverable DST_TRUSTLINE_LIMIT (Some 75000000).
Proof.
  eexists. split; [vm_compute; reflexivity|]. split; [|split; vm_compute; reflexivity].
  apply (deliverable_iff ex_contract) with (sac := None); [vm_compute; reflexivity|vm_compute; discriminate|vm_compute; reflexivity].
Defined.

(** A contract destination that the issuer has not authorized passes if its
    asset was checked by name a moment before: the snapshot is kept under the
    asset's name alone, and the check by name does not ask the contract. *)
Theorem cached_snapshot_hides_authorization :
  let by_name := ex_call (ex_reader [] (Some ex_usdc) false) 1000 "CUSER" ex_usdc false in
  let by_contract := ex_call (ex_reader [] (Some ex_usdc) false) 2000 "CUSER" "CSAC" false in
  (run (ex_check by_contract) initial).1 = Ok (Undeliverable DST_NOT_AUTHORIZED None) /\
  (run (ex_check by_contract) (run (ex_check by_name) initial).2).1 = Ok (Deliverable None).
Proof. vm_compute. done. Qed.

(** One failed simulation turns the checks of an asset off for good: the contract
    is remembered as a custom token, which needs no trustline, and even a fresh
    check an arbitrary time later passes an account that has none. *)
Theorem failed_simulation_disables_checks now :
  let failed := ex_call (ex_reader [] None true) 1000 "GUSER" "CSAC" false in
  let later := ex_call (ex_reader [] (Some ex_usdc) true) now "GUSER" "CSAC" true in
  (run (ex_check later) initial).1 = Ok (Undeliverable DST_TRUSTLINE_MISSING None) /\
  (run (ex_check later) (run (ex_check failed) initial).2).1 = Ok (Deliverable None).
Proof. split; reflexivity. Qed.
