(* ===== verification/SourceDeposits.v ===== *)
(** Verification of source-chain deposits (chains/evm/evm-deposit-verifier.ts,
    chains/evm/evm-chains.ts, chains/source-chain-verifier.ts and
    intents/source-deposit-verification.service.ts).

    What a chain answers during one check is an [EvmAnswers]; decoding of logs,
    address comparison and keccak256 are viem's and are parameters.  A tick
    checks up to four intents at a time, in an order the scheduler picks, and
    its reads and writes interleave with every other writer of intents. *)
From Stdlib Require Import Qround Ascii.
From S2P Require Import Prelude JsMap BigInt JsNumber IntentTypes IntentsRepo Prog Budget IntentsService ServiceSafety.
From stdpp Require Import relations.
Local Open Scope string_scope.
Local Open Scope list_scope.
Local Open Scope Z_scope.
Local Open Scope prog_scope.

(** * Chains *)

Definition EVM_SOURCE_CHAINS : list SupportedChain := [ethereum; base_chain; polygon; arbitrum; optimism; avalanche].
Definition isEvmSourceChain (c : SupportedChain) : bool := bool_decide (c ∈ EVM_SOURCE_CHAINS).

Inductive ConfirmationPolicy := depth (blocks : Z) | safe_head.
Definition CONFIRMATION_POLICIES (c : SupportedChain) : ConfirmationPolicy :=
  match c with
  | ethereum => depth 12 | polygon => depth 128 | avalanche => depth 1
  | _ => safe_head
  end.

Record DepositCheck := {
  dc_status : SrcVerificationStatus; dc_blockNumber : option Z; dc_blockHash : option string;
  dc_receivedAmount : option string; dc_detail : option string;
}.

Record DepositedLog := {
  dl_intentId : string; dl_token : string; dl_amount : Z; dl_user : string;
  dl_blockNumber : option Z; dl_blockHash : option string; dl_removed : bool;
}.

(** A log of a receipt: its address, and its event if it decodes to one. *)
Record Receipt := { rc_success : bool; rc_logs : list (string * option DepositedLog) }.

(** An error with the chain of its causes, outermost first. *)
Record Cause := { ce_status : option Z; ce_code : option Z; ce_message : option string }.
Definition RpcError := list Cause.

(** What [BigInt] throws on text or numbers it cannot convert. *)
Definition not_a_bigint : RpcError := [{| ce_status := None; ce_code := None; ce_message := Some "Cannot convert to a BigInt" |}].

Definition contains (pattern s : string) : bool := match String.index 0 pattern s with Some _ => true | None => false end.
Definition is_word (c : ascii) : bool :=
  let n := code c in ((48 <=? n) && (n <=? 57)) || ((65 <=? n) && (n <=? 90)) || ((97 <=? n) && (n <=? 122)) || (n =? 95).

(** [/\bw\b/]: [w] between characters that are not word characters. *)
Fixpoint contains_word (w : string) (start : bool) (s : string) : bool :=
  (start && String.prefix w s && match String.get (String.length w) s with Some c => negb (is_word c) | None => true end) ||
  match s with String c r => contains_word w (negb (is_word c)) r | EmptyString => false end.

Definition isRateLimited (err : RpcError) : bool :=
  existsb (fun e =>
    bool_decide (ce_status e = Some 429) || bool_decide (ce_code e = Some (-32005)) || bool_decide (ce_code e = Some 429) ||
    match ce_message e with
    | Some m => contains "rate limit" (toLowerCase m) || contains "too many requests" (toLowerCase m) || contains_word "429" true m
    | None => false
    end) (take 5 err).

(** [ea_receipt]: [Ok None] if the node does not know the transaction. *)
Record EvmAnswers := {
  ea_receipt : outcome RpcError (option Receipt);
  ea_logHead : outcome RpcError Z;
  ea_logs : Z -> Z -> outcome RpcError (list DepositedLog);
  ea_head : outcome RpcError Z;
  ea_safe : outcome RpcError (option Z);
}.

Record EvmConfig := {
  ec_rpcUrls : SupportedChain -> option string; ec_escrowAddresses : SupportedChain -> option string;
  ec_toleranceBps : number; ec_lookback : number;
}.

(** * Verifier *)

Section verifier.
Variables (isAddressEqual : string -> string -> option bool) (keccak256 : string -> string).

(** [isAddressEqual] throws on what is not an address. *)
Definition sameAddress (a b : string) : bool := default (bool_decide (toLowerCase a = toLowerCase b)) (isAddressEqual a b).

(** [BigInt(Math.max(0, Math.min(10_000, Math.floor(x))))]; NaN is a RangeError. *)
Definition clampBps (x : number) : option Z :=
  match x with
  | Fin q => Some (Z.max 0 (Z.min 10000 (Qfloor q)))
  | Inf negative => Some (if negative then 0 else 10000)
  | NaN => None
  end.
Definition minimumReceived (amount : Z) (toleranceBps : number) : option Z :=
  bps ← clampBps toleranceBps; Some (Z.quot (amount * (10000 - bps) + 9999) 10000).

Definition for_intent (i : Intent) (l : DepositedLog) : bool := bool_decide (dl_intentId l = keccak256 (intentId i)).

(** A reverted deposit is a reason, a receipt that is not there no log. *)
Definition logsFromReceipt (a : EvmAnswers) (escrow : string) (i : Intent) : outcome RpcError (list DepositedLog + string) :=
  match ea_receipt a with
  | Err e => Err e
  | Ok None => Ok (inl [])
  | Ok (Some r) =>
      if negb (rc_success r) then Ok (inr ("deposit transaction " +:+ default "" (srcTxHash i) +:+ " reverted"))
      else Ok (inl (filter (fun l => for_intent i l = true)
                      (omap (fun '(address, ev) => if sameAddress address escrow then ev else None) (rc_logs r))))
  end.

(** The node answers for the escrow, the event and the intent's topic. *)
Definition logsFromRange (a : EvmAnswers) (i : Intent) (lookback : number) : outcome RpcError (list DepositedLog) :=
  match ea_logHead a with
  | Err e => Err e
  | Ok head =>
      match lookback with
      | Fin q => let n := Qfloor q in ea_logs a (if n <? head then head - n else 0) head
      | _ => Err not_a_bigint
      end
  end.

Definition live (l : DepositedLog) : Prop := dl_removed l = false /\ dl_blockNumber l <> None /\ dl_blockHash l <> None.
#[local] Instance live_dec l : Decision (live l).
Proof. unfold live. apply _. Defined.

Definition unlocated (st : SrcVerificationStatus) (detail : string) : DepositCheck :=
  {| dc_status := st; dc_blockNumber := None; dc_blockHash := None; dc_receivedAmount := None; dc_detail := Some detail |}.

Definition missing (i : Intent) : DepositCheck :=
  match srcVerification i ≫= sv_blockHash with
  | Some h => unlocated sv_reorged ("deposit previously seen in block " +:+ h +:+ " is no longer canonical")
  | None => unlocated sv_not_found "no matching Deposited log yet"
  end.

Definition confirmation (a : EvmAnswers) (c : SupportedChain) (blockNumber : Z) : outcome RpcError (bool * string) :=
  match CONFIRMATION_POLICIES c with
  | safe_head =>
      match ea_safe a with
      | Err e => Err e
      | Ok safe => Ok (match safe with Some n => blockNumber <=? n | None => false end,
                       "block " +:+ toString blockNumber +:+ " vs safe head " +:+ match safe with Some n => toString n | None => "null" end)
      end
  | depth blocks =>
      match ea_head a with
      | Err e => Err e
      | Ok head =>
          let confirmations := if blockNumber <=? head then head - blockNumber + 1 else 0 in
          Ok (blocks <=? confirmations, toString confirmations +:+ "/" +:+ toString blocks +:+ " confirmations")
      end
  end.

Definition check_log (cfg : EvmConfig) (a : EvmAnswers) (i : Intent) (l : DepositedLog) : outcome RpcError DepositCheck :=
  let blockNumber := default 0 (dl_blockNumber l) in
  let located st amount detail :=
    {| dc_status := st; dc_blockNumber := dl_blockNumber l; dc_blockHash := dl_blockHash l; dc_receivedAmount := amount; dc_detail := Some detail |} in
  if negb (sameAddress (dl_token l) (tok_address (srcToken i))) then
    Ok (located sv_mismatch None ("deposited token " +:+ dl_token l +:+ " ≠ " +:+ tok_address (srcToken i)))
  else if negb (bool_decide (toLowerCase (dl_user l) = toLowerCase (user i))) then
    Ok (located sv_mismatch None ("deposit is for user " +:+ dl_user l +:+ ", not " +:+ user i))
  else
    let receivedAmount := toString (dl_amount l) in
    match (BigInt (srcAmount i) ≫= fun amount => minimumReceived amount (ec_toleranceBps cfg)) with
    | None => Err not_a_bigint
    | Some required =>
        if dl_amount l <? required then
          Ok (located sv_mismatch (Some receivedAmount)
                ("escrow received " +:+ receivedAmount +:+ " < required " +:+ toString required +:+ " (srcAmount " +:+ srcAmount i +:+ ")"))
        else
          match confirmation a (srcChain i) blockNumber with
          | Err e => Err e
          | Ok (ok, detail) => Ok (located (if ok : bool then sv_verified else sv_pending) (Some receivedAmount) detail)
          end
    end.

Definition deposit_logs (cfg : EvmConfig) (a : EvmAnswers) (escrow : string) (i : Intent) : outcome RpcError (list DepositedLog + string) :=
  if truthy_str (srcTxHash i) then logsFromReceipt a escrow i else inl <$> logsFromRange a i (ec_lookback cfg).

Definition verify (cfg : EvmConfig) (a : EvmAnswers) (i : Intent) : outcome RpcError DepositCheck :=
  let c := srcChain i in
  if negb (isEvmSourceChain c) then Ok (unlocated sv_mismatch (chain_name c +:+ " is not an EVM source chain"))
  else if negb (truthy_str (ec_escrowAddresses cfg c)) || negb (truthy_str (ec_rpcUrls cfg c)) then
    Ok (unlocated sv_pending ("no RPC URL or escrow address configured for " +:+ chain_name c))
  else
    let escrow := default "" (ec_escrowAddresses cfg c) in
    match deposit_logs cfg a escrow i with
    | Err e => Err e
    | Ok (inr reason) => Ok (unlocated sv_mismatch reason)
    | Ok (inl logs) =>
        match list_find live logs with
        | None => Ok (missing i)
        | Some (_, l) => check_log cfg a i l
        end
    end.

(** ** What a verdict means *)

(** The block is as deep as the chain's policy asks. *)
Definition confirmed (a : EvmAnswers) (c : SupportedChain) (block : Z) : Prop :=
  match CONFIRMATION_POLICIES c with
  | safe_head => exists safe, ea_safe a = Ok (Some safe) /\ block <= safe
  | depth blocks => exists head, ea_head a = Ok head /\ blocks <= head - block + 1
  end.

Lemma confirmation_iff a c block : (exists detail, confirmation a c block = Ok (true, detail)) <-> confirmed a c block.
Proof.
  unfold confirmation, confirmed. destruct (CONFIRMATION_POLICIES c) as [blocks|] eqn:Ep.
  - assert (1 <= blocks) by (destruct c; simplify_eq/=; lia). destruct (ea_head a) as [head|e]; [|split; [by intros [? ?]|by intros (? & ? & _)]].
    split.
    + intros [detail He]. injection He as He _. exists head. split; [done|]. destruct (Z.leb_spec block head); bool_norm; lia.
    + intros (head' & Hh & Hle). injection Hh as <-. eexists. f_equal. f_equal. destruct (Z.leb_spec block head); apply Z.leb_le; lia.
  - destruct (ea_safe a) as [[safe|]|e].
    + split; [intros [detail He]; injection He as He _; exists safe; bool_norm; done|].
      intros (safe' & Hs & Hle). injection Hs as <-. eexists. do 2 f_equal. by apply Z.leb_le.
    + split; [by intros [? ?]|by intros (? & ? & _)].
    + split; [by intros [? ?]|by intros (? & ? & _)].
Qed.

Lemma minimumReceived_iff amount tolerance bps received : 0 <= amount -> clampBps tolerance = Some bps ->
  exists required, minimumReceived amount tolerance = Some required /\ (required <= received <-> amount * (10000 - bps) <= 10000 * received).
Proof.
  intros Ha Hc. unfold minimumReceived. rewrite Hc. eexists. split; [reflexivity|].
  assert (0 <= bps <= 10000) by (destruct tolerance as [q|[]|]; simplify_eq/=; lia).
  rewrite Z.quot_div_nonneg by nia. pose proof (Z.div_mod (amount * (10000 - bps) + 9999) 10000). pose proof (Z.mod_pos_bound (amount * (10000 - bps) + 9999) 10000). lia.
Qed.

(** The deposit the verifier looks at: the first log of the intent that is on the
    chain. *)
Definition deposit_of (cfg : EvmConfig) (a : EvmAnswers) (i : Intent) (l : DepositedLog) : Prop :=
  exists logs n, deposit_logs cfg a (default "" (ec_escrowAddresses cfg (srcChain i))) i = Ok (inl logs) /\ list_find live logs = Some (n, l).

Definition configured (cfg : EvmConfig) (c : SupportedChain) : bool :=
  isEvmSourceChain c && truthy_str (ec_escrowAddresses cfg c) && truthy_str (ec_rpcUrls cfg c).

Definition verified_by (cfg : EvmConfig) (a : EvmAnswers) (i : Intent) : Prop := exists c, verify cfg a i = Ok c /\ dc_status c = sv_verified.

Lemma verified_log cfg a i : verified_by cfg a i <->
  configured cfg (srcChain i) = true /\ exists l, deposit_of cfg a i l /\ exists c, check_log cfg a i l = Ok c /\ dc_status c = sv_verified.
Proof.
  unfold verified_by, verify, configured, deposit_of. destruct (isEvmSourceChain (srcChain i)); cbn [negb andb].
  2:{ split; [|by intros [? _]]. intros (c & Hc & Hs). injection Hc as <-. done. }
  destruct (truthy_str (ec_escrowAddresses cfg (srcChain i))); cbn [negb andb orb].
  2:{ split; [|by intros [? _]]. intros (c & Hc & Hs). injection Hc as <-. done. }
  destruct (truthy_str (ec_rpcUrls cfg (srcChain i))); cbn [negb].
  2:{ split; [|by intros [? _]]. intros (c & Hc & Hs). injection Hc as <-. done. }
  destruct (deposit_logs _ _ _ _) as [[logs|reason]|e].
  - destruct (list_find live logs) as [[n l]|] eqn:El.
    + split; [intros H; split; [done|]; exists l; split; [eauto|done]|]. intros [_ (l' & (logs' & n' & Hl & Hf) & H)]. simplify_eq. done.
    + split; [intros (c & Hc & Hs); injection Hc as <-; unfold missing in Hs; by destruct (_ ≫= _)|].
      intros [_ (l' & (logs' & n' & Hl & Hf) & H)]. simplify_eq.
  - split; [intros (c & Hc & Hs); by injection Hc as <-|]. by intros [_ (l' & (logs' & n' & Hl & Hf) & H)].
  - split; [by intros (c & Hc & Hs)|]. by intros [_ (l' & (logs' & n' & Hl & Hf) & H)].
Qed.

(** A deposit is verified exactly if it is there: for an intent over a
    non-negative amount on a configured EVM chain, the check answers verified if
    and only if the first log of the intent that is on the chain is of the
    intent's token and user, brings at least the amount less the tolerance, and
    lies in a block that is as deep as the chain's policy asks. *)
Theorem verified_iff cfg a i amount bps :
  BigInt (srcAmount i) = Some amount -> 0 <= amount -> clampBps (ec_toleranceBps cfg) = Some bps ->
  verified_by cfg a i <->
  configured cfg (srcChain i) = true /\
  exists l, deposit_of cfg a i l /\ sameAddress (dl_token l) (tok_address (srcToken i)) = true /\ toLowerCase (dl_user l) = toLowerCase (user i) /\
    amount * (10000 - bps) <= 10000 * dl_amount l /\ confirmed a (srcChain i) (default 0 (dl_blockNumber l)).
Proof.
  intros Hb Ha Hc. rewrite verified_log. apply and_iff_compat_l. split; intros (l & Hl & H); exists l; (split; [done|]).
  - destruct H as (c & H & Hs). unfold check_log in H. rewrite Hb in H. cbn [mbind option_bind] in H.
    destruct (minimumReceived_iff amount _ _ (dl_amount l) Ha Hc) as (required & Hm & Hr). rewrite Hm in H.
    destruct (sameAddress _ _); cbn [negb] in H; [|by injection H as <-]. split; [done|].
    case_bool_decide; cbn [negb] in H; [|by injection H as <-]. split; [done|].
    destruct (Z.ltb_spec (dl_amount l) required); [by injection H as <-|]. split; [by apply Hr|].
    destruct (confirmation a _ _) as [[[] detail]|] eqn:Ec; [|by injection H as <-|done]. apply confirmation_iff. eauto.
  - destruct H as (Ht & Hu & Hm & Hconf). apply confirmation_iff in Hconf as [detail Hconf]. unfold check_log. rewrite Ht, Hb. cbn [negb mbind option_bind].
    rewrite bool_decide_eq_true_2 by done. cbn [negb]. destruct (minimumReceived_iff amount _ _ (dl_amount l) Ha Hc) as (required & -> & Hr).
    destruct (Z.ltb_spec (dl_amount l) required); [apply Hr in Hm; lia|]. rewrite Hconf. eexists. split; [reflexivity|done].
Qed.
End verifier.

(** * Service *)

Definition SRC_REVERIFY_INTERVAL_MS : Z := 60000.
Definition SRC_RETRY_BASE_MS : Z := 15000.
Definition SRC_RETRY_MAX_MS : Z := 10 * 60000.
Definition SRC_RATE_LIMIT_MULTIPLIER : Z := 4.
Definition SRC_VERIFY_CONCURRENCY : nat := 4.

Record ScheduleEntry := { se_attempts : nat; se_nextAt : Z }.
Record Deposits (R : Type) := { dp_world : World R; dp_schedule : jsmap ScheduleEntry; dp_running : bool }.
Arguments dp_world {R} _.
Arguments dp_schedule {R} _.
Arguments dp_running {R} _.

Definition needsCheck (i : Intent) (now : Z) : bool :=
  if negb (bool_decide (srcVerified i = Some true)) then true
  else match srcVerification i with
       | Some v => match sv_status v with sv_verified => sv_checkedAt v * 1000 + SRC_REVERIFY_INTERVAL_MS <=? now | _ => false end
       | None => false
       end.

Definition backoff (id : string) (now multiplier : Z) (m : jsmap ScheduleEntry) : jsmap ScheduleEntry :=
  let attempts := S (match get id m with Some e => se_attempts e | None => O end) in
  let delay := Z.min (SRC_RETRY_BASE_MS * 2 ^ (Z.of_nat attempts - 1) * multiplier) SRC_RETRY_MAX_MS in
  set id {| se_attempts := attempts; se_nextAt := now + delay |} m.

Section service.
Context {R : Type} `{Hrepo : IntentsRepository R}.
Variables (isAddressEqual : string -> string -> option bool) (keccak256 : string -> string) (cfg : EvmConfig).
Notation DM := (prog (Deposits R) ServiceError).
Notation verify := (verify isAddressEqual keccak256 cfg).

Definition put_world (w : World R) (s : Deposits R) : Deposits R :=
  {| dp_world := w; dp_schedule := dp_schedule s; dp_running := dp_running s |}.
Definition put_schedule (m : jsmap ScheduleEntry) (s : Deposits R) : Deposits R :=
  {| dp_world := dp_world s; dp_schedule := m; dp_running := dp_running s |}.
Definition put_running (b : bool) (s : Deposits R) : Deposits R :=
  {| dp_world := dp_world s; dp_schedule := dp_schedule s; dp_running := b |}.
Definition on_world {A} (p : prog (World R) ServiceError A) : DM A := zoom dp_world put_world id p.

(** [mutateWithRetry] with an attempt that is itself a call of the service. *)
Fixpoint mutateWithRetryM (id : string) (mutate : Intent -> option (prog (World R) ServiceError MutationResult)) (attempts : nat)
    (last : MutationResult) : prog (World R) ServiceError MutationResult :=
  match attempts with
  | O => Done last
  | S n =>
      found <- find_intent id;
      match found with
      | None => Done NotWritten
      | Some current =>
          match mutate current with
          | None => Done NotWritten
          | Some pending =>
              last <- pending;
              match last with
              | Conflict _ => mutateWithRetryM id mutate n last
              | Written _ => modify changed;;; Done last
              | NotWritten => Done last
              end
          end
      end
  end.

Definition is_verified (c : DepositCheck) : bool := match dc_status c with sv_verified => true | _ => false end.

(** [...(x ? { x } : {})] *)
Definition present (o : option string) : option string := if truthy_str o then o else None.

Definition verification_of (c : DepositCheck) (now : Z) : SrcVerification :=
  {| sv_status := dc_status c; sv_checkedAt := now / 1000; sv_blockNumber := toString <$> dc_blockNumber c; sv_blockHash := present (dc_blockHash c);
     sv_receivedAmount := present (dc_receivedAmount c); sv_detail := present (dc_detail c) |}.

Definition check_patch (c : DepositCheck) (now : Z) : IntentPatch :=
  [P_srcVerified (Some (is_verified c)); P_srcVerification (Some (verification_of c now))].

(** [update] answers the intent or null, so that a conflict reads as null. *)
Definition write_check (c : DepositCheck) (now : Z) (current : Intent) : option (prog (World R) ServiceError MutationResult) :=
  if bool_decide (state current = open) then
    Some (o <- svc_update (intentId current) (check_patch c now) (version current);
          Done (match o with Some u => Written u | None => NotWritten end))
  else None.

Definition broadcast_check (i : Intent) (verified : bool) : DM unit :=
  let was := bool_decide (srcVerified i = Some true) in
  if verified && negb was then on_world (modify (add_effect (Broadcast "intent_src_verified" (intentId i) None)))
  else if negb verified && was then on_world (modify (add_effect (Broadcast "intent_src_unverified" (intentId i) None)))
  else Done tt.

Definition verifyOne (a : EvmAnswers) (i : Intent) (now : Z) : DM (option DepositCheck) :=
  if negb (isEvmSourceChain (srcChain i)) then Done None
  else
    answer <- reads (fun _ : Deposits R => verify a i);
    match answer with
    | Err e =>
        modify (fun s => put_schedule (backoff (intentId i) now (if isRateLimited e then SRC_RATE_LIMIT_MULTIPLIER else 1) (dp_schedule s)) s);;;
        Done None
    | Ok check =>
        modify (fun s =>
          put_schedule (if is_verified check then set (intentId i) {| se_attempts := O; se_nextAt := now + SRC_REVERIFY_INTERVAL_MS |} (dp_schedule s)
                        else backoff (intentId i) now 1 (dp_schedule s)) s);;;
        result <- on_world (mutateWithRetryM (intentId i) (write_check check now) MAX_VERSION_RETRIES NotWritten);
        match result with
        | Written _ => broadcast_check i (is_verified check);;; Done (Some check)
        | _ => Done (Some check)
        end
    end.

Definition is_due (now : Z) (m : jsmap ScheduleEntry) (i : Intent) : bool :=
  isEvmSourceChain (srcChain i) && needsCheck i now && (match get (intentId i) m with Some e => se_nextAt e | None => 0 end <=? now).

(** Forget the intents that are no longer open, and pick the due ones. *)
Definition plan_tick (now : Z) (opened : list Intent) (s : Deposits R) : list Intent * Deposits R :=
  let m := filter (fun '(id, _) => id ∈ (intentId <$> opened)) (dp_schedule s) in
  (filter (fun i => is_due now m i = true) opened, put_schedule m s).

Definition opened (w : World R) : list Intent := filter (fun i => state i = open) (repo_list (w_repo w)).

(** [orders]: how the calls of each group of four interleave. *)
Fixpoint check_groups (answers : string -> EvmAnswers) (now : Z) (orders : list (list nat)) (groups : list (list Intent)) : DM unit :=
  match groups with
  | [] => Done tt
  | g :: groups =>
      together (default [] (head orders)) ((fun i => verifyOne (answers (intentId i)) i now) <$> g);;;
      check_groups answers now (tail orders) groups
  end.

Fixpoint groups_of (fuel : nat) (n : nat) {A} (l : list A) : list (list A) :=
  match fuel, l with
  | _, [] => []
  | O, _ => []
  | S fuel, _ => take n l :: groups_of fuel n (drop n l)
  end.

Definition tick (enabled : bool) (answers : string -> EvmAnswers) (now : Z) (orders : list (list nat)) : DM nat :=
  if negb enabled then Done O
  else
    running <- atomic (fun s => (dp_running s, put_running true s));
    if running : bool then Done O
    else
      pcatch (fun e => modify (put_running false);;; Throw e)
        (open_ <- on_world (reads opened);
         due <- atomic (plan_tick now open_);
         check_groups answers now orders (groups_of (length due) SRC_VERIFY_CONCURRENCY due);;;
         modify (put_running false);;;
         Done (length due)).
End service.

(** * Whose flag is set *)

Section earned.
Variables (isAddressEqual : string -> string -> option bool) (keccak256 : string -> string) (cfg : EvmConfig).
Notation S := (Deposits InMemoryRepo).
Notation rows s := (store (w_repo (dp_world s))).
Notation verified_by := (verified_by isAddressEqual keccak256 cfg).

(** What a check looks at, besides the id. *)
Definition terms_of (i : Intent) : string * SupportedChain * TokenInfo * string * option string :=
  (user i, srcChain i, srcToken i, srcAmount i, srcTxHash i).

Lemma verified_terms a i j : intentId i = intentId j -> terms_of i = terms_of j -> verified_by a i -> verified_by a j.
Proof.
  intros Hid Ht. injection Ht as Hu Hc Hk Ha Hx. rewrite !verified_log. unfold deposit_of, deposit_logs, check_log, logsFromReceipt, for_intent.
  rewrite Hid, Hu, Hc, Hk, Ha, Hx. done.
Qed.

(** Rows are stored under their id. *)
Definition keyed (m : jsmap Intent) : Prop := wf m /\ forall id i, get id m = Some i -> intentId i = id.

Lemma keyed_set m id u : keyed m -> intentId u = id -> keyed (set id u m).
Proof.
  intros [Hw Hk] Hu. split; [by apply set_wf|]. intros k i Hg. rewrite get_set in Hg. case_decide; [congruence|by apply Hk].
Qed.

Lemma keyed_values m i : keyed m -> i ∈ values m -> get (intentId i) m = Some i.
Proof. intros [Hw Hk] Hi. destruct (values_get m i Hw Hi) as [k Hg]. by rewrite (Hk _ _ Hg). Qed.

(** A step that changes neither the terms nor the flag of any row. *)
Definition respects (w w' : World InMemoryRepo) : Prop :=
  keyed (store (w_repo w)) -> keyed (store (w_repo w')) /\
  forall id i', get id (store (w_repo w')) = Some i' ->
    exists i, get id (store (w_repo w)) = Some i /\ terms_of i' = terms_of i /\ srcVerified i' = srcVerified i.

Lemma respects_same w w' : w_repo w' = w_repo w -> respects w w'.
Proof. intros H Hk. rewrite H. split; [done|]. eauto. Qed.

Lemma respects_mutate w w' id ev guard apply : w_repo w' = (mutate id ev guard apply (w_repo w)).2 ->
  (forall i, terms_of (apply i) = terms_of i /\ srcVerified (apply i) = srcVerified i) -> respects w w'.
Proof.
  intros Hw Ha Hk. rewrite Hw. unfold mutate. destruct (get id (store (w_repo w))) as [i|] eqn:Eg; [|split; [done|eauto]].
  destruct (match ev with Some v => _ | None => false end); [split; [done|eauto]|]. destruct (negb (guard i)); [split; [done|eauto]|]. simpl.
  split; [by apply keyed_set|]. intros k i' Hg. rewrite get_set in Hg. case_decide; [|eauto]. subst k. injection Hg as <-. exists i.
  destruct (Ha i) as [H1 H2]. split; [done|]. split; [exact H1|exact H2].
Qed.

(** Deposit ticks of the service, given by what the chains answer, and calls of
    others. *)
Record Tick := { tk_answers : string -> EvmAnswers; tk_now : Z; tk_orders : list (list nat) }.
Variables (ticks : list Tick) (m0 : jsmap Intent).

Definition tick_call (t : Tick) : prog S ServiceError unit :=
  tick isAddressEqual keccak256 cfg true (tk_answers t) (tk_now t) (tk_orders t);;; Done tt.

Definition earned (i : Intent) : Prop := exists t, t ∈ ticks /\ verified_by (tk_answers t (intentId i)) i.

Definition flags_ok (s : S) : Prop :=
  keyed (rows s) /\
  forall id i, get id (rows s) = Some i -> exists i0, get id m0 = Some i0 /\ terms_of i = terms_of i0 /\
    (srcVerified i = Some true -> srcVerified i0 = Some true \/ exists t, t ∈ ticks /\ verified_by (tk_answers t id) i).

Notation keeps Q p := (keeps_inv (E := ServiceError) flags_ok Q p).

Lemma earned_terms t id i j : intentId i = id -> intentId j = id -> terms_of i = terms_of j -> verified_by (tk_answers t id) i -> verified_by (tk_answers t id) j.
Proof. intros <- Hj. apply verified_terms. done. Qed.

Lemma flags_respect s w : flags_ok s -> respects (dp_world s) w -> flags_ok (put_world w s).
Proof.
  intros [Hk Hf] Hr. destruct (Hr Hk) as [Hk' Hr']. split; [done|]. intros id i' Hg. destruct (Hr' _ _ Hg) as (i & Hi & Ht & Hv).
  destruct (Hf _ _ Hi) as (i0 & H0 & Ht0 & He). exists i0. split; [done|]. split; [congruence|]. intros Hs. rewrite Hv in Hs.
  destruct (He Hs) as [?|(t & Hin & Hvt)]; [by left|right]. exists t. split; [done|].
  eapply earned_terms; [by apply (proj2 Hk)|by apply (proj2 Hk')|done|done].
Qed.

Lemma keeps_others {A} (p : prog (World InMemoryRepo) ServiceError A) : safe respects (fun _ => True) p -> keeps (fun _ => True) (on_world p).
Proof. apply inv_zoom. apply flags_respect. Qed.

Lemma keeps_silent f : (forall s, dp_world (f s) = dp_world s) -> keeps (fun _ => True) (modify f).
Proof. intros H. apply inv_modify. intros s. unfold flags_ok. by rewrite H. Qed.

Lemma keeps_look {A} (f : World InMemoryRepo -> A) (Q : A -> Prop) : (forall s, flags_ok s -> Q (f (dp_world s))) -> keeps Q (on_world (reads f)).
Proof. intros H s Hs. simpl. split; [destruct s; exact Hs|]. by apply H. Qed.

(** A row written by a check keeps its terms, and its flag is the verdict. *)
Lemma check_written s c now id ev : flags_ok s ->
  (is_verified c = true -> forall i, intentId i = id -> (exists i0, get id m0 = Some i0 /\ terms_of i = terms_of i0) -> exists t, t ∈ ticks /\ verified_by (tk_answers t id) i) ->
  flags_ok (put_world (set_repo (update id (check_patch c now) ev (w_repo (dp_world s))).2 (dp_world s)) s).
Proof.
  intros [Hk Hf] Hc. unfold update, mutate. simpl. destruct (get id (rows s)) as [i|] eqn:Eg; [|split; done].
  destruct (match ev with Some v => _ | None => false end); [split; done|]. simpl. split; [by apply keyed_set|].
  intros k i' Hg. simpl in Hg. rewrite get_set in Hg. case_decide; [|by apply Hf]. subst k. destruct (Hf _ _ Eg) as (i0 & H0 & Ht & _).
  injection Hg as <-. exists i0. split; [done|]. split; [exact Ht|]. simpl. intros Hv. injection Hv as Hv. right.
  apply Hc; [done|done|]. by exists i0.
Qed.

Lemma keeps_write c now id n last :
  (is_verified c = true -> forall i, intentId i = id -> (exists i0, get id m0 = Some i0 /\ terms_of i = terms_of i0) -> exists t, t ∈ ticks /\ verified_by (tk_answers t id) i) ->
  keeps (fun _ => True) (on_world (mutateWithRetryM id (write_check c now) n last)).
Proof.
  intros Hc. revert last. induction n as [|n IH]; intros last; [done|]. cbn [mutateWithRetryM]. unfold on_world, find_intent, reads. cbn [pbind zoom].
  intros s Hs. split; [by destruct s|]. destruct (repo_find id (w_repo (dp_world s))) as [current|] eqn:Ef; [|done].
  unfold write_check. case_bool_decide; [|done].
  assert (Hid : intentId current = id) by (by apply (proj2 (proj1 Hs))). rewrite Hid. unfold svc_update, repo_write, atomic. cbn [pbind zoom fst snd].
  intros s1 Hs1. split; [by apply check_written|]. destruct (written _) as [u|]; [|done]. cbn [pbind zoom modify].
  intros s2 Hs2. split; [by apply flags_respect, respects_same|]. cbn [pbind zoom modify].
  intros s3 Hs3. split; [by apply flags_respect, respects_same|]. done.
Qed.

Definition known (i : Intent) : Prop := exists i0, get (intentId i) m0 = Some i0 /\ terms_of i = terms_of i0.

Lemma keeps_verifyOne t i now : t ∈ ticks -> known i -> keeps (fun _ => True) (verifyOne isAddressEqual keccak256 cfg (tk_answers t (intentId i)) i now).
Proof.
  intros Ht (i0 & H0 & Hterms). unfold verifyOne. destruct (negb _); [done|].
  apply (inv_bind _ (fun answer => answer = verify isAddressEqual keccak256 cfg (tk_answers t (intentId i)) i)); [by apply inv_reads|].
  intros answer Ha. destruct answer as [check|e]; [|eapply inv_bind; [by apply keeps_silent|done]].
  eapply inv_bind; [by apply keeps_silent|]. intros _ _. apply (inv_bind _ (fun _ => True)).
  - apply keeps_write. intros Hv j Hj (j0 & Hj0 & Hjt). exists t. split; [done|]. apply (verified_terms _ i); [done|congruence|].
    exists check. split; [done|]. unfold is_verified in Hv. by destruct (dc_status check).
  - intros [u| |c] _; [|done..]. apply (inv_bind _ (fun _ => True)); [|done]. unfold broadcast_check.
    destruct (_ && _); [by apply keeps_others, safe_modify; intros w; apply respects_same|].
    destruct (_ && _); [by apply keeps_others, safe_modify; intros w; apply respects_same|done].
Qed.

Lemma keeps_groups t now orders groups : t ∈ ticks -> Forall (Forall known) groups ->
  keeps (fun _ => True) (check_groups isAddressEqual keccak256 cfg (tk_answers t) now orders groups).
Proof.
  intros Ht Hg. revert orders. induction Hg as [|g groups Hg _ IH]; intros orders; cbn [check_groups]; [done|].
  eapply inv_bind; [|intros _ _; apply IH]. apply (inv_mono _ (Forall (fun _ => True))); [done|]. apply inv_together, Forall_fmap.
  eapply Forall_impl; [exact Hg|]. intros i Hi. by apply keeps_verifyOne.
Qed.

Lemma groups_of_forall {A} (P : A -> Prop) fuel n l : Forall P l -> Forall (Forall P) (groups_of fuel n l).
Proof.
  revert l. induction fuel as [|fuel IH]; intros [|x l] H; cbn [groups_of]; try by constructor.
  constructor; [by apply Forall_take|]. apply IH. by apply Forall_drop.
Qed.

Lemma keeps_tick t : t ∈ ticks -> keeps (fun _ => True) (tick_call t).
Proof.
  intros Ht. unfold tick_call, tick. cbn [negb]. apply (inv_bind _ (fun _ => True)); [|done].
  apply (inv_bind _ (fun _ => True)); [by apply inv_atomic|]. intros [] _; [done|]. apply inv_catch.
  - apply (inv_bind _ (Forall known)).
    { apply keeps_look. intros s [Hk Hf]. apply Forall_forall. intros i Hi. unfold opened in Hi. apply list_elem_of_filter in Hi as [_ Hi].
      change (i ∈ findAll (w_repo (dp_world s))) in Hi. unfold findAll in Hi. rewrite sort_by_perm in Hi.
      pose proof (keyed_values _ _ Hk Hi) as Hg. destruct (Hf _ _ Hg) as (i0 & H0 & Ht0 & _). by exists i0. }
    intros opened_ Ho. apply (inv_bind _ (Forall known)).
    { apply inv_atomic. intros s Hs. split; [exact Hs|]. simpl. rewrite Forall_forall in Ho |- *. intros i Hi. apply list_elem_of_filter in Hi as [_ Hi]. by apply Ho. }
    intros due Hd. eapply inv_bind; [by apply keeps_groups, groups_of_forall|]. intros _ _. eapply inv_bind; [by apply keeps_silent|done].
  - intros e. eapply inv_bind; [by apply keeps_silent|done].
Qed.

(** C31. A flag is earned: take any number of ticks of the verification service,
    whatever the chains answer them and however their checks interleave with
    each other and with calls that leave terms and flags of intents alone, such
    as acceptances and cancellations.  An intent that is flagged verified at the
    end was so at the start, or one of the ticks found its deposit on the
    chain; and nobody's terms have changed. *)
Theorem verified_flags_are_earned s ps others s' :
  rows s = m0 -> keyed m0 -> Forall (safe respects (fun _ => True)) others ->
  ps = (tick_call <$> ticks) ++ ((fun p => on_world p) <$> others) -> forall ps', rtc pool_step (s, ps) (s', ps') ->
  forall id i, get id (rows s') = Some i -> exists i0, get id m0 = Some i0 /\ terms_of i = terms_of i0 /\
    (srcVerified i = Some true -> srcVerified i0 = Some true \/ earned i0).
Proof.
  intros H0 Hk Ho -> ps' Hrun id i Hi. destruct (pool_inv flags_ok (fun _ => True) _ _ Hrun) as [[Hk' Hf] _].
  - split; [simpl; by rewrite H0|]. intros k j Hj. simpl in Hj. rewrite H0 in Hj. exists j. split; [done|]. split; [done|]. by left.
  - simpl. apply Forall_app. split; apply Forall_fmap, Forall_forall.
    + intros t Ht. by apply keeps_tick.
    + intros p Hp. apply keeps_others. rewrite Forall_forall in Ho. by apply Ho.
  - destruct (Hf _ _ Hi) as (i0 & Hi0 & Ht & He). exists i0. split; [done|]. split; [done|]. intros Hv. destruct (He Hv) as [?|(t & Hin & Hvt)]; [by left|right].
    exists t. split; [done|]. assert (Hid0 : intentId i0 = id) by (by apply (proj2 Hk)). rewrite Hid0. by eapply earned_terms; [by apply (proj2 Hk')| |exact Ht|].
Qed.
End earned.

(** * Retries *)

Section retries.
Variables (isAddressEqual : string -> string -> option bool) (keccak256 : string -> string) (cfg : EvmConfig) (ticks : list Tick).
Notation S := (Deposits InMemoryRepo).

(** Every appointment is between fifteen seconds and ten minutes after the tick
    that made it. *)
Definition schedule_ok (s : S) : Prop :=
  forall e, e ∈ values (dp_schedule s) ->
    exists t, t ∈ ticks /\ tk_now t + SRC_RETRY_BASE_MS <= se_nextAt e <= tk_now t + SRC_RETRY_MAX_MS.
Notation keeps Q p := (keeps_inv (E := ServiceError) schedule_ok Q p).

Lemma appoint s id e t : schedule_ok s -> t ∈ ticks -> tk_now t + SRC_RETRY_BASE_MS <= se_nextAt e <= tk_now t + SRC_RETRY_MAX_MS ->
  schedule_ok (put_schedule (set id e (dp_schedule s)) s).
Proof. intros Hs Ht He e' Hg. apply elem_of_values_set in Hg as [->|Hg]; [eauto|by apply Hs]. Qed.

Lemma backoff_ok s id t multiplier : schedule_ok s -> t ∈ ticks -> 1 <= multiplier ->
  schedule_ok (put_schedule (backoff id (tk_now t) multiplier (dp_schedule s)) s).
Proof.
  intros Hs Ht Hm. apply (appoint s id _ t); [done|done|]. cbn [se_nextAt].
  match goal with |- context [2 ^ ?e] => assert (1 <= 2 ^ e) by (pose proof (Z.pow_pos_nonneg 2 e); lia) end.
  unfold SRC_RETRY_BASE_MS, SRC_RETRY_MAX_MS. nia.
Qed.

Lemma keeps_elsewhere {A} (p : prog (World InMemoryRepo) ServiceError A) : keeps (fun _ => True) (on_world p).
Proof. apply (inv_zoom _ _ _ _ (fun _ _ => True)); [done|]. induction p; constructor; auto. Qed.

Lemma keeps_one t i : t ∈ ticks -> keeps (fun _ => True) (verifyOne isAddressEqual keccak256 cfg (tk_answers t (intentId i)) i (tk_now t)).
Proof.
  intros Ht. unfold verifyOne. destruct (negb _); [done|]. apply (inv_bind _ (fun _ => True)); [by apply inv_reads|].
  intros [check|e] _.
  - eapply inv_bind; [apply inv_modify|intros _ _].
    { intros s Hs. destruct (is_verified check); [apply (appoint s _ _ t); [done|done|]|by apply backoff_ok].
      cbn [se_nextAt]. unfold SRC_RETRY_BASE_MS, SRC_RETRY_MAX_MS, SRC_REVERIFY_INTERVAL_MS. lia. }
    eapply inv_bind; [apply keeps_elsewhere|]. intros [u| |c] _; [|done..]. apply (inv_bind _ (fun _ => True)); [|done].
    unfold broadcast_check. destruct (_ && _); [apply keeps_elsewhere|]. destruct (_ && _); [apply keeps_elsewhere|done].
  - eapply inv_bind; [apply inv_modify|done]. intros s Hs. by destruct (isRateLimited e); apply backoff_ok.
Qed.

Lemma keeps_check_groups t orders groups : t ∈ ticks -> keeps (fun _ => True) (check_groups isAddressEqual keccak256 cfg (tk_answers t) (tk_now t) orders groups).
Proof.
  intros Ht. revert orders. induction groups as [|g groups IH]; intros orders; cbn [check_groups]; [done|].
  eapply inv_bind; [|intros _ _; apply IH]. apply (inv_mono _ (Forall (fun _ => True))); [done|].
  apply inv_together, Forall_fmap, Forall_forall. intros i _. by apply keeps_one.
Qed.

Lemma keeps_tick_schedule t : t ∈ ticks -> keeps (fun _ => True) (tick_call isAddressEqual keccak256 cfg t).
Proof.
  intros Ht. unfold tick_call, tick. cbn [negb]. apply (inv_bind _ (fun _ => True)); [|done].
  apply (inv_bind _ (fun _ => True)); [by apply inv_atomic|]. intros [] _; [done|]. apply inv_catch.
  - eapply inv_bind; [apply keeps_elsewhere|]. intros opened_ _. apply (inv_bind _ (fun _ => True)).
    { apply inv_atomic. intros s Hs. split; [|done]. intros e Hg. apply Hs. unfold values in *. cbn [snd plan_tick dp_schedule put_schedule] in Hg.
      apply list_elem_of_fmap in Hg as (kv & -> & Hg). apply list_elem_of_filter in Hg as [_ Hg]. apply list_elem_of_fmap. eauto. }
    intros due _. eapply inv_bind; [by apply keeps_check_groups|]. intros _ _. eapply inv_bind; [by apply inv_modify|done].
  - intros e. eapply inv_bind; [by apply inv_modify|done].
Qed.

(** Retries neither hammer a chain nor give up on an intent: after any
    interleaving of ticks every intent's next check is at least fifteen seconds
    and at most ten minutes after the tick that appointed it, whatever failed
    and however often. *)
Theorem retries_within_bounds s s' ps' : dp_schedule s = [] ->
  rtc pool_step (s, tick_call isAddressEqual keccak256 cfg <$> ticks) (s', ps') -> schedule_ok s'.
Proof.
  intros H0 Hrun. destruct (pool_inv schedule_ok (fun _ => True) _ _ Hrun) as [H _]; [|by apply Forall_fmap, Forall_forall; intros t; apply keeps_tick_schedule|done].
  intros e Hg. simpl in Hg. rewrite H0 in Hg. by apply elem_of_nil in Hg.
Qed.
End retries.

(** * Concrete checks *)

Section respecting.
Notation ok p := (safe (E := ServiceError) respects (fun _ => True) p).

Lemma respects_write id ev guard apply :
  (forall i, terms_of (apply i) = terms_of i /\ srcVerified (apply i) = srcVerified i) -> ok (repo_write (R := InMemoryRepo) (mutate id ev guard apply)).
Proof. intros H. apply safe_atomic. intros w. by eapply respects_mutate. Qed.

Lemma respects_book (f : World InMemoryRepo -> World InMemoryRepo) : (forall w, w_repo (f w) = w_repo w) -> ok (modify f).
Proof. intros H. apply safe_modify. intros w. by apply respects_same. Qed.

Lemma respects_look {A} (f : World InMemoryRepo -> A) : ok (reads f).
Proof. apply safe_reads. intros w. by apply respects_same. Qed.

Lemma respects_plan {A} env id from to ctx (k : _ -> prog (World InMemoryRepo) ServiceError A) :
  (forall plan, ok (k plan)) -> ok (pbind k (plan_transition env id from to ctx)).
Proof. intros H. unfold plan_transition. destruct (StateMachine.transition _ _ _ _ _); [apply H|constructor]. Qed.

Lemma respects_committed plan extra : ok (committed (R := InMemoryRepo) plan extra).
Proof. apply safe_bind; [by apply respects_book|]. intros _. by apply respects_book. Qed.

(** Acceptances, parked on chain or not, leave terms and flags alone. *)
Lemma accept_respects env id sol now ctx : ok (svc_acceptIfOpen (R := InMemoryRepo) env id sol now ctx).
Proof.
  unfold svc_acceptIfOpen. apply safe_bind; [apply respects_look|]. intros [i|]; [|by constructor]. apply respects_plan. intros plan.
  apply safe_bind; [by apply respects_write|]. intros res. destruct (written res) as [u|]; [|by constructor].
  apply safe_bind; [apply respects_committed|]. intros _. apply safe_bind; [by apply respects_book|]. intros _.
  unfold finish_write, parkWithBroadcast. destruct (e_onchain env u); [|by constructor]. apply safe_bind; [|by constructor].
  apply safe_bind; [apply respects_look|]. intros tx. apply safe_bind; [|by constructor].
  unfold transitionToOnChainPending. apply safe_bind; [apply respects_look|]. intros [j|]; [|by constructor]. apply respects_plan. intros plan'.
  apply safe_bind; [by apply respects_write|]. intros res'. destruct (written res'); [|by constructor].
  apply safe_bind; [apply respects_committed|]. by constructor.
Qed.
End respecting.

Definition ex_eq (a b : string) : option bool := None.
Definition ex_cfg : EvmConfig :=
  {| ec_rpcUrls := fun _ => Some "https://rpc"; ec_escrowAddresses := fun _ => Some "0xE"; ec_toleranceBps := Fin (of_Z 0); ec_lookback := Fin (of_Z 10000) |}.
Definition ex_log (token : string) (amount : Z) : DepositedLog :=
  {| dl_intentId := "i1"; dl_token := token; dl_amount := amount; dl_user := "guser"; dl_blockNumber := Some 100; dl_blockHash := Some "0xH"; dl_removed := false |}.
Definition ex_answers (logs : list DepositedLog) (head : Z) : EvmAnswers :=
  {| ea_receipt := Ok None; ea_logHead := Ok head; ea_logs := fun _ _ => Ok logs; ea_head := Ok head; ea_safe := Ok (Some head) |}.
Definition ex_intent : Intent := apply_patch [P_srcVerified (Some false)] demo_intent.
Definition ex_deposits : Deposits InMemoryRepo :=
  {| dp_world := set_repo (save ex_intent empty_repo) demo_world; dp_schedule := []; dp_running := false |}.
Definition ex_tick (logs : list DepositedLog) (now : Z) : Tick := {| tk_answers := fun _ => ex_answers logs 120; tk_now := now; tk_orders := [] |}.
Definition ex_call : Tick -> prog (Deposits InMemoryRepo) ServiceError unit := tick_call ex_eq id ex_cfg.

Lemma verified_iff_witness :
  (verified_by ex_eq id ex_cfg (ex_answers [ex_log "0xa" 1000] 111) ex_intent <->
   configured ex_cfg (srcChain ex_intent) = true /\
   exists l, deposit_of ex_eq id ex_cfg (ex_answers [ex_log "0xa" 1000] 111) ex_intent l /\ sameAddress ex_eq (dl_token l) (tok_address (srcToken ex_intent)) = true /\
     toLowerCase (dl_user l) = toLowerCase (user ex_intent) /\ 1000 * (10000 - 0) <= 10000 * dl_amount l /\
     confirmed (ex_answers [ex_log "0xa" 1000] 111) (srcChain ex_intent) (default 0 (dl_blockNumber l))) /\
  verified_by ex_eq id ex_cfg (ex_answers [ex_log "0xa" 1000] 111) ex_intent.
Proof.
  split; [apply verified_iff; [vm_compute; reflexivity|lia|vm_compute; reflexivity]|]. eexists. split; [vm_compute; reflexivity|reflexivity].
Defined.

(** A verified deposit while the intent is accepted: the flag was set before. *)
Definition ex_race : list (prog (Deposits InMemoryRepo) ServiceError unit) :=
  (ex_call <$> [ex_tick [ex_log "0xA" 1000] 5000]) ++ ((fun p => on_world p) <$> [svc_acceptIfOpen demo_env "i1" "S" 2000 no_ctx;;; Done tt]).
Definition ex_order : list nat := [0; 0; 0; 1; 0; 0; 0; 0; 0; 0; 0; 0; 1; 1; 1; 1; 1; 1]%nat.

Lemma ex_keyed : keyed [("i1", ex_intent)].
Proof.
  split; [repeat constructor; set_solver|]. intros k j Hg. simpl in Hg. case_bool_decide; [|done]. subst. by injection Hg as <-.
Qed.

Lemma ex_others : Forall (safe respects (fun _ => True)) [svc_acceptIfOpen demo_env "i1" "S" 2000 no_ctx;;; Done tt].
Proof. constructor; [|constructor]. apply safe_bind; [apply accept_respects|]. by constructor. Qed.

Lemma ex_race_runs : rtc pool_step (ex_deposits, ex_race) ((schedule ex_order ex_deposits ex_race).1, (schedule ex_order ex_deposits ex_race).2).
Proof. rewrite <- surjective_pairing. apply schedule_steps. Qed.

Definition ex_end : jsmap Intent := store (w_repo (dp_world (schedule ex_order ex_deposits ex_race).1)).

Lemma ex_race_ends : exists i, get "i1" ex_end = Some i /\ state i = accepted /\ srcVerified i = Some true.
Proof.
  assert (H : (fun i => (state i, srcVerified i)) <$> get "i1" ex_end = Some (accepted, Some true)) by (vm_compute; reflexivity).
  destruct (get "i1" ex_end) as [i|]; [|discriminate H]. injection H as H1 H2. by exists i.
Qed.

Lemma verified_flags_are_earned_witness : exists i i0,
  get "i1" ex_end = Some i /\ state i = accepted /\ srcVerified i = Some true /\
  get "i1" [("i1", ex_intent)] = Some i0 /\ terms_of i = terms_of i0 /\
  (srcVerified i = Some true -> srcVerified i0 = Some true \/ earned ex_eq id ex_cfg [ex_tick [ex_log "0xA" 1000] 5000] i0).
Proof.
  destruct ex_race_ends as (i & Hi & Hst & Hv).
  destruct (verified_flags_are_earned ex_eq id ex_cfg [ex_tick [ex_log "0xA" 1000] 5000] [("i1", ex_intent)]
    ex_deposits ex_race _ _ eq_refl ex_keyed ex_others eq_refl _ ex_race_runs "i1" i Hi) as (i0 & H1 & H2 & H3).
  exists i, i0. split; [exact Hi|]. split; [exact Hst|]. split; [exact Hv|]. split; [exact H1|]. split; [exact H2|exact H3].
Defined.

Lemma retries_within_bounds_witness :
  let s' := (schedule ex_order ex_deposits (ex_call <$> [ex_tick [] 5000])).1 in
  values (dp_schedule s') = [{| se_attempts := 1; se_nextAt := 20000 |}] /\ schedule_ok [ex_tick [] 5000] s'.
Proof.
  cbv zeta. split; [vm_compute; reflexivity|].
  apply (retries_within_bounds ex_eq id ex_cfg [ex_tick [] 5000] ex_deposits _ (schedule ex_order ex_deposits (ex_call <$> [ex_tick [] 5000])).2); [reflexivity|].
  rewrite <- surjective_pairing. apply schedule_steps.
Defined.

(** ** What the checks miss *)

(** A write of anyone else between the read and the write of a verdict makes the
    verdict disappear without a retry: [update] turns the version conflict into
    null, so [mutateWithRetry] never sees it, and the next check is a minute
    away. *)
Theorem conflict_drops_verdict :
  let quote := on_world (svc_update "i1" [P_quotedDstAmount (Some "950")] None;;; Done tt) in
  let s' := (schedule [0; 0; 0; 0; 0; 0; 1; 0; 0; 0; 0; 1]%nat ex_deposits [ex_call (ex_tick [ex_log "0xA" 1000] 5000); quote]).1 in
  (srcVerified <$> get "i1" (store (w_repo (dp_world s')))) = Some (Some false) /\
  dp_schedule s' = [("i1", {| se_attempts := 0; se_nextAt := 65000 |})] /\ dp_running s' = false.
Proof. vm_compute. done. Qed.

(** An intent whose deposit was never seen is accepted like any other. *)
Theorem unverified_intent_is_accepted :
  let r := run (svc_acceptIfOpen demo_env "i1" "S" 2000 no_ctx) (dp_world ex_deposits) in
  exists u, r.1 = Ok (Some u) /\ state u = accepted /\ srcVerified u = Some false.
Proof. eexists. split; [vm_compute; reflexivity|]. done. Qed.

(** Only the first log of an intent counts.  A worthless deposit under the same
    intent id hides the real one that follows, and a second payment that makes
    up the amount is not added to the first. *)
Theorem first_log_decides :
  let verdict logs := (fun c => dc_status c) <$> verify ex_eq id ex_cfg (ex_answers logs 120) ex_intent in
  verdict [ex_log "0xA" 1000] = Ok sv_verified /\ verdict [ex_log "0xDUST" 1; ex_log "0xA" 1000] = Ok sv_mismatch /\
  verdict [ex_log "0xA" 600; ex_log "0xA" 400] = Ok sv_mismatch.
Proof. vm_compute. done. Qed.
