(* ===== verification/FillVerifier.v ===== *)
(** Independent verification of fills (soroban/fill-verifier.service.ts).

    [verify] judges a classic payment by what Horizon has indexed;
    [findLandedFill] and [verifyFillProof] answer the slashing saga from contract
    events and transaction meta.  Horizon, the RPC, asset contract ids and the
    decoding of contract values are parameters. *)
From S2P Require Import Prelude JsMap BigInt IntentTypes IntentsRepo SolverFills Prog PendingSlashes SlashingPipeline.
Local Open Scope string_scope.
Local Open Scope list_scope.
Local Open Scope Z_scope.
Local Open Scope prog_scope.

Definition LEDGER_SECONDS : Z := 5.
Definition MAX_FILL_WINDOW_SECONDS : Z := 1800.
Definition EVENTS_PAGE_LIMIT : nat := 200.
Definition MAX_EVENT_PAGES : nat := 10.

(** * Classic payments *)

Inductive pending_reason := not_indexed | horizon_unavailable.
Inductive FillVerificationVerdict :=
  | Verified (deliveredAmount operation : string)
  | Pending (reason : pending_reason)
  | Rejected (reason : string).

Record HorizonTransaction := { ht_successful : option bool; ht_memo_type : option string; ht_memo : option string; ht_operations : option string }.

(** The fields of an operation that are read; an amount that is not a string is
    [None]. *)
Record HorizonOperation := {
  ho_type : string; ho_source_account : option string; ho_to : option string; ho_asset_type : option string; ho_asset_code : option string;
  ho_asset_issuer : option string; ho_amount : option string; ho_destination_amount : option string;
}.

(** A response; a body that is not JSON has no value. *)
Record Response (A : Type) := { rs_status : Z; rs_body : option A }.
Arguments rs_status {A} _.
Arguments rs_body {A} _.

Record HorizonAnswers := { hz_transaction : option (Response HorizonTransaction); hz_operations : option (Response (list HorizonOperation)) }.

Section horizon.
(** Contract ids of the native asset and of a classic one; the SDK rejects some
    codes and issuers. *)
Variables (nativeContractId : string) (contractIdOf : string -> string -> option string).

Definition isPayment (type_ : string) : bool := bool_decide (type_ ∈ ["payment"; "path_payment_strict_send"; "path_payment_strict_receive"]).

(** [/^\d+(\.\d+)?$/] *)
Definition is_decimal (s : string) : bool :=
  match split_on dot_char s with
  | [w] => digits_only w
  | [w; f] => digits_only w && digits_only f
  | _ => false
  end.

Definition asset_contract (o : HorizonOperation) : option string :=
  if bool_decide (ho_asset_type o = Some "native") then Some nativeContractId
  else contractIdOf (default "" (ho_asset_code o)) (default "" (ho_asset_issuer o)).

Definition raw_amount (o : HorizonOperation) : option string :=
  if String.prefix "path_payment_" (ho_type o) then ho_destination_amount o else ho_amount o.

(** The operation is the solver's payment of the intent's asset to its user. *)
Definition delivers (i : Intent) (o : HorizonOperation) : bool :=
  isPayment (ho_type o) &&
  negb (truthy_str (ho_source_account o) && negb (bool_decide (ho_source_account o = solver i))) &&
  bool_decide (asset_contract o = Some (st_contract (dstToken i))) && bool_decide (default "" (ho_to o) = user i) &&
  match raw_amount o with Some raw => is_decimal raw | None => false end.

(** More digits than the token has decimals is an error. *)
Definition decimalToBaseUnits (value : string) (decimals : Z) : option Z :=
  let '(whole, fraction) := match split_on dot_char value with w :: f :: _ => (w, f) | [w] => (w, "") | [] => ("", "") end in
  if decimals <? Z.of_nat (String.length fraction) then None
  else
    let cut := String.substring 0 (Z.to_nat decimals) (fraction +:+ zeros (Z.to_nat decimals)) in
    w ← BigInt whole;
    f ← BigInt (if bool_decide (cut = "") then "0" else cut);
    Some (w * 10 ^ decimals + f).

(** The verdict on the first matching payment; [None] if a conversion throws. *)
Definition judge_payment (i : Intent) (o : HorizonOperation) : option FillVerificationVerdict :=
  delivered ← decimalToBaseUnits (default "" (raw_amount o)) (st_decimals (dstToken i));
  required ← BigInt (minDstAmount i);
  Some (if delivered <? required then Rejected "insufficient_delivered_amount" else Verified (toString delivered) (ho_type o)).

Definition good (status : Z) : bool := (200 <=? status) && (status <? 300).

Definition judge_operations (i : Intent) (ops : list HorizonOperation) : FillVerificationVerdict :=
  match list_find (fun o => delivers i o = true) ops with
  | Some (_, o) => default (Pending horizon_unavailable) (judge_payment i o)
  | None => Rejected "matching_payment_missing"
  end.

Definition verify_operations (h : HorizonAnswers) (i : Intent) : FillVerificationVerdict :=
  match hz_operations h with
  | None => Pending horizon_unavailable
  | Some r => if negb (good (rs_status r)) then Pending horizon_unavailable
              else match rs_body r with None => Pending horizon_unavailable | Some ops => judge_operations i ops end
  end.

Definition judge_transaction (h : HorizonAnswers) (i : Intent) (t : HorizonTransaction) : FillVerificationVerdict :=
  if negb (bool_decide (ht_successful t = Some true)) then Rejected "transaction_failed"
  else if negb (bool_decide (ht_memo_type t = Some "text")) || negb (bool_decide (ht_memo t = Some (intentId i))) then Rejected "intent_memo_mismatch"
  else if negb (truthy_str (ht_operations t)) then Rejected "operations_missing"
  else verify_operations h i.

Definition verify (h : HorizonAnswers) (i : Intent) : FillVerificationVerdict :=
  match hz_transaction h with
  | None => Pending horizon_unavailable
  | Some r =>
      if rs_status r =? 404 then Pending not_indexed
      else if negb (good (rs_status r)) then Pending horizon_unavailable
      else match rs_body r with None => Pending horizon_unavailable | Some t => judge_transaction h i t end
  end.
End horizon.

(** * Contract events *)

Record LandedFill := { lf_txHash : string; lf_ledger : Z; lf_closedAt : Z }.

Section chain.
(** A value that decodes to a string, if it does; the settlement contract's id
    is empty if it is not configured. *)
Context {scval : Type} (decode : scval -> option string) (settlementContractId : string).

(** [fe_closedAt] is the close time in seconds; NaN is [None]. *)
Record FillEvent := { fe_topic : list scval; fe_txHash : string; fe_ledger : Z; fe_closedAt : option Z; fe_pagingToken : string }.

Inductive EventQuery := FromLedger (start : Z) | AfterCursor (token : string).

(** What the RPC answers; an error is a message. *)
Record ChainRpc := { cr_latestLedger : outcome string Z; cr_getEvents : EventQuery -> outcome string (list FillEvent) }.

Definition isIntentFilled (topic : list scval) (id : string) : bool :=
  bool_decide (topic !! 0%nat ≫= decode = Some "intent_filled") && bool_decide (topic !! 1%nat ≫= decode = Some id).

Definition landed (id : string) (latestAcceptable : Z) (e : FillEvent) : bool :=
  isIntentFilled (fe_topic e) id && match fe_closedAt e with Some c => c <=? latestAcceptable | None => false end.

Definition fill_of (e : FillEvent) : LandedFill :=
  {| lf_txHash := fe_txHash e; lf_ledger := fe_ledger e; lf_closedAt := default 0 (fe_closedAt e) |}.

(** An empty cursor is no cursor. *)
Fixpoint scan_pages (rpc : ChainRpc) (id : string) (latestAcceptable startLedger : Z) (cursor : option string) (pages : nat) : outcome string (option LandedFill) :=
  match pages with
  | O => Ok None
  | S pages =>
      match cr_getEvents rpc (if truthy_str cursor then AfterCursor (default "" cursor) else FromLedger startLedger) with
      | Err e => Err e
      | Ok events =>
          match list_find (fun e => landed id latestAcceptable e = true) events with
          | Some (_, e) => Ok (Some (fill_of e))
          | None =>
              if (length events <? EVENTS_PAGE_LIMIT)%nat then Ok None
              else scan_pages rpc id latestAcceptable startLedger (fe_pagingToken <$> last events) pages
          end
      end
  end.

Definition start_ledger (latest now fillDeadline : Z) : Z :=
  let lookbackSeconds := Z.max 0 (now - fillDeadline) + MAX_FILL_WINDOW_SECONDS in
  Z.max 1 (latest - (lookbackSeconds + (LEDGER_SECONDS - 1)) / LEDGER_SECONDS).

(** [rpc] is [None] if the service runs without an RPC handle. *)
Definition findLandedFill (rpc : option ChainRpc) (id : string) (fillDeadline latestAcceptable now : Z) : outcome string (option LandedFill) :=
  if bool_decide (settlementContractId = "") then Ok None
  else
    match rpc with
    | None => Err "FillVerifierService: SorobanService is not wired; chain-data verification unavailable"
    | Some rpc =>
        match cr_latestLedger rpc with
        | Err e => Err e
        | Ok latest => scan_pages rpc id latestAcceptable (start_ledger latest now fillDeadline) None MAX_EVENT_PAGES
        end
    end.

(** A transaction with the contract events of its meta; [None] if the meta is not
    of version three.  An event has its contract's id and its topics, if these
    can be read. *)
Record ChainTransaction := {
  ct_status : string; ct_createdAt : Z; ct_ledger : Z; ct_events : option (list (option string * option (list scval)));
}.

Definition emitsIntentFilled (events : option (list (option string * option (list scval)))) (id : string) : bool :=
  existsb (fun '(contractId, topics) =>
    (bool_decide (settlementContractId = "") || bool_decide (contractId = Some settlementContractId)) &&
    match topics with Some t => isIntentFilled t id | None => false end) (default [] events).

Definition verifyFillProof (rpc : option (string -> outcome string ChainTransaction)) (txHash id : string) (latestAcceptable : Z)
    : outcome string (LandedFill + string) :=
  match rpc with
  | None => Err "FillVerifierService: SorobanService is not wired; chain-data verification unavailable"
  | Some getTransaction =>
      match getTransaction txHash with
      | Err e => Err e
      | Ok tx =>
          if negb (bool_decide (ct_status tx = "SUCCESS")) then Ok (inr ("transaction status is " +:+ ct_status tx))
          else if latestAcceptable <? ct_createdAt tx then
            Ok (inr ("fill closed at " +:+ toString (ct_createdAt tx) +:+ ", after the acceptable bound " +:+ toString latestAcceptable))
          else if negb (emitsIntentFilled (ct_events tx) id) then Ok (inr "transaction did not emit intent_filled for this intent")
          else Ok (inl {| lf_txHash := txHash; lf_ledger := ct_ledger tx; lf_closedAt := ct_createdAt tx |})
      end
  end.
End chain.

(** * Theorems *)

(** ** Amounts *)

Lemma parse_zeros_acc n acc : parse_digits 10 acc (zeros n) = Some (acc * 10 ^ Z.of_nat n).
Proof.
  revert acc. induction n as [|n IH]; intros acc; [cbn; f_equal; lia|]. cbn [zeros parse_digits]. change (digit_val (Ascii.ascii_of_N 48)) with (Some 0).
  cbv beta iota. change (0 <? 10) with true. cbv iota. rewrite IH. f_equal. rewrite Nat2Z.inj_succ, Z.pow_succ_r by lia. lia.
Qed.

Lemma parse_digits_zeros s n acc : parse_digits 10 acc (s +:+ zeros n) = (fun z => z * 10 ^ Z.of_nat n) <$> parse_digits 10 acc s.
Proof.
  revert acc. induction s as [|c s IH]; intros acc; [apply parse_zeros_acc|].
  change (String c s +:+ zeros n) with (String c (s +:+ zeros n)). cbn [parse_digits].
  destruct (digit_val c); [|done]. destruct (_ <? 10); [apply IH|done].
Qed.

Lemma substring_zeros s n m : (m <= n)%nat -> String.substring 0 (String.length s + m) (s +:+ zeros n) = s +:+ zeros m.
Proof.
  intros Hm. induction s as [|c s IH].
  2:{ change (String c (String.substring 0 (String.length s + m) (s +:+ zeros n)) = String c (s +:+ zeros m)). by rewrite IH. }
  change (String.substring 0 m (zeros n) = zeros m). revert n Hm.
  induction m as [|m IH]; intros [|n] Hn; simpl; [done|done|lia|]. f_equal. apply IH. lia.
Qed.

(** Horizon prints amounts with seven decimals.  They are read exactly for every
    token with at least seven decimals; a token with fewer makes every amount an
    error. *)
Theorem horizon_amounts z decimals : 0 <= z -> 0 <= decimals ->
  decimalToBaseUnits (horizon_text z) decimals = if decimals <? 7 then None else Some (z * 10 ^ (decimals - 7)).
Proof.
  intros Hz Hd. unfold decimalToBaseUnits. rewrite split_horizon by done.
  destruct (padded_digits 6 (z mod 10000000)) as (Hl & Hdig & Hb); [apply Z.mod_pos_bound; lia|]. set (f := padStart 7 (toString (z mod 10000000))) in *.
  rewrite Hl. destruct (Z.ltb_spec decimals (Z.of_nat 7)), (Z.ltb_spec decimals 7); try lia; [done|].
  assert (Hsub : String.substring 0 (Z.to_nat decimals) (f +:+ zeros (Z.to_nat decimals)) = f +:+ zeros (Z.to_nat (decimals - 7))).
  { rewrite <- (substring_zeros f (Z.to_nat decimals) (Z.to_nat (decimals - 7))) by lia. rewrite Hl. f_equal. lia. }
  rewrite Hsub. clear Hsub.
  rewrite BigInt_toString. cbn [mbind option_bind]. rewrite bool_decide_eq_false_2 by (destruct f; done).
  rewrite BigInt_digits. 2:{ unfold digits_only in *. bool_norm. rewrite all_chars_app, zeros_digits, andb_true_r. apply andb_true_iff. split; [|done].
    apply negb_true_iff, bool_decide_eq_false_2. by destruct f. }
  rewrite parse_digits_zeros, <- BigInt_digits, Hb by done. cbn [fmap option_fmap option_map mbind option_bind]. f_equal.
  replace (10 ^ decimals) with (10000000 * 10 ^ (decimals - 7)) by (change 10000000 with (10 ^ 7); rewrite <- Z.pow_add_r by lia; f_equal; lia).
  rewrite Z2Nat.id by lia. pose proof (Z.div_mod z 10000000). nia.
Qed.

(** ** Payments *)

Section payments.
Variables (nativeContractId : string) (contractIdOf : string -> string -> option string).
Notation verify := (verify nativeContractId contractIdOf).
Notation delivers := (delivers nativeContractId contractIdOf).

Definition indexed (h : HorizonAnswers) (t : HorizonTransaction) : Prop :=
  exists status, hz_transaction h = Some {| rs_status := status; rs_body := Some t |} /\ 200 <= status < 300.
Definition operations_of (h : HorizonAnswers) (ops : list HorizonOperation) : Prop :=
  exists status, hz_operations h = Some {| rs_status := status; rs_body := Some ops |} /\ 200 <= status < 300.

(** A fill is verified exactly if Horizon has indexed a successful transaction
    whose text memo is the intent's id and whose first payment of the intent's
    asset by its solver to its user brings at least the minimum, and the amount
    reported is that payment's. *)
Theorem fill_verified_iff h i amount operation :
  verify h i = Verified amount operation <->
  exists t ops n o delivered required,
    indexed h t /\ ht_successful t = Some true /\ ht_memo_type t = Some "text" /\ ht_memo t = Some (intentId i) /\ truthy_str (ht_operations t) = true /\
    operations_of h ops /\ list_find (fun o => delivers i o = true) ops = Some (n, o) /\
    decimalToBaseUnits (default "" (raw_amount o)) (st_decimals (dstToken i)) = Some delivered /\ BigInt (minDstAmount i) = Some required /\
    required <= delivered /\ amount = toString delivered /\ operation = ho_type o.
Proof.
  unfold verify. split.
  - destruct (hz_transaction h) as [[status [t|]]|] eqn:Et; cbn [rs_status rs_body]; [|by repeat case_match|done].
    destruct (Z.eqb_spec status 404); [done|]. unfold good. destruct (_ && _) eqn:Eg; [|done]. bool_norm. cbn [negb]. unfold judge_transaction.
    case_bool_decide as H1; [|done]. case_bool_decide as H2; [|done]. case_bool_decide as H3; [|done]. cbn [negb orb].
    destruct (truthy_str (ht_operations t)) eqn:H4; [|done]. cbn [negb]. unfold verify_operations.
    destruct (hz_operations h) as [[status' [ops|]]|] eqn:Eo; cbn [rs_status rs_body]; [|by case_match|done].
    unfold good. destruct (_ && _) eqn:Eg'; [|done]. bool_norm. cbn [negb]. unfold judge_operations.
    destruct (list_find _ ops) as [[n0 o]|] eqn:El; [|done]. unfold judge_payment.
    destruct (decimalToBaseUnits _ _) as [delivered|] eqn:Ed; [|done]. destruct (BigInt (minDstAmount i)) as [required|] eqn:Er; [|done].
    cbn [mbind option_bind default]. destruct (Z.ltb_spec delivered required); [done|]. intros He. injection He as <- <-.
    exists t, ops, n0, o, delivered, required. split; [exists status; auto|]. do 4 (split; [done|]). split; [exists status'; auto|]. done.
  - intros (t & ops & n & o & delivered & required & (status & Ht & Hs) & H1 & H2 & H3 & H4 & (status' & Ho & Hs') & Hf & Hd & Hr & Hle & -> & ->).
    rewrite Ht. cbn [rs_status rs_body]. rewrite (proj2 (Z.eqb_neq status 404)) by lia. unfold good.
    rewrite (proj2 (Z.leb_le 200 status)), (proj2 (Z.ltb_lt status 300)) by lia. cbn [andb negb]. unfold judge_transaction.
    rewrite !bool_decide_eq_true_2 by done. rewrite H4. cbn [negb orb]. unfold verify_operations. rewrite Ho. cbn [rs_status rs_body]. unfold good.
    rewrite (proj2 (Z.leb_le 200 status')), (proj2 (Z.ltb_lt status' 300)) by lia. cbn [andb negb]. unfold judge_operations. rewrite Hf.
    unfold judge_payment. rewrite Hd, Hr. cbn [mbind option_bind default]. by rewrite (proj2 (Z.ltb_ge _ _)).
Qed.

(** Stellar's text memos hold 28 bytes and intent ids are UUIDs of 36: on a
    network that keeps to the limit no fill of such an intent is verified. *)
Theorem uuid_memo_never_matches h i :
  (forall t memo, indexed h t -> ht_memo_type t = Some "text" -> ht_memo t = Some memo -> (String.length memo <= 28)%nat) ->
  String.length (intentId i) = 36%nat -> forall amount operation, verify h i <> Verified amount operation.
Proof.
  intros Hm Hl amount operation Hv. apply fill_verified_iff in Hv as (t & ops & n & o & d & r & Ht & _ & H2 & H3 & _). specialize (Hm t _ Ht H2 H3). lia.
Qed.
End payments.

(** ** Events *)

Section events.
Context {scval : Type} (decode : scval -> option string) (settlementContractId : string).
Notation Event := (FillEvent (scval := scval)).

(** The events after the one with a token. *)
Definition after_token (token : string) (events : list Event) : list Event :=
  match list_find (fun e => fe_pagingToken e = token) events with Some (n, _) => drop (S n) events | None => [] end.

(** An RPC node that pages through the events of the settlement contract. *)
Definition pages_of (events : list Event) (latest : Z) : ChainRpc := {|
  cr_latestLedger := Ok latest;
  cr_getEvents := fun q => Ok (take EVENTS_PAGE_LIMIT
    (match q with FromLedger start => filter (fun e => start <= fe_ledger e) events | AfterCursor token => after_token token events end));
|}.

Notation first_landed id bound l := (head (filter (fun e => landed decode id bound e = true) l)).

Lemma list_find_head {A} (P : A -> Prop) `{forall x, Decision (P x)} l : snd <$> list_find P l = head (filter P l).
Proof.
  induction l as [|x l IH]; [done|]. simpl. rewrite filter_cons. destruct (decide (P x)); [done|]. rewrite <- IH. by destruct (list_find P l) as [[]|].
Qed.

Lemma head_app {A} (l1 l2 : list A) : head (l1 ++ l2) = match head l1 with Some x => Some x | None => head l2 end.
Proof. by destruct l1. Qed.

Lemma after_suffix before (l : list Event) e : NoDup (fe_pagingToken <$> before ++ l) -> l !! 199%nat = Some e ->
  after_token (fe_pagingToken e) (before ++ l) = drop 200 l.
Proof.
  intros Hnd He. unfold after_token. assert (Hat : (before ++ l) !! (length before + 199)%nat = Some e) by (by rewrite lookup_app_r, Nat.add_comm, Nat.add_sub by lia).
  destruct (list_find_elem_of (fun x => fe_pagingToken x = fe_pagingToken e) (before ++ l) e) as [[n x] Hf]; [by eapply list_elem_of_lookup_2|done|].
  rewrite Hf. apply list_find_Some in Hf as (Hx & Htok & _).
  assert (n = (length before + 199)%nat) as -> by (eapply NoDup_lookup; [exact Hnd|by rewrite list_lookup_fmap, Hx|by rewrite list_lookup_fmap, Hat, Htok]).
  replace (S (length before + 199)) with (length before + 200)%nat by lia. by rewrite <- drop_drop, drop_app_length.
Qed.

Lemma scan_suffix before l events latest id bound start cursor pages :
  events = before ++ l -> NoDup (fe_pagingToken <$> events) -> Forall (fun e => fe_pagingToken e <> "") events ->
  cr_getEvents (pages_of events latest) (if truthy_str cursor then AfterCursor (default "" cursor) else FromLedger start) = Ok (take EVENTS_PAGE_LIMIT l) ->
  scan_pages decode (pages_of events latest) id bound start cursor pages = Ok (fill_of <$> first_landed id bound (take (EVENTS_PAGE_LIMIT * pages) l)).
Proof.
  revert before l cursor. induction pages as [|pages IH]; intros before l cursor He Hnd Htok Hq; [by rewrite Nat.mul_0_r, take_0|].
  cbn [scan_pages]. rewrite Hq. replace (EVENTS_PAGE_LIMIT * S pages)%nat with (EVENTS_PAGE_LIMIT + EVENTS_PAGE_LIMIT * pages)%nat by lia.
  rewrite <- take_take_drop, filter_app, head_app, <- list_find_head.
  destruct (list_find _ (take EVENTS_PAGE_LIMIT l)) as [[n x]|] eqn:Ef; [done|]. cbn [fmap option_fmap option_map]. rewrite length_take.
  destruct (Nat.ltb_spec (EVENTS_PAGE_LIMIT `min` length l) EVENTS_PAGE_LIMIT) as [Hlt|Hge].
  { rewrite drop_ge by lia. by rewrite take_nil. }
  assert (Hlen : (200 <= length l)%nat) by (unfold EVENTS_PAGE_LIMIT in *; lia).
  destruct (lookup_lt_is_Some_2 l 199) as [e Hl]; [lia|].
  assert (Hlast : last (take EVENTS_PAGE_LIMIT l) = Some e).
  { rewrite last_lookup, length_take_le by (unfold EVENTS_PAGE_LIMIT; lia). by rewrite lookup_take_lt by (unfold EVENTS_PAGE_LIMIT; lia). }
  rewrite Hlast. apply (IH (before ++ take EVENTS_PAGE_LIMIT l)); [by rewrite <- app_assoc, take_drop|done|done|].
  assert (Hne : fe_pagingToken e <> "").
  { rewrite Forall_forall in Htok. apply Htok. rewrite He. apply elem_of_app. right. by eapply list_elem_of_lookup_2. }
  cbn [fmap option_fmap option_map]. replace (truthy_str (Some (fe_pagingToken e))) with true by (symmetry; unfold truthy_str; by destruct (fe_pagingToken e)).
  cbn [default cr_getEvents pages_of]. subst events. unfold Datatypes.id. by rewrite (after_suffix before l e).
Qed.

Lemma filter_suffix start (events : list Event) : StronglySorted (fun x y => fe_ledger x <= fe_ledger y) events ->
  exists before, events = before ++ filter (fun e => start <= fe_ledger e) events.
Proof.
  induction 1 as [|x l Hs [before IH] Hx]; [by exists []|]. rewrite filter_cons. destruct (decide (start <= fe_ledger x)).
  - exists []. simpl. f_equal. symmetry. rewrite Forall_forall in Hx. clear IH Hs. induction l as [|y l IHl]; [done|]. rewrite filter_cons, decide_True.
    + f_equal. apply IHl. intros z Hz. apply Hx. by right.
    + specialize (Hx y ltac:(by left)). lia.
  - exists (x :: before). simpl. by f_equal.
Qed.

(** The search for a landed fill is exact as far as it looks: over a node that
    pages through the contract's events in ledger order, it answers the first
    [intent_filled] event of the intent that closed in time, among the first two
    thousand events from the start of its lookback on, and null if there is
    none. *)
Theorem landed_fill_exact events latest id fillDeadline latestAcceptable now :
  settlementContractId <> "" -> StronglySorted (fun x y => fe_ledger x <= fe_ledger y) events ->
  NoDup (fe_pagingToken <$> events) -> Forall (fun e => fe_pagingToken e <> "") events ->
  findLandedFill decode settlementContractId (Some (pages_of events latest)) id fillDeadline latestAcceptable now =
  Ok (fill_of <$> first_landed id latestAcceptable (take 2000 (filter (fun e => start_ledger latest now fillDeadline <= fe_ledger e) events))).
Proof.
  intros Hc Hs Hnd Htok. unfold findLandedFill. rewrite bool_decide_eq_false_2 by done. cbn [cr_latestLedger pages_of].
  destruct (filter_suffix (start_ledger latest now fillDeadline) events Hs) as [before Hb].
  rewrite (scan_suffix before (filter (fun e => start_ledger latest now fillDeadline <= fe_ledger e) events)); [done|done|done|done|done].
Qed.

Definition tx_of (answer : outcome string (option LandedFill)) : outcome string (option string) :=
  match answer with Ok (Some f) => Ok (Some (lf_txHash f)) | Ok None => Ok None | Err e => Err e end.

(** The slashing saga asks this search: a pass over a slash whose fill landed in
    time, among the events looked at, cancels it and does not ask the registry. *)
Theorem landed_fill_cancels_slash {R} `{IntentsRepository R} (env : SagaEnv) events latest (row : PendingSlash) now e :
  (forall id deadline bound t, se_findLandedFill env id deadline bound t =
     tx_of (findLandedFill decode settlementContractId (Some (pages_of events latest)) id deadline bound t)) ->
  settlementContractId <> "" -> StronglySorted (fun x y => fe_ledger x <= fe_ledger y) events ->
  NoDup (fe_pagingToken <$> events) -> Forall (fun e => fe_pagingToken e <> "") events ->
  e ∈ take 2000 (filter (fun e => start_ledger latest (now / 1000) (ps_fillDeadline row) <= fe_ledger e) events) ->
  landed decode (ps_intentId row) (latestAcceptable env row) e = true ->
  exists tx, verifyAndSubmit (R := R) env row now =
    (modify (log_event (FillVerified row now (Ok (Some tx)))) ;;;
     cancel env row scr_fill_landed "system" {| cx_fillTxHash := Some tx; cx_note := None; cx_lastError := None |} None ;;; Done tt).
Proof.
  intros Henv Hc Hs Hnd Htok Hin Hl. unfold verifyAndSubmit. rewrite Henv, landed_fill_exact by done.
  set (l := filter (fun x => landed decode (ps_intentId row) (latestAcceptable env row) x = true) _).
  assert (Hel : e ∈ l) by (by apply list_elem_of_filter). destruct l as [|x l]; [by apply elem_of_nil in Hel|]. by exists (fe_txHash x).
Qed.

(** A proof that is accepted proves a fill: the transaction succeeded, closed in
    time and emitted the event for the intent, from the settlement contract if
    one is configured. *)
Theorem fill_proof_iff getTransaction txHash id latestAcceptable fill :
  verifyFillProof decode settlementContractId (Some getTransaction) txHash id latestAcceptable = Ok (inl fill) <->
  exists tx, getTransaction txHash = Ok tx /\ ct_status tx = "SUCCESS" /\ ct_createdAt tx <= latestAcceptable /\
    (exists events contractId topics, ct_events tx = Some events /\ (contractId, Some topics) ∈ events /\
       (settlementContractId = "" \/ contractId = Some settlementContractId) /\ isIntentFilled decode topics id = true) /\
    fill = {| lf_txHash := txHash; lf_ledger := ct_ledger tx; lf_closedAt := ct_createdAt tx |}.
Proof.
  unfold verifyFillProof. destruct (getTransaction txHash) as [tx|e]; [|split; [done|by intros (? & ? & _)]].
  assert (Hem : emitsIntentFilled decode settlementContractId (ct_events tx) id = true <->
    exists events contractId topics, ct_events tx = Some events /\ (contractId, Some topics) ∈ events /\
       (settlementContractId = "" \/ contractId = Some settlementContractId) /\ isIntentFilled decode topics id = true).
  { unfold emitsIntentFilled. rewrite existsb_exists. split.
    - intros ([contractId topics] & Hin & Hb). apply andb_true_iff in Hb as [Hb1 Hb2]. destruct (ct_events tx) as [events|]; [|done].
      destruct topics as [topics|]; [|done]. exists events, contractId, topics. split; [done|]. split; [by apply list_elem_of_In|].
      apply orb_true_iff in Hb1. rewrite !bool_decide_eq_true in Hb1. done.
    - intros (events & contractId & topics & -> & Hin & Hc & Hf). exists (contractId, Some topics). split; [by apply list_elem_of_In|].
      rewrite Hf, andb_true_r. apply orb_true_iff. by rewrite !bool_decide_eq_true. }
  split.
  - case_bool_decide as H1; [|done]. destruct (Z.ltb_spec latestAcceptable (ct_createdAt tx)); [done|]. cbn [negb].
    destruct (emitsIntentFilled _ _ _ _) eqn:E; [|done]. cbn [negb]. intros He. injection He as <-. exists tx. do 3 (split; [done|]). split; [by apply Hem|done].
  - intros (tx' & Ht & H1 & H2 & H3 & ->). injection Ht as <-. rewrite bool_decide_eq_true_2 by done. rewrite (proj2 (Z.ltb_ge _ _)) by lia. cbn [negb].
    by rewrite (proj2 Hem H3).
Qed.
End events.

(** * Concrete runs *)

Definition ex_event (name id : string) (n : Z) : FillEvent :=
  {| fe_topic := [name; id]; fe_txHash := "T" +:+ toString n; fe_ledger := n; fe_closedAt := Some n; fe_pagingToken := toString n |}.
Definition ex_events (n : nat) : list FillEvent := (fun k => ex_event "solver_registered" "x" (Z.of_nat k)) <$> seq 1 n.

Lemma landed_fill_exact_witness :
  let events := [ex_event "intent_filled" "i1" 7; ex_event "intent_filled" "i2" 8; ex_event "intent_filled" "i1" 9] in
  findLandedFill Some "C" (Some (pages_of events 10)) "i1" 0 8 100 = Ok (Some {| lf_txHash := "T7"; lf_ledger := 7; lf_closedAt := 7 |}) /\
  findLandedFill Some "C" (Some (pages_of events 10)) "i1" 0 8 100 =
  Ok (fill_of <$> head (filter (fun e => landed Some "i1" 8 e = true) (take 2000 (filter (fun e => start_ledger 10 100 0 <= fe_ledger e) events)))).
Proof.
  cbv zeta. split; [vm_compute; reflexivity|]. apply landed_fill_exact; [discriminate| | |].
  - repeat constructor; simpl; lia.
  - apply (bool_decide_unpack _). vm_compute. done.
  - repeat constructor; discriminate.
Defined.

(** The search stops after ten pages: a fill that landed in time behind two
    thousand other events of the contract is not found, and the answer is that
    there is none. *)
Theorem fill_behind_many_events_is_missed :
  findLandedFill Some "C" (Some (pages_of (ex_events 2000 ++ [ex_event "intent_filled" "i1" 2001]) 2002)) "i1" 20000 9999 30000 = Ok None /\
  findLandedFill Some "C" (Some (pages_of (ex_events 1999 ++ [ex_event "intent_filled" "i1" 2000]) 2002)) "i1" 20000 9999 30000 =
    Ok (Some {| lf_txHash := "T2000"; lf_ledger := 2000; lf_closedAt := 2000 |}).
Proof. vm_compute. done. Qed.

(** A token of six decimals, as USDC has on most chains: Horizon prints one unit
    as 1.0000000, which is an error here, and the answer is that Horizon is
    unavailable. *)
Definition ex_payment : HorizonOperation := {|
  ho_type := "payment"; ho_source_account := Some "S"; ho_to := Some "GUSER"; ho_asset_type := Some "credit_alphanum4"; ho_asset_code := Some "USDC";
  ho_asset_issuer := Some "GI"; ho_amount := Some "1.0000000"; ho_destination_amount := None |}.
Definition ex_horizon : HorizonAnswers := {|
  hz_transaction := Some {| rs_status := 200; rs_body := Some {| ht_successful := Some true; ht_memo_type := Some "text"; ht_memo := Some "i1"; ht_operations := Some "ops" |} |};
  hz_operations := Some {| rs_status := 200; rs_body := Some [ex_payment] |} |}.
Definition ex_fill (decimals : Z) : Intent :=
  apply_patch [P_solver (Some "S"); P_dstToken {| st_contract := "C1"; st_symbol := "USDC"; st_decimals := decimals; st_priceUSD := None |}] demo_intent.

Theorem six_decimals_stay_pending :
  verify "CX" (fun _ _ => Some "C1") ex_horizon (ex_fill 7) = Verified "10000000" "payment" /\
  verify "CX" (fun _ _ => Some "C1") ex_horizon (ex_fill 6) = Pending horizon_unavailable.
Proof. vm_compute. done. Qed.
