(* ===== verification/TxTracking.v ===== *)
(** Durable tracking of transactions and fee escalation
    (soroban/tx-confirmation.service.ts, soroban/fee-escalation-policy.ts).

    The table of pending transactions is the state, with the events published in
    order.  A batch claims due rows with one query and drives each of them with
    awaits in between, so batches interleave with each other and with [track].
    What the network and the signer answer while one row is driven is a
    [RowEnv]. *)
From S2P Require Import Prelude JsMap BigInt JsNumber Prog.
From stdpp Require Import relations.
Local Open Scope string_scope.
Local Open Scope list_scope.
Local Open Scope Z_scope.
Local Open Scope prog_scope.

Definition POLL_BATCH_SIZE : nat := 50.
Definition RETRY_BASE_DELAY_S : Z := 5.
Definition RETRY_MAX_DELAY_S : Z := 300.

Inductive PendingTxStatus := tx_pending | tx_confirmed | tx_failed | tx_expired.
#[export] Instance PendingTxStatus_eq : EqDecision PendingTxStatus.
Proof. solve_decision. Defined.

Record PendingTxRow := {
  pt_id : nat; pt_txHash : string; pt_txXdr : string; pt_intentId : option string; pt_channelKey : option string; pt_status : PendingTxStatus;
  pt_maxTrackUntil : Z; pt_attempts : Z; pt_nextPollAt : Z; pt_lastFeeStroops : option string; pt_feeBumpCount : nat;
}.

Inductive TxDomainEvent :=
  | TxConfirmed (txHash : string) (intentId : option string) (ledger : Z)
  | TxFailed (txHash : string) (intentId : option string) (errorCode : string)
  | TxExpired (txHash : string) (intentId : option string).

(** [tt_bumps]: the envelopes sent again, with the row they stand for. *)
Record TxTable := { tt_rows : list PendingTxRow; tt_nextId : nat; tt_events : list (nat * TxDomainEvent); tt_bumps : list (nat * string) }.
Definition empty_table : TxTable := {| tt_rows := []; tt_nextId := 1; tt_events := []; tt_bumps := [] |}.

(** * Fee policy *)

Inductive FeePercentile := p50 | p90 | p99.
Definition ESCALATION_LADDER : list FeePercentile := [p50; p90; p99].

(** [shouldEscalate]; the caller never passes a result code. *)
Definition shouldEscalate (errorResultCode : option string) (feeBumpCount : nat) (maxTrackUntil now : Z) : bool :=
  if (length ESCALATION_LADDER <=? feeBumpCount)%nat then false
  else if bool_decide (errorResultCode = Some "tx_insufficient_fee") then true
  else let secsLeft := maxTrackUntil - now in (secsLeft <=? 60) && (0 <? secsLeft).

Inductive TxAnswer := tx_success (ledger : Z) | tx_fail (code : option string) | tx_not_found.

Record RowEnv := {
  re_now : Z;
  re_tx : string -> outcome unit TxAnswer;
  re_bumpNow : Z;
  re_feeSource : bool;
  re_feeStats : outcome unit (FeePercentile -> option string);
  re_build : string -> string -> outcome unit string;
  re_submit : string -> outcome unit bool;
}.

Section tracking.
(** The fee ceiling, the SDK's minimum fee and [envelope.hash()] in upper case. *)
Variables (maxFeeStroops : number) (BASE_FEE : string) (hashOf : string -> string).

Definition num_gt (a b : number) : bool :=
  match a, b with
  | NaN, _ | _, NaN => false
  | Fin x, Fin y => negb (Qle_bool x y)
  | Inf n, Fin _ => negb n
  | Fin _, Inf n => n
  | Inf n, Inf m => negb n && m
  end.

Record FeeBumpResult := { fb_feeBumpXdr : string; fb_newFeeStroops : string; fb_percentileUsed : FeePercentile }.

Definition percentile_at (feeBumpCount : nat) : FeePercentile := default p99 (ESCALATION_LADDER !! (feeBumpCount `min` 2)%nat).

Definition buildFeeBump (e : RowEnv) (innerTxXdr : string) (feeBumpCount : nat) : outcome unit (option FeeBumpResult) :=
  let percentile := percentile_at feeBumpCount in
  let newFeePerOp :=
    match re_feeStats e with
    | Ok stats => let raw := stats percentile in if truthy_str raw && negb (bool_decide (raw = Some "0")) then default "" raw else BASE_FEE
    | Err _ => BASE_FEE
    end in
  if num_gt (parseInt10 newFeePerOp) maxFeeStroops then Ok None
  else match re_build e innerTxXdr newFeePerOp with
       | Err x => Err x
       | Ok envelope => Ok (Some {| fb_feeBumpXdr := envelope; fb_newFeeStroops := newFeePerOp; fb_percentileUsed := percentile |})
       end.

(** * Rows *)

Notation TM := (prog TxTable unit).

Definition update_row (id : nat) (f : PendingTxRow -> PendingTxRow) (t : TxTable) : TxTable :=
  {| tt_rows := (fun r => if decide (pt_id r = id) then f r else r) <$> tt_rows t; tt_nextId := tt_nextId t; tt_events := tt_events t; tt_bumps := tt_bumps t |}.
Definition emit (id : nat) (e : TxDomainEvent) (t : TxTable) : TxTable :=
  {| tt_rows := tt_rows t; tt_nextId := tt_nextId t; tt_events := tt_events t ++ [(id, e)]; tt_bumps := tt_bumps t |}.
Definition note_bump (id : nat) (envelope : string) (t : TxTable) : TxTable :=
  {| tt_rows := tt_rows t; tt_nextId := tt_nextId t; tt_events := tt_events t; tt_bumps := tt_bumps t ++ [(id, envelope)] |}.

Definition with_status (st : PendingTxStatus) (r : PendingTxRow) : PendingTxRow :=
  {| pt_id := pt_id r; pt_txHash := pt_txHash r; pt_txXdr := pt_txXdr r; pt_intentId := pt_intentId r; pt_channelKey := pt_channelKey r; pt_status := st;
     pt_maxTrackUntil := pt_maxTrackUntil r; pt_attempts := pt_attempts r; pt_nextPollAt := pt_nextPollAt r; pt_lastFeeStroops := pt_lastFeeStroops r;
     pt_feeBumpCount := pt_feeBumpCount r |}.
Definition with_retry (attempts nextPollAt : Z) (r : PendingTxRow) : PendingTxRow :=
  {| pt_id := pt_id r; pt_txHash := pt_txHash r; pt_txXdr := pt_txXdr r; pt_intentId := pt_intentId r; pt_channelKey := pt_channelKey r; pt_status := pt_status r;
     pt_maxTrackUntil := pt_maxTrackUntil r; pt_attempts := attempts; pt_nextPollAt := nextPollAt; pt_lastFeeStroops := pt_lastFeeStroops r;
     pt_feeBumpCount := pt_feeBumpCount r |}.
Definition with_bump (hash fee : string) (count : nat) (attempts nextPollAt : Z) (r : PendingTxRow) : PendingTxRow :=
  {| pt_id := pt_id r; pt_txHash := hash; pt_txXdr := pt_txXdr r; pt_intentId := pt_intentId r; pt_channelKey := pt_channelKey r; pt_status := pt_status r;
     pt_maxTrackUntil := pt_maxTrackUntil r; pt_attempts := attempts; pt_nextPollAt := nextPollAt; pt_lastFeeStroops := Some fee; pt_feeBumpCount := count |}.

Record TrackTxOptions := { to_txHash : string; to_txXdr : string; to_intentId : option string; to_channelKey : option string; to_maxTrackUntil : Z }.

(** The upsert by hash: a known hash is pending again, with its fee bumps. *)
Definition retracked (o : TrackTxOptions) (now : Z) (r : PendingTxRow) : PendingTxRow :=
  {| pt_id := pt_id r; pt_txHash := pt_txHash r; pt_txXdr := to_txXdr o; pt_intentId := to_intentId o; pt_channelKey := to_channelKey o; pt_status := tx_pending;
     pt_maxTrackUntil := to_maxTrackUntil o; pt_attempts := 0; pt_nextPollAt := now; pt_lastFeeStroops := pt_lastFeeStroops r; pt_feeBumpCount := pt_feeBumpCount r |}.
Definition new_row (id : nat) (o : TrackTxOptions) (now : Z) : PendingTxRow :=
  {| pt_id := id; pt_txHash := to_txHash o; pt_txXdr := to_txXdr o; pt_intentId := to_intentId o; pt_channelKey := to_channelKey o; pt_status := tx_pending;
     pt_maxTrackUntil := to_maxTrackUntil o; pt_attempts := 0; pt_nextPollAt := now; pt_lastFeeStroops := None; pt_feeBumpCount := O |}.
Definition track_now (o : TrackTxOptions) (now : Z) (t : TxTable) : TxTable :=
  match list_find (fun r => pt_txHash r = to_txHash o) (tt_rows t) with
  | Some (_, r) => update_row (pt_id r) (retracked o now) t
  | None => {| tt_rows := tt_rows t ++ [new_row (tt_nextId t) o now]; tt_nextId := S (tt_nextId t); tt_events := tt_events t; tt_bumps := tt_bumps t |}
  end.
Definition track (o : TrackTxOptions) (now : Z) : TM unit := modify (track_now o now).

(** [txHash] is unique: a bump to a hash another row has is refused. *)
Definition hash_taken (hash : string) (id : nat) (t : TxTable) : bool := existsb (fun r => bool_decide (pt_txHash r = hash /\ pt_id r <> id)) (tt_rows t).
Definition save_bump (id : nat) (hash : string) (f : PendingTxRow -> PendingTxRow) : TM unit :=
  saved <- atomic (fun t => if hash_taken hash id t then (false, t) else (true, update_row id f t));
  if saved : bool then Done tt else Throw tt.

(** The claimed row as it was read is the one written from. *)
Definition maybeFeeBump (e : RowEnv) (row : PendingTxRow) : TM bool :=
  if negb (shouldEscalate None (pt_feeBumpCount row) (pt_maxTrackUntil row) (re_bumpNow e)) then Done false
  else if negb (re_feeSource e) then Done false
  else match buildFeeBump e (pt_txXdr row) (pt_feeBumpCount row) with
       | Err x => Throw x
       | Ok None => Done false
       | Ok (Some bump) =>
           match re_submit e (fb_feeBumpXdr bump) with
           | Err x => Throw x
           | Ok accepted =>
               modify (note_bump (pt_id row) (fb_feeBumpXdr bump));;;
               if accepted : bool then
                 save_bump (pt_id row) (hashOf (fb_feeBumpXdr bump))
                   (with_bump (hashOf (fb_feeBumpXdr bump)) (fb_newFeeStroops bump) (S (pt_feeBumpCount row)) (pt_attempts row + 1) (re_bumpNow e + RETRY_BASE_DELAY_S));;;
                 Done true
               else Done false
           end
       end.

Definition retry_delay (attempts : Z) : Z := Z.min (RETRY_BASE_DELAY_S * 2 ^ Z.min attempts 8) RETRY_MAX_DELAY_S.

(** A terminal status, then its event. *)
Definition finish (row : PendingTxRow) (st : PendingTxStatus) (ev : TxDomainEvent) : TM unit :=
  modify (update_row (pt_id row) (with_status st));;; modify (emit (pt_id row) ev).

Definition processRow (e : RowEnv) (row : PendingTxRow) : TM unit :=
  if pt_maxTrackUntil row <=? re_now e then finish row tx_expired (TxExpired (pt_txHash row) (pt_intentId row))
  else
    answer <- reads (fun _ : TxTable => re_tx e (pt_txHash row));
    match answer with
    | Err x => Throw x
    | Ok (tx_success ledger) => finish row tx_confirmed (TxConfirmed (pt_txHash row) (pt_intentId row) ledger)
    | Ok (tx_fail code) =>
        bumped <- maybeFeeBump e row;
        if bumped : bool then Done tt
        else finish row tx_failed (TxFailed (pt_txHash row) (pt_intentId row) (if truthy_str code then default "" code else "tx_failed"))
    | Ok tx_not_found =>
        bumped <- maybeFeeBump e row;
        if bumped : bool then Done tt
        else modify (update_row (pt_id row) (with_retry (pt_attempts row + 1) (re_now e + retry_delay (pt_attempts row))))
    end.

(** [status = 'pending' AND next_poll_at <= NOW() ORDER BY id LIMIT 50] *)
Definition due_rows (now : Z) (t : TxTable) : list PendingTxRow :=
  take POLL_BATCH_SIZE (sort_by (fun a b => Z.of_nat (pt_id a) - Z.of_nat (pt_id b))
    (filter (fun r => pt_status r = tx_pending /\ pt_nextPollAt r <= now) (tt_rows t))).

Definition pollBatch (now : Z) (env : nat -> RowEnv) : TM unit :=
  rows <- reads (due_rows now);
  pfold (fun _ row => pcatch (fun _ => Done tt) (processRow (env (pt_id row)) row)) tt rows.

(** * One batch alone *)

(** What driving a row amounts to: the change of the row, the events published
    and the envelopes sent. *)
Record Driven := { dv_row : PendingTxRow -> PendingTxRow; dv_events : list TxDomainEvent; dv_bumps : list string }.
Definition untouched : Driven := {| dv_row := fun r => r; dv_events := []; dv_bumps := [] |}.

(** [otherwise sent]: no envelope was accepted, and those of [sent] were refused. *)
Definition escalate (e : RowEnv) (row : PendingTxRow) (t : TxTable) (otherwise : list string -> Driven) : Driven :=
  if negb (shouldEscalate None (pt_feeBumpCount row) (pt_maxTrackUntil row) (re_bumpNow e)) || negb (re_feeSource e) then otherwise []
  else match buildFeeBump e (pt_txXdr row) (pt_feeBumpCount row) with
       | Err _ => untouched
       | Ok None => otherwise []
       | Ok (Some bump) =>
           let hash := hashOf (fb_feeBumpXdr bump) in
           match re_submit e (fb_feeBumpXdr bump) with
           | Err _ => untouched
           | Ok false => otherwise [fb_feeBumpXdr bump]
           | Ok true =>
               {| dv_row := if hash_taken hash (pt_id row) t then fun r => r
                            else with_bump hash (fb_newFeeStroops bump) (S (pt_feeBumpCount row)) (pt_attempts row + 1) (re_bumpNow e + RETRY_BASE_DELAY_S);
                  dv_events := []; dv_bumps := [fb_feeBumpXdr bump] |}
           end
       end.

Definition settle (st : PendingTxStatus) (ev : TxDomainEvent) (sent : list string) : Driven := {| dv_row := with_status st; dv_events := [ev]; dv_bumps := sent |}.

Definition drive (e : RowEnv) (row : PendingTxRow) (t : TxTable) : Driven :=
  if pt_maxTrackUntil row <=? re_now e then settle tx_expired (TxExpired (pt_txHash row) (pt_intentId row)) []
  else match re_tx e (pt_txHash row) with
       | Err _ => untouched
       | Ok (tx_success ledger) => settle tx_confirmed (TxConfirmed (pt_txHash row) (pt_intentId row) ledger) []
       | Ok (tx_fail code) =>
           escalate e row t (settle tx_failed (TxFailed (pt_txHash row) (pt_intentId row) (if truthy_str code then default "" code else "tx_failed")))
       | Ok tx_not_found =>
           escalate e row t (fun sent => {| dv_row := with_retry (pt_attempts row + 1) (re_now e + retry_delay (pt_attempts row)); dv_events := []; dv_bumps := sent |})
       end.

Definition change_row (d : Driven) (id : nat) (r : PendingTxRow) : PendingTxRow := if decide (pt_id r = id) then dv_row d r else r.
Definition applied (d : Driven) (id : nat) (t : TxTable) : TxTable :=
  {| tt_rows := change_row d id <$> tt_rows t; tt_nextId := tt_nextId t;
     tt_events := tt_events t ++ ((fun e => (id, e)) <$> dv_events d); tt_bumps := tt_bumps t ++ ((fun x => (id, x)) <$> dv_bumps d) |}.

Lemma change_untouched (f : PendingTxRow -> PendingTxRow) id (rows : list PendingTxRow) : (forall r, f r = r) -> ((fun r => if decide (pt_id r = id) then f r else r) <$> rows) = rows.
Proof. intros Hf. rewrite <-(list_fmap_id rows) at 2. apply list_fmap_ext. intros i r _. cbn. by destruct (decide _). Qed.

Lemma applied_untouched id t : applied untouched id t = t.
Proof.
  unfold applied, change_row, untouched. destruct t as [rows n ev bp]. cbn [tt_rows tt_nextId tt_events tt_bumps dv_row dv_events dv_bumps fmap list_fmap].
  rewrite !app_nil_r. f_equal. by apply change_untouched.
Qed.

(** [t] with the envelopes of [sent] noted for row [id]. *)
Definition sent_for (id : nat) (sent : list string) (t : TxTable) : TxTable :=
  {| tt_rows := tt_rows t; tt_nextId := tt_nextId t; tt_events := tt_events t; tt_bumps := tt_bumps t ++ ((fun x => (id, x)) <$> sent) |}.
Lemma sent_none id t : sent_for id [] t = t.
Proof. destruct t. unfold sent_for. cbn. by rewrite app_nil_r. Qed.

Lemma run_escalate e row t (rest : TM unit) otherwise :
  (forall sent, run rest (sent_for (pt_id row) sent t) = (Ok tt, applied (otherwise sent) (pt_id row) t)) ->
  run (pcatch (fun _ => Done tt) (bumped <- maybeFeeBump e row; if bumped : bool then Done tt else rest)) t = (Ok tt, applied (escalate e row t otherwise) (pt_id row) t).
Proof.
  intros Hrest. assert (Hnone : run (pcatch (fun _ => Done tt) rest) t = (Ok tt, applied (otherwise []) (pt_id row) t)).
  { rewrite run_pcatch. specialize (Hrest []). rewrite sent_none in Hrest. by rewrite Hrest. }
  unfold maybeFeeBump, escalate. destruct (negb (shouldEscalate _ _ _ _)); [exact Hnone|]. destruct (negb (re_feeSource e)); [exact Hnone|]. cbn [orb].
  destruct (buildFeeBump e _ _) as [[bump|]|x]; [|exact Hnone|cbn; by rewrite applied_untouched].
  destruct (re_submit e _) as [[]|x]; [| |cbn; by rewrite applied_untouched].
  - rewrite run_pcatch. unfold save_bump, modify, atomic. cbn [pbind run]. change (hash_taken ?h ?i (note_bump _ _ t)) with (hash_taken h i t).
    destruct (hash_taken _ _ t); cbn [fst snd pbind run]; unfold applied, change_row, note_bump, update_row; cbn; rewrite app_nil_r; [|done].
    by rewrite (change_untouched (fun r => r)).
  - rewrite run_pcatch. cbn [modify pbind run]. change (note_bump (pt_id row) ?x t) with (sent_for (pt_id row) [x] t). by rewrite Hrest.
Qed.

Lemma run_finish row st ev sent t : run (finish row st ev) (sent_for (pt_id row) sent t) = (Ok tt, applied (settle st ev sent) (pt_id row) t).
Proof. done. Qed.

Lemma run_processRow e row t : run (pcatch (fun _ => Done tt) (processRow e row)) t = (Ok tt, applied (drive e row t) (pt_id row) t).
Proof.
  assert (Hfin : forall st ev, run (pcatch (fun _ => Done tt) (finish row st ev)) t = (Ok tt, applied (settle st ev []) (pt_id row) t)).
  { intros st ev. rewrite run_pcatch. pose proof (run_finish row st ev [] t) as H. rewrite sent_none in H. by rewrite H. }
  unfold processRow, drive. destruct (pt_maxTrackUntil row <=? re_now e); [apply Hfin|].
  unfold reads. cbn [pbind pcatch run]. destruct (re_tx e (pt_txHash row)) as [[ledger|code|]|x].
  - apply Hfin.
  - apply run_escalate. intros sent. apply run_finish.
  - apply run_escalate. intros sent. cbn. unfold update_row, applied, sent_for. cbn. by rewrite app_nil_r.
  - cbn. by rewrite applied_untouched.
Qed.

Definition drive_one (env : nat -> RowEnv) (t : TxTable) (row : PendingTxRow) : TxTable := applied (drive (env (pt_id row)) row t) (pt_id row) t.

Lemma run_batch now env t : run (pollBatch now env) t = (Ok tt, foldl (drive_one env) t (due_rows now t)).
Proof.
  unfold pollBatch. rewrite run_pbind, run_reads. generalize (due_rows now t). intros rows. revert t.
  induction rows as [|row rows IH]; intros t; [done|]. cbn [pfold foldl]. rewrite run_pbind, run_processRow. apply IH.
Qed.

(** * Every interleaving *)

(** The next id is fresh, ids and hashes name one row each, and no row was
    bumped past the ladder or at a fee over the ceiling. *)
Record row_ok (r : PendingTxRow) : Prop := {
  ro_bumps : (pt_feeBumpCount r <= length ESCALATION_LADDER)%nat;
  ro_fee : forall fee, pt_lastFeeStroops r = Some fee -> num_gt (parseInt10 fee) maxFeeStroops = false;
  ro_bumped : pt_lastFeeStroops r = None <-> pt_feeBumpCount r = O;
}.
Record table_ok (t : TxTable) : Prop := {
  to_ids : NoDup (pt_id <$> tt_rows t);
  to_fresh : Forall (fun r => pt_id r < tt_nextId t)%nat (tt_rows t);
  to_hashes : NoDup (pt_txHash <$> tt_rows t);
  to_rows : Forall row_ok (tt_rows t);
}.

Lemma empty_table_ok : table_ok empty_table.
Proof. split; cbn; constructor. Qed.

Lemma fmap_keeps {B} (g : PendingTxRow -> B) f id (rows : list PendingTxRow) : (forall r, g (f r) = g r) ->
  g <$> ((fun r => if decide (pt_id r = id) then f r else r) <$> rows) = g <$> rows.
Proof. intros Hg. rewrite <-list_fmap_compose. apply list_fmap_ext. intros i r _. cbn. destruct (decide _); [apply Hg|done]. Qed.

(** The hashes stay distinct when one row takes a hash no other row has. *)
Lemma rehashed_nodup id hash f (rows : list PendingTxRow) : NoDup (pt_id <$> rows) -> NoDup (pt_txHash <$> rows) ->
  (forall r, pt_txHash (f r) = hash) -> (forall r, r ∈ rows -> pt_id r <> id -> pt_txHash r <> hash) ->
  NoDup (pt_txHash <$> ((fun r => if decide (pt_id r = id) then f r else r) <$> rows)).
Proof.
  intros Hid Hh Hf. induction rows as [|r rows IH]; intros Hfree; [constructor|]. cbn [fmap list_fmap] in *.
  apply NoDup_cons in Hid as [Hid1 Hid], Hh as [Hh1 Hh]. apply NoDup_cons; split.
  - intros Hin. change (list_fmap ?A ?B ?g ?l) with (g <$> l) in *.
    apply list_elem_of_fmap in Hin as (r2 & Heq & (r1 & -> & Hr1)%list_elem_of_fmap).
    destruct (decide (pt_id r = id)) as [E|E], (decide (pt_id r1 = id)) as [E1|E1].
    + apply Hid1. rewrite E, <-E1. by apply list_elem_of_fmap_2.
    + rewrite Hf in Heq. by apply (Hfree r1 ltac:(by right) E1).
    + rewrite Hf in Heq. by apply (Hfree r ltac:(by left) E).
    + apply Hh1. rewrite Heq. by apply list_elem_of_fmap_2.
  - apply IH; [done|done|]. intros r' Hr'. apply Hfree. by right.
Qed.

(** An update of row [id] that keeps its id keeps the table. *)
Lemma update_ok id f t : (forall r, pt_id (f r) = pt_id r) -> (forall r, row_ok r -> row_ok (f r)) ->
  ((forall r, pt_txHash (f r) = pt_txHash r) \/ exists hash, (forall r, pt_txHash (f r) = hash) /\ hash_taken hash id t = false) ->
  table_ok t -> table_ok (update_row id f t).
Proof.
  intros Hi Hr Hh [H1 H2 H3 H4]. split; unfold update_row; cbn [tt_rows tt_nextId].
  - by rewrite fmap_keeps.
  - apply Forall_fmap. eapply Forall_impl; [exact H2|]. intros r Hlt. cbn. destruct (decide _); [by rewrite Hi|done].
  - destruct Hh as [Hh|(hash & Hh & Hfree)]; [by rewrite fmap_keeps|]. apply (rehashed_nodup id hash); [done|done|done|].
    intros r Hr1 Hr2 Hr3. assert (hash_taken hash id t = true); [|congruence]. apply existsb_exists. exists r. split; [by apply list_elem_of_In|].
    by apply bool_decide_eq_true.
  - apply Forall_fmap. eapply Forall_impl; [exact H4|]. intros r Hro. cbn. destruct (decide _); [by apply Hr|done].
Qed.

Lemma track_ok o now t : table_ok t -> table_ok (track_now o now t).
Proof.
  intros Hok. unfold track_now. destruct (list_find _ _) as [[i r]|] eqn:E.
  - apply update_ok; [done| |by left|done]. by intros r' [].
  - apply list_find_None in E. destruct Hok as [H1 H2 H3 H4]. rewrite Forall_forall in E, H2. split; cbn [tt_rows tt_nextId].
    + rewrite fmap_app. apply NoDup_app; split_and!; [done| |apply NoDup_singleton]. intros id (r & -> & Hr)%list_elem_of_fmap Hin.
      apply list_elem_of_singleton in Hin. specialize (H2 r Hr). cbn in Hin. lia.
    + apply Forall_app; split; [|repeat constructor]. apply Forall_forall. intros r Hr. specialize (H2 r Hr). lia.
    + rewrite fmap_app. apply NoDup_app; split_and!; [done| |apply NoDup_singleton]. intros h (r & -> & Hr)%list_elem_of_fmap Hin.
      apply list_elem_of_singleton in Hin. by apply (E r Hr).
    + apply Forall_app; split; [done|]. constructor; [|constructor]. split; cbn; [lia|done|done].
Qed.

Lemma buildFeeBump_fee e xdr n bump : buildFeeBump e xdr n = Ok (Some bump) -> num_gt (parseInt10 (fb_newFeeStroops bump)) maxFeeStroops = false.
Proof.
  unfold buildFeeBump. intros H. destruct (num_gt _ maxFeeStroops) eqn:E; [done|]. destruct (re_build e xdr _); [|done]. by injection H as <-.
Qed.

Lemma maybeFeeBump_inv e row : keeps_inv table_ok (fun _ => True) (maybeFeeBump e row).
Proof.
  unfold maybeFeeBump, shouldEscalate. destruct (length ESCALATION_LADDER <=? pt_feeBumpCount row)%nat eqn:El; [done|].
  destruct (negb _); [done|]. destruct (negb _); [done|]. destruct (buildFeeBump e _ _) as [[bump|]|] eqn:Eb; [|done|done].
  destruct (re_submit e _) as [acc|]; [|done]. apply (inv_bind _ (fun _ => True)); [apply inv_modify; by intros s []|].
  intros _ _. destruct acc; [|done]. apply (inv_bind _ (fun _ => True)); [|done]. apply (inv_bind _ (fun _ => True)); [|by intros []].
  apply inv_atomic. intros t Ht. destruct (hash_taken _ _ t) eqn:Eh; cbn [fst snd]; split; [done|done| |done].
  apply update_ok; [done| |right; by exists (hashOf (fb_feeBumpXdr bump))|done]. intros r _. apply Nat.leb_gt in El. split; cbn [with_bump pt_feeBumpCount pt_lastFeeStroops]; [lia| |done].
  intros fee [= <-]. by eapply buildFeeBump_fee.
Qed.

Lemma finish_inv row st ev : keeps_inv table_ok (fun _ => True) (finish row st ev).
Proof.
  unfold finish. apply (inv_bind _ (fun _ => True)); [apply inv_modify|intros _ _; apply inv_modify; by intros t []].
  intros t Ht. apply update_ok; [done| |by left|done]. by intros r [].
Qed.

Lemma processRow_inv e row : keeps_inv table_ok (fun _ => True) (processRow e row).
Proof.
  unfold processRow. destruct (_ <=? _); [apply finish_inv|]. apply (inv_bind _ (fun _ => True)); [by apply inv_reads|].
  intros [[ledger|code|]|x] _; [apply finish_inv| | |done]; apply (inv_bind _ (fun _ => True));
    [apply maybeFeeBump_inv| |apply maybeFeeBump_inv|]; intros [] _; [done|apply finish_inv|done|].
  apply inv_modify. intros t Ht. apply update_ok; [done| |by left|done]. by intros r [].
Qed.

Lemma pollBatch_inv now env : keeps_inv table_ok (fun _ => True) (pollBatch now env).
Proof.
  unfold pollBatch. apply (inv_bind _ (fun _ => True)); [by apply inv_reads|]. intros rows _. apply inv_fold; [done|].
  intros acc row _ _. apply inv_catch; [apply processRow_inv|done].
Qed.

Inductive TxCall := call_track (o : TrackTxOptions) (now : Z) | call_poll (now : Z) (env : nat -> RowEnv).
Definition start_call (c : TxCall) : TM unit := match c with call_track o now => track o now | call_poll now env => pollBatch now env end.

(** Whatever requests and poll batches overlap, and whatever the network and the
    signer answer: no two rows share a hash, no transaction is bumped more than
    three times, and no bump pays more than the configured ceiling. *)
Theorem bumps_stay_bounded calls t ps : rtc pool_step (empty_table, start_call <$> calls) (t, ps) -> table_ok t.
Proof.
  intros H. apply (pool_inv table_ok (fun _ => True) _ _ H); [apply empty_table_ok|]. apply Forall_fmap, Forall_true.
  intros [o now|now env]; [|apply pollBatch_inv]. apply inv_modify. intros t'. apply track_ok.
Qed.

(** * A batch, row by row *)

Definition events_of (id : nat) (t : TxTable) : list TxDomainEvent := snd <$> filter (fun e => e.1 = id) (tt_events t).

Lemma events_of_applied d id id' t : events_of id' (applied d id t) = events_of id' t ++ (if decide (id = id') then dv_events d else []).
Proof.
  unfold events_of, applied. cbn [tt_events]. rewrite filter_app, fmap_app. f_equal. induction (dv_events d) as [|e l IH]; [by destruct (decide _)|].
  cbn [fmap list_fmap]. rewrite filter_cons. cbn [fst]. destruct (decide (id = id')); [|done]. cbn [fmap list_fmap snd]. by f_equal.
Qed.

Lemma drive_keeps_id e row t r : pt_id (dv_row (drive e row t) r) = pt_id r.
Proof.
  unfold drive, escalate. repeat (first [done | match goal with |- context [if ?b then _ else _] => destruct b end
    | match goal with |- context [match ?x with _ => _ end] => destruct x end]).
Qed.

Lemma rows_apart env l t r : pt_id r ∉ pt_id <$> l -> r ∈ tt_rows t ->
  r ∈ tt_rows (foldl (drive_one env) t l) /\ events_of (pt_id r) (foldl (drive_one env) t l) = events_of (pt_id r) t.
Proof.
  revert t. induction l as [|x l IH]; intros t Hn Hr; [done|]. cbn [foldl]. cbn [fmap list_fmap] in Hn. apply not_elem_of_cons in Hn as [Hx Hn].
  destruct (IH (drive_one env t x)) as [H1 H2]; [done| |split; [done|]].
  - apply list_elem_of_fmap. exists r. split; [|done]. unfold change_row. by destruct (decide _).
  - rewrite H2. unfold drive_one. rewrite events_of_applied. destruct (decide _); [congruence|apply app_nil_r].
Qed.

Lemma rows_driven env l t r : NoDup (pt_id <$> l) -> r ∈ l -> r ∈ tt_rows t -> exists seen, let d := drive (env (pt_id r)) r seen in
  dv_row d r ∈ tt_rows (foldl (drive_one env) t l) /\ events_of (pt_id r) (foldl (drive_one env) t l) = events_of (pt_id r) t ++ dv_events d.
Proof.
  revert t. induction l as [|x l IH]; intros t Hnd Hin Hr; [by apply elem_of_nil in Hin|]. cbn [foldl]. cbn [fmap list_fmap] in Hnd.
  apply NoDup_cons in Hnd as [Hx Hnd]. apply elem_of_cons in Hin as [->|Hin].
  - exists t. cbn zeta. destruct (rows_apart env l (drive_one env t x) (dv_row (drive (env (pt_id x)) x t) x)) as [H1 H2].
    + by rewrite drive_keeps_id.
    + apply list_elem_of_fmap. exists x. split; [|done]. unfold change_row. by destruct (decide _).
    + rewrite drive_keeps_id in H2. split; [done|]. rewrite H2. unfold drive_one. rewrite events_of_applied. by destruct (decide _).
  - assert (Hne : pt_id r <> pt_id x) by (intros E; apply Hx; rewrite <-E; by apply list_elem_of_fmap_2).
    destruct (IH (drive_one env t x)) as (seen & H1 & H2); [done|done| |exists seen; split; [done|]].
    + apply list_elem_of_fmap. exists r. split; [|done]. unfold change_row. by destruct (decide _).
    + cbn zeta in H2 |- *. rewrite H2. unfold drive_one at 1. rewrite events_of_applied. destruct (decide _); [congruence|by rewrite app_nil_r].
Qed.

Lemma due_rows_spec now t : table_ok t ->
  NoDup (pt_id <$> due_rows now t) /\ (forall r, r ∈ due_rows now t -> r ∈ tt_rows t /\ pt_status r = tx_pending /\ pt_nextPollAt r <= now).
Proof.
  intros [Hid _ _ _]. unfold due_rows. set (f := filter _ (tt_rows t)). set (srt := sort_by _ f).
  assert (Hp : Permutation srt f) by apply sort_by_perm. split.
  - eapply sublist_NoDup; [|apply fmap_sublist, sublist_take]. rewrite Hp. eapply sublist_NoDup; [exact Hid|]. apply fmap_sublist, sublist_filter.
  - intros r Hr. eapply subseteq_take in Hr. rewrite Hp in Hr. apply list_elem_of_filter in Hr as [[] ?]. done.
Qed.

(** One poll batch on its own: the fifty due rows with the smallest ids are
    driven, each exactly as its own clock, the network's answer and the signer say
    and whatever happened to the rows before it (only a bumped hash another row
    already has depends on them); every other row and its events are as before. *)
Theorem batch_exact now env t r : table_ok t -> r ∈ tt_rows t ->
  let t' := (run (pollBatch now env) t).2 in
  (r ∉ due_rows now t -> r ∈ tt_rows t' /\ events_of (pt_id r) t' = events_of (pt_id r) t) /\
  (r ∈ due_rows now t -> exists seen, let d := drive (env (pt_id r)) r seen in
     dv_row d r ∈ tt_rows t' /\ events_of (pt_id r) t' = events_of (pt_id r) t ++ dv_events d).
Proof.
  intros Hok Hr. cbn zeta. rewrite run_batch. cbn [snd]. destruct (due_rows_spec now t Hok) as [Hnd Hsub]. split; intros Hd.
  - apply rows_apart; [|done]. intros (r' & Heq & Hr')%list_elem_of_fmap. apply Hd.
    destruct (Hsub r' Hr') as (Hin & _). rewrite (nodup_inj pt_id (tt_rows t) r r'); [done|apply Hok|done|done|done].
  - by apply rows_driven.
Qed.

(** A due row past its time bound settles in the batch that reads it, with one
    event, and without asking the network. *)
Corollary overdue_row_expires now env t r : table_ok t -> r ∈ due_rows now t -> pt_maxTrackUntil r <= re_now (env (pt_id r)) ->
  let t' := (run (pollBatch now env) t).2 in
  with_status tx_expired r ∈ tt_rows t' /\ events_of (pt_id r) t' = events_of (pt_id r) t ++ [TxExpired (pt_txHash r) (pt_intentId r)].
Proof.
  intros Hok Hd Hb. cbn zeta. rewrite run_batch. cbn [snd]. destruct (due_rows_spec now t Hok) as [Hnd Hsub]. destruct (Hsub r Hd) as (Hin & _).
  destruct (rows_driven env _ _ r Hnd Hd Hin) as (seen & H1 & H2). cbn zeta in H1, H2. unfold drive in H1, H2. apply Z.leb_le in Hb. by rewrite Hb in H1, H2.
Qed.
End tracking.

(** * Runs *)

(** A node that knows [txs], a signer with a key, fee statistics of 200 stroops. *)
Definition node (now : Z) (txs : string -> TxAnswer) : RowEnv :=
  {| re_now := now; re_tx := fun h => Ok (txs h); re_bumpNow := now; re_feeSource := true; re_feeStats := Ok (fun _ => Some "200");
     re_build := fun xdr fee => Ok ("bump:" +:+ xdr); re_submit := fun _ => Ok true |}.
Definition tracked (hash : string) : TxCall := call_track {| to_txHash := hash; to_txXdr := hash; to_intentId := Some "i1"; to_channelKey := None; to_maxTrackUntil := 1000 |} 0.
Definition polled (now : Z) (txs : string -> TxAnswer) : TxCall := call_poll now (fun _ => node now txs).
Definition scheduled (ns : list nat) (calls : list TxCall) : TxTable * list (prog TxTable unit unit) :=
  schedule ns empty_table (start_call (Fin (of_Z 1000)) "100" (fun x => x) <$> calls).
Definition after (ns : list nat) (calls : list TxCall) : TxTable := (scheduled ns calls).1.

Lemma after_reached ns calls : rtc pool_step (empty_table, start_call (Fin (of_Z 1000)) "100" (fun x => x) <$> calls) (after ns calls, (scheduled ns calls).2).
Proof. unfold after. rewrite <-surjective_pairing. apply schedule_steps. Qed.

(** Ten minutes before the bound [A] is retried, half a minute before it is bumped. *)
Definition two_polls : list TxCall := [tracked "A"; polled 400 (fun _ => tx_not_found); polled 970 (fun _ => tx_not_found)].
Definition bumped_once : TxTable := after [0; 1; 1; 1; 2; 2; 2; 2]%nat two_polls.

Lemma bumps_stay_bounded_witness :
  table_ok (Fin (of_Z 1000)) bumped_once /\ (fun r => (pt_feeBumpCount r, pt_lastFeeStroops r, pt_txHash r)) <$> tt_rows bumped_once = [(1%nat, Some "200", "bump:A")].
Proof.
  split; [|vm_compute; reflexivity].
  exact (bumps_stay_bounded (Fin (of_Z 1000)) "100" (fun x => x) two_polls bumped_once _ (after_reached [0; 1; 1; 1; 2; 2; 2; 2]%nat two_polls)).
Defined.

Definition one_row : TxTable := after [0]%nat [tracked "A"].
Definition row_A : PendingTxRow := new_row 1 {| to_txHash := "A"; to_txXdr := "A"; to_intentId := Some "i1"; to_channelKey := None; to_maxTrackUntil := 1000 |} 0.
Lemma one_row_ok : table_ok (Fin (of_Z 1000)) one_row.
Proof. apply (track_ok (Fin (of_Z 1000))), empty_table_ok. Qed.
Lemma row_A_due : row_A ∈ due_rows 400 one_row.
Proof. apply list_elem_of_In. vm_compute. by left. Qed.
Lemma row_A_in : row_A ∈ tt_rows one_row.
Proof. apply list_elem_of_In. vm_compute. by left. Qed.

Lemma batch_exact_witness : exists seen, let env := fun _ => node 400 (fun _ => tx_success 7) in
  dv_row (drive (Fin (of_Z 1000)) "100" (fun x => x) (env 1%nat) row_A seen) row_A ∈ tt_rows (run (pollBatch (Fin (of_Z 1000)) "100" (fun x => x) 400 env) one_row).2.
Proof.
  destruct (proj2 (batch_exact (Fin (of_Z 1000)) "100" (fun x => x) 400 (fun _ => node 400 (fun _ => tx_success 7)) one_row row_A one_row_ok row_A_in) row_A_due) as (seen & H & _).
  exists seen. exact H.
Defined.

(** The timer starts a batch every five seconds whether or not the last one is
    over, and no write checks the row's status: two batches that both claimed the
    row both publish its confirmation. *)
Theorem overlapping_batches_report_twice : let yes := polled 400 (fun _ => tx_success 7) in
  events_of 1 (after [0; 1; 2; 1; 2; 1; 1; 2; 2]%nat [tracked "A"; yes; yes]) = [TxConfirmed "A" (Some "i1") 7; TxConfirmed "A" (Some "i1") 7].
Proof. vm_compute. reflexivity. Qed.

(** After a bump the row follows the bumped envelope alone: when the original
    transaction is the one the ledger takes, the row never sees it and expires. *)
Theorem bumped_row_forgets_original : let landed h := if String.eqb h "A" then tx_success 7 else tx_not_found in
  events_of 1 (after [0; 1; 1; 1; 1; 2; 2; 2; 3; 3; 3]%nat [tracked "A"; polled 970 (fun _ => tx_not_found); polled 980 landed; polled 1400 landed]) =
  [TxExpired "bump:A" (Some "i1")].
Proof. vm_compute. reflexivity. Qed.

(** A transaction the ledger took and failed within a minute of its bound is sent
    again with a higher fee instead of being reported. *)
Theorem failed_is_resubmitted : let t := after [0; 1; 1; 1; 1]%nat [tracked "A"; polled 970 (fun _ => tx_fail (Some "txFailed"))] in
  tt_bumps t = [(1%nat, "bump:A")] /\ tt_events t = [] /\ (pt_status <$> tt_rows t) = [tx_pending].
Proof. vm_compute. done. Qed.

(** A transaction refused for its fee long before its bound is reported failed:
    the policy's own case for that code is never reached. *)
Theorem low_fee_is_not_escalated : let t := after [0; 1; 1; 1; 1]%nat [tracked "A"; polled 400 (fun _ => tx_fail (Some "tx_insufficient_fee"))] in
  shouldEscalate (Some "tx_insufficient_fee") 0 1000 400 = true /\ tt_bumps t = [] /\ tt_events t = [(1%nat, TxFailed "A" (Some "i1") "tx_insufficient_fee")].
Proof. vm_compute. done. Qed.
