(* ===== verification/Allowlist.v ===== *)
(** The allowlist of the abuse detector (abuse/allowlist.service.ts).

    Entries of the environment are parsed once; entries of the table are kept in
    memory by every replica and replaced whole on each reload.  Changes are one
    transaction with their audit record, followed by a reload; a notification
    makes the other replicas reload.  Programs interleave at every await. *)
From S2P Require Import Prelude JsMap BigInt Prog HttpEgress RateLimit Preflight.
From Stdlib Require Import Ascii.
From stdpp Require Import relations.
Local Open Scope string_scope.
Local Open Scope list_scope.
Local Open Scope Z_scope.
Local Open Scope prog_scope.

Inductive AllowlistEntryType := al_address | al_ip | al_api_key.
#[export] Instance AllowlistEntryType_eq : EqDecision AllowlistEntryType.
Proof. solve_decision. Defined.

Record AllowlistEntry := { ar_id : string; ar_type : AllowlistEntryType; ar_value : string; ar_label : option string; ar_createdAt : Z; ar_createdBy : string }.

(** [Set]s of strings *)
Definition set_add (x : string) (l : list string) : list string := if bool_decide (x ∈ l) then l else l ++ [x].
Record EntrySets := { es_addresses : list string; es_ips : list string; es_keyDigests : list string }.
Definition EMPTY_SETS : EntrySets := {| es_addresses := []; es_ips := []; es_keyDigests := [] |}.
Definition add_entry (t : AllowlistEntryType) (value : string) (s : EntrySets) : EntrySets :=
  match t with
  | al_address => {| es_addresses := set_add value (es_addresses s); es_ips := es_ips s; es_keyDigests := es_keyDigests s |}
  | al_ip => {| es_addresses := es_addresses s; es_ips := set_add value (es_ips s); es_keyDigests := es_keyDigests s |}
  | al_api_key => {| es_addresses := es_addresses s; es_ips := es_ips s; es_keyDigests := set_add value (es_keyDigests s) |}
  end.

Inductive AllowlistError := al_bad_request | al_duplicate | al_not_found | al_unconfigured | al_database.

Record AuditEntry := { al_actor : string; al_added : bool; al_row : AllowlistEntry }.
Record AllowlistWorld := { aw_rows : list AllowlistEntry; aw_audit : list AuditEntry; aw_replicas : list EntrySets }.

Record CheckOpts := { co_userAddress : string; co_clientIp : string; co_apiKey : option string }.

Section allowlist.
(** [createHash('sha256')] in hex and [net.isIPv6] *)
Variables (sha256 : string -> string) (isIPv6 : string -> bool).

Notation AM := (prog AllowlistWorld AllowlistError).

(** * Matching *)

Definition in_sets (o : CheckOpts) (s : EntrySets) : bool :=
  bool_decide (toLowerCase (co_userAddress o) ∈ es_addresses s) || bool_decide (toLowerCase (co_clientIp o) ∈ es_ips s) ||
  match co_apiKey o with
  | Some k => bool_decide (k <> "") && (bool_decide (sha256 k <> "") && bool_decide (sha256 k ∈ es_keyDigests s))
  | None => false
  end.
Definition isAllowlisted (envEntries dbEntries : EntrySets) (o : CheckOpts) : bool := in_sets o envEntries || in_sets o dbEntries.

(** How one entry of [ABUSE_ALLOWLIST] is read. *)
Definition classify (entry : string) : AllowlistEntryType * string :=
  if String.prefix "key:" entry then (al_api_key, sha256 (String.substring 4 (String.length entry - 4) entry))
  else if String.prefix "G" entry then (al_address, toLowerCase entry)
  else (al_ip, toLowerCase entry).
Definition env_entries (raw : string) : list string := filter (fun e => e <> "") (trim <$> split_on ","%char raw).
Definition parseEnv (raw : string) : EntrySets := foldl (fun s entry => let '(t, v) := classify entry in add_entry t v s) EMPTY_SETS (env_entries raw).

Definition sets_of (rows : list AllowlistEntry) : EntrySets := foldl (fun s row => add_entry (ar_type row) (ar_value row) s) EMPTY_SETS rows.

(** [/^G[A-Z2-7]{55}$/], [net.isIP] *)
Definition normalize (t : AllowlistEntryType) (raw : string) : option string :=
  let value := trim raw in
  match t with
  | al_address => if issuer_ok (toUpperCase value) then Some (toLowerCase value) else None
  | al_ip => if isIPv4 value || isIPv6 value then Some (toLowerCase value) else None
  | al_api_key => if bool_decide (value = "") then None else Some (sha256 value)
  end.

(** * Replicas *)

Definition put_replica (i : nat) (s : EntrySets) (w : AllowlistWorld) : AllowlistWorld :=
  {| aw_rows := aw_rows w; aw_audit := aw_audit w; aw_replicas := <[i := s]> (aw_replicas w) |}.

(** [ok = false]: the query failed and the last entries stay. *)
Definition reload (i : nat) (ok : bool) : AM unit :=
  if ok then rows <- reads aw_rows; modify (put_replica i (sets_of rows)) else Done tt.

(** The transactions: the change and its audit record, or neither. *)
Definition insert_entry (row : AllowlistEntry) (admin : string) (auditOk : bool) (w : AllowlistWorld) : option AllowlistError * AllowlistWorld :=
  if bool_decide (Exists (fun r => ar_type r = ar_type row /\ ar_value r = ar_value row) (aw_rows w)) then (Some al_duplicate, w)
  else if negb auditOk then (Some al_database, w)
  else (None, {| aw_rows := aw_rows w ++ [row]; aw_audit := aw_audit w ++ [{| al_actor := admin; al_added := true; al_row := row |}]; aw_replicas := aw_replicas w |}).
Definition delete_entry (id admin : string) (auditOk : bool) (w : AllowlistWorld) : option AllowlistError * AllowlistWorld :=
  match list_find (fun r => ar_id r = id) (aw_rows w) with
  | None => (Some al_not_found, w)
  | Some (_, row) =>
      if negb auditOk then (Some al_database, w)
      else (None, {| aw_rows := filter (fun r => ar_id r <> id) (aw_rows w);
                     aw_audit := aw_audit w ++ [{| al_actor := admin; al_added := false; al_row := row |}]; aw_replicas := aw_replicas w |})
  end.

Definition transact (f : AllowlistWorld -> option AllowlistError * AllowlistWorld) : AM unit :=
  failed <- atomic f; match failed with Some e => Throw e | None => Done tt end.

Definition add (i : nat) (t : AllowlistEntryType) (raw : string) (label : option string) (id : string) (now : Z) (admin : string) (auditOk reloadOk : bool) : AM unit :=
  match normalize t raw with
  | None => Throw al_bad_request
  | Some value =>
      transact (insert_entry {| ar_id := id; ar_type := t; ar_value := value; ar_label := label; ar_createdAt := now; ar_createdBy := admin |} admin auditOk);;;
      reload i reloadOk
  end.
Definition remove (i : nat) (id admin : string) (auditOk reloadOk : bool) : AM unit := transact (delete_entry id admin auditOk);;; reload i reloadOk.

(** * What is allowlisted *)

(** The entry [(t, v)] covers the request. *)
Definition covers (o : CheckOpts) (tv : AllowlistEntryType * string) : bool :=
  match tv.1 with
  | al_address => bool_decide (toLowerCase (co_userAddress o) = tv.2)
  | al_ip => bool_decide (toLowerCase (co_clientIp o) = tv.2)
  | al_api_key => match co_apiKey o with Some k => bool_decide (k <> "") && (bool_decide (sha256 k <> "") && bool_decide (sha256 k = tv.2)) | None => false end
  end.

Lemma elem_of_added x y l : x ∈ set_add y l <-> x = y \/ x ∈ l.
Proof.
  unfold set_add. case_bool_decide as H; [|rewrite elem_of_app, list_elem_of_singleton; tauto]. split; [by right|]. by intros [->|?].
Qed.

Lemma in_sets_add o t v s : in_sets o (add_entry t v s) = covers o (t, v) || in_sets o s.
Proof.
  apply eq_bool_prop_intro. unfold in_sets, covers. destruct t; cbn [fst snd add_entry es_addresses es_ips es_keyDigests]; destruct (co_apiKey o) as [k|];
    rewrite ?orb_True, ?andb_True, ?bool_decide_spec, ?elem_of_added; naive_solver.
Qed.

Lemma in_sets_fold {A} (g : A -> AllowlistEntryType * string) (l : list A) o s :
  in_sets o (foldl (fun s a => add_entry (g a).1 (g a).2 s) s l) = existsb (fun a => covers o (g a)) l || in_sets o s.
Proof.
  revert s. induction l as [|a l IH]; intros s; [done|]. cbn [foldl existsb]. rewrite IH, in_sets_add, <-surjective_pairing. by destruct (covers o (g a)), (existsb _ l).
Qed.

Lemma in_empty o : in_sets o EMPTY_SETS = false.
Proof. unfold in_sets. cbn. destruct (co_apiKey o) as [k|]; [|done]. by rewrite !andb_false_r. Qed.

Lemma in_sets_of o rows : in_sets o (sets_of rows) = existsb (fun r => covers o (ar_type r, ar_value r)) rows.
Proof. etransitivity; [apply (in_sets_fold (fun r => (ar_type r, ar_value r)) rows o EMPTY_SETS)|]. rewrite in_empty. apply orb_false_r. Qed.

Lemma in_parseEnv o raw : in_sets o (parseEnv raw) = existsb (fun e => covers o (classify e)) (env_entries raw).
Proof.
  unfold parseEnv. transitivity (in_sets o (foldl (fun s a => add_entry (classify a).1 (classify a).2 s) EMPTY_SETS (env_entries raw))).
  - f_equal. generalize EMPTY_SETS. induction (env_entries raw) as [|e l IH]; intros s; [done|]. cbn [foldl]. rewrite IH. by destruct (classify e).
  - rewrite in_sets_fold, in_empty. apply orb_false_r.
Qed.

(** A request is allowlisted exactly when an entry of the environment or of the
    table the replica last loaded covers it. *)
Theorem allowlisted_iff raw rows o :
  isAllowlisted (parseEnv raw) (sets_of rows) o =
  existsb (fun e => covers o (classify e)) (env_entries raw) || existsb (fun r => covers o (ar_type r, ar_value r)) rows.
Proof. unfold isAllowlisted. by rewrite in_parseEnv, in_sets_of. Qed.

(** * Every interleaving *)

Inductive AllowlistCall :=
  | call_add (i : nat) (t : AllowlistEntryType) (raw : string) (label : option string) (id : string) (now : Z) (admin : string) (auditOk reloadOk : bool)
  | call_remove (i : nat) (id admin : string) (auditOk reloadOk : bool)
  | call_reload (i : nat) (ok : bool).
Definition allowlist_call (c : AllowlistCall) : AM unit :=
  match c with
  | call_add i t raw label id now admin auditOk reloadOk => add i t raw label id now admin auditOk reloadOk
  | call_remove i id admin auditOk reloadOk => remove i id admin auditOk reloadOk
  | call_reload i ok => reload i ok
  end.

(** The table the audit log tells. *)
Definition replay (log : list AuditEntry) : list AllowlistEntry :=
  foldl (fun rows e => if al_added e then rows ++ [al_row e] else filter (fun r => ar_id r <> ar_id (al_row e)) rows) [] log.

Record allowlist_ok (w : AllowlistWorld) : Prop := {
  ok_audited : aw_rows w = replay (aw_audit w);
  ok_unique : NoDup ((fun r => (ar_type r, ar_value r)) <$> aw_rows w);
  ok_replicas : forall i s, aw_replicas w !! i = Some s -> exists log, log `prefix_of` aw_audit w /\ s = sets_of (replay log);
}.

Definition fresh_allowlist (n : nat) : AllowlistWorld := {| aw_rows := []; aw_audit := []; aw_replicas := replicate n EMPTY_SETS |}.
Lemma fresh_allowlist_ok n : allowlist_ok (fresh_allowlist n).
Proof. split; [done|constructor|]. intros i s H. apply lookup_replicate in H as [-> _]. by exists []. Qed.

Definition audit_grows (w w' : AllowlistWorld) : Prop := aw_audit w `prefix_of` aw_audit w'.
#[export] Instance audit_grows_refl : Reflexive audit_grows.
Proof. intros w. unfold audit_grows. reflexivity. Qed.
#[export] Instance audit_grows_trans : Transitive audit_grows.
Proof. intros w1 w2 w3. unfold audit_grows. apply transitivity. Qed.

Notation kept := (rg allowlist_ok audit_grows (fun _ _ => True)).

Lemma reload_kept i ok w : kept (reload i ok) w.
Proof.
  destruct ok; [|done]. cbn [reload reads modify pbind rg]. intros w1 _ Hw1. split; [done|split; [done|]]. intros w2 H12 Hw2. split; [|by split; [exists []; rewrite app_nil_r|]].
  destruct Hw2 as [Ha Hu Hr]. split; [done|done|]. intros i' s Hs. cbn [put_replica aw_replicas] in Hs. apply list_lookup_insert_Some in Hs as [(-> & <- & _)|[_ Hs]]; [|by eapply Hr].
  exists (aw_audit w1). split; [exact H12|]. f_equal. apply Hw1.
Qed.

Lemma replay_snoc log e : replay (log ++ [e]) = if al_added e then replay log ++ [al_row e] else filter (fun r => ar_id r <> ar_id (al_row e)) (replay log).
Proof. unfold replay. by rewrite foldl_snoc. Qed.

(** A transaction that succeeds keeps the table and its log together. *)
Lemma insert_entry_ok row admin auditOk w : allowlist_ok w -> allowlist_ok (insert_entry row admin auditOk w).2 /\ audit_grows w (insert_entry row admin auditOk w).2.
Proof.
  intros Hok. unfold insert_entry. case_bool_decide as Hd; [done|]. destruct auditOk; [|done]. cbn [negb snd]. destruct Hok as [Ha Hu Hr].
  split; [|by exists [{| al_actor := admin; al_added := true; al_row := row |}]]. split; cbn [aw_rows aw_audit aw_replicas].
  - rewrite replay_snoc. cbn [al_added al_row]. congruence.
  - rewrite fmap_app. apply NoDup_app; split_and!; [done| |apply NoDup_singleton]. intros tv (r & -> & Hin)%list_elem_of_fmap Heq%list_elem_of_singleton.
    apply Hd, Exists_exists. exists r. split; [done|]. cbn in Heq. by injection Heq as -> ->.
  - intros i s Hs. destruct (Hr i s Hs) as (log & Hp & ->). exists log. split; [|done]. by apply prefix_app_r.
Qed.

Lemma delete_entry_ok id admin auditOk w : allowlist_ok w -> allowlist_ok (delete_entry id admin auditOk w).2 /\ audit_grows w (delete_entry id admin auditOk w).2.
Proof.
  intros Hok. unfold delete_entry. destruct (list_find _ _) as [[j row]|] eqn:Ef; [|done]. destruct auditOk; [|done]. cbn [negb snd]. destruct Hok as [Ha Hu Hr].
  apply list_find_Some in Ef as (_ & Hid & _). split; [|by exists [{| al_actor := admin; al_added := false; al_row := row |}]]. split; cbn [aw_rows aw_audit aw_replicas].
  - rewrite replay_snoc. cbn [al_added al_row]. by rewrite Hid, <-Ha.
  - eapply sublist_NoDup; [exact Hu|]. apply fmap_sublist, sublist_filter.
  - intros i s Hs. destruct (Hr i s Hs) as (log & Hp & ->). exists log. split; [|done]. by apply prefix_app_r.
Qed.

Lemma transact_kept f i ok w : (forall w, allowlist_ok w -> allowlist_ok (f w).2 /\ audit_grows w (f w).2) -> kept (transact f;;; reload i ok) w.
Proof.
  intros Hf. unfold transact. cbn [atomic pbind rg]. intros w1 _ Hw1. destruct (Hf w1 Hw1) as [H1 H2]. split; [done|split; [done|]].
  destruct (f w1).1; [done|]. apply reload_kept.
Qed.

(** Any replicas that add, remove and reload at once, with failing queries and
    audit writes: the table is exactly what the audit log tells, no entry is
    stored twice, and every replica enforces the table of some point of that
    log. *)
Theorem allowlist_follows_audit n calls w ps :
  rtc pool_step (fresh_allowlist n, allowlist_call <$> calls) (w, ps) -> allowlist_ok w.
Proof.
  intros Hrun. apply (pool_rg allowlist_ok audit_grows _ _ Hrun); [apply fresh_allowlist_ok|]. cbn. apply Forall_fmap, Forall_true.
  intros [i t raw label id now admin aOk rOk|i id admin aOk rOk|i ok]; [|apply transact_kept; intros; by apply delete_entry_ok|apply reload_kept].
  cbn [compose allowlist_call]. unfold add. destruct (normalize t raw); [|done]. apply transact_kept. intros. by apply insert_entry_ok.
Qed.

(** What an admin adds covers the requests it names: the next check on that
    replica passes, whatever the letter case of the address. *)
Theorem added_entry_is_allowlisted env i t raw label id now admin w w' o :
  (i < length (aw_replicas w))%nat -> run (add i t raw label id now admin true true) w = (Ok tt, w') -> sha256 (trim raw) <> "" ->
  match t with
  | al_address => toLowerCase (co_userAddress o) = toLowerCase (trim raw)
  | al_ip => toLowerCase (co_clientIp o) = toLowerCase (trim raw)
  | al_api_key => co_apiKey o = Some (trim raw)
  end ->
  exists db, aw_replicas w' !! i = Some db /\ isAllowlisted env db o = true.
Proof.
  intros Hi Hrun Hsha Ho. unfold add in Hrun. destruct (normalize t raw) as [v|] eqn:En; [|done]. unfold transact in Hrun. cbn [atomic pbind run] in Hrun.
  unfold insert_entry in Hrun. case_bool_decide; [done|]. cbn in Hrun. injection Hrun as <-. cbn [put_replica aw_replicas].
  eexists. split; [by apply list_lookup_insert_eq|]. unfold isAllowlisted. rewrite in_sets_of, existsb_app. cbn [existsb ar_type ar_value].
  rewrite orb_false_r. assert (Hc : covers o (t, v) = true); [|by rewrite Hc, !orb_true_r]. unfold covers, normalize in *. destruct t; cbn [fst snd].
  - destruct (issuer_ok _); [|done]. injection En as <-. by rewrite bool_decide_eq_true.
  - destruct (isIPv4 _ || isIPv6 _); [|done]. injection En as <-. by rewrite bool_decide_eq_true.
  - case_bool_decide as Hne; [done|]. injection En as <-. rewrite Ho. by rewrite !bool_decide_eq_true_2.
Qed.
End allowlist.

(** A reload that read the table before a removal and finishes after it puts the
    removed entry back until the next reload. *)
Theorem late_reload_readmits : let id x := x in let no6 := fun _ => false in
  let calls := [call_add 0 al_ip "203.0.113.9" None "e1" 0 "alice" true true; call_reload 0 true; call_remove 0 "e1" "bob" true true] in
  let w := (schedule [0; 0; 0; 1; 2; 2; 2; 1]%nat (fresh_allowlist 1) (allowlist_call id no6 <$> calls)).1 in
  aw_rows w = [] /\ (fun db => isAllowlisted id EMPTY_SETS db {| co_userAddress := "x"; co_clientIp := "203.0.113.9"; co_apiKey := None |}) <$> aw_replicas w = [true].
Proof. split; vm_compute; reflexivity. Qed.
