(* ===== verification/AbuseRules.v ===== *)
(** Abuse rules and their overrides (abuse/abuse-rules.ts, abuse/abuse.types.ts
    and the rule configuration of abuse/abuse-score.service.ts).

    A rule is an object of fields: [enabled] and numbers.  The defaults carry the
    environment's settings and, on top, sparse overrides that admins persist as
    one JSON blob; every instance holds the merged rules and refreshes them.
    Updates are optimistic transactions on the blob and refreshes are guarded by
    a generation counter: both are programs that interleave at every await. *)
From S2P Require Import Prelude JsMap BigInt JsNumber Prog.
From stdpp Require Import pretty relations.
Local Open Scope string_scope.
Local Open Scope list_scope.
Local Open Scope Z_scope.
Local Open Scope prog_scope.

Inductive AbuseSignal := create_cancel_ratio | dust_intent | burst_identical | new_address | ip_asn_cluster | solver_spam.
#[export] Instance AbuseSignal_eq : EqDecision AbuseSignal.
Proof. solve_decision. Defined.

(** [Object.keys(DEFAULT_ABUSE_RULES)] *)
Definition ABUSE_SIGNALS : list AbuseSignal := [create_cancel_ratio; dust_intent; burst_identical; new_address; ip_asn_cluster; solver_spam].
Definition signal_name (s : AbuseSignal) : string :=
  match s with
  | create_cancel_ratio => "create_cancel_ratio" | dust_intent => "dust_intent" | burst_identical => "burst_identical"
  | new_address => "new_address" | ip_asn_cluster => "ip_asn_cluster" | solver_spam => "solver_spam"
  end.
Definition isAbuseSignal (value : string) : option AbuseSignal := snd <$> list_find (fun s => signal_name s = value) ABUSE_SIGNALS.

(** What [JSON.parse] yields. *)
Inductive json := J_null | J_bool (b : bool) | J_num (n : number) | J_str (s : string) | J_arr (l : list json) | J_obj (m : jsmap json).

Inductive RuleFieldValue := R_bool (b : bool) | R_num (n : number).
#[export] Instance RuleFieldValue_eq : EqDecision RuleFieldValue.
Proof. solve_decision. Defined.
Notation fields := (jsmap RuleFieldValue).

Definition num (z : Z) : RuleFieldValue := R_num (Fin (of_Z z)).
Definition rule (weight windowSeconds : Z) (own : fields) : fields := ("enabled", R_bool true) :: ("weight", num weight) :: ("windowSeconds", num windowSeconds) :: own.

Definition AbuseRulesConfig : Type := AbuseSignal -> fields.
Definition DEFAULT_ABUSE_RULES : AbuseRulesConfig := fun s =>
  match s with
  | create_cancel_ratio => rule 40 300 [("minCancelRatio", R_num (Fin (Q2Qc (4 # 5)))); ("minCreates", num 5)]
  | dust_intent => rule 20 60 [("maxDustUsd", R_num (Fin (Q2Qc (1 # 100))))]
  | burst_identical => rule 35 30 [("maxCount", num 3)]
  | new_address => rule 15 0 [("minAgeSeconds", num 86400)]
  | ip_asn_cluster => rule 50 600 [("minAddressesPerIp", num 5)]
  | solver_spam => rule 45 120 [("maxCycles", num 10)]
  end.

(** [for (const [k, v] of Object.entries(l)) if (g(k, v) yields w) target[k] = w] *)
Definition fold_set {V W} (g : string -> V -> option W) (l : jsmap V) (target : jsmap W) : jsmap W :=
  foldl (fun m '(k, v) => match g k v with Some w => set k w m | None => m end) target l.

(** * Validation (double quotes in messages are printed as single ones) *)

Definition num_ge0 (n : number) : bool := match n with Fin q => Qle_bool 0 q | Inf negative => negb negative | NaN => false end.
Definition num_le1 (n : number) : bool := match n with Fin q => Qle_bool q 1 | Inf negative => negative | NaN => false end.

Definition fieldProblem (signal : AbuseSignal) (field : string) (value : json) : option string :=
  if negb (has field (DEFAULT_ABUSE_RULES signal)) then Some ("unknown field '" +:+ field +:+ "' for rule " +:+ signal_name signal)
  else if bool_decide (field = "enabled") then match value with J_bool _ => None | _ => Some "'enabled' must be a boolean" end
  else match value with
       | J_num n =>
           if negb (isFinite n) || negb (num_ge0 n) then Some ("'" +:+ field +:+ "' must be a non-negative number")
           else if bool_decide (field = "minCancelRatio") && negb (num_le1 n) then Some ("'" +:+ field +:+ "' must be between 0 and 1")
           else None
       | _ => Some ("'" +:+ field +:+ "' must be a non-negative number")
       end.

(** [value as RuleFieldValue], after [fieldProblem] found nothing. *)
Definition as_field (value : json) : RuleFieldValue := match value with J_bool b => R_bool b | J_num n => R_num n | _ => R_num NaN end.

Definition validateRulePatch (signal : AbuseSignal) (body : json) : outcome (list string) fields :=
  match body with
  | J_obj [] => Err ["body must set at least one of: " +:+ String.concat ", " (keys (DEFAULT_ABUSE_RULES signal))]
  | J_obj entries =>
      match omap (fun '(field, value) => fieldProblem signal field value) entries with
      | [] => Ok (fold_set (fun _ value => Some (as_field value)) entries [])
      | problems => Err problems
      end
  | _ => Err ["body must be a JSON object"]
  end.

Notation AbuseRuleOverrides := (jsmap fields).

(** [Object.entries] of an object or an array *)
Definition entries_of (v : json) : option (jsmap json) :=
  match v with J_obj m => Some m | J_arr l => Some (imap (fun i x => (pretty i, x)) l) | _ => None end.

Definition keep_fields (signal : AbuseSignal) (entries : jsmap json) : fields :=
  fold_set (fun field value => match fieldProblem signal field value with None => Some (as_field value) | Some _ => None end) entries [].
Definition keep_signal (signal : string) (v : json) : option fields :=
  match isAbuseSignal signal, entries_of v with
  | Some s, Some entries => let kept := keep_fields s entries in if bool_decide (kept = []) then None else Some kept
  | _, _ => None
  end.
Definition sanitizeOverrides (raw : json) : AbuseRuleOverrides := match raw with J_obj m => fold_set keep_signal m [] | _ => [] end.

(** [Object.assign(target, source)] *)
Definition assign (target source : fields) : fields := fold_set (fun _ v => Some v) source target.
Definition mergeRules (base : AbuseRulesConfig) (overrides : AbuseRuleOverrides) : AbuseRulesConfig :=
  fun s => match get (signal_name s) overrides with Some source => assign (base s) source | None => base s end.

(** * Settings of the environment *)

Definition overrideNum (raw : option string) (fallback : RuleFieldValue) : RuleFieldValue :=
  match raw with
  | None => fallback
  | Some raw => let v := Number raw in if isFinite v then R_num v else fallback
  end.
Definition overrideBool (raw : option string) (fallback : RuleFieldValue) : RuleFieldValue :=
  match raw with None => fallback | Some raw => R_bool (bool_decide (raw = "true")) end.

Definition env_prefix (s : AbuseSignal) : string :=
  match s with
  | create_cancel_ratio => "ABUSE_CREATE_CANCEL_RATIO" | dust_intent => "ABUSE_DUST_INTENT" | burst_identical => "ABUSE_BURST_IDENTICAL"
  | new_address => "ABUSE_NEW_ADDRESS" | ip_asn_cluster => "ABUSE_IP_ASN_CLUSTER" | solver_spam => "ABUSE_SOLVER_SPAM"
  end.
(** The fields a rule has of its own, with their variables. *)
Definition own_settings (s : AbuseSignal) : list (string * string) :=
  match s with
  | create_cancel_ratio => [("minCancelRatio", "ABUSE_CREATE_CANCEL_RATIO_MIN_RATIO"); ("minCreates", "ABUSE_CREATE_CANCEL_RATIO_MIN_CREATES")]
  | dust_intent => [("maxDustUsd", "ABUSE_DUST_INTENT_MAX_USD")]
  | burst_identical => [("maxCount", "ABUSE_BURST_IDENTICAL_MAX_COUNT")]
  | new_address => [("minAgeSeconds", "ABUSE_NEW_ADDRESS_MIN_AGE_SECONDS")]
  | ip_asn_cluster => [("minAddressesPerIp", "ABUSE_IP_ASN_CLUSTER_MIN_ADDRESSES")]
  | solver_spam => [("maxCycles", "ABUSE_SOLVER_SPAM_MAX_CYCLES")]
  end.
Definition override_field (env : string -> option string) (r : fields) (fe : string * string) : fields :=
  match get fe.1 r with Some fallback => set fe.1 (overrideNum (env fe.2) fallback) r | None => r end.
Definition loadRulesFromConfig (env : string -> option string) : AbuseRulesConfig := fun s =>
  let r := DEFAULT_ABUSE_RULES s in
  let r := match get "enabled" r with Some b => set "enabled" (overrideBool (env (env_prefix s +:+ "_ENABLED")) b) r | None => r end in
  let r := override_field env r ("weight", env_prefix s +:+ "_WEIGHT") in
  let r := override_field env r ("windowSeconds", env_prefix s +:+ "_WINDOW") in
  foldl (override_field env) r (own_settings s).

(** * Layering *)

Lemma get_fold_set {V W} (g : string -> V -> option W) (l : jsmap V) target k : wf l ->
  get k (fold_set g l target) = match get k l with Some v => match g k v with Some w => Some w | None => get k target end | None => get k target end.
Proof.
  unfold fold_set. revert target. induction l as [|[k' v] l IH]; intros target Hwf; [done|]. cbn [foldl get].
  apply NoDup_cons in Hwf as [Hk Hwf]. rewrite (IH _ Hwf). cbn [fst] in Hk. apply get_None_keys in Hk.
  case_bool_decide as Hkk; [subst k'; rewrite Hk; destruct (g k v); [apply get_set_eq|done]|].
  destruct (get k l) as [w|]; [destruct (g k w)|]; destruct (g k' v); rewrite ?get_set_ne by congruence; done.
Qed.

Lemma isAbuseSignal_name s : isAbuseSignal (signal_name s) = Some s.
Proof. by destruct s. Qed.
Lemma isAbuseSignal_Some n s : isAbuseSignal n = Some s -> n = signal_name s.
Proof.
  unfold isAbuseSignal. destruct (list_find _ _) as [[i s']|] eqn:E; [|done]. cbn. intros [= <-]. by apply list_find_Some in E as (_ & <- & _).
Qed.

(** JSON objects have distinct keys; only two levels matter here. *)
Definition raw_ok (raw : json) : Prop :=
  match raw with J_obj m => wf m /\ Forall (fun v => match entries_of v with Some e => wf e | None => True end) (values m) | _ => True end.

(** The field of a raw blob that takes effect, if any. *)
Definition raw_field (raw : json) (s : AbuseSignal) (field : string) : option RuleFieldValue :=
  match raw with
  | J_obj m =>
      v ← get (signal_name s) m; e ← entries_of v; x ← get field e;
      match fieldProblem s field x with None => Some (as_field x) | Some _ => None end
  | _ => None
  end.

Lemma get_keep_fields s e f : wf e ->
  get f (keep_fields s e) = x ← get f e; match fieldProblem s f x with None => Some (as_field x) | Some _ => None end.
Proof. intros He. unfold keep_fields. rewrite get_fold_set by done. destruct (get f e) as [x|]; [|done]. cbn. by destruct (fieldProblem s f x). Qed.

Lemma fold_set_wf {V W} (g : string -> V -> option W) (l : jsmap V) target : wf target -> wf (fold_set g l target).
Proof.
  unfold fold_set. revert target. induction l as [|[k v] l IH]; intros target Hwf; [done|]. cbn [foldl]. apply IH. destruct (g k v); [by apply set_wf|done].
Qed.

Lemma get_assign target source f : wf source -> get f (assign target source) = match get f source with Some v => Some v | None => get f target end.
Proof. intros H. unfold assign. rewrite get_fold_set by done. by destruct (get f source). Qed.

Lemma keep_signal_wf n v kept : keep_signal n v = Some kept -> wf kept.
Proof.
  unfold keep_signal. destruct (isAbuseSignal n); [|done]. destruct (entries_of v); [|done]. case_bool_decide; [done|].
  intros [= <-]. apply fold_set_wf, empty_wf.
Qed.

(** The persisted blob, whatever was written into it, takes effect field by
    field: a field that is well formed for its rule wins, and everything else of
    the rule is what the environment and the defaults say. *)
Theorem overrides_layer_exactly base raw s f : raw_ok raw ->
  get f (mergeRules base (sanitizeOverrides raw) s) = match raw_field raw s f with Some v => Some v | None => get f (base s) end.
Proof.
  unfold mergeRules, sanitizeOverrides, raw_field. destruct raw as [| | | | |m]; try done. intros [Hwf Hv]. rewrite get_fold_set by done.
  destruct (get (signal_name s) m) as [v|] eqn:Em; [|done]. cbn [mbind option_bind]. rewrite Forall_forall in Hv.
  pose proof (Hv v (get_values _ _ _ Em)) as He. destruct (keep_signal (signal_name s) v) as [kept|] eqn:Ek.
  - rewrite get_assign by (by eapply keep_signal_wf). unfold keep_signal in Ek. rewrite isAbuseSignal_name in Ek. destruct (entries_of v) as [e|]; [|done].
    case_bool_decide; [done|]. injection Ek as <-. rewrite get_keep_fields by done. cbn [mbind option_bind]. by destruct (get f e).
  - unfold keep_signal in Ek. rewrite isAbuseSignal_name in Ek. cbn [get]. destruct (entries_of v) as [e|]; [|done]. cbn [mbind option_bind].
    case_bool_decide as Hn; [|done]. pose proof (get_keep_fields s e f He) as Hg. rewrite Hn in Hg. cbn [get] in Hg. by rewrite <-Hg.
Qed.

(** * Every rule keeps its fields and their types *)

Definition field_typed (field : string) (v : RuleFieldValue) : Prop := match v with R_bool _ => field = "enabled" | R_num n => field <> "enabled" /\ isFinite n = true end.
Definition rule_typed (s : AbuseSignal) (r : fields) : Prop :=
  forall f, match get f r with Some v => has f (DEFAULT_ABUSE_RULES s) = true /\ field_typed f v | None => has f (DEFAULT_ABUSE_RULES s) = false end.
Definition rules_typed (rules : AbuseRulesConfig) : Prop := forall s, rule_typed s (rules s).

Lemma default_typed s f v : get f (DEFAULT_ABUSE_RULES s) = Some v -> field_typed f v.
Proof.
  intros H%get_elem_of. destruct s; cbn in H; repeat (apply elem_of_cons in H as [H|H]; [by injection H as -> ->|]); by apply elem_of_nil in H.
Qed.
Lemma default_rule_typed s : rule_typed s (DEFAULT_ABUSE_RULES s).
Proof. intros f. unfold has. destruct (get f _) as [v|] eqn:E; [|done]. split; [done|]. by eapply default_typed. Qed.

Lemma typed_set s r f v : rule_typed s r -> is_Some (get f r) -> field_typed f v -> rule_typed s (set f v r).
Proof.
  intros Hr [v0 H0] Hv f'. rewrite get_set. destruct (decide _); [subst f'; specialize (Hr f); rewrite H0 in Hr; by destruct Hr|apply Hr].
Qed.

Lemma typed_override s env r fe : rule_typed s r -> fe.1 <> "enabled" -> rule_typed s (override_field env r fe).
Proof.
  intros Hr Hne. unfold override_field. destruct (get fe.1 r) as [v|] eqn:E; [|done]. apply typed_set; [done|by eexists|].
  pose proof (Hr fe.1) as Hf. rewrite E in Hf. destruct Hf as [_ Hf]. unfold overrideNum. destruct (env fe.2) as [raw|]; [|done].
  destruct (isFinite (Number raw)) eqn:En; [|done]. by split.
Qed.

Lemma env_rules_typed env : rules_typed (loadRulesFromConfig env).
Proof.
  intros s. unfold loadRulesFromConfig. assert (Hown : Forall (fun fe => fe.1 <> "enabled") (own_settings s)) by (destruct s; repeat constructor; done).
  revert Hown. generalize (own_settings s). intros own Hown. set (r0 := match get "enabled" _ with Some _ => _ | None => _ end).
  assert (H0 : rule_typed s r0).
  { subst r0. destruct (get "enabled" _) as [b|] eqn:E; [|apply default_rule_typed]. apply typed_set; [apply default_rule_typed|by eexists|].
    unfold overrideBool. destruct (env _); [done|by eapply default_typed]. }
  assert (H2 : rule_typed s (override_field env (override_field env r0 ("weight", env_prefix s +:+ "_WEIGHT")) ("windowSeconds", env_prefix s +:+ "_WINDOW")))
    by (by do 2 (apply typed_override; [|done])).
  revert H2. generalize (override_field env (override_field env r0 ("weight", env_prefix s +:+ "_WEIGHT")) ("windowSeconds", env_prefix s +:+ "_WINDOW")).
  induction Hown as [|fe own Hfe _ IH]; intros r Hr; [done|]. cbn [foldl]. apply IH. by apply typed_override.
Qed.

Lemma fieldProblem_typed s f x : fieldProblem s f x = None -> has f (DEFAULT_ABUSE_RULES s) = true /\ field_typed f (as_field x).
Proof.
  unfold fieldProblem. destruct (has f _); [|done]. cbn [negb]. case_bool_decide as Hf; [destruct x; [done|by intros _|done..]|].
  destruct x as [| |n| | |]; try done. destruct (isFinite n) eqn:En; [|done]. cbn [negb orb]. intros _. by repeat split.
Qed.

(** Whatever the environment and the blob say, every rule has exactly its own
    fields, [enabled] is a boolean and every other field a finite number. *)
Theorem effective_rules_typed env raw : raw_ok raw -> rules_typed (mergeRules (loadRulesFromConfig env) (sanitizeOverrides raw)).
Proof.
  intros Hraw s f. rewrite overrides_layer_exactly by done. destruct (raw_field raw s f) as [v|] eqn:E; [|apply env_rules_typed].
  destruct raw as [| | | | |m]; try done. cbn [raw_field] in E. destruct (get (signal_name s) m) as [w|]; [|done]. cbn [mbind option_bind] in E.
  destruct (entries_of w) as [e|]; [|done]. cbn [mbind option_bind] in E. destruct (get f e) as [x|]; [|done]. cbn [mbind option_bind] in E.
  destruct (fieldProblem s f x) eqn:Ep; [done|]. injection E as <-. by apply fieldProblem_typed.
Qed.

(** * The blob and back *)

Definition field_json (v : RuleFieldValue) : json := match v with R_bool b => J_bool b | R_num n => J_num n end.
(** [JSON.stringify(overrides)] and [JSON.parse] of it *)
Definition to_json (o : AbuseRuleOverrides) : json := J_obj (prod_map id (fun fs => J_obj (prod_map id field_json <$> fs)) <$> o).

Definition sane (o : AbuseRuleOverrides) : Prop :=
  wf o /\ Forall (fun '(n, fs) => exists s, isAbuseSignal n = Some s /\ wf fs /\ fs <> [] /\ Forall (fun '(f, v) => fieldProblem s f (field_json v) = None) fs) o.

Lemma valid_back s f x : fieldProblem s f x = None -> field_json (as_field x) = x.
Proof. intros H. apply fieldProblem_typed in H as [_ H]. by destruct x as [| | | | |]; cbn in H |- *; try (destruct H). Qed.

Lemma fold_set_Forall {V W} (P : string * W -> Prop) (g : string -> V -> option W) (l : jsmap V) target :
  (forall k v w, g k v = Some w -> P (k, w)) -> Forall P target -> Forall P (fold_set g l target).
Proof.
  intros Hg. unfold fold_set. revert target. induction l as [|[k v] l IH]; intros target Ht; [done|]. cbn [foldl]. apply IH.
  destruct (g k v) as [w|] eqn:E; [|done]. apply Forall_forall. intros [k' w'] Hin. rewrite Forall_forall in Ht. clear IH. induction target as [|[k1 w1] target IHt]; cbn in Hin.
  - apply list_elem_of_singleton in Hin as [= -> ->]. by eapply Hg.
  - case_bool_decide; [subst k1|]; apply elem_of_cons in Hin as [[= -> ->]|Hin]; [by eapply Hg|apply Ht; by right|apply Ht; by left|]. apply IHt; [|done]. intros x Hx. apply Ht. by right.
Qed.

Lemma sanitize_sane raw : sane (sanitizeOverrides raw).
Proof.
  destruct raw as [| | | | |m]; try (split; [apply empty_wf|constructor]). split; [apply fold_set_wf, empty_wf|]. apply fold_set_Forall; [|constructor].
  intros n v kept. unfold keep_signal. destruct (isAbuseSignal n) as [s|] eqn:Es; [|done]. destruct (entries_of v) as [e|]; [|done]. case_bool_decide; [done|].
  intros [= <-]. exists s. split_and!; [done|apply fold_set_wf, empty_wf|done|]. apply fold_set_Forall; [|constructor].
  intros f x w Hw. destruct (fieldProblem s f x) eqn:Ep; [done|]. injection Hw as <-. by rewrite (valid_back s f x Ep).
Qed.

(** Entries that all pass are copied in order. *)
Lemma fold_set_copy {V W} (g : string -> V -> option W) (h : W -> V) (l target : jsmap W) :
  wf (target ++ l) -> Forall (fun '(k, w) => g k (h w) = Some w) l -> fold_set g (prod_map id h <$> l) target = target ++ l.
Proof.
  unfold fold_set. revert target. induction l as [|[k w] l IH]; intros target Hwf Hg; [by rewrite app_nil_r|]. apply Forall_cons in Hg as [Hk Hg].
  cbn [fmap list_fmap foldl prod_map id fst snd]. rewrite Hk. assert (Hn : get k target = None).
  { apply get_None_keys. intros Hin. unfold wf, keys in Hwf. rewrite fmap_app in Hwf. apply NoDup_app in Hwf as (_ & Hd & _). by apply (Hd k Hin); left. }
  rewrite (set_absent _ _ _ Hn), IH; [by rewrite <-app_assoc|by rewrite <-app_assoc|done].
Qed.

(** What was persisted is what is loaded. *)
Theorem overrides_roundtrip o : sane o -> sanitizeOverrides (to_json o) = o.
Proof.
  intros [Hwf Hall]. unfold sanitizeOverrides, to_json. rewrite (fold_set_copy _ _ o []); [done|done|]. eapply Forall_impl; [exact Hall|].
  intros [n fs] (s & Hs & Hfs & Hne & Hv). unfold keep_signal. rewrite Hs. cbn [entries_of]. unfold keep_fields. rewrite (fold_set_copy _ _ fs []).
  - cbn [app]. by rewrite bool_decide_eq_false_2.
  - done.
  - eapply Forall_impl; [exact Hv|]. intros [f v] Hf. rewrite Hf. by destruct v.
Qed.

(** * Instances *)

Definition RULES_REFRESH_MS : Z := 5000.

Record Inst := { in_rules : AbuseRulesConfig; in_lastRefresh : Z; in_refreshing : bool; in_generation : nat }.

(** The blob of Redis with what was written to it, each write with the instance
    that was told of it. *)
Record RulesWorld := { rw_initial : json; rw_log : list (option nat * AbuseRuleOverrides); rw_insts : list Inst }.

Definition versions (w : RulesWorld) : list AbuseRuleOverrides := sanitizeOverrides (rw_initial w) :: (snd <$> rw_log w).
(** [parse(await redis.get(ABUSE_RULES_REDIS_KEY))] *)
Definition load (w : RulesWorld) : AbuseRuleOverrides :=
  match last (rw_log w) with Some (_, o) => sanitizeOverrides (to_json o) | None => sanitizeOverrides (rw_initial w) end.

Inductive RulesError := rules_conflict | redis_down.
(** What becomes of the commands of one attempt: [exec_lost applied] is a reply
    that never comes. *)
Inductive Fate := all_answered | watch_or_get_fails | exec_lost (applied : bool).

Section instances.
(** [baseRules] of each instance *)
Variable baseRules : nat -> AbuseRulesConfig.
Notation RM := (prog RulesWorld RulesError).

Definition put_inst (i : nat) (f : Inst -> Inst) (w : RulesWorld) : RulesWorld :=
  {| rw_initial := rw_initial w; rw_log := rw_log w; rw_insts := alter f i (rw_insts w) |}.
Definition applyOverrides (i : nat) (o : AbuseRuleOverrides) (now : Z) (x : Inst) : Inst :=
  {| in_rules := mergeRules (baseRules i) o; in_lastRefresh := now; in_refreshing := in_refreshing x; in_generation := in_generation x |}.
Definition bump_generation (x : Inst) : Inst :=
  {| in_rules := in_rules x; in_lastRefresh := in_lastRefresh x; in_refreshing := in_refreshing x; in_generation := S (in_generation x) |}.
Definition set_refreshing (b : bool) (x : Inst) : Inst :=
  {| in_rules := in_rules x; in_lastRefresh := in_lastRefresh x; in_refreshing := b; in_generation := in_generation x |}.
Definition refresh_failed (now : Z) (x : Inst) : Inst :=
  {| in_rules := in_rules x; in_lastRefresh := now; in_refreshing := in_refreshing x; in_generation := in_generation x |}.

Definition written (who : option nat) (o : AbuseRuleOverrides) (w : RulesWorld) : RulesWorld :=
  {| rw_initial := rw_initial w; rw_log := rw_log w ++ [(who, o)]; rw_insts := rw_insts w |}.

(** [EXEC]: nothing is written when the watched key changed.  Its reply and the
    rest of [changeRule] are one step. *)
Definition exec_set (i : nat) (watched : nat) (next : AbuseRuleOverrides) (fate : Fate) (now : Z) (w : RulesWorld) : option bool * RulesWorld :=
  let unchanged := bool_decide (length (rw_log w) = watched) in
  match fate with
  | exec_lost applied => (None, if applied && unchanged then written None next w else w)
  | _ => if unchanged then (Some true, put_inst i (fun x => applyOverrides i next now (bump_generation x)) (written (Some i) next w)) else (Some false, w)
  end.

(** [updateOnce], one attempt per fate, and the rest of [changeRule] *)
Fixpoint changeRule (i : nat) (mutate : AbuseRuleOverrides -> AbuseRuleOverrides) (now : Z) (attempts : list Fate) : RM unit :=
  match attempts with
  | [] => Throw rules_conflict
  | watch_or_get_fails :: _ => Throw redis_down
  | fate :: attempts =>
      watched <- reads (fun w => length (rw_log w));
      current <- reads load;
      done <- atomic (exec_set i watched (sanitizeOverrides (to_json (mutate current))) fate now);
      match done with
      | None => Throw redis_down
      | Some true => Done tt
      | Some false => changeRule i mutate now attempts
      end
  end.

Definition patched (signal : AbuseSignal) (patch : fields) (current : AbuseRuleOverrides) : AbuseRuleOverrides :=
  set (signal_name signal) (assign (default [] (get (signal_name signal) current)) patch) current.
Definition reverted (signal : AbuseSignal) (current : AbuseRuleOverrides) : AbuseRuleOverrides := del (signal_name signal) current.
Definition updateRule (i : nat) (signal : AbuseSignal) (patch : fields) (now : Z) (attempts : list Fate) : RM unit := changeRule i (patched signal patch) now attempts.
Definition resetRule (i : nat) (signal : AbuseSignal) (now : Z) (attempts : list Fate) : RM unit := changeRule i (reverted signal) now attempts.

(** A caller that finds a refresh under way waits for it.  [ok = false]: the load
    failed or timed out. *)
Definition refreshRules (i : nat) (ok : bool) (now : Z) : RM unit :=
  generation <- atomic (fun w =>
    match rw_insts w !! i with
    | Some x => if in_refreshing x then (None, w) else (Some (in_generation x), put_inst i (set_refreshing true) w)
    | None => (None, w)
    end);
  match generation with
  | None => Done tt
  | Some g =>
      if ok then
        overrides <- reads load;
        modify (put_inst i (fun x => set_refreshing false (if (in_generation x =? g)%nat then applyOverrides i overrides now x else x)))
      else modify (put_inst i (fun x => set_refreshing false (refresh_failed now x)))
  end.

(** [score] refreshes first when the last load is five seconds old. *)
Definition refresh_due (i : nat) (now : Z) (w : RulesWorld) : bool :=
  match rw_insts w !! i with Some x => RULES_REFRESH_MS <=? now - in_lastRefresh x | None => false end.

Definition boot (initial : json) (n : nat) : RulesWorld :=
  {| rw_initial := initial; rw_log := []; rw_insts := (fun i => {| in_rules := baseRules i; in_lastRefresh := 0; in_refreshing := false; in_generation := O |}) <$> seq 0 n |}.

Inductive RulesCall :=
  | call_update (i : nat) (signal : AbuseSignal) (patch : fields) (now : Z) (attempts : list Fate)
  | call_reset (i : nat) (signal : AbuseSignal) (now : Z) (attempts : list Fate)
  | call_refresh (i : nat) (ok : bool) (now : Z).
Definition rules_call (c : RulesCall) : RM unit :=
  match c with
  | call_update i signal patch now attempts => updateRule i signal patch now attempts
  | call_reset i signal now attempts => resetRule i signal now attempts
  | call_refresh i ok now => refreshRules i ok now
  end.

(** * What every interleaving keeps *)

Definition told (i : nat) (log : list (option nat * AbuseRuleOverrides)) : nat := length (filter (fun e => e.1 = Some i) log).
Definition mutation_of (c : RulesCall) : option (AbuseRuleOverrides -> AbuseRuleOverrides) :=
  match c with call_update _ signal patch _ _ => Some (patched signal patch) | call_reset _ signal _ _ => Some (reverted signal) | call_refresh _ _ _ => None end.

Section calls.
Variable calls : list RulesCall.

(** The rules of [x] are those of a version no older than its last own change. *)
Definition inst_ok (w : RulesWorld) (i : nat) (x : Inst) : Prop :=
  in_generation x = told i (rw_log w) /\
  (in_generation x = O /\ in_rules x = baseRules i \/
   exists k o, versions w !! k = Some o /\ in_rules x = mergeRules (baseRules i) o /\ forall j o', rw_log w !! j = Some (Some i, o') -> (j < k)%nat).

(** Every write is one of the admins' changes to the version before it. *)
Definition linked (w : RulesWorld) : Prop := forall j who o, rw_log w !! j = Some (who, o) ->
  exists c m o0, c ∈ calls /\ mutation_of c = Some m /\ versions w !! j = Some o0 /\ o = sanitizeOverrides (to_json (m o0)).

Definition world_ok (w : RulesWorld) : Prop := linked w /\ forall i x, rw_insts w !! i = Some x -> inst_ok w i x.
Definition log_grows (w w' : RulesWorld) : Prop := rw_initial w' = rw_initial w /\ rw_log w `prefix_of` rw_log w'.

#[export] Instance log_grows_refl : Reflexive log_grows.
Proof. by split. Qed.
#[export] Instance log_grows_trans : Transitive log_grows.
Proof. intros w1 w2 w3 [H1 H2] [H3 H4]. split; [congruence|by etransitivity]. Qed.

Lemma boot_ok initial n : world_ok (boot initial n).
Proof.
  split; [intros j who o H; cbn in H; by rewrite lookup_nil in H|]. intros i x H. cbn [boot rw_insts] in H. rewrite list_lookup_fmap in H.
  destruct (seq 0 n !! i) as [i'|] eqn:E; [|done]. cbn in H. apply lookup_seq in E as [-> _]. injection H as <-. split; [done|left]. done.
Qed.

Lemma versions_S w k : versions w !! S k = snd <$> rw_log w !! k.
Proof. rewrite <-list_lookup_fmap. done. Qed.

Lemma versions_prefix w w' k o : log_grows w w' -> versions w !! k = Some o -> versions w' !! k = Some o.
Proof.
  intros [Hi [l Hl]] H. destruct k as [|k]; [cbn in *; congruence|]. rewrite versions_S in *. rewrite Hl.
  destruct (rw_log w !! k) as [e|] eqn:E; [|done]. by rewrite (lookup_app_l_Some _ _ _ _ E).
Qed.

Lemma load_last w : linked w -> versions w !! length (rw_log w) = Some (load w).
Proof.
  intros Hl. unfold load. destruct (rw_log w) as [|[who o] log _] eqn:E using rev_ind; [done|].
  rewrite last_snoc, length_app, Nat.add_comm. cbn [length Nat.add]. rewrite versions_S.
  assert (Hlast : rw_log w !! length log = Some (who, o)) by (rewrite E, lookup_app_r, Nat.sub_diag; done). rewrite Hlast. cbn. f_equal.
  destruct (Hl (length log) who o Hlast) as (c & m & o0 & _ & _ & _ & ->). symmetry. apply overrides_roundtrip, sanitize_sane.
Qed.

Lemma told_app i l1 l2 : told i (l1 ++ l2) = (told i l1 + told i l2)%nat.
Proof. unfold told. by rewrite filter_app, length_app. Qed.

Lemma told_one i who o : told i [(who, o)] = if decide (who = Some i) then 1%nat else O.
Proof. unfold told. rewrite filter_cons. cbn [fst]. by destruct (decide _). Qed.

Lemma untold_lookup i log j o : told i log = O -> log !! j <> Some (Some i, o).
Proof.
  unfold told. intros H%nil_length_inv Hj%list_elem_of_lookup_2. assert (Hf : (Some i, o) ∈ filter (fun e : option nat * AbuseRuleOverrides => e.1 = Some i) log) by by apply list_elem_of_filter.
  rewrite H in Hf. by apply elem_of_nil in Hf.
Qed.

(** Writes [i] was not told of. *)
Lemma inst_ok_grows w w' i x : log_grows w w' -> told i (rw_log w') = told i (rw_log w) -> inst_ok w i x -> inst_ok w' i x.
Proof.
  intros Hg Ht (Hgen & Hr). split; [congruence|]. destruct Hr as [Hr|(k & o & Hk & Hro & Hj)]; [by left|right]. exists k, o.
  split; [by eapply versions_prefix|]. split; [done|]. intros j o' Hlk. destruct Hg as [_ [l Hl]]. rewrite Hl in Ht, Hlk. rewrite told_app in Ht.
  apply lookup_app_Some in Hlk as [Hlk|[_ Hlk]]; [by eapply Hj|]. exfalso. apply (untold_lookup i l _ o') in Hlk; [done|lia].
Qed.

Lemma written_grows who o w : log_grows w (written who o w).
Proof. split; [done|]. by exists [(who, o)]. Qed.

Lemma written_linked who o w c m : linked w -> c ∈ calls -> mutation_of c = Some m -> o = sanitizeOverrides (to_json (m (load w))) -> linked (written who o w).
Proof.
  intros Hl Hc Hm -> j who' o' Hj. cbn [written rw_log] in Hj. apply lookup_app_Some in Hj as [Hj|[Hlen Hj]].
  - destruct (Hl j who' o' Hj) as (c' & m' & o0 & ? & ? & ? & ?). exists c', m', o0. split_and!; try done. eapply versions_prefix; [apply written_grows|done].
  - apply list_lookup_singleton_Some in Hj as [Hz [= <- <-]]. exists c, m, (load w). split_and!; [done|done| |done].
    eapply versions_prefix; [apply written_grows|]. replace j with (length (rw_log w)) by lia. by apply load_last.
Qed.

Lemma put_inst_ok i f w : world_ok w -> (forall x, rw_insts w !! i = Some x -> inst_ok w i x -> inst_ok w i (f x)) -> world_ok (put_inst i f w).
Proof.
  intros [Hl Hi] Hf. split; [exact Hl|]. intros i' x Hx. cbn [put_inst rw_insts] in Hx. destruct (decide (i = i')) as [<-|Hne].
  - rewrite list_lookup_alter_eq in Hx. destruct (rw_insts w !! i) as [x0|] eqn:E; [|done]. cbn in Hx. injection Hx as <-. apply (Hf x0); [done|by apply Hi].
  - rewrite list_lookup_alter_ne in Hx by done. by apply Hi.
Qed.

Lemma put_inst_grows i f w : log_grows w (put_inst i f w).
Proof. by split. Qed.

(** The world after a successful [EXEC] and what follows it. *)
Lemma exec_told_ok i next now w c m : world_ok w -> c ∈ calls -> mutation_of c = Some m -> next = sanitizeOverrides (to_json (m (load w))) ->
  world_ok (put_inst i (fun x => applyOverrides i next now (bump_generation x)) (written (Some i) next w)).
Proof.
  intros [Hl Hi] Hc Hm Hn. split; [by eapply written_linked|]. intros i' x Hx. cbn [put_inst written rw_insts] in Hx. destruct (decide (i = i')) as [<-|Hne].
  - rewrite list_lookup_alter_eq in Hx. destruct (rw_insts w !! i) as [x0|] eqn:E; [|done]. cbn in Hx. injection Hx as <-. destruct (Hi i x0 E) as [Hgen _]. split.
    + cbn [put_inst written rw_log applyOverrides bump_generation in_generation]. rewrite told_app, told_one, decide_True by done. lia.
    + right. exists (S (length (rw_log w))), next. split_and!; [|done|].
      * rewrite versions_S. cbn [put_inst written rw_log]. by rewrite lookup_app_r, Nat.sub_diag.
      * intros j o' Hj. cbn [put_inst written rw_log] in Hj. apply lookup_lt_Some in Hj. rewrite length_app in Hj. cbn in Hj. lia.
  - rewrite list_lookup_alter_ne in Hx by done. eapply (inst_ok_grows w); [apply written_grows| |by apply Hi].
    cbn [put_inst written rw_log]. rewrite told_app, told_one, decide_False by congruence. lia.
Qed.

Lemma exec_lost_ok next w c m : world_ok w -> c ∈ calls -> mutation_of c = Some m -> next = sanitizeOverrides (to_json (m (load w))) -> world_ok (written None next w).
Proof.
  intros [Hl Hi] Hc Hm Hn. split; [by eapply written_linked|]. intros i x Hx. eapply (inst_ok_grows w); [apply written_grows| |by apply Hi].
  cbn [written rw_log]. rewrite told_app, told_one, decide_False by done. lia.
Qed.

Notation kept := (rg world_ok log_grows (fun _ _ => True)).

(** Between two states with logs of one length nothing was written. *)
Lemma same_log w w' : log_grows w w' -> length (rw_log w') = length (rw_log w) -> rw_log w' = rw_log w.
Proof. intros [_ [l ->]] H. rewrite length_app in H. by rewrite (nil_length_inv l), app_nil_r by lia. Qed.

Lemma load_same w w' : log_grows w w' -> rw_log w' = rw_log w -> load w' = load w.
Proof. intros [Hi _] Hl. unfold load. by rewrite Hi, Hl. Qed.

Lemma changeRule_kept i m now attempts w c : c ∈ calls -> mutation_of c = Some m -> kept (changeRule i m now attempts) w.
Proof.
  intros Hc Hm. revert w. induction attempts as [|fate attempts IH]; intros w; [done|]. cbn [changeRule].
  destruct fate as [| |applied]; [|done|]; cbn [reads atomic pbind rg]; intros w1 _ Hw1; (split; [done|split; [done|]]);
    intros w2 H12 Hw2; (split; [done|split; [done|]]); intros w3 H23 Hw3; unfold exec_set; case_bool_decide as Hlen; cbn [fst snd andb].
  - assert (Hlog : rw_log w3 = rw_log w2) by (apply same_log; [done|]; destruct H12 as [_ Hp%prefix_length], H23 as [_ Hq%prefix_length]; lia).
    split; [eapply exec_told_ok; [done|done|done|by rewrite (load_same w2 w3)]|]. split; [|done]. etransitivity; [apply written_grows|apply put_inst_grows].
  - split; [done|split; [done|apply IH]].
  - assert (Hlog : rw_log w3 = rw_log w2) by (apply same_log; [done|]; destruct H12 as [_ Hp%prefix_length], H23 as [_ Hq%prefix_length]; lia).
    destruct applied; [|done]. cbn [andb]. split; [eapply exec_lost_ok; [done|done|done|by rewrite (load_same w2 w3)]|]. split; [apply written_grows|done].
  - by destruct applied.
Qed.

Lemma quiet_keeps i f w : world_ok w -> (forall x, in_rules (f x) = in_rules x /\ in_generation (f x) = in_generation x) -> world_ok (put_inst i f w).
Proof. intros Hw Hf. apply put_inst_ok; [done|]. intros x _ [Hg Hr]. unfold inst_ok. destruct (Hf x) as [-> ->]. by split. Qed.

Lemma refreshRules_kept i ok now w : kept (refreshRules i ok now) w.
Proof.
  unfold refreshRules. cbn [atomic pbind rg]. intros w1 _ Hw1. destruct (rw_insts w1 !! i) as [x1|] eqn:Ex; cbn [fst snd pbind]; [|done].
  destruct (in_refreshing x1); cbn [fst snd pbind]; [done|]. split; [by apply quiet_keeps|]. split; [apply put_inst_grows|].
  destruct ok; cbn [reads modify pbind rg]; [|intros w2 _ Hw2; split; [by apply quiet_keeps|by split]].
  intros w2 H12 Hw2. split; [done|split; [done|]]. intros w3 H23 Hw3. split; [|by split]. apply put_inst_ok; [done|]. intros x3 _ Hx3.
  destruct (in_generation x3 =? in_generation x1)%nat eqn:Eg; [|exact Hx3]. apply Nat.eqb_eq in Eg. destruct Hx3 as [Hgen _]. split; [exact Hgen|right].
  exists (length (rw_log w2)), (load w2). split; [eapply versions_prefix; [exact H23|apply load_last, Hw2]|]. split; [done|]. intros j o' Hj.
  destruct Hw1 as [_ Hi1]. destruct (Hi1 i x1 Ex) as [Hgen1 _]. assert (H13 : log_grows w1 w3) by (etransitivity; [|exact H23]; exact H12).
  destruct H13 as [_ [l Hl]]. rewrite Hl in Hj, Hgen. rewrite told_app in Hgen. apply lookup_app_Some in Hj as [Hj|[_ Hj]].
  - apply lookup_lt_Some in Hj. destruct H12 as [_ Hp%prefix_length]. cbn [put_inst rw_log] in Hp. lia.
  - exfalso. apply (untold_lookup i l _ o') in Hj; [done|lia].
Qed.

Lemma rules_call_kept c w : c ∈ calls -> kept (rules_call c) w.
Proof. intros Hc. destruct c as [i s patch now att|i s now att|i ok now]; [by eapply changeRule_kept|by eapply changeRule_kept|apply refreshRules_kept]. Qed.
End calls.

(** Any number of instances that update, reset and refresh rules at once, with
    commands that fail and replies that are lost: every write is exactly one
    admin's change applied to the version before it, so no change is lost, and
    the rules an instance holds are those of one version, never older than the
    last change it was told it made. *)
Theorem rule_changes_are_kept initial n calls w ps :
  rtc pool_step (boot initial n, rules_call <$> calls) (w, ps) ->
  (forall j who o, rw_log w !! j = Some (who, o) ->
     exists c m o0, c ∈ calls /\ mutation_of c = Some m /\ versions w !! j = Some o0 /\ o = sanitizeOverrides (to_json (m o0))) /\
  (forall i x, rw_insts w !! i = Some x ->
     in_generation x = O /\ in_rules x = baseRules i \/
     exists k o, versions w !! k = Some o /\ in_rules x = mergeRules (baseRules i) o /\ forall j o', rw_log w !! j = Some (Some i, o') -> (j < k)%nat).
Proof.
  intros Hrun. destruct (pool_rg (world_ok calls) log_grows _ _ Hrun) as [[Hl Hi] _].
  - apply boot_ok.
  - cbn. apply Forall_fmap, Forall_forall. intros c Hc. by apply rules_call_kept.
  - split; [exact Hl|]. intros i x Hx. apply (Hi i x Hx).
Qed.
End instances.

(** * Runs *)

Definition two_admins : list RulesCall :=
  [call_update 0 dust_intent [("weight", num 30)] 10 [all_answered; all_answered]; call_update 1 dust_intent [("maxDustUsd", num 1)] 20 [all_answered; all_answered];
   call_refresh 0 true 30].
Definition both_patched : RulesWorld * list (prog RulesWorld RulesError unit) :=
  schedule [0; 0; 1; 1; 0; 1; 1; 1; 1; 2; 2; 2]%nat (boot (fun _ => DEFAULT_ABUSE_RULES) J_null 2) (rules_call (fun _ => DEFAULT_ABUSE_RULES) <$> two_admins).

(** Two admins on two instances change different fields at once: one attempt
    conflicts, is made again, and both changes are in the blob. *)
Lemma rule_changes_are_kept_witness :
  snd <$> rw_log (both_patched.1) = [[("dust_intent", [("weight", num 30)])]; [("dust_intent", [("weight", num 30); ("maxDustUsd", num 1)])]] /\
  exists c m o0, c ∈ two_admins /\ mutation_of c = Some m /\ versions (both_patched.1) !! 1%nat = Some o0 /\
    [("dust_intent", [("weight", num 30); ("maxDustUsd", num 1)])] = sanitizeOverrides (to_json (m o0)).
Proof.
  split; [vm_compute; reflexivity|].
  assert (Hrun : rtc pool_step (boot (fun _ => DEFAULT_ABUSE_RULES) J_null 2, rules_call (fun _ => DEFAULT_ABUSE_RULES) <$> two_admins) (both_patched.1, both_patched.2))
    by (rewrite <-surjective_pairing; apply schedule_steps).
  apply (proj1 (rule_changes_are_kept (fun _ => DEFAULT_ABUSE_RULES) J_null 2 two_admins _ _ Hrun) 1%nat (Some 1%nat)). vm_compute. reflexivity.
Defined.

(** A reply that is lost: the admin is told that nothing changed, the blob has the
    change, and the next refresh brings it into force. *)
Theorem lost_reply_still_changes : let go := schedule [0; 0; 0; 1; 1; 1]%nat (boot (fun _ => DEFAULT_ABUSE_RULES) J_null 1)
    (rules_call (fun _ => DEFAULT_ABUSE_RULES) <$> [call_update 0 solver_spam [("enabled", R_bool false)] 10 [exec_lost true]; call_refresh 0 true 20]) in
  go.2 !! 0%nat = Some (Throw redis_down) /\ (fun x => get "enabled" (in_rules x solver_spam)) <$> rw_insts go.1 = [Some (R_bool false)].
Proof. split; vm_compute; reflexivity. Qed.

(** The environment may set what the admin interface refuses: a rule with a
    negative weight lowers the score. *)
Theorem env_accepts_negative_weight : let env := fun v => if String.eqb v "ABUSE_DUST_INTENT_WEIGHT" then Some "-90" else None in
  get "weight" (loadRulesFromConfig env dust_intent) = Some (num (-90)) /\
  validateRulePatch dust_intent (J_obj [("weight", J_num (Fin (of_Z (-90))))]) = Err ["'weight' must be a non-negative number"].
Proof. split; vm_compute; reflexivity. Qed.
