(* ===== verification/AbuseScore.v ===== *)
(** The abuse scorer and its guard (abuse/abuse-score.service.ts,
    abuse/abuse-detector.guard.ts, abuse/challenge-verifier.ts,
    abuse/account-age.service.ts, abuse/abuse.types.ts).

    The state is what the scorer keeps in Redis: sliding windows as sorted sets,
    audit lists, cached scores and block counters.  One request is a program
    whose awaits are its steps; a pipeline is one step.  Counter keys are
    constructors: the texts they stand for are distinct because a fingerprint is
    sixteen hexadecimal digits.  Detail texts are left out. *)
From S2P Require Import Prelude JsMap BigInt JsNumber Prog HttpEgress RateLimit Allowlist AbuseRules.
From Stdlib Require Import Ascii.
From stdpp Require Import relations.
Local Open Scope string_scope.
Local Open Scope list_scope.
Local Open Scope Z_scope.
Local Open Scope prog_scope.

Definition CHALLENGE_THRESHOLD : Qc := of_Z 30.
Definition THROTTLE_THRESHOLD : Qc := of_Z 60.
Definition BLOCK_THRESHOLD : Qc := of_Z 90.
Definition AUDIT_LIST_MAX : nat := 200.
Definition AUDIT_TTL_SECONDS : Z := 7 * 86400.
Definition SCORE_TTL_SECONDS : Z := 3 * 86400.

Inductive AbuseAction := ab_pass | ab_challenge | ab_throttle | ab_block.
#[export] Instance AbuseAction_eq : EqDecision AbuseAction.
Proof. solve_decision. Defined.
Inductive Operation := op_create | op_cancel | op_accept | op_fill.
#[export] Instance Operation_eq : EqDecision Operation.
Proof. solve_decision. Defined.

(** A price is a finite number; [asn] is never set. *)
Record AbuseContext := {
  ac_userAddress : string; ac_solverAddress : option string; ac_clientIp : string; ac_srcAmount : string; ac_srcTokenPriceUsd : option Qc;
  ac_srcTokenDecimals : option Z; ac_intentFingerprint : string; ac_accountAgeSeconds : option Qc; ac_operation : Operation;
}.
Record SignalFiring := { sf_signal : AbuseSignal; sf_weight : Qc }.
Record AbuseScore := { as_total : Qc; as_action : AbuseAction; as_signals : list SignalFiring; as_actors : list string; as_allowlisted : bool }.
Record AbuseAuditEvent := {
  ae_timestamp : Z; ae_userAddress : string; ae_clientIp : string; ae_operation : Operation; ae_score : Qc; ae_action : AbuseAction;
  ae_signals : list SignalFiring; ae_allowlisted : bool;
}.

Record AbuseSelfAuditEvent := { se_timestamp : Z; se_operation : Operation; se_action : AbuseAction; se_signals : list (AbuseSignal * Qc) }.
Definition toSelfAuditEvent (e : AbuseAuditEvent) : AbuseSelfAuditEvent :=
  {| se_timestamp := ae_timestamp e; se_operation := ae_operation e; se_action := ae_action e; se_signals := (fun s => (sf_signal s, sf_weight s)) <$> ae_signals e |}.

(** * Redis *)

Inductive CounterKey := k_creates (user : string) | k_cancels (user : string) | k_fp (user fingerprint : string) | k_users (ip : string) | k_cycles (solver : string).
#[export] Instance CounterKey_eq : EqDecision CounterKey.
Proof. solve_decision. Defined.

(** A sorted set, empty when its key is absent. *)
Record ZSet := { zs_members : jsmap Z; zs_expireAt : option Z }.
Definition no_zset : ZSet := {| zs_members := []; zs_expireAt := None |}.
Definition live (now : Z) (z : ZSet) : ZSet := match zs_expireAt z with Some t => if t <=? now then no_zset else z | None => z end.

Definition zadd (score : Z) (member : string) (z : ZSet) : ZSet := {| zs_members := set member score (zs_members z); zs_expireAt := zs_expireAt z |}.
Definition zremrangebyscore (max : Qc) (z : ZSet) : ZSet :=
  let kept := filter (fun e => q_le (of_Z e.2) max = false) (zs_members z) in
  if bool_decide (kept = []) then no_zset else {| zs_members := kept; zs_expireAt := zs_expireAt z |}.
(** [EXPIRE] takes whole seconds and answers other numbers with an error. *)
Definition whole (q : Qc) : option Z := let z := Z.div (Qnum q) (Zpos (Qden q)) in if decide (of_Z z = q) then Some z else None.
Definition expire (now : Z) (seconds : Qc) (z : ZSet) : ZSet :=
  match whole seconds with
  | Some s => if s <=? 0 then no_zset else if bool_decide (zs_members z = []) then z else {| zs_members := zs_members z; zs_expireAt := Some (now + s) |}
  | None => z
  end.
Definition zrangebyscore (since : Qc) (z : ZSet) : list (string * Z) := filter (fun e => q_le since (of_Z e.2) = true) (zs_members z).
Definition zcount (since : Qc) (z : ZSet) : nat := length (zrangebyscore since z).

Record BlockCounter := { bc_count : nat; bc_expireAt : option Z }.

Record Redis := {
  rd_zsets : CounterKey -> ZSet;
  rd_audit : jsmap (list AbuseAuditEvent * Z);
  rd_scores : jsmap (Qc * Z);
  rd_blocks : jsmap BlockCounter;
  rd_alerts : list (string * nat);
  rd_ages : jsmap (string * Z);
}.
Definition empty_redis : Redis := {| rd_zsets := fun _ => no_zset; rd_audit := []; rd_scores := []; rd_blocks := []; rd_alerts := []; rd_ages := [] |}.

Definition zset_at (key : CounterKey) (now : Z) (r : Redis) : ZSet := live now (rd_zsets r key).
Definition put_zset (key : CounterKey) (z : ZSet) (r : Redis) : Redis :=
  {| rd_zsets := fun k => if decide (k = key) then z else rd_zsets r k; rd_audit := rd_audit r; rd_scores := rd_scores r; rd_blocks := rd_blocks r; rd_alerts := rd_alerts r; rd_ages := rd_ages r |}.

(** One entry: [ZADD], [ZREMRANGEBYSCORE], [EXPIRE]. *)
Definition push (now : Z) (window : Qc) (member : string) (z : ZSet) : ZSet :=
  expire now (window * of_Z 2)%Qc (zremrangebyscore (of_Z now - window)%Qc (zadd now member z)).
Definition hit (key : CounterKey) (now : Z) (window : Qc) (member : string) (r : Redis) : Redis :=
  put_zset key (push now window member (zset_at key now r)) r.

(** * Rules *)

Definition rule_num (rules : AbuseRulesConfig) (s : AbuseSignal) (f : string) : Qc :=
  match get f (rules s) with Some (R_num (Fin q)) => q | _ => of_Z 0 end.
Definition rule_enabled (rules : AbuseRulesConfig) (s : AbuseSignal) : bool := match get "enabled" (rules s) with Some (R_bool b) => b | _ => false end.
Definition window (rules : AbuseRulesConfig) (s : AbuseSignal) : Qc := rule_num rules s "windowSeconds".

Definition firing (rules : AbuseRulesConfig) (s : AbuseSignal) (cond : bool) : option SignalFiring :=
  if cond then Some {| sf_signal := s; sf_weight := rule_num rules s "weight" |} else None.

Definition n_of (n : nat) : Qc := of_Z (Z.of_nat n).

Definition ratio_fires (rules : AbuseRulesConfig) (createCount cancelCount : nat) : bool :=
  let s := create_cancel_ratio in
  if q_lt (n_of createCount) (rule_num rules s "minCreates") then false
  else let ratio := if (0 <? createCount)%nat then (n_of cancelCount / n_of createCount)%Qc else of_Z 0 in
       negb (q_lt ratio (rule_num rules s "minCancelRatio")).

(** [Err]: [BigInt] refused the amount. *)
Definition evalDustIntent (rules : AbuseRulesConfig) (ctx : AbuseContext) : outcome unit (option SignalFiring) :=
  let price := default (of_Z 0) (ac_srcTokenPriceUsd ctx) in
  let decimals := default 6 (ac_srcTokenDecimals ctx) in
  if q_le price (of_Z 0) then Ok None
  else match BigInt (ac_srcAmount ctx) with
       | None => Err tt
       | Some amount =>
           let usdValue := (of_Z amount * Q2Qc (Qpower (inject_Z 10) (- decimals)) * price)%Qc in
           Ok (firing rules dust_intent (q_lt usdValue (rule_num rules dust_intent "maxDustUsd")))
       end.

Definition evalNewAddress (rules : AbuseRulesConfig) (ctx : AbuseContext) : option SignalFiring :=
  match ac_accountAgeSeconds ctx with
  | None => None
  | Some age => firing rules new_address (q_lt age (rule_num rules new_address "minAgeSeconds"))
  end.

(** [m.split(':').slice(1).join(':')]: what follows the first colon *)
Fixpoint after_colon (s : string) : string :=
  match s with EmptyString => EmptyString | String c s => if code c =? 58 then s else after_colon s end.
Definition distinct_users (members : list (string * Z)) : nat := length (remove_dups ((fun m => after_colon m.1) <$> members)).

(** * Scoring *)

(** What surrounds one request: the time, the rules as each evaluator and the
    counter update find them, which Redis commands fail, and the random part of
    new members. *)
Record ScoreEnv := {
  sv_now : Z; sv_rules : AbuseRulesConfig; sv_writeRules : AbuseRulesConfig;
  sv_down : AbuseSignal -> bool; sv_writeDown : bool; sv_auditDown : bool; sv_blocksDown : bool; sv_random : string; sv_timestamp : Z;
  sv_blockThreshold : nat; sv_blockWindow : Z;
}.

Notation SM := (prog Redis unit).

Definition redis_read {A} (e : ScoreEnv) (s : AbuseSignal) (f : Redis -> A) : SM A := if sv_down e s then Throw tt else reads f.

Definition evalCreateCancelRatio (e : ScoreEnv) (ctx : AbuseContext) : SM (option SignalFiring) :=
  let since := (of_Z (sv_now e) - window (sv_rules e) create_cancel_ratio)%Qc in
  createCount <- redis_read e create_cancel_ratio (fun r => zcount since (zset_at (k_creates (ac_userAddress ctx)) (sv_now e) r));
  cancelCount <- redis_read e create_cancel_ratio (fun r => zcount since (zset_at (k_cancels (ac_userAddress ctx)) (sv_now e) r));
  Done (firing (sv_rules e) create_cancel_ratio (ratio_fires (sv_rules e) createCount cancelCount)).

Definition evalBurstIdentical (e : ScoreEnv) (ctx : AbuseContext) : SM (option SignalFiring) :=
  let since := (of_Z (sv_now e) - window (sv_rules e) burst_identical)%Qc in
  count <- redis_read e burst_identical (fun r => zcount since (zset_at (k_fp (ac_userAddress ctx) (ac_intentFingerprint ctx)) (sv_now e) r));
  Done (firing (sv_rules e) burst_identical (negb (q_lt (n_of count) (rule_num (sv_rules e) burst_identical "maxCount")))).

Definition evalIpAsnCluster (e : ScoreEnv) (ctx : AbuseContext) : SM (option SignalFiring) :=
  let since := (of_Z (sv_now e) - window (sv_rules e) ip_asn_cluster)%Qc in
  members <- redis_read e ip_asn_cluster (fun r => zrangebyscore since (zset_at (k_users (ac_clientIp ctx)) (sv_now e) r));
  Done (firing (sv_rules e) ip_asn_cluster (negb (q_lt (n_of (distinct_users members)) (rule_num (sv_rules e) ip_asn_cluster "minAddressesPerIp")))).

Definition evalSolverSpam (e : ScoreEnv) (solver : string) : SM (option SignalFiring) :=
  let since := (of_Z (sv_now e) - window (sv_rules e) solver_spam)%Qc in
  count <- redis_read e solver_spam (fun r => zcount since (zset_at (k_cycles solver) (sv_now e) r));
  Done (firing (sv_rules e) solver_spam (negb (q_lt (n_of count) (rule_num (sv_rules e) solver_spam "maxCycles")))).

Definition put_blocks (blocks : jsmap BlockCounter) (r : Redis) : Redis :=
  {| rd_zsets := rd_zsets r; rd_audit := rd_audit r; rd_scores := rd_scores r; rd_blocks := blocks; rd_alerts := rd_alerts r; rd_ages := rd_ages r |}.
Definition raise_alert (actor : string) (count : nat) (r : Redis) : Redis :=
  {| rd_zsets := rd_zsets r; rd_audit := rd_audit r; rd_scores := rd_scores r; rd_blocks := rd_blocks r; rd_alerts := rd_alerts r ++ [(actor, count)]; rd_ages := rd_ages r |}.

(** Counter writes; the random part of a member is the same for both sets. *)
Definition update_counters (e : ScoreEnv) (ctx : AbuseContext) (r : Redis) : Redis :=
  let now := sv_now e in
  let jitter := toString now +:+ ":" +:+ sv_random e in
  let user := ac_userAddress ctx in
  let r := if bool_decide (ac_operation ctx = op_create) then
    hit (k_users (ac_clientIp ctx)) now (window (sv_writeRules e) ip_asn_cluster) (toString now +:+ ":" +:+ user)
      (hit (k_fp user (ac_intentFingerprint ctx)) now (window (sv_writeRules e) burst_identical) jitter
        (hit (k_creates user) now (window (sv_writeRules e) create_cancel_ratio) jitter r)) else r in
  match ac_solverAddress ctx with
  | Some solver =>
      if bool_decide (ac_operation ctx = op_accept) && bool_decide (solver <> "") then hit (k_cycles solver) now (window (sv_writeRules e) solver_spam) jitter r else r
  | None => r
  end.
Definition updateCounters (e : ScoreEnv) (ctx : AbuseContext) : SM unit := if sv_writeDown e then Done tt else modify (update_counters e ctx).

Definition recordCancel (user : string) (now : Z) (windowSeconds : Qc) (random : string) (ok : bool) : SM unit :=
  if ok then modify (hit (k_cancels user) now windowSeconds (toString now +:+ ":" +:+ random)) else Done tt.

(** * Audit and sustained blocks *)

Definition live_block (now : Z) (c : option BlockCounter) : option BlockCounter :=
  match c with Some c => match bc_expireAt c with Some t => if t <=? now then None else Some c | None => Some c end | None => None end.
(** [INCR] and [TTL]: the new count and whether the key has no expiry. *)
Definition incr_block (now : Z) (actor : string) (r : Redis) : (nat * bool) * Redis :=
  let c := default {| bc_count := O; bc_expireAt := None |} (live_block now (get actor (rd_blocks r))) in
  ((S (bc_count c), bool_decide (bc_expireAt c = None)), put_blocks (set actor {| bc_count := S (bc_count c); bc_expireAt := bc_expireAt c |} (rd_blocks r)) r).
Definition expire_block (now windowSeconds : Z) (actor : string) (r : Redis) : Redis :=
  match live_block now (get actor (rd_blocks r)) with
  | Some c => put_blocks (set actor {| bc_count := bc_count c; bc_expireAt := Some (now + windowSeconds) |} (rd_blocks r)) r
  | None => r
  end.

Definition incr_both (now : Z) (user ip : string) (r : Redis) : ((nat * bool) * (nat * bool)) * Redis :=
  let '(a, r) := incr_block now user r in let '(b, r) := incr_block now ip r in ((a, b), r).
Definition after_block (e : ScoreEnv) (actor : string) (reply : nat * bool) : SM unit :=
  (if reply.2 then modify (expire_block (sv_now e) (sv_blockWindow e) actor) else Done tt);;;
  (if (reply.1 =? sv_blockThreshold e)%nat then modify (raise_alert actor reply.1) else Done tt).
Definition trackSustainedBlocks (e : ScoreEnv) (ctx : AbuseContext) : SM unit :=
  if (sv_blockThreshold e =? 0)%nat || (sv_blockWindow e <=? 0) then Done tt
  else if sv_blocksDown e then Done tt
  else
    let user := "user:" +:+ ac_userAddress ctx in
    let ip := "ip:" +:+ ac_clientIp ctx in
    replies <- atomic (incr_both (sv_now e) user ip);
    after_block e user replies.1;;; after_block e ip replies.2.

Definition put_audit (e : ScoreEnv) (ctx : AbuseContext) (result : AbuseScore) (r : Redis) : Redis :=
  let user := ac_userAddress ctx in
  let event := {| ae_timestamp := sv_timestamp e; ae_userAddress := user; ae_clientIp := ac_clientIp ctx; ae_operation := ac_operation ctx; ae_score := as_total result;
                  ae_action := as_action result; ae_signals := as_signals result; ae_allowlisted := as_allowlisted result |} in
  let old := match get user (rd_audit r) with Some (l, t) => if t <=? sv_now e then [] else l | None => [] end in
  {| rd_zsets := rd_zsets r; rd_audit := set user (take AUDIT_LIST_MAX (event :: old), sv_now e + AUDIT_TTL_SECONDS) (rd_audit r);
     rd_scores := set user (as_total result, sv_now e + SCORE_TTL_SECONDS) (rd_scores r); rd_blocks := rd_blocks r; rd_alerts := rd_alerts r; rd_ages := rd_ages r |}.
Definition persistAudit (e : ScoreEnv) (ctx : AbuseContext) (result : AbuseScore) : SM unit :=
  (if sv_auditDown e then Done tt else modify (put_audit e ctx result));;;
  if bool_decide (as_action result = ab_block) then trackSustainedBlocks e ctx else Done tt.

Definition getAuditHistory (user : string) (now : Z) (limit : nat) (r : Redis) : list AbuseAuditEvent :=
  match get user (rd_audit r) with Some (l, t) => if t <=? now then [] else take limit l | None => [] end.
Definition getCachedScore (user : string) (now : Z) (r : Redis) : option Qc :=
  match get user (rd_scores r) with Some (s, t) => if t <=? now then None else Some s | None => None end.

(** * The score *)

Definition actionFromScore (score : Qc) : AbuseAction :=
  if q_le BLOCK_THRESHOLD score then ab_block else if q_le THROTTLE_THRESHOLD score then ab_throttle
  else if q_le CHALLENGE_THRESHOLD score then ab_challenge else ab_pass.

Definition sum_weights (signals : list SignalFiring) : Qc := foldl (fun sum s => (sum + sf_weight s)%Qc) (of_Z 0) signals.

(** [if (rules[s].enabled && when) ...] *)
Definition when_enabled (e : ScoreEnv) (s : AbuseSignal) (cond : bool) (eval : SM (option SignalFiring)) : SM (option SignalFiring) :=
  if rule_enabled (sv_rules e) s && cond then eval else Done None.

Definition evaluate (e : ScoreEnv) (ctx : AbuseContext) : SM (list SignalFiring) :=
  let create := bool_decide (ac_operation ctx = op_create) in
  s1 <- when_enabled e create_cancel_ratio create (evalCreateCancelRatio e ctx);
  s2 <- when_enabled e dust_intent create (match evalDustIntent (sv_rules e) ctx with Ok f => Done f | Err x => Throw x end);
  s3 <- when_enabled e burst_identical create (evalBurstIdentical e ctx);
  s4 <- when_enabled e new_address create (Done (evalNewAddress (sv_rules e) ctx));
  s5 <- when_enabled e ip_asn_cluster create (evalIpAsnCluster e ctx);
  s6 <- match ac_solverAddress ctx with
        | Some solver => when_enabled e solver_spam (bool_decide (solver <> "") && bool_decide (ac_operation ctx = op_accept)) (evalSolverSpam e solver)
        | None => Done None
        end;
  Done (omap id [s1; s2; s3; s4; s5; s6]).

Definition result_of (ctx : AbuseContext) (allowlisted : bool) (signals : list SignalFiring) : AbuseScore :=
  let total := sum_weights signals in
  {| as_total := total; as_action := if allowlisted then ab_pass else actionFromScore total; as_signals := signals;
     as_actors := ["user:" +:+ ac_userAddress ctx; "ip:" +:+ ac_clientIp ctx] ++
                  match ac_solverAddress ctx with Some s => if bool_decide (s = "") then [] else ["solver:" +:+ s] | None => [] end;
     as_allowlisted := allowlisted |}.
Definition failed_open (allowlisted : bool) : AbuseScore :=
  {| as_total := of_Z 0; as_action := ab_pass; as_signals := []; as_actors := []; as_allowlisted := allowlisted |}.

(** The counters and the audit are written after the answer; the refresh of the
    rules that comes first is [refreshRules]. *)
Definition score (e : ScoreEnv) (ctx : AbuseContext) (allowlisted : bool) : SM AbuseScore :=
  scored <- pcatch (fun _ => Done None) (signals <- evaluate e ctx; Done (Some signals));
  match scored with
  | None => Done (failed_open allowlisted)
  | Some signals =>
      let result := result_of ctx allowlisted signals in
      updateCounters e ctx;;; persistAudit e ctx result;;; Done result
  end.

(** * Account age *)

Definition NOT_FOUND : string := "none".
Definition NOT_FOUND_TTL_SECONDS : Z := 60.
Inductive CreationLookup := created (createdAt : Z) | missing | unknown_age.

(** Horizon's two answers: status codes, and the first effect's [created_at] in
    milliseconds if it parses as a date.  [Err]: a request, its deadline or
    [JSON.parse] failed. *)
Record HorizonAge := { ha_account : outcome unit Z; ha_effects : outcome unit Z; ha_body : outcome unit (option Z) }.
Definition status_ok (s : Z) : bool := (200 <=? s) && (s <? 300).
Definition lookupCreation (h : HorizonAge) : outcome unit CreationLookup :=
  match ha_account h, ha_effects h with
  | Ok account, Ok effects =>
      if account =? 404 then Ok missing
      else if negb (status_ok account) then Err tt
      else if negb (status_ok effects) then Err tt
      else match ha_body h with Err x => Err x | Ok None => Ok unknown_age | Ok (Some ms) => Ok (created (Z.div ms 1000)) end
  | _, _ => Err tt
  end.

Definition cached_age (accountId : string) (now : Z) (r : Redis) : option string :=
  match get accountId (rd_ages r) with Some (v, t) => if t <=? now then None else Some v | None => None end.
Definition put_age (accountId value : string) (expireAt : Z) (r : Redis) : Redis :=
  {| rd_zsets := rd_zsets r; rd_audit := rd_audit r; rd_scores := rd_scores r; rd_blocks := rd_blocks r; rd_alerts := rd_alerts r; rd_ages := set accountId (value, expireAt) (rd_ages r) |}.
Definition max0 (q : Qc) : Qc := if q_le (of_Z 0) q then q else of_Z 0.

Record AgeEnv := { ag_now : Z; ag_cacheUp : bool; ag_storeUp : bool; ag_horizon : HorizonAge; ag_ttl : Z }.

(** [accountId] is what [resolveAccountId] yields. *)
Definition getAccountAgeSeconds (a : AgeEnv) (accountId : option string) : SM (option Qc) :=
  match accountId with
  | None => Done None
  | Some accountId =>
      let now := of_Z (ag_now a) in
      let store value ttl := if ag_storeUp a then modify (put_age accountId value (ag_now a + ttl)) else Done tt in
      let miss :=
        match lookupCreation (ag_horizon a) with
        | Err _ | Ok unknown_age => Done None
        | Ok missing => store NOT_FOUND NOT_FOUND_TTL_SECONDS;;; Done (Some (of_Z 0))
        | Ok (created createdAt) => store (toString createdAt) (ag_ttl a);;; Done (Some (max0 (now - of_Z createdAt)%Qc))
        end in
      cached <- (if ag_cacheUp a then reads (cached_age accountId (ag_now a)) else Done None);
      match cached with
      | Some v => if bool_decide (v = NOT_FOUND) then Done (Some (of_Z 0)) else match Number v with Fin q => Done (Some (max0 (now - q)%Qc)) | _ => miss end
      | None => miss
      end
  end.

(** * Challenges *)

Inductive CaptchaOutcome := cap_valid | cap_invalid | cap_unavailable | cap_disabled.
#[export] Instance CaptchaOutcome_eq : EqDecision CaptchaOutcome.
Proof. solve_decision. Defined.
Record ChallengeResult := { ch_passed : bool; ch_captcha : option CaptchaOutcome }.
Definition MAX_CAPTCHA_TOKEN_LENGTH : nat := 4096.

Fixpoint zeroes (n : nat) : string := match n with O => "" | S n => "0" +:+ zeroes n end.

Section guard.
Variable sha256 : string -> string.

(** ['0'.repeat(n)] is empty for [NaN] and throws on negative and infinite counts. *)
Definition verifyPow (difficulty : option string) (nonce : option string) : outcome unit bool :=
  match nonce with
  | None => Ok false
  | Some nonce =>
      if bool_decide (nonce = "") then Ok false
      else match parseInt10 (default "4" difficulty) with
           | NaN => Ok true
           | Inf _ => Err tt
           | Fin q => let n := Z.div (Qnum q) (Zpos (Qden q)) in if n <? 0 then Err tt else Ok (String.prefix (zeroes (Z.to_nat n)) (sha256 nonce))
           end
  end.

(** [cp_answer]: the status and the [success] flag if it is a boolean; [Err] covers
    the egress client, the deadline and [JSON.parse]. *)
Record CaptchaEnv := { cp_provider : string; cp_secret : string; cp_answer : string -> outcome unit (Z * outcome unit (option bool)) }.
Definition captchaEnabled (c : CaptchaEnv) : bool := bool_decide (cp_provider c ∈ ["hcaptcha"; "turnstile"]) && bool_decide (cp_secret c <> "").
Definition verifyCaptcha (c : CaptchaEnv) (token : string) : CaptchaOutcome :=
  if negb (captchaEnabled c) then cap_disabled
  else if (String.length token =? 0)%nat || (MAX_CAPTCHA_TOKEN_LENGTH <? String.length token)%nat then cap_invalid
  else match cp_answer c token with
       | Err _ => cap_unavailable
       | Ok (status, body) =>
           if negb (status_ok status) then cap_unavailable
           else match body with Err _ | Ok None => cap_unavailable | Ok (Some true) => cap_valid | Ok (Some false) => cap_invalid end
       end.

Definition verify_challenge (c : CaptchaEnv) (difficulty pow token : option string) : outcome unit ChallengeResult :=
  match verifyPow difficulty pow with
  | Err x => Err x
  | Ok true => Ok {| ch_passed := true; ch_captcha := None |}
  | Ok false =>
      match token with
      | None => Ok {| ch_passed := false; ch_captcha := None |}
      | Some token =>
          if bool_decide (token = "") then Ok {| ch_passed := false; ch_captcha := None |}
          else let captcha := verifyCaptcha c token in Ok {| ch_passed := bool_decide (captcha = cap_valid); ch_captcha := Some captcha |}
      end
  end.

(** * The guard *)

(** Body fields that are strings, and headers. *)
Record Request := {
  rq_user : option string; rq_actor : option string; rq_solver : option string; rq_forwarded : option string; rq_ip : option string; rq_remoteAddress : option string;
  rq_path : string; rq_method : string; rq_apiKey : option string; rq_authorization : option string;
  rq_srcAmount : option string; rq_priceUSD : option Qc; rq_decimals : option Z; rq_fingerprint : string; rq_pow : option string; rq_captcha : option string;
}.

Definition nonempty (o : option string) : option string := match o with Some s => if bool_decide (s = "") then None else Some s | None => None end.
Definition resolveUserAddress (q : Request) : string :=
  match nonempty (rq_user q) with
  | Some user => toLowerCase user
  | None => match nonempty (rq_actor q) with Some actor => toLowerCase actor | None => "ip:" +:+ default "unknown" (rq_ip q) end
  end.
Definition resolveSolverAddress (q : Request) : option string := toLowerCase <$> nonempty (rq_solver q).
Definition peer_ip (q : Request) : string := default (default "unknown" (rq_remoteAddress q)) (rq_ip q).
Definition resolveClientIp (q : Request) : string :=
  match rq_forwarded q with
  | Some forwarded => let first := trim (hd "" (split_on ","%char forwarded)) in if bool_decide (first = "") then peer_ip q else first
  | None => peer_ip q
  end.
Definition resolveOperation (q : Request) : Operation :=
  let post := bool_decide (toUpperCase (rq_method q) = "POST") in
  if post && endsWith "/cancel" (rq_path q) then op_cancel
  else if post && endsWith "/accept" (rq_path q) then op_accept
  else if post && endsWith "/fill" (rq_path q) then op_fill
  else op_create.
Definition resolveApiKey (q : Request) : option string :=
  match nonempty (match rq_apiKey q with Some k => Some k | None => rq_authorization q end) with
  | Some raw => Some (if String.prefix "Bearer " raw then String.substring 7 (String.length raw - 7) raw else raw)
  | None => None
  end.

Inductive GuardVerdict := allowed | forbidden | too_many_requests | precondition_required (captchaDown : bool) | crashed.
#[export] Instance GuardVerdict_eq : EqDecision GuardVerdict.
Proof. solve_decision. Defined.

Record GuardEnv := {
  gd_score : ScoreEnv; gd_age : option AgeEnv; gd_accountId : string -> option string; gd_env : EntrySets; gd_db : EntrySets; gd_captcha : CaptchaEnv; gd_difficulty : option string;
}.

Definition resolveAccountAge (g : GuardEnv) (q : Request) (op : Operation) : SM (option Qc) :=
  match gd_age g, nonempty (rq_user q) with
  | Some a, Some user =>
      if bool_decide (op = op_create) && rule_enabled (sv_rules (gd_score g)) new_address then getAccountAgeSeconds a (gd_accountId g user) else Done None
  | _, _ => Done None
  end.

Definition context_of (q : Request) (age : option Qc) : AbuseContext :=
  {| ac_userAddress := resolveUserAddress q; ac_solverAddress := resolveSolverAddress q; ac_clientIp := resolveClientIp q; ac_srcAmount := default "0" (rq_srcAmount q);
     ac_srcTokenPriceUsd := rq_priceUSD q; ac_srcTokenDecimals := rq_decimals q; ac_intentFingerprint := rq_fingerprint q; ac_accountAgeSeconds := age; ac_operation := resolveOperation q |}.
Definition check_opts (q : Request) : CheckOpts := {| co_userAddress := resolveUserAddress q; co_clientIp := resolveClientIp q; co_apiKey := resolveApiKey q |}.

Definition enforce (g : GuardEnv) (q : Request) (action : AbuseAction) : GuardVerdict :=
  match action with
  | ab_block => forbidden
  | ab_throttle => too_many_requests
  | ab_challenge =>
      match verify_challenge (gd_captcha g) (gd_difficulty g) (rq_pow q) (rq_captcha q) with
      | Err _ => crashed
      | Ok proof => if ch_passed proof then allowed else precondition_required (bool_decide (ch_captcha proof = Some cap_unavailable))
      end
  | ab_pass => allowed
  end.

Definition canActivate (g : GuardEnv) (q : Request) : SM GuardVerdict :=
  let allowlisted := isAllowlisted sha256 (gd_env g) (gd_db g) (check_opts q) in
  age <- resolveAccountAge g q (resolveOperation q);
  result <- score (gd_score g) (context_of q age) allowlisted;
  Done (enforce g q (as_action result)).
End guard.

(** * The sliding window *)

Lemma whole_of_Z a : whole (of_Z a) = Some a.
Proof. unfold whole. rewrite this_of_Z. cbn [Qnum Qden inject_Z]. rewrite Z.div_1_r. by rewrite decide_True. Qed.

(** What [pushes] of one counter amount to: every entry of the last [w] seconds
    before the newest, until [2w] seconds after it. *)
Definition pushes (w : Z) (l : list (Z * string)) : ZSet := foldl (fun z tm => push tm.1 (of_Z w) tm.2 (live tm.1 z)) no_zset l.
Definition recent (w last : Z) (l : list (Z * string)) : list (string * Z) := (fun tm => (tm.2, tm.1)) <$> filter (fun tm => last - w < tm.1) l.

Lemma push_Z t w m z : 0 < w -> get m (zs_members z) = None ->
  push t (of_Z w) m z = {| zs_members := filter (fun e => t - w < e.2) (zs_members z) ++ [(m, t)]; zs_expireAt := Some (t + w * 2) |}.
Proof.
  intros Hw Hm. unfold push, zremrangebyscore, zadd. cbn [zs_members zs_expireAt]. rewrite of_Z_sub, of_Z_mul, (set_absent _ _ _ Hm).
  assert (Hf : forall l : jsmap Z, filter (fun e => q_le (of_Z e.2) (of_Z (t - w)) = false) l = filter (fun e => t - w < e.2) l).
  { intros l. apply list_filter_iff. intros e. rewrite q_le_of_Z. lia. }
  cbn zeta. rewrite !Hf. unfold jsmap. rewrite filter_app, filter_cons_True by (cbn; lia). rewrite filter_nil. rewrite bool_decide_eq_false_2 by (intros [_ H]%app_eq_nil; done).
  unfold expire. rewrite whole_of_Z. destruct (w * 2 <=? 0) eqn:E; [lia|]. cbn [zs_members]. by rewrite bool_decide_eq_false_2 by (intros [_ H]%app_eq_nil; done).
Qed.

Definition last_time (l : list (Z * string)) : Z := match last l with Some tm => tm.1 | None => 0 end.
Definition in_order (l : list (Z * string)) : Prop := StronglySorted (fun a b => a.1 <= b.1) l /\ NoDup l.*2.

Lemma in_order_snoc l tm : in_order (l ++ [tm]) -> in_order l /\ (forall x, x ∈ l -> x.1 <= tm.1) /\ tm.2 ∉ l.*2.
Proof.
  intros [Hs Hn]. rewrite fmap_app in Hn. apply NoDup_app in Hn as (Hn & Hd & _). apply StronglySorted_app in Hs as (Hx & Hs & _).
  split_and!; [by split| |]; [intros x Hin; apply Hx; [done|by left]|]. intros Hin. apply (Hd _ Hin). by left.
Qed.

Lemma recent_le w last l : (forall x, x ∈ l -> x.1 <= last - w) -> recent w last l = [].
Proof.
  intros H. unfold recent. induction l as [|x l IH]; [done|]. rewrite filter_cons_False by (specialize (H x ltac:(by left)); lia). apply IH. intros y Hy. apply H. by right.
Qed.

Lemma recent_later w last t l : last <= t -> filter (fun e => t - w < e.2) (recent w last l) = recent w t l.
Proof.
  intros Hle. unfold recent. induction l as [|x l IH]; [done|]. rewrite !filter_cons. destruct (decide (last - w < x.1)) as [H1|H1], (decide (t - w < x.1)) as [H2|H2]; try lia.
  - cbn [fmap list_fmap]. rewrite filter_cons_True by done. by f_equal.
  - cbn [fmap list_fmap]. by rewrite filter_cons_False by (cbn; lia).
  - done.
Qed.

Lemma recent_members w last l m : m ∈ (recent w last l).*1 -> m ∈ l.*2.
Proof.
  unfold recent. rewrite <-list_fmap_compose. intros (tm & -> & Hin)%list_elem_of_fmap. apply list_elem_of_filter in Hin as [_ Hin]. cbn. by apply list_elem_of_fmap_2.
Qed.

Definition holds_window (w : Z) (l : list (Z * string)) (z : ZSet) : Prop :=
  l = [] /\ z = no_zset \/ l <> [] /\ z = {| zs_members := recent w (last_time l) l; zs_expireAt := Some (last_time l + w * 2) |}.

Lemma last_time_max l : in_order l -> l <> [] -> forall x, x ∈ l -> x.1 <= last_time l.
Proof.
  destruct l as [|tm l _] using rev_ind; [done|]. intros (_ & Hle & _)%in_order_snoc _ x Hx. unfold last_time. rewrite last_snoc.
  apply elem_of_app in Hx as [Hx| ->%list_elem_of_singleton]; [by apply Hle|lia].
Qed.

(** At [t] or later the window holds exactly what is in it. *)
Lemma live_window w l z t : 0 < w -> in_order l -> (l <> [] -> last_time l <= t) -> holds_window w l z ->
  filter (fun e => t - w < e.2) (zs_members (live t z)) = recent w t l /\ (forall m, m ∈ (zs_members (live t z)).*1 -> m ∈ l.*2).
Proof.
  intros Hw Ho Hle [[-> ->]|[Hne ->]]; [done|]. specialize (Hle Hne). unfold live. cbn [zs_expireAt]. destruct (_ <=? t) eqn:E.
  - cbn. split; [|intros m Hm; by apply elem_of_nil in Hm]. symmetry. apply recent_le. intros x Hx. pose proof (last_time_max l Ho Hne x Hx). lia.
  - cbn [zs_members]. split; [by apply recent_later|]. intros m. apply recent_members.
Qed.

Lemma pushes_exact w l : 0 < w -> in_order l -> holds_window w l (pushes w l).
Proof.
  intros Hw. induction l as [|tm l IH] using rev_ind; intros Ho; [by left|]. right. split; [by destruct l|].
  apply in_order_snoc in Ho as (Ho & Hle & Hni). specialize (IH Ho). unfold pushes, last_time. rewrite foldl_snoc, last_snoc. fold (pushes w l).
  destruct (live_window w l (pushes w l) tm.1 Hw Ho) as [Hf Hm]; [|done|].
  { intros Hne. unfold last_time. destruct (last l) as [x|] eqn:E; [|by apply last_None in E]. apply Hle. by apply last_Some_elem_of. }
  rewrite push_Z; [|done|apply get_None_keys; intros Hin; by apply Hni, Hm]. f_equal. rewrite Hf. unfold recent. rewrite filter_app, fmap_app, filter_cons_True by lia. done.
Qed.

Lemma recent_since w since last l :
  length (filter (fun e => since <= e.2) (recent w last l)) = length (filter (fun tm => since <= tm.1 /\ last - w < tm.1) l).
Proof.
  unfold recent. induction l as [|x l IH]; [done|]. rewrite !filter_cons. destruct (decide (last - w < x.1)) as [H1|H1].
  - cbn [fmap list_fmap]. rewrite filter_cons. cbn [snd]. destruct (decide (since <= x.1)) as [H2|H2], (decide (since <= x.1 /\ last - w < x.1)) as [H3|H3];
      try (exfalso; tauto); cbn [length]; [by f_equal|done].
  - destruct (decide (since <= x.1 /\ last - w < x.1)); [exfalso; tauto|done].
Qed.

(** The number of entries a rule counts at [now]. *)
Lemma window_count w l now : 0 < w -> in_order l -> (l <> [] -> last_time l <= now) ->
  zcount (of_Z now - of_Z w)%Qc (live now (pushes w l)) = length (filter (fun tm => now - w <= tm.1 /\ last_time l - w < tm.1) l).
Proof.
  intros Hw Ho Hle. destruct (pushes_exact w l Hw Ho) as [[-> ->]|[Hne ->]]; [done|]. specialize (Hle Hne). unfold zcount, zrangebyscore. rewrite of_Z_sub.
  assert (Hf : forall l' : jsmap Z, filter (fun e => q_le (of_Z (now - w)) (of_Z e.2) = true) l' = filter (fun e => now - w <= e.2) l').
  { intros l'. apply list_filter_iff. intros e. rewrite q_le_of_Z. lia. }
  rewrite Hf. unfold live. cbn [zs_expireAt]. destruct (_ <=? now) eqn:E; [|apply recent_since]. cbn. symmetry. apply length_zero_iff_nil.
  destruct (filter _ l) as [|x f] eqn:Ef; [done|]. assert (Hx : x ∈ x :: f) by by left. rewrite <-Ef in Hx. apply list_elem_of_filter in Hx as [[H1 _] Hx].
  pose proof (last_time_max l Ho Hne x Hx). lia.
Qed.

(** * Requests one after the other *)

(** Evaluation reads and never writes. *)
Definition scored (e : ScoreEnv) (ctx : AbuseContext) (r : Redis) : option (list SignalFiring) := match run (evaluate e ctx) r with (Ok s, _) => Some s | (Err _, _) => None end.

Definition readonly {A} (p : SM A) : Prop := forall r, (run p r).2 = r.
Lemma readonly_bind {A B} (p : SM A) (k : A -> SM B) : readonly p -> (forall a, readonly (k a)) -> readonly (pbind k p).
Proof. intros Hp Hk r. rewrite run_pbind. specialize (Hp r). destruct (run p r) as [[a|x] r']; cbn in *; subst r'; [apply Hk|done]. Qed.
Lemma readonly_read {A} e s (f : Redis -> A) : readonly (redis_read e s f).
Proof. intros r. unfold redis_read. by destruct (sv_down e s). Qed.
Lemma readonly_when e s c p : readonly p -> readonly (when_enabled e s c p).
Proof. intros H r. unfold when_enabled. destruct (_ && _); [apply H|done]. Qed.

Lemma evaluate_readonly e ctx : readonly (evaluate e ctx).
Proof.
  unfold evaluate. repeat (apply readonly_bind; [|intros ?]); try (by intros r).
  - apply readonly_when. unfold evalCreateCancelRatio. repeat (apply readonly_bind; [apply readonly_read|intros ?]). by intros r.
  - apply readonly_when. intros r. by destruct (evalDustIntent _ _).
  - apply readonly_when. unfold evalBurstIdentical. apply readonly_bind; [apply readonly_read|]. by intros ? r.
  - apply readonly_when. by intros r.
  - apply readonly_when. unfold evalIpAsnCluster. apply readonly_bind; [apply readonly_read|]. by intros ? r.
  - destruct (ac_solverAddress ctx); [|by intros r]. apply readonly_when. unfold evalSolverSpam. apply readonly_bind; [apply readonly_read|]. by intros ? r.
Qed.

(** Steps that leave the counters alone. *)
Definition zsets_kept {A} (p : SM A) : Prop := forall r, rd_zsets (run p r).2 = rd_zsets r.
Lemma zsets_bind {A B} (p : SM A) (k : A -> SM B) : zsets_kept p -> (forall a, zsets_kept (k a)) -> zsets_kept (pbind k p).
Proof. intros Hp Hk r. rewrite run_pbind. specialize (Hp r). destruct (run p r) as [[a|x] r']; cbn in *; [by rewrite Hk|done]. Qed.
Lemma zsets_modify f : (forall r, rd_zsets (f r) = rd_zsets r) -> zsets_kept (modify f).
Proof. intros H r. apply H. Qed.

Lemma after_block_zsets e actor reply : zsets_kept (after_block e actor reply).
Proof.
  unfold after_block. apply zsets_bind; [destruct reply.2; [|done]|intros _; destruct (_ =? _)%nat; done].
  apply zsets_modify. intros r. unfold expire_block. by destruct (live_block _ _).
Qed.
Lemma persistAudit_zsets e ctx result : zsets_kept (persistAudit e ctx result).
Proof.
  unfold persistAudit. apply zsets_bind; [by destruct (sv_auditDown e)|]. intros _. case_bool_decide; [|done]. unfold trackSustainedBlocks.
  destruct (_ || _); [done|]. destruct (sv_blocksDown e); [done|]. apply zsets_bind; [done|]. intros replies. apply zsets_bind; [apply after_block_zsets|]. intros _. apply after_block_zsets.
Qed.

Lemma score_zsets e ctx allowlisted r : sv_writeDown e = false ->
  rd_zsets (run (score e ctx allowlisted) r).2 = if scored e ctx r then rd_zsets (update_counters e ctx r) else rd_zsets r.
Proof.
  intros Hw. unfold score, scored. rewrite run_pbind, run_pcatch, run_pbind. pose proof (evaluate_readonly e ctx r) as Hro.
  destruct (run (evaluate e ctx) r) as [[signals|x] r']; cbn in Hro; subst r'; [|done]. cbn [run]. unfold updateCounters. rewrite Hw.
  unfold modify. cbn [pbind run]. rewrite (zsets_bind (persistAudit e ctx _)); [done|apply persistAudit_zsets|done].
Qed.

Record Visit := { vi_env : ScoreEnv; vi_ctx : AbuseContext; vi_allowlisted : bool }.
Definition visited (r : Redis) (v : Visit) : Redis := (run (score (vi_env v) (vi_ctx v) (vi_allowlisted v)) r).2.
Definition after_visits (l : list Visit) : Redis := foldl visited empty_redis l.

(** Redis answers, and the amount is a number if the dust rule reads it. *)
Definition visit_up (v : Visit) : Prop :=
  sv_writeDown (vi_env v) = false /\ (forall s, sv_down (vi_env v) s = false) /\ is_ok (evalDustIntent (sv_rules (vi_env v)) (vi_ctx v)) = true.

Lemma run_when e s c p r : (forall r, exists x, run p r = (Ok x, r)) -> exists x, run (when_enabled e s c p) r = (Ok x, r).
Proof. intros Hp. unfold when_enabled. destruct (_ && _); [apply Hp|by eexists]. Qed.

Lemma up_scored v r : visit_up v -> exists signals, scored (vi_env v) (vi_ctx v) r = Some signals.
Proof.
  intros (_ & Hup & Hdust). set (e := vi_env v) in *. set (ctx := vi_ctx v) in *. unfold scored. enough (H : exists s, run (evaluate e ctx) r = (Ok s, r)) by (destruct H as [s ->]; by eexists).
  assert (Hread : forall A s (f : Redis -> A) r, run (redis_read e s f) r = (Ok (f r), r)) by (intros A s f r'; unfold redis_read; by rewrite Hup).
  unfold evaluate. rewrite run_pbind. edestruct run_when as [s1 ->]; [intros r'; unfold evalCreateCancelRatio; rewrite run_pbind, Hread, run_pbind, Hread; by eexists|].
  rewrite run_pbind. edestruct run_when as [s2 ->]; [intros r'; destruct (evalDustIntent _ _); [by eexists|done]|].
  rewrite run_pbind. edestruct run_when as [s3 ->]; [intros r'; unfold evalBurstIdentical; rewrite run_pbind, Hread; by eexists|].
  rewrite run_pbind. edestruct run_when as [s4 ->]; [intros r'; by eexists|].
  rewrite run_pbind. edestruct run_when as [s5 ->]; [intros r'; unfold evalIpAsnCluster; rewrite run_pbind, Hread; by eexists|].
  rewrite run_pbind. destruct (ac_solverAddress ctx) as [solver|]; [|by eexists].
  edestruct run_when as [s6 ->]; [intros r'; unfold evalSolverSpam; rewrite run_pbind, Hread; by eexists|]. by eexists.
Qed.

Definition jitter (v : Visit) : string := toString (sv_now (vi_env v)) +:+ ":" +:+ sv_random (vi_env v).
Definition same_intent (user fp : string) (v : Visit) : bool :=
  bool_decide (ac_operation (vi_ctx v) = op_create) && bool_decide (ac_userAddress (vi_ctx v) = user) && bool_decide (ac_intentFingerprint (vi_ctx v) = fp).
(** When the same intent was created before, and the member each time added. *)
Definition fp_entries (user fp : string) (l : list Visit) : list (Z * string) :=
  omap (fun v => if same_intent user fp v then Some (sv_now (vi_env v), jitter v) else None) l.

Lemma hit_eq key now w m r : rd_zsets (hit key now w m r) key = push now w m (live now (rd_zsets r key)).
Proof. unfold hit, put_zset. cbn [rd_zsets]. by rewrite decide_True. Qed.
Lemma hit_ne key key' now w m r : key' <> key -> rd_zsets (hit key now w m r) key' = rd_zsets r key'.
Proof. intros H. unfold hit, put_zset. cbn [rd_zsets]. by rewrite decide_False. Qed.

Lemma update_counters_fp v r user fp : rd_zsets (update_counters (vi_env v) (vi_ctx v) r) (k_fp user fp) =
  if same_intent user fp v then push (sv_now (vi_env v)) (window (sv_writeRules (vi_env v)) burst_identical) (jitter v) (live (sv_now (vi_env v)) (rd_zsets r (k_fp user fp)))
  else rd_zsets r (k_fp user fp).
Proof.
  unfold update_counters, same_intent, jitter. set (e := vi_env v). set (ctx := vi_ctx v). destruct (decide (ac_operation ctx = op_create)) as [Hc|Hc].
  - rewrite !(bool_decide_eq_true_2 _ Hc), (bool_decide_eq_false_2 (ac_operation ctx = op_accept)) by congruence. cbn [andb].
    assert (Hm : forall r' : Redis, match ac_solverAddress ctx with Some _ => r' | None => r' end = r') by (intros r'; by destruct (ac_solverAddress ctx)). rewrite Hm.
    rewrite hit_ne by done. destruct (decide (k_fp user fp = k_fp (ac_userAddress ctx) (ac_intentFingerprint ctx))) as [Heq|Hne].
    + rewrite Heq at 1. rewrite hit_eq, hit_ne by done. injection Heq as <- <-. by rewrite !bool_decide_eq_true_2.
    + rewrite !hit_ne by done. destruct (decide (ac_userAddress ctx = user)) as [Hu|Hu]; [|by rewrite (bool_decide_eq_false_2 _ Hu)].
      rewrite (bool_decide_eq_true_2 _ Hu), bool_decide_eq_false_2; [done|]. intros Hf. apply Hne. congruence.
  - rewrite !(bool_decide_eq_false_2 _ Hc). cbn [andb]. destruct (ac_solverAddress ctx); [|done]. destruct (_ && _); [by rewrite hit_ne|done].
Qed.

Lemma fp_counter w user fp l : Forall (fun v => visit_up v /\ window (sv_writeRules (vi_env v)) burst_identical = of_Z w) l ->
  rd_zsets (after_visits l) (k_fp user fp) = pushes w (fp_entries user fp l).
Proof.
  induction l as [|v l IH] using rev_ind; intros H; [done|]. apply Forall_app in H as [Hl [[Hup Hw] _]%Forall_cons]. specialize (IH Hl).
  unfold after_visits. rewrite foldl_snoc. fold (after_visits l). unfold visited. rewrite score_zsets by apply Hup.
  destruct (up_scored v (after_visits l) Hup) as [signals ->]. rewrite update_counters_fp, IH, Hw. unfold fp_entries. rewrite omap_app. cbn [omap list_omap].
  destruct (same_intent user fp v); [|by rewrite app_nil_r]. unfold pushes. rewrite foldl_snoc. done.
Qed.

(** The burst rule counts what it says: after any requests in order of time, with
    Redis up and a window of [w] whole seconds, it fires for a request exactly
    when at least [maxCount] earlier creations by the same user had the same
    parameters and lie in the last [w] seconds.  (One that is exactly [w] seconds
    old has been dropped if another came in this very second.) *)
Theorem burst_rule_exact w l e ctx : let entries := fp_entries (ac_userAddress ctx) (ac_intentFingerprint ctx) l in
  0 < w -> Forall (fun v => visit_up v /\ window (sv_writeRules (vi_env v)) burst_identical = of_Z w) l ->
  sv_down e burst_identical = false -> window (sv_rules e) burst_identical = of_Z w ->
  in_order entries -> (entries <> [] -> last_time entries <= sv_now e) ->
  run (evalBurstIdentical e ctx) (after_visits l) =
  (Ok (firing (sv_rules e) burst_identical
         (q_le (rule_num (sv_rules e) burst_identical "maxCount")
               (n_of (length (filter (fun tm => sv_now e - w <= tm.1 /\ last_time entries - w < tm.1) entries))))), after_visits l).
Proof.
  intros entries Hw Hl Hup Hwin Ho Hle. unfold evalBurstIdentical, redis_read. rewrite Hup, run_pbind, run_reads, Hwin. unfold zset_at. rewrite (fp_counter w) by done.
  fold entries. rewrite window_count by done. cbn [run]. unfold q_lt. by rewrite negb_involutive.
Qed.

Definition answers {A} (p : SM A) : Prop := forall r, exists a r', run p r = (Ok a, r').
Lemma answers_bind {A B} (p : SM A) (k : A -> SM B) : answers p -> (forall a, answers (k a)) -> answers (pbind k p).
Proof. intros Hp Hk r. rewrite run_pbind. destruct (Hp r) as (a & r' & ->). apply Hk. Qed.
Lemma answers_if {A} (b : bool) (p q : SM A) : answers p -> answers q -> answers (if b then p else q).
Proof. by destruct b. Qed.
Lemma answers_done {A} (a : A) : answers (Done a).
Proof. intros r. by do 2 eexists. Qed.
Lemma answers_modify f : answers (modify f).
Proof. intros r. by do 2 eexists. Qed.
Lemma answers_reads {A} (f : Redis -> A) : answers (reads f).
Proof. intros r. by do 2 eexists. Qed.
Create HintDb answers.
#[local] Hint Resolve answers_bind answers_if answers_done answers_modify answers_reads : answers.

Lemma after_block_answers e actor reply : answers (after_block e actor reply).
Proof. unfold after_block. auto with answers. Qed.
#[local] Hint Resolve after_block_answers : answers.
Lemma persistAudit_answers e ctx result : answers (persistAudit e ctx result).
Proof.
  unfold persistAudit, trackSustainedBlocks. apply answers_bind; [auto with answers|]. intros _. apply answers_if; [|auto with answers].
  do 2 (apply answers_if; [auto with answers|]). apply answers_bind; [intros r; by do 2 eexists|]. auto with answers.
Qed.

Lemma run_score e ctx allowlisted r : (run (score e ctx allowlisted) r).1 =
  Ok (match scored e ctx r with Some signals => result_of ctx allowlisted signals | None => failed_open allowlisted end).
Proof.
  unfold score, scored. rewrite run_pbind, run_pcatch, run_pbind. destruct (run (evaluate e ctx) r) as [[signals|x] r']; [|done]. cbn [run].
  rewrite run_pbind. unfold updateCounters. destruct (answers_if (sv_writeDown e) (Done tt) (modify (update_counters e ctx)) (answers_done tt) (answers_modify _) r')
    as (u & r2 & ->). rewrite run_pbind. destruct (persistAudit_answers e ctx (result_of ctx allowlisted signals) r2) as (u' & r3 & ->). done.
Qed.

Lemma getAccountAgeSeconds_answers a id : answers (getAccountAgeSeconds a id).
Proof.
  unfold getAccountAgeSeconds. destruct id as [id|]; [|auto with answers]. set (miss := match lookupCreation _ with Ok _ => _ | Err _ => _ end).
  assert (Hmiss : answers miss) by (subst miss; destruct (lookupCreation _) as [[]|]; auto with answers).
  apply answers_bind; [auto with answers|]. intros [v|]; [|done]. case_bool_decide; [auto with answers|]. destruct (Number v); auto with answers.
Qed.
Lemma resolveAccountAge_answers g q op : answers (resolveAccountAge g q op).
Proof.
  unfold resolveAccountAge. destruct (gd_age g); [|auto with answers]. destruct (nonempty (rq_user q)); [|auto with answers].
  apply answers_if; [apply getAccountAgeSeconds_answers|auto with answers].
Qed.

(** The guard answers every request, and its answer follows the ladder: without a
    score it allows, an allowlisted caller is allowed, and otherwise the sum of
    the weights of the rules that fired decides. *)
Theorem guard_follows_ladder sha256 g q r : exists age r', let allowlisted := isAllowlisted sha256 (gd_env g) (gd_db g) (check_opts q) in
  (run (resolveAccountAge g q (resolveOperation q)) r) = (Ok age, r') /\
  (run (canActivate sha256 g q) r).1 =
  Ok (match scored (gd_score g) (context_of q age) r' with
      | Some signals => if allowlisted then allowed else enforce sha256 g q (actionFromScore (sum_weights signals))
      | None => allowed
      end).
Proof.
  destruct (resolveAccountAge_answers g q (resolveOperation q) r) as (age & r' & Hage). exists age, r'. cbn zeta. split; [done|].
  unfold canActivate. rewrite run_pbind, Hage, run_pbind. pose proof (run_score (gd_score g) (context_of q age) (isAllowlisted sha256 (gd_env g) (gd_db g) (check_opts q)) r') as Hs.
  destruct (run (score _ _ _) r') as [o r2]. cbn [fst] in Hs. subst o. cbn [run fst]. f_equal. destruct (scored _ _ _); [|done]. cbn [result_of as_action].
  by destruct (isAllowlisted _ _ _ _).
Qed.

(** A cached creation time ages: until it expires, a later check answers the age
    at that later time, whatever Horizon would say. *)
Theorem cached_age_keeps_growing a1 a2 id createdAt r : cached_age id (ag_now a1) r = None ->
  lookupCreation (ag_horizon a1) = Ok (created createdAt) -> ag_storeUp a1 = true -> ag_cacheUp a2 = true -> ag_now a2 < ag_now a1 + ag_ttl a1 ->
  (run (getAccountAgeSeconds a2 (Some id)) (run (getAccountAgeSeconds a1 (Some id)) r).2).1 = Ok (Some (max0 (of_Z (ag_now a2) - of_Z createdAt)%Qc)).
Proof.
  intros Hmiss Hlook Hstore Hup Hlt. assert (Hnone : toString createdAt <> NOT_FOUND).
  { intros H. pose proof (Number_toString createdAt) as Hn. rewrite H in Hn. vm_compute in Hn. done. }
  unfold getAccountAgeSeconds. cbn zeta. rewrite !run_pbind, Hup, run_reads. assert (Hrun : run (if ag_cacheUp a1 then reads (cached_age id (ag_now a1)) else Done None : SM (option string)) r = (Ok None, r)).
  { destruct (ag_cacheUp a1); [|done]. rewrite run_reads. by rewrite Hmiss. }
  rewrite Hrun, Hlook, Hstore. cbn [modify pbind run snd]. unfold cached_age, put_age. cbn [rd_ages]. rewrite get_set_eq.
  destruct (_ <=? _) eqn:E; [lia|]. rewrite bool_decide_eq_false_2 by done. by rewrite Number_toString.
Qed.

(** * Runs *)

Definition calm : ScoreEnv :=
  {| sv_now := 1000; sv_rules := DEFAULT_ABUSE_RULES; sv_writeRules := DEFAULT_ABUSE_RULES; sv_down := fun _ => false; sv_writeDown := false; sv_auditDown := false;
     sv_blocksDown := false; sv_random := "r"; sv_timestamp := 0; sv_blockThreshold := 5; sv_blockWindow := 600 |}.
Definition at_time (now : Z) (random : string) : ScoreEnv :=
  {| sv_now := now; sv_rules := DEFAULT_ABUSE_RULES; sv_writeRules := DEFAULT_ABUSE_RULES; sv_down := fun _ => false; sv_writeDown := false; sv_auditDown := false;
     sv_blocksDown := false; sv_random := random; sv_timestamp := 0; sv_blockThreshold := 5; sv_blockWindow := 600 |}.
Definition creating (user ip : string) : AbuseContext :=
  {| ac_userAddress := user; ac_solverAddress := None; ac_clientIp := ip; ac_srcAmount := "1000000"; ac_srcTokenPriceUsd := None; ac_srcTokenDecimals := None;
     ac_intentFingerprint := "fp"; ac_accountAgeSeconds := None; ac_operation := op_create |}.
Definition visit (now : Z) (random user ip : string) : Visit := {| vi_env := at_time now random; vi_ctx := creating user ip; vi_allowlisted := false |}.
Definition burst : list Visit := [visit 960 "a" "u" "1.1.1.1"; visit 971 "b" "u" "1.1.1.1"; visit 985 "c" "u" "1.1.1.1"; visit 990 "d" "u" "1.1.1.1"].

Lemma burst_up : Forall (fun v => visit_up v /\ window (sv_writeRules (vi_env v)) burst_identical = of_Z 30) burst.
Proof. repeat (constructor; [by repeat split|]). constructor. Qed.
Lemma burst_in_order : in_order (fp_entries "u" "fp" burst).
Proof. split; [|by apply (bool_decide_unpack _); vm_compute]. vm_compute. repeat (constructor; [|repeat (constructor; [done|]); constructor]). constructor. Qed.

(** Three of the four creations lie in the last thirty seconds. *)
Lemma burst_rule_exact_witness :
  run (evalBurstIdentical calm (creating "u" "1.1.1.1")) (after_visits burst) = (Ok (Some {| sf_signal := burst_identical; sf_weight := of_Z 35 |}), after_visits burst).
Proof.
  rewrite (burst_rule_exact 30 burst calm (creating "u" "1.1.1.1")); [vm_compute; reflexivity|done|exact burst_up|reflexivity|reflexivity|exact burst_in_order|].
  intros _. vm_compute. discriminate.
Defined.

Definition no_captcha : CaptchaEnv := {| cp_provider := ""; cp_secret := ""; cp_answer := fun _ => Err tt |}.
Definition guard_at (env : string) (difficulty : option string) : GuardEnv :=
  {| gd_score := calm; gd_age := None; gd_accountId := fun _ => None; gd_env := parseEnv (fun x => x) env; gd_db := EMPTY_SETS; gd_captcha := no_captcha; gd_difficulty := difficulty |}.
Definition post_intent (forwarded pow : option string) : Request :=
  {| rq_user := Some "u"; rq_actor := None; rq_solver := None; rq_forwarded := forwarded; rq_ip := Some "1.1.1.1"; rq_remoteAddress := None; rq_path := "/intents"; rq_method := "POST";
     rq_apiKey := None; rq_authorization := None; rq_srcAmount := Some "1000000"; rq_priceUSD := None; rq_decimals := None; rq_fingerprint := "fp"; rq_pow := pow; rq_captcha := None |}.
Definition guard_says (g : GuardEnv) (q : Request) (r : Redis) : option GuardVerdict := match (run (canActivate (fun x => x) g q) r).1 with Ok v => Some v | Err _ => None end.

(** The client address is the first entry of a header the client writes: one
    that names an allowlisted address passes whatever its score. *)
Theorem forged_header_is_allowlisted : let g := guard_at "10.0.0.1" None in
  guard_says g (post_intent None None) (after_visits burst) = Some (precondition_required false) /\
  guard_says g (post_intent (Some "10.0.0.1") None) (after_visits burst) = Some allowed.
Proof. split; vm_compute; reflexivity. Qed.

(** A difficulty that is not a number asks for no work: any nonce passes. *)
Theorem unreadable_difficulty_accepts_any_nonce sha256 nonce : nonce <> "" -> verifyPow sha256 (Some "four") (Some nonce) = Ok true /\ verifyPow sha256 (Some "") (Some nonce) = Ok true.
Proof. intros H. unfold verifyPow. rewrite bool_decide_eq_false_2 by done. split; reflexivity. Qed.

(** An amount [BigInt] refuses ends the evaluation: with a price in the body, none
    of the other rules is applied and nothing is counted. *)
Theorem malformed_amount_fails_open : let ctx := {|
    ac_userAddress := "u"; ac_solverAddress := None; ac_clientIp := "1.1.1.1"; ac_srcAmount := "1.5"; ac_srcTokenPriceUsd := Some (of_Z 1); ac_srcTokenDecimals := None;
    ac_intentFingerprint := "fp"; ac_accountAgeSeconds := None; ac_operation := op_create |} in
  (run (score calm ctx false) (after_visits burst)).1 = Ok (failed_open false).
Proof. vm_compute. reflexivity. Qed.

(** Ten accepts in two minutes are reported as ten accept and cancel cycles,
    although nothing was cancelled. *)
Definition accepting (n : nat) : Visit :=
  {| vi_env := at_time (Z.of_nat n) "r"; vi_ctx := {| ac_userAddress := "u"; ac_solverAddress := Some "s"; ac_clientIp := "1.1.1.1"; ac_srcAmount := "0"; ac_srcTokenPriceUsd := None;
     ac_srcTokenDecimals := None; ac_intentFingerprint := "fp"; ac_accountAgeSeconds := None; ac_operation := op_accept |}; vi_allowlisted := false |}.
Theorem accepts_alone_are_spam : match run (evaluate (at_time 20 "r") (vi_ctx (accepting 20))) (after_visits (accepting <$> seq 0 10)) with
  | (Ok signals, _) => sf_signal <$> signals = [solver_spam] | (Err _, _) => False end.
Proof. vm_compute. reflexivity. Qed.
