(* ===== verification/Griefing.v ===== *)
(** Anti-griefing enforcement (solvers/solver-griefing.service.ts,
    solvers/solver-griefing.types.ts).

    One record per solver: a window of accepts and unfilled accepts, and a state
    that escalates with their ratio.  Every operation is synchronous.  Ratios are
    exact rationals, and the reason of a transition is the threshold it names. *)
From S2P Require Import Prelude JsMap BigInt JsNumber.
From stdpp Require Import relations.
Local Open Scope string_scope.
Local Open Scope list_scope.
Local Open Scope Z_scope.

Record GriefingWindow := { gw_startedAt : Z; gw_accepts : nat; gw_unfilled : nat }.

Inductive GriefingState := gs_ok | gs_cooldown | gs_reduced_concurrency | gs_suspended.
#[export] Instance GriefingState_eq : EqDecision GriefingState.
Proof. solve_decision. Defined.

Record SolverGriefingRecord := {
  sg_solverAddress : string; sg_state : GriefingState; sg_cooldownUntil : option Qc; sg_concurrencyLimit : option Qc; sg_windows : list GriefingWindow;
  sg_escalationCount : nat; sg_lastEscalatedAt : option Z; sg_excludedIntentIds : list string;
}.

Inductive GriefingReason := cooldown_expired | ratio_reached (threshold : Qc).
Inductive GriefingEvent :=
  | window_started
  | accept_recorded (intentId : string) (ratio : Qc)
  | unfilled_recorded (intentId : string) (ratio : Qc)
  | state_changed (fromState toState : GriefingState) (ratio : Qc) (reason : GriefingReason)
  | incident_excluded (intentId : string) (operator : option string)
  | solver_reset (fromState : GriefingState) (operator : option string).
Record GriefingAuditEntry := { ga_timestamp : Z; ga_solverAddress : string; ga_event : GriefingEvent }.

Record GriefingConfig := {
  gc_windowSeconds : Qc; gc_minAcceptsForRatio : Qc; gc_cooldownThreshold : Qc; gc_reducedConcurrencyThreshold : Qc; gc_suspensionThreshold : Qc;
  gc_cooldownDurationSeconds : Qc; gc_reducedConcurrencyLimit : Qc;
}.
Definition DEFAULT_GRIEFING_CONFIG : GriefingConfig := {|
  gc_windowSeconds := of_Z 3600; gc_minAcceptsForRatio := of_Z 5; gc_cooldownThreshold := Q2Qc (3 # 10); gc_reducedConcurrencyThreshold := Q2Qc (1 # 2);
  gc_suspensionThreshold := Q2Qc (7 # 10); gc_cooldownDurationSeconds := of_Z 300; gc_reducedConcurrencyLimit := of_Z 1 |}.

Definition env_num (raw : option string) (def : Qc) : Qc :=
  match raw with
  | None => def
  | Some raw => if bool_decide (trim raw = "") then def else match Number raw with Fin q => if q_le (of_Z 0) q then q else def | _ => def end
  end.
Definition loadGriefingConfig (env : string -> option string) : GriefingConfig :=
  let d := DEFAULT_GRIEFING_CONFIG in {|
  gc_windowSeconds := env_num (env "GRIEFING_WINDOW_SECONDS") (gc_windowSeconds d);
  gc_minAcceptsForRatio := env_num (env "GRIEFING_MIN_ACCEPTS") (gc_minAcceptsForRatio d);
  gc_cooldownThreshold := env_num (env "GRIEFING_COOLDOWN_THRESHOLD") (gc_cooldownThreshold d);
  gc_reducedConcurrencyThreshold := env_num (env "GRIEFING_REDUCED_CONCURRENCY_THRESHOLD") (gc_reducedConcurrencyThreshold d);
  gc_suspensionThreshold := env_num (env "GRIEFING_SUSPENSION_THRESHOLD") (gc_suspensionThreshold d);
  gc_cooldownDurationSeconds := env_num (env "GRIEFING_COOLDOWN_DURATION_SECONDS") (gc_cooldownDurationSeconds d);
  gc_reducedConcurrencyLimit := env_num (env "GRIEFING_REDUCED_CONCURRENCY_LIMIT") (gc_reducedConcurrencyLimit d) |}.

(** The multiplier of the reputation score. *)
Definition GRIEFING_REPUTATION_MULTIPLIERS (s : GriefingState) : Qc :=
  match s with gs_ok => of_Z 1 | gs_cooldown => Q2Qc (8 # 10) | gs_reduced_concurrency => Q2Qc (1 # 2) | gs_suspended => of_Z 0 end.

Record Griefing := { gf_records : jsmap SolverGriefingRecord; gf_auditLog : list GriefingAuditEntry }.
Definition no_griefing : Griefing := {| gf_records := []; gf_auditLog := [] |}.

Definition AUDIT_CAP : nat := 10000.
Definition appendAudit (e : GriefingAuditEntry) (log : list GriefingAuditEntry) : list GriefingAuditEntry :=
  let log := log ++ [e] in if (AUDIT_CAP <? length log)%nat then drop (length log - AUDIT_CAP) log else log.

(** A record under change, with the log. *)
Definition Draft : Type := SolverGriefingRecord * list GriefingAuditEntry.
Definition logged (now : Z) (ev : GriefingEvent) (d : Draft) : Draft :=
  (d.1, appendAudit {| ga_timestamp := now; ga_solverAddress := sg_solverAddress d.1; ga_event := ev |} d.2).

Definition new_record (solver : string) : SolverGriefingRecord :=
  {| sg_solverAddress := solver; sg_state := gs_ok; sg_cooldownUntil := None; sg_concurrencyLimit := None; sg_windows := []; sg_escalationCount := O;
     sg_lastEscalatedAt := None; sg_excludedIntentIds := [] |}.
Definition getOrCreate (solver : string) (g : Griefing) : Draft := (default (new_record solver) (get solver (gf_records g)), gf_auditLog g).
Definition saved (solver : string) (d : Draft) (g : Griefing) : Griefing := {| gf_records := set solver d.1 (gf_records g); gf_auditLog := d.2 |}.

Definition put_windows (ws : list GriefingWindow) (r : SolverGriefingRecord) : SolverGriefingRecord :=
  {| sg_solverAddress := sg_solverAddress r; sg_state := sg_state r; sg_cooldownUntil := sg_cooldownUntil r; sg_concurrencyLimit := sg_concurrencyLimit r; sg_windows := ws;
     sg_escalationCount := sg_escalationCount r; sg_lastEscalatedAt := sg_lastEscalatedAt r; sg_excludedIntentIds := sg_excludedIntentIds r |}.
Definition put_excluded (ids : list string) (r : SolverGriefingRecord) : SolverGriefingRecord :=
  {| sg_solverAddress := sg_solverAddress r; sg_state := sg_state r; sg_cooldownUntil := sg_cooldownUntil r; sg_concurrencyLimit := sg_concurrencyLimit r; sg_windows := sg_windows r;
     sg_escalationCount := sg_escalationCount r; sg_lastEscalatedAt := sg_lastEscalatedAt r; sg_excludedIntentIds := ids |}.

Definition total_accepts (r : SolverGriefingRecord) : nat := sum_list (gw_accepts <$> sg_windows r).
Definition total_unfilled (r : SolverGriefingRecord) : nat := sum_list (gw_unfilled <$> sg_windows r).
Definition of_nat (n : nat) : Qc := of_Z (Z.of_nat n).
Definition currentRatio (r : SolverGriefingRecord) : Qc := if (total_accepts r =? 0)%nat then of_Z 0 else (of_nat (total_unfilled r) / of_nat (total_accepts r))%Qc.

Section config.
Variable cfg : GriefingConfig.

Definition ensureActiveWindow (now : Z) (d : Draft) : Draft :=
  let windowExpiry := (of_Z now - gc_windowSeconds cfg)%Qc in
  let kept := filter (fun w => q_le windowExpiry (of_Z (gw_startedAt w)) = true) (sg_windows d.1) in
  let d := (put_windows kept d.1, d.2) in
  match kept with
  | w :: _ => if q_lt (of_Z (gw_startedAt w)) windowExpiry
              then logged now window_started (put_windows ({| gw_startedAt := now; gw_accepts := O; gw_unfilled := O |} :: kept) d.1, d.2) else d
  | [] => logged now window_started (put_windows [{| gw_startedAt := now; gw_accepts := O; gw_unfilled := O |}] d.1, d.2)
  end.

Definition moved (toState : GriefingState) (now : Z) (r : SolverGriefingRecord) : SolverGriefingRecord :=
  let escalates := bool_decide (toState <> gs_ok) in
  {| sg_solverAddress := sg_solverAddress r; sg_state := toState;
     sg_cooldownUntil := if bool_decide (toState = gs_cooldown) then Some (of_Z now + gc_cooldownDurationSeconds cfg)%Qc else None;
     sg_concurrencyLimit := if bool_decide (toState = gs_reduced_concurrency) then Some (gc_reducedConcurrencyLimit cfg) else None;
     sg_windows := sg_windows r; sg_escalationCount := if escalates then S (sg_escalationCount r) else sg_escalationCount r;
     sg_lastEscalatedAt := if escalates then Some now else sg_lastEscalatedAt r; sg_excludedIntentIds := sg_excludedIntentIds r |}.
Definition transitionState (toState : GriefingState) (now : Z) (reason : GriefingReason) (d : Draft) : Draft :=
  logged now (state_changed (sg_state d.1) toState (currentRatio (moved toState now d.1)) reason) (moved toState now d.1, d.2).

Definition evaluateAndEscalate (ratio : Qc) (now : Z) (d : Draft) : Draft :=
  let st := sg_state d.1 in
  if q_lt (of_nat (total_accepts d.1)) (gc_minAcceptsForRatio cfg) then d
  else if q_le (gc_suspensionThreshold cfg) ratio && bool_decide (st <> gs_suspended) then transitionState gs_suspended now (ratio_reached (gc_suspensionThreshold cfg)) d
  else if q_le (gc_reducedConcurrencyThreshold cfg) ratio && bool_decide (st <> gs_suspended) && bool_decide (st <> gs_reduced_concurrency)
    then transitionState gs_reduced_concurrency now (ratio_reached (gc_reducedConcurrencyThreshold cfg)) d
  else if q_le (gc_cooldownThreshold cfg) ratio && bool_decide (st = gs_ok) then transitionState gs_cooldown now (ratio_reached (gc_cooldownThreshold cfg)) d
  else d.

(** * Operations *)

Inductive Refusal := refused_suspended | refused_cooldown (remaining : Qc) | refused_concurrency (limit : Qc).

Definition checkAcceptAllowed (solver : string) (currentOpenAccepts : Z) (now : Z) (g : Griefing) : option Refusal * Griefing :=
  let d := getOrCreate solver g in
  match sg_state d.1 with
  | gs_suspended => (Some refused_suspended, saved solver d g)
  | gs_cooldown =>
      match sg_cooldownUntil d.1 with
      | Some until => if q_lt (of_Z now) until then (Some (refused_cooldown (until - of_Z now)%Qc), saved solver d g)
                      else (None, saved solver (transitionState gs_ok now cooldown_expired d) g)
      | None => (None, saved solver (transitionState gs_ok now cooldown_expired d) g)
      end
  | gs_reduced_concurrency =>
      let limit := default (gc_reducedConcurrencyLimit cfg) (sg_concurrencyLimit d.1) in
      (if q_le limit (of_Z currentOpenAccepts) then Some (refused_concurrency limit) else None, saved solver d g)
  | gs_ok => (None, saved solver d g)
  end.

Definition count_in_window (f : GriefingWindow -> GriefingWindow) (r : SolverGriefingRecord) : SolverGriefingRecord :=
  match sg_windows r with w :: ws => put_windows (f w :: ws) r | [] => r end.
Definition one_accept (w : GriefingWindow) : GriefingWindow := {| gw_startedAt := gw_startedAt w; gw_accepts := S (gw_accepts w); gw_unfilled := gw_unfilled w |}.
Definition one_unfilled (w : GriefingWindow) : GriefingWindow := {| gw_startedAt := gw_startedAt w; gw_accepts := gw_accepts w; gw_unfilled := S (gw_unfilled w) |}.

Definition recordAccept (solver intentId : string) (now : Z) (g : Griefing) : Griefing :=
  let d := ensureActiveWindow now (getOrCreate solver g) in
  let r := count_in_window one_accept d.1 in
  saved solver (logged now (accept_recorded intentId (currentRatio r)) (r, d.2)) g.

Definition recordUnfilled (solver intentId : string) (now : Z) (g : Griefing) : Griefing :=
  let d := getOrCreate solver g in
  if bool_decide (intentId ∈ sg_excludedIntentIds d.1) then saved solver d g
  else
    let d := ensureActiveWindow now d in
    let r := count_in_window one_unfilled d.1 in
    let ratio := currentRatio r in
    saved solver (evaluateAndEscalate ratio now (logged now (unfilled_recorded intentId ratio) (r, d.2))) g.

(** The first window with an unfilled accept loses one. *)
Fixpoint undo_unfilled (ws : list GriefingWindow) : list GriefingWindow :=
  match ws with
  | [] => []
  | w :: ws => if (0 <? gw_unfilled w)%nat then {| gw_startedAt := gw_startedAt w; gw_accepts := gw_accepts w; gw_unfilled := pred (gw_unfilled w) |} :: ws else w :: undo_unfilled ws
  end.
Definition excludeIncident (solver intentId : string) (operator : option string) (now : Z) (g : Griefing) : Griefing :=
  let d := getOrCreate solver g in
  let ids := sg_excludedIntentIds d.1 in
  let r := put_excluded (if bool_decide (intentId ∈ ids) then ids else ids ++ [intentId]) d.1 in
  let r := put_windows (undo_unfilled (sg_windows r)) r in
  saved solver (evaluateAndEscalate (currentRatio r) now (logged now (incident_excluded intentId operator) (r, d.2))) g.

Definition resetSolver (solver : string) (operator : option string) (now : Z) (g : Griefing) : Griefing :=
  let d := getOrCreate solver g in
  let r := {| sg_solverAddress := sg_solverAddress d.1; sg_state := gs_ok; sg_cooldownUntil := None; sg_concurrencyLimit := None; sg_windows := []; sg_escalationCount := O;
              sg_lastEscalatedAt := None; sg_excludedIntentIds := sg_excludedIntentIds d.1 |} in
  saved solver (logged now (solver_reset (sg_state d.1) operator) (r, d.2)) g.

Definition getCurrentRatio (solver : string) (g : Griefing) : Qc := match get solver (gf_records g) with Some r => currentRatio r | None => of_Z 0 end.
Definition getAuditLog (solver : option string) (g : Griefing) : list GriefingAuditEntry :=
  match solver with Some s => if bool_decide (s = "") then gf_auditLog g else filter (fun e => ga_solverAddress e = s) (gf_auditLog g) | None => gf_auditLog g end.
Definition getEnforcedSolvers (g : Griefing) : list (string * GriefingState * Qc * nat) :=
  (fun r => (sg_solverAddress r, sg_state r, currentRatio r, sg_escalationCount r)) <$> filter (fun r => sg_state r <> gs_ok) (values (gf_records g)).

(** * Runs of operations *)

Inductive GriefingOp :=
  | do_check (solver : string) (openAccepts now : Z)
  | do_accept (solver intentId : string) (now : Z)
  | do_unfilled (solver intentId : string) (now : Z)
  | do_exclude (solver intentId : string) (operator : option string) (now : Z)
  | do_reset (solver : string) (operator : option string) (now : Z).
Definition op_solver (op : GriefingOp) : string :=
  match op with do_check s _ _ | do_accept s _ _ | do_unfilled s _ _ | do_exclude s _ _ _ | do_reset s _ _ => s end.
Definition gstep (g : Griefing) (op : GriefingOp) : Griefing :=
  match op with
  | do_check s n now => (checkAcceptAllowed s n now g).2
  | do_accept s id now => recordAccept s id now g
  | do_unfilled s id now => recordUnfilled s id now g
  | do_exclude s id operator now => excludeIncident s id operator now g
  | do_reset s operator now => resetSolver s operator now g
  end.

Definition state_of (solver : string) (g : Griefing) : GriefingState := sg_state (getOrCreate solver g).1.

(** Every operation saves one record, the one of its solver. *)
Lemma gstep_saves op g : exists d, gstep g op = saved (op_solver op) d g.
Proof.
  destruct op as [s n now|s id now|s id now|s id operator now|s operator now]; cbn [gstep op_solver].
  - unfold checkAcceptAllowed. destruct (sg_state _); [|destruct (sg_cooldownUntil _); [destruct (q_lt _ _)|]| |]; by eexists.
  - by eexists.
  - unfold recordUnfilled. case_bool_decide; by eexists.
  - by eexists.
  - by eexists.
Qed.

Lemma getOrCreate_saved s s' d g : (getOrCreate s (saved s' d g)).1 = if decide (s' = s) then d.1 else (getOrCreate s g).1.
Proof. unfold getOrCreate, saved. cbn [gf_records fst]. rewrite get_set. by destruct (decide _). Qed.

Lemma other_solver_untouched op g s : op_solver op <> s -> (getOrCreate s (gstep g op)).1 = (getOrCreate s g).1.
Proof. intros H. destruct (gstep_saves op g) as [d ->]. rewrite getOrCreate_saved. by destruct (decide _). Qed.

(** The parts of a draft an operation goes through. *)
Section invariant.
Variables (P : SolverGriefingRecord -> Prop).
Hypothesis P_windows : forall r now, P r -> P (ensureActiveWindow now (r, [])).1.
Hypothesis P_moved : forall r st now, P r -> P (moved st now r).
Hypothesis P_count : forall r f, P r -> P (count_in_window f r).
Hypothesis P_excluded : forall r ids, P r -> P (put_excluded ids r).
Hypothesis P_undo : forall r, P r -> P (put_windows (undo_unfilled (sg_windows r)) r).
Hypothesis P_new : forall s, P (new_record s).

Lemma ensure_rec now d : (ensureActiveWindow now d).1 = (ensureActiveWindow now (d.1, [])).1.
Proof. unfold ensureActiveWindow. cbn [fst]. destruct (filter _ _); [done|]. by destruct (q_lt _ _). Qed.

Lemma evaluate_rec ratio now d : P d.1 -> P (evaluateAndEscalate ratio now d).1.
Proof.
  intros H. unfold evaluateAndEscalate. destruct (q_lt _ _); [done|]. destruct (_ && _); [by apply P_moved|]. destruct (_ && _); [by apply P_moved|].
  destruct (_ && _); [by apply P_moved|done].
Qed.

Lemma getOrCreate_rec s g : (forall r, get s (gf_records g) = Some r -> P r) -> P (getOrCreate s g).1.
Proof. intros H. unfold getOrCreate. cbn [fst]. destruct (get s (gf_records g)); [by apply H|apply P_new]. Qed.

Lemma gstep_rec op g : (forall s r, get s (gf_records g) = Some r -> P r) ->
  (forall s operator now, op = do_reset s operator now -> P (getOrCreate s (gstep g op)).1) -> forall s r, get s (gf_records (gstep g op)) = Some r -> P r.
Proof.
  intros Hg Hreset s r Hr. destruct (decide (op_solver op = s)) as [<-|Hne].
  2:{ destruct (gstep_saves op g) as [d Hd]. rewrite Hd in Hr. unfold saved in Hr. cbn [gf_records] in Hr. rewrite get_set_ne in Hr by done. by eapply Hg. }
  assert (Hdraft : P (getOrCreate (op_solver op) (gstep g op)).1); [|unfold getOrCreate in Hdraft; by rewrite Hr in Hdraft].
  clear Hr. pose proof (getOrCreate_rec (op_solver op) g (Hg _)) as H0. destruct op as [s n now|s id now|s id now|s id operator now|s operator now]; cbn [op_solver] in *.
  - cbn [gstep]. unfold checkAcceptAllowed. destruct (sg_state _); [|destruct (sg_cooldownUntil _); [destruct (q_lt _ _)|]| |]; cbn [snd];
      rewrite getOrCreate_saved, decide_True by done; try exact H0; by apply P_moved.
  - cbn [gstep]. unfold recordAccept. rewrite getOrCreate_saved, decide_True by done. cbn [logged fst]. apply P_count. rewrite ensure_rec. by apply P_windows.
  - cbn [gstep]. unfold recordUnfilled. case_bool_decide; rewrite getOrCreate_saved, decide_True by done; [exact H0|]. apply evaluate_rec. cbn [logged fst].
    apply P_count. rewrite ensure_rec. by apply P_windows.
  - cbn [gstep]. unfold excludeIncident. rewrite getOrCreate_saved, decide_True by done. apply evaluate_rec. cbn [logged fst]. by apply P_undo, P_excluded.
  - by eapply Hreset.
Qed.
End invariant.

(** * Invariants *)

Record rec_ok (r : SolverGriefingRecord) : Prop := {
  ro_cooldown : is_Some (sg_cooldownUntil r) <-> sg_state r = gs_cooldown;
  ro_limit : is_Some (sg_concurrencyLimit r) <-> sg_state r = gs_reduced_concurrency;
  ro_window : (length (sg_windows r) <= 1)%nat;
  ro_escalated : sg_state r <> gs_ok -> (0 < sg_escalationCount r)%nat /\ is_Some (sg_lastEscalatedAt r);
}.

Lemma rec_ok_windows ws r : (length ws <= 1)%nat -> rec_ok r -> rec_ok (put_windows ws r).
Proof. by intros H []. Qed.

Lemma undo_length ws : length (undo_unfilled ws) = length ws.
Proof. induction ws as [|w ws IH]; [done|]. cbn [undo_unfilled]. destruct (0 <? gw_unfilled w)%nat; cbn [length]; [done|by rewrite IH]. Qed.

Lemma ensure_windows now r : exists ws, (ensureActiveWindow now (r, [])).1 = put_windows ws r /\ ((length (sg_windows r) <= 1)%nat -> (length ws <= 1)%nat).
Proof.
  unfold ensureActiveWindow. cbn [fst snd]. destruct (filter _ (sg_windows r)) as [|w kept] eqn:Ef; [eexists; split; [done|cbn; lia]|].
  assert (Hw : w ∈ w :: kept) by by left. rewrite <-Ef in Hw. apply list_elem_of_filter in Hw as [Hw _]. unfold q_lt. rewrite Hw. cbn [negb].
  exists (w :: kept). split; [done|]. intros Hlen. rewrite <-Ef. etransitivity; [apply length_filter|done].
Qed.

Lemma moved_ok st now r : rec_ok r -> rec_ok (moved st now r).
Proof.
  intros [_ _ Hw _]. destruct st; split; cbn; try done; try (split; [by intros []|done]); try (split; [done|by eexists]); intros H;
    rewrite !(bool_decide_eq_true_2 _ H); (split; [lia|by eexists]).
Qed.

Lemma new_record_ok s : rec_ok (new_record s).
Proof. split; cbn; [split; [by intros []|done]|split; [by intros []|done]|lia|done]. Qed.

Lemma count_ok f r : rec_ok r -> rec_ok (count_in_window f r).
Proof. intros Hr. unfold count_in_window. destruct (sg_windows r) as [|w ws] eqn:E; [done|]. apply rec_ok_windows; [|done]. destruct Hr as [_ _ Hw _]. by rewrite E in Hw. Qed.

Lemma gstep_ok g op : (forall s r, get s (gf_records g) = Some r -> rec_ok r) -> forall s r, get s (gf_records (gstep g op)) = Some r -> rec_ok r.
Proof.
  intros Hg. apply (gstep_rec rec_ok).
  - intros r now Hr. destruct (ensure_windows now r) as (ws & -> & Hws). apply rec_ok_windows; [apply Hws, Hr|done].
  - intros r st now. apply moved_ok.
  - intros r f. apply count_ok.
  - by intros r ids [].
  - intros r Hr. apply rec_ok_windows; [|done]. rewrite undo_length. apply Hr.
  - apply new_record_ok.
  - exact Hg.
  - intros s operator now ->. cbn [gstep]. unfold resetSolver. rewrite getOrCreate_saved, decide_True by done. cbn [logged fst].
    split; cbn; [split; [by intros []|done]|split; [by intros []|done]|lia|done].
Qed.

Lemma runs_ok ops g : (forall s r, get s (gf_records g) = Some r -> rec_ok r) -> forall s r, get s (gf_records (foldl gstep g ops)) = Some r -> rec_ok r.
Proof. revert g. induction ops as [|op ops IH]; intros g Hg; [done|]. cbn [foldl]. apply IH. by apply gstep_ok. Qed.

(** After any operations, every record has a cooldown end exactly in cooldown, a
    limit exactly in reduced concurrency, an escalation behind any enforcement,
    and a single window. *)
Theorem griefing_records_consistent ops s r : get s (gf_records (foldl gstep no_griefing ops)) = Some r -> rec_ok r.
Proof. apply runs_ok. done. Qed.

(** * The ladder *)

Definition rank (st : GriefingState) : nat := match st with gs_ok => 0 | gs_cooldown => 1 | gs_reduced_concurrency => 2 | gs_suspended => 3 end.

(** The threshold a state stands for. *)
Definition threshold (st : GriefingState) : Qc :=
  match st with gs_ok => of_Z 0 | gs_cooldown => gc_cooldownThreshold cfg | gs_reduced_concurrency => gc_reducedConcurrencyThreshold cfg | gs_suspended => gc_suspensionThreshold cfg end.

Lemma evaluate_state ratio now d : let d' := evaluateAndEscalate ratio now d in
  sg_state d'.1 = sg_state d.1 \/
  (rank (sg_state d.1) < rank (sg_state d'.1))%nat /\ q_le (threshold (sg_state d'.1)) ratio = true /\
  q_le (gc_minAcceptsForRatio cfg) (of_nat (total_accepts d.1)) = true.
Proof.
  cbn zeta. unfold evaluateAndEscalate. destruct (q_lt (of_nat _) _) eqn:El; [by left|]. unfold q_lt in El. apply negb_false_iff in El.
  destruct (sg_state d.1) eqn:Es, (q_le (gc_suspensionThreshold cfg) ratio) eqn:E1, (q_le (gc_reducedConcurrencyThreshold cfg) ratio) eqn:E2, (q_le (gc_cooldownThreshold cfg) ratio) eqn:E3;
    cbn [andb]; repeat case_bool_decide; cbn [andb]; try tauto; try (by left); try (right; cbn; split_and!; [lia|done|done]).
Qed.

(** One operation, one solver: its state stays, or climbs because the ratio
    reached the threshold of the new state on enough accepts, or falls back to ok
    when a check finds the cooldown over or an operator resets it. *)
Lemma griefing_step g op s : let r := (getOrCreate s g).1 in let r' := (getOrCreate s (gstep g op)).1 in
  sg_state r' = sg_state r \/
  (rank (sg_state r) < rank (sg_state r'))%nat /\ q_le (threshold (sg_state r')) (currentRatio r') = true /\
    q_le (gc_minAcceptsForRatio cfg) (of_nat (total_accepts r')) = true /\ (exists id now, op = do_unfilled s id now \/ exists operator, op = do_exclude s id operator now) \/
  sg_state r' = gs_ok /\ ((exists operator now, op = do_reset s operator now) \/
    exists n now, op = do_check s n now /\ sg_state r = gs_cooldown /\ forall until, sg_cooldownUntil r = Some until -> q_lt (of_Z now) until = false).
Proof.
  cbn zeta. destruct (decide (op_solver op = s)) as [<-|Hne]; [|left; by rewrite other_solver_untouched].
  assert (Hfrom : forall ratio now d, sg_windows d.1 = sg_windows (evaluateAndEscalate ratio now d).1).
  { intros ratio now d. unfold evaluateAndEscalate. destruct (q_lt _ _); [done|]. repeat (destruct (_ && _); [done|]). done. }
  assert (Heval : forall now d, let d' := evaluateAndEscalate (currentRatio d.1) now d in sg_state d'.1 = sg_state d.1 \/
    (rank (sg_state d.1) < rank (sg_state d'.1))%nat /\ q_le (threshold (sg_state d'.1)) (currentRatio d'.1) = true /\
    q_le (gc_minAcceptsForRatio cfg) (of_nat (total_accepts d'.1)) = true).
  { intros now d. cbn zeta. set (d' := evaluateAndEscalate _ now d). assert (Hw : sg_windows d'.1 = sg_windows d.1) by (symmetry; apply Hfrom).
    assert (Hr : currentRatio d'.1 = currentRatio d.1) by (unfold currentRatio, total_accepts, total_unfilled; by rewrite Hw).
    assert (Ht : total_accepts d'.1 = total_accepts d.1) by (unfold total_accepts; by rewrite Hw). rewrite Hr, Ht. apply evaluate_state. }
  destruct op as [s n now|s id now|s id now|s id operator now|s operator now]; cbn [op_solver gstep].
  - unfold checkAcceptAllowed. destruct (sg_state (getOrCreate s g).1) eqn:Es; [|destruct (sg_cooldownUntil _) as [until|] eqn:Eu; [destruct (q_lt _ _) eqn:El|]| |]; cbn [snd];
      rewrite getOrCreate_saved, decide_True by done; first [by left | right; right; split; [done|]; right; exists n, now; split_and!; [done|done|]; by intros u [= <-]].
  - unfold recordAccept. rewrite getOrCreate_saved, decide_True by done. left. cbn [logged fst]. destruct (ensure_windows now (getOrCreate s g).1) as (ws & He & _).
    unfold count_in_window. rewrite ensure_rec, He. by destruct (sg_windows _).
  - unfold recordUnfilled. case_bool_decide; rewrite getOrCreate_saved, decide_True by done; [by left|].
    destruct (ensure_windows now (getOrCreate s g).1) as (ws & He & _). set (d := logged now _ (count_in_window one_unfilled _, _)).
    assert (Hst : sg_state d.1 = sg_state (getOrCreate s g).1) by (subst d; cbn [logged fst]; unfold count_in_window; rewrite ensure_rec, He; by destruct (sg_windows _)).
    specialize (Heval now d). cbn zeta in Heval. rewrite Hst in Heval. destruct Heval as [?|(?&?&?)]; [by left|right; left]. split_and!; [done..|]. exists id, now. by left.
  - unfold excludeIncident. rewrite getOrCreate_saved, decide_True by done. set (d := logged now _ (put_windows _ _, _)).
    assert (Hst : sg_state d.1 = sg_state (getOrCreate s g).1) by done. specialize (Heval now d). cbn zeta in Heval. rewrite Hst in Heval.
    destruct Heval as [?|(?&?&?)]; [by left|right; left]. split_and!; [done..|]. exists id, now. right. by exists operator.
  - unfold resetSolver. rewrite getOrCreate_saved, decide_True by done. right; right. split; [done|]. left. by exists operator, now.
Qed.

(** The same of every operation, as a property. *)
Theorem griefing_ladder g op s : let r := (getOrCreate s g).1 in let r' := (getOrCreate s (gstep g op)).1 in
  sg_state r' = sg_state r \/
  (rank (sg_state r) < rank (sg_state r'))%nat /\ q_le (threshold (sg_state r')) (currentRatio r') = true /\
    q_le (gc_minAcceptsForRatio cfg) (of_nat (total_accepts r')) = true \/
  sg_state r' = gs_ok /\ ((exists operator now, op = do_reset s operator now) \/
    exists n now, op = do_check s n now /\ sg_state r = gs_cooldown /\ forall until, sg_cooldownUntil r = Some until -> q_lt (of_Z now) until = false).
Proof. cbn zeta. destruct (griefing_step g op s) as [?|[(? & ? & ? & _)|?]]; tauto. Qed.

(** A suspended solver stays suspended and is refused every accept, whatever is
    recorded, excluded or waited for, until an operator resets it. *)
Theorem suspension_needs_operator ops g s n now : state_of s g = gs_suspended -> (forall operator t, do_reset s operator t ∉ ops) ->
  state_of s (foldl gstep g ops) = gs_suspended /\ (checkAcceptAllowed s n now (foldl gstep g ops)).1 = Some refused_suspended.
Proof.
  intros Hs Hno. assert (Hst : state_of s (foldl gstep g ops) = gs_suspended).
  { revert g Hs. induction ops as [|op ops IH]; intros g Hs; [done|]. cbn [foldl]. apply IH; [intros operator t Hin; apply (Hno operator t); by right|].
    unfold state_of in *. destruct (griefing_step g op s) as [Heq|[(Hlt & _)|[_ [(operator & t & ->)|(n' & t & _ & Hc & _)]]]].
    - congruence.
    - rewrite Hs in Hlt. by destruct (sg_state (getOrCreate s (gstep g op)).1); cbn in Hlt; lia.
    - exfalso. apply (Hno operator t). by left.
    - congruence. }
  split; [done|]. unfold state_of in Hst. unfold checkAcceptAllowed. by rewrite Hst.
Qed.

Lemma sum_zero (f : GriefingWindow -> nat) ws : sum_list (f <$> ws) = O <-> Forall (fun w => f w = O) ws.
Proof. induction ws as [|w ws IH]; cbn; [by rewrite Forall_nil|]. rewrite Forall_cons, <-IH. lia. Qed.

Definition unseen (r : SolverGriefingRecord) : Prop := sg_state r = gs_ok /\ total_accepts r = O.
Lemma unseen_windows ws r : Forall (fun w => gw_accepts w = O) ws -> unseen r -> unseen (put_windows ws r).
Proof. intros Hws [Hs _]. split; [done|]. by apply sum_zero. Qed.
Lemma unseen_accepts r : unseen r -> Forall (fun w => gw_accepts w = O) (sg_windows r).
Proof. intros [_ H]. by apply sum_zero. Qed.
Lemma unseen_undo ws : Forall (fun w => gw_accepts w = O) ws -> Forall (fun w => gw_accepts w = O) (undo_unfilled ws).
Proof. induction 1 as [|w ws Hw Hws IH]; cbn [undo_unfilled]; [constructor|]. destruct (0 <? _)%nat; by constructor. Qed.
Lemma unseen_ensure now r : unseen r -> unseen (ensureActiveWindow now (r, [])).1.
Proof.
  intros Hr. pose proof (unseen_accepts r Hr) as Hw. unfold ensureActiveWindow. cbn [fst snd].
  assert (Hf : Forall (fun w => gw_accepts w = O) (filter (fun w => q_le (of_Z now - gc_windowSeconds cfg)%Qc (of_Z (gw_startedAt w)) = true) (sg_windows r)))
    by (rewrite Forall_forall in Hw |- *; intros w [_ Hin]%list_elem_of_filter; by apply Hw).
  destruct (filter _ _) as [|w kept]; [cbn [logged fst]; apply unseen_windows; [by constructor|by apply unseen_windows]|].
  destruct (q_lt _ _); cbn [logged fst]; [apply unseen_windows; [by constructor|]|]; by apply unseen_windows.
Qed.

Lemma unseen_evaluate ratio now d : q_lt (of_Z 0) (gc_minAcceptsForRatio cfg) = true -> unseen d.1 -> evaluateAndEscalate ratio now d = d.
Proof. intros Hmin [_ Ha]. unfold evaluateAndEscalate. rewrite Ha. change (of_nat 0) with (of_Z 0). by rewrite Hmin. Qed.

Lemma unseen_step g op : q_lt (of_Z 0) (gc_minAcceptsForRatio cfg) = true -> (forall s id now, op <> do_accept s id now) ->
  unseen (getOrCreate (op_solver op) g).1 -> unseen (getOrCreate (op_solver op) (gstep g op)).1.
Proof.
  intros Hmin Hop H0. destruct op as [s n now|s id now|s id now|s id operator now|s operator now]; cbn [op_solver gstep] in *.
  - unfold checkAcceptAllowed. destruct H0 as [Hs Ha]. rewrite Hs. cbn [snd]. rewrite getOrCreate_saved, decide_True by done. by split.
  - by destruct (Hop s id now).
  - unfold recordUnfilled. case_bool_decide; rewrite getOrCreate_saved, decide_True by done; [done|]. assert (H1 : unseen (count_in_window one_unfilled (ensureActiveWindow now (getOrCreate s g)).1)).
    { rewrite ensure_rec. pose proof (unseen_ensure now _ H0) as He. unfold count_in_window. destruct (sg_windows _) as [|w ws] eqn:Ew; [done|]. apply unseen_windows; [|done].
      apply unseen_accepts in He. rewrite Ew in He. apply Forall_cons in He as [Hw Hws]. by constructor. }
    by rewrite unseen_evaluate.
  - unfold excludeIncident. rewrite getOrCreate_saved, decide_True by done.
    assert (H1 : forall ids, unseen (put_windows (undo_unfilled (sg_windows (put_excluded ids (getOrCreate s g).1))) (put_excluded ids (getOrCreate s g).1))).
    { intros ids. apply unseen_windows; [apply unseen_undo, (unseen_accepts _ H0)|done]. }
    rewrite unseen_evaluate; [apply H1|done|apply H1].
  - unfold resetSolver. rewrite getOrCreate_saved, decide_True by done. done.
Qed.

(** Without recorded accepts no ratio is ever looked at: every solver stays ok
    however many of its accepts go unfilled. *)
Theorem no_enforcement_without_accepts ops s : q_lt (of_Z 0) (gc_minAcceptsForRatio cfg) = true -> (forall op, op ∈ ops -> forall s id now, op <> do_accept s id now) ->
  state_of s (foldl gstep no_griefing ops) = gs_ok.
Proof.
  intros Hmin Hops. enough (H : forall g, (forall s, unseen (getOrCreate s g).1) -> forall s, unseen (getOrCreate s (foldl gstep g ops)).1) by (by apply (H no_griefing)).
  clear s. induction ops as [|op ops IH]; intros g Hg; [done|]. cbn [foldl]. apply IH; [intros op' Hop; apply Hops; by right|]. intros s.
  destruct (decide (op_solver op = s)) as [<-|Hne]; [|by rewrite other_solver_untouched]. apply unseen_step; [done|apply Hops; by left|apply Hg].
Qed.
End config.

Definition playing (l : list GriefingOp) : Griefing := foldl (gstep DEFAULT_GRIEFING_CONFIG) no_griefing l.
Definition accepts (n : nat) (now : Z) : list GriefingOp := replicate n (do_accept "s" "i" now).
Definition unfills (n : nat) (now : Z) : list GriefingOp := replicate n (do_unfilled "s" "i" now).

(** Four of five accepts unfilled suspend a solver. *)
Lemma suspension_needs_operator_witness :
  (checkAcceptAllowed DEFAULT_GRIEFING_CONFIG "s" 0 99999 (foldl (gstep DEFAULT_GRIEFING_CONFIG) (playing (accepts 5 0 ++ unfills 4 10)) (accepts 20 20))).1 = Some refused_suspended.
Proof.
  apply (suspension_needs_operator DEFAULT_GRIEFING_CONFIG (accepts 20 20) (playing (accepts 5 0 ++ unfills 4 10)) "s" 0 99999); [vm_compute; reflexivity|].
  intros operator t Hin. unfold accepts in Hin. apply elem_of_replicate in Hin as [Hin _]. discriminate Hin.
Defined.

(** Twenty missed fills, reported the way the sweeper and the partial fills report
    them: nothing happens. *)
Lemma no_enforcement_without_accepts_witness : state_of "s" (playing (unfills 20 10)) = gs_ok.
Proof.
  apply (no_enforcement_without_accepts DEFAULT_GRIEFING_CONFIG (unfills 20 10) "s"); [vm_compute; reflexivity|].
  intros op Hin s id now. unfold unfills in Hin. apply elem_of_replicate in Hin as [-> _]. discriminate.
Defined.

(** Excluding an incident after the cooldown is over puts the solver back into it. *)
Theorem exclusion_can_punish : let before := playing (accepts 10 0 ++ unfills 4 10 ++ [do_check "s" 0 400]) in
  state_of "s" before = gs_ok /\ state_of "s" (gstep DEFAULT_GRIEFING_CONFIG before (do_exclude "s" "other" None 401)) = gs_cooldown.
Proof. split; vm_compute; reflexivity. Qed.

(** An exclusion takes one unfilled accept away whichever intent it names, each
    time it is repeated. *)
Theorem repeated_exclusion_erases_record : total_unfilled (getOrCreate "s" (playing (accepts 10 0 ++ unfills 2 10 ++ replicate 2 (do_exclude "s" "never-accepted" None 20)))).1 = O.
Proof. vm_compute. reflexivity. Qed.

(** The window does not roll: it is dropped whole an hour after it began, and
    with it the accepts of the last minute. *)
Theorem window_does_not_roll : let g := playing (accepts 1 0 ++ accepts 9 3590 ++ unfills 2 3590 ++ unfills 2 3601) in
  state_of "s" g = gs_ok /\ (fun w => (gw_accepts w, gw_unfilled w)) <$> sg_windows (getOrCreate "s" g).1 = [(0%nat, 2%nat)].
Proof. split; vm_compute; reflexivity. Qed.
