(* ===== verification/Archival.v ===== *)
(** Archival of terminal intents (archival/archival.service.ts,
    archival/archival-manifest.ts, archival/s3-client.ts, archival/archival.job.ts).

    The state is the two tables, each in the order of its key, the bucket and the
    staging schema of restores.  A run is a program whose awaits are its steps.
    Parquet, JSON and the digest are parameters; what the bucket and the database
    do with each command is an [ArchiveEnv], so that uploads may fail or store
    other bytes, and deletions may fail halfway. *)
From S2P Require Import Prelude JsMap BigInt Prog SolverFills.
From stdpp Require Import relations countable list.
Local Open Scope string_scope.
Local Open Scope list_scope.
Local Open Scope Z_scope.
Local Open Scope prog_scope.

(** The columns an export selects, apart from those it reads, and the others. *)
Record IntentRow := { ir_intentId : string; ir_state : string; ir_createdAt : Z; ir_createdAtTs : option Z; ir_columns : jsmap string; ir_unselected : jsmap string }.
Record AuditRow := { au_id : Z; au_intentId : string; au_columns : jsmap string }.

(** One row of a Parquet file. *)
Inductive ParquetRow := p_intent (intentId state : string) (createdAt : Z) (columns : jsmap string) | p_audit (id : Z) (intentId : string) (columns : jsmap string).
Inductive FileType := f_intents | f_audit.
#[export] Instance FileType_eq : EqDecision FileType.
Proof. solve_decision. Defined.
Record ManifestFile := { mf_key : string; mf_type : FileType; mf_rowCount : nat; mf_sha256 : string; mf_sizeBytes : Z }.
Record ArchivalManifest := { am_date : string; am_files : list ManifestFile; am_totalIntentRows : nat; am_totalAuditRows : nat }.

Record ArchivalConfig := { ac_retentionDays : Z; ac_partitionPrefix : string; ac_maxRowsPerFile : nat; ac_readsTimestamptz : bool }.
Record ArchivalRunResult := { rr_skipped : bool; rr_intentRowsArchived : nat; rr_auditRowsArchived : nat; rr_intentRowsDeleted : nat; rr_auditRowsDeleted : nat }.

Definition TERMINAL_STATES : list string := ["filled"; "cancelled"; "expired"; "slashed"].
Definition AUDIT_BATCH : nat := 5000.
Definition DELETE_BATCH : nat := 1000.

Inductive ArchivalError := s3_error | db_error | checksum_mismatch (key : string) | size_mismatch (key : string) | no_manifest | bad_manifest | bad_identifier | out_of_fuel.

Section archival.
(** Bytes, their digest and length, Parquet, and the manifest as JSON. *)
Context {Buffer : Type}.
Variables (sha256Hex : Buffer -> string) (size : Buffer -> Z) (writeParquet : list ParquetRow -> Buffer) (readParquet : Buffer -> list ParquetRow)
  (stringify : ArchivalManifest -> Buffer) (parseManifest : Buffer -> option ArchivalManifest).
(** [toISOString().slice(0, 10)] of a day *)
Variables (iso : Z -> string) (cfg : ArchivalConfig).

Record ArchiveWorld := {
  ar_intents : list IntentRow; ar_audit : list AuditRow; ar_s3 : jsmap Buffer;
  ar_staged : jsmap (list ParquetRow * list ParquetRow); ar_running : bool;
}.

Inductive PutFate := put_ok | put_fails | put_stores (other : Buffer).
Record ArchiveEnv := { ae_put : string -> PutFate; ae_get : string -> bool; ae_exists : bool; ae_query : bool; ae_delete : nat -> bool; ae_ddl : bool; ae_insert : bool }.

Notation XM := (prog ArchiveWorld ArchivalError).

(** * The bucket *)

Definition put_object (key : string) (body : Buffer) (w : ArchiveWorld) : ArchiveWorld :=
  {| ar_intents := ar_intents w; ar_audit := ar_audit w; ar_s3 := set key body (ar_s3 w); ar_staged := ar_staged w; ar_running := ar_running w |}.
Definition s3_put (e : ArchiveEnv) (key : string) (body : Buffer) : XM unit :=
  match ae_put e key with put_ok => modify (put_object key body) | put_fails => Throw s3_error | put_stores other => modify (put_object key other) end.
Definition s3_exists (e : ArchiveEnv) (key : string) : XM bool := if ae_exists e then reads (fun w => has key (ar_s3 w)) else Throw s3_error.
Definition s3_get (e : ArchiveEnv) (key : string) : XM Buffer :=
  if ae_get e key then body <- reads (fun w => get key (ar_s3 w)); match body with Some b => Done b | None => Throw s3_error end else Throw s3_error.

(** [sizeBytes] is always written. *)
Fixpoint verify_files (e : ArchiveEnv) (files : list ManifestFile) : XM unit :=
  match files with
  | [] => Done tt
  | file :: files =>
      data <- s3_get e (mf_key file);
      if negb (bool_decide (sha256Hex data = mf_sha256 file)) then Throw (checksum_mismatch (mf_key file))
      else if negb (size data =? mf_sizeBytes file) then Throw (size_mismatch (mf_key file))
      else verify_files e files
  end.
Definition verifyManifest (e : ArchiveEnv) (m : ArchivalManifest) : XM unit := verify_files e (am_files m).

(** * Keys and bounds *)

Definition manifestKey (day : Z) : string := ac_partitionPrefix cfg +:+ iso day +:+ "/manifest.json".
Definition intentFileKey (day : Z) (index : nat) : string := ac_partitionPrefix cfg +:+ iso day +:+ "/intents-" +:+ padStart 4 (toString (Z.of_nat index)) +:+ ".parquet".
Definition auditFileKey (day : Z) (index : nat) : string := ac_partitionPrefix cfg +:+ iso day +:+ "/audit-" +:+ padStart 4 (toString (Z.of_nat index)) +:+ ".parquet".
Definition dateBounds (day : Z) : Z * Z := (day * 86400, (day + 1) * 86400).

(** * Export *)

(** [createdAtTs] is compared when the deployment reads it. *)
Definition in_bounds (day : Z) (r : IntentRow) : bool :=
  let '(from, to) := dateBounds day in
  if ac_readsTimestamptz cfg then match ir_createdAtTs r with Some t => (from <=? t) && (t <? to) | None => false end
  else (from <=? ir_createdAt r) && (ir_createdAt r <? to).
Definition eligible (day : Z) (r : IntentRow) : bool := bool_decide (ir_state r ∈ TERMINAL_STATES) && in_bounds day r.
Definition eligible_rows (day : Z) (w : ArchiveWorld) : list IntentRow := filter (fun r => eligible day r = true) (ar_intents w).

(** [cursor: { intentId }, skip: 1]: what follows the cursor's row, nothing if it is gone. *)
Definition after_cursor (cursor : option string) (rows : list IntentRow) : list IntentRow :=
  match cursor with
  | None => rows
  | Some c => match list_find (fun r => ir_intentId r = c) rows with Some (i, _) => drop (S i) rows | None => [] end
  end.
Definition intent_page (day : Z) (cursor : option string) (w : ArchiveWorld) : list IntentRow := take (ac_maxRowsPerFile cfg) (after_cursor cursor (eligible_rows day w)).
Definition audit_page (ids : list string) (cursor : Z) (w : ArchiveWorld) : list AuditRow :=
  take AUDIT_BATCH (filter (fun a => au_intentId a ∈ ids /\ cursor < au_id a) (ar_audit w)).

Definition intent_parquet (r : IntentRow) : ParquetRow :=
  p_intent (ir_intentId r) (ir_state r) (if ac_readsTimestamptz cfg then default (ir_createdAt r) (ir_createdAtTs r) else ir_createdAt r) (ir_columns r).
Definition audit_parquet (a : AuditRow) : ParquetRow := p_audit (au_id a) (au_intentId a) (au_columns a).

Definition query {A} (e : ArchiveEnv) (f : ArchiveWorld -> A) : XM A := if ae_query e then reads f else Throw db_error.

Definition file_of (key : string) (t : FileType) (rows : nat) (buf : Buffer) : ManifestFile :=
  {| mf_key := key; mf_type := t; mf_rowCount := rows; mf_sha256 := sha256Hex buf; mf_sizeBytes := size buf |}.

Fixpoint export_intents (e : ArchiveEnv) (day : Z) (fuel : nat) (cursor : option string) (index : nat) : XM (list string * list ManifestFile) :=
  match fuel with
  | O => Throw out_of_fuel
  | S fuel =>
      batch <- query e (intent_page day cursor);
      match last batch with
      | None => Done ([], [])
      | Some final =>
          let buf := writeParquet (intent_parquet <$> batch) in
          let key := intentFileKey day index in
          s3_put e key buf;;;
          let here := (ir_intentId <$> batch, [file_of key f_intents (length batch) buf]) in
          if (length batch <? ac_maxRowsPerFile cfg)%nat then Done here
          else rest <- export_intents e day fuel (Some (ir_intentId final)) (S index); Done (here.1 ++ rest.1, here.2 ++ rest.2)
      end
  end.

Fixpoint export_audit (e : ArchiveEnv) (day : Z) (ids : list string) (fuel : nat) (cursor : Z) (index : nat) : XM (list ManifestFile) :=
  match fuel with
  | O => Throw out_of_fuel
  | S fuel =>
      batch <- query e (audit_page ids cursor);
      match last batch with
      | None => Done []
      | Some final =>
          let buf := writeParquet (audit_parquet <$> batch) in
          let key := auditFileKey day index in
          s3_put e key buf;;;
          let file := file_of key f_audit (length batch) buf in
          if (length batch <? AUDIT_BATCH)%nat then Done [file]
          else rest <- export_audit e day ids fuel (au_id final) (S index); Done (file :: rest)
      end
  end.

(** * Deletion *)

Definition delete_audit (ids : list string) (w : ArchiveWorld) : nat * ArchiveWorld :=
  (length (filter (fun a => au_intentId a ∈ ids) (ar_audit w)),
   {| ar_intents := ar_intents w; ar_audit := filter (fun a => au_intentId a ∉ ids) (ar_audit w); ar_s3 := ar_s3 w; ar_staged := ar_staged w; ar_running := ar_running w |}).
Definition delete_intents (ids : list string) (w : ArchiveWorld) : nat * ArchiveWorld :=
  (length (filter (fun r => ir_intentId r ∈ ids) (ar_intents w)),
   {| ar_intents := filter (fun r => ir_intentId r ∉ ids) (ar_intents w); ar_audit := ar_audit w; ar_s3 := ar_s3 w; ar_staged := ar_staged w; ar_running := ar_running w |}).

(** [slice(i, i + 1000)] while there is anything left, one per fuel *)
Fixpoint delete_batches (e : ArchiveEnv) (ids : list string) (n fuel : nat) : XM (nat * nat) :=
  match fuel with
  | O => Done (O, O)
  | S fuel =>
      let batch := take DELETE_BATCH ids in
      if bool_decide (ids = []) then Done (O, O)
      else if negb (ae_delete e (2 * n)) then Throw db_error
      else ac <- atomic (delete_audit batch);
      if negb (ae_delete e (2 * n + 1)) then Throw db_error
      else ic <- atomic (delete_intents batch);
      rest <- delete_batches e (drop DELETE_BATCH ids) (S n) fuel; Done (ac + rest.1, ic + rest.2)%nat
  end.

(** [fuel] bounds the pages of either export. *)
Definition archiveDate (e : ArchiveEnv) (day : Z) (fuel : nat) : XM ArchivalRunResult :=
  already <- s3_exists e (manifestKey day);
  if already : bool then Done {| rr_skipped := true; rr_intentRowsArchived := O; rr_auditRowsArchived := O; rr_intentRowsDeleted := O; rr_auditRowsDeleted := O |}
  else
    exported <- export_intents e day fuel None 0;
    auditFiles <- (if bool_decide (exported.1 = []) then Done [] else export_audit e day exported.1 fuel 0 0);
    let manifest := {| am_date := iso day; am_files := exported.2 ++ auditFiles; am_totalIntentRows := length exported.1; am_totalAuditRows := sum_list (mf_rowCount <$> auditFiles) |} in
    s3_put e (manifestKey day) (stringify manifest);;;
    verifyManifest e manifest;;;
    deleted <- delete_batches e exported.1 0 (length exported.1);
    Done {| rr_skipped := false; rr_intentRowsArchived := am_totalIntentRows manifest; rr_auditRowsArchived := am_totalAuditRows manifest;
            rr_intentRowsDeleted := deleted.2; rr_auditRowsDeleted := deleted.1 |}.

(** * Restore *)

Record RestoreResult := { rs_dryRun : bool; rs_intentRowsImported : nat; rs_auditRowsImported : nat; rs_filesVerified : nat }.

(** [/^[A-Za-z_][A-Za-z0-9_]*$/] *)
Definition is_letter (c : Ascii.ascii) : bool := ((65 <=? code c) && (code c <=? 90)) || ((97 <=? code c) && (code c <=? 122)) || (code c =? 95).
Definition safe_identifier (name : string) : bool := match name with EmptyString => false | String c s => is_letter c && all_chars (fun c => is_letter c || is_digit c) s end.
Definition assertSafeIdentifier (name : string) : XM string := if safe_identifier name then Done name else Throw bad_identifier.

Definition set_staged (f : jsmap (list ParquetRow * list ParquetRow) -> jsmap (list ParquetRow * list ParquetRow)) (w : ArchiveWorld) : ArchiveWorld :=
  {| ar_intents := ar_intents w; ar_audit := ar_audit w; ar_s3 := ar_s3 w; ar_staged := f (ar_staged w); ar_running := ar_running w |}.

(** [CREATE … IF NOT EXISTS] of the schema and of its two tables *)
Definition ensureRestoreSchema (e : ArchiveEnv) (schema : string) : XM unit :=
  safe <- assertSafeIdentifier schema;
  if ae_ddl e then modify (set_staged (fun st => if has safe st then st else set safe ([], []) st)) else Throw db_error.

(** [ON CONFLICT … DO NOTHING] *)
Definition row_key (r : ParquetRow) : string := match r with p_intent id _ _ _ => id | p_audit id _ _ => toString id end.
Fixpoint insert_rows (rows table : list ParquetRow) : list ParquetRow :=
  match rows with
  | [] => table
  | r :: rows => insert_rows rows (if bool_decide (row_key r ∈ (row_key <$> table)) then table else table ++ [r])
  end.

(** A row of the other kind lacks a column that is [NOT NULL]. *)
Definition row_type (r : ParquetRow) : FileType := match r with p_intent _ _ _ _ => f_intents | p_audit _ _ _ => f_audit end.
Definition insert_staged (t : FileType) (rows : list ParquetRow) (tables : list ParquetRow * list ParquetRow) : list ParquetRow * list ParquetRow :=
  match t with f_intents => (insert_rows rows tables.1, tables.2) | f_audit => (tables.1, insert_rows rows tables.2) end.
Definition insert_batch (e : ArchiveEnv) (safe : string) (t : FileType) (batch : list ParquetRow) : XM unit :=
  tables <- reads (fun w => get safe (ar_staged w));
  match tables with
  | Some _ => if ae_insert e && forallb (fun r => bool_decide (row_type r = t)) batch
              then modify (set_staged (fun st => match get safe st with Some ts => set safe (insert_staged t batch ts) st | None => st end)) else Throw db_error
  | None => Throw db_error
  end.
Definition INSERT_BATCH : nat := 500.
Fixpoint insert_batches (e : ArchiveEnv) (safe : string) (t : FileType) (rows : list ParquetRow) (fuel : nat) : XM unit :=
  match fuel with
  | O => Done tt
  | S fuel => if bool_decide (rows = []) then Done tt else insert_batch e safe t (take INSERT_BATCH rows);;; insert_batches e safe t (drop INSERT_BATCH rows) fuel
  end.
Definition insertRestoreIntents (e : ArchiveEnv) (schema : string) (rows : list ParquetRow) : XM unit :=
  safe <- assertSafeIdentifier schema; insert_batches e safe f_intents rows (length rows).
Definition insertRestoreAudit (e : ArchiveEnv) (schema : string) (rows : list ParquetRow) : XM unit :=
  safe <- assertSafeIdentifier schema; insert_batches e safe f_audit rows (length rows).

Definition restore_file (e : ArchiveEnv) (schema : string) (dryRun : bool) (counts : nat * nat) (file : ManifestFile) : XM (nat * nat) :=
  buffer <- s3_get e (mf_key file);
  if negb (bool_decide (sha256Hex buffer = mf_sha256 file)) then Throw (checksum_mismatch (mf_key file))
  else
    let rows := readParquet buffer in
    if dryRun then Done counts
    else match mf_type file with
         | f_intents => insertRestoreIntents e schema rows;;; Done (counts.1 + length rows, counts.2)%nat
         | f_audit => insertRestoreAudit e schema rows;;; Done (counts.1, counts.2 + length rows)%nat
         end.

Definition restoreDate (e : ArchiveEnv) (day : Z) (schema : string) (dryRun : bool) : XM RestoreResult :=
  there <- s3_exists e (manifestKey day);
  if negb there then Throw no_manifest
  else
    buffer <- s3_get e (manifestKey day);
    match parseManifest buffer with
    | None => Throw bad_manifest
    | Some manifest =>
        verifyManifest e manifest;;;
        (if dryRun then Done tt else ensureRestoreSchema e schema);;;
        counts <- pfold (restore_file e schema dryRun) (O, O) (am_files manifest);
        Done {| rs_dryRun := dryRun; rs_intentRowsImported := counts.1; rs_auditRowsImported := counts.2; rs_filesVerified := length (am_files manifest) |}
    end.

(** * The daily job *)

(** [retentionDays] days ago up to yesterday *)
Definition window_dates (today retentionDays : Z) : list Z := (fun i => today - retentionDays + Z.of_nat i) <$> seq 0 (Z.to_nat retentionDays).
Definition runBackfillWindow (e : ArchiveEnv) (today : Z) (fuel : nat) : XM unit :=
  pfold (fun _ day => pcatch (fun _ => Done tt) (archiveDate e day fuel;;; Done tt)) tt (window_dates today (ac_retentionDays cfg)).
Definition set_running (b : bool) (w : ArchiveWorld) : ArchiveWorld :=
  {| ar_intents := ar_intents w; ar_audit := ar_audit w; ar_s3 := ar_s3 w; ar_staged := ar_staged w; ar_running := b |}.
Definition runDaily (e : ArchiveEnv) (enabled : bool) (today : Z) (fuel : nat) : XM unit :=
  if negb enabled then Done tt
  else running <- reads ar_running;
  if running : bool then Done tt
  else modify (set_running true);;; pcatch (fun x => modify (set_running false);;; Throw x) (runBackfillWindow e today fuel);;; modify (set_running false).

(** * Nothing is lost *)

(** A file of [files] was written with a row. *)
Definition filed (files : list ManifestFile) (row : ParquetRow) : Prop := exists f buf, f ∈ files /\ mf_sha256 f = sha256Hex buf /\ row ∈ readParquet buf.
Definition same_tables (w w' : ArchiveWorld) : Prop := ar_intents w' = ar_intents w /\ ar_audit w' = ar_audit w.

Lemma filed_app files1 files2 row : filed files1 row \/ filed files2 row -> filed (files1 ++ files2) row.
Proof. intros [(f & buf & ? & ?)|(f & buf & ? & ?)]; exists f, buf; rewrite elem_of_app; tauto. Qed.

Lemma same_tables_trans w1 w2 w3 : same_tables w1 w2 -> same_tables w2 w3 -> same_tables w1 w3.
Proof. intros [H1 H2] [H3 H4]. split; [by rewrite H3|by rewrite H4]. Qed.

Lemma run_put e key body w : exists o w', run (s3_put e key body) w = (o, w') /\ same_tables w w'.
Proof. unfold s3_put. destruct (ae_put e key); by do 2 eexists. Qed.

Hypothesis parquet_roundtrip : forall rows, readParquet (writeParquet rows) = rows.

Lemma file_of_filed key t n rows row : row ∈ rows -> filed [file_of key t n (writeParquet rows)] row.
Proof. intros H. exists (file_of key t n (writeParquet rows)), (writeParquet rows). rewrite parquet_roundtrip. split; [by left|done]. Qed.

Lemma export_intents_post e day fuel cursor index w : NoDup (ir_intentId <$> ar_intents w) ->
  let '(o, w') := run (export_intents e day fuel cursor index) w in
  same_tables w w' /\ forall ids files, o = Ok (ids, files) -> forall r, r ∈ ar_intents w -> ir_intentId r ∈ ids -> filed files (intent_parquet r).
Proof.
  intros Hnd. revert cursor index w Hnd. induction fuel as [|fuel IH]; intros cursor index w Hnd; [by split|]. cbn [export_intents]. rewrite run_pbind.
  unfold query. destruct (ae_query e); [|by split]. rewrite run_reads. set (batch := intent_page day cursor w).
  destruct (last batch) as [final|]; [|cbn [run]; split; [done|]; intros ids files [= <- <-] r _ Hr; by apply elem_of_nil in Hr].
  assert (Hsub : forall r, r ∈ batch -> r ∈ ar_intents w).
  { intros r Hr. unfold batch, intent_page in Hr. apply subseteq_take in Hr. assert (Ha : r ∈ eligible_rows day w); [|by apply list_elem_of_filter in Ha as [_ Ha]].
    unfold after_cursor in Hr. destruct cursor as [c|]; [|done]. destruct (list_find _ _) as [[j x]|]; [by apply subseteq_drop in Hr|by apply elem_of_nil in Hr]. }
  assert (Hhere : forall r key n, r ∈ ar_intents w -> ir_intentId r ∈ ir_intentId <$> batch -> filed [file_of key f_intents n (writeParquet (intent_parquet <$> batch))] (intent_parquet r)).
  { intros r key n Hr (r0 & Heq & Hr0)%list_elem_of_fmap. apply file_of_filed. apply list_elem_of_fmap. exists r0. split; [|done]. f_equal.
    apply (nodup_inj ir_intentId (ar_intents w)); [done|done|by apply Hsub|done]. }
  rewrite run_pbind. destruct (run_put e (intentFileKey day index) (writeParquet (intent_parquet <$> batch)) w) as (o & w1 & -> & Ht).
  destruct o as [u|x]; [|split; [done|by intros]]. destruct (_ <? _)%nat; cbn [run].
  { split; [done|]. intros ids files [= <- <-] r Hr Hid. by apply Hhere. }
  rewrite run_pbind. destruct Ht as [Hti Hta]. specialize (IH (Some (ir_intentId final)) (S index) w1). rewrite Hti in IH. specialize (IH Hnd).
  destruct (run (export_intents e day fuel _ _) w1) as [o w2]. destruct IH as [[Hi2 Ha2] Hf]. destruct o as [[ids2 files2]|x]; cbn [run]; (split; [split; congruence|]); [|by intros].
  intros ids files [= <- <-] r Hr Hid. cbn [fst snd]. apply (filed_app [_] files2). apply elem_of_app in Hid as [Hid|Hid]; [left; by apply Hhere|right; by eapply Hf].
Qed.

(** The audit table is in the order of its ids, which start at one. *)
Definition audit_sorted (w : ArchiveWorld) : Prop := StronglySorted (fun a b => au_id a < au_id b) (ar_audit w) /\ Forall (fun a => 0 < au_id a) (ar_audit w).

Lemma sorted_filter_sub (P : AuditRow -> Prop) `{forall a, Decision (P a)} l :
  StronglySorted (fun a b => au_id a < au_id b) l -> StronglySorted (fun a b => au_id a < au_id b) (filter P l).
Proof.
  induction 1 as [|a l Hl IH Ha]; [constructor|]. rewrite filter_cons. destruct (decide (P a)); [|done]. constructor; [done|].
  rewrite Forall_forall in Ha |- *. intros b Hb. apply Ha. by apply list_elem_of_filter in Hb as [_ Hb].
Qed.

(** What a full page leaves out comes after its last row. *)
Lemma page_rest n (l : list AuditRow) final a : StronglySorted (fun a b => au_id a < au_id b) l -> last (take n l) = Some final -> a ∈ l -> a ∈ take n l \/ au_id final < au_id a.
Proof.
  intros Hs Hlast Ha. rewrite <-(take_drop n l) in Ha, Hs. apply elem_of_app in Ha as [Ha|Ha]; [by left|right].
  apply StronglySorted_app in Hs as (Hx & _ & _). apply Hx; [by apply last_Some_elem_of|done].
Qed.

Lemma export_audit_post e day ids fuel cursor index w : audit_sorted w ->
  let '(o, w') := run (export_audit e day ids fuel cursor index) w in
  same_tables w w' /\ forall files, o = Ok files -> forall a, a ∈ ar_audit w -> au_intentId a ∈ ids -> cursor < au_id a -> filed files (audit_parquet a).
Proof.
  revert cursor index w. induction fuel as [|fuel IH]; intros cursor index w Hs; [by split|]. cbn [export_audit]. rewrite run_pbind.
  unfold query. destruct (ae_query e); [|by split]. rewrite run_reads. set (all := filter (fun a => au_intentId a ∈ ids /\ cursor < au_id a) (ar_audit w)).
  set (batch := audit_page ids cursor w).
  assert (Hb : batch = take AUDIT_BATCH all) by done. assert (Hall : forall a, a ∈ ar_audit w -> au_intentId a ∈ ids -> cursor < au_id a -> a ∈ all)
    by (intros a ? ? ?; by apply list_elem_of_filter).
  destruct (last batch) as [final|] eqn:El.
  2:{ cbn [run]. split; [done|]. intros files [= <-] a Ha Hi Hc. exfalso. specialize (Hall a Ha Hi Hc). apply last_None in El. rewrite Hb in El.
      destruct all; [by apply elem_of_nil in Hall|done]. }
  assert (Hhere : forall a key n, a ∈ batch -> filed [file_of key f_audit n (writeParquet (audit_parquet <$> batch))] (audit_parquet a))
    by (intros a key n Ha; by apply file_of_filed, list_elem_of_fmap_2).
  rewrite run_pbind. destruct (run_put e (auditFileKey day index) (writeParquet (audit_parquet <$> batch)) w) as (o & w1 & -> & Ht).
  destruct o as [u|x]; [|split; [done|by intros]]. destruct (_ <? _)%nat eqn:Elen; cbn [run].
  { split; [done|]. intros files [= <-] a Ha Hi Hc. apply Hhere. rewrite Hb. apply Nat.ltb_lt in Elen. rewrite Hb, length_take in Elen. rewrite take_ge by lia. by apply Hall. }
  rewrite run_pbind. destruct Ht as [Hti Hta]. specialize (IH (au_id final) (S index) w1). unfold audit_sorted in IH. rewrite Hta in IH. specialize (IH Hs).
  destruct (run (export_audit e day ids fuel _ _) w1) as [o w2]. destruct IH as [[Hi2 Ha2] Hf]. destruct o as [files2|x]; cbn [run]; (split; [split; congruence|]); [|by intros].
  intros files [= <-] a Ha Hi Hc. apply (filed_app [_] files2). destruct (page_rest AUDIT_BATCH all final a) as [Hp|Hp].
  - apply sorted_filter_sub, Hs.
  - by rewrite <-Hb.
  - by apply Hall.
  - left. apply Hhere. by rewrite Hb.
  - right. by eapply Hf.
Qed.

Lemma verify_post e files w : let '(o, w') := run (verify_files e files) w in
  w' = w /\ (forall u, o = Ok u -> Forall (fun f => exists data, get (mf_key f) (ar_s3 w) = Some data /\ sha256Hex data = mf_sha256 f) files).
Proof.
  induction files as [|f files IH]; [by split|]. cbn [verify_files]. rewrite run_pbind. unfold s3_get. destruct (ae_get e (mf_key f)); [|by split].
  rewrite run_pbind, run_reads. destruct (get (mf_key f) (ar_s3 w)) as [data|] eqn:Eg; cbn [run]; [|by split]. case_bool_decide as Hsha; cbn [negb]; [|by split].
  destruct (size data =? mf_sizeBytes f); cbn [negb]; [|by split]. destruct (run (verify_files e files) w) as [o w']. destruct IH as [-> Hf]. split; [done|].
  intros u Hu. constructor; [by exists data|by eapply Hf].
Qed.

Lemma delete_post e ids n fuel w : let '(o, w') := run (delete_batches e ids n fuel) w in ar_s3 w' = ar_s3 w /\
  (forall r, r ∈ ar_intents w -> ir_intentId r ∉ ids -> r ∈ ar_intents w') /\ (forall a, a ∈ ar_audit w -> au_intentId a ∉ ids -> a ∈ ar_audit w').
Proof.
  revert ids n w. induction fuel as [|fuel IH]; intros ids n w; [done|]. cbn [delete_batches]. case_bool_decide; [done|].
  assert (Hsplit : forall i, i ∉ ids -> i ∉ take DELETE_BATCH ids /\ i ∉ drop DELETE_BATCH ids).
  { intros i Hi. split; intros Hin; apply Hi; [by apply subseteq_take in Hin|by apply subseteq_drop in Hin]. }
  destruct (negb _); [done|]. rewrite run_pbind, run_atomic. cbn [delete_audit fst snd]. destruct (negb _).
  { cbn [run ar_s3 ar_intents ar_audit]. split_and!; [done|done|]. intros a Ha Hi. apply list_elem_of_filter. split; [by apply Hsplit|done]. }
  rewrite run_pbind, run_atomic. cbn [delete_intents fst snd ar_s3 ar_intents ar_audit]. rewrite run_pbind. set (w2 := {| ar_intents := _; ar_audit := _; ar_s3 := _; ar_staged := _; ar_running := _ |}).
  specialize (IH (drop DELETE_BATCH ids) (S n) w2). destruct (run (delete_batches _ _ _ _) w2) as [o w3]. destruct IH as (H1 & H2 & H3).
  assert (Hgoal : ar_s3 w3 = ar_s3 w /\ (forall r, r ∈ ar_intents w -> ir_intentId r ∉ ids -> r ∈ ar_intents w3) /\ (forall a, a ∈ ar_audit w -> au_intentId a ∉ ids -> a ∈ ar_audit w3)).
  { split_and!; [done| |].
    - intros r Hr Hi. apply Hsplit in Hi as [Hi1 Hi2]. apply H2; [|done]. by apply list_elem_of_filter.
    - intros a Ha Hi. apply Hsplit in Hi as [Hi1 Hi2]. apply H3; [|done]. by apply list_elem_of_filter. }
  destruct o; [|done]. done.
Qed.

Lemma audit_part e day ids fuel w : audit_sorted w ->
  let '(o, w') := run (if bool_decide (ids = []) then Done [] else export_audit e day ids fuel 0 0) w in
  same_tables w w' /\ forall files, o = Ok files -> forall a, a ∈ ar_audit w -> au_intentId a ∈ ids -> filed files (audit_parquet a).
Proof.
  intros Hs. case_bool_decide as Hids.
  - cbn [run]. split; [done|]. intros files _ a _ Hi. rewrite Hids in Hi. by apply elem_of_nil in Hi.
  - pose proof (export_audit_post e day ids fuel 0 0 w Hs) as H. destruct (run _ w) as [o w']. destruct H as [Ht Hf]. split; [done|].
    intros files Ho a Ha Hi. apply (Hf files Ho a Ha Hi). destruct Hs as [_ Hpos]. rewrite Forall_forall in Hpos. by apply Hpos.
Qed.

Hypothesis sha256_injective : forall b1 b2, sha256Hex b1 = sha256Hex b2 -> b1 = b2.

(** A row is in the table, or in an object of the bucket. *)
Definition stored (row : ParquetRow) (w : ArchiveWorld) : Prop := exists key buf, get key (ar_s3 w) = Some buf /\ row ∈ readParquet buf.


(** * A healthy run *)

Definition healthy (e : ArchiveEnv) : Prop :=
  ae_exists e = true /\ ae_query e = true /\ (forall k, ae_put e k = put_ok) /\ (forall k, ae_get e k = true) /\ (forall n, ae_delete e n = true).

Lemma pad_inj m n : padStart 4 (toString (Z.of_nat m)) = padStart 4 (toString (Z.of_nat n)) -> m = n.
Proof.
  intros H. assert (Hp : forall k, parse_digits 10 0 (padStart 4 (toString (Z.of_nat k))) = Some (Z.of_nat k)).
  { intros k. unfold padStart. rewrite parse_zeros, <-BigInt_digits by (apply toString_digits; lia). apply BigInt_toString. }
  pose proof (Hp m) as Hm. rewrite H, Hp in Hm. injection Hm as Hm. lia.
Qed.

Lemma suffix_inj (s1 s2 t : string) : s1 +:+ t = s2 +:+ t -> s1 = s2.
Proof.
  intros H. assert (Hl : String.length s1 = String.length s2) by (apply (f_equal String.length) in H; rewrite !length_app_str in H; lia).
  rewrite <-(substring_prefix s1 t), <-(substring_prefix s2 t), Hl. by f_equal.
Qed.

Lemma intentFileKey_inj day m n : intentFileKey day m = intentFileKey day n -> m = n.
Proof. unfold intentFileKey. intros H. do 3 apply (inj (String.append _)) in H. by apply suffix_inj, pad_inj in H. Qed.
Lemma auditFileKey_inj day m n : auditFileKey day m = auditFileKey day n -> m = n.
Proof. unfold auditFileKey. intros H. do 3 apply (inj (String.append _)) in H. by apply suffix_inj, pad_inj in H. Qed.
Lemma intent_audit_keys day m n : intentFileKey day m <> auditFileKey day n.
Proof. unfold intentFileKey, auditFileKey. intros H. do 2 apply (inj (String.append _)) in H. discriminate H. Qed.
Lemma intent_manifest_keys day m : intentFileKey day m <> manifestKey day.
Proof. unfold intentFileKey, manifestKey. intros H. do 2 apply (inj (String.append _)) in H. discriminate H. Qed.
Lemma audit_manifest_keys day m : auditFileKey day m <> manifestKey day.
Proof. unfold auditFileKey, manifestKey. intros H. do 2 apply (inj (String.append _)) in H. discriminate H. Qed.

(** The object a file of the manifest names is the one it describes. *)
Definition intact (s3 : jsmap Buffer) (f : ManifestFile) : Prop := exists buf, get (mf_key f) s3 = Some buf /\ mf_sha256 f = sha256Hex buf /\ mf_sizeBytes f = size buf.

Lemma after_last E pre batch rest final : NoDup (ir_intentId <$> E) -> E = pre ++ batch ++ rest -> last batch = Some final -> after_cursor (Some (ir_intentId final)) E = rest.
Proof.
  intros Hnd -> Hlast. destruct batch as [|final' batch _] using rev_ind; [done|]. rewrite last_snoc in Hlast. injection Hlast as ->.
  unfold after_cursor. set (E := pre ++ (batch ++ [final]) ++ rest) in *. assert (Hlk : E !! (length pre + length batch)%nat = Some final).
  { unfold E. rewrite lookup_app_r, Nat.add_comm, Nat.add_sub by lia. rewrite <-app_assoc, lookup_app_r, Nat.sub_diag by lia. done. }
  rewrite (proj2 (list_find_Some _ E (length pre + length batch) final)).
  - unfold E. rewrite drop_app_ge by lia. replace (S (length pre + length batch) - length pre)%nat with (S (length batch)) by lia.
    rewrite <-app_assoc, drop_app_ge by lia. by replace (S (length batch) - length batch)%nat with 1%nat by lia.
  - split_and!; [done|done|]. intros j y Hj Hlt Heq. assert (j = (length pre + length batch)%nat); [|lia].
    apply (NoDup_lookup (ir_intentId <$> E) j _ (ir_intentId y)); [done|by rewrite list_lookup_fmap, Hj|rewrite list_lookup_fmap, Hlk; cbn; congruence].
Qed.

Lemma export_intents_ok e day fuel cursor index w rest : healthy e -> (0 < ac_maxRowsPerFile cfg)%nat -> NoDup (ir_intentId <$> eligible_rows day w) ->
  (exists pre, eligible_rows day w = pre ++ rest) -> after_cursor cursor (eligible_rows day w) = rest -> (length rest < fuel)%nat ->
  exists files w', run (export_intents e day fuel cursor index) w = (Ok (ir_intentId <$> rest, files), w') /\ same_tables w w' /\
    Forall (intact (ar_s3 w')) files /\ Forall (fun f => exists j, (index <= j)%nat /\ mf_key f = intentFileKey day j) files /\
    (forall k, (forall j, (index <= j)%nat -> k <> intentFileKey day j) -> get k (ar_s3 w') = get k (ar_s3 w)).
Proof.
  intros (_ & Hq & Hput & _) Hmax. revert cursor index w rest. induction fuel as [|fuel IH]; intros cursor index w rest Hnd [pre Hpre] Hcur Hfuel; [lia|].
  cbn [export_intents]. rewrite run_pbind. unfold query. rewrite Hq, run_reads. unfold intent_page. rewrite Hcur.
  set (batch := take (ac_maxRowsPerFile cfg) rest). destruct (last batch) as [final|] eqn:El.
  2:{ apply last_None in El. destruct rest as [|r rest]; [|unfold batch in El; destruct (ac_maxRowsPerFile cfg); [lia|done]]. exists [], w. by split_and!. }
  rewrite run_pbind. unfold s3_put. rewrite Hput. cbn [modify run]. set (buf := writeParquet (intent_parquet <$> batch)). set (key := intentFileKey day index).
  set (w1 := put_object key buf w). assert (Hfile : forall s3, get key s3 = Some buf -> intact s3 (file_of key f_intents (length batch) buf)) by (intros s3 H; by exists buf).
  destruct (_ <? _)%nat eqn:Elen; cbn [run].
  { apply Nat.ltb_lt in Elen. assert (Hb : batch = rest) by (unfold batch in *; rewrite length_take in Elen; apply take_ge; lia). rewrite Hb.
    exists [file_of key f_intents (length rest) buf], w1. split_and!; [done|done| |repeat constructor; by exists index|].
    - constructor; [|constructor]. rewrite <-Hb. apply Hfile. apply get_set_eq.
    - intros k Hk. apply get_set_ne. intros <-. by apply (Hk index). }
  rewrite run_pbind. apply Nat.ltb_ge in Elen. assert (Hrest : rest = batch ++ drop (ac_maxRowsPerFile cfg) rest) by (unfold batch; by rewrite take_drop).
  destruct (IH (Some (ir_intentId final)) (S index) w1 (drop (ac_maxRowsPerFile cfg) rest)) as (files & w2 & Hrun & Ht & Hin & Hkeys & Hframe).
  - done.
  - exists (pre ++ batch). change (eligible_rows day w1) with (eligible_rows day w). by rewrite Hpre, <-app_assoc, <-Hrest.
  - change (eligible_rows day w1) with (eligible_rows day w). apply (after_last _ pre batch); [done| |done]. by rewrite Hpre, <-Hrest.
  - rewrite length_drop. unfold batch in Elen. rewrite length_take in Elen. lia.
  - rewrite Hrun. cbn [run fst snd]. exists (file_of key f_intents (length batch) buf :: files), w2. split_and!.
    + f_equal. f_equal. f_equal. by rewrite <-fmap_app, <-Hrest.
    + by eapply same_tables_trans; [|exact Ht].
    + constructor; [|done]. apply Hfile. rewrite Hframe; [apply get_set_eq|]. intros j Hj Heq. apply intentFileKey_inj in Heq. lia.
    + constructor; [by exists index|]. eapply Forall_impl; [exact Hkeys|]. intros f (j & Hj & Hk). exists j. split; [lia|done].
    + intros k Hk. rewrite Hframe by (intros j Hj; apply Hk; lia). apply get_set_ne. intros <-. by apply (Hk index).
Qed.

(** After a page fewer rows are left. *)
Definition audit_left (ids : list string) (cursor : Z) (w : ArchiveWorld) : list AuditRow := filter (fun a => au_intentId a ∈ ids /\ cursor < au_id a) (ar_audit w).
Lemma page_left ids cursor final w : last (audit_page ids cursor w) = Some final -> (length (audit_left ids (au_id final) w) < length (audit_left ids cursor w))%nat.
Proof.
  intros Hl. assert (Hf : final ∈ audit_left ids cursor w) by (apply last_Some_elem_of in Hl; by apply subseteq_take in Hl). pose proof Hf as [[Hi Hc] Hin]%list_elem_of_filter.
  assert (Heq : audit_left ids (au_id final) w = filter (fun a => au_intentId a ∈ ids /\ (au_id final < au_id a)%Z) (audit_left ids cursor w)).
  { unfold audit_left. rewrite list_filter_filter. apply list_filter_iff. intros a. split; [|tauto]. intros [H1 H2]. split_and!; [done|done|done|lia]. }
  rewrite Heq. apply (length_filter_lt _ _ final); [done|]. intros [_ H]. lia.
Qed.

Lemma export_audit_ok e day ids fuel cursor index w : healthy e -> (length (audit_left ids cursor w) < fuel)%nat ->
  exists files w', run (export_audit e day ids fuel cursor index) w = (Ok files, w') /\ same_tables w w' /\
    Forall (intact (ar_s3 w')) files /\ Forall (fun f => exists j, (index <= j)%nat /\ mf_key f = auditFileKey day j) files /\
    (forall k, (forall j, (index <= j)%nat -> k <> auditFileKey day j) -> get k (ar_s3 w') = get k (ar_s3 w)).
Proof.
  intros (_ & Hq & Hput & _). revert cursor index w. induction fuel as [|fuel IH]; intros cursor index w Hfuel; [lia|].
  cbn [export_audit]. rewrite run_pbind. unfold query. rewrite Hq, run_reads. destruct (last (audit_page ids cursor w)) as [final|] eqn:El; [|exists [], w; by split_and!].
  rewrite run_pbind. unfold s3_put. rewrite Hput. cbn [modify run]. set (batch := audit_page ids cursor w) in *. set (buf := writeParquet (audit_parquet <$> batch)). set (key := auditFileKey day index).
  set (w1 := put_object key buf w). assert (Hfile : forall s3, get key s3 = Some buf -> intact s3 (file_of key f_audit (length batch) buf)) by (intros s3 H; by exists buf).
  destruct (_ <? _)%nat; cbn [run].
  { exists [file_of key f_audit (length batch) buf], w1. split_and!; [done|done| |repeat constructor; by exists index|].
    - constructor; [|constructor]. apply Hfile, get_set_eq.
    - intros k Hk. apply get_set_ne. intros <-. by apply (Hk index). }
  rewrite run_pbind. destruct (IH (au_id final) (S index) w1) as (files & w2 & Hrun & Ht & Hin & Hkeys & Hframe).
  - pose proof (page_left ids cursor final w El). change (audit_left ids (au_id final) w1) with (audit_left ids (au_id final) w). lia.
  - rewrite Hrun. cbn [run]. exists (file_of key f_audit (length batch) buf :: files), w2. split_and!; [done| | | |].
    + by eapply same_tables_trans; [|exact Ht].
    + constructor; [|done]. apply Hfile. rewrite Hframe; [apply get_set_eq|]. intros j Hj Heq. apply auditFileKey_inj in Heq. lia.
    + constructor; [by exists index|]. eapply Forall_impl; [exact Hkeys|]. intros f (j & Hj & Hk). exists j. split; [lia|done].
    + intros k Hk. rewrite Hframe by (intros j Hj; apply Hk; lia). apply get_set_ne. intros <-. by apply (Hk index).
Qed.

Lemma verify_ok e files w : healthy e -> Forall (intact (ar_s3 w)) files -> run (verify_files e files) w = (Ok tt, w).
Proof.
  intros (_ & _ & _ & Hget & _). induction 1 as [|f files (buf & Hg & Hsha & Hsize) _ IH]; [done|]. cbn [verify_files]. rewrite run_pbind. unfold s3_get.
  rewrite Hget, run_pbind, run_reads, Hg. cbn [run]. rewrite bool_decide_eq_true_2 by done. rewrite Hsize, Z.eqb_refl. apply IH.
Qed.

Lemma delete_ok e ids n fuel w : healthy e -> (length ids <= fuel)%nat -> exists counts w', run (delete_batches e ids n fuel) w = (Ok counts, w') /\
  ar_intents w' = filter (fun r => ir_intentId r ∉ ids) (ar_intents w) /\ ar_audit w' = filter (fun a => au_intentId a ∉ ids) (ar_audit w) /\ ar_s3 w' = ar_s3 w.
Proof.
  intros (_ & _ & _ & _ & Hdel). revert ids n w. induction fuel as [|fuel IH]; intros ids n w Hlen; cbn [delete_batches].
  { destruct ids; [|cbn in Hlen; lia]. do 2 eexists. split; [done|]. split_and!; [| |done]; by rewrite filter_none_excluded. }
  case_bool_decide as Hids.
  { rewrite Hids. do 2 eexists. split; [done|]. split_and!; [| |done]; by rewrite filter_none_excluded. }
  rewrite !Hdel. cbn [negb]. rewrite run_pbind, run_atomic. cbn [delete_audit fst snd]. rewrite run_pbind, run_atomic. cbn [delete_intents fst snd ar_s3 ar_intents ar_audit ar_staged].
  rewrite run_pbind. edestruct (IH (drop DELETE_BATCH ids) (S n)) as (counts & w' & Hrun & Hi & Ha & Hs3); [|rewrite Hrun].
  - rewrite length_drop. destruct ids; [done|]. cbn [length] in *. unfold DELETE_BATCH. lia.
  - do 2 eexists. split; [done|]. rewrite Hi, Ha, Hs3. cbn [ar_s3 ar_intents ar_audit]. by rewrite !filter_split.
Qed.

Lemma audit_export_ok e day ids fuel w : healthy e -> (length (ar_audit w) < fuel)%nat ->
  exists files w', run (if bool_decide (ids = []) then Done [] else export_audit e day ids fuel 0 0) w = (Ok files, w') /\ same_tables w w' /\
    Forall (intact (ar_s3 w')) files /\ Forall (fun f => exists j, (0 <= j)%nat /\ mf_key f = auditFileKey day j) files /\
    (forall k, (forall j, k <> auditFileKey day j) -> get k (ar_s3 w') = get k (ar_s3 w)).
Proof.
  intros He Hfuel. case_bool_decide; [exists [], w; by split_and!|]. destruct (export_audit_ok e day ids fuel 0 0 w) as (files & w' & -> & Ht & Hin & Hk & Hf); [done| |].
  - pose proof (length_filter (fun a => au_intentId a ∈ ids /\ 0 < au_id a) (ar_audit w)). unfold audit_left. lia.
  - exists files, w'. split_and!; [done|done|done|done|]. intros k H0. apply Hf. intros j _. apply H0.
Qed.

Lemma intact_frame s3 s3' f : intact s3 f -> get (mf_key f) s3' = get (mf_key f) s3 -> intact s3' f.
Proof. intros (buf & Hg & H) Heq. exists buf. by rewrite Heq. Qed.

Lemma eligible_left day w : NoDup (ir_intentId <$> ar_intents w) ->
  filter (fun r => ir_intentId r ∉ ir_intentId <$> eligible_rows day w) (ar_intents w) = filter (fun r => eligible day r = false) (ar_intents w).
Proof.
  intros Hnd. apply filter_iff_on. intros r Hr. split.
  - intros Hni. destruct (eligible day r) eqn:E; [|done]. destruct Hni. apply list_elem_of_fmap_2. by apply list_elem_of_filter.
  - intros E (r' & Heq & [E' Hr']%list_elem_of_filter)%list_elem_of_fmap. rewrite (nodup_inj ir_intentId (ar_intents w) r r') in E; congruence.
Qed.

(** With the bucket and the database up, a date without a manifest is archived:
    the run ends, it reports every terminal intent of the day, and exactly those
    and their audit entries leave the tables. *)
Theorem archive_completes e day fuel w : healthy e -> (0 < ac_maxRowsPerFile cfg)%nat -> NoDup (ir_intentId <$> ar_intents w) ->
  (length (ar_intents w) < fuel)%nat -> (length (ar_audit w) < fuel)%nat -> get (manifestKey day) (ar_s3 w) = None ->
  exists result w', run (archiveDate e day fuel) w = (Ok result, w') /\ rr_skipped result = false /\ rr_intentRowsArchived result = length (eligible_rows day w) /\
    ar_intents w' = filter (fun r => eligible day r = false) (ar_intents w) /\
    ar_audit w' = filter (fun a => au_intentId a ∉ ir_intentId <$> eligible_rows day w) (ar_audit w) /\ is_Some (get (manifestKey day) (ar_s3 w')).
Proof.
  intros He Hmax Hnd Hfi Hfa Hno. pose proof He as (Hex & _ & Hput & _).
  assert (Hnd' : NoDup (ir_intentId <$> eligible_rows day w)) by by apply nodup_filter_fmap.
  unfold archiveDate. rewrite run_pbind. unfold s3_exists. rewrite Hex, run_reads. unfold has. rewrite Hno, run_pbind.
  destruct (export_intents_ok e day fuel None 0 w (eligible_rows day w)) as (files1 & w1 & -> & Ht1 & Hin1 & Hk1 & Hf1); [done..|by exists []|done| |].
  { unfold eligible_rows. pose proof (length_filter (fun r => eligible day r = true) (ar_intents w)). lia. }
  cbn [fst snd]. rewrite run_pbind. set (ids := ir_intentId <$> eligible_rows day w).
  destruct (audit_export_ok e day ids fuel w1) as (files2 & w2 & -> & Ht2 & Hin2 & Hk2 & Hf2); [done|by rewrite (proj2 Ht1)|].
  rewrite run_pbind. set (m := {| am_date := _; am_files := _; am_totalIntentRows := _; am_totalAuditRows := _ |}). unfold s3_put. rewrite Hput. cbn [modify run].
  set (w3 := put_object (manifestKey day) (stringify m) w2). rewrite run_pbind. unfold verifyManifest. rewrite verify_ok; [|done|].
  2:{ apply Forall_app. split.
      - eapply Forall_and_impl; [exact Hin1|exact Hk1|]. intros f Hf (j & _ & Hk). eapply intact_frame; [exact Hf|]. rewrite Hk. cbn [w3 put_object ar_s3].
        rewrite get_set_ne by (by apply not_eq_sym, intent_manifest_keys). apply Hf2. intros i. apply intent_audit_keys.
      - eapply Forall_and_impl; [exact Hin2|exact Hk2|]. intros f Hf (j & _ & Hk). eapply intact_frame; [exact Hf|]. rewrite Hk. cbn [w3 put_object ar_s3].
        apply get_set_ne. apply not_eq_sym, audit_manifest_keys. }
  rewrite run_pbind. destruct (delete_ok e ids 0 (length ids) w3) as (counts & w4 & -> & Hi4 & Ha4 & Hs4); [done|done|]. cbn [run].
  do 2 eexists. split; [done|]. split; [done|]. split; [apply length_fmap|]. rewrite Hi4, Ha4, Hs4. destruct Ht1 as [Hi1 Ha1], Ht2 as [Hi2 Ha2].
  cbn [w3 put_object ar_intents ar_audit ar_s3]. rewrite Hi2, Hi1, Ha2, Ha1. split_and!; [by apply eligible_left|done|by rewrite get_set_eq].
Qed.
(** * What a restore leaves *)

Definition staged (schema : string) (t : FileType) (w : ArchiveWorld) : list ParquetRow :=
  match get schema (ar_staged w) with Some ts => match t with f_intents => ts.1 | f_audit => ts.2 end | None => [] end.

(** Only tables of the schema change; they keep their rows, and rows that are new
    satisfy [New]. *)
Record restored_with (schema : string) (New : FileType -> ParquetRow -> Prop) (w w' : ArchiveWorld) : Prop := {
  rw_tables : same_tables w w'; rw_s3 : ar_s3 w' = ar_s3 w; rw_others : forall s, s <> schema -> get s (ar_staged w') = get s (ar_staged w);
  rw_kept : forall t r, r ∈ staged schema t w -> r ∈ staged schema t w'; rw_new : forall t r, r ∈ staged schema t w' -> r ∈ staged schema t w \/ New t r;
}.

Lemma restored_refl schema New w : restored_with schema New w w.
Proof. split; [done|done|done|done|by left]. Qed.
Lemma restored_trans schema New w1 w2 w3 : restored_with schema New w1 w2 -> restored_with schema New w2 w3 -> restored_with schema New w1 w3.
Proof.
  intros [H1 H2 H3 H4 H5] [G1 G2 G3 G4 G5]. split; [by eapply same_tables_trans|congruence|intros s Hs; rewrite G3, H3 by done; done|auto|].
  intros t r [Hr|Hr]%G5; [by apply H5|by right].
Qed.
Lemma restored_mono schema (New1 New2 : FileType -> ParquetRow -> Prop) w w' : (forall t r, New1 t r -> New2 t r) -> restored_with schema New1 w w' -> restored_with schema New2 w w'.
Proof. intros H [H1 H2 H3 H4 H5]. split; [done|done|done|done|]. intros t r [Hr|Hr]%H5; auto. Qed.

Lemma insert_rows_keys rows table k : k ∈ row_key <$> insert_rows rows table <-> k ∈ row_key <$> table \/ k ∈ row_key <$> rows.
Proof.
  revert table. induction rows as [|r rows IH]; intros table; cbn [insert_rows]; [rewrite elem_of_nil; tauto|]. rewrite IH. cbn [fmap list_fmap]. rewrite elem_of_cons.
  case_bool_decide as Hin; [|rewrite fmap_app, elem_of_app; cbn [fmap list_fmap]; rewrite elem_of_cons, elem_of_nil; tauto]. split; [tauto|]. by intros [?|[->|?]]; auto.
Qed.
Lemma insert_rows_elem rows table r : r ∈ insert_rows rows table -> r ∈ table \/ r ∈ rows.
Proof.
  revert table. induction rows as [|x rows IH]; intros table; cbn [insert_rows]; [by left|]. intros [H|H]%IH; [|right; by right].
  case_bool_decide; [by left|]. apply elem_of_app in H as [?|H]; [by left|]. apply list_elem_of_singleton in H as ->. right. by left.
Qed.
Lemma insert_rows_kept rows table r : r ∈ table -> r ∈ insert_rows rows table.
Proof. revert table. induction rows as [|x rows IH]; intros table Hr; cbn [insert_rows]; [done|]. apply IH. case_bool_decide; [done|]. apply elem_of_app. by left. Qed.

(** One [INSERT]. *)
Lemma insert_batch_post e schema t batch w : let '(o, w') := run (insert_batch e schema t batch) w in restored_with schema (fun t' r => t' = t /\ r ∈ batch) w w' /\
  (forall u, o = Ok u -> forall r, r ∈ batch -> row_key r ∈ row_key <$> staged schema t w').
Proof.
  unfold insert_batch. rewrite run_pbind, run_reads. destruct (get schema (ar_staged w)) as [ts|] eqn:Eg; [|by split; [apply restored_refl|]].
  destruct (_ && _); [|by split; [apply restored_refl|]]. cbn [modify run].
  set (w' := set_staged _ w). assert (Hw : get schema (ar_staged w') = Some (insert_staged t batch ts)) by (cbn [w' set_staged ar_staged]; rewrite Eg; apply get_set_eq).
  assert (Hst : forall t', staged schema t' w' = if decide (t' = t) then insert_rows batch (staged schema t' w) else staged schema t' w).
  { intros t'. unfold staged. rewrite Hw, Eg. by destruct t, t'. }
  split.
  - split; [done|done| | |].
    + intros s Hs. cbn [w' set_staged ar_staged]. rewrite Eg. by apply get_set_ne.
    + intros t' r Hr. rewrite Hst. destruct (decide _); [by apply insert_rows_kept|done].
    + intros t' r Hr. rewrite Hst in Hr. destruct (decide _); [apply insert_rows_elem in Hr as [?|?]; auto|by left].
  - intros u _ r Hr. rewrite Hst, decide_True by done. apply insert_rows_keys. right. by apply list_elem_of_fmap_2.
Qed.

Lemma insert_batches_post e schema t rows fuel w : (length rows <= fuel)%nat -> let '(o, w') := run (insert_batches e schema t rows fuel) w in
  restored_with schema (fun t' r => t' = t /\ r ∈ rows) w w' /\ (forall u, o = Ok u -> forall r, r ∈ rows -> row_key r ∈ row_key <$> staged schema t w').
Proof.
  revert rows w. induction fuel as [|fuel IH]; intros rows w Hlen; cbn [insert_batches].
  { destruct rows; [|cbn in Hlen; lia]. split; [apply restored_refl|]. intros u _ r Hr. by apply elem_of_nil in Hr. }
  case_bool_decide as Hrows. { rewrite Hrows. split; [apply restored_refl|]. intros u _ r Hr. by apply elem_of_nil in Hr. }
  rewrite run_pbind. pose proof (insert_batch_post e schema t (take INSERT_BATCH rows) w) as Hb. destruct (run (insert_batch e schema t _) w) as [[u|x] w1]; destruct Hb as [Hr1 Hk1].
  2:{ split; [|done]. eapply restored_mono; [|exact Hr1]. intros t' r [-> Hr]. by apply subseteq_take in Hr. }
  specialize (IH (drop INSERT_BATCH rows) w1). destruct (run (insert_batches e schema t _ fuel) w1) as [o w2]. destruct IH as [Hr2 Hk2].
  { rewrite length_drop. destruct rows; [done|]. cbn [length] in *. unfold INSERT_BATCH. lia. }
  split.
  - eapply restored_trans; (eapply restored_mono; [|eassumption]); intros t' r [-> Hr]; [by apply subseteq_take in Hr|by apply subseteq_drop in Hr].
  - intros u' Ho r Hr. rewrite <-(take_drop INSERT_BATCH rows) in Hr. apply elem_of_app in Hr as [Hr|Hr]; [|by eapply Hk2].
    apply (Hk1 u eq_refl), list_elem_of_fmap in Hr as (r' & -> & Hr'). apply list_elem_of_fmap_2. by eapply rw_kept.
Qed.

(** A row of an object whose digest is the manifest's. *)
Definition vouched (files : list ManifestFile) (w : ArchiveWorld) (t : FileType) (r : ParquetRow) : Prop :=
  exists f data, f ∈ files /\ mf_type f = t /\ get (mf_key f) (ar_s3 w) = Some data /\ sha256Hex data = mf_sha256 f /\ r ∈ readParquet data.

Lemma insert_restore_post e schema t rows w : let '(o, w') := run (safe <- assertSafeIdentifier schema; insert_batches e safe t rows (length rows)) w in
  restored_with schema (fun t' r => t' = t /\ r ∈ rows) w w' /\ (forall u, o = Ok u -> forall r, r ∈ rows -> row_key r ∈ row_key <$> staged schema t w').
Proof.
  rewrite run_pbind. unfold assertSafeIdentifier. destruct (safe_identifier schema); [|split; [apply restored_refl|done]]. by apply insert_batches_post.
Qed.

Lemma restore_file_post e schema counts f w : let '(o, w') := run (restore_file e schema false counts f) w in restored_with schema (vouched [f] w) w w' /\
  (forall c, o = Ok c -> forall t r, vouched [f] w t r -> row_key r ∈ row_key <$> staged schema t w').
Proof.
  unfold restore_file. rewrite run_pbind. unfold s3_get. destruct (ae_get e (mf_key f)); [|split; [apply restored_refl|done]]. rewrite run_pbind, run_reads.
  destruct (get (mf_key f) (ar_s3 w)) as [data|] eqn:Eg; cbn [run]; [|split; [apply restored_refl|done]]. case_bool_decide as Hsha; cbn [negb]; [|split; [apply restored_refl|done]].
  pose proof (insert_restore_post e schema (mf_type f) (readParquet data) w) as Hb. unfold insertRestoreIntents, insertRestoreAudit.
  destruct (mf_type f) eqn:Et; rewrite run_pbind; destruct (run (safe <- _; _) w) as [o w']; destruct Hb as [Hr Hk];
    (assert (Hres : restored_with schema (vouched [f] w) w w')
      by (eapply restored_mono; [|exact Hr]; intros t' r [-> Hrow]; exists f, data; split; [by left|done]));
    destruct o as [u|x]; cbn [run]; (split; [done|]); try done;
    intros c' _ t r (f' & data' & Hf' & Ht & Hg & _ & Hrow); apply list_elem_of_singleton in Hf' as ->; rewrite <-Ht, Et; apply (Hk u); congruence.
Qed.

Lemma vouched_cons f files w t r : vouched (f :: files) w t r <-> vouched [f] w t r \/ vouched files w t r.
Proof.
  split.
  - intros (f' & data & Hf & H). apply elem_of_cons in Hf as [->|Hf]; [left; exists f, data; split; [by left|done]|right; by exists f', data].
  - intros [(f' & data & Hf & H)|(f' & data & Hf & H)]; exists f', data; (split; [|done]); [apply list_elem_of_singleton in Hf as ->; by left|by right].
Qed.

Lemma vouched_s3 files w w' t r : ar_s3 w' = ar_s3 w -> vouched files w' t r <-> vouched files w t r.
Proof. intros H. unfold vouched. by rewrite H. Qed.

Lemma restore_files_post e schema files counts w : let '(o, w') := run (pfold (restore_file e schema false) counts files) w in
  restored_with schema (vouched files w) w w' /\ (forall c, o = Ok c -> forall t r, vouched files w t r -> row_key r ∈ row_key <$> staged schema t w').
Proof.
  revert counts w. induction files as [|f files IH]; intros counts w; cbn [pfold].
  { split; [apply restored_refl|]. intros c _ t r (f & data & Hf & _). by apply elem_of_nil in Hf. }
  rewrite run_pbind. pose proof (restore_file_post e schema counts f w) as Hf. destruct (run (restore_file _ _ _ _ _) w) as [[c|x] w1]; destruct Hf as [Hr1 Hk1].
  2:{ split; [|done]. eapply restored_mono; [|exact Hr1]. intros t r H. apply vouched_cons. by left. }
  specialize (IH c w1). destruct (run (pfold _ c files) w1) as [o w2]. destruct IH as [Hr2 Hk2]. pose proof (rw_s3 _ _ _ _ Hr1) as Hs3. split.
  - eapply restored_trans; (eapply restored_mono; [|eassumption]); intros t r H; apply vouched_cons; [by left|right; by apply (vouched_s3 _ w w1)].
  - intros c' Ho t r [Hr|Hr]%vouched_cons; [|eapply Hk2; [done|]; by apply (vouched_s3 _ w w1)].
    apply (Hk1 c eq_refl), list_elem_of_fmap in Hr as (r' & -> & Hr'). apply list_elem_of_fmap_2. by eapply rw_kept.
Qed.

Lemma ensure_post e schema New w : restored_with schema New w (run (ensureRestoreSchema e schema) w).2.
Proof.
  unfold ensureRestoreSchema. rewrite run_pbind. unfold assertSafeIdentifier. destruct (safe_identifier schema); [|apply restored_refl]. cbn [run].
  destruct (ae_ddl e); [|apply restored_refl]. cbn [modify run snd]. set (w' := set_staged _ w).
  assert (Hst : forall t, staged schema t w' = staged schema t w).
  { intros t. unfold staged. cbn [w' set_staged ar_staged]. unfold has. destruct (get schema (ar_staged w)) as [ts|] eqn:Eg; [by rewrite Eg|]. rewrite get_set_eq. by destruct t. }
  split; [done|done| |intros t r; by rewrite (Hst t)|intros t r; rewrite (Hst t); by left].
  intros s Hs. cbn [w' set_staged ar_staged]. destruct (has _ _); [done|by apply get_set_ne].
Qed.

(** The manifest stored for the day. *)
Definition manifest_at (day : Z) (w : ArchiveWorld) : option ArchivalManifest := get (manifestKey day) (ar_s3 w) ≫= parseManifest.

(** A restore, whether it succeeds or fails anywhere, leaves the live tables, the
    bucket and every other schema alone, drops nothing it staged before and stages
    only rows of objects whose digest is the one in the manifest; when it succeeds
    every such row is staged, or a row of its key was. *)
Theorem restore_exact e day schema w : let '(o, w') := run (restoreDate e day schema false) w in
  let files := default [] (am_files <$> manifest_at day w) in
  restored_with schema (vouched files w) w w' /\
  (forall result, o = Ok result -> forall t r, vouched files w t r -> row_key r ∈ row_key <$> staged schema t w').
Proof.
  unfold restoreDate, manifest_at. rewrite run_pbind. unfold s3_exists. destruct (ae_exists e); [|split; [apply restored_refl|done]]. rewrite run_reads. destruct (negb _); [split; [apply restored_refl|done]|].
  rewrite run_pbind. unfold s3_get. destruct (ae_get e (manifestKey day)); [|split; [apply restored_refl|done]]. rewrite run_pbind, run_reads.
  destruct (get (manifestKey day) (ar_s3 w)) as [buf|]; cbn [run mbind option_bind]; [|split; [apply restored_refl|done]].
  destruct (parseManifest buf) as [m|]; cbn [fmap option_fmap option_map default]; [|split; [apply restored_refl|done]]. unfold verifyManifest.
  rewrite run_pbind. pose proof (verify_post e (am_files m) w) as Hv. destruct (run (verify_files e _) w) as [[u|x] w1]; destruct Hv as [-> _]; [|split; [apply restored_refl|done]].
  rewrite run_pbind. pose proof (ensure_post e schema (vouched (am_files m) w) w) as He. destruct (run (ensureRestoreSchema e schema) w) as [[u1|x] w1]; cbn [snd] in He; [|by split].
  rewrite run_pbind. pose proof (restore_files_post e schema (am_files m) (O, O) w1) as Hf. destruct (run (pfold _ _ _) w1) as [o w2]. destruct Hf as [Hr Hk].
  pose proof (rw_s3 _ _ _ _ He) as Hs3. assert (Hall : restored_with schema (vouched (am_files m) w) w w2).
  { eapply restored_trans; [exact He|]. eapply restored_mono; [|exact Hr]. intros t r. by apply vouched_s3. }
  destruct o as [c|x]; cbn [run]; (split; [done|]); [|done]. intros result _ t r H. apply (Hk c eq_refl). by apply (vouched_s3 _ w w1).
Qed.
End archival.

(** * A bucket of rows and manifests *)

Module Concrete.

#[export] Instance ParquetRow_eq : EqDecision ParquetRow.
Proof. solve_decision. Defined.
#[export] Instance ManifestFile_eq : EqDecision ManifestFile.
Proof. solve_decision. Defined.
#[export] Instance ArchivalManifest_eq : EqDecision ArchivalManifest.
Proof. solve_decision. Defined.
#[export] Instance ParquetRow_countable : Countable ParquetRow.
Proof.
  apply (inj_countable' (fun r => match r with p_intent i s c cs => inl (i, s, c, cs) | p_audit n i cs => inr (n, i, cs) end)
    (fun x => match x with inl (i, s, c, cs) => p_intent i s c cs | inr (n, i, cs) => p_audit n i cs end)). by intros [].
Defined.
#[export] Instance FileType_countable : Countable FileType.
Proof. apply (inj_countable' (fun t => match t with f_intents => true | f_audit => false end) (fun b : bool => if b then f_intents else f_audit)). by intros []. Defined.
#[export] Instance ManifestFile_countable : Countable ManifestFile.
Proof.
  apply (inj_countable' (fun f => (mf_key f, mf_type f, mf_rowCount f, mf_sha256 f, mf_sizeBytes f))
    (fun '(k, t, n, h, z) => {| mf_key := k; mf_type := t; mf_rowCount := n; mf_sha256 := h; mf_sizeBytes := z |})). by intros [].
Defined.
#[export] Instance ArchivalManifest_countable : Countable ArchivalManifest.
Proof.
  apply (inj_countable' (fun m => (am_date m, am_files m, am_totalIntentRows m, am_totalAuditRows m))
    (fun '(d, fs, i, a) => {| am_date := d; am_files := fs; am_totalIntentRows := i; am_totalAuditRows := a |})). by intros [].
Defined.

Definition Object : Type := list ParquetRow + ArchivalManifest.
Definition digest (b : Object) : string := toString (Z.pos (encode b)).
Definition bytes (b : Object) : Z := match b with inl rows => Z.of_nat (length rows) | inr m => Z.of_nat (length (am_files m)) end.
Definition parquet (rows : list ParquetRow) : Object := inl rows.
Definition rows_of (b : Object) : list ParquetRow := match b with inl rows => rows | inr _ => [] end.
Definition json (m : ArchivalManifest) : Object := inr m.
Definition parse (b : Object) : option ArchivalManifest := match b with inl _ => None | inr m => Some m end.
Definition day_name (d : Z) : string := padStart 10 (toString d).
Definition config : ArchivalConfig := {| ac_retentionDays := 30; ac_partitionPrefix := "intents/"; ac_maxRowsPerFile := 2; ac_readsTimestamptz := false |}.

Lemma digest_injective b1 b2 : digest b1 = digest b2 -> b1 = b2.
Proof.
  unfold digest. intros H. apply (f_equal BigInt) in H. rewrite !BigInt_toString in H. injection H as H. by apply (inj encode) in H.
Qed.

Definition Env : Type := @ArchiveEnv Object.
Definition World : Type := @ArchiveWorld Object.
Definition fine : Env := {| ae_put := fun _ => put_ok; ae_get := fun _ => true; ae_exists := true; ae_query := true; ae_delete := fun _ => true; ae_ddl := true; ae_insert := true |}.
Definition intent (id state : string) (day : Z) : IntentRow :=
  {| ir_intentId := id; ir_state := state; ir_createdAt := day * 86400 + 60; ir_createdAtTs := None; ir_columns := [("user", "GA")]; ir_unselected := [("idempotencyKey", "k")] |}.
Definition entry (n : Z) (id : string) : AuditRow := {| au_id := n; au_intentId := id; au_columns := [("to_state", "filled")] |}.
Definition world : World :=
  {| ar_intents := [intent "0x01" "filled" 20000; intent "0x02" "open" 20000; intent "0x03" "expired" 20000; intent "0x04" "slashed" 20000]; ar_audit := [entry 1 "0x01"; entry 2 "0x02"; entry 3 "0x03"];
     ar_s3 := []; ar_staged := []; ar_running := false |}.
(** For runs that are computed. *)
Definition quick_digest (b : Object) : string := toString (bytes b).
Definition archive : Env -> Z -> nat -> prog World ArchivalError ArchivalRunResult := archiveDate quick_digest bytes parquet json day_name config.
Definition restore : Env -> Z -> string -> bool -> prog World ArchivalError RestoreResult := restoreDate quick_digest bytes rows_of parse day_name config.
Definition daily : Env -> bool -> Z -> nat -> prog World ArchivalError unit := runDaily quick_digest bytes parquet json day_name config.

End Concrete.
Import Concrete.


Lemma archive_completes_witness : exists result w', run (archive fine 20000 10) world = (Ok result, w') /\ rr_skipped result = false /\ rr_intentRowsArchived result = 3%nat.
Proof.
  destruct (archive_completes quick_digest bytes parquet json day_name config fine 20000 10 world) as (result & w' & Hrun & Hs & Hn & _).
  - done.
  - cbn. lia.
  - apply (bool_decide_unpack _). by vm_compute.
  - cbn. lia.
  - cbn. lia.
  - done.
  - exists result, w'. split_and!; [exact Hrun|exact Hs|exact Hn].
Defined.

(** * Findings *)

(** The run of the day after archives and deletes an intent settled yesterday,
    thirty days of retention notwithstanding. *)
Theorem yesterday_is_archived : ir_intentId <$> ar_intents (run (daily fine true 20001 10) world).2 = ["0x02"] /\ ac_retentionDays config = 30.
Proof. by vm_compute. Qed.

(** An audit entry written between the export and the deletion is deleted and is in
    no object of the bucket. *)
Definition late_entry : prog World ArchivalError ArchivalRunResult :=
  Step (fun w => {| ar_intents := ar_intents w; ar_audit := ar_audit w ++ [entry 4 "0x01"]; ar_s3 := ar_s3 w; ar_staged := ar_staged w; ar_running := ar_running w |}) (fun _ => Throw db_error).
Theorem late_audit_entry_is_lost : let w := (schedule (replicate 7 0 ++ [1] ++ replicate 20 0)%nat world [archive fine 20000 10; late_entry]).1 in
  au_id <$> ar_audit w = [2] /\ forallb (fun kv : string * Object => negb (bool_decide (audit_parquet (entry 4 "0x01") ∈ rows_of kv.2))) (ar_s3 w) = true.
Proof. by vm_compute. Qed.

(** Two replicas that both saw no manifest: the second finds the rows gone and
    writes an empty manifest over the first's, and a restore of the day brings back
    nothing. *)
Theorem second_run_erases_manifest : let w := (schedule ([0; 1] ++ replicate 30 0 ++ replicate 30 1)%nat world [archive fine 20000 10; archive fine 20000 10]).1 in
  ir_intentId <$> ar_intents w = ["0x02"] /\
  exists result, (run (restore fine 20000 "back" false) w).1 = Ok result /\ rs_intentRowsImported result = O /\ rs_filesVerified result = O.
Proof. vm_compute. split; [done|]. by eexists. Qed.

(** The manifest is stored before it is verified: a run that fails to verify is
    taken for an archived day by every later one, and its rows stay. *)
Definition unreadable : Env := {| ae_put := fun _ => put_ok; ae_get := fun _ => false; ae_exists := true; ae_query := true; ae_delete := fun _ => true; ae_ddl := true; ae_insert := true |}.
Theorem failed_run_is_not_retried : let '(o, w) := run (archive unreadable 20000 10) world in
  o = Err s3_error /\ exists result, run (archive fine 20000 10) w = (Ok result, w) /\ rr_skipped result = true /\ length (ar_intents w) = 4%nat.
Proof. vm_compute. split; [done|]. by eexists. Qed.
