(* ===== verification/Connections.v ===== *)
(** State of one WebSocket connection (intents/ws/connection-state.ts): the token
    bucket of inbound messages, the client address behind trusted proxies, and the
    bounded outbound queue.

    Tokens are counted in thousandths, the unit in which a millisecond of an
    integral rate adds whole numbers.  The socket keeps the sizes it has buffered,
    oldest first; its callbacks run in that order. *)
From S2P Require Import Prelude JsMap BigInt.
Local Open Scope list_scope.
Local Open Scope Z_scope.

(** * Token bucket *)

Record TokenBucket := { tb_tokens : Z; tb_last : Z }.

Section bucket.
Context (ratePerSec burst : Z).

Definition new_bucket (now : Z) : TokenBucket := {| tb_tokens := burst * 1000; tb_last := now |}.
Definition take_token (now : Z) (b : TokenBucket) : bool * TokenBucket :=
  let tokens := Z.min (burst * 1000) (tb_tokens b + (now - tb_last b) * ratePerSec) in
  if tokens <? 1000 then (false, {| tb_tokens := tokens; tb_last := now |}) else (true, {| tb_tokens := tokens - 1000; tb_last := now |}).

Fixpoint take_all (times : list Z) (b : TokenBucket) : nat * TokenBucket :=
  match times with
  | [] => (O, b)
  | now :: times => let '(ok, b) := take_token now b in let '(n, b) := take_all times b in (((if ok then 1 else 0) + n)%nat, b)
  end.

Lemma take_token_spent now b : let '(ok, b') := take_token now b in
  (if ok then 1000 else 0) + tb_tokens b' <= tb_tokens b + (now - tb_last b) * ratePerSec /\ tb_last b' = now /\ (0 <= tb_tokens b -> tb_last b <= now -> 0 <= ratePerSec -> 0 <= burst -> 0 <= tb_tokens b').
Proof. unfold take_token. destruct (_ <? _) eqn:E; cbn; split_and!; try lia. intros. nia. Qed.

Lemma take_all_spent times b : 0 <= ratePerSec -> 0 <= burst -> 0 <= tb_tokens b -> Forall (fun t => tb_last b <= t) times -> StronglySorted Z.le times ->
  let '(n, b') := take_all times b in Z.of_nat n * 1000 + tb_tokens b' <= tb_tokens b + (tb_last b' - tb_last b) * ratePerSec /\ 0 <= tb_tokens b' /\ tb_last b' = default (tb_last b) (last times).
Proof.
  intros Hr Hb. revert b. induction times as [|now times IH]; intros b Ht Hge Hs; [cbn; lia|]. cbn [take_all]. apply Forall_cons in Hge as [Hnow _]. apply StronglySorted_inv in Hs as [Hs Hall].
  pose proof (take_token_spent now b) as H1. destruct (take_token now b) as [ok b1]. destruct H1 as (H1 & H2 & H3). specialize (H3 Ht Hnow Hr Hb).
  specialize (IH b1 H3). rewrite H2 in IH. specialize (IH Hall Hs). destruct (take_all times b1) as [n b2]. destruct IH as (I1 & I2 & I3). split_and!; [|done|].
  - rewrite Nat2Z.inj_add. destruct ok; lia.
  - rewrite I3. rewrite last_cons. by destruct (last times).
Qed.
End bucket.

(** A connection gets no more messages through, over any stretch of time, than its
    burst and the sustained rate of that stretch allow. *)
Theorem bucket_bounds ratePerSec burst start times : 0 <= ratePerSec -> 0 <= burst -> Forall (fun t => start <= t) times -> StronglySorted Z.le times ->
  Z.of_nat (take_all ratePerSec burst times (new_bucket burst start)).1 * 1000 <= burst * 1000 + (default start (last times) - start) * ratePerSec.
Proof.
  intros Hr Hb Hge Hs. pose proof (take_all_spent ratePerSec burst times (new_bucket burst start)) as H. cbn [new_bucket tb_tokens tb_last] in H.
  specialize (H Hr Hb ltac:(lia) Hge Hs). destruct (take_all _ _ _ _) as [n b]. destruct H as (H1 & H2 & H3). cbn [fst]. rewrite H3 in H1. lia.
Qed.

Lemma bucket_bounds_witness : Z.of_nat (take_all 5 3 [0; 10; 20; 30; 400; 1000] (new_bucket 3 0)).1 * 1000 <= 3 * 1000 + (1000 - 0) * 5.
Proof. apply (bucket_bounds 5 3 0 [0; 10; 20; 30; 400; 1000]); [lia|lia|repeat constructor; lia|repeat constructor; lia]. Defined.

(** * Client address *)

Definition comma : Ascii.ascii := Ascii.ascii_of_N 44.
Definition forwarded (header : string) : list string := filter (fun s => s <> ""%string) (trim <$> split_on comma header).
Definition resolveClientIp (remoteAddress : option string) (forwardedFor : option string) (trustedHops : Z) : string :=
  let socketIp := default "unknown"%string remoteAddress in
  match forwardedFor with
  | Some header =>
      if (trustedHops <=? 0) || bool_decide (header = ""%string) then socketIp
      else let chain := forwarded header ++ [socketIp] in
           default socketIp (chain !! Z.to_nat (Z.max 0 (Z.of_nat (length chain) - 1 - trustedHops)))
  | None => socketIp
  end.

(** Each trusted proxy appends the address it saw: with as many of them as are
    counted, nothing the client put into the header changes its address. *)
Theorem client_ip_not_spoofed socket header spoofed addr proxies : forwarded header = spoofed ++ addr :: proxies ->
  resolveClientIp socket (Some header) (Z.of_nat (S (length proxies))) = addr.
Proof.
  intros Hf. unfold resolveClientIp. case_bool_decide as Hh; [exfalso; rewrite Hh in Hf; by destruct spoofed|].
  rewrite (proj2 (Z.leb_gt _ _)) by lia. cbn [orb]. rewrite Hf, length_app, length_app. cbn [length].
  replace (Z.to_nat _) with (length spoofed) by lia. rewrite <-app_assoc, lookup_app_r, Nat.sub_diag by lia. done.
Qed.

Lemma client_ip_not_spoofed_witness : resolveClientIp (Some "10.0.0.2") (Some "1.1.1.1, 6.6.6.6, 203.0.113.7, 10.0.0.1") 2 = "203.0.113.7"%string.
Proof. by apply (client_ip_not_spoofed (Some "10.0.0.2") "1.1.1.1, 6.6.6.6, 203.0.113.7, 10.0.0.1" ["1.1.1.1"; "6.6.6.6"] "203.0.113.7" ["10.0.0.1"])%string. Defined.

(** * Outbound queue *)

Inductive Policy := drop_oldest | disconnect.
#[export] Instance Policy_eq : EqDecision Policy.
Proof. solve_decision. Defined.
Record OutboundLimits := { ol_queueMax : nat; ol_bufferBytes : Z; ol_policy : Policy }.
Inductive OutboundResult := sent | queued | dropped_oldest | disconnected.

Section outbound.
Context {Payload : Type} (size : Payload -> Z) (limits : OutboundLimits).

(** The socket: payloads handed to it and not yet acknowledged, and all it was handed. *)
Record ConnectionState := { cs_queue : list Payload; cs_closed : bool; cs_open : bool; cs_pending : list Payload; cs_written : list Payload }.
Definition new_connection : ConnectionState := {| cs_queue := []; cs_closed := false; cs_open := true; cs_pending := []; cs_written := [] |}.
Definition bufferedAmount (c : ConnectionState) : Z := sumZ size (cs_pending c).

Definition write (p : Payload) (c : ConnectionState) : ConnectionState :=
  {| cs_queue := cs_queue c; cs_closed := cs_closed c; cs_open := cs_open c; cs_pending := cs_pending c ++ [p]; cs_written := cs_written c ++ [p] |}.
Definition put_queue (q : list Payload) (c : ConnectionState) : ConnectionState :=
  {| cs_queue := q; cs_closed := cs_closed c; cs_open := cs_open c; cs_pending := cs_pending c; cs_written := cs_written c |}.
Definition close (c : ConnectionState) : ConnectionState :=
  {| cs_queue := []; cs_closed := true; cs_open := cs_open c; cs_pending := cs_pending c; cs_written := cs_written c |}.
Definition terminate (c : ConnectionState) : ConnectionState :=
  {| cs_queue := cs_queue c; cs_closed := cs_closed c; cs_open := false; cs_pending := []; cs_written := cs_written c |}.

Definition send (p : Payload) (c : ConnectionState) : OutboundResult * ConnectionState :=
  if cs_closed c || negb (cs_open c) then (sent, c)
  else if (length (cs_queue c) =? 0)%nat && (bufferedAmount c <? ol_bufferBytes limits) then (sent, write p c)
  else
    let c := put_queue (cs_queue c ++ [p]) c in
    if (length (cs_queue c) <=? ol_queueMax limits)%nat then (queued, c)
    else match ol_policy limits with
         | disconnect => (disconnected, terminate (close c))
         | drop_oldest => (dropped_oldest, put_queue (drop 1 (cs_queue c)) c)
         end.

(** One round per queued message. *)
Fixpoint flush_loop (queue : list Payload) (c : ConnectionState) : ConnectionState :=
  match queue with
  | [] => put_queue [] c
  | p :: rest => if negb (cs_closed c) && cs_open c && (bufferedAmount c <? ol_bufferBytes limits) then flush_loop rest (write p c) else put_queue queue c
  end.
Definition flush (c : ConnectionState) : ConnectionState := flush_loop (cs_queue c) c.

(** The callback of the oldest [send] runs once its bytes have left. *)
Definition acknowledged (c : ConnectionState) : ConnectionState :=
  match cs_pending c with
  | [] => c
  | _ :: pending => flush {| cs_queue := cs_queue c; cs_closed := cs_closed c; cs_open := cs_open c; cs_pending := pending; cs_written := cs_written c |}
  end.

Inductive ConnEvent := ev_send (p : Payload) | ev_ack | ev_close.
Definition conn_step (c : ConnectionState) (ev : ConnEvent) : ConnectionState :=
  match ev with ev_send p => (send p c).2 | ev_ack => acknowledged c | ev_close => terminate (close c) end.
Definition conn_run (evs : list ConnEvent) : ConnectionState := foldl conn_step new_connection evs.
Definition sends (evs : list ConnEvent) : list Payload := omap (fun ev => match ev with ev_send p => Some p | _ => None end) evs.

Context (max_size : Z).

Record conn_ok (c : ConnectionState) : Prop := {
  ok_queue : (length (cs_queue c) <= ol_queueMax limits)%nat;
  ok_buffered : bufferedAmount c <= Z.max 0 (ol_bufferBytes limits + max_size - 1);
  ok_moving : cs_queue c <> [] -> cs_closed c = false /\ (cs_open c = true -> ol_bufferBytes limits <= bufferedAmount c);
}.

Hypothesis sizes : forall p, 0 < size p <= max_size.

Lemma buffered_write p c : bufferedAmount (write p c) = bufferedAmount c + size p.
Proof. unfold bufferedAmount, write. cbn [cs_pending]. rewrite sumZ_app. cbn. lia. Qed.
Lemma buffered_nonneg c : 0 <= bufferedAmount c.
Proof. apply sumZ_nonneg. intros p _. pose proof (sizes p). lia. Qed.

Lemma flush_loop_ok queue c : (length queue <= ol_queueMax limits)%nat -> (queue <> [] -> cs_closed c = false) ->
  bufferedAmount c <= Z.max 0 (ol_bufferBytes limits + max_size - 1) -> conn_ok (flush_loop queue c).
Proof.
  revert c. induction queue as [|p queue IH]; intros c Hlen Hcl Hb; cbn [flush_loop]; [by split|].
  rewrite Hcl by done. cbn [negb andb]. destruct (cs_open c && (bufferedAmount c <? ol_bufferBytes limits)) eqn:E.
  - apply andb_true_iff in E as [_ E]. pose proof (sizes p). apply IH; [cbn in Hlen; lia|intros _; cbn [write cs_closed]; by apply Hcl|]. rewrite buffered_write. lia.
  - split; [done|done|]. intros _. cbn [put_queue cs_closed cs_open]. split; [by apply Hcl|]. intros Ho. rewrite Ho in E. change (bufferedAmount (put_queue _ c)) with (bufferedAmount c). cbn in E. lia.
Qed.

Lemma flush_loop_order queue c : cs_written (flush_loop queue c) ++ cs_queue (flush_loop queue c) = cs_written c ++ queue /\
  cs_pending (flush_loop queue c) ++ cs_queue (flush_loop queue c) = cs_pending c ++ queue /\ cs_open (flush_loop queue c) = cs_open c /\ cs_closed (flush_loop queue c) = cs_closed c.
Proof.
  revert c. induction queue as [|p queue IH]; intros c; cbn [flush_loop]; [done|]. destruct (_ && _); [|done]. destruct (IH (write p c)) as (H1 & H2 & H3 & H4).
  rewrite H1, H2, H3, H4. cbn [write cs_written cs_pending cs_open cs_closed]. by rewrite <-!app_assoc.
Qed.

Lemma conn_step_ok c ev : conn_ok c -> conn_ok (conn_step c ev).
Proof.
  intros [Hq Hb Hm]. destruct ev as [p| |]; cbn [conn_step].
  - unfold send. destruct (cs_closed c || negb (cs_open c)) eqn:Eo; [done|]. apply orb_false_iff in Eo as [Ecl Eo]. apply negb_false_iff in Eo.
    destruct ((length (cs_queue c) =? 0)%nat && (bufferedAmount c <? ol_bufferBytes limits)) eqn:E; cbn [snd].
    + apply andb_true_iff in E as [E1 E2]. apply Nat.eqb_eq, length_zero_iff_nil in E1. pose proof (sizes p).
      split; [done|rewrite buffered_write; lia|]. intros Hne. by destruct Hne.
    + assert (Hfull : ol_bufferBytes limits <= bufferedAmount c).
      { destruct (cs_queue c) as [|x q] eqn:Eq; [cbn in E; lia|]. by destruct (Hm ltac:(done)) as [_ ?]; auto. }
      destruct (_ <=? _)%nat eqn:El; cbn [snd put_queue cs_queue] in *; [split; [cbn; by apply Nat.leb_le|done|by intros _; split]|].
      destruct (ol_policy limits); cbn [snd].
      * split; [|done|by intros _; split]. cbn [put_queue cs_queue]. rewrite length_drop, length_app. cbn. lia.
      * split; [cbn; lia|cbn; lia|by intros []].
  - unfold acknowledged. destruct (cs_pending c) as [|x pending] eqn:Ep; [done|]. unfold flush. apply flush_loop_ok; [done|intros Hne; by apply Hm|].
    unfold bufferedAmount in Hb |- *. rewrite Ep in Hb. cbn [cs_pending]. cbn in Hb. pose proof (sizes x). lia.
  - split; [cbn; lia|cbn; lia|by intros []].
Qed.

Lemma sends_snoc evs ev : sends (evs ++ [ev]) = sends evs ++ match ev with ev_send p => [p] | _ => [] end.
Proof. unfold sends. rewrite omap_app. cbn. by destruct ev. Qed.

Lemma conn_run_inv evs : conn_ok (conn_run evs) /\ cs_written (conn_run evs) ++ cs_queue (conn_run evs) `sublist_of` sends evs.
Proof.
  induction evs as [|ev evs [IH1 IH2]] using rev_ind; [split; [|done]; split; [cbn; lia|cbn; lia|by intros []]|].
  unfold conn_run. rewrite foldl_app. change (foldl conn_step new_connection evs) with (conn_run evs). cbn [foldl]. split; [by apply conn_step_ok|]. rewrite sends_snoc.
  set (c := conn_run evs) in *. destruct ev as [p| |]; cbn [conn_step]; [|rewrite app_nil_r..].
  - unfold send. destruct (cs_closed c || negb (cs_open c)); [by apply sublist_inserts_r|]. destruct (_ && _) eqn:E; cbn [snd].
    + apply andb_true_iff in E as [E _]. apply Nat.eqb_eq, length_zero_iff_nil in E. cbn [write cs_written cs_queue]. rewrite E, app_nil_r in *. by apply sublist_app.
    + assert (H : cs_written c ++ cs_queue c ++ [p] `sublist_of` sends evs ++ [p]) by (rewrite app_assoc; by apply sublist_app).
      destruct (_ <=? _)%nat; [done|]. destruct (ol_policy limits); cbn [snd put_queue terminate close cs_written cs_queue].
      * etrans; [|exact H]. apply sublist_app; [done|]. apply sublist_drop.
      * etrans; [|exact H]. rewrite app_nil_r. by apply sublist_inserts_r.
  - unfold acknowledged. destruct (cs_pending c) as [|x pending]; [done|]. unfold flush. cbn [cs_queue].
    destruct (flush_loop_order (cs_queue c) {| cs_queue := cs_queue c; cs_closed := cs_closed c; cs_open := cs_open c; cs_pending := pending; cs_written := cs_written c |}) as [-> _]. done.
  - cbn [terminate close cs_written cs_queue]. rewrite app_nil_r. etrans; [|exact IH2]. by apply sublist_inserts_r.
Qed.

(** Whatever is sent, acknowledged or closed, in any order: the queue stays within
    its limit, the socket never holds more than one message beyond the byte limit,
    and what is written, then queued, are messages in the order of their sends. *)
Theorem outbound_bounded evs : let c := conn_run evs in
  (length (cs_queue c) <= ol_queueMax limits)%nat /\ bufferedAmount c <= Z.max 0 (ol_bufferBytes limits + max_size - 1) /\ cs_written c ++ cs_queue c `sublist_of` sends evs.
Proof. destruct (conn_run_inv evs) as [[H1 H2 _] H3]. done. Qed.

Lemma drains c : conn_ok c -> cs_open c = true -> 0 < ol_bufferBytes limits ->
  let c' := Nat.iter (length (cs_pending c ++ cs_queue c)) acknowledged c in cs_queue c' = [] /\ cs_pending c' = [] /\ cs_written c' = cs_written c ++ cs_queue c.
Proof.
  intros Hok Ho Hpos. remember (length (cs_pending c ++ cs_queue c)) as n eqn:Hn. revert c Hok Ho Hn. induction n as [|n IH]; intros c Hok Ho Hn; cbn zeta.
  - symmetry in Hn. apply length_zero_iff_nil, app_eq_nil in Hn as [Hp Hq]. change (Nat.iter 0 acknowledged c) with c. by rewrite Hp, Hq, app_nil_r.
  - destruct (cs_pending c) as [|x pending] eqn:Ep.
    { exfalso. assert (Hne : cs_queue c <> []) by (intros Eq; by rewrite Eq in Hn). destruct (ok_moving c Hok Hne) as [_ H]. specialize (H Ho). unfold bufferedAmount in H. rewrite Ep in H. cbn in H. lia. }
    rewrite Nat.iter_succ_r. pose proof (conn_step_ok c ev_ack Hok) as Hok'. cbn [conn_step] in Hok'.
    set (c0 := {| cs_queue := cs_queue c; cs_closed := cs_closed c; cs_open := cs_open c; cs_pending := pending; cs_written := cs_written c |}).
    assert (Ha : acknowledged c = flush_loop (cs_queue c) c0) by (unfold acknowledged; by rewrite Ep).
    destruct (flush_loop_order (cs_queue c) c0) as (F1 & F2 & F3 & F4). rewrite <-Ha in F1, F2, F3, F4. cbn [c0 cs_written cs_pending cs_open cs_closed] in *.
    destruct (IH (acknowledged c)) as (H1 & H2 & H3); [done|congruence|rewrite F2; cbn in Hn; lia|]. split_and!; [done|done|]. by rewrite H3, F1.
Qed.

(** Nothing stays behind: on an open connection, once the socket has acknowledged
    what it was handed, every queued message has been written, in order. *)
Theorem outbound_drains evs : cs_open (conn_run evs) = true -> 0 < ol_bufferBytes limits -> exists n, let c' := Nat.iter n acknowledged (conn_run evs) in
  cs_queue c' = [] /\ cs_pending c' = [] /\ cs_written c' = cs_written (conn_run evs) ++ cs_queue (conn_run evs).
Proof. intros Ho Hpos. eexists. by apply drains; [apply conn_run_inv|..]. Qed.
End outbound.

Lemma outbound_drains_witness : exists n, let c' := Nat.iter n (acknowledged (fun _ : nat => 1) {| ol_queueMax := 2; ol_bufferBytes := 1; ol_policy := drop_oldest |})
    (conn_run (fun _ => 1) {| ol_queueMax := 2; ol_bufferBytes := 1; ol_policy := drop_oldest |} (ev_send <$> [1; 2; 3; 4]%nat)) in
  cs_queue c' = [] /\ cs_pending c' = [] /\ cs_written c' = [1; 3; 4]%nat.
Proof.
  destruct (outbound_drains (fun _ : nat => 1) {| ol_queueMax := 2; ol_bufferBytes := 1; ol_policy := drop_oldest |} 1 ltac:(lia) (ev_send <$> [1; 2; 3; 4]%nat)) as [n H]; [done|done|].
  exists n. exact H.
Defined.
Lemma outbound_bounded_witness : let c := conn_run (fun _ : nat => 1) {| ol_queueMax := 2; ol_bufferBytes := 1; ol_policy := drop_oldest |} (ev_send <$> [1; 2; 3; 4]%nat) in
  (length (cs_queue c) <= 2)%nat /\ bufferedAmount (fun _ => 1) c <= Z.max 0 (1 + 1 - 1) /\ cs_written c ++ cs_queue c `sublist_of` [1; 2; 3; 4]%nat.
Proof. exact (outbound_bounded (fun _ : nat => 1) {| ol_queueMax := 2; ol_bufferBytes := 1; ol_policy := drop_oldest |} 1 ltac:(lia) (ev_send <$> [1; 2; 3; 4]%nat)). Defined.

(** * Encoding cache (intents/ws/encoding-cache.ts) *)

Inductive EncodingFormat := enc_json | enc_msgpack.

Section encoding.
(** [JSON.stringify] and [msgpackEncode] of an event with its number *)
Context {Event Bytes : Type} (stringify msgpackEncode : Z -> Event -> Bytes) (capacity : nat) (ttlMs : Z).

Record CachedEvent := { ce_json : Bytes; ce_msgpack : option Bytes; ce_createdAt : Z }.

Definition evictOldest (now : Z) (cache : jsmap CachedEvent) : jsmap CachedEvent :=
  let fresh := filter (fun kv : string * CachedEvent => now - ce_createdAt kv.2 <= ttlMs) cache in
  if (capacity <? length fresh)%nat then drop 1 fresh else fresh.

(** The entry is an object: setting its msgpack form changes the map's, if the map still has it. *)
Definition encode_event (seq : Z) (event : Event) (format : EncodingFormat) (now : Z) (cache : jsmap CachedEvent) : Bytes * jsmap CachedEvent :=
  let key := toString seq in
  let '(cached, cache) := match get key cache with
    | Some cached => (cached, cache)
    | None => let cached := {| ce_json := stringify seq event; ce_msgpack := None; ce_createdAt := now |} in (cached, evictOldest now (set key cached cache))
    end in
  match format with
  | enc_json => (ce_json cached, cache)
  | enc_msgpack =>
      match ce_msgpack cached with
      | Some b => (b, cache)
      | None => let b := msgpackEncode seq event in
                let cached := {| ce_json := ce_json cached; ce_msgpack := Some b; ce_createdAt := ce_createdAt cached |} in
                (b, if has key cache then set key cached cache else cache)
      end
  end.

Definition encoded (seq : Z) (event : Event) (format : EncodingFormat) : Bytes := match format with enc_json => stringify seq event | enc_msgpack => msgpackEncode seq event end.

Fixpoint encode_all (l : list (Z * EncodingFormat * Z)) (event_of : Z -> Event) (cache : jsmap CachedEvent) : list Bytes * jsmap CachedEvent :=
  match l with
  | [] => ([], cache)
  | (seq, format, now) :: l => let '(b, cache) := encode_event seq (event_of seq) format now cache in let '(bs, cache) := encode_all l event_of cache in (b :: bs, cache)
  end.

Record cache_ok (event_of : Z -> Event) (cache : jsmap CachedEvent) : Prop := {
  ec_size : (length cache <= capacity)%nat;
  ec_faithful : forall key c, (key, c) ∈ cache -> exists seq, key = toString seq /\ ce_json c = stringify seq (event_of seq) /\ (forall b, ce_msgpack c = Some b -> b = msgpackEncode seq (event_of seq));
}.

Lemma length_set {V} k (v : V) m : length (set k v m) = if has k m then length m else S (length m).
Proof. unfold has. induction m as [|[k' v'] m IH]; [done|]. cbn [set get]. case_bool_decide; [done|]. cbn [length]. rewrite IH. by destruct (get k m). Qed.

Lemma evict_ok now cache : (length cache <= S capacity)%nat -> (length (evictOldest now cache) <= capacity)%nat /\ evictOldest now cache ⊆ cache.
Proof.
  intros Hl. unfold evictOldest, jsmap in *. set (fresh := filter (fun kv : string * CachedEvent => now - ce_createdAt kv.2 <= ttlMs) cache). assert (Hf : (length fresh <= length cache)%nat) by apply length_filter.
  assert (Hs : fresh ⊆ cache) by (intros x Hx; by apply list_elem_of_filter in Hx as [_ Hx]). destruct (_ <? _)%nat eqn:E; [rewrite length_drop|].
  - split; [lia|]. etrans; [apply subseteq_drop|done].
  - apply Nat.ltb_ge in E. done.
Qed.

Lemma elem_of_set {V} k (v : V) m x : x ∈ set k v m -> x = (k, v) \/ x ∈ m.
Proof.
  induction m as [|[k' v'] m IH]; cbn [set]; [intros H; apply list_elem_of_singleton in H; by left|].
  case_bool_decide as Hk; intros Hx; apply elem_of_cons in Hx as [->|Hx].
  - left. by rewrite Hk.
  - right. by right.
  - right. by left.
  - apply IH in Hx as [?|?]; [by left|right; by right].
Qed.

Lemma encode_event_ok event_of seq format now cache : cache_ok event_of cache ->
  (encode_event seq (event_of seq) format now cache).1 = encoded seq (event_of seq) format /\ cache_ok event_of (encode_event seq (event_of seq) format now cache).2.
Proof.
  intros Hok. unfold encode_event.
  set (pair := match get (toString seq) cache with Some c => (c, cache) | None => _ end).
  assert (Hp : cache_ok event_of pair.2 /\ ce_json pair.1 = stringify seq (event_of seq) /\ (forall b, ce_msgpack pair.1 = Some b -> b = msgpackEncode seq (event_of seq))).
  { unfold pair. destruct (get (toString seq) cache) as [c|] eqn:Eg; cbn [fst snd].
    - split; [done|]. apply get_elem_of in Eg. destruct (ec_faithful _ _ Hok _ _ Eg) as (seq' & Hs & Hc). apply (f_equal BigInt) in Hs. rewrite !BigInt_toString in Hs. injection Hs as <-. done.
    - split; [|done]. set (c := {| ce_json := _; ce_msgpack := _; ce_createdAt := _ |}). destruct (evict_ok now (set (toString seq) c cache)) as [Hl Hsub].
      { rewrite length_set. pose proof (ec_size _ _ Hok). destruct (has _ _); lia. }
      split; [done|]. intros key c' Hin. apply Hsub in Hin. apply elem_of_set in Hin as [[= -> ->]|Hin]; [by exists seq|by apply (ec_faithful _ _ Hok)]. }
  destruct pair as [c cache1]. cbn [fst snd] in Hp. destruct Hp as (Hok1 & Hj & Hm). destruct format; cbn [encoded]; [done|].
  destruct (ce_msgpack c) as [b|] eqn:Em; cbn [fst snd]; [split; [by apply Hm|done]|]. split; [done|].
  destruct (has (toString seq) cache1) eqn:Eh; [|done]. split.
  - rewrite length_set, Eh. apply Hok1.
  - intros key c' Hin. apply elem_of_set in Hin as [[= -> ->]|Hin]; [|by apply (ec_faithful _ _ Hok1)]. exists seq. cbn. split_and!; [done|done|]. by intros b [= <-].
Qed.

(** The cache never answers anything but the encoding of the event asked for, at any
    capacity and lifetime, and never holds more than its capacity. *)
Theorem encoding_cache_transparent l event_of : let '(answers, cache) := encode_all l event_of [] in
  answers = (fun '(seq, format, _) => encoded seq (event_of seq) format) <$> l /\ (length cache <= capacity)%nat.
Proof.
  assert (H : forall cache, cache_ok event_of cache -> let '(answers, cache) := encode_all l event_of cache in
    answers = (fun '(seq, format, _) => encoded seq (event_of seq) format) <$> l /\ (length cache <= capacity)%nat).
  { induction l as [|[[seq format] now] l IH]; intros cache Hok; [split; [done|apply Hok]|]. cbn [encode_all].
    destruct (encode_event_ok event_of seq format now cache Hok) as [H1 H2]. destruct (encode_event seq (event_of seq) format now cache) as [b cache1]. cbn [fst snd] in H1, H2.
    specialize (IH cache1 H2). destruct (encode_all l event_of cache1) as [bs cache2]. destruct IH as [-> ?]. cbn [fmap list_fmap]. by rewrite H1. }
  apply H. split; [cbn; lia|]. intros key c Hin. by apply elem_of_nil in Hin.
Qed.
End encoding.
