(* ===== verification/Credentials.v ===== *)
(** Scoped solver credentials (auth/solver-credentials/, auth/credential-hashing.ts).

    One table of credentials, of which only a digest of the secret is stored, and on
    every replica a cache of verified credentials and a set of revoked ids.  A
    revocation is written, applied locally and published; each subscriber applies it
    when the message is delivered.  Programs interleave at every await; the clock is
    part of the state. *)
From S2P Require Import Prelude JsMap BigInt Prog IpAllowlist Connections.
From stdpp Require Import relations.
Local Open Scope string_scope.
Local Open Scope list_scope.
Local Open Scope Z_scope.
Local Open Scope prog_scope.

Definition CACHE_TTL_MS : Z := 60000.
Definition CREDENTIAL_PREFIX_LENGTH : nat := 8.
Definition SOLVER_SCOPES : list string := ["solver:read"; "intents:read"; "quote:respond"; "intents:accept"; "intents:fill"; "solver:update"; "solver:deregister"].
Definition SCOPE_REQUIREMENTS : jsmap string := (fun s => (s, s)) <$> SOLVER_SCOPES.

Record SolverCredentialRecord := {
  sc_id : string; sc_credPrefix : string; sc_credHash : string; sc_solverAddress : string; sc_scopes : list string; sc_ipAllowlist : option (list string);
  sc_createdAt : Z; sc_expiresAt : option Z; sc_revokedAt : option Z; sc_rotatedAt : option Z; sc_lastUsedAt : option Z; sc_lastWarnedAt : option Z;
}.
Record CachedCredential := { cc_record : SolverCredentialRecord; cc_expiresAt : Z }.
Record SolverCredentialPrincipal := { pr_credentialId : string; pr_credPrefix : string; pr_solverAddress : string; pr_scopes : list string; pr_ipAllowlist : option (list string) }.
Inductive RevocationReason := rr_revoked | rr_rotated | rr_solver_disabled.
Record CredentialRevocationMessage := { rm_credentialId : string; rm_credPrefix : string; rm_solverAddress : string; rm_revokedAt : Z; rm_reason : RevocationReason }.

(** A replica of the service. *)
Record Replica := { rp_activeCache : jsmap CachedCredential; rp_revokedSet : list string }.
Definition fresh_replica : Replica := {| rp_activeCache := []; rp_revokedSet := [] |}.
Record AuditNote := { an_actor : string; an_action : string; an_target : string }.

(** [cw_touches] are updates of [lastUsedAt] that were issued and not awaited. *)
Record CredWorld := {
  cw_rows : list SolverCredentialRecord; cw_replica : nat -> Replica; cw_subscribers : list nat; cw_bus : list (nat * CredentialRevocationMessage);
  cw_audit : list AuditNote; cw_touches : list (string * Z); cw_now : Z;
}.
Inductive CredError := cr_database | cr_not_found | cr_conflict | cr_audit | cr_type_error | cr_forbidden (why : string).

(** Which calls of this request answer. *)
Record CredEnv := { ce_find : bool; ce_write : bool; ce_publish : bool; ce_audit : bool }.
Notation CM := (prog CredWorld CredError).

Definition put_rows (rows : list SolverCredentialRecord) (w : CredWorld) : CredWorld :=
  {| cw_rows := rows; cw_replica := cw_replica w; cw_subscribers := cw_subscribers w; cw_bus := cw_bus w; cw_audit := cw_audit w; cw_touches := cw_touches w; cw_now := cw_now w |}.
Definition alter_replica (r : nat) (f : Replica -> Replica) (w : CredWorld) : CredWorld :=
  {| cw_rows := cw_rows w; cw_replica := fun i => if bool_decide (i = r) then f (cw_replica w i) else cw_replica w i; cw_subscribers := cw_subscribers w; cw_bus := cw_bus w;
     cw_audit := cw_audit w; cw_touches := cw_touches w; cw_now := cw_now w |}.
Definition put_bus (bus : list (nat * CredentialRevocationMessage)) (w : CredWorld) : CredWorld :=
  {| cw_rows := cw_rows w; cw_replica := cw_replica w; cw_subscribers := cw_subscribers w; cw_bus := bus; cw_audit := cw_audit w; cw_touches := cw_touches w; cw_now := cw_now w |}.
Definition put_notes (notes : list AuditNote) (w : CredWorld) : CredWorld :=
  {| cw_rows := cw_rows w; cw_replica := cw_replica w; cw_subscribers := cw_subscribers w; cw_bus := cw_bus w; cw_audit := notes; cw_touches := cw_touches w; cw_now := cw_now w |}.
Definition put_touches (t : list (string * Z)) (w : CredWorld) : CredWorld :=
  {| cw_rows := cw_rows w; cw_replica := cw_replica w; cw_subscribers := cw_subscribers w; cw_bus := cw_bus w; cw_audit := cw_audit w; cw_touches := t; cw_now := cw_now w |}.
Definition put_now (now : Z) (w : CredWorld) : CredWorld :=
  {| cw_rows := cw_rows w; cw_replica := cw_replica w; cw_subscribers := cw_subscribers w; cw_bus := cw_bus w; cw_audit := cw_audit w; cw_touches := cw_touches w; cw_now := now |}.
Definition sec (w : CredWorld) : Z := cw_now w / 1000.

(** * Hashing *)

Section credentials.
(** SHA-256 of a secret, in hex *)
Variable hashCredential : string -> string.

Record GeneratedCredential := { gc_plaintext : string; gc_prefix : string; gc_hash : string }.
(** [secret] is what [randomBytes] gave. *)
Definition generateCredential (secret : string) : GeneratedCredential :=
  {| gc_plaintext := secret; gc_prefix := String.substring 0 CREDENTIAL_PREFIX_LENGTH secret; gc_hash := hashCredential secret |}.
Definition verifyCredential (secret expectedHash : string) : bool := bool_decide (hashCredential secret = expectedHash).

(** * Repository *)

Definition find_row {A} (e : CredEnv) (f : CredWorld -> A) : CM A := if ce_find e then reads f else Throw cr_database.
Definition findByPrefix (prefix : string) (w : CredWorld) : option SolverCredentialRecord := snd <$> list_find (fun c => sc_credPrefix c = prefix) (cw_rows w).
Definition findById (id : string) (w : CredWorld) : option SolverCredentialRecord := snd <$> list_find (fun c => sc_id c = id) (cw_rows w).
Definition listBySolver (solver : string) (w : CredWorld) : list SolverCredentialRecord :=
  sort_by (fun a b => sc_createdAt b - sc_createdAt a) (filter (fun c => sc_solverAddress c = solver) (cw_rows w)).
Definition findExpiringBetween (nowSec untilSec : Z) (w : CredWorld) : list SolverCredentialRecord :=
  sort_by (fun a b => default 0 (sc_expiresAt a) - default 0 (sc_expiresAt b))
    (filter (fun c => sc_revokedAt c = None /\ (match sc_expiresAt c with Some t => (nowSec <=? t) && (t <=? untilSec) | None => false end) = true) (cw_rows w)).

Definition set_ipAllowlist (l : option (list string)) (c : SolverCredentialRecord) : SolverCredentialRecord :=
  {| sc_id := sc_id c; sc_credPrefix := sc_credPrefix c; sc_credHash := sc_credHash c; sc_solverAddress := sc_solverAddress c; sc_scopes := sc_scopes c; sc_ipAllowlist := l;
     sc_createdAt := sc_createdAt c; sc_expiresAt := sc_expiresAt c; sc_revokedAt := sc_revokedAt c; sc_rotatedAt := sc_rotatedAt c; sc_lastUsedAt := sc_lastUsedAt c; sc_lastWarnedAt := sc_lastWarnedAt c |}.
Definition set_times (revoked rotated used warned : option Z) (c : SolverCredentialRecord) : SolverCredentialRecord :=
  {| sc_id := sc_id c; sc_credPrefix := sc_credPrefix c; sc_credHash := sc_credHash c; sc_solverAddress := sc_solverAddress c; sc_scopes := sc_scopes c; sc_ipAllowlist := sc_ipAllowlist c;
     sc_createdAt := sc_createdAt c; sc_expiresAt := sc_expiresAt c; sc_revokedAt := revoked; sc_rotatedAt := rotated; sc_lastUsedAt := used; sc_lastWarnedAt := warned |}.
Definition set_revoked (t : Z) (c : SolverCredentialRecord) : SolverCredentialRecord := set_times (Some t) (sc_rotatedAt c) (sc_lastUsedAt c) (sc_lastWarnedAt c) c.
Definition set_rotated (t : Z) (c : SolverCredentialRecord) : SolverCredentialRecord := set_times (sc_revokedAt c) (Some t) (sc_lastUsedAt c) (sc_lastWarnedAt c) c.
Definition set_used (t : Z) (c : SolverCredentialRecord) : SolverCredentialRecord := set_times (sc_revokedAt c) (sc_rotatedAt c) (Some t) (sc_lastWarnedAt c) c.
Definition set_warned (t : Z) (c : SolverCredentialRecord) : SolverCredentialRecord := set_times (sc_revokedAt c) (sc_rotatedAt c) (sc_lastUsedAt c) (Some t) c.

(** [update({ where: { id } })] rejects when there is no such row. *)
Definition alter_row (id : string) (f : SolverCredentialRecord -> SolverCredentialRecord) (w : CredWorld) : option SolverCredentialRecord * CredWorld :=
  match findById id w with
  | Some c => (Some (f c), put_rows ((fun c => if bool_decide (sc_id c = id) then f c else c) <$> cw_rows w) w)
  | None => (None, w)
  end.
Definition update_row (e : CredEnv) (id : string) (f : CredWorld -> SolverCredentialRecord -> SolverCredentialRecord) : CM SolverCredentialRecord :=
  if ce_write e then r <- atomic (fun w => alter_row id (f w) w); match r with Some c => Done c | None => Throw cr_not_found end else Throw cr_database.

(** The id is the database's, the prefix unique. *)
Definition insert_row (c : Z -> SolverCredentialRecord) (w : CredWorld) : option SolverCredentialRecord * CredWorld :=
  let c := c (sec w) in
  if bool_decide (sc_id c ∈ sc_id <$> cw_rows w) || bool_decide (sc_credPrefix c ∈ sc_credPrefix <$> cw_rows w) then (None, w) else (Some c, put_rows (cw_rows w ++ [c]) w).
Definition create (e : CredEnv) (id : string) (g : GeneratedCredential) (solver : string) (scopes : list string) (allow : option (list string)) (expiresAt : option Z) : CM SolverCredentialRecord :=
  if ce_write e then
    r <- atomic (insert_row (fun now => {| sc_id := id; sc_credPrefix := gc_prefix g; sc_credHash := gc_hash g; sc_solverAddress := solver; sc_scopes := scopes; sc_ipAllowlist := allow;
      sc_createdAt := now; sc_expiresAt := expiresAt; sc_revokedAt := None; sc_rotatedAt := None; sc_lastUsedAt := None; sc_lastWarnedAt := None |}));
    match r with Some c => Done c | None => Throw cr_conflict end
  else Throw cr_database.

Definition unrevoked (solver : string) (c : SolverCredentialRecord) : bool := bool_decide (sc_solverAddress c = solver) && bool_decide (sc_revokedAt c = None).
Definition sweep_solver (solver : string) (nowSec : Z) (w : CredWorld) : nat * CredWorld :=
  (length (filter (fun c => unrevoked solver c = true) (cw_rows w)), put_rows ((fun c => if unrevoked solver c then set_revoked nowSec c else c) <$> cw_rows w) w).

(** The update behind a [void]: it runs on its own and swallows its failure. *)
Definition touchLastUsed (e : CredEnv) : CM unit :=
  next <- reads (fun w => head (cw_touches w));
  match next with
  | None => Done tt
  | Some (id, nowSec) => modify (fun w => put_touches (drop 1 (cw_touches w)) w);;; pcatch (fun _ => Done tt) (update_row e id (fun _ => set_used nowSec);;; Done tt)
  end.

Definition record_audit (e : CredEnv) (n : AuditNote) : CM unit := if ce_audit e then modify (fun w => put_notes (cw_audit w ++ [n]) w) else Throw cr_audit.
Definition target_of (id : string) : string := "solver-credential:" +:+ id.

(** * Service, on replica [r] *)

Definition createCredential (e : CredEnv) (id secret solver : string) (scopes : list string) (allow : option (list string)) (expiresAt : option Z) : CM (SolverCredentialRecord * string) :=
  let g := generateCredential secret in
  record <- create e id g solver scopes allow expiresAt;
  record_audit e {| an_actor := solver; an_action := "solver-credential.create"; an_target := target_of (sc_id record) |};;;
  Done (record, gc_plaintext g).

Definition toPrincipal (c : SolverCredentialRecord) : SolverCredentialPrincipal :=
  {| pr_credentialId := sc_id c; pr_credPrefix := sc_credPrefix c; pr_solverAddress := sc_solverAddress c; pr_scopes := sc_scopes c; pr_ipAllowlist := sc_ipAllowlist c |}.

Definition add_revoked (id : string) (p : Replica) : Replica :=
  {| rp_activeCache := rp_activeCache p; rp_revokedSet := if bool_decide (id ∈ rp_revokedSet p) then rp_revokedSet p else rp_revokedSet p ++ [id] |}.
Definition drop_cached (prefix : string) (p : Replica) : Replica := {| rp_activeCache := del prefix (rp_activeCache p); rp_revokedSet := rp_revokedSet p |}.
Definition put_cached (prefix : string) (c : CachedCredential) (p : Replica) : Replica := {| rp_activeCache := set prefix c (rp_activeCache p); rp_revokedSet := rp_revokedSet p |}.

(** Up to the first await: the answer of the cache, if it has one. *)
Definition cached_answer (r : nat) (plaintext prefix : string) (nowSec : Z) (w : CredWorld) : option (option SolverCredentialPrincipal) :=
  let p := cw_replica w r in
  match get prefix (rp_activeCache p) with
  | Some cached =>
      if nowSec * 1000 <? cc_expiresAt cached then
        Some (if bool_decide (sc_id (cc_record cached) ∈ rp_revokedSet p) then None
              else if negb (verifyCredential plaintext (sc_credHash (cc_record cached))) then None else Some (toPrincipal (cc_record cached)))
      else None
  | None => None
  end.

(** After it, in one go. *)
Definition settle (r : nat) (plaintext prefix : string) (nowSec : Z) (found : option SolverCredentialRecord) (w : CredWorld) : option SolverCredentialPrincipal * CredWorld :=
  match found with
  | None => (None, w)
  | Some record =>
      if bool_decide (sc_id record ∈ rp_revokedSet (cw_replica w r)) then (None, w)
      else match sc_revokedAt record with
           | Some _ => (None, alter_replica r (add_revoked (sc_id record)) w)
           | None =>
               if match sc_expiresAt record with Some t => t <=? nowSec | None => false end then (None, w)
               else if negb (verifyCredential plaintext (sc_credHash record)) then (None, w)
               else (Some (toPrincipal record),
                     put_touches (cw_touches w ++ [(sc_id record, nowSec)]) (alter_replica r (put_cached prefix {| cc_record := record; cc_expiresAt := cw_now w + CACHE_TTL_MS |}) w))
           end
  end.

Definition resolveCredential (e : CredEnv) (r : nat) (plaintext : string) (nowSec : Z) : CM (option SolverCredentialPrincipal) :=
  if (String.length plaintext <? 16)%nat then Done None
  else
    let prefix := String.substring 0 8 plaintext in
    hit <- reads (cached_answer r plaintext prefix nowSec);
    match hit with
    | Some answer => Done answer
    | None => found <- find_row e (findByPrefix prefix); atomic (settle r plaintext prefix nowSec found)
    end.

Definition publish (msg : Z -> CredentialRevocationMessage) (w : CredWorld) : CredWorld := put_bus (cw_bus w ++ ((fun r => (r, msg (sec w))) <$> cw_subscribers w)) w.
Definition onRevocationMessage (msg : CredentialRevocationMessage) (p : Replica) : Replica :=
  let p := add_revoked (rm_credentialId msg) p in if bool_decide (rm_credPrefix msg = "") then p else drop_cached (rm_credPrefix msg) p.
(** The bus hands the [n]th message in flight to its subscriber. *)
Definition deliver_nth (n : nat) (w : CredWorld) : CredWorld :=
  match cw_bus w !! n with Some (r, msg) => put_bus (delete n (cw_bus w)) (alter_replica r (onRevocationMessage msg) w) | None => w end.
Definition deliver (n : nat) : CM unit := modify (deliver_nth n).

Definition revokeCredential (e : CredEnv) (r : nat) (id : string) (reason : RevocationReason) : CM unit :=
  record <- find_row e (findById id);
  update_row e id (fun w => set_revoked (sec w));;;
  let prefix := default "" (sc_credPrefix <$> record) in
  modify (alter_replica r (fun p => drop_cached prefix (add_revoked id p)));;;
  (if ce_publish e then modify (publish (fun now => {| rm_credentialId := id; rm_credPrefix := prefix; rm_solverAddress := default "" (sc_solverAddress <$> record); rm_revokedAt := now; rm_reason := reason |}))
   else Done tt);;;
  record_audit e {| an_actor := default "system" (sc_solverAddress <$> record); an_action := "solver-credential.revoke"; an_target := target_of id |}.

Definition rotateCredential (e : CredEnv) (r : nat) (id newId secret : string) (newScopes : option (list string)) : CM (option (SolverCredentialRecord * string)) :=
  current <- find_row e (findById id);
  match current with
  | None => Done None
  | Some current =>
      let g := generateCredential secret in
      record <- create e newId g (sc_solverAddress current) (default (sc_scopes current) newScopes) (sc_ipAllowlist current) (sc_expiresAt current);
      update_row e id (fun w => set_rotated (sec w));;;
      revokeCredential e r id rr_rotated;;;
      record_audit e {| an_actor := sc_solverAddress current; an_action := "solver-credential.rotate"; an_target := target_of id |};;;
      Done (Some (record, gc_plaintext g))
  end.

Definition bad_entry (entries : list string) : bool := existsb (fun entry => match parseAllowlistEntry entry with invalid _ => true | _ => false end) entries.
(** The message of a rejected entry is asked for with the parsed entry in place of
    its text, which has no [trim]. *)
Definition updateIpAllowlist (e : CredEnv) (r : nat) (id : string) (entries : option (list string)) : CM (option SolverCredentialRecord) :=
  if match entries with Some l => bad_entry l | None => false end then Throw cr_type_error
  else
      current <- find_row e (findById id);
      match current with
      | None => Done None
      | Some current =>
          record <- update_row e id (fun _ => set_ipAllowlist entries);
          modify (alter_replica r (drop_cached (sc_credPrefix record)));;;
          record_audit e {| an_actor := sc_solverAddress current; an_action := "solver-credential.ip-allowlist.update"; an_target := target_of id |};;;
          Done (Some record)
      end.

Definition disableAllForSolver (e : CredEnv) (r : nat) (solver : string) : CM nat :=
  nowSec <- reads sec;
  credentials <- find_row e (listBySolver solver);
  disabled <- pfold (fun n cred => match sc_revokedAt cred with Some _ => Done n | None => revokeCredential e r (sc_id cred) rr_solver_disabled;;; Done (S n) end) O credentials;
  swept <- (if ce_write e then atomic (sweep_solver solver nowSec) else Throw cr_database);
  Done (disabled + swept)%nat.

Definition markExpiryWarned (e : CredEnv) (id : string) (nowSec : Z) : CM unit := update_row e id (fun _ => set_warned nowSec);;; Done tt.
Definition advance (ms : Z) : CM unit := modify (fun w => put_now (cw_now w + Z.max 0 ms) w).

(** * Guards *)

Definition scopeAllows (granted : list string) (operation : string) : bool := match get operation SCOPE_REQUIREMENTS with Some required => bool_decide (required ∈ granted) | None => false end.
Definition service_scopeAllows (p : option SolverCredentialPrincipal) (operation : string) : bool := match p with Some p => scopeAllows (pr_scopes p) operation | None => false end.
Definition scope_canActivate (required : option string) (p : option SolverCredentialPrincipal) : outcome CredError bool :=
  match required with
  | None => Ok true
  | Some required =>
      if bool_decide (required = "") then Ok true
      else match p with
           | None => Err (cr_forbidden "A valid solver credential is required for this operation")
           | Some _ => if service_scopeAllows p required then Ok true else Err (cr_forbidden ("Solver credential lacks the required scope: " +:+ required))
           end
  end.

Record CredentialRequest := { rq_authorization : option string; rq_credential : option string; rq_remoteAddress : option string; rq_forwardedFor : option string }.
Definition extractCredential (q : CredentialRequest) : option string :=
  let token := match rq_authorization q with
    | Some auth => if String.prefix "Bearer " auth then let t := trim (String.substring 7 (String.length auth - 7) auth) in if bool_decide (t = "") then None else Some t else None
    | None => None
    end in
  match token with Some t => Some t | None => match rq_credential q with Some h => if bool_decide (h = "") then None else Some h | None => None end end.
Definition ipAllowed (trustProxyHops : Z) (q : CredentialRequest) (p : SolverCredentialPrincipal) : bool :=
  match pr_ipAllowlist p with
  | None | Some [] => true
  | Some l => ipMatchesAllowlist (Some (resolveClientIp (rq_remoteAddress q) (rq_forwardedFor q) trustProxyHops)) (Some l)
  end.
(** The principal attached to the request. *)
Definition credential_canActivate (e : CredEnv) (r : nat) (trustProxyHops : Z) (q : CredentialRequest) (nowSec : Z) : CM (option SolverCredentialPrincipal) :=
  principal <- match extractCredential q with Some presented => resolveCredential e r presented nowSec | None => Done None end;
  match principal with
  | Some p => if ipAllowed trustProxyHops q p then Done (Some p) else Throw (cr_forbidden "Solver credential is not permitted from this source address")
  | None => Done None
  end.

(** * Any interleaving of calls on any replicas *)

Inductive CredCall :=
  | c_create (e : CredEnv) (id secret solver : string) (scopes : list string) (allow : option (list string)) (expiresAt : option Z)
  | c_resolve (e : CredEnv) (r : nat) (plaintext : string) (nowSec : Z)
  | c_guard (e : CredEnv) (r : nat) (trustProxyHops : Z) (q : CredentialRequest) (nowSec : Z)
  | c_revoke (e : CredEnv) (r : nat) (id : string) (reason : RevocationReason)
  | c_rotate (e : CredEnv) (r : nat) (id newId secret : string) (newScopes : option (list string))
  | c_allowlist (e : CredEnv) (r : nat) (id : string) (entries : option (list string))
  | c_disable (e : CredEnv) (r : nat) (solver : string)
  | c_warn (e : CredEnv) (id : string) (nowSec : Z)
  | c_touch (e : CredEnv) | c_deliver (n : nat) | c_advance (ms : Z).
Definition silent {A} (p : CM A) : CM (option SolverCredentialPrincipal) := p;;; Done None.
Definition call_prog (c : CredCall) : CM (option SolverCredentialPrincipal) :=
  match c with
  | c_create e id secret solver scopes allow expiresAt => silent (createCredential e id secret solver scopes allow expiresAt)
  | c_resolve e r plaintext nowSec => resolveCredential e r plaintext nowSec
  | c_guard e r hops q nowSec => credential_canActivate e r hops q nowSec
  | c_revoke e r id reason => silent (revokeCredential e r id reason)
  | c_rotate e r id newId secret newScopes => silent (rotateCredential e r id newId secret newScopes)
  | c_allowlist e r id entries => silent (updateIpAllowlist e r id entries)
  | c_disable e r solver => silent (disableAllForSolver e r solver)
  | c_warn e id nowSec => silent (markExpiryWarned e id nowSec)
  | c_touch e => silent (touchLastUsed e)
  | c_deliver n => silent (deliver n)
  | c_advance ms => silent (advance ms)
  end.
(** Where a call authenticates, and the secret it was given. *)
Definition call_replica (c : CredCall) : option nat := match c with c_resolve _ r _ _ => Some r | c_guard _ r _ _ _ => Some r | _ => None end.
Definition call_secret (c : CredCall) : option string := match c with c_resolve _ _ plaintext _ => Some plaintext | c_guard _ _ _ q _ => extractCredential q | _ => None end.

(** What no update of a row changes. *)
Definition core (c : SolverCredentialRecord) : string * string * string * string * list string * option Z :=
  (sc_id c, sc_credPrefix c, sc_credHash c, sc_solverAddress c, sc_scopes c, sc_expiresAt c).
Definition revoked_row (id : string) (w : CredWorld) : Prop := exists c, c ∈ cw_rows w /\ sc_id c = id /\ sc_revokedAt c <> None.
Definition announced (r : nat) (id : string) (w : CredWorld) : Prop := id ∈ rp_revokedSet (cw_replica w r) \/ exists msg, (r, msg) ∈ cw_bus w /\ rm_credentialId msg = id.

(** Ids and prefixes are unique, and a cached record is that of a row. *)
Record creds_ok (w : CredWorld) : Prop := {
  co_ids : NoDup (sc_id <$> cw_rows w); co_prefixes : NoDup (sc_credPrefix <$> cw_rows w);
  co_cached : forall r k c, (k, c) ∈ rp_activeCache (cw_replica w r) -> core (cc_record c) ∈ core <$> cw_rows w;
}.
Record creds_grow (w w' : CredWorld) : Prop := {
  cg_rows : forall x, x ∈ core <$> cw_rows w -> x ∈ core <$> cw_rows w'; cg_subscribers : cw_subscribers w' = cw_subscribers w;
  cg_sets : forall r id, id ∈ rp_revokedSet (cw_replica w r) -> id ∈ rp_revokedSet (cw_replica w' r);
  cg_announced : forall r id, announced r id w -> announced r id w'; cg_revoked : forall id, revoked_row id w -> revoked_row id w';
}.

#[local] Instance creds_grow_refl : Reflexive creds_grow.
Proof. by split. Qed.
#[local] Instance creds_grow_trans : Transitive creds_grow.
Proof. intros w1 w2 w3 [] []. split; eauto. congruence. Qed.

(** ** Steps *)

Definition good_step (f : CredWorld -> CredWorld) : Prop := forall w, creds_ok w -> creds_ok (f w) /\ creds_grow w (f w).

(** Rows, replicas and the bus stay. *)
Lemma good_frame (f : CredWorld -> CredWorld) :
  (forall w, cw_rows (f w) = cw_rows w /\ cw_replica (f w) = cw_replica w /\ cw_subscribers (f w) = cw_subscribers w /\ cw_bus (f w) = cw_bus w) -> good_step f.
Proof.
  intros Hf w [H1 H2 H3]. destruct (Hf w) as (E1 & E2 & E3 & E4). split; [split; rewrite ?E1, ?E2; done|].
  split; unfold announced, revoked_row; rewrite ?E1, ?E2, ?E3, ?E4; done.
Qed.

(** A row may change as long as its core and its revocation stay. *)
Definition row_kept (f : SolverCredentialRecord -> SolverCredentialRecord) : Prop := forall c, core (f c) = core c /\ (sc_revokedAt c <> None -> sc_revokedAt (f c) <> None).

Lemma good_map_rows (f : SolverCredentialRecord -> SolverCredentialRecord) w : row_kept f -> creds_ok w -> creds_ok (put_rows (f <$> cw_rows w) w) /\ creds_grow w (put_rows (f <$> cw_rows w) w).
Proof.
  intros Hf [H1 H2 H3]. assert (Hc : core <$> (f <$> cw_rows w) = core <$> cw_rows w) by (rewrite <-list_fmap_compose; apply list_fmap_ext; intros ? ? _; by destruct (Hf x)).
  assert (Hproj : forall {B} (g : _ -> B), (g ∘ core) <$> (f <$> cw_rows w) = (g ∘ core) <$> cw_rows w) by (intros B g; by rewrite !list_fmap_compose, Hc).
  split; [split|split]; cbn [put_rows cw_rows cw_replica cw_subscribers].
  - pose proof (Hproj _ (fun x => x.1.1.1.1.1)) as Hp. change (sc_id <$> (f <$> cw_rows w) = sc_id <$> cw_rows w) in Hp. by rewrite Hp.
  - pose proof (Hproj _ (fun x => x.1.1.1.1.2)) as Hp. change (sc_credPrefix <$> (f <$> cw_rows w) = sc_credPrefix <$> cw_rows w) in Hp. by rewrite Hp.
  - intros r k c Hc'. rewrite Hc. by eapply H3.
  - intros x. by rewrite Hc.
  - done.
  - done.
  - done.
  - intros id (c & Hin & Hid & Hr). exists (f c). destruct (Hf c) as [Hcore Hrev]. split_and!; [by apply list_elem_of_fmap_2| |by apply Hrev]. unfold core in Hcore. congruence.
Qed.

Lemma alter_row_good id f w : row_kept f -> creds_ok w -> creds_ok (alter_row id f w).2 /\ creds_grow w (alter_row id f w).2.
Proof.
  intros Hf Hok. unfold alter_row. destruct (findById id w); [|by split]. cbn [snd]. apply good_map_rows; [|done]. intros c. case_bool_decide; [apply Hf|done].
Qed.

Lemma row_kept_revoked t : row_kept (set_revoked t).  Proof. by intros c. Qed.
Lemma row_kept_rotated t : row_kept (set_rotated t).  Proof. by intros c. Qed.
Lemma row_kept_used t : row_kept (set_used t).  Proof. by intros c. Qed.
Lemma row_kept_warned t : row_kept (set_warned t).  Proof. by intros c. Qed.
Lemma row_kept_allowlist l : row_kept (set_ipAllowlist l).  Proof. by intros c. Qed.

Lemma insert_row_good c w : creds_ok w -> creds_ok (insert_row c w).2 /\ creds_grow w (insert_row c w).2.
Proof.
  intros Hok. unfold insert_row. set (row := c (sec w)). destruct (bool_decide _ || bool_decide _) eqn:E; [by split|]. apply orb_false_iff in E as [E1 E2]. apply bool_decide_eq_false in E1, E2.
  destruct Hok as [H1 H2 H3]. cbn [snd]. split; [split|split]; cbn [put_rows cw_rows cw_replica cw_subscribers].
  - rewrite fmap_app. apply NoDup_app. split_and!; [done| |apply NoDup_singleton]. intros x Hx Hy. apply list_elem_of_singleton in Hy as ->. done.
  - rewrite fmap_app. apply NoDup_app. split_and!; [done| |apply NoDup_singleton]. intros x Hx Hy. apply list_elem_of_singleton in Hy as ->. done.
  - intros r k c' Hc. rewrite fmap_app. apply elem_of_app. left. by eapply H3.
  - intros x Hx. rewrite fmap_app. apply elem_of_app. by left.
  - done.
  - done.
  - done.
  - intros id (c' & Hin & Hid & Hr). exists c'. split_and!; [|done|done]. apply elem_of_app. by left.
Qed.

(** A replica may forget cached records and learn revocations. *)
Definition replica_kept (w : CredWorld) (f : Replica -> Replica) : Prop := forall p,
  (forall k c, (k, c) ∈ rp_activeCache (f p) -> (k, c) ∈ rp_activeCache p \/ core (cc_record c) ∈ core <$> cw_rows w) /\ (forall id, id ∈ rp_revokedSet p -> id ∈ rp_revokedSet (f p)).

Lemma alter_replica_good r f w : replica_kept w f -> creds_ok w -> creds_ok (alter_replica r f w) /\ creds_grow w (alter_replica r f w).
Proof.
  intros Hf [H1 H2 H3]. assert (Hs : forall r' id, id ∈ rp_revokedSet (cw_replica w r') -> id ∈ rp_revokedSet (cw_replica (alter_replica r f w) r')).
  { intros r' id Hin. cbn [alter_replica cw_replica]. case_bool_decide; [by apply Hf|done]. }
  split; [split|split]; try done.
  - intros r' k c. cbn [alter_replica cw_replica cw_rows]. case_bool_decide; [|by apply H3]. intros Hin. destruct (Hf (cw_replica w r')) as [Hc _]. apply Hc in Hin as [Hin|Hin]; [by eapply H3|done].
  - intros r' id [Hin|Hm]; [left; by apply Hs|by right].
Qed.

Lemma elem_of_del {V} k (m : jsmap V) x : x ∈ del k m -> x ∈ m.
Proof.
  induction m as [|[k' v'] m IH]; cbn [del]; [done|]. case_bool_decide; intros Hx; [by right|]. apply elem_of_cons in Hx as [->|Hx]; [by left|right; by apply IH].
Qed.

Lemma replica_kept_compose w f g : replica_kept w f -> replica_kept w g -> replica_kept w (fun p => f (g p)).
Proof.
  intros Hf Hg p. destruct (Hf (g p)) as [F1 F2], (Hg p) as [G1 G2]. split; [|auto]. intros k c Hin. apply F1 in Hin as [Hin|?]; [by apply G1|by right].
Qed.
Lemma replica_kept_revoked w id : replica_kept w (add_revoked id).
Proof. intros p. split; [by left|]. intros i Hi. cbn [add_revoked rp_revokedSet]. case_bool_decide; [done|]. apply elem_of_app. by left. Qed.
Lemma replica_kept_dropped w prefix : replica_kept w (drop_cached prefix).
Proof. intros p. split; [|done]. intros k c Hin. left. apply (elem_of_del prefix). exact Hin. Qed.
Lemma replica_kept_message w msg : replica_kept w (onRevocationMessage msg).
Proof.
  unfold onRevocationMessage. intros p. case_bool_decide; [apply replica_kept_revoked|].
  apply (replica_kept_compose w (drop_cached (rm_credPrefix msg)) (add_revoked (rm_credentialId msg))); [apply replica_kept_dropped|apply replica_kept_revoked].
Qed.

Lemma publish_good msg : good_step (publish msg).
Proof.
  intros w [H1 H2 H3]. split; [done|]. split; try done. intros r id [Hin|(m & Hm & Hid)]; [by left|right]. exists m. split; [|done]. cbn. apply elem_of_app. by left.
Qed.

Lemma added_revoked id p : id ∈ rp_revokedSet (add_revoked id p).
Proof. cbn. case_bool_decide; [done|]. apply elem_of_app. right. by apply list_elem_of_singleton. Qed.

Lemma deliver_good n : good_step (deliver_nth n).
Proof.
  intros w Hok. unfold deliver_nth. destruct (cw_bus w !! n) as [[r msg]|] eqn:En; [|by split]. destruct (alter_replica_good r (onRevocationMessage msg) w) as [[K1 K2 K3] [G1 G2 G3 G4 G5]];
    [apply replica_kept_message|done|]. split; [done|]. split; try done. intros r' id Ha. destruct Ha as [Ha|(m & Hm & Hid)]; [left; by apply G3|].
  apply list_elem_of_lookup in Hm as [i Hi]. destruct (decide (i = n)) as [->|Hne].
  - rewrite En in Hi. injection Hi as -> ->. left. cbn [put_bus alter_replica cw_replica]. rewrite bool_decide_eq_true_2 by done. rewrite <-Hid. unfold onRevocationMessage. case_bool_decide; apply added_revoked.
  - right. exists m. split; [|done]. cbn [put_bus cw_bus]. rewrite delete_take_drop. apply elem_of_app. destruct (decide (i < n)%nat).
    + left. apply (list_elem_of_lookup_2 _ i). rewrite lookup_take_lt by lia. done.
    + right. apply (list_elem_of_lookup_2 _ (i - S n)). rewrite lookup_drop. by replace (S n + (i - S n))%nat with i by lia.
Qed.

(** ** Programs *)

Definition keeps {A} (Q : A -> CredWorld -> Prop) (p : CM A) : Prop := forall w0, rg creds_ok creds_grow Q p w0.
Definition anything {A} (_ : A) (_ : CredWorld) : Prop := True.

Lemma keeps_done {A} (Q : A -> CredWorld -> Prop) a : (forall w, Q a w) -> keeps Q (Done a).
Proof. intros H w0. apply H. Qed.
Lemma keeps_throw {A} (Q : A -> CredWorld -> Prop) x : keeps Q (Throw x).
Proof. by intros w0. Qed.
Lemma keeps_seq {A B} (Q : B -> CredWorld -> Prop) (k : A -> CM B) p : keeps anything p -> (forall a, keeps Q (k a)) -> keeps Q (pbind k p).
Proof. intros Hp Hk w0. eapply rg_bind; [apply Hp|]. intros a w _. apply Hk. Qed.
Lemma keeps_modify f : good_step f -> keeps anything (modify f).
Proof. intros Hf w0 w _ Hok. destruct (Hf w Hok). done. Qed.
Lemma keeps_reads {A} (f : CredWorld -> A) : keeps anything (reads f).
Proof. intros w0 w _ Hok. split_and!; [done|done|done]. Qed.
Lemma keeps_atomic {A} (f : CredWorld -> A * CredWorld) : good_step (fun w => (f w).2) -> keeps anything (atomic f).
Proof. intros Hf w0 w _ Hok. destruct (Hf w Hok). done. Qed.
Lemma keeps_if {A} (Q : A -> CredWorld -> Prop) (b : bool) p q : keeps Q p -> keeps Q q -> keeps Q (if b then p else q).
Proof. by destruct b. Qed.
Lemma keeps_catch {A} (h : CredError -> CM A) p : keeps anything p -> (forall x, keeps anything (h x)) -> keeps anything (pcatch h p).
Proof.
  intros Hp Hh w0. specialize (Hp w0). revert w0 Hp. induction p as [a|x|upd k IH]; intros w0 Hp; cbn [pcatch]; [done|apply Hh|].
  intros w Hr Hok. destruct (Hp w Hr Hok) as (H1 & H2 & H3). split_and!; [done|done|]. by apply IH.
Qed.
Lemma keeps_fold {A B} (body : B -> A -> CM B) l acc : (forall b a, keeps anything (body b a)) -> keeps anything (pfold body acc l).
Proof. intros Hb. revert acc. induction l as [|x l IH]; intros acc; cbn [pfold]; [by intros w0|]. by apply keeps_seq. Qed.

Lemma keeps_find {A} e (f : CredWorld -> A) : keeps anything (find_row e f).
Proof. apply keeps_if; [apply keeps_reads|apply keeps_throw]. Qed.
Lemma keeps_update e id f : (forall w, row_kept (f w)) -> keeps anything (update_row e id f).
Proof.
  intros Hf. apply keeps_if; [|apply keeps_throw]. apply keeps_seq; [apply keeps_atomic; intros w Hok; by apply alter_row_good|].
  intros [c|]; [by apply keeps_done|apply keeps_throw].
Qed.
Lemma keeps_create e id g solver scopes allow expiresAt : keeps anything (create e id g solver scopes allow expiresAt).
Proof.
  apply keeps_if; [|apply keeps_throw]. apply keeps_seq; [apply keeps_atomic; intros w Hok; by apply insert_row_good|]. intros [c|]; [by apply keeps_done|apply keeps_throw].
Qed.
Lemma keeps_audit e n : keeps anything (record_audit e n).
Proof. apply keeps_if; [|apply keeps_throw]. apply keeps_modify, good_frame. by intros w. Qed.
Lemma keeps_alter r f : (forall w, replica_kept w f) -> keeps anything (modify (alter_replica r f)).
Proof. intros Hf. apply keeps_modify. intros w Hok. by apply alter_replica_good. Qed.
Lemma good_sweep solver nowSec : good_step (fun w => (sweep_solver solver nowSec w).2).
Proof. intros w Hok. cbn [sweep_solver snd]. apply good_map_rows; [|done]. intros c. by destruct (unrevoked solver c). Qed.

Create HintDb creds discriminated.
#[local] Hint Resolve keeps_throw keeps_modify keeps_reads keeps_atomic keeps_find keeps_update keeps_create keeps_audit keeps_alter keeps_catch keeps_fold
  publish_good deliver_good good_sweep row_kept_revoked row_kept_rotated row_kept_used row_kept_warned row_kept_allowlist replica_kept_compose replica_kept_revoked replica_kept_dropped : creds.
Ltac keeps_auto := repeat first [progress intros; cbn beta | solve [eauto with creds] | simple apply keeps_seq | simple apply keeps_update | simple apply keeps_if | simple apply keeps_done; done].

Lemma keeps_revoke e r id reason : keeps anything (revokeCredential e r id reason).
Proof.
  unfold revokeCredential. keeps_auto.
Qed.
Lemma keeps_createCredential e id secret solver scopes allow expiresAt : keeps anything (createCredential e id secret solver scopes allow expiresAt).
Proof. unfold createCredential. keeps_auto. Qed.
Lemma keeps_rotate e r id newId secret newScopes : keeps anything (rotateCredential e r id newId secret newScopes).
Proof. unfold rotateCredential. apply keeps_seq; [apply keeps_find|]. intros [c|]; [|by apply keeps_done]. keeps_auto; apply keeps_revoke. Qed.
Lemma keeps_allowlist e r id entries : keeps anything (updateIpAllowlist e r id entries).
Proof. unfold updateIpAllowlist. apply keeps_if; [apply keeps_throw|]. apply keeps_seq; [apply keeps_find|]. intros [c|]; [|by apply keeps_done]. keeps_auto. Qed.
Lemma keeps_disable e r solver : keeps anything (disableAllForSolver e r solver).
Proof.
  unfold disableAllForSolver. keeps_auto. apply keeps_fold. intros n cred. destruct (sc_revokedAt cred); [by apply keeps_done|]. keeps_auto. apply keeps_revoke.
Qed.
Lemma keeps_touch e : keeps anything (touchLastUsed e).
Proof.
  unfold touchLastUsed. apply keeps_seq; [apply keeps_reads|]. intros [[id nowSec]|]; [|by apply keeps_done]. apply keeps_seq; [apply keeps_modify, good_frame; by intros w|].
  intros _. apply keeps_catch; keeps_auto.
Qed.

(** ** Who is let in *)

(** A row of the table has this secret's digest, and the principal's identity and scopes. *)
Definition vouches (secret : string) (p : SolverCredentialPrincipal) (w : CredWorld) : Prop :=
  exists expiresAt, (pr_credentialId p, pr_credPrefix p, hashCredential secret, pr_solverAddress p, pr_scopes p, expiresAt) ∈ core <$> cw_rows w.
(** What a finished call answers for; [w0] is any state from which it ran on. *)
Definition answer_ok (w0 : CredWorld) (c : CredCall) (answer : option SolverCredentialPrincipal) (w : CredWorld) : Prop :=
  match answer with
  | Some p => (exists secret, call_secret c = Some secret /\ vouches secret p w) /\ (forall r, call_replica c = Some r -> pr_credentialId p ∉ rp_revokedSet (cw_replica w0 r))
  | None => match c with
            | c_revoke e r id _ => revoked_row id w /\ id ∈ rp_revokedSet (cw_replica w r) /\ (ce_publish e = true -> forall r', r' ∈ cw_subscribers w -> announced r' id w)
            | _ => True
            end
  end.

Lemma vouches_record secret record w : core record ∈ core <$> cw_rows w -> verifyCredential secret (sc_credHash record) = true -> vouches secret (toPrincipal record) w.
Proof. unfold verifyCredential. intros Hin Hv. apply bool_decide_eq_true in Hv. exists (sc_expiresAt record). by rewrite Hv. Qed.

Lemma cached_answer_ok r secret prefix nowSec w p : creds_ok w -> cached_answer r secret prefix nowSec w = Some (Some p) -> vouches secret p w /\ pr_credentialId p ∉ rp_revokedSet (cw_replica w r).
Proof.
  intros Hok. unfold cached_answer. destruct (get prefix _) as [cached|] eqn:Eg; [|done]. destruct (_ <? _); [|done]. case_bool_decide as Hrev; [done|].
  destruct (verifyCredential secret _) eqn:Ev; [|done]. intros [= <-]. split; [|done]. apply vouches_record; [|done]. apply get_elem_of in Eg. by eapply co_cached.
Qed.

Lemma settle_good r secret prefix nowSec found w : creds_ok w -> (forall record, found = Some record -> core record ∈ core <$> cw_rows w) ->
  let '(answer, w') := settle r secret prefix nowSec found w in creds_ok w' /\ creds_grow w w' /\
  forall p, answer = Some p -> vouches secret p w' /\ pr_credentialId p ∉ rp_revokedSet (cw_replica w r).
Proof.
  intros Hok Hf. unfold settle. destruct found as [record|]; [|done]. specialize (Hf record eq_refl). case_bool_decide as Hrev; [done|].
  destruct (sc_revokedAt record).
  { destruct (alter_replica_good r (add_revoked (sc_id record)) w); [auto with creds|done|done]. }
  destruct (match sc_expiresAt record with Some t => t <=? nowSec | None => false end); [done|]. destruct (verifyCredential secret (sc_credHash record)) eqn:Ev; [|done]. cbn [negb].
  set (f := put_cached prefix _). destruct (alter_replica_good r f w) as [[K1 K2 K3] G]; [|done|].
  { intros p0. split; [|done]. intros k c Hin. apply elem_of_set in Hin as [[= -> ->]|Hin]; [by right|by left]. }
  split; [done|]. split; [by destruct G|]. intros p [= <-]. split; [|done]. by apply vouches_record.
Qed.

Lemma resolve_rg e r secret nowSec w0 : rg creds_ok creds_grow (fun answer w => forall p, answer = Some p -> vouches secret p w /\ pr_credentialId p ∉ rp_revokedSet (cw_replica w0 r))
  (resolveCredential e r secret nowSec) w0.
Proof.
  unfold resolveCredential. destruct (_ <? _)%nat; [by cbn|]. set (prefix := String.substring 0 8 secret).
  apply (rg_bind _ _ (fun hit w => creds_grow w0 w /\ forall p, hit = Some (Some p) -> vouches secret p w /\ pr_credentialId p ∉ rp_revokedSet (cw_replica w0 r))).
  { intros w Hr Hok. split_and!; [done|done|]. split; [done|]. intros p Hp. apply cached_answer_ok in Hp as [Hv Hn]; [|done]. split; [done|]. intros Hin. apply Hn. by eapply cg_sets. }
  intros [answer|] w [Hr Hhit]; [intros p ->; by apply Hhit|].
  apply (rg_bind _ _ (fun found w => creds_grow w0 w /\ forall record, found = Some record -> core record ∈ core <$> cw_rows w)).
  - unfold find_row. destruct (ce_find e); [|by cbn]. intros w1 Hr1 Hok. split_and!; [done|done|]. split; [by transitivity w|]. intros record Hrec. unfold findByPrefix in Hrec.
    apply fmap_Some in Hrec as ([i c] & Hfind & ->). apply list_find_Some in Hfind as (Hi & _). apply list_elem_of_fmap_2. by eapply list_elem_of_lookup_2.
  - intros found w1 [Hr1 Hf] w2 Hr2 Hok. pose proof (settle_good r secret prefix nowSec found w2 Hok) as Hs. destruct (settle _ _ _ _ _ w2) as [answer w3] eqn:Es.
    destruct Hs as (S1 & S2 & S3); [intros record Hrec; eapply cg_rows; [exact Hr2|by apply Hf]|]. cbn [fst snd]. split_and!; [done|done|].
    intros p Hp. destruct (S3 p Hp) as [Hv Hn]. split; [done|]. intros Hin. apply Hn. eapply cg_sets; [exact Hr2|]. by eapply cg_sets.
Qed.

Lemma keeps_then {A B} (k : A -> CM B) (Q : B -> CredWorld -> Prop) p (P : CredWorld -> Prop) w0 : (forall w w', P w -> creds_grow w w' -> P w') -> P w0 ->
  keeps anything p -> (forall a w, P w -> rg creds_ok creds_grow Q (k a) w) -> rg creds_ok creds_grow Q (pbind k p) w0.
Proof.
  intros HP H0 Hp Hk. specialize (Hp w0). revert w0 H0 Hp. induction p as [a|x|upd k' IH]; intros w0 H0 Hp; cbn [pbind]; [by apply Hk|done|].
  intros w Hr Hok. destruct (Hp w Hr Hok) as (H1 & H2 & H3). split_and!; [done|done|]. apply IH; [|done]. eapply HP; [|exact H2]. by eapply HP.
Qed.

Lemma revoke_rg e r id reason w0 : rg creds_ok creds_grow
  (fun _ w => revoked_row id w /\ id ∈ rp_revokedSet (cw_replica w r) /\ (ce_publish e = true -> forall r', r' ∈ cw_subscribers w -> announced r' id w)) (revokeCredential e r id reason) w0.
Proof.
  unfold revokeCredential. apply (keeps_then _ _ _ (fun _ => True)); [done|done|apply keeps_find|]. intros record w _. clear w0.
  apply (rg_bind _ _ (fun _ w => revoked_row id w)).
  { unfold update_row. destruct (ce_write e); [|by cbn]. intros w1 _ Hok. destruct (alter_row_good id (set_revoked (sec w1)) w1) as [K G]; [apply row_kept_revoked|done|].
    split_and!; [done|done|]. unfold alter_row in *. destruct (findById id w1) as [c|] eqn:Ef; [|by cbn]. cbn [fst snd pbind rg]. unfold findById in Ef.
    apply fmap_Some in Ef as ([i c'] & Hfind & ->). apply list_find_Some in Hfind as (Hi & Hid & _). cbn [snd]. exists (set_revoked (sec w1) c'). split_and!; [|done|done].
    apply list_elem_of_fmap. exists c'. rewrite bool_decide_eq_true_2 by done. split; [done|by eapply list_elem_of_lookup_2]. }
  intros _ w1 Hrow. cbn zeta.
  apply (rg_bind _ _ (fun _ w => revoked_row id w /\ id ∈ rp_revokedSet (cw_replica w r))).
  { intros w2 Hr Hok. set (f := fun p => drop_cached _ (add_revoked id p)). destruct (alter_replica_good r f w2) as [K G]; [apply (replica_kept_compose w2 (drop_cached _) (add_revoked id)); auto with creds|done|].
    split_and!; [done|done|]. split; [eapply cg_revoked; [exact G|]; by eapply cg_revoked|]. cbn [alter_replica cw_replica]. rewrite bool_decide_eq_true_2 by done. apply added_revoked. }
  intros _ w2 [Hrow2 Hset].
  apply (rg_bind _ _ (fun _ w => revoked_row id w /\ id ∈ rp_revokedSet (cw_replica w r) /\ (ce_publish e = true -> forall r', r' ∈ cw_subscribers w -> announced r' id w))).
  { destruct (ce_publish e); [|by cbn]. intros w3 Hr Hok. set (msg := fun now => _). destruct (publish_good msg w3 Hok) as [K G]. split_and!; [done|done|].
    split; [eapply cg_revoked; [exact G|]; by eapply cg_revoked|]. split; [by eapply cg_sets; [exact G|]; eapply cg_sets|]. intros _ r' Hr'. right. exists (msg (sec w3)). split; [|done].
    cbn. apply elem_of_app. right. apply list_elem_of_fmap. by exists r'. }
  intros _ w3 H3. unfold record_audit. destruct (ce_audit e); [|by cbn]. intros w4 Hr Hok. split; [|split]; [by destruct Hok|by split|].
  destruct H3 as (A & B & C). split_and!; [by eapply (cg_revoked w3 w4)|by eapply (cg_sets w3 w4)|]. intros Hp r' Hr'. eapply (cg_announced w3 w4); [done|]. apply C; [done|]. by rewrite <-(cg_subscribers w3 w4 Hr).
Qed.

Lemma call_rg c w0 : rg creds_ok creds_grow (answer_ok w0 c) (call_prog c) w0.
Proof.
  assert (Hsilent : forall {A} (p : CM A), keeps anything p -> (match c with c_revoke _ _ _ _ => False | _ => True end) -> rg creds_ok creds_grow (answer_ok w0 c) (silent p) w0).
  { intros A p Hp Hc. eapply rg_bind; [apply Hp|]. intros a w _. by destruct c. }
  destruct c; cbn [call_prog]; try (apply Hsilent; [|done]).
  - apply keeps_createCredential.
  - eapply rg_mono; [|apply resolve_rg]. intros [p|] w Hp; [|done]. destruct (Hp p eq_refl) as [Hv Hn]. split; [by exists plaintext|]. by intros r' [= <-].
  - unfold credential_canActivate. apply (rg_bind _ _ (answer_ok w0 (c_guard e r trustProxyHops q nowSec))).
    + destruct (extractCredential q) as [secret|] eqn:Ex; [|by cbn]. eapply rg_mono; [|apply resolve_rg].
      intros [p|] w Hp; [|done]. destruct (Hp p eq_refl) as [Hv Hn]. split; [by exists secret|]. by intros r' [= <-].
    + intros [p|] w Hp; [|by cbn]. by destruct (ipAllowed _ _ _).
  - eapply rg_bind; [apply revoke_rg|]. intros u w H. exact H.
  - apply keeps_rotate.
  - apply keeps_allowlist.
  - apply keeps_disable.
  - unfold markExpiryWarned. keeps_auto.
  - apply keeps_touch.
  - apply keeps_modify, deliver_good.
  - apply keeps_modify, good_frame. by intros w.
Qed.

Lemma answer_stable w0 c answer w w' : answer_ok w0 c answer w -> creds_grow w w' -> answer_ok w0 c answer w'.
Proof.
  intros Ha Hg. destruct answer as [p|]; cbn [answer_ok] in *.
  - destruct Ha as [(secret & Hs & expiresAt & Hin) Hn]. split; [|done]. exists secret. split; [done|]. exists expiresAt. by eapply cg_rows.
  - destruct c; try done. destruct Ha as (A & B & C). split_and!; [by eapply cg_revoked|by eapply cg_sets|]. intros Hp r' Hr'. eapply cg_announced; [exact Hg|]. apply C; [done|].
    by rewrite <-(cg_subscribers _ _ Hg).
Qed.

(** Calls that ran in any interleaving: what each answered, and how the world grew. *)
Lemma calls_answer w calls w' ps : creds_ok w -> rtc pool_step (w, call_prog <$> calls) (w', ps) ->
  creds_ok w' /\ creds_grow w w' /\ forall i c answer, calls !! i = Some c -> ps !! i = Some (Done answer) -> answer_ok w c answer w'.
Proof.
  intros Hok Hrun. destruct (pool_rg_each creds_ok creds_grow (answer_ok w) calls _ _ (fun c a s s' => answer_stable w c a s s') Hrun Hok) as (H1 & H2 & H3).
  - cbn [fst snd]. apply Forall2_fmap_r, Forall_Forall2_diag, Forall_true. intros c. apply call_rg.
  - cbn [fst snd] in *. split_and!; [done|done|]. intros i c answer Hc Hp. destruct (Forall2_lookup_l _ _ _ _ _ H3 Hc) as (p & Hp' & Hrg). rewrite Hp in Hp'. by injection Hp' as <-.
Qed.

(** In any interleaving of calls on any replicas: a request that is let in presented
    the secret whose digest a row of the table holds, and acts with the identity and
    the scopes of that row. *)
Theorem credentials_authentic w calls w' ps i c p : creds_ok w -> rtc pool_step (w, call_prog <$> calls) (w', ps) -> calls !! i = Some c -> ps !! i = Some (Done (Some p)) ->
  exists secret, call_secret c = Some secret /\ vouches secret p w'.
Proof. intros Hok Hrun Hc Hp. destruct (calls_answer _ _ _ _ Hok Hrun) as (_ & _ & H). by destruct (H _ _ _ Hc Hp). Qed.

(** C36. A revocation that was published and has been delivered holds on every subscribed
    replica, whatever else ran meanwhile: no later request is let in with it. *)
Theorem revocation_reaches_everyone w calls w' ps i e r id reason calls' w'' ps' j c r' p :
  creds_ok w -> rtc pool_step (w, call_prog <$> calls) (w', ps) -> calls !! i = Some (c_revoke e r id reason) -> ce_publish e = true -> ps !! i = Some (Done None) -> cw_bus w' = [] ->
  r' ∈ cw_subscribers w -> rtc pool_step (w', call_prog <$> calls') (w'', ps') -> calls' !! j = Some c -> call_replica c = Some r' -> ps' !! j = Some (Done (Some p)) -> pr_credentialId p <> id.
Proof.
  intros Hok Hrun Hi Hpub Hdone Hbus Hr' Hrun' Hj Hc Hp. destruct (calls_answer _ _ _ _ Hok Hrun) as (Hok' & Hg & H). specialize (H _ _ _ Hi Hdone) as (_ & _ & Hann).
  specialize (Hann Hpub r'). rewrite (cg_subscribers _ _ Hg) in Hann. destruct (Hann Hr') as [Hin|(m & Hm & _)]; [|rewrite Hbus in Hm; by apply elem_of_nil in Hm].
  destruct (calls_answer _ _ _ _ Hok' Hrun') as (_ & _ & H'). destruct (H' _ _ _ Hj Hp) as [_ Hn]. specialize (Hn r' Hc). congruence.
Qed.

(** ** Disabling a solver *)

Definition active_of (solver : string) (c : SolverCredentialRecord) : Prop := sc_solverAddress c = solver /\ sc_revokedAt c = None.
#[local] Instance active_of_dec solver c : Decision (active_of solver c).
Proof. apply _. Defined.
Definition active_count (solver : string) (w : CredWorld) : nat := length (filter (active_of solver) (cw_rows w)).

Definition revoke_in (id : string) (t : Z) (c : SolverCredentialRecord) : SolverCredentialRecord := if bool_decide (sc_id c = id) then set_revoked t c else c.

Lemma revoke_rows e r id reason w : let '(o, w') := run (revokeCredential e r id reason) w in o = Ok tt -> exists t, cw_rows w' = revoke_in id t <$> cw_rows w.
Proof.
  unfold revokeCredential, find_row. rewrite run_pbind. destruct (ce_find e); [|done]. rewrite run_reads, run_pbind. unfold update_row. destruct (ce_write e); [|done].
  rewrite run_pbind, run_atomic. unfold alter_row. destruct (findById id w) as [c|] eqn:Ef; [|done]. cbn [fst snd run]. rewrite run_pbind. cbn [modify run]. rewrite run_pbind.
  destruct (ce_publish e); cbn [modify run]; unfold record_audit; destruct (ce_audit e); cbn [modify run]; intros Ho; try done; by exists (sec w).
Qed.

Lemma count_revoke solver id t l : NoDup (sc_id <$> l) -> forall c, c ∈ l -> sc_id c = id -> active_of solver c ->
  S (length (filter (active_of solver) (revoke_in id t <$> l))) = length (filter (active_of solver) l).
Proof.
  induction l as [|x l IH]; intros Hnd c Hc Hid Ha; [by apply elem_of_nil in Hc|]. cbn [fmap list_fmap] in *. apply NoDup_cons in Hnd as [Hni Hnd].
  apply elem_of_cons in Hc as [<-|Hc].
  - rewrite (filter_cons_True _ c) by done. unfold revoke_in at 1. rewrite bool_decide_eq_true_2 by done. rewrite filter_cons_False by (by intros [_ ?]). cbn [length]. f_equal. f_equal. f_equal.
    rewrite <-(list_fmap_id l) at 2. apply list_fmap_ext. intros k y Hy. unfold revoke_in. rewrite bool_decide_eq_false_2; [done|]. intros Heq. apply Hni. rewrite Hid, <-Heq.
    apply list_elem_of_fmap_2. by eapply list_elem_of_lookup_2.
  - assert (Hx : sc_id x <> id) by (intros Heq; apply Hni; rewrite Heq, <-Hid; by apply list_elem_of_fmap_2). unfold revoke_in at 1. rewrite bool_decide_eq_false_2 by done.
    rewrite !(filter_cons _ x). specialize (IH Hnd c Hc Hid Ha). destruct (decide (active_of solver x)); cbn [length]; lia.
Qed.

Lemma ids_revoke id t (l : list SolverCredentialRecord) : sc_id <$> (revoke_in id t <$> l) = sc_id <$> l.
Proof. rewrite <-list_fmap_compose. apply list_fmap_ext. intros k c _. unfold revoke_in. cbn. by case_bool_decide. Qed.

Lemma disable_loop e r solver creds n w : NoDup (sc_id <$> cw_rows w) -> NoDup (sc_id <$> creds) -> (forall c, c ∈ creds -> c ∈ cw_rows w /\ sc_solverAddress c = solver) ->
  let '(o, w') := run (pfold (fun n cred => match sc_revokedAt cred with Some _ => Done n | None => revokeCredential e r (sc_id cred) rr_solver_disabled;;; Done (S n) end) n creds) w in
  forall m, o = Ok m -> (m + active_count solver w' = n + active_count solver w)%nat.
Proof.
  revert n w. induction creds as [|cred creds IH]; intros n w Hnd Hndc Hin; cbn [pfold]; [by intros m [= <-]|]. rewrite run_pbind. cbn [fmap list_fmap] in Hndc. apply NoDup_cons in Hndc as [Hni Hndc].
  destruct (sc_revokedAt cred) eqn:Er; cbn [run]; [apply IH; [done|done|]; intros c Hc; apply Hin; by right|].
  rewrite run_pbind. pose proof (revoke_rows e r (sc_id cred) rr_solver_disabled w) as Hr. destruct (run (revokeCredential _ _ _ _) w) as [[[]|x] w1]; cbn [run]; [|done].
  destruct (Hr eq_refl) as [t Hrows]. destruct (Hin cred) as [Hcred Hsol]; [by left|]. specialize (IH (S n) w1). rewrite Hrows, ids_revoke in IH. specialize (IH Hnd Hndc).
  destruct (run (pfold _ (S n) creds) w1) as [o w2]. intros m Ho. rewrite (fun H => IH H m Ho).
  - unfold active_count. rewrite Hrows. rewrite <-(count_revoke solver (sc_id cred) t (cw_rows w) Hnd cred Hcred eq_refl); [lia|done].
  - intros c Hc. destruct (Hin c) as [H1 H2]; [by right|]. split; [|done]. apply list_elem_of_fmap. exists c. split; [|done]. unfold revoke_in. rewrite bool_decide_eq_false_2; [done|].
    intros Heq. apply Hni. rewrite <-Heq. by apply list_elem_of_fmap_2.
Qed.

Lemma list_by_solver_ok solver w : NoDup (sc_id <$> cw_rows w) -> NoDup (sc_id <$> listBySolver solver w) /\ forall c, c ∈ listBySolver solver w -> c ∈ cw_rows w /\ sc_solverAddress c = solver.
Proof.
  intros Hnd. unfold listBySolver. set (l := filter _ (cw_rows w)). pose proof (sort_by_perm (fun a b => sc_createdAt b - sc_createdAt a) l) as Hp. split.
  - rewrite Hp. by apply nodup_filter_fmap.
  - intros c Hc. rewrite Hp in Hc. by apply list_elem_of_filter in Hc as [? ?].
Qed.

(** Disabling a solver that succeeds leaves it no credential that is not revoked in
    the table, and reports exactly the number it had. *)
Theorem disable_all_exact e r solver w : NoDup (sc_id <$> cw_rows w) -> let '(o, w') := run (disableAllForSolver e r solver) w in
  forall n, o = Ok n -> n = active_count solver w /\ active_count solver w' = O.
Proof.
  intros Hnd. unfold disableAllForSolver, find_row. rewrite run_pbind, run_reads, run_pbind. destruct (ce_find e); [|done]. rewrite run_reads, run_pbind.
  destruct (list_by_solver_ok solver w Hnd) as [Hndc Hin]. pose proof (disable_loop e r solver (listBySolver solver w) O w Hnd Hndc Hin) as Hl.
  destruct (run (pfold _ O _) w) as [[m|x] w1]; [|done]. specialize (Hl m eq_refl). rewrite run_pbind. destruct (ce_write e); [|done]. rewrite run_atomic. cbn [run fst snd sweep_solver].
  intros n [= <-]. assert (Hhit : forall c, unrevoked solver c = true <-> active_of solver c) by (intros c; unfold unrevoked, active_of; rewrite andb_true_iff, !bool_decide_eq_true; done).
  split; [change (active_count solver w) with (0 + active_count solver w)%nat; rewrite <-Hl; unfold active_count; f_equal; f_equal; apply list_filter_iff; by intros c; rewrite Hhit|].
  unfold active_count. cbn [put_rows cw_rows]. apply length_zero_iff_nil, elem_of_nil_inv. intros c [Ha Hc]%list_elem_of_filter. apply list_elem_of_fmap in Hc as (x & -> & _).
  destruct (unrevoked solver x) eqn:E; [by destruct Ha|]. apply Hhit in Ha. congruence.
Qed.
End credentials.

(** * Witnesses and findings *)

Module CredDemo.
Definition hash (s : string) : string := "sha256:" +:+ s.
Definition env : CredEnv := {| ce_find := true; ce_write := true; ce_publish := true; ce_audit := true |}.
Definition secret1 : string := "AAAAAAAA-first-secret".
Definition secret2 : string := "BBBBBBBB-second-secret".
Definition secret3 : string := "CCCCCCCC-third-secret".
Definition row (id secret : string) (expiresAt : option Z) : SolverCredentialRecord :=
  {| sc_id := id; sc_credPrefix := String.substring 0 8 secret; sc_credHash := hash secret; sc_solverAddress := "GS"; sc_scopes := ["intents:fill"]; sc_ipAllowlist := None; sc_createdAt := 100;
     sc_expiresAt := expiresAt; sc_revokedAt := None; sc_rotatedAt := None; sc_lastUsedAt := None; sc_lastWarnedAt := None |}.
Definition world : CredWorld :=
  {| cw_rows := [row "c1" secret1 None; row "c2" secret2 (Some 1010)]; cw_replica := fun _ => fresh_replica; cw_subscribers := [0; 1]%nat; cw_bus := []; cw_audit := []; cw_touches := []; cw_now := 1000000 |}.
Definition principal1 : SolverCredentialPrincipal := {| pr_credentialId := "c1"; pr_credPrefix := "AAAAAAAA"; pr_solverAddress := "GS"; pr_scopes := ["intents:fill"]; pr_ipAllowlist := None |}.
Definition answers (ps : list (prog CredWorld CredError (option SolverCredentialPrincipal))) : list (option (option string)) :=
  (fun p : prog CredWorld CredError (option SolverCredentialPrincipal) => match p with Done a => Some (option_map pr_credentialId a) | _ => None end) <$> ps.
Definition play (ns : list nat) (calls : list CredCall) (w : CredWorld) := schedule ns w (call_prog hash <$> calls).

Lemma world_ok : creds_ok world.
Proof. split; [by apply (bool_decide_unpack _); vm_compute|by apply (bool_decide_unpack _); vm_compute|]. intros r k c H. by apply elem_of_nil in H. Qed.
End CredDemo.
Import CredDemo.

Lemma credentials_authentic_witness : exists secret, call_secret (c_resolve env 0 secret1 1000) = Some secret /\
  vouches hash secret principal1 (play (replicate 4 0%nat) [c_resolve env 0 secret1 1000] world).1.
Proof.
  apply (credentials_authentic hash world [c_resolve env 0 secret1 1000] _ (play (replicate 4 0%nat) [c_resolve env 0 secret1 1000] world).2 0).
  - apply world_ok.
  - unfold play. rewrite <-surjective_pairing. apply schedule_steps.
  - done.
  - by vm_compute.
Defined.

Definition settled : CredWorld := (play (replicate 8 0 ++ [1; 2])%nat [c_revoke env 0 "c1" rr_revoked; c_deliver 0; c_deliver 0] world).1.
Definition principal2 : SolverCredentialPrincipal := {| pr_credentialId := "c2"; pr_credPrefix := "BBBBBBBB"; pr_solverAddress := "GS"; pr_scopes := ["intents:fill"]; pr_ipAllowlist := None |}.

Lemma revocation_reaches_everyone_witness : pr_credentialId principal2 <> "c1".
Proof.
  apply (revocation_reaches_everyone hash world [c_revoke env 0 "c1" rr_revoked; c_deliver 0; c_deliver 0] settled
    (play (replicate 8 0 ++ [1; 2])%nat [c_revoke env 0 "c1" rr_revoked; c_deliver 0; c_deliver 0] world).2 0 env 0 "c1" rr_revoked
    [c_resolve env 1 secret2 1000] (play (replicate 4 0)%nat [c_resolve env 1 secret2 1000] settled).1 (play (replicate 4 0)%nat [c_resolve env 1 secret2 1000] settled).2 0
    (c_resolve env 1 secret2 1000) 1).
  - apply world_ok.
  - unfold settled, play. rewrite <-surjective_pairing. apply schedule_steps.
  - done.
  - done.
  - by vm_compute.
  - by vm_compute.
  - apply (bool_decide_unpack _). by vm_compute.
  - unfold play. rewrite <-surjective_pairing. apply schedule_steps.
  - done.
  - done.
  - by vm_compute.
Defined.

Lemma disable_all_exact_witness : active_count "GS" world = 2%nat /\ active_count "GS" (run (disableAllForSolver env 0 "GS") world).2 = O.
Proof.
  pose proof (disable_all_exact env 0 "GS" world (co_ids _ world_ok)) as H. destruct (run (disableAllForSolver env 0 "GS") world) as [o w'] eqn:E.
  split; [done|]. apply (H 2%nat). change o with (o, w').1. rewrite <-E. by vm_compute.
Defined.

(** A credential that expired is still let in while the cache holds it. *)
Theorem expired_credential_is_accepted :
  answers (play (replicate 4 0 ++ replicate 4 1)%nat [c_resolve env 0 secret2 1000; c_resolve env 0 secret2 1059] world).2 = [Some (Some "c2"); Some (Some "c2")] /\
  sc_expiresAt (row "c2" secret2 (Some 1010)) = Some 1010.
Proof. by vm_compute. Qed.

(** A lookup that was under way when the allowlist changed puts the old one back into
    the cache, on the replica that changed it. *)
Theorem stale_allowlist_is_cached_again :
  let calls := [c_resolve env 0 secret1 1000; c_allowlist env 0 "c1" (Some ["10.0.0.1"]); c_guard env 0 0 {| rq_authorization := None; rq_credential := Some secret1; rq_remoteAddress := Some "6.6.6.6"; rq_forwardedFor := None |} 1059] in
  let '(w, ps) := play ([0; 0] ++ replicate 8 1 ++ [0] ++ replicate 4 2)%nat calls world in
  answers ps = [Some (Some "c1"); Some None; Some (Some "c1")] /\ sc_ipAllowlist <$> head (cw_rows w) = Some (Some ["10.0.0.1"]).
Proof. by vm_compute. Qed.

(** A credential created while its solver is being disabled is revoked in the table
    by the sweep, but announced to nobody: a replica that has it cached lets it in. *)
Theorem swept_credential_is_accepted :
  let calls := [c_disable env 0 "GS"; c_create env "c3" secret3 "GS" ["intents:fill"] None None; c_resolve env 1 secret3 1000; c_resolve env 1 secret3 1059] in
  let '(w, ps) := play (replicate 2 0 ++ replicate 4 1 ++ replicate 4 2 ++ replicate 30 0 ++ replicate 4 3)%nat calls world in
  answers ps = [Some None; Some None; Some (Some "c3"); Some (Some "c3")] /\ sc_revokedAt <$> (cw_rows w !! 2%nat) = Some (Some 1000).
Proof. by vm_compute. Qed.

(** Rotating a credential that was revoked issues one that works. *)
Theorem rotation_revives_revoked :
  let calls := [c_revoke env 0 "c1" rr_revoked; c_rotate env 0 "c1" "c3" secret3 None; c_resolve env 0 secret3 1001] in
  answers (play (replicate 8 0 ++ replicate 12 1 ++ replicate 4 2)%nat calls world).2 = [Some None; Some None; Some (Some "c3")].
Proof. by vm_compute. Qed.

(** When the audit log is down, a rotation fails after it has revoked the old
    credential and stored the new one, whose secret nobody was told. *)
Theorem failed_rotation_locks_out :
  let unaudited := {| ce_find := true; ce_write := true; ce_publish := true; ce_audit := false |} in
  let '(o, w) := run (rotateCredential hash unaudited 0 "c1" "c3" secret3 None) world in
  o = Err cr_audit /\ (run (resolveCredential hash env 0 secret1 1001) w).1 = Ok None /\ sc_id <$> cw_rows w = ["c1"; "c2"; "c3"].
Proof. by vm_compute. Qed.

(** An invalid allowlist entry is answered with an internal error. *)
Theorem bad_entry_is_an_internal_error : (run (updateIpAllowlist env 0 "c1" (Some ["not-an-ip"])) world).1 = Err cr_type_error.
Proof. by vm_compute. Qed.
