(* ===== verification/ApiKeys.v ===== *)
(** API keys (auth/api-keys/): keys of which only a digest is stored, their hourly
    usage, and the self-service signup with tokens that
    can be redeemed once.

    The keys and the usage buckets are tables; the signup tokens a map with expiry
    times.  Requests are programs that interleave at every await. *)
From S2P Require Import Prelude JsMap BigInt Prog Connections Credentials RateLimit.
From stdpp Require Import relations.
Local Open Scope string_scope.
Local Open Scope list_scope.
Local Open Scope Z_scope.
Local Open Scope prog_scope.

Record ApiKeyRecord := {
  ak_id : string; ak_keyPrefix : string; ak_keyHash : string; ak_tier : ApiKeyTier; ak_owner : string; ak_scopes : list string; ak_createdAt : Z;
  ak_revokedAt : option Z; ak_expiresAt : option Z; ak_lastUsedAt : option Z; ak_lastWarnedAt : option Z;
}.
Record ApiKeyUsageBucket := { ub_apiKeyId : string; ub_bucketStart : Z; ub_allowedCount : nat; ub_throttledCount : nat }.
Record StoredToken := { st_value : string; st_expiresAt : Z }.
Record KeyWorld := { kw_keys : list ApiKeyRecord; kw_usage : list ApiKeyUsageBucket; kw_tokens : jsmap StoredToken; kw_now : Z }.
Inductive KeyError := ke_database | ke_not_found | ke_conflict | ke_bad_request.
Notation KM := (prog KeyWorld KeyError).

Definition put_keys (l : list ApiKeyRecord) (w : KeyWorld) : KeyWorld := {| kw_keys := l; kw_usage := kw_usage w; kw_tokens := kw_tokens w; kw_now := kw_now w |}.
Definition put_usage (l : list ApiKeyUsageBucket) (w : KeyWorld) : KeyWorld := {| kw_keys := kw_keys w; kw_usage := l; kw_tokens := kw_tokens w; kw_now := kw_now w |}.
Definition put_tokens (m : jsmap StoredToken) (w : KeyWorld) : KeyWorld := {| kw_keys := kw_keys w; kw_usage := kw_usage w; kw_tokens := m; kw_now := kw_now w |}.
Definition now_sec (w : KeyWorld) : Z := kw_now w / 1000.

Section keys.
Variable hashCredential : string -> string.

(** * Keys; [ok] says whether the database answers *)

Definition key_by_prefix (prefix : string) (w : KeyWorld) : option ApiKeyRecord := snd <$> list_find (fun k => ak_keyPrefix k = prefix) (kw_keys w).
Definition key_by_id (id : string) (w : KeyWorld) : option ApiKeyRecord := snd <$> list_find (fun k => ak_id k = id) (kw_keys w).
Definition listKeys (owner : string) (w : KeyWorld) : list ApiKeyRecord := sort_by (fun a b => ak_createdAt b - ak_createdAt a) (filter (fun k => ak_owner k = owner) (kw_keys w)).
Definition find_key {A} (ok : bool) (f : KeyWorld -> A) : KM A := if ok then reads f else Throw ke_database.

Definition insert_key (id : string) (g : GeneratedCredential) (tier : ApiKeyTier) (owner : string) (scopes : list string) (expiresAt : option Z) (w : KeyWorld) : option ApiKeyRecord * KeyWorld :=
  if bool_decide (id ∈ ak_id <$> kw_keys w) || bool_decide (gc_prefix g ∈ ak_keyPrefix <$> kw_keys w) then (None, w)
  else let k := {| ak_id := id; ak_keyPrefix := gc_prefix g; ak_keyHash := gc_hash g; ak_tier := tier; ak_owner := owner; ak_scopes := scopes; ak_createdAt := now_sec w;
                   ak_revokedAt := None; ak_expiresAt := expiresAt; ak_lastUsedAt := None; ak_lastWarnedAt := None |} in (Some k, put_keys (kw_keys w ++ [k]) w).
Definition createKey (ok : bool) (id secret : string) (tier : ApiKeyTier) (owner : string) (scopes : list string) (expiresAt : option Z) : KM (ApiKeyRecord * string) :=
  let g := generateCredential hashCredential secret in
  if ok then r <- atomic (insert_key id g tier owner scopes expiresAt); match r with Some k => Done (k, gc_plaintext g) | None => Throw ke_conflict end
  else Throw ke_database.

Definition usable (plaintext : string) (nowSec : Z) (k : ApiKeyRecord) : bool :=
  bool_decide (ak_revokedAt k = None) && negb (match ak_expiresAt k with Some t => t <=? nowSec | None => false end) && verifyCredential hashCredential plaintext (ak_keyHash k).
(** The update of [lastUsedAt] that follows is not awaited and is left out. *)
Definition resolveKey (ok : bool) (plaintext : string) : KM (option ApiKeyRecord) :=
  if (String.length plaintext <? 16)%nat then Done None
  else record <- find_key ok (key_by_prefix (String.substring 0 8 plaintext));
       match record with None => Done None | Some k => reads (fun w => if usable plaintext (now_sec w) k then Some k else None) end.
Definition isActive (k : ApiKeyRecord) (nowSec : Z) : bool := bool_decide (ak_revokedAt k = None) && negb (match ak_expiresAt k with Some t => t <=? nowSec | None => false end).

Definition set_key_revoked (t : Z) (k : ApiKeyRecord) : ApiKeyRecord :=
  {| ak_id := ak_id k; ak_keyPrefix := ak_keyPrefix k; ak_keyHash := ak_keyHash k; ak_tier := ak_tier k; ak_owner := ak_owner k; ak_scopes := ak_scopes k; ak_createdAt := ak_createdAt k;
     ak_revokedAt := Some t; ak_expiresAt := ak_expiresAt k; ak_lastUsedAt := ak_lastUsedAt k; ak_lastWarnedAt := ak_lastWarnedAt k |}.
Definition revoke_row (id : string) (w : KeyWorld) : bool * KeyWorld :=
  match key_by_id id w with Some _ => (true, put_keys ((fun k => if bool_decide (ak_id k = id) then set_key_revoked (now_sec w) k else k) <$> kw_keys w) w) | None => (false, w) end.
Definition revokeKey (ok : bool) (id : string) : KM unit := if ok then found <- atomic (revoke_row id); if found : bool then Done tt else Throw ke_not_found else Throw ke_database.

(** [POST /admin/api-keys/:id/rotate] *)
Definition rotate (ok_find ok_revoke ok_create : bool) (id newId secret : string) (scopes : option (list string)) : KM (ApiKeyRecord * string) :=
  current <- find_key ok_find (key_by_id id);
  match current with
  | None => revokeKey ok_revoke id;;; Throw ke_not_found
  | Some current => revokeKey ok_revoke id;;; createKey ok_create newId secret (ak_tier current) (ak_owner current) (default (ak_scopes current) scopes) (ak_expiresAt current)
  end.

(** * Usage *)

Definition bucket_of (nowSec : Z) : Z := nowSec / 3600 * 3600.
Definition bump (allowed : bool) (b : ApiKeyUsageBucket) : ApiKeyUsageBucket :=
  {| ub_apiKeyId := ub_apiKeyId b; ub_bucketStart := ub_bucketStart b; ub_allowedCount := if allowed then S (ub_allowedCount b) else ub_allowedCount b;
     ub_throttledCount := if allowed then ub_throttledCount b else S (ub_throttledCount b) |}.
Definition same_bucket (id : string) (start : Z) (b : ApiKeyUsageBucket) : bool := bool_decide (ub_apiKeyId b = id) && (ub_bucketStart b =? start).
(** An atomic upsert on the key and the hour. *)
Definition incrementUsage (id : string) (start : Z) (allowed : bool) (w : KeyWorld) : KeyWorld :=
  put_usage (if existsb (same_bucket id start) (kw_usage w) then (fun b => if same_bucket id start b then bump allowed b else b) <$> kw_usage w
             else kw_usage w ++ [{| ub_apiKeyId := id; ub_bucketStart := start; ub_allowedCount := if allowed then 1 else 0; ub_throttledCount := if allowed then 0 else 1 |}]) w.
Definition recordUsage (ok : bool) (id : string) (allowed : bool) (nowSec : Z) : KM unit := if ok then modify (incrementUsage id (bucket_of nowSec) allowed) else Done tt.
Definition usage_between (id : string) (from to : Z) (w : KeyWorld) : list ApiKeyUsageBucket :=
  sort_by (fun a b => ub_bucketStart a - ub_bucketStart b) (filter (fun b => ub_apiKeyId b = id /\ (from <=? ub_bucketStart b) && (ub_bucketStart b <=? to) = true) (kw_usage w)).
Definition getUsage (id : string) (from to : Z) (w : KeyWorld) : list ApiKeyUsageBucket * (nat * nat) :=
  let buckets := usage_between id from to w in (buckets, (sum_list (ub_allowedCount <$> buckets), sum_list (ub_throttledCount <$> buckets))).
Definition pruneUsage (retentionSec nowSec : Z) (w : KeyWorld) : nat * KeyWorld :=
  (length (filter (fun b => ub_bucketStart b < nowSec - retentionSec) (kw_usage w)), put_usage (filter (fun b => ~ ub_bucketStart b < nowSec - retentionSec) (kw_usage w)) w).

(** * Signup *)

Definition DEFAULT_SIGNUP_TOKEN_TTL_SECONDS : Z := 900.
Definition at_sign : Ascii.ascii := Ascii.ascii_of_N 64.
Fixpoint has_char (c : Ascii.ascii) (s : string) : bool := match s with EmptyString => false | String d s => bool_decide (d = c) || has_char c s end.

(** [token] is what [randomBytes] gave. *)
Definition remember (tokenOrEmail token : string) (w : KeyWorld) : string * KeyWorld :=
  let key := if has_char at_sign tokenOrEmail then token else tokenOrEmail in
  (key, put_tokens (set key {| st_value := tokenOrEmail; st_expiresAt := kw_now w + DEFAULT_SIGNUP_TOKEN_TTL_SECONDS * 1000 |} (kw_tokens w)) w).
Definition consume (token : string) (w : KeyWorld) : option string * KeyWorld :=
  match get token (kw_tokens w) with
  | None => (None, w)
  | Some entry => (if st_expiresAt entry <=? kw_now w then None else Some (st_value entry), put_tokens (del token (kw_tokens w)) w)
  end.
Definition sweep (w : KeyWorld) : KeyWorld := put_tokens (filter (fun kv : string * StoredToken => kw_now w < st_expiresAt kv.2) (kw_tokens w)) w.

(** [/^[^\s@]+@[^\s@]+\.[^\s@]+$/]: one at sign, no white space, and a dot with text on
    both sides after it *)
Definition valid_email (email : string) : bool :=
  match split_on at_sign email with
  | [name; domain] =>
      negb (bool_decide (name = "")) && all_chars (fun c => negb (is_ws c)) email &&
      existsb (fun n => (code (default at_sign (String.get n domain)) =? 46)) (seq 1 (String.length domain - 2))
  | _ => false
  end.
Definition signup (email token : string) : KM string :=
  let email := toLowerCase (trim email) in
  if negb (valid_email email) then Throw ke_bad_request else atomic (remember email token);;; Done "If the email is valid, a verification link has been sent.".
Definition createSelfServiceKey (ok : bool) (id secret email : string) : KM (ApiKeyRecord * string) := createKey ok id secret tier_integrator email [] None.
Definition confirm (ok : bool) (id secret token : string) : KM (ApiKeyRecord * string) :=
  if bool_decide (token = "") then Throw ke_bad_request
  else email <- atomic (consume token);
       match email with
       | None => Throw ke_bad_request
       | Some email => if bool_decide (email = "") then Throw ke_bad_request else createSelfServiceKey ok id secret email
       end.
Definition tick_clock (ms : Z) : KM unit := modify (fun w => {| kw_keys := kw_keys w; kw_usage := kw_usage w; kw_tokens := kw_tokens w; kw_now := kw_now w + Z.max 0 ms |}).

(** * What resolves *)

Lemma find_prefix_row prefix w k : NoDup (ak_keyPrefix <$> kw_keys w) -> key_by_prefix prefix w = Some k <-> k ∈ kw_keys w /\ ak_keyPrefix k = prefix.
Proof.
  intros Hnd. unfold key_by_prefix. split.
  - intros ([i k'] & Hf & ->)%fmap_Some. apply list_find_Some in Hf as (Hi & Hp & _). split; [by eapply list_elem_of_lookup_2|done].
  - intros [Hin Hp]. destruct (list_find (fun k => ak_keyPrefix k = prefix) (kw_keys w)) as [[i k']|] eqn:Ef.
    + apply list_find_Some in Ef as (Hi & Hp' & _). cbn. f_equal. apply (nodup_inj ak_keyPrefix (kw_keys w)); [done|by eapply list_elem_of_lookup_2|done|congruence].
    + exfalso. apply list_find_None in Ef. rewrite Forall_forall in Ef. by apply (Ef k Hin).
Qed.

(** A key is resolved exactly when it is stored under the prefix of the secret, is
    neither revoked nor expired, and holds the digest of the secret. *)
Theorem resolve_key_exact plaintext w k : NoDup (ak_keyPrefix <$> kw_keys w) ->
  (run (resolveKey true plaintext) w).1 = Ok (Some k) <->
  (16 <= String.length plaintext)%nat /\ k ∈ kw_keys w /\ ak_keyPrefix k = String.substring 0 8 plaintext /\ ak_revokedAt k = None /\
  (forall t, ak_expiresAt k = Some t -> now_sec w < t) /\ hashCredential plaintext = ak_keyHash k.
Proof.
  intros Hnd. unfold resolveKey. destruct (_ <? _)%nat eqn:El.
  { apply Nat.ltb_lt in El. cbn. split; [done|lia]. }
  apply Nat.ltb_ge in El. rewrite run_pbind. cbn [find_key]. rewrite run_reads.
  assert (Hu : forall k, usable plaintext (now_sec w) k = true <-> ak_revokedAt k = None /\ (forall t, ak_expiresAt k = Some t -> now_sec w < t) /\ hashCredential plaintext = ak_keyHash k).
  { intros x. unfold usable, verifyCredential. rewrite !andb_true_iff, !bool_decide_eq_true, negb_true_iff. destruct (ak_expiresAt x) as [t|].
    - rewrite Z.leb_gt. split; [intros ((? & ?) & ?); split_and!; [done|by intros ? [= <-]|done]|intros (? & Ht & ?); split_and!; [done|by apply Ht|done]].
    - split; [intros ((? & ?) & ?); done|intros (? & _ & ?); done]. }
  destruct (key_by_prefix _ w) as [x|] eqn:Ef.
  - rewrite run_reads. pose proof Ef as Ef'. apply find_prefix_row in Ef as [Hin Hp]; [|done]. cbn [fst]. destruct (usable plaintext (now_sec w) x) eqn:E.
    + split; [intros [= <-]; apply Hu in E; tauto|]. intros (_ & Hk & Hpk & _). f_equal. f_equal. apply (nodup_inj ak_keyPrefix (kw_keys w)); [done|done|done|congruence].
    + split; [done|]. intros (_ & Hk & Hpk & Hrest). assert (x = k) as -> by (apply (nodup_inj ak_keyPrefix (kw_keys w)); [done|done|done|congruence]). apply Hu in Hrest. congruence.
  - cbn. split; [done|]. intros (_ & Hk & Hpk & _). pose proof (proj2 (find_prefix_row (String.substring 0 8 plaintext) w k Hnd) (conj Hk Hpk)). congruence.
Qed.

(** * Usage is counted exactly *)

Definition bucket_id (b : ApiKeyUsageBucket) : string * Z := (ub_apiKeyId b, ub_bucketStart b).
Record Hit := { hit_key : string; hit_allowed : bool; hit_at : Z }.
Definition record_all (hits : list Hit) (w : KeyWorld) : KeyWorld := foldl (fun w h => incrementUsage (hit_key h) (bucket_of (hit_at h)) (hit_allowed h) w) w hits.

Definition count_of (which : bool) (b : ApiKeyUsageBucket) : nat := if which then ub_allowedCount b else ub_throttledCount b.
Definition counted (P : string * Z -> bool) (which : bool) (l : list ApiKeyUsageBucket) : nat := sum_list (count_of which <$> filter (fun b => P (bucket_id b) = true) l).

Lemma same_bucket_id id start b : same_bucket id start b = true <-> bucket_id b = (id, start).
Proof. unfold same_bucket, bucket_id. rewrite andb_true_iff, bool_decide_eq_true, Z.eqb_eq. split; [by intros [-> ->]|by intros [= -> ->]]. Qed.

Lemma counted_cons P which b l : counted P which (b :: l) = ((if P (bucket_id b) then count_of which b else 0) + counted P which l)%nat.
Proof. unfold counted. rewrite filter_cons. destruct (P (bucket_id b)) eqn:E; [rewrite decide_True by done|rewrite decide_False by done]; done. Qed.
Lemma counted_app P which l1 l2 : counted P which (l1 ++ l2) = (counted P which l1 + counted P which l2)%nat.
Proof. induction l1 as [|b l1 IH]; [done|]. cbn [app]. rewrite !counted_cons, IH. lia. Qed.
Lemma count_bump which allowed b : count_of which (bump allowed b) = ((if eqb which allowed then 1 else 0) + count_of which b)%nat.
Proof. by destruct which, allowed. Qed.

Lemma counted_bump P which allowed id start l : NoDup (bucket_id <$> l) -> existsb (same_bucket id start) l = true ->
  counted P which ((fun b => if same_bucket id start b then bump allowed b else b) <$> l) = ((if P (id, start) && eqb which allowed then 1 else 0) + counted P which l)%nat.
Proof.
  induction l as [|b l IH]; [done|]. cbn [fmap list_fmap existsb]. intros [Hni Hnd]%NoDup_cons Hex. rewrite !counted_cons.
  destruct (same_bucket id start b) eqn:Eb.
  - apply same_bucket_id in Eb. change (bucket_id (bump allowed b)) with (bucket_id b). rewrite Eb, count_bump.
    replace ((fun b => if same_bucket id start b then bump allowed b else b) <$> l) with l; [destruct (P (id, start)), (eqb which allowed); cbn; lia|].
    rewrite <-(list_fmap_id l) at 1. apply list_fmap_ext. intros i x Hx. destruct (same_bucket id start x) eqn:Ex; [|done]. exfalso. apply Hni. apply same_bucket_id in Ex. rewrite Eb, <-Ex.
    apply list_elem_of_fmap_2. by eapply list_elem_of_lookup_2.
  - rewrite IH by done. lia.
Qed.

Lemma increment_ids id start allowed w : NoDup (bucket_id <$> kw_usage w) -> NoDup (bucket_id <$> kw_usage (incrementUsage id start allowed w)).
Proof.
  intros Hnd. cbn [incrementUsage put_usage kw_usage]. destruct (existsb _ _) eqn:Ex.
  - rewrite <-list_fmap_compose. erewrite list_fmap_ext; [exact Hnd|]. intros i b _. cbn. by destruct (same_bucket id start b).
  - rewrite fmap_app. apply NoDup_app. split_and!; [done| |apply NoDup_singleton]. intros x (b & -> & Hb)%list_elem_of_fmap Hy. apply list_elem_of_singleton in Hy.
    apply Bool.not_true_iff_false in Ex. apply Ex. apply existsb_exists. exists b. split; [by apply list_elem_of_In|by apply same_bucket_id].
Qed.

Lemma increment_counted P which id start allowed w : NoDup (bucket_id <$> kw_usage w) ->
  counted P which (kw_usage (incrementUsage id start allowed w)) = ((if P (id, start) && eqb which allowed then 1 else 0) + counted P which (kw_usage w))%nat.
Proof.
  intros Hnd. cbn [incrementUsage put_usage kw_usage]. destruct (existsb _ _) eqn:Ex; [by apply counted_bump|].
  rewrite counted_app, counted_cons. unfold bucket_id. cbn [ub_apiKeyId ub_bucketStart]. destruct (P (id, start)), which, allowed; cbn; lia.
Qed.

Definition hit_in (P : string * Z -> bool) (which : bool) (h : Hit) : bool := P (hit_key h, bucket_of (hit_at h)) && eqb which (hit_allowed h).

Lemma record_all_counted P which hits w : NoDup (bucket_id <$> kw_usage w) ->
  NoDup (bucket_id <$> kw_usage (record_all hits w)) /\
  counted P which (kw_usage (record_all hits w)) = (length (filter (fun h => hit_in P which h = true) hits) + counted P which (kw_usage w))%nat.
Proof.
  revert w. induction hits as [|h hits IH]; intros w Hnd; [done|]. cbn [record_all foldl]. fold (record_all hits).
  destruct (IH (incrementUsage (hit_key h) (bucket_of (hit_at h)) (hit_allowed h) w)) as [H1 H2]; [by apply increment_ids|]. split; [done|].
  unfold record_all in H2. rewrite H2, increment_counted by done. rewrite filter_cons. fold (hit_in P which h). destruct (decide (hit_in P which h = true)) as [E|E]; [rewrite E|rewrite (proj1 (Bool.not_true_iff_false _) E)]; cbn [length]; lia.
Qed.

Lemma sum_list_perm (l1 l2 : list nat) : l1 ≡ₚ l2 -> sum_list l1 = sum_list l2.
Proof. induction 1; cbn; lia. Qed.

(** The totals of a report are the requests recorded, by outcome, in the hours whose
    start lies in the interval, both ends included. *)
Theorem usage_totals_exact hits id from to : let w := record_all hits {| kw_keys := []; kw_usage := []; kw_tokens := []; kw_now := 0 |} in
  let inside which h := bool_decide (hit_key h = id) && ((from <=? bucket_of (hit_at h)) && (bucket_of (hit_at h) <=? to)) && eqb which (hit_allowed h) in
  (getUsage id from to w).2 = (length (filter (fun h => inside true h = true) hits), length (filter (fun h => inside false h = true) hits)).
Proof.
  cbn zeta. set (w := record_all hits _). set (P := fun x : string * Z => bool_decide (x.1 = id) && ((from <=? x.2) && (x.2 <=? to))).
  assert (Hc : forall which, counted P which (kw_usage w) = length (filter (fun h => hit_in P which h = true) hits)).
  { intros which. destruct (record_all_counted P which hits {| kw_keys := []; kw_usage := []; kw_tokens := []; kw_now := 0 |}) as [_ H]; [constructor|]. unfold w. rewrite H. cbn. lia. }
  assert (Hp : forall which, sum_list (count_of which <$> usage_between id from to w) = counted P which (kw_usage w)).
  { intros which. unfold usage_between, counted. apply sum_list_perm. rewrite sort_by_perm. rewrite (list_filter_iff _ (fun b => P (bucket_id b) = true)); [done|]. intros b. unfold P, bucket_id. cbn [fst snd].
    case_bool_decide; cbn [andb]; naive_solver. }
  unfold getUsage. cbn [snd]. f_equal; [etrans; [exact (Hp true)|apply Hc]|etrans; [exact (Hp false)|apply Hc]].
Qed.

(** * Signup tokens *)

Inductive SignupEvent := se_remember (email token : string) | se_consume (token : string) | se_sweep | se_tick (ms : Z).
Inductive SignupNote := sn_issued (token email : string) (at_ : Z) | sn_redeemed (token email : string) (at_ : Z).
Definition signup_step (w : KeyWorld) (ev : SignupEvent) : KeyWorld * list SignupNote :=
  match ev with
  | se_remember email token => let '(key, w') := remember email token w in (w', [sn_issued key email (kw_now w)])
  | se_consume token => let '(email, w') := consume token w in (w', match email with Some email => [sn_redeemed token email (kw_now w)] | None => [] end)
  | se_sweep => (sweep w, [])
  | se_tick ms => ({| kw_keys := kw_keys w; kw_usage := kw_usage w; kw_tokens := kw_tokens w; kw_now := kw_now w + Z.max 0 ms |}, [])
  end.
Definition signup_run (evs : list SignupEvent) (w : KeyWorld) : KeyWorld * list SignupNote :=
  foldl (fun s ev => let '(w', notes) := signup_step s.1 ev in (w', s.2 ++ notes)) (w, []) evs.

Definition issued (token : string) (n : SignupNote) : bool := match n with sn_issued t _ _ => bool_decide (t = token) | _ => false end.
Definition redeemed (token : string) (n : SignupNote) : bool := match n with sn_redeemed t _ _ => bool_decide (t = token) | _ => false end.
Definition times (f : SignupNote -> bool) (hist : list SignupNote) : nat := length (filter (fun n => f n = true) hist).

Record signup_ok (w : KeyWorld) (hist : list SignupNote) : Prop := {
  so_wf : wf (kw_tokens w);
  so_count : forall token, (times (redeemed token) hist + (if has token (kw_tokens w) then 1 else 0) <= times (issued token) hist)%nat;
  so_held : forall token entry, get token (kw_tokens w) = Some entry -> exists at_, sn_issued token (st_value entry) at_ ∈ hist /\ st_expiresAt entry = at_ + DEFAULT_SIGNUP_TOKEN_TTL_SECONDS * 1000;
  so_redeemed : forall token email at_, sn_redeemed token email at_ ∈ hist -> exists at0, sn_issued token email at0 ∈ hist /\ at_ < at0 + DEFAULT_SIGNUP_TOKEN_TTL_SECONDS * 1000;
}.

Lemma times_app f h1 h2 : times f (h1 ++ h2) = (times f h1 + times f h2)%nat.
Proof. unfold times. by rewrite filter_app, length_app. Qed.
Lemma times_one f n : times f [n] = if f n then 1%nat else 0%nat.
Proof. unfold times. rewrite filter_cons. destruct (f n); [rewrite decide_True by done|rewrite decide_False by done]; done. Qed.

Lemma has_set_eq {V} (k k' : string) (v : V) m : has k' (set k v m) = bool_decide (k = k') || has k' m.
Proof. unfold has. case_bool_decide as H; [subst; by rewrite get_set_eq|by rewrite get_set_ne]. Qed.

Lemma signup_step_ok w hist ev : signup_ok w hist -> signup_ok (signup_step w ev).1 (hist ++ (signup_step w ev).2).
Proof.
  intros [H1 H2 H3 H4]. destruct ev as [email token|token| |ms]; cbn [signup_step].
  - cbn [remember fst snd]. set (key := if has_char at_sign email then token else email). split; cbn [put_tokens kw_tokens].
    + by apply set_wf.
    + intros t. rewrite !times_app, !times_one, has_set_eq. cbn [issued redeemed]. specialize (H2 t). case_bool_decide; cbn [orb]; destruct (has t (kw_tokens w)); lia.
    + intros t entry Hg. rewrite get_set in Hg. case_decide as Ht.
      * injection Hg as <-. exists (kw_now w). split; [|done]. apply elem_of_app. right. apply list_elem_of_singleton. cbn [st_value]. congruence.
      * destruct (H3 _ _ Hg) as (a & Ha & He). exists a. split; [|done]. apply elem_of_app. by left.
    + intros t em a Hin. apply elem_of_app in Hin as [Hin|Hin]; [|by apply list_elem_of_singleton in Hin]. destruct (H4 _ _ _ Hin) as (a0 & Ha & He). exists a0. split; [|done]. apply elem_of_app. by left.
  - unfold consume. destruct (get token (kw_tokens w)) as [entry|] eqn:Eg; [|cbn [fst snd]; rewrite app_nil_r; done].
    assert (Hhas : has token (kw_tokens w) = true) by (unfold has; by rewrite Eg).
    assert (Hdel : forall t, has t (del token (kw_tokens w)) = if bool_decide (t = token) then false else has t (kw_tokens w)).
    { intros t. unfold has. case_bool_decide as Ht; [subst; by rewrite get_del_eq|rewrite get_del_ne by congruence; done]. }
    assert (Hheld : forall t e, get t (del token (kw_tokens w)) = Some e -> get t (kw_tokens w) = Some e).
    { intros t e. destruct (decide (t = token)) as [->|]; [rewrite get_del_eq by done; done|by rewrite get_del_ne by congruence]. }
    destruct (st_expiresAt entry <=? kw_now w) eqn:Ex; cbn [fst snd]; (split; cbn [put_tokens kw_tokens]; [by apply del_wf| | |]).
    + intros t. rewrite app_nil_r, Hdel. specialize (H2 t). case_bool_decide; destruct (has t (kw_tokens w)); lia.
    + intros t e He. rewrite app_nil_r. by apply H3, Hheld.
    + rewrite app_nil_r. apply H4.
    + intros t. rewrite !times_app, !times_one, Hdel. cbn [issued redeemed]. specialize (H2 t). case_bool_decide as Ht1; case_bool_decide as Ht2; subst; try done; [rewrite Hhas in H2; lia|]. lia.
    + intros t e He. destruct (H3 _ _ (Hheld _ _ He)) as (a & Ha & Hexp). exists a. split; [|done]. apply elem_of_app. by left.
    + intros t em a Hin. apply elem_of_app in Hin as [Hin|Hin].
      * destruct (H4 _ _ _ Hin) as (a0 & Ha & He). exists a0. split; [|done]. apply elem_of_app. by left.
      * apply list_elem_of_singleton in Hin as [= -> -> ->]. destruct (H3 _ _ Eg) as (a0 & Ha & He). exists a0. split; [apply elem_of_app; by left|]. lia.
  - assert (Hf : forall t e, get t (filter (fun kv : string * StoredToken => kw_now w < st_expiresAt kv.2) (kw_tokens w)) = Some e -> get t (kw_tokens w) = Some e).
    { intros t e He. pose proof (eq_trans (eq_sym (get_filter (fun e => kw_now w < st_expiresAt e) t (kw_tokens w) H1)) He) as Hg. destruct (get t (kw_tokens w)); [cbn in Hg; by case_decide|done]. }
    cbn [fst snd]. rewrite app_nil_r. unfold sweep. split; cbn [put_tokens kw_tokens]; [by apply filter_wf| | |done].
    + intros t. specialize (H2 t). unfold has in *. destruct (get t (filter _ _)) as [e|] eqn:Eg; [by rewrite (Hf _ _ Eg) in H2|]. destruct (get t (kw_tokens w)); lia.
    + intros t e He. by apply H3, Hf.
  - cbn [fst snd]. by rewrite app_nil_r.
Qed.

Definition no_keys : KeyWorld := {| kw_keys := []; kw_usage := []; kw_tokens := []; kw_now := 0 |}.

Lemma signup_run_ok evs : signup_ok (signup_run evs no_keys).1 (signup_run evs no_keys).2.
Proof.
  induction evs as [|ev evs IH] using rev_ind.
  - split; [apply empty_wf|intros; cbn; lia|done|intros ? ? ? H; by apply elem_of_nil in H].
  - unfold signup_run in *. rewrite foldl_app. cbn [foldl]. destruct (foldl _ _ evs) as [w hist]. cbn [fst snd] in *. pose proof (signup_step_ok w hist ev IH) as H. by destruct (signup_step w ev).
Qed.

(** Whatever is remembered, redeemed and swept: a token is redeemed no more often than
    it was issued, and only for the address it was issued to, within fifteen
    minutes. *)
Theorem signup_token_once evs token : let hist := (signup_run evs no_keys).2 in
  (times (redeemed token) hist <= times (issued token) hist)%nat /\
  (forall email at_, sn_redeemed token email at_ ∈ hist -> exists at0, sn_issued token email at0 ∈ hist /\ at_ < at0 + 900000).
Proof. destruct (signup_run_ok evs) as [_ H2 _ H4]. cbn zeta. split; [specialize (H2 token); destruct (has _ _); lia|]. intros email at_ H. by apply H4. Qed.

(** A confirmation that succeeds has taken a live token out of the store and issued an
    integrator key without scopes to the token's address, and nothing else. *)
Theorem confirm_issues_integrator ok id secret token w k plaintext : wf (kw_tokens w) -> (run (confirm ok id secret token) w).1 = Ok (k, plaintext) ->
  let w' := (run (confirm ok id secret token) w).2 in
  exists entry, get token (kw_tokens w) = Some entry /\ kw_now w < st_expiresAt entry /\ get token (kw_tokens w') = None /\
    ak_tier k = tier_integrator /\ ak_owner k = st_value entry /\ ak_scopes k = [] /\ plaintext = secret /\ ak_keyHash k = hashCredential secret /\ kw_keys w' = kw_keys w ++ [k].
Proof.
  intros Hwf. unfold confirm. case_bool_decide; [done|]. rewrite run_pbind, run_atomic. unfold consume. destruct (get token (kw_tokens w)) as [entry|] eqn:Eg; [|done]. cbn [fst snd].
  destruct (st_expiresAt entry <=? kw_now w) eqn:Ex; [done|]. case_bool_decide; [done|]. unfold createSelfServiceKey, createKey. destruct ok; [|done]. rewrite run_pbind, run_atomic. unfold insert_key.
  destruct (_ || _); [done|]. cbn. intros [= <- <-]. exists entry. split_and!; try done; [lia|]. by apply get_del_eq.
Qed.
End keys.

(** * Witnesses and findings *)

Definition demo_key (id secret : string) : ApiKeyRecord :=
  {| ak_id := id; ak_keyPrefix := String.substring 0 8 secret; ak_keyHash := CredDemo.hash secret; ak_tier := tier_partner; ak_owner := "acme"; ak_scopes := []; ak_createdAt := 100;
     ak_revokedAt := None; ak_expiresAt := Some 2000; ak_lastUsedAt := None; ak_lastWarnedAt := None |}.
Definition demo_keys : KeyWorld := {| kw_keys := [demo_key "k1" CredDemo.secret1]; kw_usage := []; kw_tokens := [("tok", {| st_value := "a@b.io"; st_expiresAt := 1900000 |})]; kw_now := 1000000 |}.

Lemma resolve_key_exact_witness : (run (resolveKey CredDemo.hash true CredDemo.secret1) demo_keys).1 = Ok (Some (demo_key "k1" CredDemo.secret1)).
Proof.
  apply (resolve_key_exact CredDemo.hash CredDemo.secret1 demo_keys (demo_key "k1" CredDemo.secret1)); [by apply (bool_decide_unpack _); vm_compute|].
  split_and!; [by apply Nat.leb_le|by left|done|done|intros t [= <-]; by vm_compute|done].
Defined.

Lemma confirm_issues_integrator_witness : exists k, (run (confirm CredDemo.hash true "k2" CredDemo.secret2 "tok") demo_keys).1 = Ok (k, CredDemo.secret2) /\ ak_tier k = tier_integrator /\ ak_owner k = "a@b.io".
Proof.
  eexists. split; [by vm_compute|].
  destruct (confirm_issues_integrator CredDemo.hash true "k2" CredDemo.secret2 "tok" demo_keys
    {| ak_id := "k2"; ak_keyPrefix := "BBBBBBBB"; ak_keyHash := CredDemo.hash CredDemo.secret2; ak_tier := tier_integrator; ak_owner := "a@b.io"; ak_scopes := []; ak_createdAt := 1000;
       ak_revokedAt := None; ak_expiresAt := None; ak_lastUsedAt := None; ak_lastWarnedAt := None |} CredDemo.secret2) as (entry & Hg & _ & _ & Ht & Ho & _).
  - apply (bool_decide_unpack _). by vm_compute.
  - by vm_compute.
  - split; [exact Ht|]. injection Hg as <-. exact Ho.
Defined.

(** A rotation revokes before it creates: when the second write fails, the owner is
    left without a key. *)
Theorem rotation_can_leave_no_key : let '(o, w) := run (rotate CredDemo.hash true true false "k1" "k2" CredDemo.secret2 None) demo_keys in
  o = Err ke_database /\ (run (resolveKey CredDemo.hash true CredDemo.secret1) w).1 = Ok None /\ length (kw_keys w) = 1%nat.
Proof. by vm_compute. Qed.

(** The end of the interval is included. *)
Theorem usage_end_is_included : (getUsage "k1" 0 3600 (record_all [{| hit_key := "k1"; hit_allowed := true; hit_at := 3600 |}] no_keys)).2 = (1, 0)%nat.
Proof. by vm_compute. Qed.

(** Revoking a revoked key moves its revocation time. *)
Theorem second_revocation_moves_time : let w1 := (run (revokeKey true "k1") demo_keys).2 in let w2 := (run (revokeKey true "k1") (run (tick_clock 5000) w1).2).2 in
  ak_revokedAt <$> kw_keys w1 = [Some 1000] /\ ak_revokedAt <$> kw_keys w2 = [Some 1005].
Proof. by vm_compute. Qed.

(** Without an owner the listing is that of the owner with the empty name. *)
Definition list_endpoint (owner : option string) (w : KeyWorld) : list ApiKeyRecord := match owner with Some o => if bool_decide (o = "") then listKeys "" w else listKeys o w | None => listKeys "" w end.
Theorem listing_without_owner_is_empty : list_endpoint None demo_keys = [] /\ length (list_endpoint (Some "acme") demo_keys) = 1%nat.
Proof. by vm_compute. Qed.
