(* ===== verification/Shadow.v ===== *)
(** The shadow monitor (soroban/shadow.service.ts, soroban/shadow-divergence.ts,
    soroban/shadow.types.ts and [StellarTxService.simulateContract]): observations of
    off-chain transitions wait in a bounded queue, are simulated in batches by a
    background drain, and are counted.

    The service is a state machine.  Its events are the calls of the request path,
    the drain timer, the end of each simulation of the batch in flight, and the
    destruction of the module.  Details of errors are only logged and are left out;
    the calendar day is part of the event. *)
From S2P Require Import Prelude JsMap BigInt SourceDeposits.
Local Open Scope string_scope.
Local Open Scope list_scope.
Local Open Scope Z_scope.

Definition SHADOW_TRANSITIONS : list string := ["accept"; "fill"; "cancel"; "expire"; "slash"].
Inductive ShadowDivergenceReason := outcome_mismatch | simulation_error | simulation_exception | contract_unconfigured.
#[export] Instance ShadowDivergenceReason_eq : EqDecision ShadowDivergenceReason.
Proof. solve_decision. Defined.
Definition reason_name (r : ShadowDivergenceReason) : string :=
  match r with outcome_mismatch => "outcome_mismatch" | simulation_error => "simulation_error" | simulation_exception => "simulation_exception" | contract_unconfigured => "contract_unconfigured" end.
Inductive ShadowOutcome := so_ok | so_rejected | so_error.
#[export] Instance ShadowOutcome_eq : EqDecision ShadowOutcome.
Proof. solve_decision. Defined.

(** * Classification *)

Record SimulationClassification := { sc_outcome : ShadowOutcome; sc_threw : bool }.
Definition asShadowTransition (value : string) : option string := if bool_decide (value ∈ SHADOW_TRANSITIONS) then Some value else None.
Definition expectedOutcomeFromOffchain (committed : bool) : ShadowOutcome := if committed then so_ok else so_rejected.

Definition CONTRACT_REVERT_MARKERS : list string := ["error(contract"; "error(wasmvm"; "reverted"; "revert"].
Definition HARD_FAILURE_MARKERS : list string := ["missing export"].
Definition isContractRevert (detail : string) : bool :=
  let lower := toLowerCase detail in
  if existsb (fun marker => contains marker lower) HARD_FAILURE_MARKERS then false else existsb (fun marker => contains marker lower) CONTRACT_REVERT_MARKERS.
(** [None]: no response; otherwise its [error] member. *)
Definition classifySimulationResponse (response : option (option string)) : SimulationClassification :=
  match response with
  | None => {| sc_outcome := so_error; sc_threw := true |}
  | Some (Some rawError) =>
      if bool_decide (rawError = "") then {| sc_outcome := so_ok; sc_threw := false |}
      else if isContractRevert rawError then {| sc_outcome := so_rejected; sc_threw := false |} else {| sc_outcome := so_error; sc_threw := false |}
  | Some None => {| sc_outcome := so_ok; sc_threw := false |}
  end.
Definition classifySimulationFailure : SimulationClassification := {| sc_outcome := so_error; sc_threw := true |}.
Definition classifyDivergence (expected : ShadowOutcome) (simulated : option SimulationClassification) : option ShadowDivergenceReason :=
  match simulated with
  | None => if bool_decide (expected = so_ok) then Some contract_unconfigured else None
  | Some s =>
      if sc_threw s then Some simulation_exception
      else if bool_decide (sc_outcome s = so_error) then if bool_decide (expected = so_ok) then Some simulation_error else None
      else if bool_decide (expected = sc_outcome s) then None else Some outcome_mismatch
  end.

(** ** [simulateContract] *)

Inductive SimulateOutcome := sim_ok | sim_rejected | sim_error | sim_unavailable | sim_skipped.
(** What building the envelope and asking the RPC gave. *)
Record SimulateEnv := { sv_sourceAccount : option string; sv_contractId : option string; sv_built : bool; sv_response : option (option (option string)) }.
Definition blank (o : option string) : bool := match o with Some s => bool_decide (trim s = "") | None => true end.
Definition simulateContract (e : SimulateEnv) : SimulateOutcome :=
  if blank (sv_sourceAccount e) then sim_skipped
  else if blank (sv_contractId e) then sim_skipped
  else if negb (sv_built e) then sim_unavailable
  else match sv_response e with
       | None => sim_unavailable
       | Some None => sim_unavailable
       | Some (Some errorText) =>
           let c := classifySimulationResponse (Some errorText) in
           if bool_decide (sc_outcome c = so_ok) && negb (sc_threw c) then sim_ok else if bool_decide (sc_outcome c = so_rejected) then sim_rejected else sim_error
       end.

(** * The service *)

Record ShadowObservationRequest := { or_transition : string; or_intentId : string; or_committed : bool }.
Record QueuedShadowRequest := { qr_request : ShadowObservationRequest; qr_expectedOutcome : ShadowOutcome }.
Record ShadowDivergenceCell := { dc_transition : string; dc_reason : ShadowDivergenceReason; dc_count : nat }.
Record DayAccumulator := { da_day : string; da_compared : nat; da_diverged : nat; da_cells : jsmap ShadowDivergenceCell }.
Record Counts := { ct_compared : nat; ct_diverged : nat }.
Record ShadowConfig := { sf_enabled : bool; sf_sampleRate : Z; sf_queueMax : nat; sf_concurrency : nat }.
Definition MAX_SHADOW_REPORT_DAYS : nat := 90.
Definition MAX_RETAINED_DAYS : nat := MAX_SHADOW_REPORT_DAYS.

(** [sh_batch] are the observations of the batch in flight that are not yet
    processed, [sh_inFlight] the size the batch had. *)
Record Shadow := {
  sh_queue : list QueuedShadowRequest; sh_inFlight : nat; sh_batch : list QueuedShadowRequest; sh_drainScheduled : bool; sh_draining : bool; sh_shuttingDown : bool;
  sh_disabled : nat; sh_sampledOut : nat; sh_dropped : nat; sh_completed : nat; sh_compared : nat; sh_diverged : nat;
  sh_transitions : jsmap Counts; sh_cells : jsmap ShadowDivergenceCell; sh_days : jsmap DayAccumulator;
}.
Definition boot : Shadow := {| sh_queue := []; sh_inFlight := 0; sh_batch := []; sh_drainScheduled := false; sh_draining := false; sh_shuttingDown := false;
  sh_disabled := 0; sh_sampledOut := 0; sh_dropped := 0; sh_completed := 0; sh_compared := 0; sh_diverged := 0;
  sh_transitions := (fun t => (t, {| ct_compared := 0; ct_diverged := 0 |})) <$> SHADOW_TRANSITIONS; sh_cells := []; sh_days := [] |}.

Definition put_work (queue batch : list QueuedShadowRequest) (inFlight : nat) (scheduled draining : bool) (s : Shadow) : Shadow :=
  {| sh_queue := queue; sh_inFlight := inFlight; sh_batch := batch; sh_drainScheduled := scheduled; sh_draining := draining; sh_shuttingDown := sh_shuttingDown s;
     sh_disabled := sh_disabled s; sh_sampledOut := sh_sampledOut s; sh_dropped := sh_dropped s; sh_completed := sh_completed s; sh_compared := sh_compared s; sh_diverged := sh_diverged s;
     sh_transitions := sh_transitions s; sh_cells := sh_cells s; sh_days := sh_days s |}.
Definition put_skips (disabled sampledOut dropped : nat) (s : Shadow) : Shadow :=
  {| sh_queue := sh_queue s; sh_inFlight := sh_inFlight s; sh_batch := sh_batch s; sh_drainScheduled := sh_drainScheduled s; sh_draining := sh_draining s; sh_shuttingDown := sh_shuttingDown s;
     sh_disabled := disabled; sh_sampledOut := sampledOut; sh_dropped := dropped; sh_completed := sh_completed s; sh_compared := sh_compared s; sh_diverged := sh_diverged s;
     sh_transitions := sh_transitions s; sh_cells := sh_cells s; sh_days := sh_days s |}.
Definition put_results (completed compared diverged : nat) (transitions : jsmap Counts) (cells : jsmap ShadowDivergenceCell) (days : jsmap DayAccumulator) (s : Shadow) : Shadow :=
  {| sh_queue := sh_queue s; sh_inFlight := sh_inFlight s; sh_batch := sh_batch s; sh_drainScheduled := sh_drainScheduled s; sh_draining := sh_draining s; sh_shuttingDown := sh_shuttingDown s;
     sh_disabled := sh_disabled s; sh_sampledOut := sh_sampledOut s; sh_dropped := sh_dropped s; sh_completed := completed; sh_compared := compared; sh_diverged := diverged;
     sh_transitions := transitions; sh_cells := cells; sh_days := days |}.

Section shadow.
Context (cfg : ShadowConfig).

(** [random]: the draw, in the unit of the sample rate, where a rate of one is [one]. *)
Definition shouldObserve (one random : Z) (s : Shadow) : bool * Shadow :=
  if negb (sf_enabled cfg) then (false, put_skips (S (sh_disabled s)) (sh_sampledOut s) (sh_dropped s) s)
  else if (sf_sampleRate cfg <? one) && (sf_sampleRate cfg <=? random) then (false, put_skips (sh_disabled s) (S (sh_sampledOut s)) (sh_dropped s) s)
  else (true, s).

Definition countDrop (s : Shadow) : Shadow := put_skips (sh_disabled s) (sh_sampledOut s) (S (sh_dropped s)) s.
Definition scheduleDrain (s : Shadow) : Shadow :=
  if sh_drainScheduled s || sh_draining s || sh_shuttingDown s then s else put_work (sh_queue s) (sh_batch s) (sh_inFlight s) true (sh_draining s) s.
Definition observe (request : ShadowObservationRequest) (s : Shadow) : Shadow :=
  if sh_shuttingDown s then countDrop s
  else if (sf_queueMax cfg <=? length (sh_queue s))%nat then countDrop s
  else scheduleDrain (put_work (sh_queue s ++ [{| qr_request := request; qr_expectedOutcome := expectedOutcomeFromOffchain (or_committed request) |}]) (sh_batch s) (sh_inFlight s) (sh_drainScheduled s) (sh_draining s) s).

(** The [finally] of a drain. *)
Definition idle (s : Shadow) : Shadow := put_work (sh_queue s) (sh_batch s) (sh_inFlight s) (sh_drainScheduled s) false s.
Definition finish_drain (s : Shadow) : Shadow := if negb (bool_decide (sh_queue s = [])) && negb (sh_shuttingDown s) then scheduleDrain (idle s) else idle s.
(** The loop of a drain up to its next await, or its end. *)
Definition next_batch (s : Shadow) : Shadow :=
  if negb (bool_decide (sh_queue s = [])) && negb (sh_shuttingDown s) then
    let batch := take (sf_concurrency cfg) (sh_queue s) in
    put_work (drop (sf_concurrency cfg) (sh_queue s)) batch (sh_inFlight s + length batch) (sh_drainScheduled s) true s
  else finish_drain s.
Definition drain (s : Shadow) : Shadow := if sh_draining s then s else next_batch (put_work (sh_queue s) (sh_batch s) (sh_inFlight s) (sh_drainScheduled s) true s).
(** A timer that was cleared does not fire. *)
Definition timer_fires (s : Shadow) : Shadow :=
  if sh_drainScheduled s && negb (sh_shuttingDown s) then drain (put_work (sh_queue s) (sh_batch s) (sh_inFlight s) false (sh_draining s) s) else s.

(** ** Recording *)

Definition bump_cell (transition : string) (reason : ShadowDivergenceReason) (cells : jsmap ShadowDivergenceCell) : jsmap ShadowDivergenceCell :=
  let key := transition +:+ "|" +:+ reason_name reason in
  set key {| dc_transition := transition; dc_reason := reason; dc_count := S (match get key cells with Some c => dc_count c | None => 0 end) |} cells.
Definition bump_counts (transition : string) (diverged : bool) (m : jsmap Counts) : jsmap Counts :=
  match get transition m with
  | Some c => set transition {| ct_compared := S (ct_compared c); ct_diverged := if diverged then S (ct_diverged c) else ct_diverged c |} m
  | None => m
  end.
Definition currentDay (today : string) (days : jsmap DayAccumulator) : DayAccumulator * jsmap DayAccumulator :=
  match get today days with
  | Some d => (d, days)
  | None =>
      let created := {| da_day := today; da_compared := 0; da_diverged := 0; da_cells := [] |} in
      let days := set today created days in
      (created, if (MAX_RETAINED_DAYS <? length days)%nat then drop 1 days else days)
  end.
(** The accumulator is the map's own object, as long as the map holds it. *)
Definition put_day (d : DayAccumulator) (days : jsmap DayAccumulator) : jsmap DayAccumulator := if has (da_day d) days then set (da_day d) d days else days.
Definition record (transition : string) (reason : option ShadowDivergenceReason) (today : string) (s : Shadow) : Shadow :=
  if sh_shuttingDown s then s
  else match asShadowTransition transition with
       | None => countDrop s
       | Some transition =>
           let '(day, days) := currentDay today (sh_days s) in
           match reason with
           | None =>
               put_results (S (sh_completed s)) (S (sh_compared s)) (sh_diverged s) (bump_counts transition false (sh_transitions s)) (sh_cells s)
                 (put_day {| da_day := da_day day; da_compared := S (da_compared day); da_diverged := da_diverged day; da_cells := da_cells day |} days) s
           | Some reason =>
               put_results (S (sh_completed s)) (S (sh_compared s)) (S (sh_diverged s)) (bump_counts transition true (sh_transitions s)) (bump_cell transition reason (sh_cells s))
                 (put_day {| da_day := da_day day; da_compared := S (da_compared day); da_diverged := S (da_diverged day); da_cells := bump_cell transition reason (da_cells day) |} days) s
           end
       end.

(** [None]: the call threw. *)
Definition simulated_of (result : option SimulateOutcome) : option SimulationClassification :=
  match result with
  | None => Some classifySimulationFailure
  | Some sim_skipped => None
  | Some r => Some {| sc_outcome := match r with sim_ok => so_ok | sim_rejected => so_rejected | _ => so_error end; sc_threw := match r with sim_unavailable => true | _ => false end |}
  end.
Definition process (entry : QueuedShadowRequest) (result : option SimulateOutcome) (today : string) (s : Shadow) : Shadow :=
  record (or_transition (qr_request entry)) (classifyDivergence (qr_expectedOutcome entry) (simulated_of result)) today s.

(** The [i]th simulation under way ends; after the last the loop goes on. *)
Definition simulation_ends (i : nat) (result : option SimulateOutcome) (today : string) (s : Shadow) : Shadow :=
  match sh_batch s !! i with
  | None => s
  | Some entry =>
      let s := process entry result today s in
      let batch := delete i (sh_batch s) in
      if bool_decide (batch = []) then next_batch (put_work (sh_queue s) [] 0 (sh_drainScheduled s) (sh_draining s) s)
      else put_work (sh_queue s) batch (sh_inFlight s) (sh_drainScheduled s) (sh_draining s) s
  end.
Definition onModuleDestroy (s : Shadow) : Shadow :=
  {| sh_queue := []; sh_inFlight := sh_inFlight s; sh_batch := sh_batch s; sh_drainScheduled := sh_drainScheduled s; sh_draining := sh_draining s; sh_shuttingDown := true;
     sh_disabled := sh_disabled s; sh_sampledOut := sh_sampledOut s; sh_dropped := sh_dropped s; sh_completed := sh_completed s; sh_compared := sh_compared s; sh_diverged := sh_diverged s;
     sh_transitions := sh_transitions s; sh_cells := sh_cells s; sh_days := sh_days s |}.

(** ** Report *)

Record ShadowQueueStats := { qs_depth : nat; qs_capacity : nat; qs_dropped : nat; qs_sampledOut : nat; qs_disabled : nat; qs_completed : nat }.
Definition queueStats (s : Shadow) : ShadowQueueStats :=
  {| qs_depth := length (sh_queue s) + sh_inFlight s; qs_capacity := sf_queueMax cfg + sf_concurrency cfg; qs_dropped := sh_dropped s; qs_sampledOut := sh_sampledOut s;
     qs_disabled := sh_disabled s; qs_completed := sh_completed s |}.
(** A rate is its numerator and denominator, [0/1] when nothing was compared. *)
Definition ratio (numerator denominator : nat) : nat * nat := match denominator with O => (O, 1%nat) | _ => (numerator, denominator) end.
Definition clamp_days (days : option Z) : nat := Z.to_nat (Z.min (Z.max (default 1 days) 1) (Z.of_nat MAX_SHADOW_REPORT_DAYS)).
Fixpoint compare_str (a b : string) : Z :=
  match a, b with
  | EmptyString, EmptyString => 0
  | EmptyString, _ => -1
  | _, EmptyString => 1
  | String x a, String y b => if code x =? code y then compare_str a b else code x - code y
  end.
Definition slice_last {A} (n : nat) (l : list A) : list A := drop (length l - n) l.
Record ShadowReport := { sr_compared : nat; sr_diverged : nat; sr_rate : nat * nat; sr_transitions : list (string * Counts * (nat * nat)); sr_divergences : list ShadowDivergenceCell;
  sr_daily : list DayAccumulator; sr_queue : ShadowQueueStats }.
Definition by_count (a b : ShadowDivergenceCell) : Z :=
  let c := Z.of_nat (dc_count b) - Z.of_nat (dc_count a) in if c =? 0 then let t := compare_str (dc_transition a) (dc_transition b) in if t =? 0 then compare_str (reason_name (dc_reason a)) (reason_name (dc_reason b)) else t else c.
Definition report (days : option Z) (s : Shadow) : ShadowReport :=
  {| sr_compared := sh_compared s; sr_diverged := sh_diverged s; sr_rate := ratio (sh_diverged s) (sh_compared s);
     sr_transitions := (fun t => let c := default {| ct_compared := 0; ct_diverged := 0 |} (get t (sh_transitions s)) in (t, c, ratio (ct_diverged c) (ct_compared c))) <$> SHADOW_TRANSITIONS;
     sr_divergences := sort_by by_count (values (sh_cells s));
     sr_daily := slice_last (clamp_days days) (sort_by (fun a b => compare_str (da_day a) (da_day b)) (values (sh_days s))); sr_queue := queueStats s |}.

(** * Runs *)

Inductive ShadowEvent := ev_ask (one random : Z) | ev_observe (r : ShadowObservationRequest) | ev_timer | ev_drain | ev_end (i : nat) (result : option SimulateOutcome) (today : string) | ev_destroy.
Definition shadow_step (s : Shadow) (ev : ShadowEvent) : Shadow :=
  match ev with
  | ev_ask one random => (shouldObserve one random s).2
  | ev_observe r => observe r s
  | ev_timer => timer_fires s
  | ev_drain => drain s
  | ev_end i result today => simulation_ends i result today s
  | ev_destroy => onModuleDestroy s
  end.
Definition shadow_run (evs : list ShadowEvent) : Shadow := foldl shadow_step boot evs.
Definition observes (evs : list ShadowEvent) : nat := length (filter (fun ev => match ev with ev_observe _ => true | _ => false end = true) evs).

(** * The books balance *)

Definition compared_of (c : Counts) : Z := Z.of_nat (ct_compared c).
Definition diverged_of (c : Counts) : Z := Z.of_nat (ct_diverged c).
Definition count_of_cell (c : ShadowDivergenceCell) : Z := Z.of_nat (dc_count c).

(** The tables of the report against its totals. *)
Record tables_ok (s : Shadow) : Prop := {
  to_completed : sh_completed s = sh_compared s;
  to_wf : wf (sh_transitions s) /\ wf (sh_cells s) /\ wf (sh_days s);
  to_known : keys (sh_transitions s) = SHADOW_TRANSITIONS;
  to_transitions : sumZ compared_of (values (sh_transitions s)) = Z.of_nat (sh_compared s) /\ sumZ diverged_of (values (sh_transitions s)) = Z.of_nat (sh_diverged s);
  to_cells : sumZ count_of_cell (values (sh_cells s)) = Z.of_nat (sh_diverged s);
  to_bound : (sh_diverged s <= sh_compared s)%nat;
  to_days : (length (sh_days s) <= MAX_RETAINED_DAYS)%nat;
}.
(** The work in progress. *)
Record busy_ok (s : Shadow) : Prop := {
  wo_queue : (length (sh_queue s) <= sf_queueMax cfg)%nat;
  wo_flight : (sh_inFlight s <= sf_concurrency cfg)%nat /\ (length (sh_batch s) <= sh_inFlight s)%nat;
  wo_idle : sh_draining s = false -> sh_batch s = [] /\ sh_inFlight s = O;
  wo_busy : sh_draining s = true -> sh_batch s <> [];
}.
Definition moving (s : Shadow) : Prop := sh_queue s <> [] -> sh_shuttingDown s = false -> sh_drainScheduled s = true \/ sh_draining s = true.
Definition work_ok (s : Shadow) : Prop := busy_ok s /\ moving s.
Definition accounted (n : nat) (s : Shadow) : Prop := sh_shuttingDown s = false -> n = (length (sh_queue s) + length (sh_batch s) + sh_completed s + sh_dropped s)%nat.

Definition same_results (s s' : Shadow) : Prop :=
  sh_completed s' = sh_completed s /\ sh_compared s' = sh_compared s /\ sh_diverged s' = sh_diverged s /\ sh_transitions s' = sh_transitions s /\ sh_cells s' = sh_cells s /\ sh_days s' = sh_days s.
Lemma tables_same s s' : same_results s s' -> tables_ok s -> tables_ok s'.
Proof. intros (E1 & E2 & E3 & E4 & E5 & E6) [H1 H2 H3 H4 H5 H6 H7]. split; rewrite ?E1, ?E2, ?E3, ?E4, ?E5, ?E6; done. Qed.

Definition same_work (s s' : Shadow) : Prop :=
  sh_queue s' = sh_queue s /\ sh_inFlight s' = sh_inFlight s /\ sh_batch s' = sh_batch s /\ sh_drainScheduled s' = sh_drainScheduled s /\ sh_draining s' = sh_draining s /\ sh_shuttingDown s' = sh_shuttingDown s.
Lemma work_same s s' : same_work s s' -> work_ok s -> work_ok s'.
Proof. intros (E1 & E2 & E3 & E4 & E5 & E6) [[H1 H2 H3 H4] H5]. split; [split|]; unfold moving; rewrite ?E1, ?E2, ?E3, ?E4, ?E5, ?E6; done. Qed.

Lemma bump_cell_ok t r cells : wf cells -> wf (bump_cell t r cells) /\ sumZ count_of_cell (values (bump_cell t r cells)) = sumZ count_of_cell (values cells) + 1.
Proof.
  intros Hwf. unfold bump_cell. set (key := t +:+ "|" +:+ reason_name r). split; [by apply set_wf|]. destruct (get key cells) as [c|] eqn:Eg.
  - rewrite (sumZ_values_set_present _ _ _ c) by done. unfold count_of_cell. cbn [dc_count]. lia.
  - rewrite set_absent by done. unfold values. rewrite fmap_app. cbn [fmap list_fmap snd]. rewrite sumZ_snoc. unfold count_of_cell at 2. cbn [dc_count]. lia.
Qed.

Lemma bump_counts_ok t d m : wf m -> t ∈ keys m -> wf (bump_counts t d m) /\ keys (bump_counts t d m) = keys m /\
  sumZ compared_of (values (bump_counts t d m)) = sumZ compared_of (values m) + 1 /\ sumZ diverged_of (values (bump_counts t d m)) = sumZ diverged_of (values m) + (if d then 1 else 0).
Proof.
  intros Hwf Ht. destruct (get t m) as [c|] eqn:Hc; [|by apply get_None_keys in Hc]. unfold bump_counts. rewrite Hc. split_and!; [by apply set_wf| | |].
  - rewrite keys_set. unfold has. by rewrite Hc.
  - rewrite (sumZ_values_set_present _ _ _ c) by done. unfold compared_of. cbn. lia.
  - rewrite (sumZ_values_set_present _ _ _ c) by done. unfold diverged_of. destruct d; cbn; lia.
Qed.

Lemma length_set_days k (d : DayAccumulator) m : length (set k d m) = if has k m then length m else S (length m).
Proof. unfold has. induction m as [|[k' v'] m IH]; [done|]. cbn [set get]. case_bool_decide; [done|]. cbn [length]. rewrite IH. by destruct (get k m). Qed.

Lemma wf_drop {V} n (m : jsmap V) : wf m -> wf (drop n m).
Proof. unfold wf, keys. intros H. rewrite fmap_drop. eapply sublist_NoDup; [exact H|]. apply sublist_drop. Qed.

Lemma currentDay_ok today days : wf days -> (length days <= MAX_RETAINED_DAYS)%nat ->
  wf (currentDay today days).2 /\ (length (currentDay today days).2 <= MAX_RETAINED_DAYS)%nat.
Proof.
  unfold jsmap. intros Hwf Hl. unfold currentDay. destruct (get today days) eqn:Eg; [done|]. cbn [snd]. set (created := {| da_day := _; da_compared := _; da_diverged := _; da_cells := _ |}).
  assert (Hlen : length (set today created days) = S (length days)) by (rewrite length_set_days; unfold has; by rewrite Eg).
  destruct (_ <? _)%nat eqn:E; [split; [by apply wf_drop, set_wf|rewrite length_drop; lia]|]. apply Nat.ltb_ge in E. split; [by apply set_wf|lia].
Qed.

Lemma put_day_ok d days : wf days -> wf (put_day d days) /\ length (put_day d days) = length days.
Proof. intros Hwf. unfold put_day. destruct (has _ _) eqn:E; [|done]. split; [by apply set_wf|]. by rewrite length_set_days, E. Qed.

Lemma record_ok t r today s : tables_ok s -> tables_ok (record t r today s) /\ same_work s (record t r today s) /\
  (sh_shuttingDown s = false -> sh_completed (record t r today s) + sh_dropped (record t r today s) = S (sh_completed s + sh_dropped s))%nat.
Proof.
  intros Hok. unfold record. destruct (sh_shuttingDown s) eqn:Es; [split_and!; [done|done|done]|]. unfold asShadowTransition. case_bool_decide as Ht.
  2:{ split_and!; [by apply (tables_same s)|done|]. intros _. cbn. lia. }
  destruct Hok as [H1 (W1 & W2 & W3) H3 (H4 & H4') H5 H6 H7]. destruct (currentDay_ok today (sh_days s) W3 H7) as [C1 C2]. destruct (currentDay today (sh_days s)) as [day days]. cbn [snd] in C1, C2.
  destruct (bump_counts_ok t (match r with Some _ => true | None => false end) (sh_transitions s) W1) as (B1 & B2 & B3 & B4); [by rewrite H3|].
  destruct r as [reason|]; (split_and!; [|done|intros _; cbn; lia]).
  - destruct (bump_cell_ok t reason (sh_cells s) W2) as [L1 L2]. set (d := {| da_day := _; da_compared := _; da_diverged := _; da_cells := _ |}). destruct (put_day_ok d days C1) as [D1 D2].
    split; cbn [put_results sh_completed sh_compared sh_diverged sh_transitions sh_cells sh_days]; [lia|done|congruence|rewrite B3, B4; lia|rewrite L2; lia|lia|lia].
  - set (d := {| da_day := _; da_compared := _; da_diverged := _; da_cells := _ |}). destruct (put_day_ok d days C1) as [D1 D2].
    split; cbn [put_results sh_completed sh_compared sh_diverged sh_transitions sh_cells sh_days]; [lia|done|congruence|rewrite B3, B4; lia|done|lia|lia].
Qed.

Lemma values_keys (d : Counts) (m : jsmap Counts) : wf m -> values m = (fun k => default d (get k m)) <$> keys m.
Proof.
  unfold wf, values, keys. induction m as [|[k v] m IH]; [done|]. cbn [fmap list_fmap fst snd]. intros [Hni Hnd]%NoDup_cons. cbn [get]. rewrite bool_decide_eq_true_2 by done. cbn [default]. f_equal.
  rewrite IH by done. apply list_fmap_ext. intros i k' Hk. rewrite bool_decide_eq_false_2; [done|]. intros ->. apply Hni. by eapply list_elem_of_lookup_2.
Qed.
Lemma sumZ_perm {A} (f : A -> Z) l1 l2 : l1 ≡ₚ l2 -> sumZ f l1 = sumZ f l2.
Proof. induction 1; cbn [sumZ foldr]; unfold sumZ in *; cbn; lia. Qed.

Hypothesis concurrency_pos : (0 < sf_concurrency cfg)%nat.

Lemma schedule_ok s : busy_ok s -> work_ok (scheduleDrain s).
Proof.
  intros H. unfold scheduleDrain. destruct (sh_drainScheduled s) eqn:E1; cbn [orb]; [by split; [|left]|]. destruct (sh_draining s) eqn:E2; cbn [orb]; [by split; [|right]|].
  destruct (sh_shuttingDown s) eqn:E3; [split; [done|]; intros _ ?; congruence|]. destruct H as [H1 H2 H3 H4]. split; [|by left]. split; cbn; [done|done|by rewrite E2 in H3|done].
Qed.
Lemma schedule_same s : same_results s (scheduleDrain s) /\ sh_queue (scheduleDrain s) = sh_queue s /\ sh_batch (scheduleDrain s) = sh_batch s /\ sh_dropped (scheduleDrain s) = sh_dropped s /\
  sh_shuttingDown (scheduleDrain s) = sh_shuttingDown s.
Proof. unfold scheduleDrain. by destruct (_ || _). Qed.

(** A drain that is between batches. *)
Lemma next_batch_ok s : (length (sh_queue s) <= sf_queueMax cfg)%nat -> sh_batch s = [] -> sh_inFlight s = O -> work_ok (next_batch s).
Proof.
  intros Hq Hb Hf. unfold next_batch. case_bool_decide as Hne; cbn [negb andb].
  - unfold finish_drain. rewrite bool_decide_eq_true_2 by done. cbn [negb andb]. split; [split; cbn; rewrite ?Hb, ?Hf, ?Hne; cbn; try done; lia|]. intros Hx. by destruct Hx.
  - destruct (sh_shuttingDown s) eqn:Es; cbn [negb andb].
    + unfold finish_drain. rewrite Es, andb_false_r. split; [split; cbn; rewrite ?Hb, ?Hf; cbn; try done; lia|]. intros _ Hx. cbn in Hx. congruence.
    + split; [|by right]. destruct (sh_queue s) as [|x q] eqn:Eq; [done|]. split; cbn; rewrite ?Hf.
      * rewrite length_drop. cbn in *. lia.
      * rewrite length_take. lia.
      * done.
      * intros _. destruct (sf_concurrency cfg); [lia|done].
Qed.
Lemma next_batch_same s : sh_batch s = [] -> same_results s (next_batch s) /\ sh_dropped (next_batch s) = sh_dropped s /\ sh_shuttingDown (next_batch s) = sh_shuttingDown s /\
  (length (sh_queue (next_batch s)) + length (sh_batch (next_batch s)) = length (sh_queue s))%nat.
Proof.
  intros Hb. unfold next_batch. destruct (_ && _).
  - split_and!; [done|done|done|]. cbn. rewrite length_take, length_drop. lia.
  - assert (Hi : same_results s (idle s) /\ sh_dropped (idle s) = sh_dropped s /\ sh_shuttingDown (idle s) = sh_shuttingDown s /\ (length (sh_queue (idle s)) + length (sh_batch (idle s)) = length (sh_queue s))%nat)
      by (split_and!; [done|done|done|cbn; rewrite Hb; cbn; lia]).
    unfold finish_drain. destruct (_ && _); [|done]. destruct (schedule_same (idle s)) as (A & B & C & D & E). destruct Hi as (F & G & H & I). rewrite B, C, D, E. split_and!; [|done|done|done].
    destruct A as (A1 & A2 & A3 & A4 & A5 & A6), F as (F1 & F2 & F3 & F4 & F5 & F6). split_and!; congruence.
Qed.

Definition books (n : nat) (s : Shadow) : Prop := tables_ok s /\ work_ok s /\ accounted n s.

Lemma drain_books n s : tables_ok s -> busy_ok s -> accounted n s -> books n (drain s).
Proof.
  intros T W A. unfold drain. destruct (sh_draining s) eqn:Ed; [split_and!; [done|split; [done|by right]|done]|]. destruct W as [W1 W2 W3 W4]. destruct (W3 Ed) as [Hb Hf]. set (s1 := put_work _ _ _ _ _ _).
  destruct (next_batch_same s1 Hb) as (S1 & S2 & S3 & S4). split_and!; [by apply (tables_same s)|by apply next_batch_ok|].
  intros Hsd. rewrite S3 in Hsd. cbn in Hsd. specialize (A Hsd). destruct S1 as (S1 & _). rewrite S1, S2. cbn in S4 |- *. rewrite Hb in A. cbn in A. lia.
Qed.

Lemma step_books n s ev : books n s -> ev <> ev_destroy -> books (n + match ev with ev_observe _ => 1 | _ => 0 end) (shadow_step s ev).
Proof.
  intros Hb Hev. pose proof Hb as (T & W & A). destruct ev as [one random|r| | |i result today|]; cbn [shadow_step]; rewrite ?Nat.add_0_r; [| | | | |done].
  - unfold shouldObserve. destruct (negb _); [|destruct (_ && _)]; (split_and!; [by apply (tables_same s)|by apply (work_same s)|done]).
  - unfold observe. destruct (sh_shuttingDown s) eqn:Es; [split_and!; [by apply (tables_same s)|by apply (work_same s)|intros Hx; cbn in Hx; congruence]|].
    specialize (A Es). destruct (_ <=? _)%nat eqn:El.
    { split_and!; [by apply (tables_same s)|by apply (work_same s)|]. intros _. cbn. lia. }
    apply Nat.leb_gt in El. set (s1 := put_work _ _ _ _ _ _). destruct (schedule_same s1) as (S1 & S2 & S3 & S4 & S5). destruct W as [[W1 W2 W3 W4] W5].
    assert (Hl : length (sh_queue s1) = S (length (sh_queue s))) by (cbn; rewrite length_app; cbn; lia).
    split_and!; [by apply (tables_same s)|apply schedule_ok; split; [lia|done|done|done]|]. intros _. destruct S1 as (S1 & _). rewrite S1, S2, S3, S4, Hl. cbn. lia.
  - unfold timer_fires. destruct (_ && _); [|done]. apply drain_books; [by apply (tables_same s)| |done]. destruct W as [[W1 W2 W3 W4] _]. by split.
  - apply drain_books; [done|apply W|done].
  - unfold simulation_ends. destruct (sh_batch s !! i) as [entry|] eqn:Ei; [|done]. set (s1 := process entry result today s).
    destruct (record_ok (or_transition (qr_request entry)) (classifyDivergence (qr_expectedOutcome entry) (simulated_of result)) today s T) as (T1 & S1 & C1). fold (process entry result today s) in T1, S1, C1. fold s1 in T1, S1, C1.
    pose proof S1 as (E1 & E2 & E3 & E4 & E5 & E6). pose proof (lookup_lt_Some _ _ _ Ei) as Hlt. assert (Hd : length (delete i (sh_batch s1)) = (length (sh_batch s) - 1)%nat) by (rewrite E3; apply length_delete; by rewrite Ei).
    apply (work_same s s1 S1) in W. destruct W as [[W1 W2 W3 W4] W5]. cbn zeta. case_bool_decide as Hnil.
    + rewrite Hnil in Hd. cbn in Hd. set (s2 := put_work _ _ _ _ _ _). destruct (next_batch_same s2 eq_refl) as (N1 & N2 & N3 & N4). split_and!; [apply (tables_same s1); [exact N1|done]|by apply next_batch_ok|].
      intros Hsd. rewrite N3 in Hsd. cbn in Hsd. rewrite E6 in Hsd. specialize (A Hsd). specialize (C1 Hsd). destruct N1 as (N1 & _). rewrite N1, N2. cbn in N4 |- *. rewrite E1 in N4. lia.
    + split_and!; [by apply (tables_same s1)| |].
      * split; [split; cbn; [done| |intros Hx; destruct (W3 Hx) as [Hx' _]; by rewrite Hx' in Hnil|done]|exact W5]. rewrite Hd. rewrite E3 in W2. lia.
      * intros Hsd. cbn in Hsd. rewrite E6 in Hsd. specialize (A Hsd). specialize (C1 Hsd). cbn. rewrite Hd, E1. lia.
Qed.

Lemma run_books evs : ev_destroy ∉ evs -> books (observes evs) (shadow_run evs).
Proof.
  induction evs as [|ev evs IH] using rev_ind; intros Hno.
  - split_and!; [split; try done; [split_and!; apply (bool_decide_unpack _); by vm_compute|cbn; lia..]|split; [split; cbn; try done; lia|by intros []]|done].
  - rewrite not_elem_of_app, not_elem_of_cons in Hno. destruct Hno as (H1 & H2 & _). unfold shadow_run. rewrite foldl_app. cbn [foldl]. specialize (IH H1).
    pose proof (step_books _ _ ev IH ltac:(congruence)) as H. replace (observes (evs ++ [ev])) with (observes evs + match ev with ev_observe _ => 1 | _ => 0 end)%nat; [exact H|].
    unfold observes. rewrite filter_app, length_app. by destruct ev.
Qed.

Lemma step_keeps_up s ev : ev <> ev_destroy -> sh_shuttingDown (shadow_step s ev) = sh_shuttingDown s.
Proof.
  assert (Hn : forall s, sh_shuttingDown (next_batch s) = sh_shuttingDown s) by (intros x; unfold next_batch, finish_drain, scheduleDrain; by destruct (_ && _)).
  assert (Hd : forall s, sh_shuttingDown (drain s) = sh_shuttingDown s) by (intros x; unfold drain; destruct (sh_draining x); [done|by rewrite Hn]).
  destruct ev as [one random|r| | |i result today|]; cbn [shadow_step]; intros Hev; [| | | | |done].
  - unfold shouldObserve. destruct (negb _); [|destruct (_ && _)]; done.
  - unfold observe. destruct (sh_shuttingDown s) eqn:E; [done|]. destruct (_ <=? _)%nat; [done|]. unfold scheduleDrain. by destruct (_ || _).
  - unfold timer_fires. destruct (_ && _); [by rewrite Hd|done].
  - apply Hd.
  - unfold simulation_ends. destruct (sh_batch s !! i) as [entry|]; [|done]. assert (Hp : sh_shuttingDown (process entry result today s) = sh_shuttingDown s).
    { unfold process, record. destruct (sh_shuttingDown s) eqn:E; [done|]. destruct (asShadowTransition _); [|done]. destruct (currentDay _ _). by destruct (classifyDivergence _ _). }
    case_bool_decide; [rewrite Hn|]; done.
Qed.
Lemma run_up evs : ev_destroy ∉ evs -> sh_shuttingDown (shadow_run evs) = false.
Proof.
  induction evs as [|ev evs IH] using rev_ind; intros Hno; [done|]. rewrite not_elem_of_app, not_elem_of_cons in Hno. destruct Hno as (H1 & H2 & _). unfold shadow_run. rewrite foldl_app. cbn [foldl].
  rewrite step_keeps_up; [by apply IH|congruence].
Qed.

(** Every observation that was handed in is counted once: it is queued, being
    simulated, completed or dropped; the depth that is reported stays within the
    capacity that is reported. *)
Theorem observations_accounted evs : ev_destroy ∉ evs -> let s := shadow_run evs in
  observes evs = (length (sh_queue s) + length (sh_batch s) + sh_completed s + sh_dropped s)%nat /\ (qs_depth (queueStats s) <= qs_capacity (queueStats s))%nat.
Proof.
  intros Hno. destruct (run_books evs Hno) as (_ & [[W1 [W2 _] _ _] _] & A). cbn zeta. split; [|cbn; lia]. by apply A, run_up.
Qed.

(** The tables of the report add up: per transition and per cell to the totals, and
    no more days are kept than a report may ask for. *)
Theorem report_adds_up evs days : ev_destroy ∉ evs -> let r := report days (shadow_run evs) in
  (sr_diverged r <= sr_compared r)%nat /\ sumZ (fun x => Z.of_nat (ct_compared x.1.2)) (sr_transitions r) = Z.of_nat (sr_compared r) /\
  sumZ (fun x => Z.of_nat (ct_diverged x.1.2)) (sr_transitions r) = Z.of_nat (sr_diverged r) /\ sumZ count_of_cell (sr_divergences r) = Z.of_nat (sr_diverged r) /\
  (length (sr_daily r) <= clamp_days days)%nat.
Proof.
  intros Hno. destruct (run_books evs Hno) as ([T1 [T2 _] T3 [T4 T4'] T5 T6 T7] & _ & _). cbn zeta. cbn [report sr_diverged sr_compared sr_transitions sr_divergences sr_daily].
  rewrite (values_keys {| ct_compared := 0; ct_diverged := 0 |}) in T4, T4' by done. rewrite T3, sumZ_map in T4, T4'. split_and!; [done|by rewrite sumZ_map|by rewrite sumZ_map| |].
  - rewrite <-T5. apply sumZ_perm, sort_by_perm.
  - unfold slice_last. rewrite length_drop. lia.
Qed.

(** ** Catching up *)

Definition background (ev : ShadowEvent) : Prop := match ev with ev_timer | ev_end _ _ _ => True | _ => False end.

Lemma end_advances n s r today entry : books n s -> sh_shuttingDown s = false -> sh_batch s !! 0%nat = Some entry ->
  let s' := shadow_step s (ev_end 0 r today) in books n s' /\ sh_shuttingDown s' = false /\ (S (length (sh_queue s') + length (sh_batch s')) = length (sh_queue s) + length (sh_batch s))%nat.
Proof.
  intros Hb Hs He. pose proof (step_books n s (ev_end 0 r today) Hb ltac:(done)) as Hb'. rewrite Nat.add_0_r in Hb'. pose proof (step_keeps_up s (ev_end 0 r today) ltac:(done)) as Hs'. rewrite Hs in Hs'.
  cbn zeta. split_and!; [done|done|]. destruct Hb as (T & _ & A), Hb' as (_ & _ & A'). specialize (A Hs). specialize (A' Hs'). cbn [shadow_step] in *.
  assert (Hc : (sh_completed (simulation_ends 0 r today s) + sh_dropped (simulation_ends 0 r today s) = S (sh_completed s + sh_dropped s))%nat); [|lia].
  unfold simulation_ends. rewrite He. set (s1 := process entry r today s).
  destruct (record_ok (or_transition (qr_request entry)) (classifyDivergence (qr_expectedOutcome entry) (simulated_of r)) today s T) as (_ & _ & C). specialize (C Hs). fold (process entry r today s) in C. fold s1 in C.
  cbn zeta. case_bool_decide; [|done]. set (s2 := put_work _ _ _ _ _ _). destruct (next_batch_same s2 eq_refl) as ((N1 & _) & N2 & _). by rewrite N1, N2.
Qed.

Lemma catches_up n s (r : option SimulateOutcome) (today : string) : books n s -> sh_shuttingDown s = false -> exists evs, Forall background evs /\
  let s' := foldl shadow_step s evs in books n s' /\ sh_shuttingDown s' = false /\ sh_queue s' = [] /\ sh_batch s' = [].
Proof.
  remember (length (sh_queue s) + length (sh_batch s))%nat as k eqn:Hk. revert s Hk. induction k as [|k IH]; intros s Hk Hb Hs.
  { exists []. split; [constructor|]. cbn. split_and!; [done|done|apply length_zero_iff_nil; lia|apply length_zero_iff_nil; lia]. }
  destruct (sh_batch s) as [|entry batch] eqn:Eb.
  - assert (Hq : sh_queue s <> []) by (intros Hq; rewrite Hq, ?Eb in Hk; cbn in Hk; lia). pose proof Hb as (T & [[W1 W2 W3 W4] W5] & A).
    assert (Hd : sh_draining s = false) by (destruct (sh_draining s); [by destruct (W4 eq_refl)|done]). destruct (W5 Hq Hs) as [Hsch|?]; [|congruence].
    pose proof (step_books n s ev_timer Hb ltac:(done)) as Hb1. rewrite Nat.add_0_r in Hb1. pose proof (step_keeps_up s ev_timer ltac:(done)) as Hs1. rewrite Hs in Hs1. set (s1 := shadow_step s ev_timer) in *.
    assert (Hbatch : exists entry, sh_batch s1 !! 0%nat = Some entry).
    { unfold s1. cbn [shadow_step]. unfold timer_fires. rewrite Hsch, Hs. cbn [negb andb]. unfold drain. cbn [put_work sh_draining]. rewrite Hd. unfold next_batch. cbn [put_work sh_queue sh_shuttingDown].
      rewrite bool_decide_eq_false_2 by done. rewrite Hs. cbn [negb andb put_work sh_batch]. destruct (sh_queue s) as [|x q]; [done|]. destruct (sf_concurrency cfg); [lia|]. by exists x. }
    destruct Hbatch as [entry He]. destruct (end_advances n s1 r today entry Hb1 Hs1 He) as (Hb2 & Hs2 & Hl).
    assert (Hk1 : (length (sh_queue s1) + length (sh_batch s1) = S k)%nat).
    { destruct Hb1 as (_ & _ & A1). specialize (A Hs). specialize (A1 Hs1). unfold s1 in *. cbn [shadow_step] in *. unfold timer_fires in *. rewrite Hsch, Hs in *. cbn [negb andb] in *. unfold drain in *. cbn [put_work sh_draining] in *.
      rewrite Hd in *. set (s2 := put_work _ _ _ _ true _) in *. destruct (next_batch_same s2 Eb) as ((N1 & _) & N2 & _). rewrite N1, N2 in A1. cbn in A1. rewrite Eb in A. cbn in A, Hk. lia. }
    destruct (IH (shadow_step s1 (ev_end 0 r today))) as (evs & He1 & H); [lia|done|done|]. exists (ev_timer :: ev_end 0 r today :: evs). split; [by repeat constructor|]. exact H.
  - destruct (end_advances n s r today entry Hb Hs) as (Hb2 & Hs2 & Hl); [by rewrite Eb|].
    destruct (IH (shadow_step s (ev_end 0 r today))) as (evs & He1 & H); [rewrite Eb in Hl; lia|done|done|]. exists (ev_end 0 r today :: evs). split; [by repeat constructor|]. exact H.
Qed.

(** Nothing is stranded: after any calls, timers and simulations alone, whatever the
    simulations answer, empty the queue, and every observation is completed or
    dropped. *)
Theorem monitor_catches_up evs (r : option SimulateOutcome) (today : string) : ev_destroy ∉ evs -> exists more, Forall background more /\ let s := shadow_run (evs ++ more) in
  sh_queue s = [] /\ sh_batch s = [] /\ observes evs = (sh_completed s + sh_dropped s)%nat.
Proof.
  intros Hno. destruct (catches_up _ _ r today (run_books evs Hno) (run_up evs Hno)) as (more & Hm & (_ & _ & A) & Hs & Hq & Hb). exists more. split; [done|]. cbn zeta.
  unfold shadow_run. rewrite foldl_app. fold (shadow_run evs). split_and!; [done|done|]. rewrite (A Hs), Hq, Hb. cbn. lia.
Qed.
End shadow.

(** A transition that the off-chain path failed is said never to diverge; a contract
    that rejects it is reported as a mismatch. *)
Theorem failed_transition_can_diverge : classifyDivergence so_error (Some {| sc_outcome := so_rejected; sc_threw := false |}) = Some outcome_mismatch.
Proof. done. Qed.

(** ** Witnesses *)

Definition demo_shadow : ShadowConfig := {| sf_enabled := true; sf_sampleRate := 1; sf_queueMax := 2; sf_concurrency := 1 |}.
Definition demo_request (t : string) : ShadowObservationRequest := {| or_transition := t; or_intentId := "i1"; or_committed := true |}.
Definition demo_events : list ShadowEvent :=
  [ev_observe (demo_request "accept"); ev_timer; ev_observe (demo_request "fill"); ev_observe (demo_request "fill"); ev_observe (demo_request "fill"); ev_end 0 (Some sim_rejected) "2026-01-01"].

Lemma demo_up : ev_destroy ∉ demo_events.
Proof. unfold demo_events. rewrite !not_elem_of_cons. split_and!; try done. apply not_elem_of_nil. Qed.

Lemma observations_accounted_witness : observes demo_events = 4%nat /\ sh_dropped (shadow_run demo_shadow demo_events) = 1%nat /\
  (qs_depth (queueStats demo_shadow (shadow_run demo_shadow demo_events)) <= 3)%nat.
Proof. destruct (observations_accounted demo_shadow ltac:(cbn; lia) demo_events demo_up) as [H1 H2]. split_and!; [done|done|exact H2]. Defined.
Lemma report_adds_up_witness : let r := report demo_shadow (Some 7) (shadow_run demo_shadow demo_events) in sr_compared r = 1%nat /\ sumZ count_of_cell (sr_divergences r) = 1.
Proof. destruct (report_adds_up demo_shadow ltac:(cbn; lia) demo_events (Some 7) demo_up) as (_ & _ & _ & H & _). split; [done|exact H]. Defined.
Lemma monitor_catches_up_witness : exists more, Forall background more /\ sh_queue (shadow_run demo_shadow (demo_events ++ more)) = [].
Proof.
  destruct (monitor_catches_up demo_shadow ltac:(cbn; lia) demo_events None "2026-01-02" demo_up) as (more & Hm & Hq & _). exists more. split; [exact Hm|exact Hq].
Defined.
