(* ===== verification/Gateway.v ===== *)
(** The WebSocket gateway (intents/intents.gateway.ts), its protocol negotiation
    (intents/ws-protocol.ts) and the replay stores it reads from
    (intents/backplane/replay-store.ts, memory-replay.store.ts,
    redis-replay.store.ts).

    A socket is a name; [gw_open] are the sockets whose [readyState] is [OPEN], and
    [gw_sent] records every frame an open socket was handed, in order ([ws] drops
    what is sent to any other).  Handlers are programs of [Prog]: each step is a
    stretch between two awaits, so that handlers of many clients, broadcasts,
    heartbeats and the drain interleave.  The intents and solvers services are part
    of the state and may change between steps; [gw_down] makes their reads fail.
    The replay store is any instance of [ReplayStore]; token payloads and
    signatures are verified outside and are arguments. *)
From S2P Require Import Prelude JsMap BigInt JsNumber AbuseRules TtlKeeper IntentTypes IntentsRepo Prog Solvers IntentIndex Sessions Feed.
From Stdlib Require Import QArith Qcanon.
From stdpp Require Import relations.
Local Open Scope string_scope.
Local Open Scope list_scope.
Local Open Scope Z_scope.

(** * Protocol versions *)

Definition WS_PROTOCOL_V1 : string := "vortex.v1".
Definition WS_SUPPORTED_PROTOCOLS : list string := [WS_PROTOCOL_V1].
Definition WS_CLOSE_UNSUPPORTED_PROTOCOL : Z := 1002.

(** The offered protocols in the order of the header. *)
Definition negotiateProtocol (protocols : list string) : string :=
  match protocols with
  | [] => ""
  | p0 :: _ => default p0 (snd <$> list_find (fun p => p ∈ WS_SUPPORTED_PROTOCOLS) protocols)
  end.
Definition resolveProtocol (protocol : string) : option string :=
  if bool_decide (protocol = "") || bool_decide (protocol = WS_PROTOCOL_V1) then Some WS_PROTOCOL_V1 else None.

(** * Events and the replay stores *)

(** The fields of an event the gateway looks at. *)
Record WsEvent := { we_type : string; we_intent : option Intent; we_intentId : option string; we_srcChain : option string }.
Definition SequencedEvent : Type := Z * WsEvent.

Record ReplaySinceResult := { rr_events : list SequencedEvent; rr_tooOld : bool }.

(** What a store offers the gateway; [None]: the call is rejected.  [append] is
    given the two readings of the clock. *)
Class ReplayStore (T : Type) := {
  append : Z * Z -> SequencedEvent -> T -> option T;
  since : Z -> T -> option ReplaySinceResult;
  latestSeq : T -> option Z;
  oldestSeq : T -> option Z;
}.

Definition after (fromSeq : Z) (l : list SequencedEvent) : list SequencedEvent := filter (fun e => fromSeq < e.1) l.

(** What the gateway relies on: a store holds the latest of what it was given, and
    an answer that is not [tooOld] is all it holds after [fromSeq]. *)
Class ReplayStoreLaws (T : Type) `{ReplayStore T} := {
  held : T -> list SequencedEvent;
  append_held : forall clock e t t', append clock e t = Some t' -> exists lost, held t ++ [e] = lost ++ held t';
  since_held : forall fromSeq t r, since fromSeq t = Some r -> rr_events r = if rr_tooOld r then [] else after fromSeq (held t);
}.

(** ** In memory *)

Record StoredEntry := { se_event : SequencedEvent; se_timestamp : Z }.
Record MemoryReplayStore := { ms_buf : list StoredEntry; ms_maxCount : nat; ms_maxAgeMs : option Z }.
Definition put_buf (buf : list StoredEntry) (m : MemoryReplayStore) : MemoryReplayStore :=
  {| ms_buf := buf; ms_maxCount := ms_maxCount m; ms_maxAgeMs := ms_maxAgeMs m |}.

Fixpoint evict_count (maxCount : nat) (buf : list StoredEntry) : list StoredEntry :=
  match buf with
  | [] => []
  | _ :: rest => if (maxCount <? length buf)%nat then evict_count maxCount rest else buf
  end.
Fixpoint evict_age (cutoff : Z) (buf : list StoredEntry) : list StoredEntry :=
  match buf with
  | [] => []
  | e :: rest => if se_timestamp e <? cutoff then evict_age cutoff rest else buf
  end.
Definition memory_append (clock : Z * Z) (event : SequencedEvent) (m : MemoryReplayStore) : MemoryReplayStore :=
  let buf := evict_count (ms_maxCount m) (ms_buf m ++ [{| se_event := event; se_timestamp := clock.1 |}]) in
  put_buf match ms_maxAgeMs m with Some maxAge => evict_age (clock.2 - maxAge) buf | None => buf end m.
Definition memory_since (fromSeq : Z) (m : MemoryReplayStore) : ReplaySinceResult :=
  match ms_buf m with
  | [] => {| rr_events := []; rr_tooOld := false |}
  | e :: _ =>
      let oldest := (se_event e).1 in
      if fromSeq <? oldest - 1 then {| rr_events := []; rr_tooOld := true |}
      else {| rr_events := filter (fun e => fromSeq < e.1) (se_event <$> ms_buf m); rr_tooOld := false |}
  end.
Definition memory_latestSeq (m : MemoryReplayStore) : Z := match last (ms_buf m) with None => 0 | Some e => (se_event e).1 end.
Definition memory_oldestSeq (m : MemoryReplayStore) : Z := match ms_buf m with [] => -1 | e :: _ => (se_event e).1 end.

#[export] Instance memory_store : ReplayStore MemoryReplayStore := {
  append clock e m := Some (memory_append clock e m);
  since fromSeq m := Some (memory_since fromSeq m);
  latestSeq m := Some (memory_latestSeq m);
  oldestSeq m := Some (memory_oldestSeq m);
}.

(** ** In Redis *)

(** A stream whose entries have the ids [0-seq].  [XADD] rejects an id that is not
    above the stream's last one; trimming with [~] removes at most what it may,
    whole nodes of the stream at a time: [rd_trim] is the number of the oldest
    entries it removes of those it may. *)
Record RedisReplayStore := {
  rd_stream : list SequencedEvent; rd_lastId : Z; rd_maxCount : nat; rd_maxAgeMs : option Z; rd_up : bool; rd_trim : nat -> nat
}.
Definition put_stream (stream : list SequencedEvent) (lastId : Z) (r : RedisReplayStore) : RedisReplayStore :=
  {| rd_stream := stream; rd_lastId := lastId; rd_maxCount := rd_maxCount r; rd_maxAgeMs := rd_maxAgeMs r; rd_up := rd_up r; rd_trim := rd_trim r |}.
Definition trim_stream (r : RedisReplayStore) (removable : nat) (stream : list SequencedEvent) : list SequencedEvent := drop (rd_trim r removable `min` removable) stream.
(** The entries below [cutoffMs-0]: their ids start with 0. *)
Definition below_minid (cutoffMs : Z) (stream : list SequencedEvent) : nat := if 0 <? cutoffMs then length stream else 0%nat.
Definition redis_append (clock : Z * Z) (event : SequencedEvent) (r : RedisReplayStore) : option RedisReplayStore :=
  if negb (rd_up r) then None
  else if event.1 <=? rd_lastId r then None
  else let stream := rd_stream r ++ [event] in
       let stream := trim_stream r (length stream - rd_maxCount r) stream in
       let stream := match rd_maxAgeMs r with Some maxAge => trim_stream r (below_minid (clock.2 - maxAge) stream) stream | None => stream end in
       Some (put_stream stream event.1 r).
Definition redis_oldestSeq (r : RedisReplayStore) : option Z :=
  if rd_up r then Some match rd_stream r with [] => -1 | e :: _ => e.1 end else None.
Definition redis_latestSeq (r : RedisReplayStore) : option Z :=
  if rd_up r then Some match last (rd_stream r) with None => 0 | Some e => e.1 end else None.
(** [XRANGE stream 0-(fromSeq+1) +] *)
Definition redis_range (fromSeq : Z) (r : RedisReplayStore) : list SequencedEvent := filter (fun e => fromSeq + 1 <= e.1) (rd_stream r).
Definition redis_since (fromSeq : Z) (r : RedisReplayStore) : option ReplaySinceResult :=
  if negb (rd_up r) then None
  else let events := redis_range fromSeq r in
       if fromSeq =? 0 then Some {| rr_events := events; rr_tooOld := false |}
       else match events with
            | e :: _ => if fromSeq + 1 <? e.1 then Some {| rr_events := []; rr_tooOld := true |} else Some {| rr_events := events; rr_tooOld := false |}
            | [] =>
                oldest ← redis_oldestSeq r;
                Some {| rr_events := []; rr_tooOld := negb (oldest =? -1) |}
            end.

#[export] Instance redis_store : ReplayStore RedisReplayStore := {
  append := redis_append; since := redis_since; latestSeq := redis_latestSeq; oldestSeq := redis_oldestSeq;
}.

(** * State *)

Record SubscriberFilter := { sf_chains : option (list SupportedChain); sf_solver : option SolverMatchPredicate; sf_wantAll : bool; sf_subscriptionCount : nat }.
Definition no_filter : SubscriberFilter := {| sf_chains := None; sf_solver := None; sf_wantAll := false; sf_subscriptionCount := 0 |}.

Inductive AuthReason := ar_payload | ar_timestamp | ar_inactive | ar_signature | ar_token.
(** A sequenced event is the same text whether it is sent live or replayed;
    [replayed] only records which loop sent it. *)
Inductive Frame :=
  | F_connected (version : string) (seq : Z)
  | F_snapshot (intents : list Intent) (seq : Z)
  | F_event (replayed : bool) (e : SequencedEvent)
  | F_remote (e : WsEvent)
  | F_subscribed_all
  | F_subscribed (chains : list SupportedChain)
  | F_too_many_subscriptions
  | F_too_many_chains
  | F_replay_too_old (fromSeq oldestAvailableSeq : Z)
  | F_replay_start (fromSeq : Z) (count : nat)
  | F_replay_end (count : nat)
  | F_auth_ok
  | F_auth_error (reason : AuthReason)
  | F_eligible_snapshot (intents : list Intent)
  | F_server_draining (resumeFrom : Z)
  | F_ping
  | F_close (code : Z).

Record Gateway (T : Type) := {
  gw_subscribers : jsmap SubscriberFilter; gw_alive : jsmap bool; gw_authenticatedSolver : jsmap string;
  gw_nextSeq : Z; gw_draining : bool; gw_ringBuffer : list SequencedEvent; gw_replayStore : option T; gw_published : list SequencedEvent;
  gw_index : IntentCapabilityIndex; gw_intents : InMemoryRepo; gw_solvers : jsmap SolverRecord; gw_down : bool;
  gw_open : list string; gw_sent : list (string * Frame);
  gw_connections : Z; gw_delivered : list string; gw_filtered : list string;
  gw_log : list SequencedEvent;  (* every event numbered so far; the code keeps no such list *)
}.
Arguments gw_subscribers {T} _.
Arguments gw_alive {T} _.
Arguments gw_authenticatedSolver {T} _.
Arguments gw_nextSeq {T} _.
Arguments gw_draining {T} _.
Arguments gw_ringBuffer {T} _.
Arguments gw_replayStore {T} _.
Arguments gw_published {T} _.
Arguments gw_index {T} _.
Arguments gw_intents {T} _.
Arguments gw_solvers {T} _.
Arguments gw_down {T} _.
Arguments gw_open {T} _.
Arguments gw_sent {T} _.
Arguments gw_connections {T} _.
Arguments gw_delivered {T} _.
Arguments gw_filtered {T} _.
Arguments gw_log {T} _.

(** The environment: [WS_MAX_SUBSCRIPTIONS], [WS_MAX_FILTER_CHAINS], and whether the
    gateway has a Redis backplane. *)
Record GatewayEnv := { ev_maxSubscriptions : option string; ev_maxFilterChains : option string; ev_backplane : bool }.

Section gateway.
Context {T : Type} `{ReplayStore T}.
Implicit Type s : Gateway T.

(** ** Writing one part of the state *)

Definition put_clients (subscribers : jsmap SubscriberFilter) (alive : jsmap bool) (auth : jsmap string) (connections : Z) s : Gateway T :=
  {| gw_subscribers := subscribers; gw_alive := alive; gw_authenticatedSolver := auth; gw_nextSeq := gw_nextSeq s; gw_draining := gw_draining s;
     gw_ringBuffer := gw_ringBuffer s; gw_replayStore := gw_replayStore s; gw_published := gw_published s; gw_index := gw_index s; gw_intents := gw_intents s;
     gw_solvers := gw_solvers s; gw_down := gw_down s; gw_open := gw_open s; gw_sent := gw_sent s; gw_connections := connections;
     gw_delivered := gw_delivered s; gw_filtered := gw_filtered s; gw_log := gw_log s |}.
Definition put_sockets (open : list string) (sent : list (string * Frame)) s : Gateway T :=
  {| gw_subscribers := gw_subscribers s; gw_alive := gw_alive s; gw_authenticatedSolver := gw_authenticatedSolver s; gw_nextSeq := gw_nextSeq s; gw_draining := gw_draining s;
     gw_ringBuffer := gw_ringBuffer s; gw_replayStore := gw_replayStore s; gw_published := gw_published s; gw_index := gw_index s; gw_intents := gw_intents s;
     gw_solvers := gw_solvers s; gw_down := gw_down s; gw_open := open; gw_sent := sent; gw_connections := gw_connections s;
     gw_delivered := gw_delivered s; gw_filtered := gw_filtered s; gw_log := gw_log s |}.
Definition put_history (nextSeq : Z) (ring : list SequencedEvent) (store : option T) (index : IntentCapabilityIndex) (log : list SequencedEvent) s : Gateway T :=
  {| gw_subscribers := gw_subscribers s; gw_alive := gw_alive s; gw_authenticatedSolver := gw_authenticatedSolver s; gw_nextSeq := nextSeq; gw_draining := gw_draining s;
     gw_ringBuffer := ring; gw_replayStore := store; gw_published := gw_published s; gw_index := index; gw_intents := gw_intents s;
     gw_solvers := gw_solvers s; gw_down := gw_down s; gw_open := gw_open s; gw_sent := gw_sent s; gw_connections := gw_connections s;
     gw_delivered := gw_delivered s; gw_filtered := gw_filtered s; gw_log := log |}.
Definition put_flags (draining : bool) (published : list SequencedEvent) (delivered filtered : list string) s : Gateway T :=
  {| gw_subscribers := gw_subscribers s; gw_alive := gw_alive s; gw_authenticatedSolver := gw_authenticatedSolver s; gw_nextSeq := gw_nextSeq s; gw_draining := draining;
     gw_ringBuffer := gw_ringBuffer s; gw_replayStore := gw_replayStore s; gw_published := published; gw_index := gw_index s; gw_intents := gw_intents s;
     gw_solvers := gw_solvers s; gw_down := gw_down s; gw_open := gw_open s; gw_sent := gw_sent s; gw_connections := gw_connections s;
     gw_delivered := delivered; gw_filtered := filtered; gw_log := gw_log s |}.
(** What other services do in between. *)
Definition put_services (intents : InMemoryRepo) (solvers : jsmap SolverRecord) (down : bool) s : Gateway T :=
  {| gw_subscribers := gw_subscribers s; gw_alive := gw_alive s; gw_authenticatedSolver := gw_authenticatedSolver s; gw_nextSeq := gw_nextSeq s; gw_draining := gw_draining s;
     gw_ringBuffer := gw_ringBuffer s; gw_replayStore := gw_replayStore s; gw_published := gw_published s; gw_index := gw_index s; gw_intents := intents;
     gw_solvers := solvers; gw_down := down; gw_open := gw_open s; gw_sent := gw_sent s; gw_connections := gw_connections s;
     gw_delivered := gw_delivered s; gw_filtered := gw_filtered s; gw_log := gw_log s |}.

(** ** Sockets *)

Definition is_open (client : string) s : bool := bool_decide (client ∈ gw_open s).
Definition send (client : string) (f : Frame) s : Gateway T := if is_open client s then put_sockets (gw_open s) (gw_sent s ++ [(client, f)]) s else s.
Definition close (client : string) (code : Z) s : Gateway T :=
  let s := send client (F_close code) s in put_sockets (filter (fun c => c <> client) (gw_open s)) (gw_sent s) s.
Definition terminate (client : string) s : Gateway T := put_sockets (filter (fun c => c <> client) (gw_open s)) (gw_sent s) s.

Definition removeSubscriber (client : string) s : Gateway T :=
  put_clients (del client (gw_subscribers s)) (del client (gw_alive s)) (del client (gw_authenticatedSolver s))
    (if has client (gw_subscribers s) then gw_connections s - 1 else gw_connections s) s.
Definition put_filter (client : string) (f : SubscriberFilter) s : Gateway T :=
  put_clients (set client f (gw_subscribers s)) (gw_alive s) (gw_authenticatedSolver s) (gw_connections s) s.

(** ** Which events are for whom *)

Definition isSupportedChain (value : string) : option SupportedChain := snd <$> list_find (fun c => chain_name c = value) SUPPORTED_CHAINS.
Definition getEventChainSync (event : WsEvent) : option SupportedChain :=
  match we_intent event with
  | Some i => Some (srcChain i)
  | None => c ← we_srcChain event; isSupportedChain c
  end.
(** [None]: the lookup failed or found nothing. *)
Definition getEventChain s (event : WsEvent) : option SupportedChain :=
  if bool_decide (we_type event = "intent_created") then srcChain <$> we_intent event
  else if bool_decide (we_type event ∈ closing_types) then
    match we_intentId event with
    | Some id => if bool_decide (id = "") || gw_down s then None else srcChain <$> findById id (gw_intents s)
    | None => None
    end
  else None.

(** The counters a delivery moves, and whether the client is sent the event. *)
Inductive Verdict := v_send | v_drop | v_delivered (solver : string) | v_filtered (solver : string).
Definition judge (f : SubscriberFilter) (chain : option SupportedChain) (event : WsEvent) : Verdict :=
  if sf_wantAll f then v_send
  else match sf_solver f with
       | Some p =>
           match we_intent event with
           | Some i =>
               if bool_decide (we_type event = "intent_created")
               then if sp_matches p i then v_delivered (sp_solverAddress p) else v_filtered (sp_solverAddress p)
               else v_delivered (sp_solverAddress p)
           | None => v_delivered (sp_solverAddress p)
           end
       | None =>
           match sf_chains f, chain with
           | None, _ => v_send
           | Some _, None => v_send
           | Some cs, Some c => if bool_decide (c ∈ cs) then v_send else v_drop
           end
       end.
Definition deliver_one (chain : option SupportedChain) (event : WsEvent) (frame : Frame) (client : string) (f : SubscriberFilter) s : Gateway T :=
  if is_open client s then
    match judge f chain event with
    | v_send => send client frame s
    | v_drop => s
    | v_delivered a => put_flags (gw_draining s) (gw_published s) (gw_delivered s ++ [a]) (gw_filtered s) (send client frame s)
    | v_filtered a => put_flags (gw_draining s) (gw_published s) (gw_delivered s) (gw_filtered s ++ [a]) s
    end
  else s.
Definition deliverToMatchingSubscribers (chain : option SupportedChain) (event : WsEvent) (frame : Frame) s : Gateway T :=
  foldl (fun s '(client, f) => deliver_one chain event frame client f s) s (gw_subscribers s).

(** ** The Redis channel: both listeners [createBackplane] and the constructor
    attach get every message, this process's own included. *)
Definition dispatchRemoteEvent (event : WsEvent) s : Gateway T :=
  if bool_decide (we_type event ∈ [""; "connected"; "snapshot"; "subscribed"]) then s
  else deliverToMatchingSubscribers (getEventChainSync event) event (F_remote event) s.
Definition on_channel_message (event : WsEvent) s : Gateway T :=
  let s := dispatchRemoteEvent event s in
  if bool_decide (we_type event = "") then s else dispatchRemoteEvent event s.

Notation GM := (prog (Gateway T) unit).
Local Open Scope prog_scope.

(** ** Broadcast *)

Definition updateIndexForEvent (event : WsEvent) (x : IntentCapabilityIndex) : IntentCapabilityIndex :=
  if bool_decide (we_type event = "intent_created") then match we_intent event with Some i => addIntent i x | None => x end
  else if bool_decide (we_type event ∈ closing_types) then
    match we_intentId event with Some id => if bool_decide (id = "") then x else removeIntent id x | None => x end
  else x.
(** Up to the first await: the number, the index, the buffer and the store; an
    append that fails is only logged. *)
Definition broadcast_begin (clock : Z * Z) (event : WsEvent) s : SequencedEvent * Gateway T :=
  let e := (gw_nextSeq s, event) in
  let store := match gw_replayStore s with Some t => Some (default t (append clock e t)) | None => None end in
  (e, put_history (gw_nextSeq s + 1) (ring_push REPLAY_BUFFER_SIZE e (gw_ringBuffer s)) store (updateIndexForEvent event (gw_index s)) (gw_log s ++ [e]) s).
Definition publish_event (env : GatewayEnv) (e : SequencedEvent) s : option SupportedChain * Gateway T :=
  (getEventChain s e.2, if ev_backplane env then put_flags (gw_draining s) (gw_published s ++ [e]) (gw_delivered s) (gw_filtered s) s else s).
(** Without a store nothing is awaited before the lookup. *)
Definition broadcast (env : GatewayEnv) (clock : Z * Z) (event : WsEvent) : GM unit :=
  r <- atomic (fun s =>
    let '(e, s) := broadcast_begin clock event s in
    match gw_replayStore s with
    | Some _ => (e, None, s)
    | None => let '(chain, s) := publish_event env e s in (e, Some chain, s)
    end);
  let '(e, looked) := r in
  chain <- match looked with Some chain => Done chain | None => atomic (publish_event env e) end;
  modify (deliverToMatchingSubscribers chain event (F_event false e)).

(** ** Subscriptions *)

Definition limit (setting : option string) (fallback : string) : number := parseInt10 (default fallback setting).
Definition maxSubs (env : GatewayEnv) : number := limit (ev_maxSubscriptions env) "10".
Definition maxChains (env : GatewayEnv) : number := limit (ev_maxFilterChains env) "20".
(** [n >= m] and [n > m] *)
Definition reaches (n : nat) (m : number) : bool := match m with Fin q => q_le q (of_Z (Z.of_nat n)) | Inf negative => negative | NaN => false end.
Definition exceeds (n : nat) (m : number) : bool := match m with Fin q => q_lt q (of_Z (Z.of_nat n)) | Inf negative => negative | NaN => false end.

Definition valid_chain (c : json) : option SupportedChain := match c with J_str c => isSupportedChain c | _ => None end.
Definition handleSubscribe (env : GatewayEnv) (client : string) (msg : jsmap json) s : Gateway T :=
  match get "all" msg with
  | Some (J_bool true) =>
      let existing := default no_filter (get client (gw_subscribers s)) in
      send client F_subscribed_all
        (put_filter client {| sf_chains := sf_chains existing; sf_solver := sf_solver existing; sf_wantAll := true; sf_subscriptionCount := sf_subscriptionCount existing |} s)
  | _ =>
      match get "chains" msg with
      | Some (J_arr rawChains) =>
          match get client (gw_subscribers s) with
          | None => s
          | Some f =>
              if reaches (sf_subscriptionCount f) (maxSubs env) then send client F_too_many_subscriptions s
              else if exceeds (length rawChains) (maxChains env) then send client F_too_many_chains s
              else
                let validChains := omap valid_chain rawChains in
                send client (F_subscribed validChains)
                  (put_filter client {| sf_chains := Some validChains; sf_solver := sf_solver f; sf_wantAll := sf_wantAll f; sf_subscriptionCount := S (sf_subscriptionCount f) |} s)
          end
      | _ => s
      end
  end.

(** ** Replay *)

Definition replay_wants (f : option SubscriberFilter) (event : WsEvent) : bool :=
  match f with
  | None => true
  | Some f =>
      if sf_wantAll f then true
      else match sf_solver f with
           | Some p =>
               match we_intent event with
               | Some i => if bool_decide (we_type event = "intent_created") then sp_matches p i else true
               | None => true
               end
           | None =>
               match sf_chains f with
               | Some cs => match getEventChainSync event with Some c => bool_decide (c ∈ cs) | None => true end
               | None => true
               end
           end
  end.
(** An integer [fromSeq] that is not negative. *)
Definition replay_from (msg : jsmap json) : option Z :=
  match get "fromSeq" msg with
  | Some (J_num (Fin q)) => if (Qden q =? 1)%positive && (0 <=? Qnum q) then Some (Qnum q) else None
  | _ => None
  end.
Definition send_replayed (client : string) (fromSeq : Z) (events : list SequencedEvent) s : Gateway T :=
  let s := send client (F_replay_start fromSeq (length events)) s in
  let f := get client (gw_subscribers s) in
  let s := foldl (fun s e => if replay_wants f e.2 then send client (F_event true e) s else s) s events in
  send client (F_replay_end (length events)) s.
Definition replay_ring (client : string) (fromSeq : Z) s : Gateway T :=
  let oldest := ring_oldestSeq (gw_ringBuffer s) in
  if negb (oldest =? -1) && (fromSeq <? oldest - 1) then send client (F_replay_too_old fromSeq oldest) s
  else send_replayed client fromSeq (ring_since fromSeq (gw_ringBuffer s)) s.
(** The call up to its first await: [None] when it is done. *)
Definition replay_begin (client : string) (fromSeq : Z) s : option (option ReplaySinceResult) * Gateway T :=
  if negb (is_open client s) then (None, s)
  else match gw_replayStore s with
       | Some t => (Some (since fromSeq t), s)
       | None => (None, replay_ring client fromSeq s)
       end.
Definition handleReplay (client : string) (msg : jsmap json) : GM unit :=
  match replay_from msg with
  | None => Done tt
  | Some fromSeq =>
      r <- atomic (replay_begin client fromSeq);
      match r with
      | None => Done tt
      | Some None => Throw tt
      | Some (Some r) =>
          if rr_tooOld r then
            o <- reads (fun s => t ← gw_replayStore s; oldestSeq t);
            match o with
            | Some oldest => modify (send client (F_replay_too_old fromSeq oldest))
            | None => Throw tt
            end
          else modify (send_replayed client fromSeq (rr_events r))
      end
  end.

(** ** Authentication *)

Definition find_solver (address : string) s : option (option SolverRecord) := if gw_down s then None else Some (get address (gw_solvers s)).
(** A bond that is not a number makes [buildMatchPredicate] throw. *)
Definition installSolver (client : string) (r : SolverRecord) s : option unit * Gateway T :=
  match build_predicate r with
  | None => (None, s)
  | Some p =>
      let f := get client (gw_subscribers s) in
      let s := put_clients
        (set client {| sf_chains := f ≫= sf_chains; sf_solver := Some p; sf_wantAll := default false (sf_wantAll <$> f);
                       sf_subscriptionCount := default 0%nat (sf_subscriptionCount <$> f) |} (gw_subscribers s))
        (gw_alive s) (set client (so_address r) (gw_authenticatedSolver s)) (gw_connections s) s in
      let s := send client F_auth_ok s in
      (Some tt, match getEligibleFor r (gw_index s) with Some eligible => send client (F_eligible_snapshot eligible) s | None => s end)
  end.
Definition install_step (client : string) (r : SolverRecord) : GM unit :=
  o <- atomic (installSolver client r); match o with Some _ => Done tt | None => Throw tt end.
(** After the claims are read: find the solver and bind it. *)
Definition bind_solver (client address : string) (verified : bool) : GM unit :=
  found <- reads (find_solver address);
  match found with
  | None => Throw tt
  | Some o =>
      match o with
      | Some r =>
          if negb (so_isActive r) then modify (send client (F_auth_error ar_inactive))
          else if verified then install_step client r else modify (send client (F_auth_error ar_signature))
      | None => modify (send client (F_auth_error ar_inactive))
      end
  end.

(** What is checked outside: the payloads a token's signature verifies for, and
    whether a signature is the solver's over [buildWsAuthMessage]. *)
Record AuthOracle := { ao_eddsa : string -> option JwtClaims; ao_hs256 : string -> option JwtClaims; ao_signed : string -> Qc -> string -> bool }.
Definition token_claims (o : AuthOracle) (token : string) (nowSec : Z) : option JwtClaims :=
  session_claims {| gr_address := ""; gr_presented := true; gr_eddsa := ao_eddsa o token; gr_hs256 := ao_hs256 o token |} nowSec.
Definition authenticateJwt (o : AuthOracle) (client token : string) (nowSec : Z) : GM unit :=
  match token_claims o token nowSec with
  | None => modify (send client (F_auth_error ar_token))
  | Some c => bind_solver client (jc_sub c) true
  end.
Definition as_text (v : option json) : string := match v with Some (J_str t) => t | _ => "" end.
Definition skewed (nowSec : Z) (timestamp : Qc) : bool := q_lt (of_Z 300) (of_Z nowSec - timestamp)%Qc || q_lt (of_Z 300) (timestamp - of_Z nowSec)%Qc.
Definition handleAuth (o : AuthOracle) (client : string) (payload : jsmap json) (nowSec : Z) : GM unit :=
  match get "token" payload with
  | Some (J_str token) => authenticateJwt o client token nowSec
  | _ =>
      let solver := as_text (get "solver" payload) in
      let signature := as_text (get "signature" payload) in
      if bool_decide (solver = "") || bool_decide (signature = "") then modify (send client (F_auth_error ar_payload))
      else match get "timestamp" payload with
           | Some (J_num (Fin timestamp)) =>
               if skewed nowSec timestamp then modify (send client (F_auth_error ar_timestamp)) else bind_solver client solver (ao_signed o solver timestamp signature)
           | Some (J_num _) => modify (send client (F_auth_error ar_timestamp))
           | _ => modify (send client (F_auth_error ar_payload))
           end
  end.

(** ** Messages and connections *)

(** [raw]: what [JSON.parse] gives. *)
Definition handleMessage (env : GatewayEnv) (o : AuthOracle) (client : string) (raw : option json) (nowSec : Z) : GM unit :=
  match raw with
  | Some (J_obj msg) =>
      match get "type" msg with
      | Some (J_str "subscribe") => modify (handleSubscribe env client msg)
      | Some (J_str "replay") => handleReplay client msg
      | Some (J_str "auth") => handleAuth o client msg nowSec
      | _ => Done tt
      end
  | _ => Done tt
  end.

Definition greet (client version : string) s : Z * Gateway T :=
  let currentSeq := gw_nextSeq s - 1 in (currentSeq, send client (F_connected version currentSeq) s).
Definition register (client : string) s : Gateway T :=
  put_clients (set client no_filter (gw_subscribers s)) (set client true (gw_alive s)) (gw_authenticatedSolver s) (gw_connections s + 1) s.
Definition send_snapshot (client : string) (currentSeq : Z) : GM unit :=
  o <- reads (fun s => if gw_down s then None else Some (findByState open (gw_intents s)));
  match o with
  | Some l => modify (send client (F_snapshot (take 20 l) currentSeq))
  | None => Done tt
  end.
(** [None]: the client was refused; otherwise the sequence number it was told.  A
    token that does not verify is answered before the greeting. *)
Definition connect_begin (o : AuthOracle) (client protocol : string) (token : option string) (nowSec : Z) s : option Z * Gateway T :=
  if gw_draining s then (None, close client 1001 s)
  else match resolveProtocol protocol with
       | None => (None, close client WS_CLOSE_UNSUPPORTED_PROTOCOL s)
       | Some version =>
           let s := register client s in
           let s := match token with
                    | Some t => match token_claims o t nowSec with None => send client (F_auth_error ar_token) s | Some _ => s end
                    | None => s
                    end in
           let '(seq, s) := greet client version s in (Some seq, s)
       end.
(** [token]: the non-empty bearer token of the upgrade request.  Its
    authentication and the snapshot run together, as [order] has it. *)
Definition handleConnection (o : AuthOracle) (client protocol : string) (token : option string) (nowSec : Z) (order : list nat) : GM unit :=
  r <- atomic (connect_begin o client protocol token nowSec);
  match r with
  | None => Done tt
  | Some currentSeq =>
      let auth := match t ← token; token_claims o t nowSec with Some c => pcatch (fun _ => Done tt) (bind_solver client (jc_sub c) true) | None => Done tt end in
      together order [auth; send_snapshot client currentSeq];;; Done tt
  end.
Definition handleDisconnect (client : string) s : Gateway T := removeSubscriber client s.
Definition on_pong (client : string) s : Gateway T := put_clients (gw_subscribers s) (set client true (gw_alive s)) (gw_authenticatedSolver s) (gw_connections s) s.

(** ** Capability updates *)

Definition refresh_filter (p : SolverMatchPredicate) (auth : jsmap string) (address client : string) (f : SubscriberFilter) : SubscriberFilter :=
  match sf_solver f with
  | Some _ =>
      if bool_decide (get client auth = Some address)
      then {| sf_chains := sf_chains f; sf_solver := Some p; sf_wantAll := sf_wantAll f; sf_subscriptionCount := sf_subscriptionCount f |} else f
  | None => f
  end.
Definition refresh_all (p : SolverMatchPredicate) (address : string) s : Gateway T :=
  put_clients ((fun '(c, f) => (c, refresh_filter p (gw_authenticatedSolver s) address c f)) <$> gw_subscribers s)
    (gw_alive s) (gw_authenticatedSolver s) (gw_connections s) s.
Definition updateSolverPredicate (address : string) : GM unit :=
  found <- reads (find_solver address);
  match found with
  | None => Throw tt
  | Some None => Done tt
  | Some (Some r) => match build_predicate r with Some p => modify (refresh_all p address) | None => Throw tt end
  end.

(** ** Heartbeat and health *)

Definition beat (client : string) s : Gateway T :=
  if bool_decide (get client (gw_alive s) = Some false) then removeSubscriber client (terminate client s)
  else send client F_ping (put_clients (gw_subscribers s) (set client false (gw_alive s)) (gw_authenticatedSolver s) (gw_connections s) s).
Definition heartbeat s : Gateway T := foldl (fun s client => beat client s) s (keys (gw_subscribers s)).
Definition getAliveCount s : nat := length (filter (fun c => get c (gw_alive s) = Some true) (keys (gw_subscribers s))).
Definition getSubscriberCount s : nat := length (gw_subscribers s).
(** [backplaneHealth] without a feed: the mode is redis, and the last number. *)
Definition backplaneHealth (env : GatewayEnv) s : bool * Z := (ev_backplane env, gw_nextSeq s - 1).

(** ** Draining *)

Definition announce s : Gateway T :=
  let currentSeq := gw_nextSeq s - 1 in
  foldl (fun s client => send client (F_server_draining currentSeq) s)
    (put_flags true (gw_published s) (gw_delivered s) (gw_filtered s) s) (keys (gw_subscribers s)).
Definition close_batch (batch : list string) s : Gateway T :=
  foldl (fun s client => removeSubscriber client (if is_open client s then close client 1001 s else s)) s batch.
Definition batchSize (clientCount : nat) : nat := 10 `max` ((clientCount + 9) / 10).
(** The first batch is closed at once, the others after a delay each. *)
Definition drain_begin s : list (list string) * Gateway T :=
  if gw_draining s then ([], s)
  else let clients := keys (gw_subscribers s) in
       let s := announce s in
       match batches (length clients) (batchSize (length clients)) clients with
       | [] => ([], s)
       | batch :: rest => (rest, close_batch batch s)
       end.
Definition startDraining : GM unit :=
  rest <- atomic drain_begin;
  pfold (fun _ batch => modify (close_batch batch)) tt rest.

(** ** Everything that can happen *)

Inductive GatewayCall :=
  | C_connect (client protocol : string) (token : option string) (nowSec : Z) (order : list nat)
  | C_message (client : string) (raw : option json) (nowSec : Z)
  | C_pong (client : string)
  | C_gone (client : string)       (* [handleDisconnect], or the socket's [error] *)
  | C_broadcast (clock : Z * Z) (event : WsEvent)
  | C_channel (event : WsEvent)
  | C_update (address : string)
  | C_heartbeat
  | C_drain
  | C_sockets (sockets : list string)   (* sockets open and close *)
  | C_services (intents : InMemoryRepo) (solvers : jsmap SolverRecord) (down : bool).

Definition call (env : GatewayEnv) (o : AuthOracle) (c : GatewayCall) : GM unit :=
  match c with
  | C_connect client protocol token nowSec order => handleConnection o client protocol token nowSec order
  | C_message client raw nowSec => handleMessage env o client raw nowSec
  | C_pong client => modify (on_pong client)
  | C_gone client => modify (handleDisconnect client)
  | C_broadcast clock event => broadcast env clock event
  | C_channel event => modify (on_channel_message event)
  | C_update address => updateSolverPredicate address
  | C_heartbeat => modify heartbeat
  | C_drain => startDraining
  | C_sockets sockets => modify (fun s => put_sockets sockets (gw_sent s) s)
  | C_services intents solvers down => modify (put_services intents solvers down)
  end.

Definition boot (store : option T) : Gateway T :=
  {| gw_subscribers := []; gw_alive := []; gw_authenticatedSolver := []; gw_nextSeq := 1; gw_draining := false; gw_ringBuffer := []; gw_replayStore := store;
     gw_published := []; gw_index := empty_index; gw_intents := empty_repo; gw_solvers := []; gw_down := false; gw_open := []; gw_sent := []; gw_connections := 0;
     gw_delivered := []; gw_filtered := []; gw_log := [] |}.

(** The states any interleaving of calls leads to. *)
Definition reachable (env : GatewayEnv) (o : AuthOracle) (store : option T) s : Prop :=
  exists calls ps, rtc pool_step (boot store, call env o <$> calls) (s, ps).

End gateway.
