(* ===== verification/GatewaySafety.v ===== *)
(** What the gateway's clients can rely on, under any interleaving of its handlers:
    numbers and replay ([sequence_is_consistent], [replay_closes_the_gap],
    [store_replay_exact]), the scope of what they are sent ([scope_respected]),
    heartbeat, draining and authentication; and the places where the code departs
    from its comments. *)
From S2P Require Import Prelude JsMap BigInt JsNumber AbuseRules TtlKeeper IntentTypes IntentsRepo Prog Solvers IntentIndex Sessions Feed FeedSafety Gateway.
From Stdlib Require Import QArith Qcanon.
From stdpp Require Import relations.
Local Open Scope string_scope.
Local Open Scope list_scope.
Local Open Scope Z_scope.

(** * The replay stores keep their promises *)

Lemma evict_count_suffix n buf : exists lost, buf = lost ++ evict_count n buf.
Proof.
  induction buf as [|e buf [lost IH]]; [by exists []|]. cbn [evict_count]. destruct (n <? _)%nat; [|by exists []].
  exists (e :: lost). cbn [app]. by rewrite <- IH.
Qed.
Lemma evict_age_suffix cutoff buf : exists lost, buf = lost ++ evict_age cutoff buf.
Proof.
  induction buf as [|e buf [lost IH]]; [by exists []|]. cbn [evict_age]. destruct (se_timestamp e <? cutoff); [|by exists []].
  exists (e :: lost). cbn [app]. by rewrite <- IH.
Qed.
Lemma evict_count_length n buf : (length (evict_count n buf) <= n)%nat.
Proof. induction buf as [|e buf IH]; [simpl; lia|]. cbn [evict_count]. destruct (Nat.ltb_spec n (length (e :: buf))); [done|lia]. Qed.

#[export] Program Instance memory_laws : ReplayStoreLaws MemoryReplayStore := { held m := se_event <$> ms_buf m }.
Next Obligation.
  intros clock e m m' [= <-]. unfold memory_append. cbn [put_buf ms_buf].
  set (all := ms_buf m ++ _). destruct (evict_count_suffix (ms_maxCount m) all) as [l1 H1].
  assert (exists l2, evict_count (ms_maxCount m) all = l2 ++
    match ms_maxAgeMs m with Some a => evict_age (clock.2 - a) (evict_count (ms_maxCount m) all) | None => evict_count (ms_maxCount m) all end) as [l2 H2].
  { destruct (ms_maxAgeMs m); [apply evict_age_suffix|by exists []]. }
  exists (se_event <$> l1 ++ l2). rewrite <- fmap_app, <- app_assoc, <- H2, <- H1. unfold all. by rewrite fmap_app.
Qed.
Next Obligation.
  intros fromSeq m r [= <-]. unfold memory_since. destruct (ms_buf m) as [|e buf]; [done|]. by destruct (fromSeq <? _).
Qed.

#[export] Program Instance redis_laws : ReplayStoreLaws RedisReplayStore := { held r := rd_stream r }.
Next Obligation.
  intros clock e r r'. unfold append, redis_store, redis_append. destruct (negb (rd_up r)); [done|]. destruct (e.1 <=? rd_lastId r); [done|].
  intros [= <-]. cbn [put_stream rd_stream]. unfold trim_stream. set (all := rd_stream r ++ [e]).
  destruct (rd_maxAgeMs r); [|eexists; symmetry; apply take_drop]. rewrite drop_drop. eexists. symmetry. apply take_drop.
Qed.
Next Obligation.
  intros fromSeq r a. unfold since, redis_store, redis_since.
  assert (Hr : redis_range fromSeq r = after fromSeq (rd_stream r)).
  { unfold redis_range, after. apply filter_iff_on. intros e _. lia. }
  rewrite Hr. destruct (rd_up r) eqn:Eup; [|done]. cbn [negb]. destruct (fromSeq =? 0); [by intros [= <-]|].
  destruct (after fromSeq (rd_stream r)) as [|e l] eqn:Ea.
  - unfold redis_oldestSeq. rewrite Eup. cbn. intros [= <-]. cbn. by case_match.
  - destruct (fromSeq + 1 <? e.1); by intros [= <-].
Qed.

(** * Steps *)

Section steps.
Context {T : Type} `{ReplayStoreLaws T}.
Implicit Type s : Gateway T.

(** What a connection's filter promises about an event. *)
Definition in_scope (f : option SubscriberFilter) (e : WsEvent) : Prop :=
  match f with
  | None => True
  | Some f =>
      sf_wantAll f = true \/
      forall i, we_type e = "intent_created" -> we_intent e = Some i ->
        (forall p, sf_solver f = Some p -> sp_matches p i = true) /\
        (forall cs, sf_solver f = None -> sf_chains f = Some cs -> srcChain i ∈ cs)
  end.

Definition ok_frame s (client : string) (f : Frame) : Prop :=
  match f with
  | F_event _ e => e ∈ gw_log s /\ in_scope (get client (gw_subscribers s)) e.2
  | F_remote e => in_scope (get client (gw_subscribers s)) e
  | _ => True
  end.

Definition hist s : Z * list SequencedEvent * option T * list SequencedEvent := (gw_nextSeq s, gw_ringBuffer s, gw_replayStore s, gw_log s).

(** [s'] is [s] after sending frames that satisfy [B]. *)
Record says (B : string -> Frame -> Prop) s s' : Prop := {
  sy_hist : hist s' = hist s;
  sy_wf : wf (gw_subscribers s) -> wf (gw_subscribers s');
  sy_sent : exists fs, gw_sent s' = gw_sent s ++ fs /\ Forall (fun p => B p.1 p.2) fs;
}.

#[export] Instance says_refl B : Reflexive (says B).
Proof. intros s. split; [done|done|]. exists []. by rewrite app_nil_r. Qed.
#[export] Instance says_trans B : Transitive (says B).
Proof.
  intros s1 s2 s3 [h1 w1 (f1 & e1 & a1)] [h2 w2 (f2 & e2 & a2)]. split; [congruence|auto|].
  exists (f1 ++ f2). rewrite e2, e1, app_assoc. split; [done|]. by apply Forall_app.
Qed.

Lemma says_send B c f s : B c f -> says B s (send c f s).
Proof.
  intros Hb. unfold send. destruct (is_open c s); [|done]. split; [done|done|]. exists [(c, f)]. split; [done|]. by constructor.
Qed.
Lemma says_foldl {A} B (g : Gateway T -> A -> Gateway T) l s : (forall s a, a ∈ l -> says B s (g s a)) -> says B s (foldl g s l).
Proof.
  revert s. induction l as [|a l IH]; intros s Hg; [done|]. cbn [foldl]. etrans; [apply Hg; by left|]. apply IH. intros s' b Hb. apply Hg. by right.
Qed.
Lemma says_clients B subs alive auth n s : (wf (gw_subscribers s) -> wf subs) -> says B s (put_clients subs alive auth n s).
Proof. intros Hw. split; [done|done|]. exists []. by rewrite app_nil_r. Qed.
Lemma says_flags B d p x y s : says B s (put_flags d p x y s).
Proof. split; [done|done|]. exists []. by rewrite app_nil_r. Qed.
Lemma says_services B i v d s : says B s (put_services i v d s).
Proof. split; [done|done|]. exists []. by rewrite app_nil_r. Qed.
Lemma says_open B o s : says B s (put_sockets o (gw_sent s) s).
Proof. split; [done|done|]. exists []. by rewrite app_nil_r. Qed.
Lemma says_close B c code s : B c (F_close code) -> says B s (close c code s).
Proof. intros Hb. unfold close. etrans; [by apply says_send|]. apply says_open. Qed.
Lemma says_remove B c s : says B s (removeSubscriber c s).
Proof. apply says_clients, del_wf. Qed.

(** Delivery reaches only the clients whose filter wants the event. *)
Lemma judge_scope chain event f : (forall i, we_type event = "intent_created" -> we_intent event = Some i -> chain = Some (srcChain i)) ->
  match judge f chain event with v_send | v_delivered _ => in_scope (Some f) event | _ => True end.
Proof.
  intros Hc. unfold judge, in_scope. destruct (sf_wantAll f); [by left|].
  destruct (sf_solver f) as [p|] eqn:Ep.
  - destruct (we_intent event) as [i|] eqn:Ei; [|by right].
    case_bool_decide as Ht; [destruct (sp_matches p i) eqn:Em|]; [|done|].
    + right. intros j _ [= <-]. split; [by intros q [= <-]|done].
    + right. by intros j Ht'.
  - destruct (sf_chains f) as [cs|] eqn:Ecs; [|right; by intros j _ _; split; [|intros cs ?]].
    destruct chain as [c|].
    + case_bool_decide as Hin; [|done]. right. intros i Ht Hi. split; [done|]. intros cs' _ [= <-]. by injection (Hc i Ht Hi) as <-.
    + right. intros i Ht Hi. by specialize (Hc i Ht Hi).
Qed.

Lemma says_deliver B chain event frame s : (forall i, we_type event = "intent_created" -> we_intent event = Some i -> chain = Some (srcChain i)) ->
  (forall c f, (c, f) ∈ gw_subscribers s -> in_scope (Some f) event -> B c frame) ->
  says B s (deliverToMatchingSubscribers chain event frame s).
Proof.
  intros Hc HB. apply says_foldl. intros s' [c f] Hin. unfold deliver_one. destruct (is_open c s'); [|done].
  pose proof (judge_scope chain event f Hc) as Hj. destruct (judge f chain event); [| | |].
  - apply says_send. by eapply HB.
  - done.
  - etrans; [apply (says_send _ c frame); by eapply HB|apply says_flags].
  - apply says_flags.
Qed.

Lemma says_remote B event s : (forall c f, (c, f) ∈ gw_subscribers s -> in_scope (Some f) event -> B c (F_remote event)) -> says B s (dispatchRemoteEvent event s).
Proof.
  intros HB. unfold dispatchRemoteEvent. case_bool_decide; [done|]. apply says_deliver; [|done].
  intros i _ Hi. unfold getEventChainSync. by rewrite Hi.
Qed.

Lemma deliver_subscribers chain event frame s : gw_subscribers (deliverToMatchingSubscribers chain event frame s) = gw_subscribers s.
Proof.
  unfold deliverToMatchingSubscribers. generalize (gw_subscribers s) at 1. intros l. revert s. induction l as [|[c f] l IH]; intros s; [done|].
  cbn [foldl]. rewrite IH. unfold deliver_one, send. destruct (is_open c s); [|done]. by destruct (judge f chain event).
Qed.

Lemma replay_scope f e : replay_wants f e = true -> in_scope f e.
Proof.
  unfold replay_wants, in_scope, getEventChainSync. destruct f as [f|]; [|done]. destruct (sf_wantAll f); [by left|]. intros Hw. right.
  intros i Ht Hi. rewrite Hi, bool_decide_eq_true_2 in Hw by done.
  destruct (sf_solver f) as [p|]; [split; [by intros q [= <-]|done]|]. split; [done|]. intros cs _ Hcs. rewrite Hcs in Hw.
  by apply bool_decide_eq_true in Hw.
Qed.

(** A step sends only frames its state allows, and either leaves the history alone
    or numbers one event. *)
Record step_ok s s' : Prop := {
  st_sent : exists fs, gw_sent s' = gw_sent s ++ fs /\ Forall (fun p => ok_frame s p.1 p.2) fs;
  st_wf : wf (gw_subscribers s) -> wf (gw_subscribers s');
  st_hist : hist s' = hist s \/ exists e clock, e.1 = gw_nextSeq s /\ gw_sent s' = gw_sent s /\
    hist s' = (gw_nextSeq s + 1, ring_push REPLAY_BUFFER_SIZE e (gw_ringBuffer s), (fun t => default t (append clock e t)) <$> gw_replayStore s, gw_log s ++ [e]);
}.

Lemma says_step s s' : says (ok_frame s) s s' -> step_ok s s'.
Proof. intros [h w a]. split; [done|done|by left]. Qed.

(** ** The invariant *)

Record gateway_ok s : Prop := {
  go_wf : wf (gw_subscribers s);
  go_next : gw_nextSeq s = 1 + Z.of_nat (length (gw_log s));
  go_log : fst <$> gw_log s = seqZ 1 (Z.of_nat (length (gw_log s)));
  go_ring : gw_ringBuffer s = lastn REPLAY_BUFFER_SIZE (gw_log s);
  go_store : forall t, gw_replayStore s = Some t -> held t `sublist_of` gw_log s;
  go_sent : forall c r e, (c, F_event r e) ∈ gw_sent s -> e ∈ gw_log s;
}.

Definition later s s' : Prop := rtc step_ok s s'.
Definition knows s s' : Prop := gw_log s `prefix_of` gw_log s'.

Lemma step_knows s s' : step_ok s s' -> knows s s'.
Proof. intros [_ _ [E|(e & clock & _ & _ & E)]]; unfold hist in E; injection E as _ _ _ E; unfold knows; rewrite E; [done|by exists [e]]. Qed.
Lemma later_knows s s' : later s s' -> knows s s'.
Proof. unfold knows. induction 1 as [|a b c Hs _ IH]; [reflexivity|]. transitivity (gw_log b); [by apply step_knows|done]. Qed.

Lemma append_sublist clock e t (log : list SequencedEvent) : held t `sublist_of` log -> held (default t (append clock e t)) `sublist_of` log ++ [e].
Proof.
  intros Hs. destruct (append clock e t) as [t'|] eqn:Ea; cbn [default].
  - destruct (append_held _ _ _ _ Ea) as [lost Hl]. transitivity (held t ++ [e]); [rewrite Hl; by apply sublist_inserts_l|by apply sublist_app].
  - by apply sublist_inserts_r.
Qed.

Lemma step_keeps s s' : step_ok s s' -> gateway_ok s -> gateway_ok s'.
Proof.
  intros [(fs & Hs & Hf) Hw Hh] [G1 G2 G3 G4 G5 G6].
  assert (Hsent : forall c r e, (c, F_event r e) ∈ gw_sent s' -> e ∈ gw_log s).
  { intros c r e. rewrite Hs, elem_of_app. intros [Hin|Hin]; [by eapply G6|]. rewrite Forall_forall in Hf. exact (proj1 (Hf _ Hin)). }
  destruct Hh as [E|(e & clock & He & _ & E)]; unfold hist in E; injection E as E1 E2 E3 E4; split; auto; rewrite ?E1, ?E2, ?E3, ?E4.
  - done.
  - done.
  - done.
  - done.
  - intros c r e. apply Hsent.
  - rewrite length_app. simpl. lia.
  - rewrite fmap_app, G3, length_app. cbn [length fmap list_fmap]. rewrite He, G2, Nat2Z.inj_add. change (Z.of_nat 1) with 1. rewrite seqZ_app by lia. done.
  - rewrite G4. unfold lastn. apply ring_push_suffix. unfold REPLAY_BUFFER_SIZE. lia.
  - intros t. destruct (gw_replayStore s) as [t0|] eqn:Et; [|done]. cbn. intros [= <-]. apply append_sublist. by apply G5.
  - intros c r e' Hin. apply elem_of_app. left. by eapply Hsent.
Qed.

(** ** Every handler takes only such steps *)

Notation GM := (prog (Gateway T) unit).
Notation fine p s := (rg gateway_ok later (fun _ _ => True) p s).

Lemma later_step s s' : step_ok s s' -> gateway_ok s -> gateway_ok s' /\ later s s'.
Proof. intros Hs Hg. split; [by eapply step_keeps|by apply rtc_once]. Qed.
Lemma fine_atomic {A} (Q : A -> Gateway T -> Prop) f s0 : (forall s, later s0 s -> gateway_ok s -> step_ok s (f s).2 /\ Q (f s).1 (f s).2) -> rg gateway_ok later Q (atomic f : GM A) s0.
Proof. intros Hf s Hl Hg. destruct (Hf s Hl Hg) as [Hs Hq]. destruct (later_step _ _ Hs Hg). by split_and!. Qed.
Lemma fine_modify f s0 : (forall s, later s0 s -> gateway_ok s -> says (ok_frame s) s (f s)) -> fine (modify f : GM unit) s0.
Proof. intros Hf s Hl Hg. destruct (later_step s (f s)) as [? ?]; [apply says_step; by apply Hf|done|]. by split_and!. Qed.
Lemma fine_reads {A} (Q : A -> Gateway T -> Prop) (g : Gateway T -> A) s0 : (forall s, later s0 s -> gateway_ok s -> Q (g s) s) -> rg gateway_ok later Q (reads g : GM A) s0.
Proof. intros Hg s Hl Hi. split_and!; [done|apply rtc_refl|]. by apply Hg. Qed.
Lemma fine_bind {A B} (Q : A -> Gateway T -> Prop) (k : A -> GM B) p s0 : rg gateway_ok later Q p s0 -> (forall a s, Q a s -> fine (k a) s) -> fine (pbind k p) s0.
Proof. intros Hp Hk. eapply rg_bind; [exact Hp|exact Hk]. Qed.

Lemma subscriber_get s c f : gateway_ok s -> (c, f) ∈ gw_subscribers s -> get c (gw_subscribers s) = Some f.
Proof. intros Hg. apply elem_of_get, Hg. Qed.

Lemma broadcast_step clock event s : step_ok s (broadcast_begin clock event s).2.
Proof.
  split; [exists []; by rewrite app_nil_r|done|]. right. exists (gw_nextSeq s, event), clock. split_and!; [done|done|].
  unfold hist, broadcast_begin. cbn. by destruct (gw_replayStore s).
Qed.
Lemma publish_step env e s : says (ok_frame s) s (publish_event env e s).2.
Proof. unfold publish_event. destruct (ev_backplane env); [apply says_flags|done]. Qed.

Lemma broadcast_fine env clock event s0 : fine (broadcast env clock event) s0.
Proof.
  unfold broadcast.
  set (ok_chain := fun chain : option SupportedChain => forall i, we_type event = "intent_created" -> we_intent event = Some i -> chain = Some (srcChain i)).
  assert (Hchain : forall e s, e.2 = event -> ok_chain (publish_event env e s).1).
  { intros e s He i Ht Hi. unfold publish_event, getEventChain. cbn [fst]. by rewrite He, bool_decide_eq_true_2, Hi. }
  eapply (fine_bind (fun r s => r.1.2 = event /\ r.1 ∈ gw_log s /\ forall chain, r.2 = Some chain -> ok_chain chain)).
  - apply fine_atomic. intros s _ Hg. pose proof (broadcast_step clock event s) as Hb.
    unfold broadcast_begin in *. cbn [fst snd] in Hb. cbn [gw_replayStore put_history].
    destruct (gw_replayStore s) as [t|].
    + cbn [fst snd]. split; [exact Hb|]. split_and!; [done|cbn; apply elem_of_app; right; by left|done].
    + unfold publish_event. cbn [fst snd].
      split; [|split_and!; [done|destruct (ev_backplane env); cbn; apply elem_of_app; right; by left|]].
      * destruct (ev_backplane env); [|done]. by destruct Hb.
      * intros chain [= <-]. by apply (Hchain (gw_nextSeq s, event)).
  - intros [e looked] s (He & Hlog & Hlook). cbn [fst snd] in *.
    eapply (fine_bind (fun chain s => ok_chain chain /\ e ∈ gw_log s)).
    + destruct looked as [chain|]; [by split; [apply Hlook|]|]. apply fine_atomic. intros s1 Hl Hg. split; [apply says_step, publish_step|].
      split; [by apply Hchain|]. apply later_knows in Hl. unfold publish_event. destruct (ev_backplane env); cbn; by eapply elem_of_prefix.
    + intros chain s1 [Hc Hlog1]. apply fine_modify. intros s2 Hl2 Hg2. apply says_deliver; [done|].
      intros c f Hin Hsc. cbn. rewrite (subscriber_get _ _ _ Hg2 Hin), He. split; [|done]. apply later_knows in Hl2. by eapply elem_of_prefix.
Qed.

(** A reply that carries no event. *)
Definition plain (fr : Frame) : Prop := match fr with F_event _ _ | F_remote _ => False | _ => True end.
Lemma plain_ok s c fr : plain fr -> ok_frame s c fr.
Proof. by destruct fr. Qed.
Lemma says_reply s0 c fr s : plain fr -> says (ok_frame s0) s (send c fr s).
Proof. intros Hp. by apply says_send, plain_ok. Qed.
Lemma says_filter B c f s : says B s (put_filter c f s).
Proof. apply says_clients, set_wf. Qed.
Lemma reply_fine c fr s0 : plain fr -> fine (modify (send c fr) : GM unit) s0.
Proof. intros Hp. apply fine_modify. intros s _ _. by apply says_reply. Qed.

Lemma subscribe_says env client msg s : says (ok_frame s) s (handleSubscribe env client msg s).
Proof.
  unfold handleSubscribe.
  repeat match goal with |- says _ _ (match ?x with _ => _ end) => destruct x end; try done; try by apply says_reply.
  all: etrans; [apply says_filter|by apply says_reply].
Qed.

Lemma send_subscribers c fr s : gw_subscribers (send c fr s) = gw_subscribers s.
Proof. unfold send. by destruct (is_open c s). Qed.
Lemma send_replayed_says s0 client fromSeq events s : gw_subscribers s = gw_subscribers s0 -> Forall (fun e => e ∈ gw_log s0) events ->
  says (ok_frame s0) s (send_replayed client fromSeq events s).
Proof.
  intros Hsub Hev. unfold send_replayed. cbv zeta. etrans; [by apply (says_reply s0 client (F_replay_start fromSeq (length events)))|].
  rewrite send_subscribers, Hsub. etrans; [|by apply says_reply]. apply says_foldl. intros s' e Hin.
  destruct (replay_wants _ e.2) eqn:Ew; [|done]. apply says_send. split; [by eapply Forall_forall in Hev|]. by apply replay_scope.
Qed.

Lemma after_sublist fromSeq (l log : list SequencedEvent) : l `sublist_of` log -> Forall (fun e => e ∈ log) (after fromSeq l).
Proof. intros Hs. apply Forall_forall. intros e [_ He]%list_elem_of_filter. by eapply elem_of_sublist. Qed.

Lemma lastn_sublist {A} n (l : list A) : lastn n l `sublist_of` l.
Proof. apply sublist_drop. Qed.

Lemma replay_fine client msg s0 : fine (handleReplay client msg) s0.
Proof.
  unfold handleReplay. destruct (replay_from msg) as [fromSeq|]; [|done].
  eapply (fine_bind (fun r s => forall x, r = Some (Some x) -> Forall (fun e => e ∈ gw_log s) (rr_events x))).
  - apply fine_atomic. intros s _ Hg. unfold replay_begin. destruct (negb (is_open client s)); [split; [by apply says_step|done]|].
    destruct (gw_replayStore s) as [t|] eqn:Et; cbn [fst snd].
    + split; [by apply says_step|]. intros x [= Hx]. rewrite (since_held _ _ _ Hx). destruct (rr_tooOld x); [done|]. by apply after_sublist, Hg.
    + split; [|done]. apply says_step. unfold replay_ring. cbv zeta. destruct (negb _ && _); [by apply says_reply|].
      apply send_replayed_says; [done|]. apply (after_sublist fromSeq). rewrite (go_ring _ Hg). apply lastn_sublist.
  - intros [[r|]|] s Hr; [|done|done]. destruct (rr_tooOld r).
    + eapply (fine_bind (fun _ _ => True)); [by apply fine_reads|]. intros [oldest|] s1 _; [|done]. by apply reply_fine.
    + apply fine_modify. intros s1 Hl Hg. apply send_replayed_says; [done|]. eapply Forall_impl; [by apply Hr|].
      intros e He. apply later_knows in Hl. exact (elem_of_prefix _ _ _ He Hl).
Qed.

Lemma install_says client r s : says (ok_frame s) s (installSolver client r s).2.
Proof.
  unfold installSolver. destruct (build_predicate r) as [p|]; [|done]. cbv zeta. cbn [snd].
  etrans; [eapply says_clients; apply set_wf|].
  etrans; [by apply (says_reply s client F_auth_ok)|]. destruct (getEligibleFor r _); [by apply says_reply|done].
Qed.
Lemma bind_solver_fine client address verified s0 : fine (bind_solver client address verified) s0.
Proof.
  unfold bind_solver. eapply (fine_bind (fun _ _ => True)); [by apply fine_reads|]. intros [[r|]|] s _; [|by apply reply_fine|done].
  destruct (negb (so_isActive r)); [by apply reply_fine|]. destruct verified; [|by apply reply_fine].
  unfold install_step. eapply (fine_bind (fun _ _ => True)); [|by intros [[]|] ? _].
  apply fine_atomic. intros s1 _ _. split; [apply says_step, install_says|done].
Qed.
Lemma auth_fine o client payload nowSec s0 : fine (handleAuth o client payload nowSec) s0.
Proof.
  unfold handleAuth, authenticateJwt.
  repeat match goal with |- rg _ _ _ (match ?x with _ => _ end) _ => destruct x end; try (by apply reply_fine); apply bind_solver_fine.
Qed.
Lemma message_fine env o client raw nowSec s0 : fine (handleMessage env o client raw nowSec) s0.
Proof.
  unfold handleMessage. destruct raw as [[]|]; try done. destruct (get "type" m) as [[]|]; try done.
  repeat match goal with |- rg _ _ _ (match ?x with _ => _ end) _ => destruct x end;
    try done; try apply replay_fine; try apply auth_fine. apply fine_modify. intros s1 _ _. apply subscribe_says.
Qed.

#[local] Instance later_refl : Reflexive later.
Proof. intros s. apply rtc_refl. Qed.
#[local] Instance later_trans : Transitive later.
Proof. intros s1 s2 s3. unfold later. apply rtc_po. Qed.

Lemma connect_says o client protocol token nowSec s : says (ok_frame s) s (connect_begin o client protocol token nowSec s).2.
Proof.
  unfold connect_begin. destruct (gw_draining s); [by apply says_close|]. destruct (resolveProtocol protocol) as [v|]; [|by apply says_close].
  cbv zeta. unfold greet. cbv zeta. cbn [snd]. etrans; [|by apply says_reply].
  transitivity (register client s); [unfold register; apply says_clients, set_wf|].
  destruct token as [t|]; [|done]. destruct (token_claims o t nowSec); [done|]. by apply says_reply.
Qed.
Lemma connection_fine o client protocol token nowSec order s0 : fine (handleConnection o client protocol token nowSec order) s0.
Proof.
  unfold handleConnection. eapply (fine_bind (fun _ _ => True)).
  { apply fine_atomic. intros s _ _. split; [apply says_step, connect_says|done]. }
  intros [seq|] s _; [|done]. cbv zeta. eapply (fine_bind (fun _ _ => True)); [|done]. apply rg_together; [apply _|apply _|].
  constructor; [|constructor; [|constructor]].
  - destruct (_ ≫= _); [|done]. apply rg_catch; [apply bind_solver_fine|done].
  - unfold send_snapshot. eapply (fine_bind (fun _ _ => True)); [by apply fine_reads|]. intros [l|] s1 _; [|done]. by apply reply_fine.
Qed.

Lemma keys_map_filter (g : string -> SubscriberFilter -> SubscriberFilter) (m : jsmap SubscriberFilter) : keys ((fun '(c, f) => (c, g c f)) <$> m) = keys m.
Proof. unfold keys. rewrite <- list_fmap_compose. apply list_fmap_ext. by intros i [c f] _. Qed.
Lemma update_fine address s0 : fine (Gateway.updateSolverPredicate address) s0.
Proof.
  unfold Gateway.updateSolverPredicate. eapply (fine_bind (fun _ _ => True)); [by apply fine_reads|]. intros [[r|]|] s _; [|done|done].
  destruct (build_predicate r) as [p|]; [|done]. apply fine_modify. intros s1 _ _. unfold refresh_all. apply says_clients.
  unfold wf. by rewrite (keys_map_filter (refresh_filter p (gw_authenticatedSolver s1) address)).
Qed.

Lemma beat_says s0 client s : says (ok_frame s0) s (beat client s).
Proof.
  unfold beat. case_bool_decide.
  - etrans; [|apply says_remove]. apply says_open.
  - etrans; [|by apply says_reply]. by apply says_clients.
Qed.
Lemma close_batch_says s0 batch s : says (ok_frame s0) s (close_batch batch s).
Proof.
  apply says_foldl. intros s' c _. etrans; [|apply says_remove]. destruct (is_open c s'); [by apply says_close|done].
Qed.
Lemma announce_says s0 s : says (ok_frame s0) s (announce s).
Proof. unfold announce. cbv zeta. etrans; [apply says_flags|]. apply says_foldl. intros s' c _. by apply says_reply. Qed.
Lemma drain_fine s0 : fine startDraining s0.
Proof.
  unfold startDraining. eapply (fine_bind (fun _ _ => True)).
  { apply fine_atomic. intros s _ _. split; [|done]. apply says_step. unfold drain_begin. destruct (gw_draining s); [done|]. cbv zeta.
    destruct (batches _ _ _); [apply announce_says|]. cbn [snd]. etrans; [apply announce_says|apply close_batch_says]. }
  intros rest s _. revert s. induction rest as [|b rest IH]; intros s; [done|]. cbn [pfold]. eapply (fine_bind (fun _ _ => True)); [|intros [] s1 _; apply IH].
  apply fine_modify. intros s1 _ _. apply close_batch_says.
Qed.

Lemma channel_says event s : gateway_ok s -> says (ok_frame s) s (on_channel_message event s).
Proof.
  intros Hg. assert (HB : forall c f, (c, f) ∈ gw_subscribers s -> in_scope (Some f) event -> ok_frame s c (F_remote event)).
  { intros c f Hin Hsc. cbn. by rewrite (subscriber_get _ _ _ Hg Hin). }
  unfold on_channel_message. cbv zeta. etrans; [by apply says_remote|]. case_bool_decide; [done|]. apply says_remote.
  unfold dispatchRemoteEvent at 1. case_bool_decide; [done|]. by rewrite deliver_subscribers.
Qed.

Lemma call_fine env o c s0 : fine (call env o c) s0.
Proof.
  destruct c; cbn [call]; try (apply fine_modify; intros s Hl Hg).
  - apply connection_fine.
  - apply message_fine.
  - unfold on_pong. by apply says_clients.
  - apply says_remove.
  - apply broadcast_fine.
  - by apply channel_says.
  - apply update_fine.
  - unfold heartbeat. apply says_foldl. intros s' c _. apply beat_says.
  - apply drain_fine.
  - apply says_open.
  - apply says_services.
Qed.

Lemma gateway_boot_ok store : (forall t, store = Some t -> held t = []) -> gateway_ok (boot store).
Proof.
  intros Hs. split; cbn; [apply empty_wf|done|done|done| |by intros c r e ?%elem_of_nil].
  intros t ->. by rewrite (Hs t).
Qed.
Lemma gateway_reachable_ok env o store s : (forall t, store = Some t -> held t = []) -> reachable env o store s -> gateway_ok s /\ later (boot store) s.
Proof.
  intros Hst (calls & ps & Hr). pose proof (pool_rg gateway_ok later _ _ Hr) as Hp. cbn [fst snd] in Hp. apply Hp; [by apply gateway_boot_ok|].
  apply Forall_fmap, Forall_forall. intros c _. apply call_fine.
Qed.
End steps.

(** * Theorems *)

Section theorems.
Context {T : Type} `{ReplayStoreLaws T} (env : GatewayEnv) (o : AuthOracle).
Implicit Type s : Gateway T.

Lemma log_lookup s i e : gateway_ok s -> gw_log s !! i = Some e -> e.1 = 1 + Z.of_nat i.
Proof.
  intros Hg Hi. assert (Hl : (fst <$> gw_log s) !! i = Some e.1) by (unfold SequencedEvent in *; by rewrite list_lookup_fmap, Hi).
  rewrite (go_log _ Hg) in Hl. apply lookup_seqZ in Hl as [? _]. lia.
Qed.
Lemma log_inj s e e' : gateway_ok s -> e ∈ gw_log s -> e' ∈ gw_log s -> e.1 = e'.1 -> e = e'.
Proof.
  intros Hg [i Hi]%list_elem_of_lookup [j Hj]%list_elem_of_lookup Heq.
  pose proof (log_lookup _ _ _ Hg Hi). pose proof (log_lookup _ _ _ Hg Hj). assert (i = j) as -> by lia. congruence.
Qed.

(** Under any interleaving of connections, messages, broadcasts, heartbeats and the
    drain: a sequence number names one event, whoever receives it and however
    often; every number sent was assigned; and the buffer holds the last
    [REPLAY_BUFFER_SIZE] numbers without a gap. *)
Theorem sequence_is_consistent (store : option T) s : (forall t, store = Some t -> held t = []) -> reachable env o store s ->
  (forall c c' r r' e e', (c, F_event r e) ∈ gw_sent s -> (c', F_event r' e') ∈ gw_sent s -> e.1 = e'.1 -> e = e') /\
  (forall c r e, (c, F_event r e) ∈ gw_sent s -> 1 <= e.1 < gw_nextSeq s) /\
  let n := Z.min (Z.of_nat REPLAY_BUFFER_SIZE) (gw_nextSeq s - 1) in fst <$> gw_ringBuffer s = seqZ (gw_nextSeq s - n) n.
Proof.
  intros Hst Hr. destruct (gateway_reachable_ok _ _ _ _ Hst Hr) as [Hg _]. split_and!.
  - intros c c' r r' e e' H1 H2. apply (log_inj s); [done|by eapply go_sent|by eapply go_sent].
  - intros c r e [i Hi]%(go_sent _ Hg)%list_elem_of_lookup. rewrite (log_lookup _ _ _ Hg Hi), (go_next _ Hg). apply lookup_lt_Some in Hi. lia.
  - cbv zeta. rewrite (go_ring _ Hg), (go_next _ Hg). unfold lastn. rewrite fmap_drop, (go_log _ Hg). set (m := length (gw_log s)).
    set (k := (m - REPLAY_BUFFER_SIZE)%nat). assert (Hk : Z.of_nat m = Z.of_nat k + Z.min (Z.of_nat REPLAY_BUFFER_SIZE) (1 + Z.of_nat m - 1)) by lia.
    rewrite Hk at 1. rewrite seqZ_app by lia. rewrite drop_app_length'; [f_equal; lia|]. rewrite length_seqZ. lia.
Qed.

(** A step that sends only what the connections' filters admit. *)
Definition scoped_step s s' : Prop :=
  exists fs, gw_sent s' = gw_sent s ++ fs /\
    forall c fr, (c, fr) ∈ fs -> match fr with F_event _ e => in_scope (get c (gw_subscribers s)) e.2 | F_remote e => in_scope (get c (gw_subscribers s)) e | _ => True end.

(** ** Replay *)

Lemma send_open c fr s : is_open c s = true -> gw_sent (send c fr s) = gw_sent s ++ [(c, fr)] /\ is_open c (send c fr s) = true /\ gw_subscribers (send c fr s) = gw_subscribers s.
Proof. intros Ho. unfold send. rewrite Ho. split_and!; [done|exact Ho|done]. Qed.

Lemma fold_replayed c f events s : is_open c s = true ->
  let s' := foldl (fun s e => if replay_wants f e.2 then send c (F_event true e) s else s) s events in
  gw_sent s' = gw_sent s ++ ((fun e => (c, F_event true e)) <$> filter (fun e => replay_wants f e.2 = true) events) /\ is_open c s' = true.
Proof.
  revert s. induction events as [|e events IH]; intros s Ho; cbn [foldl]; [by rewrite app_nil_r|]. rewrite filter_cons.
  destruct (replay_wants f e.2) eqn:Ew.
  - destruct (send_open c (F_event true e) s Ho) as (H1 & H2 & _). destruct (IH _ H2) as [H3 H4]. split; [|done].
    cbv zeta in H3. rewrite H3, H1, <- app_assoc. rewrite decide_True by done. done.
  - rewrite decide_False by done. by apply IH.
Qed.

(** The answer to a replay request: what the connection wants of [events]. *)
Definition replayed s (c : string) (fromSeq : Z) (events : list SequencedEvent) : list (string * Frame) :=
  (fun fr => (c, fr)) <$> F_replay_start fromSeq (length events) ::
    (F_event true <$> filter (fun e => replay_wants (get c (gw_subscribers s)) e.2 = true) events) ++ [F_replay_end (length events)].
Lemma send_replayed_exact c fromSeq events s : is_open c s = true -> gw_sent (send_replayed c fromSeq events s) = gw_sent s ++ replayed s c fromSeq events.
Proof.
  intros Ho. unfold send_replayed. cbv zeta. destruct (send_open c (F_replay_start fromSeq (length events)) s Ho) as (H1 & H2 & H3).
  rewrite H3. destruct (fold_replayed c (get c (gw_subscribers s)) events _ H2) as [H4 H5]. destruct (send_open c (F_replay_end (length events)) _ H5) as (H6 & _).
  cbv zeta in H4, H6. rewrite H6, H4, H1. unfold replayed. rewrite fmap_cons, fmap_app, <- list_fmap_compose, <- !app_assoc. done.
Qed.

Lemma later_store s s' : later s s' -> gw_replayStore s = None -> gw_replayStore s' = None.
Proof.
  induction 1 as [|a b c [_ _ Hh] _ IH]; [done|]. intros Hn. apply IH. unfold hist in Hh. destruct Hh as [[= _ _ E _]|(e & clock & _ & _ & [= _ _ E _])]; rewrite E, ?Hn; done.
Qed.

Lemma ring_after s fromSeq : gateway_ok s -> gw_nextSeq s - 1 <= fromSeq + Z.of_nat REPLAY_BUFFER_SIZE ->
  ring_since fromSeq (gw_ringBuffer s) = after fromSeq (gw_log s).
Proof.
  intros Hg Hle. rewrite (go_ring _ Hg). unfold lastn. set (k := (length (gw_log s) - REPLAY_BUFFER_SIZE)%nat). unfold after.
  rewrite <- (take_drop k (gw_log s)) at 2. rewrite filter_app, filter_none; [done|].
  intros e [i Hi]%list_elem_of_lookup. apply lookup_take_Some in Hi as [Hi Hlt]. pose proof (log_lookup _ _ _ Hg Hi). rewrite (go_next _ Hg) in Hle. lia.
Qed.
Lemma ring_oldest s : gateway_ok s -> ring_oldestSeq (gw_ringBuffer s) =
  if gw_nextSeq s =? 1 then -1 else gw_nextSeq s - Z.min (Z.of_nat REPLAY_BUFFER_SIZE) (gw_nextSeq s - 1).
Proof.
  intros Hg. rewrite (go_ring _ Hg), (go_next _ Hg). unfold lastn, ring_oldestSeq. set (m := length (gw_log s)). set (k := (m - REPLAY_BUFFER_SIZE)%nat).
  destruct (drop k (gw_log s)) as [|e l] eqn:Ed.
  - apply (f_equal length) in Ed. rewrite length_drop in Ed. simpl in Ed. unfold REPLAY_BUFFER_SIZE in *. destruct (Z.eqb_spec (1 + Z.of_nat m) 1); lia.
  - assert (Hk : gw_log s !! k = Some e) by (rewrite <- (Nat.add_0_r k), <- lookup_drop, Ed; done).
    rewrite (log_lookup _ _ _ Hg Hk). apply lookup_lt_Some in Hk. fold m in Hk. destruct (Z.eqb_spec (1 + Z.of_nat m) 1); lia.
Qed.


(** With a replay store, any that keeps its promises: the request is answered
    [replay_too_old] when the store says so, and otherwise with all the store holds
    after [fromSeq] that the connection wants. *)
Theorem store_replay_exact s c msg fromSeq nowSec t r oldest :
  is_open c s = true -> get "type" msg = Some (J_str "replay") -> replay_from msg = Some fromSeq ->
  gw_replayStore s = Some t -> since fromSeq t = Some r -> oldestSeq t = Some oldest ->
  exists s', run (handleMessage env o c (Some (J_obj msg)) nowSec) s = (Ok tt, s') /\
    gw_sent s' = gw_sent s ++ if rr_tooOld r then [(c, F_replay_too_old fromSeq oldest)] else replayed s c fromSeq (after fromSeq (held t)).
Proof.
  intros Ho Ht Hf Hst Hs Hold. pose proof (since_held _ _ _ Hs) as Hev.
  unfold handleMessage. rewrite Ht. unfold handleReplay. rewrite Hf, run_pbind, run_atomic. unfold replay_begin. rewrite Ho, Hst, Hs. cbn [negb fst snd].
  destruct (rr_tooOld r).
  - rewrite run_pbind, run_reads, Hst. cbn [mbind option_bind]. rewrite Hold. cbn [run]. eexists. split; [done|].
    by destruct (send_open c (F_replay_too_old fromSeq oldest) s Ho) as (-> & _).
  - cbn [run modify]. eexists. split; [done|]. rewrite Hev. by apply send_replayed_exact.
Qed.

(** ** Heartbeat *)

(** What a beat may change of a connection. *)
Definition view (c : string) s : option SubscriberFilter * option bool * bool := (get c (gw_subscribers s), get c (gw_alive s), is_open c s).

Lemma is_open_filter (P : string -> Prop) `{forall x, Decision (P x)} c (l : list string) : bool_decide (c ∈ filter P l) = bool_decide (P c) && bool_decide (c ∈ l).
Proof. rewrite <- bool_decide_and. apply bool_decide_ext. by rewrite list_elem_of_filter. Qed.
Lemma view_terminate c d s : c <> d -> view c (terminate d s) = view c s.
Proof. intros Hne. unfold view, terminate, is_open. cbn. by rewrite is_open_filter, bool_decide_eq_true_2. Qed.
Lemma view_send c d fr s : view c (send d fr s) = view c s.
Proof. unfold send. by destruct (is_open d s). Qed.
Lemma view_remove c d s : c <> d -> view c (removeSubscriber d s) = view c s.
Proof. intros Hne. unfold view, removeSubscriber, is_open. cbn. by rewrite !get_del_ne by done. Qed.

Lemma beat_other c d s : c <> d -> view c (beat d s) = view c s.
Proof.
  intros Hne. unfold beat. case_bool_decide; [by rewrite view_remove, view_terminate|]. rewrite view_send. unfold view, is_open. cbn. by rewrite get_set_ne.
Qed.
Lemma beat_subscribers_wf d s : wf (gw_subscribers s) -> wf (gw_subscribers (beat d s)).
Proof. apply (sy_wf _ _ _ (beat_says s d s)). Qed.
(** What a beat makes of a connection. *)
Definition beaten (v : option SubscriberFilter * option bool * bool) (v' : option SubscriberFilter * option bool * bool) : Prop :=
  let '(f, alive, up) := v in let '(f', alive', up') := v' in
  if decide (alive = Some false) then f' = None /\ up' = false else f' = f /\ alive' = Some false /\ up' = up.
Lemma beat_self c s : wf (gw_subscribers s) -> beaten (view c s) (view c (beat c s)).
Proof.
  intros Hw. unfold beaten, view at 1. unfold beat. case_bool_decide as Hd.
  - unfold view. cbv beta iota. rewrite decide_True by done. split; [by apply get_del_eq|].
    unfold removeSubscriber, terminate, is_open. cbn. rewrite is_open_filter. apply andb_false_iff. left. apply bool_decide_eq_false_2. naive_solver.
  - rewrite view_send. unfold view. cbv beta iota. rewrite decide_False by done. cbn. by rewrite get_set_eq.
Qed.
Lemma beats c l s : NoDup l -> wf (gw_subscribers s) ->
  if decide (c ∈ l) then beaten (view c s) (view c (foldl (fun s d => beat d s) s l)) else view c (foldl (fun s d => beat d s) s l) = view c s.
Proof.
  intros Hnd. revert s. induction Hnd as [|d l Hni Hnd IH]; intros s Hw; cbn [foldl]; [by rewrite decide_False by apply not_elem_of_nil|].
  specialize (IH (beat d s) (beat_subscribers_wf _ _ Hw)). destruct (decide (c = d)) as [->|Hne].
  - rewrite decide_True by by left. rewrite decide_False in IH by done. rewrite IH. by apply beat_self.
  - rewrite beat_other in IH by done. destruct (decide (c ∈ l)); [rewrite decide_True by (by right); done|].
    rewrite decide_False by (intros [?|?]%elem_of_cons; done). done.
Qed.
Lemma heartbeat_view c f s : wf (gw_subscribers s) -> get c (gw_subscribers s) = Some f -> beaten (view c s) (view c (heartbeat s)).
Proof.
  intros Hw Hf. pose proof (beats c (keys (gw_subscribers s)) s Hw Hw) as Hb. rewrite decide_True in Hb; [done|].
  destruct (decide (c ∈ keys (gw_subscribers s))) as [|Hn]; [done|]. apply get_None_keys in Hn. congruence.
Qed.
Lemma heartbeat_wf s : wf (gw_subscribers s) -> wf (gw_subscribers (heartbeat s)).
Proof. apply (sy_wf (ok_frame s)). apply says_foldl. intros s' d _. apply beat_says. Qed.

(** Of two consecutive heartbeats, the first leaves every connection that answered
    the one before, and the second drops and terminates it exactly when no pong
    came in between. *)
Theorem heartbeat_reaps_silent s c f : wf (gw_subscribers s) -> get c (gw_subscribers s) = Some f -> get c (gw_alive s) = Some true ->
  let s1 := heartbeat s in
  (get c (gw_subscribers s1) = Some f /\ is_open c s1 = is_open c s) /\
  (get c (gw_subscribers (heartbeat s1)) = None /\ is_open c (heartbeat s1) = false) /\
  (get c (gw_subscribers (heartbeat (on_pong c s1))) = Some f /\ is_open c (heartbeat (on_pong c s1)) = is_open c s).
Proof.
  intros Hw Hf Ha s1. pose proof (heartbeat_view c f s Hw Hf) as H1. unfold beaten, view in H1. rewrite Ha, decide_False in H1 by done.
  destruct H1 as (H1 & H2 & H3). rewrite Hf in H1. fold s1 in H1, H2, H3.
  pose proof (heartbeat_view c f s1 (heartbeat_wf _ Hw) H1) as H4. unfold beaten, view in H4. rewrite H2, decide_True in H4 by done.
  pose proof (heartbeat_view c f (on_pong c s1) (heartbeat_wf _ Hw) H1) as H5. unfold beaten, view in H5.
  assert (Hp : get c (gw_alive (on_pong c s1)) = Some true) by apply get_set_eq. rewrite Hp, decide_False in H5 by done.
  destruct H5 as (H5 & _ & H6). split_and!; [done|done|apply H4|apply H4|by rewrite H5|by rewrite H6].
Qed.

(** ** Draining *)

Lemma fold_send fr l s : let s' := foldl (fun s c => send c fr s) s l in
  gw_sent s' = gw_sent s ++ ((fun c => (c, fr)) <$> filter (fun c => c ∈ gw_open s) l) /\
  gw_open s' = gw_open s /\ gw_subscribers s' = gw_subscribers s /\ gw_connections s' = gw_connections s /\ gw_draining s' = gw_draining s.
Proof.
  revert s. induction l as [|c l IH]; intros s; cbn [foldl]; [by rewrite app_nil_r|]. destruct (IH (send c fr s)) as (H1 & H2 & H3 & H4 & H5). cbv zeta.
  rewrite H1, H2, H3, H4, H5. clear. rewrite filter_cons. unfold send, is_open. case_bool_decide as Ho.
  - rewrite decide_True by done. cbn. by rewrite <- app_assoc.
  - by rewrite decide_False by done.
Qed.

(** Closing a connection and forgetting it. *)
Definition shut (c : string) s : Gateway T := removeSubscriber c (if is_open c s then close c 1001 s else s).
Lemma shut_sent c s : gw_sent (shut c s) = gw_sent s ++ (if decide (c ∈ gw_open s) then [(c, F_close 1001)] else []).
Proof.
  unfold shut, close, send, is_open. case_bool_decide as Ho; cbn; [by rewrite decide_True by done|].
  by rewrite decide_False, app_nil_r by done.
Qed.
Lemma shut_open c s d : d ∈ gw_open (shut c s) <-> d <> c /\ d ∈ gw_open s.
Proof.
  unfold shut, close, send, is_open. case_bool_decide as Ho; cbn; [by rewrite list_elem_of_filter|]. naive_solver.
Qed.
Lemma shut_rest c s : gw_subscribers (shut c s) = del c (gw_subscribers s) /\ gw_draining (shut c s) = gw_draining s /\
  gw_connections (shut c s) = if has c (gw_subscribers s) then gw_connections s - 1 else gw_connections s.
Proof. unfold shut, close, send. destruct (is_open c s) eqn:Ho; cbn; by rewrite ?Ho. Qed.

Lemma close_batch_exact l s : NoDup l -> wf (gw_subscribers s) -> Forall (fun c => has c (gw_subscribers s) = true) l ->
  let s' := close_batch l s in
  gw_sent s' = gw_sent s ++ ((fun c => (c, F_close 1001)) <$> filter (fun c => c ∈ gw_open s) l) /\
  (forall d, d ∈ gw_open s' <-> d ∉ l /\ d ∈ gw_open s) /\ (forall d, get d (gw_subscribers s') = if decide (d ∈ l) then None else get d (gw_subscribers s)) /\
  gw_connections s' = gw_connections s - Z.of_nat (length l) /\ gw_draining s' = gw_draining s.
Proof.
  intros Hnd. revert s. induction Hnd as [|c l Hni Hnd IH]; intros s Hw Hall.
  { cbn. split_and!; [by rewrite app_nil_r| |done|lia|done]. intros d. split; [|tauto]. intros Hd. split; [apply not_elem_of_nil|done]. }
  apply Forall_cons in Hall as [Hc Hall]. unfold close_batch. cbn [foldl]. fold (shut c s) (close_batch l (shut c s)).
  destruct (shut_rest c s) as (R1 & R2 & R3). rewrite Hc in R3. destruct (IH (shut c s)) as (H1 & H2 & H3 & H4 & H5).
  { rewrite R1. by apply del_wf. }
  { rewrite R1. apply Forall_forall. intros d Hd. rewrite Forall_forall in Hall. specialize (Hall d Hd). unfold has in *. rewrite get_del_ne; [done|]. by intros ->. }
  cbv zeta. split_and!.
  - rewrite H1, shut_sent, <- app_assoc. f_equal. rewrite filter_cons.
    rewrite (filter_iff_on (fun d => d ∈ gw_open (shut c s)) (fun d => d ∈ gw_open s) l).
    + by destruct (decide (c ∈ gw_open s)).
    + intros d Hd. rewrite shut_open. split; [tauto|]. intros Hi. split; [by intros ->|done].
  - intros d. rewrite H2, shut_open, elem_of_cons. tauto.
  - intros d. rewrite H3, R1. destruct (decide (d = c)) as [->|Hne].
    + rewrite (decide_False (P := c ∈ l)), (decide_True (P := c ∈ c :: l)) by (done || by left). by apply get_del_eq.
    + rewrite get_del_ne by done. destruct (decide (d ∈ l)); [by rewrite decide_True by by right|]. rewrite decide_False; [done|]. by intros [?|?]%elem_of_cons.
  - rewrite H4, R3. cbn [length]. lia.
  - by rewrite H5.
Qed.

Lemma run_batches (bs : list (list string)) s :
  run (pfold (fun _ b => modify (close_batch b)) tt bs : prog (Gateway T) unit unit) s = (Ok tt, close_batch (concat bs) s).
Proof.
  revert s. induction bs as [|b bs IH]; intros s; [done|]. cbn [pfold concat]. rewrite run_pbind. cbn [modify run]. rewrite IH. unfold close_batch.
  by rewrite foldl_app.
Qed.

(** A shutdown that is not disturbed: every open connection is told where to resume,
    namely after the last number assigned, and is closed; no subscriber is left,
    the gauge falls by their number, and whoever connects afterwards is refused. *)
Theorem drain_closes_everyone s : wf (gw_subscribers s) -> gw_draining s = false ->
  let live := filter (fun c => c ∈ gw_open s) (keys (gw_subscribers s)) in
  exists s', run startDraining s = (Ok tt, s') /\
    gw_sent s' = gw_sent s ++ ((fun c => (c, F_server_draining (gw_nextSeq s - 1))) <$> live) ++ ((fun c => (c, F_close 1001)) <$> live) /\
    (forall c, c ∈ keys (gw_subscribers s) -> c ∉ gw_open s') /\ gw_subscribers s' = [] /\
    gw_connections s' = gw_connections s - Z.of_nat (length (gw_subscribers s)) /\
    forall c protocol token nowSec order, run (handleConnection o c protocol token nowSec order) s' = (Ok tt, close c 1001 s').
Proof.
  intros Hw Hd live. set (cs := keys (gw_subscribers s)).
  assert (Hrun : run startDraining s = (Ok tt, close_batch cs (announce s))).
  { unfold startDraining. rewrite run_pbind, run_atomic. unfold drain_begin. rewrite Hd. cbv zeta. fold cs.
    destruct (batches_spec (length cs) (batchSize (length cs)) cs) as [Hb _]; [unfold batchSize; lia|done|].
    destruct (batches _ _ cs) as [|b bs]; cbn [fst snd].
    - cbn [concat] in Hb. by rewrite <- Hb.
    - rewrite run_batches, <- Hb. cbn [concat]. unfold close_batch. by rewrite foldl_app. }
  destruct (fold_send (F_server_draining (gw_nextSeq s - 1)) cs (put_flags true (gw_published s) (gw_delivered s) (gw_filtered s) s)) as (A1 & A2 & A3 & A4 & A5).
  change (foldl _ _ cs) with (announce s) in A1, A2, A3, A4, A5. cbn [put_flags gw_sent gw_open gw_subscribers gw_connections gw_draining] in A1, A2, A3, A4, A5.
  destruct (close_batch_exact cs (announce s)) as (C1 & C2 & C3 & C4 & C5); [done|by rewrite A3| |].
  { rewrite A3. apply Forall_forall. intros c Hc. unfold has. destruct (get c _) eqn:E; [done|]. by apply get_None_keys in E. }
  exists (close_batch cs (announce s)). split_and!; [done| | | | |].
  - rewrite C1, A1, A2, <- app_assoc. done.
  - intros c Hc. rewrite C2. tauto.
  - destruct (gw_subscribers (close_batch cs (announce s))) as [|[c f] l] eqn:E; [done|]. pose proof (C3 c) as Hc. rewrite A3 in Hc. 
    assert (Hg : get c ((c, f) :: l) = Some f) by (cbn [get]; by rewrite bool_decide_eq_true_2). rewrite Hg in Hc.
    destruct (decide (c ∈ cs)) as [|Hn]; [done|]. apply get_None_keys in Hn. congruence.
  - rewrite C4, A4. unfold cs, keys. by rewrite length_fmap.
  - intros c protocol token nowSec order. unfold handleConnection. rewrite run_pbind, run_atomic. unfold connect_begin. by rewrite C5, A5.
Qed.

(** ** Authentication *)

(** What binds a solver to a connection: a token whose subject it is, or its
    signature over a timestamp at most 300 seconds away. *)
Definition proves (nowSec : Z) (msg : jsmap json) (address : string) : Prop :=
  (exists token c, get "token" msg = Some (J_str token) /\ token_claims o token nowSec = Some c /\ jc_sub c = address) \/
  (exists timestamp, get "timestamp" msg = Some (J_num (Fin timestamp)) /\ skewed nowSec timestamp = false /\ address = as_text (get "solver" msg) /\
     ao_signed o address timestamp (as_text (get "signature" msg)) = true).

Lemma send_auth c fr s : gw_authenticatedSolver (send c fr s) = gw_authenticatedSolver s.
Proof. unfold send. by destruct (is_open c s). Qed.
Lemma install_auth c r s : gw_authenticatedSolver (installSolver c r s).2 = gw_authenticatedSolver s \/
  gw_authenticatedSolver (installSolver c r s).2 = set c (so_address r) (gw_authenticatedSolver s).
Proof.
  unfold installSolver. destruct (build_predicate r); [|by left]. right. cbv zeta. cbn [snd]. destruct (getEligibleFor r _); by rewrite ?send_auth.
Qed.
Lemma bind_auth c a verified s d : let s' := (run (bind_solver c a verified) s).2 in get d (gw_authenticatedSolver s') <> get d (gw_authenticatedSolver s) ->
  verified = true /\ d = c /\ gw_down s = false /\ exists r, get a (gw_solvers s) = Some r /\ so_isActive r = true /\ get d (gw_authenticatedSolver s') = Some (so_address r).
Proof.
  unfold bind_solver. rewrite run_pbind, run_reads. unfold find_solver. destruct (gw_down s); [done|].
  destruct (get a (gw_solvers s)) as [r|]; [|cbn; by rewrite send_auth]. destruct (so_isActive r) eqn:Ea; cbn [negb]; [|cbn; by rewrite send_auth].
  destruct verified; [|cbn; by rewrite send_auth]. unfold install_step. rewrite run_pbind, run_atomic. cbv zeta.
  assert (Hs : (run (match (installSolver c r s).1 with Some _ => Done tt | None => Throw tt end : prog (Gateway T) unit unit) (installSolver c r s).2).2 = (installSolver c r s).2)
    by by destruct (installSolver c r s).1.
  rewrite Hs. destruct (install_auth c r s) as [->| ->]; [done|]. rewrite get_set. case_decide as Hd; [|done]. intros _. subst. split_and!; try done. by exists r.
Qed.
Lemma send_replayed_auth c fromSeq evs s : gw_authenticatedSolver (send_replayed c fromSeq evs s) = gw_authenticatedSolver s.
Proof.
  unfold send_replayed. cbv zeta. rewrite send_auth. generalize (get c (gw_subscribers (send c (F_replay_start fromSeq (length evs)) s))). intros f.
  transitivity (gw_authenticatedSolver (send c (F_replay_start fromSeq (length evs)) s)); [|apply send_auth].
  generalize (send c (F_replay_start fromSeq (length evs)) s). induction evs as [|e evs IH]; intros s1; [done|]. cbn [foldl]. rewrite IH.
  destruct (replay_wants f e.2); [apply send_auth|done].
Qed.
Lemma replay_auth c msg s : gw_authenticatedSolver (run (handleReplay c msg) s).2 = gw_authenticatedSolver s.
Proof.
  unfold handleReplay. destruct (replay_from msg) as [fromSeq|]; [|done]. rewrite run_pbind, run_atomic. unfold replay_begin, replay_ring.
  destruct (negb (is_open c s)); [done|]. destruct (gw_replayStore s) as [t|] eqn:Et; cbn [fst snd].
  - destruct (since fromSeq t) as [r|]; [|done]. destruct (rr_tooOld r).
    + rewrite run_pbind, run_reads, Et. cbn [mbind option_bind]. destruct (oldestSeq t); [|done]. cbn. apply send_auth.
    + cbn. apply send_replayed_auth.
  - cbn. destruct (negb _ && _); [apply send_auth|apply send_replayed_auth].
Qed.
Lemma subscribe_auth c msg s : gw_authenticatedSolver (handleSubscribe env c msg s) = gw_authenticatedSolver s.
Proof.
  unfold handleSubscribe. repeat match goal with |- gw_authenticatedSolver (match ?x with _ => _ end) = _ => destruct x end; try done; by rewrite send_auth.
Qed.

(** A message changes whom a connection is authenticated as only for the sender's
    own connection, only to a registered active solver, and only when it carries
    that solver's token or its fresh signature. *)
Theorem auth_needs_proof s c raw nowSec d :
  let s' := (run (handleMessage env o c raw nowSec) s).2 in
  get d (gw_authenticatedSolver s') <> get d (gw_authenticatedSolver s) ->
  d = c /\ exists msg address r, raw = Some (J_obj msg) /\ proves nowSec msg address /\
    get address (gw_solvers s) = Some r /\ so_isActive r = true /\ get d (gw_authenticatedSolver s') = Some (so_address r).
Proof.
  unfold handleMessage. destruct raw as [[]|]; try done. destruct (get "type" m) as [[| | |t| |]|]; try done.
  destruct (decide (t = "auth")) as [->|Hna].
  - unfold handleAuth, authenticateJwt. cbv zeta.
    assert (Hbind : forall a v, (v = true -> proves nowSec m a) ->
      get d (gw_authenticatedSolver (run (bind_solver c a v) s).2) <> get d (gw_authenticatedSolver s) ->
      d = c /\ exists msg address r, Some (J_obj m) = Some (J_obj msg) /\ proves nowSec msg address /\
        get address (gw_solvers s) = Some r /\ so_isActive r = true /\ get d (gw_authenticatedSolver (run (bind_solver c a v) s).2) = Some (so_address r)).
    { intros a v Hp Hne. destruct (bind_auth c a v s d Hne) as (Hv & Hd & _ & r & Hr). split; [done|]. exists m, a, r. split_and!; [done|by apply Hp|apply Hr..]. }
    destruct (get "token" m) as [[| | |token| |]|] eqn:Etok; cbv beta iota.
    4:{ destruct (token_claims o token nowSec) as [cl|] eqn:Ecl; [|cbn; by rewrite send_auth]. apply Hbind. intros _. left. by exists token, cl. }
    all: destruct (_ || _); [cbn; by rewrite send_auth|];
      (destruct (get "timestamp" m) as [[| |[ts| |]| | |]|] eqn:Ets; cbv beta iota; try (cbn; by rewrite send_auth));
      (destruct (skewed nowSec ts) eqn:Esk; [cbn; by rewrite send_auth|]); apply Hbind; intros Hv; right; by exists ts.
  - destruct (decide (t = "subscribe")) as [->|Hns]; [cbn; by rewrite subscribe_auth|].
    destruct (decide (t = "replay")) as [->|Hnr]; [cbv beta iota zeta; by rewrite replay_auth|].
    intros Hne. exfalso. apply Hne. clear Hne.
    repeat match goal with |- context [match ?x with _ => _ end] => is_var x; destruct x end; try done; congruence.
Qed.
End theorems.

(** ** Negotiation and the bound of the store *)

(** The upgrade succeeds and the connection is kept exactly for clients that offer
    no subprotocol or offer [vortex.v1] among others. *)
Theorem protocol_exact protocols : "" ∉ protocols -> is_Some (resolveProtocol (negotiateProtocol protocols)) <-> protocols = [] \/ WS_PROTOCOL_V1 ∈ protocols.
Proof.
  intros Hne. unfold resolveProtocol. destruct protocols as [|p0 ps]; [split; [by left|by eexists]|].
  unfold negotiateProtocol. destruct (list_find _ (p0 :: ps)) as [[n p]|] eqn:Ef; cbn [fmap option_fmap option_map snd default].
  - apply list_find_Some in Ef as (Hn & Hp & _). apply list_elem_of_singleton in Hp as ->. rewrite (bool_decide_eq_true_2 (WS_PROTOCOL_V1 = WS_PROTOCOL_V1)) by done.
    rewrite orb_true_r. split; [|by eexists]. intros _. right. by eapply list_elem_of_lookup_2.
  - apply list_find_None in Ef. rewrite Forall_forall in Ef. assert (Hno : forall p, p ∈ p0 :: ps -> p <> WS_PROTOCOL_V1).
    { intros p Hp ->. apply (Ef _ Hp). by apply list_elem_of_singleton. }
    rewrite !bool_decide_eq_false_2; [|apply Hno; by left|intros ->; apply Hne; by left].
    split; [by intros [? ?]|]. intros [?|Hv]; [done|]. by destruct (Hno _ Hv).
Qed.

Lemma evict_age_length cutoff buf : (length (evict_age cutoff buf) <= length buf)%nat.
Proof. destruct (evict_age_suffix cutoff buf) as [l Hl]. apply (f_equal length) in Hl. rewrite length_app in Hl. lia. Qed.
(** The memory store never holds more than [maxCount] events, and what it drops for
    room is older than all it keeps. *)
Theorem memory_store_bounded clock e m :
  (length (ms_buf (memory_append clock e m)) <= ms_maxCount m)%nat /\
  exists lost, (se_event <$> ms_buf m) ++ [e] = lost ++ (se_event <$> ms_buf (memory_append clock e m)).
Proof.
  split; [|exact (append_held clock e m _ eq_refl)]. unfold memory_append. cbn [put_buf ms_buf].
  pose proof (evict_count_length (ms_maxCount m) (ms_buf m ++ [{| se_event := e; se_timestamp := clock.1 |}])).
  destruct (ms_maxAgeMs m) as [a|]; [|done]. etrans; [apply evict_age_length|done].
Qed.

(** * Witnesses *)

Definition demo_env : GatewayEnv := {| ev_maxSubscriptions := None; ev_maxFilterChains := None; ev_backplane := false |}.
Definition demo_oracle : AuthOracle := {| ao_eddsa := fun _ => None; ao_hs256 := fun _ => None; ao_signed := fun _ _ _ => true |}.
Definition created : WsEvent := {| we_type := "intent_created"; we_intent := Some demo_intent; we_intentId := None; we_srcChain := None |}.
Definition cancelled_event : WsEvent := {| we_type := "intent_cancelled"; we_intent := None; we_intentId := Some "i1"; we_srcChain := None |}.
Definition no_store : option MemoryReplayStore := None.
Definition num_json (z : Z) : json := J_num (Fin (of_Z z)).
Definition replay_msg (fromSeq : Z) : jsmap json := [("type", J_str "replay"); ("fromSeq", num_json fromSeq)].
Definition subscribe_msg (chains : list string) : jsmap json := [("type", J_str "subscribe"); ("chains", J_arr (J_str <$> chains))].
Definition all_msg : jsmap json := [("type", J_str "subscribe"); ("all", J_bool true)].
Definition auth_msg : jsmap json := [("type", J_str "auth"); ("solver", J_str "GS"); ("signature", J_str "sig"); ("timestamp", num_json 1000)].
Definition message (c : string) (m : jsmap json) : GatewayCall := C_message c (Some (J_obj m)) 1000.

(** Calls that run one after the other. *)
Definition runs (calls : list GatewayCall) (s : Gateway MemoryReplayStore) : Gateway MemoryReplayStore := foldl (fun s c => (run (call demo_env demo_oracle c) s).2) s calls.
Definition services : GatewayCall := C_services demo_repo [("GS", demo_solver)] false.
Definition joined (c : string) : list GatewayCall := [C_sockets [c]; services; C_connect c "" None 1000 []].

Lemma run_reaches {A} (p : prog (Gateway MemoryReplayStore) unit A) s ps n : ps !! n = Some p ->
  exists q, rtc pool_step (s, ps) ((run p s).2, <[n := q]> ps).
Proof.
  revert s ps. induction p as [a|e|upd k IH]; intros s ps Hn.
  - exists (Done a). rewrite list_insert_id by done. done.
  - exists (Throw e). rewrite list_insert_id by done. done.
  - destruct (IH s (upd s) (<[n := k s]> ps)) as [q Hq].
    { apply list_lookup_insert_eq. by eapply lookup_lt_Some. }
    exists q. eapply rtc_l; [by apply pool_one|]. by rewrite list_insert_insert_eq in Hq.
Qed.
Lemma runs_reachable calls : reachable demo_env demo_oracle no_store (runs calls (boot no_store)).
Proof.
  exists calls. assert (Hgen : forall todo done_ s, calls = done_ ++ todo -> forall ps, length ps = length done_ ->
    exists ps', rtc pool_step (s, ps ++ (call demo_env demo_oracle <$> todo)) (runs todo s, ps')).
  { induction todo as [|c todo IH]; intros done_ s Hc ps Hl; [by eexists|]. rewrite fmap_cons.
    destruct (run_reaches (call demo_env demo_oracle c) s (ps ++ call demo_env demo_oracle c :: (call demo_env demo_oracle <$> todo)) (length ps)) as [q Hq].
    { by rewrite list_lookup_middle. }
    rewrite insert_app_r_alt, Nat.sub_diag in Hq by done. cbn [insert list_insert] in Hq.
    destruct (IH (done_ ++ [c]) (run (call demo_env demo_oracle c) s).2) with (ps := ps ++ [q]) as [ps' Hps].
    { by rewrite <- app_assoc. }
    { rewrite !length_app. cbn. lia. }
    exists ps'. etrans; [exact Hq|]. by rewrite <- app_assoc in Hps. }
  destruct (Hgen calls [] (boot no_store) eq_refl [] eq_refl) as [ps' Hps]. by exists ps'.
Qed.

Definition demo_run : list GatewayCall := joined "a" ++ [C_broadcast (0, 0) created; C_broadcast (1, 1) cancelled_event].
Definition demo_state : Gateway MemoryReplayStore := runs demo_run (boot no_store).

Lemma sequence_is_consistent_witness :
  length (gw_sent demo_state) = 4%nat /\ let n := Z.min (Z.of_nat REPLAY_BUFFER_SIZE) (gw_nextSeq demo_state - 1) in fst <$> gw_ringBuffer demo_state = seqZ (gw_nextSeq demo_state - n) n.
Proof. split; [vm_compute; reflexivity|]. apply (sequence_is_consistent demo_env demo_oracle no_store demo_state); [done|apply runs_reachable]. Defined.
Definition demo_store : MemoryReplayStore := {| ms_buf := [{| se_event := (1, created); se_timestamp := 0 |}]; ms_maxCount := 5; ms_maxAgeMs := None |}.
Definition stored_state : Gateway MemoryReplayStore := runs (joined "a") (boot (Some demo_store)).
Lemma store_replay_exact_witness : exists s', run (handleMessage demo_env demo_oracle "a" (Some (J_obj (replay_msg 0))) 1000) stored_state = (Ok tt, s') /\
  gw_sent s' = gw_sent stored_state ++ [("a", F_replay_start 0 1); ("a", F_event true (1, created)); ("a", F_replay_end 1)].
Proof.
  destruct (store_replay_exact demo_env demo_oracle stored_state "a" (replay_msg 0) 0 1000 demo_store {| rr_events := [(1, created)]; rr_tooOld := false |} 1) as (s' & H1 & H2);
    [vm_compute; reflexivity|reflexivity|vm_compute; reflexivity|reflexivity|reflexivity|reflexivity|].
  exists s'. split; [exact H1|]. rewrite H2. reflexivity.
Defined.
Lemma heartbeat_reaps_silent_witness : get "a" (gw_subscribers (heartbeat (heartbeat demo_state))) = None.
Proof. apply (heartbeat_reaps_silent demo_state "a" no_filter); [apply (bool_decide_unpack _); vm_compute; exact I|reflexivity|reflexivity]. Defined.
Lemma drain_closes_everyone_witness : exists s', run startDraining demo_state = (Ok tt, s') /\ gw_subscribers s' = [].
Proof.
  destruct (drain_closes_everyone demo_oracle demo_state) as (s' & H1 & _ & _ & H2 & _); [apply (bool_decide_unpack _); vm_compute; exact I|reflexivity|].
  exists s'. split; [exact H1|exact H2].
Defined.
Lemma auth_needs_proof_witness : exists r, so_isActive r = true /\
  get "a" (gw_authenticatedSolver (run (handleMessage demo_env demo_oracle "a" (Some (J_obj auth_msg)) 1000) demo_state).2) = Some (so_address r).
Proof.
  destruct (auth_needs_proof demo_env demo_oracle demo_state "a" (Some (J_obj auth_msg)) 1000 "a") as (_ & msg & a & r & _ & _ & _ & Ha & Hr); [vm_compute; discriminate|].
  exists r. split; [exact Ha|exact Hr].
Defined.
Lemma protocol_exact_witness : is_Some (resolveProtocol (negotiateProtocol ["x"; "vortex.v1"])).
Proof. apply (protocol_exact ["x"; "vortex.v1"]); [set_solver|]. right. set_solver. Defined.

(** * Where the code departs from its comments *)

(** A subscription to chains leaves the solver's predicate in place, and the
    predicate decides: the chains have no effect. *)
Theorem chains_keep_solver :
  let s := runs (joined "a" ++ [message "a" auth_msg; message "a" (subscribe_msg ["polygon"])]) (boot no_store) in
  ((fun f => (sp_solverAddress <$> sf_solver f, sf_chains f)) <$> get "a" (gw_subscribers s)) = Some (Some "GS", Some [polygon]) /\
  last (gw_sent (runs [C_broadcast (0, 0) created] s)) = Some ("a", F_event false (1, created)).
Proof. vm_compute. split; reflexivity. Qed.

(** [all] cannot be taken back: the client is told its chains are set, and still
    receives everything; nor does [all] count as a subscription. *)
Theorem all_is_never_undone :
  let s := runs (joined "a" ++ [message "a" all_msg; message "a" (subscribe_msg ["polygon"])]) (boot no_store) in
  last (gw_sent s) = Some ("a", F_subscribed [polygon]) /\ last (gw_sent (runs [C_broadcast (0, 0) created] s)) = Some ("a", F_event false (1, created)).
Proof. vm_compute. split; reflexivity. Qed.
Theorem all_is_not_counted :
  let s := runs (joined "a" ++ repeat (message "a" (subscribe_msg [])) 10) (boot no_store) in
  last (gw_sent (runs [message "a" (subscribe_msg [])] s)) = Some ("a", F_too_many_subscriptions) /\
  last (gw_sent (runs [message "a" all_msg] s)) = Some ("a", F_subscribed_all).
Proof. vm_compute. split; reflexivity. Qed.

(** A connection that breaks while its solver is looked up is entered again by the
    answer, and leaving a second time makes the gauge negative. *)
Theorem gauge_goes_negative :
  let s := (schedule [0; 1; 0; 2]%nat (runs (joined "a") (boot no_store)) (call demo_env demo_oracle <$> [message "a" auth_msg; C_gone "a"; C_gone "a"])).1 in
  gw_connections s = -1 /\ gw_subscribers s = [].
Proof. vm_compute. split; reflexivity. Qed.

(** A broadcast that waits for its lookup is overtaken by the next one.  The client
    that saw the later number resumes after it, and the earlier event is lost to
    it: it is neither sent, for the client is gone, nor replayed. *)
Definition cut_off : Gateway MemoryReplayStore :=
  (schedule [0; 1; 1; 2; 0]%nat (runs (joined "a") (boot no_store))
     (call demo_env demo_oracle <$> [C_broadcast (0, 0) cancelled_event; C_broadcast (0, 0) created; C_gone "a"])).1.
Definition event_seqs (l : list (string * Frame)) : list (string * Z) := omap (fun '(c, fr) => match fr with F_event _ e => Some (c, e.1) | _ => None end) l.
Theorem overtaken_event_is_lost :
  event_seqs (gw_sent cut_off) = [("a", 2)] /\
  event_seqs (gw_sent (runs [C_sockets ["b"]; C_connect "b" "" None 1000 []; message "b" (replay_msg 2)] cut_off)) = [("a", 2)].
Proof. vm_compute. split; reflexivity. Qed.

(** Replay filters by the intent an event carries, live delivery only for
    [intent_created]: the same event of the same connection is sent live and not
    replayed. *)
Definition verified_event : WsEvent := {| we_type := "intent_src_verified"; we_intent := Some demo_intent; we_intentId := Some "i1"; we_srcChain := None |}.
Theorem replay_filters_more :
  let s := runs (joined "a" ++ [message "a" (subscribe_msg ["polygon"]); C_broadcast (0, 0) verified_event]) (boot no_store) in
  last (gw_sent s) = Some ("a", F_event false (1, verified_event)) /\
  gw_sent (runs [message "a" (replay_msg 0)] s) = gw_sent s ++ [("a", F_replay_start 0 1); ("a", F_replay_end 1)].
Proof. vm_compute. split; reflexivity. Qed.

(** Both listeners of the channel deliver a message. *)
Theorem remote_event_is_sent_twice :
  let s := runs (joined "a") (boot no_store) in
  gw_sent (runs [C_channel created] s) = gw_sent s ++ [("a", F_remote created); ("a", F_remote created)].
Proof. vm_compute. reflexivity. Qed.

(** A gateway that starts again counts from 1: a client of the one before, asking for
    what followed 37, is told it has missed nothing. *)
Theorem restart_hides_the_gap :
  let s := runs (joined "a" ++ [C_broadcast (0, 0) created]) (boot no_store) in
  gw_sent (runs [message "a" (replay_msg 37)] s) = gw_sent s ++ [("a", F_replay_start 37 0); ("a", F_replay_end 0)].
Proof. vm_compute. reflexivity. Qed.

(** The Redis store outlives the gateway, and refuses the numbers of the next one. *)
Definition old_stream : RedisReplayStore :=
  {| rd_stream := [(36, created); (37, cancelled_event)]; rd_lastId := 37; rd_maxCount := 500; rd_maxAgeMs := None; rd_up := true; rd_trim := fun n => n |}.
Theorem restart_is_not_stored event s : gw_replayStore s = Some old_stream -> gw_nextSeq s = 1 ->
  gw_replayStore (broadcast_begin (0, 0) event s).2 = Some old_stream.
Proof. intros Hs Hn. unfold broadcast_begin. cbn. rewrite Hs, Hn. reflexivity. Qed.

(** A client that is up to date is told its position is too old. *)
Theorem up_to_date_is_too_old : redis_since 37 old_stream = Some {| rr_events := []; rr_tooOld := true |}.
Proof. reflexivity. Qed.

(** Trimming by age compares the time with ids that start with 0, and so may remove
    every event, the one just added included. *)
Theorem age_trims_everything now maxAge event r : rd_up r = true -> rd_maxAgeMs r = Some maxAge -> maxAge < now -> (forall n, rd_trim r n = n) -> rd_lastId r < event.1 ->
  exists r', redis_append (now, now) event r = Some r' /\ rd_stream r' = [].
Proof.
  intros Hup Hage Hnow Htrim Hid. unfold redis_append. rewrite Hup, Hage. cbn [negb]. destruct (Z.leb_spec event.1 (rd_lastId r)); [lia|].
  eexists. split; [done|]. cbn [put_stream rd_stream]. unfold trim_stream at 1. unfold below_minid. cbn [snd]. rewrite (proj2 (Z.ltb_lt 0 (now - maxAge))) by lia.
  rewrite Htrim, Nat.min_id. apply drop_all.
Qed.

(** [since] of the ring returns what it holds, however old the position. *)
Theorem ring_since_ignores_age : ring_since 0 [(500, created)] = [(500, created)].
Proof. reflexivity. Qed.
